(* ===== verification/_CoqProject ===== *)
-Q . S2P
Prelude.v
GoStrings.v
Float64.v
Registry.v
Gate.v
Revocation.v
RateLimit.v
Scope.v
ExecLimit.v
Wire.v
Outbox.v
Hub.v
Delivery.v
MonitorSchedule.v
SSHPool.v
PoolSlots.v
PoolOwners.v
Lease.v
Text.v
UsageLog.v
UsageRepo.v
UsageRecorder.v
UsageCapture.v
UsageBounds.v
UsageAccount.v
UsageTruth.v
DeployQueue.v
InstallJobs.v
ApiKeys.v
MetricBudget.v
MetricRollup.v
NetIP.v
Servers.v
Base64.v
Secrets.v
Json.v
SecretMigration.v
Socks5.v
SSHRoute.v
RelayText.v
ServiceRelay.v
Sftp.v
SftpUpload.v
SftpDownload.v
UpdateCheck.v
Settings.v
SettingsService.v
Auth.v
Setup.v
Terminal.v
TerminalSession.v
TerminalTeardown.v
