(* ===== verification/Prelude.v ===== *)
(** * Talus: a verification development of the Hub's and the agent's core logic

    Talus manages servers from a Hub: it opens browser terminals and runs commands over
    SSH, relays services, transfers files, collects metrics through resident agents, and keeps
    a history of what was done.  This library models the parts of the Go code under src/backend
    that decide what is allowed, what is kept and what is counted, and proves what those
    parts promise.  Paths below are relative to src/backend/internal.

    ** Files

    - [Prelude] (this file): machine integers with their wrap-around, time, errors as
      values, automation ([bools], [splits]), counting and summing over lists and maps.
      [GoStrings]: the functions of packages strings, strconv, net and encoding/hex the
      sources use.  [Float64]: Go's float64.  [Text]: UTF-8 and bounded labels
      (usage/operation.go [boundedText], repository/usage_log.go [legacyLabel]).
    - Sessions.  [Registry] (gate/registry.go): terminal sessions and their revocation.
      [Gate] (gate/gate.go): the per-user lock under which requests are admitted and
      versions change.  [Revocation] (service/auth.go [ChangePassword], repository/user.go,
      the gated steps of service/terminal.go and server/middleware/auth.go): their
      composition over an interface of the database, class [UserDB].
    - Requests.  [RateLimit] (server/middleware/ratelimit.go), [Scope]
      (server/middleware/scope.go), [ExecLimit] (service/execlimit.go, service/ssh.go).
    - Monitoring.  [Wire] (agentwire/wire.go): messages and their validation.  [Outbox]
      (agentclient/spool.go): the agent's files, with failing system calls and crashes.
      [Hub] (service/resident_monitor.go, repository/agent_node.go): receipt and storage.
      [Delivery]: agent and Hub together, over a network that loses and repeats.
      [MonitorSchedule] (service/monitor_schedule.go): when which node is collected.
    - SSH connections.  [SSHPool] (pkg/sshpool/pool.go): the pool, its leases and the
      sections its goroutines execute; [PoolSlots]: the semaphores and their accounting;
      [PoolOwners]: who owns which transport.  [Lease] (service/lease.go, service/ssh.go):
      the lease a consumer holds, its single primitive, settlement and cleanup clock.
    - History of operations.  [UsageLog] (model/usage_log.go, model/usage_policy.go,
      usage/operation.go): rows, retention, operations and their setters.  [UsageRepo]
      (repository/usage_log.go): each transaction on the history.  [UsageRecorder]
      (usage/recorder.go): each critical section of the recorder.  [UsageCapture]: the
      recorder's goroutines, the database and other instances as one step function.
      [UsageBounds], [UsageAccount], [UsageTruth]: three invariants of it, each using the
      previous ones.

    - Deployments.  [DeployQueue] (service/agent_deploy_queue.go): the queue of agent
      deployments.  [InstallJobs] (service/resident_scheduler.go, resident_deploy.go,
      server.go [Delete]): installations and the fence a removal raises against them.
    - API keys.  [ApiKeys] (service/apikey*.go, repository/apikey*.go): keys, their
      permission revisions and rotation, under the gate of [Gate] and over the interface
      [UserDB] of [Revocation].
    - Metrics.  [MetricBudget] (repository/metric_budget.go): granularity and size of a
      query.  [MetricRollup] (repository/metric_rollup.go, metric_delta.go,
      metric_budget_query.go): buckets, counters, the rollup table, retention.
    - Servers.  [NetIP]: the parts of package net for addresses.  [Servers]
      (service/server_connection.go, repository/server_connection.go, ssh_route.go): rows,
      routes and host keys, written by interleaved locking transactions.
    - Secrets.  [Base64]: encoding/base64.  [Secrets] (pkg/crypto, service/credential.go):
      keys, sealing, credentials.  [SecretMigration] (repository/secret_migration.go).
      [Json]: a decoder for what encoding/json writes of strings and integers.
    - Dialling.  [Socks5] (pkg/sshpool/route.go): the proxy client.  [SSHRoute]
      (pkg/sshpool/dial.go, route.go, service/ssh_route.go): handshakes, chains, and the
      loop that hands out a connection on the committed route.
    - Relay.  [RelayText], [ServiceRelay] (service/service_relay.go, repository/service.go,
      handler/service.go): placeholders and URLs; the request sent and the answer given.
    - Files.  [Sftp] (service/sftp.go, sftp_text.go), [SftpUpload] (sftp_resume.go),
      [SftpDownload] (sftp_download.go, sftp_archive.go): operations on remote files as
      dialogues with an arbitrary server.
    - Configuration.  [Settings] (config/config.go, config/settings.go) and
      [SettingsService] (service/system_settings.go, repository/system_settings.go).
      [UpdateCheck] (update/checker.go): release checks.
    - Access.  [Auth] (pkg/token/jwt.go, server/middleware/auth.go): who a request is,
      using [Revocation]'s admission of tokens and [ApiKeys]' validation.  [Setup]
      (service/auth.go, handler/auth.go, bootstrap.go, auth_json.go): login and the first
      administrator, raced by several Hubs.  [Terminal] (handler/terminal.go,
      service/terminal_transport.go, parts of service/terminal.go): handshake, admission,
      output frames, client messages.  [TerminalSession] (service/terminal.go
      [runSession], [StartSessionWithResult]): the goroutines of one session;
      [TerminalTeardown]: its fair runs end.

    ** How the code is modelled

    A section that a mutex makes atomic is one function on an explicit state; a method
    that is one such section keeps its Go name.  Methods that release a lock in between
    are split at those points, and a step relation or function interleaves the parts of
    all goroutines freely: [gstep] ([Gate]), [hstep] ([Hub]), [SSHPool.step],
    [Lease.lstep], [UsageCapture.step], [dstep] ([DeployQueue]), [istep] ([InstallJobs]),
    [Servers.sstep], [setup_step] ([Setup]), [TerminalSession.sstep].  A theorem about
    reachable states therefore covers every schedule.  Code that talks to a remote peer is a
    dialogue, a tree of calls and continuations: [prog] ([Sftp], with [play] to run it and
    [wp] to specify it against arbitrary answers), the client of [Socks5].

    Clocks, random numbers, Go's map order, system calls, database outcomes and other
    processes are arguments or events.  Pointers that outlive their removal from
    a map (sessions, pool entries, leases, operations) live in heaps.  An error is a value
    of [result] or of a sum; a transaction may also commit and not be heard of.

    Code outside the repository is an interface: [UserDB] (PostgreSQL's users table),
    [SampleCodec] and [SortSlice] (JSON of a sample, [sort.Slice]), [usage] and
    [audit_json] (lengths of JSON, parsing of a time stamp).  Each has an instance that
    witnesses evaluate.  So are Argon2id, HKDF and AES-GCM ([PrimitivesOk] of [Secrets]), the JWT
    library ([JWTLib] of [Auth]) and the SSH library ([library_ok] of [SSHRoute]);
    the JSON decoder of upload tickets is the class [TicketJSON] ([SftpUpload]), the one of
    saved strings a hypothesis of [SettingsService] ([unquote_written]), both with [Json]'s
    decoders as instances.  SHA-256, bcrypt, other JSON decoders and [url.Parse]'s authority
    are plain parameters.

    ** What the theorems show

    - Revocation: after a password change that committed or may have committed, no older
      terminal gets another input message; input and tokens are accepted only for the
      committed version; the gate is a lock and its fence forces a recovery read; the
      registry's revocation is permanent and its cleanup wait has one deadline.
    - Requests: both limiters decide as a specification that remembers everything, so
      their pruning and eviction change nothing; the client cannot choose the address it
      is charged to; a route's rule follows from the route, not from the identifier in
      the path; output caps keep a prefix and report what they cut.
    - Monitoring: a sample is on the agent's disk, stored once, or counted as dropped,
      whatever fails; restarting recovers every file; at most 16 collections run.
    - SSH pool: sessions per server are bounded and accounted for; each transport has one
      owner and is never reused across configurations; after Close nothing stays open.  A
      consumer's transport is nobody else's until its lease settles, which happens once,
      after the last primitive, and closes the transport if the lease became unhealthy.
    - History: rows only move forward and are deleted only when nobody can write them
      again; the recorder's tables, queues and slots stay within their limits; each ended
      operation is in exactly one place and lost results are counted; a row of an
      operation the process still tracks is never given up, and a shown result is the one
      the operation ended with.
    - Deployments: the queue keeps its limits; while a removal holds the fence no installer
      of its node starts or runs.
    - API keys: a request is admitted only with the policy that is committed; a terminal
      opened with a key ends when the key's permissions change.
    - Metrics: the answer of a query stays within its budget; a query answered partly from
      the rollup holds each sample once and, against raw samples, misses only those
      accepted since a row was last refreshed; retention deletes only what was
      aggregated and is older than the cutoff.
    - Servers: routes never chain jumps; the key pinned for a server changes only when an
      administrator confirms the mismatching key on record, or is cleared when the server
      moves; no handshake pins one.
    - Secrets: a ciphertext opens only for the record and field it was made for; migration
      changes no secret and finishes.
    - Dialling: credentials are sent only to peers whose key was checked; a lease belongs to
      the route that is committed.
    - Relay: the request sent is the one asked for, with every placeholder behind its path
      filled once when no credential looks like one; a client takes an answer for complete
      only when nothing interrupted it.
    - Files: an upload appears whole or not at all; a ticket serves its owner and target
      only, and a resumed upload publishes only content with the announced digest; archives
      are bounded.
    - Configuration: all saved settings form one line of revisions; keeping data for
      less time takes a confirmation, deleting metrics two explicit switches.
    - Access: a request that is served was authenticated one of three ways; at most one
      administrator is created by setup; terminal output arrives whole, in frames of whole runes; a session
      reports its first event, returns its lease only when nothing of it can touch the
      transport, and ends in every fair run, because of what its teardown closes.

    ** Bounds and fuel

    Recursions are structural or on a list the code walks.  Fuel appears in
    [trim_left_fuel] ([GoStrings]: one unit per byte of the string, and each step strips at
    least one), in [top_up] ([MonitorSchedule]: the number of intervals between the computed
    and the current time, which is the exact number of iterations), in [drain]
    ([UsageRecorder]: the code's own limit of 100 batches), in the buckets of a query
    ([MetricRollup], [bucket_fuel]: their number), in the parser of IPv6 addresses ([NetIP]:
    nine turns for eight groups), in the migration of secrets (one more than there are rows, each page
    advances), in the scan of an archive ([SftpDownload]: 33 levels, the code refuses depth
    32), and in [complete_runes] ([Terminal]: one unit per byte).  [todo] of
    [TerminalTeardown] is a measure of the state that every duty of a teardown lowers; its
    runs are infinite sequences of states.
    [trim_invalid] counts down from the limit to zero, as the code's slice does.  Arithmetic
    that can overflow in Go is wrapped ([wrap64], [wrapu64]); time differences saturate
    ([TimeSub]).

    ** Not modelled

    Deployment of the agent (service/agent_deploy.go, agent_artifact_*.go,
    resident_windows_deploy.go, agentwindows): shell and PowerShell texts run over SSH.  The
    supervision of an SFTP channel (service/sftp_transport.go).  Lists of servers and of the
    history, and the SQL behind them.  The agent's collectors (agentclient/collect.go and the
    platform files) and its sockets.  Log handlers and the runtime pointer of
    config/runtime.go.  Telemetry.  The HTTP handlers that only decode and encode, the router,
    and the middleware for logging, headers and deadlines.  Schema migrations, the programs
    under cmd, and the web interface.  They are I/O, third-party calls or record keeping
    around the parts above.  In the history, the audit backfill and the report that precedes
    the first cleanup are left out, and the database keeps nanoseconds where PostgreSQL keeps
    microseconds; averages over a bucket are PostgreSQL's. *)

From stdpp Require Export base gmap strings list fin_maps sorting.
From Stdlib Require Export ZArith Lia.

#[global] Open Scope Z_scope.

(** ** Machine integers

    Go's [int64], [time.Duration] and [uint64] are kept as [Z] together with the
    wrap-around of the machine operation. *)
Definition int64_min : Z := - 2 ^ 63.
Definition int64_max : Z := 2 ^ 63 - 1.
Definition uint64_mod : Z := 2 ^ 64.

Definition wrap64 (z : Z) : Z := (z + 2 ^ 63) mod 2 ^ 64 - 2 ^ 63.
Definition wrapu64 (z : Z) : Z := z mod uint64_mod.

Definition in_int64 (z : Z) : Prop := int64_min <= z <= int64_max.

Lemma wrap64_id z : in_int64 z -> wrap64 z = z.
Proof.
  unfold in_int64, int64_min, int64_max, wrap64. intros H.
  rewrite Z.mod_small; lia.
Qed.

Lemma wrap64_add_l a b : wrap64 (wrap64 a + b) = wrap64 (a + b).
Proof.
  unfold wrap64. f_equal.
  replace ((a + 2 ^ 63) mod 2 ^ 64 - 2 ^ 63 + b + 2 ^ 63) with ((a + 2 ^ 63) mod 2 ^ 64 + b) by lia.
  rewrite Zplus_mod_idemp_l. f_equal. lia.
Qed.

Lemma wrapu64_id z : 0 <= z < uint64_mod -> wrapu64 z = z.
Proof. intros H. by apply Z.mod_small. Qed.

(** ** Time

    A [time.Time] is the number of nanoseconds since the zero time (January 1,
    year 1), so [IsZero] is a comparison with 0; a [time.Duration] is a count of
    nanoseconds.  [TimeSub] saturates at the ends of [int64] as the standard library
    documents. *)
Abbreviation time := Z (only parsing).
Abbreviation duration := Z (only parsing).

Definition zero_time : time := 0.
Definition IsZero (t : time) : bool := t =? 0.
Definition Before (a b : time) : bool := a <? b.
Definition After (a b : time) : bool := b <? a.
Definition TimeAdd (t : time) (d : duration) : time := t + d.
Definition TimeSub (a b : time) : duration := Z.max int64_min (Z.min int64_max (a - b)).

Definition Nanosecond : duration := 1.
Definition Millisecond : duration := 1000000.
Definition Second : duration := 1000000000.
Definition Minute : duration := 60 * Second.
Definition Hour : duration := 60 * Minute.

(** ** Errors as values

    A Go function returning [(A, error)] is a function into [result E A]. *)
Inductive result (E A : Type) : Type :=
| Ok (a : A)
| Err (e : E).
Arguments Ok {E A} _.
Arguments Err {E A} _.

Definition is_ok {E A} (r : result E A) : bool :=
  match r with Ok _ => true | Err _ => false end.

Declare Scope talus_scope.
Delimit Scope talus_scope with talus.
Notation "'try' x ':=' r 'in' k" :=
  (match r with Ok x => k | Err e => Err e end)
  (at level 10, x binder, r at level 100, k at level 200)
  : talus_scope.
#[global] Open Scope talus_scope.

(** ** Automation shared by the components *)
Create HintDb talus discriminated.

Lemma Before_spec a b : Before a b = true <-> a < b.
Proof. apply Z.ltb_lt. Qed.
Lemma Before_false a b : Before a b = false <-> b <= a.
Proof. apply Z.ltb_ge. Qed.
Lemma After_spec a b : After a b = true <-> b < a.
Proof. apply Z.ltb_lt. Qed.
Lemma After_false a b : After a b = false <-> a <= b.
Proof. apply Z.ltb_ge. Qed.
Lemma IsZero_spec t : IsZero t = true <-> t = 0.
Proof. apply Z.eqb_eq. Qed.
Lemma IsZero_false t : IsZero t = false <-> t <> 0.
Proof. apply Z.eqb_neq. Qed.

(** [bools] turns the boolean tests of the code into propositions. *)
Ltac bools :=
  repeat match goal with
  | H : andb _ _ = true |- _ => apply andb_true_iff in H as [? ?]
  | H : orb _ _ = false |- _ => apply orb_false_iff in H as [? ?]
  | H : andb _ _ = false |- _ => apply andb_false_iff in H
  | H : orb _ _ = true |- _ => apply orb_true_iff in H
  | H : negb _ = true |- _ => apply negb_true_iff in H
  | H : negb _ = false |- _ => apply negb_false_iff in H
  | H : Before _ _ = true |- _ => apply Before_spec in H
  | H : Before _ _ = false |- _ => apply Before_false in H
  | H : After _ _ = true |- _ => apply After_spec in H
  | H : After _ _ = false |- _ => apply After_false in H
  | H : IsZero _ = true |- _ => apply IsZero_spec in H
  | H : IsZero _ = false |- _ => apply IsZero_false in H
  | H : (_ <? _) = true |- _ => apply Z.ltb_lt in H
  | H : (_ <? _) = false |- _ => apply Z.ltb_ge in H
  | H : (_ <=? _) = true |- _ => apply Z.leb_le in H
  | H : (_ <=? _) = false |- _ => apply Z.leb_gt in H
  | H : (_ =? _) = true |- _ => apply Z.eqb_eq in H
  | H : (_ =? _) = false |- _ => apply Z.eqb_neq in H
  | H : bool_decide _ = true |- _ => apply bool_decide_eq_true in H
  | H : bool_decide _ = false |- _ => apply bool_decide_eq_false in H
  end.

(** [splits] performs the case analysis of a definition's own branches. *)
Ltac splits := repeat (case_match; simplify_eq/=); bools.

(** ** Counting the elements of a list that pass a test *)
Definition count_if {A} (f : A -> bool) (l : list A) : Z :=
  Z.of_nat (length (filter (fun x => f x = true) l)).

Lemma count_if_nil {A} (f : A -> bool) : count_if f [] = 0.
Proof. done. Qed.

Lemma count_if_cons {A} (f : A -> bool) x l :
  count_if f (x :: l) = (if f x then 1 else 0) + count_if f l.
Proof.
  unfold count_if. rewrite filter_cons.
  case_decide as E; destruct (f x); try done; cbn [length]; lia.
Qed.

Lemma count_if_app {A} (f : A -> bool) l1 l2 : count_if f (l1 ++ l2) = count_if f l1 + count_if f l2.
Proof. unfold count_if. rewrite filter_app, length_app. lia. Qed.

Lemma count_if_nonneg {A} (f : A -> bool) l : 0 <= count_if f l.
Proof. unfold count_if. lia. Qed.

Lemma count_if_le_length {A} (f : A -> bool) l : count_if f l <= Z.of_nat (length l).
Proof. unfold count_if. pose proof (length_filter (fun x => f x = true) l). lia. Qed.

Lemma count_if_perm {A} (f : A -> bool) l1 l2 : l1 ≡ₚ l2 -> count_if f l1 = count_if f l2.
Proof. intros H. unfold count_if. by rewrite H. Qed.

Lemma count_if_impl {A} (f g : A -> bool) l :
  (forall x, x ∈ l -> f x = true -> g x = true) -> count_if f l <= count_if g l.
Proof.
  induction l as [|x l IH]; intros H; [done|]. rewrite !count_if_cons.
  assert (count_if f l <= count_if g l) by (apply IH; set_solver).
  destruct (f x) eqn:E; [rewrite (H x) by set_solver; lia|]. destruct (g x); lia.
Qed.

Lemma count_if_ext {A} (f g : A -> bool) l : (forall x, f x = g x) -> count_if f l = count_if g l.
Proof. intros H. induction l as [|x l IH]; [done|]. by rewrite !count_if_cons, IH, H. Qed.

Lemma count_if_true {A} (l : list A) : count_if (fun _ => true) l = Z.of_nat (List.length l).
Proof. induction l as [|x l IH]; [done|]. rewrite count_if_cons, IH. cbn. lia. Qed.

Lemma count_if_none {A} (f : A -> bool) (l : list A) : (forall x, x ∈ l -> f x = false) -> count_if f l = 0.
Proof. induction l as [|x l IH]; intros H; [done|]. rewrite count_if_cons, IH, H; [done|left|]. intros y Hy. apply H. by right. Qed.

Lemma Forall_filter {A} (Q P : A -> Prop) `{!forall x, Decision (P x)} (l : list A) :
  Forall Q l -> Forall Q (filter P l).
Proof. rewrite !Forall_forall. intros Hq x [_ Hx]%list_elem_of_filter. auto. Qed.

Lemma Forall_sublist {A} (P : A -> Prop) l k : l `sublist_of` k -> Forall P k -> Forall P l.
Proof. induction 1; rewrite ?Forall_cons; naive_solver. Qed.

Lemma StronglySorted_sublist {A} (R : relation A) l k :
  l `sublist_of` k -> StronglySorted R k -> StronglySorted R l.
Proof.
  induction 1; rewrite ?StronglySorted_cons; [done | | naive_solver].
  intros [Hf Hs]. split; [by eapply Forall_sublist | auto].
Qed.

(** ** Counting the values of a finite map that pass a test *)
Section count_map.
Context {K A : Type} `{Countable K}.
Implicit Types (f : A -> bool) (m : gmap K A).

Definition count_map f m : Z := count_if f (map_to_list m).*2.

Lemma count_map_empty f : count_map f ∅ = 0.
Proof. unfold count_map. by rewrite map_to_list_empty. Qed.

Lemma count_map_insert_new f m k v :
  m !! k = None -> count_map f (<[k := v]> m) = count_map f m + (if f v then 1 else 0).
Proof.
  intros Hk. unfold count_map.
  rewrite (count_if_perm f _ _ (fmap_Permutation snd _ _ (map_to_list_insert m k v Hk))).
  rewrite fmap_cons, count_if_cons. cbn [snd]. lia.
Qed.

Lemma count_map_delete f m k v :
  m !! k = Some v -> count_map f (delete k m) = count_map f m - (if f v then 1 else 0).
Proof.
  intros Hk. rewrite <- (insert_delete_id m k v Hk) at 2.
  rewrite count_map_insert_new by apply lookup_delete_eq. lia.
Qed.

Lemma count_map_insert f m k v w :
  m !! k = Some w ->
  count_map f (<[k := v]> m) = count_map f m - (if f w then 1 else 0) + (if f v then 1 else 0).
Proof.
  intros Hk. rewrite <- insert_delete_eq.
  rewrite count_map_insert_new by apply lookup_delete_eq. rewrite (count_map_delete f m k w Hk). lia.
Qed.

Lemma count_map_fmap {B} (g : B -> A) f (m : gmap K B) :
  count_map f (g <$> m) = count_if (fun x => f (g x)) (map_to_list m).*2.
Proof.
  unfold count_map. rewrite map_to_list_fmap. induction (map_to_list m) as [|[k x] l IH]; [done|].
  cbn [fmap list_fmap] in *. rewrite !count_if_cons, IH. done.
Qed.

Lemma count_map_nonneg f m : 0 <= count_map f m.
Proof. apply count_if_nonneg. Qed.

Lemma count_map_pos f m k v : m !! k = Some v -> f v = true -> 1 <= count_map f m.
Proof.
  intros Hk Hf. pose proof (count_map_delete f m k v Hk) as E.
  pose proof (count_map_nonneg f (delete k m)). rewrite Hf in E. lia.
Qed.

Lemma count_map_zero f m :
  (forall k v, m !! k = Some v -> f v = false) -> count_map f m = 0.
Proof.
  intros Hf. pose proof (count_map_nonneg f m).
  enough (count_map f m <= count_if (fun _ : A => false) (map_to_list m).*2) as Hle.
  { assert (forall l : list A, count_if (fun _ => false) l = 0) as Hz.
    { induction l as [|x l IH]; [done|]. rewrite count_if_cons. lia. }
    rewrite Hz in Hle. lia. }
  apply count_if_impl. intros x Hx Hfx.
  apply list_elem_of_fmap in Hx as [[k v] [-> Hkv]]. apply elem_of_map_to_list in Hkv.
  cbn [snd] in Hfx. rewrite (Hf k v Hkv) in Hfx. done.
Qed.

Lemma count_map_le f g m :
  (forall k v, m !! k = Some v -> f v = true -> g v = true) -> count_map f m <= count_map g m.
Proof.
  intros Hf. apply count_if_impl. intros x Hx.
  apply list_elem_of_fmap in Hx as [[k v] [-> Hkv]]. apply elem_of_map_to_list in Hkv. by apply (Hf k).
Qed.
(** The weight of an optional value, for updates that may insert, replace or delete. *)
Definition weight f (o : option A) : Z := match o with Some v => if f v then 1 else 0 | None => 0 end.

Lemma count_map_set f m k o :
  count_map f (partial_alter (fun _ => o) k m) = count_map f m - weight f (m !! k) + weight f o.
Proof.
  destruct o as [v|]; [change (partial_alter _ k m) with (<[k := v]> m)
                      |change (partial_alter _ k m) with (delete k m)];
    destruct (m !! k) as [w|] eqn:E; cbn [weight].
  - by apply count_map_insert.
  - rewrite count_map_insert_new by done. lia.
  - rewrite (count_map_delete f m k w) by done. lia.
  - rewrite delete_id by done. lia.
Qed.
End count_map.

(** ** Summing a measure over the values of a finite map *)
Section total_of.
Context {K A : Type} `{Countable K}.
Implicit Types (f : A -> Z) (m : gmap K A).

Definition total_of f m : Z := foldr (fun v n => f v + n) 0 (map_to_list m).*2.
Definition measure f (o : option A) : Z := match o with Some v => f v | None => 0 end.

Lemma total_of_empty f : total_of f ∅ = 0.
Proof. unfold total_of. by rewrite map_to_list_empty. Qed.

Lemma total_of_insert_new f m k v : m !! k = None -> total_of f (<[k := v]> m) = total_of f m + f v.
Proof.
  intros Hk. unfold total_of.
  rewrite (foldr_permutation (=) (fun v n => f v + n) 0 _ _ ltac:(intros; cbn; lia)
             (fmap_Permutation snd _ _ (map_to_list_insert m k v Hk))).
  rewrite fmap_cons. cbn [snd foldr]. lia.
Qed.

Lemma total_of_set f m k o :
  total_of f (partial_alter (fun _ => o) k m) = total_of f m - measure f (m !! k) + measure f o.
Proof.
  assert (forall v, m !! k = Some v -> total_of f (delete k m) = total_of f m - f v) as Hdel.
  { intros v Hv. rewrite <- (insert_delete_id m k v Hv) at 2.
    rewrite total_of_insert_new by apply lookup_delete_eq. lia. }
  destruct o as [v|]; [change (partial_alter _ k m) with (<[k := v]> m)
                      |change (partial_alter _ k m) with (delete k m)];
    destruct (m !! k) as [w|] eqn:E; cbn [measure].
  - rewrite <- insert_delete_eq, total_of_insert_new by apply lookup_delete_eq. rewrite (Hdel w) by done. lia.
  - rewrite total_of_insert_new by done. lia.
  - rewrite (Hdel w) by done. lia.
  - rewrite delete_id by done. lia.
Qed.

Lemma total_of_insert f m k v : total_of f (<[k := v]> m) = total_of f m - measure f (m !! k) + f v.
Proof. apply (total_of_set f m k (Some v)). Qed.
Lemma total_of_delete f m k : total_of f (delete k m) = total_of f m - measure f (m !! k).
Proof. pose proof (total_of_set f m k None) as E. cbn [measure] in E. change (partial_alter _ k m) with (delete k m) in E. lia. Qed.

Lemma total_of_nonneg f m : (forall v, 0 <= f v) -> 0 <= total_of f m.
Proof. intros Hf. unfold total_of. induction (map_to_list m).*2 as [|v l IH]; cbn [foldr]; [lia|]. specialize (Hf v). lia. Qed.
End total_of.
