(* ===== verification/GoStrings.v ===== *)
(** * The parts of Go's string library the sources use

    A Go string is a sequence of bytes, kept here as a Rocq [string].  The functions
    follow the documented behaviour of packages strings, strconv, net and
    encoding/hex; the lemmas are the ones the components share. *)

From S2P Require Import Prelude.
From stdpp Require Export pretty.
From Stdlib Require Export Ascii String.

#[global] Arguments Ascii.eqb : simpl never.
#[global] Arguments String.append !_ _ / : simpl nomatch.
#[global] Open Scope string_scope.
#[global] Open Scope list_scope.
#[global] Open Scope Z_scope.

Fixpoint contains_byte (c : ascii) (s : string) : bool :=
  match s with
  | EmptyString => false
  | String a r => Ascii.eqb a c || contains_byte c r
  end.

(** The [Len] of a Go string. *)
Definition len (s : string) : Z := Z.of_nat (String.length s).

(** [strings.Split] on a one-byte separator. *)
Fixpoint split_on (c : ascii) (s : string) : list string :=
  match s with
  | EmptyString => [""]
  | String a r =>
      if Ascii.eqb a c then "" :: split_on c r
      else match split_on c r with
           | h :: t => String a h :: t
           | [] => [String a ""]
           end
  end.

(** [strings.Join]. *)
Fixpoint join (sep : string) (l : list string) : string :=
  match l with
  | [] => ""
  | [x] => x
  | x :: r => x +:+ sep +:+ join sep r
  end.

(** [strings.TrimRight] with a one-byte cutset. *)
Fixpoint trim_right (c : ascii) (s : string) : string :=
  match s with
  | EmptyString => ""
  | String a r =>
      match trim_right c r with
      | EmptyString => if Ascii.eqb a c then "" else String a ""
      | r' => String a r'
      end
  end.

(** What follows the last occurrence of a byte, [None] when it does not occur
    ([strings.LastIndexByte] and the slice after it). *)
Fixpoint after_last (c : ascii) (s : string) : option string :=
  match s with
  | EmptyString => None
  | String a r =>
      match after_last c r with
      | Some t => Some t
      | None => if Ascii.eqb a c then Some r else None
      end
  end.

(** What precedes the last occurrence of a byte. *)
Fixpoint before_last (c : ascii) (s : string) : option string :=
  match s with
  | EmptyString => None
  | String a r =>
      match before_last c r with
      | Some t => Some (String a t)
      | None => if Ascii.eqb a c then Some "" else None
      end
  end.

(** The parts before and after the first occurrence of a byte. *)
Fixpoint cut_first (c : ascii) (s : string) : option (string * string) :=
  match s with
  | EmptyString => None
  | String a r =>
      if Ascii.eqb a c then Some ("", r)
      else match cut_first c r with
           | Some (x, y) => Some (String a x, y)
           | None => None
           end
  end.

(** *** [strings.TrimSpace]

    The byte sequences that encode white space: the ASCII ones and the UTF-8
    encodings of the other runes [unicode.IsSpace] accepts. *)
Definition byte (n : nat) : ascii := ascii_of_nat n.
Definition white_space : list (list ascii) :=
  [[byte 9]; [byte 10]; [byte 11]; [byte 12]; [byte 13]; [byte 32];
   [byte 194; byte 133]; [byte 194; byte 160]; [byte 225; byte 154; byte 128];
   [byte 226; byte 128; byte 168]; [byte 226; byte 128; byte 169]; [byte 226; byte 128; byte 175];
   [byte 226; byte 129; byte 159]; [byte 227; byte 128; byte 128]] ++
  ((fun n => [byte 226; byte 128; byte n]) <$> seq 128 11).

Fixpoint strip_prefix (p l : list ascii) : option (list ascii) :=
  match p, l with
  | [], l => Some l
  | a :: p, b :: l => if Ascii.eqb a b then strip_prefix p l else None
  | _ :: _, [] => None
  end.

Definition strip_one (spaces : list (list ascii)) (l : list ascii) : option (list ascii) :=
  foldr (fun p acc => match strip_prefix p l with Some r => Some r | None => acc end) None spaces.

Fixpoint trim_left_fuel (fuel : nat) (spaces : list (list ascii)) (l : list ascii) : list ascii :=
  match fuel with
  | O => l
  | S n => match strip_one spaces l with Some r => trim_left_fuel n spaces r | None => l end
  end.

Definition TrimSpace (s : string) : string :=
  let l := list_ascii_of_string s in
  let l := trim_left_fuel (Datatypes.length l) white_space l in
  let r := reverse l in
  string_of_list_ascii (reverse (trim_left_fuel (Datatypes.length r) (reverse <$> white_space) r)).

(** *** [net.SplitHostPort]: the host, or an error *)
Definition SplitHost (hostport : string) : option string :=
  match before_last ":" hostport with
  | None => None
  | Some before =>
      match hostport with
      | String "[" rest =>
          match cut_first "]" rest with
          | None => None
          | Some (host, tail) =>
              (* the byte after the first ']' must be the last ':' *)
              match tail with
              | String ":" port =>
                  if contains_byte ":" port || contains_byte "[" rest || contains_byte "]" tail
                  then None else Some host
              | _ => None
              end
          end
      | _ =>
          if contains_byte ":" before || contains_byte "[" hostport || contains_byte "]" hostport
          then None else Some before
      end
  end.

(** *** [strconv.FormatUint] in base 10 *)
Definition FormatUint (n : Z) : string := pretty (Z.to_N n).

(** *** [strconv.FormatInt] in base 10 *)
Definition FormatInt (z : Z) : string := if z <? 0 then "-" +:+ FormatUint (- z) else FormatUint z.

Lemma FormatUint_inj (a b : Z) : 0 <= a -> 0 <= b -> FormatUint a = FormatUint b -> a = b.
Proof. unfold FormatUint. intros Ha Hb H%(inj _). lia. Qed.

(** *** [encoding/hex] *)
Definition is_hex_digit (a : ascii) : bool :=
  let n := nat_of_ascii a in
  (48 <=? n)%nat && (n <=? 57)%nat || (97 <=? n)%nat && (n <=? 102)%nat || (65 <=? n)%nat && (n <=? 70)%nat.

Fixpoint all_bytes (p : ascii -> bool) (s : string) : bool :=
  match s with
  | EmptyString => true
  | String a r => p a && all_bytes p r
  end.

(** [hex.DecodeString] succeeds. *)
Definition hex_ok (s : string) : bool := all_bytes is_hex_digit s && (len s mod 2 =? 0).

(** *** [strings.HasPrefix] and [strings.HasSuffix] *)
Definition HasPrefix (p s : string) : bool := String.prefix p s.

Fixpoint HasSuffix (suf s : string) : bool :=
  bool_decide (s = suf) || match s with EmptyString => false | String _ r => HasSuffix suf r end.

(** *** [strconv.ParseUint] in base 10, without its range check *)
Fixpoint parse_digits (s : string) (acc : N) : option N :=
  match s with
  | EmptyString => Some acc
  | String a r =>
      let d := N_of_ascii a in
      if (48 <=? d)%N && (d <=? 57)%N then parse_digits r (acc * 10 + (d - 48))%N else None
  end.

Definition ParseUint (s : string) : option Z :=
  match s with EmptyString => None | _ => Z.of_N <$> parse_digits s 0 end.

(** *** [strconv.ParseInt] in base 10 with a bit size *)
Definition ParseInt (bits : Z) (s : string) : option Z :=
  let in_range z := if (- 2 ^ (bits - 1) <=? z) && (z <? 2 ^ (bits - 1)) then Some z else None in
  match s with
  | String "-" r => z ← ParseUint r; in_range (- z)
  | String "+" r => z ← ParseUint r; in_range z
  | _ => z ← ParseUint s; in_range z
  end.

Example ParseInt_values :
  ParseInt 64 <$> ["0"; "+12"; "-7"; ""; "-"; "1_0"; "9223372036854775807"; "9223372036854775808"; "-9223372036854775808"] =
  [Some 0; Some 12; Some (-7); None; None; None; Some 9223372036854775807; None; Some (-9223372036854775808)].
Proof. vm_compute. reflexivity. Qed.

(** ** Lemmas *)

Lemma pretty_N_char_digit d : (d < 10)%N -> N_of_ascii (pretty_N_char d) = (48 + d)%N.
Proof.
  intros H. destruct d as [|p]; [done|].
  do 4 (destruct p as [p|p|]; [| |first [reflexivity | lia]]); lia.
Qed.

Lemma parse_pretty_go x s : parse_digits (pretty_N_go x s) 0 = parse_digits s x.
Proof.
  revert s. induction (N.lt_wf_0 x) as [x _ IH]. intros s.
  destruct (decide (0 < x)%N) as [Hx|Hx].
  - rewrite pretty_N_go_step by done. rewrite IH by (apply N.div_lt; lia).
    cbn [parse_digits]. pose proof (N.mod_lt x 10 ltac:(lia)).
    rewrite pretty_N_char_digit by done.
    assert ((48 <=? 48 + x `mod` 10)%N && (48 + x `mod` 10 <=? 57)%N = true) as ->.
    { apply andb_true_iff. rewrite !N.leb_le. generalize dependent (x `mod` 10)%N. lia. }
    f_equal. pose proof (N.div_mod' x 10) as Hd. generalize dependent (x `mod` 10)%N. generalize dependent (x `div` 10)%N. lia.
  - assert (x = 0%N) as -> by lia. by rewrite pretty_N_go_0.
Qed.

Lemma ParseFormat n : 0 <= n -> ParseUint (FormatUint n) = Some n.
Proof.
  intros Hn. unfold FormatUint, ParseUint, pretty, pretty_N. case_decide as E.
  - replace n with 0 by lia. reflexivity.
  - destruct (pretty_N_go (Z.to_N n) "") eqn:Ep.
    + apply (f_equal (fun s => parse_digits s 0)) in Ep. rewrite parse_pretty_go in Ep. cbn in Ep. injection Ep as Ep. lia.
    + rewrite <-Ep, parse_pretty_go. cbn. f_equal. lia.
Qed.

Lemma HasSuffix_spec suf s : HasSuffix suf s = true <-> exists a, s = a +:+ suf.
Proof.
  split.
  - induction s as [|x s IH]; cbn; intros H; bools; destruct H as [H|H]; bools; [by exists "" | done | by exists ""|].
    destruct (IH H) as [a ->]. by exists (String x a).
  - intros [a ->]. induction a as [|x a IH]; cbn; [destruct suf; cbn; by rewrite bool_decide_eq_true_2|].
    rewrite IH. by rewrite orb_true_r.
Qed.

Lemma list_ascii_app a b : list_ascii_of_string (a +:+ b) = list_ascii_of_string a ++ list_ascii_of_string b.
Proof. induction a as [|x a IH]; cbn; [done|]. by rewrite IH. Qed.

Lemma append_inj_l a b c : a +:+ c = b +:+ c -> a = b.
Proof.
  intros H%(f_equal list_ascii_of_string). rewrite !list_ascii_app in H. apply app_inv_tail in H.
  apply (f_equal string_of_list_ascii) in H. by rewrite !string_of_list_ascii_of_string in H.
Qed.

Lemma len_app a b : len (a +:+ b) = len a + len b.
Proof. unfold len. induction a as [|x a IH]; cbn; [done|]. lia. Qed.

Lemma split_on_nonempty c s : split_on c s <> [].
Proof. destruct s; cbn; [done|]. case_match; [done|]. by case_match. Qed.

Lemma split_on_app c a b :
  contains_byte c a = false -> split_on c (a +:+ String c b) = a :: split_on c b.
Proof.
  induction a as [|x a IH]; cbn; intros H.
  - by rewrite Ascii.eqb_refl.
  - bools. rewrite IH by done. by rewrite H.
Qed.

Lemma split_on_none c a : contains_byte c a = false -> split_on c a = [a].
Proof. induction a as [|x a IH]; cbn; intros H; [done|]. bools. rewrite IH by done. by rewrite H. Qed.

(** Splitting is the inverse of joining on separator-free pieces. *)
Lemma split_join c l :
  l <> [] -> Forall (fun x => contains_byte c x = false) l -> split_on c (join (String c "") l) = l.
Proof.
  induction l as [|x l IH]; intros Hl Hf; [done|].
  apply Forall_cons in Hf as [Hx Hf]. destruct l as [|y l]; [by apply split_on_none|].
  change (join (String c "") (x :: y :: l)) with (x +:+ String c (join (String c "") (y :: l))).
  rewrite split_on_app by done. by rewrite IH.
Qed.

Lemma join_inj c l1 l2 :
  l1 <> [] -> l2 <> [] -> Forall (fun x => contains_byte c x = false) l1 ->
  Forall (fun x => contains_byte c x = false) l2 ->
  join (String c "") l1 = join (String c "") l2 -> l1 = l2.
Proof. intros H1 H2 F1 F2 E. rewrite <-(split_join c l1), <-(split_join c l2) by done. by rewrite E. Qed.

Lemma contains_byte_app c a b : contains_byte c (a +:+ b) = contains_byte c a || contains_byte c b.
Proof. induction a as [|x a IH]; cbn; [done|]. by rewrite IH, orb_assoc. Qed.

Lemma cut_first_app c a b : contains_byte c a = false -> cut_first c (a +:+ String c b) = Some (a, b).
Proof.
  induction a as [|x a IH]; cbn; intros H; [by rewrite Ascii.eqb_refl|].
  bools. rewrite H, IH by done. done.
Qed.

(** A string is determined by its parts around the first separator. *)
Lemma first_sep_inj c a b a' b' :
  contains_byte c a = false -> contains_byte c a' = false ->
  a +:+ String c b = a' +:+ String c b' -> a = a' /\ b = b'.
Proof.
  intros Ha Ha' E. pose proof (cut_first_app c a b Ha) as H. rewrite E, cut_first_app in H by done.
  by simplify_eq.
Qed.
