(* ===== verification/Float64.v ===== *)
(** * Go's [float64]

    IEEE 754 binary64 arithmetic with rounding to nearest even, on the Standard
    Library's [spec_float], so that every operation evaluates. *)

From S2P Require Import Prelude.
From Stdlib Require Export SpecFloat.

Definition f64 (z : Z) : spec_float := binary_normalize 53 1024 z 0 false.
Definition f64_mul : spec_float -> spec_float -> spec_float := SFmul 53 1024.
Definition f64_add : spec_float -> spec_float -> spec_float := SFadd 53 1024.
Definition f64_sub : spec_float -> spec_float -> spec_float := SFsub 53 1024.
Definition f64_div : spec_float -> spec_float -> spec_float := SFdiv 53 1024.

(** The [float64] nearest to a quotient, as the compiler rounds a constant. *)
Definition f64_ratio (p q : Z) : spec_float := f64_div (f64 p) (f64 q).

(** The built-in [min] and [max]; an unordered pair gives a NaN. *)
Definition f64_min (a b : spec_float) : spec_float :=
  match SFcompare a b with Some Lt | Some Eq => a | Some Gt => b | None => S754_nan end.
Definition f64_max (a b : spec_float) : spec_float :=
  match SFcompare a b with Some Gt | Some Eq => a | Some Lt => b | None => S754_nan end.

(** [Duration.Seconds]. *)
Definition Seconds (d : duration) : spec_float :=
  f64_add (f64 (Z.quot d Second)) (f64_div (f64 (Z.rem d Second)) (f64 1000000000)).

(** Conversion to [int64] by truncation; the conversion of a value out of range is
    left to the implementation, here the one of amd64. *)
Definition to_int64 (f : spec_float) : Z :=
  match f with
  | S754_finite s m e =>
      let a := if 0 <=? e then Z.shiftl (Zpos m) e else Z.shiftr (Zpos m) (- e) in
      let v := if s then - a else a in
      if (int64_min <=? v) && (v <=? int64_max) then v else int64_min
  | S754_zero _ => 0
  | _ => int64_min
  end.
