(* ===== verification/Registry.v ===== *)
(** * The terminal session registry (internal/gate/registry.go)

    Every browser terminal is a [Session]; the [Registry] moves it from preparing
    to ready and, when the user's password or the key's permissions change, to
    revoked.  Go keeps the sessions behind pointers: a session that was removed from
    the registry's map is still reachable from the goroutines that hold it.  The
    model therefore separates the heap of all sessions ever registered from the set
    [live] of the identifiers present in the map.  Each definition is one method of
    the source, executed under the mutexes that make it atomic. *)

From S2P Require Import Prelude.

Inductive SessionState := StatePreparing | StateReady | StateRevoked.

#[export] Instance SessionState_eq_dec : EqDecision SessionState.
Proof. solve_decision. Defined.

Definition cleanupGrace : duration := 2 * Second.
Definition cleanupBudget : duration := 3 * Second.

(** A session.  [done] is whether the done channel is closed, [forceDone] whether
    [forceOnce] has fired; [has_cancel] and [has_force] say which callbacks are
    non-nil. *)
Record Session := mkSession {
  ID : Z; UserID : Z; Version : Z;
  has_cancel : bool; has_force : bool;
  done : bool; forceDone : bool;
  state : SessionState;
  graceDeadline : time; deadline : time
}.

Record Registry := mkRegistry {
  next : Z;
  heap : gmap Z Session;
  live : gset Z;
  grace : duration; budget : duration
}.

Definition NewRegistry : Registry := mkRegistry 0 ∅ ∅ cleanupGrace cleanupBudget.

(** ** Field updates *)
Definition set_state (st : SessionState) (s : Session) : Session :=
  mkSession (ID s) (UserID s) (Version s) (has_cancel s) (has_force s) (done s)
    (forceDone s) st (graceDeadline s) (deadline s).
Definition set_deadlines (g d : time) (s : Session) : Session :=
  mkSession (ID s) (UserID s) (Version s) (has_cancel s) (has_force s) (done s)
    (forceDone s) (state s) g d.
Definition set_done (s : Session) : Session :=
  mkSession (ID s) (UserID s) (Version s) (has_cancel s) (has_force s) true
    (forceDone s) (state s) (graceDeadline s) (deadline s).
Definition set_forceDone (s : Session) : Session :=
  mkSession (ID s) (UserID s) (Version s) (has_cancel s) (has_force s) (done s)
    true (state s) (graceDeadline s) (deadline s).
Definition with_heap (h : gmap Z Session) (r : Registry) : Registry :=
  mkRegistry (next r) h (live r) (grace r) (budget r).

(** The session the registry's map holds under an identifier. *)
Definition registered (r : Registry) (id : Z) : option Session :=
  if decide (id ∈ live r) then heap r !! id else None.

(** ** Methods of [Session] *)

(** [State]. *)
Definition State (s : Session) : SessionState := state s.

(** [MarkDone]: [once.Do(close(done))]. *)
Definition MarkDone (s : Session) : Session := set_done s.

(** [BeginCleanup]: the first caller freezes both deadlines. *)
Definition BeginCleanup (start : time) (g b : duration) (s : Session) : Session * (time * time) :=
  let s' := if IsZero (deadline s) then set_deadlines (TimeAdd start g) (TimeAdd start b) s else s in
  (s', (graceDeadline s', deadline s')).

(** [Force]: the second component says whether the transport close is dispatched. *)
Definition Force (s : Session) : Session * bool :=
  if forceDone s then (s, false) else (set_forceDone s, has_force s).

(** ** Methods of [Registry] *)

Definition Register (userID version : Z) (cancel force : bool) (r : Registry) : Registry * Session :=
  let id := wrapu64 (next r + 1) in
  let s := mkSession id userID version cancel force false false StatePreparing zero_time zero_time in
  (mkRegistry id (<[id := s]> (heap r)) ({[id]} ∪ live r) (grace r) (budget r), s).

Definition Admit (id : Z) (r : Registry) : Registry * bool :=
  match registered r id with
  | None => (r, false)
  | Some s =>
      if bool_decide (state s = StatePreparing)
      then (with_heap (<[id := set_state StateReady s]> (heap r)) r, true)
      else (r, false)
  end.

Definition Done (id : Z) (r : Registry) : Registry :=
  match registered r id with
  | None => mkRegistry (next r) (heap r) (live r ∖ {[id]}) (grace r) (budget r)
  | Some s => mkRegistry (next r) (<[id := MarkDone s]> (heap r)) (live r ∖ {[id]}) (grace r) (budget r)
  end.

Definition InputPermit (id : Z) (r : Registry) : bool :=
  match registered r id with
  | None => false
  | Some s => bool_decide (state s = StateReady)
  end.

Definition windows (r : Registry) : duration * duration :=
  (if grace r <=? 0 then cleanupGrace else grace r,
   if budget r <=? 0 then cleanupBudget else budget r).

(** What [MarkRevoked] does to one matching session. *)
Definition revoke_session (started : time) (w : duration * duration) (s : Session) : Session :=
  let s := set_state StateRevoked s in
  if IsZero (deadline s)
  then set_deadlines (TimeAdd started (fst w)) (TimeAdd started (snd w)) s
  else s.

(** The identifiers [MarkRevoked] collects; Go's map order is unspecified, so only
    membership of this list is meaningful. *)
Definition sessions_of (userID : Z) (r : Registry) : list Z :=
  filter (fun id => UserID <$> registered r id = Some userID) (elements (live r)).

(** [MarkRevoked]: the new registry, the revoked sessions, and the sessions whose
    [cancel] callback is then invoked. *)
Definition MarkRevoked (userID : Z) (started : time) (r : Registry)
  : Registry * list Z * list Z :=
  let w := windows r in
  let ids := sessions_of userID r in
  let h := foldr (fun id h => alter (revoke_session started w) id h) (heap r) ids in
  let cancelled := filter (fun id => has_cancel <$> heap r !! id = Some true) ids in
  (with_heap h r, ids, cancelled).

Record CleanupResult := mkCleanupResult { Complete : bool; Forced : Z; Pending : Z }.

(** [waitClosed] at instant [now], with the background context.  [doneAt] is the
    instant at which the owner closes the channel ([None]: never), [tie] the choice
    of [select] when the channel and the timer become ready together.  Returns the
    answer and the instant at which the call returns. *)
Definition waitClosed (doneAt : option time) (tie : bool) (now : time) (d : duration)
  : bool * time :=
  match doneAt with
  | None => (false, if d <=? 0 then now else now + d)
  | Some c =>
      if d <=? 0 then (c <=? now, now)
      else if c <? now + d then (true, Z.max now c)
      else if (c =? now + d) && tie then (true, c)
      else (false, now + d)
  end.

(** What the environment contributes to one goroutine of [Await]: when the owner
    reports completion, when the goroutine runs, and how ties resolve. *)
Record settle_env := mkEnv { doneAt : option time; ranAt : time; tie1 : bool; tie2 : bool }.

Record settled := mkSettled { s_complete : bool; s_forced : bool; s_end : time }.

(** One goroutine of [Await]. *)
Definition settle_one (env : settle_env) (id : Z) (r : Registry) : Registry * settled :=
  match heap r !! id with
  | None => (r, mkSettled true false (ranAt env))
  | Some s =>
      let '(g, b) := windows r in
      let '(s1, (graceAt, dl)) := BeginCleanup (ranAt env) g b s in
      let '(fin1, t1) := waitClosed (doneAt env) (tie1 env) (ranAt env) (TimeSub graceAt (ranAt env)) in
      let '(s2, fin, t2) :=
        if fin1 then (s1, true, t1)
        else
          let s2 := fst (Force s1) in
          let '(fin2, t2) := waitClosed (doneAt env) (tie2 env) t1 (TimeSub dl t1) in
          (s2, fin2, t2) in
      let r1 := with_heap (<[id := s2]> (heap r)) r in
      (if fin then Done id r1 else r1, mkSettled fin (negb fin1) t2)
  end.

Definition add_settled (res : CleanupResult) (x : settled) : CleanupResult :=
  mkCleanupResult (Complete res && s_complete x)
    (Forced res + if s_forced x then 1 else 0)
    (Pending res + if s_complete x then 0 else 1).

(** [Await]: the goroutines touch disjoint sessions, so running them in list order
    gives the same registry as any interleaving; the results are summed. *)
Fixpoint await_loop (env : Z -> settle_env) (ids : list Z) (r : Registry) (acc : CleanupResult)
  : Registry * CleanupResult * list settled :=
  match ids with
  | [] => (r, acc, [])
  | id :: ids =>
      let '(r1, x) := settle_one (env id) id r in
      let '(r2, acc2, xs) := await_loop env ids r1 (add_settled acc x) in
      (r2, acc2, x :: xs)
  end.

Definition Await (env : Z -> settle_env) (ids : list Z) (r : Registry)
  : Registry * CleanupResult * list settled :=
  await_loop env ids r (mkCleanupResult true 0 0).

Definition RevokeUser (userID : Z) (started : time) (env : Z -> settle_env) (r : Registry)
  : Registry * Z :=
  let '(r1, ids, _) := MarkRevoked userID started r in
  let '(r2, _, _) := Await env ids r1 in
  (r2, Z.of_nat (length ids)).

Definition LiveCount (r : Registry) : Z := Z.of_nat (size (live r)).

(** ** Operation sequences

    Any interleaving of the methods by the Hub's goroutines is a sequence of these
    operations, each atomic under the registry's and the session's mutex. *)
Inductive op :=
| OpRegister (userID version : Z) (cancel force : bool)
| OpAdmit (id : Z)
| OpDone (id : Z)
| OpMarkDone (id : Z)
| OpMarkRevoked (userID : Z) (started : time)
| OpBeginCleanup (id : Z) (start : time) (g b : duration)
| OpForce (id : Z)
| OpAwait (env : Z -> settle_env) (ids : list Z).

Definition exec (o : op) (r : Registry) : Registry :=
  match o with
  | OpRegister u v c f => fst (Register u v c f r)
  | OpAdmit id => fst (Admit id r)
  | OpDone id => Done id r
  | OpMarkDone id => with_heap (alter MarkDone id (heap r)) r
  | OpMarkRevoked u t => fst (fst (MarkRevoked u t r))
  | OpBeginCleanup id t g b => with_heap (alter (fun s => fst (BeginCleanup t g b s)) id (heap r)) r
  | OpForce id => with_heap (alter (fun s => fst (Force s)) id (heap r)) r
  | OpAwait env ids => fst (fst (Await env ids r))
  end.

Definition exec_all (os : list op) (r : Registry) : Registry :=
  foldl (fun r o => exec o r) r os.

(** ** Well-formedness *)
Record wf (r : Registry) : Prop := {
  wf_next : 0 <= next r;
  wf_heap : forall id s, heap r !! id = Some s -> ID s = id /\ 1 <= id <= next r;
  wf_live : forall id, id ∈ live r -> is_Some (heap r !! id)
}.

(** ** Evolution of one session

    The order in which a session can change: the identity is fixed, revocation and
    completion are permanent, readiness never falls back to preparing, and deadlines
    once set are frozen. *)
Definition state_le (a b : SessionState) : Prop :=
  match a, b with
  | StatePreparing, _ => True
  | StateReady, StatePreparing => False
  | StateReady, _ => True
  | StateRevoked, StateRevoked => True
  | StateRevoked, _ => False
  end.

Record evolves (s s' : Session) : Prop := {
  ev_id : ID s' = ID s;
  ev_user : UserID s' = UserID s;
  ev_version : Version s' = Version s;
  ev_state : state_le (state s) (state s');
  ev_done : done s = true -> done s' = true;
  ev_forced : forceDone s = true -> forceDone s' = true;
  ev_deadline : deadline s <> 0 ->
    graceDeadline s' = graceDeadline s /\ deadline s' = deadline s
}.

#[export] Instance state_le_preorder : PreOrder state_le.
Proof. split; [intros []; done | intros [] [] []; done]. Qed.

#[export] Instance evolves_preorder : PreOrder evolves.
Proof.
  split.
  - intros s. split; auto. reflexivity.
  - intros a b c [H1 H2 H3 H4 H5 H6 H7] [K1 K2 K3 K4 K5 K6 K7].
    split; try congruence; auto.
    + by etrans.
    + intros Hd. destruct (H7 Hd) as [Hg Hd']. rewrite <-Hd' in Hd.
      destruct (K7 Hd). split; congruence.
Qed.

#[export] Hint Extern 1 (state_le _ _) => reflexivity : talus.

Lemma evolves_revoke t w s : evolves s (revoke_session t w s).
Proof.
  unfold revoke_session; cbn. destruct (IsZero (deadline s)) eqn:E; bools;
    split; cbn; try done; auto; destruct (state s); done.
Qed.

Lemma evolves_done s : evolves s (MarkDone s).
Proof. split; cbn; auto. reflexivity. Qed.

Lemma evolves_begin t g b s : evolves s (fst (BeginCleanup t g b s)).
Proof.
  unfold BeginCleanup; cbn. destruct (IsZero (deadline s)) eqn:E; bools;
    split; cbn; try done; auto; reflexivity.
Qed.

Lemma evolves_force s : evolves s (fst (Force s)).
Proof. unfold Force. destruct (forceDone s) eqn:E; split; cbn; auto; reflexivity. Qed.

Lemma evolves_admit s : state s = StatePreparing -> evolves s (set_state StateReady s).
Proof. intros Hs. split; cbn; auto. by rewrite Hs. Qed.

#[export] Hint Resolve evolves_revoke evolves_done evolves_begin evolves_force evolves_admit : talus.

(** A heap evolves when every session it holds does. *)
Definition heap_evolves (h h' : gmap Z Session) : Prop :=
  forall id s, h !! id = Some s -> exists s', h' !! id = Some s' /\ evolves s s'.

#[export] Instance heap_evolves_preorder : PreOrder heap_evolves.
Proof.
  split.
  - intros h id s H. exists s. split; [done | reflexivity].
  - intros a b c H1 H2 id s H. destruct (H1 _ _ H) as (s1 & Hs1 & E1).
    destruct (H2 _ _ Hs1) as (s2 & Hs2 & E2). exists s2. split; [done | by etrans].
Qed.

Lemma heap_evolves_insert h id s s' :
  h !! id = Some s -> evolves s s' -> heap_evolves h (<[id := s']> h).
Proof.
  intros Hs He id' s0 H0. destruct (decide (id' = id)) as [->|Hne].
  - rewrite lookup_insert_eq. simplify_eq. eauto.
  - rewrite lookup_insert_ne by done. exists s0. split; [done | reflexivity].
Qed.

Lemma heap_evolves_fresh h id s : h !! id = None -> heap_evolves h (<[id := s]> h).
Proof.
  intros Hn id' s0 H0. rewrite lookup_insert_ne by congruence.
  exists s0. split; [done | reflexivity].
Qed.

Lemma heap_evolves_alter (f : Session -> Session) h id :
  (forall s, evolves s (f s)) -> heap_evolves h (alter f id h).
Proof.
  intros Hf id' s0 H0. rewrite lookup_alter. case_decide; subst.
  - rewrite H0. cbn. eauto.
  - exists s0. split; [done | reflexivity].
Qed.

Lemma heap_evolves_foldr (f : Session -> Session) ids h :
  (forall s, evolves s (f s)) ->
  heap_evolves h (foldr (fun id h => alter f id h) h ids).
Proof.
  intros Hf. induction ids as [|id ids IH]; cbn; [reflexivity|].
  etrans; [exact IH | by apply heap_evolves_alter].
Qed.

#[export] Hint Resolve heap_evolves_insert heap_evolves_fresh heap_evolves_alter
  heap_evolves_foldr : talus.

Lemma registered_heap r id s : registered r id = Some s -> heap r !! id = Some s.
Proof. unfold registered. by case_decide. Qed.

Lemma registered_live r id s : registered r id = Some s -> id ∈ live r.
Proof. unfold registered. by case_decide. Qed.

(** A step that is not a registration keeps the counter and the domain of the heap,
    adds nothing to the map and lets every session evolve. *)
Record quiet (r r' : Registry) : Prop := {
  q_next : next r' = next r;
  q_dom : dom (heap r') = dom (heap r);
  q_live : live r' ⊆ live r;
  q_windows : windows r' = windows r;
  q_heap : heap_evolves (heap r) (heap r')
}.

#[export] Instance quiet_preorder : PreOrder quiet.
Proof.
  split.
  - intros r. split; try done.
  - intros a b c [? ? ? ? ?] [? ? ? ? ?].
    split; [congruence | congruence | by etrans | congruence | by etrans].
Qed.

Lemma wf_quiet r r' : wf r -> quiet r r' -> wf r'.
Proof.
  intros [Hn Hh Hl] [Qn Qd Ql _ Qh]. split.
  - lia.
  - intros id s' Hs'. assert (is_Some (heap r !! id)) as [s Hs].
    { apply elem_of_dom. rewrite <-Qd. apply elem_of_dom. eauto. }
    destruct (Qh _ _ Hs) as (s1 & Hs1 & [He _ _ _ _ _ _]). simplify_eq.
    destruct (Hh _ _ Hs). rewrite He, Qn. auto.
  - intros id Hid. apply elem_of_dom. rewrite Qd. apply elem_of_dom. auto.
Qed.

Lemma quiet_heap r id s s' :
  heap r !! id = Some s -> evolves s s' -> quiet r (with_heap (<[id := s']> (heap r)) r).
Proof.
  intros Hs He. split; cbn; try done; [|eauto with talus].
  rewrite dom_insert_L. assert (id ∈ dom (heap r)) by (apply elem_of_dom; eauto). set_solver.
Qed.

Lemma quiet_alter r (f : Session -> Session) id :
  (forall s, evolves s (f s)) -> quiet r (with_heap (alter f id (heap r)) r).
Proof. intros Hf. split; cbn; try done; [apply dom_alter_L | eauto with talus]. Qed.

Lemma quiet_admit id r : quiet r (fst (Admit id r)).
Proof.
  unfold Admit. destruct (registered r id) as [s|] eqn:E; [|cbn; reflexivity].
  case_bool_decide; cbn; [|reflexivity].
  eapply quiet_heap; eauto using registered_heap with talus.
Qed.

Lemma quiet_done id r : quiet r (Done id r).
Proof.
  unfold Done. destruct (registered r id) as [s|] eqn:E.
  - apply registered_heap in E.
    destruct (quiet_heap r id s (MarkDone s) E (evolves_done s)) as [? Hd ? ? ?].
    split; cbn in *; try done. set_solver.
  - split; cbn; try done. set_solver.
Qed.

Lemma dom_foldr_alter (f : Session -> Session) ids (h : gmap Z Session) :
  dom (foldr (fun id h => alter f id h) h ids) = dom h.
Proof. induction ids as [|id ids IH]; cbn; [done|]. by rewrite dom_alter_L. Qed.

Lemma quiet_revoke u t r : quiet r (fst (fst (MarkRevoked u t r))).
Proof.
  split; cbn; try done; [apply dom_foldr_alter | apply heap_evolves_foldr; auto with talus].
Qed.

Lemma quiet_settle env id r : quiet r (fst (settle_one env id r)).
Proof.
  unfold settle_one. destruct (heap r !! id) as [s|] eqn:Hs; [|cbn; reflexivity].
  destruct (windows r) as [g b].
  destruct (BeginCleanup (ranAt env) g b s) as [s1 [graceAt dl]] eqn:Eb.
  assert (evolves s s1) as E1 by (pose proof (evolves_begin (ranAt env) g b s); by rewrite Eb in *).
  destruct (waitClosed (doneAt env) (tie1 env) (ranAt env) (TimeSub graceAt (ranAt env))) as [fin1 t1].
  assert (forall s2 fin, evolves s s2 ->
    quiet r (let r1 := with_heap (<[id := s2]> (heap r)) r in if fin : bool then Done id r1 else r1)) as Q.
  { intros s2 fin E2. cbn. destruct fin; [etrans; [|apply quiet_done]|]; by eapply quiet_heap. }
  destruct fin1; cbn; [by apply (Q s1 true)|].
  destruct (waitClosed (doneAt env) (tie2 env) t1 (TimeSub dl t1)) as [fin2 t2]. cbn.
  apply (Q (fst (Force s1)) fin2). etrans; [exact E1 | apply evolves_force].
Qed.

Lemma quiet_await_loop env ids r acc : quiet r (fst (fst (await_loop env ids r acc))).
Proof.
  revert r acc. induction ids as [|id ids IH]; intros r acc; cbn; [reflexivity|].
  pose proof (quiet_settle (env id) id r) as Q.
  destruct (settle_one (env id) id r) as [r1 x].
  specialize (IH r1 (add_settled acc x)).
  destruct (await_loop env ids r1 (add_settled acc x)) as [[r2 acc2] xs]. cbn in *.
  by etrans.
Qed.

#[export] Hint Resolve quiet_admit quiet_done quiet_revoke quiet_settle quiet_await_loop
  quiet_alter : talus.

Definition is_register (o : op) : bool := match o with OpRegister _ _ _ _ => true | _ => false end.

Lemma exec_quiet o r : is_register o = false -> quiet r (exec o r).
Proof.
  destruct o; cbn [exec is_register]; intros H;
    first [discriminate H | apply quiet_admit | apply quiet_done | apply quiet_revoke
          | apply quiet_await_loop | apply quiet_alter; auto with talus].
Qed.

Lemma register_fresh r : wf r -> next r + 1 < uint64_mod -> heap r !! wrapu64 (next r + 1) = None.
Proof.
  intros [Hn Hh _] Hb. rewrite wrapu64_id by lia.
  destruct (heap r !! (next r + 1)) as [s|] eqn:E; [|done].
  apply Hh in E. lia.
Qed.

Lemma register_wf u v c f r : wf r -> next r + 1 < uint64_mod -> wf (fst (Register u v c f r)).
Proof.
  intros W Hb. pose proof W as [Hn Hh Hl]. unfold Register. rewrite wrapu64_id by lia.
  split; cbn.
  - lia.
  - intros id s. rewrite lookup_insert. case_decide; subst; intros; simplify_eq/=; [lia|].
    destruct (Hh _ _ H0). lia.
  - intros id. rewrite lookup_insert. case_decide; [eauto|]. set_solver.
Qed.

Lemma exec_wf o r : wf r -> next r + 1 < uint64_mod -> wf (exec o r).
Proof.
  intros W Hb. destruct (is_register o) eqn:E.
  - destruct o; try done. by apply register_wf.
  - eapply wf_quiet, exec_quiet; eauto.
Qed.

Lemma exec_evolves o r :
  wf r -> next r + 1 < uint64_mod -> heap_evolves (heap r) (heap (exec o r)).
Proof.
  intros W Hb. destruct (is_register o) eqn:E.
  - destruct o; try done. apply heap_evolves_fresh. by apply register_fresh.
  - by apply exec_quiet.
Qed.

Lemma exec_next o r : 0 <= next r -> next r + 1 < uint64_mod -> next (exec o r) <= next r + 1.
Proof.
  intros H0 Hb. destruct (is_register o) eqn:E.
  - destruct o; try done. cbn. rewrite wrapu64_id by lia. lia.
  - rewrite (q_next _ _ (exec_quiet o r E)). lia.
Qed.

(** The bound under which the 64-bit counter cannot wrap during a run. *)
Definition counter_room (os : list op) (r : Registry) : Prop :=
  next r + Z.of_nat (length os) < uint64_mod.

Lemma exec_all_invariant os r :
  wf r -> counter_room os r ->
  wf (exec_all os r) /\ heap_evolves (heap r) (heap (exec_all os r)).
Proof.
  revert r. unfold counter_room. induction os as [|o os IH]; intros r W Hb; cbn in *.
  { split; [done | reflexivity]. }
  pose proof (wf_next _ W) as H0.
  assert (next r + 1 < uint64_mod) as H1 by lia.
  destruct (IH (exec o r)) as [W' E'].
  - by apply exec_wf.
  - pose proof (exec_next o r H0 H1). lia.
  - split; [done|]. etrans; [by apply exec_evolves | done].
Qed.

(** ** Revocation *)

Lemma elem_of_sessions_of u r id :
  id ∈ sessions_of u r <-> UserID <$> registered r id = Some u.
Proof.
  unfold sessions_of. rewrite list_elem_of_filter, elem_of_elements. split; [by intros []|].
  intros H. split; [done|]. destruct (registered r id) eqn:E; [|done]. by eapply registered_live.
Qed.

Lemma NoDup_sessions_of u r : NoDup (sessions_of u r).
Proof. apply NoDup_filter, NoDup_elements. Qed.

Lemma lookup_foldr_alter (f : Session -> Session) ids (h : gmap Z Session) id :
  NoDup ids ->
  foldr (fun id h => alter f id h) h ids !! id = if decide (id ∈ ids) then f <$> h !! id else h !! id.
Proof.
  induction ids as [|i ids IH]; cbn; intros Hn.
  { by rewrite decide_False by set_solver. }
  apply NoDup_cons in Hn as [Hi Hn]. rewrite lookup_alter.
  destruct (decide (i = id)) as [->|Hne].
  - by rewrite (IH Hn), (decide_False (P := id ∈ ids)), (decide_True (P := id ∈ id :: ids)) by set_solver.
  - rewrite (IH Hn). destruct (decide (id ∈ ids)).
    + by rewrite (decide_True (P := id ∈ i :: ids)) by set_solver.
    + by rewrite (decide_False (P := id ∈ i :: ids)) by set_solver.
Qed.

(** Exactly the registered sessions of the user are revoked; every other session is
    untouched. *)
Lemma mark_revoked_lookup u t r id :
  heap (fst (fst (MarkRevoked u t r))) !! id =
  if decide (UserID <$> registered r id = Some u)
  then revoke_session t (windows r) <$> heap r !! id else heap r !! id.
Proof.
  unfold MarkRevoked; cbn. rewrite lookup_foldr_alter by apply NoDup_sessions_of.
  destruct (decide (id ∈ sessions_of u r)) as [Hi|Hi];
    destruct (decide (UserID <$> _ = _)) as [Hs|Hs]; try done;
    rewrite elem_of_sessions_of in Hi; done.
Qed.

Lemma revoke_session_state t w s : state (revoke_session t w s) = StateRevoked.
Proof. unfold revoke_session; cbn. by destruct (IsZero _). Qed.

Lemma revoke_session_deadline t w s :
  0 < t -> 0 < snd w -> deadline (revoke_session t w s) <> 0.
Proof.
  unfold revoke_session, TimeAdd; cbn. destruct (IsZero (deadline s)) eqn:E; cbn; bools; lia.
Qed.

Lemma revoked_refused r id s :
  heap r !! id = Some s -> state s = StateRevoked ->
  InputPermit id r = false /\ snd (Admit id r) = false.
Proof.
  intros Hs Hst. unfold InputPermit, Admit, registered. case_decide; [|done].
  rewrite Hs, Hst. done.
Qed.

Lemma revoked_stays_refused r id s os :
  wf r -> counter_room os r -> heap r !! id = Some s -> state s = StateRevoked ->
  InputPermit id (exec_all os r) = false /\ snd (Admit id (exec_all os r)) = false.
Proof.
  intros W Hb Hs Hst. destruct (exec_all_invariant os r W Hb) as [_ He].
  destruct (He _ _ Hs) as (s' & Hs' & Hev). eapply revoked_refused; [done|].
  pose proof (ev_state _ _ Hev) as Hle. rewrite Hst in Hle. by destruct (state s').
Qed.

(** ** Bounds of the cleanup wait *)

Lemma waitClosed_time d t now dur :
  now <= snd (waitClosed d t now dur) <= Z.max now (now + dur).
Proof. unfold waitClosed. destruct d as [c|]; splits; cbn; lia. Qed.

Lemma waitClosed_never t now dur : fst (waitClosed None t now dur) = false.
Proof. done. Qed.

Lemma TimeSub_le a b : Z.max b (b + TimeSub a b) <= Z.max b a.
Proof. unfold TimeSub, int64_min, int64_max. lia. Qed.

(** A goroutine of [Await] returns no later than the session's frozen deadline. *)
Lemma settle_one_deadline env id r s :
  heap r !! id = Some s -> deadline s <> 0 ->
  s_end (snd (settle_one env id r)) <= Z.max (ranAt env) (Z.max (graceDeadline s) (deadline s)).
Proof.
  intros Hs Hd. unfold settle_one. rewrite Hs. destruct (windows r) as [g b].
  unfold BeginCleanup. apply IsZero_false in Hd as Hz. rewrite Hz. cbn.
  destruct (waitClosed (doneAt env) (tie1 env) (ranAt env) _) as [fin1 t1] eqn:E1.
  pose proof (waitClosed_time (doneAt env) (tie1 env) (ranAt env) (TimeSub (graceDeadline s) (ranAt env))) as B1.
  pose proof (TimeSub_le (graceDeadline s) (ranAt env)). rewrite E1 in B1; cbn in B1.
  destruct fin1; cbn; [lia|].
  destruct (waitClosed (doneAt env) (tie2 env) t1 _) as [fin2 t2] eqn:E2.
  pose proof (waitClosed_time (doneAt env) (tie2 env) t1 (TimeSub (deadline s) t1)) as B2.
  pose proof (TimeSub_le (deadline s) t1). rewrite E2 in B2; cbn in *. lia.
Qed.

Lemma settle_one_live env id r :
  heap r !! id <> None ->
  live (fst (settle_one env id r)) =
  if s_complete (snd (settle_one env id r)) then live r ∖ {[id]} else live r.
Proof.
  intros Hs. unfold settle_one. destruct (heap r !! id) as [s|]; [|done].
  destruct (windows r) as [g b], (BeginCleanup _ _ _ _) as [s1 [graceAt dl]].
  destruct (waitClosed _ _ (ranAt env) _) as [[] t1].
  - cbn. unfold Done. by case_match.
  - destruct (waitClosed _ _ t1 _) as [[] t2]; cbn; [|done]. unfold Done. by case_match.
Qed.

Lemma settle_one_other env id id' r :
  id' <> id -> heap (fst (settle_one env id r)) !! id' = heap r !! id'.
Proof.
  intros Hne. unfold settle_one. destruct (heap r !! id) as [s|]; [|done].
  destruct (windows r) as [g b], (BeginCleanup _ _ _ _) as [s1 [graceAt dl]].
  destruct (waitClosed _ _ (ranAt env) _) as [[] t1].
  - cbn. unfold Done. case_match; cbn; by rewrite ?lookup_insert_ne by done.
  - destruct (waitClosed _ _ t1 _) as [[] t2]; cbn; [unfold Done; case_match; cbn|];
      by rewrite ?lookup_insert_ne by done.
Qed.

(** ** Accounting of [Await] *)

Lemma await_loop_result env ids r acc :
  let '(_, res, xs) := await_loop env ids r acc in
  length xs = length ids /\
  Forced res = Forced acc + count_if s_forced xs /\
  Pending res = Pending acc + count_if (fun x => negb (s_complete x)) xs /\
  Complete res = Complete acc && bool_decide (count_if (fun x => negb (s_complete x)) xs = 0).
Proof.
  revert r acc. induction ids as [|id ids IH]; intros r acc; cbn.
  { unfold count_if; cbn. rewrite bool_decide_eq_true_2, andb_true_r by done.
    split_and!; [done | lia | lia | done]. }
  destruct (settle_one (env id) id r) as [r1 x]. specialize (IH r1 (add_settled acc x)).
  destruct (await_loop env ids r1 (add_settled acc x)) as [[r2 res] xs]. cbn in *.
  destruct IH as (Hl & Hf & Hp & Hc). rewrite !count_if_cons, Hc.
  split; [lia|]. split; [lia|]. split; [destruct (s_complete x); cbn in *; lia|].
  destruct (s_complete x); cbn; rewrite ?andb_true_r; [done|]. rewrite andb_false_r; cbn.
  rewrite bool_decide_eq_false_2; [by rewrite andb_false_r|]. unfold count_if. lia.
Qed.

(** The identifiers whose goroutine saw the done channel closed. *)
Fixpoint completed (ids : list Z) (xs : list settled) : list Z :=
  match ids, xs with
  | id :: ids, x :: xs => if s_complete x then id :: completed ids xs else completed ids xs
  | _, _ => []
  end.

Lemma await_loop_live env ids r acc :
  (forall id, id ∈ ids -> heap r !! id <> None) ->
  let '(r', _, xs) := await_loop env ids r acc in
  live r' = live r ∖ list_to_set (completed ids xs).
Proof.
  revert r acc. induction ids as [|id ids IH]; intros r acc Hh; cbn; [set_solver|].
  assert (heap r !! id <> None) as Hid by (apply Hh; set_solver).
  pose proof (settle_one_live (env id) id r Hid) as Hl.
  pose proof (quiet_settle (env id) id r) as Q.
  destruct (settle_one (env id) id r) as [r1 x]; cbn in *.
  specialize (IH r1 (add_settled acc x)).
  destruct (await_loop env ids r1 (add_settled acc x)) as [[r2 res] xs]; cbn in *.
  rewrite IH.
  - rewrite Hl. destruct (s_complete x); cbn; set_solver.
  - intros id' Hin. assert (heap r !! id' <> None) as Hn by (apply Hh; set_solver).
    apply not_eq_None_Some in Hn. apply not_eq_None_Some.
    apply elem_of_dom. rewrite (q_dom _ _ Q). by apply elem_of_dom.
Qed.

(** ** Properties *)

(** once [MarkRevoked] has run for a user, no terminal session of that user that
    was registered can ever again obtain the ready admission or an input permit,
    whatever sequence of registry operations follows (registrations, admissions,
    completions, further revocations, cleanup waits), as long as the 64-bit session
    counter does not wrap. *)
Theorem revocation_permanent r u t os id s :
  wf r -> registered r id = Some s -> UserID s = u ->
  counter_room os (fst (fst (MarkRevoked u t r))) ->
  let r' := exec_all os (fst (fst (MarkRevoked u t r))) in
  InputPermit id r' = false /\ snd (Admit id r') = false.
Proof.
  intros W Hs Hu Hb. apply registered_heap in Hs as Hh.
  eapply (revoked_stays_refused _ id (revoke_session t (windows r) s)).
  - eapply wf_quiet, quiet_revoke. done.
  - done.
  - rewrite mark_revoked_lookup, Hs; cbn. by rewrite decide_True, Hh by (by f_equal).
  - apply revoke_session_state.
Qed.

(** registry operations never violate the registry's well-formedness (the map
    only names allocated sessions, identifiers are unique and within the counter)
    and never move any session against the lifecycle order: identity and version are
    fixed, revoked and done are permanent, ready never returns to preparing, and the
    cleanup deadlines are frozen by the first writer. *)
Theorem registry_lifecycle r os :
  wf r -> counter_room os r ->
  wf (exec_all os r) /\
  (forall id s, heap r !! id = Some s ->
     exists s', heap (exec_all os r) !! id = Some s' /\ evolves s s').
Proof. apply exec_all_invariant. Qed.

(** the cleanup of a revoked session is bounded by one absolute budget: whatever
    happens between the revocation at instant [t] and a later [Await], the waiting
    goroutine returns by [t + max(grace, budget)] (or immediately when it starts
    later); repeated or delayed waits never restart the window. *)
Theorem cleanup_within_budget r u t os env id s :
  wf r -> registered r id = Some s -> UserID s = u -> deadline s = 0 ->
  0 < t -> 0 < snd (windows r) ->
  counter_room os (fst (fst (MarkRevoked u t r))) ->
  let r' := exec_all os (fst (fst (MarkRevoked u t r))) in
  s_end (snd (settle_one env id r')) <=
    Z.max (ranAt env) (t + Z.max (fst (windows r)) (snd (windows r))).
Proof.
  intros W Hs Hu Hd Ht Hw Hb r'. apply registered_heap in Hs as Hh.
  assert (heap (fst (fst (MarkRevoked u t r))) !! id = Some (revoke_session t (windows r) s)) as H1.
  { rewrite mark_revoked_lookup, Hs; cbn. by rewrite decide_True, Hh by (by f_equal). }
  destruct (exec_all_invariant os _ (wf_quiet _ _ W (quiet_revoke u t r)) Hb) as [_ He].
  destruct (He _ _ H1) as (s' & Hs' & Hev).
  pose proof (revoke_session_deadline t (windows r) s Ht Hw) as Hnz.
  destruct (ev_deadline _ _ Hev Hnz) as [Eg Ed].
  pose proof (settle_one_deadline env id r' s' Hs') as Hend.
  rewrite Ed, Eg in Hend. specialize (Hend Hnz).
  unfold revoke_session, TimeAdd in *; cbn in *.
  rewrite (proj2 (IsZero_spec _) Hd) in *; cbn in *. lia.
Qed.

(** [Await] reports exactly what happened: one outcome per session, [Forced] and
    [Pending] count the forced and the unfinished ones, [Complete] holds exactly when
    nothing is pending, and precisely the finished sessions leave the map, pending
    ones stay registered. *)
Theorem await_accounting env ids r r' res xs :
  (forall id, id ∈ ids -> heap r !! id <> None) ->
  Await env ids r = (r', res, xs) ->
  length xs = length ids /\
  Forced res = count_if s_forced xs /\
  Pending res = count_if (fun x => negb (s_complete x)) xs /\
  (Complete res = true <-> Pending res = 0) /\
  live r' = live r ∖ list_to_set (completed ids xs).
Proof.
  intros Hh E. unfold Await in E.
  pose proof (await_loop_result env ids r (mkCleanupResult true 0 0)) as R.
  pose proof (await_loop_live env ids r (mkCleanupResult true 0 0) Hh) as L.
  rewrite E in R, L. cbn in R. destruct R as (Rl & Rf & Rp & Rc).
  repeat split; try lia; try done; rewrite Rc; [intros ?; bools; lia | intros].
  apply bool_decide_eq_true_2. lia.
Qed.

(** ** Witnesses *)

(** One user with two terminals, one of them ready, and a terminal of another user. *)
Definition demo_registry : Registry :=
  exec_all [OpRegister 7 0 true true; OpRegister 7 0 true true; OpRegister 8 4 true true; OpAdmit 1] NewRegistry.

Lemma wf_NewRegistry : wf NewRegistry.
Proof. split; cbn; [lia | by intros ? ? ?%lookup_empty_Some | set_solver]. Qed.

Lemma wf_demo : wf demo_registry.
Proof. apply exec_all_invariant; [apply wf_NewRegistry | done]. Qed.

Lemma revocation_permanent_witness :
  InputPermit 1 demo_registry = true /\
  InputPermit 1 (exec_all [OpRegister 7 1 true true; OpAdmit 1]
     (fst (fst (MarkRevoked 7 (100 * Second) demo_registry)))) = false.
Proof.
  split; [vm_compute; reflexivity|].
  eapply (revocation_permanent demo_registry 7 (100 * Second) [OpRegister 7 1 true true; OpAdmit 1] 1).
  - exact wf_demo.
  - vm_compute; reflexivity.
  - reflexivity.
  - vm_compute; reflexivity.
Defined.

Lemma registry_lifecycle_witness :
  exists s, heap (exec_all [OpMarkRevoked 7 5; OpAdmit 2] demo_registry) !! 2 = Some s /\ Version s = 0.
Proof.
  destruct (registry_lifecycle demo_registry [OpMarkRevoked 7 5; OpAdmit 2]) as [_ H].
  - exact wf_demo.
  - vm_compute; reflexivity.
  - destruct (H 2 (mkSession 2 7 0 true true false false StatePreparing 0 0)) as (s & Hs & He).
    + vm_compute; reflexivity.
    + exists s. split; [exact Hs|]. exact (ev_version _ _ He).
Defined.

Lemma cleanup_within_budget_witness :
  s_end (snd (settle_one (mkEnv None (100 * Second) false false) 1
     (exec_all [OpAdmit 2] (fst (fst (MarkRevoked 7 (100 * Second) demo_registry)))))) <= 103 * Second.
Proof.
  etrans.
  - apply (cleanup_within_budget demo_registry 7 (100 * Second) [OpAdmit 2]
      (mkEnv None (100 * Second) false false) 1 (mkSession 1 7 0 true true false false StateReady 0 0)).
    + exact wf_demo.
    + vm_compute; reflexivity.
    + reflexivity.
    + reflexivity.
    + done.
    + done.
    + vm_compute; reflexivity.
  - vm_compute. discriminate.
Defined.

(** Session 1 reports completion in time, session 2 never does. *)
Definition demo_env (id : Z) : settle_env :=
  mkEnv (if id =? 1 then Some (101 * Second) else None) (100 * Second) false false.

Lemma await_accounting_witness :
  exists r' xs, Await demo_env [1; 2] (fst (fst (MarkRevoked 7 (100 * Second) demo_registry)))
    = (r', mkCleanupResult false 1 1, xs) /\
  live r' = live (fst (fst (MarkRevoked 7 (100 * Second) demo_registry))) ∖ list_to_set (completed [1; 2] xs).
Proof.
  eexists _, _. split; [vm_compute; reflexivity|].
  eapply (await_accounting demo_env [1; 2] _ _ (mkCleanupResult false 1 1)).
  - intros id H. apply elem_of_cons in H as [->|H].
    { vm_compute. discriminate. }
    apply list_elem_of_singleton in H as ->. vm_compute. discriminate.
  - vm_compute; reflexivity.
Defined.
