(* ===== verification/Gate.v ===== *)
(** * The per-user admission gate (internal/gate/gate.go)

    The gate serialises, per user, the admission of requests and the mutations that
    invalidate their sessions.  Two views of it are given.  [withUser] and the
    methods built on it are state-passing functions: one call from its entry to the
    release of the user's lock, with the instants at which its context may expire
    supplied by a [call_env].  Section [Interleaving] splits the same phases into the
    steps of concurrent goroutines, to show that the lock makes the first view
    faithful and that the uncertainty fence holds under every interleaving. *)

From S2P Require Import Prelude.

Definition DefaultBudget : duration := 2 * Second.

Inductive ctx_err := Canceled | DeadlineExceeded.

(** Errors a gate call returns: [ErrUnavailable] (bare or wrapping a cause), the
    context's own error, or the callback's. *)
Inductive gate_err (E : Type) :=
| ErrUnavailable
| CtxErr (e : ctx_err)
| FnErr (e : E).
Arguments ErrUnavailable {E}.
Arguments CtxErr {E} _.
Arguments FnErr {E} _.

(** The lock is a channel of capacity 1; [lock] is whether it is full. *)
Record userState := mkUser { lock : bool; initialized : bool; pending : bool }.

Definition new_user : userState := mkUser false false false.

(** Which [VersionSource] a call consults. *)
Inductive source := SrcVersion | SrcRecovery.

(** The phases of [withUser] as updates of the user's state. *)
Definition take_lock (st : userState) : userState := mkUser true (initialized st) (pending st).
Definition drop_lock (st : userState) : userState := mkUser false (initialized st) (pending st).
Definition choose_source (st : userState) : source :=
  if negb (initialized st) || pending st then SrcRecovery else SrcVersion.
Definition after_read (st : userState) : userState := mkUser (lock st) true false.
Definition fence (uncertain : bool) (st : userState) : userState :=
  if uncertain then mkUser (lock st) (initialized st) true else st.

Section gate.
(** [W] is the world the version sources read and the callbacks change: the
    database and the registries. *)
Context {W : Type}.

(** A source returns the version, or [None] for an error. *)
Definition VersionSource := W -> Z -> option Z.

Record Gate := mkGate {
  users : gmap Z userState;
  version : option VersionSource;
  recovery : option VersionSource
}.

Definition New (version : option VersionSource) (recovery : list (option VersionSource)) : Gate :=
  mkGate ∅ version (match recovery with [] => version | r :: _ => r end).

Definition set_user (u : Z) (st : userState) (g : Gate) : Gate :=
  mkGate (<[u := st]> (users g)) (version g) (recovery g).

Definition stateFor (u : Z) (g : Gate) : Gate * userState :=
  match users g !! u with
  | Some st => (g, st)
  | None => (set_user u new_user g, new_user)
  end.

(** When the call's context expires: while waiting for the lock, between the lock
    and the read, or during the read. *)
Record call_env := mkCall { lock_err : option ctx_err; locked_err : option ctx_err; read_err : option ctx_err }.

(** A callback: it may change the user's fence and the world. *)
Definition callback (E : Type) := userState -> Z -> W -> userState * W * option E.

Definition withUser {E} (env : call_env) (u : Z) (fn : callback E) (g : Gate) (w : W)
  : Gate * W * option (gate_err E) :=
  match version g, recovery g with
  | Some ver, Some rec =>
      let '(g, st) := stateFor u g in
      match lock_err env with
      | Some e => (g, w, Some (CtxErr e))
      | None =>
          if lock st then (g, w, Some (CtxErr DeadlineExceeded))
          else
            let st := take_lock st in
            match locked_err env with
            | Some e => (set_user u (drop_lock st) g, w, Some (CtxErr e))
            | None =>
                let src := match choose_source st with SrcVersion => ver | SrcRecovery => rec end in
                match src w u, read_err env with
                | None, _ | _, Some _ => (set_user u (drop_lock st) g, w, Some ErrUnavailable)
                | Some v, None =>
                    let '(st, w, err) := fn (after_read st) v w in
                    (set_user u (drop_lock st) g, w, FnErr <$> err)
                end
            end
      end
  | _, _ => (g, w, Some ErrUnavailable)
  end.

Definition Admit {E} (env : call_env) (u : Z) (fn : Z -> W -> W * option E) (g : Gate) (w : W)
  : Gate * W * option (gate_err E) :=
  withUser env u (fun st v w => let '(w, err) := fn v w in (st, w, err)) g w.

(** The callback of [Update] returns whether the mutation's outcome is uncertain. *)
Definition Update {E} (env : call_env) (u : Z) (fn : Z -> W -> W * bool * option E) (g : Gate) (w : W)
  : Gate * W * option (gate_err E) :=
  withUser env u
    (fun st v w => let '(w, uncertain, err) := fn v w in (fence uncertain st, w, err)) g w.

(** [write_err]: the write context is already expired when the callback starts. *)
Definition UpdateWithBudget {E} (env : call_env) (u : Z) (bud : duration) (write_err : option E)
  (fn : Z -> W -> W * bool * option E) (g : Gate) (w : W) : Gate * W * option (gate_err E) :=
  if bud <=? 0 then (g, w, Some ErrUnavailable)
  else Update env u
    (fun v w => match write_err with Some e => (w, false, Some e) | None => fn v w end) g w.

Definition Recover (env : call_env) (u : Z) (g : Gate) (w : W) : Gate * W * option (gate_err Empty_set) :=
  Admit env u (fun _ w => (w, None)) g w.

(** *** The behaviour of a call *)

(** The state a user has before a call, created on first use. *)
Definition user_of (u : Z) (g : Gate) : userState := default new_user (users g !! u).

Lemma stateFor_spec u g : snd (stateFor u g) = user_of u g /\ user_of u (fst (stateFor u g)) = user_of u g.
Proof.
  unfold stateFor, user_of. destruct (users g !! u) eqn:E; cbn; [by rewrite E|].
  by rewrite lookup_insert_eq.
Qed.

Lemma stateFor_sources u g :
  version (fst (stateFor u g)) = version g /\ recovery (fst (stateFor u g)) = recovery g.
Proof. unfold stateFor. by destruct (users g !! u). Qed.

Lemma stateFor_other u u' g : u' <> u -> user_of u' (fst (stateFor u g)) = user_of u' g.
Proof.
  intros Hne. unfold stateFor, user_of. destruct (users g !! u); cbn; [done|].
  by rewrite lookup_insert_ne.
Qed.

Lemma user_of_set u u' st g :
  user_of u' (set_user u st g) = if decide (u = u') then st else user_of u' g.
Proof. unfold user_of; cbn. rewrite lookup_insert. by case_decide. Qed.

Context (ver rec : VersionSource).

(** The gate of a running Hub: both sources are wired. *)
Definition wired (g : Gate) : Prop := version g = Some ver /\ recovery g = Some rec.

(** The source a call of user [u] must consult. *)
Definition source_of (st : userState) : VersionSource :=
  match choose_source st with SrcVersion => ver | SrcRecovery => rec end.

Lemma wired_set u st g : wired g -> wired (set_user u st g).
Proof. done. Qed.

(** What every call guarantees: the lock is free again, other users are untouched. *)
Definition frame (u : Z) (g g' : Gate) : Prop :=
  wired g' /\ lock (user_of u g') = false /\ (forall u', u' <> u -> user_of u' g' = user_of u' g).

(** A call that fails before its callback changes nothing. *)
Definition refused {E} (u : Z) (g : Gate) (w : W) (g' : Gate) (w' : W) (err : option (gate_err E)) : Prop :=
  w' = w /\ user_of u g' = user_of u g /\ (err = Some ErrUnavailable \/ exists e, err = Some (CtxErr e)).

(** A call either fails before its callback, leaving the world and the flags of
    every user as they were, or runs the callback on the version read from the
    source the flags prescribe. *)
Lemma withUser_spec {E} env u (fn : callback E) g w :
  wired g -> lock (user_of u g) = false ->
  let '(g', w', err) := withUser env u fn g w in
  frame u g g' /\
  (refused u g w g' w' err \/
   (exists v st' e, source_of (user_of u g) w u = Some v /\
      fn (mkUser true true false) v w = (st', w', e) /\ err = FnErr <$> e /\
      user_of u g' = drop_lock st')).
Proof.
  intros [Hv Hr] Hl. unfold withUser. rewrite Hv, Hr.
  destruct (stateFor_spec u g) as [E1 E2]. destruct (stateFor_sources u g) as [S1 S2].
  pose proof (stateFor_other u) as S3.
  destruct (stateFor u g) as [g1 st] eqn:Eg; cbn in E1, E2, S1, S2. subst st.
  assert (wired g1) as Hw1 by (split; congruence).
  assert (forall u', u' <> u -> user_of u' g1 = user_of u' g) as Ho.
  { intros u' Hne. specialize (S3 u' g Hne). by rewrite Eg in S3. }
  assert (drop_lock (take_lock (user_of u g)) = user_of u g) as Hdt.
  { destruct (user_of u g); cbn in *. by subst. }
  assert (forall st', wired (set_user u st' g1) /\ user_of u (set_user u st' g1) = st' /\
    (forall u', u' <> u -> user_of u' (set_user u st' g1) = user_of u' g)) as Hset.
  { intros st'. split; [done|]. rewrite user_of_set, decide_True by done. split; [done|].
    intros u' Hne. rewrite user_of_set, decide_False by done. auto. }
  assert (forall g' err (P : Prop), wired g' -> user_of u g' = user_of u g ->
    (forall u', u' <> u -> user_of u' g' = user_of u' g) ->
    err = Some (@ErrUnavailable E) \/ (exists e, err = Some (CtxErr e)) ->
    frame u g g' /\ (refused u g w g' w err \/ P)) as Hfail.
  { intros g' err P F1 F2 F3 F4. split; [|by left]. split; [done|]. by rewrite F2. }
  destruct (lock_err env) as [e|]; [apply Hfail; eauto|].
  rewrite Hl. destruct (Hset (drop_lock (take_lock (user_of u g)))) as (K1 & K2 & K3).
  destruct (locked_err env) as [e|]; [apply Hfail; rewrite ?K2; eauto|].
  assert (forall a, (match choose_source (take_lock (user_of u g)) with
     | SrcVersion => ver | SrcRecovery => rec end) a = source_of (user_of u g) a) as Hsrc by done.
  rewrite Hsrc. destruct (source_of (user_of u g) w u) as [v|] eqn:Ev; [|apply Hfail; rewrite ?K2; eauto].
  destruct (read_err env) as [e|]; [apply Hfail; rewrite ?K2; eauto|].
  destruct (fn _ v w) as [[st' w'] e] eqn:Ef.
  destruct (Hset (drop_lock st')) as (L1 & L2 & L3). rewrite L2.
  split; [by split; [|rewrite L2; split]|]. right. exists v, st', e. done.
Qed.

(** The fence after [Update]: set exactly by an uncertain outcome. *)
Lemma Update_spec {E} env u (fn : Z -> W -> W * bool * option E) g w :
  wired g -> lock (user_of u g) = false ->
  let '(g', w', err) := Update env u fn g w in
  frame u g g' /\
  (refused u g w g' w' err \/
   (exists v unc e, source_of (user_of u g) w u = Some v /\
      fn v w = (w', unc, e) /\ err = FnErr <$> e /\ user_of u g' = mkUser false true unc)).
Proof.
  intros Hw Hl. unfold Update.
  pose proof (withUser_spec env u (fun st v w => let '(w, uncertain, err) := fn v w in
    (fence uncertain st, w, err)) g w Hw Hl) as H.
  destruct (withUser env u _ g w) as [[g' w'] err].
  destruct H as (H1 & [H4|(v & st' & e & Hs & Hf & He & Hu)]); [tauto|].
  split; [done|]. right.
  destruct (fn v w) as [[w1 unc] e1] eqn:Efn. simplify_eq.
  exists v, unc, e. rewrite Hu. by destruct unc.
Qed.

Lemma Admit_spec {E} env u (fn : Z -> W -> W * option E) g w :
  wired g -> lock (user_of u g) = false ->
  let '(g', w', err) := Admit env u fn g w in
  frame u g g' /\
  (refused u g w g' w' err \/
   (exists v e, source_of (user_of u g) w u = Some v /\
      fn v w = (w', e) /\ err = FnErr <$> e /\ user_of u g' = mkUser false true false)).
Proof.
  intros Hw Hl. unfold Admit.
  pose proof (withUser_spec env u (fun st v w => let '(w, err) := fn v w in (st, w, err)) g w Hw Hl) as H.
  destruct (withUser env u _ g w) as [[g' w'] err].
  destruct H as (H1 & [H4|(v & st' & e & Hs & Hf & He & Hu)]); [tauto|].
  split; [done|]. right.
  destruct (fn v w) as [w1 e1] eqn:Efn. simplify_eq. exists v, e. by rewrite Hu.
Qed.
(** When nothing expires and the source answers, the callback runs. *)
Lemma Admit_answers {E} env u (fn : Z -> W -> W * option E) g w v :
  wired g -> lock (user_of u g) = false ->
  lock_err env = None -> locked_err env = None -> read_err env = None ->
  source_of (user_of u g) w u = Some v ->
  (Admit env u fn g w).1.2 = (fn v w).1 /\ (Admit env u fn g w).2 = FnErr <$> (fn v w).2.
Proof.
  intros [Hv Hr] Hl E1 E2 E3 Hs. unfold Admit, withUser. rewrite Hv, Hr, E1, E2.
  destruct (stateFor_spec u g) as [H1 _]. destruct (stateFor u g) as [g1 st]; cbn in H1. subst st.
  rewrite Hl. unfold source_of in Hs. change (choose_source (take_lock (user_of u g))) with (choose_source (user_of u g)).
  destruct (choose_source _); rewrite Hs, E3; by destruct (fn v w).
Qed.
End gate.

Arguments Gate : clear implicits.
Arguments VersionSource : clear implicits.
Arguments callback : clear implicits.

(** ** Interleaving

    The goroutines inside the gate, one step at a time.  [PWait] is the [select] on
    the user's lock, [PHold] the section between the lock and the choice of the
    source, [PRead] the outstanding version read, [PRun] the callback. *)
Section Interleaving.
Inductive pc :=
| PWait (u : Z) (upd : bool)
| PHold (u : Z) (upd : bool)
| PRead (u : Z) (upd : bool) (src : source)
| PRun (u : Z) (upd : bool)
| PDone.

(** The observable history of the gate, newest event first. *)
Inductive event := EvRead (u : Z) (src : source) | EvFence (u : Z).

Record config := mkConfig { c_users : gmap Z userState; threads : gmap nat pc; trace : list event }.

Definition c_user (u : Z) (c : config) : userState := default new_user (c_users c !! u).

Definition upd_user (u : Z) (f : userState -> userState) (c : config) : gmap Z userState :=
  <[u := f (c_user u c)]> (c_users c).

Inductive gstep (c : config) : config -> Prop :=
| S_call t u upd : threads c !! t = None ->
    gstep c (mkConfig (upd_user u id c) (<[t := PWait u upd]> (threads c)) (trace c))
| S_timeout t u upd : threads c !! t = Some (PWait u upd) ->
    gstep c (mkConfig (c_users c) (<[t := PDone]> (threads c)) (trace c))
| S_lock t u upd : threads c !! t = Some (PWait u upd) -> lock (c_user u c) = false ->
    gstep c (mkConfig (upd_user u take_lock c) (<[t := PHold u upd]> (threads c)) (trace c))
| S_expired t u upd : threads c !! t = Some (PHold u upd) ->
    gstep c (mkConfig (upd_user u drop_lock c) (<[t := PDone]> (threads c)) (trace c))
| S_choose t u upd : threads c !! t = Some (PHold u upd) ->
    gstep c (mkConfig (c_users c) (<[t := PRead u upd (choose_source (c_user u c))]> (threads c)) (trace c))
| S_read_fail t u upd src : threads c !! t = Some (PRead u upd src) ->
    gstep c (mkConfig (upd_user u drop_lock c) (<[t := PDone]> (threads c)) (trace c))
| S_read_ok t u upd src : threads c !! t = Some (PRead u upd src) ->
    gstep c (mkConfig (upd_user u after_read c) (<[t := PRun u upd]> (threads c)) (EvRead u src :: trace c))
| S_return t u upd uncertain : threads c !! t = Some (PRun u upd) ->
    gstep c (mkConfig (upd_user u (fun st => drop_lock (fence (upd && uncertain) st)) c)
      (<[t := PDone]> (threads c))
      (if upd && uncertain then EvFence u :: trace c else trace c)).

Definition initial : config := mkConfig ∅ ∅ [].
Definition reachable : config -> Prop := rtc gstep initial.

(** The user whose critical section a goroutine is in. *)
Definition critical (p : pc) : option Z :=
  match p with
  | PHold u _ | PRead u _ _ | PRun u _ => Some u
  | _ => None
  end.

Definition ev_user (e : event) : Z := match e with EvRead u _ | EvFence u => u end.
Definition last_event (u : Z) (tr : list event) : option event :=
  head (filter (fun e => ev_user e = u) tr).

(** A user must be resolved by the recovery source: nothing was read yet, or the
    last thing that happened is an uncertain mutation. *)
Definition needs_recovery (u : Z) (tr : list event) : bool :=
  match last_event u tr with
  | None | Some (EvFence _) => true
  | Some (EvRead _ _) => false
  end.

Record ginv (c : config) : Prop := {
  gi_lock : forall t p u, threads c !! t = Some p -> critical p = Some u -> lock (c_user u c) = true;
  gi_excl : forall t1 t2 p1 p2 u, threads c !! t1 = Some p1 -> threads c !! t2 = Some p2 ->
    critical p1 = Some u -> critical p2 = Some u -> t1 = t2;
  gi_flags : forall u, choose_source (c_user u c) =
    if needs_recovery u (trace c) then SrcRecovery else SrcVersion;
  gi_read : forall t u upd src, threads c !! t = Some (PRead u upd src) ->
    src = choose_source (c_user u c);
  gi_trace : forall tr1 tr2 u src, trace c = tr1 ++ EvRead u src :: tr2 ->
    needs_recovery u tr2 = true -> src = SrcRecovery
}.

Lemma c_user_upd u u' f c ts tr :
  c_user u' (mkConfig (upd_user u f c) ts tr) = if decide (u = u') then f (c_user u c) else c_user u' c.
Proof. unfold c_user, upd_user; cbn. rewrite lookup_insert. by case_decide. Qed.

Lemma c_user_same u c ts tr : c_user u (mkConfig (c_users c) ts tr) = c_user u c.
Proof. done. Qed.

Lemma needs_recovery_cons u e tr :
  needs_recovery u (e :: tr) =
  if decide (ev_user e = u) then (match e with EvFence _ => true | EvRead _ _ => false end)
  else needs_recovery u tr.
Proof. unfold needs_recovery, last_event. rewrite filter_cons. case_decide; [|done]. by destruct e. Qed.

(** The goroutine that takes a step, seen from the others: its position changes, the
    state of one user changes, and possibly one event is recorded. *)
Lemma ginv_move c t (u : Z) p' f evs :
  ginv c ->
  let c' := mkConfig (upd_user u f c) (<[t := p']> (threads c)) (evs ++ trace c) in
  (* the stepping goroutine is in [u]'s section, or the section is free, or the step
     leaves the user's state alone *)
  ((exists p, threads c !! t = Some p /\ critical p = Some u) \/ lock (c_user u c) = false \/
    f (c_user u c) = c_user u c) ->
  (critical p' = None \/ (critical p' = Some u /\ lock (f (c_user u c)) = true /\
     ((exists p, threads c !! t = Some p /\ critical p = Some u) \/ lock (c_user u c) = false))) ->
  (forall v upd src, p' = PRead v upd src -> v = u /\ src = choose_source (f (c_user u c))) ->
  (forall v, choose_source (c_user v c') = if needs_recovery v (evs ++ trace c) then SrcRecovery else SrcVersion) ->
  (forall tr1 tr2 v src, evs ++ trace c = tr1 ++ EvRead v src :: tr2 ->
     needs_recovery v tr2 = true -> src = SrcRecovery) ->
  ginv c'.
Proof.
  intros I c' Hown Hcrit Hread Hflags Htrace. pose proof I as [Il Ix If Ir It].
  assert (forall t2 p2, t2 <> t -> threads c !! t2 = Some p2 -> critical p2 = Some u ->
    f (c_user u c) = c_user u c /\ critical p' = None) as Hothers.
  { intros t2 p2 Hne H2 C2. pose proof (Il _ _ _ H2 C2) as L2.
    assert (~ (exists p, threads c !! t = Some p /\ critical p = Some u)) as Hno.
    { intros (p & Hp & Cp). apply Hne. by eapply Ix. }
    split; [|destruct Hcrit as [|(_ & _ & [|])]; [done | tauto | congruence]].
    destruct Hown as [|[|]]; [tauto | congruence | done]. }
  subst c'. split; cbn; [| | exact Hflags | | exact Htrace].
  - intros t2 p2 v. rewrite lookup_insert, c_user_upd. case_decide as Et; intros H2 C2; simplify_eq.
    + destruct Hcrit as [|(Hc & Hl & _)]; [congruence|]. simplify_eq. by rewrite decide_True.
    + case_decide; subst; [|eauto]. destruct (Hothers t2 p2) as [-> _]; eauto.
  - intros t1 t2 p1 p2 v. rewrite !lookup_insert.
    destruct (decide (t = t1)), (decide (t = t2)); intros H1 H2 C1 C2; simplify_eq; try done; [| |by eauto];
      (destruct Hcrit as [|(Hc & _ & _)]; [congruence|]); rewrite Hc in *; simplify_eq.
    + by destruct (Hothers t2 p2) as [_ ?].
    + by destruct (Hothers t1 p1) as [_ ?].
  - intros t2 v upd src. rewrite lookup_insert, c_user_upd. case_decide as Et; intros H2; simplify_eq.
    + destruct (Hread _ _ _ eq_refl) as [-> ->]. by rewrite decide_True.
    + case_decide; subst; [|eauto]. destruct (Hothers t2 _ ltac:(done) H2 eq_refl) as [-> _]. eauto.
Qed.

Lemma ginv_initial : ginv initial.
Proof.
  split; cbn; intros; try (rewrite lookup_empty in *; done); [done|]. by destruct tr1.
Qed.

(** The invariant only looks at the users through [c_user]. *)
Lemma ginv_ext c u ts tr : ginv (mkConfig (upd_user u id c) ts tr) -> ginv (mkConfig (c_users c) ts tr).
Proof.
  assert (forall v, c_user v (mkConfig (upd_user u id c) ts tr) = c_user v (mkConfig (c_users c) ts tr)) as E.
  { intros v. rewrite c_user_upd. case_decide; by subst. }
  intros [Il Ix If Ir It]. split; cbn in *; intros; rewrite <-?E; eauto.
Qed.

Lemma flags_keep c u f ts :
  ginv c -> choose_source (f (c_user u c)) = choose_source (c_user u c) ->
  forall v, choose_source (c_user v (mkConfig (upd_user u f c) ts (trace c))) =
    if needs_recovery v (trace c) then SrcRecovery else SrcVersion.
Proof.
  intros I Hf v. rewrite <-(gi_flags _ I), c_user_upd. case_decide; by subst.
Qed.

Lemma flags_event c u f ts e :
  ginv c -> ev_user e = u ->
  choose_source (f (c_user u c)) =
    (match e with EvFence _ => SrcRecovery | EvRead _ _ => SrcVersion end) ->
  forall v, choose_source (c_user v (mkConfig (upd_user u f c) ts (e :: trace c))) =
    if needs_recovery v (e :: trace c) then SrcRecovery else SrcVersion.
Proof.
  intros I He Hf v. rewrite needs_recovery_cons, c_user_upd, He.
  case_decide; subst; [rewrite Hf; by destruct e | apply (gi_flags _ I)].
Qed.

Lemma ginv_step c c' : ginv c -> gstep c c' -> ginv c'.
Proof.
  intros I Hstep. pose proof (gi_trace _ I) as It.
  destruct Hstep as [t u upd Ht|t u upd Ht|t u upd Ht Hl|t u upd Ht|t u upd Ht|t u upd src Ht
    |t u upd src Ht|t u upd unc Ht].
  - apply (ginv_move c t u _ id []); eauto using flags_keep. done.
  - apply (ginv_ext c u), (ginv_move c t u PDone id []); eauto using flags_keep. done.
  - apply (ginv_move c t u _ take_lock []); eauto using flags_keep. done.
  - apply (ginv_move c t u PDone drop_lock []); eauto using flags_keep. done.
  - apply (ginv_ext c u), (ginv_move c t u _ id []); eauto using flags_keep.
    + right. split; [done|]. split; [|eauto]. by eapply (gi_lock _ I).
    + intros v upd' src H. by simplify_eq.
  - apply (ginv_move c t u PDone drop_lock []); eauto using flags_keep. done.
  - apply (ginv_move c t u _ after_read [EvRead u src]); eauto.
    + right. split; [done|]. split; [|eauto]. by eapply (gi_lock _ I).
    + done.
    + by apply flags_event.
    + intros tr1 tr2 v src' E Hn. destruct tr1 as [|e tr1]; cbn in E; simplify_eq; [|eauto].
      rewrite (gi_read _ I _ _ _ _ Ht), (gi_flags _ I), Hn. done.
  - destruct (upd && unc) eqn:E.
    + apply (ginv_move c t u PDone _ [EvFence u]); eauto; [done| |].
      * apply flags_event; [done..|]. cbn. unfold choose_source; cbn. by rewrite orb_true_r.
      * intros tr1 tr2 v src' E' Hn. destruct tr1; cbn in E'; simplify_eq. eauto.
    + apply (ginv_move c t u PDone drop_lock []); eauto using flags_keep. done.
Qed.

Lemma ginv_reachable c : reachable c -> ginv c.
Proof.
  assert (forall a b, rtc gstep a b -> ginv a -> ginv b) as H by (induction 1; eauto using ginv_step).
  intros R. by eapply H, ginv_initial.
Qed.
End Interleaving.

(** ** Properties *)

(** mutual exclusion.  In every reachable interleaving of gate calls at most one
    goroutine is inside a user's critical section (between taking the lock and
    releasing it), and that section's lock is held. *)
Theorem gate_mutual_exclusion c t1 t2 p1 p2 u :
  reachable c -> threads c !! t1 = Some p1 -> threads c !! t2 = Some p2 ->
  critical p1 = Some u -> critical p2 = Some u ->
  t1 = t2 /\ lock (c_user u c) = true.
Proof.
  intros R H1 H2 C1 C2. pose proof (ginv_reachable c R) as I.
  split; [by eapply (gi_excl _ I) | by eapply (gi_lock _ I)].
Qed.

(** C2: the uncertainty fence.  In every reachable interleaving, the first version
    read for a user after start-up, and the first one after a mutation whose commit
    outcome is unknown, was answered by the recovery source and never by the
    ordinary read. *)
Theorem fence_forces_recovery c tr1 tr2 u src :
  reachable c -> trace c = tr1 ++ EvRead u src :: tr2 ->
  needs_recovery u tr2 = true -> src = SrcRecovery.
Proof. intros R. apply (gi_trace _ (ginv_reachable c R)). Qed.

(** ** Witnesses *)

(** A goroutine inside the callback of its first update. *)
Definition demo_reading : config :=
  mkConfig {[7 := mkUser true true false]} {[0%nat := PRun 7 true]} [EvRead 7 SrcRecovery].

Lemma demo_reading_reachable : reachable demo_reading.
Proof.
  eapply rtc_l; [apply (S_call initial 0 7 true); reflexivity|].
  eapply rtc_l; [eapply (S_lock _ 0 7 true); reflexivity|].
  eapply rtc_l; [eapply (S_choose _ 0 7 true); reflexivity|].
  eapply rtc_l; [eapply (S_read_ok _ 0 7 true SrcRecovery); reflexivity|].
  apply rtc_refl.
Qed.

(** That update's commit outcome is unknown; a second goroutine's admission resolves it. *)
Definition demo_recovered : config :=
  mkConfig {[7 := mkUser true true false]} {[0%nat := PDone; 1%nat := PRun 7 false]}
    [EvRead 7 SrcRecovery; EvFence 7; EvRead 7 SrcRecovery].

Lemma demo_recovered_reachable : reachable demo_recovered.
Proof.
  unfold reachable. transitivity demo_reading; [exact demo_reading_reachable|].
  eapply rtc_l; [eapply (S_return _ 0 7 true true); reflexivity|].
  eapply rtc_l; [eapply (S_call _ 1 7 false); reflexivity|].
  eapply rtc_l; [eapply (S_lock _ 1 7 false); reflexivity|].
  eapply rtc_l; [eapply (S_choose _ 1 7 false); reflexivity|].
  eapply rtc_l; [eapply (S_read_ok _ 1 7 false SrcRecovery); reflexivity|].
  apply rtc_refl.
Qed.

Lemma gate_mutual_exclusion_witness : lock (c_user 7 demo_reading) = true.
Proof.
  apply (gate_mutual_exclusion demo_reading 0 0 (PRun 7 true) (PRun 7 true) 7).
  - exact demo_reading_reachable.
  - reflexivity.
  - reflexivity.
  - reflexivity.
  - reflexivity.
Defined.

Lemma fence_forces_recovery_witness :
  trace demo_recovered = [] ++ EvRead 7 SrcRecovery :: [EvFence 7; EvRead 7 SrcRecovery] /\
  SrcRecovery = SrcRecovery.
Proof.
  split; [reflexivity|].
  apply (fence_forces_recovery demo_recovered [] [EvFence 7; EvRead 7 SrcRecovery] 7).
  - exact demo_recovered_reachable.
  - reflexivity.
  - vm_compute; reflexivity.
Defined.
