(* ===== verification/Revocation.v ===== *)
(** * Password changes against terminals and requests

    The composition of the gate, the terminal registry, the user table and the
    callers that use them: [AuthService.ChangePassword] (internal/service/auth.go)
    over [UserRepo] (internal/repository/user.go), the three gated steps of a
    terminal (internal/service/terminal.go) and the admission of a bearer token in
    the authentication middleware (internal/server/middleware/auth.go).

    PostgreSQL is an interface: class [UserDB] states what the two version reads
    promise, and [tx_rel] what one password transaction may do.  Section [rows] gives
    a row store that implements it. *)

From S2P Require Import Prelude Registry Gate.

(** ** The database interface *)

(** What the Hub's primary database promises about a user's row: [committed] is the
    version of the last committed state, [unresolved] whether a password transaction
    whose COMMIT was sent is still being decided.  An ordinary MVCC read may return
    the old version while a commit is unresolved; a FOR UPDATE read waits for it. *)
Class UserDB (D : Type) := {
  committed : D -> Z -> option Z;
  unresolved : D -> Z -> bool;
  password_hash : D -> Z -> option string;
  TokenVersion : D -> Z -> option Z;
  LockedTokenVersion : D -> Z -> option Z;
  plain_sees_committed d u v :
    unresolved d u = false -> TokenVersion d u = Some v -> committed d u = Some v;
  locked_waits d u v :
    LockedTokenVersion d u = Some v -> unresolved d u = false /\ committed d u = Some v
}.

(** The errors of COMMIT that the repository distinguishes. *)
Inductive commit_err := ErrTxCommitRollback | PgError (code : string) | TransportErr.

Definition commitDefinitelyRolledBack (e : commit_err) : bool :=
  match e with
  | ErrTxCommitRollback => true
  | PgError code => bool_decide (code = "40001" \/ code = "40P01" \/ code = "25P02")%string
  | TransportErr => false
  end.

(** A statement's error, with the context error that caused it if any. *)
Abbreviation db_err := (option ctx_err) (only parsing).

(** What the environment decides during one password transaction. *)
Record tx_env (D : Type) := mkTx {
  begin_fails : option db_err; lock_fails : option db_err; update_fails : option db_err;
  commit_result : option commit_err;
  after_commit : D (* the database after the COMMIT was answered *)
}.
Arguments mkTx {D}.
Arguments begin_fails {D}.
Arguments lock_fails {D}.
Arguments update_fails {D}.
Arguments commit_result {D}.
Arguments after_commit {D}.

Inductive change_err :=
| ErrDatabase (cause : option ctx_err) | ErrRecordNotFound | ErrWrongCurrentPassword
| ErrCommitRolledBack (e : commit_err) | ErrCommitUnknown (e : commit_err).

Section with_db.
Context {D : Type} `{!UserDB D}.
(** [bcrypt.CompareHashAndPassword]. *)
Context (compare : string -> string -> bool).

(** The frame of one user's transaction. *)
Definition others_same (u : Z) (d d' : D) : Prop :=
  forall u', u' <> u -> committed d' u' = committed d u' /\ unresolved d' u' = unresolved d u'.

(** What a COMMIT may have done by the time the Hub stops waiting for its answer:
    an acknowledged one is resolved and incremented the version; after a lost
    acknowledgement it may be applied, discarded or still undecided. *)
Definition tx_rel (u : Z) (d : D) (res : option commit_err) (d' : D) : Prop :=
  others_same u d d' /\
  match res with
  | None => unresolved d' u = false /\ committed d' u = Z.succ <$> committed d u
  | Some e => committed d' u = committed d u \/ committed d' u = Z.succ <$> committed d u
  end.

(** [UserRepo.ChangePassword]: lock, verify and increment in one transaction. *)
Definition repo_ChangePassword (env : tx_env D) (u : Z) (verify : string -> bool) (d : D)
  : D * option change_err :=
  match begin_fails env, lock_fails env, password_hash d u with
  | Some e, _, _ => (d, Some (ErrDatabase e))
  | None, Some e, _ => (d, Some (ErrDatabase e))
  | None, None, None => (d, Some ErrRecordNotFound)
  | None, None, Some h =>
      if negb (verify h) then (d, Some ErrWrongCurrentPassword)
      else match update_fails env, commit_result env with
      | Some e, _ => (d, Some (ErrDatabase e))
      | None, None => (after_commit env, None)
      | None, Some e =>
          if commitDefinitelyRolledBack e
          then (d, Some (ErrCommitRolledBack e))
          else (after_commit env, Some (ErrCommitUnknown e))
      end
  end.

Definition is_commit_unknown (e : option change_err) : bool :=
  match e with Some (ErrCommitUnknown _) => true | _ => false end.

(** ** The world the gate's callbacks act on

    [v_revoked] and [v_reg] are the local variables of the Go callers that their
    closures assign. *)
Record world := mkWorld { db : D; reg : Registry; v_revoked : list Z; v_reg : option Z }.

Definition user_version : VersionSource world := fun w u => TokenVersion (db w) u.
Definition user_locked_version : VersionSource world := fun w u => LockedTokenVersion (db w) u.

(** [NewAuthService]: the gate the service is built with. *)
Definition service_gate : Gate world := New (Some user_version) [Some user_locked_version].

(** ** [AuthService.ChangePassword] *)

(** The callback given to [Update]. *)
Definition change_callback (env : tx_env D) (u : Z) (currentPassword : string) (started : time)
  : Z -> world -> world * bool * option change_err :=
  fun _ w =>
    let '(d, err) := repo_ChangePassword env u (fun h => compare h currentPassword) (db w) in
    let unknown := is_commit_unknown err in
    if bool_decide (err = None) || unknown
    then let '(r, ids, _) := MarkRevoked u started (reg w) in
         (mkWorld d r ids (v_reg w), unknown, err)
    else (mkWorld d (reg w) (v_revoked w) (v_reg w), unknown, err).

Inductive password_err :=
| ErrInternal
| Unavailable (st : string)         (* 503 with a state *)
| Unavailable_gate (e : gate_err change_err) (* 503 for a gate refusal *)
| PlainErr (e : gate_err change_err).

Definition gate_unknown (e : option (gate_err change_err)) : bool :=
  match e with Some (FnErr e) => is_commit_unknown (Some e) | _ => false end.

Definition ChangePassword (hash_ok : bool) (env renv : call_env) (tx : tx_env D) (u : Z)
  (currentPassword : string) (started : time) (aenv : Z -> settle_env) (g : Gate world) (w : world)
  : Gate world * world * option password_err :=
  if negb hash_ok then (g, w, Some ErrInternal)
  else
    let w := mkWorld (db w) (reg w) [] (v_reg w) in
    let '(g, w, changeErr) := Update env u (change_callback tx u currentPassword started) g w in
    let unknown := gate_unknown changeErr in
    let '(g, w) := if unknown then let '(g, w, _) := Recover renv u g w in (g, w) else (g, w) in
    let '(w, incomplete) :=
      match v_revoked w with
      | [] => (w, false)
      | ids => let '(r, res, _) := Await aenv ids (reg w) in
               (mkWorld (db w) r (v_revoked w) (v_reg w), negb (Complete res))
      end in
    (g, w,
     if unknown then Some (Unavailable "password_commit_unknown")
     else if incomplete then Some (Unavailable "terminal_cleanup_incomplete")
     else match changeErr with
     | None => None
     | Some (FnErr (ErrDatabase (Some c))) => Some (Unavailable_gate (FnErr (ErrDatabase (Some c))))
     | Some (FnErr e) => Some (PlainErr (FnErr e))
     | Some e => Some (Unavailable_gate e)
     end).

(** ** Terminals *)
Inductive terminal_err := errTerminalRevoked.

(** Registration of a session under the gate (terminal.go, lines 245-251). *)
Definition terminal_register (env : call_env) (subject expectedVersion : Z) (g : Gate world) (w : world)
  : Gate world * world * option (gate_err terminal_err) :=
  Gate.Admit env subject
    (fun v w =>
       if negb (expectedVersion =? v) then (w, Some errTerminalRevoked)
       else let '(r, s) := Register subject v true true (reg w) in
            (mkWorld (db w) r (v_revoked w) (Some (ID s)), None)) g w.

(** Admission to ready once the shell runs (lines 456-461). *)
Definition terminal_ready (env : call_env) (subject : Z) (s : Session) (g : Gate world) (w : world)
  : Gate world * world * option (gate_err terminal_err) :=
  Gate.Admit env subject
    (fun v w =>
       if negb (v =? Version s) then (w, Some errTerminalRevoked)
       else let '(r, ok) := Registry.Admit (ID s) (reg w) in
            let w := mkWorld (db w) r (v_revoked w) (v_reg w) in
            (w, if ok then None else Some errTerminalRevoked)) g w.

(** The permission of each input or resize message (lines 540-545). *)
Definition terminal_input (env : call_env) (subject : Z) (s : Session) (g : Gate world) (w : world)
  : Gate world * world * option (gate_err terminal_err) :=
  Gate.Admit env subject
    (fun v w =>
       if negb (v =? Version s) || negb (InputPermit (ID s) (reg w))
       then (w, Some errTerminalRevoked) else (w, None)) g w.

(** ** Admission of a bearer token (middleware/auth.go, lines 134-150) *)
Inductive auth_outcome := Admitted200 | Unauthorized401 | ServiceUnavailable503.

Definition token_admission (env : call_env) (u : Z) (tokenVersion : option Z) (g : Gate world) (w : world)
  : Gate world * world * auth_outcome :=
  let '(g, w, err) :=
    Gate.Admit env u
      (fun v w => (w, if bool_decide (tokenVersion = Some v) then None else Some tt)) g w in
  (g, w, match err with
         | None => Admitted200
         | Some (FnErr _) => Unauthorized401
         | Some _ => ServiceUnavailable503
         end).

(** ** The running Hub

    Gate calls are atomic by [Gate.gate_mutual_exclusion]; between them the owners
    of sessions report completion, cleanup proceeds, and the database decides
    commits whose acknowledgement was lost. *)
Definition not_admission (o : op) : bool :=
  match o with OpRegister _ _ _ _ | OpAdmit _ => false | _ => true end.

Inductive sys_step : Gate world * world -> Gate world * world -> Prop :=
| Y_password ok env renv tx u pw t aenv g w g' w' res :
    tx_rel u (db w) (commit_result tx) (after_commit tx) ->
    ChangePassword ok env renv tx u pw t aenv g w = (g', w', res) ->
    sys_step (g, w) (g', w')
| Y_register env u v g w g' w' res :
    next (reg w) + 1 < uint64_mod ->
    terminal_register env u v g w = (g', w', res) ->
    sys_step (g, w) (g', w')
| Y_ready env s g w g' w' res :
    heap (reg w) !! ID s = Some s ->
    terminal_ready env (UserID s) s g w = (g', w', res) ->
    sys_step (g, w) (g', w')
| Y_input env s g w g' w' res :
    heap (reg w) !! ID s = Some s ->
    terminal_input env (UserID s) s g w = (g', w', res) ->
    sys_step (g, w) (g', w')
| Y_token env u tv g w g' w' res :
    token_admission env u tv g w = (g', w', res) ->
    sys_step (g, w) (g', w')
| Y_recover env u g w g' w' res :
    Recover env u g w = (g', w', res) ->
    sys_step (g, w) (g', w')
| Y_registry o g w :
    not_admission o = true ->
    sys_step (g, w) (g, mkWorld (db w) (exec o (reg w)) (v_revoked w) (v_reg w))
| Y_resolve u d' g w :
    unresolved (db w) u = true -> others_same u (db w) d' ->
    sys_step (g, w) (g, mkWorld d' (reg w) (v_revoked w) (v_reg w)).

(** A session that may still obtain or use an admission. *)
Definition usable (r : Registry) (id : Z) (s : Session) : Prop :=
  heap r !! id = Some s /\ id ∈ live r /\ state s <> StateRevoked.

Record sys_inv (c : Gate world * world) : Prop := {
  si_wired : wired user_version user_locked_version c.1;
  si_free : forall u, lock (user_of u c.1) = false;
  si_wf : wf (reg c.2);
  si_settled : forall u, choose_source (user_of u c.1) = SrcVersion -> unresolved (db c.2) u = false;
  si_current : forall id s, usable (reg c.2) id s ->
    unresolved (db c.2) (UserID s) = false /\ committed (db c.2) (UserID s) = Some (Version s)
}.

(** *** Lemmas *)

Abbreviation src := (source_of user_version user_locked_version).

Definition is_current (d : D) (u v : Z) : Prop := unresolved d u = false /\ committed d u = Some v.

(** Whatever source the gate prescribes, a version it returns is the committed one. *)
Lemma read_current g w u v : sys_inv (g, w) -> src (user_of u g) w u = Some v -> is_current (db w) u v.
Proof.
  intros I H. unfold source_of in H. destruct (choose_source (user_of u g)) eqn:E.
  - pose proof (si_settled _ I u E) as Hu. split; [done|]. by eapply plain_sees_committed.
  - by apply locked_waits.
Qed.

Lemma usable_quiet r r' id s' :
  quiet r r' -> usable r' id s' ->
  exists s, usable r id s /\ UserID s' = UserID s /\ Version s' = Version s.
Proof.
  intros Q (Hh & Hl & Hst). assert (is_Some (heap r !! id)) as [s Hs].
  { apply elem_of_dom. rewrite <-(q_dom _ _ Q). apply elem_of_dom. eauto. }
  destruct (q_heap _ _ Q _ _ Hs) as (s1 & Hs1 & Hev). simplify_eq.
  exists s. split; [|split; apply Hev]. split; [done|]. split; [by apply (q_live _ _ Q)|].
  intros Hr. pose proof (ev_state _ _ Hev) as Hle. rewrite Hr in Hle. by destruct (state s').
Qed.

Lemma usable_revoked u t r id s :
  usable (MarkRevoked u t r).1.1 id s -> UserID s <> u /\ usable r id s.
Proof.
  intros (Hh & Hl & Hst). rewrite mark_revoked_lookup in Hh. change (id ∈ live r) in Hl.
  case_decide as Hu.
  - destruct (heap r !! id) as [s0|]; [|done]. cbn in Hh. simplify_eq.
    by rewrite revoke_session_state in Hst.
  - split; [|done]. intros Hs. apply Hu. unfold registered. rewrite decide_True, Hh by done. cbn. by f_equal.
Qed.

Lemma inv_frame u g w g' w' :
  sys_inv (g, w) -> frame user_version user_locked_version u g g' ->
  (forall u', u' <> u -> unresolved (db w') u' = unresolved (db w) u') ->
  (choose_source (user_of u g') = SrcVersion -> unresolved (db w') u = false) ->
  wf (reg w') ->
  (forall id s, usable (reg w') id s -> is_current (db w') (UserID s) (Version s)) ->
  sys_inv (g', w').
Proof.
  intros I (Fw & Fl & Fo) Hd Hs Hwf Hu. split; cbn; try done.
  - intros u'. destruct (decide (u' = u)) as [->|]; [done|]. rewrite Fo by done. apply (si_free _ I).
  - intros u'. destruct (decide (u' = u)) as [->|]; [done|]. rewrite Fo, Hd by done. apply (si_settled _ I).
Qed.

(** A gated call of user [u] whose callback leaves the database alone and changes the
    registry only by quiet steps. *)
Lemma inv_quiet_call {E} env u (fn : Z -> world -> world * option E) g w g' w' err :
  (forall v w, db (fn v w).1 = db w /\ quiet (reg w) (reg (fn v w).1)) ->
  sys_inv (g, w) -> Gate.Admit env u fn g w = (g', w', err) -> sys_inv (g', w').
Proof.
  intros Hfn I H. pose proof (Admit_spec user_version user_locked_version env u fn g w
    (si_wired _ I) (si_free _ I u)) as S. rewrite H in S. destruct S as (F & S).
  assert (db w' = db w /\ quiet (reg w) (reg w') /\
    (choose_source (user_of u g') = SrcVersion -> unresolved (db w) u = false)) as (Ed & Q & Hs).
  { destruct S as [(-> & Hu & _)|(v & e & Hr & Hf & _ & Hu)].
    - rewrite Hu. split; [done|]. split; [reflexivity | apply (si_settled _ I)].
    - destruct (Hfn v w) as [Ed Q]. rewrite Hf in *; cbn in *. split; [done|]. split; [done|].
      intros _. by apply (read_current _ _ _ _ I Hr). }
  eapply (inv_frame u); eauto.
  - intros. by rewrite Ed.
  - rewrite Ed. done.
  - eapply wf_quiet; [apply (si_wf _ I) | done].
  - intros id s Hs'. destruct (usable_quiet _ _ _ _ Q Hs') as (s0 & U0 & -> & ->).
    unfold is_current. rewrite Ed. by apply (si_current _ I) in U0.
Qed.

Lemma inv_registry o g w :
  is_register o = false -> sys_inv (g, w) ->
  sys_inv (g, mkWorld (db w) (exec o (reg w)) (v_revoked w) (v_reg w)).
Proof.
  intros Ho I. pose proof (exec_quiet o (reg w) Ho) as Q.
  destruct I as [I1 I2 I3 I4 I5]. split; cbn in *; try done.
  - by eapply wf_quiet.
  - intros id s Hs. destruct (usable_quiet _ _ _ _ Q Hs) as (s0 & U0 & -> & ->). eauto.
Qed.

Lemma inv_register env u v g w g' w' res :
  next (reg w) + 1 < uint64_mod -> sys_inv (g, w) ->
  terminal_register env u v g w = (g', w', res) -> sys_inv (g', w').
Proof.
  intros Hb I H. unfold terminal_register in H.
  match type of H with Gate.Admit _ _ ?f _ _ = _ =>
    pose proof (Admit_spec user_version user_locked_version env u f g w
      (si_wired _ I) (si_free _ I u)) as S end.
  rewrite H in S. destruct S as (F & [(-> & Hu & _)|(v' & e & Hr & Hf & _ & Hu)]).
  { eapply (inv_frame u); eauto; [rewrite Hu; apply (si_settled _ I) | apply (si_wf _ I) |
      intros id s Hs; by apply (si_current _ I) in Hs]. }
  pose proof (read_current _ _ _ _ I Hr) as [Hc1 Hc2].
  destruct (negb (v =? v')) eqn:Ev; [simplify_eq|].
  { eapply (inv_frame u); eauto; [apply (si_wf _ I) | intros id s Hs; by apply (si_current _ I) in Hs]. }
  destruct (Register u v' true true (reg w)) as [r s0] eqn:Er. simplify_eq.
  assert (r = (Register u v' true true (reg w)).1) as -> by by rewrite Er.
  eapply (inv_frame u); eauto; cbn -[Register].
  - by apply register_wf; [apply (si_wf _ I)|].
  - intros id s (Hh & Hl & Hst). cbn in Hh, Hl. rewrite lookup_insert in Hh.
    case_decide; simplify_eq/=; [done|]. apply (si_current _ I id s). split; [done|]. split; [set_solver|done].
Qed.

(** The callback of a password change either leaves everything as it was, or
    installs the database's answer and revokes the user's sessions in the same
    critical section. *)
Lemma change_callback_cases tx u pw t v w w' unc e :
  change_callback tx u pw t v w = (w', unc, e) ->
  (db w' = db w /\ reg w' = reg w /\ v_revoked w' = v_revoked w /\ unc = false /\ e <> None /\
   is_commit_unknown e = false) \/
  (db w' = after_commit tx /\ reg w' = (MarkRevoked u t (reg w)).1.1 /\
   ((unc = false /\ e = None /\ commit_result tx = None) \/
    (exists c, unc = true /\ e = Some (ErrCommitUnknown c) /\ commit_result tx = Some c))).
Proof.
  unfold change_callback, repo_ChangePassword. intros H.
  destruct (begin_fails tx), (lock_fails tx), (password_hash (db w) u); simplify_eq/=; auto;
    try (left; done).
  destruct (negb (compare _ pw)); simplify_eq/=; [left; done|].
  destruct (update_fails tx); simplify_eq/=; [left; done|].
  destruct (commit_result tx) as [c|]; simplify_eq/=; [|right; eauto 10].
  destruct (commitDefinitelyRolledBack c); simplify_eq/=; [left; done | right; eauto 10].
Qed.

Lemma inv_update tx env u pw t g w g' w' err :
  tx_rel u (db w) (commit_result tx) (after_commit tx) -> sys_inv (g, w) ->
  Update env u (change_callback tx u pw t) g w = (g', w', err) -> sys_inv (g', w').
Proof.
  intros [Ht1 Ht2] I H.
  pose proof (Update_spec user_version user_locked_version env u (change_callback tx u pw t) g w
    (si_wired _ I) (si_free _ I u)) as S.
  rewrite H in S. destruct S as (F & [(-> & Hu & _)|(v & unc & e & Hr & Hf & _ & Hu)]).
  { eapply (inv_frame u); eauto; [rewrite Hu; apply (si_settled _ I) | apply (si_wf _ I) |
      intros id s Hs; by apply (si_current _ I) in Hs]. }
  pose proof (read_current _ _ _ _ I Hr) as [Hc1 Hc2].
  destruct (change_callback_cases _ _ _ _ _ _ _ _ _ Hf) as [(E1 & E2 & _ & -> & _)|(E1 & E2 & Hcase)].
  - eapply (inv_frame u); eauto; rewrite ?E1, ?E2; auto; [apply (si_wf _ I) |
      intros id s Hs; by apply (si_current _ I) in Hs].
  - eapply (inv_frame u); eauto; rewrite ?E1, ?E2.
    + intros. by apply Ht1.
    + rewrite Hu. destruct Hcase as [(-> & _ & Hn)|(c & -> & _)]; [|done].
      rewrite Hn in Ht2. intros _. apply Ht2.
    + eapply wf_quiet; [apply (si_wf _ I) | apply quiet_revoke].
    + intros id s Hs. apply usable_revoked in Hs as [Hne Hs]. apply (si_current _ I) in Hs as [K1 K2].
      destruct (Ht1 _ Hne) as [J1 J2]. split; [rewrite J2; exact K1 | rewrite J1; exact K2].
Qed.

Lemma inv_vars g w ids v : sys_inv (g, w) -> sys_inv (g, mkWorld (db w) (reg w) ids v).
Proof. intros []. by split. Qed.

Lemma inv_recover env u g w g' w' res :
  sys_inv (g, w) -> Recover env u g w = (g', w', res) -> sys_inv (g', w').
Proof. intros I H. eapply inv_quiet_call in H; eauto. intros. split; [done | cbn; reflexivity]. Qed.

Lemma inv_password ok env renv tx u pw t aenv g w g' w' res :
  tx_rel u (db w) (commit_result tx) (after_commit tx) -> sys_inv (g, w) ->
  ChangePassword ok env renv tx u pw t aenv g w = (g', w', res) -> sys_inv (g', w').
Proof.
  intros Ht I H. unfold ChangePassword in H. destruct (negb ok); [by simplify_eq|].
  destruct (Update _ _ _ _ _) as [[g1 w1] cerr] eqn:Eu.
  apply (inv_vars _ _ [] (v_reg w)) in I. eapply inv_update in Eu; [|done..].
  destruct (if gate_unknown cerr then _ else _) as [g2 w2] eqn:E2.
  assert (sys_inv (g2, w2)) as I2.
  { destruct (gate_unknown cerr); simplify_eq; [|done].
    destruct (Recover renv u g1 w1) as [[g3 w3] r3] eqn:Er. simplify_eq. by eapply inv_recover in Er. }
  destruct (v_revoked w2) as [|i ids] eqn:Ev; [by simplify_eq|].
  destruct (Await aenv (i :: ids) (reg w2)) as [[r x] xs] eqn:Ea. simplify_eq.
  assert (r = exec (OpAwait aenv (i :: ids)) (reg w2)) as -> by (cbn [exec]; by rewrite Ea).
  rewrite <-Ev. exact (inv_registry (OpAwait aenv (v_revoked w2)) _ _ eq_refl I2).
Qed.

Lemma inv_step c c' : sys_inv c -> sys_step c c' -> sys_inv c'.
Proof.
  intros I Hs. destruct Hs as [ok env renv tx u pw t aenv g w g' w' res Ht H|env u v g w g' w' res Hb H
    |env s g w g' w' res _ H|env s g w g' w' res _ H|env u tv g w g' w' res H|env u g w g' w' res H
    |o g w Ho|u d' g w Hu Ho].
  - by eapply inv_password.
  - by eapply inv_register.
  - eapply inv_quiet_call in H; eauto. intros v w0. destruct (negb _); [split; [done | reflexivity]|].
    pose proof (quiet_admit (ID s) (reg w0)). by destruct (Registry.Admit _ _).
  - eapply inv_quiet_call in H; eauto. intros v w0. destruct (_ || _); split; done || reflexivity.
  - unfold token_admission in H. destruct (Gate.Admit _ _ _ _ _) as [[g1 w1] e] eqn:E. simplify_eq.
    eapply inv_quiet_call in E; eauto. intros; split; [done | reflexivity].
  - by eapply inv_recover.
  - apply inv_registry; [by destruct o | done].
  - destruct I as [I1 I2 I3 I4 I5]. split; cbn in *; try done.
    + intros u'. destruct (decide (u' = u)) as [->|Hne]; [|by rewrite (proj2 (Ho _ Hne)); auto].
      intros E. apply I4 in E. congruence.
    + intros id s Hus. specialize (I5 _ _ Hus) as [J1 J2].
      destruct (decide (UserID s = u)) as [<-|Hne]; [congruence|].
      destruct (Ho _ Hne). split; congruence.
Qed.

(** The Hub right after start-up. *)
Definition sys_initial (d : D) : Gate world * world := (service_gate, mkWorld d NewRegistry [] None).

Lemma inv_initial d : sys_inv (sys_initial d).
Proof.
  split; cbn; try done.
    - intros id s (_ & Hl & _). cbn in Hl. set_solver.
Qed.

Lemma inv_reachable d c : rtc sys_step (sys_initial d) c -> sys_inv c.
Proof.
  assert (forall a b, rtc sys_step a b -> sys_inv a -> sys_inv b) as H by (induction 1; eauto using inv_step).
  intros R. eapply H, inv_initial. done.
Qed.

(** The registry only moves forward along the Hub's steps. *)
Lemma admit_evolves {E} env u (fn : Z -> world -> world * option E) g w g' w' err :
  (forall v w, quiet (reg w) (reg (fn v w).1)) ->
  sys_inv (g, w) -> Gate.Admit env u fn g w = (g', w', err) -> heap_evolves (heap (reg w)) (heap (reg w')).
Proof.
  intros Hfn I H. pose proof (Admit_spec user_version user_locked_version env u fn g w
    (si_wired _ I) (si_free _ I u)) as S. rewrite H in S.
  destruct S as (_ & [(-> & _)|(v & e & _ & Hf & _)]); [reflexivity|].
  specialize (Hfn v w). rewrite Hf in Hfn. apply Hfn.
Qed.

Lemma update_evolves tx env u pw t g w g' w' err :
  sys_inv (g, w) -> Update env u (change_callback tx u pw t) g w = (g', w', err) ->
  heap_evolves (heap (reg w)) (heap (reg w')) /\
  ((v_revoked w' = v_revoked w /\ err <> None /\ gate_unknown err = false) \/
   (reg w' = (MarkRevoked u t (reg w)).1.1 /\ (err = None \/ gate_unknown err = true))).
Proof.
  intros I H. pose proof (Update_spec user_version user_locked_version env u (change_callback tx u pw t) g w
    (si_wired _ I) (si_free _ I u)) as S. rewrite H in S.
  destruct S as (_ & [(-> & _ & He)|(v & unc & e & _ & Hf & -> & _)]).
  { split; [reflexivity|]. left. destruct He as [->|[? ->]]; done. }
  destruct (change_callback_cases _ _ _ _ _ _ _ _ _ Hf) as [(_ & -> & -> & _ & He & Hu)|(_ & -> & Hc)].
  - split; [reflexivity|]. left. destruct e; done.
  - split; [apply quiet_revoke|]. right. split; [done|].
    destruct Hc as [(_ & -> & _)|(c & _ & -> & _)]; [by left | by right].
Qed.

(** Everything [ChangePassword] does to the registry, with the cases in which it
    reports that the password changed or may have changed. *)
Lemma password_evolves ok env renv tx u pw t aenv g w g' w' res :
  tx_rel u (db w) (commit_result tx) (after_commit tx) -> sys_inv (g, w) ->
  ChangePassword ok env renv tx u pw t aenv g w = (g', w', res) ->
  heap_evolves (heap (reg w)) (heap (reg w')) /\
  ((res = None \/ exists st, res = Some (Unavailable st)) ->
   heap_evolves (heap (MarkRevoked u t (reg w)).1.1) (heap (reg w'))).
Proof.
  intros Ht I H. unfold ChangePassword in H. destruct (negb ok).
  { simplify_eq. split; [reflexivity|]. intros [|[st ?]]; simplify_eq. }
  destruct (Update _ _ _ _ _) as [[g1 w1] cerr] eqn:Eu.
  apply (inv_vars _ _ [] (v_reg w)) in I.
  assert (sys_inv (g1, w1)) as I1 by (by eapply inv_update in Eu).
  apply update_evolves in Eu as [Ev1 Hc1]; [|done]. cbn -[MarkRevoked] in Ev1, Hc1.
  destruct (if gate_unknown cerr then _ else _) as [g2 w2] eqn:E2.
  assert (reg w2 = reg w1 /\ v_revoked w2 = v_revoked w1) as [R2 V2].
  { destruct (gate_unknown cerr); simplify_eq; [|done].
    destruct (Recover renv u g1 w1) as [[g3 w3] r3] eqn:Er. simplify_eq.
    unfold Recover in Er. pose proof (Admit_spec user_version user_locked_version renv u
      (fun _ w => (w, @None Empty_set)) g1 w1 (si_wired _ I1) (si_free _ I1 u)) as S.
    rewrite Er in S. by destruct S as (_ & [(-> & _)|(v & e & _ & Hf & _)]); simplify_eq. }
  assert (heap_evolves (heap (reg w1)) (heap (reg w')) /\
    (v_revoked w1 = [] -> cerr <> None -> gate_unknown cerr = false ->
       ~ (res = None \/ exists st, res = Some (Unavailable st)))) as [Ev2 Hres].
  { rewrite <-R2, <-V2. destruct (v_revoked w2) as [|i ids] eqn:Ev.
    - simplify_eq. split; [reflexivity|]. intros _ Hn Hu. rewrite Hu.
      destruct cerr as [[| |[[]| | | |]]|]; try done; intros [|[? ?]]; simplify_eq.
    - destruct (Await aenv (i :: ids) (reg w2)) as [[r x] xs] eqn:Ea. simplify_eq. split; [|done].
      pose proof (quiet_await_loop aenv (i :: ids) (reg w2) (mkCleanupResult true 0 0)) as Q.
      unfold Await in Ea. rewrite Ea in Q. apply Q. }
  split; [by etrans|]. intros Hr.
  destruct Hc1 as [(Hv & Hn & Hu)|(Hm & _)]; [by destruct (Hres Hv Hn Hu)|]. by rewrite <-Hm.
Qed.

Lemma step_evolves c c' : sys_inv c -> sys_step c c' -> heap_evolves (heap (reg c.2)) (heap (reg c'.2)).
Proof.
  intros I Hs. destruct Hs as [ok env renv tx u pw t aenv g w g' w' res Ht H|env u v g w g' w' res Hb H
    |env s g w g' w' res _ H|env s g w g' w' res _ H|env u tv g w g' w' res H|env u g w g' w' res H
    |o g w Ho|u d' g w Hu Ho]; cbn.
  - by eapply password_evolves in H as [? _].
  - unfold terminal_register in H.
    match type of H with Gate.Admit _ _ ?f _ _ = _ =>
      pose proof (Admit_spec user_version user_locked_version env u f g w
        (si_wired _ I) (si_free _ I u)) as S end.
    rewrite H in S. destruct S as (F & [(-> & _)|(v' & e & _ & Hf & _)]); [reflexivity|].
    destruct (negb _); [by simplify_eq|].
    destruct (Register u v' true true (reg w)) as [r s0] eqn:Er. simplify_eq.
    pose proof (exec_evolves (OpRegister u v' true true) (reg w) (si_wf _ I) Hb) as He.
    cbn [exec] in He. by rewrite Er in He.
  - eapply admit_evolves in H; eauto. intros v w0. destruct (negb _); [reflexivity|].
    pose proof (quiet_admit (ID s) (reg w0)). by destruct (Registry.Admit _ _).
  - eapply admit_evolves in H; eauto. intros v w0. destruct (_ || _); reflexivity.
  - unfold token_admission in H. destruct (Gate.Admit _ _ _ _ _) as [[g1 w1] e] eqn:E. simplify_eq.
    eapply admit_evolves in E; eauto. intros; reflexivity.
  - eapply admit_evolves in H; eauto. intros; reflexivity.
  - apply exec_quiet. by destruct o.
  - reflexivity.
Qed.

Lemma steps_evolve c c' : sys_inv c -> rtc sys_step c c' -> heap_evolves (heap (reg c.2)) (heap (reg c'.2)).
Proof.
  intros I H. induction H as [|a b c' Hs _ IH]; [reflexivity|].
  etrans; [by apply step_evolves | eauto using inv_step].
Qed.

Lemma revoked_input_denied env s g w g' w' res s' :
  sys_inv (g, w) -> heap (reg w) !! ID s = Some s' -> state s' = StateRevoked ->
  terminal_input env (UserID s) s g w = (g', w', res) -> res <> None.
Proof.
  intros I Hh Hst H ->. unfold terminal_input in H.
  match type of H with Gate.Admit _ ?u ?f _ _ = _ =>
    pose proof (Admit_spec user_version user_locked_version env u f g w
      (si_wired _ I) (si_free _ I u)) as S end.
  rewrite H in S. destruct S as (_ & [(_ & _ & [|[]])|(v & e & _ & Hf & He & _)]); [done..|].
  destruct (revoked_refused (reg w) (ID s) s' Hh Hst) as [Hp _]. rewrite Hp, orb_true_r in Hf.
  by simplify_eq.
Qed.

(** *** Properties *)

(** a keystroke or resize is permitted only to a terminal whose session was
    opened under the user's currently committed password version, with no password
    commit undecided: in every reachable state of the Hub, including after lost
    COMMIT acknowledgements and restarts of the gate's state. *)
Theorem terminal_input_current d g w env s g' w' :
  rtc sys_step (sys_initial d) (g, w) -> heap (reg w) !! ID s = Some s ->
  terminal_input env (UserID s) s g w = (g', w', None) ->
  unresolved (db w') (UserID s) = false /\ committed (db w') (UserID s) = Some (Version s).
Proof.
  intros R _ H. apply inv_reachable in R as I. unfold terminal_input in H.
  match type of H with Gate.Admit _ ?u ?f _ _ = _ =>
    pose proof (Admit_spec user_version user_locked_version env u f g w
      (si_wired _ I) (si_free _ I u)) as S end.
  rewrite H in S. destruct S as (_ & [(_ & _ & [|[]])|(v & e & Hr & Hf & He & _)]); [done..|].
  destruct (read_current _ _ _ _ I Hr) as [K1 K2].
  destruct (_ || _) eqn:E; simplify_eq/=. bools. subst. done.
Qed.

(** the authentication middleware admits a bearer token only when its version is
    the user's committed one and no password commit is undecided; a token of any
    other version is answered 401, and a failed version read 503, never 200. *)
Theorem token_admission_current d g w env u tv g' w' out :
  rtc sys_step (sys_initial d) (g, w) ->
  token_admission env u tv g w = (g', w', out) ->
  match out with
  | Admitted200 => exists v, tv = Some v /\ unresolved (db w) u = false /\ committed (db w) u = Some v
  | Unauthorized401 => unresolved (db w) u = false /\ tv <> committed (db w) u
  | ServiceUnavailable503 => w' = w /\ user_of u g' = user_of u g
  end.
Proof.
  intros R H. apply inv_reachable in R as I. unfold token_admission in H.
  match type of H with context [Gate.Admit _ ?u ?f _ _] =>
    pose proof (Admit_spec user_version user_locked_version env u f g w
      (si_wired _ I) (si_free _ I u)) as S end.
  destruct (Gate.Admit _ _ _ _ _) as [[g1 w1] e]. simplify_eq.
  destruct S as (_ & [(-> & Hu & [->|[? ->]])|(v & e1 & Hr & Hf & -> & _)]); [done..|].
  destruct (read_current _ _ _ _ I Hr) as [K1 K2].
  case_bool_decide as Ht; simplify_eq/=; [by exists v|]. split; [done|]. by rewrite K2.
Qed.

(** When both reads answer and nothing expires, the user's version decides. *)
Lemma token_admission_answers d g w env u tv v :
  rtc sys_step (sys_initial d) (g, w) ->
  lock_err env = None -> locked_err env = None -> read_err env = None ->
  TokenVersion (db w) u = Some v -> LockedTokenVersion (db w) u = Some v ->
  (token_admission env u tv g w).2 = if bool_decide (tv = Some v) then Admitted200 else Unauthorized401.
Proof.
  intros R E1 E2 E3 H1 H2. apply inv_reachable in R as I. unfold token_admission.
  match goal with |- context [Gate.Admit _ _ ?f _ _] =>
    pose proof (Admit_answers user_version user_locked_version env u f g w v
      (si_wired _ I) (si_free _ I u) E1 E2 E3) as [_ S]; [unfold source_of; by destruct (choose_source _)|] end.
  destruct (Gate.Admit _ _ _ _ _) as [[g1 w1] e]. cbn in *. subst e. by case_bool_decide.
Qed.

(** C1: when [ChangePassword] reports success, an unknown commit or an incomplete
    cleanup, every terminal session the user had registered is cut off for good:
    after any further activity of the Hub no input message of that session is ever
    permitted again. *)
Theorem password_change_ends_terminals d g w ok env renv tx u pw t aenv g1 w1 res id s g2 w2 env2 g3 w3 res3 :
  rtc sys_step (sys_initial d) (g, w) ->
  tx_rel u (db w) (commit_result tx) (after_commit tx) ->
  ChangePassword ok env renv tx u pw t aenv g w = (g1, w1, res) ->
  (res = None \/ exists st, res = Some (Unavailable st)) ->
  registered (reg w) id = Some s -> UserID s = u ->
  rtc sys_step (g1, w1) (g2, w2) ->
  terminal_input env2 u s g2 w2 = (g3, w3, res3) -> res3 <> None.
Proof.
  intros R Ht Hcp Hres Hs Hu R2 Hin. apply inv_reachable in R as I.
  apply registered_heap in Hs as Hh.
  assert (ID s = id) as Eid by (by eapply (wf_heap _ (si_wf _ I))).
  assert (sys_inv (g1, w1)) as I1 by (by eapply inv_password in Hcp).
  assert (sys_inv (g2, w2)) as I2.
  { clear -R2 I1. induction R2; eauto using inv_step. }
  eapply password_evolves in Hcp as [_ Hev]; [|done..]. specialize (Hev Hres).
  assert (heap (MarkRevoked u t (reg w)).1.1 !! id = Some (revoke_session t (windows (reg w)) s)) as H0.
  { rewrite mark_revoked_lookup, Hs; cbn. by rewrite decide_True, Hh by (by f_equal). }
  destruct (Hev _ _ H0) as (s1 & H1 & E1).
  destruct (steps_evolve _ _ I1 R2 _ _ H1) as (s2 & H2 & E2).
  assert (state s2 = StateRevoked) as Hst2.
  { pose proof (ev_state _ _ E1) as L1. rewrite revoke_session_state in L1.
    pose proof (ev_state _ _ E2) as L2. destruct (state s1), (state s2); done. }
  subst u id. eapply revoked_input_denied in Hin; eauto.
Qed.
End with_db.
Arguments world : clear implicits.

(** ** A row store that satisfies the interface *)
Section rows.
Record row := mkRow { r_version : Z; r_hash : string; r_undecided : bool }.

#[export] Instance rows_db : UserDB (gmap Z row).
Proof.
  refine {| committed d u := r_version <$> d !! u;
            unresolved d u := match d !! u with Some r => r_undecided r | None => false end;
            password_hash d u := r_hash <$> d !! u;
            TokenVersion d u := r_version <$> d !! u;
            LockedTokenVersion d u :=
              match d !! u with
              | Some r => if r_undecided r then None else Some (r_version r)
              | None => None
              end |}.
  - done.
  - intros d u v. destruct (d !! u) as [r|]; [|done]. destruct (r_undecided r) eqn:E; [done|].
    intros. by simplify_eq.
Defined.
End rows.

(** ** Witnesses *)
Section witnesses.
Definition demo_db (v : Z) : gmap Z row := {[7 := mkRow v "secret" false]}.
Definition demo_compare (h p : string) : bool := bool_decide (h = p).
Definition calm : call_env := mkCall None None None.
Definition demo_tx : tx_env (gmap Z row) := mkTx None None None None (demo_db 1).

Definition demo0 : Gate (world (gmap Z row)) * world (gmap Z row) := sys_initial (demo_db 0).
(** A terminal is registered, then becomes ready. *)
Definition demo1 := (terminal_register calm 7 0 demo0.1 demo0.2).1.
Definition demo_session : Session := mkSession 1 7 0 true true false false StatePreparing 0 0.
Definition demo_ready : Session := set_state StateReady demo_session.
Definition demo2 := (terminal_ready calm 7 demo_session demo1.1 demo1.2).1.
Definition demo_await (id : Z) : settle_env := mkEnv (Some (6 * Second)) (5 * Second) false false.
Definition demo3 := ChangePassword demo_compare true calm calm demo_tx 7 "secret" (5 * Second) demo_await demo2.1 demo2.2.

Lemma demo_reachable : rtc (sys_step demo_compare) (sys_initial (demo_db 0)) (demo2.1, demo2.2).
Proof.
  eapply rtc_l.
  { apply (Y_register demo_compare calm 7 0 demo0.1 demo0.2 demo1.1 demo1.2 None); vm_compute; reflexivity. }
  eapply rtc_l; [|apply rtc_refl].
  apply (Y_ready demo_compare calm demo_session demo1.1 demo1.2 demo2.1 demo2.2 None); vm_compute; reflexivity.
Qed.

Lemma demo_tx_rel : tx_rel 7 (demo_db 0) (commit_result demo_tx) (after_commit demo_tx).
Proof. split; [|done]. intros u' Hne. cbn. unfold demo_db. by rewrite !lookup_singleton_ne by congruence. Qed.

Lemma terminal_input_current_witness :
  terminal_input calm 7 demo_ready demo2.1 demo2.2 = (demo2.1, demo2.2, None) /\
  committed (demo_db 0) 7 = Some 0.
Proof.
  split; [vm_compute; reflexivity|].
  apply (terminal_input_current demo_compare (demo_db 0) demo2.1 demo2.2 calm demo_ready demo2.1 demo2.2).
  - exact demo_reachable.
  - vm_compute; reflexivity.
  - vm_compute; reflexivity.
Defined.

Lemma token_admission_current_witness :
  unresolved (demo_db 0) 7 = false /\ Some 3 <> committed (demo_db 0) 7.
Proof.
  apply (token_admission_current demo_compare (demo_db 0) demo2.1 demo2.2 calm 7 (Some 3) demo2.1 demo2.2
    Unauthorized401).
  - exact demo_reachable.
  - vm_compute; reflexivity.
Defined.

Lemma password_change_ends_terminals_witness :
  demo3.2 = None /\ (terminal_input calm 7 demo_ready demo3.1.1 demo3.1.2).2 <> None.
Proof.
  split; [vm_compute; reflexivity|].
  eapply (password_change_ends_terminals demo_compare (demo_db 0) demo2.1 demo2.2 true calm calm demo_tx 7
    "secret" (5 * Second) demo_await demo3.1.1 demo3.1.2 None 1 demo_ready demo3.1.1 demo3.1.2 calm
    (terminal_input calm 7 demo_ready demo3.1.1 demo3.1.2).1.1
    (terminal_input calm 7 demo_ready demo3.1.1 demo3.1.2).1.2).
  - exact demo_reachable.
  - exact demo_tx_rel.
  - vm_compute; reflexivity.
  - left. reflexivity.
  - vm_compute; reflexivity.
  - reflexivity.
  - apply rtc_refl.
  - vm_compute; reflexivity.
Defined.
End witnesses.
