(* ===== verification/RateLimit.v ===== *)
(** * Request rate limiting (internal/server/middleware/ratelimit.go)

    [RateLimiter] keeps, per authenticated identity, the accepted request times of a
    sliding window; [IPRateLimiter] does the same per client address and evicts idle
    addresses.  Both are compared with [Spec], a limiter that remembers every accepted
    request and decides by counting: the pruning and the eviction are optimisations
    that must not change any decision. *)

From S2P Require Import Prelude GoStrings.

(** ** [RateLimiter] *)
Record RateLimiter := mkRL { window : duration; maxReqs : Z; requests : gmap string (list time) }.

Definition NewRateLimiter (w : duration) (m : Z) : RateLimiter := mkRL w m ∅.

(** The recorded times of an identity; an absent key is Go's nil slice. *)
Definition times_of (rs : gmap string (list time)) (k : string) : list time := default [] (rs !! k).

(** The times still inside the window. *)
Definition valid_times (cutoff : time) (ts : list time) : list time := filter (fun t => After t cutoff = true) ts.

(** [allow], called at instant [now]. *)
Definition allow (now : time) (identity : string) (rl : RateLimiter) : RateLimiter * bool :=
  let cutoff := TimeAdd now (- window rl) in
  let valid := valid_times cutoff (times_of (requests rl) identity) in
  if maxReqs rl <=? Z.of_nat (List.length valid)
  then (mkRL (window rl) (maxReqs rl) (<[identity := valid]> (requests rl)), false)
  else (mkRL (window rl) (maxReqs rl) (<[identity := valid ++ [now]]> (requests rl)), true).

Definition jwt_identity (userID : Z) : string := "jwt:" +:+ FormatUint userID.
Definition key_identity (keyID : Z) : string := "api_key:" +:+ FormatUint keyID.

(** [Allow]. *)
Definition Allow (now : time) (userID : Z) (rl : RateLimiter) : RateLimiter * bool :=
  allow now (jwt_identity userID) rl.

(** The fields of a principal the limiter looks at. *)
Record Principal := mkPrincipal { AuthType : string; UserID : option Z; APIKeyID : option Z }.

(** The identity [Limit] charges, [""] for an unlimited caller. *)
Definition limit_identity (p : Principal) : string :=
  match (if bool_decide (AuthType p = "api_key") then APIKeyID p else None) with
  | Some k => key_identity k
  | None =>
      match (if bool_decide (AuthType p = "jwt") then UserID p else None) with
      | Some u => jwt_identity u
      | None => ""
      end
  end.

(** [Limit]: whether the request reaches the next handler. *)
Definition Limit (now : time) (p : Principal) (rl : RateLimiter) : RateLimiter * bool :=
  if bool_decide (limit_identity p = "") then (rl, true) else allow now (limit_identity p) rl.

(** ** [IPRateLimiter] *)
Record IPRateLimiter := mkIP {
  ip_window : duration; ip_maxReqs : Z; ip_requests : gmap string (list time);
  trustProxy : bool; lastSweep : time;
  runtimeLimit : option Z (* the runtime configuration's login limit, when wired *)
}.

Definition NewIPRateLimiter (w : duration) (m : Z) (trust : bool) : IPRateLimiter :=
  mkIP w m ∅ trust zero_time None.

Definition SetRuntimeConfig (limit : Z) (rl : IPRateLimiter) : IPRateLimiter :=
  mkIP (ip_window rl) (ip_maxReqs rl) (ip_requests rl) (trustProxy rl) (lastSweep rl) (Some limit).

(** The keys the sweep deletes: no times, or the newest one before the cutoff. *)
Definition stale (cutoff : time) (ts : list time) : bool :=
  match last ts with None => true | Some t => Before t cutoff end.

Definition sweep (now cutoff : time) (rl : IPRateLimiter) : IPRateLimiter :=
  if ip_window rl <=? TimeSub now (lastSweep rl)
  then mkIP (ip_window rl) (ip_maxReqs rl)
         (filter (fun kv => stale cutoff kv.2 = false) (ip_requests rl))
         (trustProxy rl) now (runtimeLimit rl)
  else rl.

(** [IPRateLimiter.Allow]. *)
Definition AllowIP (now : time) (ip : string) (rl : IPRateLimiter) : IPRateLimiter * bool :=
  let cutoff := TimeAdd now (- ip_window rl) in
  let rl := sweep now cutoff rl in
  let valid := valid_times cutoff (times_of (ip_requests rl) ip) in
  let limit := default (ip_maxReqs rl) (runtimeLimit rl) in
  let set ts := mkIP (ip_window rl) (ip_maxReqs rl) (<[ip := ts]> (ip_requests rl))
                  (trustProxy rl) (lastSweep rl) (runtimeLimit rl) in
  if limit <=? Z.of_nat (List.length valid) then (set valid, false) else (set (valid ++ [now]), true).

(** [clientIP]: [xff] is the X-Forwarded-For header, [""] when absent. *)
Definition clientIP (trust : bool) (xff remoteAddr : string) : string :=
  let fallback := default remoteAddr (SplitHost remoteAddr) in
  if trust && negb (bool_decide (xff = "")) then
    let entry := default xff (after_last "," xff) in
    let ip := TrimSpace entry in
    if bool_decide (ip = "") then fallback else ip
  else fallback.

(** [IPRateLimiter.Limit]: whether the request reaches the next handler. *)
Definition LimitIP (now : time) (xff remoteAddr : string) (rl : IPRateLimiter) : IPRateLimiter * bool :=
  AllowIP now (clientIP (trustProxy rl) xff remoteAddr) rl.

(** ** The specification

    Every accepted request is remembered for ever; a request is accepted when fewer
    than [limit] accepted requests of the same identity are younger than the window. *)
Module Spec.

Definition history := string -> list time.

Definition recent (w : duration) (now : time) (ts : list time) : Z :=
  count_if (fun t => now - w <? t) ts.

Definition decide_request (w : duration) (limit : Z) (now : time) (k : string) (h : history) : bool :=
  recent w now (h k) <? limit.

Definition record (now : time) (k : string) (h : history) : history :=
  fun k' => if bool_decide (k' = k) then h k' ++ [now] else h k'.

Definition step (w : duration) (limit : Z) (now : time) (k : string) (h : history) : history * bool :=
  if decide_request w limit now k h then (record now k h, true) else (h, false).

End Spec.

(** Requests arrive with a non-decreasing clock (Go's monotonic reading). *)
Fixpoint clocked (start : time) (reqs : list (time * string)) : Prop :=
  match reqs with
  | [] => True
  | (now, _) :: reqs => start <= now /\ clocked now reqs
  end.

Fixpoint run_limiter (rl : RateLimiter) (reqs : list (time * string)) : RateLimiter * list bool :=
  match reqs with
  | [] => (rl, [])
  | (now, k) :: reqs =>
      let '(rl, b) := allow now k rl in
      let '(rl, bs) := run_limiter rl reqs in (rl, b :: bs)
  end.

Fixpoint run_ip (rl : IPRateLimiter) (reqs : list (time * string)) : IPRateLimiter * list bool :=
  match reqs with
  | [] => (rl, [])
  | (now, k) :: reqs =>
      let '(rl, b) := AllowIP now k rl in
      let '(rl, bs) := run_ip rl reqs in (rl, b :: bs)
  end.

Fixpoint run_spec (w : duration) (limit : Z) (h : Spec.history) (reqs : list (time * string))
  : Spec.history * list bool :=
  match reqs with
  | [] => (h, [])
  | (now, k) :: reqs =>
      let '(h, b) := Spec.step w limit now k h in
      let '(h, bs) := run_spec w limit h reqs in (h, b :: bs)
  end.

(** ** The relation between the pruned store and the full history *)
Record tracks (w : duration) (now : time) (rs : gmap string (list time)) (h : Spec.history) : Prop := {
  tr_agree : forall k c, now - w <= c -> valid_times c (times_of rs k) = valid_times c (h k);
  tr_sorted : forall k, StronglySorted Z.le (times_of rs k);
  tr_upper : forall k, Forall (fun t => t <= now) (times_of rs k)
}.

Lemma valid_times_idem c c' ts : c <= c' -> valid_times c' (valid_times c ts) = valid_times c' ts.
Proof.
  intros H. unfold valid_times. rewrite list_filter_filter. apply list_filter_iff.
  intros t. rewrite !After_spec. lia.
Qed.

Lemma valid_times_app c a b : valid_times c (a ++ b) = valid_times c a ++ valid_times c b.
Proof. apply filter_app. Qed.

Lemma times_of_insert rs k k' ts : times_of (<[k := ts]> rs) k' = if decide (k = k') then ts else times_of rs k'.
Proof. unfold times_of. rewrite lookup_insert. by case_decide. Qed.

Lemma StronglySorted_filter (P : Z -> Prop) `{!forall x, Decision (P x)} l :
  StronglySorted Z.le l -> StronglySorted Z.le (filter P l).
Proof.
  induction 1 as [|x l Hs IH Hf]; [constructor|]. rewrite filter_cons. case_decide; [|done].
  constructor; [done|]. by apply Forall_filter.
Qed.

Lemma StronglySorted_snoc l x :
  StronglySorted Z.le l -> Forall (fun t => t <= x) l -> StronglySorted Z.le (l ++ [x]).
Proof.
  induction 1 as [|y l Hs IH Hf]; intros Hx; cbn; [repeat constructor|].
  apply Forall_cons in Hx as [Hy Hx]. constructor; [by apply IH|].
  apply Forall_app. split; [done | by repeat constructor].
Qed.

Lemma tracks_mono w a b rs h : a <= b -> tracks w a rs h -> tracks w b rs h.
Proof.
  intros Hab [H1 H2 H3]. split; [intros; apply H1; lia | done |].
  intros k. eapply Forall_impl; [apply H3|]. cbn. lia.
Qed.

Lemma tracks_prune w now rs h k :
  tracks w now rs h ->
  tracks w now (<[k := valid_times (now - w) (times_of rs k)]> rs) h.
Proof.
  intros [H1 H2 H3]. split; intros k'; rewrite times_of_insert; case_decide; subst; auto.
  - intros c Hc. rewrite valid_times_idem by done. auto.
  - by apply StronglySorted_filter.
  - by apply Forall_filter.
Qed.

Lemma tracks_record w now rs h k :
  tracks w now rs h ->
  tracks w now (<[k := valid_times (now - w) (times_of rs k) ++ [now]]> rs) (Spec.record now k h).
Proof.
  intros [H1 H2 H3]. split; intros k'; rewrite times_of_insert; unfold Spec.record;
    (case_decide; subst; [rewrite ?bool_decide_eq_true_2 by done | rewrite ?bool_decide_eq_false_2 by done]); auto.
  - intros c Hc. rewrite !valid_times_app, valid_times_idem by done. by rewrite H1.
  - apply StronglySorted_snoc; [by apply StronglySorted_filter | by apply Forall_filter].
  - apply Forall_app. split; [by apply Forall_filter | by repeat constructor].
Qed.

Lemma sorted_last_upper l x : StronglySorted Z.le l -> last l = Some x -> Forall (fun t => t <= x) l.
Proof.
  intros Hs Hl. apply last_Some in Hl as [l' ->]. induction l' as [|y l' IH]; cbn in *.
  - repeat constructor. lia.
  - inversion Hs as [|? ? Hs' Hf]; subst. constructor; [|by apply IH].
    rewrite Forall_app in Hf. destruct Hf as [_ Hf]. by inversion Hf.
Qed.

(** Evicting an idle address changes no future decision. *)
Lemma stale_empty cutoff c ts :
  StronglySorted Z.le ts -> stale cutoff ts = true -> cutoff <= c -> valid_times c ts = [].
Proof.
  unfold stale. intros Hs Hst Hc. destruct (last ts) as [x|] eqn:El.
  - bools. apply sorted_last_upper in El; [|done]. unfold valid_times.
    induction El as [|t ts Ht _ IH]; [done|]. inversion Hs; subst.
    rewrite filter_cons_False; [auto|]. rewrite After_spec. lia.
  - by apply last_None in El as ->.
Qed.

Lemma times_of_filter (P : string * list time -> Prop) `{!forall x, Decision (P x)} rs k :
  times_of (filter P rs) k =
  match rs !! k with Some ts => if decide (P (k, ts)) then ts else [] | None => [] end.
Proof.
  unfold times_of. rewrite map_lookup_filter. destruct (rs !! k) as [ts|] eqn:E; cbn; [|done].
  unfold guard. by destruct (decide (P (k, ts))).
Qed.

Lemma tracks_sweep w now rs h :
  tracks w now rs h -> tracks w now (filter (fun kv => stale (now - w) kv.2 = false) rs) h.
Proof.
  intros [H1 H2 H3].
  assert (forall k, times_of (filter (fun kv => stale (now - w) kv.2 = false) rs) k = times_of rs k \/
    (stale (now - w) (times_of rs k) = true /\
     times_of (filter (fun kv => stale (now - w) kv.2 = false) rs) k = [])) as Hc.
  { intros k. rewrite times_of_filter. unfold times_of. destruct (rs !! k) as [ts|]; cbn; [|auto].
    case_decide as E; [auto|]. right. split; [by destruct (stale (now - w) ts)|done]. }
  split; intros k; destruct (Hc k) as [->|[Hs ->]]; auto; try by constructor.
  intros c Hle. rewrite <-H1 by done. by rewrite (stale_empty (now - w) c (times_of rs k)).
Qed.

(** One decision of the code against one decision of the specification. *)
Lemma decision_agrees w limit now rs h k :
  tracks w now rs h ->
  (limit <=? Z.of_nat (List.length (valid_times (now - w) (times_of rs k)))) =
  negb (Spec.decide_request w limit now k h).
Proof.
  intros T. rewrite (tr_agree _ _ _ _ T) by lia. unfold Spec.decide_request, Spec.recent, count_if.
  change (filter (fun t => (now - w <? t) = true) (h k)) with (valid_times (now - w) (h k)).
  by rewrite Z.leb_antisym.
Qed.

Lemma allow_refines now0 now k rl h :
  tracks (window rl) now0 (requests rl) h -> now0 <= now ->
  let '(rl', b) := allow now k rl in
  let '(h', b') := Spec.step (window rl) (maxReqs rl) now k h in
  b = b' /\ window rl' = window rl /\ maxReqs rl' = maxReqs rl /\ tracks (window rl) now (requests rl') h'.
Proof.
  intros T Hn. apply (tracks_mono _ _ now) in T; [|done]. unfold allow, Spec.step, TimeAdd.
  rewrite Z.add_opp_r, (decision_agrees _ _ _ _ _ k T).
  destruct (Spec.decide_request _ _ _ _ _); cbn; auto using tracks_record, tracks_prune.
Qed.

Lemma AllowIP_refines now0 now k rl h :
  tracks (ip_window rl) now0 (ip_requests rl) h -> now0 <= now ->
  let '(rl', b) := AllowIP now k rl in
  let '(h', b') := Spec.step (ip_window rl) (default (ip_maxReqs rl) (runtimeLimit rl)) now k h in
  b = b' /\ ip_window rl' = ip_window rl /\
  default (ip_maxReqs rl') (runtimeLimit rl') = default (ip_maxReqs rl) (runtimeLimit rl) /\
  tracks (ip_window rl) now (ip_requests rl') h'.
Proof.
  intros T Hn. apply (tracks_mono _ _ now) in T; [|done]. unfold AllowIP, Spec.step, TimeAdd.
  rewrite Z.add_opp_r.
  assert (ip_window (sweep now (now - ip_window rl) rl) = ip_window rl /\
    default (ip_maxReqs (sweep now (now - ip_window rl) rl)) (runtimeLimit (sweep now (now - ip_window rl) rl))
      = default (ip_maxReqs rl) (runtimeLimit rl) /\
    tracks (ip_window rl) now (ip_requests (sweep now (now - ip_window rl) rl)) h) as (E1 & E2 & T2).
  { unfold sweep. destruct (_ <=? _); cbn; auto using tracks_sweep. }
  rewrite E2, (decision_agrees _ _ _ _ _ k T2).
  destruct (Spec.decide_request _ _ _ _ _); cbn; rewrite ?E1, ?E2; auto using tracks_record, tracks_prune.
Qed.

Lemma tracks_empty w now : tracks w now ∅ (fun _ => []).
Proof. split; intros; unfold times_of; rewrite lookup_empty; cbn; auto; constructor. Qed.

Lemma run_limiter_refines reqs now0 rl h :
  tracks (window rl) now0 (requests rl) h -> clocked now0 reqs ->
  (run_limiter rl reqs).2 = (run_spec (window rl) (maxReqs rl) h reqs).2.
Proof.
  revert now0 rl h. induction reqs as [|[now k] reqs IH]; intros now0 rl h T Hc; cbn; [done|].
  destruct Hc as [Hle Hc]. pose proof (allow_refines now0 now k rl h T Hle) as R.
  destruct (allow now k rl) as [rl' b], (Spec.step _ _ now k h) as [h' b'].
  destruct R as (-> & Ew & Em & T'). specialize (IH now rl' h'). rewrite Ew, Em in IH.
  destruct (run_limiter rl' reqs), (run_spec _ _ h' reqs). cbn in *. f_equal. by apply IH.
Qed.

Lemma run_ip_refines reqs now0 rl h :
  tracks (ip_window rl) now0 (ip_requests rl) h -> clocked now0 reqs ->
  (run_ip rl reqs).2 = (run_spec (ip_window rl) (default (ip_maxReqs rl) (runtimeLimit rl)) h reqs).2.
Proof.
  revert now0 rl h. induction reqs as [|[now k] reqs IH]; intros now0 rl h T Hc; cbn; [done|].
  destruct Hc as [Hle Hc]. pose proof (AllowIP_refines now0 now k rl h T Hle) as R.
  destruct (AllowIP now k rl) as [rl' b], (Spec.step _ _ now k h) as [h' b'].
  destruct R as (-> & Ew & Em & T'). specialize (IH now rl' h'). rewrite Ew, Em in IH.
  destruct (run_ip rl' reqs), (run_spec _ _ h' reqs). cbn in *. f_equal. by apply IH.
Qed.

(** ** The sliding-window bound *)

(** The accepted request times of one identity. *)
Fixpoint accepted (k : string) (reqs : list (time * string)) (bs : list bool) : list time :=
  match reqs, bs with
  | (now, k') :: reqs, b :: bs =>
      if b && bool_decide (k = k') then now :: accepted k reqs bs else accepted k reqs bs
  | _, _ => []
  end.

(** How many of them fall into the window that ends at [t]. *)
Definition in_window (w : duration) (t : time) (ts : list time) : Z :=
  count_if (fun x => (t - w <? x) && (x <=? t)) ts.

Lemma in_window_snoc w t ts now m :
  Forall (fun x => x <= now) ts -> in_window w t ts <= m -> Spec.recent w now ts < m ->
  in_window w t (ts ++ [now]) <= m.
Proof.
  intros Hu Hm Hr. unfold in_window in *. rewrite count_if_app, count_if_cons, count_if_nil.
  destruct ((t - w <? now) && (now <=? t)) eqn:E; [|lia]. bools.
  assert (count_if (fun x => (t - w <? x) && (x <=? t)) ts <= Spec.recent w now ts); [|lia].
  apply count_if_impl. intros x Hx Hb. bools. apply Z.ltb_lt. lia.
Qed.

Lemma run_spec_window w m reqs : forall now0 h k,
  Forall (fun x => x <= now0) (h k) -> (forall t, in_window w t (h k) <= m) -> clocked now0 reqs ->
  forall t, in_window w t (h k ++ accepted k reqs (run_spec w m h reqs).2) <= m.
Proof.
  induction reqs as [|[now k'] reqs IH]; intros now0 h k Hu Hb Hc t; cbn; [by rewrite app_nil_r|].
  destruct Hc as [Hle Hc].
  assert (Forall (fun x => x <= now) (h k)) as Hu' by (eapply Forall_impl; [exact Hu | cbn; lia]).
  unfold Spec.step. destruct (Spec.decide_request w m now k' h) eqn:Ed.
  - specialize (IH now (Spec.record now k' h) k).
    destruct (run_spec w m (Spec.record now k' h) reqs) as [h2 bs]. cbn in *.
    unfold Spec.record in IH. destruct (decide (k = k')) as [->|Hne].
    + rewrite !bool_decide_eq_true_2 in IH by done. rewrite bool_decide_eq_true_2 by done.
      rewrite (cons_middle now), app_assoc. apply IH; [|intros t'|done].
      * apply Forall_app. split; [done | by repeat constructor].
      * apply in_window_snoc; [done..|]. unfold Spec.decide_request in Ed. bools. lia.
    + rewrite !bool_decide_eq_false_2 in IH by done. rewrite bool_decide_eq_false_2 by done. by apply IH.
  - specialize (IH now h k). destruct (run_spec w m h reqs) as [h2 bs]. cbn in *. by apply IH.
Qed.

(** Deciding one identity never touches another. *)
Lemma allow_other now k k' rl : k' <> k -> times_of (requests (allow now k rl).1) k' = times_of (requests rl) k'.
Proof.
  intros Hne. unfold allow. destruct (_ <=? _); cbn; by rewrite times_of_insert, decide_False by congruence.
Qed.

Lemma limit_identity_cases p :
  limit_identity p <> "" ->
  (AuthType p = "api_key" /\ exists i, APIKeyID p = Some i /\ limit_identity p = key_identity i) \/
  (AuthType p = "jwt" /\ exists u, UserID p = Some u /\ limit_identity p = jwt_identity u).
Proof.
  unfold limit_identity. intros H.
  destruct (if bool_decide (AuthType p = "api_key") then APIKeyID p else None) as [i|] eqn:E1.
  { left. case_bool_decide; [eauto | done]. }
  destruct (if bool_decide (AuthType p = "jwt") then UserID p else None) as [u|] eqn:E2; [|done].
  right. case_bool_decide; [eauto | done].
Qed.

Lemma after_last_none c s : contains_byte c s = false -> after_last c s = None.
Proof. induction s as [|a s IH]; cbn; intros H; [done|]. bools. rewrite IH by done. by rewrite H. Qed.

Lemma after_last_app c p e : contains_byte c e = false -> after_last c (p +:+ String c e) = Some e.
Proof.
  intros He. induction p as [|a p IH]; cbn; [by rewrite after_last_none, Ascii.eqb_refl | by rewrite IH].
Qed.

(** ** Properties *)

(** refinement.  On every sequence of requests with a monotone clock, the pruned
    per-identity store of [RateLimiter] takes exactly the decisions of a limiter that
    remembers every accepted request for ever. *)
Theorem limiter_refines_spec w m reqs start :
  clocked start reqs ->
  (run_limiter (NewRateLimiter w m) reqs).2 = (run_spec w m (fun _ => []) reqs).2.
Proof. intros Hc. apply (run_limiter_refines reqs start (NewRateLimiter w m)); [apply tracks_empty | done]. Qed.

(** C3: refinement.  The per-address limiter, with its periodic eviction of idle
    addresses and its run-time limit, takes exactly the decisions of the same
    specification: eviction never resets an address that is still inside its window.  The
    run-time limit is one for the whole run, and the clock does not go back. *)
Theorem ip_limiter_refines_spec w m trust limit reqs start :
  clocked start reqs ->
  (run_ip (NewIPRateLimiter w m trust) reqs).2 = (run_spec w m (fun _ => []) reqs).2 /\
  (run_ip (SetRuntimeConfig limit (NewIPRateLimiter w m trust)) reqs).2
    = (run_spec w limit (fun _ => []) reqs).2.
Proof.
  intros Hc. split.
  - apply (run_ip_refines reqs start (NewIPRateLimiter w m trust)); [apply tracks_empty | done].
  - apply (run_ip_refines reqs start (SetRuntimeConfig limit (NewIPRateLimiter w m trust)));
      [apply tracks_empty | done].
Qed.

(** bound.  Whatever requests arrive, at no instant does a window of length [w]
    hold more than [m] accepted requests of one identity, for either limiter. *)
Theorem sliding_window_bound w m trust reqs start k t :
  0 <= m -> clocked start reqs ->
  in_window w t (accepted k reqs (run_limiter (NewRateLimiter w m) reqs).2) <= m /\
  in_window w t (accepted k reqs (run_ip (NewIPRateLimiter w m trust) reqs).2) <= m.
Proof.
  intros Hm Hc.
  assert (in_window w t (accepted k reqs (run_spec w m (fun _ => []) reqs).2) <= m) as H.
  { apply (run_spec_window w m reqs start (fun _ => []) k); [constructor | done | done]. }
  rewrite (run_limiter_refines reqs start (NewRateLimiter w m) (fun _ => [])),
    (run_ip_refines reqs start (NewIPRateLimiter w m trust) (fun _ => [])); auto using tracks_empty.
Qed.

(** separation of quotas.  Two limited callers share a quota only when both are
    the same API key or both are the same JWT user (equal numeric identifiers of a
    key and a user never collide), and charging one identity leaves every other
    identity's record unchanged. *)
Theorem quota_separation p q now k rl :
  (forall u, UserID p = Some u \/ UserID q = Some u -> 0 <= u) ->
  (forall i, APIKeyID p = Some i \/ APIKeyID q = Some i -> 0 <= i) ->
  limit_identity p <> "" -> limit_identity p = limit_identity q ->
  (AuthType p = AuthType q /\
   ((AuthType p = "api_key" /\ APIKeyID p = APIKeyID q) \/ (AuthType p = "jwt" /\ UserID p = UserID q))) /\
  (k <> limit_identity p ->
   times_of (requests (allow now (limit_identity p) rl).1) k = times_of (requests rl) k).
Proof.
  intros Hu Hk Hne He. split; [|by apply allow_other].
  destruct (limit_identity_cases p Hne) as [(Ap & i & Ip & Ep)|(Ap & u & Up & Ep)];
    rewrite He in Hne; destruct (limit_identity_cases q Hne) as [(Aq & j & Iq & Eq)|(Aq & v & Uq & Eq)];
    rewrite Ep, Eq in He; unfold key_identity, jwt_identity in He; simplify_eq/=; split; try congruence.
  - left. split; [done|]. rewrite Ip, Iq. f_equal. apply FormatUint_inj; [auto | auto | congruence].
  - right. split; [done|]. rewrite Up, Uq. f_equal. apply FormatUint_inj; [auto | auto | congruence].
Qed.

(** the address a login is charged to cannot be chosen by the client.  Without a
    trusted proxy the forwarding header is ignored; behind one, only the entry the
    proxy itself appended counts, whatever the client put before it. *)
Theorem client_ip_unspoofable prefix entry xff remoteAddr :
  clientIP false xff remoteAddr = clientIP false "" remoteAddr /\
  (contains_byte "," entry = false -> TrimSpace entry <> "" ->
   clientIP true (prefix +:+ String "," entry) remoteAddr = TrimSpace entry).
Proof.
  split; [done|]. intros Hc Hn. unfold clientIP.
  rewrite (bool_decide_eq_false_2 (prefix +:+ String "," entry = "")) by (by destruct prefix). cbn.
  rewrite after_last_app by done. cbn. by rewrite bool_decide_eq_false_2.
Qed.

(** ** Witnesses *)
Definition demo_reqs : list (time * string) :=
  [(10, "a"); (11, "a"); (12, "b"); (13, "a"); (21, "a"); (35, "b")].

Lemma demo_clocked : clocked 10 demo_reqs.
Proof. cbn. lia. Qed.

Lemma limiter_refines_spec_witness :
  (run_limiter (NewRateLimiter 10 2) demo_reqs).2 = [true; true; true; false; true; true].
Proof.
  rewrite (limiter_refines_spec 10 2 demo_reqs 10); [|exact demo_clocked].
  vm_compute; reflexivity.
Defined.

Lemma ip_limiter_refines_spec_witness :
  (run_ip (NewIPRateLimiter 10 2 true) demo_reqs).2 = [true; true; true; false; true; true].
Proof.
  rewrite (proj1 (ip_limiter_refines_spec 10 2 true 5 demo_reqs 10 demo_clocked)).
  vm_compute; reflexivity.
Defined.

Lemma sliding_window_bound_witness :
  in_window 10 13 (accepted "a" demo_reqs (run_limiter (NewRateLimiter 10 2) demo_reqs).2) <= 2.
Proof. apply (sliding_window_bound 10 2 false demo_reqs 10 "a" 13); [lia | exact demo_clocked]. Defined.

Lemma quota_separation_witness :
  let p := mkPrincipal "api_key" (Some 5) (Some 9) in
  times_of (requests (allow 3 (limit_identity p) (NewRateLimiter 10 2)).1) "jwt:9" = [].
Proof.
  intros p.
  apply (quota_separation p p 3 "jwt:9" (NewRateLimiter 10 2)).
  - intros u [H|H]; injection H as <-; lia.
  - intros u [H|H]; injection H as <-; lia.
  - vm_compute. discriminate.
  - reflexivity.
  - vm_compute. discriminate.
Defined.

Lemma client_ip_unspoofable_witness :
  clientIP true "1.2.3.4, 5.6.7.8, 9.9.9.9 " "10.0.0.1:443" = "9.9.9.9".
Proof.
  apply (client_ip_unspoofable "1.2.3.4, 5.6.7.8" " 9.9.9.9 " "" "10.0.0.1:443").
  - vm_compute; reflexivity.
  - vm_compute. discriminate.
Defined.
