(* ===== verification/Scope.v ===== *)
(** * API key scopes (internal/server/middleware/scope.go)

    A request of an API key is matched to a route pattern by normalising its path;
    the pattern's entry in one of two tables decides.  A route in neither table is
    open to every key, so the normalisation must never let a registered route escape
    its rule.  The tables are the source's, entry for entry. *)

From S2P Require Import Prelude GoStrings.

(** [routeScopes]. *)
Definition routeScopes : list (string * string) :=
  [("GET /api/v1/servers/{id}/sftp/text", "files:read");
   ("PUT /api/v1/servers/{id}/sftp/text", "files:write");
   ("GET /api/v1/servers/{id}/sftp/archive", "files:read");
   ("POST /api/v1/servers/{id}/sftp/uploads/start", "files:write");
   ("POST /api/v1/servers/{id}/sftp/uploads/status", "files:write");
   ("PUT /api/v1/servers/{id}/sftp/uploads/chunk", "files:write");
   ("POST /api/v1/servers/{id}/sftp/uploads/complete", "files:write");
   ("DELETE /api/v1/servers/{id}/sftp/uploads", "files:write");
   ("GET /api/v1/servers/{id}/sftp/entries", "files:read");
   ("GET /api/v1/servers/{id}/sftp/stat", "files:read");
   ("GET /api/v1/servers/{id}/sftp/download", "files:read");
   ("POST /api/v1/servers/{id}/sftp/upload", "files:write");
   ("POST /api/v1/servers/{id}/sftp/mkdir", "files:write");
   ("POST /api/v1/servers/{id}/sftp/rename", "files:write");
   ("DELETE /api/v1/servers/{id}/sftp/entry", "files:delete");
   ("GET /api/v1/servers", "servers:read");
   ("GET /api/v1/servers/summary", "servers:read");
   ("POST /api/v1/servers", "servers:write");
   ("GET /api/v1/servers/{id}", "servers:read");
   ("PUT /api/v1/servers/{id}", "servers:write");
   ("POST /api/v1/servers/{id}/exec", "servers:exec");
   ("GET /api/v1/servers/{id}/terminal", "servers:terminal");
   ("POST /api/v1/servers/{id}/host-key/trust", "servers:write");
   ("GET /api/v1/servers/{id}/metrics", "metrics:read");
   ("GET /api/v1/credentials", "credentials:read");
   ("GET /api/v1/services", "services:read");
   ("GET /api/v1/services/{id}", "services:read");
   ("POST /api/v1/services/{id}/relay", "services:relay")].

(** [jwtOnlyRoutes]. *)
Definition jwtOnlyRoutes : list string :=
  ["GET /api/v1/settings"; "PUT /api/v1/settings"; "GET /api/v1/updates";
   "POST /api/v1/servers/{id}/connection/test";
   "GET /api/v1/usage-logs"; "GET /api/v1/usage-logs/filter-options"; "GET /api/v1/usage-logs/{id}";
   "DELETE /api/v1/servers/{id}";
   "POST /api/v1/credentials"; "PUT /api/v1/credentials/{id}"; "DELETE /api/v1/credentials/{id}";
   "GET /api/v1/credentials/{id}/reveal";
   "GET /api/v1/api-keys"; "POST /api/v1/api-keys"; "PATCH /api/v1/api-keys/{id}";
   "POST /api/v1/api-keys/{id}/rotate"; "DELETE /api/v1/api-keys/{id}"; "GET /api/v1/api-keys/{id}/reveal";
   "GET /api/v1/auth/profile"; "PUT /api/v1/auth/password";
   "POST /api/v1/services"; "PUT /api/v1/services/{id}"; "DELETE /api/v1/services/{id}";
   "GET /api/v1/services/{id}/credentials"].

(** Lookup in a Go map literal: the keys are distinct. *)
Fixpoint assoc {A} (k : string) (l : list (string * A)) : option A :=
  match l with
  | [] => None
  | (k', a) :: l => if bool_decide (k = k') then Some a else assoc k l
  end.

Definition jwt_only (route : string) : bool := bool_decide (route ∈ jwtOnlyRoutes).

(** [IsRouteRegistered]. *)
Definition IsRouteRegistered (normalized : string) : bool :=
  jwt_only normalized || bool_decide (is_Some (assoc normalized routeScopes)).

(** [isNumeric]: decimal digits only; a byte of a multi-byte rune is not one. *)
Definition is_digit (a : ascii) : bool := (48 <=? nat_of_ascii a)%nat && (nat_of_ascii a <=? 57)%nat.
Definition isNumeric (s : string) : bool := negb (bool_decide (s = "")) && all_bytes is_digit s.

(** The non-empty segments of a path. *)
Definition segments_of (path : string) : list string :=
  filter (fun seg => seg <> "") (split_on "/" (trim_right "/" path)).

Definition norm_segment (seg : string) : string := if isNumeric seg then "{id}" else seg.

Definition route_key (method : string) (segs : list string) : string := method +:+ " /" +:+ join "/" segs.

Definition id_resources : list string := ["servers"; "credentials"; "api-keys"; "services"; "usage-logs"].

(** [normalizePath]. *)
Definition normalizePath (method path : string) : string :=
  let segs := norm_segment <$> segments_of path in
  let normalized := route_key method segs in
  if IsRouteRegistered normalized then normalized
  else match segs with
  | s0 :: s1 :: s2 :: _ :: rest =>
      if bool_decide (s0 = "api") && bool_decide (s1 = "v1") && bool_decide (s2 ∈ id_resources)
      then let candidate := route_key method (s0 :: s1 :: s2 :: "{id}" :: rest) in
           if IsRouteRegistered candidate then candidate else normalized
      else normalized
  | _ => normalized
  end.

Definition NormalizeRoutePattern (method pattern : string) : string := normalizePath method pattern.

(** [hasScope]: the answer and the missing scope. *)
Definition hasScope (method path : string) (userScopes : list string) : bool * string :=
  let normalized := normalizePath method path in
  if jwt_only normalized then (false, "")
  else match assoc normalized routeScopes with
  | None => (true, "")
  | Some required =>
      if existsb (fun s => bool_decide (s = "*") || bool_decide (s = required)) userScopes
      then (true, "") else (false, required)
  end.

(** [validScopes], [ValidateScopes]. *)
Definition validScopes : list string :=
  ["files:read"; "files:write"; "files:delete"; "servers:read"; "servers:write"; "servers:exec";
   "servers:terminal"; "metrics:read"; "credentials:read"; "services:read"; "services:relay"].

Definition ValidateScopes (scopes : list string) : list string := filter (fun s => s ∉ validScopes) scopes.

(** [CheckServerAccess]: [None] is a nil claims pointer. *)
Definition CheckServerAccess (serverIDs : option (list Z)) (serverID : Z) : bool :=
  match serverIDs with
  | None | Some [] => true
  | Some ids => existsb (Z.eqb serverID) ids
  end.

(** ** Routes as method and segments *)

Definition parse_route (key : string) : string * list string :=
  match cut_first " " key with
  | Some (m, String _ rest) => (m, split_on "/" rest)
  | _ => ("", [])
  end.

Definition all_routes : list string := jwtOnlyRoutes ++ (fst <$> routeScopes).

Definition slash_free (l : list string) : Prop := Forall (fun x => contains_byte "/" x = false) l.

Lemma route_key_parse m segs :
  contains_byte " " m = false -> segs <> [] -> slash_free segs -> parse_route (route_key m segs) = (m, segs).
Proof.
  intros Hm Hne Hs. unfold parse_route, route_key.
  change (m +:+ " /" +:+ join "/" segs) with (m +:+ String " " (String "/" (join "/" segs))).
  rewrite cut_first_app by done. by rewrite split_join.
Qed.

(** Every table key is the key of its parsed form. *)
Lemma table_keys_roundtrip k :
  k ∈ all_routes -> route_key (parse_route k).1 (parse_route k).2 = k /\ contains_byte " " (parse_route k).1 = false.
Proof.
  assert (forallb (fun k => bool_decide (route_key (parse_route k).1 (parse_route k).2 = k) &&
    negb (contains_byte " " (parse_route k).1)) all_routes = true) as H by (vm_compute; reflexivity).
  rewrite forallb_forall in H. intros Hk. apply list_elem_of_In, H in Hk. bools. done.
Qed.

Lemma assoc_elem {A} k (l : list (string * A)) : is_Some (assoc k l) <-> k ∈ fst <$> l.
Proof.
  induction l as [|[k' a] l IH]; cbn; [split; [by intros [] | set_solver]|].
  case_bool_decide; subst; [split; [set_solver | eauto]|]. rewrite IH. set_solver.
Qed.

Lemma registered_iff k : IsRouteRegistered k = true <-> k ∈ all_routes.
Proof.
  unfold IsRouteRegistered, jwt_only, all_routes.
  rewrite orb_true_iff, !bool_decide_eq_true, assoc_elem, elem_of_app. done.
Qed.

Lemma split_on_slash_free c s : Forall (fun x => contains_byte c x = false) (split_on c s).
Proof.
  induction s as [|a s IH]; cbn; [by repeat constructor|].
  destruct (Ascii.eqb a c) eqn:E; [by constructor|].
  destruct (split_on c s) as [|h t]; [constructor; [cbn; by rewrite E|done]|].
  apply Forall_cons in IH as [Hh Ht]. constructor; [cbn; by rewrite E | done].
Qed.

Lemma segments_slash_free path : slash_free (segments_of path).
Proof. apply Forall_filter, split_on_slash_free. Qed.

(** The decision a route key stands for. *)
Definition decide_route (key : string) (scopes : list string) : bool * string :=
  if jwt_only key then (false, "")
  else match assoc key routeScopes with
  | None => (true, "")
  | Some required =>
      if existsb (fun s => bool_decide (s = "*") || bool_decide (s = required)) scopes
      then (true, "") else (false, required)
  end.

Lemma hasScope_route m path scopes : hasScope m path scopes = decide_route (normalizePath m path) scopes.
Proof. done. Qed.

Definition id_pattern (m r : string) (rest : list string) : string := route_key m ("api" :: "v1" :: r :: "{id}" :: rest).

(** Two route keys carry the same rule. *)
Definition same_rule (k1 k2 : string) : bool :=
  Bool.eqb (jwt_only k1) (jwt_only k2) && bool_decide (assoc k1 routeScopes = assoc k2 routeScopes).

(** What the tables satisfy, by computation: a route with an identifier in fourth
    position is one of the normalised resources and has no numeric later segment; and
    a route with a literal there has the same rule as the pattern beside it. *)
Definition table_check : bool :=
  forallb (fun k =>
    match (parse_route k).2 with
    | "api" :: "v1" :: r :: "{id}" :: rest =>
        bool_decide (r ∈ id_resources) && forallb (fun s => negb (isNumeric s)) rest &&
        forallb (fun k' =>
          match (parse_route k').2 with
          | "api" :: "v1" :: r' :: _ :: rest' =>
              negb (bool_decide ((parse_route k').1 = (parse_route k).1) && bool_decide (r' = r) &&
                    bool_decide (rest' = rest)) || same_rule k' k
          | _ => true
          end) all_routes
    | _ => true
    end) all_routes.

Lemma table_check_ok : table_check = true.
Proof. vm_compute. reflexivity. Qed.

Lemma norm_segments_id l : forallb (fun s => negb (isNumeric s)) l = true -> norm_segment <$> l = l.
Proof.
  induction l as [|x l IH]; cbn; intros H; [done|]. bools. rewrite IH by done.
  unfold norm_segment. by rewrite H.
Qed.

Lemma norm_segment_slash_free x : contains_byte "/" x = false -> contains_byte "/" (norm_segment x) = false.
Proof. unfold norm_segment. by destruct (isNumeric x). Qed.

(** What [table_check] says of one pattern. *)
Lemma pattern_facts m r rest :
  contains_byte " " m = false -> slash_free ("api" :: "v1" :: r :: "{id}" :: rest) ->
  id_pattern m r rest ∈ all_routes ->
  r ∈ id_resources /\ norm_segment <$> rest = rest /\
  (forall seg, slash_free ("api" :: "v1" :: r :: seg :: rest) ->
     route_key m ("api" :: "v1" :: r :: seg :: rest) ∈ all_routes ->
     same_rule (route_key m ("api" :: "v1" :: r :: seg :: rest)) (id_pattern m r rest) = true).
Proof.
  intros Hm Hs Hk. pose proof table_check_ok as T. unfold table_check in T. rewrite forallb_forall in T.
  specialize (T _ (proj1 (list_elem_of_In _ _) Hk)). unfold id_pattern in T.
  rewrite route_key_parse in T by done. cbn [snd fst] in T. bools.
  split; [done|]. split; [by apply norm_segments_id|]. intros seg Hss Hin.
  rewrite forallb_forall in H0. specialize (H0 _ (proj1 (list_elem_of_In _ _) Hin)).
  rewrite route_key_parse in H0 by done. cbn [snd fst] in H0.
  rewrite !(bool_decide_eq_true_2 (_ = _)) in H0 by done. exact H0.
Qed.

Lemma same_rule_decide k1 k2 scopes : same_rule k1 k2 = true -> decide_route k1 scopes = decide_route k2 scopes.
Proof.
  unfold same_rule, decide_route. intros H. bools. apply Bool.eqb_prop in H. rewrite H. by rewrite H0.
Qed.

Lemma normalize_registered m path segs :
  norm_segment <$> segments_of path = segs -> IsRouteRegistered (route_key m segs) = true ->
  normalizePath m path = route_key m segs.
Proof. intros Hs E. unfold normalizePath. rewrite Hs. cbv zeta. by rewrite E. Qed.

Lemma normalize_candidate m path r seg rest :
  norm_segment <$> segments_of path = "api" :: "v1" :: r :: seg :: rest ->
  IsRouteRegistered (route_key m ("api" :: "v1" :: r :: seg :: rest)) = false ->
  r ∈ id_resources -> IsRouteRegistered (id_pattern m r rest) = true ->
  normalizePath m path = id_pattern m r rest.
Proof.
  intros Hs E Hr Hk. unfold normalizePath. rewrite Hs. cbv zeta. rewrite E.
  rewrite (bool_decide_eq_true_2 (r ∈ id_resources)) by done.
  rewrite (bool_decide_eq_true_2 ("api" = "api")), (bool_decide_eq_true_2 ("v1" = "v1")) by done.
  fold (id_pattern m r rest). cbv iota beta delta [andb]. by rewrite Hk.
Qed.

(** A request for an identifier route resolves to the pattern, or to a literal route
    beside it. *)
Lemma normalize_id_route m r seg rest path :
  contains_byte " " m = false -> slash_free ("api" :: "v1" :: r :: "{id}" :: rest) ->
  id_pattern m r rest ∈ all_routes -> segments_of path = "api" :: "v1" :: r :: seg :: rest ->
  exists seg', slash_free ("api" :: "v1" :: r :: seg' :: rest) /\
    normalizePath m path = route_key m ("api" :: "v1" :: r :: seg' :: rest) /\
    normalizePath m path ∈ all_routes.
Proof.
  intros Hm Hs Hk Hp. destruct (pattern_facts m r rest Hm Hs Hk) as (Hr & Hn & _).
  assert (norm_segment r = r) as Hnr.
  { unfold id_resources in Hr. rewrite !elem_of_cons in Hr.
    destruct Hr as [->|[->|[->|[->|[->|Hr]]]]]; [vm_compute; reflexivity ..|].
    by apply not_elem_of_nil in Hr. }
  assert (slash_free ("api" :: "v1" :: r :: norm_segment seg :: rest)) as Hs'.
  { pose proof (segments_slash_free path) as F. rewrite Hp in F. unfold slash_free in *.
    rewrite !Forall_cons in F |- *. destruct F as (? & ? & ? & ? & ?). split_and!; auto using norm_segment_slash_free. }
  assert (norm_segment <$> segments_of path = "api" :: "v1" :: r :: norm_segment seg :: rest) as Hsegs.
  { rewrite Hp, !fmap_cons, Hn, Hnr. reflexivity. }
  destruct (IsRouteRegistered (route_key m ("api" :: "v1" :: r :: norm_segment seg :: rest))) eqn:E1.
  - exists (norm_segment seg). split; [done|]. rewrite (normalize_registered _ _ _ Hsegs E1).
    split; [done|]. by apply registered_iff.
  - exists "{id}". split; [done|]. apply registered_iff in Hk as Hk'.
    rewrite (normalize_candidate _ _ _ _ _ Hsegs E1 Hr Hk'). done.
Qed.

(** ** Properties *)

(** an API key cannot escape a route's rule by spelling the identifier
    differently.  For every registered route with an identifier in fourth position
    and every path with those segments (any identifier, numeric or malformed, any
    extra slashes), [hasScope] takes the decision the route's own entry prescribes:
    never the open default of unregistered routes. *)
Theorem scope_decision_of_id_route m r rest seg path scopes :
  contains_byte " " m = false -> slash_free ("api" :: "v1" :: r :: "{id}" :: rest) ->
  IsRouteRegistered (id_pattern m r rest) = true ->
  segments_of path = "api" :: "v1" :: r :: seg :: rest ->
  hasScope m path scopes = decide_route (id_pattern m r rest) scopes /\
  IsRouteRegistered (normalizePath m path) = true.
Proof.
  intros Hm Hs Hk%registered_iff Hp.
  destruct (normalize_id_route m r seg rest path Hm Hs Hk Hp) as (seg' & Hs' & En & Hin).
  split; [|by apply registered_iff]. rewrite hasScope_route. apply same_rule_decide.
  rewrite En in *. by apply pattern_facts.
Qed.

(** routes reserved to browser sessions are closed to every API key: whatever
    scopes the key holds, the wildcard included, and however the identifier is
    spelled, the answer is a refusal without a scope that could be granted. *)
Theorem jwt_only_route_denied m r rest seg path scopes :
  contains_byte " " m = false -> slash_free ("api" :: "v1" :: r :: "{id}" :: rest) ->
  id_pattern m r rest ∈ jwtOnlyRoutes -> segments_of path = "api" :: "v1" :: r :: seg :: rest ->
  hasScope m path scopes = (false, "").
Proof.
  intros Hm Hs Hk Hp.
  assert (id_pattern m r rest ∈ all_routes) as Hk' by (apply elem_of_app; by left).
  destruct (normalize_id_route m r seg rest path Hm Hs Hk' Hp) as (seg' & Hs' & En & Hin).
  rewrite hasScope_route, (same_rule_decide _ (id_pattern m r rest)).
  - unfold decide_route, jwt_only. by rewrite bool_decide_eq_true_2.
  - rewrite En in *. by apply pattern_facts.
Qed.

(** exactness of the decision.  A key is admitted exactly when the normalised
    route is in neither table, or requires a scope the key holds (directly or by the
    wildcard); otherwise the missing scope is reported. *)
Theorem hasScope_exact m path scopes :
  let route := normalizePath m path in
  ((hasScope m path scopes).1 = true <->
     IsRouteRegistered route = false \/
     (jwt_only route = false /\ exists required, assoc route routeScopes = Some required /\
        ("*" ∈ scopes \/ required ∈ scopes))) /\
  ((hasScope m path scopes).1 = false ->
     (hasScope m path scopes).2 = if jwt_only route then "" else default "" (assoc route routeScopes)).
Proof.
  intros route. unfold hasScope, IsRouteRegistered. fold route.
  generalize (assoc route routeScopes) as entry. intros entry.
  destruct (jwt_only route) eqn:Ej; cbn.
  { split; [|done]. split; [done|]. intros [|[? _]]; done. }
  destruct entry as [req|]; cbn; [|split; [split; [intros _; left; reflexivity|] |]; by intros].
  assert (existsb (fun s => bool_decide (s = "*") || bool_decide (s = req)) scopes = true <->
    "*" ∈ scopes \/ req ∈ scopes) as He.
  { rewrite existsb_exists. setoid_rewrite orb_true_iff. setoid_rewrite bool_decide_eq_true.
    setoid_rewrite <-list_elem_of_In. naive_solver. }
  destruct (existsb _ scopes); cbn; split; try done; [naive_solver|].
  split; [done|]. intros [|(_ & req' & E & Hin)]; [done|]. simplify_eq. naive_solver.
Qed.

(** every scope a route requires can be granted to a key, and a validated request
    for scopes never contains the wildcard or an unknown scope. *)
Theorem scopes_grantable :
  (forall route required, assoc route routeScopes = Some required -> required ∈ validScopes) /\
  (forall scopes, ValidateScopes scopes = [] -> "*" ∉ scopes /\ (forall s, s ∈ scopes -> s ∈ validScopes)).
Proof.
  split.
  - assert (forallb (fun kv => bool_decide (kv.2 ∈ validScopes)) routeScopes = true) as H by (vm_compute; reflexivity).
    rewrite forallb_forall in H. intros route required E.
    assert ((route, required) ∈ routeScopes) as Hin.
    { revert E. generalize routeScopes. induction l as [|[k a] l IH]; cbn; [done|].
      case_bool_decide; intros; simplify_eq; set_solver. }
    apply list_elem_of_In, H in Hin. by bools.
  - intros scopes Hv. assert (forall s, s ∈ scopes -> s ∈ validScopes) as Hs.
    { intros s Hs. destruct (decide (s ∈ validScopes)) as [|Hn]; [done|].
      assert (s ∈ ValidateScopes scopes) as Hin by (by apply list_elem_of_filter). rewrite Hv in Hin. set_solver. }
    split; [|done]. intros Hstar. apply Hs, (bool_decide_eq_true_2 _) in Hstar.
    by vm_compute in Hstar.
Qed.

(** ** Witnesses *)

(** A malformed identifier on the exec route still needs the exec scope. *)
Lemma scope_decision_of_id_route_witness :
  hasScope "POST" "/api/v1//servers/12abc/exec/" ["servers:read"] = (false, "servers:exec").
Proof.
  rewrite (proj1 (scope_decision_of_id_route "POST" "servers" ["exec"] "12abc" "/api/v1//servers/12abc/exec/"
    ["servers:read"] eq_refl ltac:(repeat constructor) ltac:(vm_compute; reflexivity) ltac:(vm_compute; reflexivity))).
  vm_compute; reflexivity.
Defined.

Lemma jwt_only_route_denied_witness :
  hasScope "DELETE" "/api/v1/servers/x7" ["*"] = (false, "").
Proof.
  apply (jwt_only_route_denied "DELETE" "servers" [] "x7").
  - reflexivity.
  - repeat constructor.
  - apply list_elem_of_In. vm_compute. tauto.
  - vm_compute; reflexivity.
Defined.
