(* ===== verification/ExecLimit.v ===== *)
(** * Bounded command output (internal/service/execlimit.go, internal/service/ssh.go)

    A remote command's stdout and stderr are read by two goroutines into two capped
    writers that share one total.  Beyond the caps the writers keep consuming and only
    count, so the remote never blocks.  The model keeps the two writers and the shared
    total in one state; a run is any interleaving of writes, each atomic under the
    shared mutex. *)

From S2P Require Import Prelude GoStrings.

Definition maxExecOutput : Z := 8 * 2 ^ 20.
Definition maxExecStreamOutput : Z := 4 * 2 ^ 20.

(** The output caps of [SSHService]. *)
Record limits := mkLimits { outputLimit : Z; outputStreamLimit : Z }.

Definition NewSSHService_limits : limits := mkLimits maxExecOutput maxExecStreamOutput.

(** [SetOutputLimits]. *)
Definition SetOutputLimits (total perStream : Z) (s : limits) : limits :=
  mkLimits
    (if (0 <? total) && (total <=? maxExecOutput) then total else outputLimit s)
    (if (0 <? perStream) && (perStream <=? maxExecStreamOutput) then perStream else outputStreamLimit s).

(** The caps a command runs with (the first lines of [runCommand]). *)
Definition command_limits (s : limits) : limits :=
  mkLimits (if outputLimit s <=? 0 then maxExecOutput else outputLimit s)
           (if outputStreamLimit s <=? 0 then maxExecStreamOutput else outputStreamLimit s).

(** A writer; [total] is the counter behind the shared pointer. *)
Record cappedWriter := mkWriter {
  totalMax : Z; streamMax : Z; buf : list ascii; retained : Z; discarded : Z
}.

Definition newCappedWriter (tmax smax : Z) : cappedWriter := mkWriter tmax smax [] 0 0.

(** [Write]: the new writer, the new shared total and the count reported. *)
Definition Write (p : list ascii) (w : cappedWriter) (total : Z) : cappedWriter * Z * Z :=
  let room := totalMax w - total in
  let allow := streamMax w - retained w in
  let allow := if room <? allow then room else allow in
  let allow := if allow <? 0 then 0 else allow in
  let n := Z.of_nat (List.length p) in
  let taken := if allow <? n then allow else n in
  let '(b, r, total) :=
    if 0 <? taken then (buf w ++ take (Z.to_nat taken) p, retained w + taken, total + taken)
    else (buf w, retained w, total) in
  let d := if taken <? n then discarded w + (n - taken) else discarded w in
  (mkWriter (totalMax w) (streamMax w) b r d, total, n).

Record ExecResult := mkExec {
  Stdout : list ascii; Stderr : list ascii; ExitCode : Z;
  OutputTruncated : bool; StdoutTruncated : bool; StderrTruncated : bool;
  StdoutRetained : Z; StderrRetained : Z; StdoutDiscarded : Z; StderrDiscarded : Z
}.

Definition execResult (stdout stderr : cappedWriter) (exitCode : Z) : ExecResult :=
  mkExec (buf stdout) (buf stderr) exitCode
    ((0 <? discarded stdout) || (0 <? discarded stderr))
    (0 <? discarded stdout) (0 <? discarded stderr)
    (retained stdout) (retained stderr) (discarded stdout) (discarded stderr).

(** ** Runs *)
Inductive stream := OutStream | ErrStream.

Record output := mkOutput { out : cappedWriter; err : cappedWriter; shared : Z }.

Definition start (l : limits) : output :=
  let l := command_limits l in
  mkOutput (newCappedWriter (outputLimit l) (outputStreamLimit l))
           (newCappedWriter (outputLimit l) (outputStreamLimit l)) 0.

Definition write_step (o : output) (c : stream * list ascii) : output :=
  match c with
  | (OutStream, p) => let '(w, t, _) := Write p (out o) (shared o) in mkOutput w (err o) t
  | (ErrStream, p) => let '(w, t, _) := Write p (err o) (shared o) in mkOutput (out o) w t
  end.

Definition run_writes (o : output) (cs : list (stream * list ascii)) : output := foldl write_step o cs.

(** What the remote sent on each stream. *)
Definition sent_out (cs : list (stream * list ascii)) : list ascii :=
  List.concat ((fun c => match c.1 with OutStream => c.2 | ErrStream => [] end) <$> cs).
Definition sent_err (cs : list (stream * list ascii)) : list ascii :=
  List.concat ((fun c => match c.1 with ErrStream => c.2 | OutStream => [] end) <$> cs).

(** ** The invariant of one writer against the bytes it was given

    The buffer is the prefix of the stream that was retained, the counters add up to
    its length, and discarding only starts when a cap is reached. *)
Record writer_inv (w : cappedWriter) (total : Z) (sent : list ascii) : Prop := {
  wi_prefix : buf w = take (Z.to_nat (retained w)) sent;
  wi_count : retained w + discarded w = Z.of_nat (List.length sent);
  wi_retained : 0 <= retained w;
  wi_stream : retained w <= streamMax w;
  wi_discarded : 0 <= discarded w;
  wi_reached : 0 < discarded w -> streamMax w <= retained w \/ totalMax w <= total
}.

Lemma take_app_full {A} (n : nat) (a b : list A) :
  n = List.length a -> take n (a ++ b) = a.
Proof. intros ->. apply take_app_length. Qed.

Lemma Write_inv p w total sent :
  writer_inv w total sent -> total <= totalMax w -> 0 <= streamMax w ->
  let '(w', total', n) := Write p w total in
  writer_inv w' total' (sent ++ p) /\ total <= total' <= totalMax w /\
  total' - total = retained w' - retained w /\ n = Z.of_nat (List.length p) /\
  totalMax w' = totalMax w /\ streamMax w' = streamMax w.
Proof.
  intros [Hp Hc Hr Hs Hd Hf] Ht Hm. unfold Write.
  set (allow := if totalMax w - total <? streamMax w - retained w then totalMax w - total else streamMax w - retained w).
  set (n := Z.of_nat (List.length p)).
  assert (allow = Z.min (totalMax w - total) (streamMax w - retained w)) as Ha.
  { unfold allow. destruct (_ <? _) eqn:E; bools; lia. }
  assert (0 <= allow) as Ha0 by lia. rewrite (proj2 (Z.ltb_ge allow 0) Ha0).
  set (taken := if allow <? n then allow else n).
  assert (taken = Z.min allow n) as Htk by (unfold taken; destruct (allow <? n) eqn:E; bools; lia).
  assert (0 <= n) by lia.
  assert ((if taken <? n then discarded w + (n - taken) else discarded w) = discarded w + (n - taken)) as Hdd.
  { destruct (taken <? n) eqn:E; bools; lia. }
  rewrite Hdd. destruct (0 <? taken) eqn:Et; bools; cbn [fst snd].
  - split; [|cbn; repeat split; lia]. split; cbn; rewrite ?length_app; try lia.
    + (* discarded bytes before: nothing can be taken *)
      assert (discarded w = 0) as Hd0 by (destruct (Z_lt_dec 0 (discarded w)) as [Hx|]; [apply Hf in Hx|]; lia).
      assert (buf w = sent) as Hb by (rewrite Hp, take_ge by lia; done).
      rewrite Hb, take_app_ge by lia. f_equal. f_equal. lia.
  - assert (taken = 0) by lia. split; [|cbn; repeat split; lia].
    split; cbn; rewrite ?length_app; try lia.
    rewrite take_app_le by lia. done.
Qed.

(** The state of a run. *)
Record output_inv (o : output) (so se : list ascii) (tmax smax : Z) : Prop := {
  oi_out : writer_inv (out o) (shared o) so;
  oi_err : writer_inv (err o) (shared o) se;
  oi_shared : shared o = retained (out o) + retained (err o);
  oi_total : shared o <= tmax;
  oi_caps : totalMax (out o) = tmax /\ totalMax (err o) = tmax /\ streamMax (out o) = smax /\ streamMax (err o) = smax
}.

Lemma writer_inv_total w t t' sent : t <= t' -> writer_inv w t sent -> writer_inv w t' sent.
Proof. intros Hle []. split; auto. intros H. destruct (wi_reached0 H); [by left | right; lia]. Qed.

Lemma write_step_inv o c so se tmax smax :
  0 <= smax -> output_inv o so se tmax smax ->
  output_inv (write_step o c) (so ++ sent_out [c]) (se ++ sent_err [c]) tmax smax.
Proof.
  intros Hs [Ho He Hsh Ht (C1 & C2 & C3 & C4)].
  destruct c as [[] p]; cbn; rewrite !app_nil_r.
  - pose proof (Write_inv p (out o) (shared o) so Ho ltac:(lia) ltac:(lia)) as H.
    destruct (Write p (out o) (shared o)) as [[w t] n]. destruct H as (Hw & Hle & Hdelta & _ & E1 & E2).
    split; cbn; [done | by eapply writer_inv_total; [apply Hle|] | lia | lia | lia].
  - pose proof (Write_inv p (err o) (shared o) se He ltac:(lia) ltac:(lia)) as H.
    destruct (Write p (err o) (shared o)) as [[w t] n]. destruct H as (Hw & Hle & Hdelta & _ & E1 & E2).
    split; cbn; [by eapply writer_inv_total; [apply Hle|] | done | lia | lia | lia].
Qed.

Lemma sent_app a b : sent_out (a ++ b) = sent_out a ++ sent_out b /\ sent_err (a ++ b) = sent_err a ++ sent_err b.
Proof. unfold sent_out, sent_err. by rewrite !fmap_app, !List.concat_app. Qed.

Lemma run_writes_inv cs o so se tmax smax :
  0 <= smax -> output_inv o so se tmax smax ->
  output_inv (run_writes o cs) (so ++ sent_out cs) (se ++ sent_err cs) tmax smax.
Proof.
  intros Hs. revert o so se. induction cs as [|c cs IH]; intros o so se I.
  { unfold sent_out, sent_err; cbn. by rewrite !app_nil_r. }
  pose proof (sent_app [c] cs) as [E1 E2]. change (c :: cs) with ([c] ++ cs). rewrite E1, E2, !app_assoc.
  apply IH. by apply write_step_inv.
Qed.

Lemma command_limits_pos l : 0 < outputLimit (command_limits l) /\ 0 < outputStreamLimit (command_limits l).
Proof.
  unfold command_limits, maxExecOutput, maxExecStreamOutput; cbn.
  split; destruct (_ <=? 0) eqn:E; bools; lia.
Qed.

Lemma start_inv l : output_inv (start l) [] [] (outputLimit (command_limits l)) (outputStreamLimit (command_limits l)).
Proof.
  pose proof (command_limits_pos l) as [H1 H2].
  assert (writer_inv (newCappedWriter (outputLimit (command_limits l)) (outputStreamLimit (command_limits l))) 0 []) as W.
  { split; cbn [newCappedWriter buf retained discarded streamMax totalMax]; done || lia. }
  split; cbn [start out err shared]; [exact W | exact W | done | lia | done].
Qed.

(** ** Properties *)

(** whatever the remote writes and however the two streams interleave, each
    retained output is the exact beginning of that stream, retained and discarded
    bytes add up to what was sent, the per-stream and the shared cap are never
    exceeded, and every write reports full consumption. *)
Theorem captured_output_is_bounded_prefix l cs :
  let o := run_writes (start l) cs in
  let lim := command_limits l in
  buf (out o) = take (Z.to_nat (retained (out o))) (sent_out cs) /\
  buf (err o) = take (Z.to_nat (retained (err o))) (sent_err cs) /\
  retained (out o) + discarded (out o) = Z.of_nat (List.length (sent_out cs)) /\
  retained (err o) + discarded (err o) = Z.of_nat (List.length (sent_err cs)) /\
  retained (out o) <= outputStreamLimit lim /\ retained (err o) <= outputStreamLimit lim /\
  retained (out o) + retained (err o) <= outputLimit lim /\
  (forall p, (Write p (out o) (shared o)).2 = Z.of_nat (List.length p)).
Proof.
  intros o lim. pose proof (command_limits_pos l) as [_ Hs].
  destruct (run_writes_inv cs (start l) [] [] (outputLimit (command_limits l)) (outputStreamLimit (command_limits l))
    ltac:(lia) (start_inv l)) as [Ho He Hsh Ht (C1 & C2 & C3 & C4)].
  fold o in Ho, He, Hsh, Ht, C1, C2, C3, C4. destruct Ho, He. rewrite C3 in *. rewrite C4 in *.
  unfold lim. split_and!; try done; try lia.
  intros p. unfold Write. by destruct (if 0 <? _ then _ else _) as [[b r] t].
Qed.

(** truncation is reported exactly.  A stream is marked truncated if and only if
    the retained bytes are not the whole stream, and then a cap was really reached;
    output that fits both caps is returned complete. *)
Theorem truncation_reported_exactly l cs code :
  let o := run_writes (start l) cs in
  let r := execResult (out o) (err o) code in
  let lim := command_limits l in
  (StdoutTruncated r = false <-> Stdout r = sent_out cs) /\
  (StderrTruncated r = false <-> Stderr r = sent_err cs) /\
  OutputTruncated r = StdoutTruncated r || StderrTruncated r /\
  (StdoutTruncated r = true ->
     retained (out o) = outputStreamLimit lim \/ retained (out o) + retained (err o) = outputLimit lim) /\
  (Z.of_nat (List.length (sent_out cs)) <= outputStreamLimit lim ->
   Z.of_nat (List.length (sent_out cs)) + Z.of_nat (List.length (sent_err cs)) <= outputLimit lim ->
   StdoutTruncated r = false).
Proof.
  intros o r lim. pose proof (command_limits_pos l) as [_ Hs].
  destruct (run_writes_inv cs (start l) [] [] (outputLimit (command_limits l)) (outputStreamLimit (command_limits l))
    ltac:(lia) (start_inv l)) as [Ho He Hsh Ht (C1 & C2 & C3 & C4)].
  fold o in Ho, He, Hsh, Ht, C1, C2, C3, C4. destruct Ho as [P1 N1 R1 S1 D1 F1], He as [P2 N2 R2 S2 D2 F2].
  rewrite app_nil_l in N1, N2, P1, P2.
  assert (forall b (x : list ascii) rr d, b = take (Z.to_nat rr) x -> rr + d = Z.of_nat (List.length x) -> 0 <= rr -> 0 <= d ->
    ((0 <? d) = false <-> b = x)) as Hiff.
  { intros b x rr d Hb Hl Hr Hd. split.
    - intros E. bools. rewrite Hb, take_ge by lia. done.
    - intros E. apply Z.ltb_ge. assert (List.length (take (Z.to_nat rr) x) = List.length x) as E' by congruence.
      rewrite length_take in E'. lia. }
  unfold r, lim; cbn [execResult StdoutTruncated StderrTruncated OutputTruncated Stdout Stderr].
  split; [by eapply Hiff|]. split; [by eapply Hiff|]. split; [done|]. split.
  - intros E. bools. destruct (F1 E); lia.
  - intros H1 H2. apply Z.ltb_ge. destruct (Z_lt_dec 0 (discarded (out o))) as [Hx|]; [|lia].
    destruct (F1 Hx); lia.
Qed.
