(* ===== verification/Wire.v ===== *)
(** * The monitoring protocol (internal/agentwire/wire.go)

    The messages the agent sends to the Hub and the validation both sides apply to
    them.  A Go [float64] is a [spec_float] of the Standard Library's specification of
    IEEE 754 arithmetic, so that NaN and the infinities are values; a nil pointer is
    [None]; the map of collector errors is a finite map (a nil map is an empty one). *)

From S2P Require Import Prelude GoStrings.
From Stdlib Require Export SpecFloat.

Definition Protocol : Z := 2.
Definition MaxBatch : Z := 32.
Definition MaxFrame : Z := Z.shiftl 1 20.
Definition MaxAge : duration := 24 * Hour.
Definition MaxQueueBytes : Z := Z.shiftl 64 20.

(** The errors of this package; [ErrSampleTime] is the one callers test for. *)
Inductive wire_err :=
| EInvalidURL | EInvalidConfig | EInvalidToken
| EInvalidID | EInvalidBootID | EInvalidMetric | EInvalidCPU | EInvalidCounter
| EUsedExceedsTotal | EMetadataTooLong | ETooManyErrors | EInvalidError
| ErrSampleTime
| EInvalidMessage | EHeartbeatSamples | EEmptyBatch.

#[global] Instance wire_err_eq : EqDecision wire_err.
Proof. solve_decision. Defined.

(** [Config], and the part of a parsed URL its validation reads. *)
Record Config := mkConfig {
  HubURL : string; Token : string; StateDir : string; IntervalSeconds : Z; AllowHTTP : bool
}.

Record URL := mkURL { Scheme : string; Host : string; HasUser : bool; RawQuery : string; Fragment : string }.

(** [Config.Validate]; [Parse] is [url.Parse]. *)
Definition validate_url (Parse : string -> option URL) (c : Config) : bool :=
  match Parse (HubURL c) with
  | None => false
  | Some u =>
      negb (bool_decide (Host u = "") || HasUser u || negb (bool_decide (RawQuery u = "")) ||
            negb (bool_decide (Fragment u = "")) ||
            (negb (bool_decide (Scheme u = "https")) &&
             (negb (AllowHTTP c) || negb (bool_decide (Scheme u = "http")))))
  end.

Definition Config_Validate (Parse : string -> option URL) (c : Config) : result wire_err unit :=
  if negb (validate_url Parse c) then Err EInvalidURL
  else if negb (len (Token c) =? 64) || bool_decide (StateDir c = "") ||
          (IntervalSeconds c <? 1) || (60 <? IntervalSeconds c) then Err EInvalidConfig
  else if negb (hex_ok (Token c)) then Err EInvalidToken
  else Ok tt.

(** ** Samples *)
Record Sample := mkSample {
  ID : string; BootID : string; Time : time;
  CPU : option spec_float;
  MemoryUsed : option Z; MemoryTotal : option Z; SwapUsed : option Z; SwapTotal : option Z;
  DiskUsed : option Z; DiskTotal : option Z;
  Load1 : option spec_float; Load5 : option spec_float; Load15 : option spec_float;
  NetRecv : option Z; NetSent : option Z; DiskRead : option Z; DiskWrite : option Z;
  Uptime : option Z;
  OS : option string; CPUModel : option string; Kernel : option string;
  Errors : gmap string string
}.

(** A range loop over pointers that returns an error at the first bad element. *)
Definition each {A} (ok : A -> bool) (l : list (option A)) : bool :=
  forallb (fun v => match v with Some x => ok x | None => true end) l.

Definition IsNaN (f : spec_float) : bool := match f with S754_nan => true | _ => false end.
Definition IsInf (f : spec_float) : bool := match f with S754_infinity _ => true | _ => false end.

(** The [float64] constants of the source: 0 and 100, the latter as its 53-bit
    significand and exponent. *)
Definition float_0 : spec_float := S754_zero false.
Definition float_100 : spec_float := S754_finite false 7036874417766400 (-46).

Definition metric_ok (f : spec_float) : bool := negb (IsNaN f || IsInf f || SFltb f float_0).

Definition pair_ok (used total : option Z) : bool :=
  match used, total with
  | Some u, Some t => negb (t <? u)
  | _, _ => true
  end.

Definition error_entry_ok (e : string * string) : bool :=
  negb ((32 <? len e.1) || (256 <? len e.2) || contains_byte "013" e.1 || contains_byte "010" e.1).

(** [ValidateErrors]: the order in which the map is visited does not matter, since
    every bad entry gives the same error. *)
Definition ValidateErrors (m : gmap string string) : result wire_err unit :=
  if 16 <? Z.of_nat (size m) then Err ETooManyErrors
  else if forallb error_entry_ok (map_to_list m) then Ok tt
  else Err EInvalidError.

(** The checks of [Sample.Validate] that do not depend on the clock. *)
Definition Sample_content (s : Sample) : result wire_err unit :=
  if negb (len (ID s) =? 32) then Err EInvalidID
  else if negb (hex_ok (ID s)) then Err EInvalidID
  else if (len (BootID s) =? 0) || (128 <? len (BootID s)) then Err EInvalidBootID
  else if negb (each metric_ok [CPU s; Load1 s; Load5 s; Load15 s]) then Err EInvalidMetric
  else if negb (each (fun c => negb (SFltb float_100 c)) [CPU s]) then Err EInvalidCPU
  else if negb (each (fun v => negb (v <? 0))
             [MemoryUsed s; MemoryTotal s; SwapUsed s; SwapTotal s; DiskUsed s; DiskTotal s;
              NetRecv s; NetSent s; DiskRead s; DiskWrite s; Uptime s]) then Err EInvalidCounter
  else if negb (pair_ok (MemoryUsed s) (MemoryTotal s) && pair_ok (SwapUsed s) (SwapTotal s) &&
                pair_ok (DiskUsed s) (DiskTotal s)) then Err EUsedExceedsTotal
  else if negb (each (fun v => negb (512 <? len v)) [OS s; CPUModel s; Kernel s]) then Err EMetadataTooLong
  else ValidateErrors (Errors s).

Definition time_ok (now : time) (t : time) : bool :=
  negb (Before t (TimeAdd now (- MaxAge - Hour)) || After t (TimeAdd now (5 * Minute))).

(** [Sample.Validate]. *)
Definition Sample_Validate (now : time) (s : Sample) : result wire_err unit :=
  try _ := Sample_content s in
  if time_ok now (Time s) then Ok tt else Err ErrSampleTime.

(** [errors.Is(err, ErrSampleTime)]. *)
Definition is_sample_time (r : result wire_err unit) : bool :=
  match r with Err ErrSampleTime => true | _ => false end.

(** ** Requests and responses *)
Record Request := mkRequest {
  ReqProtocol : Z; Version : string; Kind : string; Latest : option Sample;
  Samples : list Sample; Pending : Z; Dropped : Z
}.

Record Response := mkResponse { RAck : list string; Rejected : list string; Retry : bool; ServerTime : time }.

(** A sample of a request passes unless its content is bad: a bad capture time is
    dealt with sample by sample later. *)
Definition tolerated (now : time) (s : Sample) : result wire_err unit :=
  match Sample_Validate now s with
  | Err e => if bool_decide (e = ErrSampleTime) then Ok tt else Err e
  | r => r
  end.

Fixpoint tolerate_all (now : time) (l : list Sample) : result wire_err unit :=
  match l with
  | [] => Ok tt
  | s :: l => try _ := tolerated now s in tolerate_all now l
  end.

(** [Request.Validate]. *)
Definition Request_Validate (now : time) (r : Request) : result wire_err unit :=
  if negb (ReqProtocol r =? Protocol) || bool_decide (Version r = "") || (128 <? len (Version r)) ||
     (negb (bool_decide (Kind r = "heartbeat")) && negb (bool_decide (Kind r = "samples"))) ||
     (Pending r <? 0) || (100000 <? Pending r) || (MaxBatch <? Z.of_nat (List.length (Samples r)))
  then Err EInvalidMessage
  else if bool_decide (Kind r = "heartbeat") && (0 <? Z.of_nat (List.length (Samples r)))
  then Err EHeartbeatSamples
  else if bool_decide (Kind r = "samples") && (Z.of_nat (List.length (Samples r)) =? 0)
  then Err EEmptyBatch
  else try _ := (match Latest r with Some s => tolerated now s | None => Ok tt end) in
       tolerate_all now (Samples r).

(** ** Lemmas *)

(** Content validation never reports the capture time. *)
Lemma content_not_time s : Sample_content s <> Err ErrSampleTime.
Proof. unfold Sample_content, ValidateErrors. repeat case_match; done. Qed.

(** A sample is accepted iff its content is good and its time is in the window; a
    time error is reported only for good content. *)
Lemma Sample_Validate_ok now s :
  Sample_Validate now s = Ok tt <-> Sample_content s = Ok tt /\ time_ok now (Time s) = true.
Proof.
  unfold Sample_Validate. destruct (Sample_content s) as [[]|e]; [|split; [done | by intros []]].
  destruct (time_ok now (Time s)); split; try done. by intros [].
Qed.

Lemma is_sample_time_iff now s :
  is_sample_time (Sample_Validate now s) = true <-> Sample_content s = Ok tt /\ time_ok now (Time s) = false.
Proof.
  unfold Sample_Validate, is_sample_time. pose proof (content_not_time s) as Hc.
  destruct (Sample_content s) as [[]|e].
  - destruct (time_ok now (Time s)); split; try done; by intros [].
  - split; [destruct e; done | by intros []].
Qed.

Lemma tolerated_ok now s : tolerated now s = Ok tt <-> Sample_content s = Ok tt.
Proof.
  unfold tolerated, Sample_Validate. pose proof (content_not_time s) as Hc.
  destruct (Sample_content s) as [[]|e].
  - destruct (time_ok now (Time s)); cbn; split; done.
  - case_bool_decide; subst; split; done.
Qed.

Lemma tolerate_all_ok now l : tolerate_all now l = Ok tt <-> Forall (fun s => Sample_content s = Ok tt) l.
Proof.
  induction l as [|s l IH]; cbn; [done|]. rewrite Forall_cons, <-IH, <-(tolerated_ok now s).
  destruct (tolerated now s) as [[]|e]; [tauto | split; [done | by intros []]].
Qed.

Lemma time_ok_iff now t : time_ok now t = true <-> now - 25 * Hour <= t <= now + 5 * Minute.
Proof.
  unfold time_ok, TimeAdd, MaxAge, Hour, Minute, Second. split; intros H.
  - bools. lia.
  - apply negb_true_iff, orb_false_iff. rewrite Before_false, After_false. lia.
Qed.

(** A well-formed sample identifier has 32 bytes, all hexadecimal digits. *)
Lemma content_id s : Sample_content s = Ok tt -> len (ID s) = 32 /\ all_bytes is_hex_digit (ID s) = true.
Proof.
  unfold Sample_content. intros H. case_match; [done|]. case_match; [done|]. unfold hex_ok in *. bools. done.
Qed.

(** What a request that passed validation looks like. *)
Record well_formed (r : Request) : Prop := {
  wf_kind : Kind r = "heartbeat" /\ Samples r = [] \/
            Kind r = "samples" /\ 1 <= Z.of_nat (List.length (Samples r)) <= MaxBatch;
  wf_version : 0 < len (Version r) <= 128;
  wf_protocol : ReqProtocol r = Protocol;
  wf_pending : 0 <= Pending r <= 100000;
  wf_latest : forall s, Latest r = Some s -> Sample_content s = Ok tt;
  wf_samples : Forall (fun s => Sample_content s = Ok tt) (Samples r)
}.

Lemma len_pos s : s <> "" <-> 0 < len s.
Proof. unfold len. destruct s; cbn; split; intros; [done | lia | lia | done]. Qed.

Lemma Request_Validate_ok now r : Request_Validate now r = Ok tt <-> well_formed r.
Proof.
  unfold Request_Validate. split.
  - intros H. case_match; [done|]. case_match; [done|]. case_match; [done|].
    destruct (match Latest r with Some s => tolerated now s | None => Ok tt end) as [[]|] eqn:El; [|done].
    apply tolerate_all_ok in H. bools.
    assert (0 < len (Version r)) by by apply len_pos.
    constructor; try done; try lia.
    + destruct (Samples r) eqn:Es; cbn in *; destruct_or!; bools; try lia; auto;
        right; unfold MaxBatch in *; split; try done; lia.
    + intros s Hs. rewrite Hs in El. by apply tolerated_ok in El.
  - intros [Hk [Hv Hv'] Hp Hpe Hl Hs]. apply len_pos in Hv.
    rewrite Hp, Z.eqb_refl. rewrite (bool_decide_eq_false_2 _ Hv).
    assert ((128 <? len (Version r)) = false) as -> by by apply Z.ltb_ge.
    assert ((Pending r <? 0) = false) as -> by (apply Z.ltb_ge; lia).
    assert ((100000 <? Pending r) = false) as -> by (apply Z.ltb_ge; lia).
    assert ((match Latest r with Some s => tolerated now s | None => Ok tt end) = Ok tt) as ->.
    { destruct (Latest r) as [s|]; [|done]. by apply tolerated_ok, Hl. }
    assert (tolerate_all now (Samples r) = Ok tt) as -> by by apply tolerate_all_ok.
    destruct Hk as [[-> ->]|[-> Hn]]; [done|].
    unfold MaxBatch in *. cbn [negb andb orb].
    assert ((32 <? Z.of_nat (List.length (Samples r))) = false) as -> by (apply Z.ltb_ge; lia).
    assert ((Z.of_nat (List.length (Samples r)) =? 0) = false) as -> by (apply Z.eqb_neq; lia). done.
Qed.
