(* ===== verification/Outbox.v ===== *)
(** * The agent's outbox (internal/agentclient/spool.go)

    The outbox keeps one file per unacknowledged sample and a counter of the samples
    it had to give up.  File operations can fail, and the process can stop between
    any two of them, so the model keeps the directory explicitly: operations run in a
    state-and-error monad whose state holds the directory, the outcomes the operating
    system will produce, the directories the process has passed through (the states
    in which it can be found after a crash) and the in-memory queue.  An error keeps
    the state reached so far, as in the code. *)

From S2P Require Import Prelude GoStrings Wire.

(** ** Encoding

    The JSON of a sample: the outbox only relies on an identifier and a capture time
    surviving the round trip through a file. *)
Class SampleCodec := {
  Marshal : Sample -> option string;
  Unmarshal : string -> option Sample;
  UnmarshalUint : string -> option Z;
  codec_sample : forall s b, Sample_content s = Ok tt -> Marshal s = Some b ->
    exists s', Unmarshal b = Some s' /\ ID s' = ID s /\ Time s' = Time s;
  codec_uint : forall n, 0 <= n < uint64_mod -> UnmarshalUint (FormatUint n) = Some n
}.

(** ** The queue *)
Record queueEntry := mkEntry { sample : Sample; esize : Z }.

Record Spool := mkSpool { entries : list queueEntry; bytes : Z; dropped : Z; limit : Z; age : duration }.

(** [sort.Slice] by capture time: some sorted permutation, not necessarily a stable
    one. *)
Definition time_le (a b : queueEntry) : Prop := Time (sample a) <= Time (sample b).

Class SortSlice := {
  sort_entries : list queueEntry -> list queueEntry;
  sort_perm : forall l, sort_entries l ≡ₚ l;
  sort_sorted : forall l, StronglySorted time_le (sort_entries l)
}.

(** ** Files *)
Inductive node := File (b : string) | Link.
Abbreviation directory := (gmap string node).

(** What the operating system does with one call: it succeeds, or fails at a stage.
    A write also has the random part of its temporary file's name. *)
Inductive stage := Good | FailCreate | FailWrite | FailRename | FailSync.
Record io := mkIo { outcome : stage; suffix : string }.

Inductive spool_err := EIO | ELocked | ECounter | ESymlink | ECorrupt | ETooLarge | EDuplicate | EWire (e : wire_err).

Record state := mkState { files : directory; ios : list io; seen : list directory; queue : Spool }.

Definition M (A : Type) := state -> state * result spool_err A.

#[global] Instance M_ret : MRet M := fun A a st => (st, Ok a).
#[global] Instance M_bind : MBind M := fun A B k m st =>
  match m st with
  | (st', Ok a) => k a st'
  | (st', Err e) => (st', Err e)
  end.
Definition raise {A} (e : spool_err) : M A := fun st => (st, Err e).
(** [if err != nil] without returning: the error as a value. *)
Definition attempt {A} (m : M A) : M (result spool_err A) := fun st => let '(st', r) := m st in (st', Ok r).
Definition get_queue : M Spool := fun st => (st, Ok (queue st)).
Definition set_queue (q : Spool) : M unit := fun st => (mkState (files st) (ios st) (seen st) q, Ok tt).
Definition get_files : M directory := fun st => (st, Ok (files st)).
Definition set_files (d : directory) : M unit := fun st => (mkState d (ios st) (d :: seen st) (queue st), Ok tt).
Definition draw : M io := fun st =>
  match ios st with
  | [] => (st, Ok (mkIo Good ""))
  | o :: l => (mkState (files st) l (seen st) (queue st), Ok o)
  end.

Definition put (name b : string) : M unit := d ← get_files; set_files (<[name := File b]> d).
Definition unlink (name : string) : M unit := d ← get_files; set_files (delete name d).

(** [syncDirectory] on Linux. *)
Definition syncDirectory : M unit :=
  o ← draw; match outcome o with Good => mret tt | _ => raise EIO end.

(** [os.Remove], with [os.IsNotExist] treated as success by its callers. *)
Definition Remove (name : string) : M unit :=
  d ← get_files;
  match d !! name with
  | None => mret tt
  | Some _ => o ← draw; match outcome o with Good => unlink name | _ => raise EIO end
  end.

Definition dropped_json : string := "dropped.json".
Definition sample_name (id : string) : string := id +:+ ".sample".
Definition pending_prefix : string := ".pending-".

(** [writeAtomic]: a temporary file, renamed into place. *)
Definition writeAtomic (path b : string) : M unit :=
  o ← draw;
  let tmp := pending_prefix +:+ suffix o in
  match outcome o with
  | FailCreate => raise EIO
  | FailWrite => _ ← put tmp ""; _ ← unlink tmp; raise EIO
  | FailRename => _ ← put tmp ""; _ ← put tmp b; _ ← unlink tmp; raise EIO
  | FailSync | Good =>
      _ ← put tmp ""; _ ← put tmp b;
      d ← get_files; _ ← set_files (<[path := File b]> (delete tmp d));
      match outcome o with Good => mret tt | _ => raise EIO end
  end.

Section Outbox.
Context {codec : SampleCodec} {sorter : SortSlice}.

(** ** Operations *)

(** The loop of [pruneLocked], structurally on the entries that are left. *)
Fixpoint prune_loop (cutoff : time) (es : list queueEntry) : M unit :=
  match es with
  | [] => mret tt
  | e :: es' =>
      q ← get_queue;
      if (limit q <? bytes q) || Before (Time (sample e)) cutoff then
        let count := wrapu64 (dropped q + 1) in
        _ ← writeAtomic dropped_json (FormatUint count);
        _ ← set_queue (mkSpool (entries q) (bytes q) count (limit q) (age q));
        _ ← Remove (sample_name (ID (sample e)));
        _ ← set_queue (mkSpool es' (wrap64 (bytes q - esize e)) count (limit q) (age q));
        prune_loop cutoff es'
      else mret tt
  end.

(** [pruneLocked]. *)
Definition pruneLocked (now : time) : M unit :=
  q ← get_queue;
  _ ← prune_loop (TimeAdd now (- age q)) (entries q);
  syncDirectory.

(** [Add]; the clock is read for the validation and again for the pruning. *)
Definition Add (now1 now2 : time) (s : Sample) : M unit :=
  match Sample_Validate now1 s with
  | Err e => raise (EWire e)
  | Ok _ =>
      match Marshal s with
      | None => raise ECorrupt
      | Some b =>
          if Z.shiftl 32 10 <? len b then raise ETooLarge
          else
            q ← get_queue;
            if existsb (fun e => bool_decide (ID (sample e) = ID s)) (entries q) then raise EDuplicate
            else
              _ ← writeAtomic (sample_name (ID s)) b;
              _ ← set_queue (mkSpool (sort_entries (entries q ++ [mkEntry s (len b)]))
                               (wrap64 (bytes q + len b)) (dropped q) (limit q) (age q));
              pruneLocked now2
      end
  end.

(** [Batch]: the newest sample, then the oldest ones. *)
Definition batch_of (es : list queueEntry) : list Sample :=
  match last es with
  | None => []
  | Some e => sample e :: (sample <$> take (Z.to_nat MaxBatch - 1) (take (List.length es - 1) es))
  end.

Definition Batch (now : time) : M (list Sample) :=
  _ ← pruneLocked now; q ← get_queue; mret (batch_of (entries q)).

(** The loop of [ackLocked]: the entries kept, the bytes left and the first error. *)
Fixpoint ack_loop (ids : list string) (es kept : list queueEntry) (n : Z) (first : option spool_err)
  : M (list queueEntry * Z * option spool_err) :=
  match es with
  | [] => mret (kept, n, first)
  | e :: es =>
      if bool_decide (ID (sample e) ∈ ids) then
        r ← attempt (Remove (sample_name (ID (sample e))));
        match r with
        | Err err => ack_loop ids es (kept ++ [e]) n (match first with None => Some err | _ => first end)
        | Ok _ => ack_loop ids es kept (wrap64 (n - esize e)) first
        end
      else ack_loop ids es (kept ++ [e]) n first
  end.

Definition ackLocked (ids : list string) : M unit :=
  q ← get_queue;
  x ← ack_loop ids (entries q) [] (bytes q) None;
  let '(kept, n, first) := x in
  _ ← set_queue (mkSpool kept n (dropped q) (limit q) (age q));
  r ← attempt syncDirectory;
  match first, r with
  | Some e, _ => raise e
  | None, Err e => raise e
  | None, Ok _ => mret tt
  end.

Definition Ack (ids : list string) : M unit := ackLocked ids.

(** [Reject]. *)
Definition Reject (ids : list string) : M unit :=
  q ← get_queue;
  let count := count_if (fun e => bool_decide (ID (sample e) ∈ ids)) (entries q) in
  _ ← (if 0 <? count then
         let value := wrapu64 (dropped q + count) in
         _ ← writeAtomic dropped_json (FormatUint value);
         set_queue (mkSpool (entries q) (bytes q) value (limit q) (age q))
       else mret tt);
  ackLocked ids.

(** [Stats]. *)
Definition Stats (q : Spool) : Z * Z := (Z.of_nat (List.length (entries q)), dropped q).

(** The directory scan of [OpenSpool]. *)
Fixpoint load_files (l : list (string * node)) : M unit :=
  match l with
  | [] => mret tt
  | (name, nd) :: l =>
      if HasPrefix pending_prefix name then _ ← Remove name; load_files l
      else if negb (HasSuffix ".sample" name) then load_files l
      else match nd with
      | Link => raise ESymlink
      | File b =>
          o ← draw;
          match outcome o with
          | Good =>
              if Z.shiftl 32 10 <? len b then raise ETooLarge
              else match Unmarshal b with
              | Some s =>
                  if (len (ID s) =? 32) && bool_decide (sample_name (ID s) = name) then
                    q ← get_queue;
                    _ ← set_queue (mkSpool (entries q ++ [mkEntry s (len b)]) (wrap64 (bytes q + len b))
                                     (dropped q) (limit q) (age q));
                    load_files l
                  else raise ECorrupt
              | None => raise ECorrupt
              end
          | _ => raise EIO
          end
      end
  end.

(** [OpenSpool]: the directory and the lock, the counter, the scan, the first
    pruning.  The queue of the state is meaningful when the result is [Ok]. *)
Definition read_counter : M Z :=
  d ← get_files;
  match d !! dropped_json with
  | None => mret 0
  | Some Link => raise EIO
  | Some (File b) =>
      o ← draw;
      match outcome o with
      | Good => match UnmarshalUint b with Some n => mret n | None => raise ECounter end
      | _ => raise EIO
      end
  end.

Definition take_lock : M unit :=
  o ← draw;
  match outcome o with
  | Good => d ← get_files; match d !! "agent.lock" with Some _ => mret tt | None => put "agent.lock" "" end
  | FailCreate => raise EIO
  | _ => d ← get_files;
         _ ← match d !! "agent.lock" with Some _ => mret tt | None => put "agent.lock" "" end; raise ELocked
  end.

Definition OpenSpool (now : time) : M unit :=
  _ ← take_lock;
  n ← read_counter;
  _ ← set_queue (mkSpool [] 0 n MaxQueueBytes MaxAge);
  o ← draw;
  match outcome o with
  | Good =>
      d ← get_files;
      _ ← load_files (map_to_list d);
      q ← get_queue;
      _ ← set_queue (mkSpool (sort_entries (entries q)) (bytes q) (dropped q) (limit q) (age q));
      pruneLocked now
  | _ => raise EIO
  end.

(** ** Reasoning about operations

    [spec P m Q E]: from a state satisfying [P], [m] ends in a state satisfying [Q] of
    its result, or reports an error in a state satisfying [E]. *)
Definition spec {A} (P : state -> Prop) (m : M A) (Q : A -> state -> Prop) (E : state -> Prop) : Prop :=
  forall st, P st -> match m st with
  | (st', Ok a) => Q a st'
  | (st', Err _) => E st'
  end.

Lemma spec_bind {A B} P (m : M A) R (k : A -> M B) Q E :
  spec P m R E -> (forall a, spec (R a) (k a) Q E) -> spec P (m ≫= k) Q E.
Proof.
  intros Hm Hk st HP. specialize (Hm st HP). unfold mbind, M_bind.
  destruct (m st) as [st' [a|e]]; [by apply Hk | done].
Qed.

Lemma spec_ret {A} (P : state -> Prop) (a : A) (Q : A -> state -> Prop) E :
  (forall st, P st -> Q a st) -> spec P (mret a) Q E.
Proof. intros H st HP. by apply H. Qed.

Lemma spec_raise {A} (P E : state -> Prop) e (Q : A -> state -> Prop) :
  (forall st, P st -> E st) -> spec P (raise e) Q E.
Proof. intros H st HP. by apply H. Qed.

Lemma spec_conseq {A} (P P' : state -> Prop) (m : M A) (Q Q' : A -> state -> Prop) (E E' : state -> Prop) :
  spec P' m Q' E' -> (forall st, P st -> P' st) -> (forall a st, Q' a st -> Q a st) ->
  (forall st, E' st -> E st) -> spec P m Q E.
Proof. intros H HP HQ HE st Hst. specialize (H st (HP st Hst)). destruct (m st) as [? []]; auto. Qed.

Lemma spec_attempt {A} P (m : M A) Q E :
  spec P m Q E ->
  spec P (attempt m) (fun r st => match r with Ok a => Q a st | Err _ => E st end) (fun _ => False).
Proof. intros H st HP. specialize (H st HP). unfold attempt. by destruct (m st) as [? []]. Qed.

Lemma spec_get_queue P E : spec P get_queue (fun q st => P st /\ queue st = q) E.
Proof. intros st HP. done. Qed.

Lemma spec_get_files P E : spec P get_files (fun d st => P st /\ files st = d) E.
Proof. intros st HP. done. Qed.

(** Drawing an outcome changes nothing a directory or queue invariant can see. *)
Definition blind (P : state -> Prop) : Prop :=
  forall st l, P st -> P (mkState (files st) l (seen st) (queue st)).

Lemma spec_draw P E : blind P -> spec P draw (fun _ => P) E.
Proof.
  intros HP st Hst. unfold draw. destruct (ios st) as [|o l] eqn:Ei; [done|]. by apply HP.
Qed.

(** ** The directory: sample files, the loss counter, what was ever written *)
Definition is_sample_file (name : string) : bool :=
  negb (HasPrefix pending_prefix name) && HasSuffix ".sample" name.

Definition sample_files (d : directory) : gset string := filter (fun n => is_sample_file n = true) (dom d).

Definition written (h : list directory) : gset string := foldr (fun d s => sample_files d ∪ s) ∅ h.

Definition counter (d : directory) : Z :=
  match d !! dropped_json with Some (File b) => default 0 (UnmarshalUint b) | _ => 0 end.

(** The samples ever stored that are neither in the directory nor in [K], the ones
    known to have been delivered. *)
Definition lost (K : gset string) (d : directory) (h : list directory) : gset string :=
  written h ∖ sample_files d ∖ K.

(** A sample file holds the encoding of the sample it is named after; the counter
    file holds a count of at most [T]. *)
Definition good_file (name : string) (nd : node) : Prop :=
  exists b s, nd = File b /\ len b <= Z.shiftl 32 10 /\ Unmarshal b = Some s /\
    sample_name (ID s) = name /\ len (ID s) = 32 /\ all_bytes is_hex_digit (ID s) = true.

Record dir_ok (T : Z) (d : directory) : Prop := {
  do_samples : forall name nd, d !! name = Some nd -> is_sample_file name = true -> good_file name nd;
  do_counter : d !! dropped_json = None \/
               exists n, d !! dropped_json = Some (File (FormatUint n)) /\ 0 <= n <= T
}.

Fixpoint history_ok (K : gset string) (T : Z) (h : list directory) : Prop :=
  match h with
  | [] => True
  | d :: older => Z.of_nat (size (lost K d h)) <= counter d /\ dir_ok T d /\ history_ok K T older
  end.

Definition names (es : list queueEntry) : list string := (fun e => sample_name (ID (sample e))) <$> es.

Definition total (es : list queueEntry) : Z := foldr (fun e n => esize e + n) 0 es.

Definition entry_ok (e : queueEntry) : Prop :=
  len (ID (sample e)) = 32 /\ all_bytes is_hex_digit (ID (sample e)) = true /\ 0 <= esize e <= Z.shiftl 32 10.

(** The queue mirrors distinct files that were written, and accounts for their size. *)
Record queue_ok (W : gset string) (q : Spool) : Prop := {
  qo_nodup : NoDup (names (entries q));
  qo_entries : Forall entry_ok (entries q);
  qo_written : forall n, n ∈ names (entries q) -> n ∈ W;
  qo_bytes : bytes q = wrap64 (total (entries q));
  qo_limits : limit q = MaxQueueBytes /\ age q = MaxAge
}.

(** The invariant of a running outbox.  [K] are the delivered samples,
    [U] the files that may exist, [T] bounds the counter, [k] is the number of losses already counted but not yet incurred. *)
Record Inv (K U : gset string) (T k : Z) (st : state) : Prop := {
  inv_now : exists older, seen st = files st :: older;
  inv_history : history_ok K T (seen st);
  inv_lost : Z.of_nat (size (lost K (files st) (seen st))) + k <= dropped (queue st);
  inv_counter : dropped (queue st) <= counter (files st);
  inv_queue : queue_ok (written (seen st)) (queue st);
  inv_within : written (seen st) ⊆ U
}.

(** *** Names *)
Lemma tmp_not_sample x : is_sample_file (pending_prefix +:+ x) = false.
Proof. unfold is_sample_file, HasPrefix, pending_prefix. cbn. destruct x; reflexivity. Qed.

Lemma tmp_not_counter x : pending_prefix +:+ x <> dropped_json.
Proof. by intros [=]. Qed.

Lemma sample_name_is_sample id :
  len id = 32 -> all_bytes is_hex_digit id = true -> is_sample_file (sample_name id) = true.
Proof.
  intros Hl Hh. unfold is_sample_file, sample_name. apply andb_true_iff; split.
  - destruct id as [|a id]; [done|]. cbn in Hh. bools.
    destruct a as [[] [] [] [] [] [] [] []]; first [done | reflexivity].
  - apply HasSuffix_spec. by exists id.
Qed.

Lemma sample_name_inj id1 id2 : sample_name id1 = sample_name id2 -> id1 = id2.
Proof. apply append_inj_l. Qed.

Lemma not_counter name : is_sample_file name = true -> name <> dropped_json.
Proof. by intros H ->. Qed.

Lemma elem_of_sample_files n d : n ∈ sample_files d <-> is_sample_file n = true /\ is_Some (d !! n).
Proof. unfold sample_files. by rewrite elem_of_filter, elem_of_dom. Qed.

Lemma counter_nonneg T d : dir_ok T d -> T < uint64_mod -> 0 <= counter d.
Proof.
  intros [_ [Hc|(n & Hc & Hn)]] HT; unfold counter; rewrite Hc; [done|]. rewrite codec_uint by lia. cbn. lia.
Qed.

Lemma counter_le T d : dir_ok T d -> 0 <= T < uint64_mod -> counter d <= T.
Proof.
  intros [_ [Hc|(n & Hc & Hn)]] HT; unfold counter; rewrite Hc; cbn; [lia|]. rewrite codec_uint by lia. cbn. lia.
Qed.

(** *** Changing the directory *)
Lemma lost_next K d' h : lost K d' (d' :: h) = written h ∖ sample_files d' ∖ K.
Proof. unfold lost. cbn. set_solver. Qed.

Definition with_files (st : state) (d : directory) : state := mkState d (ios st) (d :: seen st) (queue st).

Lemma Inv_files K U T k k' st d' :
  Inv K U T k st -> dir_ok T d' -> sample_files d' ⊆ U -> 0 <= k' ->
  Z.of_nat (size (written (seen st) ∖ sample_files d' ∖ K)) + k' <= dropped (queue st) ->
  dropped (queue st) <= counter d' -> Inv K U T k' (with_files st d').
Proof.
  intros [Hn Hh Hl Hc Hq HU] Hd' HU' Hk Hl' Hc'. constructor; cbn [files seen queue with_files]; try done.
  - by eexists.
  - cbn [history_ok]. rewrite lost_next. repeat split; [lia | apply Hd' | apply Hd' | done].
  - rewrite lost_next. done.
  - destruct Hq as [? ? Hw ? ?]. constructor; try done. intros n Hin. cbn. apply elem_of_union_r. by apply Hw.
  - cbn. set_solver.
Qed.

(** Same sample files and counter: a change the invariant does not see. *)
Lemma Inv_same K U T k st d' :
  Inv K U T k st -> 0 <= k -> dir_ok T d' -> sample_files (files st) ⊆ sample_files d' ->
  sample_files d' ⊆ U -> counter d' = counter (files st) -> Inv K U T k (with_files st d').
Proof.
  intros HI Hk Hd Hs HU Hc. apply (Inv_files K U T k); try done; [|rewrite Hc; apply HI].
  pose proof (inv_lost _ _ _ _ _ HI) as Hl. unfold lost in Hl.
  assert (written (seen st) ∖ sample_files d' ∖ K ⊆ written (seen st) ∖ sample_files (files st) ∖ K) as Hsub
    by set_solver.
  apply subseteq_size in Hsub. lia.
Qed.

Lemma Inv_dir_ok K U T k st : Inv K U T k st -> dir_ok T (files st).
Proof. intros HI. destruct (inv_now _ _ _ _ _ HI) as [older E]. pose proof (inv_history _ _ _ _ _ HI) as Hh. rewrite E in Hh. apply Hh. Qed.

Lemma Inv_files_within K U T k st : Inv K U T k st -> sample_files (files st) ⊆ U.
Proof.
  intros HI. destruct (inv_now _ _ _ _ _ HI) as [older E]. pose proof (inv_within _ _ _ _ _ HI) as Hu.
  rewrite E in Hu. cbn in Hu. set_solver.
Qed.

Lemma Inv_weaken K U T k k' st : k' <= k -> Inv K U T k st -> Inv K U T k' st.
Proof. intros Hk HI. destruct HI. constructor; try done; lia. Qed.

Lemma Inv_queue K U T k k' st q :
  Inv K U T k st -> Z.of_nat (size (lost K (files st) (seen st))) + k' <= dropped q ->
  dropped q <= counter (files st) -> queue_ok (written (seen st)) q ->
  Inv K U T k' (mkState (files st) (ios st) (seen st) q).
Proof. intros [] ???. by constructor. Qed.

Lemma queue_ok_sublist W q es n d :
  queue_ok W q -> es `sublist_of` entries q -> n = wrap64 (total es) ->
  queue_ok W (mkSpool es n d (limit q) (age q)).
Proof.
  intros [Hn He Hw Hb Hl] Hs Hbytes. constructor; cbn; try done.
  - eapply sublist_NoDup, (fmap_sublist (fun e => sample_name (ID (sample e)))); done.
  - by eapply Forall_sublist.
  - intros x Hx. apply Hw. eapply elem_of_sublist; [done|]. by apply (fmap_sublist (fun e => sample_name (ID (sample e)))).
Qed.

Lemma blind_Inv K U T k : blind (Inv K U T k).
Proof. intros st l []. by constructor. Qed.

(** Writing or removing a temporary file. *)
Lemma sample_files_insert_other x nd d :
  is_sample_file x = false -> sample_files (<[x := nd]> d) = sample_files d.
Proof.
  intros Hx. apply set_eq. intros n. rewrite !elem_of_sample_files.
  destruct (decide (n = x)) as [->|Hne]; [by rewrite Hx; split; intros [] | by rewrite lookup_insert_ne].
Qed.

Lemma sample_files_delete_other x d : is_sample_file x = false -> sample_files (delete x d) = sample_files d.
Proof.
  intros Hx. apply set_eq. intros n. rewrite !elem_of_sample_files.
  destruct (decide (n = x)) as [->|Hne]; [by rewrite Hx; split; intros [] | by rewrite lookup_delete_ne].
Qed.

Lemma dir_ok_insert T d x nd :
  dir_ok T d -> x <> dropped_json -> (is_sample_file x = true -> good_file x nd) -> dir_ok T (<[x := nd]> d).
Proof.
  intros [Hs Hc] Hx Hg. split; [|by rewrite lookup_insert_ne].
  intros n nd' Hn Hf. destruct (decide (n = x)) as [->|Hne].
  - rewrite lookup_insert_eq in Hn. simplify_eq. auto.
  - rewrite lookup_insert_ne in Hn by done. by eapply Hs.
Qed.

Lemma dir_ok_delete T d x : dir_ok T d -> x <> dropped_json -> dir_ok T (delete x d).
Proof.
  intros [Hs Hc] Hx. split; [|by rewrite lookup_delete_ne].
  intros n nd' Hn Hf. destruct (decide (n = x)) as [->|Hne]; [by rewrite lookup_delete_eq in Hn|].
  rewrite lookup_delete_ne in Hn by done. by eapply Hs.
Qed.

Lemma counter_insert_other d x nd : x <> dropped_json -> counter (<[x := nd]> d) = counter d.
Proof. intros Hx. unfold counter. by rewrite lookup_insert_ne. Qed.

Lemma counter_delete_other d x : x <> dropped_json -> counter (delete x d) = counter d.
Proof. intros Hx. unfold counter. by rewrite lookup_delete_ne. Qed.

(** ** The invariant through the primitives *)
Definition at_q (K U : gset string) (T k : Z) (q : Spool) (st : state) : Prop := Inv K U T k st /\ queue st = q.

Lemma blind_at_q K U T k q : blind (at_q K U T k q).
Proof. intros st l [HI Hq]. split; [by apply blind_Inv | done]. Qed.

Lemma at_q_put_tmp K U T k q st x c :
  0 <= k -> at_q K U T k q st -> at_q K U T k q (with_files st (<[pending_prefix +:+ x := File c]> (files st))).
Proof.
  intros Hk [HI Hq]. split; [|done]. pose proof (tmp_not_sample x). pose proof (tmp_not_counter x).
  apply Inv_same; try done.
  - apply dir_ok_insert; [by eapply Inv_dir_ok | done | congruence].
  - by rewrite sample_files_insert_other.
  - rewrite sample_files_insert_other by done. by eapply Inv_files_within.
  - by apply counter_insert_other.
Qed.

Lemma at_q_unlink K U T k q st x :
  0 <= k -> is_sample_file x = false -> x <> dropped_json ->
  at_q K U T k q st -> at_q K U T k q (with_files st (delete x (files st))).
Proof.
  intros Hk Hx Hne [HI Hq]. split; [|done]. apply Inv_same; try done.
  - apply dir_ok_delete; [by eapply Inv_dir_ok | done].
  - by rewrite sample_files_delete_other.
  - rewrite sample_files_delete_other by done. by eapply Inv_files_within.
  - by apply counter_delete_other.
Qed.

Lemma at_q_unlink_tmp K U T k q st x :
  0 <= k -> at_q K U T k q st -> at_q K U T k q (with_files st (delete (pending_prefix +:+ x) (files st))).
Proof. intros. apply at_q_unlink; auto using tmp_not_sample, tmp_not_counter. Qed.

(** An atomic write leaves the directory as it was or performs the rename; it reports
    success only after the rename. *)
Lemma spec_writeAtomic K U T k q path b (Q : state -> Prop) :
  0 <= k ->
  (forall st x, at_q K U T k q st -> Q (with_files st (<[path := File b]> (delete (pending_prefix +:+ x) (files st))))) ->
  spec (at_q K U T k q) (writeAtomic path b) (fun _ => Q) (fun st => at_q K U T k q st \/ Q st).
Proof.
  intros Hk HQ. unfold writeAtomic. eapply spec_bind; [apply spec_draw, blind_at_q|]. intros [o x] st Hst. cbn [outcome suffix].
  pose proof (at_q_put_tmp _ _ _ _ _ _ x "" Hk Hst) as H1.
  pose proof (at_q_put_tmp _ _ _ _ _ _ x b Hk H1) as H2.
  destruct o; cbn.
  - by apply HQ.
  - by left.
  - left. by apply at_q_unlink_tmp.
  - left. by apply at_q_unlink_tmp.
  - right. by apply HQ.
Qed.

Lemma counter_written n d : 0 <= n < uint64_mod -> counter (<[dropped_json := File (FormatUint n)]> d) = n.
Proof. intros Hn. unfold counter. rewrite lookup_insert_eq. by rewrite codec_uint. Qed.

(** Writing a larger loss counter. *)
Lemma spec_write_counter K U T k q n :
  0 <= k -> T < uint64_mod -> 0 <= n -> dropped q <= n <= T ->
  spec (at_q K U T k q) (writeAtomic dropped_json (FormatUint n))
    (fun _ st => at_q K U T k q st /\ counter (files st) = n) (at_q K U T k q).
Proof.
  intros Hk HT Hn0 Hn. eapply spec_conseq; [apply (spec_writeAtomic K U T k q _ _
    (fun st => at_q K U T k q st /\ counter (files st) = n)) | done | done | by intros st0 [?|[? ?]]]; [done|].
  intros st x [HI Hq].
  assert (dropped_json <> pending_prefix +:+ x) as Hx by (intros E; by apply (tmp_not_counter x)).
  split; [|cbn; by rewrite counter_written by lia]. split; [|done].
  apply (Inv_files K U T k); try done; [| | |rewrite counter_written by lia; rewrite Hq; lia].
  - destruct (dir_ok_delete T (files st) _ (Inv_dir_ok _ _ _ _ _ HI) (tmp_not_counter x)) as [Hs _]. split.
    + intros m nd Hm Hf. rewrite lookup_insert_ne in Hm by by apply not_eq_sym, not_counter. by eapply Hs.
    + right. exists n. rewrite lookup_insert_eq. split; [done | lia].
  - rewrite sample_files_insert_other, sample_files_delete_other by first [done | apply tmp_not_sample].
    by eapply Inv_files_within.
  - rewrite sample_files_insert_other, sample_files_delete_other by first [done | apply tmp_not_sample].
    apply HI.
Qed.

Lemma written_head d h : sample_files d ⊆ written (d :: h).
Proof. cbn. set_solver. Qed.

(** Writing a sample file. *)
Lemma spec_write_sample K U T k q s b :
  0 <= k -> Sample_content s = Ok tt -> Marshal s = Some b -> len b <= Z.shiftl 32 10 ->
  sample_name (ID s) ∈ U ->
  spec (at_q K U T k q) (writeAtomic (sample_name (ID s)) b)
    (fun _ st => at_q K U T k q st /\ sample_name (ID s) ∈ written (seen st)) (at_q K U T k q).
Proof.
  intros Hk Hc Hm Hl HU. eapply spec_conseq; [apply (spec_writeAtomic K U T k q _ _
    (fun st => at_q K U T k q st /\ sample_name (ID s) ∈ written (seen st))) | done | done | by intros st0 [?|[? ?]]]; [done|].
  intros st x [HI Hq].
  destruct (content_id s Hc) as [Hid Hhex]. pose proof (sample_name_is_sample _ Hid Hhex) as Hsf.
  destruct (codec_sample s b Hc Hm) as (s' & Hu & Hs' & _).
  assert (sample_name (ID s) ∈ sample_files (<[sample_name (ID s) := File b]> (delete (pending_prefix +:+ x) (files st)))) as Hin.
  { rewrite elem_of_sample_files, lookup_insert_eq. eauto. }
  split; [|cbn; set_solver]. split; [|done].
  apply Inv_same; try done.
  - apply dir_ok_insert; [apply dir_ok_delete; [by eapply Inv_dir_ok | apply tmp_not_counter] | by apply not_counter|].
    intros _. exists b, s'. by rewrite Hs'.
  - intros n. rewrite !elem_of_sample_files. intros [Hn Hd]. split; [done|].
    destruct (decide (n = sample_name (ID s))) as [->|Hne]; [rewrite lookup_insert_eq; eauto|].
    rewrite lookup_insert_ne by done. rewrite lookup_delete_ne; [done|]. intros <-. by rewrite tmp_not_sample in Hn.
  - intros n. rewrite elem_of_sample_files. intros [Hn Hd].
    destruct (decide (n = sample_name (ID s))) as [->|Hne]; [done|].
    rewrite lookup_insert_ne in Hd by done. apply (Inv_files_within _ _ _ _ _ HI), elem_of_sample_files. split; [done|].
    destruct Hd as [nd Hd]. apply lookup_delete_Some in Hd as [_ Hd]. eauto.
  - rewrite counter_insert_other by by apply not_counter. apply counter_delete_other, tmp_not_counter.
Qed.

Lemma size_add_le (A B : gset string) x : A ⊆ B ∪ {[x]} -> (size A <= size B + 1)%nat.
Proof.
  intros H%subseteq_size. rewrite size_union_alt in H.
  assert (size ({[x]} ∖ B) <= size ({[x]} : gset string))%nat by (apply subseteq_size; set_solver).
  rewrite size_singleton in *. lia.
Qed.

(** Removing a sample file costs one counted loss, or nothing if it was delivered. *)
Lemma spec_remove_sample K U T k k' q name :
  is_sample_file name = true -> 0 <= k' -> k = (if bool_decide (name ∈ K) then k' else k' + 1) ->
  spec (at_q K U T k q) (Remove name) (fun _ => at_q K U T k' q) (at_q K U T k q).
Proof.
  intros Hsf Hk' Hk st [HI Hq]. unfold Remove, mbind, M_bind, get_files.
  assert (k' <= k) as Hle by (rewrite Hk; case_bool_decide; lia).
  destruct (files st !! name) as [nd|] eqn:En; [|split; [by eapply Inv_weaken | done]].
  pose proof (spec_draw _ (fun _ => False) (blind_at_q K U T k q) st (conj HI Hq)) as Hdraw.
  destruct (draw st) as [st1 [o|]] eqn:Ed; [|done].
  assert (files st1 = files st) as Hf by (unfold draw in Ed; destruct (ios st); by simplify_eq).
  destruct (outcome o); try done.
  destruct Hdraw as [HI1 Hq1]. change (at_q K U T k' q (with_files st1 (delete name (files st1)))).
  split; [|done]. pose proof (not_counter _ Hsf).
  apply (Inv_files K U T k); try done.
  - apply dir_ok_delete; [by eapply Inv_dir_ok | done].
  - intros n. rewrite elem_of_sample_files. intros [Hn [nd' Hd]]. apply lookup_delete_Some in Hd as [_ Hd].
    apply (Inv_files_within _ _ _ _ _ HI1), elem_of_sample_files. eauto.
  - pose proof (inv_lost _ _ _ _ _ HI1) as Hl. unfold lost in Hl.
    assert (forall n, n <> name -> n ∈ written (seen st1) ∖ sample_files (delete name (files st1)) ∖ K ->
      n ∈ written (seen st1) ∖ sample_files (files st1) ∖ K) as Hsub.
    { intros n Hne. rewrite !elem_of_difference, !elem_of_sample_files, lookup_delete_ne by done. done. }
    rewrite Hk in Hl. case_bool_decide as HK.
    + enough (written (seen st1) ∖ sample_files (delete name (files st1)) ∖ K ⊆
        written (seen st1) ∖ sample_files (files st1) ∖ K) as Hs%subseteq_size by lia.
      intros n Hn. apply Hsub; [|done]. intros ->. set_solver.
    + enough (written (seen st1) ∖ sample_files (delete name (files st1)) ∖ K ⊆
        (written (seen st1) ∖ sample_files (files st1) ∖ K) ∪ {[name]}) as Hs%size_add_le by lia.
      intros n Hn. destruct (decide (n = name)) as [->|Hne]; [set_solver|]. apply elem_of_union_l. auto.
  - rewrite counter_delete_other by done. apply HI1.
Qed.

(** ** The invariant through the operations *)
Definition settled (cutoff : time) (q : Spool) : Prop :=
  match entries q with
  | [] => True
  | e :: _ => bytes q <= limit q /\ cutoff <= Time (sample e)
  end.

(** Pruning drops the [n] oldest entries and counts each of them, and none that the
    limits allow to stay. *)
Definition pruned (cutoff : time) (q q' : Spool) : Prop :=
  exists n, (n <= List.length (entries q))%nat /\ entries q' = drop n (entries q) /\
    dropped q' = dropped q + Z.of_nat n /\ settled cutoff q' /\
    forall m e, (m < n)%nat -> entries q !! m = Some e ->
      limit q < wrap64 (total (drop m (entries q))) \/ Time (sample e) < cutoff.

Definition shrunk (q q' : Spool) : Prop := entries q' `sublist_of` entries q.

Lemma dropped_nonneg K U T k st : 0 <= k -> Inv K U T k st -> 0 <= dropped (queue st).
Proof. intros Hk HI. pose proof (inv_lost _ _ _ _ _ HI). lia. Qed.

Lemma spec_set_queue P q (Q : unit -> state -> Prop) E :
  (forall st, P st -> Q tt (mkState (files st) (ios st) (seen st) q)) -> spec P (set_queue q) Q E.
Proof. intros H st HP. by apply H. Qed.

(** The counter goes up before the file goes away. *)
Lemma spec_count K U T k q n :
  0 <= k -> 0 <= T < uint64_mod -> 0 <= n -> 0 <= dropped q -> dropped q + n <= T ->
  spec (at_q K U T k q)
    (_ ← writeAtomic dropped_json (FormatUint (wrapu64 (dropped q + n)));
     set_queue (mkSpool (entries q) (bytes q) (wrapu64 (dropped q + n)) (limit q) (age q)))
    (fun _ => at_q K U T (k + n) (mkSpool (entries q) (bytes q) (dropped q + n) (limit q) (age q)))
    (at_q K U T k q).
Proof.
  intros Hk HT Hn Hd Hle. rewrite wrapu64_id by lia.
  eapply spec_bind; [apply spec_write_counter; lia|]. intros []. apply spec_set_queue.
  intros st [[HI Hq] Hc]. split; [|done]. subst q. apply (Inv_queue K U T k); cbn; try done; [|lia|].
  - pose proof (inv_lost _ _ _ _ _ HI). lia.
  - apply queue_ok_sublist; [apply HI | done | apply HI].
Qed.

Lemma spec_assoc {A B C} P (m : M A) (f : A -> M B) (g : B -> M C) Q E :
  spec P ((m ≫= f) ≫= g) Q E -> spec P (m ≫= (fun a => f a ≫= g)) Q E.
Proof. intros H st HP. specialize (H st HP). unfold mbind, M_bind in *. by destruct (m st) as [? []]. Qed.

Lemma spec_seq4 {A} P (m1 m2 m3 m4 : M unit) (k : M A) R Q E :
  spec P (_ ← m1; _ ← m2; _ ← m3; m4) (fun _ => R) E -> spec R k Q E ->
  spec P (_ ← m1; _ ← m2; _ ← m3; _ ← m4; k) Q E.
Proof.
  intros Hm Hk st HP. specialize (Hm st HP). unfold mbind, M_bind in *.
  destruct (m1 st) as [s1 []]; [|done]. destruct (m2 s1) as [s2 []]; [|done].
  destruct (m3 s2) as [s3 []]; [|done]. destruct (m4 s3) as [s4 []]; [|done]. by apply Hk.
Qed.

(** Removing a file whose loss was counted. *)
Lemma spec_remove_paid K U T k q name :
  is_sample_file name = true -> 0 <= k ->
  spec (at_q K U T (k + 1) q) (Remove name) (fun _ => at_q K U T k q) (at_q K U T (k + 1) q).
Proof.
  intros Hsf Hk. destruct (decide (name ∈ K)) as [Hin|Hin].
  - eapply spec_conseq; [apply (spec_remove_sample K U T (k + 1) (k + 1)); [done | lia | by rewrite bool_decide_eq_true_2] | done | | done].
    intros _ st [HI Hq]. split; [|done]. eapply Inv_weaken, HI. lia.
  - apply spec_remove_sample; [done | done | by rewrite bool_decide_eq_false_2].
Qed.

Lemma Inv_head K U T k st q e es : Inv K U T k st -> queue st = q -> entries q = e :: es -> entry_ok e.
Proof.
  intros HI <- He. pose proof (qo_entries _ _ (inv_queue _ _ _ _ _ HI)) as Hf. rewrite He in Hf.
  by apply Forall_cons in Hf as [? _].
Qed.

(** One iteration of the loop, the entry [e] being dropped. *)
Lemma spec_prune_one K U T q e es :
  0 <= T < uint64_mod -> entries q = e :: es -> dropped q + 1 <= T -> 0 <= dropped q -> entry_ok e ->
  spec (at_q K U T 0 q)
    (_ ← writeAtomic dropped_json (FormatUint (wrapu64 (dropped q + 1)));
     _ ← set_queue (mkSpool (entries q) (bytes q) (wrapu64 (dropped q + 1)) (limit q) (age q));
     _ ← Remove (sample_name (ID (sample e)));
     set_queue (mkSpool es (wrap64 (bytes q - esize e)) (wrapu64 (dropped q + 1)) (limit q) (age q)))
    (fun _ => at_q K U T 0 (mkSpool es (wrap64 (bytes q - esize e)) (dropped q + 1) (limit q) (age q)))
    (fun st => Inv K U T 0 st /\ shrunk q (queue st)).
Proof.
  intros HT He Hle Hd [Hid [Hhex _]]. apply spec_assoc. eapply spec_bind.
  { eapply spec_conseq; [apply (spec_count K U T 0 q 1); lia | done | done|].
    intros st [HI Hq]. split; [done|]. unfold shrunk. by rewrite Hq. }
  intros []. eapply spec_bind.
  { eapply spec_conseq; [apply (spec_remove_paid K U T 0); [by apply sample_name_is_sample | lia] | done | done|].
    intros st [HI Hq]. split; [by eapply Inv_weaken, HI|]. unfold shrunk. by rewrite Hq. }
  intros []. apply spec_set_queue. intros st [HI Hq]. rewrite wrapu64_id by lia. split; [|done].
  apply (Inv_queue K U T 0); cbn; [done| | |].
  - pose proof (inv_lost _ _ _ _ _ HI) as Hl. by rewrite Hq in Hl.
  - pose proof (inv_counter _ _ _ _ _ HI) as Hc. by rewrite Hq in Hc.
  - pose proof (inv_queue _ _ _ _ _ HI) as Hok. rewrite Hq in Hok.
    apply (queue_ok_sublist _ _ es _ _ Hok); [cbn; rewrite He; by apply sublist_cons|].
    pose proof (qo_bytes _ _ Hok) as Hb. cbn in Hb. rewrite Hb, He. cbn [total foldr]. rewrite <-Z.add_opp_r, wrap64_add_l.
    f_equal. fold (total es). lia.
Qed.

Lemma spec_prune_loop K U T cutoff es q :
  0 <= T < uint64_mod -> entries q = es -> dropped q + Z.of_nat (List.length es) <= T ->
  spec (at_q K U T 0 q) (prune_loop cutoff es)
    (fun _ st => Inv K U T 0 st /\ pruned cutoff q (queue st)) (fun st => Inv K U T 0 st /\ shrunk q (queue st)).
Proof.
  intros HT. revert q. induction es as [|e es IH]; intros q He Hle; cbn [prune_loop].
  { apply spec_ret. intros st [HI Hq]. split; [done|]. exists 0%nat. rewrite Hq. unfold settled. rewrite He.
    split_and!; try done; cbn; lia || (intros; lia). }
  eapply spec_bind; [apply spec_get_queue|]. intros q0 st [[HI Hq] Hq0].
  assert (q0 = q) as -> by congruence. clear Hq0. pose proof (Inv_head _ _ _ _ _ _ _ _ HI Hq He) as Hok.
  assert (0 <= dropped q) as Hd by (rewrite <-Hq; exact (dropped_nonneg K U T 0 st ltac:(lia) HI)).
  assert (bytes q = wrap64 (total (entries q))) as Hbytes by (rewrite <-Hq; apply HI).
  destruct ((limit q <? bytes q) || Before (Time (sample e)) cutoff) eqn:Econd.
  - cbn [List.length] in Hle.
    pose proof (spec_prune_one K U T q e es HT He ltac:(lia) Hd Hok) as Hone.
    set (q' := mkSpool es (wrap64 (bytes q - esize e)) (dropped q + 1) (limit q) (age q)) in Hone.
    eapply spec_seq4; [exact Hone | | by split]. fold q'.
    eapply spec_conseq; [apply (IH q'); [done | unfold q'; cbn; lia] | done | |].
    + intros _ st' [HI' (n & Hn & He' & Hdr & Hs & Hm)]. split; [done|]. exists (S n). rewrite He.
      cbn [List.length drop q' entries dropped limit] in *.
      split_and!; try done; [lia | lia|]. intros [|m] e' Hlt Hlk; [|apply (Hm m); [lia | done]]. cbn in Hlk. simplify_eq.
      cbn [drop]. rewrite <-He, <-Hbytes. bools. destruct Econd; bools; auto.
    + intros st' [HI' Hs']. split; [done|]. unfold shrunk in *. rewrite He. by apply sublist_cons.
  - apply (spec_ret (at_q K U T 0 q)); [|by split]. intros st' [HI' Hq']. split; [done|]. exists 0%nat. rewrite Hq'.
    unfold settled. rewrite He. bools. cbn. split_and!; try done; lia || (intros; lia).
Qed.

(** Between operations the queue is sorted and every loss is counted. *)
Definition Live (K U : gset string) (T : Z) (st : state) : Prop :=
  Inv K U T 0 st /\ StronglySorted time_le (entries (queue st)).

Lemma pruned_shrunk cutoff q q' : pruned cutoff q q' -> shrunk q q'.
Proof. intros (n & _ & He & _). unfold shrunk. rewrite He. apply sublist_drop. Qed.

Lemma shrunk_Live K U T q st :
  Inv K U T 0 st -> StronglySorted time_le (entries q) -> shrunk q (queue st) -> Live K U T st.
Proof. intros HI Hs Hsh. split; [done|]. by eapply StronglySorted_sublist. Qed.

Lemma spec_sync P : blind P -> spec P syncDirectory (fun _ => P) P.
Proof.
  intros HP. unfold syncDirectory. eapply spec_bind; [by apply spec_draw|]. intros o.
  destruct (outcome o); first [by apply spec_ret | by apply spec_raise].
Qed.

Lemma spec_pruneLocked K U T now q :
  0 <= T < uint64_mod -> dropped q + Z.of_nat (List.length (entries q)) <= T ->
  StronglySorted time_le (entries q) -> age q = MaxAge ->
  spec (at_q K U T 0 q) (pruneLocked now)
    (fun _ st => Live K U T st /\ pruned (TimeAdd now (- MaxAge)) q (queue st)) (Live K U T).
Proof.
  intros HT Hle Hs Hage. unfold pruneLocked. eapply spec_bind; [apply spec_get_queue|]. intros q0 st [Hst Hq0].
  assert (q0 = q) as -> by (destruct Hst; congruence). rewrite Hage. revert st Hst Hq0.
  enough (spec (at_q K U T 0 q) (_ ← prune_loop (TimeAdd now (- MaxAge)) (entries q); syncDirectory)
    (fun _ st => Live K U T st /\ pruned (TimeAdd now (- MaxAge)) q (queue st)) (Live K U T)) as Hall.
  { intros st Hst _. by apply Hall. }
  eapply spec_bind.
  - eapply spec_conseq; [by apply (spec_prune_loop K U T _ (entries q)) | done | done|].
    intros st [HI Hsh]. by eapply shrunk_Live.
  - intros []. eapply spec_conseq; [apply (spec_sync (fun st => Inv K U T 0 st /\ pruned (TimeAdd now (- MaxAge)) q (queue st))) | done | |].
    + intros st l [HI Hp]. split; [by apply blind_Inv | done].
    + intros _ st [HI Hp]. split; [|done]. eapply shrunk_Live; [done | exact Hs | by eapply pruned_shrunk].
    + intros st [HI Hp]. eapply shrunk_Live; [done | exact Hs | by eapply pruned_shrunk].
Qed.

(** The losses an acknowledgement of [ids] may cause among [es]. *)
Definition undelivered (K : gset string) (ids : list string) (e : queueEntry) : bool :=
  bool_decide (ID (sample e) ∈ ids) && negb (bool_decide (sample_name (ID (sample e)) ∈ K)).
Definition need (K : gset string) (ids : list string) (es : list queueEntry) : Z := count_if (undelivered K ids) es.

Definition ack_post (K U : gset string) (T k : Z) (q : Spool) (ids : list string) (es kept : list queueEntry)
  (first : option spool_err) (x : list queueEntry * Z * option spool_err) (st : state) : Prop :=
  at_q K U T k q st /\ x.1.2 = wrap64 (total x.1.1) /\
  (exists sub, x.1.1 = kept ++ sub /\ sub `sublist_of` es) /\
  (x.2 = None -> first = None /\ x.1.1 = kept ++ filter (fun e => ID (sample e) ∉ ids) es).

Lemma total_app a b : total (a ++ b) = total a + total b.
Proof. induction a as [|e a IH]; cbn; [done|]. fold (total (a ++ b)). fold (total a). lia. Qed.

Lemma spec_ack_loop K U T q ids es kept n first k :
  Forall entry_ok es -> 0 <= k -> n = wrap64 (total kept + total es) ->
  spec (at_q K U T (k + need K ids es) q) (ack_loop ids es kept n first)
    (ack_post K U T k q ids es kept first) (fun _ => False).
Proof.
  revert kept n first k. induction es as [|e es IH]; intros kept n first k Hok Hk Hn; cbn [ack_loop].
  { apply spec_ret. intros st Hst. unfold need in Hst. rewrite count_if_nil, Z.add_0_r in Hst. unfold ack_post.
    cbn [fst snd]. rewrite filter_nil, app_nil_r, Hn. replace (total kept + total []) with (total kept) by (cbn; lia).
    split_and!; try done. exists []. by rewrite app_nil_r. }
  apply Forall_cons in Hok as [[Hid [Hhex _]] Hok]. unfold need. rewrite count_if_cons. fold (need K ids es).
  assert (total kept + total (e :: es) = total (kept ++ [e]) + total es) as Htot
    by (rewrite total_app; cbn; fold (total es); lia).
  assert (forall k' x st, ack_post K U T k' q ids es (kept ++ [e]) first x st -> ID (sample e) ∉ ids ->
    ack_post K U T k' q ids (e :: es) kept first x st) as Hkeep.
  { intros k' x st (H1 & H2 & (sub & H3 & H4) & H5) Hne. split_and!; try done.
    - exists (e :: sub). rewrite H3, <-app_assoc. split; [done | by apply sublist_skip].
    - intros Hx. destruct (H5 Hx) as [? H6]. split; [done|]. rewrite filter_cons_True by done.
      by rewrite H6, <-app_assoc. }
  unfold undelivered at 1. destruct (decide (ID (sample e) ∈ ids)) as [Hin|Hin].
  2: { rewrite !(bool_decide_eq_false_2 (ID (sample e) ∈ ids)) by done. cbn [andb]. rewrite Z.add_0_l.
       eapply spec_conseq; [apply (IH (kept ++ [e]) n first k); [done | done | by rewrite Hn, Htot] | done | | done].
       intros x st Hp. by apply Hkeep. }
  rewrite !(bool_decide_eq_true_2 (ID (sample e) ∈ ids)) by done. cbn [andb].
  set (name := sample_name (ID (sample e))) in *.
  assert (0 <= need K ids es) as Hneed by apply count_if_nonneg.
  eapply spec_bind.
  { eapply spec_conseq; [apply spec_attempt, (spec_remove_sample K U T
      (k + ((if negb (bool_decide (name ∈ K)) then 1 else 0) + need K ids es)) (k + need K ids es));
      [by apply sample_name_is_sample | lia | case_bool_decide; cbn; lia] | done | done | done]. }
  intros [[]|err].
  - eapply spec_conseq; [apply (IH kept _ first k); [done | done|] | done | | done].
    + rewrite Hn. cbn [total foldr]. fold (total es). rewrite <-Z.add_opp_r, wrap64_add_l. f_equal. lia.
    + intros x st (H1 & H2 & (sub & H3 & H4) & H5). split_and!; try done.
      * exists sub. split; [done | by apply sublist_cons].
      * intros Hx. destruct (H5 Hx) as [? H6]. split; [done|]. by rewrite filter_cons_False by (intros ?; done).
  - eapply spec_conseq; [apply (IH (kept ++ [e]) n _ k); [done | done | by rewrite Hn, Htot] | | | done].
    + intros st [HI Hq]. split; [|done]. eapply Inv_weaken, HI. destruct (bool_decide _); cbn; lia.
    + intros x st (H1 & H2 & (sub & H3 & H4) & H5). split_and!; try done.
      * exists (e :: sub). rewrite H3, <-app_assoc. split; [done | by apply sublist_skip].
      * intros Hx. destruct (H5 Hx) as [H6 _]. by destruct first.
Qed.

Definition unacked (ids : list string) (es : list queueEntry) : list queueEntry :=
  filter (fun e => ID (sample e) ∉ ids) es.

Definition acked_post (K U : gset string) (T : Z) (q : Spool) (st : state) : Prop :=
  Live K U T st /\ shrunk q (queue st) /\ dropped (queue st) = dropped q.

Lemma spec_ackLocked K U T q ids :
  StronglySorted time_le (entries q) ->
  spec (at_q K U T (need K ids (entries q)) q) (ackLocked ids)
    (fun _ st => acked_post K U T q st /\ entries (queue st) = unacked ids (entries q)) (acked_post K U T q).
Proof.
  intros Hs. unfold ackLocked. eapply spec_bind; [apply spec_get_queue|]. intros q0 st [[HI Hq] Hq0].
  assert (q0 = q) as -> by congruence.
  pose proof (inv_queue _ _ _ _ _ HI) as Hok. rewrite Hq in Hok.
  revert st HI Hq Hq0 Hok.
  enough (Forall entry_ok (entries q) -> bytes q = wrap64 (total (entries q)) ->
    spec (at_q K U T (need K ids (entries q)) q)
    (x ← ack_loop ids (entries q) [] (bytes q) None;
     let '(kept, n, first) := x in
     _ ← set_queue (mkSpool kept n (dropped q) (limit q) (age q));
     r ← attempt syncDirectory;
     match first, r with Some e, _ => raise e | None, Err e => raise e | None, Ok _ => mret tt end)
    (fun _ st => acked_post K U T q st /\ entries (queue st) = unacked ids (entries q)) (acked_post K U T q)) as Hall.
  { intros st HI Hq _ [_ He _ Hb _]. by apply Hall. }
  intros He Hb. eapply spec_bind.
  { eapply spec_conseq; [apply (spec_ack_loop K U T q ids (entries q) [] (bytes q) None 0); [done | done | by rewrite Hb]
      | done | done | done]. }
  intros [[kept n] first]. 
  set (P := fun st => acked_post K U T q st /\ (first = None -> entries (queue st) = unacked ids (entries q))).
  assert (blind P) as HP.
  { intros st l [[[HI Hl] [Hsh Hd]] Hf]. split; [|done]. split; [|done]. split; [by apply blind_Inv | done]. }
  eapply (spec_bind _ _ (fun _ => P)).
  { apply spec_set_queue. intros st ([HI Hq] & Hn & (sub & Hk & Hsub) & Hf). cbn in *. subst kept.
    assert (Inv K U T 0 (mkState (files st) (ios st) (seen st) (mkSpool sub n (dropped q) (limit q) (age q)))) as HI'.
    { apply (Inv_queue K U T 0); cbn; [done | rewrite <-Hq; apply HI | rewrite <-Hq; apply HI|].
      apply queue_ok_sublist; [rewrite <-Hq; apply HI | done | done]. }
    split; [|by intros Hx; destruct (Hf Hx)].
    split; [|by split]. split; [done|]. by eapply StronglySorted_sublist. }
  intros []. eapply (spec_bind _ _ (fun _ => P)).
  { eapply spec_conseq; [apply spec_attempt, (spec_sync P HP) | done | by intros [] | done]. }
  intros r. destruct first as [e|]; [apply spec_raise; by intros st [? ?]|].
  destruct r as [[]|e]; [apply spec_ret | apply spec_raise]; intros st [H1 H2]; auto.
Qed.

Lemma need_all_delivered K ids es :
  (forall e, e ∈ es -> ID (sample e) ∈ ids -> sample_name (ID (sample e)) ∈ K) -> need K ids es = 0.
Proof.
  intros H. unfold need. induction es as [|e es IH]; [done|]. rewrite count_if_cons, IH by (intros; apply H; set_solver).
  unfold undelivered. case_bool_decide as Hin; [|done]. cbn. rewrite bool_decide_eq_true_2; [done|].
  apply H; [set_solver | done].
Qed.

Lemma need_le_matching K ids es : need K ids es <= count_if (fun e => bool_decide (ID (sample e) ∈ ids)) es.
Proof. apply count_if_impl. intros e _. unfold undelivered. intros [? _]%andb_true_iff. done. Qed.

(** Acknowledging delivered samples loses nothing. *)
Lemma spec_Ack K U T q ids :
  StronglySorted time_le (entries q) -> (forall id, id ∈ ids -> sample_name id ∈ K) ->
  spec (at_q K U T 0 q) (Ack ids)
    (fun _ st => acked_post K U T q st /\ entries (queue st) = unacked ids (entries q)) (acked_post K U T q).
Proof.
  intros Hs HK. pose proof (spec_ackLocked K U T q ids Hs) as H. rewrite need_all_delivered in H; [done|].
  intros e _ Hin. by apply HK.
Qed.

(** Rejecting counts what it removes, before it removes it. *)
Lemma spec_Reject K U T q ids :
  0 <= T < uint64_mod -> dropped q + Z.of_nat (List.length (entries q)) <= T ->
  StronglySorted time_le (entries q) ->
  spec (at_q K U T 0 q) (Reject ids)
    (fun _ st => Live K U T st /\ shrunk q (queue st) /\ entries (queue st) = unacked ids (entries q) /\
       dropped (queue st) = dropped q + count_if (fun e => bool_decide (ID (sample e) ∈ ids)) (entries q))
    (fun st => Live K U T st /\ shrunk q (queue st)).
Proof.
  intros HT Hle Hs. unfold Reject. eapply spec_bind; [apply spec_get_queue|]. intros q0 st [[HI Hq] Hq0].
  assert (q0 = q) as -> by congruence. assert (0 <= dropped q) as Hd.
  { rewrite <-Hq. exact (dropped_nonneg K U T 0 st ltac:(lia) HI). }
  assert (at_q K U T 0 q st) as Hst by done. clear HI Hq Hq0. revert st Hst.
  set (count := count_if _ (entries q)).
  assert (0 <= count <= Z.of_nat (List.length (entries q))) as Hcount
    by (split; [apply count_if_nonneg | apply count_if_le_length]).
  set (q' := mkSpool (entries q) (bytes q) (dropped q + count) (limit q) (age q)).
  apply (spec_bind (at_q K U T 0 q) _ (fun _ => at_q K U T count q')).
  - destruct (0 <? count) eqn:Ec; bools.
    + eapply spec_conseq; [apply (spec_count K U T 0 q count); lia | done | done|].
      intros st [HI Hq]. unfold shrunk. rewrite Hq. split; [|done]. split; [done | by rewrite Hq].
    + apply spec_ret. intros st [HI Hq]. assert (count = 0) as Hz by lia. unfold q'. rewrite Hz, Z.add_0_r.
      split; [done|]. by destruct q.
  - intros []. eapply spec_conseq; [apply (spec_ackLocked K U T q' ids); done | | |].
    + intros st [HI Hq]. split; [|done]. eapply Inv_weaken, HI. apply need_le_matching.
    + intros _ st ((HL & Hsh & Hd') & He). by split_and!.
    + intros st (HL & Hsh & Hd'). by split.
Qed.

Lemma queue_room K U T k st :
  Inv K U T k st -> Z.of_nat (List.length (entries (queue st))) <= Z.of_nat (size U).
Proof.
  intros HI. destruct (inv_queue _ _ _ _ _ HI) as [Hn _ Hw _ _].
  assert (list_to_set (names (entries (queue st))) ⊆ U) as Hs.
  { intros n Hin. apply elem_of_list_to_set in Hin. apply (inv_within _ _ _ _ _ HI). auto. }
  apply subseteq_size in Hs. rewrite size_list_to_set in Hs by done. unfold names in Hs.
  rewrite length_fmap in Hs. lia.
Qed.

Lemma dropped_room K U T k st : 0 <= T < uint64_mod -> Inv K U T k st -> dropped (queue st) <= T.
Proof.
  intros HT HI. pose proof (inv_counter _ _ _ _ _ HI). pose proof (counter_le T _ (Inv_dir_ok _ _ _ _ _ HI) HT). lia.
Qed.

Lemma Live_at K U T st : Live K U T st -> at_q K U T 0 (queue st) st.
Proof. intros [HI _]. by split. Qed.

Lemma total_perm a b : a ≡ₚ b -> total a = total b.
Proof. induction 1; cbn in *; try fold (total l); try fold (total l'); lia. Qed.

Lemma queue_ok_add W q es s n d :
  queue_ok W q -> es ≡ₚ mkEntry s n :: entries q -> entry_ok (mkEntry s n) -> sample_name (ID s) ∈ W ->
  ID s ∉ (fun e => ID (sample e)) <$> entries q ->
  queue_ok W (mkSpool es (wrap64 (bytes q + n)) d (limit q) (age q)).
Proof.
  intros [Hn He Hwr Hb Hl] Hperm Hok Hw Hfresh. constructor; cbn [entries bytes limit age]; try done.
  - unfold names. rewrite Hperm. cbn. apply NoDup_cons. split; [|done]. intros Hin.
    apply list_elem_of_fmap in Hin as (e & He' & Hin). apply sample_name_inj in He'. apply Hfresh.
    apply list_elem_of_fmap. eauto.
  - rewrite Hperm. by apply Forall_cons.
  - intros x. unfold names. rewrite Hperm. cbn. rewrite elem_of_cons. intros [->|Hin]; [done | by apply Hwr].
  - rewrite (total_perm _ _ Hperm), Hb, wrap64_add_l. f_equal. cbn. fold (total (entries q)). lia.
Qed.

(** [Add] stores the sample before it shows it in the queue. *)
Lemma spec_Add K U T q now1 now2 s :
  0 <= T < uint64_mod -> dropped q + Z.of_nat (List.length (entries q)) + 1 <= T ->
  StronglySorted time_le (entries q) -> sample_name (ID s) ∈ U ->
  spec (at_q K U T 0 q) (Add now1 now2 s)
    (fun _ st => Live K U T st /\ exists q1 n, entries q1 ≡ₚ mkEntry s n :: entries q /\
       dropped q1 = dropped q /\ pruned (TimeAdd now2 (- MaxAge)) q1 (queue st)) (Live K U T).
Proof.
  intros HT Hle Hs HU. unfold Add.
  assert (forall st, at_q K U T 0 q st -> Live K U T st) as Hlive by (intros st [HI <-]; by split).
  destruct (Sample_Validate now1 s) as [[]|e] eqn:Ev; [|by apply spec_raise].
  destruct (Marshal s) as [b|] eqn:Em; [|by apply spec_raise].
  destruct (_ <? len b) eqn:El; [by apply spec_raise|]. bools.
  apply Sample_Validate_ok in Ev as [Hc _]. destruct (content_id s Hc) as [Hid Hhex].
  eapply spec_bind; [apply spec_get_queue|]. intros q0 st [Hst Hq0].
  assert (q0 = q) as -> by (destruct Hst; congruence). clear Hq0.
  destruct (existsb _ _) eqn:Ex; [by apply (spec_raise (at_q K U T 0 q))|].
  assert (ID s ∉ (fun e => ID (sample e)) <$> entries q) as Hfresh.
  { intros Hin. apply list_elem_of_fmap in Hin as (e & He & Hin). apply not_true_iff_false in Ex. apply Ex.
    apply existsb_exists. exists e. split; [by apply list_elem_of_In | by rewrite bool_decide_eq_true_2]. }
  set (es := sort_entries (entries q ++ [mkEntry s (len b)])).
  assert (es ≡ₚ mkEntry s (len b) :: entries q) as Hperm.
  { unfold es. rewrite sort_perm. by rewrite (Permutation_app_comm (entries q)). }
  set (q1 := mkSpool es (wrap64 (bytes q + len b)) (dropped q) (limit q) (age q)).
  pose proof (qo_limits _ _ (inv_queue _ _ _ _ _ (proj1 Hst))) as Hlim. rewrite (proj2 Hst) in Hlim.
  revert st Hst.
  apply (spec_bind (at_q K U T 0 q) _ (fun _ st => at_q K U T 0 q st /\ sample_name (ID s) ∈ written (seen st))).
  { eapply spec_conseq; [by apply spec_write_sample | done | done | done]. }
  intros []. apply (spec_bind _ _ (fun _ => at_q K U T 0 q1)).
  { apply spec_set_queue. intros st [[HI Hq] Hw]. split; [|done]. subst q. apply (Inv_queue K U T 0); cbn; try apply HI.
    apply (queue_ok_add _ _ _ s); try done; [apply HI|]. split_and!; try done; cbn; unfold len; lia. }
  intros []. eapply spec_conseq; [apply (spec_pruneLocked K U T now2 q1); [done | | apply sort_sorted | apply Hlim] | done | | done].
  - cbn. apply Permutation_length in Hperm. rewrite Hperm. cbn. lia.
  - intros _ st [HL Hp]. split; [done|]. by exists q1, (len b).
Qed.

Lemma spec_Batch K U T q now :
  0 <= T < uint64_mod -> dropped q + Z.of_nat (List.length (entries q)) <= T ->
  StronglySorted time_le (entries q) -> age q = MaxAge ->
  spec (at_q K U T 0 q) (Batch now)
    (fun l st => Live K U T st /\ pruned (TimeAdd now (- MaxAge)) q (queue st) /\ l = batch_of (entries (queue st)))
    (Live K U T).
Proof.
  intros HT Hle Hs Ha. unfold Batch. eapply spec_bind; [by apply spec_pruneLocked|]. intros [].
  eapply spec_bind; [apply spec_get_queue|]. intros q'. apply spec_ret. by intros st [[HL Hp] <-].
Qed.

(** ** Starting from a directory *)

(** What holds of the directory when no process owns the outbox. *)
Record Down (K U : gset string) (T : Z) (st : state) : Prop := {
  down_now : exists older, seen st = files st :: older;
  down_history : history_ok K T (seen st);
  down_within : written (seen st) ⊆ U
}.

Lemma Inv_Down K U T k st : Inv K U T k st -> Down K U T st.
Proof. intros []. by constructor. Qed.

Lemma Live_Down K U T st : Live K U T st -> Down K U T st.
Proof. intros [HI _]. by eapply Inv_Down. Qed.

Lemma blind_Down K U T : blind (Down K U T).
Proof. intros st l []. by constructor. Qed.

(** A directory that changed in a way nothing here looks at. *)
Lemma Down_put_other K U T st x b :
  is_sample_file x = false -> x <> dropped_json -> Down K U T st ->
  Down K U T (with_files st (<[x := File b]> (files st))) /\
  sample_files (<[x := File b]> (files st)) = sample_files (files st) /\
  counter (<[x := File b]> (files st)) = counter (files st).
Proof.
  intros Hx Hne [[older Ho] Hh Hw]. pose proof Hh as Hh'. rewrite Ho in Hh'. destruct Hh' as (Hl & Hd & _).
  rewrite sample_files_insert_other, counter_insert_other by done. split; [|done].
  constructor; cbn [with_files files seen]; [by eexists| |].
  - cbn [history_ok]. rewrite lost_next, sample_files_insert_other, counter_insert_other by done.
    split_and!; [|by apply dir_ok_insert; [| |congruence] | done]. rewrite <-Ho in Hl. exact Hl.
  - cbn. rewrite sample_files_insert_other by done. rewrite Ho in Hw |- *. cbn in *. set_solver.
Qed.

(** What the scan of a directory with sample files [S] found, and what is left. *)
Definition loading (K U : gset string) (T c : Z) (S : gset string) (l : list (string * node)) (st : state) : Prop :=
  Inv K U T 0 st /\ sample_files (files st) = S /\ dropped (queue st) = c /\
  names (entries (queue st)) ++ filter (fun n => is_sample_file n = true) (fst <$> l) ≡ₚ elements S /\
  (forall name nd, (name, nd) ∈ l -> is_sample_file name = true -> good_file name nd).

Lemma prefix_not_sample name :
  HasPrefix pending_prefix name = true -> is_sample_file name = false /\ name <> dropped_json.
Proof. intros H. unfold is_sample_file. rewrite H. split; [done|]. by intros ->. Qed.

Lemma spec_remove_pending K U T q S name :
  HasPrefix pending_prefix name = true ->
  spec (fun st => at_q K U T 0 q st /\ sample_files (files st) = S) (Remove name)
    (fun _ st => at_q K U T 0 q st /\ sample_files (files st) = S) (Down K U T).
Proof.
  intros [Hs Hc]%prefix_not_sample. unfold Remove. eapply spec_bind; [apply spec_get_files|].
  set (P := fun st => at_q K U T 0 q st /\ sample_files (files st) = S).
  assert (blind P) as HP by (intros st l [Hst HS]; split; [by apply blind_at_q | done]).
  intros d. destruct (d !! name) as [nd|]; [|by apply spec_ret; intros st []].
  eapply (spec_bind _ _ (fun _ => P)).
  { eapply spec_conseq; [apply (spec_draw P (Down K U T) HP) | by intros st [] | done | done]. }
  intros o. destruct (outcome o); try (apply spec_raise; intros st [[HI _] _]; by eapply Inv_Down).
  intros st [Hst HS]. split; [exact (at_q_unlink K U T 0 q st name ltac:(lia) Hs Hc Hst)|]. cbn.
  by rewrite sample_files_delete_other.
Qed.

Lemma loading_skip K U T c S name nd l st :
  is_sample_file name = false -> loading K U T c S ((name, nd) :: l) st -> loading K U T c S l st.
Proof.
  intros Hn (HI & HS & Hc & Hp & Hg). split_and!; try done.
  - rewrite fmap_cons, filter_cons_False in Hp; [done|]. cbn. by rewrite Hn.
  - intros. eapply Hg; [by apply elem_of_cons; right | done].
Qed.

(** Scanning one well-formed sample file. *)
Lemma loading_sample K U T c S name b s l st :
  is_sample_file name = true -> sample_name (ID s) = name -> len b <= Z.shiftl 32 10 ->
  len (ID s) = 32 -> all_bytes is_hex_digit (ID s) = true ->
  loading K U T c S ((name, File b) :: l) st ->
  loading K U T c S l (mkState (files st) (ios st) (seen st)
    (mkSpool (entries (queue st) ++ [mkEntry s (len b)]) (wrap64 (bytes (queue st) + len b))
       (dropped (queue st)) (limit (queue st)) (age (queue st)))).
Proof.
  intros Hn Hname Hlen Hid Hhex (HI & HS & Hc & Hp & Hg).
  rewrite fmap_cons, filter_cons_True in Hp by done. cbn [fst] in Hp.
  assert (NoDup (names (entries (queue st)) ++ name :: filter (fun n => is_sample_file n = true) (fst <$> l))) as Hnd
    by (rewrite Hp; apply NoDup_elements).
  assert (name ∈ written (seen st)) as Hw.
  { destruct (inv_now _ _ _ _ _ HI) as [older ->]. apply written_head. rewrite HS. apply elem_of_elements. rewrite <-Hp.
    apply elem_of_app. right. by apply elem_of_cons; left. }
  assert (ID s ∉ (fun e => ID (sample e)) <$> entries (queue st)) as Hfresh.
  { intros Hin. apply NoDup_app in Hnd as (_ & Hnd & _). apply (Hnd name); [|by apply elem_of_cons; left].
    apply list_elem_of_fmap in Hin as (e & He & Hin). apply list_elem_of_fmap. exists e. by rewrite <-He. }
  split_and!; cbn [queue files seen entries dropped]; try done.
  - apply (Inv_queue K U T 0); try apply HI. subst name. apply (queue_ok_add _ _ _ s); try done; [apply HI | |].
    + by rewrite (Permutation_app_comm (entries (queue st))).
    + split_and!; try done; cbn; unfold len; lia.
  - rewrite <-Hp. unfold names. rewrite fmap_app, <-app_assoc. cbn. by rewrite Hname.
  - intros. eapply Hg; [by apply elem_of_cons; right | done].
Qed.

Lemma blind_loading K U T c S l : blind (loading K U T c S l).
Proof. intros st io (HI & H). split; [by apply blind_Inv | done]. Qed.

Lemma spec_load_files K U T c S l :
  spec (loading K U T c S l) (load_files l) (fun _ => loading K U T c S []) (Down K U T).
Proof.
  assert (forall l st, loading K U T c S l st -> Down K U T st) as Hdown by (intros ? ? [HI _]; by eapply Inv_Down).
  induction l as [|[name nd] l IH]; cbn [load_files]; [by apply spec_ret|].
  destruct (HasPrefix pending_prefix name) eqn:Ep.
  { apply (spec_bind _ _ (fun _ => loading K U T c S l)); [|done].
    intros st HL. pose proof HL as (HI & HS & Hc & Hp & Hg). pose proof (prefix_not_sample _ Ep) as [Hns _].
    pose proof (spec_remove_pending K U T (queue st) S name Ep st (conj (conj HI eq_refl) HS)) as Hr.
    destruct (Remove name st) as [st' [[]|e]]; [|done]. destruct Hr as [[HI' Hq'] HS'].
    apply loading_skip in HL as (_ & _ & _ & Hp' & Hg'); [|done]. split_and!; try done; by rewrite Hq'. }
  destruct (HasSuffix ".sample" name) eqn:Es; cbn [negb].
  2: { eapply spec_conseq; [apply IH | | done | done]. intros st HL. eapply loading_skip, HL.
       unfold is_sample_file. by rewrite Ep, Es. }
  assert (is_sample_file name = true) as Hn by (unfold is_sample_file; by rewrite Ep, Es).
  destruct nd as [b|]; [|apply spec_raise; apply Hdown].
  eapply spec_bind; [apply spec_draw, blind_loading|]. intros o.
  destruct (outcome o); try (apply spec_raise; apply Hdown).
  destruct (_ <? len b) eqn:El; [apply spec_raise; apply Hdown|]. bools.
  destruct (Unmarshal b) as [s|] eqn:Eu; [|apply spec_raise; apply Hdown].
  destruct (_ && _) eqn:Eid; [|apply spec_raise; apply Hdown]. bools.
  eapply spec_bind; [apply spec_get_queue|]. intros q.
  apply (spec_bind _ _ (fun _ => loading K U T c S l)); [|done]. apply spec_set_queue. intros st [HL <-].
  apply (loading_sample K U T c S name b s); try done.
  destruct HL as (_ & _ & _ & _ & Hg). destruct (Hg name (File b)) as (b' & s' & Hb & _ & Hu & _ & _ & Hh); [by apply elem_of_cons; left | done|].
  simplify_eq. congruence.
Qed.

Lemma Down_dir_ok K U T st :
  Down K U T st -> dir_ok T (files st) /\ Z.of_nat (size (lost K (files st) (seen st))) <= counter (files st).
Proof. intros [[older Ho] Hh _]. rewrite Ho in *. by destruct Hh as (? & ? & _). Qed.

(** The directory as [OpenSpool] finds it: its sample files and its counter. *)
Definition found (K U : gset string) (T c : Z) (S : gset string) (st : state) : Prop :=
  Down K U T st /\ sample_files (files st) = S /\ counter (files st) = c.

Lemma blind_found K U T c S : blind (found K U T c S).
Proof. intros st l [HD H]. split; [by apply blind_Down | done]. Qed.

Lemma spec_lock_file K U T c S d :
  spec (fun st => found K U T c S st /\ files st = d)
    (match d !! "agent.lock" with Some _ => mret tt | None => put "agent.lock" "" end)
    (fun _ => found K U T c S) (Down K U T).
Proof.
  intros st [(HD & HS & Hc) <-]. destruct (files st !! "agent.lock"); [done|].
  destruct (Down_put_other K U T st "agent.lock" "" eq_refl ltac:(done) HD) as (HD' & HS' & Hc').
  change (found K U T c S (with_files st (<["agent.lock" := File ""]> (files st)))).
  split_and!; [done | by cbn -[sample_files]; rewrite HS' | by rewrite <-Hc, <-Hc'].
Qed.

Lemma spec_take_lock K U T c S :
  spec (found K U T c S) take_lock (fun _ => found K U T c S) (Down K U T).
Proof.
  unfold take_lock. eapply spec_bind; [apply spec_draw, blind_found|].
  assert (forall st, found K U T c S st -> Down K U T st) as Hdown by by intros st [].
  intros o. destruct (outcome o); try by apply spec_raise.
  all: eapply spec_bind; [apply spec_get_files|]; intros d.
  1: apply spec_lock_file.
  all: eapply spec_bind; [apply spec_lock_file|]; intros; by apply spec_raise.
Qed.

Lemma spec_read_counter K U T c S :
  T < uint64_mod ->
  spec (found K U T c S) read_counter (fun n st => found K U T c S st /\ n = c) (Down K U T).
Proof.
  intros HT. assert (forall st, found K U T c S st -> Down K U T st) as Hdown by by intros st [].
  unfold read_counter. eapply spec_bind; [apply spec_get_files|]. intros d.
  destruct (d !! dropped_json) as [[b|]|] eqn:Ed.
  - apply (spec_bind _ _ (fun _ st => found K U T c S st /\ files st = d)).
    { apply spec_draw. intros st l [Hst Hd]. split; [by apply blind_found | done]. }
    intros o. destruct (outcome o); try (apply spec_raise; intros st []; auto).
    destruct (UnmarshalUint b) as [n|] eqn:En; [|apply spec_raise; intros st []; auto].
    apply spec_ret. intros st [Hst Hd]. split; [done|]. destruct Hst as (_ & _ & <-). unfold counter.
    by rewrite Hd, Ed, En.
  - apply spec_raise. intros st []; auto.
  - apply spec_ret. intros st [Hst Hd]. split; [done|]. destruct Hst as (_ & _ & <-). unfold counter. by rewrite Hd, Ed.
Qed.

Lemma loading_start K U T c S st :
  0 <= T -> found K U T c S st ->
  loading K U T c S (map_to_list (files st)) (mkState (files st) (ios st) (seen st) (mkSpool [] 0 c MaxQueueBytes MaxAge)).
Proof.
  intros HT (HD & HS & Hc). destruct (Down_dir_ok _ _ _ _ HD) as [[Hg _] Hl].
  split_and!; cbn [queue files seen entries dropped]; try done.
  - destruct HD. constructor; cbn; try done; [lia | lia|]. constructor; cbn; try done; [apply NoDup_nil_2 | set_solver].
  - cbn. rewrite <-HS. unfold sample_files. apply NoDup_Permutation; [|apply NoDup_elements|].
    + apply NoDup_filter, NoDup_fst_map_to_list.
    + intros n. rewrite list_elem_of_filter, elem_of_elements, elem_of_filter, elem_of_dom.
      rewrite list_elem_of_fmap. split; intros [Hn Hd]; (split; [done|]).
      * destruct Hd as ([k nd] & -> & Hin). apply elem_of_map_to_list in Hin. eauto.
      * destruct Hd as [nd Hd]. exists (n, nd). by rewrite elem_of_map_to_list.
  - intros name nd Hin Hn. apply elem_of_map_to_list in Hin. eauto.
Qed.

(** Opening a directory reads every sample file and the counter, then prunes. *)
Definition opened (now : time) (c : Z) (S : gset string) (q : Spool) : Prop :=
  exists q1, names (entries q1) ≡ₚ elements S /\ dropped q1 = c /\ StronglySorted time_le (entries q1) /\
    Forall entry_ok (entries q1) /\ limit q1 = MaxQueueBytes /\ pruned (TimeAdd now (- MaxAge)) q1 q.

Lemma spec_OpenSpool K U T c S now :
  0 <= T < uint64_mod -> c + Z.of_nat (size U) <= T ->
  spec (found K U T c S) (OpenSpool now) (fun _ st => Live K U T st /\ opened now c S (queue st)) (Down K U T).
Proof.
  intros HT Hle. unfold OpenSpool. eapply spec_bind; [apply spec_take_lock|]. intros [].
  eapply spec_bind; [apply spec_read_counter; lia|]. intros n.
  apply (spec_bind _ _ (fun _ st => loading K U T c S (map_to_list (files st)) st)).
  { apply spec_set_queue. intros st [Hst ->]. apply (loading_start K U T c S st); [lia | done]. }
  intros []. apply (spec_bind _ _ (fun _ st => loading K U T c S (map_to_list (files st)) st)).
  { apply spec_draw. intros st l Hst. by apply blind_loading. }
  intros o. destruct (outcome o); try (apply spec_raise; intros st [HI _]; by eapply Inv_Down).
  eapply spec_bind; [apply spec_get_files|]. intros d.
  apply (spec_bind _ _ (fun _ => loading K U T c S [])).
  { eapply spec_conseq; [apply (spec_load_files K U T c S (map_to_list d)) | by intros st [Hst <-] | done | done]. }
  intros []. eapply spec_bind; [apply spec_get_queue|]. intros q st [(HI & HS & Hc & Hp & _) Hq]. subst q.
  set (q1 := mkSpool (sort_entries (entries (queue st))) (bytes (queue st)) (dropped (queue st)) (limit (queue st)) (age (queue st))).
  rewrite app_nil_r in Hp.
  assert (names (entries q1) ≡ₚ elements S) as Hp1 by (cbn; unfold names; rewrite sort_perm; exact Hp).
  assert (at_q K U T 0 q1 (mkState (files st) (ios st) (seen st) q1)) as Hq1.
  { split; [|done]. apply (Inv_queue K U T 0); try apply HI. destruct (inv_queue _ _ _ _ _ HI) as [Hn He Hw Hb Hl].
    constructor; unfold q1; cbn [entries bytes limit age]; try done; try (unfold names; rewrite sort_perm; done).
    - intros x. unfold names. rewrite sort_perm. apply Hw.
    - by rewrite (total_perm _ _ (sort_perm _)). }
  pose proof (queue_room _ _ _ _ _ HI) as Hroom.
  enough (spec (at_q K U T 0 q1) (pruneLocked now)
    (fun _ st => Live K U T st /\ opened now c S (queue st)) (Down K U T)) as Hall by exact (Hall _ Hq1).
  eapply spec_conseq; [apply (spec_pruneLocked K U T now q1); try done | done | |].
  - cbn. rewrite (Permutation_length (sort_perm _)). lia.
  - apply sort_sorted.
  - apply (qo_limits _ _ (inv_queue _ _ _ _ _ HI)).
  - intros _ st' [HL Hpr]. split; [done|]. exists q1. split_and!; try done; [apply sort_sorted | |].
    + apply (inv_queue _ _ _ _ _ (proj1 Hq1)).
    + apply (qo_limits _ _ (inv_queue _ _ _ _ _ HI)).
  - intros st' HL. by eapply Live_Down.
Qed.

(** ** The directory only moves forward *)
Definition grows {A} (m : M A) : Prop := forall st, seen st `suffix_of` seen (m st).1.

Lemma grows_ret {A} (a : A) : grows (mret a).
Proof. by intros st. Qed.
Lemma grows_raise {A} e : grows (raise e : M A).
Proof. by intros st. Qed.
Lemma grows_bind {A B} (m : M A) (k : A -> M B) : grows m -> (forall a, grows (k a)) -> grows (m ≫= k).
Proof.
  intros Hm Hk st. specialize (Hm st). unfold mbind, M_bind. destruct (m st) as [st' [a|e]]; [|done].
  specialize (Hk a st'). by trans (seen st').
Qed.
Lemma grows_attempt {A} (m : M A) : grows m -> grows (attempt m).
Proof. intros Hm st. specialize (Hm st). unfold attempt. by destruct (m st). Qed.
Lemma grows_get_queue : grows get_queue.
Proof. by intros st. Qed.
Lemma grows_get_files : grows get_files.
Proof. by intros st. Qed.
Lemma grows_set_queue q : grows (set_queue q).
Proof. by intros st. Qed.
Lemma grows_set_files d : grows (set_files d).
Proof. intros st. by apply suffix_cons_r. Qed.
Lemma grows_draw : grows draw.
Proof. intros st. unfold draw. by destruct (ios st). Qed.
#[local] Hint Resolve grows_ret grows_raise grows_bind grows_attempt grows_get_queue grows_get_files grows_set_queue
  grows_set_files grows_draw : talus.

(** [grow] follows the structure of an operation. *)
Local Ltac grow := repeat first
  [ apply grows_bind; [|intros ?] | case_match | progress intros | solve [auto with talus] ].

Lemma grows_put name b : grows (put name b).
Proof. unfold put. grow. Qed.
Lemma grows_unlink name : grows (unlink name).
Proof. unfold unlink. grow. Qed.
#[local] Hint Resolve grows_put grows_unlink : talus.
Lemma grows_sync : grows syncDirectory.
Proof. unfold syncDirectory. grow. Qed.
Lemma grows_Remove name : grows (Remove name).
Proof. unfold Remove. grow. Qed.
Lemma grows_writeAtomic path b : grows (writeAtomic path b).
Proof. unfold writeAtomic. grow. Qed.
#[local] Hint Resolve grows_sync grows_Remove grows_writeAtomic : talus.
Lemma grows_prune_loop cutoff es : grows (prune_loop cutoff es).
Proof. induction es; cbn [prune_loop]; grow. Qed.
Lemma grows_ack_loop ids es kept n first : grows (ack_loop ids es kept n first).
Proof. revert kept n first. induction es; intros; cbn [ack_loop]; grow. Qed.
Lemma grows_load_files l : grows (load_files l).
Proof. induction l as [|[] l IH]; cbn [load_files]; grow. Qed.
#[local] Hint Resolve grows_prune_loop grows_ack_loop grows_load_files : talus.
Lemma grows_pruneLocked now : grows (pruneLocked now).
Proof. unfold pruneLocked. grow. Qed.
Lemma grows_ackLocked ids : grows (ackLocked ids).
Proof. unfold ackLocked. grow. Qed.
#[local] Hint Resolve grows_pruneLocked grows_ackLocked : talus.

(** ** The agent and its crashes *)
Inductive op :=
| OOpen (now : time)
| OAdd (now1 now2 : time) (s : Sample)
| OBatch (now : time)
| OAck (ids : list string)
| OReject (ids : list string).

Definition run_op (o : op) : M unit :=
  match o with
  | OOpen now => OpenSpool now
  | OAdd now1 now2 s => Add now1 now2 s
  | OBatch now => _ ← Batch now; mret tt
  | OAck ids => Ack ids
  | OReject ids => Reject ids
  end.

Lemma grows_run_op o : grows (run_op o).
Proof.
  destruct o; cbn [run_op]; unfold OpenSpool, take_lock, read_counter, Add, Batch, Ack, Reject; grow.
Qed.

(** The running program with what is known about its samples: those [Add] accepted,
    those the Hub stored, those ever offered. *)
Record sys := mkSys {
  disk : state; running : bool; accepted : gset string; delivered : gset string; offered : gset string
}.

Definition offer (o : op) (u : gset string) : gset string :=
  match o with OAdd _ _ s => {[sample_name (ID s)]} ∪ u | _ => u end.

Definition accept (o : op) (r : result spool_err unit) (a : gset string) : gset string :=
  match o, r with OAdd _ _ s, Ok _ => {[sample_name (ID s)]} ∪ a | _, _ => a end.

Definition enabled (o : op) (running : bool) : bool := match o with OOpen _ => negb running | _ => running end.
Definition alive (o : op) (r : result spool_err unit) : bool := match o with OOpen _ => is_ok r | _ => true end.

(** The Hub acknowledges only what it stored. *)
Definition honest (o : op) (k : gset string) : Prop :=
  match o with OAck ids => forall id, id ∈ ids -> sample_name id ∈ k | _ => True end.

Definition with_ios (l : list io) (st : state) : state := mkState (files st) l (seen st) (queue st).

(** An operation runs to its end, or the process stops inside it and leaves the
    directory [d]. *)
Inductive runs (o : op) (s : sys) : sys -> Prop :=
| runs_done l st' r :
    enabled o (running s) = true -> run_op o (with_ios l (disk s)) = (st', r) ->
    runs o s (mkSys st' (alive o r) (accept o r (accepted s)) (delivered s) (offer o (offered s)))
| runs_crash l st' r d older newer :
    enabled o (running s) = true -> run_op o (with_ios l (disk s)) = (st', r) ->
    seen st' = newer ++ d :: older -> seen (disk s) `suffix_of` d :: older ->
    runs o s (mkSys (mkState d [] (d :: older) (queue st')) false (accepted s) (delivered s) (offer o (offered s))).

Definition deliver (k : gset string) (s : sys) : sys := mkSys (disk s) (running s) (accepted s) k (offered s).

Inductive step : sys -> sys -> Prop :=
| step_run o s s' : honest o (delivered s) -> runs o s s' -> step s s'
| step_deliver k s : delivered s ⊆ k -> step s (deliver k s).

(** The states reached in [n] steps from a directory with nothing of the outbox. *)
Inductive reach : nat -> sys -> Prop :=
| reach_start d q : sample_files d = ∅ -> d !! dropped_json = None ->
    reach 0 (mkSys (mkState d [] [d] q) false ∅ ∅ ∅)
| reach_step n s s' : reach n s -> step s s' -> reach (S n) s'.

(** *** The invariant of the agent *)
Lemma written_suffix h1 h2 : h1 `suffix_of` h2 -> written h1 ⊆ written h2.
Proof. intros [l ->]. induction l as [|d l IH]; cbn; [done | set_solver]. Qed.

Lemma dir_ok_mono T T' d : T <= T' -> dir_ok T d -> dir_ok T' d.
Proof. intros HT [Hs Hc]. split; [done|]. destruct Hc as [|(n & ? & ?)]; [by left | right; exists n; split; [done | lia]]. Qed.

Lemma history_ok_mono K K' T T' h : K ⊆ K' -> T <= T' -> history_ok K T h -> history_ok K' T' h.
Proof.
  intros HK HT. induction h as [|d h IH]; [done|]. intros (Hl & Hd & Hh).
  split_and!; [|by eapply dir_ok_mono | by apply IH].
  assert (lost K' d (d :: h) ⊆ lost K d (d :: h)) as Hs%subseteq_size by (unfold lost; set_solver). lia.
Qed.

Lemma history_ok_suffix K T h1 h2 : h1 `suffix_of` h2 -> history_ok K T h2 -> history_ok K T h1.
Proof. intros [l ->]. induction l as [|d l IH]; [done|]. intros (_ & _ & H). auto. Qed.

Lemma Down_mono K K' U U' T T' st :
  K ⊆ K' -> U ⊆ U' -> T <= T' -> Down K U T st -> Down K' U' T' st.
Proof. intros HK HU HT [Hn Hh Hw]. constructor; [done | by eapply history_ok_mono | set_solver]. Qed.

Lemma Live_mono K K' U U' T T' st :
  K ⊆ K' -> U ⊆ U' -> T <= T' -> Live K U T st -> Live K' U' T' st.
Proof.
  intros HK HU HT [[Hn Hh Hl Hc Hq Hw] Hs]. split; [|done]. constructor; try done; [by eapply history_ok_mono | |set_solver].
  assert (lost K' (files st) (seen st) ⊆ lost K (files st) (seen st)) as Hsub%subseteq_size by (unfold lost; set_solver). lia.
Qed.

Lemma blind_Live K U T : blind (Live K U T).
Proof. intros st l [HI Hs]. split; [by apply blind_Inv | done]. Qed.

(** The counter grows by at most one per sample and operation. *)
Definition cap (n : nat) : Z := Z.of_nat n * Z.of_nat n.
Definition max_steps : Z := 2 ^ 31.

Lemma cap_bounds n : Z.of_nat n <= max_steps -> 0 <= cap n < uint64_mod /\ cap n + Z.of_nat n + 1 <= cap (S n).
Proof.
  unfold cap, max_steps, uint64_mod. intros H. assert (Z.of_nat n * Z.of_nat n <= 2 ^ 31 * 2 ^ 31) by nia. nia.
Qed.

Record sysinv (n : nat) (s : sys) : Prop := {
  si_offered : (size (offered s) <= n)%nat;
  si_accepted : accepted s ⊆ written (seen (disk s));
  si_state : if running s then Live (delivered s) (offered s) (cap n) (disk s)
             else Down (delivered s) (offered s) (cap n) (disk s)
}.

Lemma sysinv_down n s : sysinv n s -> Down (delivered s) (offered s) (cap n) (disk s).
Proof. intros [_ _ H]. destruct (running s); [by apply Live_Down | done]. Qed.

Lemma offer_subset o u : u ⊆ offer o u.
Proof. destruct o; cbn; set_solver. Qed.

Lemma offer_size o u : (size (offer o u) <= size u + 1)%nat.
Proof.
  apply (size_add_le _ _ (match o with OAdd _ _ s => sample_name (ID s) | _ => "" end)). destruct o; cbn; set_solver.
Qed.

(** Every operation of an open outbox keeps the invariant, whatever the outcomes of
    its system calls. *)
Lemma spec_live_op K U T q o :
  0 <= T < uint64_mod -> dropped q + Z.of_nat (List.length (entries q)) + 1 <= T ->
  StronglySorted time_le (entries q) -> age q = MaxAge -> enabled o true = true -> honest o K -> offer o ∅ ⊆ U ->
  spec (at_q K U T 0 q) (run_op o) (fun _ => Live K U T) (Live K U T).
Proof.
  intros HT Hle Hs Ha Hen Hh HU. destruct o as [now|now1 now2 s|now|ids|ids]; cbn in *; [done| | | |].
  - eapply spec_conseq; [apply (spec_Add K U T q now1 now2 s); try done; set_solver | done | by intros ? ? [] | done].
  - eapply (spec_bind _ _ (fun _ => Live K U T)); [|by intros; apply spec_ret].
    eapply spec_conseq; [apply (spec_Batch K U T q now); try done; lia | done | by intros ? ? [] | done].
  - eapply spec_conseq; [by apply (spec_Ack K U T q ids) | done | by intros ? ? [[]] | by intros ? []].
  - eapply spec_conseq; [apply (spec_Reject K U T q ids); try done; lia | done | by intros ? ? [] | by intros ? []].
Qed.

Lemma run_live n s o l st' r :
  Z.of_nat (S n) <= max_steps -> sysinv n s -> running s = true -> enabled o true = true -> honest o (delivered s) ->
  run_op o (with_ios l (disk s)) = (st', r) -> Live (delivered s) (offer o (offered s)) (cap (S n)) st'.
Proof.
  intros Hn [Hof _ HL] Hr Hen Hh Hrun. rewrite Hr in HL.
  destruct (cap_bounds n ltac:(lia)) as [HT Hroom]. destruct (cap_bounds (S n) Hn) as [HT' _].
  pose proof (dropped_room _ _ _ _ _ HT (proj1 HL)) as Hd. pose proof (queue_room _ _ _ _ _ (proj1 HL)) as Hq.
  apply (blind_Live _ _ _ _ l) in HL.
  apply (Live_mono _ (delivered s) _ (offer o (offered s)) _ (cap (S n))) in HL; [|done | apply offer_subset | lia].
  pose proof (spec_live_op (delivered s) (offer o (offered s)) (cap (S n)) (queue (disk s)) o HT' ltac:(lia) (proj2 HL)
    ltac:(apply (qo_limits _ _ (inv_queue _ _ _ _ _ (proj1 HL)))) Hen Hh ltac:(destruct o; cbn; set_solver)
    _ (Live_at _ _ _ _ HL)) as H.
  change (mkState (files (disk s)) l (seen (disk s)) (queue (disk s))) with (with_ios l (disk s)) in H.
  rewrite Hrun in H. by destruct r.
Qed.

Lemma run_open n s now l st' r :
  Z.of_nat (S n) <= max_steps -> sysinv n s -> OpenSpool now (with_ios l (disk s)) = (st', r) ->
  match r with
  | Ok _ => Live (delivered s) (offered s) (cap (S n)) st' /\
            opened now (counter (files (disk s))) (sample_files (files (disk s))) (queue st')
  | Err _ => Down (delivered s) (offered s) (cap (S n)) st'
  end.
Proof.
  intros Hn Hinv Hrun. pose proof (si_offered _ _ Hinv) as Hof.
  destruct (cap_bounds n ltac:(lia)) as [HT Hroom]. destruct (cap_bounds (S n) Hn) as [HT' _].
  pose proof (sysinv_down _ _ Hinv) as HD. pose proof (counter_le (cap n) _ (proj1 (Down_dir_ok _ _ _ _ HD)) HT) as Hc.
  apply (blind_Down _ _ _ _ l) in HD.
  apply (Down_mono _ (delivered s) _ (offered s) _ (cap (S n))) in HD; [|done | done | lia].
  pose proof (spec_OpenSpool (delivered s) (offered s) (cap (S n)) (counter (files (disk s))) (sample_files (files (disk s))) now HT' ltac:(lia)
    _ (conj HD (conj eq_refl eq_refl))) as H.
  change (mkState (files (disk s)) l (seen (disk s)) (queue (disk s))) with (with_ios l (disk s)) in H.
  rewrite Hrun in H. by destruct r as [[]|].
Qed.

Lemma run_down n s o l st' r :
  Z.of_nat (S n) <= max_steps -> sysinv n s -> enabled o (running s) = true -> honest o (delivered s) ->
  run_op o (with_ios l (disk s)) = (st', r) ->
  Down (delivered s) (offer o (offered s)) (cap (S n)) st' /\
  (alive o r = true -> Live (delivered s) (offer o (offered s)) (cap (S n)) st').
Proof.
  intros Hn Hinv Hen Hh Hrun. destruct (decide (enabled o true = true)) as [Ho|Ho].
  - assert (running s = true) as Hr by (destruct o; done).
    pose proof (run_live _ _ _ _ _ _ Hn Hinv Hr Ho Hh Hrun) as HL. split; [by apply Live_Down | done].
  - destruct o as [now| | | |]; try done. cbn [run_op] in Hrun.
    pose proof (run_open _ _ _ _ _ _ Hn Hinv Hrun) as H. destruct r as [[]|e]; cbn.
    + split; [apply Live_Down, H | intros _; apply H].
    + by split.
Qed.

(** A sample [Add] accepted was written to its file. *)
Lemma Add_written K U T st now1 now2 s st' :
  Live K U T st -> sample_name (ID s) ∈ U -> Add now1 now2 s st = (st', Ok tt) -> sample_name (ID s) ∈ written (seen st').
Proof.
  intros HL HU Hrun. unfold Add in Hrun.
  destruct (Sample_Validate now1 s) as [[]|] eqn:Ev; [|done]. apply Sample_Validate_ok in Ev as [Hc _].
  destruct (Marshal s) as [b|] eqn:Em; [|done]. destruct (_ <? len b) eqn:El; [done|]. bools.
  unfold mbind, M_bind, get_queue in Hrun. destruct (existsb _ _); [done|].
  pose proof (spec_write_sample K U T 0 (queue st) s b ltac:(lia) Hc Em El HU st (Live_at _ _ _ _ HL)) as Hw.
  destruct (writeAtomic _ _ st) as [st1 [[]|]]; [|done]. destruct Hw as [_ Hw].
  cbn [set_queue] in Hrun. eapply written_suffix; [|exact Hw].
  pose proof (grows_pruneLocked now2 (set_queue (mkSpool (sort_entries (entries (queue st) ++ [mkEntry s (len b)]))
    (wrap64 (bytes (queue st) + len b)) (dropped (queue st)) (limit (queue st)) (age (queue st))) st1).1) as Hg.
  unfold set_queue in *. cbn [fst] in Hg. rewrite Hrun in Hg. exact Hg.
Qed.

Lemma sysinv_step n s s' : Z.of_nat (S n) <= max_steps -> sysinv n s -> step s s' -> sysinv (S n) s'.
Proof.
  intros Hn Hinv Hstep. pose proof (cap_bounds n ltac:(lia)) as [_ Hcap]. pose proof (si_accepted _ _ Hinv) as Hacc.
  pose proof (si_offered _ _ Hinv) as Hof.
  destruct Hstep as [o s s' Hh [l st' r Hen Hrun|l st' r d older newer Hen Hrun Hseen Hsuf]|k s Hk].
  - pose proof (run_down _ _ _ _ _ _ Hn Hinv Hen Hh Hrun) as [HD HL].
    pose proof (grows_run_op o (with_ios l (disk s))) as Hg. rewrite Hrun in Hg. cbn in Hg.
    pose proof (written_suffix _ _ Hg) as Hw. split; cbn [offered accepted disk running delivered].
    + pose proof (offer_size o (offered s)). lia.
    + destruct o as [|now1 now2 smp| | |], r as [[]|]; cbn [accept]; try set_solver. cbn [run_op enabled] in *.
      pose proof (si_state _ _ Hinv) as HL0. rewrite Hen in HL0. apply (blind_Live _ _ _ _ l) in HL0.
      apply (Live_mono _ (delivered s) _ (offer (OAdd now1 now2 smp) (offered s)) _ (cap n)) in HL0;
        [|done | apply offer_subset | done].
      apply (Add_written _ _ _ _ _ _ _ _ HL0) in Hrun; [set_solver | cbn; set_solver].
    + destruct (alive o r); auto.
  - pose proof (run_down _ _ _ _ _ _ Hn Hinv Hen Hh Hrun) as [[_ Hhis Hwith] _].
    assert (d :: older `suffix_of` seen st') as Hs by (exists newer; exact Hseen).
    split; cbn [offered accepted disk running delivered].
    + pose proof (offer_size o (offered s)). lia.
    + cbn [seen]. pose proof (written_suffix _ _ Hsuf). set_solver.
    + constructor; cbn [seen files]; [by eexists | by eapply history_ok_suffix|].
      pose proof (written_suffix _ _ Hs). set_solver.
  - split; cbn [deliver offered accepted disk running delivered]; [lia | done|].
    pose proof (si_state _ _ Hinv) as HS. destruct (running s); [eapply Live_mono | eapply Down_mono]; try exact HS; done || lia.
Qed.

Lemma reach_inv n s : Z.of_nat n <= max_steps -> reach n s -> sysinv n s.
Proof.
  intros Hn Hr. induction Hr as [d q Hd Hc|n s s' Hr IH Hstep].
  - assert (written [d] = ∅) as Hw by (cbn; set_solver). split; cbn [offered accepted running delivered]; [by rewrite size_empty | set_solver|].
    constructor; cbn [seen files disk]; [by eexists | | set_solver].
    split_and!; [|split|done].
    + unfold lost. rewrite Hw. assert (∅ ∖ sample_files d ∖ ∅ = (∅ : gset string)) as -> by set_solver.
      unfold counter. by rewrite Hc.
    + intros name nd Hn' Hf. assert (name ∈ sample_files d) as Hin by (rewrite elem_of_sample_files; eauto).
      rewrite Hd in Hin. set_solver.
    + by left.
  - apply (sysinv_step n s); try done. apply IH. lia.
Qed.

(** C6: The outbox never loses a sample silently.  From an empty directory, after any
    sequence of openings, additions, batches, acknowledgements and rejections, with any
    system call failing and the process stopping between any two file operations, the
    samples [Add] accepted that are neither on disk nor delivered to the Hub are at
    most as many as the loss counter in the directory says. *)
Theorem outbox_accounts_for_every_sample n s :
  reach n s -> Z.of_nat n <= max_steps ->
  Z.of_nat (size (accepted s ∖ sample_files (files (disk s)) ∖ delivered s)) <= counter (files (disk s)).
Proof.
  intros Hr Hn. pose proof (reach_inv _ _ Hn Hr) as Hinv.
  destruct (Down_dir_ok _ _ _ _ (sysinv_down _ _ Hinv)) as [_ Hl].
  pose proof (si_accepted _ _ Hinv) as Ha.
  assert (accepted s ∖ sample_files (files (disk s)) ∖ delivered s ⊆ lost (delivered s) (files (disk s)) (seen (disk s)))
    as Hs%subseteq_size by (unfold lost; set_solver). lia.
Qed.

(** ** Without failing system calls *)
Definition calm {A} (m : M A) : Prop :=
  forall st, ios st = [] -> exists st' a, m st = (st', Ok a) /\ ios st' = [].

Lemma calm_ret {A} (a : A) : calm (mret a).
Proof. intros st Hs. by exists st, a. Qed.
Lemma calm_bind {A B} (m : M A) (k : A -> M B) : calm m -> (forall a, calm (k a)) -> calm (m ≫= k).
Proof.
  intros Hm Hk st Hs. destruct (Hm st Hs) as (st1 & a & E & Hs1). destruct (Hk a st1 Hs1) as (st2 & b & E2 & Hs2).
  exists st2, b. unfold mbind, M_bind. by rewrite E.
Qed.
Lemma calm_get_queue : calm get_queue.
Proof. intros st Hs. by eexists st, _. Qed.
Lemma calm_get_files : calm get_files.
Proof. intros st Hs. by eexists st, _. Qed.
Lemma calm_set_queue q : calm (set_queue q).
Proof. intros st Hs. by eexists _, tt. Qed.
Lemma calm_set_files d : calm (set_files d).
Proof. intros st Hs. by eexists _, tt. Qed.
(** Drawing gives the good outcome. *)
Lemma calm_draw {B} (k : io -> M B) : calm (k (mkIo Good "")) -> calm (draw ≫= k).
Proof. intros Hk st Hs. unfold mbind, M_bind, draw. rewrite Hs. by apply Hk. Qed.
#[local] Hint Resolve calm_ret calm_get_queue calm_get_files calm_set_queue calm_set_files : talus.

Local Ltac calm := repeat first
  [ solve [auto with talus] | apply calm_draw; cbn [outcome suffix] | apply calm_bind; [|intros ?]
  | progress intros | progress unfold put, unlink | case_match ].

Lemma calm_sync : calm syncDirectory.
Proof. unfold syncDirectory. calm. Qed.
Lemma calm_Remove name : calm (Remove name).
Proof. unfold Remove. calm. Qed.
Lemma calm_writeAtomic path b : calm (writeAtomic path b).
Proof. unfold writeAtomic. calm. Qed.
#[local] Hint Resolve calm_sync calm_Remove calm_writeAtomic : talus.
Lemma calm_prune_loop cutoff es : calm (prune_loop cutoff es).
Proof. induction es; cbn [prune_loop]; calm. Qed.
#[local] Hint Resolve calm_prune_loop : talus.
Lemma calm_pruneLocked now : calm (pruneLocked now).
Proof. unfold pruneLocked. calm. Qed.
Lemma calm_take_lock : calm take_lock.
Proof. unfold take_lock. calm. Qed.

Lemma calm_load_files l :
  (forall name nd, (name, nd) ∈ l -> is_sample_file name = true -> good_file name nd) -> calm (load_files l).
Proof.
  induction l as [|[name nd] l IH]; intros Hg; cbn [load_files]; [calm|].
  assert (calm (load_files l)) as Hl by (apply IH; intros; apply Hg; [by apply elem_of_cons; right | done]).
  destruct (HasPrefix pending_prefix name) eqn:Ep; [calm|].
  destruct (HasSuffix ".sample" name) eqn:Es; cbn [negb]; [|done].
  destruct (Hg name nd) as (b & s & -> & Hlen & Hu & Hn & Hid & _); [by apply elem_of_cons; left | unfold is_sample_file; by rewrite Ep, Es|].
  apply calm_draw. cbn [outcome]. assert ((Z.shiftl 32 10 <? len b) = false) as -> by by apply Z.ltb_ge.
  rewrite Hu. rewrite Hid, (bool_decide_eq_true_2 _ Hn). cbn [Z.eqb Pos.eqb andb]. calm.
Qed.

Lemma OpenSpool_calm K U T st now :
  Down K U T st -> T < uint64_mod -> ios st = [] -> exists st', OpenSpool now st = (st', Ok tt).
Proof.
  intros HD HT Hios. unfold OpenSpool, mbind at 1, M_bind at 1.
  destruct (calm_take_lock st Hios) as (st1 & [] & E1 & Hios1). rewrite E1.
  pose proof (spec_take_lock K U T _ _ st (conj HD (conj eq_refl eq_refl))) as H1. rewrite E1 in H1.
  destruct H1 as (HD1 & _ & _). destruct (Down_dir_ok _ _ _ _ HD1) as [[Hg Hc] _].
  unfold mbind at 1, M_bind at 1.
  assert (exists n, read_counter st1 = (st1, Ok n)) as [n E2].
  { unfold read_counter, mbind, M_bind, get_files, draw. destruct Hc as [Hc|(n & Hc & Hn)]; rewrite Hc; [by eexists|].
    rewrite Hios1. cbn [outcome]. rewrite codec_uint by lia. by eexists. }
  rewrite E2. unfold mbind at 1, M_bind at 1, set_queue at 1.
  unfold mbind at 1, M_bind at 1, draw at 1. cbn [ios]. rewrite Hios1. cbn [outcome].
  unfold mbind at 1, M_bind at 1, get_files at 1. cbn [files].
  match goal with |- exists st', (?m ≫= ?k) ?s = _ => assert (calm (m ≫= k)) as Hcalm end.
  { apply calm_bind; [apply calm_load_files | intros []].
    - intros name nd Hin Hn. apply elem_of_map_to_list in Hin. by apply Hg.
    - apply calm_bind; [calm|]. intros q. apply calm_bind; [calm|]. intros []. apply calm_pruneLocked. }
  destruct (Hcalm (mkState (files st1) (ios st1) (seen st1) (mkSpool [] 0 n MaxQueueBytes MaxAge)) Hios1)
    as (st' & [] & E & _). exists st'. rewrite Hios1 in E. exact E.
Qed.

(** ** What a successful operation leaves *)
Definition within_limits (now : time) (q : Spool) : Prop :=
  total (entries q) <= MaxQueueBytes /\ Forall (fun e => now - 24 * Hour <= Time (sample e)) (entries q).

Lemma total_bound es : Forall entry_ok es -> 0 <= total es <= 32768 * Z.of_nat (List.length es).
Proof.
  induction 1 as [|e es [_ [_ He]] _ IH]; [done|]. change (total (e :: es)) with (esize e + total es).
  cbn [List.length]. change (Z.shiftl 32 10) with 32768 in He. lia.
Qed.

Lemma total_no_wrap W q :
  queue_ok W q -> Z.of_nat (List.length (entries q)) <= max_steps -> wrap64 (total (entries q)) = total (entries q).
Proof.
  intros Hq Hl. pose proof (total_bound _ (qo_entries _ _ Hq)). apply wrap64_id.
  unfold in_int64, int64_min, int64_max, max_steps in *. lia.
Qed.

Lemma settled_limits W now q :
  queue_ok W q -> StronglySorted time_le (entries q) -> Z.of_nat (List.length (entries q)) <= max_steps ->
  settled (TimeAdd now (- MaxAge)) q -> within_limits now q.
Proof.
  intros Hq Hs Hl Hse. pose proof (total_no_wrap _ _ Hq Hl) as Hw. unfold settled, within_limits in *.
  pose proof (qo_bytes _ _ Hq) as Hb. pose proof (qo_limits _ _ Hq) as [Hlim _].
  destruct (entries q) as [|e es]; [split; [done | constructor]|]. destruct Hse as [Hby Ht].
  split; [congruence|]. unfold TimeAdd, MaxAge in Ht. apply StronglySorted_cons in Hs as [Hf _].
  constructor; [lia|]. eapply Forall_impl; [exact Hf|]. unfold time_le. intros e' He. lia.
Qed.

(** C7: Recovery.  After any history of operations and crashes, starting the agent when
    the file system works succeeds and brings back every sample file: each is in the
    queue, or was given up because the queue exceeds 64 MiB or the sample is older than
    24 hours; the ones given up are the oldest and are counted exactly. *)
Theorem restart_recovers_outbox n s now :
  reach n s -> Z.of_nat (S n) <= max_steps -> running s = false ->
  exists st', OpenSpool now (with_ios [] (disk s)) = (st', Ok tt) /\
  exists old, let q := queue st' in
    names (old ++ entries q) ≡ₚ elements (sample_files (files (disk s))) /\
    StronglySorted time_le (old ++ entries q) /\
    dropped q = counter (files (disk s)) + Z.of_nat (List.length old) /\
    within_limits now q /\
    forall older e newer, old = older ++ e :: newer ->
      MaxQueueBytes < total (e :: newer ++ entries q) \/ Time (sample e) < now - 24 * Hour.
Proof.
  intros Hr Hn Hrun. pose proof (reach_inv n s ltac:(lia) Hr) as Hinv.
  pose proof (sysinv_down _ _ Hinv) as HD. apply (blind_Down _ _ _ _ []) in HD.
  destruct (cap_bounds n ltac:(lia)) as [HT _].
  destruct (OpenSpool_calm _ _ _ _ now HD ltac:(lia) eq_refl) as [st' E]. exists st'. split; [exact E|].
  change (mkState (files (disk s)) [] (seen (disk s)) (queue (disk s))) with (with_ios [] (disk s)) in E.
  destruct (run_open _ _ _ _ _ _ Hn Hinv E) as [[HI Hs] (q1 & Hnm & Hd & Hs1 & Hok1 & Hlim & k & Hk & He & Hdr & Hse & Hmin)].
  pose proof (inv_queue _ _ _ _ _ HI) as Hq. pose proof (queue_room _ _ _ _ _ HI) as Hroom.
  pose proof (si_offered _ _ Hinv) as Hof.
  assert (Z.of_nat (List.length (entries q1)) <= max_steps) as Hq1.
  { assert (List.length (names (entries q1)) = size (sample_files (files (disk s)))) as Hlen by by rewrite Hnm.
    unfold names in Hlen. rewrite length_fmap in Hlen.
    assert (sample_files (files (disk s)) ⊆ offered s) as Hsub%subseteq_size; [|lia].
    destruct HD as [[older Ho] _ Hw]. cbn in Ho, Hw. rewrite Ho in Hw. cbn in Hw. set_solver. }
  exists (take k (entries q1)). cbn zeta. rewrite He, take_drop, length_take_le by done.
  split_and!; [done | done | lia | eapply settled_limits; [done | done | lia | done]|].
  intros older e newer Hold. specialize (Hmin (List.length older) e).
  assert (drop (List.length older) (entries q1) = e :: newer ++ drop k (entries q1)) as Hdrop.
  { rewrite <-(take_drop k (entries q1)) at 1. rewrite Hold, <-app_assoc. cbn. by rewrite drop_app_length. }
  assert (List.length older < k)%nat as Hlt.
  { apply (f_equal List.length) in Hold. rewrite length_take_le, length_app in Hold by done. cbn in Hold. lia. }
  assert (entries q1 !! List.length older = Some e) as Hlk.
  { rewrite <-(Nat.add_0_r (List.length older)), <-lookup_drop, Hdrop. done. }
  destruct (Hmin Hlt Hlk) as [Hbig|Hold']; [left|right; unfold TimeAdd, MaxAge in Hold'; lia].
  rewrite Hlim, Hdrop in Hbig. rewrite wrap64_id in Hbig; [done|].
  assert (e :: newer ++ drop k (entries q1) `sublist_of` entries q1) as Hsub by (rewrite <-Hdrop; apply sublist_drop).
  pose proof (sublist_length _ _ Hsub). pose proof (total_bound _ (Forall_sublist _ _ _ Hsub Hok1)).
  unfold in_int64, int64_min, int64_max, max_steps in *. lia.
Qed.

Lemma batch_of_snoc xs e : batch_of (xs ++ [e]) = sample e :: (sample <$> take 31 xs).
Proof.
  unfold batch_of. rewrite last_snoc, length_app. cbn [List.length].
  rewrite Nat.add_sub, take_app_length. done.
Qed.

Definition older_than (s : Sample) (e : queueEntry) : Prop := Time s <= Time (sample e).

Lemma batch_of_order es :
  StronglySorted time_le es ->
  match batch_of es with
  | [] => es = []
  | newest :: rest =>
      Forall (fun e => Time (sample e) <= Time newest) es /\
      forall e, e ∈ es -> sample e ∉ batch_of es -> Forall (fun s => older_than s e) rest
  end.
Proof.
  intros Hs. destruct (decide (es = [])) as [->|Hne]; [done|].
  destruct (exists_last Hne) as (xs & e & ->). rewrite !batch_of_snoc.
  apply StronglySorted_app in Hs as (Hcross & Hxs & _). split.
  - apply Forall_app. split; [|by constructor]. apply Forall_forall. intros x Hx. apply (Hcross x e); set_solver.
  - intros e' He' Hnot. apply Forall_forall. intros s' Hs'. apply list_elem_of_fmap in Hs' as (x & -> & Hx).
    apply elem_of_app in He' as [He'|He']; [|set_solver].
    rewrite <-(take_drop 31 xs) in He', Hxs. apply elem_of_app in He' as [He'|He'].
    + exfalso. apply Hnot, elem_of_cons. right. apply list_elem_of_fmap. eauto.
    + by apply (StronglySorted_app_1_elem_of time_le _ _ x e' Hxs).
Qed.

Lemma batch_of_length es : List.length (batch_of es) = Nat.min 32 (List.length es).
Proof.
  destruct (decide (es = [])) as [->|Hne]; [done|]. destruct (exists_last Hne) as (xs & e & ->).
  rewrite batch_of_snoc, length_app. cbn [List.length]. rewrite length_fmap, length_take. lia.
Qed.

Lemma batch_of_sublist es : batch_of es ⊆+ (sample <$> es).
Proof.
  destruct (decide (es = [])) as [->|Hne]; [done|]. destruct (exists_last Hne) as (xs & e & ->).
  rewrite batch_of_snoc, fmap_app. cbn. rewrite (Permutation_app_comm (sample <$> xs)). cbn.
  apply submseteq_skip, sublist_submseteq, fmap_sublist, sublist_take.
Qed.

(** A batch respects the limits and sends the newest sample first.  In every reachable
    state, a successful [Batch] leaves a queue within 64 MiB and 24 hours and returns
    at most 32 of its samples without repetition: first the newest, then the oldest
    ones, so that what is left is no older than what is sent; it is empty only when
    the queue is. *)
Theorem batch_newest_then_oldest n s l st' b now :
  reach n s -> Z.of_nat (S n) <= max_steps -> running s = true ->
  Batch now (with_ios l (disk s)) = (st', Ok b) ->
  let q := queue st' in
  within_limits now q /\ List.length b = Nat.min 32 (List.length (entries q)) /\
  NoDup (ID <$> b) /\ b ⊆+ (sample <$> entries q) /\
  match b with
  | [] => entries q = []
  | newest :: rest =>
      Forall (fun e => Time (sample e) <= Time newest) (entries q) /\
      forall e, e ∈ entries q -> sample e ∉ b -> Forall (fun s => older_than s e) rest
  end.
Proof.
  intros Hr Hn Hrun HB q. pose proof (reach_inv n s ltac:(lia) Hr) as Hinv.
  destruct (cap_bounds n ltac:(lia)) as [HT Hroom]. destruct (cap_bounds (S n) Hn) as [HT' _].
  pose proof (si_state _ _ Hinv) as HL. rewrite Hrun in HL. pose proof (si_offered _ _ Hinv) as Hof.
  pose proof (dropped_room _ _ _ _ _ HT (proj1 HL)) as Hd. pose proof (queue_room _ _ _ _ _ (proj1 HL)) as Hq.
  apply (blind_Live _ _ _ _ l) in HL.
  apply (Live_mono _ (delivered s) _ (offered s) _ (cap (S n))) in HL; [|done | done | lia].
  pose proof (spec_Batch (delivered s) (offered s) (cap (S n)) (queue (disk s)) now HT' ltac:(lia) (proj2 HL)
    ltac:(apply (qo_limits _ _ (inv_queue _ _ _ _ _ (proj1 HL)))) _ (Live_at _ _ _ _ HL)) as H.
  change (mkState (files (disk s)) l (seen (disk s)) (queue (disk s))) with (with_ios l (disk s)) in H.
  rewrite HB in H. destruct H as ([HI Hs] & (k & _ & _ & _ & Hse & _) & ->). fold q in HI, Hs, Hse |- *.
  pose proof (inv_queue _ _ _ _ _ HI) as Hqok. fold q in Hqok.
  pose proof (queue_room _ _ _ _ _ HI) as Hroom'. fold q in Hroom'.
  split_and!; [eapply settled_limits; [done | done | lia | done] | apply batch_of_length | | apply batch_of_sublist | by apply batch_of_order].
  assert (NoDup (ID <$> (sample <$> entries q))) as Hnd.
  { pose proof (qo_nodup _ _ Hqok) as Hnd. unfold names in Hnd.
    rewrite (list_fmap_compose (fun e => ID (sample e)) sample_name) in Hnd. apply NoDup_fmap_1 in Hnd.
    by rewrite <-list_fmap_compose. }
  destruct (submseteq_Permutation _ _ (batch_of_sublist (entries q))) as [rest Hp].
  rewrite Hp, fmap_app in Hnd. by apply NoDup_app in Hnd as [? _].
Qed.
End Outbox.

(** ** A concrete outbox *)

#[global] Instance time_le_dec a b : Decision (time_le a b).
Proof. unfold time_le. apply _. Defined.
#[global] Instance time_le_total : Total time_le.
Proof. intros a b. unfold time_le. lia. Qed.
#[global] Instance time_le_trans : Transitive time_le.
Proof. intros a b c. unfold time_le. lia. Qed.

#[global, refine] Instance merge_slice : SortSlice := {| sort_entries := merge_sort time_le |}.
Proof.
  - intros l. apply merge_sort_Permutation.
  - intros l. apply StronglySorted_merge_sort; apply _.
Defined.

Definition bare_sample (id : string) (t : time) : Sample :=
  mkSample id "boot" t None None None None None None None None None None None None None None None None None None ∅.

Lemma hex_no_colon s : all_bytes is_hex_digit s = true -> contains_byte ":" s = false.
Proof.
  induction s as [|a s IH]; [done|]. cbn [all_bytes contains_byte]. intros [Ha Hs]%andb_true_iff. rewrite IH by done.
  by destruct a as [[] [] [] [] [] [] [] []].
Qed.

(** An encoding that keeps the identifier and the time. *)
#[global, refine] Instance plain_codec : SampleCodec := {|
  Marshal s := if 0 <=? Time s then Some (ID s +:+ String ":" (FormatUint (Time s))) else None;
  Unmarshal b := match cut_first ":" b with
                 | Some (id, t) => bare_sample id <$> ParseUint t
                 | None => None
                 end;
  UnmarshalUint := ParseUint
|}.
Proof.
  - intros s b Hc Hm. case_match eqn:Ht; [|done]. bools. simplify_eq. destruct (content_id s Hc) as [_ Hh].
    rewrite cut_first_app by by apply hex_no_colon. rewrite ParseFormat by done. by eexists.
  - intros n Hn. apply ParseFormat. lia.
Defined.

Definition exec (o : op) (l : list io) (s : sys) : sys :=
  let '(st', r) := run_op o (with_ios l (disk s)) in
  mkSys st' (alive o r) (accept o r (accepted s)) (delivered s) (offer o (offered s)).

Definition crash_after (o : op) (l : list io) (s : sys) : sys :=
  let '(st', r) := run_op o (with_ios l (disk s)) in
  mkSys (mkState (files st') [] (seen st') (queue st')) false (accepted s) (delivered s) (offer o (offered s)).

Lemma reach_exec n s o l :
  reach n s -> enabled o (running s) = true -> honest o (delivered s) -> reach (S n) (exec o l s).
Proof.
  intros Hr He Hh. eapply reach_step; [exact Hr|]. unfold exec. destruct (run_op o _) as [st' r] eqn:E.
  apply (step_run o); [done|]. by eapply runs_done.
Qed.

Lemma reach_crash_after n s o l :
  reach n s -> Z.of_nat (S n) <= max_steps -> enabled o (running s) = true -> honest o (delivered s) ->
  reach (S n) (crash_after o l s).
Proof.
  intros Hr Hn He Hh. eapply reach_step; [exact Hr|]. unfold crash_after. destruct (run_op o _) as [st' r] eqn:E.
  destruct (run_down n s o l st' r Hn (reach_inv n s ltac:(lia) Hr) He Hh E) as [[[older Ho] _ _] _].
  pose proof (grows_run_op o (with_ios l (disk s))) as Hg. rewrite E in Hg. cbn [fst seen with_ios] in Hg.
  rewrite Ho. apply (step_run o); [done|].
  apply (runs_crash o s l st' r (files st') older []); [done | exact E | exact Ho | by rewrite <-Ho].
Qed.

Definition demo_id (n : nat) : string := "0123456789abcdef0123456789abcd" +:+ FormatUint (Z.of_nat n + 10).
Definition demo_sample (n : nat) (t : time) : Sample := bare_sample (demo_id n) t.

Definition demo_start : sys := mkSys (mkState ∅ [] [∅] (mkSpool [] 0 0 0 0)) false ∅ ∅ ∅.
Definition demo_open : sys := exec (OOpen (100 * Hour)) [] demo_start.
(** Two samples are added. *)
Definition demo_two : sys :=
  exec (OAdd (100 * Hour) (100 * Hour) (demo_sample 2 (99 * Hour))) []
    (exec (OAdd (100 * Hour) (100 * Hour) (demo_sample 1 (98 * Hour))) [] demo_open).
(** A day later pruning gives both up; the process stops right after. *)
Definition demo_crash : sys := crash_after (OBatch (122 * Hour + 1)) [] demo_two.

Lemma demo_two_reach : reach 3 demo_two.
Proof.
  apply reach_exec; [|by vm_compute | done]. apply reach_exec; [|by vm_compute | done].
  apply reach_exec; [|done | done]. by constructor.
Qed.

Lemma demo_crash_reach : reach 4 demo_crash.
Proof. apply reach_crash_after; [exact demo_two_reach | done | by vm_compute | done]. Qed.

Lemma outbox_accounts_for_every_sample_witness :
  reach 4 demo_crash /\ counter (files (disk demo_crash)) = 1 /\
  Z.of_nat (size (accepted demo_crash ∖ sample_files (files (disk demo_crash)) ∖ delivered demo_crash)) <=
    counter (files (disk demo_crash)).
Proof.
  split; [apply demo_crash_reach|]. split; [vm_compute; reflexivity|].
  apply (outbox_accounts_for_every_sample 4 demo_crash); [apply demo_crash_reach | done].
Defined.

Lemma restart_recovers_outbox_witness :
  running demo_crash = false /\ exists st', OpenSpool (122 * Hour) (with_ios [] (disk demo_crash)) = (st', Ok tt).
Proof.
  split; [vm_compute; reflexivity|].
  destruct (restart_recovers_outbox 4 demo_crash (122 * Hour)) as (st' & E & _);
    [apply demo_crash_reach | done | vm_compute; reflexivity | exists st'; exact E].
Defined.

Lemma batch_newest_then_oldest_witness :
  let st' := (Batch (100 * Hour) (with_ios [] (disk demo_two))).1 in
  let b := [demo_sample 2 (99 * Hour); demo_sample 1 (98 * Hour)] in
  Batch (100 * Hour) (with_ios [] (disk demo_two)) = (st', Ok b) /\
  within_limits (100 * Hour) (queue st') /\ List.length b = 2%nat.
Proof.
  cbv zeta. assert ((Batch (100 * Hour) (with_ios [] (disk demo_two))).2 =
    Ok [demo_sample 2 (99 * Hour); demo_sample 1 (98 * Hour)]) as E by (vm_compute; reflexivity).
  destruct (Batch (100 * Hour) (with_ios [] (disk demo_two))) as [st' r] eqn:EB. cbn [fst snd] in *. subst r.
  split; [done|]. split; [|done].
  apply (batch_newest_then_oldest 3 demo_two [] st' [demo_sample 2 (99 * Hour); demo_sample 1 (98 * Hour)] (100 * Hour));
    [apply demo_two_reach | done | vm_compute; reflexivity | exact EB].
Defined.
