(* ===== verification/Hub.v ===== *)
(** * The Hub's side of resident monitoring

    [internal/service/resident_monitor.go] keeps the presence of the agents and
    receives their messages; [internal/repository/agent_node.go] stores the samples
    with one receipt per sample.  [receive] releases the monitor's lock while it
    writes, so it is two functions on the monitor with the database step between
    them; the step relation at the end interleaves the requests of many agents. *)

From S2P Require Import Prelude GoStrings Wire.

(** ** The database *)

(** The columns of an agent's node the monitor reads. *)
Record AgentNode := mkNode {
  ServerID : Z; TokenHash : string; NodeLastContact : option time; NodeLastPersisted : option time;
  Deployment : string; DeployError : string; ConfigHash : string
}.

(** [model.Metric]. *)
Record Metric := mkMetric {
  MTime : time; MServerID : Z; MBootID : string; MCPUPercent : option spec_float;
  MMemoryUsed : option Z; MMemoryTotal : option Z; MSwapUsed : option Z; MSwapTotal : option Z;
  MDiskUsed : option Z; MDiskTotal : option Z;
  MLoad1 : option spec_float; MLoad5 : option spec_float; MLoad15 : option spec_float;
  MNetBytesRecv : option Z; MNetBytesSent : option Z; MDiskReadBytes : option Z; MDiskWriteBytes : option Z;
  MOS : option string; MCPUModel : option string; MKernelVersion : option string; MUptimeSeconds : option Z
}.

Definition metric_of (server : Z) (s : Sample) : Metric :=
  mkMetric (Time s) server (BootID s) (CPU s) (MemoryUsed s) (MemoryTotal s) (SwapUsed s) (SwapTotal s)
    (DiskUsed s) (DiskTotal s) (Load1 s) (Load5 s) (Load15 s) (NetRecv s) (NetSent s) (DiskRead s) (DiskWrite s)
    (OS s) (CPUModel s) (Kernel s) (Uptime s).

(** The tables: the token of each live server's node, the receipts (primary key:
    server and sample), the metrics.  A metric row has no identifier; it is listed
    with the receipt it was inserted with. *)
Record DB := mkDB {
  live : gmap Z string; receipts : gmap (Z * string) time; rows : list (Z * string * Metric)
}.

(** How one transaction goes: a statement that fails, then the commit.  A commit can
    be lost after it took effect. *)
Inductive commit := Committed | RolledBack | CommitLost.
Record db_io := mkDbIo { statement_fails : nat -> bool; commits : commit }.

Inductive db_err := ENotFound | EStatement | EInvalid (e : wire_err) | ECommit.

(** One sample of a transaction: a receipt that exists is left alone. *)
Definition store_one (now : time) (server : Z) (s : Sample) (db : DB) : DB :=
  match receipts db !! (server, ID s) with
  | Some _ => db
  | None => mkDB (live db) (<[(server, ID s) := now]> (receipts db)) ((server, ID s, metric_of server s) :: rows db)
  end.

(** The loop of [Ingest]: insert the receipt unless it exists, and the metric with a
    new receipt; acknowledge the sample either way. *)
Fixpoint ingest_loop (now : time) (server : Z) (io : db_io) (i : nat) (samples : list Sample) (db : DB) (ack : list string)
  : result db_err (DB * list string) :=
  match samples with
  | [] => Ok (db, ack)
  | s :: samples =>
      match Sample_Validate now s with
      | Err e => Err (EInvalid e)
      | Ok _ =>
          if statement_fails io i then Err EStatement
          else ingest_loop now server io (S i) samples (store_one now server s db) (ack ++ [ID s])
      end
  end.

(** [Ingest]: one transaction. *)
Definition Ingest (now : time) (node : AgentNode) (samples : list Sample) (io : db_io) (db : DB)
  : DB * result db_err (list string) :=
  if negb (bool_decide (live db !! ServerID node = Some (TokenHash node))) then (db, Err ENotFound)
  else match ingest_loop now (ServerID node) io 0 samples db [] with
  | Err e => (db, Err e)
  | Ok (db', ack) =>
      match commits io with
      | Committed => (db', Ok ack)
      | RolledBack => (db, Err ECommit)
      | CommitLost => (db', Err ECommit)
      end
  end.

(** [Cleanup]: receipts are kept for 48 hours; the nodes of deleted servers go. *)
Definition Cleanup (now : time) (servers : gset Z) (db : DB) : DB :=
  mkDB (filter (fun p => p.1 ∈ servers) (live db))
    (filter (fun p => Before p.2 (TimeAdd now (- (48 * Hour))) = false) (receipts db)) (rows db).

(** ** The monitor *)
Record residentRuntime := mkRuntime {
  node : AgentNode; lastContact : time; latest : option Sample; lastPersisted : option time;
  storedSample : option time; version : string; pending : Z; rdropped : Z; connected : bool;
  close : bool; generation : Z; writeFailed : bool
}.

Record ResidentMonitor := mkMonitor {
  nodes : gmap Z residentRuntime; writeSlots : Z; closed : bool; revoked : gmap Z time
}.

Definition maxWriters : Z := 8.

Definition new_runtime (n : AgentNode) : residentRuntime :=
  mkRuntime n 0 None (NodeLastPersisted n) None "" 0 0 false false 0 false.

(** [runtimeLocked]: the runtime, created if there is none. *)
Definition runtimeLocked (n : AgentNode) (m : ResidentMonitor) : residentRuntime :=
  default (new_runtime n) (nodes m !! ServerID n).

Definition set_node (id : Z) (v : residentRuntime) (m : ResidentMonitor) : ResidentMonitor :=
  mkMonitor (<[id := v]> (nodes m)) (writeSlots m) (closed m) (revoked m).

(** [m.closed || m.now().Before(m.revoked[id])]: a missing entry is the zero time. *)
Definition refused (now : time) (id : Z) (m : ResidentMonitor) : bool :=
  closed m || Before now (default zero_time (revoked m !! id)).

(** [AgentWebSocket], the connection being installed and removed (lines 163-185). *)
Definition ws_open (now : time) (n : AgentNode) (m : ResidentMonitor) : option (ResidentMonitor * Z) :=
  if refused now (ServerID n) m then None
  else
    let v := runtimeLocked n m in
    let g := wrapu64 (generation v + 1) in
    Some (set_node (ServerID n)
            (mkRuntime (node v) (lastContact v) (latest v) (lastPersisted v) (storedSample v) (version v) (pending v)
               (rdropped v) true true g (writeFailed v)) m, g).

Definition ws_closed (id g : Z) (m : ResidentMonitor) : ResidentMonitor :=
  match nodes m !! id with
  | Some v =>
      if generation v =? g then
        set_node id (mkRuntime (node v) (lastContact v) (latest v) (lastPersisted v) (storedSample v) (version v)
                       (pending v) (rdropped v) false false (generation v) (writeFailed v)) m
      else m
  | None => m
  end.

Definition reply_with (now : time) (ack rejected : list string) (retry : bool) : Response :=
  mkResponse ack rejected retry now.

(** A sample whose only fault is its capture time. *)
Definition skewed (now : time) (s : Sample) : bool := is_sample_time (Sample_Validate now s).

Definition with_errors (s : Sample) (e : gmap string string) : Sample :=
  mkSample (ID s) (BootID s) (Time s) (CPU s) (MemoryUsed s) (MemoryTotal s) (SwapUsed s) (SwapTotal s) (DiskUsed s)
    (DiskTotal s) (Load1 s) (Load5 s) (Load15 s) (NetRecv s) (NetSent s) (DiskRead s) (DiskWrite s) (Uptime s) (OS s)
    (CPUModel s) (Kernel s) e.

(** The copy of the latest sample that is kept: a skewed one is marked. *)
Definition kept_latest (now : time) (s : Sample) : Sample :=
  if skewed now s then with_errors s (<["clock" := "clock_skew"]> (Errors s)) else s.

Definition next_latest (now : time) (old new : option Sample) : option Sample :=
  match new with
  | None => old
  | Some s =>
      if match old with None => true | Some o => skewed now o || After (Time s) (Time o) end
      then Some (kept_latest now s) else old
  end.

(** [receive] until the lock is released: an early answer, or the samples to store
    and the ones rejected. *)
Inductive entered := Answer (r : Response) | Store (valid : list Sample) (rejected : list string).

Definition receive_enter (now : time) (n : AgentNode) (req : Request) (gen : Z) (m : ResidentMonitor)
  : ResidentMonitor * entered :=
  if refused now (ServerID n) m then (m, Answer (reply_with now [] [] true))
  else
    let v := runtimeLocked n m in
    if negb (bool_decide (TokenHash (node v) = TokenHash n)) || (negb (gen =? 0) && negb (generation v =? gen))
    then (set_node (ServerID n) v m, Answer (reply_with now [] [] true))
    else
      let v' := mkRuntime (node v) now (next_latest now (latest v) (Latest req)) (lastPersisted v) (storedSample v)
                  (Version req) (Pending req) (Dropped req)
                  ((gen =? 0) && negb (close v) || connected v) (close v) (generation v) (writeFailed v) in
      let m' := set_node (ServerID n) v' m in
      if bool_decide (Kind req = "heartbeat") then (m', Answer (reply_with now [] [] false))
      else
        let rejected := ID <$> filter (fun s => skewed now s = true) (Samples req) in
        let valid := filter (fun s => skewed now s = false) (Samples req) in
        match valid with
        | [] => (m', Answer (reply_with now [] rejected false))
        | _ => (m', Store valid rejected)
        end.

(** The writer slot: [None] when the context is done or every slot is taken. *)
Definition take_slot (ctx_done : bool) (m : ResidentMonitor) : option ResidentMonitor :=
  if (writeSlots m <? maxWriters) && negb ctx_done
  then Some (mkMonitor (nodes m) (writeSlots m + 1) (closed m) (revoked m)) else None.

Definition release_slot (m : ResidentMonitor) : ResidentMonitor :=
  mkMonitor (nodes m) (writeSlots m - 1) (closed m) (revoked m).

Definition newest_stored (old : option time) (valid : list Sample) : option time :=
  foldl (fun o s => match o with Some t => if After (Time s) t then Some (Time s) else o | None => Some (Time s) end)
    old valid.

(** [receive] after the database answered; [now] is still the time of its start. *)
Definition receive_exit (now : time) (n : AgentNode) (valid : list Sample) (rejected : list string)
  (res : result db_err (list string)) (m : ResidentMonitor) : ResidentMonitor * Response :=
  match nodes m !! ServerID n with
  | None => (m, reply_with now [] rejected false)
  | Some v =>
      if negb (bool_decide (TokenHash (node v) = TokenHash n)) then (m, reply_with now [] rejected false)
      else match res with
      | Err _ =>
          (set_node (ServerID n)
             (mkRuntime (node v) (lastContact v) (latest v) (lastPersisted v) (storedSample v) (version v) (pending v)
                (rdropped v) (connected v) (close v) (generation v) true) m,
           reply_with now [] rejected true)
      | Ok ack =>
          (set_node (ServerID n)
             (mkRuntime (node v) (lastContact v) (latest v) (Some now) (newest_stored (storedSample v) valid) (version v)
                (pending v) (rdropped v) (connected v) (close v) (generation v) false) m,
           reply_with now ack rejected false)
      end
  end.

(** [Close]. *)
Definition hang_up (v : residentRuntime) : residentRuntime :=
  mkRuntime (node v) (lastContact v) (latest v) (lastPersisted v) (storedSample v) (version v) (pending v) (rdropped v)
    false false (generation v) (writeFailed v).

Definition Close (m : ResidentMonitor) : ResidentMonitor :=
  mkMonitor (hang_up <$> nodes m) (writeSlots m) true (revoked m).

(** [Disconnect]: the server is being deleted; its agent is refused for a minute. *)
Definition Disconnect (now : time) (id : Z) (m : ResidentMonitor) : ResidentMonitor :=
  mkMonitor (delete id (nodes m)) (writeSlots m) (closed m)
    (<[id := TimeAdd now Minute]> (filter (fun p => Before now p.2 = true) (revoked m))).

(** The reconciliation loop (resident_deploy.go): a node with a new token gets a new
    runtime; the nodes of servers that are gone are dropped. *)
Definition refresh_node (n : AgentNode) (m : ResidentMonitor) : ResidentMonitor :=
  let v := runtimeLocked n m in
  if negb (bool_decide (TokenHash (node v) = TokenHash n))
  then set_node (ServerID n) (mkRuntime n 0 None None None "" 0 0 false false 0 false) m
  else set_node (ServerID n)
         (mkRuntime n (lastContact v) (latest v) (lastPersisted v) (storedSample v) (version v) (pending v)
            (rdropped v) (connected v) (close v) (generation v) (writeFailed v)) m.

Definition drop_nodes (live_servers : gset Z) (m : ResidentMonitor) : ResidentMonitor :=
  mkMonitor (filter (fun p => p.1 ∈ live_servers) (nodes m)) (writeSlots m) (closed m) (revoked m).

(** ** Status reports *)
Record MonitoringStatus := mkStatus {
  SConnection : string; SCollection : string; SData : string; SDeployment : string; SDeploymentError : string;
  SLastContact : option time; SLastSample : option time; SLastPersisted : option time;
  SErrors : gmap string string; SPending : Z; SDropped : Z; SVersion : string
}.

(** The settings a report depends on: the URL, the interval and the hash of an agent's
    configuration. *)
Record residentSettings := mkSettings { SURL : string; Interval : Z; settings_hash : string -> string }.

Definition deployment_of (d : residentSettings) (v : residentRuntime) : string * string :=
  if bool_decide (SURL d = "") then ("setup_required", "hub_url_required")
  else
    let s := Deployment (node v) in
    (if bool_decide (s = "ready") && negb (bool_decide (ConfigHash (node v) = settings_hash d (TokenHash (node v))))
     then "pending" else s, DeployError (node v)).

Definition connection_of (now : time) (v : residentRuntime) : string * option time :=
  if negb (IsZero (lastContact v)) then
    (if TimeSub now (lastContact v) <=? 45 * Second then (if connected v then "online" else "reconnecting")
     else "unreachable", Some (lastContact v))
  else match NodeLastContact (node v) with
  | Some t => (if 45 * Second <? TimeSub now t then "unreachable" else "reconnecting", Some t)
  | None => ("unknown", None)
  end.

Definition collection_of (v : residentRuntime) : string :=
  match latest v with
  | None => "unknown"
  | Some s =>
      match CPU s, MemoryUsed s, DiskUsed s, NetRecv s, Load1 s with
      | None, None, None, None, None => "failed"
      | _, _, _, _, _ => if 0 <? Z.of_nat (size (Errors s)) then "partial" else "healthy"
      end
  end.

Definition fresh_for (d : residentSettings) : duration := wrap64 (Z.max (3 * Interval d) 15 * Second).

Definition fresh (now : time) (d : residentSettings) (v : residentRuntime) : bool :=
  match latest v, storedSample v with
  | Some s, Some t => is_ok (Sample_Validate now s) && (TimeSub now t <=? fresh_for d) && negb (writeFailed v)
  | _, _ => false
  end.

Definition data_of (now : time) (d : residentSettings) (v : residentRuntime) : string :=
  if fresh now d v then (if 1 <? pending v then "backfilling" else "fresh") else "stale".

Definition errors_of (v : residentRuntime) : gmap string string :=
  let e := match latest v with Some s => Errors s | None => ∅ end in
  if writeFailed v then <["storage" := "write_failed"]> e else e.

(** One entry of [Statuses]. *)
Definition status_of (now : time) (d : residentSettings) (m : ResidentMonitor) (id : Z) : MonitoringStatus :=
  match nodes m !! id with
  | None =>
      let '(dep, err) := if bool_decide (SURL d = "") then ("setup_required", "hub_url_required") else ("pending", "") in
      mkStatus "unknown" "unknown" "stale" dep err None None None ∅ 0 0 ""
  | Some v =>
      let '(dep, err) := deployment_of d v in
      let '(conn, at_) := connection_of now v in
      mkStatus conn (collection_of v) (data_of now d v) dep err at_ (Time <$> latest v) (lastPersisted v)
        (errors_of v) (pending v) (rdropped v) (version v)
  end.

Definition Statuses (now : time) (d : residentSettings) (ids : list Z) (m : ResidentMonitor) : gmap Z MonitoringStatus :=
  list_to_map ((fun id => (id, status_of now d m id)) <$> ids).

(** ** Storing samples *)

(** The invariant of the tables up to time [c]: every row was inserted once, under a
    receipt that is still there or whose sample is too old to be accepted again, even
    by a transaction whose clock was read up to an hour before [c]. *)
Record db_inv (at_ : Z * string -> time) (c : time) (db : DB) : Prop := {
  dbi_nodup : NoDup (fst <$> rows db);
  dbi_rows : forall k, k ∈ fst <$> rows db -> is_Some (receipts db !! k) \/ at_ k + 26 * Hour < c;
  dbi_times : forall r, r ∈ rows db -> MTime r.2 = at_ r.1;
  dbi_receipts : forall k t, receipts db !! k = Some t -> t <= c /\ at_ k <= t + 5 * Minute /\ k ∈ fst <$> rows db
}.

Lemma db_inv_later at_ c c' db : c <= c' -> db_inv at_ c db -> db_inv at_ c' db.
Proof.
  intros Hc [Hn Hr Htm Hre]. split; [done| |done|].
  - intros k Hk. destruct (Hr k Hk); [by left | right; lia].
  - intros k t Hk. destruct (Hre k t Hk) as (? & ? & ?). split_and!; [lia | lia | done].
Qed.

(** What storing samples may do to the tables. *)
Record stores (server : Z) (samples : list Sample) (db db' : DB) : Prop := {
  st_live : live db' = live db;
  st_rows : exists new, rows db' = new ++ rows db /\
    Forall (fun r => exists s, s ∈ samples /\ r = (server, ID s, metric_of server s)) new;
  st_receipts : forall k, is_Some (receipts db !! k) -> is_Some (receipts db' !! k)
}.

Lemma stores_refl server samples db : stores server samples db db.
Proof. split; try done. exists []. by split; [|constructor]. Qed.

Lemma store_one_spec at_ c now server s db :
  db_inv at_ c db -> c - Hour <= now <= c -> Time s = at_ (server, ID s) -> time_ok now (Time s) = true ->
  db_inv at_ c (store_one now server s db) /\ stores server [s] db (store_one now server s db) /\
  is_Some (receipts (store_one now server s db) !! (server, ID s)).
Proof.
  intros Hinv Hnow Hts Hw. apply time_ok_iff in Hw. rewrite Hts in Hw. unfold store_one.
  destruct (receipts db !! (server, ID s)) as [t|] eqn:E; [split_and!; [done | apply stores_refl | eauto]|].
  destruct Hinv as [Hn Hr Htm Hre]. split_and!; cbn [receipts]; [split; cbn [live receipts rows] | split; cbn [live receipts rows]|].
  - rewrite fmap_cons. apply NoDup_cons. split; [|done]. cbn [fst]. intros Hin. destruct (Hr _ Hin) as [[t Hk]|]; [congruence | lia].
  - intros k. rewrite fmap_cons, elem_of_cons. cbn [fst]. intros [->|Hk]; [left; rewrite lookup_insert_eq; eauto|].
    destruct (Hr k Hk) as [[t Hk']|]; [left | by right]. apply lookup_insert_is_Some'. right. eauto.
  - intros r [->|Hr']%elem_of_cons; [done | by apply Htm].
  - intros k t Hk. rewrite fmap_cons, elem_of_cons. cbn [fst]. apply lookup_insert_Some in Hk as [[<- <-]|[_ Hk]].
    + split_and!; [lia | lia | by left].
    + destruct (Hre k t Hk) as (? & ? & ?). auto.
  - done.
  - exists [(server, ID s, metric_of server s)]. split; [done|]. constructor; [|done]. exists s. split; [set_solver | done].
  - intros k Hk. apply lookup_insert_is_Some'. by right.
  - rewrite lookup_insert_eq. eauto.
Qed.

Lemma stores_app server l1 l2 db1 db2 db3 :
  stores server l1 db1 db2 -> stores server l2 db2 db3 -> stores server (l1 ++ l2) db1 db3.
Proof.
  intros [L1 (n1 & R1 & F1) P1] [L2 (n2 & R2 & F2) P2]. split; [congruence | | auto].
  exists (n2 ++ n1). rewrite R2, R1, app_assoc. split; [done|]. apply Forall_app.
  split; (eapply Forall_impl; [eassumption|]); intros r (s & Hs & ->); exists s; split; try done; set_solver.
Qed.

Lemma ingest_loop_spec at_ c now server io i samples db ack db' ack' :
  c - Hour <= now <= c -> Forall (fun s => Time s = at_ (server, ID s)) samples -> db_inv at_ c db ->
  ingest_loop now server io i samples db ack = Ok (db', ack') ->
  db_inv at_ c db' /\ ack' = ack ++ (ID <$> samples) /\ stores server samples db db' /\
  Forall (fun s => is_Some (receipts db' !! (server, ID s))) samples.
Proof.
  intros Hnow. revert i db ack. induction samples as [|s samples IH]; intros i db ack Ht Hinv Hrun; cbn [ingest_loop] in Hrun.
  { simplify_eq. rewrite app_nil_r. split_and!; try done. apply stores_refl. }
  apply Forall_cons in Ht as [Hts Ht].
  destruct (Sample_Validate now s) as [[]|] eqn:Ev; [|done]. destruct (statement_fails io i); [done|].
  apply Sample_Validate_ok in Ev as [_ Hw].
  destruct (store_one_spec at_ c now server s db Hinv Hnow Hts Hw) as (Hinv1 & Hst1 & Hrec).
  destruct (IH _ _ _ Ht Hinv1 Hrun) as (H1 & H2 & H3 & H4).
  split_and!; [done | by rewrite H2, <-app_assoc | by apply (stores_app server [s] samples _ (store_one now server s db))|].
  apply Forall_cons. split; [|done]. by apply (st_receipts _ _ _ _ H3).
Qed.

Lemma Ingest_spec at_ c now n samples io db db' res :
  c - Hour <= now -> Forall (fun s => Time s = at_ (ServerID n, ID s)) samples -> db_inv at_ c db ->
  Ingest now n samples io db = (db', res) ->
  db_inv at_ (Z.max c now) db' /\ stores (ServerID n) samples db db' /\
  forall ack, res = Ok ack -> ack = ID <$> samples /\
    Forall (fun s => is_Some (receipts db' !! (ServerID n, ID s))) samples.
Proof.
  intros Hnow Ht Hinv Hrun. apply (db_inv_later at_ c (Z.max c now)) in Hinv; [|lia].
  unfold Ingest in Hrun. destruct (negb _); [simplify_eq; split_and!; [done | apply stores_refl | done]|].
  destruct (ingest_loop _ _ _ _ _ _ _) as [[db1 ack]|e] eqn:E; [|simplify_eq; split_and!; [done | apply stores_refl | done]].
  destruct (ingest_loop_spec _ (Z.max c now) now _ _ _ _ _ _ _ _ ltac:(unfold Hour, Minute, Second in *; lia) Ht Hinv E) as (H1 & H2 & H3 & H4).
  destruct (commits io); simplify_eq; split_and!; try done; [|apply stores_refl]. intros ack' [= <-]. done.
Qed.

Lemma Cleanup_inv at_ c now servers db : db_inv at_ c db -> db_inv at_ (Z.max c now) (Cleanup now servers db).
Proof.
  intros Hinv. apply (db_inv_later at_ c (Z.max c now)) in Hinv as [Hn Hr Htm Hre]; [|lia].
  split; cbn [Cleanup rows receipts]; [done| |done|].
  - intros k Hk. destruct (Hr k Hk) as [[t Ht]|]; [|by right]. destruct (Hre k t Ht) as (? & ? & _).
    destruct (Before t (TimeAdd now (- (48 * Hour)))) eqn:E.
    + right. bools. unfold TimeAdd, Hour, Minute, Second in *. lia.
    + left. exists t. by apply map_lookup_filter_Some.
  - intros k t [Hk _]%map_lookup_filter_Some. by apply Hre.
Qed.


(** ** The running Hub

    Requests of several agents are in flight at once.  A flight holds a writer slot; it
    waits for its transaction, then for the monitor's lock. *)
Record flight := mkFlight {
  fnode : AgentNode; fnow : time; fvalid : list Sample; frejected : list string;
  fresult : option (result db_err (list string))
}.

(** [answers] is every response given so far, with the server it was given to. *)
Record hub := mkHub {
  mon : ResidentMonitor; db : DB; clock : time; flights : gmap nat flight; answers : list (Z * Response)
}.

(** What the goroutines that do not carry samples do to the monitor. *)
Inductive monitor_step : ResidentMonitor -> ResidentMonitor -> Prop :=
| ms_open now n m m' g : ws_open now n m = Some (m', g) -> monitor_step m m'
| ms_closed id g m : monitor_step m (ws_closed id g m)
| ms_close m : monitor_step m (Close m)
| ms_disconnect now id m : monitor_step m (Disconnect now id m)
| ms_refresh n m : monitor_step m (refresh_node n m)
| ms_drop l m : monitor_step m (drop_nodes l m).

Section Histories.
(** An identifier of a server's agent belongs to one sample with one capture time. *)
Context (at_ : Z * string -> time).

Definition identified (server : Z) (samples : list Sample) : Prop :=
  Forall (fun s => Time s = at_ (server, ID s)) samples.

(** The steps of the Hub.  A transaction's clock may be up to an hour behind the latest
    one read. *)
Inductive hstep : hub -> hub -> Prop :=
| h_answer now n req gen h m r :
    (* a valid message that needs no write, or is refused *)
    Request_Validate now req = Ok tt -> receive_enter now n req gen (mon h) = (m, Answer r) ->
    hstep h (mkHub m (db h) (clock h) (flights h) ((ServerID n, r) :: answers h))
| h_busy now n req gen h m valid rejected ctx_done :
    Request_Validate now req = Ok tt -> receive_enter now n req gen (mon h) = (m, Store valid rejected) ->
    take_slot ctx_done m = None ->
    hstep h (mkHub m (db h) (clock h) (flights h) ((ServerID n, reply_with now [] rejected true) :: answers h))
| h_begin now n req gen h m m' valid rejected k :
    Request_Validate now req = Ok tt -> identified (ServerID n) (Samples req) ->
    receive_enter now n req gen (mon h) = (m, Store valid rejected) ->
    take_slot false m = Some m' -> flights h !! k = None ->
    hstep h (mkHub m' (db h) (clock h) (<[k := mkFlight n now valid rejected None]> (flights h)) (answers h))
| h_write now io h k f d res :
    clock h - Hour <= now -> flights h !! k = Some f -> fresult f = None ->
    Ingest now (fnode f) (fvalid f) io (db h) = (d, res) ->
    hstep h (mkHub (mon h) d (Z.max (clock h) now)
      (<[k := mkFlight (fnode f) (fnow f) (fvalid f) (frejected f) (Some res)]> (flights h)) (answers h))
| h_end h k f res m r :
    flights h !! k = Some f -> fresult f = Some res ->
    receive_exit (fnow f) (fnode f) (fvalid f) (frejected f) res (mon h) = (m, r) ->
    hstep h (mkHub (release_slot m) (db h) (clock h) (delete k (flights h)) ((ServerID (fnode f), r) :: answers h))
| h_cleanup now servers h :
    hstep h (mkHub (mon h) (Cleanup now servers (db h)) (Z.max (clock h) now) (flights h) (answers h))
| h_nodes l h :
    (* nodes are created, rotated and deleted *)
    hstep h (mkHub (mon h) (mkDB l (receipts (db h)) (rows (db h))) (clock h) (flights h) (answers h))
| h_monitor m h : monitor_step (mon h) m -> hstep h (mkHub m (db h) (clock h) (flights h) (answers h))
| h_restart h :
    (* the process restarts: flights are lost, the tables stay *)
    hstep h (mkHub (mkMonitor ∅ 0 false ∅) (db h) (clock h) ∅ (answers h)).

Definition hub_start (t : time) : hub := mkHub (mkMonitor ∅ 0 false ∅) (mkDB ∅ ∅ []) t ∅ [].

(** The server and identifier of a sample a row stores. *)
Definition row_key (r : Z * string * Metric) : Z * string := r.1.

Definition stored (d : DB) (server : Z) (id : string) : Prop := (server, id) ∈ row_key <$> rows d.

(** [t] is the capture time of a row of the server. *)
Definition row_at (d : DB) (server : Z) (t : time) : Prop := exists r, r ∈ rows d /\ (row_key r).1 = server /\ MTime r.2 = t.

(** A flight that wrote successfully has all its samples stored. *)
Definition flight_ok (d : DB) (f : flight) : Prop :=
  identified (ServerID (fnode f)) (fvalid f) /\
  forall ack, fresult f = Some (Ok ack) -> ack = ID <$> fvalid f /\ forall s, s ∈ fvalid f -> stored d (ServerID (fnode f)) (ID s).

Record hub_inv (h : hub) : Prop := {
  hi_db : db_inv at_ (clock h) (db h);
  hi_slots : writeSlots (mon h) = Z.of_nat (size (flights h)) /\ writeSlots (mon h) <= maxWriters;
  hi_flights : map_Forall (fun _ f => flight_ok (db h) f) (flights h);
  hi_runtimes : map_Forall (fun id v => forall t, storedSample v = Some t -> row_at (db h) id t) (nodes (mon h));
  hi_answers : Forall (fun a => forall id, id ∈ RAck a.2 -> stored (db h) a.1 id) (answers h)
}.

(** The tables only gain rows. *)
Definition extends (d d' : DB) : Prop := exists new, rows d' = new ++ rows d.

Lemma stored_extends d d' server id : extends d d' -> stored d server id -> stored d' server id.
Proof. intros [new E] H. unfold stored. rewrite E, fmap_app. apply elem_of_app. by right. Qed.

Lemma row_at_extends d d' server t : extends d d' -> row_at d server t -> row_at d' server t.
Proof. intros [new E] (r & Hr & H). exists r. rewrite E. split; [apply elem_of_app; by right | done]. Qed.

Lemma flight_ok_extends d d' f : extends d d' -> flight_ok d f -> flight_ok d' f.
Proof.
  intros He [Hi Ha]. split; [done|]. intros ack Hack. destruct (Ha ack Hack) as [-> Hs]. split; [done|].
  intros s Hin. by eapply stored_extends, Hs.
Qed.

(** Steps on the monitor that store nothing keep what the runtimes recorded. *)
Definition keeps_stored (m m' : ResidentMonitor) : Prop :=
  forall id v', nodes m' !! id = Some v' ->
    storedSample v' = None \/ exists v, nodes m !! id = Some v /\ storedSample v = storedSample v'.

Lemma runtime_stored n m v :
  runtimeLocked n m = v -> storedSample v = None \/ exists v0, nodes m !! ServerID n = Some v0 /\ storedSample v0 = storedSample v.
Proof. unfold runtimeLocked. intros <-. destruct (nodes m !! ServerID n) as [v0|]; cbn; [right; eauto | by left]. Qed.

Lemma keeps_refl m : keeps_stored m m.
Proof. intros id v Hv. right. eauto. Qed.

Lemma keeps_set n m v :
  storedSample v = storedSample (runtimeLocked n m) -> keeps_stored m (set_node (ServerID n) v m).
Proof.
  intros Hv id v' Hl. cbn in Hl. apply lookup_insert_Some in Hl as [[<- <-]|[_ Hl]]; [|right; eauto].
  rewrite Hv. by apply runtime_stored.
Qed.

Lemma keeps_enter now n req gen m m' e : receive_enter now n req gen m = (m', e) -> keeps_stored m m' /\ writeSlots m' = writeSlots m.
Proof.
  unfold receive_enter. intros H. repeat case_match; simplify_eq; split; try done;
    first [apply keeps_refl | by apply keeps_set].
Qed.

Lemma keeps_monitor_step m m' : monitor_step m m' -> keeps_stored m m' /\ writeSlots m' = writeSlots m.
Proof.
  destruct 1 as [now n m m' g H|id g m|m|now id m|n m|l m].
  - unfold ws_open in H. case_match; [done|]. simplify_eq. split; [|done]. by apply keeps_set.
  - unfold ws_closed. destruct (nodes m !! id) as [v|] eqn:E; [|split; [apply keeps_refl | done]].
    case_match; (split; [|done]); [|apply keeps_refl]. intros id' v' Hl. cbn in Hl.
    apply lookup_insert_Some in Hl as [[<- <-]|[_ Hl]]; right; eauto.
  - split; [|done]. intros id v' Hl. cbn in Hl. rewrite lookup_fmap in Hl. destruct (nodes m !! id); simplify_eq/=. right. eauto.
  - split; [|done]. intros id' v' Hl. cbn in Hl. apply lookup_delete_Some in Hl as [_ Hl]. right. eauto.
  - unfold refresh_node. case_match; (split; [|done]); [|by apply keeps_set].
    intros id' v' Hl. cbn in Hl. apply lookup_insert_Some in Hl as [[<- <-]|[_ Hl]]; [by left | right; eauto].
  - split; [|done]. intros id v' Hl. cbn in Hl. apply map_lookup_filter_Some in Hl as [Hl _]. right. eauto.
Qed.

Lemma runtimes_keep m m' d :
  keeps_stored m m' ->
  map_Forall (fun id v => forall t, storedSample v = Some t -> row_at d id t) (nodes m) ->
  map_Forall (fun id v => forall t, storedSample v = Some t -> row_at d id t) (nodes m').
Proof.
  intros Hk Hm id v' Hl t Ht. destruct (Hk id v' Hl) as [H|(v & Hv & He)]; [congruence|]. apply (Hm id v Hv). congruence.
Qed.

Lemma runtimes_extend m d d' :
  extends d d' -> map_Forall (fun id v => forall t, storedSample v = Some t -> row_at d id t) (nodes m) ->
  map_Forall (fun id v => forall t, storedSample v = Some t -> row_at d' id t) (nodes m).
Proof. intros He Hm id v Hl t Ht. eapply row_at_extends, Hm; done. Qed.

Lemma answers_extend d d' (l : list (Z * Response)) :
  extends d d' -> Forall (fun a => forall id, id ∈ RAck a.2 -> stored d a.1 id) l ->
  Forall (fun a => forall id, id ∈ RAck a.2 -> stored d' a.1 id) l.
Proof. intros He Hf. eapply Forall_impl; [exact Hf|]. intros a Ha id Hid. eapply stored_extends, Ha; done. Qed.

Lemma enter_answer now n req gen m m' r : receive_enter now n req gen m = (m', Answer r) -> RAck r = [].
Proof. unfold receive_enter. intros H. repeat case_match; by simplify_eq. Qed.

Lemma enter_store now n req gen m m' valid rejected :
  receive_enter now n req gen m = (m', Store valid rejected) ->
  valid = filter (fun s => skewed now s = false) (Samples req) /\
  rejected = ID <$> filter (fun s => skewed now s = true) (Samples req).
Proof. unfold receive_enter. intros H. repeat case_match; by simplify_eq. Qed.

Lemma slot_taken cd m m' : take_slot cd m = Some m' -> nodes m' = nodes m /\ writeSlots m' = writeSlots m + 1 /\ writeSlots m' <= maxWriters.
Proof. unfold take_slot. case_match eqn:E; [|done]. intros [= <-]. bools. cbn [nodes writeSlots]. split_and!; try done; lia. Qed.

Lemma newest_stored_from valid old t :
  newest_stored old valid = Some t -> old = Some t \/ exists s, s ∈ valid /\ Time s = t.
Proof.
  unfold newest_stored. revert old. induction valid as [|s valid IH]; intros old; cbn [foldl]; [by left|].
  intros [H|(s' & Hs' & Ht)]%IH; [|right; exists s'; set_solver].
  assert (forall o, o = Some t -> o = old \/ o = Some (Time s) -> old = Some t \/ exists s0, s0 ∈ s :: valid /\ Time s0 = t) as Hc.
  { intros o -> [<-|[= ->]]; [by left|]. right. exists s. set_solver. }
  eapply Hc; [exact H|]. destruct old; [case_match; auto | auto].
Qed.

Lemma stored_row_at d c server id : db_inv at_ c d -> stored d server id -> row_at d server (at_ (server, id)).
Proof.
  intros Hinv Hs. apply list_elem_of_fmap in Hs as (r & Hk & Hr). exists r. split; [done|].
  rewrite (dbi_times _ _ _ Hinv r Hr). unfold row_key in *. rewrite <-Hk. done.
Qed.

Lemma exit_spec d c now n valid rejected res m m' r :
  db_inv at_ c d -> flight_ok d (mkFlight n now valid rejected (Some res)) ->
  map_Forall (fun id v => forall t, storedSample v = Some t -> row_at d id t) (nodes m) ->
  receive_exit now n valid rejected res m = (m', r) ->
  writeSlots m' = writeSlots m /\ (forall id, id ∈ RAck r -> stored d (ServerID n) id) /\
  map_Forall (fun id v => forall t, storedSample v = Some t -> row_at d id t) (nodes m').
Proof.
  intros Hdb [Hid Hok] Hm. cbn [fresult fnode fvalid] in *. unfold receive_exit.
  destruct (nodes m !! ServerID n) as [v|] eqn:Ev; [|intros [= <- <-]; split_and!; [done | set_solver | done]].
  destruct (negb _); [intros [= <- <-]; split_and!; [done | set_solver | done]|].
  destruct res as [ack|e]; intros [= <- <-]; split_and!; try done; try (cbn; set_solver).
  - destruct (Hok ack eq_refl) as [-> Hst]. cbn. intros id Hin. apply list_elem_of_fmap in Hin as (s & -> & Hs). auto.
  - apply map_Forall_insert_2; [|done]. cbn. intros t [Ht|(s & Hs & <-)]%newest_stored_from; [by apply (Hm _ _ Ev)|].
    destruct (Hok ack eq_refl) as [_ Hst]. unfold identified in Hid. rewrite Forall_forall in Hid. rewrite (Hid s Hs).
    eapply stored_row_at; eauto.
  - apply map_Forall_insert_2; [|done]. cbn. by apply (Hm _ _ Ev).
Qed.

Lemma hstep_inv h h' : hub_inv h -> hstep h h' -> hub_inv h'.
Proof.
  intros [Hdb [Hs Hmax] Hf Hr Ha] Hstep.
  destruct Hstep as [now n req gen h m r Hv He|now n req gen h m valid rejected cd Hv He Ht
    |now n req gen h m m' valid rejected k Hv Hid He Ht Hk|now io h k f d res Hc Hk Hres Hrun|h k f res m r Hk Hres Hrun
    |now servers h|l h|m h Hms|h]; cbn [mon db clock flights answers] in *.
  - destruct (keeps_enter _ _ _ _ _ _ _ He) as [Hkeep Hw].
    split; cbn [mon db clock flights answers]; [done | by rewrite Hw | done | by eapply runtimes_keep |].
    apply Forall_cons. split; [|done]. cbn [fst snd]. rewrite (enter_answer _ _ _ _ _ _ _ He). set_solver.
  - destruct (keeps_enter _ _ _ _ _ _ _ He) as [Hkeep Hw].
    split; cbn [mon db clock flights answers]; [done | by rewrite Hw | done | by eapply runtimes_keep |].
    apply Forall_cons. split; [|done]. cbn. set_solver.
  - destruct (keeps_enter _ _ _ _ _ _ _ He) as [Hkeep Hw]. destruct (slot_taken _ _ _ Ht) as (Hn & Hw' & Hmax').
    destruct (enter_store _ _ _ _ _ _ _ _ He) as [-> _].
    split; cbn [mon db clock flights answers]; [done | | | rewrite Hn; by eapply runtimes_keep | done].
    + rewrite map_size_insert_None by done. split; [lia | done].
    + apply map_Forall_insert_2; [|done]. split; [by apply Forall_filter | done].
  - pose proof (Hf k f Hk) as [Hid _]. destruct (Ingest_spec at_ _ _ _ _ _ _ _ _ Hc Hid Hdb Hrun) as (Hdb' & Hst & Hack).
    assert (extends (db h) d) as He by (destruct Hst as [_ (new & E & _) _]; by exists new).
    split; cbn [mon db clock flights answers]; [done | | | by eapply runtimes_extend | by eapply answers_extend].
    + rewrite map_size_insert_Some by eauto. done.
    + apply map_Forall_insert_2; [|intros k' f' Hk'; eapply flight_ok_extends, Hf; done].
      split; [done|]. cbn [fresult fvalid fnode]. intros ack [= ->]. destruct (Hack ack eq_refl) as [-> Hrec]. split; [done|].
      intros s Hin. rewrite Forall_forall in Hrec. destruct (Hrec s Hin) as [t Hk']. by apply (dbi_receipts _ _ _ Hdb') in Hk' as (_ & _ & ?).
  - pose proof (Hf k f Hk) as Hfok. assert (flight_ok (db h) (mkFlight (fnode f) (fnow f) (fvalid f) (frejected f) (Some res))) as Hfok'.
    { destruct f; cbn in *. by rewrite <-Hres. }
    destruct (exit_spec _ _ _ _ _ _ _ _ _ _ Hdb Hfok' Hr Hrun) as (Hw & Hack & Hr').
    split; cbn [mon db clock flights answers]; [done | | by apply map_Forall_delete | done | by apply Forall_cons].
    cbn [release_slot writeSlots]. rewrite map_size_delete_Some by eauto.
    assert (size (flights h) <> 0%nat) by (intros E%map_size_empty_inv; rewrite E in Hk; by apply lookup_empty_Some in Hk). lia.
  - assert (extends (db h) (Cleanup now servers (db h))) as He by by exists [].
    split; cbn [mon db clock flights answers]; [by apply Cleanup_inv | done | intros k' f' Hk'; eapply flight_ok_extends, Hf; done
      | by eapply runtimes_extend | by eapply answers_extend].
  - assert (extends (db h) (mkDB l (receipts (db h)) (rows (db h)))) as He by by exists [].
    split; cbn [mon db clock flights answers]; [by destruct Hdb | done | intros k' f' Hk'; eapply flight_ok_extends, Hf; done
      | by eapply runtimes_extend | by eapply answers_extend].
  - destruct (keeps_monitor_step _ _ Hms) as [Hkeep Hw].
    split; cbn [mon db clock flights answers]; [done | by rewrite Hw | done | by eapply runtimes_keep | done].
  - split; cbn [mon db clock flights answers nodes writeSlots]; try done.
Qed.

Lemma reach_hub_inv t h : rtc hstep (hub_start t) h -> hub_inv h.
Proof.
  intros Hr. assert (hub_inv (hub_start t)) as H0.
  { split; cbn; try done. split; cbn; [constructor | set_solver | set_solver | done]. }
  induction Hr as [h|h1 h2 h3 Hs Hr IH]; [done|]. apply IH. by eapply hstep_inv.
Qed.

(** C5: Every sample is stored at most once and acknowledged only when stored.  After
    any interleaving of messages from any agents, failing and lost commits, retries
    with or without a receipt, cleanups and restarts of the Hub, no two rows come from
    the same sample, and every identifier in an acknowledgement of an answer has its
    row, with the capture time the agent measured.  Receipts are kept long enough: 48
    hours cover the 25 hours during which a sample is accepted. *)
Theorem samples_stored_exactly_once t h :
  rtc hstep (hub_start t) h ->
  NoDup (row_key <$> rows (db h)) /\
  forall server r id, (server, r) ∈ answers h -> id ∈ RAck r ->
    exists m, (server, id, m) ∈ rows (db h) /\ MTime m = at_ (server, id).
Proof.
  intros Hr. destruct (reach_hub_inv _ _ Hr) as [Hdb _ _ _ Ha]. split; [apply Hdb|].
  intros server r id Hin Hid. rewrite Forall_forall in Ha. specialize (Ha _ Hin id Hid). cbn in Ha.
  apply list_elem_of_fmap in Ha as ([k m] & Hk & Hrow). cbn in Hk. subst k. exists m. split; [done|].
  by apply (dbi_times _ _ _ Hdb (server, id, m)).
Qed.

(** A server reported as fresh or backfilling has recent data in the database: a
    row captured within the freshness window, a latest sample that validates now, and
    no failed write since. *)
Theorem fresh_data_is_stored t h d id now :
  rtc hstep (hub_start t) h -> 0 <= Interval d <= 60 ->
  SData (status_of now d (mon h) id) <> "stale" ->
  exists v s at_row, nodes (mon h) !! id = Some v /\ latest v = Some s /\ Sample_Validate now s = Ok tt /\
    writeFailed v = false /\ row_at (db h) id at_row /\ now - at_row <= Z.max (3 * Interval d) 15 * Second.
Proof.
  intros Hr Hi Hd. destruct (reach_hub_inv _ _ Hr) as [_ _ _ Hm _]. unfold status_of in Hd.
  destruct (nodes (mon h) !! id) as [v|] eqn:Ev.
  2: { exfalso. apply Hd. destruct (bool_decide _); reflexivity. }
  assert (fresh now d v = true) as Hf.
  { destruct (deployment_of d v) as [dep err], (connection_of now v) as [conn last]. cbn [SData] in Hd.
    unfold data_of in Hd. destruct (fresh now d v); [reflexivity|]. exfalso. apply Hd. reflexivity. }
  unfold fresh in Hf. destruct (latest v) as [s|] eqn:El; [|done]. destruct (storedSample v) as [ts|] eqn:Es; [|done].
  apply andb_true_iff in Hf as [[Hval Hage]%andb_true_iff Hw%negb_true_iff]. apply Z.leb_le in Hage.
  exists v, s, ts. split_and!; try done; [by destruct (Sample_Validate now s) as [[]|] | by apply (Hm id v Ev)|].
  unfold fresh_for in Hage. rewrite wrap64_id in Hage by (unfold in_int64, int64_min, int64_max, Second; lia).
  unfold TimeSub in Hage. unfold Second, int64_min, int64_max in *. lia.
Qed.
End Histories.

(** A clock error that hides the recovery: a skewed latest sample that already has 16
    collector errors is kept with 17, and then no longer fails for its time alone, so a
    sample with the right time does not replace it until the wrong time is reached. *)
Definition full_errors : gmap string string :=
  list_to_map ((fun n => (FormatUint (Z.of_nat n), "timeout")) <$> seq 0 16).

Definition crowded (t : time) : Sample :=
  mkSample "0123456789abcdef0123456789abcdef" "boot" t None None None None None None None None None None None None None
    None None None None None full_errors.

Theorem skewed_latest_sticks :
  let now := 1000 * Hour in
  let req := mkRequest Protocol "1" "heartbeat" (Some (crowded (9000 * Hour))) [] 0 0 in
  let kept := kept_latest now (crowded (9000 * Hour)) in
  Request_Validate now req = Ok tt /\ next_latest now None (Latest req) = Some kept /\
  next_latest (now + Hour) (Some kept) (Some (crowded (now + Hour))) = Some kept.
Proof. split_and!; vm_compute; reflexivity. Qed.

(** ** A concrete run: a commit whose answer is lost, then the same batch again *)
Definition demo_id : string := "0123456789abcdef0123456789abcdef".
Definition demo_at (_ : Z * string) : time := 1000 * Hour.
Definition demo_sample : Sample :=
  mkSample demo_id "boot" (1000 * Hour) None None None None None None None None None None None None None
    None None None None None ∅.
Definition demo_node : AgentNode := mkNode 1 "token" None None "ready" "" "".
Definition demo_req : Request := mkRequest Protocol "1" "samples" (Some demo_sample) [demo_sample] 1 0.

Definition do_begin (now : time) (n : AgentNode) (req : Request) (k : nat) (h : hub) : hub :=
  match receive_enter now n req 0 (mon h) with
  | (m, Store valid rejected) =>
      match take_slot false m with
      | Some m' => mkHub m' (db h) (clock h) (<[k := mkFlight n now valid rejected None]> (flights h)) (answers h)
      | None => h
      end
  | _ => h
  end.

Definition do_write (now : time) (io : db_io) (k : nat) (h : hub) : hub :=
  match flights h !! k with
  | Some f =>
      let '(d, res) := Ingest now (fnode f) (fvalid f) io (db h) in
      mkHub (mon h) d (Z.max (clock h) now)
        (<[k := mkFlight (fnode f) (fnow f) (fvalid f) (frejected f) (Some res)]> (flights h)) (answers h)
  | None => h
  end.

Definition do_end (k : nat) (h : hub) : hub :=
  match flights h !! k with
  | Some f =>
      match fresult f with
      | Some res =>
          let '(m, r) := receive_exit (fnow f) (fnode f) (fvalid f) (frejected f) res (mon h) in
          mkHub (release_slot m) (db h) (clock h) (delete k (flights h)) ((ServerID (fnode f), r) :: answers h)
      | None => h
      end
  | None => h
  end.

Lemma do_begin_step at_ now n req k h :
  Request_Validate now req = Ok tt -> identified at_ (ServerID n) (Samples req) -> flights h !! k = None ->
  (match receive_enter now n req 0 (mon h) with (m, Store _ _) => is_Some (take_slot false m) | _ => False end) ->
  hstep at_ h (do_begin now n req k h).
Proof.
  intros Hv Hi Hk. unfold do_begin. destruct (receive_enter _ _ _ _ _) as [m [r|valid rej]] eqn:E; [done|]. intros [m' E'].
  rewrite E'. by eapply h_begin.
Qed.

Lemma do_write_step at_ now io k h :
  clock h - Hour <= now -> (match flights h !! k with Some f => fresult f = None | None => False end) ->
  hstep at_ h (do_write now io k h).
Proof.
  intros Hc. unfold do_write. destruct (flights h !! k) as [f|] eqn:E; [|done]. intros Hf.
  destruct (Ingest _ _ _ _ _) as [d res] eqn:E'. by eapply h_write.
Qed.

Lemma do_end_step at_ k h :
  (match flights h !! k with Some f => is_Some (fresult f) | None => False end) -> hstep at_ h (do_end k h).
Proof.
  unfold do_end. destruct (flights h !! k) as [f|] eqn:E; [|done]. intros [res Hres]. rewrite Hres.
  destruct (receive_exit _ _ _ _ _ _) as [m r] eqn:E'. by eapply h_end.
Qed.

Definition io_of (c : commit) : db_io := mkDbIo (fun _ => false) c.
Definition demo_0 : hub := hub_start (1000 * Hour).
Definition demo_1 : hub := mkHub (mon demo_0) (mkDB {[1 := "token"]} ∅ []) (clock demo_0) ∅ [].
Definition demo_2 : hub := do_end 0 (do_write (1000 * Hour) (io_of CommitLost) 0 (do_begin (1000 * Hour) demo_node demo_req 0 demo_1)).
Definition demo_3 : hub := do_end 0 (do_write (1000 * Hour) (io_of Committed) 0 (do_begin (1000 * Hour) demo_node demo_req 0 demo_2)).

Lemma demo_round c h :
  flights h !! 0%nat = None -> clock h <= 1000 * Hour ->
  (match receive_enter (1000 * Hour) demo_node demo_req 0 (mon h) with (m, Store _ _) => is_Some (take_slot false m) | _ => False end) ->
  rtc (hstep demo_at) h
    (do_end 0 (do_write (1000 * Hour) (io_of c) 0 (do_begin (1000 * Hour) demo_node demo_req 0 h))).
Proof.
  intros Hf Hc Hs. eapply rtc_l; [apply (do_begin_step demo_at (1000 * Hour) demo_node demo_req 0 h); [vm_compute; reflexivity | by repeat constructor | exact Hf | exact Hs]|].
  unfold do_begin. destruct (receive_enter _ _ _ _ _) as [m [r|valid rej]]; [done|]. destruct Hs as [m' Hs]. rewrite Hs.
  eapply rtc_l; [apply (do_write_step demo_at (1000 * Hour) (io_of c) 0); cbn [clock flights]|].
  - unfold Hour, Minute, Second in *. lia.
  - by rewrite lookup_insert_eq.
  - unfold do_write. cbn [flights]. rewrite lookup_insert_eq. destruct (Ingest _ _ _ _ _) as [d res].
    apply rtc_once, do_end_step. cbn [flights]. rewrite lookup_insert_eq. cbn. eauto.
Qed.

Lemma demo_reach : rtc (hstep demo_at) demo_0 demo_3.
Proof.
  eapply rtc_l; [apply (h_nodes _ {[1 := "token"]} demo_0)|].
  etrans; apply (demo_round); [vm_compute; reflexivity | by vm_compute | vm_compute; eexists; reflexivity
    | vm_compute; reflexivity | by vm_compute | vm_compute; eexists; reflexivity].
Qed.

(** The lost commit is answered with a retry, the second transaction acknowledges, and
    one row is there. *)
Lemma samples_stored_exactly_once_witness :
  answers demo_3 = [(1, mkResponse [demo_id] [] false (1000 * Hour)); (1, mkResponse [] [] true (1000 * Hour))] /\
  List.length (rows (db demo_3)) = 1%nat /\ NoDup (row_key <$> rows (db demo_3)).
Proof.
  split; [vm_compute; reflexivity|]. split; [vm_compute; reflexivity|].
  apply (samples_stored_exactly_once demo_at (1000 * Hour) demo_3 demo_reach).
Defined.

Lemma fresh_data_is_stored_witness :
  let d := mkSettings "https://hub" 10 (fun x => x) in
  SData (status_of (1000 * Hour + 20 * Second) d (mon demo_3) 1) = "fresh" /\
  exists at_row, row_at (db demo_3) 1 at_row /\ 1000 * Hour + 20 * Second - at_row <= 30 * Second.
Proof.
  cbv zeta. split; [vm_compute; reflexivity|].
  destruct (fresh_data_is_stored demo_at (1000 * Hour) demo_3 (mkSettings "https://hub" 10 (fun x => x)) 1
    (1000 * Hour + 20 * Second) demo_reach) as (v & s & t & _ & _ & _ & _ & Hr & Ht);
    [by vm_compute | by vm_compute | exists t; split; [exact Hr | exact Ht]].
Defined.
