(* ===== verification/Delivery.v ===== *)
(** * From the agent's outbox to the Hub's tables

    The agent of one server and the Hub run together: the agent's operations and
    crashes interleave with the steps of the Hub, and the agent acknowledges to its
    outbox only what some answer of the Hub to that server acknowledged
    ([internal/agentclient/client.go], [runTransport]).  Requests may be lost,
    repeated or answered twice; answers may arrive late. *)

From S2P Require Import Prelude GoStrings Wire Outbox Hub.

Section Delivery.
Context {codec : SampleCodec} {sorter : SortSlice} (at_ : Z * string -> time) (me : Z).

(** The part of one turn of [runTransport] that moves samples.  [request] is the
    exchange with the Hub: [None] when it failed.  A failed acknowledgement is logged
    and keeps the rejections for the next turn. *)
Definition transport_round (now : time) (vers : string) (last : option Sample) (request : Request -> option Response) : M unit :=
  q ← get_queue;
  let '(n, d) := Stats q in
  r ← attempt (Batch now);
  match r with
  | Ok (s :: l) =>
      match request (mkRequest Protocol vers "samples" last (s :: l) n d) with
      | None => mret tt
      | Some reply =>
          e ← attempt (Ack (RAck reply));
          match e with
          | Ok _ =>
              match Rejected reply with
              | [] => mret tt
              | rejected => _ ← attempt (Reject rejected); mret tt
              end
          | Err _ => mret tt
          end
      end
  | _ => mret tt
  end.

(** The state after a sequence of operations. *)
Definition after (ops : list op) (st : state) : state := foldl (fun st o => (run_op o st).1) st ops.

(** A turn is a batch, then possibly an acknowledgement of exactly what the answer
    acknowledges, then possibly a rejection of exactly what it rejects: the steps
    [w_agent] and [w_ack] below. *)
Lemma transport_round_ops now vers last request st :
  exists ops, (transport_round now vers last request st).1 = after (OBatch now :: ops) st /\
    (ops = [] \/ exists req reply, request req = Some reply /\
       (ops = [OAck (RAck reply)] \/ ops = [OAck (RAck reply); OReject (Rejected reply)])).
Proof.
  unfold transport_round, attempt, mbind, M_bind, get_queue, Stats, after. cbn [foldl run_op].
  unfold mbind, M_bind. destruct (Batch now st) as [st1 [[|s l]|e]] eqn:EB; cbn [fst]; try (exists []; cbn; auto; fail).
  - destruct (request _) as [reply|] eqn:Er; [|exists []; cbn; auto].
    destruct (Ack (RAck reply) st1) as [st2 [[]|e]] eqn:EA.
    + destruct (Rejected reply) as [|x xs] eqn:Ex.
      * exists [OAck (RAck reply)]. cbn. rewrite EA. split; [done|]. right. eauto.
      * exists [OAck (RAck reply); OReject (Rejected reply)]. cbn. rewrite EA, Ex. cbn [fst].
        destruct (Reject (x :: xs) st2) as [st3 r3]. split; [done|]. right. eexists _, reply. split; [exact Er|]. right. by rewrite Ex.
    + exists [OAck (RAck reply)]. cbn. rewrite EA. split; [done|]. right. eauto.
Qed.

(** The sample files of which the Hub holds a row. *)
Definition stored_names (d : DB) : gset string :=
  list_to_set ((fun r => sample_name (row_key r).2) <$> filter (fun r => (row_key r).1 = me) (rows d)).

Lemma stored_name d id : stored d me id -> sample_name id ∈ stored_names d.
Proof.
  intros (r & Hk & Hr)%list_elem_of_fmap. apply elem_of_list_to_set, list_elem_of_fmap. exists r.
  rewrite <-Hk. split; [done|]. by apply list_elem_of_filter; rewrite <-Hk.
Qed.

Record world := mkWorld { agent : sys; hubw : hub }.

Inductive wstep : world -> world -> Prop :=
| w_hub h' w : hstep at_ (hubw w) h' -> wstep w (mkWorld (deliver (stored_names (db h')) (agent w)) h')
| w_agent o a' w : (forall ids, o <> OAck ids) -> runs o (agent w) a' -> wstep w (mkWorld a' (hubw w))
| w_ack r a' w : (me, r) ∈ answers (hubw w) -> runs (OAck (RAck r)) (agent w) a' -> wstep w (mkWorld a' (hubw w)).

Inductive wreach : nat -> world -> Prop :=
| wreach_start a t : reach 0 a -> wreach 0 (mkWorld a (hub_start t))
| wreach_step n w w' : wreach n w -> wstep w w' -> wreach (S n) w'.

Lemma hstep_extends h h' : hstep at_ h h' -> hub_inv at_ h -> extends (db h) (db h').
Proof.
  intros Hs [Hdb _ Hf _ _]. destruct Hs as [| | |now io h k f d res Hc Hk Hres Hrun| | | | |]; cbn; try by exists [].
  pose proof (Hf k f Hk) as [Hid _]. destruct (Ingest_spec at_ _ _ _ _ _ _ _ _ Hc Hid Hdb Hrun) as (_ & [_ (new & E & _) _] & _).
  by exists new.
Qed.

Lemma stored_names_mono d d' : extends d d' -> stored_names d ⊆ stored_names d'.
Proof.
  intros [new E] n. unfold stored_names. rewrite E, !elem_of_list_to_set, filter_app, fmap_app, elem_of_app. auto.
Qed.

Lemma runs_delivered o a a' : runs o a a' -> delivered a' = delivered a.
Proof. by destruct 1. Qed.

(** The composition is a run of the outbox that knows what the Hub stored. *)
Lemma wreach_inv n w :
  wreach n w -> reach n (agent w) /\ hub_inv at_ (hubw w) /\ delivered (agent w) = stored_names (db (hubw w)).
Proof.
  induction 1 as [a t Ha|n w w' Hr (IHa & IHh & IHd) Hs].
  - split_and!; [done | by apply (reach_hub_inv at_ t (hub_start t)) |]. inversion Ha. subst. done.
  - destruct Hs as [h' w Hs|o a' w Ho Hrun|r a' w Hin Hrun]; cbn [agent hubw] in *.
    + split_and!; [|by eapply hstep_inv | done]. eapply reach_step; [exact IHa|]. apply step_deliver.
      rewrite IHd. apply stored_names_mono. by apply hstep_extends.
    + split_and!; [|done | by rewrite (runs_delivered _ _ _ Hrun)]. eapply reach_step; [exact IHa|].
      apply (step_run o); [|done]. destruct o; try done. by destruct (Ho ids).
    + split_and!; [|done | by rewrite (runs_delivered _ _ _ Hrun)]. eapply reach_step; [exact IHa|].
      apply (step_run (OAck (RAck r))); [|done]. cbn [honest]. intros id Hid. rewrite IHd. apply stored_name.
      pose proof (hi_answers _ _ IHh) as Ha. rewrite Forall_forall in Ha. by apply (Ha _ Hin).
Qed.

(** C4: Delivery end to end.  Whatever crashes, failed system calls, lost requests, lost
    answers, failed or uncertain commits and Hub restarts happen, every sample the
    agent accepted is in its outbox, or stored exactly once in the Hub's tables, or one
    of the losses its counter shows. *)
Theorem every_sample_is_kept_stored_or_counted n w :
  wreach n w -> Z.of_nat n <= max_steps ->
  let a := agent w in let d := files (disk a) in
  Z.of_nat (size (accepted a ∖ sample_files d ∖ stored_names (db (hubw w)))) <= counter d /\
  NoDup (row_key <$> rows (db (hubw w))).
Proof.
  intros Hr Hn. destruct (wreach_inv n w Hr) as (Ha & Hh & <-). cbv zeta. split; [|by apply Hh].
  pose proof (reach_inv n (agent w) Hn Ha) as Hinv.
  destruct (Down_dir_ok _ _ _ _ (sysinv_down _ _ Hinv)) as [_ Hl]. pose proof (si_accepted _ _ Hinv) as Hacc.
  assert (accepted (agent w) ∖ sample_files (files (disk (agent w))) ∖ delivered (agent w) ⊆
    lost (delivered (agent w)) (files (disk (agent w))) (seen (disk (agent w)))) as Hs%subseteq_size
    by (unfold lost; set_solver). lia.
Qed.
End Delivery.

(** ** A concrete delivery *)
Definition dv_time : time := 99 * Hour.
Definition dv_at (_ : Z * string) : time := dv_time.
Definition dv_sample : Sample := Outbox.demo_sample 1 dv_time.
Definition dv_req : Request := mkRequest Protocol "1" "samples" None [dv_sample] 1 0.

(** The agent stores a sample; the Hub stores it and answers; the agent acknowledges. *)
Definition dv_added : sys :=
  exec (OAdd dv_time dv_time dv_sample) [] (exec (OOpen dv_time) [] demo_start).
Definition dv_hub1 : hub := mkHub (mon (hub_start dv_time)) (mkDB {[1 := "token"]} ∅ []) dv_time ∅ [].
Definition dv_hub2 : hub := do_begin dv_time demo_node dv_req 0 dv_hub1.
Definition dv_hub3 : hub := do_write dv_time (io_of Committed) 0 dv_hub2.
Definition dv_hub4 : hub := do_end 0 dv_hub3.
Definition dv_ack : list string := [ID dv_sample].
Definition dv_agent : sys := exec (OAck dv_ack) [] (deliver (stored_names 1 (db dv_hub4)) dv_added).
Definition dv_world : world := mkWorld dv_agent dv_hub4.

Lemma runs_exec o l s : enabled o (running s) = true -> runs o s (exec o l s).
Proof. intros He. unfold exec. destruct (run_op o _) as [st' r] eqn:E. by eapply runs_done. Qed.

Lemma dv_reach : wreach dv_at 1 7 dv_world.
Proof.
  eapply (wreach_step _ _ 6 (mkWorld (deliver (stored_names 1 (db dv_hub4)) dv_added) dv_hub4)).
  2: { apply (w_ack dv_at 1 (mkResponse dv_ack [] false dv_time) dv_agent); [vm_compute; left|].
       apply runs_exec. vm_compute. reflexivity. }
  eapply (wreach_step _ _ 5 (mkWorld (deliver (stored_names 1 (db dv_hub3)) dv_added) dv_hub3)).
  2: { apply (w_hub dv_at 1 dv_hub4). apply do_end_step. vm_compute. eexists; reflexivity. }
  eapply (wreach_step _ _ 4 (mkWorld (deliver (stored_names 1 (db dv_hub2)) dv_added) dv_hub2)).
  2: { apply (w_hub dv_at 1 dv_hub3). apply do_write_step; vm_compute; [done | reflexivity]. }
  eapply (wreach_step _ _ 3 (mkWorld (deliver (stored_names 1 (db dv_hub1)) dv_added) dv_hub1)).
  2: { apply (w_hub dv_at 1 dv_hub2). apply do_begin_step; [vm_compute; reflexivity | by repeat constructor | done |].
       vm_compute. eexists; reflexivity. }
  eapply (wreach_step _ _ 2 (mkWorld dv_added (hub_start dv_time))).
  2: { apply (w_hub dv_at 1 dv_hub1 (mkWorld dv_added (hub_start dv_time))). apply (h_nodes dv_at {[1 := "token"]}). }
  eapply (wreach_step _ _ 1 (mkWorld (exec (OOpen dv_time) [] demo_start) (hub_start dv_time))).
  2: { apply (w_agent dv_at 1 (OAdd dv_time dv_time dv_sample) dv_added (mkWorld (exec (OOpen dv_time) [] demo_start) _));
         [done|]. apply runs_exec. vm_compute. reflexivity. }
  eapply (wreach_step _ _ 0 (mkWorld demo_start (hub_start dv_time))).
  - apply wreach_start. by constructor.
  - apply (w_agent dv_at 1 (OOpen dv_time) _ (mkWorld demo_start (hub_start dv_time))); [done|]. by apply runs_exec.
Qed.

(** After the acknowledgement the sample is stored once and its file is gone. *)
Lemma every_sample_is_kept_stored_or_counted_witness :
  files (disk dv_agent) !! sample_name (ID dv_sample) = None /\
  sample_name (ID dv_sample) ∈ stored_names 1 (db dv_hub4) /\
  let d := files (disk dv_agent) in
  Z.of_nat (size (accepted dv_agent ∖ sample_files d ∖ stored_names 1 (db dv_hub4))) <= counter d /\
  NoDup (row_key <$> rows (db dv_hub4)).
Proof.
  split; [vm_compute; reflexivity|]. split; [apply elem_of_list_to_set; vm_compute; left|].
  apply (every_sample_is_kept_stored_or_counted dv_at 1 7 dv_world dv_reach). done.
Defined.
