(* ===== verification/MonitorSchedule.v ===== *)
(** * The collection scheduler (internal/service/monitor_schedule.go)

    The scheduler is pure state under one mutex, so each method is a function on that
    state.  [AdmittedIDs] (the code's [Admitted]), [Queued] and the other lists of a pass come out in the order
    the code appends them.  Times are nanoseconds, so a [time.Duration] product or
    quotient is the one on [Z] with Go's truncation; [wrap64] marks the operation that
    could overflow. *)

From S2P Require Import Prelude GoStrings Float64.

Definition monitorMaxInFlight : Z := 16.
Definition monitorBackoffCap : duration := 300 * Second.
Definition monitorWarnAfter : Z := 3.

Inductive monitorOutcome := outcomeSuccess | outcomeFailure | outcomeSkipped | outcomeCancelled.

Record monitorNode := mkMNode {
  nid : Z; failures : Z; due : time; inFlight : bool; queued : bool; queuedAt : time;
  defers : Z; failureWarned : bool; deferWarned : bool
}.

Record monitorCompletion := mkCompletion { Failures : Z; WarnDegraded : bool; Recovered : bool }.

Record monitorTick := mkTick {
  AdmittedIDs : list Z; Queued : list Z; Skipped : list Z; WarnDeferred : list Z; RecoveredDefer : list Z; Deferred : Z
}.

Definition empty_tick : monitorTick := mkTick [] [] [] [] [] 0.

Record monitorScheduler := mkSched {
  interval : duration; maxInFlight : Z; nodes : gmap Z monitorNode; order : list Z; cursor : Z; outstanding : Z
}.

(** [newMonitorScheduler]. *)
Definition newMonitorScheduler (i : duration) : monitorScheduler :=
  mkSched (if i <=? 0 then Minute else i) monitorMaxInFlight ∅ [] 0 0.

Definition new_node (id : Z) (now : time) : monitorNode := mkMNode id 0 now false false 0 0 false false.

(** [capacityLocked]. *)
Definition capacityLocked (s : monitorScheduler) : Z :=
  let n := Z.of_nat (size (nodes s)) in if maxInFlight s <? n then maxInFlight s else n.

(** ** [sync] *)
Definition add_live (now : time) (acc : gmap Z monitorNode * list Z) (id : Z) : gmap Z monitorNode * list Z :=
  match acc.1 !! id with
  | Some _ => acc
  | None => (<[id := new_node id now]> acc.1, acc.2 ++ [id])
  end.

(** Sorting distinct identifiers has one result, so [sort.Slice] is any sort. *)
Definition sort_ids (l : list Z) : list Z := merge_sort Z.le l.

Definition sync (live : list Z) (now : time) (s : monitorScheduler) : monitorScheduler * list Z :=
  let '(ns, ord) := foldl (add_live now) (nodes s, order s) live in
  let ord := sort_ids ord in
  let kept := filter (fun id => id ∈ live) ord in
  let removed := filter (fun id => id ∉ live) ord in
  (mkSched (interval s) (maxInFlight s) (foldr delete ns removed) kept
     (if Z.of_nat (List.length kept) <=? cursor s then 0 else cursor s) (outstanding s), removed).

(** ** [plan] *)
(** [noteDeferLocked]. *)
Definition noteDeferLocked (i : duration) (now : time) (n : monitorNode) (t : monitorTick) : monitorNode * monitorTick :=
  if After (due n) now then (n, t)
  else
    let d := defers n + 1 in
    let warn := (monitorWarnAfter <=? d) && negb (deferWarned n) in
    (mkMNode (nid n) (failures n) (TimeAdd (due n) i) (inFlight n) (queued n) (queuedAt n) d (failureWarned n)
       (deferWarned n || warn),
     mkTick (AdmittedIDs t) (Queued t) (Skipped t) (if warn then WarnDeferred t ++ [nid n] else WarnDeferred t)
       (RecoveredDefer t) (Deferred t + 1)).

(** [dueLocked]. *)
Definition dueLocked (n : monitorNode) (now : time) : bool := queued n || negb (After (due n) now).

(** The variables of the loop of [plan]. *)
Record pass := mkPass { pnodes : gmap Z monitorNode; pflight : Z; pout : Z; ptick : monitorTick }.

(** A node that is due but finds no capacity keeps one pending slot (lines 209-211). *)
Definition enqueue (now : time) (n : monitorNode) : monitorNode :=
  if queued n then n
  else mkMNode (nid n) (failures n) (due n) (inFlight n) true now (defers n) (failureWarned n) (deferWarned n).

(** The body of the loop for one identifier. *)
Definition visit (i : duration) (now : time) (capacity : Z) (p : pass) (id : Z) : pass :=
  let t := ptick p in
  match pnodes p !! id with
  | None => p
  | Some n =>
      if inFlight n then
        let '(n', t') := noteDeferLocked i now n
          (mkTick (AdmittedIDs t) (Queued t) (Skipped t ++ [id]) (WarnDeferred t) (RecoveredDefer t) (Deferred t)) in
        mkPass (<[id := n']> (pnodes p)) (pflight p) (pout p) t'
      else if negb (dueLocked n now) then p
      else if capacity <=? pflight p then
        let '(n', t') := noteDeferLocked i now (enqueue now n)
          (mkTick (AdmittedIDs t) (Queued t ++ [id]) (Skipped t) (WarnDeferred t) (RecoveredDefer t) (Deferred t)) in
        mkPass (<[id := n']> (pnodes p)) (pflight p) (pout p) t'
      else
        mkPass (<[id := mkMNode (nid n) (failures n) (due n) true false (queuedAt n) 0 (failureWarned n) false]> (pnodes p))
          (pflight p + 1) (pout p + 1)
          (mkTick (AdmittedIDs t ++ [id]) (Queued t) (Skipped t) (WarnDeferred t)
             (if deferWarned n then RecoveredDefer t ++ [id] else RecoveredDefer t) (Deferred t))
  end.

(** The loop: [todo] more identifiers from the cursor. *)
Fixpoint plan_loop (i : duration) (now : time) (capacity : Z) (ord : list Z) (todo : nat) (cur : Z) (p : pass) : Z * pass :=
  match todo with
  | O => (cur, p)
  | S todo =>
      let len := Z.of_nat (List.length ord) in
      let id := nth (Z.to_nat (cur mod len)) ord 0 in
      plan_loop i now capacity ord todo ((cur + 1) mod len) (visit i now capacity p id)
  end.

Definition plan (now : time) (s : monitorScheduler) : monitorScheduler * monitorTick :=
  match order s with
  | [] => (s, empty_tick)
  | _ =>
      let '(cur, p) := plan_loop (interval s) now (capacityLocked s) (order s) (List.length (order s)) (cursor s)
                         (mkPass (nodes s) (outstanding s) (outstanding s) empty_tick) in
      (mkSched (interval s) (maxInFlight s) (pnodes p) (order s) cur (pout p), ptick p)
  end.

(** ** [complete] *)

(** [nextAlignedLocked]: the quotient first, then the loop that tops it up. *)
Fixpoint top_up (fuel : nat) (i : duration) (now next : time) : time :=
  match fuel with
  | O => next
  | S fuel => if After next now then next else top_up fuel i now (TimeAdd next i)
  end.

Definition nextAlignedLocked (i : duration) (previous now : time) : time :=
  if IsZero previous || negb (After previous now) then
    let steps := if IsZero previous then 1 else wrap64 (Z.quot (TimeSub now previous) i + 1) in
    let next := TimeAdd previous (wrap64 (steps * i)) in
    top_up (Z.to_nat ((now - next) / i + 1)) i now next
  else previous.

(** *** Backoff; [rand.Float64] is an argument. *)
(** [monitorJitter], the [float64] nearest to 0.1. *)
Definition monitorJitter : spec_float := S754_finite false 7205759403792794 (-56).

(** The doubling loop of [backoffDelayLocked]. *)
Fixpoint grow_base (steps : nat) (cap base : duration) : duration :=
  match steps with
  | O => base
  | S steps => if Z.quot cap 2 <=? base then cap else grow_base steps cap (wrap64 (base * 2))
  end.

Definition backoff_cap (i : duration) : duration := if i <? monitorBackoffCap then monitorBackoffCap else i.

Definition backoff_base (i : duration) (k : Z) : duration :=
  let cap := backoff_cap i in
  let base := grow_base (Z.to_nat (k - 1)) cap i in
  if cap <? base then cap else base.

Definition backoffDelayLocked (i : duration) (r : spec_float) (k : Z) : duration :=
  let cap := backoff_cap i in
  let jitter := f64_mul (f64_sub (f64_mul r (f64 2)) (f64 1)) monitorJitter in
  let delay := to_int64 (f64_mul (f64 (backoff_base i k)) (f64_add (f64 1) jitter)) in
  let delay := if delay <? i then i else delay in
  if cap <? delay then cap else delay.

(** [complete]. *)
Definition complete (id : Z) (o : monitorOutcome) (now : time) (r : spec_float) (s : monitorScheduler)
  : monitorScheduler * monitorCompletion :=
  let out := if 0 <? outstanding s then outstanding s - 1 else outstanding s in
  let with_nodes ns := mkSched (interval s) (maxInFlight s) ns (order s) (cursor s) out in
  match nodes s !! id with
  | None => (with_nodes (nodes s), mkCompletion 0 false false)
  | Some n =>
      if negb (inFlight n) then (with_nodes (nodes s), mkCompletion 0 false false)
      else match o with
      | outcomeSuccess =>
          (with_nodes (<[id := mkMNode (nid n) 0 (nextAlignedLocked (interval s) (due n) now) false false (queuedAt n)
                                 (defers n) false (deferWarned n)]> (nodes s)),
           mkCompletion 0 false (failureWarned n))
      | outcomeFailure =>
          let k := failures n + 1 in
          let warn := (monitorWarnAfter <=? k) && negb (failureWarned n) in
          (with_nodes (<[id := mkMNode (nid n) k (TimeAdd now (backoffDelayLocked (interval s) r k)) false false (queuedAt n)
                                 (defers n) (failureWarned n || warn) (deferWarned n)]> (nodes s)),
           mkCompletion k warn false)
      | _ =>
          (with_nodes (<[id := mkMNode (nid n) (failures n)
                                 (if queued n then due n else nextAlignedLocked (interval s) (due n) now) false (queued n)
                                 (queuedAt n) (defers n) (failureWarned n) (deferWarned n)]> (nodes s)),
           mkCompletion (failures n) false false)
      end
  end.

(** ** Queries *)
Definition admissionTiming (id : Z) (s : monitorScheduler) : time * time :=
  match nodes s !! id with Some n => (due n, queuedAt n) | None => (zero_time, zero_time) end.

Definition hasAdmissible (now : time) (s : monitorScheduler) : bool :=
  if capacityLocked s <=? outstanding s then false
  else existsb (fun id => match nodes s !! id with
                          | Some n => negb (inFlight n) && (queued n || negb (After (due n) now))
                          | None => false
                          end) (order s).

(** The nodes [earliestDue] looks at. *)
Definition waiting (s : monitorScheduler) : list monitorNode :=
  omap (fun id => match nodes s !! id with
                  | Some n => if inFlight n || queued n then None else Some n
                  | None => None
                  end) (order s).

Definition earliestDue (now : time) (s : monitorScheduler) : time :=
  if (outstanding s <? capacityLocked s) && existsb (fun n => negb (After (due n) now)) (waiting s) then zero_time
  else foldl (fun e n => if negb (After (due n) now) then e
                         else if IsZero e || Before (due n) e then due n else e) zero_time (waiting s).

Definition inFlightCount (s : monitorScheduler) : Z := outstanding s.
Definition queuedCount (s : monitorScheduler) : Z := count_if (fun p => queued p.2) (map_to_list (nodes s)).
Definition failures_of (id : Z) (s : monitorScheduler) : Z :=
  match nodes s !! id with Some n => failures n | None => 0 end.

(** The wait of the loop of [Start] (monitor.go, lines 221-229). *)
Definition wake_delay (now : time) (s : monitorScheduler) : duration :=
  if hasAdmissible now s then 0
  else
    let wait := earliestDue now s in
    if negb (IsZero wait) then
      let until := TimeSub wait now in if (0 <? until) && (until <? interval s) then until else interval s
    else interval s.

(** ** Well-formed schedulers *)
Record wf (s : monitorScheduler) : Prop := {
  wf_nodup : NoDup (order s);
  wf_nodes : forall id, id ∈ order s <-> is_Some (nodes s !! id);
  wf_ids : forall id n, nodes s !! id = Some n -> nid n = id;
  wf_cursor : 0 <= cursor s /\ (order s <> [] -> cursor s < Z.of_nat (List.length (order s)));
  wf_interval : 0 < interval s
}.

(** The order in which a pass visits the nodes. *)
Definition rotation (s : monitorScheduler) : list Z :=
  drop (Z.to_nat (cursor s)) (order s) ++ take (Z.to_nat (cursor s)) (order s).

Definition node_is (f : monitorNode -> bool) (ns : gmap Z monitorNode) (id : Z) : bool :=
  match ns !! id with Some n => f n | None => false end.
Definition eligible (now : time) (n : monitorNode) : bool := negb (inFlight n) && dueLocked n now.

Definition ids_where (f : monitorNode -> bool) (ns : gmap Z monitorNode) (l : list Z) : list Z :=
  filter (fun id => node_is f ns id = true) l.

(** *** The loop visits a rotation *)
Lemma plan_loop_fold i now cap ord todo cur p :
  0 <= cur < Z.of_nat (List.length ord) ->
  plan_loop i now cap ord todo cur p =
    ((cur + Z.of_nat todo) mod Z.of_nat (List.length ord),
     foldl (visit i now cap) p
       ((fun k => nth (Z.to_nat ((cur + Z.of_nat k) mod Z.of_nat (List.length ord))) ord 0) <$> seq 0 todo)).
Proof.
  revert cur p. induction todo as [|todo IH]; intros cur p Hc; cbn [plan_loop seq fmap list_fmap foldl].
  - f_equal. rewrite Z.add_0_r, Z.mod_small; lia.
  - rewrite IH by (apply Z.mod_pos_bound; lia). f_equal; [rewrite Zplus_mod_idemp_l; f_equal; lia|].
    rewrite Z.add_0_r. f_equal. rewrite <-fmap_S_seq, <-list_fmap_compose. apply list_fmap_ext. intros j k _. cbn.
    rewrite Zplus_mod_idemp_l. do 3 f_equal. lia.
Qed.

Lemma rotation_seq (ord : list Z) c :
  (c < List.length ord)%nat ->
  (fun k => nth (Z.to_nat ((Z.of_nat c + Z.of_nat k) mod Z.of_nat (List.length ord))) ord 0) <$> seq 0 (List.length ord)
  = drop c ord ++ take c ord.
Proof.
  intros Hc. apply list_eq. intros k. rewrite list_lookup_fmap.
  destruct (decide (k < List.length ord)%nat) as [Hk|Hk].
  - rewrite lookup_seq_lt by done. cbn [fmap option_fmap option_map].
    destruct (decide (k < List.length ord - c)%nat) as [Hd|Hd].
    + rewrite lookup_app_l by (rewrite length_drop; lia). rewrite lookup_drop.
      rewrite Z.mod_small by lia. replace (Z.to_nat (Z.of_nat c + Z.of_nat (0 + k))) with (c + k)%nat by lia.
      symmetry. rewrite nth_lookup. destruct (lookup_lt_is_Some_2 ord (c + k) ltac:(lia)) as [x Hx]. by rewrite Hx.
    + rewrite lookup_app_r by (rewrite length_drop; lia). rewrite length_drop, lookup_take_lt by lia.
      replace ((Z.of_nat c + Z.of_nat (0 + k)) mod Z.of_nat (List.length ord)) with (Z.of_nat (k - (List.length ord - c))).
      * rewrite Nat2Z.id. symmetry. rewrite nth_lookup.
        destruct (lookup_lt_is_Some_2 ord (k - (List.length ord - c)) ltac:(lia)) as [x Hx]. by rewrite Hx.
      * apply (Z.mod_unique _ _ 1); lia.
  - rewrite lookup_seq_ge by lia. cbn. symmetry. apply lookup_ge_None. rewrite length_app, length_drop, length_take. lia.
Qed.

Lemma plan_is_fold now s :
  wf s ->
  plan now s =
    let p := foldl (visit (interval s) now (capacityLocked s)) (mkPass (nodes s) (outstanding s) (outstanding s) empty_tick)
               (rotation s) in
    (mkSched (interval s) (maxInFlight s) (pnodes p) (order s) (cursor s) (pout p), ptick p).
Proof.
  intros [_ _ _ [Hc0 Hc] _]. unfold plan, rotation. destruct (order s) as [|x l] eqn:Eo.
  - rewrite drop_nil, take_nil. cbn. destruct s; cbn in *. by subst.
  - rewrite <-Eo in *. assert (0 <= cursor s < Z.of_nat (List.length (order s))) as Hcur by (split; [done | apply Hc; by rewrite Eo]).
    rewrite plan_loop_fold by done. rewrite <-(rotation_seq (order s)) by lia. rewrite Z2Nat.id by lia.
    rewrite Z.add_comm, Z.add_mod, Z_mod_same_full, Z.add_0_l, Z.mod_mod, Z.mod_small by lia. done.
Qed.

(** *** What a pass does to each node *)
Definition admit_node (n : monitorNode) : monitorNode :=
  mkMNode (nid n) (failures n) (due n) true false (queuedAt n) 0 (failureWarned n) false.
Definition deferred (i : duration) (now : time) (n : monitorNode) : monitorNode := (noteDeferLocked i now n empty_tick).1.

Lemma noteDefer_node i now n t : (noteDeferLocked i now n t).1 = deferred i now n.
Proof. unfold deferred, noteDeferLocked. by destruct (After (due n) now). Qed.

Lemma noteDefer_lists i now n t :
  let t' := (noteDeferLocked i now n t).2 in
  AdmittedIDs t' = AdmittedIDs t /\ Queued t' = Queued t /\ Skipped t' = Skipped t.
Proof. unfold noteDeferLocked. by destruct (After (due n) now). Qed.

Inductive fate := Admit | Enqueue | Skip | Leave.

Definition fate_of (now : time) (capacity flight : Z) (n : monitorNode) : fate :=
  if inFlight n then Skip
  else if negb (dueLocked n now) then Leave
  else if capacity <=? flight then Enqueue else Admit.

Definition apply_fate (i : duration) (now : time) (f : fate) (n : monitorNode) : monitorNode :=
  match f with
  | Admit => admit_node n
  | Enqueue => deferred i now (enqueue now n)
  | Skip => deferred i now n
  | Leave => n
  end.

Definition snoc_if (b : bool) (l : list Z) (id : Z) : list Z := if b then l ++ [id] else l.
Definition is_fate (f g : fate) : bool :=
  match f, g with Admit, Admit | Enqueue, Enqueue | Skip, Skip | Leave, Leave => true | _, _ => false end.

(** One visit, by the fate of the node. *)
Lemma visit_fate i now cap p id n :
  pnodes p !! id = Some n ->
  let f := fate_of now cap (pflight p) n in let p' := visit i now cap p id in
  pnodes p' = <[id := apply_fate i now f n]> (pnodes p) /\
  pflight p' = pflight p + (if is_fate f Admit then 1 else 0) /\ pout p' = pout p + (if is_fate f Admit then 1 else 0) /\
  AdmittedIDs (ptick p') = snoc_if (is_fate f Admit) (AdmittedIDs (ptick p)) id /\
  Queued (ptick p') = snoc_if (is_fate f Enqueue) (Queued (ptick p)) id /\
  Skipped (ptick p') = snoc_if (is_fate f Skip) (Skipped (ptick p)) id.
Proof.
  intros Hn. unfold visit, fate_of. rewrite Hn. cbv zeta.
  destruct (inFlight n) eqn:Ef; [|destruct (dueLocked n now) eqn:Ed; cbn [negb]; [destruct (cap <=? pflight p) eqn:Ec|]].
  - set (t := mkTick _ _ _ _ _ _). pose proof (noteDefer_node i now n t). pose proof (noteDefer_lists i now n t) as (HA & HQ & HS).
    destruct (noteDeferLocked i now n t) as [n' t']. cbn in *. subst n'. rewrite !Z.add_0_r. by split_and!.
  - set (t := mkTick _ _ _ _ _ _). pose proof (noteDefer_node i now (enqueue now n) t). pose proof (noteDefer_lists i now (enqueue now n) t) as (HA & HQ & HS).
    destruct (noteDeferLocked i now (enqueue now n) t) as [n' t']. cbn in *. subst n'. rewrite !Z.add_0_r. by split_and!.
  - cbn. by split_and!.
  - cbn. rewrite !Z.add_0_r. split_and!; try done. symmetry. by apply insert_id.
Qed.

(** The result of a pass over distinct nodes. *)
Record pass_result (i : duration) (now : time) (cap : Z) (R : list Z) (p p' : pass) : Prop := {
  pr_flight : pflight p' = pflight p + Z.of_nat (List.length (take (Z.to_nat (cap - pflight p)) (ids_where (eligible now) (pnodes p) R)));
  pr_out : pout p' = pout p + (pflight p' - pflight p);
  pr_admitted : AdmittedIDs (ptick p') = AdmittedIDs (ptick p) ++ take (Z.to_nat (cap - pflight p)) (ids_where (eligible now) (pnodes p) R);
  pr_queued : Queued (ptick p') = Queued (ptick p) ++ drop (Z.to_nat (cap - pflight p)) (ids_where (eligible now) (pnodes p) R);
  pr_skipped : Skipped (ptick p') = Skipped (ptick p) ++ ids_where inFlight (pnodes p) R;
  pr_other : forall id, id ∉ R -> pnodes p' !! id = pnodes p !! id;
  pr_nodes : forall id n, id ∈ R -> pnodes p !! id = Some n ->
    pnodes p' !! id = Some (apply_fate i now
      (if bool_decide (id ∈ take (Z.to_nat (cap - pflight p)) (ids_where (eligible now) (pnodes p) R)) then Admit
       else if bool_decide (id ∈ drop (Z.to_nat (cap - pflight p)) (ids_where (eligible now) (pnodes p) R)) then Enqueue
       else if inFlight n then Skip else Leave) n)
}.


Lemma ids_where_insert f ns id n R : id ∉ R -> ids_where f (<[id := n]> ns) R = ids_where f ns R.
Proof.
  unfold ids_where. induction R as [|x R IH]; [done|]. intros [Hx HR]%not_elem_of_cons. rewrite !filter_cons, IH by done.
  unfold node_is. by rewrite lookup_insert_ne.
Qed.

Lemma ids_where_cons f ns id n R :
  ns !! id = Some n -> ids_where f ns (id :: R) = (if f n then [id] else []) ++ ids_where f ns R.
Proof.
  intros Hn. unfold ids_where. rewrite filter_cons. unfold node_is. rewrite Hn. destruct (f n); by case_decide.
Qed.

Lemma ids_where_sub f ns R id : id ∈ ids_where f ns R -> id ∈ R.
Proof. unfold ids_where. by intros [_ ?]%list_elem_of_filter. Qed.

Lemma in_take (l : list Z) k id : id ∈ take k l -> id ∈ l.
Proof. intros H. rewrite <-(take_drop k l). apply elem_of_app. by left. Qed.
Lemma in_drop (l : list Z) k id : id ∈ drop k l -> id ∈ l.
Proof. intros H. rewrite <-(take_drop k l). apply elem_of_app. by right. Qed.

Lemma bool_decide_cons_ne (x id : Z) l : x <> id -> bool_decide (x ∈ id :: l) = bool_decide (x ∈ l).
Proof. intros Hne. apply bool_decide_ext. rewrite elem_of_cons. naive_solver. Qed.

Lemma mem_head (b : bool) (id : Z) l : id ∉ l -> bool_decide (id ∈ (if b then [id] else []) ++ l) = b.
Proof.
  intros H. destruct b; cbn [app]; [apply bool_decide_eq_true_2; by apply elem_of_cons; left | by apply bool_decide_eq_false_2].
Qed.
Lemma mem_tail (b : bool) (id x : Z) l : x <> id -> bool_decide (x ∈ (if b then [id] else []) ++ l) = bool_decide (x ∈ l).
Proof. intros H. destruct b; cbn [app]; [by apply bool_decide_cons_ne | done]. Qed.

Lemma visit_fold i now cap R p :
  NoDup R -> (forall id, id ∈ R -> is_Some (pnodes p !! id)) ->
  pass_result i now cap R p (foldl (visit i now cap) p R).
Proof.
  revert p. induction R as [|id R IH]; intros p Hnd Hsome; cbn [foldl].
  { split; cbn; rewrite ?take_nil, ?drop_nil, ?app_nil_r; cbn; try done; try lia. intros ? ? []%not_elem_of_nil. }
  apply NoDup_cons in Hnd as [Hid Hnd]. destruct (Hsome id ltac:(by apply elem_of_cons; left)) as [n Hn].
  destruct (visit_fate i now cap p id n Hn) as (Vn & Vf & Vo & Va & Vq & Vs).
  set (p1 := visit i now cap p id) in *. set (f := fate_of now cap (pflight p) n) in *.
  assert (forall g, ids_where g (pnodes p1) R = ids_where g (pnodes p) R) as Hids by (intros g; rewrite Vn; by apply ids_where_insert).
  destruct (IH p1 Hnd) as [If Io Ia Iq Is Iother In].
  { intros x Hx. rewrite Vn. destruct (decide (x = id)) as [->|]; [done|]. rewrite lookup_insert_ne by done.
    apply Hsome. by apply elem_of_cons; right. }
  set (E := ids_where (eligible now) (pnodes p) R) in *.
  assert (E = ids_where (eligible now) (pnodes p1) R) as HE by by rewrite Hids. rewrite <-HE in *.
  set (k := Z.to_nat (cap - pflight p)) in *.
  assert (ids_where (eligible now) (pnodes p) (id :: R) = (if is_fate f Admit || is_fate f Enqueue then [id] else []) ++ E /\
    ids_where inFlight (pnodes p) (id :: R) = (if is_fate f Skip then [id] else []) ++ ids_where inFlight (pnodes p) R /\
    (if is_fate f Admit then k = S (Z.to_nat (cap - pflight p1)) else
     if is_fate f Enqueue then k = 0%nat /\ Z.to_nat (cap - pflight p1) = 0%nat else Z.to_nat (cap - pflight p1) = k) /\
    (if inFlight n then Skip else if is_fate f Admit then Admit else if is_fate f Enqueue then Enqueue else Leave) = f) as (HEc & HSc & Hk & Hf).
  { rewrite !(ids_where_cons _ _ _ _ _ Hn). unfold eligible at 1. unfold f, fate_of in *. unfold k.
    destruct (inFlight n); [|destruct (dueLocked n now)]; cbn [negb andb] in *; [| |]; 
      [split_and!; try done; cbn in Vf; f_equal; lia | | split_and!; try done; cbn in Vf; f_equal; lia].
    destruct (cap <=? pflight p) eqn:Ec; cbn in Vf |- *; bools; split_and!; try done; lia. }
  rewrite Hids in Is. set (k1 := Z.to_nat (cap - pflight p1)) in *.
  assert (id ∉ E) as HidE by (intros H; by apply ids_where_sub in H).
  assert (forall x m, x ∈ R -> pnodes p !! x = Some m -> pnodes p1 !! x = Some m /\ x <> id) as HR.
  { intros x m Hx Hm. assert (x <> id) by (by intros ->). by rewrite Vn, lookup_insert_ne. }
  assert (pnodes (foldl (visit i now cap) p1 R) !! id = Some (apply_fate i now f n)) as Hself
    by (by rewrite Iother, Vn, lookup_insert_eq).
  assert (take k (ids_where (eligible now) (pnodes p) (id :: R)) = (if is_fate f Admit then [id] else []) ++ take k1 E) as Ht.
  { rewrite HEc. destruct f; cbn [is_fate orb app] in *; [by rewrite Hk | destruct Hk as [-> ->]; by rewrite !take_0 | by rewrite Hk | by rewrite Hk]. }
  assert (drop k (ids_where (eligible now) (pnodes p) (id :: R)) = (if is_fate f Enqueue then [id] else []) ++ drop k1 E) as Hd.
  { rewrite HEc. destruct f; cbn [is_fate orb app] in *; [by rewrite Hk | by destruct Hk as [-> ->] | by rewrite Hk | by rewrite Hk]. }
  assert (forall l, snoc_if (is_fate f Admit) l id = l ++ (if is_fate f Admit then [id] else [])) as Hsa
    by (intros l; destruct f; cbn; by rewrite ?app_nil_r).
  assert (forall l, snoc_if (is_fate f Enqueue) l id = l ++ (if is_fate f Enqueue then [id] else [])) as Hsq
    by (intros l; destruct f; cbn; by rewrite ?app_nil_r).
  assert (forall l, snoc_if (is_fate f Skip) l id = l ++ (if is_fate f Skip then [id] else [])) as Hss
    by (intros l; destruct f; cbn; by rewrite ?app_nil_r).
  split; fold k; rewrite ?Ht, ?Hd.
  - rewrite If, Vf, length_app. destruct (is_fate f Admit); cbn [List.length]; lia.
  - rewrite Io, Vo, Vf. lia.
  - by rewrite Ia, Va, Hsa, <-app_assoc.
  - by rewrite Iq, Vq, Hsq, <-app_assoc.
  - by rewrite Is, Vs, Hss, HSc, <-app_assoc.
  - intros x [Hx HxR]%not_elem_of_cons. by rewrite Iother, Vn, lookup_insert_ne.
  - intros x m [->|Hx]%elem_of_cons Hm.
    + rewrite Hn in Hm. injection Hm as <-. rewrite Hself. do 2 f_equal. rewrite <-Hf.
      rewrite !mem_head by (intros H; first [apply in_take in H | apply in_drop in H]; done).
      unfold f, fate_of. destruct (inFlight n); [done|]. destruct (dueLocked n now); [|done]. cbn [negb].
      by destruct (cap <=? pflight p).
    + destruct (HR x m Hx Hm) as [Hm1 Hne]. rewrite (In x m Hx Hm1). by rewrite !mem_tail.
Qed.

Lemma rotation_perm s : rotation s ≡ₚ order s.
Proof. unfold rotation. rewrite Permutation_app_comm. by rewrite take_drop. Qed.

Lemma plan_spec now s :
  wf s ->
  let p := foldl (visit (interval s) now (capacityLocked s)) (mkPass (nodes s) (outstanding s) (outstanding s) empty_tick) (rotation s) in
  plan now s = (mkSched (interval s) (maxInFlight s) (pnodes p) (order s) (cursor s) (pout p), ptick p) /\
  pass_result (interval s) now (capacityLocked s) (rotation s) (mkPass (nodes s) (outstanding s) (outstanding s) empty_tick) p.
Proof.
  intros Hwf p. split; [by apply plan_is_fold|]. apply visit_fold.
  - rewrite rotation_perm. apply Hwf.
  - intros id. rewrite rotation_perm. cbn. apply Hwf.
Qed.

(** ** [sync] *)
Lemma add_live_spec now live ns ord :
  NoDup ord -> (forall id, id ∈ ord <-> is_Some (ns !! id)) ->
  let r := foldl (add_live now) (ns, ord) live in
  NoDup r.2 /\ (forall id, id ∈ r.2 <-> is_Some (r.1 !! id)) /\
  forall id, r.1 !! id = match ns !! id with
                         | Some n => Some n
                         | None => if bool_decide (id ∈ live) then Some (new_node id now) else None
                         end.
Proof.
  revert ns ord. induction live as [|x live IH]; intros ns ord Hnd Hdom; cbn [foldl].
  { split_and!; try done. intros id. cbn. by destruct (ns !! id). }
  assert (add_live now (ns, ord) x =
    match ns !! x with Some _ => (ns, ord) | None => (<[x := new_node x now]> ns, ord ++ [x]) end) as -> by reflexivity.
  destruct (ns !! x) as [n|] eqn:Ex.
  - destruct (IH ns ord Hnd Hdom) as (H1 & H2 & H3). split_and!; try done. intros id. rewrite H3.
    destruct (ns !! id) eqn:Eid; [done|]. rewrite bool_decide_cons_ne by congruence. done.
  - assert (x ∉ ord) as Hx by (rewrite Hdom, Ex; by intros []).
    destruct (IH (<[x := new_node x now]> ns) (ord ++ [x])) as (H1 & H2 & H3).
    + apply NoDup_app. split_and!; [done | | by apply NoDup_singleton]. intros y Hy Hyx. set_solver.
    + intros id. rewrite elem_of_app, list_elem_of_singleton, lookup_insert_is_Some, Hdom. destruct (decide (x = id)); naive_solver.
    + split_and!; try done. intros id. rewrite H3. destruct (decide (id = x)) as [->|Hne].
      * rewrite lookup_insert_eq, Ex, bool_decide_eq_true_2; [done | by apply elem_of_cons; left].
      * rewrite lookup_insert_ne by done. destruct (ns !! id); [done|]. by rewrite bool_decide_cons_ne.
Qed.

Lemma lookup_foldr_delete {A} (l : list Z) (m : gmap Z A) id :
  foldr delete m l !! id = if bool_decide (id ∈ l) then None else m !! id.
Proof.
  induction l as [|x l IH]; cbn; [done|]. destruct (decide (id = x)) as [->|Hne].
  - rewrite lookup_delete_eq, bool_decide_eq_true_2; [done | by apply elem_of_cons; left].
  - rewrite lookup_delete_ne by done. by rewrite IH, bool_decide_cons_ne.
Qed.

Lemma sync_spec live now s s' removed :
  wf s -> sync live now s = (s', removed) ->
  wf s' /\ interval s' = interval s /\ maxInFlight s' = maxInFlight s /\ outstanding s' = outstanding s /\
  (forall id, id ∈ removed <-> is_Some (nodes s !! id) /\ id ∉ live) /\
  (forall id, nodes s' !! id = if bool_decide (id ∈ live)
                               then Some (default (new_node id now) (nodes s !! id)) else None) /\
  StronglySorted Z.le (order s').
Proof.
  intros [Hnd Hdom Hids [Hc0 Hc] Hi] Hsync. unfold sync in Hsync.
  destruct (add_live_spec now live (nodes s) (order s) Hnd Hdom) as (H1 & H2 & H3).
  destruct (foldl (add_live now) (nodes s, order s) live) as [ns ord]. cbn [fst snd] in *.
  injection Hsync as <- <-. cbn [interval maxInFlight outstanding nodes order].
  assert (sort_ids ord ≡ₚ ord) as Hperm by apply merge_sort_Permutation.
  assert (forall id, foldr delete ns (filter (fun id => id ∉ live) (sort_ids ord)) !! id =
    if bool_decide (id ∈ live) then Some (default (new_node id now) (nodes s !! id)) else None) as Hn.
  { intros id. rewrite lookup_foldr_delete. destruct (decide (id ∈ live)) as [Hl|Hl].
    - rewrite bool_decide_eq_false_2 by (intros [? _]%list_elem_of_filter; done). rewrite H3, bool_decide_eq_true_2 by done.
      by destruct (nodes s !! id).
    - rewrite (bool_decide_eq_false_2 (id ∈ live)) by done. destruct (decide (id ∈ ord)) as [Ho|Ho].
      + rewrite bool_decide_eq_true_2; [done|]. apply list_elem_of_filter. by rewrite Hperm.
      + rewrite bool_decide_eq_false_2 by (intros [_ Hin]%list_elem_of_filter; by rewrite Hperm in Hin).
        rewrite H2 in Ho. destruct (ns !! id) eqn:E; [|done]. by destruct Ho. }
  split_and!; try done.
  - split; cbn [nodes order cursor interval]; try done.
    + apply NoDup_filter. by rewrite Hperm.
    + intros id. rewrite Hn, list_elem_of_filter, Hperm, H2, H3. destruct (decide (id ∈ live)) as [Hl|Hl].
      * rewrite bool_decide_eq_true_2 by done. destruct (nodes s !! id); naive_solver.
      * rewrite bool_decide_eq_false_2 by done. split; [naive_solver | by intros []].
    + intros id n Hid. rewrite Hn in Hid. case_bool_decide; [|done]. injection Hid as <-.
      destruct (nodes s !! id) eqn:E; [by apply Hids | done].
    + case_match eqn:E; bools; [split; [done|]; intros Hne | split; [done | lia]].
      destruct (filter (fun id => id ∈ live) (sort_ids ord)); [done|]. cbn [List.length]. lia.
  - intros id. rewrite list_elem_of_filter, Hperm, H2, H3. destruct (nodes s !! id); [naive_solver|].
    case_bool_decide; naive_solver.
  - apply (StronglySorted_sublist _ _ (sort_ids ord)); [apply sublist_filter|]. apply StronglySorted_merge_sort; apply _.
Qed.

(** ** The scheduler and its workers

    [workers] are the collections that were admitted and have not reported.  A deleted
    node's worker keeps running; its identifier does not come back to the node list
    before it reports. *)
Record run := mkRun { sched : monitorScheduler; workers : list Z }.

Inductive rstep : run -> run -> Prop :=
| r_sync live now s ws s' removed :
    (forall id, id ∈ live -> id ∉ order s -> id ∉ ws) -> sync live now s = (s', removed) ->
    rstep (mkRun s ws) (mkRun s' ws)
| r_plan now s ws s' t : plan now s = (s', t) -> rstep (mkRun s ws) (mkRun s' (ws ++ AdmittedIDs t))
| r_complete id o now r s s' c ws1 ws2 :
    complete id o now r s = (s', c) -> rstep (mkRun s (ws1 ++ id :: ws2)) (mkRun s' (ws1 ++ ws2)).

Definition start (i : duration) : run := mkRun (newMonitorScheduler i) [].

Record node_ok (ws : list Z) (id : Z) (n : monitorNode) : Prop := {
  ok_counts : 0 <= failures n /\ 0 <= defers n;
  ok_failure : failureWarned n = true <-> monitorWarnAfter <= failures n;
  ok_defer : deferWarned n = true <-> monitorWarnAfter <= defers n;
  ok_flight : inFlight n = true <-> id ∈ ws;
  ok_queued : inFlight n = true -> queued n = false
}.

Record run_inv (r : run) : Prop := {
  ri_wf : wf (sched r);
  ri_max : maxInFlight (sched r) = monitorMaxInFlight;
  ri_out : outstanding (sched r) = Z.of_nat (List.length (workers r)) /\ outstanding (sched r) <= monitorMaxInFlight;
  ri_nodup : NoDup (workers r);
  ri_nodes : map_Forall (node_ok (workers r)) (nodes (sched r))
}.

Lemma deferred_same i now n :
  nid (deferred i now n) = nid n /\ failures (deferred i now n) = failures n /\ inFlight (deferred i now n) = inFlight n /\
  queued (deferred i now n) = queued n /\ failureWarned (deferred i now n) = failureWarned n.
Proof. unfold deferred, noteDeferLocked. by destruct (After (due n) now). Qed.

Lemma deferred_ok ws id i now n : node_ok ws id n -> node_ok ws id (deferred i now n).
Proof.
  intros [Hc Hf Hd Hfl Hq]. unfold deferred, noteDeferLocked. destruct (After (due n) now); [done|]. cbn [fst].
  split; cbn; try done; [lia|]. unfold monitorWarnAfter in *. destruct (deferWarned n); cbn.
  - split; [|done]. intros _. destruct Hd as [Hd _]. specialize (Hd eq_refl). lia.
  - rewrite andb_true_r. by rewrite Z.leb_le.
Qed.

Lemma apply_fate_ok i now f n ws ws' id :
  node_ok ws id n -> (id ∈ ws' <-> id ∈ ws \/ f = Admit) -> (f = Enqueue -> inFlight n = false) ->
  node_ok ws' id (apply_fate i now f n).
Proof.
  intros Hn Hws He. destruct f; cbn [apply_fate].
  - destruct Hn as [Hc Hf Hd Hfl Hq]. split; cbn; [lia | done | unfold monitorWarnAfter; split; [done | lia] | tauto | done].
  - specialize (He eq_refl). apply deferred_ok. destruct Hn as [Hc Hf Hd Hfl Hq].
    assert (id ∈ ws' <-> id ∈ ws) as Hiff by (rewrite Hws; naive_solver).
    unfold enqueue. destruct (queued n); split; cbn; rewrite ?Hiff; first [done | congruence].
  - apply deferred_ok. destruct Hn as [Hc Hf Hd Hfl Hq]. assert (id ∈ ws' <-> id ∈ ws) as Hiff by (rewrite Hws; naive_solver).
    split; rewrite ?Hiff; done.
  - destruct Hn as [Hc Hf Hd Hfl Hq]. assert (id ∈ ws' <-> id ∈ ws) as Hiff by (rewrite Hws; naive_solver).
    split; rewrite ?Hiff; done.
Qed.

Lemma ids_where_true f ns R id : id ∈ ids_where f ns R -> exists n, ns !! id = Some n /\ f n = true.
Proof. unfold ids_where, node_is. intros [H _]%list_elem_of_filter. destruct (ns !! id) as [n|]; [eauto | done]. Qed.

Lemma plan_inv now s ws s' t :
  run_inv (mkRun s ws) -> plan now s = (s', t) -> run_inv (mkRun s' (ws ++ AdmittedIDs t)).
Proof.
  intros [Hwf Hm [Ho Hmax] Hnd Hnodes] Hp. cbn [sched workers] in *.
  destruct (plan_spec now s Hwf) as [Hplan [Pf Po Pa Pq _ Pother Pn]]. rewrite Hp in Hplan. injection Hplan as -> ->.
  set (p := foldl _ _ _) in *. cbn [pnodes pflight pout ptick AdmittedIDs empty_tick app] in *.
  set (E := ids_where (eligible now) (nodes s) (rotation s)) in *. set (k := Z.to_nat (capacityLocked s - outstanding s)) in *.
  assert (NoDup E) as HE by (apply NoDup_filter; rewrite rotation_perm; apply Hwf).
  assert (forall id, id ∈ E -> id ∉ ws) as Hfresh.
  { intros id Hid Hw. destruct (ids_where_true _ _ _ _ Hid) as (n & Hn & He). unfold eligible in He.
    apply andb_true_iff in He as [He%negb_true_iff _]. by rewrite (proj2 (ok_flight _ _ _ (Hnodes id n Hn)) Hw) in He. }
  assert (forall id, pnodes p !! id = None <-> nodes s !! id = None) as Hkeys.
  { intros id. destruct (nodes s !! id) as [n|] eqn:En.
    - rewrite (Pn id n); [done | rewrite rotation_perm; apply Hwf; eauto | done].
    - rewrite Pother; [done|]. rewrite rotation_perm, (wf_nodes _ Hwf), En. by intros []. }
  assert (forall id n', pnodes p !! id = Some n' -> exists n f, nodes s !! id = Some n /\ n' = apply_fate (interval s) now f n /\
    (f = Admit <-> id ∈ take k E) /\ (f = Enqueue -> inFlight n = false)) as Hfate.
  { intros id n' Hn'. destruct (nodes s !! id) as [n|] eqn:En; [|by rewrite (proj2 (Hkeys id) En) in Hn'].
    rewrite (Pn id n) in Hn' by (done || (rewrite rotation_perm; apply Hwf; eauto)). injection Hn' as <-.
    exists n. eexists. split_and!; [done | done | |].
    - case_bool_decide; [by split|]. split; [|done]. by repeat case_match.
    - case_bool_decide; [done|]. case_bool_decide as Hd; [|by case_match]. intros _. apply in_drop, ids_where_true in Hd as (n2 & Hn2 & He).
      rewrite En in Hn2. injection Hn2 as <-. unfold eligible in He. by apply andb_true_iff in He as [He%negb_true_iff _]. }
  assert (Z.of_nat (List.length (take k E)) <= Z.of_nat k) as Hlen by (rewrite length_take; lia).
  assert (capacityLocked s <= monitorMaxInFlight) as Hcap.
  { unfold capacityLocked. rewrite Hm. case_match eqn:Ec; bools; lia. }
  split; cbn [sched workers].
  - split; cbn [order nodes cursor interval]; try apply Hwf.
    + intros id. rewrite (wf_nodes _ Hwf). specialize (Hkeys id). rewrite <-!not_eq_None_Some. tauto.
    + intros id n' Hn'. destruct (Hfate id n' Hn') as (n & f & Hn & -> & _ & _). pose proof (wf_ids _ Hwf id n Hn) as Hid.
      destruct f; cbn [apply_fate]; try done; [|by destruct (deferred_same (interval s) now n) as [-> _]].
      destruct (deferred_same (interval s) now (enqueue now n)) as [-> _]. unfold enqueue. by destruct (queued n).
  - done.
  - cbn [outstanding]. rewrite Po, Pf, Pa, length_app. unfold k in Hlen |- *. lia.
  - rewrite Pa. apply NoDup_app. split_and!; [done | | by eapply sublist_NoDup, sublist_take].
    intros id Hw Hid. by apply (Hfresh id); [apply in_take in Hid|].
  - cbn [nodes]. intros id n' Hn'. destruct (Hfate id n' Hn') as (n & f & Hn & -> & Hadm & Henq).
    apply (apply_fate_ok _ _ _ _ ws); [by apply Hnodes | rewrite elem_of_app, Pa; tauto | done].
Qed.

Lemma node_ok_workers ws ws' id n : (id ∈ ws <-> id ∈ ws') -> node_ok ws id n -> node_ok ws' id n.
Proof. intros Hiff [? ? ? Hf ?]. split; try done. by rewrite <-Hiff. Qed.

Lemma new_node_ok ws id now : id ∉ ws -> node_ok ws id (new_node id now).
Proof. intros H. split; cbn; unfold monitorWarnAfter; try done; lia. Qed.

Lemma sync_inv live now s ws s' removed :
  run_inv (mkRun s ws) -> (forall id, id ∈ live -> id ∉ order s -> id ∉ ws) -> sync live now s = (s', removed) ->
  run_inv (mkRun s' ws).
Proof.
  intros [Hwf Hm [Ho Hmax] Hnd Hnodes] Hfresh Hs. cbn [sched workers] in *.
  destruct (sync_spec _ _ _ _ _ Hwf Hs) as (Hwf' & _ & Hm' & Ho' & _ & Hn & _).
  split; cbn [sched workers]; [done | congruence | split; congruence | done|].
  intros id n Hid. rewrite Hn in Hid. case_bool_decide as Hl; [|done]. injection Hid as <-.
  destruct (nodes s !! id) as [n|] eqn:E; [by apply Hnodes|]. apply new_node_ok, Hfresh; [done|].
  rewrite (wf_nodes _ Hwf), E. by intros [].
Qed.

(** The state of a node whose worker reported. *)
Definition finished_node (i : duration) (o : monitorOutcome) (now : time) (r : spec_float) (n : monitorNode) : monitorNode :=
  match o with
  | outcomeSuccess =>
      mkMNode (nid n) 0 (nextAlignedLocked i (due n) now) false false (queuedAt n) (defers n) false (deferWarned n)
  | outcomeFailure =>
      mkMNode (nid n) (failures n + 1) (TimeAdd now (backoffDelayLocked i r (failures n + 1))) false false (queuedAt n)
        (defers n) (failureWarned n || (monitorWarnAfter <=? failures n + 1) && negb (failureWarned n)) (deferWarned n)
  | _ =>
      mkMNode (nid n) (failures n) (if queued n then due n else nextAlignedLocked i (due n) now) false (queued n)
        (queuedAt n) (defers n) (failureWarned n) (deferWarned n)
  end.

Lemma complete_spec id o now r s s' c :
  complete id o now r s = (s', c) ->
  interval s' = interval s /\ maxInFlight s' = maxInFlight s /\ order s' = order s /\ cursor s' = cursor s /\
  outstanding s' = (if 0 <? outstanding s then outstanding s - 1 else outstanding s) /\
  nodes s' = match nodes s !! id with
             | Some n => if inFlight n then <[id := finished_node (interval s) o now r n]> (nodes s) else nodes s
             | None => nodes s
             end.
Proof.
  unfold complete. destruct (nodes s !! id) as [n|]; [|by intros [= <- <-]].
  destruct (inFlight n); [|by intros [= <- <-]]. destruct o; by intros [= <- <-].
Qed.

Lemma finished_ok i o now r n ws ws' id :
  node_ok ws id n -> id ∉ ws' -> node_ok ws' id (finished_node i o now r n).
Proof.
  intros [[Hc Hc'] Hf Hd Hfl Hq] Hw. destruct o; cbn [finished_node]; split; cbn; unfold monitorWarnAfter in *; try done; try lia.
  all: try (split; [done | lia]); try (split; [done | intros; exfalso; auto]).
  destruct (failureWarned n); cbn; [|by rewrite andb_true_r, Z.leb_le].
  split; [|done]. intros _. destruct Hf as [Hf _]. specialize (Hf eq_refl). lia.
Qed.

Lemma complete_inv id o now r s s' c ws1 ws2 :
  run_inv (mkRun s (ws1 ++ id :: ws2)) -> complete id o now r s = (s', c) -> run_inv (mkRun s' (ws1 ++ ws2)).
Proof.
  intros [Hwf Hm [Ho Hmax] Hnd Hnodes] Hc. cbn [sched workers] in *.
  destruct (complete_spec _ _ _ _ _ _ _ Hc) as (Hi & Hm' & Hor & Hcu & Hout & Hn).
  rewrite length_app in Ho. cbn [List.length] in Ho.
  assert ((id ∉ (ws1 ++ ws2)) /\ NoDup (ws1 ++ ws2)) as [Hid Hnd'].
  { apply NoDup_app in Hnd as (H1 & H2 & [H3 H4]%NoDup_cons). split; [|apply NoDup_app; split_and!; try done].
    - intros [Hin|Hin]%elem_of_app; [|done]. apply (H2 id Hin). by apply elem_of_cons; left.
    - intros x Hx Hx2. apply (H2 x Hx). by apply elem_of_cons; right. }
  assert (forall x, x <> id -> x ∈ ws1 ++ id :: ws2 <-> x ∈ ws1 ++ ws2) as Hx
    by (intros x Hne; rewrite !elem_of_app, elem_of_cons; naive_solver).
  split; cbn [sched workers].
  - destruct Hwf as [W1 W2 W3 W4 W5]. split; rewrite ?Hor, ?Hcu, ?Hi; try done; rewrite Hn.
    + intros x. rewrite W2. destruct (nodes s !! id) as [n|] eqn:E; [|done]. destruct (inFlight n); [|done].
      rewrite lookup_insert_is_Some. destruct (decide (id = x)) as [<-|]; [rewrite E; naive_solver | naive_solver].
    + intros x m. destruct (nodes s !! id) as [n|] eqn:E; [|apply W3]. destruct (inFlight n); [|apply W3].
      rewrite lookup_insert_Some. intros [[<- <-]|[_ Hl]]; [|by apply W3]. rewrite <-(W3 id n E). by destruct o.
  - congruence.
  - rewrite Hout, length_app. destruct (0 <? outstanding s) eqn:E0; bools; lia.
  - done.
  - intros x m. rewrite Hn. destruct (nodes s !! id) as [n|] eqn:E.
    + pose proof (Hnodes id n E) as Hok. rewrite (proj2 (ok_flight _ _ _ Hok)) by (rewrite elem_of_app, elem_of_cons; auto).
      rewrite lookup_insert_Some. intros [[<- <-]|[Hne Hl]]; [by eapply finished_ok|].
      eapply node_ok_workers; [by apply Hx | by apply Hnodes].
    + intros Hl. assert (x <> id) by congruence. eapply node_ok_workers; [by apply Hx | by apply Hnodes].
Qed.

Lemma rstep_inv r r' : run_inv r -> rstep r r' -> run_inv r'.
Proof.
  intros Hi Hs. destruct Hs as [live now s ws s' removed Hf Hs|now s ws s' t Hp|id o now rr s s' c ws1 ws2 Hc].
  - by eapply sync_inv.
  - by eapply plan_inv.
  - by eapply complete_inv.
Qed.

Lemma reach_run_inv i r : rtc rstep (start i) r -> run_inv r.
Proof.
  intros Hr. assert (run_inv (start i)) as H0.
  { unfold start, newMonitorScheduler. split; cbn; try done; [|apply NoDup_nil_2].
    split; cbn; try done; [apply NoDup_nil_2 | intros id; split; [by intros ?%not_elem_of_nil | by intros []]|].
    destruct (i <=? 0) eqn:E; bools; [done | lia]. }
  induction Hr as [r|r1 r2 r3 Hs Hr IH]; [done|]. apply IH. by eapply rstep_inv.
Qed.

(** C8: Bounded collection.  Under any interleaving of node-list changes, passes and
    reports of workers, at most 16 collections run, no node has two, the nodes marked
    as running are the ones with a worker, a running node is not queued, and the
    capacity of a deleted node's worker is held until it reports.  (Identifiers of servers
    are never given out again, so a deleted node does not reappear while its worker runs.) *)
Theorem collections_bounded i r :
  rtc rstep (start i) r ->
  Z.of_nat (List.length (workers r)) <= 16 /\ NoDup (workers r) /\
  outstanding (sched r) = Z.of_nat (List.length (workers r)) /\
  forall id n, nodes (sched r) !! id = Some n ->
    (inFlight n = true <-> id ∈ workers r) /\ (inFlight n = true -> queued n = false).
Proof.
  intros Hr. destruct (reach_run_inv _ _ Hr) as [_ _ [Ho Hmax] Hnd Hn]. unfold monitorMaxInFlight in *.
  split_and!; [lia | done | done|]. intros id n Hid. destruct (Hn id n Hid). done.
Qed.

(** A pass admits the first eligible nodes of its order, as many as there is
    capacity, and queues the rest.  The admitted nodes run and are no longer queued;
    the others that were due keep exactly one pending slot; running nodes are skipped;
    no other node changes its state. *)
Theorem pass_admits_up_to_capacity now s s' t :
  wf s -> plan now s = (s', t) ->
  let eligible_ids := ids_where (eligible now) (nodes s) (rotation s) in
  let free := Z.to_nat (capacityLocked s - outstanding s) in
  AdmittedIDs t = take free eligible_ids /\ Queued t = drop free eligible_ids /\
  Skipped t = ids_where inFlight (nodes s) (rotation s) /\
  outstanding s' = outstanding s + Z.of_nat (List.length (AdmittedIDs t)) /\
  forall id n, nodes s !! id = Some n -> exists n', nodes s' !! id = Some n' /\ failures n' = failures n /\
    inFlight n' = inFlight n || bool_decide (id ∈ AdmittedIDs t) /\
    queued n' = negb (bool_decide (id ∈ AdmittedIDs t)) && (queued n || bool_decide (id ∈ Queued t)).
Proof.
  intros Hwf Hp. destruct (plan_spec now s Hwf) as [Hplan [Pf Po Pa Pq Ps Pother Pn]]. rewrite Hp in Hplan.
  injection Hplan as -> ->. cbn [pnodes pflight pout ptick AdmittedIDs Queued Skipped empty_tick app] in *. cbv zeta.
  split_and!; [done | done | done | cbn [outstanding]; rewrite Po, Pf, Pa; lia|].
  intros id n Hn. rewrite Pa, Pq. cbn [nodes]. eexists.
  split; [apply Pn; [rewrite rotation_perm; apply Hwf; eauto | done]|].
  set (E := ids_where (eligible now) (nodes s) (rotation s)). set (k := Z.to_nat (capacityLocked s - outstanding s)).
  assert (id ∈ E -> inFlight n = false) as HE.
  { intros (n2 & Hn2 & He)%ids_where_true. rewrite Hn in Hn2. injection Hn2 as <-. unfold eligible in He.
    by apply andb_true_iff in He as [He%negb_true_iff _]. }
  destruct (bool_decide (id ∈ take k E)) eqn:Et; [cbn; rewrite orb_true_r; done|].
  destruct (bool_decide (id ∈ drop k E)) eqn:Ed; cbn [apply_fate].
  - apply bool_decide_eq_true in Ed. apply in_drop in Ed. destruct (deferred_same (interval s) now (enqueue now n)) as (_ & -> & -> & -> & _).
    rewrite orb_true_r, orb_false_r. unfold enqueue. by destruct (queued n) eqn:Eq.
  - rewrite !orb_false_r. cbn [negb andb]. destruct (inFlight n) eqn:Ef; [|done]. cbn [apply_fate].
    destruct (deferred_same (interval s) now n) as (_ & -> & -> & -> & _). by rewrite Ef.
Qed.

(** ** Rescheduling *)

(** [next] is the first slot after [now] on the grid of step [i] through [previous]. *)
Definition first_slot (i : duration) (previous now next : time) : Prop :=
  if now <? previous then next = previous
  else now < next /\ next <= now + i /\ (i | next - previous).

Lemma nextAligned_first_slot i previous now :
  0 < i -> 0 < previous -> now - previous + i < 2 ^ 62 -> first_slot i previous now (nextAlignedLocked i previous now).
Proof.
  intros Hi Hp Hb. unfold nextAlignedLocked, first_slot. rewrite (proj2 (IsZero_false previous)) by lia. cbn [orb].
  destruct (now <? previous) eqn:E; bools.
  - by rewrite (proj2 (After_spec previous now)).
  - rewrite (proj2 (After_false previous now)) by done. cbn [negb].
    unfold TimeSub, TimeAdd. rewrite (Z.min_r int64_max), (Z.max_r int64_min) by (unfold int64_min, int64_max; lia).
    rewrite Z.quot_div_nonneg by lia.
    pose proof (Z.div_pos (now - previous) i ltac:(lia) Hi). pose proof (Z.mul_div_le (now - previous) i Hi).
    pose proof (Z.mul_succ_div_gt (now - previous) i Hi). set (k := (now - previous) / i) in *.
    assert (k <= now - previous) by nia.
    rewrite (wrap64_id (k + 1)) by (unfold in_int64, int64_min, int64_max; lia).
    assert ((k + 1) * i = i * k + i) as Hm by lia.
    rewrite wrap64_id by (unfold in_int64, int64_min, int64_max; lia).
    assert (forall f, top_up f i now (previous + (k + 1) * i) = previous + (k + 1) * i) as ->.
    { intros [|f]; [done|]. cbn [top_up]. by rewrite (proj2 (After_spec _ _)) by lia. }
    split_and!; [lia | lia|]. exists (k + 1). lia.
Qed.

(** Repeated doubling with the saturating test is the power, capped. *)
Lemma grow_base_min steps cap b :
  0 < b <= cap -> cap < 2 ^ 62 -> (2 | cap) \/ b = cap ->
  grow_base steps cap b = Z.min (b * 2 ^ Z.of_nat steps) cap.
Proof.
  revert b. induction steps as [|steps IH]; intros b Hb Hc He; cbn [grow_base]; [rewrite Z.mul_1_r; lia|].
  rewrite Nat2Z.inj_succ, Z.pow_succ_r by lia. pose proof (Z.pow_pos_nonneg 2 (Z.of_nat steps) ltac:(lia) ltac:(lia)) as Hpos.
  rewrite Z.quot_div_nonneg by lia. destruct (cap / 2 <=? b) eqn:E; bools.
  - assert (cap <= b * 2) as Hle.
    { destruct He as [[x ->] | -> ]; [rewrite Z.div_mul in E by lia; lia | lia]. }
    assert (b * 2 <= b * (2 * 2 ^ Z.of_nat steps)) by nia. lia.
  - assert (b * 2 < cap).
    { pose proof (Z.mul_div_le cap 2 ltac:(lia)). lia. }
    rewrite wrap64_id by (unfold in_int64, int64_min, int64_max; lia).
    rewrite IH; [f_equal; lia | lia | done|]. destruct He as [He|He]; [by left | lia].
Qed.

Lemma backoff_base_min i k :
  0 < i < 2 ^ 62 -> 1 <= k -> backoff_base i k = Z.min (i * 2 ^ (k - 1)) (Z.max i (300 * Second)).
Proof.
  intros Hi Hk. unfold backoff_base, backoff_cap, monitorBackoffCap.
  assert (Z.of_nat (Z.to_nat (k - 1)) = k - 1) as Hz by lia.
  destruct (i <? 300 * Second) eqn:E; bools; rewrite grow_base_min, Hz.
  - rewrite Z.max_r by lia. case_match eqn:E2; bools; lia.
  - unfold Second in *. lia.
  - unfold Second. lia.
  - left. by exists (150 * Second).
  - rewrite Z.max_l by lia. case_match eqn:E2; bools; lia.
  - lia.
  - lia.
  - by right.
Qed.

Lemma backoffDelay_bounds i r k : i <= backoffDelayLocked i r k <= Z.max i (300 * Second).
Proof.
  unfold backoffDelayLocked, backoff_cap, monitorBackoffCap. set (d := to_int64 _). clearbody d.
  destruct (i <? 300 * Second) eqn:E1; bools; repeat case_match; bools; lia.
Qed.

(** A report ends a collection and reschedules its node.  Success, and cancelled or
    skipped work, resume at the first slot after now on the node's own grid, without
    catching up; a failure waits at least one interval and at most max(interval, 300
    seconds), the delay before jitter being the interval doubled once per previous
    failure up to that cap.  A warning is reported exactly at the third consecutive
    failure and a recovery exactly at a success after at least three. *)
Theorem completion_reschedules i s ws id n o now r s' c :
  rtc rstep (start i) (mkRun s ws) -> nodes s !! id = Some n -> inFlight n = true ->
  0 < due n -> interval s < 2 ^ 61 -> now - due n < 2 ^ 61 ->
  complete id o now r s = (s', c) ->
  exists n', nodes s' !! id = Some n' /\ inFlight n' = false /\ queued n' = false /\
    match o with
    | outcomeSuccess => failures n' = 0 /\ first_slot (interval s) (due n) now (due n')
    | outcomeFailure =>
        failures n' = failures n + 1 /\
        interval s <= due n' - now <= Z.max (interval s) (300 * Second) /\
        backoff_base (interval s) (failures n') = Z.min (interval s * 2 ^ failures n) (Z.max (interval s) (300 * Second))
    | _ => failures n' = failures n /\ first_slot (interval s) (due n) now (due n')
    end /\
    (WarnDegraded c = true <-> o = outcomeFailure /\ failures n' = 3) /\
    (Recovered c = true <-> o = outcomeSuccess /\ 3 <= failures n).
Proof.
  intros Hr Hn Hf Hd Hi Hb Hc. destruct (reach_run_inv _ _ Hr) as [Hwf _ _ _ Hnodes]. cbn [sched workers] in *.
  destruct (Hnodes id n Hn) as [[H0 _] Hw _ _ Hq]. pose proof (wf_interval _ Hwf) as Hpos. specialize (Hq Hf).
  destruct (complete_spec _ _ _ _ _ _ _ Hc) as (_ & _ & _ & _ & _ & Hns). rewrite Hn, Hf in Hns.
  exists (finished_node (interval s) o now r n). rewrite Hns, lookup_insert_eq.
  pose proof (nextAligned_first_slot (interval s) (due n) now Hpos Hd ltac:(lia)) as Hslot.
  unfold complete in Hc. rewrite Hn, Hf in Hc. unfold monitorWarnAfter in *.
  destruct o; injection Hc as <- <-; cbn [finished_node inFlight queued failures due WarnDegraded Recovered]; rewrite ?Hq;
    split_and!; try done; try (split; [done | by intros [? _]]).
  - rewrite Hw. split; [done | by intros [_ ?]].
  - unfold TimeAdd. pose proof (backoffDelay_bounds (interval s) r (failures n + 1)). lia.
  - unfold TimeAdd. pose proof (backoffDelay_bounds (interval s) r (failures n + 1)). lia.
  - rewrite backoff_base_min by lia. do 3 f_equal. lia.
  - destruct (failureWarned n) eqn:Ew; cbn [negb].
    + rewrite andb_false_r. split; [done|]. intros [_ Hk]. destruct Hw as [Hw _]. specialize (Hw eq_refl). lia.
    + rewrite andb_true_r, Z.leb_le. assert (~ 3 <= failures n) by (rewrite <-Hw; done).
      split; [intros; split; [done | lia] | intros [_ ?]; lia].
Qed.

(** ** The cursor does not rotate

    Each of the [len] turns of a pass advances the cursor by one, so it ends where it
    began: every pass starts from the same node. *)
Theorem plan_keeps_cursor now s s' t : wf s -> plan now s = (s', t) -> cursor s' = cursor s /\ order s' = order s.
Proof. intros Hwf Hp. rewrite (proj1 (plan_spec now s Hwf)) in Hp. by injection Hp as <- _. Qed.

(** A simulated cycle of [Start]: the workers of the last pass succeed, the node list
    is read, a pass admits. *)
Definition cycle (live : list Z) (acc : monitorScheduler * list Z * list (list Z)) (now : time)
  : monitorScheduler * list Z * list (list Z) :=
  let '(s, ws, log) := acc in
  let s := foldl (fun s id => (complete id outcomeSuccess now (S754_zero false) s).1) s ws in
  let s := (sync live now s).1 in
  let '(s, t) := plan now s in (s, AdmittedIDs t, log ++ [AdmittedIDs t]).

Definition many_nodes : list Z := (fun n => Z.of_nat n + 1) <$> seq 0 48.
Definition cycles (n : nat) : list (list Z) :=
  (foldl (cycle many_nodes) (newMonitorScheduler (10 * Second), [], []) ((fun k => (1000 + 12 * Z.of_nat k) * Second) <$> seq 0 n)).2.

(** With 48 nodes, an interval of 10 seconds and collections of 12 seconds, nodes 33 to
    48 are due from the start and are not admitted in 100 passes, while nodes 1 to 32
    are admitted in turns: a fair rotation would reach all of them in three. *)
Theorem late_nodes_starve :
  Forall (fun ids => Forall (fun id => id <= 32) ids /\ List.length ids = 16%nat) (cycles 100).
Proof.
  assert (forallb (fun ids => forallb (fun id => id <=? 32) ids && (List.length ids =? 16)%nat) (cycles 100) = true) as H
    by (vm_compute; reflexivity).
  rewrite forallb_forall in H. apply Forall_forall. intros ids Hin. apply list_elem_of_In, H in Hin.
  apply andb_true_iff in Hin as [H1 H2%Nat.eqb_eq]. split; [|done]. rewrite forallb_forall in H1.
  apply Forall_forall. intros id Hid. apply list_elem_of_In, H1 in Hid. lia.
Qed.

(** ** A concrete scheduler *)
Definition demo_sync : monitorScheduler * list Z := sync [3; 1; 2] (1000 * Second) (newMonitorScheduler (60 * Second)).
Definition demo_plan : monitorScheduler * monitorTick := plan (1000 * Second) demo_sync.1.

Lemma demo_run : rtc rstep (start (60 * Second)) (mkRun demo_plan.1 [1; 2; 3]).
Proof.
  eapply rtc_l; [apply (r_sync [3; 1; 2] (1000 * Second) _ [] demo_sync.1 demo_sync.2); [set_solver | reflexivity]|].
  eapply rtc_l; [apply (r_plan (1000 * Second) _ [] demo_plan.1 demo_plan.2); apply surjective_pairing|].
  vm_compute. reflexivity.
Qed.

Lemma collections_bounded_witness :
  outstanding demo_plan.1 = 3 /\ NoDup [1; 2; 3].
Proof.
  split; [vm_compute; reflexivity|]. apply (collections_bounded (60 * Second) (mkRun demo_plan.1 [1; 2; 3]) demo_run).
Defined.

Lemma demo_wf : wf demo_sync.1.
Proof.
  assert (wf (newMonitorScheduler (60 * Second))) as H0 by apply (ri_wf _ (reach_run_inv (60 * Second) (start (60 * Second)) (rtc_refl _ _))).
  by apply (sync_spec [3; 1; 2] (1000 * Second) _ demo_sync.1 demo_sync.2 H0).
Qed.

Lemma pass_admits_up_to_capacity_witness :
  AdmittedIDs demo_plan.2 = [1; 2; 3] /\ Queued demo_plan.2 = drop 3 [1; 2; 3].
Proof.
  destruct (pass_admits_up_to_capacity (1000 * Second) demo_sync.1 demo_plan.1 demo_plan.2 demo_wf) as (Ha & Hq & _);
    [apply surjective_pairing|].
  split; [rewrite Ha; vm_compute; reflexivity | rewrite Hq; vm_compute; reflexivity].
Defined.

(** The third node fails after 90 seconds. *)
Lemma completion_reschedules_witness :
  let c := complete 3 outcomeFailure (1090 * Second) (S754_zero false) demo_plan.1 in
  exists n', nodes c.1 !! 3 = Some n' /\ failures n' = 1 /\ 60 * Second <= due n' - 1090 * Second <= 300 * Second.
Proof.
  cbv zeta.
  destruct (completion_reschedules (60 * Second) demo_plan.1 [1; 2; 3] 3 (admit_node (new_node 3 (1000 * Second)))
    outcomeFailure (1090 * Second) (S754_zero false)
    (complete 3 outcomeFailure (1090 * Second) (S754_zero false) demo_plan.1).1
    (complete 3 outcomeFailure (1090 * Second) (S754_zero false) demo_plan.1).2 demo_run)
    as (n' & Hn & _ & _ & (Hf & Hd & _) & _);
    [vm_compute; reflexivity | reflexivity | reflexivity | reflexivity | reflexivity | apply surjective_pairing |].
  exists n'. split; [exact Hn|]. split; [exact Hf | exact Hd].
Defined.
