(* ===== verification/SSHPool.v ===== *)
(** * The pool of SSH connections

    [pkg/sshpool/pool.go] keeps at most one idle SSH transport per server and
    lends it, or a vacant slot for a new dial, as a [Lease]; a semaphore per server
    bounds the sessions.  Connections are identified by the server's configuration
    (the [fingerprint] of its credentials and a [generation] counter), so that a
    transport opened under an old configuration is never lent again.

    The pool is shared by many goroutines.  Every function below is one section the
    code runs under the pool's or the lease's mutex (or one channel operation);
    [step] interleaves those sections freely.  Entries and leases live in heaps,
    because both outlive their removal from the pool's maps.  The transports
    themselves ([*ssh.Client]) are identifiers: the model records which of them the
    code has closed. *)

From S2P Require Import Prelude.

(** ** Data *)

Inductive pool_err := ErrSlotTimeout | ErrClosed | ErrStaleLease | ErrContext.

#[export] Instance pool_err_eq : EqDecision pool_err.
Proof. solve_decision. Defined.

Record connEntry := Entry {
  e_client : option Z;
  e_fingerprint : string;
  e_generation : Z;
  e_lastUsed : time;
  e_sem : Z;
  e_waiters : Z }.

(** [entry] is the address of the entry the lease was taken from. *)
Record Lease := MkLease {
  Client : option Z;
  entry : nat;
  serverID : Z;
  l_generation : Z;
  l_fingerprint : string;
  done : bool;
  cacheable : bool;
  legacy : bool;
  original : option Z;
  consumer : string }.

(** [SSHTimeout] and [SSHMaxIdle] of the runtime settings, in seconds. *)
Record runtime := Runtime { SSHTimeout : Z; SSHMaxIdle : Z }.

Record Pool := MkPool {
  runtimeConfig : option runtime;
  conns : gmap Z nat;
  maxIdle : duration;
  maxConns : Z;
  slotTimeout : duration;
  closed : bool;
  leases : gset nat;
  legacy_leases : gmap Z (list nat);
  quotaObserver : bool }.

(** The pool with what it points to: the entries and leases ever allocated, the
    tally of the quota observer and the transports that were closed. *)
Record store := Store {
  pool : Pool;
  entries : gmap nat connEntry;
  handles : gmap nat Lease;
  quota : gmap string Z;
  gone : gset Z }.

Definition with_pool (f : Pool -> Pool) (s : store) : store :=
  Store (f (pool s)) (entries s) (handles s) (quota s) (gone s).
Definition set_conns (m : gmap Z nat) (p : Pool) : Pool :=
  MkPool (runtimeConfig p) m (maxIdle p) (maxConns p) (slotTimeout p) (closed p) (leases p)
    (legacy_leases p) (quotaObserver p).
Definition set_leases (l : gset nat) (p : Pool) : Pool :=
  MkPool (runtimeConfig p) (conns p) (maxIdle p) (maxConns p) (slotTimeout p) (closed p) l
    (legacy_leases p) (quotaObserver p).
Definition set_legacy_leases (q : gmap Z (list nat)) (p : Pool) : Pool :=
  MkPool (runtimeConfig p) (conns p) (maxIdle p) (maxConns p) (slotTimeout p) (closed p) (leases p)
    q (quotaObserver p).
Definition set_closed (p : Pool) : Pool :=
  MkPool (runtimeConfig p) ∅ (maxIdle p) (maxConns p) (slotTimeout p) true (leases p)
    (legacy_leases p) (quotaObserver p).

Definition with_entries (f : gmap nat connEntry -> gmap nat connEntry) (s : store) : store :=
  Store (pool s) (f (entries s)) (handles s) (quota s) (gone s).
Definition with_handles (f : gmap nat Lease -> gmap nat Lease) (s : store) : store :=
  Store (pool s) (entries s) (f (handles s)) (quota s) (gone s).
Definition with_quota (f : gmap string Z -> gmap string Z) (s : store) : store :=
  Store (pool s) (entries s) (handles s) (f (quota s)) (gone s).

(** [client.Close()], for a client that may be nil. *)
Definition close_client (c : option Z) (s : store) : store :=
  match c with
  | Some c => Store (pool s) (entries s) (handles s) (quota s) ({[c]} ∪ gone s)
  | None => s
  end.

Definition set_client (c : option Z) (e : connEntry) : connEntry :=
  Entry c (e_fingerprint e) (e_generation e) (e_lastUsed e) (e_sem e) (e_waiters e).
Definition set_lastUsed (t : time) (e : connEntry) : connEntry :=
  Entry (e_client e) (e_fingerprint e) (e_generation e) t (e_sem e) (e_waiters e).
Definition add_sem (d : Z) (e : connEntry) : connEntry :=
  Entry (e_client e) (e_fingerprint e) (e_generation e) (e_lastUsed e) (e_sem e + d) (e_waiters e).
Definition add_waiters (d : Z) (e : connEntry) : connEntry :=
  Entry (e_client e) (e_fingerprint e) (e_generation e) (e_lastUsed e) (e_sem e) (e_waiters e + d).
(** A change of configuration: the cached client is dropped, [generation++]. *)
Definition reconfigure (fp : string) (e : connEntry) : connEntry :=
  Entry None fp (wrapu64 (e_generation e + 1)) (e_lastUsed e) (e_sem e) (e_waiters e).

Definition NewPool (maxIdle : duration) (maxConns : Z) (slotTimeout : duration) : Pool :=
  MkPool None ∅ maxIdle (if maxConns <? 1 then 1 else maxConns) slotTimeout false ∅ ∅ false.
Definition SetQuotaObserver (observer : bool) (p : Pool) : Pool :=
  MkPool (runtimeConfig p) (conns p) (maxIdle p) (maxConns p) (slotTimeout p) (closed p) (leases p)
    (legacy_leases p) observer.
Definition SetRuntimeConfig (r : option runtime) (p : Pool) : Pool :=
  MkPool r (conns p) (maxIdle p) (maxConns p) (slotTimeout p) (closed p) (leases p)
    (legacy_leases p) (quotaObserver p).

Definition idleLimit (p : Pool) : duration :=
  match runtimeConfig p with
  | Some r => wrap64 (SSHMaxIdle r * Second)
  | None => maxIdle p
  end.
Definition slotLimit (p : Pool) : duration :=
  match runtimeConfig p with
  | Some r => wrap64 (SSHTimeout r * Second)
  | None => slotTimeout p
  end.

(** ** Quota accounting *)

Definition tally (q : gmap string Z) (c : string) : Z := default 0 (q !! c).

Definition notifyQuota (c : string) (delta : Z) (s : store) : store :=
  if quotaObserver (pool s) then with_quota (fun q => <[c := tally q c + delta]> q) s else s.

(** ** Borrowing *)

(** The local variables of one [acquireContext]. *)
Record acq := Acq {
  a_entry : nat;
  a_server : Z;
  a_generation : Z;
  a_fingerprint : string;
  a_fresh : bool;
  a_consumer : string }.

(** Lines 92-119: the entry is found, created or reconfigured, and the goroutine
    counts as a waiter.  The time it may wait for a slot is returned with it. *)
Definition acquire_enter (ctx_err : bool) (srv : Z) (fp : string) (fresh_dial : bool) (label : string)
    (s : store) : result pool_err (acq * duration * store) :=
  if ctx_err then Err ErrContext
  else if closed (pool s) then Err ErrClosed
  else
    let '(eid, gen, s) :=
      match conns (pool s) !! srv with
      | None =>
          let eid := fresh (dom (entries s)) in
          (eid, 1, with_pool (fun p => set_conns (<[srv := eid]> (conns p)) p)
                     (with_entries (<[eid := Entry None fp 1 zero_time 0 0]>) s))
      | Some eid =>
          match entries s !! eid with
          | Some e =>
              if bool_decide (e_fingerprint e = fp) then (eid, e_generation e, s)
              else (eid, e_generation (reconfigure fp e),
                    close_client (e_client e) (with_entries (<[eid := reconfigure fp e]>) s))
          | None => (eid, 0, s)
          end
      end in
    Ok (Acq eid srv gen fp fresh_dial label, slotLimit (pool s),
        with_entries (alter (add_waiters 1) eid) s).

(** Whether a slot of the entry is free: [entry.sem <- struct{}{}] can proceed. *)
Definition slot_free (eid : nat) (s : store) : bool :=
  match entries s !! eid with Some e => e_sem e <? maxConns (pool s) | None => false end.
Definition take_slot (eid : nat) (s : store) : store := with_entries (alter (add_sem 1) eid) s.

(** [<-sem] of [releaseSlot]; it blocks on an empty semaphore. *)
Definition slot_taken (eid : nat) (s : store) : bool :=
  match entries s !! eid with Some e => 0 <? e_sem e | None => false end.
Definition give_slot (eid : nat) (s : store) : store := with_entries (alter (add_sem (-1)) eid) s.
Definition releaseSlot (eid : nat) (label : string) (s : store) : store :=
  notifyQuota label (-1) (give_slot eid s).

(** The checks of lines 144-150, repeated at lines 187-193. *)
Definition verdict (ctx_err : bool) (a : acq) (s : store) : option pool_err :=
  if ctx_err then Some ErrContext
  else if closed (pool s) then Some ErrClosed
  else match entries s !! a_entry a with
       | Some e =>
           if negb (e_generation e =? a_generation a)
              || negb (bool_decide (e_fingerprint e = a_fingerprint a))
           then Some ErrStaleLease else None
       | None => None
       end.

Definition leave_queue (a : acq) (s : store) : store :=
  with_entries (alter (add_waiters (-1)) (a_entry a)) s.

(** Lines 138-159: with a slot taken, the goroutine stops waiting and, if it is
    still wanted, takes the cached client; a fresh borrow (160-163) closes it. *)
Definition acquire_take (ctx_err : bool) (now : time) (a : acq) (s : store) :
    (pool_err + option Z) * store :=
  let s := leave_queue a s in
  match verdict ctx_err a s with
  | Some err => (inl err, s)
  | None =>
      let client := match entries s !! a_entry a with Some e => e_client e | None => None end in
      let s := with_entries (alter (fun e => set_lastUsed now (set_client None e)) (a_entry a)) s in
      if a_fresh a then (inr None, close_client client s) else (inr client, s)
  end.

(** Lines 164-185: what the probe, the request's context or the shutdown decides. *)
Inductive probe_result := Healthy | Unhealthy | ProbeCancelled (err : pool_err).

Definition acquire_probed (r : probe_result) (c : Z) (s : store) : (pool_err + option Z) * store :=
  match r with
  | Healthy => (inr (Some c), s)
  | Unhealthy => (inr None, close_client (Some c) s)
  | ProbeCancelled err => (inl err, close_client (Some c) s)
  end.

(** Lines 186-205. *)
Definition acquire_lease (ctx_err : bool) (a : acq) (client : option Z) (s : store) :
    (pool_err + nat) * store :=
  match verdict ctx_err a s with
  | Some err => (inl err, close_client client s)
  | None =>
      let lid := fresh (dom (handles s)) in
      (inr lid,
       with_pool (fun p => set_leases ({[lid]} ∪ leases p) p)
         (with_handles (<[lid := MkLease client (a_entry a) (a_server a) (a_generation a)
                                   (a_fingerprint a) false true false None (a_consumer a)]>) s))
  end.

(** A borrow that nothing interleaves with: [probe] answers for the transport. *)
Definition acquireContext (probe : Z -> probe_result) (now : time) (srv : Z) (fp : string)
    (fresh_dial : bool) (label : string) (s : store) : (pool_err + nat) * store :=
  match acquire_enter false srv fp fresh_dial label s with
  | Err err => (inl err, s)
  | Ok (a, _, s) =>
      if negb (slot_free (a_entry a) s) then (inl ErrSlotTimeout, leave_queue a s)
      else
        let s := notifyQuota label 1 (take_slot (a_entry a) s) in
        match acquire_take false now a s with
        | (inl err, s) => (inl err, releaseSlot (a_entry a) label s)
        | (inr client, s) =>
            match (match client with
                   | Some c => acquire_probed (probe c) c s
                   | None => (inr None, s)
                   end) with
            | (inl err, s) => (inl err, releaseSlot (a_entry a) label s)
            | (inr client, s) =>
                match acquire_lease false a client s with
                | (inl err, s) => (inl err, releaseSlot (a_entry a) label s)
                | (inr lid, s) => (inr lid, s)
                end
            end
        end
  end.
Definition AcquireContext probe now srv fp label s := acquireContext probe now srv fp false label s.
Definition AcquireFreshContext probe now srv fp label s := acquireContext probe now srv fp true label s.

(** ** The lease *)

Definition update_lease (lid : nat) (l : Lease) (s : store) : store := with_handles (<[lid := l]>) s.

Definition set_Client (c : option Z) (l : Lease) : Lease :=
  MkLease c (entry l) (serverID l) (l_generation l) (l_fingerprint l) (done l) (cacheable l) (legacy l)
    (original l) (consumer l).
Definition set_done (l : Lease) : Lease :=
  MkLease None (entry l) (serverID l) (l_generation l) (l_fingerprint l) true (cacheable l) (legacy l)
    (original l) (consumer l).
Definition set_identity (gen : Z) (fp : string) (l : Lease) : Lease :=
  MkLease (Client l) (entry l) (serverID l) gen fp (done l) false (legacy l) (original l) (consumer l).
Definition set_uncacheable (l : Lease) : Lease :=
  MkLease (Client l) (entry l) (serverID l) (l_generation l) (l_fingerprint l) (done l) false (legacy l)
    (original l) (consumer l).
Definition set_legacy (l : Lease) : Lease :=
  MkLease (Client l) (entry l) (serverID l) (l_generation l) (l_fingerprint l) (done l) (cacheable l)
    true (Client l) (consumer l).

(** The lease's entry is the pool's, in the lease's configuration. *)
Definition current (l : Lease) (s : store) : bool :=
  negb (closed (pool s)) && bool_decide (conns (pool s) !! serverID l = Some (entry l)) &&
  match entries s !! entry l with
  | Some e => (e_generation e =? l_generation l) && bool_decide (e_fingerprint e = l_fingerprint l)
  | None => false
  end.

Definition Valid (l : Lease) (s : store) : bool := if done l then false else current l s.

Definition RebindFingerprint (fp : string) (lid : nat) (s : store) : bool * store :=
  match handles s !! lid with
  | None => (false, s)
  | Some l =>
      if done l then (false, s)
      else if negb (current l s) then (false, s)
      else if bool_decide (fp = l_fingerprint l) then (true, s)
      else match entries s !! entry l with
           | None => (true, s)
           | Some e =>
               let e' := reconfigure fp e in
               (true, close_client (e_client e)
                        (update_lease lid (set_identity (e_generation e') fp l)
                           (with_entries (<[entry l := e']>) s)))
           end
  end.

Definition IsCurrent (srv gen : Z) (s : store) : bool :=
  negb (closed (pool s)) &&
  match conns (pool s) !! srv with
  | Some eid => match entries s !! eid with Some e => e_generation e =? gen | None => false end
  | None => false
  end.

(** The client [SetClient] closes is the one it replaces, unless it is the same. *)
Definition SetClient (c : option Z) (lid : nat) (s : store) : store :=
  match handles s !! lid with
  | None => s
  | Some l =>
      let old := Client l in
      if done l then close_client c s
      else if closed (pool s) then
        let s := close_client old (update_lease lid (set_Client None l) s) in
        if bool_decide (c = old) then s else close_client c s
      else
        let s := update_lease lid (set_Client c l) s in
        if bool_decide (old = c) then s else close_client old s
  end.

(** [finish], lines 352-360: the lease is marked done and gives up its client.  The
    answer is [None] when it was done already. *)
Definition finish_mark (lid : nat) (s : store) : option (option Z) * store :=
  match handles s !! lid with
  | None => (None, s)
  | Some l => if done l then (None, s) else (Some (Client l), update_lease lid (set_done l) s)
  end.

Definition set_pending (srv : Z) (q : list nat) (s : store) : store :=
  with_pool (fun p => set_legacy_leases
    (if bool_decide (q = []) then delete srv (legacy_leases p) else <[srv := q]> (legacy_leases p)) p) s.
Definition pending (srv : Z) (s : store) : list nat := default [] (legacy_leases (pool s) !! srv).

Fixpoint remove_first (lid : nat) (q : list nat) : list nat :=
  match q with
  | [] => []
  | x :: q => if bool_decide (x = lid) then q else x :: remove_first lid q
  end.

Definition vacant (eid : nat) (s : store) : bool :=
  match entries s !! eid with Some e => bool_decide (e_client e = None) | None => false end.

(** [finish], lines 361-386: the lease leaves the pool; its client becomes the
    entry's cached one or is closed. *)
Definition finish_return (lid : nat) (client : option Z) (discard : bool) (now : time) (s : store) : store :=
  match handles s !! lid with
  | None => s
  | Some l =>
      let s := with_pool (fun p => set_leases (leases p ∖ {[lid]}) p) s in
      let s := if legacy l then set_pending (serverID l) (remove_first lid (pending (serverID l) s)) s
               else s in
      if negb discard && cacheable l && current l s && vacant (entry l) s
      then with_entries (alter (fun e => set_lastUsed now (set_client client e)) (entry l)) s
      else close_client client s
  end.

Definition finish (lid : nat) (discard : bool) (now : time) (s : store) : store :=
  match handles s !! lid with
  | None => s
  | Some l =>
      match finish_mark lid s with
      | (None, s) => s
      | (Some client, s) => releaseSlot (entry l) (consumer l) (finish_return lid client discard now s)
      end
  end.
Definition Release lid now s := finish lid false now s.
Definition Discard lid now s := finish lid true now s.

(** ** The compatibility interface by server id *)

(** Lines 420-427: overlapping leases without a client that another entry or
    generation lent out stop being cacheable, and so does this one. *)
Definition legacy_conflict (l : Lease) (s : store) (previous : nat) : bool :=
  match handles s !! previous with
  | Some q => bool_decide (original q = None)
              && (negb (bool_decide (entry q = entry l)) || negb (l_generation q =? l_generation l))
  | None => false
  end.

Definition LegacyClient (lid : nat) (s : store) : option Z * store :=
  match handles s !! lid with
  | None => (None, s)
  | Some l =>
      if done l then (None, s)
      else if legacy l then (Client l, s)
      else
        let l := set_legacy l in
        let conflicts :=
          if bool_decide (original l = None)
          then filter (fun q => legacy_conflict l s q = true) (pending (serverID l) s) else [] in
        let l := if bool_decide (conflicts = []) then l else set_uncacheable l in
        let s := update_lease lid l s in
        let s := with_handles (fun h => foldl (fun h q => alter set_uncacheable q h) h conflicts) s in
        (Client l, set_pending (serverID l) (pending (serverID l) s ++ [lid]) s)
  end.

Definition has_original (c : option Z) (s : store) (lid : nat) : bool :=
  match handles s !! lid with Some l => bool_decide (original l = c) | None => false end.

Fixpoint take_first (f : nat -> bool) (q : list nat) : option (nat * list nat) :=
  match q with
  | [] => None
  | x :: q => if f x then Some (x, q)
              else match take_first f q with Some (y, q') => Some (y, x :: q') | None => None end
  end.

(** The lease a returned client stands for: the one that lent this very client,
    else the first one that lent none. *)
Definition legacyLease (srv : Z) (c : option Z) (s : store) : option nat * store :=
  let q := pending srv s in
  let exact := match c with Some _ => take_first (has_original c s) q | None => None end in
  match (match exact with Some r => Some r | None => take_first (has_original None s) q end) with
  | None => (None, s)
  | Some (lid, q) => (Some lid, set_pending srv q s)
  end.

Definition return_client (srv : Z) (c : option Z) (discard : bool) (now : time) (s : store) : store :=
  match legacyLease srv c s with
  | (None, s) => close_client c s
  | (Some lid, s) => finish lid discard now (SetClient c lid s)
  end.
Definition PoolRelease srv c now s := return_client srv c false now s.
Definition PoolDiscard srv c now s := return_client srv c true now s.

Definition GetContext probe now srv fp label s : (pool_err + option Z) * store :=
  match AcquireContext probe now srv fp label s with
  | (inl err, s) => (inl err, s)
  | (inr lid, s) => let '(c, s) := LegacyClient lid s in (inr c, s)
  end.

(** ** Invalidation, eviction and shutdown *)

Definition Invalidate (srv : Z) (s : store) : store :=
  match conns (pool s) !! srv with
  | None => s
  | Some eid =>
      match entries s !! eid with
      | None => s
      | Some e => close_client (e_client e) (with_entries (<[eid := reconfigure "" e]>) s)
      end
  end.

(** The entry's transport has been idle for too long. *)
Definition idle_out (now : time) (p : Pool) (e : connEntry) : bool :=
  bool_decide (e_client e <> None) && (idleLimit p <? TimeSub now (e_lastUsed e)).

(** One iteration of [evict]'s loop over the pool's entries. *)
Definition evict_one (now : time) (s : store) (kv : Z * nat) : store :=
  let '(srv, eid) := kv in
  match entries s !! eid with
  | None => s
  | Some e =>
      let idle := idle_out now (pool s) e in
      let s := if idle then close_client (e_client e) (with_entries (alter (set_client None) eid) s) else s in
      let client := if idle then None else e_client e in
      if bool_decide (client = None) && (e_sem e =? 0) && (e_waiters e =? 0)
      then with_pool (fun p => set_conns (delete srv (conns p)) p) s else s
  end.
Definition evict (now : time) (s : store) : store :=
  foldl (evict_one now) s (map_to_list (conns (pool s))).

(** [Close] under the pool's mutex: the cached clients are taken and closed, and the
    leases whose clients it will close are noted. *)
Definition close_cached (s : store) (kv : Z * nat) : store :=
  match entries s !! kv.2 with
  | None => s
  | Some e => close_client (e_client e) (with_entries (alter (set_client None) kv.2) s)
  end.
Definition close_pool (s : store) : list nat * store :=
  if closed (pool s) then ([], s)
  else (elements (leases (pool s)),
        with_pool set_closed (foldl close_cached s (map_to_list (conns (pool s))))).

(** ... and then one lease at a time. *)
Definition close_leased (lid : nat) (s : store) : store :=
  match handles s !! lid with Some l => close_client (Client l) s | None => s end.
Definition Close (s : store) : store :=
  let '(active, s) := close_pool s in foldl (fun s lid => close_leased lid s) s active.

(** ** Interleaved goroutines *)

(** Where a goroutine stands between two sections.  [hold] is what the goroutine
    must still give back: a slot of an entry, under a consumer label. *)
Record hold := Hold { h_entry : nat; h_server : Z; h_consumer : string }.
Definition acq_hold (a : acq) : hold := Hold (a_entry a) (a_server a) (a_consumer a).
Definition lease_hold (l : Lease) : hold := Hold (entry l) (serverID l) (consumer l).

Inductive task :=
| Waiting (a : acq)                         (** in the select of line 123 *)
| Leaving (a : acq)                         (** the select failed; line 138 comes next *)
| Slotted (a : acq)                         (** slot taken, the observer not yet told *)
| Counted (a : acq)                         (** line 138 comes next *)
| Probing (a : acq) (c : Z)                 (** line 165 *)
| Probed (a : acq) (c : option Z)           (** line 186 *)
| Finishing (lid : nat) (h : hold) (c : option Z) (discard : bool)  (** line 361 *)
| Releasing (h : hold)                      (** line 616 *)
| Uncounting (h : hold)                     (** line 617 *)
| Closing (lids : list nat).                (** line 528 *)

Record world := World { st : store; tasks : gmap nat task; dialed : gmap Z (Z * Z * string) }.

Definition put (t : nat) (k : task) (s : store) (w : world) : world := World s (<[t := k]> (tasks w)) (dialed w).
Definition drop (t : nat) (s : store) (w : world) : world := World s (delete t (tasks w)) (dialed w).
Definition on_store (s : store) (w : world) : world := World s (tasks w) (dialed w).

(** After a section of [acquireContext] that may fail: on failure the slot goes
    back. *)
Definition or_release {A} (h : hold) (r : pool_err + A) (k : A -> task) : task :=
  match r with inl _ => Releasing h | inr x => k x end.

(** The task that follows lines 138-163. *)
Definition after_take (a : acq) (c : option Z) : task :=
  match c with Some c => Probing a c | None => Probed a None end.

(** [compat] allows the compatibility interface and clients the pool did not see
    dialed; without it a caller only hands over transports it has just dialed for
    the lease, whose configuration [dialed] records. *)
Inductive step (compat : bool) : world -> world -> Prop :=
| StepEnter w t ctx srv fp fr label a d s :
    tasks w !! t = None -> acquire_enter ctx srv fp fr label (st w) = Ok (a, d, s) ->
    step compat w (put t (Waiting a) s w)
| StepTimeout w t a :
    tasks w !! t = Some (Waiting a) -> step compat w (put t (Leaving a) (st w) w)
| StepLeave w t a :
    tasks w !! t = Some (Leaving a) -> step compat w (drop t (leave_queue a (st w)) w)
| StepSlot w t a :
    tasks w !! t = Some (Waiting a) -> slot_free (a_entry a) (st w) = true ->
    step compat w (put t (Slotted a) (take_slot (a_entry a) (st w)) w)
| StepCount w t a :
    tasks w !! t = Some (Slotted a) ->
    step compat w (put t (Counted a) (notifyQuota (a_consumer a) 1 (st w)) w)
| StepTake w t a ctx now r s :
    tasks w !! t = Some (Counted a) -> acquire_take ctx now a (st w) = (r, s) ->
    step compat w (put t (or_release (acq_hold a) r (after_take a)) s w)
| StepProbed w t a c p r s :
    tasks w !! t = Some (Probing a c) -> acquire_probed p c (st w) = (r, s) ->
    step compat w (put t (or_release (acq_hold a) r (Probed a)) s w)
| StepRefuse w t a c ctx err s :
    tasks w !! t = Some (Probed a c) -> acquire_lease ctx a c (st w) = (inl err, s) ->
    step compat w (put t (Releasing (acq_hold a)) s w)
| StepLease w t a c ctx lid s :
    tasks w !! t = Some (Probed a c) -> acquire_lease ctx a c (st w) = (inr lid, s) ->
    step compat w (drop t s w)
| StepRebind w fp lid :
    step compat w (on_store (RebindFingerprint fp lid (st w)).2 w)
| StepDialed w lid l c :
    handles (st w) !! lid = Some l -> dialed w !! c = None -> c ∉ gone (st w) ->
    step compat w (World (SetClient (Some c) lid (st w)) (tasks w)
                     (<[c := (serverID l, l_generation l, l_fingerprint l)]> (dialed w)))
| StepUnset w lid :
    step compat w (on_store (SetClient None lid (st w)) w)
| StepForeign w lid c :
    compat = true -> step compat w (on_store (SetClient c lid (st w)) w)
| StepFinish w t lid l c discard s :
    tasks w !! t = None -> handles (st w) !! lid = Some l -> finish_mark lid (st w) = (Some c, s) ->
    step compat w (put t (Finishing lid (lease_hold l) c discard) s w)
| StepReturn w t lid h c discard now :
    tasks w !! t = Some (Finishing lid h c discard) ->
    step compat w (put t (Releasing h) (finish_return lid c discard now (st w)) w)
| StepGive w t h :
    tasks w !! t = Some (Releasing h) -> slot_taken (h_entry h) (st w) = true ->
    step compat w (put t (Uncounting h) (give_slot (h_entry h) (st w)) w)
| StepUncount w t h :
    tasks w !! t = Some (Uncounting h) ->
    step compat w (drop t (notifyQuota (h_consumer h) (-1) (st w)) w)
| StepLegacyGet w lid :
    compat = true -> step compat w (on_store (LegacyClient lid (st w)).2 w)
| StepLegacyReturn w srv c :
    compat = true -> step compat w (on_store (legacyLease srv c (st w)).2 w)
| StepInvalidate w srv :
    step compat w (on_store (Invalidate srv (st w)) w)
| StepEvict w now :
    step compat w (on_store (evict now (st w)) w)
| StepClose w t :
    tasks w !! t = None ->
    step compat w (put t (Closing (close_pool (st w)).1) (close_pool (st w)).2 w)
| StepCloseLeased w t lid lids :
    tasks w !! t = Some (Closing (lid :: lids)) ->
    step compat w (put t (Closing lids) (close_leased lid (st w)) w)
| StepClosed w t :
    tasks w !! t = Some (Closing []) -> step compat w (drop t (st w) w).

Definition empty_store (p : Pool) : store := Store p ∅ ∅ ∅ ∅.
Definition start (p : Pool) : world := World (empty_store p) ∅ ∅.

Inductive reachable (compat : bool) (p : Pool) : world -> Prop :=
| reach_start : reachable compat p (start p)
| reach_step w w' : reachable compat p w -> step compat w w' -> reachable compat p w'.
