(* ===== verification/PoolSlots.v ===== *)
(** * The slots of the SSH pool and their accounting

    Invariants of [SSHPool.step] about the semaphores: a [view] of the store keeps what
    they depend on, each section of the code is shown to change the view in one place,
    and the books (slots in use, waiters, what the quota observer was told) agree with
    the semaphores in every reachable state.  The theorems are [sessions_bounded] and
    [quota_matches_slots]. *)

From S2P Require Import Prelude SSHPool.

(** ** Slots and quota *)

(** What the slot accounting depends on: the counters of the entries, the slot each
    lease stands for, and the maps that lead to them. *)
Definition e_view (e : connEntry) : Z * Z := (e_sem e, e_waiters e).
Definition l_view (l : Lease) : bool * hold := (done l, lease_hold l).

Record view := View {
  v_entries : gmap nat (Z * Z);
  v_leases : gmap nat (bool * hold);
  v_conns : gmap Z nat;
  v_closed : bool;
  v_max : Z;
  v_observer : bool;
  v_quota : gmap string Z }.

Definition view_of (s : store) : view :=
  View (e_view <$> entries s) (l_view <$> handles s) (conns (pool s)) (closed (pool s))
    (maxConns (pool s)) (quotaObserver (pool s)) (quota s).

(** The slot a goroutine holds, the place in a queue it holds, the slot it has told
    the observer about and the entry it still refers to. *)
Definition t_hold (k : task) : option hold :=
  match k with
  | Slotted a | Counted a | Probing a _ | Probed a _ => Some (acq_hold a)
  | Finishing _ h _ _ | Releasing h => Some h
  | _ => None
  end.
Definition t_wait (k : task) : option hold :=
  match k with Waiting a | Leaving a | Slotted a | Counted a => Some (acq_hold a) | _ => None end.
Definition t_told (k : task) : option hold :=
  match k with
  | Counted a | Probing a _ | Probed a _ => Some (acq_hold a)
  | Finishing _ h _ _ | Releasing h | Uncounting h => Some h
  | _ => None
  end.
Definition l_slot (l : bool * hold) : option hold := if l.1 then None else Some l.2.

Definition of_entry (eid : nat) (h : hold) : bool := Nat.eqb (h_entry h) eid.
Definition of_server (srv : Z) (h : hold) : bool := h_server h =? srv.
Definition of_consumer (c : string) (h : hold) : bool := bool_decide (h_consumer h = c).
Definition among {A} (f : A -> option hold) (P : hold -> bool) (x : A) : bool :=
  match f x with Some h => P h | None => false end.

(** The slots in use, the goroutines in a queue, the slots the observer knows of. *)
Definition used (P : hold -> bool) (v : view) (ts : gmap nat task) : Z :=
  count_map (among t_hold P) ts + count_map (among l_slot P) (v_leases v).
Definition queue (eid : nat) (ts : gmap nat task) : Z := count_map (among t_wait (of_entry eid)) ts.
Definition told (c : string) (v : view) (ts : gmap nat task) : Z :=
  count_map (among t_told (of_consumer c)) ts + count_map (among l_slot (of_consumer c)) (v_leases v).

Inductive user (v : view) (ts : gmap nat task) (h : hold) : Prop :=
| user_hold t k : ts !! t = Some k -> t_hold k = Some h -> user v ts h
| user_wait t k : ts !! t = Some k -> t_wait k = Some h -> user v ts h
| user_lease lid : v_leases v !! lid = Some (false, h) -> user v ts h.

Section slots.
Context (cap : Z) (obs : bool).

Record slots_ok (v : view) (ts : gmap nat task) : Prop := {
  so_max : v_max v = cap /\ 1 <= cap /\ v_observer v = obs;
  so_entry eid n m : v_entries v !! eid = Some (n, m) ->
    n = used (of_entry eid) v ts /\ m = queue eid ts /\ n <= v_max v;
  so_home : exists home : gmap Z nat,
    (forall h, user v ts h -> home !! h_server h = Some (h_entry h)) /\
    (forall srv eid, home !! srv = Some eid -> is_Some (v_entries v !! eid)) /\
    (v_closed v = false -> v_conns v = home);
  so_told : v_observer v = true -> forall c, tally (v_quota v) c = told c v ts }.

Lemma used_set P v ts t o :
  used P v (partial_alter (fun _ => o) t ts)
  = used P v ts - weight (among t_hold P) (ts !! t) + weight (among t_hold P) o.
Proof. unfold used. rewrite count_map_set. lia. Qed.
Lemma queue_set eid ts t o :
  queue eid (partial_alter (fun _ => o) t ts)
  = queue eid ts - weight (among t_wait (of_entry eid)) (ts !! t) + weight (among t_wait (of_entry eid)) o.
Proof. apply count_map_set. Qed.
Lemma told_set c v ts t o :
  told c v (partial_alter (fun _ => o) t ts)
  = told c v ts - weight (among t_told (of_consumer c)) (ts !! t) + weight (among t_told (of_consumer c)) o.
Proof. unfold told. rewrite count_map_set. lia. Qed.

Lemma user_counts v ts h :
  user v ts h -> 1 <= used (of_entry (h_entry h)) v ts \/ 1 <= queue (h_entry h) ts.
Proof.
  unfold used, queue. set (e := of_entry (h_entry h)).
  assert (e h = true) as He by apply Nat.eqb_refl.
  pose proof (count_map_nonneg (among t_hold e) ts).
  pose proof (count_map_nonneg (among l_slot e) (v_leases v)).
  intros [t k Hk Hh | t k Hk Hw | lid Hl].
  - left. pose proof (count_map_pos (among t_hold e) ts t k Hk).
    unfold among in *. rewrite Hh in *. naive_solver lia.
  - right. apply (count_map_pos (among t_wait e) ts t k Hk). unfold among. by rewrite Hw.
  - left. pose proof (count_map_pos (among l_slot e) (v_leases v) lid (false, h) Hl He). lia.
Qed.

(** A step of a goroutine that changes neither counters nor what it holds. *)
Definition same_books (o o' : option task) : Prop :=
  o ≫= t_hold = o' ≫= t_hold /\ o ≫= t_wait = o' ≫= t_wait /\ o ≫= t_told = o' ≫= t_told.

Lemma weight_among {A} (f : A -> option hold) P (o : option A) :
  weight (among f P) o = weight P (o ≫= f).
Proof. destruct o as [x|]; [|done]. cbn. unfold among. by destruct (f x). Qed.

Lemma user_set v ts t o h :
  user v (partial_alter (fun _ => o) t ts) h ->
  user v ts h \/ (exists k, o = Some k /\ (t_hold k = Some h \/ t_wait k = Some h)).
Proof.
  intros [u k Hk Hh | u k Hk Hw | lid Hl]; [| |left; by eapply user_lease].
  all: destruct (decide (u = t)) as [-> |Hne];
    [rewrite lookup_partial_alter_eq in Hk; naive_solver
    |rewrite lookup_partial_alter_ne in Hk by done; left].
  - by eapply user_hold. - by eapply user_wait.
Qed.

Lemma slots_same v ts t o :
  same_books (ts !! t) o -> slots_ok v ts -> slots_ok v (partial_alter (fun _ => o) t ts).
Proof.
  intros (Hs1 & Hs2 & Hs3) [Hm He (home & Hu & Hd & Hc) Ht]. split; [done|..].
  - intros eid n m E. rewrite used_set, queue_set, !weight_among.
    rewrite Hs1, Hs2.
    destruct (He eid n m E) as (? & ? & ?). lia.
  - exists home. split_and!; [|done|done]. intros h [Hh|(k & -> & Hk)]%user_set; [auto|].
    apply Hu. destruct (ts !! t) as [k0|] eqn:E0; cbn in Hs1, Hs2;
      [|destruct Hk as [Hk|Hk]; rewrite Hk in *; done].
    destruct Hk as [Hk|Hk]; [eapply user_hold | eapply user_wait]; [exact E0| |exact E0|].
    + by rewrite Hs1. + by rewrite Hs2.
  - intros Ho c. rewrite told_set, !weight_among. rewrite Hs3. rewrite (Ht Ho c). lia.
Qed.

(** Changing a view in one place. *)
Definition shift_entry (eid : nat) (dn dm : Z) (v : view) : view :=
  View (alter (fun c => (c.1 + dn, c.2 + dm)) eid (v_entries v)) (v_leases v) (v_conns v) (v_closed v)
    (v_max v) (v_observer v) (v_quota v).
Definition put_lease (lid : nat) (l : bool * hold) (v : view) : view :=
  View (v_entries v) (<[lid := l]> (v_leases v)) (v_conns v) (v_closed v) (v_max v) (v_observer v) (v_quota v).
Definition put_quota (q : gmap string Z) (v : view) : view :=
  View (v_entries v) (v_leases v) (v_conns v) (v_closed v) (v_max v) (v_observer v) q.
Definition put_conns (m : gmap Z nat) (b : bool) (v : view) : view :=
  View (v_entries v) (v_leases v) m b (v_max v) (v_observer v) (v_quota v).
Definition new_entry (srv : Z) (eid : nat) (v : view) : view :=
  View (<[eid := (0, 0)]> (v_entries v)) (v_leases v) (<[srv := eid]> (v_conns v)) (v_closed v)
    (v_max v) (v_observer v) (v_quota v).

Definition known_user v ts (h : hold) : Prop :=
  user v ts h \/ (v_closed v = false /\ v_conns v !! h_server h = Some (h_entry h)).
Definition refers (o : option task) (h : hold) : Prop :=
  exists k, o = Some k /\ (t_hold k = Some h \/ t_wait k = Some h).

Lemma user_ext v v' ts h : v_leases v' = v_leases v -> user v' ts h <-> user v ts h.
Proof.
  intros E. split; intros [t k ?? | t k ?? | lid Hl].
  all: try (by eapply user_hold); try (by eapply user_wait); eapply (user_lease _ _ _ lid).
  - by rewrite <- E. - by rewrite E.
Qed.

Lemma known_home v ts home h :
  (forall h, user v ts h -> home !! h_server h = Some (h_entry h)) ->
  (v_closed v = false -> v_conns v = home) ->
  known_user v ts h -> home !! h_server h = Some (h_entry h).
Proof. intros Hu Hc [H|[Hf H]]; [auto|]. by rewrite <- (Hc Hf). Qed.

Definition only_at (eid e : nat) (d : Z) : Z := if Nat.eqb eid e then d else 0.

Lemma slots_shift v ts t o eid dn dm :
  (forall e, weight (of_entry e) (o ≫= t_hold)
             = weight (of_entry e) (ts !! t ≫= t_hold) + only_at eid e dn) ->
  (forall e, weight (of_entry e) (o ≫= t_wait)
             = weight (of_entry e) (ts !! t ≫= t_wait) + only_at eid e dm) ->
  o ≫= t_told = ts !! t ≫= t_told ->
  (forall n m, v_entries v !! eid = Some (n, m) -> n <= v_max v -> n + dn <= v_max v) ->
  (forall h, refers o h -> known_user v ts h) ->
  slots_ok v ts -> slots_ok (shift_entry eid dn dm v) (partial_alter (fun _ => o) t ts).
Proof.
  intros Hh Hw Ht Hn Hk [Hm He (home & Hu & Hd & Hc) Hq]. split; [exact Hm|..].
  - intros e n m E. rewrite used_set, queue_set, !weight_among, Hh, Hw.
    change (used (of_entry e) (shift_entry eid dn dm v) ts) with (used (of_entry e) v ts).
    cbn [v_entries shift_entry v_max] in *. unfold only_at. destruct (Nat.eqb_spec eid e) as [<-|Hne].
    + rewrite lookup_alter_eq in E. destruct (v_entries v !! eid) as [[n0 m0]|] eqn:E0; [|done].
      injection E as <- <-. cbn [fst snd]. destruct (He _ _ _ E0) as (? & ? & ?). specialize (Hn _ _ eq_refl). lia.
    + rewrite lookup_alter_ne in E by done. destruct (He _ _ _ E) as (? & ? & ?). lia.
  - exists home. split_and!.
    + intros h [H|Hr]%user_set.
      * apply Hu. revert H. by apply user_ext.
      * apply (known_home v ts); auto.
    + intros srv e H. cbn. rewrite lookup_alter_is_Some. by eapply Hd.
    + exact Hc.
  - intros Ho c. rewrite told_set, !weight_among, Ht. cbn [v_quota shift_entry]. rewrite (Hq Ho c).
    change (told c (shift_entry eid dn dm v) ts) with (told c v ts). lia.
Qed.

Lemma slots_hand v ts t o lid l :
  (forall P, weight P (o ≫= t_hold) + weight P (l_slot l)
             = weight P (ts !! t ≫= t_hold) + weight P (v_leases v !! lid ≫= l_slot)) ->
  (forall P, weight P (o ≫= t_told) + weight P (l_slot l)
             = weight P (ts !! t ≫= t_told) + weight P (v_leases v !! lid ≫= l_slot)) ->
  o ≫= t_wait = ts !! t ≫= t_wait ->
  (forall h, refers o h \/ l_slot l = Some h -> user v ts h) ->
  slots_ok v ts -> slots_ok (put_lease lid l v) (partial_alter (fun _ => o) t ts).
Proof.
  intros Hh Ht Hw Hk [Hm He (home & Hu & Hd & Hc) Hq].
  assert (forall f : hold -> bool, count_map (among l_slot f) (<[lid := l]> (v_leases v))
    = count_map (among l_slot f) (v_leases v) - weight f (v_leases v !! lid ≫= l_slot)
      + weight f (l_slot l)) as Hl.
  { intros f. change (<[lid := l]> (v_leases v)) with (partial_alter (fun _ => Some l) lid (v_leases v)).
    rewrite count_map_set, !weight_among. done. }
  split; [exact Hm|..].
  - intros e n m E. rewrite used_set, queue_set, !weight_among, Hw.
    unfold used. cbn [v_leases put_lease v_entries v_max] in *. rewrite Hl.
    destruct (He _ _ _ E) as (? & ? & ?). specialize (Hh (of_entry e)). unfold used in *. lia.
  - exists home. split_and!; [|done|done].
    intros h [H|Hr]%user_set; [|apply Hu, Hk; by left]. apply Hu.
    destruct H as [u k Hu1 Hu2 | u k Hu1 Hu2 | lid' Hl']; [by eapply user_hold|by eapply user_wait|].
    cbn in Hl'. destruct (decide (lid = lid')) as [<-|Hne].
    + rewrite lookup_insert_eq in Hl'. apply Hk. right. injection Hl' as ->. done.
    + rewrite lookup_insert_ne in Hl' by done. by eapply user_lease.
  - intros Ho c. rewrite told_set, !weight_among. unfold told. cbn [v_leases put_lease v_quota]. rewrite Hl.
    rewrite (Hq Ho c). specialize (Ht (of_consumer c)). unfold told. lia.
Qed.

Lemma slots_tell v ts t o c d :
  o ≫= t_hold = ts !! t ≫= t_hold -> o ≫= t_wait = ts !! t ≫= t_wait ->
  (forall x, weight (of_consumer x) (o ≫= t_told)
             = weight (of_consumer x) (ts !! t ≫= t_told) + (if bool_decide (c = x) then d else 0)) ->
  slots_ok v ts ->
  slots_ok (if v_observer v then put_quota (<[c := tally (v_quota v) c + d]> (v_quota v)) v else v)
    (partial_alter (fun _ => o) t ts).
Proof.
  intros Hh Hw Ht H.
  set (v' := if v_observer v then _ else _).
  assert (v_entries v' = v_entries v /\ v_leases v' = v_leases v /\ v_conns v' = v_conns v
          /\ v_closed v' = v_closed v /\ v_max v' = v_max v /\ v_observer v' = v_observer v)
    as (E1 & E2 & E3 & E4 & E5 & E6) by (subst v'; destruct (v_observer v) eqn:E; split_and!; done).
  destruct H as [Hm He (home & Hu & Hd & Hc) Hq]. split; [by rewrite E5, E6|..].
  - intros e n m E. rewrite E1 in E. rewrite used_set, queue_set, !weight_among, Hh, Hw, E5.
    unfold used. rewrite E2. destruct (He _ _ _ E) as (? & ? & ?). unfold used in *. lia.
  - exists home. rewrite E1, E3, E4. split_and!; [|done|done].
    intros h [H|(k & -> & Hk)]%user_set; [apply Hu; revert H; by apply user_ext|].
    apply Hu. destruct (ts !! t) as [k0|] eqn:E0; cbn in Hh, Hw;
      [|destruct Hk as [Hk|Hk]; rewrite Hk in *; done].
    destruct Hk as [Hk|Hk]; [eapply user_hold | eapply user_wait]; [exact E0| |exact E0|].
    + by rewrite <- Hh. + by rewrite <- Hw.
  - rewrite E6. intros Ho x. rewrite told_set, !weight_among. rewrite Ht.
    subst v'. rewrite Ho. unfold told, tally. cbn [v_quota put_quota v_leases].
    pose proof (Hq Ho x) as Hx. unfold told, tally in Hx. case_bool_decide as Hcx.
    + subst x. rewrite lookup_insert_eq. cbn. lia.
    + rewrite lookup_insert_ne by done. lia.
Qed.


Lemma user_entry_known v ts (home : gmap Z nat) h :
  (forall h, user v ts h -> home !! h_server h = Some (h_entry h)) ->
  (forall srv eid, home !! srv = Some eid -> is_Some (v_entries v !! eid)) ->
  user v ts h -> is_Some (v_entries v !! h_entry h).
Proof. intros Hu Hd H. by eapply Hd, Hu. Qed.

(** Nothing refers to an entry the pool does not know. *)
Lemma unused_entry v ts eid :
  (forall h, user v ts h -> h_entry h <> eid) ->
  used (of_entry eid) v ts = 0 /\ queue eid ts = 0.
Proof.
  intros Hno. unfold used, queue.
  assert (forall (f : task -> option hold), (f = t_hold \/ f = t_wait) ->
    count_map (among f (of_entry eid)) ts = 0) as Hz.
  { intros f Hf. apply count_map_zero. intros t k Hk. unfold among. destruct (f k) as [h|] eqn:E; [|done].
    apply Nat.eqb_neq, Hno. destruct Hf as [-> | ->]; [by eapply user_hold | by eapply user_wait]. }
  rewrite !Hz by auto. split; [|done].
  rewrite (count_map_zero (among l_slot _)); [done|].
  intros lid [d h] Hl. unfold among, l_slot. cbn. destruct d; [done|].
  apply Nat.eqb_neq, Hno. by eapply user_lease.
Qed.

Lemma slots_new v ts srv eid :
  v_closed v = false -> v_conns v !! srv = None -> v_entries v !! eid = None ->
  slots_ok v ts -> slots_ok (new_entry srv eid v) ts.
Proof.
  intros Hcl Hs Hn [Hm He (home & Hu & Hd & Hc) Hq]. specialize (Hc Hcl). subst home.
  assert (forall h, user v ts h -> h_entry h <> eid) as Hno.
  { intros h H Heq. destruct (user_entry_known v ts _ h Hu Hd H) as [? E]. by rewrite Heq, Hn in E. }
  split; [exact Hm| | |exact Hq].
  - intros e n m. cbn. destruct (decide (eid = e)) as [<-|Hne].
    + rewrite lookup_insert_eq. intros [= <- <-].
      destruct (unused_entry v ts eid Hno) as [E1 E2]. unfold used in *. cbn. lia.
    + rewrite lookup_insert_ne by done. apply He.
  - exists (<[srv := eid]> (v_conns v)). split_and!; [| |done].
    + intros h H0. assert (user v ts h) as H by (revert H0; by apply user_ext). clear H0. rewrite lookup_insert_ne; [by apply Hu|].
      intros E. apply Hu in H. rewrite <- E, Hs in H. done.
    + intros srv' e. cbn. destruct (decide (srv = srv')) as [<-|Hne].
      * rewrite lookup_insert_eq. intros [= <-]. rewrite lookup_insert_eq. by eexists.
      * rewrite lookup_insert_ne by done. intros H. destruct (decide (eid = e)) as [<-|Hne'].
        -- rewrite lookup_insert_eq. by eexists.
        -- rewrite lookup_insert_ne by done. by eapply Hd.
Qed.

(** Entries that leave the pool's map have neither slots in use nor waiters. *)
Lemma slots_forget v ts m :
  (forall srv eid, m !! srv = Some eid -> v_conns v !! srv = Some eid) ->
  (forall srv eid, v_conns v !! srv = Some eid -> m !! srv = None -> v_entries v !! eid = Some (0, 0)) ->
  slots_ok v ts -> slots_ok (put_conns m (v_closed v) v) ts.
Proof.
  intros Hsub Hgone [Hm He (home & Hu & Hd & Hc) Hq]. split; [exact Hm|exact He| |exact Hq].
  destruct (v_closed v) eqn:E.
  { exists home. split_and!; [|exact Hd|done]. intros h H. apply Hu. revert H. by apply user_ext. }
  specialize (Hc eq_refl). subst home. exists m. split_and!; [| |done].
  - intros h H0. assert (user v ts h) as H by (revert H0; by apply user_ext). clear H0. destruct (m !! h_server h) as [eid|] eqn:Eh.
    + rewrite <- (Hu h H). symmetry. by apply Hsub.
    + exfalso. pose proof (Hgone _ _ (Hu h H) Eh) as E0.
      destruct (He _ _ _ E0) as (E1 & E2 & _). destruct (user_counts v ts h H); lia.
  - intros srv eid H. by eapply Hd, Hsub.
Qed.

Lemma slots_closed v ts : slots_ok v ts -> slots_ok (put_conns ∅ true v) ts.
Proof.
  intros [Hm He (home & Hu & Hd & Hc) Hq]. split; [exact Hm|exact He| |exact Hq].
  exists home. split_and!; [|exact Hd|done]. intros h H. apply Hu. revert H. by apply user_ext.
Qed.

(** *** What each section does to the view *)

Lemma view_close c s : view_of (close_client c s) = view_of s.
Proof. by destruct c. Qed.

Lemma view_alter f eid s d1 d2 :
  (forall e, e_view (f e) = ((e_view e).1 + d1, (e_view e).2 + d2)) ->
  view_of (with_entries (alter f eid) s) = shift_entry eid d1 d2 (view_of s).
Proof.
  intros Hf. unfold view_of, shift_entry. cbn. f_equal. apply map_eq. intros e.
  rewrite lookup_fmap. destruct (decide (eid = e)) as [<-|Hne].
  - rewrite !lookup_alter_eq, lookup_fmap. destruct (entries s !! eid); cbn; [|done]. by rewrite Hf.
  - by rewrite !lookup_alter_ne, lookup_fmap by done.
Qed.

#[local] Ltac shift :=
  apply view_alter; intros e; unfold e_view; cbn [fst snd add_sem add_waiters e_sem e_waiters]; f_equal; lia.

Lemma view_alter_same f eid s :
  (forall e, e_view (f e) = e_view e) -> view_of (with_entries (alter f eid) s) = view_of s.
Proof.
  intros Hf. unfold view_of. cbn. f_equal. apply map_eq. intros e.
  rewrite !lookup_fmap. destruct (decide (eid = e)) as [<-|Hne].
  - rewrite !lookup_alter_eq. destruct (entries s !! eid); cbn; [|done]. by rewrite Hf.
  - by rewrite !lookup_alter_ne by done.
Qed.

Lemma view_insert_same e e' eid s :
  entries s !! eid = Some e -> e_view e' = e_view e ->
  view_of (with_entries (<[eid := e']>) s) = view_of s.
Proof.
  intros He Hv. unfold view_of. cbn. f_equal. rewrite fmap_insert. apply insert_id.
  by rewrite lookup_fmap, He, Hv.
Qed.

Lemma view_lease_same l l' lid s :
  handles s !! lid = Some l -> l_view l' = l_view l -> view_of (update_lease lid l' s) = view_of s.
Proof.
  intros He Hv. unfold view_of. cbn. f_equal. rewrite fmap_insert. apply insert_id.
  by rewrite lookup_fmap, He, Hv.
Qed.

Lemma view_pool f s :
  conns (f (pool s)) = conns (pool s) -> closed (f (pool s)) = closed (pool s) ->
  maxConns (f (pool s)) = maxConns (pool s) -> quotaObserver (f (pool s)) = quotaObserver (pool s) ->
  view_of (with_pool f s) = view_of s.
Proof. intros E1 E2 E3 E4. unfold view_of. cbn. by rewrite E1, E2, E3, E4. Qed.

Lemma view_pending srv q s : view_of (set_pending srv q s) = view_of s.
Proof. by apply view_pool. Qed.

Lemma view_rebind fp lid s : view_of (RebindFingerprint fp lid s).2 = view_of s.
Proof.
  unfold RebindFingerprint. destruct (handles s !! lid) as [l|] eqn:El; [|done].
  destruct (done l) eqn:Ed; [done|]. destruct (current l s); [|done]. cbn [negb].
  case_bool_decide; [done|]. destruct (entries s !! entry l) as [e|] eqn:Ee; [|done]. cbn [snd].
  rewrite view_close, (view_lease_same l) by done. by apply (view_insert_same e).
Qed.

Lemma view_SetClient c lid s : view_of (SetClient c lid s) = view_of s.
Proof.
  unfold SetClient. destruct (handles s !! lid) as [l|] eqn:El; [|done].
  destruct (done l); [by rewrite view_close|]. destruct (closed (pool s)); case_bool_decide;
    rewrite ?view_close; by apply (view_lease_same l).
Qed.

Lemma view_return lid c d now s : view_of (finish_return lid c d now s) = view_of s.
Proof.
  unfold finish_return. destruct (handles s !! lid) as [l|] eqn:El; [|done].
  set (s1 := with_pool _ s). assert (view_of s1 = view_of s) as E1 by done.
  set (s2 := if legacy l then _ else _).
  assert (view_of s2 = view_of s) as E2 by (subst s2; destruct (legacy l); by rewrite ?view_pending).
  destruct (negb d && cacheable l && current l s2 && _); rewrite ?view_close; [|done].
  rewrite view_alter_same; [done|]. by intros [].
Qed.

Lemma view_LegacyClient lid s : view_of (LegacyClient lid s).2 = view_of s.
Proof.
  unfold LegacyClient. destruct (handles s !! lid) as [l|] eqn:El; [|done].
  destruct (done l); [done|]. destruct (legacy l); [done|]. cbn [snd]. rewrite view_pending.
  set (conf := if bool_decide _ then filter _ _ else _). set (l' := if bool_decide (conf = []) then _ else _).
  assert (l_view l' = l_view l) as Hl by (subst l'; by case_bool_decide).
  rewrite <- (view_lease_same l l' lid s El Hl). clearbody l' conf. generalize (update_lease lid l' s). intros s'.
  unfold view_of. cbn. f_equal. generalize (handles s'). induction conf as [|q conf IH]; intros h; [done|].
  cbn. rewrite IH. apply map_eq. intros i. rewrite !lookup_fmap.
  destruct (decide (q = i)) as [->|Hne]; [rewrite lookup_alter_eq|by rewrite lookup_alter_ne].
  by destruct (h !! i).
Qed.

Lemma view_legacyLease srv c s : view_of (legacyLease srv c s).2 = view_of s.
Proof.
  unfold legacyLease.
  destruct c as [c|]; cbn zeta; [destruct (take_first (has_original (Some c) s) _) as [[??]|]|];
    [apply view_pending|..]; (destruct (take_first (has_original None s) _) as [[??]|]; [apply view_pending|done]).
Qed.

Lemma view_Invalidate srv s : view_of (Invalidate srv s) = view_of s.
Proof.
  unfold Invalidate. destruct (conns (pool s) !! srv) as [eid|]; [|done].
  destruct (entries s !! eid) as [e|] eqn:Ee; [|done]. rewrite view_close. by apply (view_insert_same e).
Qed.

Lemma view_probed r c s : view_of (acquire_probed r c s).2 = view_of s.
Proof. by destruct r. Qed.

Lemma view_refused ctx a c s err s' :
  acquire_lease ctx a c s = (inl err, s') -> view_of s' = view_of s.
Proof. unfold acquire_lease. destruct (verdict ctx a s); [intros H; injection H as <- <-; apply view_close|done]. Qed.

Lemma view_close_leased lid s : view_of (close_leased lid s) = view_of s.
Proof. unfold close_leased. destruct (handles s !! lid); [apply view_close|done]. Qed.

Lemma view_take ctx now a s r s' :
  acquire_take ctx now a s = (r, s') -> view_of s' = shift_entry (a_entry a) 0 (-1) (view_of s).
Proof.
  unfold acquire_take.
  assert (view_of (leave_queue a s) = shift_entry (a_entry a) 0 (-1) (view_of s)) as E.
  { shift. }
  destruct (verdict ctx a (leave_queue a s)); [intros [= <- <-]; exact E|].
  destruct (a_fresh a); intros [= <- <-]; rewrite ?view_close, view_alter_same; try exact E; by intros [].
Qed.

Lemma view_lease ctx a c s lid s' :
  acquire_lease ctx a c s = (inr lid, s') ->
  handles s !! lid = None /\ view_of s' = put_lease lid (false, acq_hold a) (view_of s).
Proof.
  unfold acquire_lease. destruct (verdict ctx a s); [done|]. intros [= <- <-]. split.
  - apply not_elem_of_dom, is_fresh.
  - unfold view_of, put_lease. cbn. by rewrite fmap_insert.
Qed.

Lemma view_mark lid l c s s' :
  handles s !! lid = Some l -> finish_mark lid s = (Some c, s') ->
  done l = false /\ c = Client l /\ view_of s' = put_lease lid (true, lease_hold l) (view_of s).
Proof.
  unfold finish_mark. intros ->. destruct (done l); [done|]. intros [= <- <-]. split_and!; [done..|].
  unfold view_of, put_lease. cbn. by rewrite fmap_insert.
Qed.

Lemma view_notify c d s :
  view_of (notifyQuota c d s)
  = if v_observer (view_of s)
    then put_quota (<[c := tally (v_quota (view_of s)) c + d]> (v_quota (view_of s))) (view_of s)
    else view_of s.
Proof. unfold notifyQuota. cbn. by destruct (quotaObserver (pool s)). Qed.

Lemma view_give eid s : view_of (give_slot eid s) = shift_entry eid (-1) 0 (view_of s).
Proof. shift. Qed.
Lemma view_slot eid s : view_of (take_slot eid s) = shift_entry eid 1 0 (view_of s).
Proof. shift. Qed.
Lemma view_leave a s : view_of (leave_queue a s) = shift_entry (a_entry a) 0 (-1) (view_of s).
Proof. shift. Qed.

(** What an entering goroutine leaves: its entry is the pool's, with one more waiter. *)
Lemma view_enter ctx srv fp fr label s a d s' :
  acquire_enter ctx srv fp fr label s = Ok (a, d, s') ->
  (forall eid, conns (pool s) !! srv = Some eid -> is_Some (entries s !! eid)) ->
  closed (pool s) = false /\ a_server a = srv /\
  exists v, view_of s' = shift_entry (a_entry a) 0 1 v /\ v_closed v = false /\
    v_conns v !! srv = Some (a_entry a) /\
    (v = view_of s \/
     conns (pool s) !! srv = None /\ entries s !! a_entry a = None /\ v = new_entry srv (a_entry a) (view_of s)).
Proof.
  unfold acquire_enter. destruct ctx; [done|]. destruct (closed (pool s)) eqn:Ecl; [done|]. intros H Hd.
  assert (forall eid (s1 : store), view_of (with_entries (alter (add_waiters 1) eid) s1)
            = shift_entry eid 0 1 (view_of s1)) as Hadd.
  { intros eid s1. shift. }
  destruct (conns (pool s) !! srv) as [eid|] eqn:Ec.
  - destruct (Hd eid eq_refl) as [e Ee]. rewrite Ee in H. split; [done|].
    case_bool_decide; injection H as <- <- <-; cbn [a_server a_entry]; split; [done|eexists|done|eexists];
      (split; [apply Hadd|]); rewrite ?view_close, ?(view_insert_same e) by done;
      (split; [exact Ecl|]); (split; [exact Ec|by left]).
  - injection H as <- <- <-. cbn [a_server a_entry]. split_and!; [done..|]. eexists. split; [apply Hadd|].
    assert (entries s !! fresh (dom (entries s)) = None) as Hf by (apply not_elem_of_dom, is_fresh).
    split_and!; [exact Ecl|cbn; apply lookup_insert_eq|]. right. split_and!; [done..|].
    unfold view_of, new_entry. cbn. by rewrite fmap_insert.
Qed.

(** One iteration of [evict] only drops entries without slots in use and waiters. *)
Lemma evict_one_spec now s srv eid :
  conns (pool s) !! srv = Some eid ->
  exists m, view_of (evict_one now s (srv, eid)) = put_conns m (v_closed (view_of s)) (view_of s) /\
    (m = conns (pool s) \/ m = delete srv (conns (pool s)) /\ v_entries (view_of s) !! eid = Some (0, 0)).
Proof.
  intros Hc. unfold evict_one. destruct (entries s !! eid) as [e|] eqn:Ee; [|by eexists; split; [|by left]].
  set (s1 := if idle_out now (pool s) e then _ else s).
  assert (view_of s1 = view_of s) as E1.
  { subst s1. destruct (idle_out _ _ _); [|done]. rewrite view_close. apply view_alter_same. by intros []. }
  destruct (bool_decide _ && (e_sem e =? 0) && (e_waiters e =? 0)) eqn:Ed.
  - bools. exists (delete srv (conns (pool s))). split.
    + transitivity (put_conns (delete srv (v_conns (view_of s1))) (v_closed (view_of s1)) (view_of s1)); [done|].
      by rewrite E1.
    + right. split; [done|]. cbn. rewrite lookup_fmap, Ee. cbn. unfold e_view. by do 2 f_equal.
  - exists (conns (pool s)). split; [rewrite E1; done|by left].
Qed.

Lemma evict_spec now l s :
  NoDup l.*1 -> (forall srv eid, (srv, eid) ∈ l -> conns (pool s) !! srv = Some eid) ->
  exists m, view_of (foldl (evict_one now) s l) = put_conns m (v_closed (view_of s)) (view_of s) /\
    (forall srv eid, m !! srv = Some eid -> conns (pool s) !! srv = Some eid) /\
    (forall srv eid, conns (pool s) !! srv = Some eid -> m !! srv = None ->
       v_entries (view_of s) !! eid = Some (0, 0)).
Proof.
  revert s. induction l as [|[srv eid] l IH]; intros s Hnd Hl.
  { exists (conns (pool s)). split_and!; [done|done|]. intros srv eid H1 H2. congruence. }
  cbn [foldl fmap list_fmap] in *. apply NoDup_cons in Hnd as [Hni Hnd].
  destruct (evict_one_spec now s srv eid) as (m1 & E1 & Hm1); [apply Hl; left|].
  assert (conns (pool (evict_one now s (srv, eid))) = m1) as Ec by exact (f_equal v_conns E1).
  destruct (IH (evict_one now s (srv, eid)) Hnd) as (m & E & Hsub & Hgone).
  { intros srv' eid' Hin. rewrite Ec. assert (conns (pool s) !! srv' = Some eid') as H by (apply Hl; by right).
    destruct Hm1 as [->|[-> _]]; [done|]. rewrite lookup_delete_ne; [done|].
    intros <-. apply Hni. apply list_elem_of_fmap. by exists (srv, eid'). }
  exists m. rewrite Ec in Hsub, Hgone. rewrite E1 in E, Hgone. split_and!.
  - exact E.
  - intros srv' eid' H. apply Hsub in H. destruct Hm1 as [->|[-> _]]; [done|].
    by apply lookup_delete_Some in H as [_ H].
  - intros srv' eid' H1 H2. destruct (m1 !! srv') as [e|] eqn:Em.
    + apply (Hgone srv'); [|exact H2]. destruct Hm1 as [->|[-> _]]; [exact H1|].
      apply lookup_delete_Some in Em as [Hne _]. by rewrite lookup_delete_ne.
    + destruct Hm1 as [->|[-> H0]]; [by rewrite H1 in Em|].
      destruct (decide (srv = srv')) as [<-|Hne]; [|rewrite lookup_delete_ne, H1 in Em by done; done].
      specialize (Hl srv eid ltac:(left)). rewrite Hl in H1. by injection H1 as <-.
Qed.

Lemma view_close_pool s :
  view_of (close_pool s).2 = if closed (pool s) then view_of s else put_conns ∅ true (view_of s).
Proof.
  unfold close_pool. destruct (closed (pool s)) eqn:Ecl; [done|]. cbn [snd].
  assert (forall l s, view_of (foldl close_cached s l) = view_of s) as Hl.
  { induction l as [|kv l IH]; intros s0; [done|]. cbn. rewrite IH. unfold close_cached.
    destruct (entries s0 !! kv.2) as [e|]; [|done]. rewrite view_close. apply view_alter_same. by intros []. }
  transitivity (put_conns ∅ true (view_of (foldl close_cached s (map_to_list (conns (pool s)))))); [done|].
  by rewrite Hl.
Qed.

(** *** Every step keeps the books *)

Definition wslots (w : world) : Prop := slots_ok (view_of (st w)) (tasks w).

Lemma wslots_home w srv eid :
  wslots w -> closed (pool (st w)) = false -> conns (pool (st w)) !! srv = Some eid ->
  is_Some (entries (st w) !! eid).
Proof.
  intros [_ _ (home & _ & Hd & Hc) _] Hcl H. specialize (Hc Hcl). cbn in Hc. subst home.
  apply Hd in H. cbn in H. rewrite lookup_fmap in H. by apply fmap_is_Some in H.
Qed.

(** The bookkeeping side conditions are evaluations of the books of known tasks. *)
#[local] Ltac books :=
  try solve
    [ done | intros; lia
    | intros; cbn; unfold only_at, of_entry, of_consumer; cbn;
      repeat (case_bool_decide || destruct (Nat.eqb _ _)); try done; lia ].

Lemma wslots_enter w t ctx srv fp fr label a d s :
  tasks w !! t = None -> acquire_enter ctx srv fp fr label (st w) = Ok (a, d, s) ->
  wslots w -> wslots (put t (Waiting a) s w).
Proof.
  intros Ht H Hw.
  destruct (view_enter _ _ _ _ _ _ _ _ _ H) as (Hcl & Hs & v & Ev & Hvc & Hvs & Hv).
  { intros eid Hc. eapply wslots_home; [done| |done].
    unfold acquire_enter in H. destruct ctx; [done|]. by destruct (closed (pool (st w))). }
  assert (slots_ok v (tasks w)) as Hok.
  { destruct Hv as [->|(H1 & H2 & ->)]; [exact Hw|]. apply slots_new; [exact Hcl|exact H1| |exact Hw].
    cbn. by rewrite lookup_fmap, H2. }
  unfold wslots, put. cbn [st tasks]. rewrite Ev.
  apply (slots_shift v (tasks w) t (Some (Waiting a))); rewrite ?Ht; books.
  intros h (k & [= <-] & [Hk|Hk]); [done|]. injection Hk as <-. right. cbn. by rewrite Hs.
Qed.

(** A step that only moves its goroutine along, without touching the books. *)
Lemma wslots_put w t k s :
  view_of s = view_of (st w) -> same_books (tasks w !! t) (Some k) -> wslots w -> wslots (put t k s w).
Proof. intros Ev Hb Hw. unfold wslots. cbn. rewrite Ev. by apply (slots_same _ (tasks w) t (Some k)). Qed.
Lemma wslots_drop w t s :
  view_of s = view_of (st w) -> same_books (tasks w !! t) None -> wslots w -> wslots (drop t s w).
Proof. intros Ev Hb Hw. unfold wslots. cbn. rewrite Ev. by apply (slots_same _ (tasks w) t None). Qed.
Lemma wslots_quiet w s d :
  view_of s = view_of (st w) -> wslots w -> wslots (World s (tasks w) d).
Proof. intros Ev Hw. unfold wslots. cbn. by rewrite Ev. Qed.

(** A new reference is one the goroutine had already. *)
Lemma refers_kept v ts t k0 o :
  ts !! t = Some k0 ->
  (forall h, refers o h -> t_hold k0 = Some h \/ t_wait k0 = Some h) ->
  forall h, refers o h -> user v ts h.
Proof. intros Ht Ho h H. destruct (Ho h H); [by eapply user_hold | by eapply user_wait]. Qed.

#[local] Ltac kept Ht :=
  intros h Hr; first [left; revert h Hr | revert h Hr]; eapply (refers_kept _ _ _ _ _ Ht);
  intros h (k & [= <-] & [Hk|Hk]); cbn in *; auto.

Lemma wslots_leave w t a :
  tasks w !! t = Some (Leaving a) -> wslots w -> wslots (drop t (leave_queue a (st w)) w).
Proof.
  intros Ht Hw. unfold wslots. cbn. rewrite view_leave.
  apply (slots_shift _ (tasks w) t None); rewrite ?Ht; books. by intros h (k & ? & _).
Qed.

Lemma wslots_slot w t a :
  tasks w !! t = Some (Waiting a) -> slot_free (a_entry a) (st w) = true ->
  wslots w -> wslots (put t (Slotted a) (take_slot (a_entry a) (st w)) w).
Proof.
  intros Ht Hf Hw. unfold wslots. cbn. rewrite view_slot.
  apply (slots_shift _ (tasks w) t (Some (Slotted a))); rewrite ?Ht; books.
  - cbn. intros n m H _. rewrite lookup_fmap in H. unfold slot_free in Hf.
    destruct (entries (st w) !! a_entry a); [|done]. injection H as <- _. bools. cbn. lia.
  - kept Ht.
Qed.

Lemma wslots_take w t a ctx now r s :
  tasks w !! t = Some (Counted a) -> acquire_take ctx now a (st w) = (r, s) ->
  wslots w -> wslots (put t (or_release (acq_hold a) r (after_take a)) s w).
Proof.
  intros Ht H Hw. unfold wslots. cbn. rewrite (view_take _ _ _ _ _ _ H).
  set (k' := or_release _ _ _).
  assert (Some k' ≫= t_hold = Some (acq_hold a) /\ Some k' ≫= t_wait = None
          /\ Some k' ≫= t_told = Some (acq_hold a)) as (E1 & E2 & E3) by (destruct r as [|[]]; done).
  apply (slots_shift _ (tasks w) t (Some k')); rewrite ?Ht, ?E1, ?E2, ?E3; books.
  intros h Hr. left. revert h Hr. eapply (refers_kept _ _ _ _ _ Ht).
  intros h (k & [= <-] & [Hk|Hk]); cbn in E1, E2; rewrite ?E1, ?E2 in Hk; cbn; [auto|done].
Qed.

Lemma wslots_give w t h :
  tasks w !! t = Some (Releasing h) -> wslots w -> wslots (put t (Uncounting h) (give_slot (h_entry h) (st w)) w).
Proof.
  intros Ht Hw. unfold wslots. cbn. rewrite view_give.
  apply (slots_shift _ (tasks w) t (Some (Uncounting h))); rewrite ?Ht; books.
  intros h' (k & [= <-] & [Hk|Hk]); done.
Qed.

Lemma wslots_tell w t o c d :
  o ≫= t_hold = tasks w !! t ≫= t_hold -> o ≫= t_wait = tasks w !! t ≫= t_wait ->
  (forall x, weight (of_consumer x) (o ≫= t_told)
             = weight (of_consumer x) (tasks w !! t ≫= t_told) + (if bool_decide (c = x) then d else 0)) ->
  wslots w -> wslots (World (notifyQuota c d (st w)) (partial_alter (fun _ => o) t (tasks w)) (dialed w)).
Proof. intros. unfold wslots. cbn [st tasks]. rewrite view_notify. by apply slots_tell. Qed.

Lemma wslots_lease w t a c ctx lid s :
  tasks w !! t = Some (Probed a c) -> acquire_lease ctx a c (st w) = (inr lid, s) ->
  wslots w -> wslots (drop t s w).
Proof.
  intros Ht H Hw. destruct (view_lease _ _ _ _ _ _ H) as [Hn Ev]. unfold wslots. cbn. rewrite Ev.
  assert (v_leases (view_of (st w)) !! lid = None) as Hl by (cbn; by rewrite lookup_fmap, Hn).
  apply (slots_hand _ (tasks w) t None); rewrite ?Ht, ?Hl; books.
  intros h [(k & ? & _)|Hk]; [done|]. injection Hk as <-. by eapply user_hold.
Qed.

Lemma wslots_mark w t lid l c discard s :
  tasks w !! t = None -> handles (st w) !! lid = Some l -> finish_mark lid (st w) = (Some c, s) ->
  wslots w -> wslots (put t (Finishing lid (lease_hold l) c discard) s w).
Proof.
  intros Ht Hl H Hw. destruct (view_mark _ _ _ _ _ Hl H) as (Hd & _ & Ev). unfold wslots. cbn. rewrite Ev.
  assert (v_leases (view_of (st w)) !! lid = Some (false, lease_hold l)) as Hv.
  { cbn. rewrite lookup_fmap, Hl. cbn. unfold l_view. by rewrite Hd. }
  apply (slots_hand _ (tasks w) t (Some (Finishing lid (lease_hold l) c discard)));
    rewrite ?Ht, ?Hv; books.
  intros h [(k & [= <-] & [Hk|Hk])|Hk]; [|done|done]. injection Hk as <-. by eapply user_lease.
Qed.

Lemma wslots_evict w now : wslots w -> wslots (on_store (evict now (st w)) w).
Proof.
  intros Hw. destruct (evict_spec now (map_to_list (conns (pool (st w)))) (st w)) as (m & E & Hsub & Hgone).
  - apply NoDup_fst_map_to_list.
  - intros srv eid. apply elem_of_map_to_list.
  - unfold wslots. cbn. unfold evict. rewrite E. by apply slots_forget.
Qed.

Lemma wslots_step compat w w' : step compat w w' -> wslots w -> wslots w'.
Proof.
  intros Hstep Hw. destruct Hstep.
  - by eapply wslots_enter.
  - apply wslots_put; [done| |done]. by rewrite H.
  - by apply wslots_leave.
  - by apply wslots_slot.
  - apply (wslots_tell w t (Some (Counted a))); rewrite ?H; books.
  - by eapply wslots_take.
  - apply wslots_put; [|rewrite H; by destruct r as [|[]]|done].
    pose proof (view_probed p c (st w)) as E. by rewrite H0 in E.
  - apply wslots_put; [by eapply view_refused|by rewrite H|done].
  - by eapply wslots_lease.
  - apply wslots_quiet; [apply view_rebind|done].
  - apply wslots_quiet; [apply view_SetClient|done].
  - apply wslots_quiet; [apply view_SetClient|done].
  - apply wslots_quiet; [apply view_SetClient|done].
  - by eapply wslots_mark.
  - apply wslots_put; [apply view_return|by rewrite H|done].
  - by apply wslots_give.
  - apply (wslots_tell w t None); rewrite ?H; books.
  - apply wslots_quiet; [apply view_LegacyClient|done].
  - apply wslots_quiet; [apply view_legacyLease|done].
  - apply wslots_quiet; [apply view_Invalidate|done].
  - by apply wslots_evict.
  - unfold wslots. cbn. apply (slots_same _ (tasks w) t (Some _)); [by rewrite H|].
    rewrite view_close_pool. destruct (closed (pool (st w))); [done|by apply slots_closed].
  - apply wslots_put; [apply view_close_leased|by rewrite H|done].
  - apply wslots_drop; [done|by rewrite H|done].
Qed.

Lemma wslots_start p : 1 <= cap -> maxConns p = cap -> quotaObserver p = obs -> conns p = ∅ -> wslots (start p).
Proof.
  intros Hm Hp Ho Hc. split; [done|done| |].
  - exists ∅. split_and!; [|done|done]. intros h []; done.
  - intros _ c. done.
Qed.
End slots.

Lemma wslots_reachable compat p w :
  1 <= maxConns p -> conns p = ∅ -> reachable compat p w -> wslots (maxConns p) (quotaObserver p) w.
Proof. intros Hm Hc. induction 1; [by apply wslots_start|by eapply wslots_step]. Qed.

(** The slots in use for a server are those of one entry. *)
Lemma used_server cap obs v ts srv : slots_ok cap obs v ts -> used (of_server srv) v ts <= cap.
Proof.
  intros [(Hm & Hc & _) He (home & Hu & Hd & _) _].
  assert (forall h eid, user v ts h -> home !! srv = Some eid -> of_server srv h = true -> of_entry eid h = true) as Hse.
  { intros h eid H Hs Hh. unfold of_server, of_entry in *. bools. apply Hu in H. rewrite Hh, Hs in H.
    injection H as ->. apply Nat.eqb_refl. }
  assert (forall h, user v ts h -> home !! srv = None -> of_server srv h = false) as Hno.
  { intros h H Hs. unfold of_server. apply Z.eqb_neq. intros <-. apply Hu in H. by rewrite Hs in H. }
  destruct (home !! srv) as [eid|] eqn:Es.
  - destruct (Hd _ _ Es) as [[n m] E]. destruct (He _ _ _ E) as (En & _ & Hn). rewrite Hm in Hn.
    enough (used (of_server srv) v ts <= used (of_entry eid) v ts) by lia. unfold used, among.
    apply Z.add_le_mono; apply count_map_le.
    + intros t k Hk. destruct (t_hold k) as [h|] eqn:E0; [|done]. apply Hse; [by eapply user_hold|done].
    + intros lid [[] h] Hl; cbn; [done|]. apply Hse; [by eapply user_lease|done].
  - unfold used. rewrite !count_map_zero; [lia|..]; unfold among.
    + intros lid [[] h] Hl; cbn; [done|]. apply Hno; [by eapply user_lease|done].
    + intros t k Hk. destruct (t_hold k) as [h|] eqn:E0; [|done]. apply Hno; [by eapply user_hold|done].
Qed.

(** ** The properties *)

Lemma slots_conns cap obs s ts h :
  slots_ok cap obs (view_of s) ts -> closed (pool s) = false -> user (view_of s) ts h ->
  conns (pool s) !! h_server h = Some (h_entry h).
Proof. intros [_ _ (home & Hu & _ & Hc) _] Hcl H. apply Hu in H. by rewrite <- (Hc Hcl) in H. Qed.

(** The pool as [main] sets it up: [NewPool], its settings and its observer. *)
Definition configured (idle : duration) (n : Z) (slot : duration) (r : option runtime) (observer : bool) : Pool :=
  SetRuntimeConfig r (SetQuotaObserver observer (NewPool idle n slot)).

Lemma configured_max idle n slot r o : maxConns (configured idle n slot r o) = Z.max 1 n.
Proof. cbn. destruct (n <? 1) eqn:E; bools; lia. Qed.

(** C9: Whatever the goroutines that use the pool do (borrows that wait, time out,
    probe, fail or are cancelled; invalidations, evictions, returns in any order,
    the compatibility interface, shutdown), at most [max 1 maxConns] sessions of one
    server are in use, and a goroutine that gives its slot back never blocks on the
    semaphore; and a goroutine waiting for a slot waits on the entry the pool would
    give to any other, until the pool is closed. *)
Theorem sessions_bounded compat idle n slot r o w :
  reachable compat (configured idle n slot r o) w ->
  (forall srv, used (of_server srv) (view_of (st w)) (tasks w) <= Z.max 1 n) /\
  (forall t h, tasks w !! t = Some (Releasing h) -> slot_taken (h_entry h) (st w) = true) /\
  (forall t a, tasks w !! t = Some (Waiting a) -> closed (pool (st w)) = false ->
     conns (pool (st w)) !! a_server a = Some (a_entry a)).
Proof.
  intros Hr. apply wslots_reachable in Hr; [|rewrite configured_max; lia|done].
  rewrite configured_max in Hr. split_and!.
  - intros srv. by eapply used_server.
  - intros t h Ht. destruct Hr as [_ He (home & Hu & Hd & _) _].
    assert (user (view_of (st w)) (tasks w) h) as Hh by (by eapply user_hold).
    destruct (user_entry_known _ _ _ _ Hu Hd Hh) as [[k m] E]. destruct (He _ _ _ E) as (En & _ & _).
    cbn in E. rewrite lookup_fmap in E. unfold slot_taken. destruct (entries (st w) !! h_entry h) as [e|]; [|done].
    injection E as <- _. apply Z.ltb_lt. rewrite En. unfold used.
    pose proof (count_map_nonneg (among l_slot (of_entry (h_entry h))) (v_leases (view_of (st w)))).
    pose proof (count_map_pos (among t_hold (of_entry (h_entry h))) (tasks w) t (Releasing h) Ht (Nat.eqb_refl _)).
    lia.
  - intros t a Ht Hcl. apply (slots_conns _ _ _ _ (acq_hold a) Hr Hcl). by eapply user_wait.
Qed.

(** The quota observer is told the truth: what it has summed up for a consumer
    label is the number of unfinished leases of that consumer plus the borrows and
    returns of that consumer still under way, so that once no borrow or return is
    under way it is the number of unfinished leases. *)
Theorem quota_matches_slots compat idle n slot r w c :
  reachable compat (configured idle n slot r true) w ->
  tally (quota (st w)) c
  = count_map (among t_told (of_consumer c)) (tasks w)
    + count_map (fun l => negb (done l) && bool_decide (consumer l = c)) (handles (st w)).
Proof.
  intros Hr. apply wslots_reachable in Hr; [|rewrite configured_max; lia|done].
  destruct Hr as [(_ & _ & Ho) _ _ Hq]. rewrite (Hq Ho c : tally (quota (st w)) c = _). unfold told. f_equal. cbn [v_leases view_of].
  rewrite count_map_fmap. apply count_if_ext. intros l.
  unfold among, l_slot, l_view. cbn. by destruct (done l).
Qed.

(** ** Witnesses *)

(** Two borrows of one server, the first of which returns its transport. *)
Definition demo_pool : Pool := configured (60 * Second) 2 (5 * Second) None true.
Definition demo_acq : acq := Acq 0 7 1 "key" false "terminal".

Definition w1 : world :=
  match acquire_enter false 7 "key" false "terminal" (st (start demo_pool)) with
  | Ok (_, _, s) => put 0%nat (Waiting demo_acq) s (start demo_pool) | Err _ => start demo_pool end.
Definition w2 : world := put 0%nat (Slotted demo_acq) (take_slot 0 (st w1)) w1.
Definition w3 : world := put 0%nat (Counted demo_acq) (notifyQuota "terminal" 1 (st w2)) w2.
Definition w4 : world := put 0%nat (Probed demo_acq None) (acquire_take false 5 demo_acq (st w3)).2 w3.
Definition w5 : world := drop 0%nat (acquire_lease false demo_acq None (st w4)).2 w4.
Definition demo_lease : Lease := MkLease None 0 7 1 "key" false true false None "terminal".
Definition w6 : world := World (SetClient (Some 40) 0 (st w5)) (tasks w5) (<[40 := (7, 1, "key")]> (dialed w5)).

Lemma demo_leased compat : reachable compat demo_pool w6.
Proof.
  assert (reachable compat demo_pool w5) as H5.
  { apply (reach_step _ _ w4); [|eapply (StepLease _ _ _ demo_acq None false 0%nat); by vm_compute].
    apply (reach_step _ _ w3); [|eapply (StepTake _ _ _ demo_acq false 5 (inr None)); by vm_compute].
    apply (reach_step _ _ w2); [|by apply StepCount].
    apply (reach_step _ _ w1); [|by apply StepSlot].
    apply (reach_step _ _ (start demo_pool)); [apply reach_start|].
    eapply (StepEnter _ _ _ false 7 "key" false "terminal" demo_acq); by vm_compute. }
  apply (reach_step _ _ w5); [exact H5|].
  apply (StepDialed compat w5 0%nat demo_lease 40); by vm_compute.
Qed.

Lemma sessions_bounded_witness :
  reachable true demo_pool w6 /\ used (of_server 7) (view_of (st w6)) (tasks w6) = 1 /\ 1 <= Z.max 1 2.
Proof.
  split; [apply demo_leased|]. split; [by vm_compute|].
  pose proof (proj1 (sessions_bounded true _ _ _ _ _ w6 (demo_leased true)) 7) as H.
  replace (used (of_server 7) (view_of (st w6)) (tasks w6)) with 1 in H by (by vm_compute). exact H.
Defined.

Lemma quota_matches_slots_witness :
  reachable true demo_pool w6 /\ tally (quota (st w6)) "terminal" = 0 + 1.
Proof.
  split; [apply demo_leased|]. exact (quota_matches_slots true _ _ _ _ w6 "terminal" (demo_leased true)).
Defined.
