(* ===== verification/PoolOwners.v ===== *)
(** * The transports of the SSH pool and their owners

    Where each SSH transport is (cached by an entry, in a lease, or with a goroutine
    between two sections), and what it was dialed for.  [shut] holds whatever callers do
    and gives [close_leaves_nothing_open]; [owned] needs callers that hand over only
    transports they have just dialed for the lease, and gives
    [transports_have_one_owner].  [released_transport_is_reused] is about the code run
    without interleaving.  The last section shows how the compatibility interface by
    server id breaks the ownership theorem. *)

From S2P Require Import Prelude SSHPool PoolSlots.

(** ** Ownership of the transports *)

(** Where a transport can be: cached by an entry, in a lease, or in a goroutine
    between two sections. *)
Inductive place := InEntry (eid : nat) | InLease (lid : nat) | InTask (t : nat).

#[export] Instance place_eq : EqDecision place.
Proof. solve_decision. Defined.

Definition task_client (k : task) : option Z :=
  match k with
  | Probing _ c => Some c
  | Probed _ c => c
  | Finishing _ _ c _ => c
  | _ => None
  end.

Definition at_ (s : store) (ts : gmap nat task) (p : place) : option Z :=
  match p with
  | InEntry eid => entries s !! eid ≫= e_client
  | InLease lid => handles s !! lid ≫= Client
  | InTask t => ts !! t ≫= task_client
  end.

(** *** Leases and shutdown *)

Record shut (s : store) (ts : gmap nat task) : Prop := {
  sh_lease lid l : handles s !! lid = Some l ->
    (if done l then Client l = None else lid ∈ leases (pool s));
  sh_cached eid c : at_ s ts (InEntry eid) = Some c ->
    closed (pool s) = false /\ exists srv, conns (pool s) !! srv = Some eid;
  sh_finishing t lid h c d : ts !! t = Some (Finishing lid h c d) ->
    exists l, handles s !! lid = Some l /\ done l = true;
  sh_closing t lids : ts !! t = Some (Closing lids) -> closed (pool s) = true;
  sh_closed lid c : closed (pool s) = true -> at_ s ts (InLease lid) = Some c ->
    c ∈ gone s \/ exists t lids, ts !! t = Some (Closing lids) /\ lid ∈ lids }.

(** A section that takes clients away at most, and closes only more of them. *)
Record frame (s s' : store) : Prop := {
  fr_lease lid l' : handles s' !! lid = Some l' ->
    exists l, handles s !! lid = Some l /\ done l' = done l /\ (Client l' = Client l \/ Client l' = None);
  fr_kept lid l : handles s !! lid = Some l -> is_Some (handles s' !! lid);
  fr_entry eid c : entries s' !! eid ≫= e_client = Some c ->
    entries s !! eid ≫= e_client = Some c /\
    forall srv, conns (pool s) !! srv = Some eid -> conns (pool s') !! srv = Some eid;
  fr_closed : closed (pool s') = closed (pool s);
  fr_leases : leases (pool s) ⊆ leases (pool s');
  fr_gone : gone s ⊆ gone s' }.

(** The tasks that matter to shutdown stay. *)
Record same_duties (ts ts' : gmap nat task) : Prop := {
  sd_fin t lid h c d : ts' !! t = Some (Finishing lid h c d) -> ts !! t = Some (Finishing lid h c d);
  sd_closing t lids : ts' !! t = Some (Closing lids) <-> ts !! t = Some (Closing lids) }.

Lemma frame_refl s : frame s s.
Proof. split; eauto. Qed.
Lemma frame_trans s1 s2 s3 : frame s1 s2 -> frame s2 s3 -> frame s1 s3.
Proof.
  intros H1 H2. split.
  - intros lid l3 H. destruct (fr_lease _ _ H2 _ _ H) as (l2 & E2 & D2 & C2).
    destruct (fr_lease _ _ H1 _ _ E2) as (l1 & E1 & D1 & C1). exists l1. split_and!; [done|congruence|].
    destruct C2 as [->|]; [exact C1|by right].
  - intros lid l H. destruct (fr_kept _ _ H1 _ _ H) as [l2 E]. by eapply fr_kept.
  - intros eid c H. apply (fr_entry _ _ H2) in H as [H Hc2]. apply (fr_entry _ _ H1) in H as [H Hc1]. eauto.
  - rewrite (fr_closed _ _ H2). apply H1.
  - etrans; [apply H1|apply H2].
  - etrans; [apply H1|apply H2].
Qed.

Lemma shut_frame s s' ts ts' : frame s s' -> same_duties ts ts' -> shut s ts -> shut s' ts'.
Proof.
  intros Hf Hd H. split.
  - intros lid l' E. destruct (fr_lease _ _ Hf _ _ E) as (l & El & Ed & Ec).
    pose proof (sh_lease _ _ H _ _ El) as Hl. rewrite Ed. destruct (done l).
    + destruct Ec as [-> | ->]; done.
    + by apply (fr_leases _ _ Hf).
  - intros eid c E. destruct (fr_entry _ _ Hf _ _ E) as [E0 Hc].
    destruct (sh_cached _ _ H eid c E0) as [Hcl [srv Hs]]. rewrite (fr_closed _ _ Hf). eauto.
  - intros t lid h c d E%(sd_fin _ _ Hd). destruct (sh_finishing _ _ H _ _ _ _ _ E) as (l & El & Hdn).
    destruct (fr_kept _ _ Hf _ _ El) as [l' El']. exists l'. split; [done|].
    destruct (fr_lease _ _ Hf _ _ El') as (l0 & El0 & -> & _). congruence.
  - intros t lids E%(sd_closing _ _ Hd). rewrite (fr_closed _ _ Hf). by eapply sh_closing.
  - intros lid c Hcl E. rewrite (fr_closed _ _ Hf) in Hcl. cbn in E.
    destruct (handles s' !! lid) as [l'|] eqn:El'; [|done]. cbn in E.
    destruct (fr_lease _ _ Hf _ _ El') as (l & El & _ & [Ec|Ec]); [|congruence].
    destruct (sh_closed _ _ H lid c Hcl) as [Hg|(t & lids & Ht & Hin)].
    { cbn. rewrite El. cbn. congruence. }
    + left. by apply (fr_gone _ _ Hf).
    + right. exists t, lids. split; [by apply (sd_closing _ _ Hd)|done].
Qed.

(** *** Sections that are frames *)

Lemma frame_entries_sub f s :
  (forall eid c, f (entries s) !! eid ≫= e_client = Some c -> entries s !! eid ≫= e_client = Some c) ->
  frame s (with_entries f s).
Proof. intros H. split; cbn; eauto. Qed.

Lemma frame_alter f eid s :
  (forall e, e_client (f e) = e_client e \/ e_client (f e) = None) -> frame s (with_entries (alter f eid) s).
Proof.
  intros Hf. apply frame_entries_sub. intros e c. destruct (decide (eid = e)) as [<-|Hne].
  - rewrite lookup_alter_eq. destruct (entries s !! eid) as [en|]; cbn; [|done].
    destruct (Hf en) as [-> | ->]; done.
  - by rewrite lookup_alter_ne.
Qed.

Lemma frame_insert e e' eid s :
  entries s !! eid = Some e -> e_client e' = None -> frame s (with_entries (<[eid := e']>) s).
Proof.
  intros He Hc. apply frame_entries_sub. intros x c. destruct (decide (eid = x)) as [<-|Hne].
  - rewrite lookup_insert_eq. cbn. by rewrite Hc.
  - by rewrite lookup_insert_ne.
Qed.

Lemma frame_close c s : frame s (close_client c s).
Proof. destruct c; [|apply frame_refl]. split; cbn; eauto. set_solver. Qed.

Lemma frame_lease l l' lid s :
  handles s !! lid = Some l -> done l' = done l -> Client l' = Client l \/ Client l' = None ->
  frame s (update_lease lid l' s).
Proof.
  intros El Hd Hc. split; cbn; eauto.
  - intros x l0. destruct (decide (lid = x)) as [<-|Hne].
    + rewrite lookup_insert_eq. intros [= <-]. eauto.
    + rewrite lookup_insert_ne by done. eauto.
  - intros x l0 Hx. destruct (decide (lid = x)) as [<-|Hne].
    + rewrite lookup_insert_eq. eauto.
    + rewrite lookup_insert_ne by done. eauto.
Qed.

Lemma frame_pool f s :
  conns (f (pool s)) = conns (pool s) -> closed (f (pool s)) = closed (pool s) ->
  leases (pool s) ⊆ leases (f (pool s)) -> frame s (with_pool f s).
Proof. intros E1 E2 E3. split; cbn; eauto. by rewrite E1. Qed.

Lemma frame_close_r c s s' : frame s s' -> frame s (close_client c s').
Proof. intros H. eapply frame_trans; [exact H|apply frame_close]. Qed.

Create HintDb frames discriminated.
#[local] Hint Resolve frame_refl frame_close_r : frames.
#[local] Hint Extern 1 (frame _ (with_entries (alter _ _) _)) =>
  solve [apply frame_alter; intros []; cbn; auto] : frames.

Lemma frame_notify c d s : frame s (notifyQuota c d s).
Proof. unfold notifyQuota. destruct (quotaObserver (pool s)); [|apply frame_refl]. split; cbn; eauto. Qed.

Lemma frame_enter ctx srv fp fr label s a d s' :
  acquire_enter ctx srv fp fr label s = Ok (a, d, s') -> frame s s'.
Proof.
  unfold acquire_enter. destruct ctx; [done|]. destruct (closed (pool s)); [done|].
  destruct (conns (pool s) !! srv) as [eid|] eqn:Ec.
  - destruct (entries s !! eid) as [e|] eqn:Ee.
    + case_bool_decide; intros [= <- <- <-]; [by auto with frames|].
      eapply frame_trans; [by apply (frame_insert e (reconfigure fp e))|].
      eapply frame_trans; [apply frame_close|]. auto with frames.
    + intros [= <- <- <-]. auto with frames.
  - intros [= <- <- <-]. set (eid := fresh _).
    assert (entries s !! eid = None) as Hn by (apply not_elem_of_dom, is_fresh).
    match goal with |- frame _ (with_entries _ ?s1) => apply (frame_trans s s1); [|by auto with frames] end.
    split; cbn; eauto.
    intros e c. destruct (decide (eid = e)) as [<-|Hne]; [rewrite lookup_insert_eq; done|].
    rewrite lookup_insert_ne by done. intros H. split; [done|]. intros srv' Hs'.
    rewrite lookup_insert_ne; [done|]. intros <-. congruence.
Qed.

Lemma frame_take ctx now a s r s' : acquire_take ctx now a s = (r, s') -> frame s s'.
Proof.
  unfold acquire_take. destruct (verdict ctx a (leave_queue a s)); [intros [= <- <-]; unfold leave_queue; auto with frames|].
  intros H. apply (frame_trans s (leave_queue a s)); [unfold leave_queue; auto with frames|].
  destruct (a_fresh a); injection H as <- <-; auto with frames.
Qed.

Lemma frame_probed r c s r' s' : acquire_probed r c s = (r', s') -> frame s s'.
Proof. destruct r; intros H; injection H as <- <-; first [apply frame_refl|apply (frame_close (Some c))]. Qed.

Lemma frame_refuse ctx a c s err s' : acquire_lease ctx a c s = (inl err, s') -> frame s s'.
Proof. unfold acquire_lease. destruct (verdict ctx a s); [|done]. intros H. injection H as <- <-. auto with frames. Qed.

Lemma frame_rebind fp lid s : frame s (RebindFingerprint fp lid s).2.
Proof.
  unfold RebindFingerprint. destruct (handles s !! lid) as [l|] eqn:El; [|auto with frames].
  destruct (done l) eqn:Ed; [auto with frames|]. destruct (current l s); [|auto with frames]. cbn [negb].
  case_bool_decide; [auto with frames|]. destruct (entries s !! entry l) as [e|] eqn:Ee; [|auto with frames].
  cbn [snd]. apply frame_close_r. eapply frame_trans; [by apply (frame_insert e (reconfigure fp e))|].
  apply (frame_lease l); [exact El|done|by left].
Qed.

Lemma frame_unset lid s : frame s (SetClient None lid s).
Proof.
  unfold SetClient. destruct (handles s !! lid) as [l|] eqn:El; [|auto with frames].
  destruct (done l); [auto with frames|].
  assert (frame s (update_lease lid (set_Client None l) s)) as Hf by (apply (frame_lease l); auto).
  destruct (closed (pool s)); case_bool_decide; repeat apply frame_close_r; exact Hf.
Qed.

Lemma frame_Invalidate srv s : frame s (Invalidate srv s).
Proof.
  unfold Invalidate. destruct (conns (pool s) !! srv) as [eid|]; [|auto with frames].
  destruct (entries s !! eid) as [e|] eqn:Ee; [|auto with frames].
  apply frame_close_r. by apply (frame_insert e).
Qed.

Lemma frame_close_leased lid s : frame s (close_leased lid s).
Proof. unfold close_leased. destruct (handles s !! lid); auto with frames. Qed.

Lemma frame_LegacyClient lid s : frame s (LegacyClient lid s).2.
Proof.
  unfold LegacyClient. destruct (handles s !! lid) as [l|] eqn:El; [|auto with frames].
  destruct (done l); [auto with frames|]. destruct (legacy l); [auto with frames|]. cbn [snd].
  set (conf := if bool_decide _ then filter _ _ else _). set (l' := if bool_decide (conf = []) then _ else _).
  assert (done l' = done l /\ Client l' = Client l) as [Hd Hc] by (subst l'; by case_bool_decide).
  clearbody l' conf. eapply frame_trans; [by apply (frame_lease l l'); auto|].
  generalize (update_lease lid l' s). intros s'. eapply frame_trans; [|by apply frame_pool].
  assert (forall h : gmap nat Lease, forall x, option_map (fun l => (done l, Client l))
     (foldl (fun h q => alter set_uncacheable q h) h conf !! x) = option_map (fun l => (done l, Client l)) (h !! x)) as Hx.
  { induction conf as [|q conf IH]; intros h x; [done|]. cbn. rewrite IH.
    destruct (decide (q = x)) as [->|Hne]; [rewrite lookup_alter_eq|by rewrite lookup_alter_ne].
    by destruct (h !! x). }
  split; cbn; eauto; intros x l0 H; specialize (Hx (handles s') x); rewrite H in Hx; cbn in Hx.
  - destruct (handles s' !! x) as [l1|]; [|done]. injection Hx as Hx1 Hx2. rewrite Hx1, Hx2. eauto.
  - destruct (foldl _ _ _ !! x); [eauto|done].
Qed.

Lemma frame_legacyLease srv c s : frame s (legacyLease srv c s).2.
Proof.
  assert (forall q, frame s (set_pending srv q s)) as Hp by (intros q; by apply frame_pool).
  unfold legacyLease.
  destruct c as [c|]; cbn zeta; [destruct (take_first (has_original (Some c) s) _) as [[??]|]|];
    [apply Hp|..]; (destruct (take_first (has_original None s) _) as [[??]|]; [apply Hp|apply frame_refl]).
Qed.

Lemma frame_evict_one now s srv eid :
  conns (pool s) !! srv = Some eid -> 
  frame s (evict_one now s (srv, eid)).
Proof.
  intros Hc. unfold evict_one. destruct (entries s !! eid) as [e|] eqn:Ee; [|auto with frames].
  set (idle := idle_out _ _ _). set (s1 := if idle then _ else s).
  assert (frame s s1) as F1.
  { subst s1. destruct idle; auto with frames. }
  destruct (bool_decide _ && (e_sem e =? 0) && (e_waiters e =? 0)) eqn:Ed; [|exact F1].
  bools. eapply frame_trans; [exact F1|].
  assert (entries s1 !! eid ≫= e_client = None) as Hnone.
  { subst s1. destruct idle.
    - destruct (e_client e); cbn; rewrite lookup_alter_eq, Ee; done.
    - by rewrite Ee. }
  assert (conns (pool s1) = conns (pool s)) as Ec by (subst s1; destruct idle; [by destruct (e_client e)|done]).
  split; cbn; eauto. intros x c Hx. split; [done|]. intros srv' Hs'.
  rewrite lookup_delete_ne; [done|]. intros <-. rewrite Ec, Hc in Hs'. injection Hs' as <-. by rewrite Hnone in Hx.
Qed.

Lemma conns_evict_one now s srv eid :
  forall srv', srv' <> srv -> conns (pool (evict_one now s (srv, eid))) !! srv' = conns (pool s) !! srv'.
Proof.
  intros srv' Hne. unfold evict_one. destruct (entries s !! eid) as [e|]; [|done].
  set (s1 := if idle_out now (pool s) e then _ else s).
  assert (conns (pool s1) = conns (pool s)) as E by (subst s1; destruct (idle_out _ _ _); [by destruct (e_client e)|done]).
  destruct (bool_decide _ && _ && _); cbn; [by rewrite lookup_delete_ne, E|by rewrite E].
Qed.

(** Induction over the loop of [evict]: each iteration still finds its entry. *)
Lemma evict_ind (P : store -> Prop) now :
  (forall s srv eid, P s -> conns (pool s) !! srv = Some eid -> P (evict_one now s (srv, eid))) ->
  forall s, P s -> P (evict now s).
Proof.
  intros Hstep s. unfold evict.
  assert (forall l s, NoDup l.*1 -> (forall srv eid, (srv, eid) ∈ l -> conns (pool s) !! srv = Some eid) ->
    P s -> P (foldl (evict_one now) s l)) as Hl.
  { clear s. induction l as [|[srv eid] l IH]; intros s Hnd Hl Hs; [done|]. cbn [foldl fmap list_fmap] in *.
    apply NoDup_cons in Hnd as [Hni Hnd]. apply IH; [done| |by apply Hstep; [|apply Hl; left]].
    intros srv' eid' Hin. rewrite conns_evict_one; [apply Hl; by right|].
    intros ->. apply Hni, list_elem_of_fmap. by exists (srv, eid'). }
  apply Hl; [apply NoDup_fst_map_to_list|]. intros srv eid. apply elem_of_map_to_list.
Qed.

Lemma frame_evict now s : frame s (evict now s).
Proof.
  apply (evict_ind (frame s)); [|apply frame_refl].
  intros s' srv eid H Hc. eapply frame_trans; [exact H|by apply frame_evict_one].
Qed.

(** *** Every step keeps the leases and the shutdown in order *)

Definition is_closing (k : task) : bool := match k with Closing _ => true | _ => false end.
Definition is_duty (k : task) : bool := match k with Closing _ | Finishing _ _ _ _ => true | _ => false end.

Lemma duties_set ts t (o : option task) :
  from_option is_closing false (ts !! t) = false -> from_option is_duty false o = false ->
  same_duties ts (partial_alter (fun _ => o) t ts).
Proof.
  intros Hold Hnew. split.
  - intros u lid h c d. destruct (decide (t = u)) as [<-|Hne].
    + rewrite lookup_partial_alter_eq. by intros ->.
    + by rewrite lookup_partial_alter_ne.
  - intros u lids. destruct (decide (t = u)) as [<-|Hne].
    + rewrite lookup_partial_alter_eq. split; [by intros -> | intros E; by rewrite E in Hold].
    + by rewrite lookup_partial_alter_ne.
Qed.

Lemma duties_refl ts : same_duties ts ts.
Proof. by split. Qed.

Definition wshut (w : world) : Prop := shut (st w) (tasks w).

Lemma wshut_put w t k s :
  frame (st w) s -> from_option is_closing false (tasks w !! t) = false -> is_duty k = false ->
  wshut w -> wshut (put t k s w).
Proof. intros Hf H1 H2. apply shut_frame; [exact Hf|]. by apply (duties_set _ t (Some k)). Qed.
Lemma wshut_drop w t s :
  frame (st w) s -> from_option is_closing false (tasks w !! t) = false -> wshut w -> wshut (drop t s w).
Proof. intros Hf H1. apply shut_frame; [exact Hf|]. by apply (duties_set _ t None). Qed.
Lemma wshut_frame w s d : frame (st w) s -> wshut w -> wshut (World s (tasks w) d).
Proof. intros Hf. apply shut_frame; [exact Hf|apply duties_refl]. Qed.

Lemma frame_SetClient c lid s :
  closed (pool s) = true \/ from_option done true (handles s !! lid) = true -> frame s (SetClient c lid s).
Proof.
  intros H. unfold SetClient. destruct (handles s !! lid) as [l|] eqn:El; [|auto with frames]. cbn in H.
  destruct (done l); [auto with frames|]. destruct H as [-> | H]; [|done].
  case_bool_decide; repeat apply frame_close_r; apply (frame_lease l); auto.
Qed.

Lemma shut_SetClient c lid s ts : shut s ts -> shut (SetClient c lid s) ts.
Proof.
  intros H. destruct (decide (closed (pool s) = true \/ from_option done true (handles s !! lid) = true)) as [Hd|Hd].
  { apply (shut_frame s _ ts); [by apply frame_SetClient|apply duties_refl|exact H]. }
  unfold SetClient. destruct (handles s !! lid) as [l|] eqn:El; [|done]. cbn in Hd.
  destruct (done l) eqn:Edn; [naive_solver|]. destruct (closed (pool s)) eqn:Ecl; [naive_solver|].
  assert (shut (update_lease lid (set_Client c l) s) ts) as H1.
  { split; cbn.
    - intros x l'. destruct (decide (lid = x)) as [<-|Hne]; [|rewrite lookup_insert_ne by done; apply H].
      rewrite lookup_insert_eq. intros [= <-]. cbn. pose proof (sh_lease _ _ H _ _ El) as Hl.
      rewrite Edn in *. exact Hl.
    - exact (sh_cached _ _ H).
    - intros t x h c0 d Ht. destruct (sh_finishing _ _ H _ _ _ _ _ Ht) as (l0 & E0 & D0).
      rewrite lookup_insert_ne; [by exists l0|]. intros <-. congruence.
    - exact (sh_closing _ _ H).
    - congruence. }
  case_bool_decide; [exact H1|]. eapply shut_frame; [apply frame_close|apply duties_refl|exact H1].
Qed.

Lemma shut_lease w t a c ctx lid s :
  tasks w !! t = Some (Probed a c) -> acquire_lease ctx a c (st w) = (inr lid, s) ->
  wshut w -> wshut (drop t s w).
Proof.
  unfold acquire_lease. intros Ht E H.
  destruct (verdict ctx a (st w)) eqn:Ev; [done|]. injection E as E1 E2. subst s.
  assert (handles (st w) !! lid = None) as Hf by (subst lid; apply not_elem_of_dom, is_fresh). rewrite E1. clear E1.
  assert (closed (pool (st w)) = false) as Hcl.
  { unfold verdict in Ev. destruct ctx; [done|]. by destruct (closed (pool (st w))). }
  assert (same_duties (tasks w) (delete t (tasks w))) as [S1 S2]
    by (apply (duties_set _ t None); [by rewrite Ht|done]).
  split; cbn.
  - intros x l'. destruct (decide (lid = x)) as [<-|Hne].
    + rewrite lookup_insert_eq. intros [= <-]. cbn. set_solver.
    + rewrite lookup_insert_ne by done. intros Hx. pose proof (sh_lease _ _ H _ _ Hx). destruct (done l'); [done|set_solver].
  - exact (sh_cached _ _ H).
  - intros u x h c0 d Hu%S1. destruct (sh_finishing _ _ H _ _ _ _ _ Hu) as (l0 & E0 & D0).
    rewrite lookup_insert_ne; [by exists l0|]. intros <-. congruence.
  - intros u lids Hu%S2. by apply (sh_closing _ _ H u lids).
  - congruence.
Qed.

Lemma shut_mark w t lid l c d s :
  tasks w !! t = None -> handles (st w) !! lid = Some l -> finish_mark lid (st w) = (Some c, s) ->
  wshut w -> wshut (put t (Finishing lid (lease_hold l) c d) s w).
Proof.
  intros Ht El E H. unfold finish_mark in E. rewrite El in E. destruct (done l) eqn:Ed; [done|].
  injection E as <- <-. split; cbn.
  - intros x l'. destruct (decide (lid = x)) as [<-|Hne]; [|rewrite lookup_insert_ne by done; apply H].
    rewrite lookup_insert_eq. by intros [= <-].
  - exact (sh_cached _ _ H).
  - intros u x h c0 d0. destruct (decide (t = u)) as [<-|Hne].
    + rewrite lookup_insert_eq. intros [= <- _ _ _]. rewrite lookup_insert_eq. eauto.
    + rewrite lookup_insert_ne by done. intros Hu. destruct (sh_finishing _ _ H _ _ _ _ _ Hu) as (l0 & E0 & D0).
      rewrite lookup_insert_ne; [by exists l0|]. intros <-. congruence.
  - intros u lids. destruct (decide (t = u)) as [<-|Hne]; [by rewrite lookup_insert_eq|].
    rewrite lookup_insert_ne by done. apply H.
  - intros x c0 Hcl. destruct (decide (lid = x)) as [<-|Hne]; [by rewrite lookup_insert_eq|].
    rewrite lookup_insert_ne by done. intros Hx.
    destruct (sh_closed _ _ H x c0 Hcl Hx) as [?|(u & lids & Hu & Hin)]; [by left|right].
    exists u, lids. rewrite lookup_insert_ne; [done|]. intros <-. congruence.
Qed.

(** What [finish] does with the client: cached for the lease's configuration, or
    closed. *)
Lemma return_cases lid l c d now s :
  handles s !! lid = Some l ->
  let s' := finish_return lid c d now s in
  handles s' = handles s /\ closed (pool s') = closed (pool s) /\ conns (pool s') = conns (pool s) /\
  leases (pool s') = leases (pool s) ∖ {[lid]} /\
  ((negb d && cacheable l && current l s && vacant (entry l) s = false /\
    entries s' = entries s /\ gone s' = (if c is Some c then {[c]} else ∅) ∪ gone s) \/
   (exists e, entries s !! entry l = Some e /\ e_client e = None /\
      e_generation e = l_generation l /\ e_fingerprint e = l_fingerprint l /\
      conns (pool s) !! serverID l = Some (entry l) /\ closed (pool s) = false /\ cacheable l = true /\
      d = false /\ gone s' = gone s /\
      entries s' = <[entry l := set_lastUsed now (set_client c e)]> (entries s))).
Proof.
  intros El. unfold finish_return. rewrite El. cbv zeta.
  set (s2 := if legacy l then _ else _).
  assert (handles s2 = handles s /\ closed (pool s2) = closed (pool s) /\ conns (pool s2) = conns (pool s) /\
          leases (pool s2) = leases (pool s) ∖ {[lid]} /\ entries s2 = entries s /\ gone s2 = gone s)
    as (E1 & E2 & E3 & E4 & E5 & E6) by (subst s2; by destruct (legacy l)).
  clearbody s2.
  assert (current l s2 = current l s /\ vacant (entry l) s2 = vacant (entry l) s) as [Ecur Evac]
    by (unfold current, vacant; by rewrite E2, E3, E5).
  rewrite Ecur, Evac. destruct (negb d && cacheable l && current l s && vacant (entry l) s) eqn:Eb.
  - cbn. rewrite E1, E2, E3, E4. split_and!; try done. right.
    unfold current, vacant in Eb. bools. destruct (entries s !! entry l) as [e|] eqn:Ee; [|done].
    bools. exists e. split_and!; try done. rewrite E5. apply map_eq. intros x.
    destruct (decide (entry l = x)) as [<-|Hne].
    + by rewrite lookup_alter_eq, lookup_insert_eq, Ee.
    + by rewrite lookup_alter_ne, lookup_insert_ne.
  - destruct c as [c|]; cbn; rewrite E1, E2, E3, E4; split_and!; try done; left; rewrite E5, E6; [done|].
    by rewrite (left_id_L ∅ (∪)).
Qed.

Lemma shut_return w t lid h c d now :
  tasks w !! t = Some (Finishing lid h c d) ->
  wshut w -> wshut (put t (Releasing h) (finish_return lid c d now (st w)) w).
Proof.
  intros Ht H. destruct (sh_finishing _ _ H _ _ _ _ _ Ht) as (l & El & Ed).
  destruct (return_cases lid l c d now (st w) El) as (E1 & E2 & E3 & E4 & Hc).
  set (s' := finish_return lid c d now (st w)) in *.
  assert (same_duties (tasks w) (<[t := Releasing h]> (tasks w))) as [S1 S2]
    by (apply (duties_set _ t (Some (Releasing h))); [by rewrite Ht|done]).
  assert (gone (st w) ⊆ gone s') as Hg.
  { destruct Hc as [(_ & _ & ->)|(e & Hc)]; [set_solver|]. destruct Hc as (_ & _ & _ & _ & _ & _ & _ & _ & -> & _). done. }
  split; cbn [st tasks put].
  - intros x l'. rewrite E1, E4. intros Hx. pose proof (sh_lease _ _ H _ _ Hx). destruct (done l') eqn:Ed'; [done|].
    apply elem_of_difference. split; [done|]. apply not_elem_of_singleton. congruence.
  - intros x c0. unfold at_. rewrite E2, E3. destruct Hc as [(_ & -> & _)|(e & Ee & Hn & _ & _ & Hs & Hcl & _ & _ & _ & ->)].
    + apply (sh_cached _ _ H).
    + destruct (decide (entry l = x)) as [<-|Hne]; [eauto|].
      rewrite lookup_insert_ne by done. apply (sh_cached _ _ H).
  - intros u x h0 c0 d0 Hu%S1. rewrite E1. by eapply (sh_finishing _ _ H).
  - intros u lids Hu%S2. rewrite E2. by eapply (sh_closing _ _ H).
  - intros x c0 Hcl. unfold at_. rewrite E1. rewrite E2 in Hcl. intros Hx.
    destruct (sh_closed _ _ H x c0 Hcl Hx) as [?|(u & lids & Hu & Hin)]; [left; by apply Hg|right].
    exists u, lids. split; [by apply S2|done].
Qed.

(** The loop of [Close] over the entries. *)
Lemma close_cached_spec l s :
  let s' := foldl close_cached s l in
  handles s' = handles s /\ pool s' = pool s /\
  (forall c, c ∈ gone s' <-> c ∈ gone s \/ exists kv, kv ∈ l /\ entries s !! kv.2 ≫= e_client = Some c) /\
  forall eid, entries s' !! eid ≫= e_client
              = (if bool_decide (eid ∈ l.*2) then None else entries s !! eid ≫= e_client) /\
              (forall e', entries s' !! eid = Some e' -> exists e, entries s !! eid = Some e /\
                 e_generation e' = e_generation e /\ e_fingerprint e' = e_fingerprint e).
Proof.
  revert s. induction l as [|kv l IH]; intros s; cbn [foldl].
  { split_and!; try done. - intros c. set_solver. - intros eid. split; [done|]. eauto. }
  destruct (IH (close_cached s kv)) as (E1 & E2 & E3 & E4). clear IH.
  set (s' := foldl close_cached (close_cached s kv) l) in *.
  assert (handles (close_cached s kv) = handles s /\ pool (close_cached s kv) = pool s) as [F1 F2].
  { unfold close_cached. destruct (entries s !! kv.2) as [e|]; [|done]. by destruct (e_client e). }
  assert (forall eid, entries (close_cached s kv) !! eid
          = if bool_decide (eid = kv.2) then set_client None <$> entries s !! eid else entries s !! eid) as F3.
  { intros eid. unfold close_cached. destruct (entries s !! kv.2) as [e|] eqn:Ee.
    - transitivity (alter (set_client None) kv.2 (entries s) !! eid); [by destruct (e_client e)|].
      case_bool_decide as Hx; [subst; by rewrite lookup_alter_eq|by rewrite lookup_alter_ne].
    - case_bool_decide as Hx; [|done]. subst. by rewrite Ee. }
  assert (forall c, c ∈ gone (close_cached s kv) <-> c ∈ gone s \/ entries s !! kv.2 ≫= e_client = Some c) as F4.
  { intros c. unfold close_cached. destruct (entries s !! kv.2) as [e|]; [|set_solver].
    cbn. destruct (e_client e) as [c'|]; cbn; set_solver. }
  split_and!; [by rewrite E1|by rewrite E2| |].
  - intros c. rewrite E3, F4. setoid_rewrite elem_of_cons. split.
    + intros [[?|?]|(kv' & Hin & Hx)]; [by left|eauto|]. right. exists kv'. split; [by right|].
      rewrite F3 in Hx. case_bool_decide; [|done]. destruct (entries s !! kv'.2); done.
    + intros [?|(kv' & [->|Hin] & Hx)]; [auto|auto|]. destruct (decide (kv'.2 = kv.2)) as [Heq|Hne].
      * left. right. by rewrite <- Heq.
      * right. exists kv'. split; [done|]. rewrite F3. by rewrite bool_decide_eq_false_2.
  - intros eid. destruct (E4 eid) as [Ha Hb]. split.
    + rewrite Ha, F3. cbn [fmap list_fmap]. destruct (decide (eid = kv.2)) as [->|Hne].
      * rewrite (bool_decide_eq_true_2 (kv.2 ∈ kv.2 :: l.*2)) by left. rewrite (bool_decide_eq_true_2 (kv.2 = kv.2)) by done.
        destruct (bool_decide _); [done|]. by destruct (entries s !! kv.2).
      * rewrite (bool_decide_eq_false_2 (eid = kv.2)) by done.
        by rewrite (bool_decide_ext (eid ∈ kv.2 :: l.*2) (eid ∈ l.*2)) by (rewrite elem_of_cons; tauto).
    + intros e' He'. destruct (Hb e' He') as (e & He & -> & ->). rewrite F3 in He. case_bool_decide; [|eauto].
      destruct (entries s !! eid) as [e0|]; [|done]. injection He as <-. eauto.
Qed.

Lemma shut_close w t :
  tasks w !! t = None -> wshut w -> wshut (put t (Closing (close_pool (st w)).1) (close_pool (st w)).2 w).
Proof.
  intros Ht H. unfold close_pool. destruct (closed (pool (st w))) eqn:Ecl; cbn [fst snd].
  - split; cbn; [exact (sh_lease _ _ H)|exact (sh_cached _ _ H)|..].
    + intros u x h c d. destruct (decide (t = u)) as [<-|Hne]; [by rewrite lookup_insert_eq|].
      rewrite lookup_insert_ne by done. apply H.
    + intros u lids. destruct (decide (t = u)) as [<-|Hne]; [by rewrite lookup_insert_eq|].
      rewrite lookup_insert_ne by done. apply H.
    + intros x c Hcl Hx. destruct (sh_closed _ _ H x c Hcl Hx) as [?|(u & lids & Hu & Hin)]; [by left|right].
      exists u, lids. rewrite lookup_insert_ne; [done|]. intros <-. congruence.
  - destruct (close_cached_spec (map_to_list (conns (pool (st w)))) (st w)) as (E1 & E2 & E3 & E4).
    set (s' := foldl close_cached _ _) in *. split; cbn.
    + intros x l. rewrite E1, E2. apply H.
    + intros eid c. destruct (E4 eid) as [-> _]. case_bool_decide as Hin; [done|]. intros Hc.
      destruct (sh_cached _ _ H eid c Hc) as [_ [srv Hs]]. destruct Hin. apply list_elem_of_fmap.
      exists (srv, eid). split; [done|]. by apply elem_of_map_to_list.
    + intros u x h c d. rewrite E1. destruct (decide (t = u)) as [<-|Hne]; [by rewrite lookup_insert_eq|].
      rewrite lookup_insert_ne by done. apply H.
    + done.
    + intros x c _. rewrite E1. intros Hx. right. exists t. eexists. rewrite lookup_insert_eq. split; [done|].
      apply elem_of_elements. destruct (handles (st w) !! x) as [l|] eqn:El; [|done]. cbn in Hx.
      pose proof (sh_lease _ _ H _ _ El) as Hl. destruct (done l); [congruence|exact Hl].
Qed.

Lemma shut_close_leased w t lid lids :
  tasks w !! t = Some (Closing (lid :: lids)) -> wshut w -> wshut (put t (Closing lids) (close_leased lid (st w)) w).
Proof.
  intros Ht H. pose proof (frame_close_leased lid (st w)) as Hf.
  assert (shut (close_leased lid (st w)) (tasks w)) as H1 by (apply (shut_frame (st w) _ (tasks w)); [done|apply duties_refl|done]).
  split; cbn.
  - exact (sh_lease _ _ H1).
  - exact (sh_cached _ _ H1).
  - intros u x h c d. destruct (decide (t = u)) as [<-|Hne]; [by rewrite lookup_insert_eq|].
    rewrite lookup_insert_ne by done. apply H1.
  - intros u lids'. destruct (decide (t = u)) as [<-|Hne].
    + intros _. by apply (sh_closing _ _ H1 t (lid :: lids)).
    + rewrite lookup_insert_ne by done. apply H1.
  - intros x c Hcl Hx. destruct (sh_closed _ _ H1 x c Hcl Hx) as [?|(u & l' & Hu & Hin)]; [by left|].
    destruct (decide (t = u)) as [<-|Hne].
    + rewrite Ht in Hu. injection Hu as <-. apply elem_of_cons in Hin as [->|Hin].
      * left. unfold close_leased in *. destruct (handles (st w) !! lid) as [l|] eqn:El; [|by rewrite El in Hx].
        destruct (Client l) as [c'|] eqn:Ec; cbn in Hx; rewrite El in Hx; cbn in Hx; [|congruence].
        rewrite Ec in Hx. injection Hx as ->. cbn. set_solver.
      * right. exists t, lids. by rewrite lookup_insert_eq.
    + right. exists u, l'. by rewrite lookup_insert_ne.
Qed.

Lemma shut_closed w t : tasks w !! t = Some (Closing []) -> wshut w -> wshut (drop t (st w) w).
Proof.
  intros Ht H. split; cbn; [exact (sh_lease _ _ H)|exact (sh_cached _ _ H)|..].
  - intros u x h c d. destruct (decide (t = u)) as [<-|Hne]; [by rewrite lookup_delete_eq|].
    rewrite lookup_delete_ne by done. apply H.
  - intros u lids. destruct (decide (t = u)) as [<-|Hne]; [by rewrite lookup_delete_eq|].
    rewrite lookup_delete_ne by done. apply H.
  - intros x c Hcl Hx. destruct (sh_closed _ _ H x c Hcl Hx) as [?|(u & lids & Hu & Hin)]; [by left|right].
    exists u, lids. rewrite lookup_delete_ne; [done|]. intros <-. rewrite Ht in Hu. injection Hu as <-. set_solver.
Qed.

Lemma wshut_step compat w w' : step compat w w' -> wshut w -> wshut w'.
Proof.
  intros Hstep Hw. destruct Hstep.
  - apply wshut_put; [by eapply frame_enter|by rewrite H|done|done].
  - apply wshut_put; [apply frame_refl|by rewrite H|done|done].
  - apply wshut_drop; [unfold leave_queue; auto with frames|by rewrite H|done].
  - apply wshut_put; [unfold take_slot; auto with frames|by rewrite H|done|done].
  - apply wshut_put; [apply frame_notify|by rewrite H|done|done].
  - apply wshut_put; [by eapply frame_take|by rewrite H|by destruct r as [|[]]|done].
  - apply wshut_put; [by eapply frame_probed|by rewrite H|by destruct r as [|[]]|done].
  - apply wshut_put; [by eapply frame_refuse|by rewrite H|done|done].
  - by eapply shut_lease.
  - apply wshut_frame; [apply frame_rebind|done].
  - by apply shut_SetClient.
  - by apply shut_SetClient.
  - by apply shut_SetClient.
  - by apply shut_mark.
  - by apply shut_return.
  - apply wshut_put; [unfold give_slot; auto with frames|by rewrite H|done|done].
  - apply wshut_drop; [apply frame_notify|by rewrite H|done].
  - apply wshut_frame; [apply frame_LegacyClient|done].
  - apply wshut_frame; [apply frame_legacyLease|done].
  - apply wshut_frame; [apply frame_Invalidate|done].
  - apply wshut_frame; [apply frame_evict|done].
  - by apply shut_close.
  - by apply shut_close_leased.
  - by apply shut_closed.
Qed.

Lemma wshut_reachable compat p w : closed p = false -> reachable compat p w -> wshut w.
Proof.
  intros Hp. induction 1 as [|w w' _ IH Hs]; [|by eapply wshut_step].
  by split; cbn.
Qed.

(** *** Each transport has one owner *)

Definition origin : Type := (Z * Z * string)%type.

Record holds (a : place -> option Z) (g : gset Z) (live : bool) (d : gmap Z origin) : Prop := {
  ho_excl p q c : a p = Some c -> a q = Some c -> p = q;
  ho_open p c : a p = Some c -> is_Some (d !! c) /\ (live = true -> c ∉ g) }.

Lemma holds_drop p0 a a' g g' live d :
  (forall p c, a' p = Some c -> a p = Some c /\ p <> p0) ->
  (forall c, c ∈ g' -> c ∈ g \/ a p0 = Some c) ->
  holds a g live d -> holds a' g' live d.
Proof.
  intros Ha Hg [He Ho]. split.
  - intros p q c Hp Hq. apply Ha in Hp as [Hp _]. apply Ha in Hq as [Hq _]. by eapply He.
  - intros p c Hp. apply Ha in Hp as [Hp Hne]. destruct (Ho p c Hp) as [Hd Hl]. split; [done|].
    intros Hlive Hin. destruct (Hg c Hin) as [Hin'|H0]; [by apply Hl|]. apply Hne. by eapply He.
Qed.

Lemma holds_same a a' g live live' d :
  (forall p c, a' p = Some c -> a p = Some c) -> (live' = true -> live = true) ->
  holds a g live d -> holds a' g live' d.
Proof.
  intros Ha Hl [He Ho]. split.
  - intros p q c Hp Hq. by eapply He; apply Ha.
  - intros p c Hp%Ha. destruct (Ho p c Hp) as [? Hg]. auto.
Qed.

Lemma holds_move p0 q0 a a' g live d :
  (forall p c, a' p = Some c -> (p = q0 /\ a p0 = Some c) \/ (p <> q0 /\ p <> p0 /\ a p = Some c)) ->
  holds a g live d -> holds a' g live d.
Proof.
  intros Ha [He Ho]. split.
  - intros p q c Hp Hq.
    destruct (Ha p c Hp) as [[-> Hp']|(Hp1 & Hp2 & Hp')], (Ha q c Hq) as [[-> Hq']|(Hq1 & Hq2 & Hq')].
    + done. + destruct Hq2. by eapply He. + destruct Hp2. by eapply He. + by eapply He.
  - intros p c Hp. destruct (Ha p c Hp) as [[-> Hp']|(_ & _ & Hp')]; by eapply Ho.
Qed.

Lemma holds_put q0 c0 o a a' g g' live d :
  (forall p c, a' p = Some c -> (p = q0 /\ c = c0) \/ (p <> q0 /\ a p = Some c)) ->
  (forall c, c ∈ g' -> c ∈ g \/ a q0 = Some c) -> d !! c0 = None -> c0 ∉ g ->
  holds a g live d -> holds a' g' live (<[c0 := o]> d).
Proof.
  intros Ha Hg Hd Hc [He Ho].
  assert (forall p, a p <> Some c0) as Hno.
  { intros p Hp. destruct (Ho p c0 Hp) as [[? ?] _]. congruence. }
  split.
  - intros p q c Hp Hq.
    destruct (Ha p c Hp) as [[-> ->]|[Hp1 Hp']], (Ha q _ Hq) as [[-> Hc']|[Hq1 Hq']].
    + done. + by apply Hno in Hq'. + subst. by apply Hno in Hp'. + by eapply He.
  - intros p c Hp. destruct (Ha p c Hp) as [[-> ->]|[Hne Hp']].
    + rewrite lookup_insert_eq. split; [done|]. intros _ Hin. destruct (Hg _ Hin) as [?|H0]; [done|by apply Hno in H0].
    + destruct (Ho p c Hp') as [Hd' Hl]. split.
      * rewrite lookup_insert_ne; [done|]. intros <-. by apply Hno in Hp'.
      * intros Hlive Hin. destruct (Hg c Hin) as [Hin'|H0]; [by apply Hl|]. apply Hne. by eapply He.
Qed.

(** A goroutine's claim on a transport it took from the cache. *)
Definition claims (ts : gmap nat task) (a : acq) (c : Z) : Prop :=
  exists t, ts !! t = Some (Probing a c) \/ ts !! t = Some (Probed a (Some c)).
Definition finishes (ts : gmap nat task) (lid : nat) (c : Z) : Prop :=
  exists t h d, ts !! t = Some (Finishing lid h (Some c) d).

Record owned (s : store) (ts : gmap nat task) (d : gmap Z origin) : Prop := {
  ow_holds : holds (at_ s ts) (gone s) (negb (closed (pool s))) d;
  ow_conns s1 s2 e : conns (pool s) !! s1 = Some e -> conns (pool s) !! s2 = Some e -> s1 = s2;
  ow_known srv e : conns (pool s) !! srv = Some e -> is_Some (entries s !! e);
  ow_entry srv eid en c : conns (pool s) !! srv = Some eid -> entries s !! eid = Some en ->
    e_client en = Some c -> d !! c = Some (srv, e_generation en, e_fingerprint en);
  ow_task a c : claims ts a c -> d !! c = Some (a_server a, a_generation a, a_fingerprint a);
  ow_lease lid l c : handles s !! lid = Some l -> cacheable l = true ->
    Client l = Some c \/ finishes ts lid c -> d !! c = Some (serverID l, l_generation l, l_fingerprint l) }.

Lemma alter_insert_eq {A} (f : A -> A) (m : gmap nat A) k x :
  m !! k = Some x -> alter f k m = <[k := f x]> m.
Proof.
  intros E. apply map_eq. intros i. destruct (decide (k = i)) as [<-|Hne].
  - by rewrite lookup_alter_eq, lookup_insert_eq, E.
  - by rewrite lookup_alter_ne, lookup_insert_ne.
Qed.

Lemma gone_close c s x : x ∈ gone (close_client c s) -> x ∈ gone s \/ c = Some x.
Proof. destruct c; cbn; set_solver. Qed.
Lemma at_close c s ts : at_ (close_client c s) ts = at_ s ts.
Proof. by destruct c. Qed.

(** Closing a client that is given up. *)
Lemma owned_close p0 c s s0 ts d :
  (forall p x, at_ s ts p = Some x -> at_ s0 ts p = Some x /\ p <> p0) -> at_ s0 ts p0 = c ->
  gone s = gone s0 -> closed (pool s) = closed (pool s0) ->
  holds (at_ s0 ts) (gone s0) (negb (closed (pool s0))) d ->
  holds (at_ (close_client c s) ts) (gone (close_client c s)) (negb (closed (pool (close_client c s)))) d.
Proof.
  intros Ha Hc Hg Hcl H. rewrite at_close.
  replace (pool (close_client c s)) with (pool s) by (by destruct c). rewrite Hcl.
  apply (holds_drop p0 (at_ s0 ts) _ (gone s0)); [exact Ha| |exact H].
  intros x Hx. apply gone_close in Hx as [Hx| ->]; [left; by rewrite <- Hg|by right].
Qed.

(** The entry's client is given up and closed. *)
Lemma owned_clear s ts d eid e e' :
  entries s !! eid = Some e -> e_client e' = None ->
  owned s ts d -> owned (close_client (e_client e) (with_entries (<[eid := e']>) s)) ts d.
Proof.
  intros Ee Hn [Hh Hc Hk He Ht Hl].
  assert (forall s', pool s' = pool s -> entries s' = <[eid := e']> (entries s) -> handles s' = handles s ->
    holds (at_ s' ts) (gone s') (negb (closed (pool s'))) d -> owned s' ts d) as Hown.
  { intros s' E1 E2 E3 Hs'. split; [exact Hs'|..]; rewrite ?E1, ?E3; try done.
    - intros srv x Hx. rewrite E2. rewrite lookup_insert_is_Some. destruct (decide (eid = x)); [by left|right]. eauto.
    - intros srv x en c Hx. rewrite E2. destruct (decide (eid = x)) as [<-|Hne].
      + rewrite lookup_insert_eq. intros [= <-]. congruence.
      + rewrite lookup_insert_ne by done. by apply He. }
  apply Hown; try by destruct (e_client e).
  apply (owned_close (InEntry eid) _ _ s); try done; [|cbn; by rewrite Ee].
  intros [x|x|x] c; cbn; intros Hx; split; try done; destruct (decide (eid = x)) as [<-|Hne].
  - by rewrite lookup_insert_eq in Hx; cbn in Hx; rewrite Hn in Hx.
  - by rewrite lookup_insert_ne in Hx.
  - by rewrite lookup_insert_eq in Hx; cbn in Hx; rewrite Hn in Hx.
  - congruence.
Qed.

(** Counters, time stamps and the observer do not matter. *)
Definition core (e : connEntry) : option Z * Z * string := (e_client e, e_generation e, e_fingerprint e).

Lemma owned_core s s' ts d :
  (forall eid, core <$> entries s' !! eid = core <$> entries s !! eid) -> handles s' = handles s ->
  conns (pool s') = conns (pool s) -> closed (pool s') = closed (pool s) -> gone s' = gone s ->
  owned s ts d -> owned s' ts d.
Proof.
  intros E1 E2 E3 E4 E5 [Hh Hc Hk He Ht Hl].
  assert (forall eid, entries s' !! eid ≫= e_client = entries s !! eid ≫= e_client) as Hcl.
  { intros eid. specialize (E1 eid). destruct (entries s' !! eid), (entries s !! eid); try done. by injection E1. }
  split; rewrite ?E2, ?E3; try done.
  - rewrite E4, E5. apply (holds_same (at_ s ts) _ _ (negb (closed (pool s)))); [|done|exact Hh]. intros [x|x|x] c; cbn; rewrite ?Hcl, ?E2; done.
  - intros srv e Hs. destruct (Hk _ _ Hs) as [en Ee]. specialize (E1 e). rewrite Ee in E1.
    by destruct (entries s' !! e).
  - intros srv eid en c Hs Ee Ec. specialize (E1 eid). rewrite Ee in E1.
    destruct (entries s !! eid) as [en0|] eqn:Ee0; [|done]. injection E1 as E6 E7 E8. rewrite E7, E8.
    apply (He srv eid en0); [done|done|congruence].
Qed.

Lemma core_alter f eid s :
  (forall e, core (f e) = core e) ->
  forall x, core <$> entries (with_entries (alter f eid) s) !! x = core <$> entries s !! x.
Proof.
  intros Hf x. cbn. destruct (decide (eid = x)) as [<-|Hne].
  - rewrite lookup_alter_eq. destruct (entries s !! eid); cbn; by rewrite ?Hf.
  - by rewrite lookup_alter_ne.
Qed.

Lemma owned_alter f eid s ts d :
  (forall e, core (f e) = core e) -> owned s ts d -> owned (with_entries (alter f eid) s) ts d.
Proof. intros Hf. apply owned_core; try done. by apply core_alter. Qed.

Lemma owned_notify c x s ts d : owned s ts d -> owned (notifyQuota c x s) ts d.
Proof. unfold notifyQuota. destruct (quotaObserver (pool s)); [by apply owned_core|done]. Qed.

(** A goroutine that moves along with the same client, or without any. *)
Lemma owned_task s ts d t o :
  (forall k c, o = Some k -> task_client k = Some c -> ts !! t ≫= task_client = Some c) ->
  (forall a c, o = Some (Probing a c) \/ o = Some (Probed a (Some c)) -> claims ts a c) ->
  (forall lid h c x, o <> Some (Finishing lid h (Some c) x)) ->
  owned s ts d -> owned s (partial_alter (fun _ => o) t ts) d.
Proof.
  intros Hc Hcl Hf [Hh Hcn Hk He Ht Hl]. split; try done.
  - apply (holds_same (at_ s ts) _ _ (negb (closed (pool s)))); [|done|exact Hh]. intros [x|x|x] c; cbn; try done.
    destruct (decide (t = x)) as [<-|Hne]; [|by rewrite lookup_partial_alter_ne].
    rewrite lookup_partial_alter_eq. destruct o as [k|]; [|done]. cbn. by apply Hc.
  - intros a c [u Hu]. apply Ht. destruct (decide (t = u)) as [<-|Hne].
    + rewrite lookup_partial_alter_eq in Hu. by apply Hcl.
    + rewrite lookup_partial_alter_ne in Hu by done. by exists u.
  - intros lid l c El Hca Hor. apply (Hl lid l c El Hca). destruct Hor as [?|(u & h & x & Hu)]; [by left|right].
    destruct (decide (t = u)) as [<-|Hne].
    + rewrite lookup_partial_alter_eq in Hu. by apply Hf in Hu.
    + rewrite lookup_partial_alter_ne in Hu by done. by exists u, h, x.
Qed.

(** The goroutine's client is closed. *)
Lemma owned_task_close s ts d t k0 k :
  ts !! t = Some k0 -> task_client k = None ->
  owned s ts d -> owned (close_client (task_client k0) s) (<[t := k]> ts) d.
Proof.
  intros Ht Hn H.
  assert (owned s (<[t := k]> ts) d) as H1.
  { apply (owned_task s ts d t (Some k)); [| | |exact H].
    - intros k1 c [= <-]. congruence.
    - intros a c [[= ->]|[= ->]]; done.
    - by intros lid h c x [= ->]. }
  destruct (task_client k0) as [c|] eqn:Ec; [|exact H1].
  destruct H1 as [_ Hcn Hk He Htk Hl]. split; try done.
  apply (holds_drop (InTask t) (at_ s ts) _ (gone s)); [| |apply H].
  - intros [x|x|x] c'; cbn; intros Hx; split; try done.
    + destruct (decide (t = x)) as [<-|Hne]; [rewrite lookup_insert_eq in Hx; cbn in Hx; congruence|].
      by rewrite lookup_insert_ne in Hx.
    + intros [= ->]. rewrite lookup_insert_eq in Hx. cbn in Hx. congruence.
  - intros x Hx. cbn in *. rewrite Ht. cbn. rewrite Ec. set_solver.
Qed.

(** Shutdown: nothing is promised about open transports any more. *)
Lemma owned_close_any c s ts d : closed (pool s) = true -> owned s ts d -> owned (close_client c s) ts d.
Proof.
  intros Hcl [[He Ho] Hcn Hk Hen Ht Hl]. destruct c as [c|]; [|by split].
  split; try done. split; [exact He|]. intros p x Hp. destruct (Ho p x Hp) as [Hd _]. split; [done|].
  cbn. by rewrite Hcl.
Qed.

Lemma owned_conns m b s ts d :
  (forall srv e, m !! srv = Some e -> conns (pool s) !! srv = Some e) ->
  (b = false -> closed (pool s) = false) -> forall p,
  conns p = m -> closed p = b -> owned s ts d -> owned (with_pool (fun _ => p) s) ts d.
Proof.
  intros Hm Hb p Ep1 Ep2 [Hh Hcn Hk He Ht Hl]. split; cbn; rewrite ?Ep1, ?Ep2; try done.
  - apply (holds_same (at_ s ts) _ _ (negb (closed (pool s)))); [by intros p' c Hp'| |exact Hh]. destruct b; cbn; [done|]. intros _. by rewrite Hb.
  - intros s1 s2 e H1 H2. eapply Hcn; eauto.
  - intros srv e Hs. eauto.
  - intros srv eid en c Hs. apply He. eauto.
Qed.

(** *** Every step keeps the ownership *)

Lemma owned_enter ctx srv fp fr label s a d s' ts dl :
  acquire_enter ctx srv fp fr label s = Ok (a, d, s') -> owned s ts dl -> owned s' ts dl.
Proof.
  unfold acquire_enter. destruct ctx; [done|]. destruct (closed (pool s)) eqn:Ecl; [done|]. intros E H.
  destruct (conns (pool s) !! srv) as [eid|] eqn:Ec.
  - destruct (ow_known _ _ _ H _ _ Ec) as [e Ee]. rewrite Ee in E.
    case_bool_decide; injection E as <- <- <-; (apply owned_alter; [by intros []|]); [exact H|].
    by apply owned_clear.
  - injection E as <- <- <-. apply owned_alter; [by intros []|]. set (eid := fresh _).
    assert (entries s !! eid = None) as Hn by (apply not_elem_of_dom, is_fresh).
    destruct H as [Hh Hcn Hk He Ht Hl].
    assert (forall srv' e, conns (pool s) !! srv' = Some e -> e <> eid) as Hne.
    { intros srv' e Hs ->. destruct (Hk _ _ Hs). congruence. }
    split; try done; cbn.
    + apply (holds_same (at_ s ts) _ _ (negb (closed (pool s)))); [|by rewrite Ecl|exact Hh].
      intros [x|x|x] c; cbn; try done. destruct (decide (eid = x)) as [<-|Hx]; [by rewrite lookup_insert_eq|].
      by rewrite lookup_insert_ne.
    + intros s1 s2 e. destruct (decide (srv = s1)) as [<-|H1], (decide (srv = s2)) as [<-|H2];
        rewrite ?lookup_insert_eq, ?lookup_insert_ne by done; [done|..].
      * intros [= <-] Hs. by apply Hne in Hs. * intros Hs [= <-]. by apply Hne in Hs. * apply Hcn.
    + intros srv' e. rewrite lookup_insert_is_Some. destruct (decide (srv = srv')) as [<-|H1].
      * rewrite lookup_insert_eq. intros [= <-]. by left.
      * rewrite lookup_insert_ne by done. intros Hs. right. split; [by apply not_eq_sym, (Hne srv')|eauto].
    + intros srv' e en c. destruct (decide (srv = srv')) as [<-|H1].
      * rewrite lookup_insert_eq. intros [= <-]. rewrite lookup_insert_eq. by intros [= <-].
      * rewrite lookup_insert_ne by done. intros Hs. rewrite lookup_insert_ne by (by apply not_eq_sym, (Hne srv')).
        by apply He.
Qed.

(** The cached client passes to the goroutine that takes it. *)
Lemma owned_take_client s ts d t a e e' c :
  ts !! t = Some (Counted a) -> entries s !! a_entry a = Some e -> e_client e = Some c -> e_client e' = None ->
  d !! c = Some (a_server a, a_generation a, a_fingerprint a) ->
  owned s ts d -> owned (with_entries (<[a_entry a := e']>) s) (<[t := Probing a c]> ts) d.
Proof.
  intros Ht Ee Ec Hn Hd [Hh Hcn Hk He Htk Hl]. split; try done; cbn.
  - apply (holds_move (InEntry (a_entry a)) (InTask t) (at_ s ts)); [|exact Hh].
    intros [x|x|x] y; cbn; intros Hx.
    + destruct (decide (a_entry a = x)) as [<-|Hne]; [rewrite lookup_insert_eq in Hx; cbn in Hx; congruence|].
      rewrite lookup_insert_ne in Hx by done. right. split_and!; congruence.
    + right. by split_and!.
    + destruct (decide (t = x)) as [<-|Hne].
      * rewrite lookup_insert_eq in Hx. left. split; [done|]. rewrite Ee. cbn in Hx |- *. congruence.
      * rewrite lookup_insert_ne in Hx by done. right. split_and!; congruence.
  - intros srv x Hs. rewrite lookup_insert_is_Some. destruct (decide (a_entry a = x)); [by left|right]. eauto.
  - intros srv x en y Hs. destruct (decide (a_entry a = x)) as [<-|Hne].
    + rewrite lookup_insert_eq. intros [= <-]. congruence.
    + rewrite lookup_insert_ne by done. by apply He.
  - intros b y [u Hu]. destruct (decide (t = u)) as [<-|Hne].
    + rewrite lookup_insert_eq in Hu. destruct Hu as [[= <- <-]|?]; done.
    + rewrite lookup_insert_ne in Hu by done. apply Htk. by exists u.
  - intros lid l y El Hca Hor. apply (Hl lid l y El Hca). destruct Hor as [?|(u & h & x & Hu)]; [by left|right].
    destruct (decide (t = u)) as [<-|Hne]; [by rewrite lookup_insert_eq in Hu|].
    rewrite lookup_insert_ne in Hu by done. by exists u, h, x.
Qed.

Lemma verdict_ok ctx a s :
  verdict ctx a s = None -> closed (pool s) = false /\
  forall e, entries s !! a_entry a = Some e -> e_generation e = a_generation a /\ e_fingerprint e = a_fingerprint a.
Proof.
  unfold verdict. destruct ctx; [done|]. destruct (closed (pool s)); [done|]. intros H. split; [done|].
  intros e Ee. rewrite Ee in H. destruct (negb _ || negb _) eqn:E; [done|]. by bools.
Qed.

Lemma owned_drop_task s ts d t k :
  task_client k = None -> owned s ts d -> owned s (<[t := k]> ts) d.
Proof.
  intros Hn. apply (owned_task s ts d t (Some k)).
  - intros k1 c [= <-]. congruence.
  - intros a c [[= ->]|[= ->]]; done.
  - by intros lid h c x [= ->].
Qed.

Lemma owned_take w t a ctx now r s :
  tasks w !! t = Some (Counted a) -> acquire_take ctx now a (st w) = (r, s) ->
  (closed (pool (st w)) = false -> conns (pool (st w)) !! a_server a = Some (a_entry a)) ->
  owned (st w) (tasks w) (dialed w) ->
  owned s (<[t := or_release (acq_hold a) r (after_take a)]> (tasks w)) (dialed w).
Proof.
  unfold acquire_take. intros Ht E Hcn H.
  assert (owned (leave_queue a (st w)) (tasks w) (dialed w)) as H1 by (by apply owned_alter; [intros []|]).
  destruct (verdict ctx a (leave_queue a (st w))) as [err|] eqn:Ev.
  { injection E as <- <-. by apply owned_drop_task. }
  apply verdict_ok in Ev as [Hcl Hid]. set (s1 := leave_queue a (st w)) in *.
  specialize (Hcn Hcl). destruct (ow_known _ _ _ H1 _ _ Hcn) as [e Ee]. rewrite Ee in E.
  destruct (Hid e Ee) as [Hg Hf]. unfold with_entries in E at 1 2. rewrite (alter_insert_eq _ _ _ _ Ee) in E.
  set (e' := set_lastUsed now (set_client None e)) in *.
  assert (e_client e' = None) as Hn by done.
  destruct (a_fresh a).
  { injection E as <- <-. apply owned_drop_task; [done|]. by apply (owned_clear s1 _ _ (a_entry a) e e'). }
  injection E as <- <-. cbn [or_release]. destruct (e_client e) as [c|] eqn:Ec; cbn [after_take].
  - apply (owned_take_client s1 _ _ _ _ e e'); try done. rewrite <- Hg, <- Hf. by eapply (ow_entry _ _ _ H1).
  - apply owned_drop_task; [done|]. pose proof (owned_clear s1 _ _ (a_entry a) e e' Ee Hn H1) as H2. by rewrite Ec in H2.
Qed.

Lemma owned_probed w t a c p r s :
  tasks w !! t = Some (Probing a c) -> acquire_probed p c (st w) = (r, s) ->
  owned (st w) (tasks w) (dialed w) ->
  owned s (<[t := or_release (acq_hold a) r (Probed a)]> (tasks w)) (dialed w).
Proof.
  intros Ht E H. destruct p; injection E as <- <-; cbn [or_release].
  - apply (owned_task _ _ _ t (Some _)); [| | |exact H].
    + intros k x [= <-]. rewrite Ht. done.
    + intros b x [?|Hp]; [done|]. injection Hp as <- <-. exists t. by left.
    + done.
  - apply (owned_task_close _ _ _ t _ (Probed a None) Ht); done.
  - apply (owned_task_close _ _ _ t _ (Releasing (acq_hold a)) Ht); done.
Qed.

Lemma owned_refuse w t a c ctx err s :
  tasks w !! t = Some (Probed a c) -> acquire_lease ctx a c (st w) = (inl err, s) ->
  owned (st w) (tasks w) (dialed w) -> owned s (<[t := Releasing (acq_hold a)]> (tasks w)) (dialed w).
Proof.
  unfold acquire_lease. intros Ht E H. destruct (verdict ctx a (st w)); [|done]. injection E as _ <-.
  apply (owned_task_close _ _ _ t _ (Releasing (acq_hold a)) Ht); done.
Qed.

(** The borrow is complete: the lease owns what the goroutine owned. *)
Lemma owned_lease w t a c ctx lid s :
  tasks w !! t = Some (Probed a c) -> acquire_lease ctx a c (st w) = (inr lid, s) ->
  wshut w -> owned (st w) (tasks w) (dialed w) -> owned s (delete t (tasks w)) (dialed w).
Proof.
  unfold acquire_lease. intros Ht E Hsh [Hh Hcn Hk He Htk Hl].
  destruct (verdict ctx a (st w)); [done|]. injection E as E1 <-.
  assert (handles (st w) !! lid = None) as Hf by (subst lid; apply not_elem_of_dom, is_fresh). rewrite E1. clear E1.
  assert (forall x, finishes (delete t (tasks w)) lid x -> False) as Hnf.
  { intros x (u & h & y & Hu). destruct (decide (t = u)) as [<-|Hne]; [by rewrite lookup_delete_eq in Hu|].
    rewrite lookup_delete_ne in Hu by done. destruct (sh_finishing _ _ Hsh _ _ _ _ _ Hu) as (l & El & _). congruence. }
  split; try done; cbn.
  - apply (holds_move (InTask t) (InLease lid) (at_ (st w) (tasks w))); [|exact Hh].
    intros [x|x|x] y; cbn; intros Hx.
    + right. by split_and!.
    + destruct (decide (lid = x)) as [<-|Hne].
      * rewrite lookup_insert_eq in Hx. left. split; [done|]. by rewrite Ht.
      * rewrite lookup_insert_ne in Hx by done. right. split_and!; congruence.
    + destruct (decide (t = x)) as [<-|Hne]; [by rewrite lookup_delete_eq in Hx|].
      rewrite lookup_delete_ne in Hx by done. right. split_and!; congruence.
  - intros b y [u Hu]. apply Htk. exists u. destruct (decide (t = u)) as [<-|Hne].
    + rewrite lookup_delete_eq in Hu. by destruct Hu. + by rewrite lookup_delete_ne in Hu.
  - intros x l y. destruct (decide (lid = x)) as [<-|Hne].
    + rewrite lookup_insert_eq. intros [= <-] _ [Hy|Hy]; [|by apply Hnf in Hy]. cbn in *. subst c.
      apply (Htk a y). exists t. by right.
    + rewrite lookup_insert_ne by done. intros El Hca [Hy|(u & h & z & Hu)]; apply (Hl x l y El Hca); [by left|right].
      destruct (decide (t = u)) as [<-|Hne']; [by rewrite lookup_delete_eq in Hu|].
      rewrite lookup_delete_ne in Hu by done. by exists u, h, z.
Qed.

(** The lease's flags and identity, with the same client or none. *)
Lemma owned_update_lease s ts d lid l l' :
  handles s !! lid = Some l -> (Client l' = Client l \/ Client l' = None) ->
  (cacheable l' = true -> cacheable l = true /\ serverID l' = serverID l /\
     l_generation l' = l_generation l /\ l_fingerprint l' = l_fingerprint l) ->
  owned s ts d -> owned (update_lease lid l' s) ts d.
Proof.
  intros El Hc Hca [Hh Hcn Hk He Htk Hl]. split; try done; cbn.
  - apply (holds_same (at_ s ts) _ _ (negb (closed (pool s)))); [|done|exact Hh].
    intros [x|x|x] y; cbn; try done. destruct (decide (lid = x)) as [<-|Hne]; [|by rewrite lookup_insert_ne].
    rewrite lookup_insert_eq, El. cbn. destruct Hc as [-> | ->]; done.
  - intros x l0 y. destruct (decide (lid = x)) as [<-|Hne]; [|rewrite lookup_insert_ne by done; apply Hl].
    rewrite lookup_insert_eq. intros [= <-] Hca' Hy. destruct (Hca Hca') as (Hc0 & -> & -> & ->).
    apply (Hl lid l y El Hc0). destruct Hy as [Hy|Hy]; [|by right]. left. destruct Hc as [Hc|Hc]; congruence.
Qed.

Lemma owned_rebind fp lid s ts d : owned s ts d -> owned (RebindFingerprint fp lid s).2 ts d.
Proof.
  intros H. unfold RebindFingerprint. destruct (handles s !! lid) as [l|] eqn:El; [|done].
  destruct (done l); [done|]. destruct (current l s); [|done]. cbn [negb].
  case_bool_decide; [done|]. destruct (entries s !! entry l) as [e|] eqn:Ee; [|done]. cbn [snd].
  pose proof (owned_clear s ts d (entry l) e (reconfigure fp e) Ee eq_refl H) as H1.
  replace (close_client (e_client e) (update_lease _ _ _)) with
    (update_lease lid (set_identity (e_generation (reconfigure fp e)) fp l)
      (close_client (e_client e) (with_entries (<[entry l := reconfigure fp e]>) s))) by (by destruct (e_client e)).
  apply (owned_update_lease _ _ _ _ l); [by destruct (e_client e)|by left|done|exact H1].
Qed.

(** A lease gives up its client, which is closed. *)
Lemma owned_unset s ts d lid l :
  handles s !! lid = Some l -> owned s ts d -> owned (close_client (Client l) (update_lease lid (set_Client None l) s)) ts d.
Proof.
  intros El H. assert (owned (update_lease lid (set_Client None l) s) ts d) as H1.
  { apply (owned_update_lease _ _ _ _ l); [done|by right| |exact H]. by intros ?. }
  destruct (Client l) as [c|] eqn:Ec; [|exact H1]. destruct H1 as [_ Hcn Hk He Htk Hl]. split; try done.
  rewrite <- Ec. apply (owned_close (InLease lid) _ _ s); try done; [|cbn; by rewrite El|apply H].
  intros [x|x|x] y; cbn; intros Hx; split; try done; destruct (decide (lid = x)) as [<-|Hne].
  - by rewrite lookup_insert_eq in Hx.
  - by rewrite lookup_insert_ne in Hx.
  - by rewrite lookup_insert_eq in Hx.
  - congruence.
Qed.

Lemma owned_SetClient_None lid s ts d : owned s ts d -> owned (SetClient None lid s) ts d.
Proof.
  intros H. unfold SetClient. destruct (handles s !! lid) as [l|] eqn:El; [|done].
  destruct (done l); [done|]. pose proof (owned_unset s ts d lid l El H) as H1.
  destruct (closed (pool s)); case_bool_decide as Hc; cbn [close_client]; try done.
  by rewrite Hc in H1.
Qed.

(** A client the pool has never seen stays closed without an owner. *)
Lemma owned_close_unknown c s ts d o :
  d !! c = None -> owned s ts d -> owned (close_client (Some c) s) ts (<[c := o]> d).
Proof.
  intros Hd [[He Ho] Hcn Hk Hen Htk Hl].
  assert (forall x y, d !! x = Some y -> <[c := o]> d !! x = Some y) as Hins.
  { intros x y Hx. rewrite lookup_insert_ne; [done|]. intros <-. congruence. }
  split; cbn; try done.
  - split; [exact He|]. intros p x Hp. destruct (Ho p x Hp) as [[y Hy] Hg]. split; [by eexists; apply Hins|].
    cbn. intros Hlive [Hx|Hx]%elem_of_union; [|by apply Hg]. apply elem_of_singleton in Hx. congruence.
  - intros srv eid en x Hs Ee Ec. apply Hins. eauto.
  - intros a x Hx. apply Hins. eauto.
  - intros lid l x El Hca Hx. apply Hins. eauto.
Qed.

(** A newly dialed client is given to a lease. *)
Lemma owned_SetClient_new s ts d lid l c :
  handles s !! lid = Some l -> d !! c = None -> c ∉ gone s -> shut s ts -> owned s ts d ->
  owned (SetClient (Some c) lid s) ts (<[c := (serverID l, l_generation l, l_fingerprint l)]> d).
Proof.
  intros El Hd Hg Hsh H. unfold SetClient. rewrite El. set (o := (_, _, _)).
  destruct (done l) eqn:Edn; [by apply owned_close_unknown|].
  assert (Client l <> Some c) as Hne.
  { intros Hc. destruct (ho_open _ _ _ _ (ow_holds _ _ _ H) (InLease lid) c) as [[? ?] _]; [|congruence].
    cbn. by rewrite El. }
  destruct (closed (pool s)) eqn:Ecl.
  { rewrite bool_decide_eq_false_2 by done. apply owned_close_unknown; [done|]. by apply owned_unset. }
  rewrite bool_decide_eq_false_2 by done.
  set (s1 := update_lease lid (set_Client (Some c) l) s).
  assert (forall x y, d !! x = Some y -> <[c := o]> d !! x = Some y) as Hins.
  { intros x y Hx. rewrite lookup_insert_ne; [done|]. intros <-. congruence. }
  destruct H as [Hh Hcn Hk He Htk Hl].
  assert (holds (at_ (close_client (Client l) s1) ts) (gone (close_client (Client l) s1))
            (negb (closed (pool (close_client (Client l) s1)))) (<[c := o]> d)) as Hh'.
  { rewrite at_close. replace (pool (close_client (Client l) s1)) with (pool s) by (by destruct (Client l)).
    apply (holds_put (InLease lid) c o (at_ s ts) _ (gone s)); [| |done|done|exact Hh].
    - intros [x|x|x] y; cbn; intros Hx; [right; done| |right; done].
      destruct (decide (lid = x)) as [<-|Hne'].
      + rewrite lookup_insert_eq in Hx. left. cbn in Hx. split; congruence.
      + rewrite lookup_insert_ne in Hx by done. right. split; congruence.
    - intros x Hx. apply gone_close in Hx as [Hx|Hx]; [by left|right]. cbn. by rewrite El. }
  assert (forall s', pool s' = pool s -> entries s' = entries s -> handles s' = handles s1 ->
    holds (at_ s' ts) (gone s') (negb (closed (pool s'))) (<[c := o]> d) -> owned s' ts (<[c := o]> d)) as Hown.
  { intros s' E1 E2 E3 Hs'. split; [exact Hs'|..]; rewrite ?E1, ?E2, ?E3; try done.
    - intros srv eid en x Hs Ee Ec. apply Hins. eauto.
    - intros a x Hx. apply Hins. eauto.
    - intros x l0 y. cbn. destruct (decide (lid = x)) as [<-|Hne'].
      + rewrite lookup_insert_eq. intros [= <-] Hca [[= <-]|Hf]; cbn; [by rewrite lookup_insert_eq|].
        destruct Hf as (t & h & z & Ht). destruct (sh_finishing _ _ Hsh _ _ _ _ _ Ht) as (l1 & El1 & Hd1). congruence.
      + rewrite lookup_insert_ne by done. intros El0 Hca Hor. apply Hins. eauto. }
  apply Hown; [by destruct (Client l)..|exact Hh'].
Qed.

(** [finish]: the lease's client passes to the finishing goroutine ... *)
Lemma owned_mark w t lid l c dd s :
  tasks w !! t = None -> handles (st w) !! lid = Some l -> finish_mark lid (st w) = (Some c, s) ->
  wshut w -> owned (st w) (tasks w) (dialed w) ->
  owned s (<[t := Finishing lid (lease_hold l) c dd]> (tasks w)) (dialed w).
Proof.
  unfold finish_mark. intros Ht El E Hsh [Hh Hcn Hk He Htk Hl]. rewrite El in E. destruct (done l) eqn:Ed; [done|].
  injection E as <- <-. split; try done; cbn.
  - apply (holds_move (InLease lid) (InTask t) (at_ (st w) (tasks w))); [|exact Hh].
    intros [x|x|x] y; cbn; intros Hx.
    + right. by split_and!.
    + destruct (decide (lid = x)) as [<-|Hne]; [by rewrite lookup_insert_eq in Hx|].
      rewrite lookup_insert_ne in Hx by done. right. split_and!; congruence.
    + destruct (decide (t = x)) as [<-|Hne].
      * rewrite lookup_insert_eq in Hx. left. split; [done|]. by rewrite El.
      * rewrite lookup_insert_ne in Hx by done. right. split_and!; congruence.
  - intros a x [u Hu]. apply Htk. exists u. destruct (decide (t = u)) as [<-|Hne].
    + rewrite lookup_insert_eq in Hu. by destruct Hu. + by rewrite lookup_insert_ne in Hu.
  - intros x l0 y. destruct (decide (lid = x)) as [<-|Hne].
    + rewrite lookup_insert_eq. intros [= <-] Hca [?|(u & h & z & Hu)]; [done|]. cbn in *.
      apply (Hl lid l y El Hca). destruct (decide (t = u)) as [<-|Hne'].
      * rewrite lookup_insert_eq in Hu. injection Hu as _ Hc _. by left.
      * rewrite lookup_insert_ne in Hu by done. right. by exists u, h, z.
    + rewrite lookup_insert_ne by done. intros El0 Hca Hor. apply (Hl x l0 y El0 Hca).
      destruct Hor as [?|(u & h & z & Hu)]; [by left|right]. destruct (decide (t = u)) as [<-|Hne'].
      * rewrite lookup_insert_eq in Hu. by injection Hu as ? _ _.
      * rewrite lookup_insert_ne in Hu by done. by exists u, h, z.
Qed.

(** ... and from it to the cache, or it is closed. *)
Lemma owned_return w t lid h c dd now :
  tasks w !! t = Some (Finishing lid h c dd) -> wshut w ->
  owned (st w) (tasks w) (dialed w) ->
  owned (finish_return lid c dd now (st w)) (<[t := Releasing h]> (tasks w)) (dialed w).
Proof.
  intros Ht Hsh H. destruct (sh_finishing _ _ Hsh _ _ _ _ _ Ht) as (l & El & Hdn).
  destruct (return_cases lid l c dd now (st w) El) as (E1 & E2 & E3 & _ & Hc).
  set (s' := finish_return lid c dd now (st w)) in *.
  destruct Hc as [(_ & E4 & E5)|(e & Ee & Hn & Hg & Hf & Hs & Hcl & Hca & _ & E5 & E4)].
  - pose proof (owned_task_close _ _ _ t _ (Releasing h) Ht eq_refl H) as H1. cbn [task_client] in H1.
    revert H1. apply owned_core; [intros x|..]; rewrite ?E1, ?E2, ?E3, ?E4, ?E5; try (by destruct c).
    destruct c; cbn; [done|]. by rewrite (left_id_L ∅ (∪)).
  - destruct H as [Hh Hcn Hk He Htk Hl].
    split; rewrite ?E1, ?E2, ?E3, ?E4, ?E5; try done.
    + apply (holds_move (InTask t) (InEntry (entry l)) (at_ (st w) (tasks w))); [|exact Hh].
      intros [x|x|x] y; cbn; rewrite ?E1, ?E4; intros Hx.
      * destruct (decide (entry l = x)) as [<-|Hne].
        -- rewrite lookup_insert_eq in Hx. left. split; [done|]. by rewrite Ht.
        -- rewrite lookup_insert_ne in Hx by done. right. split_and!; congruence.
      * right. by split_and!.
      * destruct (decide (t = x)) as [<-|Hne]; [by rewrite lookup_insert_eq in Hx|].
        rewrite lookup_insert_ne in Hx by done. right. split_and!; congruence.
    + intros srv x Hx. rewrite lookup_insert_is_Some. destruct (decide (entry l = x)); [by left|right]. eauto.
    + intros srv x en y Hx. destruct (decide (entry l = x)) as [<-|Hne].
      * rewrite lookup_insert_eq. intros [= <-] Hy. cbn in *. subst c. rewrite Hg, Hf.
        rewrite (Hcn srv (serverID l) (entry l) Hx Hs). apply (Hl lid l y El Hca). right. by exists t, h, dd.
      * rewrite lookup_insert_ne by done. by apply He.
    + intros a x [u Hu]. apply Htk. exists u. destruct (decide (t = u)) as [<-|Hne].
      * rewrite lookup_insert_eq in Hu. by destruct Hu. * by rewrite lookup_insert_ne in Hu.
    + intros x l0 y El0 Hc0 Hor. apply (Hl x l0 y El0 Hc0). destruct Hor as [?|(u & h0 & z & Hu)]; [by left|right].
      destruct (decide (t = u)) as [<-|Hne]; [by rewrite lookup_insert_eq in Hu|].
      rewrite lookup_insert_ne in Hu by done. by exists u, h0, z.
Qed.

Lemma owned_Invalidate srv s ts d : owned s ts d -> owned (Invalidate srv s) ts d.
Proof.
  intros H. unfold Invalidate. destruct (conns (pool s) !! srv) as [eid|]; [|done].
  destruct (entries s !! eid) as [e|] eqn:Ee; [|done]. by apply owned_clear.
Qed.

Lemma owned_evict now s ts d : owned s ts d -> owned (evict now s) ts d.
Proof.
  apply (evict_ind (fun s => owned s ts d)). clear s. intros s srv eid H Hc. unfold evict_one.
  destruct (entries s !! eid) as [e|] eqn:Ee; [|done]. set (s1 := if idle_out _ _ _ then _ else s).
  assert (owned s1 ts d) as H1.
  { subst s1. destruct (idle_out _ _ _); [|done]. unfold with_entries. rewrite (alter_insert_eq _ _ _ _ Ee).
    by apply (owned_clear s _ _ eid). }
  destruct (bool_decide _ && _ && _); [|exact H1].
  apply (owned_conns (delete srv (conns (pool s1))) (closed (pool s1)) s1); try done.
  intros srv' x Hx. by apply lookup_delete_Some in Hx as [_ Hx].
Qed.

Lemma owned_close_pool s ts d : owned s ts d -> owned (close_pool s).2 ts d.
Proof.
  intros H. unfold close_pool. destruct (closed (pool s)) eqn:Ecl; [done|]. cbn [snd].
  assert (forall l s, owned s ts d -> owned (foldl close_cached s l) ts d) as Hl.
  { induction l as [|kv l IH]; intros s0 H0; [done|]. cbn. apply IH. unfold close_cached.
    destruct (entries s0 !! kv.2) as [e|] eqn:Ee; [|done]. unfold with_entries. rewrite (alter_insert_eq _ _ _ _ Ee).
    by apply (owned_clear s0 _ _ kv.2). }
  apply (owned_conns ∅ true (foldl close_cached s _)); try done. by apply Hl.
Qed.

(** *** A borrow without contention *)

Lemma notify_fields c d s :
  pool (notifyQuota c d s) = pool s /\ entries (notifyQuota c d s) = entries s /\
  handles (notifyQuota c d s) = handles s /\ gone (notifyQuota c d s) = gone s.
Proof. unfold notifyQuota. by destruct (quotaObserver (pool s)). Qed.

(** The entry that waits for the next borrow: a free slot and the cached client [c]. *)
Record ready (srv : Z) (eid : nat) (e : connEntry) (c : Z) (s : store) : Prop := {
  rd_conns : conns (pool s) !! srv = Some eid;
  rd_closed : closed (pool s) = false;
  rd_entry : entries s !! eid = Some e;
  rd_client : e_client e = Some c;
  rd_slot : e_sem e < maxConns (pool s) }.

Lemma release_ready lid l c e now s :
  handles s !! lid = Some l -> done l = false -> Client l = Some c -> cacheable l = true ->
  current l s = true -> entries s !! entry l = Some e -> e_client e = None -> e_sem e <= maxConns (pool s) ->
  exists e', ready (serverID l) (entry l) e' c (Release lid now s) /\
    e_generation e' = l_generation l /\ e_fingerprint e' = l_fingerprint l /\
    gone (Release lid now s) = gone s.
Proof.
  intros El Ed Ec Eca Ecur Ee En Hsem.
  unfold Release, finish, finish_mark. rewrite El, Ed, Ec. set (s1 := update_lease lid (set_done l) s).
  assert (handles s1 !! lid = Some (set_done l)) as El1 by (cbn; by rewrite lookup_insert_eq).
  destruct (return_cases lid (set_done l) (Some c) false now s1 El1) as (E1 & E2 & E3 & _ & Hc).
  set (s2 := finish_return lid (Some c) false now s1) in *.
  assert (maxConns (pool s2) = maxConns (pool s)) as Emax by exact (f_equal v_max (view_return lid (Some c) false now s1)).
  unfold releaseSlot. destruct (notify_fields (consumer l) (-1) (give_slot (entry l) s2)) as (N1 & N2 & N3 & N4).
  assert (exists e2, entries s2 !! entry l = Some e2 /\ e_client e2 = Some c /\ e_generation e2 = l_generation l /\
            e_fingerprint e2 = l_fingerprint l /\ e_sem e2 = e_sem e /\ gone s2 = gone s) as (e2 & F1 & F2 & F3 & F4 & F5 & F6).
  { destruct Hc as [[Hno _]|(e0 & Ee0 & _ & Hg & Hf & _ & _ & _ & _ & Hgone & E4)].
    - change (negb false && cacheable l && current l s && vacant (entry l) s = false) in Hno.
      rewrite Eca, Ecur in Hno. unfold vacant in Hno. rewrite Ee, En in Hno. done.
    - cbn [set_done entry] in *. exists (set_lastUsed now (set_client (Some c) e0)). rewrite E4, lookup_insert_eq.
      assert (e0 = e) as -> by (cbn in Ee0; congruence). by split_and!. }
  exists (add_sem (-1) e2). split_and!; [split|exact F3|exact F4|].
  - rewrite N1. cbn. rewrite E3. cbn. unfold current in Ecur. rewrite Ee in Ecur. by bools.
  - rewrite N1. cbn. rewrite E2. cbn. unfold current in Ecur. by bools.
  - rewrite N2. cbn. by rewrite lookup_alter_eq, F1.
  - exact F2.
  - rewrite N1. cbn [give_slot with_entries pool]. rewrite Emax. cbn. rewrite F5. lia.
  - rewrite N4. exact F6.
Qed.

Lemma slot_free_at eid e s :
  entries s !! eid = Some e -> slot_free eid s = (e_sem e <? maxConns (pool s)).
Proof. intros E. unfold slot_free. by rewrite E. Qed.

(** The first sections of an uncontended borrow. *)
Lemma enter_ready srv eid e c fp label s :
  ready srv eid e c s ->
  let e1 := if bool_decide (e_fingerprint e = fp) then e else reconfigure fp e in
  exists s1, acquire_enter false srv fp false label s
    = Ok (Acq eid srv (e_generation e1) fp false label, slotLimit (pool s), s1) /\
    pool s1 = pool s /\ handles s1 = handles s /\ entries s1 !! eid = Some (add_waiters 1 e1) /\
    gone s1 = (if bool_decide (e_fingerprint e = fp) then gone s else {[c]} ∪ gone s).
Proof.
  intros [Hc Hcl Ee Ec Hs] e1. unfold acquire_enter. rewrite Hcl, Hc, Ee. subst e1.
  case_bool_decide as Hf; eexists; (split; [rewrite ?Ec; reflexivity|]); rewrite ?Ec; cbn; split_and!; try done.
  - by rewrite lookup_alter_eq, Ee.
  - by rewrite lookup_alter_eq, lookup_insert_eq.
Qed.

Lemma take_ready a e now s :
  entries s !! a_entry a = Some e -> closed (pool s) = false -> e_generation e = a_generation a ->
  e_fingerprint e = a_fingerprint a -> a_fresh a = false ->
  exists s', acquire_take false now a s = (inr (e_client e), s') /\ pool s' = pool s /\ handles s' = handles s /\
    gone s' = gone s /\ exists e', entries s' !! a_entry a = Some e' /\ e_generation e' = a_generation a /\
    e_fingerprint e' = a_fingerprint a.
Proof.
  intros Ee Hcl Hg Hf Hfr. unfold acquire_take.
  assert (entries (leave_queue a s) !! a_entry a = Some (add_waiters (-1) e)) as E1
    by (cbn; by rewrite lookup_alter_eq, Ee).
  unfold verdict. rewrite E1. cbn [pool leave_queue with_entries]. rewrite Hcl.
  cbn [add_waiters e_generation e_fingerprint]. rewrite Hg, Z.eqb_refl, bool_decide_eq_true_2 by done. cbn [negb orb].
  rewrite Hfr. eexists. split; [reflexivity|]. split_and!; try done.
  eexists. cbn. rewrite !lookup_alter_eq, Ee. split; [reflexivity|done].
Qed.

Lemma lease_ready a client e s :
  entries s !! a_entry a = Some e -> closed (pool s) = false -> e_generation e = a_generation a ->
  e_fingerprint e = a_fingerprint a ->
  exists lid s', acquire_lease false a client s = (inr lid, s') /\ gone s' = gone s /\
    handles s' !! lid = Some (MkLease client (a_entry a) (a_server a) (a_generation a) (a_fingerprint a)
                                false true false None (a_consumer a)).
Proof.
  intros Ee Hcl Hg Hf. unfold acquire_lease, verdict. rewrite Hcl, Ee, Hg, Z.eqb_refl, bool_decide_eq_true_2 by done.
  cbn [negb orb]. eexists _, _. split; [reflexivity|]. split; [done|]. cbn. by rewrite lookup_insert_eq.
Qed.

Lemma acquire_ready probe now srv eid e c fp label s :
  ready srv eid e c s -> (probe c = Healthy \/ probe c = Unhealthy) ->
  let keep := bool_decide (e_fingerprint e = fp) && (if probe c is Healthy then true else false) in
  exists lid s', AcquireContext probe now srv fp label s = (inr lid, s') /\
    gone s' = (if keep then gone s else {[c]} ∪ gone s) /\
    exists l, handles s' !! lid = Some l /\ done l = false /\ entry l = eid /\ l_fingerprint l = fp /\
      Client l = (if keep then Some c else None) /\
      (bool_decide (e_fingerprint e = fp) = true -> l_generation l = e_generation e).
Proof.
  intros Hr Hp keep. destruct (enter_ready srv eid e c fp label s Hr) as (s1 & E1 & P1 & H1 & X1 & G1).
  set (e1 := if bool_decide (e_fingerprint e = fp) then e else reconfigure fp e) in *.
  unfold AcquireContext, acquireContext. rewrite E1. cbn [a_entry].
  rewrite (slot_free_at _ _ _ X1), P1. cbn [add_waiters e_sem].
  assert (e_sem e1 = e_sem e) as Es by (unfold e1; by destruct (bool_decide (e_fingerprint e = fp))).
  rewrite Es, (proj2 (Z.ltb_lt _ _) (rd_slot _ _ _ _ _ Hr)). cbn [negb].
  set (s2 := notifyQuota label 1 (take_slot eid s1)).
  destruct (notify_fields label 1 (take_slot eid s1)) as (N1 & N2 & N3 & N4). fold s2 in N1, N2, N3, N4.
  assert (entries s2 !! eid = Some (add_sem 1 (add_waiters 1 e1))) as X2
    by (rewrite N2; cbn; by rewrite lookup_alter_eq, X1).
  assert (pool s2 = pool s) as P2 by (rewrite N1; exact P1).
  assert (e_fingerprint e1 = fp) as Hf1 by (subst e1; by case_bool_decide).
  set (a := Acq eid srv (e_generation e1) fp false label).
  destruct (take_ready a _ now s2 X2) as (s3 & E3 & P3 & H3 & G3 & e3 & X3 & Hg3 & Hf3);
    [rewrite P2; apply Hr|done|exact Hf1|done|].
  rewrite E3. cbn [add_sem add_waiters e_client] in *.
  assert (closed (pool s3) = false) as C3 by (rewrite P3, P2; apply Hr).
  destruct (bool_decide (e_fingerprint e = fp)) eqn:Hfp.
  - subst e1. rewrite (rd_client _ _ _ _ _ Hr). unfold keep. destruct Hp as [Hp|Hp]; rewrite Hp; cbn [acquire_probed andb].
    + destruct (lease_ready a (Some c) e3 s3 X3 C3 Hg3 Hf3) as (lid & s4 & E4 & G4 & L4).
      rewrite E4. exists lid, s4. split; [done|]. split; [rewrite G4, G3, N4; exact G1|]. eexists. split; [exact L4|]. by split_and!.
    + destruct (lease_ready a None e3 (close_client (Some c) s3) X3 C3 Hg3 Hf3) as (lid & s4 & E4 & G4 & L4).
      rewrite E4. exists lid, s4. split; [done|].
      split; [rewrite G4; cbn; by rewrite G3, N4; cbn; rewrite G1|]. eexists. split; [exact L4|]. by split_and!.
  - subst e1. cbn [reconfigure e_client].
    destruct (lease_ready a None e3 s3 X3 C3 Hg3 Hf3) as (lid & s4 & E4 & G4 & L4).
    rewrite E4. exists lid, s4. split; [done|]. split; [rewrite G4, G3, N4; exact G1|]. eexists. split; [exact L4|]. by split_and!.
Qed.

Definition wowned (w : world) : Prop := owned (st w) (tasks w) (dialed w).

Lemma owned_end_task s ts d t : owned s ts d -> owned s (delete t ts) d.
Proof. by apply (owned_task s ts d t None); [|intros ?? [?|?]|]. Qed.

Lemma wowned_step cap obs w w' :
  step false w w' -> wslots cap obs w -> wshut w -> wowned w -> wowned w'.
Proof.
  intros Hstep Hsl Hsh H. destruct Hstep; unfold wowned; cbn [st tasks dialed put drop on_store]; try done.
  - apply owned_drop_task; [done|]. by eapply owned_enter.
  - by apply owned_drop_task.
  - apply owned_end_task. apply owned_alter; [by intros []|done].
  - apply owned_drop_task; [done|]. apply owned_alter; [by intros []|done].
  - apply owned_drop_task; [done|]. by apply owned_notify.
  - eapply owned_take; [done|done| |done]. intros Hcl.
    eapply (slots_conns cap obs (st w) (tasks w) (acq_hold a)); [exact Hsl|exact Hcl|by eapply user_hold].
  - by eapply owned_probed.
  - by eapply owned_refuse.
  - by eapply owned_lease.
  - by apply owned_rebind.
  - by apply owned_SetClient_new.
  - by apply owned_SetClient_None.
  - by eapply owned_mark.
  - by apply owned_return.
  - apply owned_drop_task; [done|]. apply owned_alter; [by intros []|done].
  - apply owned_end_task. by apply owned_notify.
  - by apply owned_Invalidate.
  - by apply owned_evict.
  - apply owned_drop_task; [done|]. by apply owned_close_pool.
  - apply owned_drop_task; [done|]. pose proof (sh_closing _ _ Hsh _ _ H0) as Hcl. unfold close_leased.
    destruct (handles (st w) !! lid); [by apply owned_close_any|done].
  - by apply owned_end_task.
Qed.

Lemma wowned_reachable p w :
  1 <= maxConns p -> conns p = ∅ -> closed p = false -> reachable false p w -> wowned w.
Proof.
  intros Hm Hc Hcl. induction 1 as [|w w' Hr IH Hs].
  - split; cbn; rewrite ?Hc; try done.
    + split; intros [x|x|x]; cbn; try done.
    + by intros a c [t [?|?]].
  - eapply wowned_step; [done|by eapply wslots_reachable|by eapply wshut_reachable|done].
Qed.

(** ** The properties *)

(** C10: As long as callers hand over only transports they dialed for the lease at
    hand, each transport has exactly one owner (a cache entry, a lease, or a borrow or
    return under way), the pool closes none that is still owned until it shuts down,
    a cached transport was dialed for the server, generation and fingerprint its entry
    has now, and a lease that may be cached carries a transport dialed for the very
    server, generation and fingerprint it was borrowed for. *)
Theorem transports_have_one_owner idle n slot r o w :
  reachable false (configured idle n slot r o) w ->
  (forall p q c, at_ (st w) (tasks w) p = Some c -> at_ (st w) (tasks w) q = Some c -> p = q) /\
  (closed (pool (st w)) = false -> forall p c, at_ (st w) (tasks w) p = Some c -> c ∉ gone (st w)) /\
  (forall srv eid e c, conns (pool (st w)) !! srv = Some eid -> entries (st w) !! eid = Some e ->
     e_client e = Some c -> dialed w !! c = Some (srv, e_generation e, e_fingerprint e)) /\
  (forall lid l c, handles (st w) !! lid = Some l -> cacheable l = true -> Client l = Some c ->
     dialed w !! c = Some (serverID l, l_generation l, l_fingerprint l)).
Proof.
  intros Hr. apply wowned_reachable in Hr as [[He Ho] _ _ Hen _ Hl]; [|rewrite configured_max; lia|done|done].
  split_and!; [exact He| |exact Hen|].
  - intros Hcl p c Hp. destruct (Ho p c Hp) as [_ Hg]. apply Hg. by rewrite Hcl.
  - intros lid l c El Hca Hc. by apply (Hl lid l c El Hca); left.
Qed.

(** Once [Close] has run (and no other call of it is still walking the leases), no
    transport is left open in the pool: no entry caches one and every transport still
    in a lease has been closed; and every further borrow is refused. *)
Theorem close_leaves_nothing_open compat idle n slot r o w :
  reachable compat (configured idle n slot r o) w ->
  closed (pool (st w)) = true -> (forall t lids, tasks w !! t <> Some (Closing lids)) ->
  (forall eid, at_ (st w) (tasks w) (InEntry eid) = None) /\
  (forall lid c, at_ (st w) (tasks w) (InLease lid) = Some c -> c ∈ gone (st w)) /\
  (forall probe now srv fp fr label, acquireContext probe now srv fp fr label (st w) = (inl ErrClosed, st w)).
Proof.
  intros Hr Hcl Hno. apply wshut_reachable in Hr; [|done]. split_and!.
  - intros eid. destruct (at_ (st w) (tasks w) (InEntry eid)) as [c|] eqn:E; [|done].
    destruct (sh_cached _ _ Hr eid c E) as [H _]. congruence.
  - intros lid c E. destruct (sh_closed _ _ Hr lid c Hcl E) as [?|(t & lids & Ht & _)]; [done|].
    by apply Hno in Ht.
  - intros. unfold acquireContext, acquire_enter. by rewrite Hcl.
Qed.

(** Returning and borrowing again without contention: a transport that came back
    in the pool's current configuration is the one the next borrow of that
    configuration gets, still open, if its probe finds it healthy; if the borrow is for
    another configuration or the probe fails, it is closed and the borrow gets a slot
    for a new dial.  Either way the borrow succeeds. *)
Theorem released_transport_is_reused probe now now' fp label lid l c e s :
  handles s !! lid = Some l -> done l = false -> Client l = Some c ->
  cacheable l = true -> current l s = true ->
  entries s !! entry l = Some e -> e_client e = None -> e_sem e <= maxConns (pool s) ->
  (probe c = Healthy \/ probe c = Unhealthy) ->
  let keep := bool_decide (l_fingerprint l = fp) && (if probe c is Healthy then true else false) in
  exists lid' s' l', AcquireContext probe now' (serverID l) fp label (Release lid now s) = (inr lid', s') /\
    handles s' !! lid' = Some l' /\ done l' = false /\ entry l' = entry l /\ l_fingerprint l' = fp /\
    Client l' = (if keep then Some c else None) /\
    (l_fingerprint l = fp -> l_generation l' = l_generation l) /\
    gone s' = (if keep then gone s else {[c]} ∪ gone s).
Proof.
  intros El Ed Ec Eca Ecur Ee En Hsem Hp keep.
  destruct (release_ready lid l c e now s El Ed Ec Eca Ecur Ee En Hsem) as (e' & Hr & Hg & Hf & Hgone).
  destruct (acquire_ready probe now' _ _ _ _ fp label _ Hr Hp) as (lid' & s' & E & G & l' & L & D & En' & F & C & Hgen).
  rewrite Hf in *. exists lid', s', l'. rewrite Hgone in G. split_and!; try done.
  intros Hfp. rewrite <- Hg. apply Hgen. by apply bool_decide_eq_true_2.
Qed.

(** ** The compatibility interface can cache a transport for another configuration

    Three borrows through [GetContext], the first under the configuration "old" and
    the others under "new"; each caller dials (clients 1, 2 and 3) and the clients
    come back in the order 2, 3, 1.  [legacyLease] hands each returned client the first
    pending lease that lent none, so client 1, dialed under "old", comes back through
    the third lease, which is current and cacheable: it is cached for "new". *)
Definition demo_get (fp : string) (s : store) : store :=
  (GetContext (fun _ => Healthy) 1 7 fp "terminal" s).2.
Definition legacy_trace : store :=
  let s := empty_store (NewPool (60 * Second) 8 (5 * Second)) in
  let s := demo_get "new" (demo_get "old" s) in
  let s := demo_get "new" (PoolRelease 7 (Some 2) 1 s) in
  PoolRelease 7 (Some 1) 1 (PoolRelease 7 (Some 3) 1 s).

Lemma legacy_return_crosses_configurations :
  exists eid e, conns (pool legacy_trace) !! 7 = Some eid /\ entries legacy_trace !! eid = Some e /\
    e_client e = Some 1 /\ e_fingerprint e = "new" /\ 1 ∉ gone legacy_trace.
Proof. eexists _, _. split_and!; by vm_compute. Qed.

(** ** Witnesses *)

Definition w7 : world := put 0%nat (Closing (close_pool (st w6)).1) (close_pool (st w6)).2 w6.
Definition w8 : world := put 0%nat (Closing []) (close_leased 0 (st w7)) w7.
Definition w9 : world := drop 0%nat (st w8) w8.

Lemma demo_closed compat : reachable compat demo_pool w9.
Proof.
  apply (reach_step _ _ w8); [|by apply StepClosed].
  apply (reach_step _ _ w7); [|by apply StepCloseLeased].
  apply (reach_step _ _ w6); [apply demo_leased|by apply StepClose].
Qed.

Lemma transports_have_one_owner_witness :
  reachable false demo_pool w6 /\ dialed w6 !! 40 = Some (7, 1, "key").
Proof.
  split; [apply demo_leased|].
  refine (proj2 (proj2 (proj2 (transports_have_one_owner _ _ _ _ _ w6 (demo_leased false)))) 0%nat
           (set_Client (Some 40) demo_lease) 40 _ _ _); by vm_compute.
Defined.

Lemma close_leaves_nothing_open_witness :
  reachable true demo_pool w9 /\ 40 ∈ gone (st w9).
Proof.
  split; [apply demo_closed|].
  refine (proj1 (proj2 (close_leaves_nothing_open true _ _ _ _ _ w9 (demo_closed true) _ _)) 0%nat 40 _).
  - by vm_compute.
  - intros t lids. replace (tasks w9) with (∅ : gmap nat task) by (by vm_compute). by rewrite lookup_empty.
  - by vm_compute.
Defined.

Lemma released_transport_is_reused_witness :
  exists lid' s' l',
    AcquireContext (fun _ => Healthy) 9 7 "key" "monitor" (Release 0 8 (st w6)) = (inr lid', s') /\
    handles s' !! lid' = Some l' /\ done l' = false /\ entry l' = 0%nat /\ l_fingerprint l' = "key" /\
    Client l' = Some 40 /\ ("key" = "key" -> l_generation l' = 1) /\ gone s' = ∅.
Proof.
  refine (released_transport_is_reused (fun _ => Healthy) 8 9 "key" "monitor" 0
    (set_Client (Some 40) demo_lease) 40 (Entry None "key" 1 5 1 0) (st w6) _ _ _ _ _ _ _ _ _);
    try (by vm_compute); by left.
Defined.
