(* ===== verification/Lease.v ===== *)
(** * The lease a consumer of the SSH service holds

    [service/lease.go] wraps a lease of the pool for the exec, terminal, agent and SFTP
    consumers: one primitive (a command or an upload) may run at a time, anyone may ask
    to give the lease back at any moment, and the transport returns to the pool only
    after the primitive has joined its workers, discarded if it became unusable.  The
    cleanup clock of [service/ssh.go] fixes the deadline of one teardown once.

    The functions below are the sections the code runs under the lease's mutex.  [lstep]
    interleaves them with each other, with the goroutines they start and with the whole
    pool ([SSHPool.step]); the theorem at the end is about lease and pool together. *)

From S2P Require Import Prelude SSHPool PoolSlots PoolOwners.

(** ** Cleanup clocks *)

Record sshCleanupDeadlines := Deadlines { grace : time; total : time }.

Definition sshCleanupBudget : duration := 3 * Second.
Definition execTeardownGrace : duration := 100 * Millisecond.
Definition sshCompletedTeardownGrace : duration := 2 * Second.

Definition newSSHCleanupDeadlines (start : time) (g : duration) : sshCleanupDeadlines :=
  Deadlines (TimeAdd start g) (TimeAdd start sshCleanupBudget).

(** Clocks are shared by address; [None] is a clock whose [once] has not run. *)
Abbreviation clock_heap := (gmap nat (option sshCleanupDeadlines)) (only parsing).

Definition new_clock (m : clock_heap) : nat * clock_heap :=
  let k := fresh (dom m) in (k, <[k := None]> m).

Definition deadlines (now : time) (g : duration) (k : nat) (m : clock_heap) :
    sshCleanupDeadlines * clock_heap :=
  match m !! k with
  | Some (Some d) => (d, m)
  | _ => let d := newSSHCleanupDeadlines now g in (d, <[k := Some d]> m)
  end.

(** [sshTeardownDeadlines]: the clock is the one in the operation's context, if any. *)
Definition sshTeardownDeadlines (now : time) (g : duration) (ctx_clock : option nat) (m : clock_heap) :
    sshCleanupDeadlines * clock_heap :=
  match ctx_clock with
  | Some k => deadlines now g k m
  | None => (newSSHCleanupDeadlines now g, m)
  end.

(** ** The lease *)

(** [cancel] names the operation whose context [l.cancel] cancels; [finished] is
    whether the channel [done] is closed. *)
Record sshLease := MkSSHLease {
  active : bool;
  closing : bool;
  settled : bool;
  unhealthy : bool;
  cancel : option nat;
  cleanup : option nat;
  finished : bool }.

Definition newSSHLease : sshLease := MkSSHLease false false false false None None false.

(** The goroutine [settleLocked] starts is the answer: whether it discards. *)
Definition settleLocked (l : sshLease) : sshLease * option bool :=
  if negb (closing l) || active l || settled l then (l, None)
  else (MkSSHLease (active l) (closing l) true (unhealthy l) (cancel l) (cleanup l) (finished l),
        Some (unhealthy l)).

(** [finish]: the lease, the operation that is cancelled and the goroutine started. *)
Definition lease_finish (discard cause : bool) (l : sshLease) : sshLease * option nat * option bool :=
  if settled l then (l, None, None)
  else
    let l := MkSSHLease (active l) true (settled l) (unhealthy l || discard) (cancel l) (cleanup l)
               (finished l) in
    let '(l', go) := settleLocked l in
    (l', if cause then cancel l else None, go).
Definition lease_Release := lease_finish false false.
Definition lease_Discard := lease_finish true true.
Definition lease_Cancel := lease_finish true true.

Definition cleanupDeadlinesLocked (now : time) (l : sshLease) (m : clock_heap) :
    sshCleanupDeadlines * sshLease * clock_heap :=
  let '(k, m) := match cleanup l with Some k => (k, m) | None => new_clock m end in
  let '(d, m) := deadlines now execTeardownGrace k m in
  (d, MkSSHLease (active l) (closing l) (settled l) (unhealthy l) (cancel l) (Some k) (finished l), m).
Definition SettlementDeadline (now : time) (l : sshLease) (m : clock_heap) : time :=
  total (cleanupDeadlinesLocked now l m).1.1.

(** How long [releaseAndWait] waits for the settlement, and what it answers. *)
Definition settlement_wait (now deadline : time) : duration := Z.max (TimeSub deadline now) 0.
Definition sshCleanupPending : string := "SSH cleanup exceeded its absolute 3s budget".
Definition releaseAndWait_result (finished_in_time : bool) : result string unit :=
  if finished_in_time then Ok tt else Err sshCleanupPending.

Inductive lease_err := errSSHLeaseUnusable | errLeaseStale | errLeaseBusy | errLeaseContext.

(** [begin]; [is_current] is the pool's answer, [t] the new operation and [ctx_clock]
    the clock the caller's context carries. *)
Definition begin (is_current ctx_err : bool) (ctx_clock : option nat) (t : nat) (l : sshLease)
    (m : clock_heap) : result lease_err nat * sshLease * clock_heap :=
  if closing l || settled l || unhealthy l then (Err errSSHLeaseUnusable, l, m)
  else if negb is_current then
    (Err errLeaseStale,
     MkSSHLease (active l) (closing l) (settled l) true (cancel l) (cleanup l) (finished l), m)
  else if active l then (Err errLeaseBusy, l, m)
  else if ctx_err then (Err errLeaseContext, l, m)
  else
    let '(k, m) := match ctx_clock with Some k => (k, m) | None => new_clock m end in
    (Ok k, MkSSHLease true (closing l) (settled l) (unhealthy l) (Some t) (Some k) (finished l), m).

(** [end] when nothing is pending; calling a nil [l.cancel] would panic. *)
Definition end_ (bad : bool) (l : sshLease) : option (sshLease * option bool) :=
  match cancel l with
  | None => None
  | Some _ =>
      Some (settleLocked (MkSSHLease false (closing l) (settled l) (unhealthy l || bad) None (cleanup l)
                            (finished l)))
  end.

Definition close_done (l : sshLease) : sshLease :=
  MkSSHLease (active l) (closing l) (settled l) (unhealthy l) (cancel l) (cleanup l) true.
Definition set_cleanup (k : nat) (l : sshLease) : sshLease :=
  MkSSHLease (active l) (closing l) (settled l) (unhealthy l) (cancel l) (Some k) (finished l).

(** The budgets of the primitives. *)
Definition maxExecTimeout : duration := 300 * Second.
Definition exec_budget (execDefault budget : duration) : duration :=
  let b := if budget <=? 0 then execDefault else budget in
  if maxExecTimeout <? b then maxExecTimeout else b.
Definition execTransfer_budget (budget : duration) : option duration :=
  if budget <=? 0 then None else Some budget.
Definition upload_budget (execDefault budget : duration) : duration :=
  if budget <=? 0 then execDefault else budget.

(** ** Leases, their goroutines and the pool *)

(** [Running] is a primitive between [begin] and [end]; [Draining] waits for workers
    that outlived the cleanup budget; [Settling] and [Returning] are the goroutine of
    [settleLocked] before and during the pool's [finish]. *)
Inductive op :=
| Running (lid : nat) (clock : nat)
| Draining (lid : nat)
| Settling (lid : nat) (discard : bool)
| Returning (lid : nat) (t : nat) (discard : bool).

(** [carried] records the transport each lease was created with. *)
Record sys := Sys {
  pw : world;
  owners : gmap nat sshLease;
  ops : gmap nat op;
  clocks : clock_heap;
  carried : gmap nat Z;
  cancelled : gset nat }.

Definition set_ops (o : gmap nat op) (x : sys) : sys :=
  Sys (pw x) (owners x) o (clocks x) (carried x) (cancelled x).
Definition set_owner (lid : nat) (l : sshLease) (x : sys) : sys :=
  Sys (pw x) (<[lid := l]> (owners x)) (ops x) (clocks x) (carried x) (cancelled x).
Definition set_clocks (m : clock_heap) (x : sys) : sys :=
  Sys (pw x) (owners x) (ops x) m (carried x) (cancelled x).
Definition set_pw (w : world) (x : sys) : sys :=
  Sys w (owners x) (ops x) (clocks x) (carried x) (cancelled x).

(** Starts the goroutine [u] of [settleLocked], if there is one to start. *)
Definition spawn (u lid : nat) (go : option bool) (x : sys) : sys :=
  match go with Some discard => set_ops (<[u := Settling lid discard]> (ops x)) x | None => x end.
Definition cancel_ctx (t : option nat) (x : sys) : sys :=
  match t with
  | Some t => Sys (pw x) (owners x) (ops x) (clocks x) (carried x) ({[t]} ∪ cancelled x)
  | None => x
  end.

(** What the pool's other users leave alone: the handles of these leases (their owner
    has stopped dialing and rebinding when it creates the lease, and only the lease
    returns its handle) and the goroutines that return them. *)
Record polite (x : sys) (w' : world) : Prop := {
  po_handle lid : is_Some (owners x !! lid) -> handles (st w') !! lid = handles (st (pw x)) !! lid;
  po_task u lid t d : ops x !! u = Some (Returning lid t d) ->
    tasks (pw x) !! t = None -> tasks w' !! t = None }.

Inductive lstep : sys -> sys -> Prop :=
| LPool x w' : step false (pw x) w' -> polite x w' -> lstep x (set_pw w' x)
| LNew x lid l c :
    handles (st (pw x)) !! lid = Some l -> SSHPool.done l = false -> Client l = Some c ->
    owners x !! lid = None ->
    lstep x (Sys (pw x) (<[lid := newSSHLease]> (owners x)) (ops x) (clocks x) (<[lid := c]> (carried x))
               (cancelled x))
| LFinish x lid l u discard cause l' t go :
    owners x !! lid = Some l -> ops x !! u = None -> lease_finish discard cause l = (l', t, go) ->
    lstep x (cancel_ctx t (spawn u lid go (set_owner lid l' x)))
| LDeadline x lid l now d l' m :
    owners x !! lid = Some l -> cleanupDeadlinesLocked now l (clocks x) = (d, l', m) ->
    lstep x (set_clocks m (set_owner lid l' x))
| LAdopt x lid l k :
    owners x !! lid = Some l -> lstep x (set_owner lid (set_cleanup k l) x)
| LRefuse x lid l h t ctx_err ctx_clock err l' m :
    owners x !! lid = Some l -> handles (st (pw x)) !! lid = Some h ->
    begin (IsCurrent (serverID h) (l_generation h) (st (pw x))) ctx_err ctx_clock t l (clocks x)
      = (Err err, l', m) ->
    lstep x (set_clocks m (set_owner lid l' x))
| LBegin x lid l h t ctx_err ctx_clock k l' m :
    owners x !! lid = Some l -> handles (st (pw x)) !! lid = Some h ->
    ops x !! t = None -> t ∉ cancelled x ->
    begin (IsCurrent (serverID h) (l_generation h) (st (pw x))) ctx_err ctx_clock t l (clocks x)
      = (Ok k, l', m) ->
    lstep x (set_ops (<[t := Running lid k]> (ops x)) (set_clocks m (set_owner lid l' x)))
| LTeardown x t lid k now g :
    ops x !! t = Some (Running lid k) ->
    lstep x (set_clocks (sshTeardownDeadlines now g (Some k) (clocks x)).2 x)
| LEnd x t lid k l bad l' go :
    ops x !! t = Some (Running lid k) -> owners x !! lid = Some l -> end_ bad l = Some (l', go) ->
    lstep x (spawn t lid go (set_ops (delete t (ops x)) (set_owner lid l' x)))
| LPending x t lid k :
    ops x !! t = Some (Running lid k) -> lstep x (set_ops (<[t := Draining lid]> (ops x)) x)
| LDrained x t lid l l' go :
    ops x !! t = Some (Draining lid) -> owners x !! lid = Some l -> end_ true l = Some (l', go) ->
    lstep x (spawn t lid go (set_ops (delete t (ops x)) (set_owner lid l' x)))
| LSettle x u lid discard t h c s :
    ops x !! u = Some (Settling lid discard) -> tasks (pw x) !! t = None ->
    handles (st (pw x)) !! lid = Some h -> finish_mark lid (st (pw x)) = (Some c, s) ->
    lstep x (set_ops (<[u := Returning lid t discard]> (ops x))
               (set_pw (put t (Finishing lid (lease_hold h) c discard) s (pw x)) x))
| LSettled x u lid discard s l :
    ops x !! u = Some (Settling lid discard) -> finish_mark lid (st (pw x)) = (None, s) ->
    owners x !! lid = Some l ->
    lstep x (set_ops (delete u (ops x)) (set_owner lid (close_done l) x))
| LReturned x u lid t discard l :
    ops x !! u = Some (Returning lid t discard) -> tasks (pw x) !! t = None -> owners x !! lid = Some l ->
    lstep x (set_ops (delete u (ops x)) (set_owner lid (close_done l) x)).

Inductive lreachable (p : Pool) : sys -> Prop :=
| lreach_start w : reachable false p w -> lreachable p (Sys w ∅ ∅ ∅ ∅ ∅)
| lreach_step x x' : lreachable p x -> lstep x x' -> lreachable p x'.

Lemma lreachable_pool p x : lreachable p x -> reachable false p (pw x).
Proof.
  induction 1 as [|x x' _ IH Hs]; [done|]. destruct Hs; try exact IH.
  - by eapply reach_step.
  - destruct t as [t|], go as [d|]; exact IH.
  - by destruct go.
  - by destruct go.
  - eapply reach_step; [exact IH|]. by eapply StepFinish.
Qed.

(** ** What the pool's steps keep *)

Lemma gone_close_sub c s : gone s ⊆ gone (close_client c s).
Proof. apply fr_gone, frame_close. Qed.

Lemma gone_SetClient c lid s : gone s ⊆ gone (SetClient c lid s).
Proof.
  unfold SetClient. destruct (handles s !! lid) as [l|]; [|done].
  destruct (SSHPool.done l); [apply gone_close_sub|].
  pose proof (gone_close_sub (Client l) (update_lease lid (set_Client None l) s)).
  destruct (closed (pool s)); case_bool_decide; try done.
  - by etransitivity; [|apply gone_close_sub].
  - apply (gone_close_sub (Client l) (update_lease lid (set_Client c l) s)).
Qed.

Lemma gone_return lid c d now s : gone s ⊆ gone (finish_return lid c d now s).
Proof.
  destruct (handles s !! lid) as [l|] eqn:El; [|by unfold finish_return; rewrite El].
  destruct (return_cases lid l c d now s El) as (_ & _ & _ & _ & [(_ & _ & ->)|(e & H)]); [set_solver|].
  by destruct H as (_ & _ & _ & _ & _ & _ & _ & _ & -> & _).
Qed.

Lemma return_discards lid l c now s :
  handles s !! lid = Some l -> c ∈ gone (finish_return lid (Some c) true now s).
Proof.
  intros El. destruct (return_cases lid l (Some c) true now s El) as (_ & _ & _ & _ & [(_ & _ & ->)|(e & H)]);
    [set_solver|]. destruct H as (_ & _ & _ & _ & _ & _ & _ & ? & _). done.
Qed.

Lemma mark_fields lid s r s' :
  finish_mark lid s = (r, s') ->
  gone s' = gone s /\ forall k, k <> lid -> handles s' !! k = handles s !! k.
Proof.
  unfold finish_mark. intros E. splits; try done. split; [done|].
  intros k Hk. cbn. by rewrite lookup_insert_ne.
Qed.

Lemma mark_done lid s h c s' :
  handles s !! lid = Some h -> finish_mark lid s = (Some c, s') ->
  c = Client h /\ handles s' !! lid = Some (set_done h).
Proof.
  unfold finish_mark. intros -> E. destruct (SSHPool.done h); simplify_eq. split; [done|].
  apply lookup_insert_eq.
Qed.

Lemma step_gone compat w w' : step compat w w' -> gone (st w) ⊆ gone (st w').
Proof.
  intros Hs. destruct Hs; cbn [st put drop on_store]; try done.
  - by eapply fr_gone, frame_enter.
  - apply fr_gone, frame_notify.
  - by eapply fr_gone, frame_take.
  - by eapply fr_gone, frame_probed.
  - by eapply fr_gone, frame_refuse.
  - unfold acquire_lease in *. destruct (verdict _ _ _); by simplify_eq/=.
  - apply fr_gone, frame_rebind.
  - apply gone_SetClient.
  - apply gone_SetClient.
  - apply gone_SetClient.
  - apply mark_fields in H1 as [-> _]. done.
  - apply gone_return.
  - apply fr_gone, frame_notify.
  - apply fr_gone, frame_LegacyClient.
  - apply fr_gone, frame_legacyLease.
  - apply fr_gone, frame_Invalidate.
  - apply fr_gone, frame_evict.
  - unfold close_pool. destruct (closed (pool (st w))); [done|]. cbn.
    intros c Hc. by apply close_cached_spec; left.
  - apply fr_gone, frame_close_leased.
Qed.

(** A discarding return closes the transport before its task is over. *)
Lemma step_finishing w w' t lid hd c :
  wshut w -> step false w w' -> tasks w !! t = Some (Finishing lid hd (Some c) true) ->
  c ∈ gone (st w') \/ tasks w' !! t = Some (Finishing lid hd (Some c) true).
Proof.
  intros Hw Hs Ht. destruct Hs; cbn [st tasks put drop on_store]; try (by right);
    try (right; by rewrite lookup_insert_ne by congruence);
    try (right; by rewrite lookup_delete_ne by congruence).
  destruct (decide (t0 = t)) as [->|Hne]; [|right; by rewrite lookup_insert_ne].
  left. destruct (sh_finishing _ _ Hw _ _ _ _ _ Ht) as (l & El & _).
  rewrite Ht in H. injection H as <- <- <- <-. by eapply return_discards.
Qed.

(** ** The invariant *)

Definition op_lid (o : op) : nat :=
  match o with Running lid _ | Draining lid | Settling lid _ | Returning lid _ _ => lid end.
Definition is_primitive (o : op) : bool := match o with Running _ _ | Draining _ => true | _ => false end.
Definition settling (o : op) : option bool :=
  match o with Settling _ d | Returning _ _ d => Some d | _ => None end.

Definition no_op (os : gmap nat op) (lid : nat) : Prop := forall u o, os !! u = Some o -> op_lid o <> lid.
Definition sole_op (os : gmap nat op) (lid u : nat) (o : op) : Prop :=
  os !! u = Some o /\ op_lid o = lid /\ forall u' o', os !! u' = Some o' -> op_lid o' = lid -> u' = u.

(** The life of a lease: idle, busy with one primitive, being settled, settled. *)
Inductive stage (os : gmap nat op) (lid : nat) : sshLease -> Prop :=
| Idle bad k : no_op os lid -> stage os lid (MkSSHLease false false false bad None k false)
| Busy t o cl bad k :
    sole_op os lid t o -> is_primitive o = true ->
    stage os lid (MkSSHLease true cl false bad (Some t) k false)
| Settles u o bad k :
    sole_op os lid u o -> settling o = Some bad ->
    stage os lid (MkSSHLease false true true bad None k false)
| Settled bad k : no_op os lid -> stage os lid (MkSSHLease false true true bad None k true).

(** What the pool knows of the lease's handle, with transport [c], in each stage. *)
Record backed (w : world) (os : gmap nat op) (lid : nat) (c : Z) (l : sshLease) (h : Lease) : Prop := {
  bk_open : settled l = false -> SSHPool.done h = false /\ Client h = Some c;
  bk_before u d : os !! u = Some (Settling lid d) -> SSHPool.done h = false /\ Client h = Some c;
  bk_during u t d : os !! u = Some (Returning lid t d) ->
    SSHPool.done h = true /\
    (d = true -> c ∈ gone (st w) \/ exists hd, tasks w !! t = Some (Finishing lid hd (Some c) true));
  bk_after : finished l = true -> SSHPool.done h = true /\ (unhealthy l = true -> c ∈ gone (st w)) }.

Definition lease_ok (w : world) (os : gmap nat op) (lid : nat) (car : option Z) (l : sshLease) : Prop :=
  stage os lid l /\
  exists h c, handles (st w) !! lid = Some h /\ car = Some c /\ backed w os lid c l h.

Definition slot_ok (x : sys) (lid : nat) : Prop :=
  match owners x !! lid with
  | Some l => lease_ok (pw x) (ops x) lid (carried x !! lid) l
  | None => no_op (ops x) lid
  end.
Definition linv (x : sys) : Prop := forall lid, slot_ok x lid.

(** The goroutines of other leases do not matter. *)
Definition same_ops (lid : nat) (os os' : gmap nat op) : Prop :=
  forall u o, op_lid o = lid -> os' !! u = Some o <-> os !! u = Some o.

Lemma no_op_same lid os os' : same_ops lid os os' -> no_op os lid -> no_op os' lid.
Proof. intros Hs Hn u o Hu Hl. apply (Hn u o); [by apply Hs|done]. Qed.

Lemma sole_op_same lid os os' u o : same_ops lid os os' -> sole_op os lid u o -> sole_op os' lid u o.
Proof.
  intros Hs (Hu & Hl & Hn). split; [by apply Hs|split; [done|]].
  intros u' o' Hu' Hl'. apply (Hn u' o'); [by apply Hs|done].
Qed.

Lemma stage_same lid os os' l : same_ops lid os os' -> stage os lid l -> stage os' lid l.
Proof.
  intros Hs. destruct 1; econstructor; eauto using no_op_same, sole_op_same.
Qed.

Lemma lease_ok_same w lid os os' car l : same_ops lid os os' -> lease_ok w os lid car l -> lease_ok w os' lid car l.
Proof.
  intros Hs [Hst (h & c & Hh & Hc & [B1 B2 B3 B4])]. split; [by eapply stage_same|].
  exists h, c. split_and!; try done. split; try done.
  - intros u d Hu. apply (B2 u d), Hs; done.
  - intros u t d Hu. apply (B3 u t d), Hs; done.
Qed.

Lemma same_ops_set lid lid' t (new : option op) os :
  lid' <> lid -> (forall o, os !! t = Some o -> op_lid o = lid') -> (forall o, new = Some o -> op_lid o = lid') ->
  same_ops lid os (partial_alter (fun _ => new) t os).
Proof.
  intros Hne Hold Hnew u o Ho. destruct (decide (t = u)) as [<-|Hu]; [|by rewrite lookup_partial_alter_ne].
  rewrite lookup_partial_alter_eq. split; intros E; exfalso; apply Hne; [rewrite <- Ho|rewrite <- Ho]; symmetry; auto.
Qed.

(** A step that concerns one lease only has that lease to check. *)
Lemma linv_at lid x x' :
  pw x' = pw x -> (forall k, k <> lid -> owners x' !! k = owners x !! k /\ carried x' !! k = carried x !! k) ->
  (forall k, k <> lid -> same_ops k (ops x) (ops x')) ->
  linv x -> slot_ok x' lid -> linv x'.
Proof.
  intros Hw Ho Hs Hi Hlid k. destruct (decide (k = lid)) as [->|Hne]; [done|].
  specialize (Hi k). unfold slot_ok in *. destruct (Ho k Hne) as [-> ->]. rewrite Hw.
  destruct (owners x !! k); [by eapply lease_ok_same, Hi; auto|by eapply no_op_same, Hi; auto].
Qed.

Lemma no_op_delete os lid t o : sole_op os lid t o -> no_op (delete t os) lid.
Proof.
  intros (_ & _ & Hn) u o' [Hu Ho]%lookup_delete_Some Hl. by rewrite (Hn u o') in Hu.
Qed.
Lemma sole_op_new os lid u o : no_op os lid -> op_lid o = lid -> sole_op (<[u := o]> os) lid u o.
Proof.
  intros Hn Hl. split; [apply lookup_insert_eq|split; [done|]]. intros u' o' Hu' Hl'.
  apply lookup_insert_Some in Hu' as [[? _]|[_ Hu']]; [done|]. by destruct (Hn u' o').
Qed.
Lemma sole_op_replace os lid u o o' : sole_op os lid u o -> op_lid o' = lid -> sole_op (<[u := o']> os) lid u o'.
Proof.
  intros (_ & _ & Hn) Hl. split; [apply lookup_insert_eq|split; [done|]]. intros u' o'' Hu' Hl'.
  apply lookup_insert_Some in Hu' as [[? _]|[_ Hu']]; [done|]. by apply (Hn u' o'').
Qed.
Lemma sole_op_at os lid u o u' o' : sole_op os lid u o -> os !! u' = Some o' -> op_lid o' = lid -> u' = u /\ o' = o.
Proof. intros (Hu & _ & Hn) Hu' Hl. assert (u' = u) as -> by (by apply (Hn u' o')). split; congruence. Qed.

(** A lease whose handle nobody has begun to return. *)
Lemma backed_open w os lid c l h :
  SSHPool.done h = false -> Client h = Some c -> finished l = false ->
  (forall u t d, os !! u <> Some (Returning lid t d)) -> backed w os lid c l h.
Proof. intros Hd Hc Hf Hn. split; try done. - intros u t d Hu. by destruct (Hn u t d). - congruence. Qed.

Lemma no_returning os lid : no_op os lid -> forall u t d, os !! u <> Some (Returning lid t d).
Proof. intros Hn u t d Hu. by destruct (Hn _ _ Hu). Qed.
Lemma sole_not_returning os lid u o :
  sole_op os lid u o -> (forall t d, o <> Returning lid t d) -> forall u' t d, os !! u' <> Some (Returning lid t d).
Proof. intros Hs Ho u' t d Hu. destruct (sole_op_at _ _ _ _ _ _ Hs Hu) as [_ E]; [done|]. by destruct (Ho t d). Qed.

(** The operation of a busy lease is its primitive. *)
Lemma primitive_busy os lid t o l :
  stage os lid l -> os !! t = Some o -> op_lid o = lid -> is_primitive o = true ->
  exists cl bad k, l = MkSSHLease true cl false bad (Some t) k false /\ sole_op os lid t o.
Proof.
  intros Hst Hu Hl Hp. destruct Hst as [bad k Hn|t' o' cl bad k Hs Hp'|u o' bad k Hs Hse|bad k Hn].
  - by destruct (Hn t o).
  - destruct (sole_op_at _ _ _ _ _ _ Hs Hu) as [-> ->]; [done|]. eauto.
  - destruct (sole_op_at _ _ _ _ _ _ Hs Hu) as [-> ->]; [done|]. by destruct o'.
  - by destruct (Hn t o).
Qed.

Lemma settler_settling os lid u o d l :
  stage os lid l -> os !! u = Some o -> op_lid o = lid -> settling o = Some d ->
  exists k, l = MkSSHLease false true true d None k false /\ sole_op os lid u o.
Proof.
  intros Hst Hu Hl Hp. destruct Hst as [bad k Hn|t' o' cl bad k Hs Hp'|u' o' bad k Hs Hse|bad k Hn].
  - by destruct (Hn u o).
  - destruct (sole_op_at _ _ _ _ _ _ Hs Hu) as [-> ->]; [done|]. by destruct o'.
  - destruct (sole_op_at _ _ _ _ _ _ Hs Hu) as [-> ->]; [done|]. simplify_eq. eauto.
  - by destruct (Hn u o).
Qed.

Definition spawned (u lid : nat) (go : option bool) (os : gmap nat op) : gmap nat op :=
  match go with Some d => <[u := Settling lid d]> os | None => os end.

(** An idle lease on a usable handle, after [settleLocked]. *)
Lemma settle_ok w os lid u car cl bad k h c :
  no_op os lid -> handles (st w) !! lid = Some h -> car = Some c -> SSHPool.done h = false -> Client h = Some c ->
  let '(l, go) := settleLocked (MkSSHLease false cl false bad None k false) in
  lease_ok w (spawned u lid go os) lid car l.
Proof.
  intros Hn Hh Hc Hd Hcl. destruct cl; cbn.
  - assert (sole_op (<[u := Settling lid bad]> os) lid u (Settling lid bad)) as Hs by (by apply sole_op_new).
    split; [by eapply Settles|]. exists h, c. split_and!; try done. apply backed_open; try done.
    by eapply sole_not_returning.
  - split; [by apply Idle|]. exists h, c. split_and!; try done. apply backed_open; try done. by apply no_returning.
Qed.

Lemma finish_ok w os lid u car l discard cause :
  lease_ok w os lid car l -> os !! u = None ->
  let '(l', t, go) := lease_finish discard cause l in lease_ok w (spawned u lid go os) lid car l'.
Proof.
  intros [Hst (h & c & Hh & Hc & Hb)] Hu. destruct Hst as [bad k Hn|t o cl bad k Hs Hp|u' o bad k Hs Hse|bad k Hn].
  - destruct (bk_open _ _ _ _ _ _ Hb) as [Hd Hcl]; [done|].
    apply (settle_ok w os lid u car true (bad || discard) k h c Hn Hh Hc Hd Hcl).
  - destruct (bk_open _ _ _ _ _ _ Hb) as [Hd Hcl]; [done|]. cbn. split; [by econstructor|].
    exists h, c. split_and!; try done. apply backed_open; try done.
    eapply sole_not_returning; [exact Hs|]. intros ? ? ->. done.
  - split; [by econstructor|]. eauto.
  - split; [by econstructor|]. eauto.
Qed.

Lemma end_ok w os lid u o car l bad :
  lease_ok w os lid car l -> os !! u = Some o -> op_lid o = lid -> is_primitive o = true ->
  exists l' go, end_ bad l = Some (l', go) /\ lease_ok w (spawned u lid go (delete u os)) lid car l'.
Proof.
  intros [Hst (h & c & Hh & Hc & Hb)] Hu Hl Hp.
  destruct (primitive_busy _ _ _ _ _ Hst Hu Hl Hp) as (cl & bad0 & k & -> & Hs).
  destruct (bk_open _ _ _ _ _ _ Hb) as [Hd Hcl]; [done|]. unfold end_. cbn [cancel closing settled unhealthy cleanup finished].
  pose proof (settle_ok w (delete u os) lid u car cl (bad0 || bad) k h c (no_op_delete _ _ _ _ Hs) Hh Hc Hd Hcl) as Hok.
  destruct (settleLocked _) as [l' go]. eauto.
Qed.

Lemma cleanup_ok w os lid car l k : lease_ok w os lid car l -> lease_ok w os lid car (set_cleanup k l).
Proof.
  intros [Hst (h & c & Hh & Hc & [B1 B2 B3 B4])]. split; [destruct Hst; by econstructor|].
  exists h, c. split_and!; try done.
Qed.

Lemma refuse_ok w os lid car l cur ctx_err ctx_clock t err l' m m' :
  begin cur ctx_err ctx_clock t l m = (Err err, l', m') -> lease_ok w os lid car l -> lease_ok w os lid car l'.
Proof.
  intros E [Hst (h & c & Hh & Hc & Hb)]. unfold begin in E.
  destruct (closing l || settled l || unhealthy l) eqn:Eu; [simplify_eq; by split; eauto|].
  destruct cur; cbn in E.
  - destruct (active l); [simplify_eq; by split; eauto|]. destruct ctx_err; [simplify_eq; by split; eauto|].
    destruct (match ctx_clock with Some _ => _ | None => _ end). done.
  - injection E as <- <- <-. split; [by destruct Hst; cbn in *; [apply Idle|eapply Busy| |]|].
    exists h, c. split_and!; try done. destruct Hb as [B1 B2 B3 B4]. split; try done.
    destruct Hst; done.
Qed.

Lemma begin_ok w os lid car l cur ctx_err ctx_clock t k l' m m' :
  begin cur ctx_err ctx_clock t l m = (Ok k, l', m') -> os !! t = None -> lease_ok w os lid car l ->
  lease_ok w (<[t := Running lid k]> os) lid car l'.
Proof.
  intros E Ht [Hst (h & c & Hh & Hc & Hb)]. unfold begin in E.
  destruct (closing l || settled l || unhealthy l) eqn:Eu; [done|]. bools.
  destruct cur; [|done]. cbn in E. destruct (active l) eqn:Ea; [done|]. destruct ctx_err; [done|].
  destruct (match ctx_clock with Some _ => _ | None => _ end) as [k' m0]. injection E as -> <- <-.
  destruct Hst as [bad k0 Hn|?????|????|??]; cbn in *; try done.
  assert (sole_op (<[t := Running lid k]> os) lid t (Running lid k)) as Hs by (by apply sole_op_new).
  destruct (bk_open _ _ _ _ _ _ Hb) as [Hd Hcl]; [done|].
  split; [by eapply Busy|]. exists h, c. split_and!; try done. apply backed_open; try done.
  by eapply sole_not_returning.
Qed.

Lemma lease_ok_world w w' os lid car l :
  handles (st w') !! lid = handles (st w) !! lid -> gone (st w) ⊆ gone (st w') ->
  (forall t hd c, tasks w !! t = Some (Finishing lid hd (Some c) true) ->
     c ∈ gone (st w') \/ tasks w' !! t = Some (Finishing lid hd (Some c) true)) ->
  lease_ok w os lid car l -> lease_ok w' os lid car l.
Proof.
  intros Eh Hg Ht [Hst (h & c & Hh & Hc & [B1 B2 B3 B4])]. split; [done|]. rewrite <- Eh in Hh.
  exists h, c. split_and!; try done. split; try done.
  - intros u t d Hu. destruct (B3 u t d Hu) as [? Hd]. split; [done|]. intros Ed.
    destruct (Hd Ed) as [?|[hd Hf]]; [left; auto|]. destruct (Ht _ _ _ Hf); eauto.
  - intros Hf. destruct (B4 Hf) as [? Hd]. split; [done|]. auto.
Qed.

(** The settling goroutine hands the handle to the pool. *)
Lemma mark_ok w os u lid d t h c s car l :
  os !! u = Some (Settling lid d) -> handles (st w) !! lid = Some h -> finish_mark lid (st w) = (Some c, s) ->
  lease_ok w os lid car l ->
  lease_ok (put t (Finishing lid (lease_hold h) c d) s w) (<[u := Returning lid t d]> os) lid car l.
Proof.
  intros Hu Eh Em [Hst (h0 & c0 & Hh & Hc & Hb)]. simplify_eq.
  destruct (mark_done _ _ _ _ _ Eh Em) as [-> Eh'].
  destruct (settler_settling _ _ _ _ _ _ Hst Hu eq_refl eq_refl) as (k & -> & Hs).
  destruct (bk_before _ _ _ _ _ _ Hb _ _ Hu) as [Hd Hcl].
  assert (sole_op (<[u := Returning lid t d]> os) lid u (Returning lid t d)) as Hs' by (by eapply sole_op_replace).
  split; [by eapply Settles|]. exists (set_done h), c0. cbn [st put]. split_and!; try done. split; try done.
  - intros u' d' Hu'. by destruct (sole_op_at _ _ _ _ _ _ Hs' Hu') as [_ ?].
  - intros u' t' d' Hu'. destruct (sole_op_at _ _ _ _ _ _ Hs' Hu' eq_refl) as [_ ?]. simplify_eq.
    split; [done|]. intros ->. right. exists (lease_hold h). cbn. by rewrite lookup_insert_eq, Hcl.
Qed.

Lemma returned_ok w os u lid t d car l :
  os !! u = Some (Returning lid t d) -> tasks w !! t = None -> lease_ok w os lid car l ->
  lease_ok w (delete u os) lid car (close_done l).
Proof.
  intros Hu Ht [Hst (h & c & Hh & Hc & Hb)].
  destruct (settler_settling _ _ _ _ _ _ Hst Hu eq_refl eq_refl) as (k & -> & Hs).
  pose proof (no_op_delete _ _ _ _ Hs) as Hn. destruct (bk_during _ _ _ _ _ _ Hb _ _ _ Hu) as [Hd Hg].
  split; [by apply Settled|]. exists h, c. split_and!; try done. split; try done.
  - intros u' d' Hu'. by destruct (Hn _ _ Hu').
  - intros u' t' d' Hu'. by destruct (Hn _ _ Hu').
  - cbn. intros _. split; [done|]. intros ->. destruct Hg as [?|[hd Hf]]; [done|done|congruence].
Qed.

(** ** The invariant holds in every reachable state *)

Lemma slot_ok_at x lid l : linv x -> owners x !! lid = Some l -> lease_ok (pw x) (ops x) lid (carried x !! lid) l.
Proof. intros H El. specialize (H lid). unfold slot_ok in H. by rewrite El in H. Qed.

Lemma op_of x u o : linv x -> ops x !! u = Some o -> exists l, owners x !! op_lid o = Some l.
Proof.
  intros H Hu. specialize (H (op_lid o)). unfold slot_ok in H.
  destruct (owners x !! op_lid o); [eauto|]. by destruct (H _ _ Hu).
Qed.

Lemma slot_ok_set_owner x lid l' os car w m g :
  lease_ok w os lid (car !! lid) l' -> slot_ok (Sys w (<[lid := l']> (owners x)) os m car g) lid.
Proof. intros H. unfold slot_ok. cbn. by rewrite lookup_insert_eq. Qed.

Lemma same_ops_refl lid os : same_ops lid os os.
Proof. by intros u o _. Qed.
Lemma same_ops_trans lid a b c : same_ops lid a b -> same_ops lid b c -> same_ops lid a c.
Proof. intros H1 H2 u o Ho. rewrite (H2 u o Ho). by apply H1. Qed.
Lemma same_ops_spawned k lid u go os :
  k <> lid -> (forall o, os !! u = Some o -> op_lid o = lid) -> same_ops k os (spawned u lid go os).
Proof.
  intros Hne Hold. destruct go as [d|]; [|apply same_ops_refl]. cbn.
  eapply (same_ops_set k lid u (Some (Settling lid d))); [congruence|done|]. by intros o [= <-].
Qed.
Lemma same_ops_insert k lid u o os :
  k <> lid -> (forall o', os !! u = Some o' -> op_lid o' = lid) -> op_lid o = lid -> same_ops k os (<[u := o]> os).
Proof. intros Hne Hold Ho. eapply (same_ops_set k lid u (Some o)); [congruence|done|]. by intros ? [= <-]. Qed.
Lemma same_ops_delete k lid u os :
  k <> lid -> (forall o', os !! u = Some o' -> op_lid o' = lid) -> same_ops k os (delete u os).
Proof. intros Hne Hold. by eapply (same_ops_set k lid u None); [congruence|done|]. Qed.

(** The steps that concern one lease. *)
Lemma linv_owner x lid l l' m :
  linv x -> owners x !! lid = Some l -> lease_ok (pw x) (ops x) lid (carried x !! lid) l' ->
  linv (set_clocks m (set_owner lid l' x)).
Proof.
  intros H El Hok. apply (linv_at lid x); [done| | |done|].
  - intros k Hk. cbn. by rewrite lookup_insert_ne.
  - intros k _. apply same_ops_refl.
  - by apply slot_ok_set_owner.
Qed.

Lemma linv_op x lid u go o l' :
  linv x -> ops x !! u = Some o -> op_lid o = lid ->
  lease_ok (pw x) (spawned u lid go (delete u (ops x))) lid (carried x !! lid) l' ->
  linv (spawn u lid go (set_ops (delete u (ops x)) (set_owner lid l' x))).
Proof.
  intros H Hu Hl Hok.
  assert (forall k, k <> lid -> same_ops k (ops x) (delete u (ops x))) as Hd.
  { intros k Hk. apply (same_ops_delete k lid); [done|]. congruence. }
  replace (spawn u lid go (set_ops (delete u (ops x)) (set_owner lid l' x)))
    with (set_ops (spawned u lid go (delete u (ops x))) (set_owner lid l' x)) by (by destruct go).
  apply (linv_at lid x); [done| | |done|].
  - intros k Hk. cbn. by rewrite lookup_insert_ne.
  - intros k Hk. eapply same_ops_trans; [by apply Hd|]. apply same_ops_spawned; [done|]. intros o'. by rewrite lookup_delete_eq.
  - by apply slot_ok_set_owner.
Qed.

Lemma linv_pool x w' : wshut (pw x) -> step false (pw x) w' -> polite x w' -> linv x -> linv (set_pw w' x).
Proof.
  intros Hw Hs [Ph Pt] H lid. specialize (H lid). unfold slot_ok in *. cbn.
  destruct (owners x !! lid) as [l|] eqn:El; [|done]. eapply lease_ok_world; [| | |exact H].
  - apply Ph. by rewrite El.
  - by eapply step_gone.
  - intros t hd c. by apply step_finishing.
Qed.

Lemma linv_settle x lid u d t h c s :
  linv x -> ops x !! u = Some (Settling lid d) -> tasks (pw x) !! t = None ->
  handles (st (pw x)) !! lid = Some h -> finish_mark lid (st (pw x)) = (Some c, s) ->
  linv (set_ops (<[u := Returning lid t d]> (ops x))
          (set_pw (put t (Finishing lid (lease_hold h) c d) s (pw x)) x)).
Proof.
  intros H Hu Ht Eh Em k. destruct (mark_fields _ _ _ _ Em) as [Eg Ehs].
  destruct (decide (k = lid)) as [->|Hne].
  - destruct (op_of x u _ H Hu) as [l El]. cbn in El. unfold slot_ok. cbn. rewrite El.
    eapply mark_ok; try done. by apply slot_ok_at.
  - specialize (H k). unfold slot_ok in *. cbn.
    assert (same_ops k (ops x) (<[u := Returning lid t d]> (ops x))) as Hs.
    { apply (same_ops_insert k lid); [done| |done]. intros o' Ho. by simplify_eq. }
    destruct (owners x !! k); [|by eapply no_op_same].
    eapply lease_ok_same; [done|]. eapply lease_ok_world; [| | |exact H]; cbn; [by apply Ehs|by rewrite Eg|].
    intros t' hd c' Ht'. right. rewrite lookup_insert_ne; [done|]. congruence.
Qed.

Lemma cancel_ctx_inv t x : linv x -> linv (cancel_ctx t x).
Proof. by destruct t. Qed.

Lemma linv_new x lid h c :
  linv x -> handles (st (pw x)) !! lid = Some h -> SSHPool.done h = false -> Client h = Some c ->
  owners x !! lid = None ->
  linv (Sys (pw x) (<[lid := newSSHLease]> (owners x)) (ops x) (clocks x) (<[lid := c]> (carried x)) (cancelled x)).
Proof.
  intros H Hh Hd Hc Hn. apply (linv_at lid x); [done| | |done|].
  - intros k Hk. cbn. by rewrite !lookup_insert_ne.
  - intros k _. apply same_ops_refl.
  - apply slot_ok_set_owner. specialize (H lid). unfold slot_ok in H. rewrite Hn in H. rewrite lookup_insert_eq.
    split; [by apply Idle|]. exists h, c. split_and!; try done. apply backed_open; try done. by apply no_returning.
Qed.

Lemma linv_finish x lid l u discard cause l' t go :
  linv x -> owners x !! lid = Some l -> ops x !! u = None -> lease_finish discard cause l = (l', t, go) ->
  linv (cancel_ctx t (spawn u lid go (set_owner lid l' x))).
Proof.
  intros H El Hu Ef. apply cancel_ctx_inv.
  pose proof (finish_ok (pw x) (ops x) lid u (carried x !! lid) l discard cause (slot_ok_at _ _ _ H El) Hu) as Hok.
  rewrite Ef in Hok.
  replace (spawn u lid go (set_owner lid l' x)) with (set_ops (spawned u lid go (ops x)) (set_owner lid l' x)) by (by destruct go).
  apply (linv_at lid x); [done| | |done|].
  - intros k Hk. cbn. by rewrite lookup_insert_ne.
  - intros k Hk. apply same_ops_spawned; [done|]. congruence.
  - by apply slot_ok_set_owner.
Qed.

Lemma linv_step x x' : wshut (pw x) -> lstep x x' -> linv x -> linv x'.
Proof.
  intros Hw Hs H. destruct Hs.
  - by apply linv_pool.
  - by eapply linv_new.
  - by eapply linv_finish.
  - eapply linv_owner; [done|done|]. unfold cleanupDeadlinesLocked in H1.
    destruct (match cleanup l with Some _ => _ | None => _ end) as [k m0]. destruct (deadlines _ _ _ _) as [d' m1].
    injection H1 as <- <- <-. apply (cleanup_ok _ _ _ _ l k). by apply slot_ok_at.
  - apply (linv_owner x lid l _ (clocks x)); [done|done|]. apply cleanup_ok. by apply slot_ok_at.
  - eapply linv_owner; [done|done|]. eapply refuse_ok; [done|]. by apply slot_ok_at.
  - apply (linv_at lid x); [done| | |done|].
    + intros k' Hk. cbn. by rewrite lookup_insert_ne.
    + intros k' Hk. apply (same_ops_insert k' lid); [done| |done]. congruence.
    + apply (slot_ok_set_owner x). eapply (begin_ok (pw x) (ops x)); [done|done|]. exact (slot_ok_at x lid l H H0).
  - exact H.
  - eapply linv_op; [done|done|done|]. 
    destruct (end_ok _ _ _ _ _ _ _ bad (slot_ok_at _ _ _ H H1) H0 eq_refl eq_refl) as (l1 & go1 & E & Hok).
    rewrite E in H2. by injection H2 as <- <-.
  - intros lid'. destruct (op_of x t _ H H0) as [l El]. cbn in El. revert lid'. apply (linv_at lid x); try done.
    + intros k' Hk. apply (same_ops_insert k' lid); [done| |done]. intros o' Ho. by simplify_eq.
    + unfold slot_ok. cbn. rewrite El. destruct (slot_ok_at _ _ _ H El) as [Hst (h & c & Hh & Hc & Hb)].
      destruct (primitive_busy _ _ _ _ _ Hst H0 eq_refl eq_refl) as (cl & bad & k0 & -> & Hso).
      assert (sole_op (<[t := Draining lid]> (ops x)) lid t (Draining lid)) as Hs' by (by eapply sole_op_replace).
      destruct (bk_open _ _ _ _ _ _ Hb) as [Hd Hcl]; [done|].
      split; [by eapply Busy|]. exists h, c. split_and!; try done. apply backed_open; try done.
      by eapply sole_not_returning.
  - eapply linv_op; [done|done|done|]. 
    destruct (end_ok _ _ _ _ _ _ _ true (slot_ok_at _ _ _ H H1) H0 eq_refl eq_refl) as (l1 & go1 & E & Hok).
    rewrite E in H2. by injection H2 as <- <-.
  - by apply linv_settle.
  - exfalso. pose proof (slot_ok_at _ _ _ H H2) as [Hst (h & c & Hh & Hc & Hb)].
    destruct (bk_before _ _ _ _ _ _ Hb _ _ H0) as [Hd _]. unfold finish_mark in H1. rewrite Hh, Hd in H1. done.
  - apply (linv_op x lid u None (Returning lid t discard)); [done|done|done|]. eapply returned_ok; [done|done|]. by apply slot_ok_at.
Qed.

Lemma linv_reachable p x : closed p = false -> lreachable p x -> linv x.
Proof.
  intros Hp. induction 1 as [w Hr|x x' Hr IH Hs]; [|].
  - intros lid. unfold slot_ok. cbn. rewrite lookup_empty. intros u o Hu. cbn in Hu. by rewrite lookup_empty in Hu.
  - eapply linv_step; [|done|done]. eapply wshut_reachable; [done|]. by apply lreachable_pool.
Qed.

(** ** The properties *)

(** A clock that has started never changes: neither another waiter nor a later stage
    of the teardown restarts the budget. *)
Lemma clock_immutable x x' k d :
  lstep x x' -> clocks x !! k = Some (Some d) -> clocks x' !! k = Some (Some d).
Proof.
  assert (forall now g k0 m, m !! k = Some (Some d) -> (deadlines now g k0 m).2 !! k = Some (Some d)) as Hd.
  { intros now g k0 m Hk. unfold deadlines. destruct (m !! k0) as [[d0|]|] eqn:E; [done|..];
      cbn [snd]; rewrite lookup_insert_ne; congruence. }
  assert (forall m, m !! k = Some (Some d) -> (new_clock m).2 !! k = Some (Some d)) as Hn.
  { intros m Hk. unfold new_clock. cbn [snd]. rewrite lookup_insert_ne; [done|]. intros E.
    apply (is_fresh (dom m)). rewrite E. by apply elem_of_dom_2 in Hk. }
  assert (forall ck m r m', (match ck with Some k => (k, m) | None => new_clock m end) = (r, m') ->
            m !! k = Some (Some d) -> m' !! k = Some (Some d)) as Hm.
  { intros [k0|] m r m' E Hk; [by simplify_eq|]. pose proof (Hn m Hk) as Hk'. by rewrite E in Hk'. }
  intros Hs Hk. destruct Hs; cbn; try done.
  - destruct t as [?|], go as [?|]; done.
  - unfold cleanupDeadlinesLocked in H0.
    destruct (match cleanup l with Some _ => _ | None => _ end) as [k1 m1] eqn:E1.
    pose proof (Hd now execTeardownGrace k1 m1 (Hm _ _ _ _ E1 Hk)) as Hk'.
    destruct (deadlines now execTeardownGrace k1 m1). by injection H0 as <- <- <-.
  - unfold begin in H1. by splits.
  - unfold begin in H3. splits; try done. unfold new_clock in *. simplify_eq. by apply Hn.
  - by apply Hd.
  - by destruct go.
  - by destruct go.
Qed.

(** The command and upload budgets. *)
Lemma exec_budget_capped dflt b : exec_budget dflt b <= maxExecTimeout.
Proof. unfold exec_budget. destruct (maxExecTimeout <? _) eqn:E; bools; lia. Qed.

(** C11: In every reachable state of the pool and the leases on it: (1) until a lease
    settles, its transport is in its handle and nowhere else, so no other borrower can
    see it; (2) a primitive that runs is the lease's only one, the lease is not settled,
    and its [end] will find the cancel function it calls; (3) a lease asked back refuses
    further primitives and is settled as soon as none runs; (4) exactly one goroutine
    settles it, discarding the transport exactly if the lease became unhealthy; (5) once
    [Done] is closed nothing of the lease runs any more, and the transport of an
    unhealthy lease has been closed and is nowhere in the pool. *)
Theorem leased_transport_is_protected idle n slot r o x lid l c :
  lreachable (configured idle n slot r o) x -> owners x !! lid = Some l -> carried x !! lid = Some c ->
  let place := at_ (st (pw x)) (tasks (pw x)) in
  (settled l = false -> place (InLease lid) = Some c /\ forall p, place p = Some c -> p = InLease lid) /\
  (forall t o, ops x !! t = Some o -> op_lid o = lid -> is_primitive o = true ->
     sole_op (ops x) lid t o /\ settled l = false /\ cancel l = Some t /\ forall bad, is_Some (end_ bad l)) /\
  (closing l = true ->
     (forall cur e k t m, (begin cur e k t l m).1.1 = Err errSSHLeaseUnusable) /\
     ((forall t o, ops x !! t = Some o -> op_lid o = lid -> is_primitive o = false) -> settled l = true)) /\
  (settled l = true -> finished l = false ->
     exists u o, sole_op (ops x) lid u o /\ settling o = Some (unhealthy l)) /\
  (finished l = true -> no_op (ops x) lid /\
     (unhealthy l = true -> c ∈ gone (st (pw x)) /\
        (closed (pool (st (pw x))) = false -> forall p, place p <> Some c))).
Proof.
  intros Hr El Ec place.
  pose proof (lreachable_pool _ _ Hr) as Hp.
  apply wowned_reachable in Hp as [[He Ho] _ _ _ _ _]; [|rewrite configured_max; lia|done|done].
  assert (linv x) as H by (by eapply linv_reachable; [|exact Hr]).
  clear Hr.
  destruct (slot_ok_at _ _ _ H El) as [Hst (h & c' & Hh & Hc & Hb)]. rewrite Ec in Hc. injection Hc as <-. split_and!.
  - intros Hs. destruct (bk_open _ _ _ _ _ _ Hb Hs) as [_ Hcl].
    assert (place (InLease lid) = Some c) as Hin by (subst place; cbn; by rewrite Hh). split; [done|].
    intros p Hpl. by eapply He.
  - intros t op Hu Hl Hpr. destruct (primitive_busy _ _ _ _ _ Hst Hu Hl Hpr) as (cl & bad & k & -> & Hso).
    by split_and!.
  - intros Hcl. split; [intros cur e k t m; unfold begin; by rewrite Hcl|]. intros Hno.
    destruct Hst as [|t op cl bad k (Hu & Hl & _) Hpr| |]; cbn in *; try done.
    by rewrite (Hno t op Hu Hl) in Hpr.
  - intros Hs Hf. destruct Hst; cbn in *; try done. eauto.
  - intros Hf. split; [by destruct Hst; cbn in *|]. intros Hbad.
    destruct (bk_after _ _ _ _ _ _ Hb Hf) as [_ Hg]. split; [auto|].
    intros Hcl p Hpl. destruct (Ho p c Hpl) as [_ Hng]. apply Hng; [by rewrite Hcl|auto].
Qed.

(** ** Witness

    A lease on the demonstration pool starts a command, is cancelled while it runs,
    and is settled: the transport is closed. *)
Definition x0 : sys := Sys w6 ∅ ∅ ∅ ∅ ∅.
Definition x1 : sys := Sys w6 {[0%nat := newSSHLease]} ∅ ∅ {[0%nat := 40]} ∅.
Definition begun : sshLease * clock_heap := let r := begin true false None 5 newSSHLease ∅ in (r.1.2, r.2).
Definition x2 : sys := set_ops {[5%nat := Running 0 0]} (set_clocks begun.2 (set_owner 0 begun.1 x1)).

Lemma demo_busy : lreachable demo_pool x2.
Proof.
  apply (lreach_step _ x1).
  - apply (lreach_step _ x0); [apply lreach_start, demo_leased|].
    apply (LNew x0 0 (set_Client (Some 40) demo_lease) 40); by vm_compute.
  - apply (LBegin x1 0 newSSHLease (set_Client (Some 40) demo_lease) 5 false None 0); by vm_compute.
Qed.

Definition cancelled_lease : sshLease := (lease_Cancel begun.1).1.1.
Definition x3 : sys := cancel_ctx (Some 5%nat) (set_owner 0 cancelled_lease x2).
Definition ended : sshLease :=
  match end_ false cancelled_lease with Some (l, _) => l | None => newSSHLease end.
Definition x4 : sys := spawn 5 0 (Some true) (set_ops (delete 5%nat (ops x3)) (set_owner 0 ended x3)).
Definition h6 : Lease := set_Client (Some 40) demo_lease.
Definition marked : world := put 9%nat (Finishing 0 (lease_hold h6) (Some 40) true) (finish_mark 0 (st w6)).2 w6.
Definition x5 : sys := set_ops (<[5%nat := Returning 0 9 true]> (ops x4)) (set_pw marked x4).
Definition returned : world :=
  put 9%nat (Releasing (lease_hold h6)) (finish_return 0 (Some 40) true 1 (st marked)) marked.
Definition given : world := put 9%nat (Uncounting (lease_hold h6)) (give_slot 0 (st returned)) returned.
Definition uncounted : world := drop 9%nat (notifyQuota "terminal" (-1) (st given)) given.
Definition x6 : sys := set_pw uncounted (set_pw given (set_pw returned x5)).
Definition x7 : sys := set_ops (delete 5%nat (ops x6)) (set_owner 0 (close_done ended) x6).

Lemma polite_same x w' :
  handles (st w') = handles (st (pw x)) -> (forall t, tasks (pw x) !! t = None -> tasks w' !! t = None) -> polite x w'.
Proof. intros Eh Et. split; [by intros ? _; rewrite Eh|eauto]. Qed.

Lemma demo_settled : lreachable demo_pool x7.
Proof.
  apply (lreach_step _ x6); [|by apply (LReturned x6 5 0 9 true ended); vm_compute].
  apply (lreach_step _ (set_pw given (set_pw returned x5))).
  2:{ apply LPool; [apply (StepUncount false given 9 (lease_hold h6)); by vm_compute|].
      apply polite_same; [by vm_compute|]. intros t Ht. cbn in *. by apply lookup_delete_None; right. }
  apply (lreach_step _ (set_pw returned x5)).
  2:{ apply LPool; [apply (StepGive false returned 9 (lease_hold h6)); by vm_compute|].
      apply polite_same; [by vm_compute|]. intros t Ht. cbn in *. apply lookup_insert_None.
      split; [exact Ht|]. intros <-. by vm_compute in Ht. }
  apply (lreach_step _ x5).
  2:{ apply LPool; [apply (StepReturn false marked 9 0 (lease_hold h6) (Some 40) true 1); by vm_compute|].
      apply polite_same; [by vm_compute|]. intros t Ht. cbn in *. apply lookup_insert_None.
      split; [exact Ht|]. intros <-. by vm_compute in Ht. }
  apply (lreach_step _ x4); [|by apply (LSettle x4 5 0 true 9 h6 (Some 40)); vm_compute].
  apply (lreach_step _ x3); [|by apply (LEnd x3 5 0 0 cancelled_lease false ended (Some true)); vm_compute].
  apply (lreach_step _ x2); [apply demo_busy|].
  by apply (LFinish x2 0 begun.1 6 true true cancelled_lease (Some 5%nat) None); vm_compute.
Qed.

Lemma leased_transport_is_protected_witness :
  (lreachable demo_pool x2 /\
   forall p, at_ (st (pw x2)) (tasks (pw x2)) p = Some 40 -> p = InLease 0) /\
  (lreachable demo_pool x7 /\ 5%nat ∈ cancelled x7 /\ 40 ∈ gone (st (pw x7))).
Proof.
  split.
  - split; [apply demo_busy|].
    refine (proj2 (proj1 (leased_transport_is_protected _ _ _ _ _ x2 0 begun.1 40 demo_busy _ _) _)); by vm_compute.
  - split; [apply demo_settled|]. split; [by vm_compute|].
    refine (proj1 (proj2 (proj2 (proj2 (proj2 (proj2
      (leased_transport_is_protected _ _ _ _ _ x7 0 (close_done ended) 40 demo_settled _ _)))) _) _)); by vm_compute.
Defined.
