(* ===== verification/Text.v ===== *)
(** * Bounded text (internal/usage/operation.go, internal/repository/usage_log.go)

    Labels that end up in the operation history are stripped of control characters and
    cut to a number of bytes without splitting a UTF-8 sequence.  [items] is the
    decoding loop of Go's [unicode/utf8]: it splits a string into well-formed
    sequences and single invalid bytes. *)

From S2P Require Import Prelude GoStrings.

Inductive item := Good (s : string) | Invalid (b : ascii).

(** The lead byte of a sequence: its width and the range of the second byte. *)
Inductive lead := Lead1 | Lead2 | Lead3 (lo hi : N) | Lead4 (lo hi : N) | NoLead.

Definition in_range (lo hi : N) (c : ascii) : bool := ((lo <=? N_of_ascii c) && (N_of_ascii c <=? hi))%N.
Definition continuation : ascii -> bool := in_range 128 191.

Definition lead_of (c : ascii) : lead :=
  if in_range 0 127 c then Lead1
  else if in_range 194 223 c then Lead2
  else if in_range 224 224 c then Lead3 160 191
  else if in_range 225 236 c || in_range 238 239 c then Lead3 128 191
  else if in_range 237 237 c then Lead3 128 159
  else if in_range 240 240 c then Lead4 144 191
  else if in_range 241 243 c then Lead4 128 191
  else if in_range 244 244 c then Lead4 128 143
  else NoLead.

Fixpoint items (s : string) : list item :=
  match s with
  | EmptyString => []
  | String a r =>
      match lead_of a with
      | Lead1 => Good (String a "") :: items r
      | Lead2 =>
          match r with
          | String b r' => if continuation b then Good (String a (String b "")) :: items r'
                           else Invalid a :: items r
          | _ => Invalid a :: items r
          end
      | Lead3 lo hi =>
          match r with
          | String b (String c r') =>
              if in_range lo hi b && continuation c then Good (String a (String b (String c ""))) :: items r'
              else Invalid a :: items r
          | _ => Invalid a :: items r
          end
      | Lead4 lo hi =>
          match r with
          | String b (String c (String d r')) =>
              if in_range lo hi b && continuation c && continuation d
              then Good (String a (String b (String c (String d "")))) :: items r'
              else Invalid a :: items r
          | _ => Invalid a :: items r
          end
      | NoLead => Invalid a :: items r
      end
  end.

Definition is_good (i : item) : bool := match i with Good _ => true | Invalid _ => false end.
Definition ValidString (s : string) : bool := forallb is_good (items s).

(** [unicode.IsControl]: U+0000 to U+001F and U+007F to U+009F. *)
Definition is_control (i : item) : bool :=
  match i with
  | Good (String a EmptyString) => in_range 0 31 a || in_range 127 127 a
  | Good (String a (String b EmptyString)) => in_range 194 194 a && in_range 128 159 b
  | _ => false
  end.

Definition replacement : string := String (ascii_of_N 239) (String (ascii_of_N 191) (String (ascii_of_N 189) "")).

(** What [strings.Map] writes for one decoded rune: an invalid byte is mapped as
    U+FFFD, which is no control character. *)
Definition mapped (i : item) : string :=
  match i with
  | Good s => if is_control i then "" else s
  | Invalid _ => replacement
  end.
Definition strip_controls (s : string) : string := String.concat "" (map mapped (items s)).

Fixpoint str_take (n : nat) (s : string) : string :=
  match n, s with S n, String c s => String c (str_take n s) | _, _ => "" end.

(** The loop that drops the last byte until the text is valid, from [n] bytes on. *)
Fixpoint trim_invalid (n : nat) (s : string) : string :=
  if ValidString (str_take n s) then str_take n s
  else match n with O => "" | S n => trim_invalid n s end.

Definition boundedText (s : string) (max : nat) : string :=
  let s := strip_controls s in
  if Nat.leb (String.length s) max then s else trim_invalid max s.

(** [strings.ToValidUTF8(value, "")] drops the invalid bytes. *)
Definition ToValid (s : string) : string :=
  String.concat "" (map (fun i => match i with Good s => s | Invalid _ => "" end) (items s)).
Definition legacyLabel (value : string) : string := boundedText (ToValid value) 256.

(** ** Sequences of well-formed items *)

Inductive chunk : string -> Prop :=
| chunk1 a : lead_of a = Lead1 -> chunk (String a "")
| chunk2 a b : lead_of a = Lead2 -> continuation b = true -> chunk (String a (String b ""))
| chunk3 a b c lo hi : lead_of a = Lead3 lo hi -> in_range lo hi b = true -> continuation c = true ->
    chunk (String a (String b (String c "")))
| chunk4 a b c d lo hi : lead_of a = Lead4 lo hi -> in_range lo hi b = true -> continuation c = true ->
    continuation d = true -> chunk (String a (String b (String c (String d "")))).

Definition well (i : item) : Prop := match i with Good s => chunk s | Invalid _ => True end.

Lemma chunk_items s t : chunk s -> items (s +:+ t) = Good s :: items t.
Proof.
  intros [a Ha | a b Ha Hb | a b c lo hi Ha Hb Hc | a b c d lo hi Ha Hb Hc Hd]; cbn [String.append items];
    rewrite Ha, ?Hb, ?Hc, ?Hd; done.
Qed.

Lemma chunk_length s : chunk s -> (1 <= String.length s <= 4)%nat.
Proof. intros []; cbn; lia. Qed.

Lemma String_app_assoc (a b c : string) : a +:+ (b +:+ c) = (a +:+ b) +:+ c.
Proof. induction a as [|x a IH]; [done|]. cbn. by rewrite IH. Qed.
Lemma String_app_length (a b : string) :
  String.length (a +:+ b) = (String.length a + String.length b)%nat.
Proof. induction a as [|x a IH]; cbn; [done|]. by rewrite IH. Qed.

Fixpoint goods (l : list string) : string :=
  match l with [] => "" | s :: l => s +:+ goods l end.

Lemma goods_app l k : goods (l ++ k) = goods l +:+ goods k.
Proof. induction l as [|s l IH]; [done|]. cbn. by rewrite IH, String_app_assoc. Qed.

Lemma items_goods l t : Forall chunk l -> items (goods l +:+ t) = map Good l ++ items t.
Proof.
  induction 1 as [|s l Hs _ IH]; [done|]. cbn. rewrite <- String_app_assoc.
  by rewrite chunk_items, IH.
Qed.

Lemma app_nil_r_str s : s +:+ "" = s.
Proof. induction s as [|c s IH]; [done|]. cbn. by rewrite IH. Qed.

Lemma items_goods' l : Forall chunk l -> items (goods l) = map Good l.
Proof. intros H. by rewrite <- (app_nil_r_str (goods l)), items_goods, app_nil_r. Qed.

(** By length: every string is a sequence of its items. *)
Lemma items_ind (P : string -> list item -> Prop) :
  P "" [] ->
  (forall s t, chunk s -> P t (items t) -> P (s +:+ t) (Good s :: items t)) ->
  (forall b t, P t (items t) -> items (String b t) = Invalid b :: items t -> P (String b t) (Invalid b :: items t)) ->
  forall s, P s (items s).
Proof.
  intros H0 Hg Hb s. remember (String.length s) as n eqn:En. revert s En.
  induction n as [n IH] using lt_wf_ind. intros [|a r] ->; [exact H0|].
  assert (forall t, (String.length t < S (String.length r))%nat -> P t (items t)) as IH'
    by (intros t Ht; by apply (IH (String.length t))). clear IH.
  assert (items (String a r) = Invalid a :: items r -> P (String a r) (items (String a r))) as Hbad.
  { intros E. rewrite E. apply Hb; [apply IH'; cbn; lia|exact E]. }
  assert (forall s t, String a r = s +:+ t -> chunk s -> P (String a r) (items (String a r))) as Hgood.
  { intros s t E Hs. rewrite E. rewrite chunk_items by done. apply Hg; [done|]. apply IH'.
    apply (f_equal String.length) in E. rewrite String_app_length in E. pose proof (chunk_length s Hs).
    cbn [String.length] in E. lia. }
  destruct (lead_of a) as [| |lo hi|lo hi|] eqn:Ea.
  - apply (Hgood (String a "") r); [done|by constructor].
  - destruct r as [|b r]; [apply Hbad; cbn; by rewrite Ea|]. destruct (continuation b) eqn:Eb.
    + apply (Hgood (String a (String b "")) r); [done|by constructor].
    + apply Hbad. cbn [items]. by rewrite Ea, Eb.
  - destruct r as [|b [|c r]]; [apply Hbad; cbn [items]; by rewrite Ea..|].
    destruct (in_range lo hi b && continuation c) eqn:Eb.
    + bools. apply (Hgood (String a (String b (String c ""))) r); [done|by econstructor].
    + apply Hbad. cbn [items]. by rewrite Ea, Eb.
  - destruct r as [|b [|c [|d r]]]; [apply Hbad; cbn [items]; by rewrite Ea..|].
    destruct (in_range lo hi b && continuation c && continuation d) eqn:Eb.
    + bools. apply (Hgood (String a (String b (String c (String d "")))) r); [done|by econstructor].
    + apply Hbad. cbn [items]. by rewrite Ea, Eb.
  - apply Hbad. cbn [items]. by rewrite Ea.
Qed.

Lemma valid_goods l : Forall chunk l -> ValidString (goods l) = true.
Proof. intros H. unfold ValidString. rewrite items_goods' by done. clear H. by induction l. Qed.

(** A valid string is the concatenation of its sequences. *)
Lemma valid_chunks s : ValidString s = true -> exists l, Forall chunk l /\ s = goods l /\ items s = map Good l.
Proof.
  unfold ValidString. apply (items_ind (fun s its => forallb is_good its = true ->
    exists l, Forall chunk l /\ s = goods l /\ its = map Good l)).
  - intros _. by exists [].
  - intros c t Hc IH Hv. destruct (IH Hv) as (l & Hl & -> & ->). exists (c :: l). split_and!; [by constructor|done|done].
  - done.
Qed.

(** What the stripped string is made of. *)
Definition plain (s : string) : Prop := chunk s /\ is_control (Good s) = false.

Lemma chunk_replacement : plain replacement.
Proof. split; [|done]. by apply (chunk3 _ _ _ 128 191). Qed.

Lemma strip_plain s : exists l, Forall plain l /\ strip_controls s = goods l.
Proof.
  assert (forall a b, String.concat "" (a :: b) = a +:+ String.concat "" b) as Hc.
  { intros a [|b k]; [by rewrite app_nil_r_str|done]. }
  unfold strip_controls. apply (items_ind (fun _ its => exists l, Forall plain l /\
    String.concat "" (map mapped its) = goods l)).
  - by exists [].
  - intros c t Hch (l & Hl & E). cbn [map]. rewrite Hc, E. cbn [mapped].
    destruct (is_control (Good c)) eqn:Ec; [exists l; split; [done|reflexivity]|]. exists (c :: l). by split; [constructor|].
  - intros b t (l & Hl & E) _. cbn [map]. rewrite Hc, E. exists (replacement :: l).
    split; [constructor; [apply chunk_replacement|done]|done].
Qed.

Lemma str_take_app n s t :
  str_take n (s +:+ t) = str_take n s +:+ str_take (n - String.length s) t.
Proof. revert n. induction s as [|c s IH]; intros [|n]; cbn; try done. by rewrite IH. Qed.

Lemma str_take_all n s : (String.length s <= n)%nat -> str_take n s = s.
Proof. revert n. induction s as [|c s IH]; intros [|n] H; cbn in *; try done; [lia|]. rewrite IH; [done|lia]. Qed.

Lemma str_take_length n s : String.length (str_take n s) = Nat.min n (String.length s).
Proof. revert s. induction n as [|n IH]; intros [|c s]; cbn; try done. by rewrite IH. Qed.

Lemma str_take_prefix n s : exists r, s = str_take n s +:+ r.
Proof.
  revert s. induction n as [|n IH]; intros [|c s]; cbn; try by eexists.
  destruct (IH s) as [r E]. exists r. by rewrite <- E.
Qed.

(** A sequence boundary lies within three bytes below any position. *)
Lemma boundary l n :
  Forall chunk l -> (n <= String.length (goods l))%nat ->
  exists k r, l = k ++ r /\ (String.length (goods k) <= n < String.length (goods k) + 4)%nat.
Proof.
  intros Hl. revert n. induction Hl as [|s l Hs Hl IH]; intros n Hn.
  - exists [], []. cbn in *. split; [done|lia].
  - pose proof (chunk_length s Hs). destruct (Nat.ltb_spec n (String.length s)) as [Hlt|Hge].
    + exists [], (s :: l). cbn. split; [done|lia].
    + cbn in Hn. rewrite String_app_length in Hn.
      destruct (IH (n - String.length s)%nat ltac:(lia)) as (k & r & -> & Hk).
      exists (s :: k), r. cbn. rewrite String_app_length. split; [done|lia].
Qed.

(** The loop stops at the longest valid prefix of at most [n] bytes. *)
Lemma trim_invalid_spec n s :
  ValidString (trim_invalid n s) = true /\ exists m, (m <= n)%nat /\ trim_invalid n s = str_take m s /\
  forall k, (k <= n)%nat -> ValidString (str_take k s) = true -> (k <= m)%nat.
Proof.
  induction n as [|n IH].
  - cbn. split; [done|]. exists 0%nat. split_and!; [done|done|]. intros k Hk _. lia.
  - cbn [trim_invalid]. destruct (ValidString (str_take (S n) s)) eqn:Ev.
    + split; [done|]. exists (S n). by split_and!.
    + destruct IH as [Hv (m & Hm & E & Hmax)]. split; [done|]. exists m. split_and!; [lia|done|].
      intros k Hk Hkv. apply Hmax; [|done]. destruct (decide (k = S n)) as [->|]; [congruence|lia].
Qed.

Lemma prefix_of_plain l t r :
  Forall plain l -> goods l = t +:+ r -> ValidString t = true -> exists k, Forall plain k /\ t = goods k.
Proof.
  intros Hl E Hv. destruct (valid_chunks t Hv) as (k & Hk & -> & _).
  assert (Forall chunk l) as Hc by (eapply Forall_impl; [exact Hl|by intros s []]).
  pose proof (items_goods' l Hc) as Ei. rewrite E, items_goods in Ei by done.
  exists k. split; [|done].
  assert (Forall (fun i => is_control i = false) (map Good k)) as Hn.
  { assert (Forall (fun i => is_control i = false) (map Good l)) as Hn.
    { apply Forall_map. eapply Forall_impl; [exact Hl|by intros s []]. }
    rewrite <- Ei in Hn. by apply Forall_app in Hn as [Hn _]. }
  apply Forall_map in Hn. rewrite Forall_forall in *. intros s Hs. split; [by apply Hk|by apply Hn].
Qed.

(** A bounded label is valid UTF-8 without control characters and within the
    limit, whatever bytes came in; it is the input's text without control characters,
    cut, when that is too long, at most three bytes before the limit (the loop that
    looks for a sequence boundary always finds one), and text that is already fine is
    left alone. *)
Theorem boundedText_correct s max :
  let t := boundedText s max in
  ValidString t = true /\ (String.length t <= max)%nat /\
  Forall (fun i => is_control i = false) (items t) /\
  (exists r, strip_controls s = t +:+ r) /\
  ((max < String.length (strip_controls s))%nat -> (max < String.length t + 4)%nat) /\
  (ValidString s = true -> Forall (fun i => is_control i = false) (items s) ->
   (String.length s <= max)%nat -> t = s).
Proof.
  destruct (strip_plain s) as (l & Hl & El).
  assert (Forall chunk l) as Hc by (eapply Forall_impl; [exact Hl|by intros c []]).
  intros t. assert (exists r, strip_controls s = t +:+ r) as [r Er].
  { subst t. unfold boundedText. destruct (Nat.leb_spec (String.length (strip_controls s)) max) as [H|H].
    - exists "". by rewrite app_nil_r_str.
    - destruct (trim_invalid_spec max (strip_controls s)) as [_ (m & _ & -> & _)]. apply str_take_prefix. }
  assert (ValidString t = true) as Hv.
  { subst t. unfold boundedText. destruct (Nat.leb _ _); [rewrite El; by apply valid_goods|apply trim_invalid_spec]. }
  destruct (prefix_of_plain l t r Hl) as (k & Hk & Ek); [by rewrite <- El|done|].
  assert (Forall chunk k) as Hck by (eapply Forall_impl; [exact Hk|by intros c []]).
  split_and!; [done| | |by exists r| |].
  - subst t. unfold boundedText in *. destruct (Nat.leb_spec (String.length (strip_controls s)) max) as [H|H]; [done|].
    destruct (trim_invalid_spec max (strip_controls s)) as [_ (m & Hm & -> & _)]. rewrite str_take_length. lia.
  - rewrite Ek, items_goods' by done. apply Forall_map. eapply Forall_impl; [exact Hk|by intros c []].
  - intros Hlong. subst t. unfold boundedText in *. destruct (Nat.leb_spec (String.length (strip_controls s)) max); [lia|].
    destruct (trim_invalid_spec max (strip_controls s)) as [_ (m & Hm & E & Hmax)]. rewrite E, str_take_length.
    rewrite El in *. destruct (boundary l max Hc ltac:(lia)) as (a & b & -> & Hb).
    apply Forall_app in Hc as [Hca _].
    specialize (Hmax (String.length (goods a)) ltac:(lia)). rewrite goods_app, str_take_app, Nat.sub_diag in Hmax.
    rewrite str_take_all in Hmax by done. cbn in Hmax. destruct (goods b) in Hmax; cbn in Hmax; rewrite app_nil_r_str in Hmax;
      specialize (Hmax (valid_goods a Hca)); lia.
  - intros Hvs Hns Hlen. destruct (valid_chunks s Hvs) as (ks & Hks & Es & Ei).
    assert (strip_controls s = s) as Hid.
    { unfold strip_controls. rewrite Ei. rewrite Ei in Hns. rewrite Es. clear -Hns.
      induction ks as [|c ks IH]; [done|]. cbn [map] in *. apply Forall_cons in Hns as [Hn Hns].
      cbn [goods]. rewrite <- IH by done. cbn [mapped]. rewrite Hn. by destruct ks; [rewrite app_nil_r_str|]. }
    subst t. unfold boundedText. rewrite Hid. by rewrite (proj2 (Nat.leb_le _ _) Hlen).
Qed.
