(* ===== verification/UsageLog.v ===== *)
(** * The operation history: rows, retention policy and operations

    [model/usage_log.go], [model/usage_policy.go] and [usage/operation.go].  An
    [Operation] collects facts about one request under its own lock; every setter is a
    function on it, and [finish] freezes it.  A nil operation ignores every call and is
    left out.

    [usage] stands for what the code uses of JSON and of time parsing: the lengths of
    encodings (compared with limits) and the parser of a time stamp.  Metadata is kept
    as the map that is encoded. *)

From S2P Require Import Prelude GoStrings Text.

(** ** Rows *)

Inductive md_value := MdBool (b : bool) | MdInt (n : Z) | MdText (s : string) | MdTime (t : time).
Abbreviation metadata := (gmap string md_value) (only parsing).

(** The descriptive columns, which a later write replaces together. *)
Record Facts := MkFacts {
  LegacyAuditEventID : option Z;
  ResourceType : string; ResourceID : option Z; ResourceNameSnapshot : string;
  ServerID : option Z; UserID : option Z; UsernameSnapshot : string;
  APIKeyID : option Z; APIKeyNameSnapshot : string; APIKeyPrefixSnapshot : string;
  RequestID : string; Method : string; RoutePattern : string;
  HTTPStatus : option Z; ClientAddress : string; ExitCode : option Z; UpstreamStatus : option Z;
  ErrorReason : string; Metadata : gmap string md_value }.

Record UsageLog := MkUsageLog {
  ID : Z;
  OperationID : string;
  StartedAt : time; FinishedAt : option time; DurationMS : option Z;
  RecordedAt : time; ReconciledAt : option time; RetentionAt : option time;
  Outcome : string; Phase : string; StateSeq : Z; RecoveryReason : string;
  Action : string; AuthType : string; Source : string;
  OwnerInstanceID : option string;
  facts : Facts }.

Class usage := {
  metadata_size : gmap string md_value -> Z;
  usage_size : UsageLog -> Z;
  usage_size_nonneg row : 0 <= usage_size row;
  ParseTime : string -> option time }.

(** ** Retention *)

Definition Day : duration := 24 * Hour.
Definition DefaultUsageLeaseDuration : duration := Minute.
Definition DefaultUsageOrdinaryRetention : duration := 30 * Day.
Definition DefaultUsageSensitiveRetention : duration := 90 * Day.
Definition usageSensitiveActions : list string :=
  ["settings.update"; "credential.reveal"; "api_key.rotate"; "api_key.permissions.update"; "api_key.reveal";
   "service.credentials"; "server.host_key.trust"].

Record UsagePolicy := MkUsagePolicy {
  LeaseDuration : duration; OrdinaryRetention : duration; SensitiveRetention : duration }.

Definition WithDefaults (p : UsagePolicy) : UsagePolicy :=
  MkUsagePolicy
    (if LeaseDuration p <=? 0 then DefaultUsageLeaseDuration else LeaseDuration p)
    (if OrdinaryRetention p <=? 0 then DefaultUsageOrdinaryRetention else OrdinaryRetention p)
    (if SensitiveRetention p <=? 0 then DefaultUsageSensitiveRetention else SensitiveRetention p).

Definition UsageActionSensitive (action : string) : bool :=
  HasSuffix ".delete" action || existsb (String.eqb action) usageSensitiveActions.

Definition Retention (p : UsagePolicy) (action : string) : duration :=
  let p := WithDefaults p in
  if String.eqb action "settings.update" then Z.max (SensitiveRetention p) DefaultUsageSensitiveRetention
  else if UsageActionSensitive action then SensitiveRetention p
  else OrdinaryRetention p.

Lemma Retention_pos p a : 0 < Retention p a.
Proof.
  assert (forall x d, 0 < d -> 0 < (if x <=? 0 then d else x)) as H.
  { intros x d Hd. destruct (x <=? 0) eqn:E; bools; lia. }
  unfold Retention. cbn.
  destruct (String.eqb _ _); [|destruct (UsageActionSensitive a)]; try (apply H; done).
  apply Z.max_lt_iff. right. done.
Qed.

(** ** Labels *)

Definition safeMethod (s : string) : string :=
  if existsb (String.eqb s) ["GET"; "HEAD"; "POST"; "PUT"; "PATCH"; "DELETE"; "OPTIONS"; "CONNECT"; "TRACE"]
  then s else "".
Definition validFinal (s : string) : bool :=
  existsb (String.eqb s) ["succeeded"; "failed"; "rejected"; "cancelled"; "unknown"].

Definition reasons : list string :=
  ["sftp_invalid_upload"; "sftp_upload_expired"; "sftp_checksum_mismatch"; "sftp_text_too_large"; "sftp_not_text";
   "sftp_not_directory"; "sftp_invalid_range";
   "sftp_invalid_path"; "sftp_not_found"; "sftp_permission_denied"; "sftp_exists"; "sftp_conflict"; "sftp_not_empty";
   "sftp_busy"; "sftp_too_large"; "sftp_directory_too_large"; "sftp_unavailable"; "sftp_failed"; "sftp_not_regular";
   "sftp_atomic_unsupported"; "sftp_size_mismatch";
   "api_key_revision_conflict"; "api_key_permissions_changed"; "unauthorized"; "invalid_credentials";
   "current_password_incorrect"; "forbidden"; "not_found"; "conflict"; "validation_failed"; "internal_error";
   "rate_limited"; "invalid_request"; "invalid_server_id"; "invalid_service_id"; "invalid_credential_id";
   "invalid_key_id"; "invalid_relay_request"; "invalid_relay_path"; "invalid_scopes"; "scopes_required";
   "servers_not_found"; "method_required"; "command_required"; "service_not_found"; "credential_not_found";
   "api_key_not_found"; "raw_key_unavailable"; "credential_decrypt_failed"; "api_key_server_denied";
   "api_key_service_denied"; "relay_timeout"; "relay_unreachable"; "invalid_query"; "ssh_connection_failed";
   "ssh_authentication_failed"; "ssh_timeout"; "ssh_host_key_mismatch"; "no_host_key_mismatch"; "host_key_changed";
   "request_rejected"; "client_cancelled"; "relay_copy_failed"; "relay_upstream_failed"; "terminal_auth_timeout";
   "terminal_auth_failed"; "terminal_ssh_failed"; "terminal_transport_failed"; "terminal_closed";
   "terminal_cancelled"; "websocket_upgrade_failed"; "ssh_nonzero_exit"; "client_closed"; "remote_closed";
   "normal_close"; "transport_error"; "ssh_error"; "server_shutdown";
   "terminal_permission_denied"; "terminal_input_failed"; "terminal_output_failed"; "terminal_resize_failed";
   "terminal_keepalive_failed"; "terminal_keepalive_timeout"; "terminal_transport_timeout"; "ssh_host_key_unverified";
   "invalid_connection_config"; "connection_config_changed"; "connection_in_use"; "proxy_connection_failed";
   "proxy_auth_failed"; "proxy_connect_rejected"; "jump_forward_failed";
   "relay_budget_exceeded"; "relay_idle_timeout";
   "session_revoked"; "revoked"; "terminal_cleanup_incomplete"].
Definition safeReason (reason : string) : string :=
  if String.eqb reason "" then ""
  else if existsb (String.eqb reason) reasons then reason else "internal_error".

(** ** Addresses: [net.ParseIP] *)

Definition all_digits (s : string) : bool := all_bytes (fun c => in_range 48 57 c) s.
Definition ipv4_field (s : string) : bool :=
  negb (String.eqb s "") && all_digits s && Nat.leb (String.length s) 3
  && (String.eqb s "0" || negb (HasPrefix "0" s))
  && match ParseUint s with Some n => n <=? 255 | None => false end.
Definition is_ipv4 (s : string) : bool :=
  let f := split_on (ascii_of_nat 46) s in Nat.eqb (List.length f) 4 && forallb ipv4_field f.
Definition ipv6_field (s : string) : bool :=
  negb (String.eqb s "") && Nat.leb (String.length s) 4 && all_bytes is_hex_digit s.

(** The 16-bit groups of a colon-separated list, the last of which may be an IPv4
    address when the list ends the string. *)
Fixpoint ipv6_groups (ends : bool) (l : list string) : option Z :=
  match l with
  | [] => Some 0
  | f :: l' =>
      if ends && bool_decide (l' = []) && is_ipv4 f then Some 2
      else if ipv6_field f then option_map (Z.add 1) (ipv6_groups ends l') else None
  end.
Definition colon_list (s : string) : list string :=
  if String.eqb s "" then [] else split_on (ascii_of_nat 58) s.

(** The text before and after the first double colon. *)
Fixpoint cut_ellipsis (s : string) : option (string * string) :=
  match s with
  | String a ((String b r) as t) =>
      if Ascii.eqb a (ascii_of_nat 58) && Ascii.eqb b (ascii_of_nat 58) then Some ("", r)
      else option_map (fun p => (String a p.1, p.2)) (cut_ellipsis t)
  | _ => None
  end.
Definition is_ipv6 (s : string) : bool :=
  match cut_ellipsis s with
  | None => match ipv6_groups true (colon_list s) with Some n => n =? 8 | None => false end
  | Some (a, b) =>
      match ipv6_groups false (colon_list a), ipv6_groups true (colon_list b) with
      | Some n, Some m => n + m <=? 7
      | _, _ => false
      end
  end.
Definition ParseIP (s : string) : bool := is_ipv4 s || is_ipv6 s.

(** ** Operations *)

Record Principal := MkPrincipal {
  P_AuthType : string; P_UserID : option Z; Username : string; P_APIKeyID : option Z;
  APIKeyName : string; APIKeyPrefix : string; Role : string; ServerIDs : list Z; Scopes : list string;
  PermissionsRevision : Z }.
Definition no_principal : Principal := MkPrincipal "unauthenticated" None "" None "" "" "" [] [] 0.

Record Operation := MkOperation {
  row : UsageLog; principal : Principal; started : time; op_metadata : gmap string md_value;
  finished : bool; beginAttempted : bool; captureDecided : bool; admitted : bool }.

(** Updates of an operation's row. *)
Definition with_row (f : UsageLog -> UsageLog) (op : Operation) : Operation :=
  MkOperation (f (row op)) (principal op) (started op) (op_metadata op) (finished op) (beginAttempted op)
    (captureDecided op) (admitted op).
Definition with_metadata (f : gmap string md_value -> gmap string md_value) (op : Operation) : Operation :=
  MkOperation (row op) (principal op) (started op) (f (op_metadata op)) (finished op) (beginAttempted op)
    (captureDecided op) (admitted op).
Definition with_principal (p : Principal) (op : Operation) : Operation :=
  MkOperation (row op) p (started op) (op_metadata op) (finished op) (beginAttempted op)
    (captureDecided op) (admitted op).
Definition with_capture (begun decided adm : bool) (op : Operation) : Operation :=
  MkOperation (row op) (principal op) (started op) (op_metadata op) (finished op) begun decided adm.
Definition with_finished (op : Operation) : Operation :=
  MkOperation (row op) (principal op) (started op) (op_metadata op) true (beginAttempted op)
    (captureDecided op) (admitted op).

Definition with_facts (f : Facts -> Facts) (r : UsageLog) : UsageLog :=
  MkUsageLog (ID r) (OperationID r) (StartedAt r) (FinishedAt r) (DurationMS r) (RecordedAt r) (ReconciledAt r)
    (RetentionAt r) (Outcome r) (Phase r) (StateSeq r) (RecoveryReason r) (Action r) (AuthType r) (Source r)
    (OwnerInstanceID r) (f (facts r)).
Definition with_outcome (o p : string) (r : UsageLog) : UsageLog :=
  MkUsageLog (ID r) (OperationID r) (StartedAt r) (FinishedAt r) (DurationMS r) (RecordedAt r) (ReconciledAt r)
    (RetentionAt r) o p (StateSeq r) (RecoveryReason r) (Action r) (AuthType r) (Source r) (OwnerInstanceID r) (facts r).
Definition next_seq (r : UsageLog) : UsageLog :=
  MkUsageLog (ID r) (OperationID r) (StartedAt r) (FinishedAt r) (DurationMS r) (RecordedAt r) (ReconciledAt r)
    (RetentionAt r) (Outcome r) (Phase r) (wrapu64 (StateSeq r + 1)) (RecoveryReason r) (Action r) (AuthType r)
    (Source r) (OwnerInstanceID r) (facts r).
Definition with_auth (a : string) (r : UsageLog) : UsageLog :=
  MkUsageLog (ID r) (OperationID r) (StartedAt r) (FinishedAt r) (DurationMS r) (RecordedAt r) (ReconciledAt r)
    (RetentionAt r) (Outcome r) (Phase r) (StateSeq r) (RecoveryReason r) (Action r) a (Source r) (OwnerInstanceID r)
    (facts r).
Definition with_owner (o : option string) (r : UsageLog) : UsageLog :=
  MkUsageLog (ID r) (OperationID r) (StartedAt r) (FinishedAt r) (DurationMS r) (RecordedAt r) (ReconciledAt r)
    (RetentionAt r) (Outcome r) (Phase r) (StateSeq r) (RecoveryReason r) (Action r) (AuthType r) (Source r) o (facts r).
Definition with_end (t : time) (ms : Z) (r : UsageLog) : UsageLog :=
  MkUsageLog (ID r) (OperationID r) (StartedAt r) (Some t) (Some ms) (RecordedAt r) (ReconciledAt r) (Some t)
    (Outcome r) (Phase r) (StateSeq r) (RecoveryReason r) (Action r) (AuthType r) (Source r) (OwnerInstanceID r) (facts r).

Definition set_resource kind id name srv (f : Facts) : Facts :=
  MkFacts (LegacyAuditEventID f) kind id name srv (UserID f) (UsernameSnapshot f) (APIKeyID f)
    (APIKeyNameSnapshot f) (APIKeyPrefixSnapshot f) (RequestID f) (Method f) (RoutePattern f) (HTTPStatus f)
    (ClientAddress f) (ExitCode f) (UpstreamStatus f) (ErrorReason f) (Metadata f).
Definition set_identity_facts uid uname kid kname kprefix (f : Facts) : Facts :=
  MkFacts (LegacyAuditEventID f) (ResourceType f) (ResourceID f) (ResourceNameSnapshot f) (ServerID f) uid uname kid
    kname kprefix (RequestID f) (Method f) (RoutePattern f) (HTTPStatus f)
    (ClientAddress f) (ExitCode f) (UpstreamStatus f) (ErrorReason f) (Metadata f).
Definition set_reason r (f : Facts) : Facts :=
  MkFacts (LegacyAuditEventID f) (ResourceType f) (ResourceID f) (ResourceNameSnapshot f) (ServerID f) (UserID f)
    (UsernameSnapshot f) (APIKeyID f) (APIKeyNameSnapshot f) (APIKeyPrefixSnapshot f) (RequestID f) (Method f)
    (RoutePattern f) (HTTPStatus f) (ClientAddress f) (ExitCode f) (UpstreamStatus f) r (Metadata f).
Definition set_status s (f : Facts) : Facts :=
  MkFacts (LegacyAuditEventID f) (ResourceType f) (ResourceID f) (ResourceNameSnapshot f) (ServerID f) (UserID f)
    (UsernameSnapshot f) (APIKeyID f) (APIKeyNameSnapshot f) (APIKeyPrefixSnapshot f) (RequestID f) (Method f)
    (RoutePattern f) s (ClientAddress f) (ExitCode f) (UpstreamStatus f) (ErrorReason f) (Metadata f).
Definition set_exit c (f : Facts) : Facts :=
  MkFacts (LegacyAuditEventID f) (ResourceType f) (ResourceID f) (ResourceNameSnapshot f) (ServerID f) (UserID f)
    (UsernameSnapshot f) (APIKeyID f) (APIKeyNameSnapshot f) (APIKeyPrefixSnapshot f) (RequestID f) (Method f)
    (RoutePattern f) (HTTPStatus f) (ClientAddress f) c (UpstreamStatus f) (ErrorReason f) (Metadata f).
Definition set_upstream u (f : Facts) : Facts :=
  MkFacts (LegacyAuditEventID f) (ResourceType f) (ResourceID f) (ResourceNameSnapshot f) (ServerID f) (UserID f)
    (UsernameSnapshot f) (APIKeyID f) (APIKeyNameSnapshot f) (APIKeyPrefixSnapshot f) (RequestID f) (Method f)
    (RoutePattern f) (HTTPStatus f) (ClientAddress f) (ExitCode f) u (ErrorReason f) (Metadata f).
Definition set_facts_metadata m (f : Facts) : Facts :=
  MkFacts (LegacyAuditEventID f) (ResourceType f) (ResourceID f) (ResourceNameSnapshot f) (ServerID f) (UserID f)
    (UsernameSnapshot f) (APIKeyID f) (APIKeyNameSnapshot f) (APIKeyPrefixSnapshot f) (RequestID f) (Method f)
    (RoutePattern f) (HTTPStatus f) (ClientAddress f) (ExitCode f) (UpstreamStatus f) (ErrorReason f) m.

(** [uuid] is the random identifier [newUUID] draws. *)
Definition NewOperation (uuid action route requestID method client : string) (now : time) : Operation :=
  let client := default client (SplitHost client) in
  let client := if ParseIP client then client else "" in
  MkOperation
    (MkUsageLog 0 uuid now None None now None None "running" "preparing" 1 "" (boundedText action 96)
       "unauthenticated" "operation" None
       (MkFacts None "" None "" None None "" None "" "" (boundedText requestID 128) (safeMethod method)
          (boundedText route 256) None client None None "" ∅))
    no_principal now ∅ false false false false.

Definition nonzero (id : option Z) : option Z := match id with Some 0 => None | _ => id end.

(** The answer tells whether the code goes on to [AdmitShort]. *)
Definition SetPrincipal (p : Principal) (op : Operation) : bool * Operation :=
  if negb (String.eqb (P_AuthType p) "jwt" || String.eqb (P_AuthType p) "api_key") then (false, op)
  else if finished op || negb (String.eqb (AuthType (row op)) "unauthenticated") then (false, op)
  else
    let jwt := String.eqb (P_AuthType p) "jwt" in
    let p := MkPrincipal (P_AuthType p) (nonzero (P_UserID p)) (boundedText (Username p) 256)
               (if jwt then None else nonzero (P_APIKeyID p))
               (boundedText (if jwt then "" else APIKeyName p) 256)
               (boundedText (if jwt then "" else APIKeyPrefix p) 32)
               (Role p) (ServerIDs p) (Scopes p) (PermissionsRevision p) in
    (true, with_row (fun r => next_seq (with_facts (set_identity_facts (P_UserID p) (Username p) (P_APIKeyID p)
                                (APIKeyName p) (APIKeyPrefix p)) (with_auth (P_AuthType p) r)))
             (with_principal p op)).

Definition SetResource (kind : string) (id : option Z) (name : string) (srv : option Z) (op : Operation) : Operation :=
  if finished op then op
  else with_row (fun r => next_seq (with_facts (set_resource (boundedText kind 64) (nonzero id)
                            (boundedText name 256) (nonzero srv)) r)) op.

Definition SetResult (outcome reason : string) (op : Operation) : Operation :=
  if negb (validFinal outcome) then op
  else if finished op then op
  else with_row (fun r => next_seq (with_facts (set_reason (safeReason reason)) (with_outcome outcome (Phase r) r))) op.

Definition http_status (s : Z) : bool := (100 <=? s) && (s <=? 599).

Definition SetHTTPStatus (status : Z) (op : Operation) : Operation :=
  if negb (http_status status) then op
  else if finished op then op
  else with_row (fun r => next_seq (with_facts (set_status (Some status)) r)) op.

Definition SetHTTPError (status : Z) (reason : string) (op : Operation) : Operation :=
  if finished op then op
  else if negb (String.eqb (Outcome (row op)) "running") then
    if String.eqb (Outcome (row op)) "succeeded"
    then with_metadata (<["response_write_failed" := MdBool true]>) op else op
  else if status <? 400 then op
  else with_row (fun r => next_seq (with_facts (set_reason (safeReason reason))
                            (with_outcome (if 500 <=? status then "failed" else "rejected") (Phase r) r))) op.

Definition SetExecResult (code : option Z) (op : Operation) : Operation :=
  if finished op then op else with_row (fun r => next_seq (with_facts (set_exit code) r)) op.

Definition SetRelayResult (status bytes : Z) (op : Operation) : Operation :=
  if finished op then op
  else
    let op := if http_status status then with_row (with_facts (set_upstream (Some status))) op else op in
    let op := if 0 <=? bytes then with_metadata (<["bytes_copied" := MdInt bytes]>) op else op in
    with_row next_seq op.

(** The answer tells whether the code goes on to [schedulePhase]. *)
Definition SetPhase (phase : string) (now : time) (op : Operation) : bool * Operation :=
  if negb (existsb (String.eqb phase) ["preparing"; "handshake"; "authenticated"; "ready"]) then (false, op)
  else if finished op || String.eqb (Phase (row op)) phase then (false, op)
  else
    let op := with_row (fun r => next_seq (with_outcome (Outcome r) phase r)) op in
    let key := (phase +:+ "_at")%string in
    let op := if negb (String.eqb phase "preparing") && bool_decide (op_metadata op !! key = None)
              then with_metadata (<[key := MdTime now]>) op else op in
    (admitted op, op).

(** A value of Go's empty interface, as far as [normalizeMetadata] tells them apart. *)
Inductive any := AString (s : string) | ABool (b : bool) | AInt (n : Z) | AUint (n : Z) | AUint64 (n : Z) | ATime (t : time) | AOther.

Definition is_decimal (v : string) : bool :=
  match ParseUint v with
  | Some n => (0 <? n) && (n <=? int64_max) && String.eqb (FormatUint n) v
  | None => false
  end.

Definition normalizeMetadata `{usage} (key : string) (value : any) : option md_value :=
  let one_of l := match value with AString v => if existsb (String.eqb v) l then Some (MdText v) else None | _ => None end in
  if existsb (String.eqb key) ["permissions_revision_before"; "permissions_revision_after"] then
    match value with AString v => if is_decimal v then Some (MdText v) else None | _ => None end
  else if existsb (String.eqb key) ["response_write_failed"; "cleanup_pending"] then
    match value with ABool b => Some (MdBool b) | _ => None end
  else if String.eqb key "cleanup_reason" then one_of ["terminal_cleanup_incomplete"]
  else if existsb (String.eqb key) ["handshake_at"; "authenticated_at"; "ready_at"; "closed_at"] then
    match value with
    | ATime t => Some (MdTime t)
    | AString v => option_map MdTime (ParseTime v)
    | _ => None
    end
  else if String.eqb key "method" then
    match value with AString v => if String.eqb (safeMethod v) "" then None else Some (MdText v) | _ => None end
  else if String.eqb key "connection_mode" then one_of ["direct"; "ssh_jump"; "socks5"]
  else if String.eqb key "connection_role" then one_of ["target"; "jump"; "proxy"]
  else if String.eqb key "connection_stage" then
    one_of ["proxy_connect"; "proxy_auth"; "proxy_request"; "proxy_connect_request"; "jump_connect"; "jump_auth";
            "jump_forward"; "target_connect"; "target_auth"; "target_host_key"; "jump_host_key"; "target_handshake";
            "jump_handshake"; "proxy_handshake"]
  else if String.eqb key "close_reason" then
    match value with AString v => if String.eqb (safeReason v) v then Some (MdText v) else None | _ => None end
  else if existsb (String.eqb key) ["timeout_seconds"; "exit_code"; "bytes_copied"; "http_status"; "upstream_status";
                                    "connection_revision"; "jump_server_id"] then
    match (match value with
           | AInt n => Some n
           | AUint n => Some (wrap64 n)
           | AUint64 n => if int64_max <? n then None else Some n
           | _ => None
           end) with
    | None => None
    | Some n =>
        if String.eqb key "timeout_seconds" && ((n <? 0) || (86400 <? n)) then None
        else if String.eqb key "bytes_copied" && (n <? 0) then None
        else if (String.eqb key "connection_revision" || String.eqb key "jump_server_id") && (n <=? 0) then None
        else if (String.eqb key "http_status" || String.eqb key "upstream_status") && negb (http_status n) then None
        else Some (MdInt n)
    end
  else None.

Definition SetMetadata `{usage} (key : string) (value : any) (op : Operation) : Operation :=
  match normalizeMetadata key value with
  | None => op
  | Some v => if finished op then op else with_row next_seq (with_metadata (<[key := v]>) op)
  end.

(** A business result set before the end is not shown until [finish]. *)
Definition snapshotLocked `{usage} (op : Operation) : UsageLog :=
  let r := row op in
  let r := if finished op then r else with_facts (set_reason "") (with_outcome "running" (Phase r) r) in
  let md := op_metadata op ∪ {["version" := MdInt 1]} in
  with_facts (set_facts_metadata (if 4096 <? metadata_size md then {["version" := MdInt 1]} else md)) r.

Definition finish_outcome (status : Z) (r : UsageLog) : UsageLog :=
  if negb (String.eqb (Outcome r) "running") then r
  else if 500 <=? status then with_facts (set_reason "internal_error") (with_outcome "failed" (Phase r) r)
  else if 400 <=? status then with_facts (set_reason "request_rejected") (with_outcome "rejected" (Phase r) r)
  else with_outcome "succeeded" (Phase r) r.

Definition finish_op `{usage} (status : Z) (now : time) (op : Operation) : option UsageLog * Operation :=
  if finished op then (None, op)
  else
    let fill r := if bool_decide (HTTPStatus (facts r) = None) && http_status status
                  then with_facts (set_status (Some status)) r else r in
    let close r := let r := finish_outcome status (fill r) in
                   next_seq (with_outcome (Outcome r) "closed"
                     (with_end now (Z.quot (TimeSub now (started op)) Millisecond) r)) in
    let op := with_metadata (<["closed_at" := MdTime now]>) (with_row close (with_finished op)) in
    (Some (snapshotLocked op), op).

Definition refreshRunning `{usage} (op : Operation) : option UsageLog * Operation :=
  if finished op then (None, op)
  else let op := with_row next_seq op in (Some (snapshotLocked op), op).

(** ** A simple encoding, for runs *)
Definition plain_json : usage :=
  {| metadata_size := fun m => Z.of_nat (size m); usage_size := fun _ => 100; usage_size_nonneg := fun _ => ltac:(done);
     ParseTime := fun _ => None |}.
