(* ===== verification/UsageRepo.v ===== *)
(** * The operation history in the database (internal/repository/usage_log.go)

    Each function is one transaction of [UsageLogRepo] on the tables [usage_logs]
    (keyed by the unique operation id) and [usage_log_instances]; [now] is the
    database's clock.  Rows a [SKIP LOCKED] query passes over, because another
    transaction holds them, are arguments.  Time stamps keep their nanoseconds here
    (PostgreSQL rounds to microseconds; only [StartedAt], which the code truncates
    itself, is compared for equality). *)

From S2P Require Import Prelude GoStrings Text UsageLog.

Inductive usage_err :=
| ErrUsageOwnerMissing | ErrUsageOwnerRetired | ErrUsageLeaseExpired | ErrUsageInvalid | ErrUsagePermanent
| ErrUsageStorage | ErrRecordNotFound | ErrCanceled | ErrDeadlineExceeded.

#[export] Instance usage_err_eq : EqDecision usage_err.
Proof. solve_decision. Defined.

(** What the database layer may fail with: an error of this package's own, one of
    GORM's errors about the data, an SQLSTATE code, or anything else. *)
Inductive raw_err := Known (e : usage_err) | GormInvalid | SQLState (code : string) | OtherErr.

Definition usageErr (e : raw_err) : usage_err :=
  match e with
  | Known e => e
  | GormInvalid => ErrUsageInvalid
  | SQLState code =>
      if Nat.leb 2 (String.length code) then
        if existsb (String.eqb (str_take 2 code)) ["22"; "23"] then ErrUsageInvalid
        else if existsb (String.eqb (str_take 2 code)) ["0A"; "28"; "3D"; "3F"; "42"] then ErrUsagePermanent
        else ErrUsageStorage
      else ErrUsageStorage
  | OtherErr => ErrUsageStorage
  end.

Record UsageLogInstance := MkInstance { LastSeenAt : time; LeaseUntil : time; RetiredAt : option time }.

Record db := MkDb {
  logs : gmap string UsageLog;
  instances : gmap string UsageLogInstance;
  next_id : Z;
  backfill_completed : bool }.

Record UsageLogRepoConfig := MkRepoConfig {
  rc_LeaseDuration : duration; rc_OrdinaryRetention : duration; rc_SensitiveRetention : duration;
  ReconcileGrace : duration; BatchSize : nat }.

Definition positive_or (v d : Z) : Z := if 0 <? v then v else d.
Definition NewUsageLogRepo (c : UsageLogRepoConfig) : UsageLogRepoConfig :=
  let p := WithDefaults (MkUsagePolicy (positive_or (rc_LeaseDuration c) 0) (positive_or (rc_OrdinaryRetention c) 0)
             (positive_or (rc_SensitiveRetention c) 0)) in
  MkRepoConfig (LeaseDuration p) (OrdinaryRetention p) (SensitiveRetention p)
    (positive_or (ReconcileGrace c) (30 * Second)) (if Nat.ltb 0 (BatchSize c) then BatchSize c else 200).

(** [UsageRetentionDays] and [UsageSensitiveRetentionDays] of the runtime settings. *)
Definition retentionPolicy (runtime : option (Z * Z)) (c : UsageLogRepoConfig) : UsagePolicy :=
  WithDefaults match runtime with
  | Some (days, sensitive) => MkUsagePolicy 0 (wrap64 (days * Day)) (wrap64 (sensitive * Day))
  | None => MkUsagePolicy 0 (rc_OrdinaryRetention c) (rc_SensitiveRetention c)
  end.

(** ** Owners *)

Definition set_logs (l : gmap string UsageLog) (d : db) : db :=
  MkDb l (instances d) (next_id d) (backfill_completed d).
Definition set_instances (i : gmap string UsageLogInstance) (d : db) : db :=
  MkDb (logs d) i (next_id d) (backfill_completed d).

Definition lockOwner (id : string) (valid : bool) (now : time) (d : db) : result usage_err UsageLogInstance :=
  match instances d !! id with
  | None => Err ErrUsageOwnerMissing
  | Some o =>
      if bool_decide (RetiredAt o <> None) then Err ErrUsageOwnerRetired
      else if valid && negb (After (LeaseUntil o) now) then Err ErrUsageLeaseExpired
      else Ok o
  end.

Definition has_owner (id : string) (r : UsageLog) : bool := bool_decide (OwnerInstanceID r = Some id).
Definition rows (d : db) : list UsageLog := (map_to_list (logs d)).*2.

Definition RegisterInstance (c : UsageLogRepoConfig) (id : string) (now : time) (d : db) : result usage_err db :=
  match instances d !! id with
  | None =>
      if existsb (has_owner id) (rows d) then Err ErrUsageOwnerMissing
      else Ok (set_instances (<[id := MkInstance now (TimeAdd now (rc_LeaseDuration c)) None]> (instances d)) d)
  | Some _ => try _ := lockOwner id true now d in Ok d
  end.

Definition Heartbeat (c : UsageLogRepoConfig) (id : string) (now : time) (d : db) : result usage_err db :=
  try o := lockOwner id false now d in
  Ok (set_instances (<[id := MkInstance now (TimeAdd now (rc_LeaseDuration c)) (RetiredAt o)]> (instances d)) d).

(** ** Upsert *)

Definition recoveryUnknown (v : UsageLog) : bool :=
  String.eqb (Outcome v) "unknown" &&
  (String.eqb (RecoveryReason v) "owner_lease_expired" || String.eqb (RecoveryReason v) "finalization_unavailable").

Definition outcomes : list string := ["running"; "succeeded"; "failed"; "rejected"; "cancelled"; "unknown"].

Definition normalized (v : UsageLog) (finished duration reconciled retention : option Z) (reason : string) : UsageLog :=
  MkUsageLog (ID v) (OperationID v) (StartedAt v - StartedAt v mod 1000) finished duration (RecordedAt v) reconciled
    retention (Outcome v) (Phase v) (StateSeq v) reason (Action v)
    (if String.eqb (AuthType v) "" then "unauthenticated" else AuthType v)
    (if String.eqb (Source v) "" then "operation" else Source v) (OwnerInstanceID v) (facts v).

(** Lines 184-223, before the transaction. *)
Definition upsert_prepare `{usage} (v : UsageLog) : result usage_err UsageLog :=
  if String.eqb (OperationID v) "" || IsZero (StartedAt v) || String.eqb (Action v) "" then Err ErrUsageInvalid
  else if negb (existsb (String.eqb (Outcome v)) outcomes) then Err ErrUsageInvalid
  else if String.eqb (Outcome v) "running" && bool_decide (OwnerInstanceID v = None) then Err ErrUsageOwnerMissing
  else if 4096 <? metadata_size (Metadata (facts v)) then Err ErrUsageInvalid
  else if String.eqb (Outcome v) "running" then Ok (normalized v None None None None "")
  else if bool_decide (FinishedAt v <> None) then
    Ok (normalized v (FinishedAt v) (DurationMS v) (ReconciledAt v) (FinishedAt v) (RecoveryReason v))
  else if String.eqb (Source v) "audit_legacy" then
    Ok (normalized v None (DurationMS v) (ReconciledAt v) (Some (StartedAt v - StartedAt v mod 1000)) (RecoveryReason v))
  else if bool_decide (ReconciledAt v <> None) then
    Ok (normalized v None (DurationMS v) (ReconciledAt v) (ReconciledAt v) (RecoveryReason v))
  else Err ErrUsageInvalid.

(** The columns the update writes; the others stay. *)
Definition upsert_values (v old : UsageLog) : UsageLog :=
  MkUsageLog (ID old) (OperationID old) (StartedAt old) (FinishedAt v) (DurationMS v) (RecordedAt old) (ReconciledAt v)
    (RetentionAt v) (Outcome v) (Phase v) (StateSeq v) (RecoveryReason v) (Action old) (AuthType old) (Source old)
    (OwnerInstanceID old) (facts v).

Definition created (v : UsageLog) (now : time) (d : db) : UsageLog :=
  MkUsageLog (next_id d) (OperationID v) (StartedAt v) (FinishedAt v) (DurationMS v) now (ReconciledAt v) (RetentionAt v)
    (Outcome v) (Phase v) (StateSeq v) (RecoveryReason v) (Action v) (AuthType v) (Source v) (OwnerInstanceID v) (facts v).

Definition expired (p : UsagePolicy) (v : UsageLog) (now : time) : bool :=
  match RetentionAt v with
  | Some t => negb (After (TimeAdd t (Retention p (Action v))) now)
  | None => false
  end.

Definition upsert_tx (p : UsagePolicy) (v : UsageLog) (now : time) (d : db) : result usage_err db :=
  try _ := (match OwnerInstanceID v with Some id => lockOwner id true now d | None => Ok (MkInstance 0 0 None) end) in
  match logs d !! OperationID v with
  | None =>
      if expired p v now then Ok d
      else Ok (MkDb (<[OperationID v := created v now d]> (logs d)) (instances d) (next_id d + 1) (backfill_completed d))
  | Some old =>
      if negb (StartedAt old =? StartedAt v) || negb (String.eqb (AuthType old) (AuthType v))
         || negb (String.eqb (Source old) (Source v)) || negb (bool_decide (OwnerInstanceID old = OwnerInstanceID v))
      then Err ErrUsageInvalid
      else if negb (String.eqb (Outcome old) "running") && negb (recoveryUnknown old) then Ok d
      else if StateSeq v <=? StateSeq old then Ok d
      else if recoveryUnknown old && String.eqb (Outcome v) "running"
              && negb (String.eqb (RecoveryReason old) "owner_lease_expired") then Ok d
      else Ok (set_logs (<[OperationID v := upsert_values v old]> (logs d)) d)
  end.

Definition Upsert `{usage} (p : UsagePolicy) (v : UsageLog) (now : time) (d : db) : result usage_err db :=
  try v := upsert_prepare v in upsert_tx p v now d.

(** ** Reconciliation *)

Definition by_id (a b : UsageLog) : Prop := ID a <= ID b.
#[export] Instance by_id_dec a b : Decision (by_id a b) := decide (ID a <= ID b).
Definition ordered (l : list UsageLog) : list UsageLog := merge_sort by_id l.

Definition OwnerUnknown (c : UsageLogRepoConfig) (id : string) (d : db) : list string :=
  map OperationID (take (BatchSize c) (ordered (filter (fun r =>
    has_owner id r && String.eqb (Outcome r) "unknown" && String.eqb (RecoveryReason r) "owner_lease_expired" = true)
    (rows d)))).

(** Lines 376-399: what the owner's row says under its lock, or that there is nothing
    to do. *)
Inductive owner_state := OwnerMissing | OwnerStale | OwnerHealthy.
#[export] Instance owner_state_eq : EqDecision owner_state.
Proof. solve_decision. Defined.
Definition reconcile_owner (self id : string) (now : time) (d : db) : option owner_state :=
  match instances d !! id with
  | None => Some OwnerMissing
  | Some o =>
      if bool_decide (RetiredAt o <> None) || negb (After (LeaseUntil o) now) then Some OwnerStale
      else if String.eqb id self then Some OwnerHealthy else None
  end.

Definition is_running (r : UsageLog) : bool := String.eqb (Outcome r) "running".
Definition lease_expired (r : UsageLog) : bool :=
  String.eqb (Outcome r) "unknown" && String.eqb (RecoveryReason r) "owner_lease_expired".

(** The rows lines 408-421 select and the loop does not skip. *)
Definition reconcile_selects (c : UsageLogRepoConfig) (id : string) (s : owner_state) (tracked : list string)
    (now : time) (r : UsageLog) : bool :=
  has_owner id r &&
  match s with
  | OwnerHealthy =>
      (is_running r || lease_expired r) && (RecordedAt r <=? now - ReconcileGrace c)
      && negb (bool_decide (OperationID r ∈ tracked))
  | _ => is_running r
  end.

Definition reconcile_reason (s : owner_state) : string :=
  match s with
  | OwnerMissing => "owner_missing" | OwnerStale => "owner_lease_expired" | OwnerHealthy => "finalization_unavailable"
  end.

Definition mark_unknown (reason : string) (now : time) (r : UsageLog) : UsageLog :=
  let first := bool_decide (ReconciledAt r = None) in
  MkUsageLog (ID r) (OperationID r) (StartedAt r) (FinishedAt r) (DurationMS r) (RecordedAt r)
    (if first then Some now else ReconciledAt r) (if first then Some now else RetentionAt r)
    "unknown" (Phase r) (StateSeq r) reason (Action r) (AuthType r) (Source r) (OwnerInstanceID r) (facts r).

Definition reconcile_rows (c : UsageLogRepoConfig) (id : string) (s : owner_state) (tracked : list string)
    (skip : string -> bool) (limit : nat) (now : time) (d : db) : list UsageLog :=
  take limit (ordered (filter (fun r => reconcile_selects c id s tracked now r && negb (skip (OperationID r)) = true)
    (rows d))).

(** Lines 400-443: the rows are marked; the answer counts them. *)
Definition reconcile_apply (c : UsageLogRepoConfig) (id : string) (s : owner_state) (tracked : list string)
    (skip : string -> bool) (limit : nat) (now : time) (d : db) : nat * db :=
  let marked := reconcile_rows c id s tracked skip limit now d in
  (List.length marked,
   set_logs (foldl (fun l r => alter (mark_unknown (reconcile_reason s) now) (OperationID r) l) (logs d) marked) d).

(** The owners of line 362, in the order the database returns them. *)
Definition reconcile_candidate (self : string) (now : time) (d : db) (r : UsageLog) : bool :=
  match OwnerInstanceID r with
  | None => false
  | Some id =>
      (is_running r && (match instances d !! id with
                        | None => true
                        | Some o => bool_decide (RetiredAt o <> None) || (LeaseUntil o <=? now) || String.eqb id self
                        end))
      || (String.eqb id self && lease_expired r)
  end.
Definition reconcile_owners (c : UsageLogRepoConfig) (self : string) (now : time) (d : db) : list string :=
  take (BatchSize c) (remove_dups (omap OwnerInstanceID
    (filter (fun r => reconcile_candidate self now d r = true) (rows d)))).

Fixpoint reconcile_loop (c : UsageLogRepoConfig) (self : string) (tracked : list string) (skip : string -> bool)
    (now : time) (owners : list string) (remaining : nat) (d : db) : db :=
  match owners with
  | [] => d
  | id :: owners =>
      if Nat.eqb remaining 0 then d
      else if String.eqb id "" then reconcile_loop c self tracked skip now owners remaining d
      else match reconcile_owner self id now d with
           | None => reconcile_loop c self tracked skip now owners remaining d
           | Some s =>
               let '(n, d) := reconcile_apply c id s tracked skip remaining now d in
               reconcile_loop c self tracked skip now owners (remaining - n) d
           end
  end.
Definition ReconcileTracked (c : UsageLogRepoConfig) (self : string) (tracked : list string) (skip : string -> bool)
    (now : time) (d : db) : db :=
  let self := if String.eqb self "" then "00000000-0000-0000-0000-000000000000" else self in
  reconcile_loop c self tracked skip now (reconcile_owners c self now d) (BatchSize c) d.

(** ** Cleanup *)

(** The predicate of the candidate query (line 489), in SQL's own terms. *)
Definition sql_retention (p : UsagePolicy) (action : string) : duration :=
  if String.eqb action "settings.update" then Retention p "settings.update"
  else if existsb (String.eqb action) usageSensitiveActions || HasSuffix ".delete" action
  then SensitiveRetention p else OrdinaryRetention p.

Definition owner_alive (now : time) (d : db) (r : UsageLog) : bool :=
  match OwnerInstanceID r with
  | Some id => match instances d !! id with
               | Some o => bool_decide (RetiredAt o = None) && After (LeaseUntil o) now
               | None => false
               end
  | None => false
  end.

Definition cleanup_candidate (p : UsagePolicy) (now : time) (d : db) (r : UsageLog) : bool :=
  negb (is_running r)
  && match RetentionAt r with Some t => t <=? now - sql_retention p (Action r) | None => false end
  && (negb (String.eqb (Source r) "audit_legacy") || backfill_completed d)
  && (negb (lease_expired r) || negb (owner_alive now d r)).

Definition retire (id : string) (now : time) (d : db) : db :=
  set_instances (alter (fun o => MkInstance (LastSeenAt o) (LeaseUntil o) (Some now)) id (instances d)) d.

(** Lines 560-578: the row's owner is locked first, if its row exists and nobody else
    holds it; an owner somebody else holds ends the transaction. *)
Definition cleanup_owner (v : UsageLog) (owner_locked : bool) (d : db) : option (string * UsageLogInstance) :=
  match OwnerInstanceID v with
  | Some id => if owner_locked then None else option_map (pair id) (instances d !! id)
  | None => None
  end.
Definition cleanup_skipped (v : UsageLog) (owner_locked : bool) (d : db) : bool :=
  match OwnerInstanceID v with
  | Some id => owner_locked && bool_decide (instances d !! id <> None)
  | None => false
  end.

(** Lines 551-618: every condition is checked again under the locks, and an owner that
    could still write the row again is retired before the row goes. *)
Definition cleanup_tx (p : UsagePolicy) (op : string) (owner_locked row_locked : bool) (now : time) (d : db) : db :=
  match logs d !! op with
  | None => d
  | Some v =>
      if cleanup_skipped v owner_locked d || row_locked then d
      else if is_running v then d
      else if match RetentionAt v with
              | None => true
              | Some t => After (TimeAdd t (Retention p (Action v))) now
              end then d
      else if String.eqb (Source v) "audit_legacy" && negb (backfill_completed d) then d
      else match (if lease_expired v then cleanup_owner v owner_locked d else None) with
           | Some (id, o) =>
               if bool_decide (RetiredAt o = None) then
                 if After (LeaseUntil o) now then d
                 else let d := retire id now d in set_logs (delete op (logs d)) d
               else set_logs (delete op (logs d)) d
           | None => set_logs (delete op (logs d)) d
           end
  end.

Definition instance_candidate (now : time) (d : db) (id : string) (o : UsageLogInstance) : bool :=
  (bool_decide (RetiredAt o <> None) || (LeaseUntil o <=? now)) && negb (existsb (has_owner id) (rows d)).

(** Lines 631-651. *)
Definition cleanup_instance_tx (id : string) (locked : bool) (now : time) (d : db) : db :=
  match instances d !! id with
  | None => d
  | Some o =>
      if locked then d
      else if bool_decide (RetiredAt o = None) && After (LeaseUntil o) now then d
      else if existsb (has_owner id) (rows d) then d
      else set_instances (delete id (instances d)) d
  end.

Definition by_retention (a b : UsageLog) : Prop :=
  default 0 (RetentionAt a) < default 0 (RetentionAt b)
  \/ (default 0 (RetentionAt a) = default 0 (RetentionAt b) /\ ID a <= ID b).
#[export] Instance by_retention_dec a b : Decision (by_retention a b).
Proof. unfold by_retention. apply _. Defined.

Definition by_lease (a b : string * UsageLogInstance) : Prop :=
  LeaseUntil a.2 < LeaseUntil b.2 \/ (LeaseUntil a.2 = LeaseUntil b.2 /\ String.leb a.1 b.1 = true).
#[export] Instance by_lease_dec a b : Decision (by_lease a b).
Proof. unfold by_lease. apply _. Defined.

Definition Cleanup (c : UsageLogRepoConfig) (p : UsagePolicy) (now : time) (d : db) : db :=
  let ids := map OperationID (take (BatchSize c) (merge_sort by_retention
               (filter (fun r => cleanup_candidate p now d r = true) (rows d)))) in
  let d := foldl (fun d op => cleanup_tx p op false false now d) d ids in
  let owners := take (BatchSize c) (merge_sort by_lease
                  (filter (fun kv => instance_candidate now d kv.1 kv.2 = true) (map_to_list (instances d)))).*1 in
  foldl (fun d id => cleanup_instance_tx id false now d) d owners.

(** ** The life of a row *)

(** Rows that no later write changes. *)
Definition settled (r : UsageLog) : bool := negb (is_running r) && negb (recoveryUnknown r).

(** The columns an update never touches. *)
Record same_identity (r r' : UsageLog) : Prop := {
  si_id : ID r' = ID r; si_op : OperationID r' = OperationID r; si_started : StartedAt r' = StartedAt r;
  si_recorded : RecordedAt r' = RecordedAt r; si_action : Action r' = Action r; si_auth : AuthType r' = AuthType r;
  si_source : Source r' = Source r; si_owner : OwnerInstanceID r' = OwnerInstanceID r }.

Record advances (r r' : UsageLog) : Prop := {
  ad_same : same_identity r r';
  ad_seq : StateSeq r <= StateSeq r';
  ad_settled : settled r = true -> r' = r;
  ad_running : is_running r' = true -> is_running r = true \/ lease_expired r = true }.

(** What lets a transaction delete a row: it is not running, its retention has passed,
    and no instance can bring it back: if it was given up because its owner seemed dead,
    the owner is gone, or retired for good. *)
Record deletable (p : UsagePolicy) (now : time) (d' : db) (r : UsageLog) : Prop := {
  de_ended : is_running r = false;
  de_retention : exists t, RetentionAt r = Some t /\ t + Retention p (Action r) <= now;
  de_owner id o : lease_expired r = true -> OwnerInstanceID r = Some id -> instances d' !! id = Some o ->
    RetiredAt o <> None }.

Definition keyed (d : db) : Prop := forall op r, logs d !! op = Some r -> OperationID r = op.

Lemma advances_refl r : advances r r.
Proof. split; [by split|done|done|by left]. Qed.

Lemma mark_idem reason now r : mark_unknown reason now (mark_unknown reason now r) = mark_unknown reason now r.
Proof. unfold mark_unknown. cbn. by destruct (ReconciledAt r). Qed.

Lemma foldl_mark reason now l (m : gmap string UsageLog) op :
  foldl (fun l r => alter (mark_unknown reason now) (OperationID r) l) m l !! op
  = (if bool_decide (op ∈ map OperationID l) then mark_unknown reason now <$> m !! op else m !! op).
Proof.
  revert m. induction l as [|r l IH]; intros m; [done|]. cbn [foldl map]. rewrite IH.
  destruct (decide (OperationID r = op)) as [->|Hne].
  - rewrite lookup_alter_eq. rewrite (bool_decide_eq_true_2 (op ∈ op :: _)) by left.
    destruct (bool_decide _); [|done]. destruct (m !! op); [|done]. cbn. by rewrite mark_idem.
  - rewrite lookup_alter_ne by done.
    by rewrite (bool_decide_ext (op ∈ OperationID r :: map OperationID l) (op ∈ map OperationID l))
      by (rewrite elem_of_cons; naive_solver).
Qed.

Lemma elem_of_rows d r : keyed d -> r ∈ rows d -> logs d !! OperationID r = Some r.
Proof.
  intros Hk Hr. unfold rows in Hr. apply list_elem_of_fmap in Hr as [[op r'] [-> Hr]].
  apply elem_of_map_to_list in Hr. cbn. by rewrite (Hk op r' Hr).
Qed.

Lemma reconcile_rows_spec c id s tracked skip limit now d r :
  keyed d -> r ∈ reconcile_rows c id s tracked skip limit now d ->
  logs d !! OperationID r = Some r /\ reconcile_selects c id s tracked now r = true.
Proof.
  intros Hk Hr. unfold reconcile_rows in Hr. apply elem_of_take in Hr as (i & Hr & _).
  apply list_elem_of_lookup_2 in Hr. unfold ordered in Hr. rewrite merge_sort_Permutation in Hr.
  apply list_elem_of_filter in Hr as [Hsel Hr]. split; [by apply elem_of_rows|].
  by apply andb_true_iff in Hsel as [Hsel _].
Qed.

Lemma reconcile_apply_lookup c id s tracked skip limit now d op :
  keyed d ->
  logs (reconcile_apply c id s tracked skip limit now d).2 !! op = logs d !! op \/
  exists r, logs d !! op = Some r /\ reconcile_selects c id s tracked now r = true /\
    logs (reconcile_apply c id s tracked skip limit now d).2 !! op = Some (mark_unknown (reconcile_reason s) now r).
Proof.
  intros Hk. unfold reconcile_apply. cbn [snd logs set_logs]. rewrite foldl_mark. case_bool_decide as Hin; [|by left].
  right. apply list_elem_of_fmap in Hin as [r [-> Hr]]. destruct (reconcile_rows_spec _ _ _ _ _ _ _ _ _ Hk Hr) as [E Hs].
  exists r. rewrite E. by split_and!.
Qed.

Lemma selects_open c id s tracked now r :
  reconcile_selects c id s tracked now r = true -> is_running r = true \/ lease_expired r = true.
Proof. unfold reconcile_selects. destruct s; intros H; bools; [by left|by left|done]. Qed.

Lemma open_not_settled r : is_running r = true \/ lease_expired r = true -> settled r = false.
Proof.
  unfold settled, lease_expired, recoveryUnknown. intros [-> | H]; [done|]. bools. rewrite H, H0.
  by rewrite andb_false_r.
Qed.

(** What a successful upsert did to the row. *)
Lemma upsert_tx_spec p v now d d' op :
  keyed d -> upsert_tx p v now d = Ok d' ->
  keyed d' /\ instances d' = instances d /\ backfill_completed d' = backfill_completed d /\
  (logs d' !! op = logs d !! op \/
   (op = OperationID v /\ logs d !! op = None /\ logs d' !! op = Some (created v now d)) \/
   (exists old, op = OperationID v /\ logs d !! op = Some old /\ logs d' !! op = Some (upsert_values v old) /\
      OwnerInstanceID old = OwnerInstanceID v /\ StartedAt old = StartedAt v /\ AuthType old = AuthType v /\
      Source old = Source v /\
      settled old = false /\ StateSeq old < StateSeq v /\
      (is_running v = true -> is_running old = true \/ lease_expired old = true))).
Proof.
  intros Hk. unfold upsert_tx. destruct (match OwnerInstanceID v with Some _ => _ | None => _ end); [|done].
  destruct (logs d !! OperationID v) as [old|] eqn:Eo.
  - destruct (negb (StartedAt old =? StartedAt v) || negb (String.eqb (AuthType old) (AuthType v))
         || negb (String.eqb (Source old) (Source v)) || negb (bool_decide (OwnerInstanceID old = OwnerInstanceID v)))
      eqn:Eid; [done|]. bools.
    destruct (negb (String.eqb (Outcome old) "running") && negb (recoveryUnknown old)) eqn:Es;
      [intros [= <-]; split_and!; [done..|by left]|].
    destruct (StateSeq v <=? StateSeq old) eqn:Eq; [intros [= <-]; split_and!; [done..|by left]|].
    destruct (recoveryUnknown old && _ && _) eqn:Er; [intros [= <-]; split_and!; [done..|by left]|].
    intros [= <-]. apply Z.leb_gt in Eq. split_and!; [|done|done|].
    + intros o r. cbn. destruct (decide (OperationID v = o)) as [<-|Hne].
      * rewrite lookup_insert_eq. intros [= <-]. cbn. by apply Hk.
      * rewrite lookup_insert_ne by done. apply Hk.
    + destruct (decide (OperationID v = op)) as [<-|Hne]; [|left; cbn; by rewrite lookup_insert_ne].
      right. right. exists old. cbn. rewrite lookup_insert_eq. split_and!; try done.
      * by apply String.eqb_eq.
      * by apply String.eqb_eq.
      * intros Hv. unfold is_running in *. rewrite Hv in Er.
        destruct (String.eqb (Outcome old) "running") eqn:Eor; [by left|right]. cbn in Es. unfold lease_expired.
        unfold recoveryUnknown in *. destruct (String.eqb (Outcome old) "unknown"); [|done]. cbn in *.
        destruct (String.eqb (RecoveryReason old) "owner_lease_expired"); [done|]. cbn in *.
        by destruct (String.eqb (RecoveryReason old) "finalization_unavailable").
  - destruct (expired p v now); [intros [= <-]; split_and!; [done..|by left]|]. intros [= <-].
    split_and!; [|done|done|].
    + intros o r. cbn. destruct (decide (OperationID v = o)) as [<-|Hne].
      * rewrite lookup_insert_eq. intros [= <-]. done.
      * rewrite lookup_insert_ne by done. apply Hk.
    + destruct (decide (OperationID v = op)) as [<-|Hne]; [|left; cbn; by rewrite lookup_insert_ne].
      right. left. cbn. by rewrite lookup_insert_eq.
Qed.

(** What the checks before the transaction keep of the row. *)
Lemma upsert_prepare_spec `{usage} v v' :
  upsert_prepare v = Ok v' ->
  OperationID v' = OperationID v /\ OwnerInstanceID v' = OwnerInstanceID v /\ Outcome v' = Outcome v /\
  Phase v' = Phase v /\ StateSeq v' = StateSeq v /\ facts v' = facts v /\
  (RecoveryReason v = "" -> RecoveryReason v' = "") /\
  (is_running v = false -> FinishedAt v' = FinishedAt v /\ DurationMS v' = DurationMS v).
Proof.
  unfold upsert_prepare, is_running. destruct (_ || _ || _); [done|]. destruct (negb _); [done|].
  destruct (_ && _); [done|]. destruct (_ <? _); [done|].
  destruct (String.eqb (Outcome v) "running"); [by intros [= <-]|].
  case_bool_decide as Ef; [by intros [= <-]|]. assert (FinishedAt v = None) as E by by destruct (FinishedAt v); [destruct Ef|].
  destruct (String.eqb (Source v) "audit_legacy"); [by intros [= <-]|].
  destruct (bool_decide (ReconciledAt v <> None)); [by intros [= <-]|done].
Qed.

Lemma cleanup_tx_spec p op ol rl now d :
  keyed d ->
  let d' := cleanup_tx p op ol rl now d in
  keyed d' /\ (forall o, o <> op -> logs d' !! o = logs d !! o) /\
  (logs d' = logs d \/ exists r, logs d !! op = Some r /\ logs d' = delete op (logs d) /\ deletable p now d' r).
Proof.
  intros Hk. unfold cleanup_tx. destruct (logs d !! op) as [v|] eqn:Ev; [|split_and!; [done|done|by left]].
  destruct (cleanup_skipped v ol d || rl) eqn:Esk; [split_and!; [done|done|by left]|].
  destruct (is_running v) eqn:Erun; [split_and!; [done|done|by left]|].
  destruct (RetentionAt v) as [t|] eqn:Et; [|split_and!; [done|done|by left]].
  destruct (After _ now) eqn:Ea; [split_and!; [done|done|by left]|].
  destruct (String.eqb _ _ && _); [split_and!; [done|done|by left]|]. bools. unfold TimeAdd in Ea.
  assert (forall i, keyed (set_logs (delete op (logs d)) (set_instances i d))) as Hkd.
  { intros i o r. cbn. rewrite lookup_delete_Some. intros [_ H']. by apply Hk. }
  assert (forall i, (forall id o, lease_expired v = true -> OwnerInstanceID v = Some id -> i !! id = Some o -> RetiredAt o <> None) ->
    let d' := set_logs (delete op (logs d)) (set_instances i d) in
    keyed d' /\ (forall o, o <> op -> logs d' !! o = logs d !! o) /\
    (logs d' = logs d \/ exists r, Some v = Some r /\ logs d' = delete op (logs d) /\ deletable p now d' r)) as Hdel.
  { intros i Hi d'. split_and!; [apply Hkd| |].
    - intros o Ho. subst d'. cbn. by rewrite lookup_delete_ne.
    - right. exists v. split_and!; [done|done|]. split; [done|by exists t|exact Hi]. }
  assert ((forall id o, lease_expired v = true -> OwnerInstanceID v = Some id -> instances d !! id = Some o -> RetiredAt o <> None) ->
    let d' := set_logs (delete op (logs d)) d in
    keyed d' /\ (forall o, o <> op -> logs d' !! o = logs d !! o) /\
    (logs d' = logs d \/ exists r, Some v = Some r /\ logs d' = delete op (logs d) /\ deletable p now d' r)) as Hdel'
    by exact (Hdel (instances d)).
  destruct (if lease_expired v then cleanup_owner v ol d else None) as [[id o]|] eqn:Eow.
  - destruct (lease_expired v) eqn:El; [|done]. unfold cleanup_owner in Eow.
    destruct (OwnerInstanceID v) as [id'|] eqn:Eid; [|done]. destruct ol; [done|].
    destruct (instances d !! id') as [o'|] eqn:Ei; [|done]. injection Eow as <- <-.
    case_bool_decide as Hret.
    + destruct (After (LeaseUntil o') now); [split_and!; [done|done|by left]|]. unfold retire.
      apply (Hdel (alter (fun o => MkInstance (LastSeenAt o) (LeaseUntil o) (Some now)) id' (instances d))).
      intros id o _ [= <-]. rewrite lookup_alter_eq, Ei. by intros [= <-].
    + apply Hdel'. intros id o _ [= <-]. rewrite Ei. by intros [= <-].
  - apply Hdel'. intros id o El Eid Ei. rewrite El in Eow. unfold cleanup_owner, cleanup_skipped in *.
    rewrite Eid in *. destruct ol; [|by rewrite Ei in Eow]. rewrite Ei in *. done.
Qed.

Inductive txn `{usage} (c : UsageLogRepoConfig) : time -> UsagePolicy -> db -> db -> Prop :=
| TxRegister id now p d d' : RegisterInstance c id now d = Ok d' -> txn c now p d d'
| TxHeartbeat id now p d d' : Heartbeat c id now d = Ok d' -> txn c now p d d'
| TxUpsert v now p d d' : Upsert p v now d = Ok d' -> txn c now p d d'
| TxReconcile id s tracked skip limit now p d :
    txn c now p d (reconcile_apply c id s tracked skip limit now d).2
| TxCleanup op ol rl now p d : txn c now p d (cleanup_tx p op ol rl now d)
| TxCleanupInstance id l now p d : txn c now p d (cleanup_instance_tx id l now d).

Lemma register_logs c id now d d' : RegisterInstance c id now d = Ok d' -> logs d' = logs d.
Proof.
  unfold RegisterInstance. destruct (instances d !! id) as [o|]; [|destruct (existsb _ _); [done|by intros [= <-]]].
  destruct (lockOwner id true now d); [by intros [= <-]|done].
Qed.
Lemma heartbeat_logs c id now d d' : Heartbeat c id now d = Ok d' -> logs d' = logs d.
Proof. unfold Heartbeat. destruct (lockOwner id false now d); [by intros [= <-]|done]. Qed.
Lemma cleanup_instance_logs id l now d : logs (cleanup_instance_tx id l now d) = logs d.
Proof.
  unfold cleanup_instance_tx. destruct (instances d !! id); [|done]. destruct l; [done|].
  destruct (_ && _); [done|]. by destruct (existsb _ _).
Qed.

(** C14: Every transaction of the history (by any instance, with any rows locked by
    others) moves each row only forward: its identity never changes, its sequence never
    goes back, a settled result is never overwritten, a row runs again only from
    running or from a lapsed lease; and a row disappears only when it is over, its
    retention has passed and, for a row given up because its owner's lease had lapsed, its
    owner can no longer write it. *)
Theorem history_row_lifecycle `{usage} c now p d d' op r :
  keyed d -> txn c now p d d' -> logs d !! op = Some r ->
  keyed d' /\
  match logs d' !! op with
  | Some r' => advances r r'
  | None => deletable p now d' r
  end.
Proof.
  intros Hk Ht Hr. assert (forall d2, logs d2 = logs d -> keyed d2 /\
    match logs d2 !! op with Some r' => advances r r' | None => deletable p now d2 r end) as Hsame.
  { intros d2 E. unfold keyed. rewrite E, Hr. split; [exact Hk|apply advances_refl]. }
  destruct Ht as [id now p d d' E|id now p d d' E|v now p d d' E|id s tr skip lim now p d|o ol rl now p d|id l now p d].
  - apply Hsame. by eapply register_logs.
  - apply Hsame. by eapply heartbeat_logs.
  - unfold Upsert in E. destruct (upsert_prepare v) as [v'|]; [|done].
    destruct (upsert_tx_spec p v' now d d' op Hk E) as (Hk' & _ & _ & Hc). split; [done|].
    destruct Hc as [->|[(-> & En & ->)|(old & -> & Eo & -> & E1 & E2 & E3 & E4 & E5 & E6 & E7)]].
    + rewrite Hr. apply advances_refl.
    + congruence.
    + assert (old = r) as -> by congruence. split; [by split|cbn; lia|congruence|exact E7].
  - split.
    + intros o r' H'. destruct (reconcile_apply_lookup c id s tr skip lim now d o Hk) as [E|(r0 & E0 & _ & E)];
        rewrite E in H'; [by apply Hk|]. injection H' as <-. cbn. by apply Hk.
    + destruct (reconcile_apply_lookup c id s tr skip lim now d op Hk) as [->|(r0 & E0 & Hs & ->)].
      * rewrite Hr. apply advances_refl.
      * assert (r0 = r) as -> by congruence. split; [by split|done| |done].
        rewrite (open_not_settled r); [done|]. by eapply selects_open.
  - destruct (cleanup_tx_spec p o ol rl now d Hk) as (Hk' & Hne & Hc). split; [exact Hk'|].
    destruct (decide (op = o)) as [<-|Hd]; [|rewrite Hne, Hr by done; apply advances_refl].
    destruct Hc as [->|(r0 & E0 & -> & Hdel)]; [rewrite Hr; apply advances_refl|].
    rewrite lookup_delete_eq. by assert (r0 = r) as <- by congruence.
  - apply Hsame, cleanup_instance_logs.
Qed.

(** The query's own computation of a row's retention is the policy's. *)
Lemma sql_retention_agrees p action : WithDefaults p = p -> sql_retention p action = Retention p action.
Proof.
  intros Hp. unfold sql_retention, Retention. rewrite Hp. destruct (String.eqb action "settings.update") eqn:E; [done|].
  unfold UsageActionSensitive. by rewrite orb_comm.
Qed.

Definition lapsed_row : UsageLog :=
  row (with_row (with_owner (Some "gone")) (NewOperation "op" "server.exec" "/x" "r" "POST" "" Second)).
Definition lapsed_db : db := MkDb {["op" := lapsed_row]} {["gone" := MkInstance 0 Minute None]} 2 false.

Lemma history_row_lifecycle_witness :
  let d' := (reconcile_apply (MkRepoConfig 0 0 0 0 0) "gone" OwnerStale [] (fun _ => false) 10 Hour lapsed_db).2 in
  logs d' !! "op" = Some (mark_unknown "owner_lease_expired" Hour lapsed_row) /\
  keyed d' /\ match logs d' !! "op" with Some r' => advances lapsed_row r' | None => False end.
Proof.
  intros d'. assert (logs d' !! "op" = Some (mark_unknown "owner_lease_expired" Hour lapsed_row)) as E by by vm_compute.
  split; [exact E|]. assert (keyed lapsed_db) as Hk.
  { intros o r. cbn. intros [<- <-]%lookup_singleton_Some. by vm_compute. }
  destruct (@history_row_lifecycle plain_json (MkRepoConfig 0 0 0 0 0) Hour (MkUsagePolicy 0 0 0) lapsed_db d' "op" lapsed_row
              Hk (@TxReconcile plain_json _ "gone" OwnerStale [] (fun _ => false) 10 Hour _ lapsed_db)) as [H1 H2]; [by vm_compute|].
  split; [exact H1|]. by rewrite E in *.
Defined.
