(* ===== verification/UsageRecorder.v ===== *)
(** * The operation recorder's state and critical sections (internal/usage/recorder.go)

    A [Recorder] is the state one mutex protects; each definition below is the effect of
    one critical section (or of one claim of a slot channel) on it.  How the sections of
    several goroutines interleave with each other and with the database is
    [UsageCapture].  The clock, [rand.Float64] and Go's random map order are arguments.
    Operations are named by their operation id, which is random and unique, so [active]
    is the set of the ids of the operations the map points to. *)

From S2P Require Import Prelude GoStrings Float64 Text UsageLog UsageRepo.

(** ** Options *)

Record Options := MkOptions {
  DBMaxOpenConnections : Z; WriteConcurrency : Z; WriteTimeout : duration; ActiveLimit : Z;
  RetryItems : Z; RetryBytes : Z; RetryLifetime : duration; AuditRetryItems : Z; AuditRetryBytes : Z;
  HeartbeatInterval : duration; o_LeaseDuration : duration; ReconcileInterval : duration; CleanupInterval : duration;
  IPLimit : Z; IPTTL : duration;
  AuthenticatedRate : spec_float; AuthenticatedBurst : spec_float;
  UnauthenticatedRate : spec_float; UnauthenticatedBurst : spec_float; IPRate : spec_float; IPBurst : spec_float;
  o_OrdinaryRetention : duration; o_SensitiveRetention : duration }.

Definition or_default (v d : Z) : Z := if v <=? 0 then d else v.
Definition or_rate (v d : spec_float) : spec_float := if SFleb v (f64 0) then d else v.

Definition defaults (o : Options) : Options :=
  let policy := WithDefaults (MkUsagePolicy (o_LeaseDuration o) (o_OrdinaryRetention o) (o_SensitiveRetention o)) in
  MkOptions (or_default (DBMaxOpenConnections o) 32) (or_default (WriteConcurrency o) 4)
    (or_default (WriteTimeout o) (200 * Millisecond)) (or_default (ActiveLimit o) 4096)
    (or_default (RetryItems o) 1024) (or_default (RetryBytes o) (Z.shiftl 8 20)) (or_default (RetryLifetime o) (2 * Minute))
    (or_default (AuditRetryItems o) 256) (or_default (AuditRetryBytes o) (Z.shiftl 1 20))
    (or_default (HeartbeatInterval o) (10 * Second)) (LeaseDuration policy)
    (or_default (ReconcileInterval o) (30 * Second)) (or_default (CleanupInterval o) Minute)
    (or_default (IPLimit o) 4096) (or_default (IPTTL o) (10 * Minute))
    (or_rate (AuthenticatedRate o) (f64 50)) (or_rate (AuthenticatedBurst o) (f64 100))
    (or_rate (UnauthenticatedRate o) (f64 10)) (or_rate (UnauthenticatedBurst o) (f64 20))
    (or_rate (IPRate o) (f64_ratio 5 60)) (or_rate (IPBurst o) (f64 5))
    (OrdinaryRetention policy) (SensitiveRetention policy).

(** ** Token buckets *)

Record tokenBucket := MkBucket { tokens : spec_float; last : time }.
Definition bucket0 : tokenBucket := MkBucket (f64 0) zero_time.

Definition bucket_allow (b : tokenBucket) (now : time) (rate burst : spec_float) : bool * tokenBucket :=
  let t := if IsZero (last b) then burst
           else f64_min burst (f64_add (tokens b) (f64_mul (f64_max (f64 0) (Seconds (TimeSub now (last b)))) rate)) in
  if SFltb t (f64 1) then (false, MkBucket t now) else (true, MkBucket (f64_sub t (f64 1)) now).

Record ipBudget := MkIPBudget { bucket : tokenBucket; seen : time }.

(** ** Queues, counters, slots *)

Record pendingUsage := MkPending {
  p_row : UsageLog; born : time; p_next : time; p_bytes : Z; attempts : Z; p_inFlight : bool; completion : bool }.

Record AuditEvent := MkAuditEvent {
  A_OperationID : option string; A_UserID : Z; A_Username : string; A_Action : string; A_ResourceType : string;
  A_ResourceID : Z; A_IPAddress : string; Details : string }.

(** The length of an audit event's JSON, compared with a limit. *)
Class audit_json := { audit_size : AuditEvent -> Z; audit_size_nonneg e : 0 <= audit_size e }.

Record pendingAudit := MkPendingAudit {
  event : AuditEvent; a_born : time; a_next : time; a_bytes : Z; a_attempts : Z; a_inFlight : bool }.

Record Stats := MkStats {
  CaptureSkipped : Z; WriteFailed : Z; FinalizationRetry : Z; Reconciled : Z; AuditWriteFailed : Z; AuditLost : Z;
  FinalizationLost : Z; PhaseSkipped : Z }.

Inductive slot := ordinarySlots | writeSlots | allSlots | heartbeatSlot | maintenanceSlot | auditSlot.
#[export] Instance slot_eq : EqDecision slot.
Proof. solve_decision. Defined.

Record Recorder := MkRecorder {
  runtimeConfig : option (Z * Z); has_store : bool; has_audit : bool; opts : Options;
  owner : string; leaseConfirmedUntil : time;
  active : gset string; pending : gmap string pendingUsage; pendingBytes : Z;
  auditPending : gmap string pendingAudit; auditBytes : Z;
  ips : gmap string ipBudget; authBudget : tokenBucket; unauthBudget : tokenBucket;
  stats : Stats; lastWarning : gmap string time; phaseQueued : gset string; phases : list string;
  slots : slot -> Z }.

(** *** Updates of one group of fields *)

Definition set_owner (o : string) (l : time) (r : Recorder) : Recorder :=
  MkRecorder (runtimeConfig r) (has_store r) (has_audit r) (opts r) o l (active r) (pending r) (pendingBytes r)
    (auditPending r) (auditBytes r) (ips r) (authBudget r) (unauthBudget r) (stats r) (lastWarning r) (phaseQueued r)
    (phases r) (slots r).
Definition set_active (a : gset string) (r : Recorder) : Recorder :=
  MkRecorder (runtimeConfig r) (has_store r) (has_audit r) (opts r) (owner r) (leaseConfirmedUntil r) a (pending r)
    (pendingBytes r) (auditPending r) (auditBytes r) (ips r) (authBudget r) (unauthBudget r) (stats r) (lastWarning r)
    (phaseQueued r) (phases r) (slots r).
Definition set_pending (p : gmap string pendingUsage) (b : Z) (r : Recorder) : Recorder :=
  MkRecorder (runtimeConfig r) (has_store r) (has_audit r) (opts r) (owner r) (leaseConfirmedUntil r) (active r) p
    b (auditPending r) (auditBytes r) (ips r) (authBudget r) (unauthBudget r) (stats r) (lastWarning r)
    (phaseQueued r) (phases r) (slots r).
Definition set_audits (p : gmap string pendingAudit) (b : Z) (r : Recorder) : Recorder :=
  MkRecorder (runtimeConfig r) (has_store r) (has_audit r) (opts r) (owner r) (leaseConfirmedUntil r) (active r)
    (pending r) (pendingBytes r) p b (ips r) (authBudget r) (unauthBudget r) (stats r) (lastWarning r)
    (phaseQueued r) (phases r) (slots r).
Definition set_budgets (i : gmap string ipBudget) (a u : tokenBucket) (r : Recorder) : Recorder :=
  MkRecorder (runtimeConfig r) (has_store r) (has_audit r) (opts r) (owner r) (leaseConfirmedUntil r) (active r)
    (pending r) (pendingBytes r) (auditPending r) (auditBytes r) i a u (stats r) (lastWarning r)
    (phaseQueued r) (phases r) (slots r).
Definition set_stats (f : Stats -> Stats) (r : Recorder) : Recorder :=
  MkRecorder (runtimeConfig r) (has_store r) (has_audit r) (opts r) (owner r) (leaseConfirmedUntil r) (active r)
    (pending r) (pendingBytes r) (auditPending r) (auditBytes r) (ips r) (authBudget r) (unauthBudget r) (f (stats r))
    (lastWarning r) (phaseQueued r) (phases r) (slots r).
Definition set_warning (w : gmap string time) (r : Recorder) : Recorder :=
  MkRecorder (runtimeConfig r) (has_store r) (has_audit r) (opts r) (owner r) (leaseConfirmedUntil r) (active r)
    (pending r) (pendingBytes r) (auditPending r) (auditBytes r) (ips r) (authBudget r) (unauthBudget r) (stats r)
    w (phaseQueued r) (phases r) (slots r).
Definition set_phases (q : gset string) (l : list string) (r : Recorder) : Recorder :=
  MkRecorder (runtimeConfig r) (has_store r) (has_audit r) (opts r) (owner r) (leaseConfirmedUntil r) (active r)
    (pending r) (pendingBytes r) (auditPending r) (auditBytes r) (ips r) (authBudget r) (unauthBudget r) (stats r)
    (lastWarning r) q l (slots r).
Definition set_slots (s : slot -> Z) (r : Recorder) : Recorder :=
  MkRecorder (runtimeConfig r) (has_store r) (has_audit r) (opts r) (owner r) (leaseConfirmedUntil r) (active r)
    (pending r) (pendingBytes r) (auditPending r) (auditBytes r) (ips r) (authBudget r) (unauthBudget r) (stats r)
    (lastWarning r) (phaseQueued r) (phases r) s.
Definition SetRuntime (c : option (Z * Z)) (r : Recorder) : Recorder :=
  MkRecorder c (has_store r) (has_audit r) (opts r) (owner r) (leaseConfirmedUntil r) (active r)
    (pending r) (pendingBytes r) (auditPending r) (auditBytes r) (ips r) (authBudget r) (unauthBudget r) (stats r)
    (lastWarning r) (phaseQueued r) (phases r) (slots r).

Definition inc (n : Z) : Z := wrapu64 (n + 1).
Definition bump_skipped (s : Stats) : Stats :=
  MkStats (inc (CaptureSkipped s)) (WriteFailed s) (FinalizationRetry s) (Reconciled s) (AuditWriteFailed s)
    (AuditLost s) (FinalizationLost s) (PhaseSkipped s).
Definition bump_write_failed (s : Stats) : Stats :=
  MkStats (CaptureSkipped s) (inc (WriteFailed s)) (FinalizationRetry s) (Reconciled s) (AuditWriteFailed s)
    (AuditLost s) (FinalizationLost s) (PhaseSkipped s).
Definition bump_retry (s : Stats) : Stats :=
  MkStats (CaptureSkipped s) (WriteFailed s) (inc (FinalizationRetry s)) (Reconciled s) (AuditWriteFailed s)
    (AuditLost s) (FinalizationLost s) (PhaseSkipped s).
Definition note_reconciled (n : Z) (s : Stats) : Stats :=
  MkStats (CaptureSkipped s) (WriteFailed s) (FinalizationRetry s) (Z.max (Reconciled s) n) (AuditWriteFailed s)
    (AuditLost s) (FinalizationLost s) (PhaseSkipped s).
Definition bump_audit_failed (s : Stats) : Stats :=
  MkStats (CaptureSkipped s) (WriteFailed s) (FinalizationRetry s) (Reconciled s) (inc (AuditWriteFailed s))
    (AuditLost s) (FinalizationLost s) (PhaseSkipped s).
Definition bump_audit_lost (s : Stats) : Stats :=
  MkStats (CaptureSkipped s) (WriteFailed s) (FinalizationRetry s) (Reconciled s) (AuditWriteFailed s)
    (inc (AuditLost s)) (FinalizationLost s) (PhaseSkipped s).
Definition bump_lost (s : Stats) : Stats :=
  MkStats (CaptureSkipped s) (WriteFailed s) (FinalizationRetry s) (Reconciled s) (AuditWriteFailed s)
    (AuditLost s) (inc (FinalizationLost s)) (PhaseSkipped s).
Definition bump_phase_skipped (s : Stats) : Stats :=
  MkStats (CaptureSkipped s) (WriteFailed s) (FinalizationRetry s) (Reconciled s) (AuditWriteFailed s)
    (AuditLost s) (FinalizationLost s) (inc (PhaseSkipped s)).

(** ** Construction and slots *)

(** [o] has its defaults already. *)
Definition capacity (o : Options) (s : slot) : Z :=
  let allCapacity := Z.max 0 (Z.quot (DBMaxOpenConnections o) 4) in
  let regular := Z.min (WriteConcurrency o) (Z.max 1 (allCapacity - 2)) in
  match s with
  | allSlots => allCapacity
  | writeSlots => regular
  | ordinarySlots => Z.max 1 (regular - 1)
  | _ => 1
  end.

Definition NewRecorder (store audit : bool) (uuid : string) (options : Options) : Recorder :=
  MkRecorder None store audit (defaults options) uuid zero_time ∅ ∅ 0 ∅ 0 ∅ bucket0 bucket0
    (MkStats 0 0 0 0 0 0 0 0) ∅ ∅ [] (fun _ => 0).

Definition slots_add (s : slot) (n : Z) (f : slot -> Z) : slot -> Z :=
  fun s' => if decide (s = s') then f s' + n else f s'.

(** [take] and [release]. *)
Definition slot_take (s : slot) (r : Recorder) : option Recorder :=
  if slots r s <? capacity (opts r) s then Some (set_slots (slots_add s 1 (slots r)) r) else None.
Definition slot_release (s : slot) (r : Recorder) : Recorder := set_slots (slots_add s (-1) (slots r)) r.

(** The slots a job claims, in order, before it calls the store. *)
Definition write_slots (completion : bool) : list slot :=
  if completion then [writeSlots; allSlots] else [ordinarySlots; writeSlots; allSlots].
Definition audit_slots : list slot := [auditSlot].
Definition owner_slots : list slot := [heartbeatSlot; allSlots].
Definition maintenance_slots : list slot := [maintenanceSlot; allSlots].

(** ** Errors *)

Inductive rec_err := ErrRecorderUnavailable | errNoWriteSlot | StoreErr (e : usage_err).

Definition permanentOwnerError (e : rec_err) : bool :=
  match e with StoreErr ErrUsageOwnerMissing | StoreErr ErrUsageOwnerRetired => true | _ => false end.
Definition permanentUsageError (e : rec_err) : bool :=
  permanentOwnerError e ||
  match e with StoreErr ErrUsageInvalid | StoreErr ErrUsagePermanent => true | _ => false end.

(** [retentionPolicy] and [snapshotExpired]. *)
Definition rec_retentionPolicy (r : Recorder) : UsagePolicy :=
  WithDefaults match runtimeConfig r with
  | Some (days, sensitive) => MkUsagePolicy 0 (wrap64 (wrap64 (days * 24) * Hour)) (wrap64 (wrap64 (sensitive * 24) * Hour))
  | None => MkUsagePolicy 0 (o_OrdinaryRetention (opts r)) (o_SensitiveRetention (opts r))
  end.
Definition snapshotExpired (r : Recorder) (row : UsageLog) (now : time) : bool :=
  match RetentionAt row with
  | None => false
  | Some t => Retention (rec_retentionPolicy r) (Action row) <=? TimeSub now t
  end.

Definition retryDelays : list duration := [Second; 2 * Second; 4 * Second; 8 * Second; 15 * Second; 30 * Second].
(** [rnd] is [rand.Float64]. *)
Definition retryDelay (rnd : spec_float) (attempt : Z) : duration :=
  let base := nth (Z.to_nat (Z.min attempt 5)) retryDelays 0 in
  to_int64 (f64_mul (f64 base) (f64_add (f64_ratio 85 100) (f64_mul rnd (f64_ratio 3 10)))).

Definition warnLocked (reason : string) (now : time) (r : Recorder) : Recorder :=
  if TimeSub now (default zero_time (lastWarning r !! reason)) <? Minute then r
  else set_warning (<[reason := now]> (lastWarning r)) r.
Definition writeFailure (reason : string) (now : time) (r : Recorder) : Recorder :=
  warnLocked reason now (set_stats bump_write_failed r).

(** ** Admission *)

(** A new address is admitted unmetered once the table is full. *)
Definition admitLocked (auth ip : string) (now : time) (r : Recorder) : bool * Recorder :=
  let o := opts r in
  if negb (String.eqb auth "unauthenticated") then
    let '(ok, b) := bucket_allow (authBudget r) now (AuthenticatedRate o) (AuthenticatedBurst o) in
    (ok, set_budgets (ips r) b (unauthBudget r) r)
  else
    let '(ok, b) := bucket_allow (unauthBudget r) now (UnauthenticatedRate o) (UnauthenticatedBurst o) in
    let r := set_budgets (ips r) (authBudget r) b r in
    if negb ok then (false, r)
    else match (match ips r !! ip with
                | Some ib => Some ib
                | None => if IPLimit o <=? Z.of_nat (size (ips r)) then None else Some (MkIPBudget bucket0 zero_time)
                end) with
         | None => (true, r)
         | Some ib =>
             let '(ok, b) := bucket_allow (bucket ib) now (IPRate o) (IPBurst o) in
             (ok, set_budgets (<[ip := MkIPBudget b now]> (ips r)) (authBudget r) (unauthBudget r) r)
         end.

Definition longAction (action : string) : bool :=
  existsb (String.eqb action)
    ["server.sftp.archive"; "server.sftp.upload.start"; "server.sftp.upload.complete"; "server.sftp.upload.chunk";
     "server.sftp.upload"; "server.sftp.download"; "server.exec"; "service.relay"; "server.terminal"].

Definition skip_capture (r : Recorder) : Recorder := set_stats bump_skipped r.

(** Both locks are held throughout. *)
Definition AdmitShort (now : time) (op : Operation) (r : Recorder) : Operation * Recorder :=
  if finished op || captureDecided op || beginAttempted op || String.eqb (AuthType (row op)) "unauthenticated"
     || longAction (Action (row op)) then (op, r)
  else
    let '(ok, r) := if has_store r then admitLocked (AuthType (row op)) (ClientAddress (facts (row op))) now r
                    else (false, r) in
    (with_capture (beginAttempted op) true ok op, if ok then r else skip_capture r).

(** ** [Begin] *)

Inductive begin_answer := BeginDone (accepted : bool) | BeginContinue.

(** The first section, under the operation's lock. *)
Definition begin_claim (op : Operation) : begin_answer * Operation :=
  if finished op then (BeginDone false, op)
  else if beginAttempted op then (BeginDone (admitted op), op)
  else (BeginContinue, with_capture true (captureDecided op) (admitted op) op).

(** The second section, under both locks: the row to write when the operation is
    admitted.  Conditions are tested in the code's order, so that a token is spent only
    when nothing before refuses. *)
Definition begin_admit `{usage} (now : time) (op : Operation) (r : Recorder) : option UsageLog * Operation * Recorder :=
  if finished op then (None, op, r)
  else
    let p := principal op in
    let refused := String.eqb (P_AuthType p) "unauthenticated" || negb (Before now (leaseConfirmedUntil r))
                   || negb (has_store r) || (ActiveLimit (opts r) <=? Z.of_nat (size (active r)))
                   || (captureDecided op && negb (admitted op)) in
    let '(ok, r) := if refused then (false, r)
                    else if captureDecided op then (true, r)
                    else admitLocked (P_AuthType p) (ClientAddress (facts (row op))) now r in
    if negb ok then (None, op, skip_capture r)
    else
      let op := with_row (fun v => next_seq (with_owner (Some (owner r)) v))
                  (with_capture (beginAttempted op) (captureDecided op) true op) in
      (Some (snapshotLocked op), op, set_active ({[OperationID (row op)]} ∪ active r) r).

(** ** [Finish] *)

(** The section after the operation was frozen with the row [v]: [None] ends [Finish],
    [Some c] goes on to write, with the completion slot when [c]. *)
Definition finish_decide (v : UsageLog) (now : time) (op : Operation) (r : Recorder) : option bool * Operation * Recorder :=
  let begun := beginAttempted op in let decided := captureDecided op in let adm := admitted op in
  if (begun || decided) && negb adm then (None, op, r)
  else if negb begun && negb decided then
    let '(ok, r) := if has_store r then admitLocked (AuthType v) (ClientAddress (facts v)) now r else (false, r) in
    if ok then (Some false, with_capture begun true true op, r) else (None, op, skip_capture r)
  else (Some (begun && adm), op, r).

Definition enqueueUsageLocked `{usage} (v : UsageLog) (c : bool) (now : time) (rnd : spec_float) (r : Recorder)
    : bool * Recorder :=
  let size_ := usage_size v in
  if (RetryItems (opts r) <=? Z.of_nat (size (pending r))) || (RetryBytes (opts r) <? pendingBytes r + size_)
  then (false, set_stats bump_lost r)
  else (true, set_pending (<[OperationID v := MkPending v now (TimeAdd now (retryDelay rnd 0)) size_ 0 false c]> (pending r))
                (pendingBytes r + size_) r).

(** What became of the operation's result. *)
Inductive fate := Saved | Queued | Lost.

(** The last section: the transfer to the retry queue and the removal from [active] are
    one step. *)
Definition finish_settle `{usage} (v : UsageLog) (c : bool) (e : option rec_err) (now : time) (rnd : spec_float)
    (r : Recorder) : fate * Recorder :=
  let '(f, r) := match e with
                 | None => (Saved, r)
                 | Some e =>
                     if negb (permanentUsageError e) && negb (snapshotExpired r v now) then
                       let '(ok, r) := enqueueUsageLocked v c now rnd r in (if ok then Queued else Lost, r)
                     else (Lost, set_stats bump_lost r)
                 end in
  (f, set_active (active r ∖ {[OperationID v]}) r).

(** ** Phases *)

Definition schedulePhase (id : string) (r : Recorder) : Recorder :=
  if negb (bool_decide (id ∈ active r)) || bool_decide (id ∈ phaseQueued r) then r
  else if Z.of_nat (List.length (phases r)) <? ActiveLimit (opts r)
  then set_phases ({[id]} ∪ phaseQueued r) (phases r ++ [id]) r
  else set_stats bump_phase_skipped r.

(** [retryLoop] receives an id, and [persistPhase] looks it up; the lookup's answer. *)
Definition phase_receive (r : Recorder) : option (string * Recorder) :=
  match phases r with [] => None | id :: l => Some (id, set_phases (phaseQueued r) l r) end.
Definition persistPhase_lookup (id : string) (r : Recorder) : bool * Recorder :=
  (bool_decide (id ∈ active r), set_phases (phaseQueued r ∖ {[id]}) (phases r) r).

(** ** Retries *)

Definition drop_pending (id : string) (p : pendingUsage) (r : Recorder) : Recorder :=
  set_pending (delete id (pending r)) (pendingBytes r - p_bytes p) r.
Definition put_pending (id : string) (p : pendingUsage) (r : Recorder) : Recorder :=
  set_pending (<[id := p]> (pending r)) (pendingBytes r) r.
Definition set_inFlight (b : bool) (p : pendingUsage) : pendingUsage :=
  MkPending (p_row p) (born p) (p_next p) (p_bytes p) (attempts p) b (completion p).

(** One pass over the queue in the map's order: what has lived too long is dropped, and
    the first item that is due is taken.  The ids dropped come with the answer. *)
Fixpoint retry_scan (order : list string) (now : time) (dropped : list string) (r : Recorder)
    : list string * option (string * pendingUsage) * Recorder :=
  match order with
  | [] => (dropped, None, r)
  | key :: order =>
      match pending r !! key with
      | None => retry_scan order now dropped r
      | Some item =>
          if p_inFlight item then retry_scan order now dropped r
          else if (RetryLifetime (opts r) <=? TimeSub now (born item)) || snapshotExpired r (p_row item) now
          then retry_scan order now (key :: dropped) (set_stats bump_lost (drop_pending key item r))
          else if negb (After (p_next item) now)
          then (dropped, Some (key, set_inFlight true item), set_stats bump_retry (put_pending key (set_inFlight true item) r))
          else retry_scan order now dropped r
      end
  end.

(** After the write; [p] is the item itself, which only its own attempt changes. *)
Definition retry_again (now : time) (rnd : spec_float) (p : pendingUsage) : pendingUsage :=
  MkPending (p_row p) (born p) (TimeAdd now (retryDelay rnd (attempts p + 1))) (p_bytes p) (attempts p + 1) false
    (completion p).
Definition retry_settle (id : string) (p : pendingUsage) (e : option rec_err) (now : time) (rnd : spec_float)
    (r : Recorder) : fate * Recorder :=
  match e with
  | None => (Saved, drop_pending id p r)
  | Some e =>
      if permanentUsageError e then (Lost, set_stats bump_lost (drop_pending id p r))
      else (Queued, set_pending (alter (fun _ => retry_again now rnd p) id (pending r)) (pendingBytes r) r)
  end.

(** ** Audit events *)

(** The copy that is written; [uuid] names an event that has no operation. *)
Definition safe_event (uuid : string) (e : AuditEvent) : AuditEvent :=
  MkAuditEvent (Some (default uuid (A_OperationID e))) (A_UserID e) (boundedText (A_Username e) 256)
    (boundedText (A_Action e) 96) (boundedText (A_ResourceType e) 64) (A_ResourceID e) (boundedText (A_IPAddress e) 64) "".
Definition event_id (e : AuditEvent) : string := default "" (A_OperationID e).

Definition audit_unavailable (now : time) (r : Recorder) : Recorder :=
  warnLocked "audit_store_unavailable" now (set_stats bump_audit_lost (set_stats bump_audit_failed r)).

(** After the direct write of [e] failed. *)
Definition audit_failed `{audit_json} (e : AuditEvent) (now : time) (rnd : spec_float) (r : Recorder) : Recorder :=
  let r := warnLocked "audit_write_failed" now (set_stats bump_audit_failed r) in
  if bool_decide (auditPending r !! event_id e <> None) then r
  else
    let size_ := audit_size e in
    if (AuditRetryItems (opts r) <=? Z.of_nat (size (auditPending r))) || (AuditRetryBytes (opts r) <? auditBytes r + size_)
    then set_stats bump_audit_lost r
    else set_audits (<[event_id e := MkPendingAudit e now (TimeAdd now (retryDelay rnd 0)) size_ 0 false]> (auditPending r))
           (auditBytes r + size_) r.

Definition drop_audit (id : string) (p : pendingAudit) (r : Recorder) : Recorder :=
  set_audits (delete id (auditPending r)) (auditBytes r - a_bytes p) r.
Definition audit_inFlight (p : pendingAudit) : pendingAudit :=
  MkPendingAudit (event p) (a_born p) (a_next p) (a_bytes p) (a_attempts p) true.

Fixpoint audit_scan (order : list string) (now : time) (r : Recorder) : option (string * pendingAudit) * Recorder :=
  match order with
  | [] => (None, r)
  | key :: order =>
      match auditPending r !! key with
      | None => audit_scan order now r
      | Some item =>
          if a_inFlight item then audit_scan order now r
          else if RetryLifetime (opts r) <=? TimeSub now (a_born item)
          then audit_scan order now (set_stats bump_audit_lost (drop_audit key item r))
          else if negb (After (a_next item) now)
          then (Some (key, audit_inFlight item),
                set_audits (<[key := audit_inFlight item]> (auditPending r)) (auditBytes r) r)
          else audit_scan order now r
      end
  end.

Definition audit_again (now : time) (rnd : spec_float) (p : pendingAudit) : pendingAudit :=
  MkPendingAudit (event p) (a_born p) (TimeAdd now (retryDelay rnd (a_attempts p + 1))) (a_bytes p) (a_attempts p + 1) false.
Definition audit_settle (id : string) (p : pendingAudit) (failed : bool) (now : time) (rnd : spec_float) (r : Recorder)
    : Recorder :=
  if negb failed then drop_audit id p r
  else
    let r := warnLocked "audit_retry_failed" now (set_stats bump_audit_failed r) in
    set_audits (alter (fun _ => audit_again now rnd p) id (auditPending r)) (auditBytes r) r.

(** ** Owner, reconciliation *)

Definition confirm_lease (now : time) (r : Recorder) : Recorder :=
  set_owner (owner r) (TimeAdd now (wrap64 (o_LeaseDuration (opts r) - WriteTimeout (opts r)))) r.

Definition register_settle (id : string) (e : option rec_err) (now : time) (r : Recorder) : Recorder :=
  if bool_decide (e = None) && String.eqb id (owner r) then confirm_lease now r
  else warnLocked "instance_registration_failed" now r.

(** What a heartbeat goes on with: a new registration, nothing, or the restoration of
    rows marked while the lease had lapsed. *)
Inductive heartbeat_next := Reregister | Stop | Restore.
Definition heartbeat_settle (id : string) (e : option rec_err) (uuid : string) (now : time) (r : Recorder)
    : heartbeat_next * Recorder :=
  match e with
  | Some e =>
      if permanentOwnerError e
      then (Reregister, if String.eqb id (owner r) then set_owner uuid zero_time r else r)
      else (Stop, warnLocked "instance_heartbeat_failed" now r)
  | None => (Restore, if String.eqb id (owner r) then confirm_lease now r else r)
  end.

Definition prune_ips (now : time) (r : Recorder) : Recorder :=
  set_budgets (filter (fun kv => negb (IPTTL (opts r) <=? TimeSub now (seen kv.2)) = true) (ips r))
    (authBudget r) (unauthBudget r) r.

Definition trackedOperations (r : Recorder) : list string := elements (active r) ++ (map_to_list (pending r)).*1.

(** [reconciled] is the store's running count. *)
Definition reconcile_settle (failed : bool) (reconciled : Z) (now : time) (r : Recorder) : Recorder :=
  set_stats (note_reconciled reconciled) (if failed then warnLocked "usage_reconcile_failed" now r else r).

(** ** Cleanup rounds: [drainCleanup] *)

Definition cleanupRoundBatches : nat := 100.
(** What a batch meets: the round's context is done before it or after the pending
    reconciliation, the parent's is; the cleanup's error ([Some true] a deadline) and
    whether a counter moved; whether the round's deadline has passed. *)
Record batch := MkBatch {
  round_over : bool; over_after_reconcile : bool; parent_over : bool; parent_over_after : bool;
  cleanup_error : option bool; moved : bool; round_deadline : bool }.

(** [env n] is what the batch with [n] more to come meets; the budget used up asks for a
    short pause only. *)
Fixpoint drain (env : nat -> batch) (limit : nat) (any : bool) : bool :=
  match limit with
  | O => true
  | S limit =>
      let b := env limit in
      if round_over b || over_after_reconcile b then negb (parent_over b) && any
      else
        let any := any || moved b in
        if parent_over_after b then false
        else match cleanup_error b with
             | Some deadline => deadline && (moved b || (any && round_deadline b))
             | None => if moved b then drain env limit any else false
             end
  end.
Definition drainCleanup (has_store parent_over : bool) (env : nat -> batch) : bool :=
  if negb has_store || parent_over then false else drain env cleanupRoundBatches false.

(** ** [Stats] *)

Record StatsReport := MkReport {
  counters : Stats; Active : Z; Pending : Z; PendingBytes : Z; AuditPending : Z; AuditPendingBytes : Z; OldestPendingMS : Z }.
Definition StatsOf (now : time) (r : Recorder) : StatsReport :=
  MkReport (stats r) (Z.of_nat (size (active r))) (Z.of_nat (size (pending r))) (pendingBytes r)
    (Z.of_nat (size (auditPending r))) (auditBytes r)
    (foldl (fun m p => Z.max m (Z.quot (TimeSub now (born p)) Millisecond)) 0 (map_to_list (pending r)).*2).
