(* ===== verification/UsageCapture.v ===== *)
(** * The recorder at work: goroutines, the database and time

    The world is the recorder, the operations of the process, the goroutines between
    two of their critical sections, the database and, while it runs, the recorder's
    reconciliation transaction on an owner's row.  [step] performs one event: a section
    of some goroutine, a claim or release of a slot, a database transaction (which may
    fail, or commit although its answer is lost), a transaction of another instance.
    Which goroutine goes next, the clocks and the order of maps are the events' choice,
    so a theorem over all runs covers every interleaving.

    [saved], [skipped] and [lost] are ghosts: they record how [Finish] and the retries
    disposed of each operation and influence nothing. *)

From S2P Require Import Prelude GoStrings Float64 Text UsageLog UsageRepo UsageRecorder.

(** ** Goroutines *)

Inductive write_kind :=
| KBegin | KFinal (c : bool) | KPhase | KRetry (id : string) (p : pendingUsage) | KRestore (rest : list string).

(** What a goroutine does with the slots it claims. *)
Inductive job :=
| JWrite (k : write_kind) (v : UsageLog)
| JAudit (e : AuditEvent) | JAuditRetry (id : string) (p : pendingAudit)
| JRegister (id : string) | JHeartbeat (id : string) | JUnknown (id : string)
| JReconcile (id : string) | JCleanup.

(** The answer of the store: the operation ids [OwnerUnknown] lists, otherwise none. *)
Abbreviation answer := (result rec_err (list string)) (only parsing).

Inductive stage := SClaim (todo : list slot) | SCall | SRelease (a : answer) | SReport (e : rec_err) | SSettle (a : answer).

Inductive task :=
| TBegin (id : string)
| TFinish (v : UsageLog)
| TPhaseGot (id : string)
| TPhase (id : string)
| TRestore (ids : list string)
| TRefresh (id : string) (rest : list string)
| TReregister
| TJob (j : job) (held : list slot) (st : stage).

Definition job_slots (j : job) : list slot :=
  match j with
  | JWrite (KFinal c) _ => write_slots c
  | JWrite (KRetry _ p) _ => write_slots (completion p)
  | JWrite _ _ => write_slots false
  | JAudit _ | JAuditRetry _ _ => audit_slots
  | JRegister _ | JHeartbeat _ => owner_slots
  | JUnknown _ | JReconcile _ | JCleanup => maintenance_slots
  end.
Definition start (j : job) : task := TJob j [] (SClaim (job_slots j)).

Definition answer_error (a : answer) : option rec_err := match a with Ok _ => None | Err e => Some e end.

(** After the slots are back: a failed write is reported first. *)
Definition released (j : job) (a : answer) : stage :=
  match j, a with JWrite _ _, Err e => SReport e | _, _ => SSettle a end.

Definition failure_reason (k : write_kind) : string :=
  match k with
  | KBegin => "start_write_failed" | KFinal _ => "final_write_failed" | KPhase => "phase_write_failed"
  | KRetry _ _ => "final_retry_failed" | KRestore _ => "active_restore_failed"
  end.

(** The reconciliation transaction of a goroutine on the row of an owner: what the row says,
    and the operations it found tracked once it has asked. *)
Record reconciling := MkReconciling { rt_task : nat; rt_owner : string; rt_state : owner_state; rt_tracked : option (list string) }.

Record world := MkWorld {
  rec : Recorder; ops : gmap string Operation; tasks : gmap nat task; wdb : db;
  lock : option reconciling; used_owners : gset string;
  skipped : gset string; saved : gset string; lost : gset string }.

Definition with_rec (r : Recorder) (w : world) : world :=
  MkWorld r (ops w) (tasks w) (wdb w) (lock w) (used_owners w) (skipped w) (saved w) (lost w).
Definition with_op (id : string) (op : Operation) (w : world) : world :=
  MkWorld (rec w) (<[id := op]> (ops w)) (tasks w) (wdb w) (lock w) (used_owners w) (skipped w) (saved w) (lost w).
(** The goroutine [t] goes on with [o], or ends. *)
Definition with_task (t : nat) (o : option task) (w : world) : world :=
  MkWorld (rec w) (ops w) (partial_alter (fun _ => o) t (tasks w)) (wdb w) (lock w) (used_owners w) (skipped w) (saved w)
    (lost w).
Definition with_db (d : db) (w : world) : world :=
  MkWorld (rec w) (ops w) (tasks w) d (lock w) (used_owners w) (skipped w) (saved w) (lost w).
Definition with_lock (l : option reconciling) (w : world) : world :=
  MkWorld (rec w) (ops w) (tasks w) (wdb w) l (used_owners w) (skipped w) (saved w) (lost w).
Definition with_used (id : string) (w : world) : world :=
  MkWorld (rec w) (ops w) (tasks w) (wdb w) (lock w) ({[id]} ∪ used_owners w) (skipped w) (saved w) (lost w).
Definition note_skipped (id : string) (w : world) : world :=
  MkWorld (rec w) (ops w) (tasks w) (wdb w) (lock w) (used_owners w) ({[id]} ∪ skipped w) (saved w) (lost w).
Definition note_fate (f : fate) (id : string) (w : world) : world :=
  MkWorld (rec w) (ops w) (tasks w) (wdb w) (lock w) (used_owners w) (skipped w)
    (match f with Saved => {[id]} ∪ saved w | _ => saved w end) (match f with Lost => {[id]} ∪ lost w | _ => lost w end).
Definition note_lost (ids : list string) (w : world) : world :=
  MkWorld (rec w) (ops w) (tasks w) (wdb w) (lock w) (used_owners w) (skipped w) (saved w) (list_to_set ids ∪ lost w).

(** ** Events *)

(** The calls of middleware and handlers on an operation. *)
Inductive op_call :=
| CPrincipal (p : Principal) | CResource (kind : string) (id : option Z) (name : string) (srv : option Z)
| CResult (outcome reason : string) | CStatus (s : Z) | CError (s : Z) (reason : string) | CExec (code : option Z)
| CRelay (s n : Z) | CPhase (phase : string) (now : time) | CMetadata (key : string) (v : any).

Definition apply_call `{usage} (c : op_call) (op : Operation) : Operation :=
  match c with
  | CPrincipal p => (SetPrincipal p op).2
  | CResource kind id name srv => SetResource kind id name srv op
  | CResult o reason => SetResult o reason op
  | CStatus s => SetHTTPStatus s op
  | CError s reason => SetHTTPError s reason op
  | CExec c => SetExecResult c op
  | CRelay s n => SetRelayResult s n op
  | CPhase p now => (SetPhase p now op).2
  | CMetadata k v => SetMetadata k v op
  end.

(** How a transaction ends: with the answer, with an error and no effect, or with an
    error after it committed. *)
Inductive store_end := Answers | Fails (e : usage_err) | Unheard (e : usage_err).

(** A transaction of another instance, or a cleanup of any instance. *)
Inductive env_txn :=
| EnvRegister (id : string) | EnvHeartbeat (id : string) | EnvUpsert (v : UsageLog)
| EnvReconcile (self id : string) (tracked : list string) (skip : string -> bool) (limit : nat)
| EnvCleanup (op : string) (owner_locked row_locked : bool) | EnvCleanupInstance (id : string) (locked : bool).

Inductive work_event :=
| ENew (uuid action route requestID method client : string) (now : time)
| ECall (id : string) (c : op_call)
| EAdmitShort (id : string) (now : time)
| ESchedulePhase (id : string)
| EBegin (t : nat) (id : string)
| EBeginAdmit (t : nat) (now : time)
| EFinish (t : nat) (id : string) (status : Z) (now : time)
| EFinishDecide (t : nat) (now : time)
| EPhaseReceive (t : nat)
| EPhaseLookup (t : nat)
| EPhaseWrite (t : nat)
| ERetry (t : nat) (order : list string) (now : time)
| ERestoreNext (t : nat)
| ERefresh (t : nat)
| EAudit (t : nat) (uuid : string) (e : AuditEvent) (now : time)
| EAuditRetry (t : nat) (order : list string) (now : time)
| ERegister (t : nat) | EHeartbeat (t : nat) | EReconcile (t : nat) (now : time) | ECleanupRound (t : nat)
| ERuntime (c : option (Z * Z)).

Inductive job_event :=
| EClaim (t : nat)
| ECallStore (t : nat) (p : UsagePolicy) (now : time) (z : store_end)
| ELock (t : nat) (id : string) (now : time)
| ETracked (t : nat)
| EApply (t : nat) (skip : string -> bool) (limit : nat) (now : time) (commits : bool)
| ERelease (t : nat)
| EReport (t : nat) (now : time)
| ESettle (t : nat) (uuid : string) (now : time) (rnd : spec_float) (reconciled : Z)
| EEnv (p : UsagePolicy) (now : time) (x : env_txn).

Inductive usage_event := Work (e : work_event) | Job (e : job_event).

(** ** Steps *)

Section step.
Context `{U : usage} `{AJ : audit_json} (cfg : UsageLogRepoConfig).

Definition fresh (t : nat) (w : world) : bool := bool_decide (tasks w !! t = None).

(** A goroutine that starts, goes on or ends where the recorder becomes [r]. *)
Definition go (t : nat) (o : option task) (r : Recorder) (w : world) : world := with_rec r (with_task t o w).

Definition step_work (e : work_event) (w : world) : option world :=
  let r := rec w in
  match e with
  | ENew uuid action route requestID method client now =>
      if bool_decide (uuid <> "" /\ ops w !! uuid = None /\ logs (wdb w) !! uuid = None)
      then Some (with_op uuid (NewOperation uuid action route requestID method client now) w) else None
  | ECall id c => op ← ops w !! id; Some (with_op id (apply_call c op) w)
  | EAdmitShort id now =>
      op ← ops w !! id;
      let '(op, r) := AdmitShort now op r in Some (with_rec r (with_op id op w))
  | ESchedulePhase id => Some (with_rec (schedulePhase id r) w)
  | EBegin t id =>
      op ← ops w !! id;
      match begin_claim op with
      | (BeginDone _, _) => Some w
      | (BeginContinue, op) => if fresh t w then Some (with_task t (Some (TBegin id)) (with_op id op w)) else None
      end
  | EBeginAdmit t now =>
      match tasks w !! t with
      | Some (TBegin id) =>
          op ← ops w !! id;
          let '(o, op, r) := begin_admit now op r in
          Some (go t (option_map (fun v => start (JWrite KBegin v)) o) r (with_op id op w))
      | _ => None
      end
  | EFinish t id status now =>
      op ← ops w !! id;
      match finish_op status now op with
      | (None, _) => Some w
      | (Some v, op) => if fresh t w then Some (with_task t (Some (TFinish v)) (with_op id op w)) else None
      end
  | EFinishDecide t now =>
      match tasks w !! t with
      | Some (TFinish v) =>
          op ← ops w !! OperationID v;
          match finish_decide v now op r with
          | (Some c, op, r) => Some (go t (Some (start (JWrite (KFinal c) v))) r (with_op (OperationID v) op w))
          | (None, op, r) => Some (note_skipped (OperationID v) (go t None r (with_op (OperationID v) op w)))
          end
      | _ => None
      end
  | EPhaseReceive t =>
      '(id, r) ← phase_receive r;
      if fresh t w then Some (go t (Some (TPhaseGot id)) r w) else None
  | EPhaseLookup t =>
      match tasks w !! t with
      | Some (TPhaseGot id) =>
          let '(found, r) := persistPhase_lookup id r in Some (go t (if found then Some (TPhase id) else None) r w)
      | _ => None
      end
  | EPhaseWrite t =>
      match tasks w !! t with
      | Some (TPhase id) =>
          op ← ops w !! id;
          Some (with_task t (if finished op then None else Some (start (JWrite KPhase (snapshotLocked op)))) w)
      | _ => None
      end
  | ERetry t order now =>
      if fresh t w && bool_decide (order ≡ₚ (map_to_list (pending r)).*1) then
        let '(dropped, o, r) := retry_scan order now [] r in
        Some (note_lost dropped (go t (option_map (fun kp => start (JWrite (KRetry kp.1 kp.2) (p_row kp.2))) o) r w))
      else None
  | ERestoreNext t =>
      match tasks w !! t with
      | Some (TRestore []) => Some (with_task t None w)
      | Some (TRestore (id :: rest)) =>
          Some (with_task t (Some (if bool_decide (id ∈ active r) then TRefresh id rest else TRestore rest)) w)
      | _ => None
      end
  | ERefresh t =>
      match tasks w !! t with
      | Some (TRefresh id rest) =>
          op ← ops w !! id;
          match refreshRunning op with
          | (Some v, op) => Some (with_task t (Some (start (JWrite (KRestore rest) v))) (with_op id op w))
          | (None, _) => Some (with_task t (Some (TRestore rest)) w)
          end
      | _ => None
      end
  | EAudit t uuid e now =>
      if has_audit r
      then if fresh t w then Some (with_task t (Some (start (JAudit (safe_event uuid e)))) w) else None
      else Some (with_rec (audit_unavailable now r) w)
  | EAuditRetry t order now =>
      if fresh t w && bool_decide (order ≡ₚ (map_to_list (auditPending r)).*1) then
        let '(o, r) := audit_scan order now r in
        Some (go t (option_map (fun kp => start (JAuditRetry kp.1 kp.2)) o) r w)
      else None
  | ERegister t =>
      if has_store r && (fresh t w || match tasks w !! t with Some TReregister => true | _ => false end)
      then Some (with_task t (Some (start (JRegister (owner r)))) w) else None
  | EHeartbeat t =>
      if has_store r && fresh t w then Some (with_task t (Some (start (JHeartbeat (owner r)))) w) else None
  | EReconcile t now =>
      if has_store r && fresh t w
      then Some (go t (Some (start (JReconcile (owner r)))) (prune_ips now r) w) else None
  | ECleanupRound t =>
      if has_store r && fresh t w then Some (with_task t (Some (start JCleanup)) w) else None
  | ERuntime c => Some (with_rec (SetRuntime c r) w)
  end.

(** The owner's row is locked by the reconciliation in progress. *)
Definition owner_locked (id : string) (w : world) : bool :=
  match lock w with
  | Some l => String.eqb id (rt_owner l) && negb (bool_decide (rt_state l = OwnerMissing))
  | None => false
  end.
Definition reconciles (t : nat) (w : world) : bool :=
  match lock w with Some l => Nat.eqb (rt_task l) t | None => false end.

(** The store's part of a job: [None] while it waits for a lock or, for the jobs that run
    several transactions, while one of them is open. *)
Definition store_call (t : nat) (j : job) (p : UsagePolicy) (now : time) (w : world) : option (result usage_err (db * list string)) :=
  let d := wdb w in
  let done (x : result usage_err db) := Some (try d := x in Ok (d, [])) in
  match j with
  | JWrite _ v =>
      if match OwnerInstanceID v with Some id => owner_locked id w | None => false end then None
      else done (Upsert p v now d)
  | JAudit _ | JAuditRetry _ _ | JCleanup => done (Ok d)
  | JRegister id => if owner_locked id w then None else done (RegisterInstance cfg id now d)
  | JHeartbeat id => if owner_locked id w then None else done (Heartbeat cfg id now d)
  | JUnknown id => Some (Ok (d, OwnerUnknown cfg id d))
  | JReconcile _ => if reconciles t w then None else done (Ok d)
  end.

Definition env_step (p : UsagePolicy) (now : time) (x : env_txn) (w : world) : option world :=
  let d := wdb w in
  let done (x : result usage_err db) := match x with Ok d => Some (with_db d w) | Err _ => None end in
  match x with
  | EnvRegister id => if owner_locked id w then None else done (RegisterInstance cfg id now d)
  | EnvHeartbeat id => if owner_locked id w then None else done (Heartbeat cfg id now d)
  | EnvUpsert v =>
      if match OwnerInstanceID v with Some id => owner_locked id w | None => false end
         || bool_decide (ops w !! OperationID v <> None)
      then None else done (Upsert p v now d)
  | EnvReconcile self id tracked skip limit =>
      if bool_decide (self ∈ used_owners w) || owner_locked id w then None
      else match reconcile_owner self id now d with
           | Some s => done (Ok (reconcile_apply cfg id s tracked skip limit now d).2)
           | None => None
           end
  | EnvCleanup op ol rl => done (Ok (cleanup_tx p op ol rl now d))
  | EnvCleanupInstance id l => done (Ok (cleanup_instance_tx id l now d))
  end.

Definition settle (t : nat) (j : job) (a : answer) (uuid : string) (now : time) (rnd : spec_float) (reconciled : Z)
    (w : world) : world :=
  let r := rec w in let e := answer_error a in
  match j with
  | JWrite KBegin _ | JWrite KPhase _ => with_task t None w
  | JWrite (KRestore rest) _ => with_task t (Some (TRestore rest)) w
  | JWrite (KFinal c) v =>
      let '(f, r) := finish_settle v c e now rnd r in note_fate f (OperationID v) (go t None r w)
  | JWrite (KRetry id p) _ =>
      let '(f, r) := retry_settle id p e now rnd r in note_fate f id (go t None r w)
  | JAudit ev => go t None (if bool_decide (e = None) then r else audit_failed ev now rnd r) w
  | JAuditRetry id p => go t None (audit_settle id p (negb (bool_decide (e = None))) now rnd r) w
  | JRegister id => go t None (register_settle id e now r) w
  | JHeartbeat id =>
      let '(n, r) := heartbeat_settle id e uuid now r in
      with_used (owner r) (go t (match n with Reregister => Some TReregister | Stop => None
                                 | Restore => Some (start (JUnknown id)) end) r w)
  | JUnknown _ => with_task t (match a with Ok ids => Some (TRestore ids) | Err _ => None end) w
  | JReconcile _ => go t None (reconcile_settle (negb (bool_decide (e = None))) reconciled now r) w
  | JCleanup => go t None (if bool_decide (e = None) then r else warnLocked "usage_cleanup_failed" now r) w
  end.

Definition step_job (e : job_event) (w : world) : option world :=
  let r := rec w in
  match e with
  | EClaim t =>
      match tasks w !! t with
      | Some (TJob j held (SClaim [])) => Some (with_task t (Some (TJob j held SCall)) w)
      | Some (TJob j held (SClaim (s :: todo))) =>
          match slot_take s r with
          | Some r => Some (go t (Some (TJob j (s :: held) (SClaim todo))) r w)
          | None => Some (with_task t (Some (TJob j held (SRelease (Err errNoWriteSlot)))) w)
          end
      | _ => None
      end
  | ECallStore t p now z =>
      match tasks w !! t with
      | Some (TJob j held SCall) =>
          let ends a := with_task t (Some (TJob j held (SRelease a))) in
          match z with
          | Fails e => if reconciles t w then None else Some (ends (Err (StoreErr e)) w)
          | Answers =>
              x ← store_call t j p now w;
              Some match x with Ok (d, ids) => ends (Ok ids) (with_db d w) | Err e => ends (Err (StoreErr e)) w end
          | Unheard e =>
              x ← store_call t j p now w;
              Some (ends (Err (StoreErr e)) match x with Ok (d, _) => with_db d w | Err _ => w end)
          end
      | _ => None
      end
  | ELock t id now =>
      match tasks w !! t, lock w with
      | Some (TJob (JReconcile self) _ SCall), None =>
          s ← reconcile_owner self id now (wdb w);
          Some (with_lock (Some (MkReconciling t id s None)) w)
      | _, _ => None
      end
  | ETracked t =>
      l ← lock w;
      if Nat.eqb (rt_task l) t && bool_decide (rt_state l = OwnerHealthy)
      then Some (with_lock (Some (MkReconciling t (rt_owner l) OwnerHealthy (Some (trackedOperations r)))) w) else None
  | EApply t skip limit now commits =>
      l ← lock w;
      if Nat.eqb (rt_task l) t && negb (bool_decide (rt_state l = OwnerHealthy /\ rt_tracked l = None)) then
        let d := if commits : bool
                 then (reconcile_apply cfg (rt_owner l) (rt_state l) (default [] (rt_tracked l)) skip limit now (wdb w)).2
                 else wdb w in
        Some (with_lock None (with_db d w))
      else None
  | ERelease t =>
      match tasks w !! t with
      | Some (TJob j (s :: held) (SRelease a)) => Some (go t (Some (TJob j held (SRelease a))) (slot_release s r) w)
      | Some (TJob j [] (SRelease a)) => Some (with_task t (Some (TJob j [] (released j a))) w)
      | _ => None
      end
  | EReport t now =>
      match tasks w !! t with
      | Some (TJob (JWrite k v) [] (SReport e)) =>
          Some (go t (Some (TJob (JWrite k v) [] (SSettle (Err e)))) (writeFailure (failure_reason k) now r) w)
      | _ => None
      end
  | ESettle t uuid now rnd reconciled =>
      match tasks w !! t with
      | Some (TJob j [] (SSettle a)) => Some (settle t j a uuid now rnd reconciled w)
      | _ => None
      end
  | EEnv p now x => env_step p now x w
  end.

Definition step (e : usage_event) (w : world) : option world :=
  match e with Work e => step_work e w | Job e => step_job e w end.

Fixpoint run (l : list usage_event) (w : world) : option world :=
  match l with [] => Some w | e :: l => match step e w with Some w => run l w | None => None end end.

Definition init (store audit : bool) (uuid : string) (o : Options) (d : db) : world :=
  MkWorld (NewRecorder store audit uuid o) ∅ ∅ d None {[uuid]} ∅ ∅ ∅.

(** The worlds a process can reach from its start on any keyed database. *)
Definition reachable (w : world) : Prop :=
  exists store audit uuid o d l, keyed d /\ run l (init store audit uuid o d) = Some w.

Lemma reachable_inv (P : world -> Prop) :
  (forall store audit uuid o d, keyed d -> P (init store audit uuid o d)) ->
  (forall e w w', P w -> step e w = Some w' -> P w') ->
  forall w, reachable w -> P w.
Proof.
  intros Hi Hs w (store & audit & uuid & o & d & l & Hd & Hr). specialize (Hi store audit uuid o d Hd).
  revert Hi Hr. generalize (init store audit uuid o d). induction l as [|e l IH]; intros w0 H0; [by intros [= <-]|].
  cbn [run]. destruct (step e w0) as [w1|] eqn:E; [|done]. by apply IH, (Hs e w0).
Qed.
End step.

(** ** A run

    A process registers, runs one command, and its final write commits but is never
    heard of, so the result waits in the retry queue. *)
Module Demo.
#[export] Instance json : usage := plain_json.
#[export] Instance audit : audit_json := { audit_size := fun _ => 50; audit_size_nonneg := fun _ => ltac:(done) }.

Definition cfg : UsageLogRepoConfig := NewUsageLogRepo (MkRepoConfig 0 0 0 0 0).
Definition options : Options :=
  MkOptions 0 0 0 0 0 0 0 0 0 0 0 0 0 0 0 (f64 0) (f64 0) (f64 0) (f64 0) (f64 0) (f64 0) 0 0.
Definition policy : UsagePolicy := WithDefaults (MkUsagePolicy 0 0 0).
Definition empty_db : db := MkDb ∅ ∅ 1 false.
Definition noon : time := 1000 * Day.
Definition user : Principal := MkPrincipal "jwt" (Some 1) "bob" None "" "" "admin" [] [] 0.

(** A goroutine claims [n] slots, calls the store, releases them and settles. *)
Definition write (t n : nat) (z : store_end) : list usage_event :=
  repeat (Job (EClaim t)) (S n) ++ [Job (ECallStore t policy noon z)] ++ repeat (Job (ERelease t)) (S n).
Definition settle_at (t : nat) : list usage_event := [Job (ESettle t "" noon (f64 0) 0)].

Definition events : list usage_event :=
  [Work (ERegister 1)] ++ write 1 2 Answers ++ settle_at 1 ++
  [Work (ENew "op1" "server.exec" "/exec" "r" "POST" "192.0.2.1:5" noon); Work (ECall "op1" (CPrincipal user));
   Work (EBegin 2 "op1"); Work (EBeginAdmit 2 noon)] ++ write 2 3 Answers ++ settle_at 2 ++
  [Work (EFinish 3 "op1" 200 (noon + Second)); Work (EFinishDecide 3 noon)] ++
  write 3 2 (Unheard ErrDeadlineExceeded) ++ [Job (EReport 3 noon)] ++ settle_at 3.

Definition start : world := init true true "own" options empty_db.
Definition final : world := default start (run cfg events start).

Lemma empty_keyed : keyed empty_db.
Proof. intros op r. cbn. by rewrite lookup_empty. Qed.

Lemma final_reachable : reachable cfg final.
Proof. exists true, true, "own", options, empty_db, events. split; [apply empty_keyed|]. by vm_compute. Qed.

Definition operation : Operation := default (NewOperation "" "" "" "" "" "" 0) (ops final !! "op1").
Definition in_history : UsageLog := default (row operation) (logs (wdb final) !! "op1").
End Demo.
