(* ===== verification/UsageBounds.v ===== *)
(** * Bounds of the operation recorder

    Every table, queue and slot channel of a reachable recorder is within its
    configured limit, the byte counters are the sums they stand for, and the slots in
    use are exactly those some goroutine holds. *)

From S2P Require Import Prelude GoStrings Float64 Text UsageLog UsageRepo UsageRecorder UsageCapture.

(** ** Sections that touch neither tables, queues nor slots *)

Definition ips_ok (r : Recorder) : Prop := Z.of_nat (size (ips r)) <= IPLimit (opts r).

Record quiet (r r' : Recorder) : Prop := {
  q_opts : opts r' = opts r; q_active : active r' = active r; q_pending : pending r' = pending r;
  q_bytes : pendingBytes r' = pendingBytes r; q_audits : auditPending r' = auditPending r;
  q_abytes : auditBytes r' = auditBytes r; q_phases : phases r' = phases r; q_slots : slots r' = slots r;
  q_lost : FinalizationLost (stats r') = FinalizationLost (stats r); q_ips : ips_ok r -> ips_ok r' }.

#[export] Instance quiet_refl : Reflexive quiet.
Proof. by split. Qed.
#[export] Instance quiet_trans : Transitive quiet.
Proof. intros r1 r2 r3 [] []. split; try (etrans; eassumption). auto. Qed.

Lemma quiet_stats f r : (forall s, FinalizationLost (f s) = FinalizationLost s) -> quiet r (set_stats f r).
Proof. intros H. split; try done. by cbn. Qed.
Lemma quiet_budgets i a u r :
  (ips_ok r -> Z.of_nat (size i) <= IPLimit (opts r)) -> quiet r (set_budgets i a u r).
Proof. by split. Qed.
Lemma quiet_warn reason now r : quiet r (warnLocked reason now r).
Proof. unfold warnLocked. destruct (_ <? _); [done|by split]. Qed.
Lemma quiet_owner o l r : quiet r (set_owner o l r).
Proof. by split. Qed.

Lemma quiet_admitLocked auth ip now r : quiet r (admitLocked auth ip now r).2.
Proof.
  unfold admitLocked. destruct (negb _); [destruct (bucket_allow _ _ _ _); by apply quiet_budgets|].
  destruct (bucket_allow _ _ _ _) as [ok b]. destruct (negb ok); [by apply quiet_budgets|].
  set (r1 := set_budgets _ _ _ r). assert (quiet r r1) as Q1 by by apply quiet_budgets.
  destruct (ips r1 !! ip) as [ib|] eqn:E.
  - destruct (bucket_allow _ _ _ _) as [ok' b']. etrans; [exact Q1|]. apply quiet_budgets.
    intros H. rewrite map_size_insert_Some by (rewrite E; by eexists). exact H.
  - destruct (_ <=? _) eqn:El; [exact Q1|]. destruct (bucket_allow _ _ _ _) as [ok' b']. etrans; [exact Q1|].
    apply quiet_budgets. intros H. rewrite map_size_insert_None by exact E. bools. unfold ips_ok, r1 in *. cbn in *. lia.
Qed.

Lemma quiet_prune now r : quiet r (prune_ips now r).
Proof.
  apply quiet_budgets. unfold ips_ok. intros H. etrans; [|exact H].
  apply inj_le, map_size_filter.
Qed.

#[export] Hint Resolve quiet_stats quiet_warn quiet_owner quiet_admitLocked quiet_prune : talus.

(** ** Queues with a limit on items and on bytes *)

Section queue.
Context {A : Type} (bytes : A -> Z).
Implicit Types (m : gmap string A).

Record within_limits m (total max_items max_bytes : Z) : Prop := {
  qo_items : Z.of_nat (size m) <= max_items;
  qo_sum : total = total_of bytes m;
  qo_bytes : total <= max_bytes;
  qo_nonneg id a : m !! id = Some a -> 0 <= bytes a }.

Lemma within_limits_empty mi mb : 0 <= mi -> 0 <= mb -> within_limits ∅ 0 mi mb.
Proof. intros. split; [done|by rewrite total_of_empty|done|done]. Qed.

Lemma within_limits_delete m t mi mb id a :
  within_limits m t mi mb -> m !! id = Some a -> within_limits (delete id m) (t - bytes a) mi mb.
Proof.
  intros [Hi Hs Hb Hn] Ha. split.
  - rewrite map_size_delete, Ha. lia.
  - rewrite total_of_delete, Ha. cbn. lia.
  - specialize (Hn id a Ha). lia.
  - intros id' a'. rewrite lookup_delete_Some. intros [_ H]. by eapply Hn.
Qed.

Lemma within_limits_add m t mi mb id a :
  within_limits m t mi mb -> m !! id = None -> Z.of_nat (size m) < mi -> t + bytes a <= mb -> 0 <= bytes a ->
  within_limits (<[id := a]> m) (t + bytes a) mi mb.
Proof.
  intros [Hi Hs Hb Hn] Ha Hl Hm H0. split.
  - rewrite map_size_insert_None by done. lia.
  - rewrite total_of_insert, Ha. cbn. lia.
  - lia.
  - intros id' a'. rewrite lookup_insert_Some. intros [[<- <-]|[_ H]]; [done|by eapply Hn].
Qed.

Lemma within_limits_update m t mi mb id a a' :
  within_limits m t mi mb -> m !! id = Some a -> bytes a' = bytes a -> within_limits (<[id := a']> m) t mi mb.
Proof.
  intros [Hi Hs Hb Hn] Ha E. split.
  - rewrite map_size_insert_Some by (by rewrite Ha; eexists). done.
  - rewrite total_of_insert, Ha. cbn. lia.
  - done.
  - intros id' b. rewrite lookup_insert_Some. intros [[<- <-]|[_ H]]; [rewrite E|]; by eapply Hn.
Qed.
End queue.

(** ** Items in flight

    A goroutine that retries an item holds a pointer to it: the item stays in the queue
    unchanged, and no other goroutine has it. *)

Section owns.
Context {A : Type} (tag : task -> option (string * A)) (busy : A -> bool).
Implicit Types (m : gmap string A) (ts : gmap nat task).

Record owns m ts : Prop := {
  ow_item t k id a : ts !! t = Some k -> tag k = Some (id, a) -> m !! id = Some a /\ busy a = true;
  ow_unique t t' k k' id a a' :
    ts !! t = Some k -> ts !! t' = Some k' -> tag k = Some (id, a) -> tag k' = Some (id, a') -> t = t' }.

Lemma owns_frame m m' ts :
  owns m ts -> (forall id a, m !! id = Some a -> busy a = true -> m' !! id = Some a) -> owns m' ts.
Proof.
  intros [Hi Hu] Hm. split; [|exact Hu]. intros t k id a Hk Ht. destruct (Hi t k id a Hk Ht) as [Ha Hb].
  split; [by apply Hm|done].
Qed.

(** The goroutine goes on with no item it did not have. *)
Lemma owns_go m ts t o :
  owns m ts -> (forall x, o ≫= tag = Some x -> ts !! t ≫= tag = Some x) -> owns m (partial_alter (fun _ => o) t ts).
Proof.
  intros [Hi Hu] Ho.
  assert (forall t' k x, partial_alter (fun _ => o) t ts !! t' = Some k -> tag k = Some x ->
            exists k', ts !! t' = Some k' /\ tag k' = Some x) as Hb.
  { intros t' k x Hk Hx. destruct (decide (t = t')) as [<-|Hne].
    - rewrite lookup_partial_alter_eq in Hk. subst o. cbn in Ho. specialize (Ho x Hx).
      destruct (ts !! t) as [k'|]; [|done]. by exists k'.
    - rewrite lookup_partial_alter_ne in Hk by done. by exists k. }
  split.
  - intros t' k id a Hk Hx. destruct (Hb t' k _ Hk Hx) as (k' & Hk' & Hx'). by eapply Hi.
  - intros t1 t2 k1 k2 id a1 a2 H1 H2 E1 E2. destruct (Hb t1 k1 _ H1 E1) as (k1' & ? & ?).
    destruct (Hb t2 k2 _ H2 E2) as (k2' & ? & ?). by eapply Hu.
Qed.

(** A new goroutine takes an idle item. *)
Lemma owns_claim m m' ts t k id a a' :
  owns m ts -> m !! id = Some a -> busy a = false ->
  (forall id' b, m !! id' = Some b -> busy b = true -> m' !! id' = Some b) ->
  m' !! id = Some a' -> busy a' = true -> ts !! t = None -> tag k = Some (id, a') ->
  owns m' (partial_alter (fun _ => Some k) t ts).
Proof.
  intros [Hi Hu] Ha Hidle Hm Ha' Hb Hfresh Hk.
  assert (forall t' k' b, ts !! t' = Some k' -> tag k' = Some (id, b) -> False) as Hno.
  { intros t' k' b Hk' Ht. destruct (Hi t' k' id b Hk' Ht) as [E Eb]. congruence. }
  split.
  - intros t' k' id' b Hk' Ht. destruct (decide (t = t')) as [<-|Hne].
    + rewrite lookup_partial_alter_eq in Hk'. injection Hk' as <-. rewrite Hk in Ht. by injection Ht as <- <-.
    + rewrite lookup_partial_alter_ne in Hk' by done. destruct (Hi t' k' id' b Hk' Ht) as [E Eb].
      split; [by apply Hm|done].
  - intros t1 t2 k1 k2 id' b1 b2 H1 H2 E1 E2.
    destruct (decide (t = t1)) as [<-|N1], (decide (t = t2)) as [<-|N2]; [done| | |].
    + rewrite lookup_partial_alter_eq in H1. rewrite lookup_partial_alter_ne in H2 by done.
      injection H1 as <-. rewrite Hk in E1. injection E1 as <- <-. by destruct (Hno t2 k2 b2).
    + rewrite lookup_partial_alter_eq in H2. rewrite lookup_partial_alter_ne in H1 by done.
      injection H2 as <-. rewrite Hk in E2. injection E2 as <- <-. by destruct (Hno t1 k1 b1).
    + rewrite lookup_partial_alter_ne in H1, H2 by done. by eapply Hu.
Qed.

(** The goroutine that has an item ends, whatever becomes of the item. *)
Lemma owns_release m m' ts t k id a :
  owns m ts -> ts !! t = Some k -> tag k = Some (id, a) ->
  (forall id' b, id' <> id -> m !! id' = Some b -> m' !! id' = Some b) ->
  owns m' (partial_alter (fun _ => None) t ts).
Proof.
  intros [Hi Hu] Hk Ht Hm. split.
  - intros t' k' id' b Hk' Ht'. destruct (decide (t = t')) as [<-|Hne]; [by rewrite lookup_partial_alter_eq in Hk'|].
    rewrite lookup_partial_alter_ne in Hk' by done. destruct (Hi t' k' id' b Hk' Ht') as [E Eb].
    split; [|done]. apply Hm; [|done]. intros ->. apply Hne. by eapply Hu.
  - intros t1 t2 k1 k2 id' b1 b2 H1 H2 E1 E2.
    destruct (decide (t = t1)) as [<-|N1]; [by rewrite lookup_partial_alter_eq in H1|].
    destruct (decide (t = t2)) as [<-|N2]; [by rewrite lookup_partial_alter_eq in H2|].
    rewrite lookup_partial_alter_ne in H1, H2 by done. by eapply Hu.
Qed.
End owns.

(** ** What the retry passes do *)

(** Everything but the retry queue (or the audit queue) stays. *)
Record but_pending (r r' : Recorder) : Prop := {
  bp_opts : opts r' = opts r; bp_active : active r' = active r; bp_audits : auditPending r' = auditPending r;
  bp_abytes : auditBytes r' = auditBytes r; bp_phases : phases r' = phases r; bp_slots : slots r' = slots r;
  bp_ips : ips r' = ips r }.
Record but_audits (r r' : Recorder) : Prop := {
  ba_opts : opts r' = opts r; ba_active : active r' = active r; ba_pending : pending r' = pending r;
  ba_bytes : pendingBytes r' = pendingBytes r; ba_phases : phases r' = phases r; ba_slots : slots r' = slots r;
  ba_ips : ips r' = ips r; ba_lost : FinalizationLost (stats r') = FinalizationLost (stats r) }.

#[export] Instance but_pending_refl : Reflexive but_pending.
Proof. by split. Qed.
#[export] Instance but_pending_trans : Transitive but_pending.
Proof. intros r1 r2 r3 [] []. split; etrans; eassumption. Qed.
#[export] Instance but_audits_refl : Reflexive but_audits.
Proof. by split. Qed.
#[export] Instance but_audits_trans : Transitive but_audits.
Proof. intros r1 r2 r3 [] []. split; etrans; eassumption. Qed.

Definition pending_ok (r : Recorder) : Prop :=
  within_limits p_bytes (pending r) (pendingBytes r) (RetryItems (opts r)) (RetryBytes (opts r)).
Definition audits_ok (r : Recorder) : Prop :=
  within_limits a_bytes (auditPending r) (auditBytes r) (AuditRetryItems (opts r)) (AuditRetryBytes (opts r)).

(** [l] are the idle items a pass dropped, the last one first. *)
Inductive drops (r : Recorder) : list string -> Recorder -> Prop :=
| drops_nil : drops r [] r
| drops_cons l r1 key item :
    drops r l r1 -> pending r1 !! key = Some item -> p_inFlight item = false ->
    drops r (key :: l) (set_stats bump_lost (drop_pending key item r1)).

Definition taken (r1 : Recorder) (o : option (string * pendingUsage)) (r' : Recorder) : Prop :=
  (o = None /\ r' = r1) \/
  exists key item, o = Some (key, set_inFlight true item) /\ pending r1 !! key = Some item /\ p_inFlight item = false /\
    r' = set_stats bump_retry (put_pending key (set_inFlight true item) r1).

Lemma retry_scan_drops r0 order now dr dr' o r r' :
  drops r0 dr r -> retry_scan order now dr r = (dr', o, r') ->
  exists r1, drops r0 dr' r1 /\ taken r1 o r'.
Proof.
  revert dr r. induction order as [|key order IH]; intros dr r Hd; cbn [retry_scan].
  - intros [= -> <- <-]. exists r. split; [done|by left].
  - destruct (pending r !! key) as [item|] eqn:E; [|by apply IH].
    destruct (p_inFlight item) eqn:Ei; [by apply IH|].
    destruct (_ || _); [apply IH; by apply drops_cons|].
    destruct (negb _); [|by apply IH]. intros [= -> <- <-]. exists r. split; [done|right]. by exists key, item.
Qed.

Lemma drops_frame r l r' : drops r l r' -> but_pending r r'.
Proof. induction 1; [done|]. etrans; [eassumption|]. by split. Qed.
Lemma drops_ok r l r' : drops r l r' -> pending_ok r -> pending_ok r'.
Proof. induction 1; [done|]. intros H'. by apply within_limits_delete; [apply IHdrops|]. Qed.
Lemma drops_busy r l r' id p :
  drops r l r' -> pending r !! id = Some p -> p_inFlight p = true -> pending r' !! id = Some p.
Proof.
  induction 1 as [|l r1 key item Hd IH Hk Hi]; [done|]. intros Hp Hb. cbn. specialize (IH Hp Hb).
  rewrite lookup_delete_ne; [done|]. intros ->. congruence.
Qed.
Lemma drops_lookup r l r' id :
  drops r l r' -> pending r' !! id = if bool_decide (id ∈ l) then None else pending r !! id.
Proof.
  induction 1 as [|l r1 key item Hd IH Hk Hi]; [done|]. cbn. destruct (decide (key = id)) as [->|Hne].
  - rewrite lookup_delete_eq. by rewrite bool_decide_eq_true_2 by left.
  - rewrite lookup_delete_ne, IH by done. rewrite (bool_decide_ext (id ∈ key :: l) (id ∈ l)); [done|].
    rewrite elem_of_cons. naive_solver.
Qed.
Lemma drops_from r l r' id : drops r l r' -> id ∈ l -> is_Some (pending r !! id).
Proof.
  induction 1 as [|l r1 key item Hd IH Hk Hi]; [by intros ?%elem_of_nil|].
  intros [->|Hin]%elem_of_cons; [|by apply IH]. rewrite (drops_lookup _ _ _ _ Hd) in Hk.
  destruct (bool_decide _); [done|by eexists].
Qed.
Lemma drops_nodup r l r' : drops r l r' -> NoDup l.
Proof.
  induction 1 as [|l r1 key item Hd IH Hk Hi]; [constructor|]. constructor; [|done].
  intros Hin. rewrite (drops_lookup _ _ _ _ Hd), bool_decide_eq_true_2 in Hk; done.
Qed.

Lemma taken_frame r1 o r' : taken r1 o r' -> but_pending r1 r'.
Proof. intros [[_ ->]|(? & ? & _ & _ & _ & ->)]; [done|by split]. Qed.
Lemma taken_ok r1 o r' : taken r1 o r' -> pending_ok r1 -> pending_ok r'.
Proof.
  intros [[_ ->]|(key & item & _ & Hk & _ & ->)] H; [done|]. unfold pending_ok. cbn. by eapply within_limits_update.
Qed.
Lemma taken_busy r1 o r' id p :
  taken r1 o r' -> pending r1 !! id = Some p -> p_inFlight p = true -> pending r' !! id = Some p.
Proof.
  intros [[_ ->]|(key & item & _ & Hk & Hi & ->)] Hp Hb; [done|]. cbn. rewrite lookup_insert_ne; [done|].
  intros ->. congruence.
Qed.

Definition audit_taken (r : Recorder) (o : option (string * pendingAudit)) (r' : Recorder) : Prop :=
  match o with
  | None => True
  | Some (id, p) => exists p0, auditPending r !! id = Some p0 /\ a_inFlight p0 = false /\ a_inFlight p = true /\
                      auditPending r' !! id = Some p
  end.

Lemma audit_scan_spec order now o r r' :
  audit_scan order now r = (o, r') -> audits_ok r ->
  but_audits r r' /\ audits_ok r' /\ audit_taken r o r' /\
  (forall id p, auditPending r !! id = Some p -> a_inFlight p = true -> auditPending r' !! id = Some p).
Proof.
  revert r. induction order as [|key order IH]; intros r; cbn [audit_scan]; [by intros [= <- <-]|].
  destruct (auditPending r !! key) as [item|] eqn:E; [|apply IH]. destruct (a_inFlight item) eqn:Ei; [apply IH|].
  destruct (_ <=? _).
  { intros Hs Hok. set (r1 := set_stats _ _) in Hs.
    assert (audits_ok r1) as Hok1 by by apply within_limits_delete.
    destruct (IH r1 Hs Hok1) as (F & Q & T & B). split_and!; [etrans; [|exact F]; by split|exact Q| |].
    - unfold audit_taken in *. destruct o as [[id p]|]; [|done]. destruct T as (p0 & H0 & T). exists p0.
      split; [|exact T]. unfold r1 in H0. cbn in H0. by apply lookup_delete_Some in H0 as [_ H0].
    - intros id p Hp Hb. apply B; [|done]. unfold r1. cbn. rewrite lookup_delete_ne; [done|]. intros ->. congruence. }
  destruct (negb _); [|apply IH]. intros [= <- <-] Hok. split_and!.
  - by split.
  - unfold audits_ok. cbn. by eapply within_limits_update.
  - exists item. cbn. by rewrite lookup_insert_eq.
  - intros id p Hp Hb. cbn. rewrite lookup_insert_ne; [done|]. intros ->. congruence.
Qed.

(** ** The invariant *)

Definition held_count (s : slot) (k : task) : Z :=
  match k with TJob _ held _ => count_if (fun s' => bool_decide (s' = s)) held | _ => 0 end.
Definition retry_tag (k : task) : option (string * pendingUsage) :=
  match k with TJob (JWrite (KRetry id p) _) _ _ => Some (id, p) | _ => None end.
Definition audit_tag (k : task) : option (string * pendingAudit) :=
  match k with TJob (JAuditRetry id p) _ _ => Some (id, p) | _ => None end.

Record tables_ok (r : Recorder) : Prop := {
  tb_active : Z.of_nat (size (active r)) <= ActiveLimit (opts r);
  tb_pending : pending_ok r; tb_audits : audits_ok r; tb_ips : ips_ok r;
  tb_phases : Z.of_nat (List.length (phases r)) <= ActiveLimit (opts r) }.

Record tasks_ok (r : Recorder) (ts : gmap nat task) : Prop := {
  tk_slots s : slots r s = total_of (held_count s) ts;
  tk_cap s : slots r s <= capacity (opts r) s;
  tk_retry : owns retry_tag p_inFlight (pending r) ts;
  tk_audit : owns audit_tag a_inFlight (auditPending r) ts }.

(** A goroutine goes on with the same slots and no other item. *)
Record lighter (old new : option task) : Prop := {
  li_held s : measure (held_count s) new = measure (held_count s) old;
  li_retry x : new ≫= retry_tag = Some x -> old ≫= retry_tag = Some x;
  li_audit x : new ≫= audit_tag = Some x -> old ≫= audit_tag = Some x }.

Lemma tables_quiet r r' : tables_ok r -> quiet r r' -> tables_ok r'.
Proof.
  intros [Ha Hp Hq Hi Hf] Q. split; unfold pending_ok, audits_ok in *;
    rewrite ?(q_opts _ _ Q), ?(q_active _ _ Q), ?(q_pending _ _ Q), ?(q_bytes _ _ Q), ?(q_audits _ _ Q),
      ?(q_abytes _ _ Q), ?(q_phases _ _ Q); [done..| |done].
  by apply (q_ips _ _ Q).
Qed.

(** What a goroutine's own step needs of the recorder's change. *)
Record steady (r r' : Recorder) : Prop := {
  st_opts : opts r' = opts r; st_slots : slots r' = slots r;
  st_pending id p : pending r !! id = Some p -> p_inFlight p = true -> pending r' !! id = Some p;
  st_audit id p : auditPending r !! id = Some p -> a_inFlight p = true -> auditPending r' !! id = Some p }.

Lemma quiet_steady r r' : quiet r r' -> steady r r'.
Proof. intros []. split; [done|done|by rewrite q_pending0|by rewrite q_audits0]. Qed.
#[export] Hint Resolve quiet_steady : talus.

Lemma tasks_steady r r' ts : tasks_ok r ts -> steady r r' -> tasks_ok r' ts.
Proof.
  intros [Hs Hc Hr Ha] [Eo Es Hp Hq]. split; intros; rewrite ?Eo, ?Es; [done|done| |].
  - eapply owns_frame; [exact Hr|done].
  - eapply owns_frame; [exact Ha|done].
Qed.

Lemma tasks_go r r' ts t o :
  tasks_ok r ts -> steady r r' -> lighter (ts !! t) o -> tasks_ok r' (partial_alter (fun _ => o) t ts).
Proof.
  intros H Q [Lh Lr La]. destruct (tasks_steady _ _ _ H Q) as [Hs Hc Hr Ha]. split.
  - intros s. rewrite Hs, total_of_set, Lh. lia.
  - exact Hc.
  - by apply owns_go.
  - by apply owns_go.
Qed.

(** A goroutine that holds nothing. *)
Definition idle (o : option task) : Prop :=
  (forall s, measure (held_count s) o = 0) /\ o ≫= retry_tag = None /\ o ≫= audit_tag = None.
Lemma lighter_idle old new : idle old -> idle new -> lighter old new.
Proof. intros (H1 & _ & _) (H2 & H3 & H4). split; intros; [by rewrite H1, H2|congruence|congruence]. Qed.
Lemma lighter_end old new :
  (forall s, measure (held_count s) old = 0) -> idle new -> lighter old new.
Proof. intros H1 (H2 & H3 & H4). split; intros; [by rewrite H1, H2|congruence|congruence]. Qed.
Lemma measure_bare s j st : measure (held_count s) (Some (TJob j [] st)) = 0.
Proof. done. Qed.
Lemma measure_start s j : measure (held_count s) (Some (start j)) = 0.
Proof. done. Qed.
Lemma idle_none : idle None.
Proof. done. Qed.
Lemma idle_start j :
  match j with JWrite (KRetry _ _) _ | JAuditRetry _ _ => False | _ => True end -> idle (Some (start j)).
Proof. unfold start. intros H. split_and!; [done| |]; by destruct j as [[]| | | | | | |]. Qed.
Lemma idle_fresh t w : fresh t w = true -> idle (tasks w !! t).
Proof. unfold fresh. intros ->%bool_decide_eq_true. done. Qed.

(** ** The sections that change a table *)

Lemma size_add (x : string) (X : gset string) : Z.of_nat (size ({[x]} ∪ X)) <= Z.of_nat (size X) + 1.
Proof.
  rewrite size_union_alt, size_singleton.
  assert (size (X ∖ {[x]}) <= size X)%nat by (apply subseteq_size; set_solver). lia.
Qed.

Section sections.
Context `{U : usage} `{AJ : audit_json}.

Lemma begin_admit_ok now op r o op' r' :
  begin_admit now op r = (o, op', r') -> tables_ok r -> tables_ok r' /\ steady r r'.
Proof.
  unfold begin_admit. destruct (finished op); [intros [= <- <- <-]; by split|].
  set (refused := _ || _ : bool). set (a := if refused then (false, r) else _).
  assert (quiet r a.2) as Q. { unfold a. destruct refused; [done|]. destruct (captureDecided op); [done|apply quiet_admitLocked]. }
  assert (a.1 = true -> Z.of_nat (size (active r)) < ActiveLimit (opts r)) as Hlt.
  { unfold a. destruct refused eqn:E; [done|]. intros _. unfold refused in E. bools. done. }
  destruct a as [[] r1]; cbn [fst snd negb] in *; intros [= <- <- <-] H.
  - assert (tables_ok r1) as H1 by (by eapply tables_quiet).
    split; [|by split; cbn; [apply (q_opts _ _ Q)|apply (q_slots _ _ Q)|intros ? ?; rewrite (q_pending _ _ Q)|intros ? ?; rewrite (q_audits _ _ Q)]].
    destruct H1 as [Ha Hp Hq Hi Hf]. split; try done. cbn.
    etrans; [apply size_add|]. rewrite (q_active _ _ Q), (q_opts _ _ Q). specialize (Hlt eq_refl). lia.
  - assert (quiet r (skip_capture r1)) as Q' by (etrans; [exact Q|by apply quiet_stats]).
    split; [by eapply tables_quiet|by apply quiet_steady].
Qed.

Lemma finish_decide_ok v now op r o op' r' : finish_decide v now op r = (o, op', r') -> quiet r r'.
Proof.
  unfold finish_decide. destruct (_ && _); [by intros [= <- <- <-]|]. destruct (_ && _); [|by intros [= <- <- <-]].
  assert (quiet r (if has_store r then admitLocked (AuthType v) (ClientAddress (facts v)) now r else (false, r)).2) as Q.
  { destruct (has_store r); [apply quiet_admitLocked|done]. }
  destruct (if has_store r then _ else _) as [[] r1]; intros [= <- <- <-]; [exact Q|].
  etrans; [exact Q|by apply quiet_stats].
Qed.

Lemma enwithin_limits v c now rnd r ok r' :
  enqueueUsageLocked v c now rnd r = (ok, r') -> tables_ok r -> pending r !! OperationID v = None ->
  tables_ok r' /\ steady r r' /\ active r' = active r.
Proof.
  unfold enqueueUsageLocked. destruct (_ || _) eqn:E; intros [= <- <-] H Hn; bools.
  - split_and!; [|by split|done]. destruct H. by split.
  - split_and!; [|split; try done; cbn; intros id p Hp _; rewrite lookup_insert_ne; [done|congruence]|done].
    destruct H as [Ha Hp Hq Hi Hf]. split; try done.
    apply (within_limits_add p_bytes _ _ _ _ (OperationID v) (MkPending v now (TimeAdd now (retryDelay rnd 0)) (usage_size v) 0 false c) Hp);
      cbn; [done|lia|lia|apply usage_size_nonneg].
Qed.

Lemma steady_trans r1 r2 r3 : steady r1 r2 -> steady r2 r3 -> steady r1 r3.
Proof. intros [E S P A] [E' S' P' A']. split; [by rewrite E'|by rewrite S'|auto|auto]. Qed.

Lemma finish_settle_ok v c e now rnd r f r' :
  finish_settle v c e now rnd r = (f, r') -> tables_ok r -> pending r !! OperationID v = None ->
  tables_ok r' /\ steady r r'.
Proof.
  unfold finish_settle. intros E H Hn.
  assert (forall r1 (Hd : tables_ok r1 /\ steady r r1 /\ active r1 = active r),
            tables_ok (set_active (active r1 ∖ {[OperationID v]}) r1) /\ steady r (set_active (active r1 ∖ {[OperationID v]}) r1)) as Hrm.
  { intros r1 (H1 & Q & Ea). split; [|eapply steady_trans; [exact Q|by split]].
    destruct H1 as [Ha Hp Hq Hi Hf]. split; try done. cbn.
    assert (size (active r1 ∖ {[OperationID v]}) <= size (active r1))%nat by (apply subseteq_size; set_solver). lia. }
  destruct e as [e|].
  - destruct (_ && _).
    + destruct (enqueueUsageLocked v c now rnd r) as [ok r1] eqn:Eq. injection E as <- <-.
      apply Hrm. by apply (enwithin_limits v c now rnd r ok r1).
    + injection E as <- <-. apply (Hrm (set_stats bump_lost r)). split_and!; [|by split|done]. destruct H. by split.
  - injection E as <- <-. by apply Hrm.
Qed.

Lemma retry_settle_ok id p e now rnd r f r' :
  retry_settle id p e now rnd r = (f, r') -> tables_ok r -> pending r !! id = Some p ->
  tables_ok r' /\ opts r' = opts r /\ slots r' = slots r /\ auditPending r' = auditPending r /\
  (forall id' b, id' <> id -> pending r !! id' = Some b -> pending r' !! id' = Some b).
Proof.
  intros E [Ha Hp Hq Hi Hf] Hk.
  assert (forall r1, r1 = drop_pending id p r -> tables_ok r1 /\ opts r1 = opts r /\ slots r1 = slots r /\
    auditPending r1 = auditPending r /\ (forall id' b, id' <> id -> pending r !! id' = Some b -> pending r1 !! id' = Some b)) as Hdrop.
  { intros r1 ->. split_and!; try done; [|intros; cbn; by rewrite lookup_delete_ne]. split; try done. by apply within_limits_delete. }
  unfold retry_settle in E. destruct e as [e|]; [|injection E as <- <-; by apply Hdrop].
  destruct (permanentUsageError e); injection E as <- <-.
  - destruct (Hdrop _ eq_refl) as ([] & ? & ? & ? & ?). by split_and!; [split| | | |].
  - split_and!; try done; cbn; [|intros; by rewrite lookup_alter_ne]. split; try done. unfold pending_ok. cbn.
    assert (alter (fun _ => retry_again now rnd p) id (pending r) = <[id := retry_again now rnd p]> (pending r)) as ->.
    { apply map_eq. intros i. destruct (decide (id = i)) as [<-|Hne].
      - by rewrite lookup_alter_eq, Hk, lookup_insert_eq.
      - by rewrite lookup_alter_ne, lookup_insert_ne. }
    by eapply within_limits_update.
Qed.

Lemma audit_failed_ok e now rnd r : tables_ok r -> tables_ok (audit_failed e now rnd r) /\ steady r (audit_failed e now rnd r).
Proof.
  intros H. unfold audit_failed. set (r1 := warnLocked _ _ _).
  assert (quiet r r1) as Q by (etrans; [by apply (quiet_stats bump_audit_failed)|apply quiet_warn]).
  pose proof (tables_quiet _ _ H Q) as H1. pose proof (quiet_steady _ _ Q) as S1.
  case_bool_decide as En; [by split|]. destruct (_ || _) eqn:E; bools.
  - split; [|eapply steady_trans; [exact S1|by split]]. destruct H1. by split.
  - destruct H1 as [Ha Hp Hq Hi Hf]. assert (auditPending r1 !! event_id e = None) as Hn.
    { destruct (auditPending r1 !! event_id e); [by destruct En|done]. }
    split; [split; try done|].
    + apply (within_limits_add a_bytes _ _ _ _ (event_id e) (MkPendingAudit e now (TimeAdd now (retryDelay rnd 0)) (audit_size e) 0 false) Hq);
        cbn; [done|lia|lia|apply audit_size_nonneg].
    + eapply steady_trans; [exact S1|]. split; try done. cbn. intros id p Hp' _.
      rewrite lookup_insert_ne; [done|congruence].
Qed.

Lemma audit_settle_ok id p failed now rnd r :
  tables_ok r -> auditPending r !! id = Some p ->
  let r' := audit_settle id p failed now rnd r in
  tables_ok r' /\ opts r' = opts r /\ slots r' = slots r /\ pending r' = pending r /\
  (forall id' b, id' <> id -> auditPending r !! id' = Some b -> auditPending r' !! id' = Some b).
Proof.
  intros H Hk. unfold audit_settle. destruct failed; cbn [negb].
  - set (r1 := warnLocked _ _ _).
    assert (quiet r r1) as Q by (etrans; [by apply (quiet_stats bump_audit_failed)|apply quiet_warn]).
    destruct (tables_quiet _ _ H Q) as [Ha Hp Hq Hi Hf]. split_and!; cbn.
    + split; try done. unfold audits_ok. cbn.
      assert (alter (fun _ => audit_again now rnd p) id (auditPending r1) = <[id := audit_again now rnd p]> (auditPending r1)) as ->.
      { apply map_eq. intros i. destruct (decide (id = i)) as [<-|Hne].
        - by rewrite lookup_alter_eq, (q_audits _ _ Q), Hk, lookup_insert_eq.
        - by rewrite lookup_alter_ne, lookup_insert_ne. }
      eapply within_limits_update; [exact Hq|by rewrite (q_audits _ _ Q)|done].
    + apply (q_opts _ _ Q).
    + apply (q_slots _ _ Q).
    + apply (q_pending _ _ Q).
    + intros. by rewrite lookup_alter_ne, (q_audits _ _ Q).
  - destruct H as [Ha Hp Hq Hi Hf]. split_and!; try done; [|intros; cbn; by rewrite lookup_delete_ne].
    split; try done. by apply within_limits_delete.
Qed.

Lemma schedulePhase_ok id r : tables_ok r -> tables_ok (schedulePhase id r) /\ steady r (schedulePhase id r).
Proof.
  intros [Ha Hp Hq Hi Hf]. unfold schedulePhase. destruct (_ || _); [by split|].
  destruct (_ <? _) eqn:E; bools; (split; [split; try done|by split]). cbn. rewrite length_app. cbn. lia.
Qed.

Lemma quiet_register id e now r : quiet r (register_settle id e now r).
Proof. unfold register_settle. destruct (_ && _); [apply quiet_owner|apply quiet_warn]. Qed.
Lemma quiet_heartbeat id e uuid now r : quiet r (heartbeat_settle id e uuid now r).2.
Proof.
  unfold heartbeat_settle. destruct e as [e|]; [destruct (permanentOwnerError e)|]; cbn; try apply quiet_warn;
    (destruct (String.eqb _ _); [apply quiet_owner|done]).
Qed.
Lemma quiet_reconcile failed n now r : quiet r (reconcile_settle failed n now r).
Proof.
  unfold reconcile_settle. set (r1 := if failed then _ else r). assert (quiet r r1) as Q by (unfold r1; destruct failed; [apply quiet_warn|done]).
  etrans; [exact Q|by apply quiet_stats].
Qed.
Lemma quiet_unavailable now r : quiet r (audit_unavailable now r).
Proof. unfold audit_unavailable. etrans; [|apply quiet_warn]. by split. Qed.
Lemma quiet_failure reason now r : quiet r (writeFailure reason now r).
Proof. unfold writeFailure. etrans; [by apply (quiet_stats bump_write_failed)|apply quiet_warn]. Qed.
Lemma quiet_admit_short now op r : quiet r (AdmitShort now op r).2.
Proof.
  unfold AdmitShort. destruct (finished op || _ || _ || _ || _); [done|].
  assert (quiet r (if has_store r then admitLocked (AuthType (row op)) (ClientAddress (facts (row op))) now r else (false, r)).2) as Q.
  { destruct (has_store r); [apply quiet_admitLocked|done]. }
  destruct (if has_store r then _ else _) as [[] r1]; cbn in *; [exact Q|]. etrans; [exact Q|by apply quiet_stats].
Qed.
End sections.

(** ** Preservation *)

Section preservation.
Context `{U : usage} `{AJ : audit_json} (cfg : UsageLogRepoConfig).

Definition bounded (w : world) : Prop := tables_ok (rec w) /\ tasks_ok (rec w) (tasks w).

(** A first write whose result may still be queued finds no entry of its operation. *)
Definition unqueued (w : world) : Prop :=
  forall t c v h st, tasks w !! t = Some (TJob (JWrite (KFinal c) v) h st) -> pending (rec w) !! OperationID v = None.

Lemma bounded_go w t o w' :
  bounded w -> tables_ok (rec w') -> steady (rec w) (rec w') ->
  tasks w' = partial_alter (fun _ => o) t (tasks w) -> lighter (tasks w !! t) o -> bounded w'.
Proof. intros [_ Ht] Hb Hs Et Hl. split; [exact Hb|]. rewrite Et. by eapply tasks_go. Qed.

Lemma bounded_quiet_go w t o w' :
  bounded w -> quiet (rec w) (rec w') -> tasks w' = partial_alter (fun _ => o) t (tasks w) ->
  lighter (tasks w !! t) o -> bounded w'.
Proof.
  intros H Q. apply (bounded_go w t o w' H); [|by apply quiet_steady]. eapply tables_quiet; [apply H|exact Q].
Qed.

Lemma bounded_stay w w' :
  bounded w -> tables_ok (rec w') -> steady (rec w) (rec w') -> tasks w' = tasks w -> bounded w'.
Proof. intros [_ Ht] Hb Hs Et. split; [exact Hb|]. rewrite Et. by eapply tasks_steady. Qed.

Lemma bounded_quiet w w' : bounded w -> quiet (rec w) (rec w') -> tasks w' = tasks w -> bounded w'.
Proof. intros H Q. apply (bounded_stay w w' H); [|by apply quiet_steady]. eapply tables_quiet; [apply H|exact Q]. Qed.

Lemma idle_task k :
  match k with TJob _ _ _ => False | _ => True end -> idle (Some k).
Proof. by destruct k. Qed.

Lemma lighter_from old new :
  idle old -> match new with
              | None => True
              | Some (TJob (JWrite (KRetry _ _) _) _ _) | Some (TJob (JAuditRetry _ _) _ _) => False
              | Some (TJob _ held _) => held = []
              | Some _ => True
              end -> lighter old new.
Proof.
  intros Ho Hn. apply lighter_idle; [exact Ho|].
  destruct new as [[| | | | | | |j h st]|]; try done.
  assert (h = []) as -> by by destruct j as [[]| | | | | | |].
  split_and!; [done| |]; by destruct j as [[]| | | | | | |].
Qed.

Lemma bounded_retry w t order now dr o r' :
  bounded w -> fresh t w = true -> retry_scan order now [] (rec w) = (dr, o, r') ->
  bounded (note_lost dr (go t (option_map (fun kp => start (JWrite (KRetry kp.1 kp.2) (p_row kp.2))) o) r' w)).
Proof.
  intros [[Ha Hp Hq Hi Hf] [Hs Hc Hr Hau]] Hfr Hscan.
  destruct (retry_scan_drops (rec w) order now [] dr o (rec w) r' (drops_nil _) Hscan) as (r1 & Hd & Htk).
  assert (but_pending (rec w) r') as F by (etrans; [by eapply drops_frame|by eapply taken_frame]).
  pose proof (taken_ok _ _ _ Htk (drops_ok _ _ _ Hd Hp)) as Hp'.
  assert (forall id p, pending (rec w) !! id = Some p -> p_inFlight p = true -> pending r' !! id = Some p) as Hbusy.
  { intros id p E Eb. eapply taken_busy; [exact Htk|by eapply drops_busy|done]. }
  split.
  - split; cbn.
    + by rewrite (bp_active _ _ F), (bp_opts _ _ F).
    + exact Hp'.
    + unfold audits_ok in *. by rewrite (bp_audits _ _ F), (bp_abytes _ _ F), (bp_opts _ _ F).
    + unfold ips_ok in *. by rewrite (bp_ips _ _ F), (bp_opts _ _ F).
    + by rewrite (bp_phases _ _ F), (bp_opts _ _ F).
  - unfold fresh in Hfr. apply bool_decide_eq_true in Hfr.
    split; cbn; intros; rewrite ?(bp_slots _ _ F), ?(bp_opts _ _ F), ?(bp_audits _ _ F).
    + rewrite total_of_set, Hfr, Hs. cbn [measure]. destruct o; cbn [option_map]; rewrite ?measure_start; cbn [measure]; lia.
    + apply Hc.
    + destruct Htk as [[-> ->]|(key & item & -> & Hk & Hidle & ->)]; cbn [option_map fst snd].
      * apply owns_go; [by eapply owns_frame|done].
      * rewrite (drops_lookup _ _ _ _ Hd) in Hk. case_bool_decide; [done|].
        eapply (owns_claim retry_tag p_inFlight _ _ _ t _ key item (set_inFlight true item) Hr Hk Hidle Hbusy); try done.
        cbn. by rewrite lookup_insert_eq.
    + apply owns_go; [done|]. intros x. by destruct o.
Qed.

Lemma bounded_audit_retry w t order now o r' :
  bounded w -> fresh t w = true -> audit_scan order now (rec w) = (o, r') ->
  bounded (go t (option_map (fun kp => start (JAuditRetry kp.1 kp.2)) o) r' w).
Proof.
  intros [[Ha Hp Hq Hi Hf] [Hs Hc Hr Hau]] Hfr Hscan.
  destruct (audit_scan_spec order now o (rec w) r' Hscan Hq) as (F & Hq' & Htk & Hbusy).
  split.
  - split; cbn.
    + by rewrite (ba_active _ _ F), (ba_opts _ _ F).
    + unfold pending_ok in *. by rewrite (ba_pending _ _ F), (ba_bytes _ _ F), (ba_opts _ _ F).
    + exact Hq'.
    + unfold ips_ok in *. by rewrite (ba_ips _ _ F), (ba_opts _ _ F).
    + by rewrite (ba_phases _ _ F), (ba_opts _ _ F).
  - unfold fresh in Hfr. apply bool_decide_eq_true in Hfr.
    split; cbn; intros; rewrite ?(ba_slots _ _ F), ?(ba_opts _ _ F), ?(ba_pending _ _ F).
    + rewrite total_of_set, Hfr, Hs. cbn [measure]. destruct o; cbn [option_map]; rewrite ?measure_start; cbn [measure]; lia.
    + apply Hc.
    + apply owns_go; [done|]. intros x. by destruct o.
    + destruct o as [[id p]|]; cbn [option_map fst snd audit_taken] in *.
      * destruct Htk as (p0 & H0 & Hidle & Hb & Hn).
        by eapply (owns_claim audit_tag a_inFlight _ _ _ t _ id p0 p Hau H0 Hidle Hbusy).
      * apply owns_go; [by eapply owns_frame|done].
Qed.

Lemma bounded_work e w w' : bounded w -> step_work e w = Some w' -> bounded w'.
Proof.
  intros H. pose proof H as [Hb Ht]. destruct e; cbn [step_work].
  - destruct (bool_decide _); [|done]. intros [= <-]. by apply (bounded_quiet w).
  - destruct (ops w !! id); [|done]. intros [= <-]. by apply (bounded_quiet w).
  - destruct (ops w !! id) as [op|]; [|done]. cbn [mbind option_bind].
    pose proof (quiet_admit_short now op (rec w)) as Q. destruct (AdmitShort now op (rec w)). intros [= <-].
    by apply (bounded_quiet w).
  - intros [= <-]. destruct (schedulePhase_ok id (rec w) Hb). by apply (bounded_stay w).
  - destruct (ops w !! id) as [op|]; [|done]. cbn [mbind option_bind]. destruct (begin_claim op) as [[b|] op'].
    + by intros [= <-].
    + destruct (fresh t w) eqn:Hfr; [|done]. intros [= <-].
      apply (bounded_quiet_go w t (Some (TBegin id))); [done..|]. apply lighter_from; [by apply idle_fresh|done].
  - destruct (tasks w !! t) as [[id| | | | | | |]|] eqn:Et; try done.
    destruct (ops w !! id) as [op|]; [|done]. cbn [mbind option_bind].
    destruct (begin_admit now op (rec w)) as [[o op'] r'] eqn:E. intros [= <-].
    destruct (begin_admit_ok _ _ _ _ _ _ E Hb) as [Hb' Q]. eapply (bounded_go w t); [done..|reflexivity|].
    rewrite Et. apply lighter_from; [by apply idle_task|]. by destruct o.
  - destruct (ops w !! id) as [op|]; [|done]. cbn [mbind option_bind]. destruct (finish_op status now op) as [[v|] op'].
    + destruct (fresh t w) eqn:Hfr; [|done]. intros [= <-].
      apply (bounded_quiet_go w t (Some (TFinish v))); [done..|]. apply lighter_from; [by apply idle_fresh|done].
    + by intros [= <-].
  - destruct (tasks w !! t) as [[|v| | | | | |]|] eqn:Et; try done.
    destruct (ops w !! OperationID v) as [op|]; [|done]. cbn [mbind option_bind].
    destruct (finish_decide v now op (rec w)) as [[o op'] r'] eqn:E. pose proof (finish_decide_ok _ _ _ _ _ _ _ E) as Q.
    destruct o as [c|]; intros [= <-]; (eapply (bounded_quiet_go w t); [done|exact Q|reflexivity|]);
      rewrite Et; by apply lighter_from; [apply idle_task|].
  - destruct (phase_receive (rec w)) as [[id r']|] eqn:E; [|done]. cbn [mbind option_bind].
    destruct (fresh t w) eqn:Hfr; [|done]. intros [= <-].
    unfold phase_receive in E. destruct (phases (rec w)) as [|x l] eqn:Eph; [done|]. injection E as <- <-.
    eapply (bounded_go w t); [done| |by split|reflexivity|apply lighter_from; [by apply idle_fresh|done]].
    destruct Hb as [Ha Hp Hq Hi Hf]. split; try done. rewrite Eph in Hf. cbn in *. lia.
  - destruct (tasks w !! t) as [[| |id| | | | |]|] eqn:Et; try done. unfold persistPhase_lookup. intros [= <-].
    eapply (bounded_go w t); [done| |by split|reflexivity|].
    + destruct Hb. by split.
    + rewrite Et. apply lighter_from; [by apply idle_task|]. by destruct (bool_decide _).
  - destruct (tasks w !! t) as [[| | |id| | | |]|] eqn:Et; try done.
    destruct (ops w !! id) as [op|]; [|done]. cbn [mbind option_bind]. intros [= <-].
    eapply (bounded_quiet_go w t); [done..|]. rewrite Et. apply lighter_from; [by apply idle_task|].
    by destruct (finished op).
  - destruct (fresh t w && _) eqn:E; [|done]. apply andb_true_iff in E as [Hfr _].
    destruct (retry_scan order now [] (rec w)) as [[dr o] r'] eqn:Es. intros [= <-]. by eapply bounded_retry.
  - destruct (tasks w !! t) as [[| | | |[|id rest]| | |]|] eqn:Et; try done; intros [= <-];
      (eapply (bounded_quiet_go w t); [done..|]); rewrite Et; apply lighter_from; try by apply idle_task.
    { done. } by destruct (bool_decide (id ∈ active (rec w))).
  - destruct (tasks w !! t) as [[| | | | |id rest| |]|] eqn:Et; try done.
    destruct (ops w !! id) as [op|]; [|done]. cbn [mbind option_bind].
    destruct (refreshRunning op) as [[v|] op']; intros [= <-];
      (eapply (bounded_quiet_go w t); [done..|]); rewrite Et; apply lighter_from; by try apply idle_task.
  - destruct (has_audit (rec w)).
    + destruct (fresh t w) eqn:Hfr; [|done]. intros [= <-].
      eapply (bounded_quiet_go w t); [done..|]. apply lighter_from; [by apply idle_fresh|done].
    + intros [= <-]. apply (bounded_quiet w); [done|apply quiet_unavailable|done].
  - destruct (fresh t w && _) eqn:E; [|done]. apply andb_true_iff in E as [Hfr _].
    destruct (audit_scan order now (rec w)) as [o r'] eqn:Es. intros [= <-]. by eapply bounded_audit_retry.
  - destruct (has_store (rec w) && _) eqn:E; [|done]. apply andb_true_iff in E as [_ E]. intros [= <-].
    eapply (bounded_quiet_go w t); [done..|]. apply lighter_from; [|done].
    apply orb_true_iff in E as [E|E]; [by apply idle_fresh|]. by destruct (tasks w !! t) as [[]|].
  - destruct (has_store (rec w) && _) eqn:E; [|done]. apply andb_true_iff in E as [_ E]. intros [= <-].
    eapply (bounded_quiet_go w t); [done..|]. apply lighter_from; [by apply idle_fresh|done].
  - destruct (has_store (rec w) && _) eqn:E; [|done]. apply andb_true_iff in E as [_ E]. intros [= <-].
    eapply (bounded_quiet_go w t); [done|apply quiet_prune|done|]. apply lighter_from; [by apply idle_fresh|done].
  - destruct (has_store (rec w) && _) eqn:E; [|done]. apply andb_true_iff in E as [_ E]. intros [= <-].
    eapply (bounded_quiet_go w t); [done..|]. apply lighter_from; [by apply idle_fresh|done].
  - intros [= <-]. by apply (bounded_quiet w).
Qed.

Lemma lighter_stage j held st st' : lighter (Some (TJob j held st)) (Some (TJob j held st')).
Proof. split; [done| |]; by destruct j as [[]| | | | | | |]. Qed.
Lemma lighter_done j st new :
  match new with
  | None => True
  | Some (TJob (JWrite (KRetry _ _) _) _ _) | Some (TJob (JAuditRetry _ _) _ _) => False
  | Some (TJob _ held _) => held = []
  | Some _ => True
  end -> lighter (Some (TJob j [] st)) new.
Proof.
  intros Hn. destruct (lighter_from None new idle_none Hn) as [Hh Hr Ha].
  split; [done| |]; intros x Hx; [by specialize (Hr x Hx)|by specialize (Ha x Hx)].
Qed.

Lemma bounded_claim w t j s held todo r' :
  bounded w -> tasks w !! t = Some (TJob j held (SClaim (s :: todo))) -> slot_take s (rec w) = Some r' ->
  bounded (go t (Some (TJob j (s :: held) (SClaim todo))) r' w).
Proof.
  intros [[Ha Hp Hq Hi Hf] [Hs Hc Hr Hau]] Et. unfold slot_take. destruct (_ <? _) eqn:E; [|done]. intros [= <-].
  split; [by split|]. split; cbn.
  - intros s'. rewrite total_of_set, Et, <- Hs. cbn [measure]. unfold held_count. rewrite count_if_cons.
    unfold slots_add. destruct (decide (s = s')) as [->|Hne]; [rewrite bool_decide_eq_true_2 by done|rewrite bool_decide_eq_false_2 by done]; lia.
  - intros s'. unfold slots_add. bools. destruct (decide (s = s')) as [<-|Hne]; [lia|apply Hc].
  - apply owns_go; [done|]. rewrite Et. intros x. by destruct j as [[]| | | | | | |].
  - apply owns_go; [done|]. rewrite Et. intros x. by destruct j as [[]| | | | | | |].
Qed.

Lemma bounded_release w t j s held a :
  bounded w -> tasks w !! t = Some (TJob j (s :: held) (SRelease a)) ->
  bounded (go t (Some (TJob j held (SRelease a))) (slot_release s (rec w)) w).
Proof.
  intros [[Ha Hp Hq Hi Hf] [Hs Hc Hr Hau]] Et. split; [by split|]. split; cbn.
  - intros s'. rewrite total_of_set, Et, <- Hs. cbn [measure]. unfold held_count. rewrite count_if_cons.
    unfold slots_add. destruct (decide (s = s')) as [->|Hne]; [rewrite bool_decide_eq_true_2 by done|rewrite bool_decide_eq_false_2 by done]; lia.
  - intros s'. unfold slots_add. specialize (Hc s'). destruct (decide (s = s')) as [<-|Hne]; lia.
  - apply owns_go; [done|]. rewrite Et. intros x. by destruct j as [[]| | | | | | |].
  - apply owns_go; [done|]. rewrite Et. intros x. by destruct j as [[]| | | | | | |].
Qed.

Lemma bounded_settle w t j a uuid now rnd n :
  bounded w -> unqueued w -> tasks w !! t = Some (TJob j [] (SSettle a)) ->
  bounded (settle t j a uuid now rnd n w).
Proof.
  intros H Hu Et. pose proof H as [Hb Ht]. destruct j as [k v|e|id p|id|id|id|id|]; cbn [settle].
  - destruct k as [|c| |id p|rest].
    + eapply (bounded_quiet_go w t); [done..|]. rewrite Et. by apply lighter_done.
    + destruct (finish_settle v c (answer_error a) now rnd (rec w)) as [f r'] eqn:E.
      destruct (finish_settle_ok _ _ _ _ _ _ _ _ E Hb (Hu _ _ _ _ _ Et)) as [Hb' Q].
      eapply (bounded_go w t); [done..|]. rewrite Et. by apply lighter_done.
    + eapply (bounded_quiet_go w t); [done..|]. rewrite Et. by apply lighter_done.
    + destruct (retry_settle id p (answer_error a) now rnd (rec w)) as [f r'] eqn:E.
      destruct Ht as [Hs Hc Hr Hau]. destruct (ow_item _ _ _ _ Hr t _ id p Et eq_refl) as [Hk _].
      destruct (retry_settle_ok _ _ _ _ _ _ _ _ E Hb Hk) as (Hb' & Eo & Es & Ea & Hne). split; [exact Hb'|].
      split; cbn; intros; rewrite ?Eo, ?Es, ?Ea.
      * rewrite total_of_set, Et, Hs, measure_bare. cbn [measure]. lia.
      * apply Hc.
      * by eapply owns_release.
      * apply owns_go; [done|]. by intros ? ?.
    + eapply (bounded_quiet_go w t); [done..|]. rewrite Et. by apply lighter_done.
  - destruct (audit_failed_ok e now rnd (rec w) Hb) as [Hb' Q].
    eapply (bounded_go w t); [done| | |reflexivity|rewrite Et; by apply lighter_done]; cbn; by destruct (bool_decide _).
  - set (failed := negb _). destruct Ht as [Hs Hc Hr Hau]. destruct (ow_item _ _ _ _ Hau t _ id p Et eq_refl) as [Hk _].
    destruct (audit_settle_ok id p failed now rnd (rec w) Hb Hk) as (Hb' & Eo & Es & Ea & Hne). split; [exact Hb'|].
    split; cbn; intros; rewrite ?Eo, ?Es, ?Ea.
    + rewrite total_of_set, Et, Hs, measure_bare. cbn [measure]. lia.
    + apply Hc.
    + apply owns_go; [done|]. by intros ? ?.
    + by eapply owns_release.
  - eapply (bounded_quiet_go w t); [done|apply quiet_register|done|]. rewrite Et. by apply lighter_done.
  - pose proof (quiet_heartbeat id (answer_error a) uuid now (rec w)) as Q.
    destruct (heartbeat_settle id (answer_error a) uuid now (rec w)) as [nx r'].
    eapply (bounded_quiet_go w t); [done|exact Q|done|]. rewrite Et. apply lighter_done. by destruct nx.
  - eapply (bounded_quiet_go w t); [done..|]. rewrite Et. apply lighter_done. by destruct a.
  - eapply (bounded_quiet_go w t); [done|apply quiet_reconcile|done|]. rewrite Et. by apply lighter_done.
  - eapply (bounded_quiet_go w t); [done| |done|rewrite Et; by apply lighter_done].
    cbn. destruct (bool_decide _); [done|apply quiet_warn].
Qed.

Lemma env_step_db w p now x w' : env_step cfg p now x w = Some w' -> exists d, w' = with_db d w.
Proof.
  intros E. destruct x; cbn [env_step] in E.
  - destruct (owner_locked _ _); [done|]. destruct (RegisterInstance _ _ _ _); [|done]. injection E as <-. by eexists.
  - destruct (owner_locked _ _); [done|]. destruct (Heartbeat _ _ _ _); [|done]. injection E as <-. by eexists.
  - destruct (_ || _); [done|]. destruct (Upsert _ _ _ _); [|done]. injection E as <-. by eexists.
  - destruct (_ || _); [done|]. destruct (reconcile_owner _ _ _ _); [|done]. injection E as <-. by eexists.
  - injection E as <-. by eexists.
  - injection E as <-. by eexists.
Qed.

Lemma bounded_job e w w' : bounded w -> unqueued w -> step_job cfg e w = Some w' -> bounded w'.
Proof.
  intros H Hu. destruct e; cbn [step_job].
  - destruct (tasks w !! t) as [[| | | | | | |j held [[|s todo]| | | |]]|] eqn:Et; try done.
    + intros [= <-]. eapply (bounded_quiet_go w t); [done..|]. rewrite Et. apply lighter_stage.
    + destruct (slot_take s (rec w)) as [r'|] eqn:E; intros [= <-]; [by eapply bounded_claim|].
      eapply (bounded_quiet_go w t); [done..|]. rewrite Et. apply lighter_stage.
  - destruct (tasks w !! t) as [[| | | | | | |j held [| | | |]]|] eqn:Et; try done.
    assert (forall d a, bounded (with_task t (Some (TJob j held (SRelease a))) (with_db d w))) as Hend.
    { intros d a. eapply (bounded_quiet_go w t); [done..|]. rewrite Et. apply lighter_stage. }
    assert (forall a, bounded (with_task t (Some (TJob j held (SRelease a))) w)) as Hend'.
    { intros a. eapply (bounded_quiet_go w t); [done..|]. rewrite Et. apply lighter_stage. }
    destruct z as [|e|e].
    + destruct (store_call cfg t j p now w) as [[[d ids]|e]|]; [| |done]; intros [= <-]; [apply Hend|apply Hend'].
    + destruct (reconciles t w); [done|]. intros [= <-]. apply Hend'.
    + destruct (store_call cfg t j p now w) as [[[d ids]|e']|]; [| |done]; intros [= <-]; [apply Hend|apply Hend'].
  - destruct (tasks w !! t) as [[| | | | | | |[] held []]|] eqn:Et; try done. destruct (lock w); [done|].
    destruct (reconcile_owner _ _ _ _); [|done]. intros [= <-]. by apply (bounded_quiet w).
  - destruct (lock w) as [l|]; [|done]. cbn [mbind option_bind]. destruct (_ && _); [|done]. intros [= <-].
    by apply (bounded_quiet w).
  - destruct (lock w) as [l|]; [|done]. cbn [mbind option_bind]. destruct (_ && _); [|done]. intros [= <-].
    by apply (bounded_quiet w).
  - destruct (tasks w !! t) as [[| | | | | | |j [|s held] [| |a| |]]|] eqn:Et; try done; intros [= <-].
    + eapply (bounded_quiet_go w t); [done..|]. rewrite Et. apply lighter_stage.
    + by apply bounded_release.
  - destruct (tasks w !! t) as [[| | | | | | |[k v| | | | | | |] [|] [| | |e|]]|] eqn:Et; try done. intros [= <-].
    eapply (bounded_quiet_go w t); [done|apply quiet_failure|done|]. rewrite Et. apply lighter_stage.
  - destruct (tasks w !! t) as [[| | | | | | |j [|] [| | | |a]]|] eqn:Et; try done. intros [= <-]. by apply bounded_settle.
  - intros E. destruct (env_step_db _ _ _ _ _ E) as [d ->]. by apply (bounded_quiet w).
Qed.

Lemma defaults_pos o : 0 < ActiveLimit (defaults o) /\ 0 < RetryItems (defaults o) /\ 0 < RetryBytes (defaults o) /\
  0 < AuditRetryItems (defaults o) /\ 0 < AuditRetryBytes (defaults o) /\ 0 < IPLimit (defaults o) /\
  0 < WriteConcurrency (defaults o).
Proof.
  assert (forall v d, 0 < d -> 0 < or_default v d) as H by (intros v d Hd; unfold or_default; destruct (v <=? 0) eqn:E; bools; lia).
  cbn. split_and!; by apply H.
Qed.

Lemma bounded_init store audit uuid o d : bounded (init store audit uuid o d).
Proof.
  pose proof (defaults_pos o) as Hd. unfold init, NewRecorder. generalize dependent (defaults o). intros o' (H1 & H2 & H3 & H4 & H5 & H6 & H7).
  split.
  - split; cbn; [rewrite size_empty; lia|apply within_limits_empty; cbn; lia|apply within_limits_empty; cbn; lia|
      unfold ips_ok; cbn; rewrite map_size_empty; lia|lia].
  - split; [intros; cbn; by rewrite total_of_empty| |by split|by split].
    intros s. cbn [slots rec opts]. unfold capacity. destruct s; lia.
Qed.
End preservation.
