(* ===== verification/UsageAccount.v ===== *)
(** * What becomes of every operation

    Each finished operation is, at every moment, in exactly one place: with the goroutine
    that finishes it, refused capture, saved, in the retry queue, or counted as lost. *)

From S2P Require Import Prelude GoStrings Float64 Text UsageLog UsageRepo UsageRecorder UsageCapture UsageBounds.

Section account.
Context `{U : usage} `{AJ : audit_json} (cfg : UsageLogRepoConfig).

(** ** Operations *)

(** What a setter leaves alone. *)
Record op_same (op op' : Operation) : Prop := {
  os_id : OperationID (row op') = OperationID (row op);
  os_owner : OwnerInstanceID (row op') = OwnerInstanceID (row op);
  os_reason : RecoveryReason (row op') = RecoveryReason (row op);
  os_finished : finished op' = finished op;
  os_begun : beginAttempted op' = beginAttempted op;
  os_decided : captureDecided op' = captureDecided op;
  os_admitted : admitted op' = admitted op }.

Lemma op_same_refl op : op_same op op.
Proof. by split. Qed.

Ltac op_cases := repeat match goal with |- context [if ?b then _ else _] => destruct b end;
  try (by apply op_same_refl); by split.

Lemma apply_call_same c op : op_same op (apply_call c op).
Proof.
  destruct c; cbn [apply_call].
  - unfold SetPrincipal. op_cases.
  - unfold SetResource. op_cases.
  - unfold SetResult. op_cases.
  - unfold SetHTTPStatus. op_cases.
  - unfold SetHTTPError. op_cases.
  - unfold SetExecResult. op_cases.
  - unfold SetRelayResult. op_cases.
  - unfold SetPhase. op_cases.
  - unfold SetMetadata. destruct (normalizeMetadata key v); op_cases.
Qed.

(** Once finished, an operation never changes. *)
Lemma apply_call_finished c op : finished op = true -> apply_call c op = op.
Proof.
  intros H. destruct c; cbn [apply_call].
  - unfold SetPrincipal. rewrite H. by destruct (negb _).
  - unfold SetResource. by rewrite H.
  - unfold SetResult. rewrite H. by destruct (negb _).
  - unfold SetHTTPStatus. rewrite H. by destruct (negb _).
  - unfold SetHTTPError. by rewrite H.
  - unfold SetExecResult. by rewrite H.
  - unfold SetRelayResult. by rewrite H.
  - unfold SetPhase. rewrite H. by destruct (negb _).
  - unfold SetMetadata. rewrite H. by destruct (normalizeMetadata key v).
Qed.

Lemma snapshot_identity op :
  OperationID (snapshotLocked op) = OperationID (row op) /\
  OwnerInstanceID (snapshotLocked op) = OwnerInstanceID (row op) /\
  RecoveryReason (snapshotLocked op) = RecoveryReason (row op) /\
  (finished op = false -> Outcome (snapshotLocked op) = "running").
Proof. unfold snapshotLocked. destruct (finished op); by split_and!. Qed.

Lemma finish_op_spec status now op v op' :
  finish_op status now op = (Some v, op') ->
  finished op = false /\ finished op' = true /\ v = snapshotLocked op' /\
  OperationID (row op') = OperationID (row op) /\ OwnerInstanceID (row op') = OwnerInstanceID (row op) /\
  RecoveryReason (row op') = RecoveryReason (row op) /\ beginAttempted op' = beginAttempted op /\
  captureDecided op' = captureDecided op /\ admitted op' = admitted op.
Proof.
  unfold finish_op. destruct (finished op) eqn:Ef; [done|]. intros [= <- <-].
  assert (forall s r, OperationID (finish_outcome s r) = OperationID r /\ OwnerInstanceID (finish_outcome s r) = OwnerInstanceID r /\
    RecoveryReason (finish_outcome s r) = RecoveryReason r) as Ho.
  { intros s r. unfold finish_outcome. by repeat match goal with |- context [if ?b then _ else _] => destruct b end. }
  split_and!; try done; cbn; destruct (_ && _);
    match goal with |- context [finish_outcome ?s ?r] => destruct (Ho s r) as (E1 & E2 & E3) end; by rewrite ?E1, ?E2, ?E3.
Qed.

Lemma refresh_spec op v op' :
  refreshRunning op = (Some v, op') ->
  finished op = false /\ v = snapshotLocked op' /\ op_same op op'.
Proof. unfold refreshRunning. destruct (finished op) eqn:E; [done|]. intros [= <- <-]. split_and!; [done|done|by split]. Qed.

Lemma begin_claim_spec op op' :
  begin_claim op = (BeginContinue, op') ->
  finished op = false /\ beginAttempted op = false /\ op' = with_capture true (captureDecided op) (admitted op) op.
Proof. unfold begin_claim. destruct (finished op), (beginAttempted op); try done. by intros [= <-]. Qed.

Lemma admit_short_spec now op r op' r' :
  AdmitShort now op r = (op', r') ->
  op' = op \/ (finished op = false /\ captureDecided op = false /\ beginAttempted op = false /\
               exists ok, op' = with_capture (beginAttempted op) true ok op).
Proof.
  unfold AdmitShort. destruct (finished op || captureDecided op || beginAttempted op || _ || _) eqn:E; [intros [= <- _]; by left|].
  bools. destruct (if has_store r then _ else _) as [ok r1]. intros [= <- _]. right. split_and!; [done..|by exists ok].
Qed.

Lemma begin_admit_spec now op r o op' r' :
  begin_admit now op r = (o, op', r') ->
  (o = None /\ op' = op /\ active r' = active r /\ owner r' = owner r) \/
  (exists r1, finished op = false /\ owner r1 = owner r /\ active r1 = active r /\
   op' = with_row (fun v => next_seq (with_owner (Some (owner r)) v))
           (with_capture (beginAttempted op) (captureDecided op) true op) /\
   o = Some (snapshotLocked op') /\ active r' = {[OperationID (row op)]} ∪ active r /\ owner r' = owner r).
Proof.
  assert (forall auth ip, owner (admitLocked auth ip now r).2 = owner r) as Ho.
  { intros auth ip. unfold admitLocked. repeat first [done | case_match]. }
  unfold begin_admit. destruct (finished op) eqn:Ef; [intros [= <- <- <-]; by left|].
  set (refused := _ || _ : bool). set (a := if refused then (false, r) else _).
  assert (quiet r a.2 /\ owner a.2 = owner r) as [Q Eo].
  { unfold a. destruct refused; [done|]. destruct (captureDecided op); [done|]. split; [apply quiet_admitLocked|apply Ho]. }
  destruct a as [[] r1]; cbn [fst snd negb] in *; intros [= <- <- <-].
  - right. exists r1. rewrite Eo, (q_active _ _ Q). by split_and!.
  - left. split_and!; try done; cbn; apply (q_active _ _ Q).
Qed.

Lemma begin_admit_calm now op r o op' r' :
  begin_admit now op r = (o, op', r') -> FinalizationLost (stats r') = FinalizationLost (stats r) /\ pending r' = pending r.
Proof.
  unfold begin_admit. destruct (finished op); [by intros [= <- <- <-]|].
  set (refused := _ || _ : bool). set (a := if refused then (false, r) else _).
  assert (quiet r a.2) as Q. { unfold a. destruct refused; [done|]. destruct (captureDecided op); [done|apply quiet_admitLocked]. }
  destruct a as [[] r1]; cbn [fst snd negb] in *; intros [= <- <- <-]; cbn; by rewrite (q_lost _ _ Q), (q_pending _ _ Q).
Qed.

Lemma finish_decide_spec v now op r o op' r' :
  finish_decide v now op r = (o, op', r') ->
  (o = None /\ op' = op /\ (beginAttempted op = true \/ captureDecided op = true -> admitted op = false)) \/
  (exists c, o = Some c /\ admitted op' = true /\ (beginAttempted op = true \/ captureDecided op = true) /\ op' = op /\
             c = beginAttempted op && admitted op) \/
  (o = Some false /\ beginAttempted op = false /\ captureDecided op = false /\
   op' = with_capture (beginAttempted op) true true op).
Proof.
  unfold finish_decide. destruct (beginAttempted op) eqn:Eb, (captureDecided op) eqn:Ed, (admitted op) eqn:Ea; cbn [orb andb negb].
  all: try (intros [= <- <- <-]; right; left; eexists; split_and!; by eauto).
  all: try (intros [= <- <- <-]; left; by split_and!).
  all: destruct (if has_store r then _ else _) as [[] r1]; intros [= <- <- <-];
    [right; right; by split_and!|left; split_and!; try done; intros [?|?]; done].
Qed.

(** ** The places of an operation's result *)

Definition final_of (id : string) (k : task) : bool :=
  match k with
  | TFinish v | TJob (JWrite (KFinal _) v) _ _ => String.eqb (OperationID v) id
  | _ => false
  end.
Definition finishing (id : string) (w : world) : Z := count_map (final_of id) (tasks w).
Definition one (P : Prop) `{!Decision P} : Z := if decide P then 1 else 0.
Definition is_finished (id : string) (w : world) : Z :=
  match ops w !! id with Some op => if finished op then 1 else 0 | None => 0 end.
Definition settled_in (id : string) (w : world) : Z :=
  one (id ∈ skipped w) + one (id ∈ saved w) + one (is_Some (pending (rec w) !! id)) + one (id ∈ lost w).

Record accounted (w : world) : Prop := {
  ac_id id op : ops w !! id = Some op -> OperationID (row op) = id;
  ac_adm id op : ops w !! id = Some op -> admitted op = true -> beginAttempted op = true \/ captureDecided op = true;
  ac_count id : finishing id w + settled_in id w = is_finished id w;
  ac_lost : FinalizationLost (stats (rec w)) = wrapu64 (Z.of_nat (size (lost w)));
  ac_active id : id ∈ active (rec w) -> exists op, ops w !! id = Some op /\ beginAttempted op = true /\ admitted op = true /\
                 (finished op = false \/ finishing id w = 1);
  ac_skipped id op : id ∈ skipped w -> ops w !! id = Some op -> admitted op = false;
  ac_begin t id : tasks w !! t = Some (TBegin id) -> exists op, ops w !! id = Some op /\ beginAttempted op = true }.

(** How an operation changes in a step other than its finishing. *)
Record evolves (op op' : Operation) : Prop := {
  ev_id : OperationID (row op') = OperationID (row op);
  ev_finished : finished op' = finished op;
  ev_begun : beginAttempted op = true -> beginAttempted op' = true;
  ev_admitted : admitted op = true -> admitted op' = true;
  ev_adm : (admitted op = true -> beginAttempted op = true \/ captureDecided op = true) ->
           admitted op' = true -> beginAttempted op' = true \/ captureDecided op' = true }.

Lemma same_evolves op op' : op_same op op' -> evolves op op'.
Proof. intros []. split; try done; by rewrite ?os_finished0, ?os_begun0, ?os_decided0, ?os_admitted0. Qed.

Definition ops_evolve (m m' : gmap string Operation) : Prop :=
  forall id, match m !! id, m' !! id with
             | Some op, Some op' => evolves op op'
             | None, Some op' => OperationID (row op') = id /\ finished op' = false /\ admitted op' = false
             | None, None => True
             | Some _, None => False
             end.

Lemma ops_evolve_refl m : ops_evolve m m.
Proof. intros id. destruct (m !! id); [|done]. by apply same_evolves, op_same_refl. Qed.
Lemma ops_evolve_set m id op op' :
  m !! id = Some op -> evolves op op' -> ops_evolve m (<[id := op']> m).
Proof.
  intros E Ev i. destruct (decide (id = i)) as [<-|Hne]; [by rewrite E, lookup_insert_eq|].
  rewrite lookup_insert_ne by done. by apply ops_evolve_refl.
Qed.

Lemma ops_evolve_finished w w' id :
  ops_evolve (ops w) (ops w') -> is_finished id w' = is_finished id w.
Proof.
  intros H. unfold is_finished. specialize (H id). destruct (ops w !! id), (ops w' !! id); try done.
  - by rewrite (ev_finished _ _ H).
  - by destruct H as (_ & -> & _).
Qed.

Lemma finishing_nonneg id w : 0 <= finishing id w.
Proof. apply count_map_nonneg. Qed.
Lemma one_bound P `{!Decision P} : 0 <= one P <= 1.
Proof. unfold one. destruct (decide P); lia. Qed.
Lemma settled_nonneg id w : 0 <= settled_in id w.
Proof.
  unfold settled_in. pose proof (one_bound (id ∈ skipped w)). pose proof (one_bound (id ∈ saved w)).
  pose proof (one_bound (is_Some (pending (rec w) !! id))). pose proof (one_bound (id ∈ lost w)). lia.
Qed.

(** Every step but the start of a finishing moves results from place to place. *)
Lemma accounted_step w w' :
  accounted w -> ops_evolve (ops w) (ops w') ->
  (forall id, finishing id w' + settled_in id w' = finishing id w + settled_in id w) ->
  FinalizationLost (stats (rec w')) = wrapu64 (Z.of_nat (size (lost w'))) ->
  (forall id, id ∈ active (rec w') -> id ∈ active (rec w) /\ finishing id w' = finishing id w \/
     exists op', ops w' !! id = Some op' /\ beginAttempted op' = true /\ admitted op' = true /\ finished op' = false) ->
  (forall id op', id ∈ skipped w' -> ops w' !! id = Some op' -> admitted op' = false) ->
  (forall t id, tasks w' !! t = Some (TBegin id) -> tasks w !! t = Some (TBegin id) \/
     exists op', ops w' !! id = Some op' /\ beginAttempted op' = true) ->
  accounted w'.
Proof.
  intros [Hid Hadm Hc Hl Ha Hsk Hb] Hops Hsum Hlost Hact Hskip Hbegin. split; try done.
  - intros id op' E. specialize (Hops id). rewrite E in Hops. destruct (ops w !! id) as [op|] eqn:Eo; [|apply Hops].
    rewrite (ev_id _ _ Hops). by apply Hid.
  - intros id op' E Had. specialize (Hops id). rewrite E in Hops. destruct (ops w !! id) as [op|] eqn:Eo.
    + apply (ev_adm _ _ Hops); [by apply (Hadm id)|done].
    + destruct Hops as (_ & _ & Hf'). congruence.
  - intros id. by rewrite Hsum, (ops_evolve_finished w w' id Hops).
  - intros id Hin. destruct (Hact id Hin) as [[Hin' Ef]|(op' & E & Hb' & Had & Hf)].
    + destruct (Ha id Hin') as (op & Eo & Hbg & Had & Hfin). specialize (Hops id). rewrite Eo in Hops.
      destruct (ops w' !! id) as [op'|]; [|done]. exists op'.
      rewrite (ev_begun _ _ Hops Hbg), (ev_admitted _ _ Hops Had), (ev_finished _ _ Hops), Ef. by split_and!.
    + exists op'. split_and!; try done. by left.
  - intros t id E. destruct (Hbegin t id E) as [E'|?]; [|done]. destruct (Hb t id E') as (op & Eo & Hbg).
    specialize (Hops id). rewrite Eo in Hops. destruct (ops w' !! id) as [op'|]; [|done]. exists op'.
    by rewrite (ev_begun _ _ Hops Hbg).
Qed.

Lemma skipped_finished w id op :
  accounted w -> id ∈ skipped w -> ops w !! id = Some op -> finished op = true /\ finishing id w = 0.
Proof.
  intros Hac Hin E. pose proof (ac_count w Hac id) as Hc. pose proof (finishing_nonneg id w).
  unfold settled_in, is_finished in Hc. rewrite E in Hc. unfold one at 1 in Hc. destruct (decide (id ∈ skipped w)); [|done].
  pose proof (one_bound (id ∈ saved w)). pose proof (one_bound (is_Some (pending (rec w) !! id))).
  pose proof (one_bound (id ∈ lost w)). destruct (finished op); split; try done; lia.
Qed.

(** A goroutine that neither starts nor ends a finishing. *)
Definition same_duty (old new : option task) : Prop :=
  (forall id, weight (final_of id) new = weight (final_of id) old) /\
  (forall id, new = Some (TBegin id) -> old = Some (TBegin id)).

(** Steps that leave the accounts alone. *)
Lemma accounted_quiet w w' t o :
  accounted w -> tasks w' = partial_alter (fun _ => o) t (tasks w) -> same_duty (tasks w !! t) o ->
  ops_evolve (ops w) (ops w') ->
  (forall id op op', ops w !! id = Some op -> ops w' !! id = Some op' -> finished op = true -> finishing id w = 0 ->
     admitted op = false -> admitted op' = false) ->
  skipped w' = skipped w -> saved w' = saved w -> lost w' = lost w ->
  (forall id, is_Some (pending (rec w') !! id) <-> is_Some (pending (rec w) !! id)) ->
  active (rec w') = active (rec w) ->
  FinalizationLost (stats (rec w')) = FinalizationLost (stats (rec w)) ->
  accounted w'.
Proof.
  intros H Et [Ho Hb] Hops Hfrozen Esk Esv Elo Hp Eact Efl.
  assert (forall id, finishing id w' = finishing id w) as Hf.
  { intros id. unfold finishing. rewrite Et, count_map_set, Ho. lia. }
  apply (accounted_step w w' H Hops).
  - intros id. rewrite Hf. unfold settled_in. rewrite Esk, Esv, Elo. unfold one. by rewrite (decide_ext _ _ _ _ (Hp id)).
  - rewrite Efl, Elo. apply (ac_lost w H).
  - intros id. rewrite Eact. by left.
  - rewrite Esk. intros id op' Hin E. pose proof (Hops id) as Hev. rewrite E in Hev.
    destruct (ops w !! id) as [op|] eqn:Eo; [|apply Hev]. destruct (skipped_finished w id op H Hin Eo).
    apply (Hfrozen id op op'); [done..|]. by apply (ac_skipped w H id).
  - intros t' id. rewrite Et. destruct (decide (t = t')) as [<-|Hne].
    + rewrite lookup_partial_alter_eq. left. by apply Hb.
    + rewrite lookup_partial_alter_ne by done. by left.
Qed.

(** What the accounts see of the recorder. *)
Record calm (r r' : Recorder) : Prop := {
  cm_pending : pending r' = pending r; cm_active : active r' = active r;
  cm_lost : FinalizationLost (stats r') = FinalizationLost (stats r) }.
Lemma quiet_calm r r' : quiet r r' -> calm r r'.
Proof. by intros []. Qed.
Lemma but_audits_calm r r' : but_audits r r' -> calm r r'.
Proof. by intros []. Qed.

Lemma accounted_ops w w' t o :
  accounted w -> tasks w' = partial_alter (fun _ => o) t (tasks w) -> same_duty (tasks w !! t) o ->
  ops w' = ops w -> skipped w' = skipped w -> saved w' = saved w -> lost w' = lost w ->
  calm (rec w) (rec w') -> accounted w'.
Proof.
  intros H Et Hd Eo Esk Esv Elo [Ep Ea El]. apply (accounted_quiet w w' t o H Et Hd); try done.
  - rewrite Eo. apply ops_evolve_refl.
  - rewrite Eo. intros. congruence.
  - intros. by rewrite Ep.
Qed.

Lemma accounted_same w w' :
  accounted w -> tasks w' = tasks w -> ops w' = ops w -> skipped w' = skipped w -> saved w' = saved w -> lost w' = lost w ->
  calm (rec w) (rec w') -> accounted w'.
Proof.
  intros H Et. apply (accounted_ops w w' 0%nat (tasks w !! 0%nat) H); [|done]. by rewrite partial_alter_self.
Qed.

(** An operation changes, and nobody's duty. *)
Lemma accounted_op w w' t o id op op' :
  accounted w -> tasks w' = partial_alter (fun _ => o) t (tasks w) ->
  (forall i, weight (final_of i) o = weight (final_of i) (tasks w !! t)) ->
  (forall i, o = Some (TBegin i) -> tasks w !! t = Some (TBegin i) \/ (i = id /\ beginAttempted op' = true)) ->
  ops w !! id = Some op -> ops w' = <[id := op']> (ops w) -> evolves op op' ->
  (finished op = true -> admitted op' = admitted op) ->
  skipped w' = skipped w -> saved w' = saved w -> lost w' = lost w -> calm (rec w) (rec w') -> accounted w'.
Proof.
  intros H Et Hd Hb Eo Eo' Hev Hfz Esk Esv Elo [Ep Ea El].
  assert (forall i, finishing i w' = finishing i w) as Hf.
  { intros i. unfold finishing. rewrite Et, count_map_set, Hd. lia. }
  apply (accounted_step w w' H).
  - rewrite Eo'. by apply ops_evolve_set with op.
  - intros i. rewrite Hf. unfold settled_in. by rewrite Esk, Esv, Elo, Ep.
  - rewrite El, Elo. apply (ac_lost w H).
  - intros i. rewrite Ea. by left.
  - rewrite Esk, Eo'. intros i op2 Hin. destruct (decide (id = i)) as [<-|Hne].
    + rewrite lookup_insert_eq. intros [= <-]. destruct (skipped_finished w id op H Hin Eo) as [Hfin _].
      rewrite (Hfz Hfin). by apply (ac_skipped w H id).
    + rewrite lookup_insert_ne by done. by apply (ac_skipped w H).
  - intros t' i. rewrite Et. destruct (decide (t = t')) as [<-|Hne].
    + rewrite lookup_partial_alter_eq. intros Eb. destruct (Hb i Eb) as [Hold|[-> Hbg]]; [by left|right]. exists op'.
      by rewrite Eo', lookup_insert_eq.
    + rewrite lookup_partial_alter_ne by done. by left.
Qed.

(** ** The steps that move a result *)

Lemma finishing_go w t o id r w0 :
  tasks w0 = tasks w ->
  finishing id (go t o r w0) = finishing id w - weight (final_of id) (tasks w !! t) + weight (final_of id) o.
Proof. intros E. unfold finishing. cbn. by rewrite E, count_map_set. Qed.

Lemma one_true P `{!Decision P} : P -> one P = 1.
Proof. unfold one. by destruct (decide P). Qed.
Lemma one_false P `{!Decision P} : ~ P -> one P = 0.
Proof. unfold one. by destruct (decide P). Qed.

(** A goroutine at a finishing has the only account of its operation. *)
Lemma finishing_alone w t k id :
  accounted w -> tasks w !! t = Some k -> final_of id k = true ->
  finishing id w = 1 /\ settled_in id w = 0 /\ exists op, ops w !! id = Some op /\ finished op = true.
Proof.
  intros H Et Hf. pose proof (count_map_pos (final_of id) (tasks w) t k Et Hf) as Hp.
  pose proof (ac_count w H id) as Hc. pose proof (settled_nonneg id w). unfold finishing, is_finished in *.
  destruct (ops w !! id) as [op|]; [|lia]. destruct (finished op) eqn:E; [|lia]. split_and!; [lia|lia|by exists op].
Qed.

Lemma settled_zero w id :
  settled_in id w = 0 ->
  (id ∉ skipped w) /\ (id ∉ saved w) /\ pending (rec w) !! id = None /\ (id ∉ lost w).
Proof.
  unfold settled_in. pose proof (one_bound (id ∈ skipped w)). pose proof (one_bound (id ∈ saved w)).
  pose proof (one_bound (is_Some (pending (rec w) !! id))). pose proof (one_bound (id ∈ lost w)). intros Hz.
  split_and!; [intros Hin|intros Hin| |intros Hin]; try (rewrite (one_true _ Hin) in *; lia).
  destruct (pending (rec w) !! id) eqn:E; [|done]. exfalso.
  rewrite (one_true (is_Some (Some p))) in * by by eexists. lia.
Qed.

Lemma accounted_finish w t id op op' v status now :
  accounted w -> ops w !! id = Some op -> finish_op status now op = (Some v, op') -> fresh t w = true ->
  accounted (with_task t (Some (TFinish v)) (with_op id op' w)).
Proof.
  intros H Eo Ef Hfr. unfold fresh in Hfr. apply bool_decide_eq_true in Hfr.
  destruct (finish_op_spec _ _ _ _ _ Ef) as (Hn & Hf & -> & Ei & _ & _ & Eb & Ed & Ea).
  assert (OperationID (snapshotLocked op') = id) as Eid.
  { destruct (snapshot_identity op') as (-> & _). rewrite Ei. by apply (ac_id w H). }
  assert (forall id', finishing id' (with_task t (Some (TFinish (snapshotLocked op'))) (with_op id op' w))
            = finishing id' w + (if decide (id = id') then 1 else 0)) as Hfin.
  { intros id'. unfold finishing. cbn. rewrite count_map_set, Hfr. cbn [weight final_of]. rewrite Eid.
    destruct (decide (id = id')) as [->|Hne]; [rewrite String.eqb_refl; lia|].
    apply String.eqb_neq in Hne. rewrite Hne. lia. }
  destruct H as [Hid Hadm Hc Hl Ha Hsk Hb]. split; cbn [ops with_task with_op rec skipped saved lost tasks].
  - intros i o E. destruct (decide (id = i)) as [<-|Hne].
    + rewrite lookup_insert_eq in E. injection E as <-. rewrite Ei. by apply Hid.
    + rewrite lookup_insert_ne in E by done. by apply Hid.
  - intros i o E. destruct (decide (id = i)) as [<-|Hne].
    + rewrite lookup_insert_eq in E. injection E as <-. rewrite Ea, Eb, Ed. by apply (Hadm id).
    + rewrite lookup_insert_ne in E by done. by apply (Hadm i).
  - intros i. rewrite Hfin. specialize (Hc i). unfold is_finished, settled_in in *. cbn in *.
    destruct (decide (id = i)) as [<-|Hne].
    + rewrite lookup_insert_eq, Hf. rewrite Eo, Hn in Hc. lia.
    + rewrite lookup_insert_ne by done. lia.
  - exact Hl.
  - intros i Hin. destruct (Ha i Hin) as (o & E & Hbg & Had & Hor). rewrite Hfin.
    destruct (decide (id = i)) as [<-|Hne].
    + exists op'. rewrite lookup_insert_eq, Eb, Ea. assert (o = op) as -> by congruence. split_and!; try done. right.
      specialize (Hc id). unfold is_finished in Hc. rewrite Eo, Hn in Hc. pose proof (finishing_nonneg id w).
      pose proof (settled_nonneg id w). lia.
    + exists o. rewrite lookup_insert_ne by done. split_and!; try done. destruct Hor as [|Hor]; [by left|right; lia].
  - intros i o Hin E. destruct (decide (id = i)) as [<-|Hne].
    + rewrite lookup_insert_eq in E. injection E as <-. rewrite Ea. by apply (Hsk id).
    + rewrite lookup_insert_ne in E by done. by apply (Hsk i).
  - intros t' i. destruct (decide (t = t')) as [<-|Hne]; [by rewrite lookup_partial_alter_eq|].
    rewrite lookup_partial_alter_ne by done. intros E. destruct (Hb t' i E) as (o & Eo' & Hbg).
    destruct (decide (id = i)) as [<-|Hne']; [|exists o; by rewrite lookup_insert_ne].
    exists op'. rewrite lookup_insert_eq, Eb. by assert (o = op) as <- by congruence.
Qed.

Lemma accounted_begin_admit w t id op now o op' r' :
  accounted w -> tasks w !! t = Some (TBegin id) -> ops w !! id = Some op ->
  begin_admit now op (rec w) = (o, op', r') ->
  FinalizationLost (stats r') = FinalizationLost (stats (rec w)) -> pending r' = pending (rec w) ->
  accounted (go t (option_map (fun v => start (JWrite KBegin v)) o) r' (with_op id op' w)).
Proof.
  intros H Et Eo E Efl Ep. pose proof (ac_id w H id op Eo) as Eid.
  assert (beginAttempted op = true) as Hbg.
  { destruct (ac_begin w H t id Et) as (op0 & E0 & ?). by assert (op0 = op) as <- by congruence. }
  assert (forall i, finishing i (go t (option_map (fun v => start (JWrite KBegin v)) o) r' (with_op id op' w)) = finishing i w) as Hfin.
  { intros i. rewrite (finishing_go w) by done. rewrite Et. destruct o; cbn; lia. }
  destruct (begin_admit_spec _ _ _ _ _ _ E) as [(-> & -> & Eact & _)|(r1 & Hn & _ & _ & -> & Eo' & Eact & _)].
  - apply (accounted_step w); cbn [ops go with_rec with_task with_op rec skipped lost tasks]; try done.
    + by apply ops_evolve_set with op, same_evolves, op_same_refl.
    + intros i. rewrite Hfin. unfold settled_in. cbn. by rewrite Ep.
    + rewrite Efl. apply (ac_lost w H).
    + intros i. rewrite Eact, Hfin. by left.
    + intros i op' Hin. rewrite insert_id by done. by apply (ac_skipped w H).
    + intros t' i. destruct (decide (t = t')) as [<-|Hne]; [by rewrite lookup_partial_alter_eq|].
      rewrite lookup_partial_alter_ne by done. by left.
  - apply (accounted_step w); cbn [ops go with_rec with_task with_op rec skipped lost tasks]; try done.
    + apply ops_evolve_set with op; [done|]. split; try done. intros _ _. by left.
    + intros i. rewrite Hfin. unfold settled_in. cbn. by rewrite Ep.
    + rewrite Efl. apply (ac_lost w H).
    + intros i. rewrite Eact, Hfin. rewrite Eid. intros [->%elem_of_singleton|Hin]%elem_of_union; [|by left].
      right. eexists. rewrite lookup_insert_eq. by split_and!.
    + intros i op'' Hin. destruct (decide (id = i)) as [<-|Hne].
      * destruct (skipped_finished w id op H Hin Eo). congruence.
      * rewrite lookup_insert_ne by done. by apply (ac_skipped w H).
    + intros t' i. destruct (decide (t = t')) as [<-|Hne].
      * rewrite lookup_partial_alter_eq, Eo'. done.
      * rewrite lookup_partial_alter_ne by done. by left.
Qed.

Lemma accounted_decide w t v now op o op' r' :
  accounted w -> tasks w !! t = Some (TFinish v) -> ops w !! OperationID v = Some op ->
  finish_decide v now op (rec w) = (o, op', r') ->
  accounted match o with
            | Some c => go t (Some (start (JWrite (KFinal c) v))) r' (with_op (OperationID v) op' w)
            | None => note_skipped (OperationID v) (go t None r' (with_op (OperationID v) op' w))
            end.
Proof.
  intros H Et Eo E. set (id := OperationID v) in *. pose proof (finish_decide_ok _ _ _ _ _ _ _ E) as Q.
  destruct (finishing_alone w t (TFinish v) id H Et) as (Hone & Hz & op0 & E0 & Hf); [apply String.eqb_refl|].
  assert (op0 = op) as -> by congruence. destruct (settled_zero w id Hz) as (Nsk & Nsv & Np & Nl).
  assert (forall i, weight (final_of i) (Some (TFinish v)) = if decide (id = i) then 1 else 0) as Hw.
  { intros i. cbn. fold id. destruct (decide (id = i)) as [->|Hne]; [by rewrite String.eqb_refl|].
    by apply String.eqb_neq in Hne as ->. }
  assert (forall c, o = Some c -> evolves op op' ->
    accounted (go t (Some (start (JWrite (KFinal c) v))) r' (with_op id op' w))) as Hgo.
  { intros c -> Hev. apply (accounted_quiet w _ t (Some (start (JWrite (KFinal c) v))) H); cbn; try done.
    - by rewrite Et.
    - by apply ops_evolve_set with op.
    - intros i o1 o2 E1 E2 Hf1 Hz1. destruct (decide (id = i)) as [<-|Hne]; [lia|].
      rewrite lookup_insert_ne in E2 by done. congruence.
    - intros. by rewrite (q_pending _ _ Q).
    - apply (q_active _ _ Q).
    - apply (q_lost _ _ Q). }
  destruct (finish_decide_spec _ _ _ _ _ _ _ E) as [(-> & -> & Hna)|[(c & -> & Had & Hbd & -> & _)|(-> & Hb & Hd & ->)]].
  - assert (admitted op = false) as Hadm.
    { destruct (admitted op) eqn:Ea; [|done]. rewrite <- Ea. rewrite Hna in Ea; [done|]. by apply (ac_adm w H id op Eo). }
    apply (accounted_step w _ H); cbn [ops note_skipped go with_rec with_task with_op rec skipped lost tasks].
    + by apply ops_evolve_set with op, same_evolves, op_same_refl.
    + intros i. assert (finishing i (note_skipped id (go t None r' (with_op id op w))) = finishing i w - if decide (id = i) then 1 else 0) as ->.
      { unfold finishing. cbn. rewrite count_map_set, Et, Hw. cbn. lia. }
      unfold settled_in. cbn. rewrite (q_pending _ _ Q). destruct (decide (id = i)) as [<-|Hne].
      * rewrite (one_true (id ∈ {[id]} ∪ skipped w)) by set_solver. rewrite (one_false (id ∈ skipped w)) by done. lia.
      * assert (one (i ∈ {[id]} ∪ skipped w) = one (i ∈ skipped w)) as -> by (unfold one; apply decide_ext; set_solver). lia.
    + rewrite (q_lost _ _ Q). apply (ac_lost w H).
    + intros i. rewrite (q_active _ _ Q). intros Hin. left. split; [done|].
      unfold finishing. cbn. rewrite count_map_set, Et, Hw. destruct (decide (id = i)) as [<-|Hne]; [|cbn; lia].
      destruct (ac_active w H id Hin) as (op1 & E1 & _ & Had & _). congruence.
    + intros i op1 Hin. rewrite insert_id by done. intros E1. destruct (decide (id = i)) as [<-|Hne]; [congruence|].
      apply (ac_skipped w H i); [set_solver|done].
    + intros t' i. destruct (decide (t = t')) as [<-|Hne]; [by rewrite lookup_partial_alter_eq|].
      rewrite lookup_partial_alter_ne by done. by left.
  - apply Hgo; [done|apply same_evolves, op_same_refl].
  - apply Hgo; [done|]. split; cbn; try done. intros. by right.
Qed.

(** Dropped items move from the queue to [lost]. *)
Lemma drops_lost r l r' n :
  drops r l r' -> FinalizationLost (stats r) = wrapu64 n ->
  FinalizationLost (stats r') = wrapu64 (n + Z.of_nat (List.length l)).
Proof.
  induction 1 as [|l r1 key item Hd IH Hk Hi]; intros H; cbn; [rewrite H; f_equal; lia|].
  rewrite (IH H). unfold inc, wrapu64. rewrite Zplus_mod_idemp_l. f_equal. lia.
Qed.

Lemma taken_dom r1 o r' id : taken r1 o r' -> is_Some (pending r' !! id) <-> is_Some (pending r1 !! id).
Proof.
  intros [[_ ->]|(key & item & _ & Hk & _ & ->)]; [done|]. cbn. destruct (decide (key = id)) as [<-|Hne].
  - by rewrite lookup_insert_eq, Hk.
  - by rewrite lookup_insert_ne.
Qed.

Lemma size_union_list (l : list string) (X : gset string) :
  NoDup l -> (forall x, x ∈ l -> x ∉ X) -> size (list_to_set l ∪ X) = (List.length l + size X)%nat.
Proof.
  intros Hnd Hd. rewrite size_union by set_solver. by rewrite size_list_to_set.
Qed.

Lemma accounted_retry w t order now dr o r' :
  accounted w -> fresh t w = true -> retry_scan order now [] (rec w) = (dr, o, r') ->
  accounted (note_lost dr (go t (option_map (fun kp => start (JWrite (KRetry kp.1 kp.2) (p_row kp.2))) o) r' w)).
Proof.
  intros H Hfr Hscan. unfold fresh in Hfr. apply bool_decide_eq_true in Hfr.
  destruct (retry_scan_drops (rec w) order now [] dr o (rec w) r' (drops_nil _) Hscan) as (r1 & Hd & Htk).
  assert (but_pending (rec w) r') as F by (etrans; [by eapply drops_frame|by eapply taken_frame]).
  assert (forall id, id ∈ dr -> id ∉ lost w) as Hnew.
  { intros id Hin Hl. pose proof (drops_from _ _ _ _ Hd Hin) as Hs. pose proof (ac_count w H id) as Hc.
    unfold settled_in in Hc. rewrite (one_true _ Hs), (one_true _ Hl) in Hc.
    pose proof (finishing_nonneg id w). pose proof (one_bound (id ∈ skipped w)). pose proof (one_bound (id ∈ saved w)).
    unfold is_finished in Hc. destruct (ops w !! id) as [op|]; [destruct (finished op)|]; lia. }
  assert (forall id, weight (final_of id) (option_map (fun kp : string * pendingUsage => start (JWrite (KRetry kp.1 kp.2) (p_row kp.2))) o) = 0) as Hw.
  { by destruct o. }
  apply (accounted_step w _ H); cbn [ops note_lost go with_rec with_task rec skipped lost tasks].
  - apply ops_evolve_refl.
  - intros id. assert (finishing id (note_lost dr (go t (option_map (fun kp => start (JWrite (KRetry kp.1 kp.2) (p_row kp.2))) o) r' w)) = finishing id w) as ->.
    { unfold finishing. cbn. rewrite count_map_set, Hfr, Hw. cbn. lia. }
    unfold settled_in. cbn. unfold one at 3. rewrite (decide_ext _ _ _ _ (taken_dom _ _ _ id Htk)).
    rewrite (drops_lookup _ _ _ id Hd). case_bool_decide as Hin.
    + rewrite (one_true (id ∈ list_to_set dr ∪ lost w)) by set_solver. rewrite (one_false (id ∈ lost w)) by by apply Hnew.
      rewrite (one_true _ (drops_from _ _ _ _ Hd Hin)). destruct (decide (is_Some None)) as [[? ?]|]; [done|lia].
    + assert (one (id ∈ list_to_set dr ∪ lost w) = one (id ∈ lost w)) as -> by (unfold one; apply decide_ext; set_solver).
      reflexivity.
  - rewrite size_union_list by (done || by eapply drops_nodup).
    assert (FinalizationLost (stats r') = FinalizationLost (stats r1)) as -> by by destruct Htk as [[_ ->]|(? & ? & _ & _ & _ & ->)].
    rewrite (drops_lost _ _ _ _ Hd (ac_lost w H)). f_equal. lia.
  - intros id. rewrite (bp_active _ _ F). left. split; [done|]. unfold finishing. cbn. rewrite count_map_set, Hfr, Hw. cbn. lia.
  - apply (ac_skipped w H).
  - intros t' id. destruct (decide (t = t')) as [<-|Hne].
    + rewrite lookup_partial_alter_eq. by destruct o.
    + rewrite lookup_partial_alter_ne by done. by left.
Qed.

(** ** The end of a write *)

(** What the end of a first write or of a retry does to the queue and the counter. *)
Definition disposed (id : string) (f : fate) (m m' : gmap string pendingUsage) (l l' : Z) : Prop :=
  match f with
  | Saved => (forall i, is_Some (m' !! i) <-> i <> id /\ is_Some (m !! i)) /\ l' = l
  | Queued => (forall i, is_Some (m' !! i) <-> i = id \/ is_Some (m !! i)) /\ l' = l
  | Lost => (forall i, is_Some (m' !! i) <-> i <> id /\ is_Some (m !! i)) /\ l' = inc l
  end.

Lemma finish_settle_fate v c e now rnd r f r' :
  finish_settle v c e now rnd r = (f, r') -> pending r !! OperationID v = None ->
  disposed (OperationID v) f (pending r) (pending r') (FinalizationLost (stats r)) (FinalizationLost (stats r')) /\
  active r' = active r ∖ {[OperationID v]} /\ owner r' = owner r /\
  (forall i p, pending r' !! i = Some p -> pending r !! i = Some p \/ (i = OperationID v /\ p_row p = v)).
Proof.
  intros E Hn.
  assert (forall i, is_Some (pending r !! i) <-> i <> OperationID v /\ is_Some (pending r !! i)) as Hsame.
  { intros i. split; [|by intros [_ ?]]. intros H. split; [|done]. intros ->. rewrite Hn in H. by destruct H. }
  unfold finish_settle in E. destruct e as [e|]; [|injection E as <- <-; split_and!; try done; by left].
  destruct (_ && _); [|injection E as <- <-; split_and!; try done; by left].
  unfold enqueueUsageLocked in E. destruct (_ || _); injection E as <- <-; split_and!; try done; cbn; try (by left).
  - split; [|done]. intros i. destruct (decide (OperationID v = i)) as [<-|Hne].
    + rewrite lookup_insert_eq. split; [by left|by eexists].
    + rewrite lookup_insert_ne by done. split; [by right|]. by intros [?|?].
  - intros i p. destruct (decide (OperationID v = i)) as [<-|Hne].
    + rewrite lookup_insert_eq. intros [= <-]. by right.
    + rewrite lookup_insert_ne by done. by left.
Qed.

Lemma retry_settle_fate id p e now rnd r f r' :
  retry_settle id p e now rnd r = (f, r') -> pending r !! id = Some p ->
  disposed id f (pending r) (pending r') (FinalizationLost (stats r)) (FinalizationLost (stats r')) /\
  active r' = active r /\ owner r' = owner r /\
  (forall i q, pending r' !! i = Some q -> exists q0, pending r !! i = Some q0 /\ p_row q = p_row q0).
Proof.
  intros E Hk.
  assert (forall i, is_Some (delete id (pending r) !! i) <-> i <> id /\ is_Some (pending r !! i)) as Hdel.
  { intros i. rewrite lookup_delete. case_decide as Hd; [|by naive_solver].
    subst. split; [by intros [? ?]|by intros [? _]]. }
  assert (forall i q, delete id (pending r) !! i = Some q -> exists q0, pending r !! i = Some q0 /\ p_row q = p_row q0) as Hrow.
  { intros i q [_ H]%lookup_delete_Some. by exists q. }
  unfold retry_settle in E. destruct e as [e|]; [destruct (permanentUsageError e)|]; injection E as <- <-; split_and!; try done; cbn.
  - split; [|done]. intros i. destruct (decide (id = i)) as [<-|Hne].
    + rewrite lookup_alter_eq, Hk. split; [by left|by eexists].
    + rewrite lookup_alter_ne by done. split; [by right|]. by intros [?|?].
  - intros i q. destruct (decide (id = i)) as [<-|Hne].
    + rewrite lookup_alter_eq, Hk. intros [= <-]. by exists p.
    + rewrite lookup_alter_ne by done. intros E. by exists q.
Qed.

Lemma disposed_sum id f w w' i :
  disposed id f (pending (rec w)) (pending (rec w')) (FinalizationLost (stats (rec w))) (FinalizationLost (stats (rec w'))) ->
  skipped w' = skipped w ->
  saved w' = (match f with Saved => {[id]} ∪ saved w | _ => saved w end) ->
  lost w' = (match f with Lost => {[id]} ∪ lost w | _ => lost w end) ->
  (id ∉ saved w) -> (id ∉ lost w) ->
  settled_in i w' = settled_in i w +
    (if decide (id = i) then 1 - one (is_Some (pending (rec w) !! id)) else 0).
Proof.
  intros Hd Esk Esv El Nsv Nl. unfold settled_in. rewrite Esk, Esv, El.
  destruct (decide (id = i)) as [<-|Hne].
  - destruct f; destruct Hd as [Hd _].
    + rewrite (one_true (id ∈ {[id]} ∪ saved w)) by set_solver. rewrite (one_false (id ∈ saved w)) by done.
      rewrite (one_false (is_Some (pending (rec w') !! id))) by (rewrite Hd; naive_solver). lia.
    + rewrite (one_true (is_Some (pending (rec w') !! id))) by (apply Hd; by left). lia.
    + rewrite (one_true (id ∈ {[id]} ∪ lost w)) by set_solver. rewrite (one_false (id ∈ lost w)) by done.
      rewrite (one_false (is_Some (pending (rec w') !! id))) by (rewrite Hd; naive_solver). lia.
  - assert (one (is_Some (pending (rec w') !! i)) = one (is_Some (pending (rec w) !! i))) as ->.
    { unfold one. apply decide_ext. destruct f; destruct Hd as [Hd _]; rewrite Hd; naive_solver. }
    assert (one (i ∈ match f with Saved => {[id]} ∪ saved w | _ => saved w end) = one (i ∈ saved w)) as ->.
    { unfold one. apply decide_ext. destruct f; set_solver. }
    assert (one (i ∈ match f with Lost => {[id]} ∪ lost w | _ => lost w end) = one (i ∈ lost w)) as ->.
    { unfold one. apply decide_ext. destruct f; set_solver. }
    lia.
Qed.

Lemma disposed_lost id f w w' :
  disposed id f (pending (rec w)) (pending (rec w')) (FinalizationLost (stats (rec w))) (FinalizationLost (stats (rec w'))) ->
  lost w' = (match f with Lost => {[id]} ∪ lost w | _ => lost w end) -> (id ∉ lost w) ->
  FinalizationLost (stats (rec w)) = wrapu64 (Z.of_nat (size (lost w))) ->
  FinalizationLost (stats (rec w')) = wrapu64 (Z.of_nat (size (lost w'))).
Proof.
  intros Hd -> Hn Hl. destruct f; destruct Hd as [_ ->]; [done|done|].
  rewrite size_union by set_solver. rewrite size_singleton, Hl. unfold inc, wrapu64.
  rewrite Zplus_mod_idemp_l. f_equal. lia.
Qed.

Lemma audit_failed_calm e now rnd r : calm r (audit_failed e now rnd r).
Proof.
  unfold audit_failed. set (r1 := warnLocked _ _ _).
  assert (quiet r r1) as [] by (etrans; [by apply (quiet_stats bump_audit_failed)|apply quiet_warn]).
  repeat match goal with |- context [if ?b then _ else _] => destruct b end; by split.
Qed.
Lemma audit_settle_calm id p failed now rnd r : calm r (audit_settle id p failed now rnd r).
Proof.
  unfold audit_settle. destruct (negb failed); [by split|]. set (r1 := warnLocked _ _ _).
  assert (quiet r r1) as [] by (etrans; [by apply (quiet_stats bump_audit_failed)|apply quiet_warn]). by split.
Qed.
Lemma audit_scan_calm order now o r r' : audit_scan order now r = (o, r') -> calm r r'.
Proof.
  revert r. induction order as [|key order IH]; intros r; cbn [audit_scan]; [by intros [= <- <-]|].
  destruct (auditPending r !! key) as [item|]; [|apply IH]. destruct (a_inFlight item); [apply IH|].
  destruct (_ <=? _); [intros E; by destruct (IH _ E)|]. destruct (negb _); [|apply IH]. by intros [= <- <-].
Qed.

Lemma final_disposed w w' t v c st f :
  accounted w -> tasks w !! t = Some (TJob (JWrite (KFinal c) v) [] st) ->
  disposed (OperationID v) f (pending (rec w)) (pending (rec w')) (FinalizationLost (stats (rec w))) (FinalizationLost (stats (rec w'))) ->
  active (rec w') = active (rec w) ∖ {[OperationID v]} ->
  w' = note_fate f (OperationID v) (go t None (rec w') w) -> accounted w'.
Proof.
  intros H Et Hd Ea Ew. set (id := OperationID v) in *.
  destruct (finishing_alone w t _ id H Et) as (Hone & Hz & _); [apply String.eqb_refl|].
  destruct (settled_zero w id Hz) as (_ & Nsv & Np & Nl).
  assert (forall i, finishing i w' = finishing i w - if decide (id = i) then 1 else 0) as Hf.
  { intros i. rewrite Ew. unfold finishing. cbn [tasks note_fate go with_rec with_task]. rewrite count_map_set, Et. cbn [weight final_of].
    fold id. destruct (decide (id = i)) as [->|Hne]; [rewrite String.eqb_refl; lia|]. apply String.eqb_neq in Hne. rewrite Hne. lia. }
  assert (skipped w' = skipped w /\ saved w' = (match f with Saved => {[id]} ∪ saved w | _ => saved w end) /\
          lost w' = (match f with Lost => {[id]} ∪ lost w | _ => lost w end) /\ ops w' = ops w) as (Esk & Esv & El & Eo)
    by (rewrite Ew; by destruct f).
  apply (accounted_step w w' H).
  - rewrite Eo. apply ops_evolve_refl.
  - intros i. rewrite Hf, (disposed_sum id f w w' i Hd Esk Esv El Nsv Nl).
    rewrite (one_false (is_Some (pending (rec w) !! id))) by (rewrite Np; by intros []). destruct (decide (id = i)); lia.
  - by apply (disposed_lost id f w w' Hd El Nl), (ac_lost w H).
  - intros i. rewrite Ea, Hf. intros [Hin Hne]%elem_of_difference. left. split; [done|].
    destruct (decide (id = i)) as [<-|]; [set_solver|lia].
  - rewrite Esk, Eo. apply (ac_skipped w H).
  - intros t' i. rewrite Ew. cbn. destruct (decide (t = t')) as [<-|Hne]; [by rewrite lookup_partial_alter_eq|].
    rewrite lookup_partial_alter_ne by done. by left.
Qed.

Lemma retry_disposed w w' t id p v st f :
  accounted w -> tasks w !! t = Some (TJob (JWrite (KRetry id p) v) [] st) -> pending (rec w) !! id = Some p ->
  disposed id f (pending (rec w)) (pending (rec w')) (FinalizationLost (stats (rec w))) (FinalizationLost (stats (rec w'))) ->
  active (rec w') = active (rec w) ->
  w' = note_fate f id (go t None (rec w') w) -> accounted w'.
Proof.
  intros H Et Hk Hd Ea Ew.
  assert (is_Some (pending (rec w) !! id)) as Hs by by eexists.
  pose proof (ac_count w H id) as Hc. unfold settled_in in Hc. rewrite (one_true _ Hs) in Hc.
  pose proof (finishing_nonneg id w). pose proof (one_bound (id ∈ skipped w)).
  pose proof (one_bound (id ∈ saved w)). pose proof (one_bound (id ∈ lost w)).
  assert (is_finished id w <= 1) by (unfold is_finished; destruct (ops w !! id) as [op|]; [destruct (finished op)|]; lia).
  assert (id ∉ saved w) as Nsv by (intros Hin; rewrite (one_true _ Hin) in *; lia).
  assert (id ∉ lost w) as Nl by (intros Hin; rewrite (one_true _ Hin) in *; lia).
  assert (forall i, finishing i w' = finishing i w) as Hf.
  { intros i. rewrite Ew. unfold finishing. cbn [tasks note_fate go with_rec with_task]. rewrite count_map_set, Et. cbn. lia. }
  assert (skipped w' = skipped w /\ saved w' = (match f with Saved => {[id]} ∪ saved w | _ => saved w end) /\
          lost w' = (match f with Lost => {[id]} ∪ lost w | _ => lost w end) /\ ops w' = ops w) as (Esk & Esv & El & Eo)
    by (rewrite Ew; by destruct f).
  apply (accounted_step w w' H).
  - rewrite Eo. apply ops_evolve_refl.
  - intros i. rewrite Hf, (disposed_sum id f w w' i Hd Esk Esv El Nsv Nl), (one_true _ Hs). destruct (decide (id = i)); lia.
  - by apply (disposed_lost id f w w' Hd El Nl), (ac_lost w H).
  - intros i. rewrite Ea, Hf. by left.
  - rewrite Esk, Eo. apply (ac_skipped w H).
  - intros t' i. rewrite Ew. cbn. destruct (decide (t = t')) as [<-|Hne]; [by rewrite lookup_partial_alter_eq|].
    rewrite lookup_partial_alter_ne by done. by left.
Qed.

(** ** Preservation *)

Lemma accounted_unqueued w : accounted w -> unqueued w.
Proof.
  intros H t c v h st Et. destruct (finishing_alone w t _ (OperationID v) H Et) as (_ & Hz & _); [apply String.eqb_refl|].
  apply (settled_zero w _ Hz).
Qed.

Lemma duty_none old : (forall i, weight (final_of i) old = 0) -> forall new,
  match new with Some (TFinish _) | Some (TJob (JWrite (KFinal _) _) _ _) | Some (TBegin _) => False | _ => True end ->
  same_duty old new.
Proof.
  intros Ho new Hn. split; [|intros id ->; done]. intros i. rewrite Ho.
  destruct new as [[| | | | | | |[[]| | | | | | |]]|]; done.
Qed.
Lemma duty_fresh t w i : fresh t w = true -> weight (final_of i) (tasks w !! t) = 0.
Proof. unfold fresh. by intros ->%bool_decide_eq_true. Qed.
Lemma duty_stage j h st h' st' : same_duty (Some (TJob j h st)) (Some (TJob j h' st')).
Proof. by split. Qed.

Lemma accounted_work e w w' : accounted w -> step_work e w = Some w' -> accounted w'.
Proof.
  intros H. destruct e; cbn [step_work].
  - destruct (bool_decide _) eqn:E; [|done]. apply bool_decide_eq_true in E as (_ & En & _). intros [= <-].
    apply (accounted_quiet w _ 0%nat (tasks w !! 0%nat) H); try done; cbn; [by rewrite partial_alter_self| |].
    + intros i. destruct (decide (uuid = i)) as [<-|Hne]; [by rewrite En, lookup_insert_eq|].
      rewrite lookup_insert_ne by done. by apply ops_evolve_refl.
    + intros i op op' E1 E2. rewrite lookup_insert_ne in E2 by congruence. congruence.
  - destruct (ops w !! id) as [op|] eqn:Eo; [|done]. intros [= <-]. pose proof (apply_call_same c op) as S.
    apply (accounted_op w _ 0%nat (tasks w !! 0%nat) id op (apply_call c op) H); try done; cbn;
      [by rewrite partial_alter_self|by left|by apply same_evolves|by rewrite (os_admitted _ _ S)].
  - destruct (ops w !! id) as [op|] eqn:Eo; [|done]. cbn [mbind option_bind].
    pose proof (quiet_admit_short now op (rec w)) as Q. destruct (AdmitShort now op (rec w)) as [op' r'] eqn:E. intros [= <-].
    apply (accounted_op w _ 0%nat (tasks w !! 0%nat) id op op' H); try done; cbn;
      [by rewrite partial_alter_self|by left| | |by apply quiet_calm].
    + destruct (admit_short_spec _ _ _ _ _ E) as [->|(Hf & Hd & Hb & ok & ->)]; [by apply same_evolves, op_same_refl|].
      split; try done; [|intros _ _; by right]. intros Had. destruct (ac_adm w H id op Eo Had); congruence.
    + destruct (admit_short_spec _ _ _ _ _ E) as [->|(Hf & _)]; [done|congruence].
  - intros [= <-]. apply (accounted_same w _ H); try done. cbn. unfold schedulePhase.
    repeat match goal with |- context [if ?b then _ else _] => destruct b end; by split.
  - destruct (ops w !! id) as [op|] eqn:Eo; [|done]. cbn [mbind option_bind]. destruct (begin_claim op) as [[b|] op'] eqn:E.
    + by intros [= <-].
    + destruct (fresh t w) eqn:Hfr; [|done]. intros [= <-]. destruct (begin_claim_spec _ _ E) as (Hf & Hb & ->).
      apply (accounted_op w _ t (Some (TBegin id)) id op (with_capture true (captureDecided op) (admitted op) op) H); try done.
      * intros i. by rewrite duty_fresh.
      * intros i [= <-]. by right.
      * split; try done. intros _ _. by left.
  - destruct (tasks w !! t) as [[id| | | | | | |]|] eqn:Et; try done.
    destruct (ops w !! id) as [op|] eqn:Eo; [|done]. cbn [mbind option_bind].
    destruct (begin_admit now op (rec w)) as [[o op'] r'] eqn:E. intros [= <-].
    destruct (begin_admit_calm _ _ _ _ _ _ E). by eapply accounted_begin_admit.
  - destruct (ops w !! id) as [op|] eqn:Eo; [|done]. cbn [mbind option_bind].
    destruct (finish_op status now op) as [[v|] op'] eqn:E; [|by intros [= <-]].
    destruct (fresh t w) eqn:Hfr; [|done]. intros [= <-]. by eapply accounted_finish.
  - destruct (tasks w !! t) as [[|v| | | | | |]|] eqn:Et; try done.
    destruct (ops w !! OperationID v) as [op|] eqn:Eo; [|done]. cbn [mbind option_bind].
    destruct (finish_decide v now op (rec w)) as [[o op'] r'] eqn:E.
    pose proof (accounted_decide _ _ _ _ _ _ _ _ H Et Eo E) as Hd. by destruct o; intros [= <-].
  - destruct (phase_receive (rec w)) as [[id r']|] eqn:E; [|done]. cbn [mbind option_bind].
    destruct (fresh t w) eqn:Hfr; [|done]. intros [= <-].
    apply (accounted_ops w _ t (Some (TPhaseGot id)) H); try done; [by apply duty_none; [intros; apply duty_fresh|]|].
    unfold phase_receive in E. destruct (phases (rec w)); [done|]. by injection E as <- <-.
  - destruct (tasks w !! t) as [[| |id| | | | |]|] eqn:Et; try done. unfold persistPhase_lookup. intros [= <-].
    eapply (accounted_ops w _ t _ H); try done. rewrite Et. apply duty_none; [done|]. by destruct (bool_decide _).
  - destruct (tasks w !! t) as [[| | |id| | | |]|] eqn:Et; try done.
    destruct (ops w !! id) as [op|]; [|done]. cbn [mbind option_bind]. intros [= <-].
    eapply (accounted_ops w _ t _ H); try done. rewrite Et. apply duty_none; [done|]. by destruct (finished op).
  - destruct (fresh t w && _) eqn:E; [|done]. apply andb_true_iff in E as [Hfr _].
    destruct (retry_scan order now [] (rec w)) as [[dr o] r'] eqn:Es. intros [= <-]. by eapply accounted_retry.
  - destruct (tasks w !! t) as [[| | | |[|id rest]| | |]|] eqn:Et; try done; intros [= <-];
      (eapply (accounted_ops w _ t _ H); try done); rewrite Et; apply duty_none; try done.
    by destruct (bool_decide (id ∈ active (rec w))).
  - destruct (tasks w !! t) as [[| | | | |id rest| |]|] eqn:Et; try done.
    destruct (ops w !! id) as [op|] eqn:Eo; [|done]. cbn [mbind option_bind].
    destruct (refreshRunning op) as [[v|] op'] eqn:E; intros [= <-].
    + destruct (refresh_spec _ _ _ E) as (Hf & _ & S).
      apply (accounted_op w _ t (Some (start (JWrite (KRestore rest) v))) id op op' H); try done;
        [by intros i; rewrite Et|by apply same_evolves|by rewrite (os_admitted _ _ S)].
    + eapply (accounted_ops w _ t _ H); try done. by rewrite Et.
  - destruct (has_audit (rec w)).
    + destruct (fresh t w) eqn:Hfr; [|done]. intros [= <-].
      eapply (accounted_ops w _ t _ H); try done. apply duty_none; [intros; by apply duty_fresh|done].
    + intros [= <-]. apply (accounted_same w _ H); try done. apply quiet_calm, quiet_unavailable.
  - destruct (fresh t w && _) eqn:E; [|done]. apply andb_true_iff in E as [Hfr _].
    destruct (audit_scan order now (rec w)) as [o r'] eqn:Es. intros [= <-].
    eapply (accounted_ops w _ t _ H); try done; [|by eapply audit_scan_calm].
    apply duty_none; [intros; by apply duty_fresh|by destruct o].
  - destruct (has_store (rec w) && _) eqn:E; [|done]. apply andb_true_iff in E as [_ E]. intros [= <-].
    eapply (accounted_ops w _ t _ H); try done. apply duty_none; [|done]. intros i.
    apply orb_true_iff in E as [E|E]; [by apply duty_fresh|]. by destruct (tasks w !! t) as [[]|].
  - destruct (has_store (rec w) && _) eqn:E; [|done]. apply andb_true_iff in E as [_ E]. intros [= <-].
    eapply (accounted_ops w _ t _ H); try done. apply duty_none; [intros; by apply duty_fresh|done].
  - destruct (has_store (rec w) && _) eqn:E; [|done]. apply andb_true_iff in E as [_ E]. intros [= <-].
    eapply (accounted_ops w _ t _ H); try done. apply duty_none; [intros; by apply duty_fresh|done].
  - destruct (has_store (rec w) && _) eqn:E; [|done]. apply andb_true_iff in E as [_ E]. intros [= <-].
    eapply (accounted_ops w _ t _ H); try done. apply duty_none; [intros; by apply duty_fresh|done].
  - intros [= <-]. by apply (accounted_same w _ H).
Qed.

Lemma accounted_settle w t j a uuid now rnd n :
  bounded w -> accounted w -> tasks w !! t = Some (TJob j [] (SSettle a)) ->
  accounted (settle t j a uuid now rnd n w).
Proof.
  intros Hb H Et.
  assert (forall r' o, calm (rec w) r' ->
    match o with Some (TFinish _) | Some (TJob (JWrite (KFinal _) _) _ _) | Some (TBegin _) => False | _ => True end ->
    (forall i, weight (final_of i) (tasks w !! t) = 0) -> accounted (go t o r' w)) as Hend.
  { intros r' o Q Hn Hz. apply (accounted_ops w _ t o H); try done. by apply duty_none. }
  destruct j as [k v|e|id p|id|id|id|id|]; cbn [settle].
  - destruct k as [|c| |id p|rest].
    + apply (Hend (rec w)); [done..|]. by rewrite Et.
    + destruct (finish_settle v c (answer_error a) now rnd (rec w)) as [f r'] eqn:E.
      destruct (finish_settle_fate _ _ _ _ _ _ _ _ E (accounted_unqueued w H _ _ _ _ _ Et)) as (Hd & Ea & _).
      by apply (final_disposed w (note_fate f (OperationID v) (go t None r' w)) t v c (SSettle a) f H Et Hd).
    + apply (Hend (rec w)); [done..|]. by rewrite Et.
    + destruct (retry_settle id p (answer_error a) now rnd (rec w)) as [f r'] eqn:E.
      destruct (ow_item _ _ _ _ (tk_retry _ _ (proj2 Hb)) t _ id p Et eq_refl) as [Hk _].
      destruct (retry_settle_fate _ _ _ _ _ _ _ _ E Hk) as (Hd & Ea & _).
      by apply (retry_disposed w (note_fate f id (go t None r' w)) t id p v (SSettle a) f H Et Hk Hd).
    + apply (Hend (rec w)); [done..|]. by rewrite Et.
  - apply Hend; [|done|by rewrite Et]. destruct (bool_decide _); [done|apply audit_failed_calm].
  - apply Hend; [apply audit_settle_calm|done|by rewrite Et].
  - apply Hend; [apply quiet_calm, quiet_register|done|by rewrite Et].
  - pose proof (quiet_heartbeat id (answer_error a) uuid now (rec w)) as Q.
    destruct (heartbeat_settle id (answer_error a) uuid now (rec w)) as [nx r'].
    eapply (accounted_ops w _ t _ H); [done| |done..|by apply quiet_calm]. apply duty_none; [by rewrite Et|by destruct nx].
  - apply (Hend (rec w)); [done| |by rewrite Et]. by destruct a.
  - apply Hend; [apply quiet_calm, quiet_reconcile|done|by rewrite Et].
  - apply Hend; [|done|by rewrite Et]. destruct (bool_decide _); [done|apply quiet_calm, quiet_warn].
Qed.

Lemma accounted_job e w w' : bounded w -> accounted w -> step_job cfg e w = Some w' -> accounted w'.
Proof.
  intros Hb H. destruct e; cbn [step_job].
  - destruct (tasks w !! t) as [[| | | | | | |j held [[|s todo]| | | |]]|] eqn:Et; try done.
    + intros [= <-]. eapply (accounted_ops w _ t _ H); try done. by rewrite Et.
    + unfold slot_take. destruct (_ <? _); intros [= <-]; (eapply (accounted_ops w _ t _ H); try done); by rewrite Et.
  - destruct (tasks w !! t) as [[| | | | | | |j held [| | | |]]|] eqn:Et; try done.
    assert (forall d a, accounted (with_task t (Some (TJob j held (SRelease a))) (with_db d w))) as Hend.
    { intros d a. eapply (accounted_ops w _ t _ H); try done. by rewrite Et. }
    assert (forall a, accounted (with_task t (Some (TJob j held (SRelease a))) w)) as Hend'.
    { intros a. eapply (accounted_ops w _ t _ H); try done. by rewrite Et. }
    destruct z as [|e|e].
    + destruct (store_call cfg t j p now w) as [[[d ids]|e]|]; [| |done]; intros [= <-]; [apply Hend|apply Hend'].
    + destruct (reconciles t w); [done|]. intros [= <-]. apply Hend'.
    + destruct (store_call cfg t j p now w) as [[[d ids]|e']|]; [| |done]; intros [= <-]; [apply Hend|apply Hend'].
  - destruct (tasks w !! t) as [[| | | | | | |[] held []]|] eqn:Et; try done. destruct (lock w); [done|].
    destruct (reconcile_owner _ _ _ _); [|done]. intros [= <-]. by apply (accounted_same w _ H).
  - destruct (lock w) as [l|]; [|done]. cbn [mbind option_bind]. destruct (_ && _); [|done]. intros [= <-].
    by apply (accounted_same w _ H).
  - destruct (lock w) as [l|]; [|done]. cbn [mbind option_bind]. destruct (_ && _); [|done]. intros [= <-].
    by apply (accounted_same w _ H).
  - destruct (tasks w !! t) as [[| | | | | | |j [|s held] [| |a| |]]|] eqn:Et; try done; intros [= <-];
      (eapply (accounted_ops w _ t _ H); try done); by rewrite Et.
  - destruct (tasks w !! t) as [[| | | | | | |[k v| | | | | | |] [|] [| | |e|]]|] eqn:Et; try done. intros [= <-].
    eapply (accounted_ops w _ t _ H); try done; [by rewrite Et|apply quiet_calm, quiet_failure].
  - destruct (tasks w !! t) as [[| | | | | | |j [|] [| | | |a]]|] eqn:Et; try done. intros [= <-]. by apply accounted_settle.
  - intros E. enough (exists d, w' = with_db d w) as [d ->] by by apply (accounted_same w _ H).
    by eapply env_step_db.
Qed.

Lemma accounted_init store audit uuid o d : accounted (init store audit uuid o d).
Proof. by split. Qed.

Lemma reachable_account w : reachable cfg w -> bounded w /\ accounted w.
Proof.
  apply (reachable_inv cfg (fun w => bounded w /\ accounted w)).
  - intros. split; [apply bounded_init|apply accounted_init].
  - intros [e|e] w1 w2 [Hb Ha] E.
    + split; [by eapply bounded_work|by eapply accounted_work].
    + split; [by eapply bounded_job; [..|apply accounted_unqueued|]|by eapply accounted_job].
Qed.

(** In every reachable state of the recorder, whatever the interleaving, its tables
    and queues are within their configured limits, its byte counters are the sums of what
    is queued, and the slots in use are exactly those goroutines hold, never more than
    the capacity. *)
Theorem recorder_bounds w :
  reachable cfg w ->
  let r := rec w in
  let o := opts r in
  Z.of_nat (size (active r)) <= ActiveLimit o /\ Z.of_nat (List.length (phases r)) <= ActiveLimit o /\
  Z.of_nat (size (pending r)) <= RetryItems o /\ pendingBytes r = total_of p_bytes (pending r) /\
  pendingBytes r <= RetryBytes o /\
  Z.of_nat (size (auditPending r)) <= AuditRetryItems o /\ auditBytes r = total_of a_bytes (auditPending r) /\
  auditBytes r <= AuditRetryBytes o /\ Z.of_nat (size (ips r)) <= IPLimit o /\
  forall s, slots r s = total_of (held_count s) (tasks w) /\ slots r s <= capacity o s.
Proof.
  intros H. destruct (reachable_account w H) as [[[Ha [Hp1 Hp2 Hp3 _] [Hq1 Hq2 Hq3 _] Hi Hf] [Hs Hc _ _]] _].
  cbv zeta. by split_and!.
Qed.

(** C13: Every operation that has ended is accounted for exactly once, at every moment and
    in every interleaving: its result is with the goroutine that finishes it, or was
    refused capture, or is saved, or waits in the retry queue, or is lost; the counter of
    lost results counts the lost ones; and an operation is listed as active only until
    its result has been disposed of. *)
Theorem recorder_accounting w id op :
  reachable cfg w -> ops w !! id = Some op ->
  finishing id w + one (id ∈ skipped w) + one (id ∈ saved w) + one (is_Some (pending (rec w) !! id)) + one (id ∈ lost w)
    = (if finished op then 1 else 0) /\
  FinalizationLost (stats (rec w)) = wrapu64 (Z.of_nat (size (lost w))) /\
  (id ∈ active (rec w) -> finished op = false \/ finishing id w = 1) /\
  (id ∈ skipped w -> admitted op = false).
Proof.
  intros H Eo. destruct (reachable_account w H) as [_ Ha]. split_and!.
  - pose proof (ac_count w Ha id) as Hc. unfold is_finished, settled_in in Hc. rewrite Eo in Hc. lia.
  - apply (ac_lost w Ha).
  - intros Hin. destruct (ac_active w Ha id Hin) as (op' & E & _ & _ & Hor). by assert (op' = op) as <- by congruence.
  - intros Hin. by apply (ac_skipped w Ha id).
Qed.
End account.

Lemma recorder_bounds_witness :
  pendingBytes (rec Demo.final) = 100 /\ slots (rec Demo.final) allSlots = total_of (held_count allSlots) (tasks Demo.final).
Proof.
  split; [by vm_compute|].
  pose proof (recorder_bounds Demo.cfg Demo.final Demo.final_reachable) as (_ & _ & _ & _ & _ & _ & _ & _ & _ & Hs).
  apply Hs.
Defined.

Lemma recorder_accounting_witness :
  is_Some (pending (rec Demo.final) !! "op1") /\ finished Demo.operation = true /\
  finishing "op1" Demo.final + one ("op1" ∈ skipped Demo.final) + one ("op1" ∈ saved Demo.final)
    + one (is_Some (pending (rec Demo.final) !! "op1")) + one ("op1" ∈ lost Demo.final) = 1.
Proof.
  split; [vm_compute; by eexists|]. split; [by vm_compute|].
  apply (recorder_accounting Demo.cfg Demo.final "op1" Demo.operation Demo.final_reachable). by vm_compute.
Defined.
