(* ===== verification/UsageTruth.v ===== *)
(** * The history tells the truth about this process's operations

    First what is known without the database: which rows goroutines carry and which
    operations are tracked ([written]); then what the rows of the database say
    ([truthful]). *)

From S2P Require Import Prelude GoStrings Float64 Text UsageLog UsageRepo UsageRecorder UsageCapture UsageBounds UsageAccount.

Section truth.
Context `{U : usage} `{AJ : audit_json} (cfg : UsageLogRepoConfig).

(** ** What goroutines carry *)

Abbreviation op_owner op := (OwnerInstanceID (row op)) (only parsing).

Definition task_ok (os : gmap string Operation) (act : gset string) (k : task) : Prop :=
  match k with
  | TBegin id => exists op, os !! id = Some op /\ beginAttempted op = true /\ op_owner op = None
  | TFinish v | TJob (JWrite (KFinal _) v) _ _ =>
      exists op, os !! OperationID v = Some op /\ finished op = true /\ v = snapshotLocked op /\
        (op_owner op <> None -> OperationID v ∈ act)
  | TPhase id | TRefresh id _ => exists op, os !! id = Some op /\ op_owner op <> None
  | TJob (JWrite (KRetry id _) v) _ _ =>
      exists op, os !! id = Some op /\ OperationID v = id /\ finished op = true /\ v = snapshotLocked op
  | TJob (JWrite _ v) _ _ =>
      exists op, os !! OperationID v = Some op /\ OwnerInstanceID v = op_owner op /\ op_owner op <> None /\
        is_running v = true /\ RecoveryReason v = ""
  | _ => True
  end.

Record written (w : world) : Prop := {
  wr_reason id op : ops w !! id = Some op -> RecoveryReason (row op) = "";
  wr_used id op o : ops w !! id = Some op -> op_owner op = Some o -> o ∈ used_owners w /\ beginAttempted op = true;
  wr_live id op : ops w !! id = Some op -> op_owner op <> None -> finished op = false -> id ∈ active (rec w);
  wr_owner : owner (rec w) ∈ used_owners w;
  wr_task t k : tasks w !! t = Some k -> task_ok (ops w) (active (rec w)) k;
  wr_begin t t' id : tasks w !! t = Some (TBegin id) -> tasks w !! t' = Some (TBegin id) -> t = t';
  wr_pending id p : pending (rec w) !! id = Some p ->
    exists op, ops w !! id = Some op /\ finished op = true /\ p_row p = snapshotLocked op;
  wr_active id : id ∈ active (rec w) -> exists op, ops w !! id = Some op /\ op_owner op <> None }.

(** How operations change, in any step. *)
Record grows (op op' : Operation) : Prop := {
  gr_reason : RecoveryReason (row op') = RecoveryReason (row op);
  gr_owner : op_owner op <> None -> op_owner op' = op_owner op;
  gr_finished : finished op = true ->
    finished op' = true /\ snapshotLocked op' = snapshotLocked op /\ op_owner op' = op_owner op;
  gr_begun : beginAttempted op = true -> beginAttempted op' = true }.

Lemma grows_refl op : grows op op.
Proof. by split. Qed.

Definition ops_grow (w w' : world) : Prop :=
  (forall id op, ops w !! id = Some op -> exists op', ops w' !! id = Some op' /\ grows op op') /\
  (forall id op', ops w' !! id = Some op' -> is_Some (ops w !! id) \/ (RecoveryReason (row op') = "" /\ op_owner op' = None)).

Lemma ops_grow_refl w w' : ops w' = ops w -> ops_grow w w'.
Proof. intros E. split; rewrite E; [intros id op Eo; exists op; split; [done|apply grows_refl]|intros id op ->; left; by eexists]. Qed.

Lemma ops_grow_set w w' id op op' :
  ops w !! id = Some op -> grows op op' -> ops w' = <[id := op']> (ops w) -> ops_grow w w'.
Proof.
  intros Eo G E. split; rewrite E.
  - intros i o Ei. destruct (decide (id = i)) as [<-|Hne].
    + exists op'. rewrite lookup_insert_eq. split; [done|]. by assert (o = op) as -> by congruence.
    + exists o. rewrite lookup_insert_ne by done. split; [done|apply grows_refl].
  - intros i o. destruct (decide (id = i)) as [<-|Hne].
    + intros _. left. by eexists.
    + rewrite lookup_insert_ne by done. intros ->. left. by eexists.
Qed.

Lemma task_ok_grow w w' act k :
  ops_grow w w' -> task_ok (ops w) (active (rec w)) k ->
  (forall id, final_of id k = true -> id ∈ active (rec w) -> id ∈ act) ->
  (forall id op', k = TBegin id -> ops w' !! id = Some op' -> op_owner op' = None) ->
  task_ok (ops w') act k.
Proof.
  intros [Hg _] Hk Hact Hb.
  assert (forall id op, ops w !! id = Some op -> finished op = true ->
    exists op', ops w' !! id = Some op' /\ finished op' = true /\ snapshotLocked op' = snapshotLocked op /\ op_owner op' = op_owner op) as Hfin.
  { intros id op Eo Hf. destruct (Hg id op Eo) as (op' & Eo' & G). exists op'. split; [done|]. by apply (gr_finished _ _ G). }
  assert (forall id op, ops w !! id = Some op -> op_owner op <> None ->
    exists op', ops w' !! id = Some op' /\ op_owner op' = op_owner op) as Hown.
  { intros id op Eo Hf. destruct (Hg id op Eo) as (op' & Eo' & G). exists op'. split; [done|]. by apply (gr_owner _ _ G). }
  assert (forall v, (exists op, ops w !! OperationID v = Some op /\ finished op = true /\ v = snapshotLocked op /\
     (op_owner op <> None -> OperationID v ∈ active (rec w))) -> (OperationID v ∈ active (rec w) -> OperationID v ∈ act) ->
     exists op, ops w' !! OperationID v = Some op /\ finished op = true /\ v = snapshotLocked op /\
     (op_owner op <> None -> OperationID v ∈ act)) as Hend.
  { intros v (op & Eo & Hf & Ev & Ha) Hin. destruct (Hfin _ _ Eo Hf) as (op' & Eo' & Hf' & Es & Ew).
    exists op'. rewrite Ew, Es. split_and!; auto. }
  destruct k as [id|v|id|id|ids|id rest| |j h st]; cbn [task_ok] in *; try done.
  - destruct Hk as (op & Eo & Hbg & Ew). destruct (Hg id op Eo) as (op' & Eo' & G). exists op'.
    split_and!; [done|by apply (gr_begun _ _ G)|by apply (Hb id)].
  - apply Hend; [done|]. apply Hact. apply String.eqb_refl.
  - destruct Hk as (op & Eo & Ew). destruct (Hown id op Eo Ew) as (op' & Eo' & E). exists op'. by rewrite E.
  - destruct Hk as (op & Eo & Ew). destruct (Hown id op Eo Ew) as (op' & Eo' & E). exists op'. by rewrite E.
  - destruct j as [[|c| |id p|rest] v|e|id p|id|id|id|id|]; try done.
    + destruct Hk as (op & Eo & Ev & Ew & Hr & Hrr). destruct (Hown _ op Eo Ew) as (op' & Eo' & E). exists op'. by rewrite E.
    + apply Hend; [done|]. apply Hact. apply String.eqb_refl.
    + destruct Hk as (op & Eo & Ev & Ew & Hr & Hrr). destruct (Hown _ op Eo Ew) as (op' & Eo' & E). exists op'. by rewrite E.
    + destruct Hk as (op & Eo & Ei & Hf & Ev). destruct (Hfin _ op Eo Hf) as (op' & Eo' & Hf' & Es & _). exists op'. by rewrite Es.
    + destruct Hk as (op & Eo & Ev & Ew & Hr & Hrr). destruct (Hown _ op Eo Ew) as (op' & Eo' & E). exists op'. by rewrite E.
Qed.

Lemma written_step w w' t o :
  written w -> ops_grow w w' ->
  (forall id op', ops w' !! id = Some op' ->
     (forall x, op_owner op' = Some x -> x ∈ used_owners w' /\ beginAttempted op' = true) /\
     (op_owner op' <> None -> finished op' = false -> id ∈ active (rec w'))) ->
  owner (rec w') ∈ used_owners w' ->
  tasks w' = partial_alter (fun _ => o) t (tasks w) ->
  (forall t' k id, t' <> t -> tasks w !! t' = Some k -> final_of id k = true -> id ∈ active (rec w) -> id ∈ active (rec w')) ->
  (forall t' id op', t' <> t -> tasks w !! t' = Some (TBegin id) -> ops w' !! id = Some op' -> op_owner op' = None) ->
  (forall k, o = Some k -> task_ok (ops w') (active (rec w')) k) ->
  (forall id, o = Some (TBegin id) -> tasks w !! t = Some (TBegin id) \/ forall t', tasks w !! t' <> Some (TBegin id)) ->
  (forall id p, pending (rec w') !! id = Some p -> (exists p0, pending (rec w) !! id = Some p0 /\ p_row p = p_row p0) \/
     exists op, ops w' !! id = Some op /\ finished op = true /\ p_row p = snapshotLocked op) ->
  (forall id, id ∈ active (rec w') -> id ∈ active (rec w) \/ exists op, ops w' !! id = Some op /\ op_owner op <> None) ->
  written w'.
Proof.
  intros H Hops Hop Hown Et Hfin Hbeg Hnew Huniq Hpend Hact. split.
  - intros id op' E. destruct (proj2 Hops id op' E) as [[op Eo]|[? _]]; [|done].
    destruct (proj1 Hops id op Eo) as (op2 & E2 & G). assert (op2 = op') as -> by congruence.
    rewrite (gr_reason _ _ G). by apply (wr_reason w H id).
  - intros id op' x E. by apply (Hop id op' E).
  - intros id op' E. by apply (Hop id op' E).
  - exact Hown.
  - intros t' k. rewrite Et. destruct (decide (t = t')) as [<-|Hne].
    + rewrite lookup_partial_alter_eq. apply Hnew.
    + rewrite lookup_partial_alter_ne by done. intros E. apply (task_ok_grow w); [done|by apply (wr_task w H t')| |].
      * intros id. by apply (Hfin t').
      * intros id op' ->. by apply (Hbeg t').
  - assert (forall t2 id, o = Some (TBegin id) -> t2 <> t -> tasks w !! t2 = Some (TBegin id) -> False) as Hno.
    { intros t2 id Eo Hne E. destruct (Huniq id Eo) as [E'|E']; [|by apply (E' t2)]. apply Hne. by apply (wr_begin w H t2 t id). }
    intros t1 t2 id. rewrite Et. destruct (decide (t = t1)) as [<-|N1], (decide (t = t2)) as [<-|N2]; [done| | |].
    + rewrite lookup_partial_alter_eq, lookup_partial_alter_ne by done. intros E1 E2. by destruct (Hno t2 id E1).
    + rewrite lookup_partial_alter_eq, lookup_partial_alter_ne by done. intros E1 E2. by destruct (Hno t1 id E2).
    + rewrite !lookup_partial_alter_ne by done. apply (wr_begin w H).
  - intros id p E. destruct (Hpend id p E) as [(p0 & E0 & ->)|?]; [|done].
    destruct (wr_pending w H id p0 E0) as (op & Eo & Hf & Ev). destruct (proj1 Hops id op Eo) as (op' & Eo' & G).
    destruct (gr_finished _ _ G Hf) as (Hf' & Es & _). exists op'. by rewrite Es.
  - intros id Hin. destruct (Hact id Hin) as [Hin'|?]; [|done]. destruct (wr_active w H id Hin') as (op & Eo & Hw).
    destruct (proj1 Hops id op Eo) as (op' & Eo' & G). exists op'. by rewrite (gr_owner _ _ G Hw).
Qed.

Lemma unused_task (w : world) : exists t, tasks w !! t = None /\ tasks w = partial_alter (fun _ => None) t (tasks w).
Proof.
  exists (stdpp.base.fresh (dom (tasks w))). assert (tasks w !! stdpp.base.fresh (dom (tasks w)) = None) as E.
  { apply not_elem_of_dom, is_fresh. }
  split; [done|]. change (partial_alter (fun _ => None) ?t ?m) with (delete t m). by rewrite delete_id.
Qed.

(** Nothing changes but one goroutine, the owner and the queue, which only loses rows. *)
Lemma written_go w w' t o :
  written w -> ops w' = ops w -> used_owners w ⊆ used_owners w' -> owner (rec w') ∈ used_owners w' ->
  active (rec w') = active (rec w) ->
  (forall id p, pending (rec w') !! id = Some p -> exists p0, pending (rec w) !! id = Some p0 /\ p_row p = p_row p0) ->
  tasks w' = partial_alter (fun _ => o) t (tasks w) ->
  (forall k, o = Some k -> task_ok (ops w) (active (rec w)) k) -> (forall id, o <> Some (TBegin id)) -> written w'.
Proof.
  intros H Eo Hu Hown Ea Hp Et Hk Hnb. apply (written_step w w' t o H); try done.
  - by apply ops_grow_refl.
  - rewrite Eo, Ea. intros id op E. split; [|by apply (wr_live w H)]. intros x Ex.
    destruct (wr_used w H id op x E Ex) as [Hx Hb]. split; [by apply Hu|done].
  - rewrite Ea. done.
  - rewrite Eo. intros t' id op' _ E E'. destruct (wr_task w H t' _ E) as (op & E2 & _ & ?). congruence.
  - rewrite Eo, Ea. done.
  - intros id E. by destruct (Hnb id).
  - intros id p E. left. by apply Hp.
  - rewrite Ea. by left.
Qed.

Lemma written_stay w w' :
  written w -> ops w' = ops w -> used_owners w' = used_owners w -> owner (rec w') ∈ used_owners w' ->
  active (rec w') = active (rec w) -> pending (rec w') = pending (rec w) -> tasks w' = tasks w -> written w'.
Proof.
  intros H Eo Eu Hown Ea Ep Et. destruct (unused_task w) as (t & _ & E).
  apply (written_go w w' t None H); try done; [by rewrite Eu|rewrite Ep; intros id p E'; by exists p|by rewrite Et].
Qed.

(** An operation changes otherwise than by [Begin]'s admission or its end. *)
Lemma written_op w w' t o id op op' :
  written w -> ops w !! id = Some op -> ops w' = <[id := op']> (ops w) -> grows op op' ->
  op_owner op' = op_owner op -> finished op' = finished op ->
  used_owners w' = used_owners w -> owner (rec w') = owner (rec w) -> active (rec w') = active (rec w) ->
  pending (rec w') = pending (rec w) -> tasks w' = partial_alter (fun _ => o) t (tasks w) ->
  (forall k, o = Some k -> task_ok (ops w') (active (rec w)) k) ->
  (forall i, o = Some (TBegin i) -> tasks w !! t = Some (TBegin i) \/ forall t', tasks w !! t' <> Some (TBegin i)) -> written w'.
Proof.
  intros H E0 Eo G Ew Ef Eu Erw Ea Ep Et Hk Hb.
  assert (forall i o2, <[id := op']> (ops w) !! i = Some o2 ->
    exists o1, ops w !! i = Some o1 /\ op_owner o2 = op_owner o1 /\ finished o2 = finished o1 /\
      (beginAttempted o1 = true -> beginAttempted o2 = true)) as Hback.
  { intros i o2. destruct (decide (id = i)) as [<-|Hne].
    - rewrite lookup_insert_eq. intros [= <-]. exists op. split_and!; try done. apply (gr_begun _ _ G).
    - rewrite lookup_insert_ne by done. intros E. by exists o2. }
  apply (written_step w w' t o H); try done.
  - by apply (ops_grow_set w w' id op op').
  - rewrite Eo, Ea, Eu. intros i o2 E2. destruct (Hback i o2 E2) as (o1 & E1 & Hw & Hf & Hbg). rewrite Hw, Hf. split.
    + intros x Ex. destruct (wr_used w H i o1 x E1 Ex). auto.
    + by apply (wr_live w H i).
  - rewrite Eu, Erw. apply (wr_owner w H).
  - rewrite Ea. done.
  - rewrite Eo. intros t' i o2 _ E E2. destruct (Hback i o2 E2) as (o1 & E1 & Hw & _).
    destruct (wr_task w H t' _ E) as (o3 & E3 & _ & ?). rewrite Hw. congruence.
  - rewrite Ea. done.
  - rewrite Ep. intros i p E. left. by exists p.
  - rewrite Ea. by left.
Qed.

Lemma written_op_stay w w' id op op' :
  written w -> ops w !! id = Some op -> ops w' = <[id := op']> (ops w) -> grows op op' ->
  op_owner op' = op_owner op -> finished op' = finished op ->
  used_owners w' = used_owners w -> owner (rec w') = owner (rec w) -> active (rec w') = active (rec w) ->
  pending (rec w') = pending (rec w) -> tasks w' = tasks w -> written w'.
Proof.
  intros H E0 Eo G Ew Ef Eu Erw Ea Ep Et. destruct (unused_task w) as (t & _ & E).
  apply (written_op w w' t None id op op' H); try done. by rewrite Et.
Qed.

Lemma call_grows c op : grows op (apply_call c op).
Proof.
  pose proof (apply_call_same c op) as S. split; [apply (os_reason _ _ S)|intros _; apply (os_owner _ _ S)| |by rewrite (os_begun _ _ S)].
  intros Hf. by rewrite (apply_call_finished c op Hf).
Qed.
Lemma capture_grows b d a op : (beginAttempted op = true -> b = true) -> grows op (with_capture b d a op).
Proof. intros Hb. by split. Qed.

Lemma admit_owner auth ip now r : owner (admitLocked auth ip now r).2 = owner r.
Proof. unfold admitLocked. repeat first [done | case_match]. Qed.
Lemma short_owner now op r : owner (AdmitShort now op r).2 = owner r.
Proof.
  unfold AdmitShort. destruct (finished op || _ || _ || _ || _); [done|].
  destruct (has_store r); [|done]. pose proof (admit_owner (AuthType (row op)) (ClientAddress (facts (row op))) now r) as E.
  by destruct (admitLocked _ _ now r) as [[] r1].
Qed.
Lemma decide_owner v now op r o op' r' : finish_decide v now op r = (o, op', r') -> owner r' = owner r.
Proof.
  unfold finish_decide. destruct (_ && _); [by intros [= <- <- <-]|]. destruct (_ && _); [|by intros [= <- <- <-]].
  destruct (has_store r); [|by intros [= <- <- <-]].
  pose proof (admit_owner (AuthType v) (ClientAddress (facts v)) now r) as E.
  by destruct (admitLocked _ _ now r) as [[] r1]; intros [= <- <- <-].
Qed.
Lemma warn_owner reason now r : owner (warnLocked reason now r) = owner r.
Proof. unfold warnLocked. by destruct (_ <? _). Qed.

(** Sections that leave the owner alone. *)
Lemma schedule_calm id r : calm r (schedulePhase id r) /\ owner (schedulePhase id r) = owner r.
Proof.
  unfold schedulePhase. by repeat match goal with |- context [if ?b then _ else _] => destruct b end.
Qed.
Lemma drops_owner r l r' : drops r l r' -> owner r' = owner r.
Proof. by induction 1. Qed.
Lemma taken_owner r1 o r' : taken r1 o r' -> owner r' = owner r1.
Proof. by intros [[_ ->]|(? & ? & _ & _ & _ & ->)]. Qed.
Lemma audit_scan_owner order now o r r' : audit_scan order now r = (o, r') -> owner r' = owner r.
Proof.
  revert r. induction order as [|key order IH]; intros r; cbn [audit_scan]; [by intros [= <- <-]|].
  destruct (auditPending r !! key) as [item|]; [|apply IH]. destruct (a_inFlight item); [apply IH|].
  destruct (_ <=? _); [intros E; by rewrite (IH _ E)|]. destruct (negb _); [|apply IH]. by intros [= <- <-].
Qed.

(** Rows a retry pass leaves or takes were queued. *)
Lemma scan_rows r l r1 o r' id p :
  drops r l r1 -> taken r1 o r' -> pending r' !! id = Some p -> exists p0, pending r !! id = Some p0 /\ p_row p = p_row p0.
Proof.
  intros Hd Ht Hp. assert (forall i q, pending r1 !! i = Some q -> pending r !! i = Some q) as H1.
  { intros i q. rewrite (drops_lookup _ _ _ i Hd). by case_bool_decide. }
  destruct Ht as [[_ ->]|(key & item & _ & Hk & _ & ->)]; [exists p; split; [by apply H1|done]|].
  cbn in Hp. apply lookup_insert_Some in Hp as [[<- <-]|[_ Hp]].
  - exists item. split; [by apply H1|done].
  - exists p. split; [by apply H1|done].
Qed.

(** ** The steps of [Begin] and [Finish] *)

Lemma written_begin w t id op :
  written w -> ops w !! id = Some op -> begin_claim op = (BeginContinue, with_capture true (captureDecided op) (admitted op) op) ->
  fresh t w = true ->
  written (with_task t (Some (TBegin id)) (with_op id (with_capture true (captureDecided op) (admitted op) op) w)).
Proof.
  intros H Eo E Hfr. destruct (begin_claim_spec _ _ E) as (Hf & Hb & _).
  assert (op_owner op = None) as Ew.
  { destruct (op_owner op) as [x|] eqn:Ex; [|done]. destruct (wr_used w H id op x Eo Ex). congruence. }
  eapply (written_op w _ t (Some (TBegin id)) id op (with_capture true (captureDecided op) (admitted op) op) H Eo); try done.
  - intros k [= <-]. cbn. eexists. rewrite lookup_insert_eq. by split_and!.
  - intros i [= <-]. right. intros t' E'. destruct (wr_task w H t' _ E') as (o & Eo' & Hb' & _). congruence.
Qed.

Lemma written_begin_admit w t id op now o op' r' :
  accounted w -> written w -> tasks w !! t = Some (TBegin id) -> ops w !! id = Some op ->
  begin_admit now op (rec w) = (o, op', r') ->
  written (go t (option_map (fun v => start (JWrite KBegin v)) o) r' (with_op id op' w)).
Proof.
  intros Ha H Et Eo E. pose proof (ac_id w Ha id op Eo) as Eid. destruct (begin_admit_calm _ _ _ _ _ _ E) as [_ Ep].
  destruct (wr_task w H t _ Et) as (op0 & E0 & Hbg & Ew). assert (op0 = op) as -> by congruence.
  destruct (begin_admit_spec _ _ _ _ _ _ E) as [(-> & -> & Eact & Eow)|(r1 & Hn & _ & _ & -> & Eo' & Eact & Eow)].
  - apply (written_go w _ t None H); try done; cbn.
    + by rewrite insert_id.
    + rewrite Eow. apply (wr_owner w H).
    + rewrite Ep. intros i p E'. by exists p.
  - set (op' := with_row _ _) in *.
    assert (grows op op') as G by (split; [done|congruence|congruence|done]).
    apply (written_step w _ t (Some (start (JWrite KBegin (snapshotLocked op')))) H);
      cbn [ops go with_rec with_task with_op rec used_owners tasks pending]; try done.
    + by apply (ops_grow_set w _ id op op').
    + rewrite Eact, Eid. intros i o2. destruct (decide (id = i)) as [<-|Hne].
      * rewrite lookup_insert_eq. intros [= <-]. split; [|set_solver]. intros x [= <-]. split; [apply (wr_owner w H)|exact Hbg].
      * rewrite lookup_insert_ne by done. intros E2. split; [intros x; by apply (wr_used w H i)|].
        intros H1 H2. pose proof (wr_live w H i o2 E2 H1 H2). set_solver.
    + rewrite Eow. apply (wr_owner w H).
    + by rewrite Eo'.
    + rewrite Eact. intros. set_solver.
    + intros t' i o2 Hne E1. destruct (decide (id = i)) as [<-|Hni].
      * destruct Hne. by apply (wr_begin w H t' t id).
      * rewrite lookup_insert_ne by done. intros E2. destruct (wr_task w H t' _ E1) as (o1 & ? & _ & ?). congruence.
    + intros k [= <-]. cbn [task_ok start]. destruct (snapshot_identity op') as (Ei & Ewn & Er & Eout). exists op'.
      rewrite Ei. change (OperationID (row op')) with (OperationID (row op)). rewrite Eid, lookup_insert_eq, Ewn, Er.
      split_and!; try done; first [by apply (wr_reason w H id op)|unfold is_running; by rewrite (Eout Hn)].
    + rewrite Ep. intros i p E'. left. by exists p.
    + rewrite Eact, Eid. intros i [->%elem_of_singleton|Hin]%elem_of_union; [right|by left]. exists op'. by rewrite lookup_insert_eq.
Qed.

Lemma written_finish w t id op op' v status now :
  accounted w -> written w -> ops w !! id = Some op -> finish_op status now op = (Some v, op') ->
  written (with_task t (Some (TFinish v)) (with_op id op' w)).
Proof.
  intros Ha H Eo Ef. pose proof (ac_id w Ha id op Eo) as Eid.
  destruct (finish_op_spec _ _ _ _ _ Ef) as (Hn & Hf & -> & Ei & Ew & Er & Eb & _).
  assert (OperationID (snapshotLocked op') = id) as Es by (destruct (snapshot_identity op') as (-> & _); congruence).
  assert (grows op op') as G by (split; [done|done|congruence|by rewrite Eb]).
  apply (written_step w _ t (Some (TFinish (snapshotLocked op'))) H); cbn [ops with_task with_op rec used_owners tasks]; try done.
  - by apply (ops_grow_set w _ id op op').
  - intros i o2. destruct (decide (id = i)) as [<-|Hne].
    + rewrite lookup_insert_eq. intros [= <-]. rewrite Ew, Eb. split; [intros x Ex; by apply (wr_used w H id op x)|congruence].
    + rewrite lookup_insert_ne by done. intros E2. split; [intros x; by apply (wr_used w H i)|by apply (wr_live w H i)].
  - apply (wr_owner w H).
  - intros t' i o2 Hne E1. destruct (wr_task w H t' _ E1) as (o1 & E2 & _ & ?). destruct (decide (id = i)) as [<-|Hni].
    + rewrite lookup_insert_eq. intros [= <-]. congruence.
    + rewrite lookup_insert_ne by done. congruence.
  - intros k [= <-]. cbn [task_ok]. exists op'. rewrite Es, lookup_insert_eq. split_and!; try done.
    rewrite Ew. intros Hw. by apply (wr_live w H id op).
  - intros i p E. left. by exists p.
  - by left.
Qed.

Lemma written_decide w t v now op o op' r' :
  written w -> tasks w !! t = Some (TFinish v) -> ops w !! OperationID v = Some op ->
  finish_decide v now op (rec w) = (o, op', r') ->
  written match o with
          | Some c => go t (Some (start (JWrite (KFinal c) v))) r' (with_op (OperationID v) op' w)
          | None => note_skipped (OperationID v) (go t None r' (with_op (OperationID v) op' w))
          end.
Proof.
  intros H Et Eo E. pose proof (finish_decide_ok _ _ _ _ _ _ _ E) as Q. pose proof (decide_owner _ _ _ _ _ _ _ E) as Eow.
  destruct (wr_task w H t _ Et) as (op0 & E0 & Hf & Ev & Hact). assert (op0 = op) as -> by congruence.
  assert (exists a b, op' = with_capture (beginAttempted op) a b op) as (a & b & ->).
  { destruct (finish_decide_spec _ _ _ _ _ _ _ E) as [(_ & -> & _)|[(c & _ & _ & _ & -> & _)|(_ & _ & _ & ->)]];
      [exists (captureDecided op), (admitted op); by destruct op..|by eexists _, _]. }
  set (op' := with_capture _ _ _ op).
  assert (forall w' o', (forall k, o' = Some k -> k = start (JWrite (KFinal (default false o)) v)) ->
    ops w' = <[OperationID v := op']> (ops w) -> used_owners w' = used_owners w -> rec w' = r' ->
    tasks w' = partial_alter (fun _ => o') t (tasks w) -> written w') as Hgo.
  { intros w' o' Ho E1 E2 E3 E4. eapply (written_op w w' t o' (OperationID v) op op' H); try done; rewrite ?E3.
    - done.
    - apply (q_active _ _ Q).
    - apply (q_pending _ _ Q).
    - intros k Hk. rewrite (Ho k Hk), E1. cbn. exists op'. by rewrite lookup_insert_eq.
    - intros i Hk. specialize (Ho _ Hk). done. }
  destruct o as [c|].
  - apply (Hgo _ (Some (start (JWrite (KFinal c) v)))); try done. by intros k [= <-].
  - by apply (Hgo _ None).
Qed.

Lemma written_final w w' t v c st f :
  written w -> accounted w' -> tasks w !! t = Some (TJob (JWrite (KFinal c) v) [] st) ->
  settled_in (OperationID v) w' = 1 ->
  active (rec w') = active (rec w) ∖ {[OperationID v]} -> owner (rec w') = owner (rec w) ->
  (forall i p, pending (rec w') !! i = Some p -> pending (rec w) !! i = Some p \/ (i = OperationID v /\ p_row p = v)) ->
  w' = note_fate f (OperationID v) (go t None (rec w') w) -> written w'.
Proof.
  intros H Ha' Et Hs Ea Eow Hp Ew. destruct (wr_task w H t _ Et) as (op & Eo & Hf & Ev & Hact).
  assert (ops w' = ops w /\ used_owners w' = used_owners w /\ tasks w' = partial_alter (fun _ => None) t (tasks w)) as (E1 & E2 & E3)
    by (rewrite Ew; by destruct f).
  apply (written_step w w' t None H); rewrite ?E1, ?E2, ?Ea, ?Eow; try done.
  - by apply ops_grow_refl.
  - intros i o2 Eo2. split; [intros x; by apply (wr_used w H i)|]. intros H1 H2. pose proof (wr_live w H i o2 Eo2 H1 H2).
    apply elem_of_difference. split; [done|]. intros ->%elem_of_singleton. congruence.
  - apply (wr_owner w H).
  - intros t' k i Hne Ek Hfin Hin. apply elem_of_difference. split; [done|]. intros ->%elem_of_singleton.
    assert (tasks w' !! t' = Some k) as Ek' by by rewrite E3, lookup_partial_alter_ne.
    destruct (finishing_alone w' t' k (OperationID v) Ha' Ek' Hfin) as (_ & Hz & _). lia.
  - intros t' i o2 _ Ek. destruct (wr_task w H t' _ Ek) as (o1 & ? & _ & ?). congruence.
  - intros i p E. destruct (Hp i p E) as [E'|[-> Er]]; [left; by exists p|right]. exists op. by rewrite Er.
  - intros i. rewrite elem_of_difference. left. tauto.
Qed.

(** ** Preservation of [written] *)

Lemma task_ok_start w v rest :
  (exists op, ops w !! OperationID v = Some op /\ OwnerInstanceID v = op_owner op /\ op_owner op <> None /\
     is_running v = true /\ RecoveryReason v = "") ->
  task_ok (ops w) (active (rec w)) (start (JWrite KPhase v)) /\
  task_ok (ops w) (active (rec w)) (start (JWrite (KRestore rest) v)).
Proof. by split. Qed.

Lemma written_work e w w' : accounted w -> written w -> step_work e w = Some w' -> written w'.
Proof.
  intros Ha H. pose proof (wr_owner w H) as Hown.
  assert (forall r' t o, owner r' = owner (rec w) -> calm (rec w) r' ->
    (forall k, o = Some k -> task_ok (ops w) (active (rec w)) k) -> (forall id, o <> Some (TBegin id)) ->
    written (go t o r' w)) as Hgo.
  { intros r' t o Eow [Ep Ea _] Hk Hb. apply (written_go w _ t o H); try done; cbn; [by rewrite Eow|].
    rewrite Ep. intros i p E. by exists p. }
  assert (forall t o, (forall k, o = Some k -> task_ok (ops w) (active (rec w)) k) -> (forall id, o <> Some (TBegin id)) ->
    written (with_task t o w)) as Hgo'.
  { intros t o Hk Hb. by apply (Hgo (rec w) t o). }
  destruct e; cbn [step_work].
  - destruct (bool_decide _) eqn:E; [|done]. apply bool_decide_eq_true in E as (_ & En & _). intros [= <-].
    destruct (unused_task w) as (t & _ & Et).
    apply (written_step w _ t None H); cbn [ops with_op rec used_owners tasks]; try done.
    + split; cbn [ops with_op].
      * intros i op Eo. exists op. rewrite lookup_insert_ne by congruence. split; [done|apply grows_refl].
      * intros i op. destruct (decide (uuid = i)) as [<-|Hne].
        -- rewrite lookup_insert_eq. intros [= <-]. by right.
        -- rewrite lookup_insert_ne by done. intros Eo. left. by eexists.
    + intros i op. destruct (decide (uuid = i)) as [<-|Hne]; [by rewrite lookup_insert_eq; intros [= <-]|].
      rewrite lookup_insert_ne by done. intros Eo. split; [intros x; by apply (wr_used w H i)|by apply (wr_live w H i)].
    + intros t' i op _ Ek. destruct (wr_task w H t' _ Ek) as (o1 & E1 & _ & ?). rewrite lookup_insert_ne by congruence. congruence.
    + intros i p E. left. by exists p.
    + by left.
  - destruct (ops w !! id) as [op|] eqn:Eo; [|done]. intros [= <-]. pose proof (apply_call_same c op) as S.
    apply (written_op_stay w _ id op (apply_call c op) H); try done; [apply call_grows|apply (os_owner _ _ S)|apply (os_finished _ _ S)].
  - destruct (ops w !! id) as [op|] eqn:Eo; [|done]. cbn [mbind option_bind].
    pose proof (quiet_admit_short now op (rec w)) as Q. pose proof (short_owner now op (rec w)) as Eow.
    destruct (AdmitShort now op (rec w)) as [op' r'] eqn:E. intros [= <-].
    assert (grows op op' /\ op_owner op' = op_owner op /\ finished op' = finished op) as (G & E1 & E2).
    { destruct (admit_short_spec _ _ _ _ _ E) as [->|(_ & _ & _ & ok & ->)]; [split_and!; [apply grows_refl|done|done]|].
      split_and!; [by apply capture_grows|done|done]. }
    apply (written_op_stay w _ id op op' H); try done; [apply (q_active _ _ Q)|apply (q_pending _ _ Q)].
  - intros [= <-]. destruct (schedule_calm id (rec w)) as [[Ep Ea _] Eow].
    apply (written_stay w _ H); try done. cbn. by rewrite Eow.
  - destruct (ops w !! id) as [op|] eqn:Eo; [|done]. cbn [mbind option_bind]. destruct (begin_claim op) as [[b|] op'] eqn:E.
    + by intros [= <-].
    + destruct (fresh t w) eqn:Hfr; [|done]. intros [= <-]. destruct (begin_claim_spec _ _ E) as (_ & _ & ->). by apply written_begin.
  - destruct (tasks w !! t) as [[id| | | | | | |]|] eqn:Et; try done.
    destruct (ops w !! id) as [op|] eqn:Eo; [|done]. cbn [mbind option_bind].
    destruct (begin_admit now op (rec w)) as [[o op'] r'] eqn:E. intros [= <-]. by eapply written_begin_admit.
  - destruct (ops w !! id) as [op|] eqn:Eo; [|done]. cbn [mbind option_bind].
    destruct (finish_op status now op) as [[v|] op'] eqn:E; [|by intros [= <-]].
    destruct (fresh t w) eqn:Hfr; [|done]. intros [= <-]. by eapply written_finish.
  - destruct (tasks w !! t) as [[|v| | | | | |]|] eqn:Et; try done.
    destruct (ops w !! OperationID v) as [op|] eqn:Eo; [|done]. cbn [mbind option_bind].
    destruct (finish_decide v now op (rec w)) as [[o op'] r'] eqn:E.
    pose proof (written_decide _ _ _ _ _ _ _ _ H Et Eo E) as Hd. by destruct o; intros [= <-].
  - unfold phase_receive. destruct (phases (rec w)) as [|id l]; [done|]. cbn [mbind option_bind].
    destruct (fresh t w); [|done]. intros [= <-]. apply Hgo; try done. by intros k [= <-].
  - destruct (tasks w !! t) as [[| |id| | | | |]|] eqn:Et; try done. unfold persistPhase_lookup. intros [= <-].
    case_bool_decide as Hin; (apply Hgo; try done). intros k [= <-]. cbn. by apply (wr_active w H).
  - destruct (tasks w !! t) as [[| | |id| | | |]|] eqn:Et; try done.
    destruct (ops w !! id) as [op|] eqn:Eo; [|done]. cbn [mbind option_bind]. intros [= <-].
    destruct (wr_task w H t _ Et) as (op0 & E0 & Hw). assert (op0 = op) as -> by congruence.
    destruct (finished op) eqn:Ef; [by apply Hgo'|]. apply Hgo'; [|done]. intros k [= <-].
    destruct (snapshot_identity op) as (Ei & Ewn & Er & Eout).
    apply (task_ok_start w (snapshotLocked op) []). exists op. rewrite Ei, Ewn, Er, (ac_id w Ha id op Eo).
    split_and!; try done; first [by apply (wr_reason w H id op)|unfold is_running; by rewrite (Eout Ef)].
  - destruct (fresh t w && _) eqn:E; [|done]. apply andb_true_iff in E as [Hfr _].
    destruct (retry_scan order now [] (rec w)) as [[dr o] r'] eqn:Es. intros [= <-].
    destruct (retry_scan_drops (rec w) order now [] dr o (rec w) r' (drops_nil _) Es) as (r1 & Hd & Htk).
    assert (but_pending (rec w) r') as F by (etrans; [by eapply drops_frame|by eapply taken_frame]).
    eapply (written_go w _ t _ H); try done; cbn [used_owners owner rec active pending tasks note_lost go with_rec with_task]; try done.
    + by rewrite (taken_owner _ _ _ Htk), (drops_owner _ _ _ Hd).
    + apply (bp_active _ _ F).
    + intros i p. by apply (scan_rows _ _ _ _ _ i p Hd Htk).
    + intros k Hk. destruct Htk as [[-> _]|(key & item & -> & Hkey & _ & ->)]; [done|]. injection Hk as <-.
      rewrite (drops_lookup _ _ _ key Hd) in Hkey. case_bool_decide; [done|].
      destruct (wr_pending w H key item Hkey) as (op & Eo & Hf & Er). cbn. exists op.
      rewrite Er. destruct (snapshot_identity op) as (-> & _). rewrite (ac_id w Ha key op Eo). by split_and!.
    + by destruct o.
  - destruct (tasks w !! t) as [[| | | |[|id rest]| | |]|] eqn:Et; try done; intros [= <-]; [by apply Hgo'|].
    case_bool_decide as Hin; apply Hgo'; try done; [|by intros k [= <-]]. intros k [= <-]. cbn. by apply (wr_active w H).
  - destruct (tasks w !! t) as [[| | | | |id rest| |]|] eqn:Et; try done.
    destruct (ops w !! id) as [op|] eqn:Eo; [|done]. cbn [mbind option_bind].
    destruct (refreshRunning op) as [[v|] op'] eqn:E; intros [= <-]; [|apply Hgo'; [by intros k [= <-]|done]].
    destruct (refresh_spec _ _ _ E) as (Hf & -> & S). destruct (wr_task w H t _ Et) as (op0 & E0 & Hw).
    assert (op0 = op) as -> by congruence.
    assert (grows op op') as G.
    { split; [apply (os_reason _ _ S)|intros _; apply (os_owner _ _ S)|congruence|by rewrite (os_begun _ _ S)]. }
    apply (written_op w _ t (Some (start (JWrite (KRestore rest) (snapshotLocked op')))) id op op' H); try done;
      [apply (os_owner _ _ S)|apply (os_finished _ _ S)|].
    intros k [= <-]. cbn [task_ok start ops with_op with_task]. exists op'. destruct (snapshot_identity op') as (Ei & Ewn & Er & Eout).
    rewrite Ei, Ewn, Er, (os_id _ _ S), (os_reason _ _ S), (ac_id w Ha id op Eo), lookup_insert_eq, (os_owner _ _ S).
    split_and!; try done; first [by apply (wr_reason w H id op)|unfold is_running; rewrite Eout; [done|by rewrite (os_finished _ _ S)]].
  - destruct (has_audit (rec w)).
    + destruct (fresh t w); [|done]. intros [= <-]. apply Hgo'; [by intros k [= <-]|done].
    + intros [= <-]. pose proof (quiet_unavailable now (rec w)) as Q.
      apply (written_stay w _ H); try done; cbn; [unfold audit_unavailable; by rewrite warn_owner|apply (q_active _ _ Q)|apply (q_pending _ _ Q)].
  - destruct (fresh t w && _); [|done]. destruct (audit_scan order now (rec w)) as [o r'] eqn:Es. intros [= <-].
    apply Hgo; [by eapply audit_scan_owner|by eapply audit_scan_calm|by destruct o; intros k [= <-]|by destruct o].
  - destruct (has_store (rec w) && _); [|done]. intros [= <-]. apply Hgo'; [by intros k [= <-]|done].
  - destruct (has_store (rec w) && _); [|done]. intros [= <-]. apply Hgo'; [by intros k [= <-]|done].
  - destruct (has_store (rec w) && _); [|done]. intros [= <-].
    apply Hgo; [done|apply quiet_calm, quiet_prune|by intros k [= <-]|done].
  - destruct (has_store (rec w) && _); [|done]. intros [= <-]. apply Hgo'; [by intros k [= <-]|done].
  - intros [= <-]. by apply (written_stay w _ H).
Qed.

Lemma audit_failed_owner e now rnd r : owner (audit_failed e now rnd r) = owner r.
Proof.
  unfold audit_failed. set (r1 := warnLocked _ _ _). assert (owner r1 = owner r) as E by (unfold r1; by rewrite warn_owner).
  by repeat match goal with |- context [if ?b then _ else _] => destruct b end.
Qed.
Lemma audit_settle_owner id p failed now rnd r : owner (audit_settle id p failed now rnd r) = owner r.
Proof. unfold audit_settle. destruct (negb failed); [done|]. cbn. by rewrite warn_owner. Qed.
Lemma register_owner id e now r : owner (register_settle id e now r) = owner r.
Proof. unfold register_settle. destruct (_ && _); [done|apply warn_owner]. Qed.
Lemma reconcile_owner_same failed n now r : owner (reconcile_settle failed n now r) = owner r.
Proof. unfold reconcile_settle. cbn. destruct failed; [apply warn_owner|done]. Qed.

Lemma written_settle w t j a uuid now rnd n :
  bounded w -> accounted w -> written w -> tasks w !! t = Some (TJob j [] (SSettle a)) ->
  written (settle t j a uuid now rnd n w).
Proof.
  intros Hb Ha H Et. pose proof (wr_owner w H) as Hown.
  pose proof (accounted_settle w t j a uuid now rnd n Hb Ha Et) as Ha'.
  assert (forall r' o, owner r' = owner (rec w) -> calm (rec w) r' ->
    match o with None | Some (TRestore _) => True | _ => False end -> written (go t o r' w)) as Hgo.
  { intros r' o Eow [Ep Ea _] Ho. apply (written_go w _ t o H); try done; cbn; [by rewrite Eow| | |].
    - rewrite Ep. intros i p E. by exists p.
    - by destruct o as [[]|]; intros k [= <-].
    - by destruct o as [[]|]. }
  destruct j as [k v|e|id p|id|id|id|id|]; cbn [settle] in *.
  - destruct k as [|c| |id p|rest]; [by apply (Hgo (rec w) None)| |by apply (Hgo (rec w) None)| |by apply (Hgo (rec w) (Some (TRestore rest)))].
    + destruct (finish_settle v c (answer_error a) now rnd (rec w)) as [f r'] eqn:E.
      destruct (finish_settle_fate _ _ _ _ _ _ _ _ E (accounted_unqueued w Ha _ _ _ _ _ Et)) as (Hd & Ea & Eow & Hp).
      eapply (written_final w _ t v c _ f H Ha' Et); try done.
      destruct (finishing_alone w t _ (OperationID v) Ha Et) as (_ & Hz & _); [apply String.eqb_refl|].
      destruct (settled_zero w _ Hz) as (_ & Nsv & Np & Nl).
      rewrite (disposed_sum (OperationID v) f w (note_fate f (OperationID v) (go t None r' w)) (OperationID v) Hd eq_refl eq_refl eq_refl Nsv Nl), Hz.
      destruct (decide _); [|done]. rewrite one_false; [done|]. rewrite Np. by intros [].
    + destruct (retry_settle id p (answer_error a) now rnd (rec w)) as [f r'] eqn:E.
      destruct (ow_item _ _ _ _ (tk_retry _ _ (proj2 Hb)) t _ id p Et eq_refl) as [Hk _].
      destruct (retry_settle_fate _ _ _ _ _ _ _ _ E Hk) as (_ & Ea & Eow & Hrow).
      apply (written_go w _ t None H); try done; cbn. by rewrite Eow.
  - apply Hgo; [|destruct (bool_decide _); [done|apply audit_failed_calm]|done].
    destruct (bool_decide _); [done|apply audit_failed_owner].
  - apply Hgo; [apply audit_settle_owner|apply audit_settle_calm|done].
  - apply Hgo; [apply register_owner|apply quiet_calm, quiet_register|done].
  - pose proof (quiet_heartbeat id (answer_error a) uuid now (rec w)) as Q.
    destruct (heartbeat_settle id (answer_error a) uuid now (rec w)) as [nx r']. cbn [snd] in Q.
    eapply (written_go w _ t _ H); try done; cbn; [set_solver|set_solver|apply (q_active _ _ Q)| | |by destruct nx].
    + rewrite (q_pending _ _ Q). intros i p E. by exists p.
    + by destruct nx; intros k [= <-].
  - destruct a as [ids|e]; [by apply (Hgo (rec w) (Some (TRestore ids)))|by apply (Hgo (rec w) None)].
  - apply Hgo; [apply reconcile_owner_same|apply quiet_calm, quiet_reconcile|done].
  - apply Hgo; [|destruct (bool_decide _); [done|apply quiet_calm, quiet_warn]|done].
    destruct (bool_decide _); [done|apply warn_owner].
Qed.

(** The answer of the store never changes what a goroutine carries. *)
Lemma task_ok_stage os act j h st h' st' : task_ok os act (TJob j h st) -> task_ok os act (TJob j h' st').
Proof. done. Qed.

Lemma written_job e w w' : bounded w -> accounted w -> written w -> step_job cfg e w = Some w' -> written w'.
Proof.
  intros Hb Ha H. pose proof (wr_owner w H) as Hown.
  assert (forall w1 t j h st h' st', tasks w !! t = Some (TJob j h st) -> ops w1 = ops w -> used_owners w1 = used_owners w ->
    owner (rec w1) = owner (rec w) -> active (rec w1) = active (rec w) -> pending (rec w1) = pending (rec w) ->
    tasks w1 = partial_alter (fun _ => Some (TJob j h' st')) t (tasks w) -> written w1) as Hstage.
  { intros w1 t j h st h' st' Et Eo Eu Eow Ea Ep Et'. apply (written_go w w1 t (Some (TJob j h' st')) H); try done.
    - by rewrite Eu.
    - by rewrite Eu, Eow.
    - rewrite Ep. intros i p E. by exists p.
    - intros k [= <-]. apply (wr_task w H t _ Et). }
  assert (forall w1, ops w1 = ops w -> used_owners w1 = used_owners w -> rec w1 = rec w -> tasks w1 = tasks w -> written w1) as Hstay.
  { intros w1 Eo Eu Er Et. apply (written_stay w w1 H); try done; by rewrite ?Eu, ?Er. }
  destruct e; cbn [step_job].
  - destruct (tasks w !! t) as [[| | | | | | |j held [[|s todo]| | | |]]|] eqn:Et; try done.
    + intros [= <-]. by eapply Hstage.
    + unfold slot_take. destruct (_ <? _); intros [= <-]; by eapply Hstage.
  - destruct (tasks w !! t) as [[| | | | | | |j held [| | | |]]|] eqn:Et; try done. destruct z as [|e|e].
    + destruct (store_call cfg t j p now w) as [[[d ids]|e]|]; [| |done]; intros [= <-]; by eapply Hstage.
    + destruct (reconciles t w); [done|]. intros [= <-]. by eapply Hstage.
    + destruct (store_call cfg t j p now w) as [[[d ids]|e']|]; [| |done]; intros [= <-]; by eapply Hstage.
  - destruct (tasks w !! t) as [[| | | | | | |[] held []]|] eqn:Et; try done. destruct (lock w); [done|].
    destruct (reconcile_owner _ _ _ _); [|done]. intros [= <-]. by apply Hstay.
  - destruct (lock w) as [l|]; [|done]. cbn [mbind option_bind]. destruct (_ && _); [|done]. intros [= <-]. by apply Hstay.
  - destruct (lock w) as [l|]; [|done]. cbn [mbind option_bind]. destruct (_ && _); [|done]. intros [= <-]. by apply Hstay.
  - destruct (tasks w !! t) as [[| | | | | | |j [|s held] [| |a| |]]|] eqn:Et; try done; intros [= <-]; by eapply Hstage.
  - destruct (tasks w !! t) as [[| | | | | | |[k v| | | | | | |] [|] [| | |e|]]|] eqn:Et; try done. intros [= <-].
    pose proof (quiet_failure (failure_reason k) now (rec w)) as Q.
    eapply Hstage; try done; cbn; [unfold writeFailure; by rewrite warn_owner|apply (q_active _ _ Q)|apply (q_pending _ _ Q)].
  - destruct (tasks w !! t) as [[| | | | | | |j [|] [| | | |a]]|] eqn:Et; try done. intros [= <-]. by apply written_settle.
  - intros E. destruct (env_step_db _ _ _ _ _ _ E) as [d ->]. by apply Hstay.
Qed.

Lemma written_init store audit uuid o d : written (init store audit uuid o d).
Proof. split; try done. cbn. set_solver. Qed.

(** ** What the database says *)

Definition tracked (w : world) (id : string) : Prop := id ∈ active (rec w) \/ is_Some (pending (rec w) !! id).

(** The row carries the result [v] reports. *)
Record same_result (r v : UsageLog) : Prop := {
  sr_outcome : Outcome r = Outcome v; sr_phase : Phase r = Phase v; sr_seq : StateSeq r = StateSeq v;
  sr_finished : FinishedAt r = FinishedAt v; sr_duration : DurationMS r = DurationMS v; sr_facts : facts r = facts v }.

Record row_ok (w : world) (id : string) (op : Operation) (r : UsageLog) : Prop := {
  ro_owner : OwnerInstanceID r = op_owner op;
  ro_short : OwnerInstanceID r = None -> finished op = true /\ RecoveryReason r = "";
  ro_tracked : tracked w id -> RecoveryReason r <> "finalization_unavailable";
  ro_result : is_running r = false -> RecoveryReason r = "" -> finished op = true /\ same_result r (snapshotLocked op) }.

Record truthful (w : world) : Prop := {
  tr_keyed : keyed (wdb w);
  tr_row id op r : ops w !! id = Some op -> logs (wdb w) !! id = Some r -> row_ok w id op r;
  tr_lock l tr id op : lock w = Some l -> rt_tracked l = Some tr -> rt_state l = OwnerHealthy /\
    (tracked w id -> ops w !! id = Some op -> op_owner op = Some (rt_owner l) -> id ∈ tr \/ logs (wdb w) !! id = None) }.

Lemma row_owner_kept w id op op' r :
  row_ok w id op r -> grows op op' -> op_owner op' = op_owner op.
Proof.
  intros R G. destruct (op_owner op) as [x|] eqn:E.
  - rewrite (gr_owner _ _ G); [done|]. by rewrite E.
  - destruct (ro_short _ _ _ _ R) as [Hf _]; [by rewrite (ro_owner _ _ _ _ R)|].
    destruct (gr_finished _ _ G Hf) as (_ & _ & ->). done.
Qed.

(** Steps that leave the database alone. *)
Lemma truthful_step w w' :
  truthful w -> ops_grow w w' -> wdb w' = wdb w -> lock w' = lock w ->
  (forall id op', ops w' !! id = Some op' -> ops w !! id = None -> logs (wdb w) !! id = None) ->
  (forall id op', ops w' !! id = Some op' -> tracked w' id ->
     tracked w id \/ logs (wdb w) !! id = None \/ op_owner op' = None) ->
  truthful w'.
Proof.
  intros H [Hg _] Ed El Hnew Htr. split; rewrite ?Ed, ?El.
  - apply (tr_keyed w H).
  - intros id op' r Eo Er. destruct (ops w !! id) as [op|] eqn:E; [|by rewrite (Hnew id op' Eo E) in Er].
    destruct (Hg id op E) as (op2 & E2 & G). assert (op2 = op') as -> by congruence.
    pose proof (tr_row w H id op r E Er) as R. pose proof (row_owner_kept _ _ _ _ _ R G) as Ew. split.
    + rewrite Ew. apply (ro_owner _ _ _ _ R).
    + intros Hn. destruct (ro_short _ _ _ _ R Hn) as [Hf ?]. split; [|done]. by apply (gr_finished _ _ G).
    + intros Ht. destruct (Htr id op' Eo Ht) as [Ht'|[Hn|Hn]].
      * by apply (ro_tracked _ _ _ _ R).
      * congruence.
      * destruct (ro_short _ _ _ _ R) as [_ ->]; [|done]. rewrite (ro_owner _ _ _ _ R). congruence.
    + intros H1 H2. destruct (ro_result _ _ _ _ R H1 H2) as [Hf Hs]. destruct (gr_finished _ _ G Hf) as (Hf' & -> & _). by split.
  - intros l tr id op' E1 E2.
    split; [exact (proj1 (tr_lock w H l tr id op' E1 E2))|].
    intros Ht Eo Ew. destruct (Htr id op' Eo Ht) as [Ht'|[?|?]]; [|by right|congruence].
    destruct (logs (wdb w) !! id) as [r|] eqn:Er; [|by right].
    destruct (ops w !! id) as [op|] eqn:E; [|by rewrite (Hnew id op' Eo E) in Er].
    destruct (Hg id op E) as (op2 & E3 & G). assert (op2 = op') as -> by congruence.
    pose proof (tr_row w H id op r E Er) as R. pose proof (row_owner_kept _ _ _ _ _ R G) as Ew'.
    destruct (tr_lock w H l tr id op E1 E2) as [_ Hl]. rewrite <- Er. apply Hl; congruence.
Qed.

Lemma truthful_same w w' :
  truthful w -> ops w' = ops w -> wdb w' = wdb w -> lock w' = lock w ->
  (forall id, tracked w' id -> tracked w id) -> truthful w'.
Proof.
  intros H Eo Ed El Ht. apply (truthful_step w w' H); try done; [by apply ops_grow_refl| |].
  - intros id op'. rewrite Eo. congruence.
  - intros id op' _ Hid. left. by apply Ht.
Qed.

(** Transactions: every row of an operation is old or right. *)
Lemma truthful_db w w' :
  truthful w -> ops w' = ops w -> rec w' = rec w -> keyed (wdb w') -> (lock w' = lock w \/ lock w' = None) ->
  (forall id op r, ops w !! id = Some op -> logs (wdb w') !! id = Some r ->
     logs (wdb w) !! id = Some r \/ row_ok w id op r) ->
  (forall id op l r, ops w !! id = Some op -> lock w' = Some l -> rt_state l = OwnerHealthy ->
     op_owner op = Some (rt_owner l) -> logs (wdb w') !! id = Some r -> is_Some (logs (wdb w) !! id)) ->
  truthful w'.
Proof.
  intros H Eo Er Hk El Hrow Hlock.
  assert (forall id, tracked w' id <-> tracked w id) as Ht by (intros id; unfold tracked; by rewrite Er).
  split; [done| |].
  - rewrite Eo. intros id op r E1 E2. assert (row_ok w id op r) as R.
    { destruct (Hrow id op r E1 E2) as [E|?]; [|done]. by apply (tr_row w H). }
    split; [apply (ro_owner _ _ _ _ R)|apply (ro_short _ _ _ _ R)| |apply (ro_result _ _ _ _ R)].
    rewrite Ht. apply (ro_tracked _ _ _ _ R).
  - rewrite Eo. intros l tr id op E1 E2. destruct El as [El|El]; [|congruence]. pose proof E1 as E1'. rewrite El in E1.
    destruct (tr_lock w H l tr id op E1 E2) as [Hs Hl]. split; [done|]. intros Hid Eop Ew.
    destruct (logs (wdb w') !! id) as [r|] eqn:E; [|by right]. left. apply Ht in Hid.
    destruct (Hl Hid Eop Ew) as [?|Hn]; [done|]. destruct (Hlock id op l r Eop E1' Hs Ew E) as [? Hr]. congruence.
Qed.

(** The row a write carries. *)
Lemma carried w t k v h st :
  accounted w -> written w -> tasks w !! t = Some (TJob (JWrite k v) h st) ->
  exists op, ops w !! OperationID v = Some op /\ OwnerInstanceID v = op_owner op /\ RecoveryReason v = "" /\
    ((is_running v = true /\ op_owner op <> None) \/ (finished op = true /\ v = snapshotLocked op)).
Proof.
  intros Ha H Et. pose proof (wr_task w H t _ Et) as Hk.
  assert (forall op, ops w !! OperationID v = Some op -> finished op = true -> v = snapshotLocked op ->
    exists op, ops w !! OperationID v = Some op /\ OwnerInstanceID v = op_owner op /\ RecoveryReason v = "" /\
    ((is_running v = true /\ op_owner op <> None) \/ (finished op = true /\ v = snapshotLocked op))) as Hend.
  { intros op Eo Hf Ev. exists op. destruct (snapshot_identity op) as (Ei & Ew & Er & _).
    split_and!; [done|congruence| |by right]. rewrite Ev, Er. by apply (wr_reason w H _ op Eo). }
  destruct k as [|c| |id p|rest]; cbn [task_ok] in Hk.
  - destruct Hk as (op & Eo & Ew & Hw & Hr & Hrr). exists op. split_and!; try done. by left.
  - destruct Hk as (op & Eo & Hf & Ev & _). by apply (Hend op).
  - destruct Hk as (op & Eo & Ew & Hw & Hr & Hrr). exists op. split_and!; try done. by left.
  - destruct Hk as (op & Eo & Ei & Hf & Ev). rewrite <- Ei in Eo. by apply (Hend op).
  - destruct Hk as (op & Eo & Ew & Hw & Hr & Hrr). exists op. split_and!; try done. by left.
Qed.

Lemma upsert_row w op v v' r :
  OwnerInstanceID v = op_owner op -> RecoveryReason v = "" ->
  (is_running v = true /\ op_owner op <> None) \/ (finished op = true /\ v = snapshotLocked op) ->
  upsert_prepare v = Ok v' ->
  OwnerInstanceID r = OwnerInstanceID v' -> RecoveryReason r = RecoveryReason v' -> Outcome r = Outcome v' ->
  Phase r = Phase v' -> StateSeq r = StateSeq v' -> FinishedAt r = FinishedAt v' -> DurationMS r = DurationMS v' ->
  facts r = facts v' -> row_ok w (OperationID v) op r.
Proof.
  intros Ew Er Hv Hp E1 E2 E3 E4 E5 E6 E7 E8.
  destruct (upsert_prepare_spec v v' Hp) as (_ & P1 & P2 & P3 & P4 & P5 & P6 & P7).
  assert (RecoveryReason r = "") as Err by (rewrite E2; by apply P6).
  assert (is_running r = is_running v) as Eir by (unfold is_running; congruence). split.
  - congruence.
  - intros Hn. split; [|done]. destruct Hv as [[_ Hv]|[Hv _]]; [|done]. congruence.
  - intros _. by rewrite Err.
  - intros Hr _. destruct Hv as [[Hv _]|[Hf Ev]]; [congruence|]. split; [done|]. rewrite <- Ev.
    destruct P7 as [P7 P8]; [congruence|]. split; congruence.
Qed.

Lemma truthful_upsert w w' p v now d' op :
  truthful w -> ops w !! OperationID v = Some op -> OwnerInstanceID v = op_owner op -> RecoveryReason v = "" ->
  (is_running v = true /\ op_owner op <> None) \/ (finished op = true /\ v = snapshotLocked op) ->
  match OwnerInstanceID v with Some id => owner_locked id w | None => false end = false ->
  Upsert p v now (wdb w) = Ok d' ->
  ops w' = ops w -> rec w' = rec w -> lock w' = lock w -> wdb w' = d' -> truthful w'.
Proof.
  intros H Eo Ew Er Hv Hlock E Eo' Er' El Ed. unfold Upsert in E. destruct (upsert_prepare v) as [v'|] eqn:Ep; [|done].
  destruct (upsert_prepare_spec v v' Ep) as (Eid & _).
  assert (forall id, _) as Hspec by exact (fun id => upsert_tx_spec p v' now (wdb w) d' id (tr_keyed w H) E).
  apply (truthful_db w w' H); rewrite ?Ed; try done.
  - apply (Hspec "").
  - by left.
  - intros id op2 r E2 E3. destruct (Hspec id) as (_ & _ & _ & [Hsame|[(-> & _ & Hc)|(old & -> & Hold & Hu & E4 & _)]]).
    + left. congruence.
    + right. rewrite Eid in *. assert (op2 = op) as -> by congruence. rewrite Hc in E3. injection E3 as <-.
      by apply (upsert_row w op v v').
    + right. rewrite Eid in *. assert (op2 = op) as -> by congruence. rewrite Hu in E3. injection E3 as <-.
      by apply (upsert_row w op v v').
  - intros id op2 l r E2 E3 Hs E4 E5. destruct (Hspec id) as (_ & _ & _ & [Hsame|[(-> & _ & Hc)|(old & -> & Hold & _)]]).
    + rewrite <- Hsame, E5. by eexists.
    + rewrite Eid in *. assert (op2 = op) as -> by congruence. rewrite El in E3. exfalso. rewrite Ew, E4 in Hlock.
      unfold owner_locked in Hlock. rewrite E3, String.eqb_refl, Hs in Hlock. by rewrite bool_decide_eq_false_2 in Hlock.
    + by eexists.
Qed.

Lemma truthful_env_upsert w w' p v now d' :
  truthful w -> ops w !! OperationID v = None -> Upsert p v now (wdb w) = Ok d' ->
  ops w' = ops w -> rec w' = rec w -> lock w' = lock w -> wdb w' = d' -> truthful w'.
Proof.
  intros H Eo E Eo' Er' El Ed. unfold Upsert in E. destruct (upsert_prepare v) as [v'|] eqn:Ep; [|done].
  destruct (upsert_prepare_spec v v' Ep) as (Eid & _).
  assert (forall id, _) as Hspec by exact (fun id => upsert_tx_spec p v' now (wdb w) d' id (tr_keyed w H) E).
  assert (forall id op, ops w !! id = Some op -> logs d' !! id = logs (wdb w) !! id) as Hsame.
  { intros id op E2. destruct (Hspec id) as (_ & _ & _ & [?|[(-> & _)|(old & -> & _)]]); congruence. }
  apply (truthful_db w w' H); rewrite ?Ed; try done.
  - apply (Hspec "").
  - by left.
  - intros id op r E2 E3. left. by rewrite <- (Hsame id op).
  - intros id op l r E2 _ _ _ E5. rewrite <- (Hsame id op), E5 by done. by eexists.
Qed.

Lemma truthful_logs w w' :
  truthful w -> logs (wdb w') = logs (wdb w) -> ops w' = ops w -> rec w' = rec w -> (lock w' = lock w \/ lock w' = None) ->
  truthful w'.
Proof.
  intros H E Eo Er El. apply (truthful_db w w' H); try done; unfold keyed; rewrite E.
  - apply (tr_keyed w H).
  - intros id op r _ ?. by left.
  - intros id op l r _ _ _ _ ?. by eexists.
Qed.

(** A row that is marked: when this process still tracks the operation, only for a
    lapsed or missing owner. *)
Lemma truthful_reconcile w w' c id s tr skip lim now :
  truthful w -> written w ->
  (s = OwnerHealthy -> forall i op, tracked w i -> ops w !! i = Some op -> op_owner op = Some id ->
     i ∈ tr \/ logs (wdb w) !! i = None) ->
  ops w' = ops w -> rec w' = rec w -> (lock w' = lock w \/ lock w' = None) ->
  wdb w' = (reconcile_apply c id s tr skip lim now (wdb w)).2 -> truthful w'.
Proof.
  intros H Hw Hs Eo Er El Ed.
  assert (forall i, _) as Hspec by exact (fun i => reconcile_apply_lookup c id s tr skip lim now (wdb w) i (tr_keyed w H)).
  apply (truthful_db w w' H); rewrite ?Ed; try done.
  - intros i r Hr. destruct (Hspec i) as [E|(r0 & E0 & _ & E)]; rewrite E in Hr; [by apply (tr_keyed w H)|].
    injection Hr as <-. cbn. by apply (tr_keyed w H).
  - intros i op r E1 E2. destruct (Hspec i) as [E|(r0 & E0 & Hsel & E)]; rewrite E in E2; [by left|right].
    injection E2 as <-. pose proof (tr_row w H i op r0 E1 E0) as R.
    assert (OwnerInstanceID r0 = Some id) as Eown.
    { unfold reconcile_selects in Hsel. apply andb_true_iff in Hsel as [Hsel _]. unfold has_owner in Hsel. by bools. }
    split.
    + apply (ro_owner _ _ _ _ R).
    + cbn. congruence.
    + intros Ht. cbn. destruct s; [done..|]. exfalso.
      destruct (Hs eq_refl i op Ht E1) as [Hin|Hn]; [rewrite <- (ro_owner _ _ _ _ R); done| |congruence].
      unfold reconcile_selects in Hsel. bools. rewrite (tr_keyed w H i r0 E0) in *. done.
    + cbn. by destruct s.
  - intros i op l r E1 _ _ _ E5. destruct (Hspec i) as [E|(r0 & E0 & _ & _)]; [rewrite <- E, E5|rewrite E0]; by eexists.
Qed.

Lemma truthful_cleanup w w' p op ol rl now :
  truthful w -> ops w' = ops w -> rec w' = rec w -> lock w' = lock w -> wdb w' = cleanup_tx p op ol rl now (wdb w) ->
  truthful w'.
Proof.
  intros H Eo Er El Ed. destruct (cleanup_tx_spec p op ol rl now (wdb w) (tr_keyed w H)) as (Hk & _ & Hc).
  assert (forall i r, logs (cleanup_tx p op ol rl now (wdb w)) !! i = Some r -> logs (wdb w) !! i = Some r) as Hsub.
  { intros i r. destruct Hc as [->|(r0 & _ & -> & _)]; [done|]. by intros [_ ?]%lookup_delete_Some. }
  apply (truthful_db w w' H); rewrite ?Ed; try done.
  - by left.
  - intros i o r _ E. left. by apply Hsub.
  - intros i o l r _ _ _ _ E. exists r. by apply Hsub.
Qed.

(** ** Preservation of [truthful] *)

Lemma calm_tracked w w' id : calm (rec w) (rec w') -> tracked w' id -> tracked w id.
Proof. intros [Ep Ea _]. unfold tracked. by rewrite Ep, Ea. Qed.

Lemma truthful_op w w' id op op' :
  truthful w -> ops w !! id = Some op -> ops w' = <[id := op']> (ops w) -> grows op op' -> wdb w' = wdb w ->
  lock w' = lock w -> calm (rec w) (rec w') -> truthful w'.
Proof.
  intros H E0 Eo G Ed El C. apply (truthful_step w w' H); try done.
  - by apply (ops_grow_set w w' id op op').
  - rewrite Eo. intros i o2. destruct (decide (id = i)) as [<-|Hne]; [congruence|]. rewrite lookup_insert_ne by done. congruence.
  - intros i o2 _ Ht. left. by eapply calm_tracked.
Qed.

Lemma truthful_begin_admit w t id op now o op' r' :
  accounted w -> written w -> truthful w -> tasks w !! t = Some (TBegin id) -> ops w !! id = Some op ->
  begin_admit now op (rec w) = (o, op', r') ->
  truthful (go t (option_map (fun v => start (JWrite KBegin v)) o) r' (with_op id op' w)).
Proof.
  intros Ha Hw H Et Eo E. pose proof (ac_id w Ha id op Eo) as Eid. destruct (begin_admit_calm _ _ _ _ _ _ E) as [_ Ep].
  destruct (wr_task w Hw t _ Et) as (op0 & E0 & _ & Ew). assert (op0 = op) as -> by congruence.
  destruct (begin_admit_spec _ _ _ _ _ _ E) as [(-> & -> & Eact & Eow)|(r1 & Hn & _ & _ & -> & _ & Eact & _)].
  - apply (truthful_same w _ H); try done; cbn; [by rewrite insert_id|]. intros i. unfold tracked. cbn. by rewrite Eact, Ep.
  - set (op' := with_row _ _) in *. assert (grows op op') as G by (split; [done|congruence|congruence|done]).
    apply (truthful_step w _ H); try done; [by apply (ops_grow_set w _ id op op')| |].
    + cbn. intros i o2. destruct (decide (id = i)) as [<-|Hne]; [congruence|]. rewrite lookup_insert_ne by done. congruence.
    + intros i o2 _. unfold tracked. cbn. rewrite Eact, Ep, Eid. intros [[->%elem_of_singleton|Hin]%elem_of_union|Hin];
        [right; left|left; by left|left; by right].
      destruct (logs (wdb w) !! id) as [r|] eqn:Er; [|done]. exfalso. pose proof (tr_row w H id op r Eo Er) as R.
      destruct (ro_short _ _ _ _ R) as [Hf _]; [by rewrite (ro_owner _ _ _ _ R)|congruence].
Qed.

Lemma truthful_work e w w' :
  accounted w -> written w -> truthful w -> step_work e w = Some w' -> truthful w'.
Proof.
  intros Ha Hw H.
  assert (forall w1, ops w1 = ops w -> wdb w1 = wdb w -> lock w1 = lock w -> calm (rec w) (rec w1) -> truthful w1) as Hcalm.
  { intros w1 Eo Ed El C. apply (truthful_same w w1 H Eo Ed El). intros i. by apply calm_tracked. }
  destruct e; cbn [step_work].
  - destruct (bool_decide _) eqn:E; [|done]. apply bool_decide_eq_true in E as (_ & En & Eln). intros [= <-].
    apply (truthful_step w _ H); try done.
    + split; cbn [ops with_op].
      * intros i op Eo. exists op. rewrite lookup_insert_ne by congruence. split; [done|apply grows_refl].
      * intros i op. destruct (decide (uuid = i)) as [<-|Hne].
        -- rewrite lookup_insert_eq. intros [= <-]. by right.
        -- rewrite lookup_insert_ne by done. intros Eo. left. by eexists.
    + cbn. intros i op. destruct (decide (uuid = i)) as [<-|Hne]; [done|]. rewrite lookup_insert_ne by done. congruence.
    + by left.
  - destruct (ops w !! id) as [op|] eqn:Eo; [|done]. intros [= <-].
    apply (truthful_op w _ id op (apply_call c op) H); try done. apply call_grows.
  - destruct (ops w !! id) as [op|] eqn:Eo; [|done]. cbn [mbind option_bind].
    pose proof (quiet_admit_short now op (rec w)) as Q. destruct (AdmitShort now op (rec w)) as [op' r'] eqn:E. intros [= <-].
    apply (truthful_op w _ id op op' H); try done; [|by apply quiet_calm].
    destruct (admit_short_spec _ _ _ _ _ E) as [->|(_ & _ & _ & ok & ->)]; [apply grows_refl|by apply capture_grows].
  - intros [= <-]. apply Hcalm; try done. apply schedule_calm.
  - destruct (ops w !! id) as [op|] eqn:Eo; [|done]. cbn [mbind option_bind]. destruct (begin_claim op) as [[b|] op'] eqn:E.
    + by intros [= <-].
    + destruct (fresh t w); [|done]. intros [= <-]. destruct (begin_claim_spec _ _ E) as (_ & _ & ->).
      by eapply (truthful_op w _ id op _ H).
  - destruct (tasks w !! t) as [[id| | | | | | |]|] eqn:Et; try done.
    destruct (ops w !! id) as [op|] eqn:Eo; [|done]. cbn [mbind option_bind].
    destruct (begin_admit now op (rec w)) as [[o op'] r'] eqn:E. intros [= <-]. by eapply truthful_begin_admit.
  - destruct (ops w !! id) as [op|] eqn:Eo; [|done]. cbn [mbind option_bind].
    destruct (finish_op status now op) as [[v|] op'] eqn:E; [|by intros [= <-]].
    destruct (fresh t w); [|done]. intros [= <-]. destruct (finish_op_spec _ _ _ _ _ E) as (Hn & Hf & _ & _ & Ew & Er & Eb & _).
    apply (truthful_op w _ id op op' H); try done. split; [done|done|congruence|by rewrite Eb].
  - destruct (tasks w !! t) as [[|v| | | | | |]|] eqn:Et; try done.
    destruct (ops w !! OperationID v) as [op|] eqn:Eo; [|done]. cbn [mbind option_bind].
    destruct (finish_decide v now op (rec w)) as [[o op'] r'] eqn:E. pose proof (finish_decide_ok _ _ _ _ _ _ _ E) as Q.
    assert (grows op op') as G.
    { destruct (finish_decide_spec _ _ _ _ _ _ _ E) as [(_ & -> & _)|[(c & _ & _ & _ & -> & _)|(_ & _ & _ & ->)]];
        [apply grows_refl|apply grows_refl|by apply capture_grows]. }
    destruct o as [c|]; intros [= <-]; apply (truthful_op w _ (OperationID v) op op' H); try done; by apply quiet_calm.
  - unfold phase_receive. destruct (phases (rec w)) as [|id l]; [done|]. cbn [mbind option_bind].
    destruct (fresh t w); [|done]. intros [= <-]. by apply Hcalm.
  - destruct (tasks w !! t) as [[| |id| | | | |]|] eqn:Et; try done. unfold persistPhase_lookup. intros [= <-]. by apply Hcalm.
  - destruct (tasks w !! t) as [[| | |id| | | |]|] eqn:Et; try done.
    destruct (ops w !! id) as [op|]; [|done]. cbn [mbind option_bind]. intros [= <-]. by apply Hcalm.
  - destruct (fresh t w && _); [|done]. destruct (retry_scan order now [] (rec w)) as [[dr o] r'] eqn:Es. intros [= <-].
    destruct (retry_scan_drops (rec w) order now [] dr o (rec w) r' (drops_nil _) Es) as (r1 & Hd & Htk).
    assert (but_pending (rec w) r') as F by (etrans; [by eapply drops_frame|by eapply taken_frame]).
    apply (truthful_same w _ H); try done. intros i. unfold tracked. cbn. rewrite (bp_active _ _ F).
    intros [?|[p Hp]]; [by left|right]. destruct (scan_rows _ _ _ _ _ i p Hd Htk Hp) as (p0 & -> & _). by eexists.
  - destruct (tasks w !! t) as [[| | | |[|id rest]| | |]|] eqn:Et; try done; intros [= <-]; by apply Hcalm.
  - destruct (tasks w !! t) as [[| | | | |id rest| |]|] eqn:Et; try done.
    destruct (ops w !! id) as [op|] eqn:Eo; [|done]. cbn [mbind option_bind].
    destruct (refreshRunning op) as [[v|] op'] eqn:E; intros [= <-]; [|by apply Hcalm].
    destruct (refresh_spec _ _ _ E) as (Hf & _ & S). apply (truthful_op w _ id op op' H); try done.
    split; [apply (os_reason _ _ S)|intros _; apply (os_owner _ _ S)|congruence|by rewrite (os_begun _ _ S)].
  - destruct (has_audit (rec w)).
    + destruct (fresh t w); [|done]. intros [= <-]. by apply Hcalm.
    + intros [= <-]. apply Hcalm; try done. apply quiet_calm, quiet_unavailable.
  - destruct (fresh t w && _); [|done]. destruct (audit_scan order now (rec w)) as [o r'] eqn:Es. intros [= <-].
    apply Hcalm; try done. by eapply audit_scan_calm.
  - destruct (has_store (rec w) && _); [|done]. intros [= <-]. by apply Hcalm.
  - destruct (has_store (rec w) && _); [|done]. intros [= <-]. by apply Hcalm.
  - destruct (has_store (rec w) && _); [|done]. intros [= <-]. by apply Hcalm.
  - destruct (has_store (rec w) && _); [|done]. intros [= <-]. by apply Hcalm.
  - intros [= <-]. by apply Hcalm.
Qed.

Lemma truthful_settle w t j a uuid now rnd n :
  bounded w -> accounted w -> written w -> truthful w -> tasks w !! t = Some (TJob j [] (SSettle a)) ->
  truthful (settle t j a uuid now rnd n w).
Proof.
  intros Hb Ha Hw H Et.
  assert (forall r' o, calm (rec w) r' -> truthful (go t o r' w)) as Hcalm.
  { intros r' o C. apply (truthful_same w _ H); try done. intros i. by apply calm_tracked. }
  destruct j as [k v|e|id p|id|id|id|id|]; cbn [settle].
  - destruct k as [|c| |id p|rest]; [by apply (Hcalm (rec w) None)| |by apply (Hcalm (rec w) None)| |by apply (Hcalm (rec w) (Some (TRestore rest)))].
    + destruct (finish_settle v c (answer_error a) now rnd (rec w)) as [f r'] eqn:E.
      destruct (finish_settle_fate _ _ _ _ _ _ _ _ E (accounted_unqueued w Ha _ _ _ _ _ Et)) as (_ & Ea & _ & Hp).
      apply (truthful_step w _ H); try done; [by apply ops_grow_refl|cbn; congruence|].
      intros i op' Eo. unfold tracked. cbn. rewrite Ea. intros [[? _]%elem_of_difference|[p Hip]]; [left; by left|].
      destruct (Hp i p Hip) as [E'|[-> _]]; [left; right; by eexists|].
      destruct (wr_task w Hw t _ Et) as (op & Eop & _ & _ & Hact). assert (op = op') as -> by (cbn in Eo; congruence).
      destruct (op_owner op') eqn:Eow; [left; left; by apply Hact|by right; right].
    + destruct (retry_settle id p (answer_error a) now rnd (rec w)) as [f r'] eqn:E.
      destruct (ow_item _ _ _ _ (tk_retry _ _ (proj2 Hb)) t _ id p Et eq_refl) as [Hk _].
      destruct (retry_settle_fate _ _ _ _ _ _ _ _ E Hk) as (_ & Ea & _ & Hrow).
      apply (truthful_same w _ H); try done. intros i. unfold tracked. cbn. rewrite Ea. intros [?|[q Hq]]; [by left|right].
      destruct (Hrow i q Hq) as (q0 & -> & _). by eexists.
  - apply Hcalm. destruct (bool_decide _); [done|apply audit_failed_calm].
  - apply Hcalm, audit_settle_calm.
  - apply Hcalm, quiet_calm, quiet_register.
  - pose proof (quiet_heartbeat id (answer_error a) uuid now (rec w)) as Q.
    destruct (heartbeat_settle id (answer_error a) uuid now (rec w)) as [nx r'].
    apply (truthful_same w _ H); try done. intros i. by apply calm_tracked, quiet_calm.
  - by apply (Hcalm (rec w)).
  - apply Hcalm, quiet_calm, quiet_reconcile.
  - apply Hcalm. destruct (bool_decide _); [done|apply quiet_calm, quiet_warn].
Qed.

Lemma reconcile_owner_self self id now d : reconcile_owner self id now d = Some OwnerHealthy -> id = self.
Proof.
  unfold reconcile_owner. destruct (instances d !! id); [|done]. destruct (_ || _); [done|].
  destruct (String.eqb id self) eqn:E; [|done]. intros _. by apply String.eqb_eq.
Qed.

Lemma truthful_env w p now x w' : written w -> truthful w -> env_step cfg p now x w = Some w' -> truthful w'.
Proof.
  intros Hw H. destruct x; cbn [env_step].
  - destruct (owner_locked _ _); [done|]. destruct (RegisterInstance _ _ _ _) eqn:E; [|done]. intros [= <-].
    apply (truthful_logs w _ H); try done; [by eapply register_logs|by left].
  - destruct (owner_locked _ _); [done|]. destruct (Heartbeat _ _ _ _) eqn:E; [|done]. intros [= <-].
    apply (truthful_logs w _ H); try done; [by eapply heartbeat_logs|by left].
  - destruct (_ || bool_decide _) eqn:Eb; [done|]. destruct (Upsert _ _ _ _) as [d'|] eqn:E; [|done]. intros [= <-].
    bools. eapply (truthful_env_upsert w _ p v now d' H); try done.
    destruct (ops w !! OperationID v); [|done]. by destruct H1.
  - destruct (bool_decide (self ∈ used_owners w) || owner_locked id w) eqn:Eb; [done|].
    destruct (reconcile_owner self id now (wdb w)) as [s|] eqn:E; [|done]. intros [= <-]. bools.
    apply (truthful_reconcile w _ cfg id s tracked0 skip limit now H Hw); try done; [|by left].
    intros -> i op _ Eo Ew. apply reconcile_owner_self in E as ->. by destruct (wr_used w Hw i op self Eo Ew).
  - intros [= <-]. by eapply (truthful_cleanup w _ p op owner_locked row_locked now H).
  - intros [= <-]. apply (truthful_logs w _ H); try done; [apply cleanup_instance_logs|by left].
Qed.

Lemma truthful_store w t j p now d ids h a :
  accounted w -> written w -> truthful w -> tasks w !! t = Some (TJob j h SCall) ->
  store_call cfg t j p now w = Some (Ok (d, ids)) ->
  truthful (with_task t (Some (TJob j h (SRelease a))) (with_db d w)).
Proof.
  intros Ha Hw H Et.
  assert (forall d', logs d' = logs (wdb w) -> truthful (with_task t (Some (TJob j h (SRelease a))) (with_db d' w))) as Hlogs.
  { intros d' E. apply (truthful_logs w _ H); try done. by left. }
  destruct j as [k v|e|id q|id|id|id|id|]; cbn [store_call].
  - destruct (match OwnerInstanceID v with Some id => owner_locked id w | None => false end) eqn:El; [done|].
    destruct (Upsert p v now (wdb w)) as [d'|] eqn:E; [|done]. intros [= <- _].
    destruct (carried w t k v h SCall Ha Hw Et) as (op & Eo & Ew & Er & Hv).
    by eapply (truthful_upsert w _ p v now d' op H Eo Ew Er Hv El E).
  - intros [= <- _]. by apply Hlogs.
  - intros [= <- _]. by apply Hlogs.
  - destruct (owner_locked id w); [done|]. destruct (RegisterInstance _ _ _ _) eqn:E; [|done]. intros [= <- _].
    apply Hlogs. by eapply register_logs.
  - destruct (owner_locked id w); [done|]. destruct (Heartbeat _ _ _ _) eqn:E; [|done]. intros [= <- _].
    apply Hlogs. by eapply heartbeat_logs.
  - intros [= <- _]. by apply Hlogs.
  - destruct (reconciles t w); [done|]. intros [= <- _]. by apply Hlogs.
  - intros [= <- _]. by apply Hlogs.
Qed.

Lemma truthful_job e w w' :
  bounded w -> accounted w -> written w -> truthful w -> step_job cfg e w = Some w' -> truthful w'.
Proof.
  intros Hb Ha Hw H.
  assert (forall w1, ops w1 = ops w -> wdb w1 = wdb w -> lock w1 = lock w -> calm (rec w) (rec w1) -> truthful w1) as Hcalm.
  { intros w1 Eo Ed El C. apply (truthful_same w w1 H Eo Ed El). intros i. by apply calm_tracked. }
  destruct e; cbn [step_job].
  - destruct (tasks w !! t) as [[| | | | | | |j held [[|s todo]| | | |]]|] eqn:Et; try done.
    + intros [= <-]. by apply Hcalm.
    + unfold slot_take. destruct (_ <? _); intros [= <-]; by apply Hcalm.
  - destruct (tasks w !! t) as [[| | | | | | |j held [| | | |]]|] eqn:Et; try done. destruct z as [|e|e].
    + destruct (store_call cfg t j p now w) as [[[d ids]|e]|] eqn:E; [| |done]; intros [= <-];
        [by eapply truthful_store|by apply Hcalm].
    + destruct (reconciles t w); [done|]. intros [= <-]. by apply Hcalm.
    + destruct (store_call cfg t j p now w) as [[[d ids]|e']|] eqn:E; [| |done]; intros [= <-];
        [by eapply truthful_store|by apply Hcalm].
  - destruct (tasks w !! t) as [[| | | | | | |[] held []]|] eqn:Et; try done. destruct (lock w) eqn:El; [done|].
    destruct (reconcile_owner _ _ _ _) as [s|]; [|done]. intros [= <-]. split.
    + apply (tr_keyed w H).
    + intros i op r E1 E2. destruct (tr_row w H i op r E1 E2). by split.
    + cbn. intros l tr i op [= <-]. done.
  - destruct (lock w) as [l|] eqn:El; [|done]. cbn [mbind option_bind]. destruct (_ && _); [|done]. intros [= <-]. split.
    + apply (tr_keyed w H).
    + intros i op r E1 E2. destruct (tr_row w H i op r E1 E2). by split.
    + cbn. intros l' tr i op [= <-]. cbn. intros [= <-]. split; [done|]. intros Ht _ _. left. unfold trackedOperations.
      apply elem_of_app. destruct Ht as [?|[q Hq]]; [left; by apply elem_of_elements|right].
      apply list_elem_of_fmap. exists (i, q). split; [done|]. by apply elem_of_map_to_list.
  - destruct (lock w) as [l|] eqn:El; [|done]. cbn [mbind option_bind].
    destruct (_ && negb (bool_decide (rt_state l = OwnerHealthy /\ rt_tracked l = None))) eqn:E; [|done]. intros [= <-].
    apply andb_true_iff in E as [_ E]. bools. destruct commits.
    + eapply (truthful_reconcile w _ cfg (rt_owner l) (rt_state l) (default [] (rt_tracked l)) skip limit now H Hw); try done; [|by right].
      intros Hs i op Ht Eo Ew. destruct (rt_tracked l) as [tr|] eqn:Etr; [|by destruct E].
      by destruct (tr_lock w H l tr i op El Etr) as [_ Hl]; apply Hl.
    + apply (truthful_logs w _ H); try done. by right.
  - destruct (tasks w !! t) as [[| | | | | | |j [|s held] [| |a| |]]|] eqn:Et; try done; intros [= <-]; by apply Hcalm.
  - destruct (tasks w !! t) as [[| | | | | | |[k v| | | | | | |] [|] [| | |e|]]|] eqn:Et; try done. intros [= <-].
    apply Hcalm; try done. apply quiet_calm, quiet_failure.
  - destruct (tasks w !! t) as [[| | | | | | |j [|] [| | | |a]]|] eqn:Et; try done. intros [= <-]. by apply truthful_settle.
  - by apply truthful_env.
Qed.

Lemma truthful_init store audit uuid o d : keyed d -> truthful (init store audit uuid o d).
Proof. by split. Qed.

Lemma reachable_truth w : reachable cfg w -> bounded w /\ accounted w /\ written w /\ truthful w.
Proof.
  apply (reachable_inv cfg (fun w => bounded w /\ accounted w /\ written w /\ truthful w)).
  - intros. split_and!; [apply bounded_init|apply accounted_init|apply written_init|by apply truthful_init].
  - intros [e|e] w1 w2 (Hb & Ha & Hw & Ht) E; split_and!.
    + by eapply bounded_work.
    + by eapply accounted_work.
    + by eapply written_work.
    + by eapply truthful_work.
    + by eapply bounded_job; [..|apply accounted_unqueued|].
    + by eapply accounted_job.
    + by eapply written_job.
    + by eapply truthful_job.
Qed.

(** C12: The history never denies what this process still knows: whatever the goroutines,
    the other instances and the database's failures do, a row of an operation that is
    still active or queued is never given up as unavailable, and a row that shows a result
    without a recovery mark shows the result the operation ended with. *)
Theorem recorder_truthful w id op r :
  reachable cfg w -> ops w !! id = Some op -> logs (wdb w) !! id = Some r ->
  (tracked w id -> RecoveryReason r <> "finalization_unavailable") /\
  (is_running r = false -> RecoveryReason r = "" -> finished op = true /\ same_result r (snapshotLocked op)).
Proof.
  intros H Eo Er. destruct (reachable_truth w H) as (_ & _ & _ & Ht).
  destruct (tr_row w Ht id op r Eo Er). by split.
Qed.
End truth.

Lemma recorder_truthful_witness :
  tracked Demo.final "op1" /\ is_running Demo.in_history = false /\
  same_result Demo.in_history (@snapshotLocked Demo.json Demo.operation).
Proof.
  split; [right; vm_compute; by eexists|]. split; [by vm_compute|].
  destruct (recorder_truthful Demo.cfg Demo.final "op1" Demo.operation Demo.in_history Demo.final_reachable)
    as [_ Hr]; [by vm_compute|by vm_compute|]. apply Hr; by vm_compute.
Defined.
