(* ===== verification/DeployQueue.v ===== *)
(** * The queue of agent deployments

    [service/agent_deploy_queue.go] runs deployments of the collecting agent: at most one
    per node and four in all.  A job is shared by address between the queue's map and the
    goroutine that runs it, so jobs live in a heap.  The functions are the sections the
    code runs under the queue's mutex; [dstep] interleaves them with the workers, with
    changes of the node list, with invalidations of connections (the pool's answer to
    [current] is an argument of each section) and with the shutdown. *)

From S2P Require Import Prelude.

(** ** Errors of a deployment *)

(** The shape of an error value: a leaf, the cleanup of an SSH primitive that has not
    joined its workers, or an error that wraps one or several others. *)
#[warnings="-register-all"]
Inductive deploy_err :=
| Leaf (stale : bool)
| Pending (owner : nat)
| Wrap (e : deploy_err)
| Join (es : list deploy_err).

(** [errors.Is(err, sshpool.ErrStaleGeneration)]. *)
Fixpoint is_stale (e : deploy_err) : bool :=
  match e with
  | Leaf stale => stale
  | Pending _ => false
  | Wrap e => is_stale e
  | Join es => existsb is_stale es
  end.

(** The owners [waitAgentDeploymentCleanup] waits for, in order. *)
Fixpoint waitAgentDeploymentCleanup (e : deploy_err) : list nat :=
  match e with
  | Leaf _ => []
  | Pending owner => [owner]
  | Wrap e => waitAgentDeploymentCleanup e
  | Join es => (fix go (es : list deploy_err) : list nat :=
                  match es with [] => [] | e :: es => waitAgentDeploymentCleanup e ++ go es end) es
  end.
Definition cleanup_owners (err : option deploy_err) : list nat :=
  match err with Some e => waitAgentDeploymentCleanup e | None => [] end.

(** ** The queue *)

(** [cancel] is the operation whose context [job.cancel] cancels. *)
Record agentDeploymentJob := Job {
  generation : Z;
  due : time;
  failures : Z;
  running : bool;
  retired : bool;
  cancel : option nat;
  collectionID : string }.

Definition agentDeploymentConcurrency : Z := 4.
Definition deploy_retry : duration := 5 * Second.

(** [qctx] is [nil] before [start]; [Some done] tells whether the context is done. *)
Record agentDeploymentQueue := Queue {
  jobs : gmap Z nat;
  heap : gmap nat agentDeploymentJob;
  live : gset Z;
  wake : bool;
  qctx : option bool;
  active : Z }.

Definition newAgentDeploymentQueue : agentDeploymentQueue := Queue ∅ ∅ ∅ false None 0.

Definition set_jobs (m : gmap Z nat) (q : agentDeploymentQueue) : agentDeploymentQueue :=
  Queue m (heap q) (live q) (wake q) (qctx q) (active q).
Definition set_job (p : nat) (j : agentDeploymentJob) (q : agentDeploymentQueue) : agentDeploymentQueue :=
  Queue (jobs q) (<[p := j]> (heap q)) (live q) (wake q) (qctx q) (active q).
Definition add_active (d : Z) (q : agentDeploymentQueue) : agentDeploymentQueue :=
  Queue (jobs q) (heap q) (live q) (wake q) (qctx q) (active q + d).
Definition set_live (l : gset Z) (q : agentDeploymentQueue) : agentDeploymentQueue :=
  Queue (jobs q) (heap q) l (wake q) (qctx q) (active q).
(** [signal]: the channel [wake] holds at most one token. *)
Definition signal (q : agentDeploymentQueue) : agentDeploymentQueue :=
  Queue (jobs q) (heap q) (live q) true (qctx q) (active q).
Definition start (q : agentDeploymentQueue) : agentDeploymentQueue :=
  Queue (jobs q) (heap q) (live q) (wake q) (Some false) (active q).
Definition ctx_done (q : agentDeploymentQueue) : bool := match qctx q with Some d => d | None => false end.

Definition retire (j : agentDeploymentJob) : agentDeploymentJob :=
  Job (generation j) (due j) (failures j) (running j) true (cancel j) (collectionID j).

(** One iteration of the loop of [sync]; the operation it cancels is the answer. *)
Definition sync_one (current : Z -> Z -> bool) (id : Z) (p : nat) (q : agentDeploymentQueue) :
    agentDeploymentQueue * option nat :=
  match heap q !! p with
  | None => (q, None)
  | Some j =>
      if negb (bool_decide (id ∈ live q)) || negb (current id (generation j)) then
        let q := set_job p (retire j) q in
        (if running j then q else set_jobs (delete id (jobs q)) q, cancel j)
      else (q, None)
  end.

Definition cancel_one (t : option nat) (c : gset nat) : gset nat :=
  match t with Some t => {[t]} ∪ c | None => c end.

Definition sync_loop (current : Z -> Z -> bool) (l : list (Z * nat)) (q : agentDeploymentQueue) (c : gset nat) :
    agentDeploymentQueue * gset nat :=
  foldl (fun '(q, c) '(id, p) => let '(q, t) := sync_one current id p q in (q, cancel_one t c)) (q, c) l.

Definition sync (current : Z -> Z -> bool) (ids : list Z) (q : agentDeploymentQueue) (c : gset nat) :
    agentDeploymentQueue * gset nat :=
  let q := set_live (list_to_set ids) q in
  let '(q, c) := sync_loop current (map_to_list (jobs q)) q c in
  (signal q, c).

Definition request (current : Z -> Z -> bool) (now : time) (id gen : Z) (label : list string)
    (q : agentDeploymentQueue) (c : gset nat) : agentDeploymentQueue * gset nat :=
  if bool_decide (qctx q = None) || ctx_done q || negb (bool_decide (id ∈ live q)) || negb (current id gen)
  then (q, c)
  else
    let fill (j : agentDeploymentJob) :=
      Job gen now 0 (running j) false (cancel j) (match label with l :: _ => l | [] => collectionID j end) in
    match jobs q !! id with
    | Some p =>
        match heap q !! p with
        | None => (q, c)
        | Some j =>
            if (generation j =? gen) && negb (retired j) then (q, c)
            else (signal (set_job p (fill j) q), cancel_one (cancel j) c)
        end
    | None =>
        let p := fresh (dom (heap q)) in
        (signal (set_job p (fill (Job 0 zero_time 0 false false None "")) (set_jobs (<[id := p]> (jobs q)) q)), c)
    end.

(** One iteration of the admission loop of [run]; [t] is the operation it may start.
    The answer is the operation started and how long the job still has to wait. *)
Definition visit (current : Z -> Z -> bool) (now : time) (limit : Z) (t : nat) (id : Z) (p : nat)
    (q : agentDeploymentQueue) : agentDeploymentQueue * option nat * option duration :=
  match heap q !! p with
  | None => (q, None, None)
  | Some j =>
      if running j || retired j then (q, None, None)
      else if negb (current id (generation j)) then (set_jobs (delete id (jobs q)) q, None, None)
      else if limit <=? active q then (q, None, None)
      else
        let wait := TimeSub (due j) now in
        if 0 <? wait then (q, None, Some wait)
        else
          (add_active 1 (set_job p (Job (generation j) (due j) (failures j) true (retired j) (Some t)
                                      (collectionID j)) q), Some t, None)
  end.

(** [min(q.retry*time.Duration(1<<min(job.failures-1, 6)), 5*time.Minute)]. *)
Definition deploy_backoff (failures : Z) : duration :=
  Z.min (wrap64 (deploy_retry * wrap64 (Z.shiftl 1 (Z.min (failures - 1) 6)))) (5 * Minute).

(** The end of [work], under the mutex.  [job.cancel()] panics on a nil function. *)
Definition work_end (now : time) (id : Z) (p : nat) (gen : Z) (err : option deploy_err)
    (q : agentDeploymentQueue) : option agentDeploymentQueue :=
  match heap q !! p with
  | None => None
  | Some j =>
      match cancel j with
      | None => None
      | Some _ =>
          let j := Job (generation j) (due j) (failures j) false (retired j) None (collectionID j) in
          let q := add_active (-1) (set_job p j q) in
          Some (signal
            (if retired j || negb (bool_decide (id ∈ live q)) || ctx_done q then set_jobs (delete id (jobs q)) q
             else if negb (generation j =? gen) then
               set_job p (Job (generation j) now (failures j) false (retired j) None (collectionID j)) q
             else match err with
                  | None => set_jobs (delete id (jobs q)) q
                  | Some e =>
                      if is_stale e then set_jobs (delete id (jobs q)) q
                      else
                        let n := failures j + 1 in
                        set_job p (Job (generation j) (TimeAdd now (deploy_backoff n)) n false (retired j) None
                                     (collectionID j)) q
                  end))
      end
  end.

(** ** Workers *)

(** A goroutine of [work]: executing the deployment, then waiting for the owners whose
    cleanup is pending. *)
Inductive phase := Executing | Cleaning (err : option deploy_err) (owners : list nat).
Record worker := Worker { w_id : Z; w_job : nat; w_gen : Z; w_phase : phase }.

(** The queue, its workers (by operation), the operations whose contexts were cancelled
    and the operations ever started. *)
Record dstate := DState {
  dq : agentDeploymentQueue;
  workers : gmap nat worker;
  cancelled : gset nat;
  started : gset nat }.

Definition set_worker (t : nat) (o : option worker) (s : dstate) : dstate :=
  DState (dq s) (partial_alter (fun _ => o) t (workers s)) (cancelled s) (started s).

(** One iteration of the loop with the worker it starts, and the whole section: the
    delay is how long [run] will sleep unless it is woken. *)
Definition visit_one (current : Z -> Z -> bool) (now : time) (sd : dstate * duration) (idp : Z * nat) :
    dstate * duration :=
  let '(s, delay) := sd in
  let t := fresh (started s) in
  match visit current now agentDeploymentConcurrency t idp.1 idp.2 (dq s) with
  | (q, Some t, _) =>
      let gen := match heap (dq s) !! idp.2 with Some j => generation j | None => 0 end in
      (DState q (<[t := Worker idp.1 idp.2 gen Executing]> (workers s))
         (if ctx_done (dq s) then {[t]} ∪ cancelled s else cancelled s) ({[t]} ∪ started s), delay)
  | (q, None, Some wait) => (DState q (workers s) (cancelled s) (started s), Z.min delay wait)
  | (q, None, None) => (DState q (workers s) (cancelled s) (started s), delay)
  end.
Definition pass (current : Z -> Z -> bool) (now : time) (order : list (Z * nat)) (s : dstate) : dstate * duration :=
  foldl (visit_one current now) (s, Minute) order.

Inductive dstep : dstate -> dstate -> Prop :=
| DStart s : qctx (dq s) = None ->
    dstep s (DState (start (dq s)) (workers s) (cancelled s) (started s))
| DSync s current ids q c :
    sync current ids (dq s) (cancelled s) = (q, c) -> dstep s (DState q (workers s) c (started s))
| DRequest s current now id gen label q c :
    request current now id gen label (dq s) (cancelled s) = (q, c) -> dstep s (DState q (workers s) c (started s))
| DPass s current now order :
    qctx (dq s) <> None -> order ≡ₚ map_to_list (jobs (dq s)) ->
    dstep s (pass current now order s).1
| DReturn s t w err :
    workers s !! t = Some w -> w_phase w = Executing ->
    dstep s (set_worker t (Some (Worker (w_id w) (w_job w) (w_gen w)
                                   (Cleaning err (if ctx_done (dq s) then [] else cleanup_owners err)))) s)
| DJoined s t w err owner owners :
    workers s !! t = Some w -> w_phase w = Cleaning err (owner :: owners) ->
    dstep s (set_worker t (Some (Worker (w_id w) (w_job w) (w_gen w) (Cleaning err owners))) s)
| DGiveUp s t w err owners :
    workers s !! t = Some w -> w_phase w = Cleaning err owners -> ctx_done (dq s) = true ->
    dstep s (set_worker t (Some (Worker (w_id w) (w_job w) (w_gen w) (Cleaning err []))) s)
| DEnd s t w err now q :
    workers s !! t = Some w -> w_phase w = Cleaning err [] ->
    work_end now (w_id w) (w_job w) (w_gen w) err (dq s) = Some q ->
    dstep s (DState q (delete t (workers s)) (cancelled s) (started s))
| DShutdown s : qctx (dq s) <> None ->
    dstep s (DState (Queue (jobs (dq s)) (heap (dq s)) (live (dq s)) (wake (dq s)) (Some true) (active (dq s)))
               (workers s) (started s) (started s)).

Definition dinitial : dstate := DState newAgentDeploymentQueue ∅ ∅ ∅.
Definition dreachable : dstate -> Prop := rtc dstep dinitial.

(** ** The invariant *)

(** A worker whose node or generation is no longer wanted. *)
Definition obsolete (s : dstate) (w : worker) (j : agentDeploymentJob) : Prop :=
  retired j = true \/ generation j <> w_gen w \/ ctx_done (dq s) = true.

Definition runs (s : dstate) (i : Z) (p t : nat) : Prop :=
  exists w, workers s !! t = Some w /\ w_id w = i /\ w_job w = p.

(** [T] holds for the nodes a [sync] under way has not looked at yet. *)
Definition job_ok (T : Z -> Prop) (s : dstate) (i : Z) (p : nat) (j : agentDeploymentJob) : Prop :=
  if running j then exists t, runs s i p t /\ cancel j = Some t
  else cancel j = None /\ retired j = false /\ (T i \/ i ∈ live (dq s)).

Definition worker_ok (T : Z -> Prop) (s : dstate) (t : nat) (w : worker) : Prop :=
  jobs (dq s) !! w_id w = Some (w_job w) /\ t ∈ started s /\
  exists j, heap (dq s) !! w_job w = Some j /\ running j = true /\ cancel j = Some t /\
    (obsolete s w j \/ ((~ w_id w ∈ live (dq s)) /\ ~ T (w_id w)) -> t ∈ cancelled s).

Record dinv_at (T : Z -> Prop) (s : dstate) : Prop := {
  di_jobs i p : jobs (dq s) !! i = Some p -> exists j, heap (dq s) !! p = Some j /\ job_ok T s i p j;
  di_inj i i' p : jobs (dq s) !! i = Some p -> jobs (dq s) !! i' = Some p -> i = i';
  di_worker t w : workers s !! t = Some w -> worker_ok T s t w;
  di_active : active (dq s) = Z.of_nat (size (workers s));
  di_limit : active (dq s) <= agentDeploymentConcurrency }.

Definition dinv : dstate -> Prop := dinv_at (fun _ => False).

Lemma worker_unique T s t1 t2 w1 w2 :
  dinv_at T s -> workers s !! t1 = Some w1 -> workers s !! t2 = Some w2 -> w_id w1 = w_id w2 -> t1 = t2.
Proof.
  intros H H1 H2 E. destruct (di_worker _ _ H _ _ H1) as (J1 & _ & j1 & K1 & _ & C1 & _).
  destruct (di_worker _ _ H _ _ H2) as (J2 & _ & j2 & K2 & _ & C2 & _). congruence.
Qed.

(** Replacing a job's record while its running state and operation stay. *)
Lemma dinv_set_job T T' s i p j j' c :
  dinv_at T s -> jobs (dq s) !! i = Some p -> heap (dq s) !! p = Some j ->
  running j' = running j -> cancel j' = cancel j ->
  (running j = false -> retired j' = false /\ (T' i \/ i ∈ live (dq s))) ->
  (forall k, k <> i -> (T' k <-> T k)) -> cancelled s ⊆ c ->
  (forall t w, cancel j = Some t -> workers s !! t = Some w -> w_id w = i ->
     obsolete s w j' \/ ((~ i ∈ live (dq s)) /\ ~ T' i) -> t ∈ c) ->
  dinv_at T' (DState (set_job p j' (dq s)) (workers s) c (started s)).
Proof.
  intros H Hi Hp Er Ec Hidle HT Hc Hcan. split; cbn.
  - intros k p' Hk. destruct (decide (p' = p)) as [->|Hne].
    + assert (k = i) as -> by (by apply (di_inj _ _ H k i p)). rewrite lookup_insert_eq. exists j'. split; [done|].
      destruct (di_jobs _ _ H _ _ Hi) as (j0 & E0 & Hj). simplify_eq. unfold job_ok in *. rewrite Er.
      destruct (running j); [rewrite Ec; exact Hj|]. rewrite Ec. cbn. destruct Hj as (? & _ & _). split; [done|]. by apply Hidle.
    + rewrite lookup_insert_ne by done. destruct (di_jobs _ _ H _ _ Hk) as (j0 & E0 & Hj). exists j0. split; [done|].
      unfold job_ok in *. cbn. destruct (running j0); [exact Hj|].
      assert (k <> i) as Hki by congruence. by rewrite (HT k Hki).
  - apply H.
  - intros t w Hw. destruct (di_worker _ _ H _ _ Hw) as (J & S & j0 & K & R & C & O). split; [done|]. split; [done|]. cbn.
    destruct (decide (w_job w = p)) as [Ep|Hne].
    + assert (w_id w = i) as Ew by (apply (di_inj _ _ H _ _ p); congruence).
      rewrite Ep, lookup_insert_eq. rewrite Ep in K. assert (j0 = j) as -> by congruence.
      exists j'. rewrite Er, Ec. split_and!; try done. rewrite Ew. by eapply Hcan.
    + rewrite lookup_insert_ne by done. exists j0. split_and!; try done.
      assert (w_id w <> i) as Hki by congruence. rewrite (HT _ Hki). intros Ho. by apply Hc, O.
  - apply H.
  - apply H.
Qed.

(** Forgetting a job that does not run. *)
Lemma dinv_delete T s i p j :
  dinv_at T s -> jobs (dq s) !! i = Some p -> heap (dq s) !! p = Some j -> running j = false ->
  dinv_at (fun k => T k \/ k = i) (DState (set_jobs (delete i (jobs (dq s))) (dq s)) (workers s) (cancelled s) (started s))
  /\ dinv_at T (DState (set_jobs (delete i (jobs (dq s))) (dq s)) (workers s) (cancelled s) (started s)).
Proof.
  intros H Hi Hp Hr.
  assert (forall t w, workers s !! t = Some w -> w_id w <> i) as Hw.
  { intros t w Hw E. destruct (di_worker _ _ H _ _ Hw) as (J & _ & j0 & K & R & _). rewrite E in J. congruence. }
  assert (forall T' : Z -> Prop, (forall k, k <> i -> (T' k <-> T k)) ->
    dinv_at T' (DState (set_jobs (delete i (jobs (dq s))) (dq s)) (workers s) (cancelled s) (started s))) as Hgen.
  { intros T' HT. split; cbn.
    - intros k p' [Hne Hk]%lookup_delete_Some. destruct (di_jobs _ _ H _ _ Hk) as (j0 & E0 & Hj). exists j0. split; [done|].
      unfold job_ok in *. cbn. destruct (running j0); [exact Hj|]. by rewrite HT.
    - intros k k' p' [_ ?]%lookup_delete_Some [_ ?]%lookup_delete_Some. by eapply (di_inj _ _ H).
    - intros t w Ht. destruct (di_worker _ _ H _ _ Ht) as (J & S & j0 & K & R & C & O). pose proof (Hw _ _ Ht).
      split; [cbn; by rewrite lookup_delete_ne|]. split; [done|]. exists j0. split_and!; try done.
      cbn. rewrite HT by done. exact O.
    - apply H.
    - apply H. }
  split; apply Hgen; intros k Hk; tauto.
Qed.

Lemma dinv_weaken T T' s :
  (forall i p, jobs (dq s) !! i = Some p -> (T i <-> T' i)) -> dinv_at T s -> dinv_at T' s.
Proof.
  intros HT H. split; try apply H.
  - intros i p Hi. destruct (di_jobs _ _ H _ _ Hi) as (j & E & Hj). exists j. split; [done|]. unfold job_ok in *.
    destruct (running j); [done|]. by rewrite <- (HT i p Hi).
  - intros t w Hw. destruct (di_worker _ _ H _ _ Hw) as (J & S & j & K & R & C & O). split; [done|]. split; [done|].
    exists j. split_and!; try done. by rewrite <- (HT _ _ J).
Qed.

Lemma sync_one_inv T s current i p q t :
  dinv_at T s -> T i -> jobs (dq s) !! i = Some p -> sync_one current i p (dq s) = (q, t) ->
  dinv_at (fun k => T k /\ k <> i) (DState q (workers s) (cancel_one t (cancelled s)) (started s)) /\
  (forall k, k <> i -> jobs q !! k = jobs (dq s) !! k) /\ dom (jobs q) ⊆ dom (jobs (dq s)) /\ live q = live (dq s).
Proof.
  intros H HT Hi E. destruct (di_jobs _ _ H _ _ Hi) as (j & Ej & Hj). unfold sync_one in E. rewrite Ej in E.
  destruct (negb (bool_decide (i ∈ live (dq s))) || negb (current i (generation j))) eqn:Eb.
  - injection E as Eq <-.
    assert (cancelled s ⊆ cancel_one (cancel j) (cancelled s)) as Hsub by (destruct (cancel j); cbn; set_solver).
    destruct (running j) eqn:Er; subst q; cbn.
    + split; [|split_and!; try done]. apply (dinv_set_job T _ s i p j (retire j)); try done.
      * congruence.
      * intros k Hk. cbn. tauto.
      * intros t w Hc _ _ _. rewrite Hc. cbn. set_solver.
    + assert (cancel j = None) as Ec by (unfold job_ok in Hj; rewrite Er in Hj; apply Hj).
      rewrite Ec. cbn. split; [|split_and!; try done].
      * apply (dinv_weaken (fun k => (T k /\ k <> i))).
        { done. }
        destruct (dinv_delete (fun k => T k) s i p j H Hi Ej Er) as [_ Hd].
        split; cbn.
        -- intros k p' Hk. destruct (di_jobs _ _ Hd _ _ Hk) as (j0 & E0 & Hj0). cbn in *.
           apply lookup_delete_Some in Hk as [Hne Hk].
           assert (p' <> p) as Hp by (intros ->; apply Hne; by apply (di_inj _ _ H i k p)).
           rewrite lookup_insert_ne by done. exists j0. split; [done|]. unfold job_ok in *. cbn in *.
           destruct (running j0); [done|]. naive_solver.
        -- apply Hd.
        -- intros t w Hw. destruct (di_worker _ _ Hd _ _ Hw) as (J & S & j0 & K & R & C & O). cbn in *.
           split; [done|]. split; [done|]. apply lookup_delete_Some in J as [Hne J].
           assert (w_job w <> p) as Hp.
           { intros Ep. apply Hne. rewrite Ep in J. by apply (di_inj _ _ H i _ p). }
           exists j0. cbn. rewrite lookup_insert_ne by done. split_and!; try done.
           intros [Ho|[Hl Ht]]; [by apply O; left|]. apply O. right. split; [done|]. intros Ht'. apply Ht. done.
        -- apply Hd.
        -- apply Hd.
      * intros k Hk. by rewrite lookup_delete_ne.
      * rewrite dom_delete_L. set_solver.
  - injection E as <- <-. cbn. split; [|split_and!; try done]. bools.
    apply (dinv_weaken (fun k => T k /\ k <> i)); [done|].
    split; try apply H.
    + intros k p' Hk. destruct (di_jobs _ _ H _ _ Hk) as (j0 & E0 & Hj0). exists j0. split; [done|].
      unfold job_ok in *. destruct (running j0); [done|]. destruct (decide (k = i)) as [->|]; [|naive_solver].
      destruct Hj0 as (? & ? & _). split_and!; auto.
    + intros t w Hw. destruct (di_worker _ _ H _ _ Hw) as (J & S & j0 & K & R & C & O). split; [done|]. split; [done|].
      exists j0. split_and!; try done. intros [Ho|[Hl Ht]]; [by apply O; left|].
      destruct (decide (w_id w = i)) as [Ei|]; [rewrite Ei in Hl; cbn in Hl; done|]. apply O. right. split; [done|]. tauto.
Qed.

Lemma sync_loop_inv current l T s q c :
  dinv_at T s -> NoDup l.*1 -> (forall i p, (i, p) ∈ l -> T i /\ jobs (dq s) !! i = Some p) ->
  sync_loop current l (dq s) (cancelled s) = (q, c) ->
  dinv_at (fun k => T k /\ k ∉ l.*1) (DState q (workers s) c (started s)) /\ dom (jobs q) ⊆ dom (jobs (dq s)) /\
  live q = live (dq s).
Proof.
  revert T s. induction l as [|[i p] l IH]; intros T s H Hnd Hl E; cbn in E.
  - injection E as <- <-. split; [|done]. apply (dinv_weaken T); [|by destruct s]. intros k p _. cbn. set_solver.
  - apply NoDup_cons in Hnd as [Hi Hnd]. destruct (Hl i p) as [HT Hj]; [left|].
    destruct (sync_one current i p (dq s)) as [q1 t] eqn:E1.
    destruct (sync_one_inv _ _ _ _ _ _ _ H HT Hj E1) as (H1 & H2 & H3 & H4).
    specialize (IH _ _ H1 Hnd). cbn in IH. destruct IH as (I1 & I2 & I3); [|exact E|].
    + intros k p' Hk. assert (k <> i) as Hne.
      { intros ->. apply Hi. apply list_elem_of_fmap. by exists (i, p'). }
      destruct (Hl k p') as [? ?]; [by right|]. split; [done|]. by rewrite H2.
    + split; [|split; [by etransitivity|congruence]]. eapply dinv_weaken; [|exact I1]. intros k p' _. cbn.
      rewrite not_elem_of_cons. tauto.
Qed.

Lemma dinv_signal T s : dinv_at T s -> dinv_at T (DState (signal (dq s)) (workers s) (cancelled s) (started s)).
Proof. intros []. by split. Qed.

Lemma queue_sync_inv s current ids q c :
  dinv s -> sync current ids (dq s) (cancelled s) = (q, c) -> dinv (DState q (workers s) c (started s)).
Proof.
  intros H E. unfold sync in E. cbv zeta in E.
  set (s1 := DState (set_live (list_to_set ids) (dq s)) (workers s) (cancelled s) (started s)).
  assert (dinv_at (fun _ => True) s1) as H1.
  { split; try apply H.
    - intros i p Hi. destruct (di_jobs _ _ H _ _ Hi) as (j & Ej & Hj). exists j. split; [done|]. unfold job_ok in *.
      destruct (running j); [done|]. naive_solver.
    - intros t w Hw. destruct (di_worker _ _ H _ _ Hw) as (J & S & j0 & K & R & C & O). split; [done|]. split; [done|].
      exists j0. split_and!; try done. intros [Ho|[_ Ht]]; [by apply O; left|done]. }
  destruct (sync_loop current (map_to_list (jobs (set_live (list_to_set ids) (dq s)))) (set_live (list_to_set ids) (dq s)) (cancelled s)) as [q1 c1] eqn:E1.
  injection E as <- <-.
  destruct (sync_loop_inv current (map_to_list (jobs (dq s))) _ s1 q1 c1 H1) as (H2 & H3 & _); [apply NoDup_fst_map_to_list| |exact E1|].
  - intros i p Hi%elem_of_map_to_list. done.
  - apply (dinv_signal _ (DState q1 (workers s) c1 (started s))). eapply dinv_weaken; [|exact H2]. cbn.
    intros i p Hi. split; [|done]. intros [_ Hn]. apply Hn. apply elem_of_dom_2 in Hi. apply H3 in Hi.
    apply elem_of_dom in Hi as [p' Hp']. apply list_elem_of_fmap. exists (i, p'). split; [done|]. by apply elem_of_map_to_list.
Qed.

Lemma request_inv s current now i gen label q c :
  dinv s -> request current now i gen label (dq s) (cancelled s) = (q, c) ->
  dinv (DState q (workers s) c (started s)).
Proof.
  intros H E. unfold request in E.
  destruct (bool_decide _ || _ || _ || _) eqn:Eb; [injection E as <- <-; by destruct s|]. bools.
  destruct (jobs (dq s) !! i) as [p|] eqn:Ei.
  - destruct (di_jobs _ _ H _ _ Ei) as (j & Ej & Hj). rewrite Ej in E.
    destruct ((generation j =? gen) && negb (retired j)); [injection E as <- <-; by destruct s|].
    injection E as <- <-. set (j' := Job gen now 0 _ _ _ _).
    apply (dinv_signal _ (DState (set_job p j' (dq s)) (workers s) (cancel_one (cancel j) (cancelled s)) (started s))).
    apply (dinv_set_job (fun _ => False) _ s i p j j'); try done.
    + intros _. split; [done|by right].
    + destruct (cancel j); cbn; set_solver.
    + intros t w Hc _ _ _. rewrite Hc. cbn. set_solver.
  - set (p := fresh (dom (heap (dq s)))) in *. injection E as <- <-. set (j' := Job gen now 0 _ _ _ _).
    assert (heap (dq s) !! p = None) as Hp by (apply not_elem_of_dom, is_fresh).
    assert (forall k p' j0, jobs (dq s) !! k = Some p' -> heap (dq s) !! p' = Some j0 -> p' <> p) as Hne.
    { intros k p' j0 _ E' ->. congruence. }
    apply (dinv_signal _ (DState (set_job p j' (set_jobs (<[i := p]> (jobs (dq s))) (dq s))) (workers s) (cancelled s) (started s))).
    split; cbn; try apply H.
    + intros k p' Hk. apply lookup_insert_Some in Hk as [[<- <-]|[Hki Hk]].
      * exists j'. rewrite lookup_insert_eq. split; [done|]. unfold job_ok. cbn. auto.
      * destruct (di_jobs _ _ H _ _ Hk) as (j0 & E0 & Hj0). exists j0. rewrite lookup_insert_ne by (intros <-; by eapply Hne).
        split; [done|]. exact Hj0.
    + intros k k' p' Hk Hk'. apply lookup_insert_Some in Hk, Hk'.
      destruct Hk as [[E1 E2]|[E1 Hk]], Hk' as [[E3 E4]|[E3 Hk']]; [congruence| | |by eapply (di_inj _ _ H)].
      * destruct (di_jobs _ _ H _ _ Hk') as (j0 & E0 & _). destruct (Hne _ _ _ Hk' E0). done.
      * destruct (di_jobs _ _ H _ _ Hk) as (j0 & E0 & _). destruct (Hne _ _ _ Hk E0). done.
    + intros t w Hw. destruct (di_worker _ _ H _ _ Hw) as (J & S & j0 & K & R & C & O).
      split; [cbn; rewrite lookup_insert_ne by congruence; done|]. split; [done|]. exists j0. cbn.
      rewrite lookup_insert_ne by congruence. done.
Qed.

(** A pass of the admission loop. *)
Lemma visit_inv current now s delay idp s' delay' :
  dinv s -> jobs (dq s) !! idp.1 = Some idp.2 -> visit_one current now (s, delay) idp = (s', delay') ->
  dinv s' /\ (forall k, k <> idp.1 -> jobs (dq s') !! k = jobs (dq s) !! k).
Proof.
  destruct idp as [i p]. cbn [fst snd]. intros H Hi E. unfold visit_one in E. cbn [fst snd] in E.
  destruct (di_jobs _ _ H _ _ Hi) as (j & Ej & Hj). unfold visit in E. rewrite Ej in E.
  assert (forall k, k <> i -> jobs (dq s) !! k = jobs (dq s) !! k) as Hsame by done.
  destruct (running j || retired j) eqn:Er; [injection E as <- <-; by destruct s|]. bools.
  destruct (negb (current i (generation j))).
  { injection E as <- <-. split; [by apply (dinv_delete (fun _ => False) s i p j)|].
    intros k Hk. cbn. by rewrite lookup_delete_ne. }
  destruct (agentDeploymentConcurrency <=? active (dq s)) eqn:El; [injection E as <- <-; by destruct s|].
  destruct (0 <? TimeSub (due j) now); [injection E as <- <-; by destruct s|]. bools.
  injection E as <- <-. split; [|done].
  set (t := fresh (started s)).
  assert (t ∉ started s) as Ht by apply is_fresh.
  assert (workers s !! t = None) as Hw.
  { destruct (workers s !! t) eqn:Ew; [|done]. by destruct (di_worker _ _ H _ _ Ew) as (_ & ? & _). }
  unfold job_ok in Hj. rewrite H0 in Hj. destruct Hj as (_ & _ & [[]|Hlive]).
  split; cbn.
  - intros k p' Hk. destruct (decide (p' = p)) as [->|Hne].
    + rewrite lookup_insert_eq. assert (k = i) as -> by (by apply (di_inj _ _ H k i p)).
      eexists. split; [done|]. unfold job_ok, runs. cbn. exists t. split; [|done].
      exists (Worker i p (generation j) Executing). by rewrite lookup_insert_eq.
    + rewrite lookup_insert_ne by done. destruct (di_jobs _ _ H _ _ Hk) as (j0 & E0 & Hj0). exists j0. split; [done|].
      unfold job_ok, runs in *. cbn. destruct (running j0); [|done]. destruct Hj0 as (t0 & (w & Hw0 & ? & ?) & ?).
      exists t0. split; [|done]. exists w. rewrite lookup_insert_ne by congruence. done.
  - apply H.
  - intros t0 w Hw0. apply lookup_insert_Some in Hw0 as [[<- <-]|[Hne Hw0]].
    + split; [done|]. cbn. split; [set_solver|]. rewrite lookup_insert_eq. eexists. split; [done|]. cbn.
      split_and!; try done. unfold obsolete. cbn. intros [[?|[?|Hd]]|[? _]]; [congruence|done| |done].
      unfold ctx_done in *. cbn in Hd. rewrite Hd. set_solver.
    + destruct (di_worker _ _ H _ _ Hw0) as (J & S & j0 & K & R & C & O).
      assert (w_job w <> p) as Hp by (intros Ep; rewrite Ep in K; congruence).
      split; [done|]. cbn. split; [set_solver|]. exists j0. rewrite lookup_insert_ne by done. split_and!; try done.
      intros Ho. specialize (O Ho). destruct (ctx_done (dq s)); set_solver.
  - rewrite map_size_insert_None by done. rewrite (di_active _ _ H). lia.
  - unfold agentDeploymentConcurrency in *. lia.
Qed.

Lemma pass_inv current now order s delay :
  dinv s -> NoDup order.*1 -> (forall i p, (i, p) ∈ order -> jobs (dq s) !! i = Some p) ->
  dinv (foldl (visit_one current now) (s, delay) order).1.
Proof.
  revert s delay. induction order as [|[i p] l IH]; intros s delay H Hnd Hl; [done|]. cbn [foldl].
  apply NoDup_cons in Hnd as [Hi Hnd].
  destruct (visit_one current now (s, delay) (i, p)) as [s1 d1] eqn:E1.
  destruct (visit_inv current now s delay (i, p) s1 d1 H) as [H1 H2]; [apply Hl; left|exact E1|].
  apply IH; [done|done|]. intros k p' Hk. cbn in H2. rewrite H2; [apply Hl; by right|].
  intros ->. apply Hi. apply list_elem_of_fmap. by exists (i, p').
Qed.

(** The end of a worker: its job stops running and is forgotten ([dl]) or kept. *)
Definition ended_queue (dl : bool) (i : Z) (p : nat) (j : agentDeploymentJob) (q : agentDeploymentQueue) :
    agentDeploymentQueue :=
  signal (if dl then set_jobs (delete i (jobs q)) (add_active (-1) (set_job p j q))
          else add_active (-1) (set_job p j q)).

Lemma ended_fields dl i p j q :
  jobs (ended_queue dl i p j q) = (if dl then delete i (jobs q) else jobs q) /\
  heap (ended_queue dl i p j q) = <[p := j]> (heap q) /\ live (ended_queue dl i p j q) = live q /\
  qctx (ended_queue dl i p j q) = qctx q /\ active (ended_queue dl i p j q) = active q - 1.
Proof. by destruct dl. Qed.

Lemma ended_inv s t w j j' dl :
  dinv s -> workers s !! t = Some w -> heap (dq s) !! w_job w = Some j ->
  running j' = false -> cancel j' = None -> retired j' = retired j ->
  (dl = true \/ (retired j = false /\ w_id w ∈ live (dq s))) ->
  dinv (DState (ended_queue dl (w_id w) (w_job w) j' (dq s)) (delete t (workers s)) (cancelled s) (started s)).
Proof.
  intros H Hw K R' C' T' Hdl. destruct w as [i p g ph]. cbn [w_id w_job] in *.
  destruct (di_worker _ _ H _ _ Hw) as (J & _). cbn in J.
  destruct (ended_fields dl i p j' (dq s)) as (Ej & Eh & El & Ec & Ea).
  set (q := ended_queue dl i p j' (dq s)) in *. clearbody q.
  assert (forall k p', jobs q !! k = Some p' -> jobs (dq s) !! k = Some p' /\ (k = i -> dl = false)) as Hsub.
  { intros k p'. rewrite Ej. destruct dl; [|done]. intros [? ?]%lookup_delete_Some. split; [done|congruence]. }
  assert (forall k p', k <> i -> jobs (dq s) !! k = Some p' -> p' <> p) as Hp.
  { intros k p' Hne Hk ->. apply Hne. by apply (di_inj _ _ H k i p). }
  assert (forall t0 w0, workers s !! t0 = Some w0 -> t <> t0 -> w_id w0 <> i) as Hwi.
  { intros t0 w0 Hw0 Hne Ei. apply Hne. by apply (worker_unique _ s t t0 _ _ H Hw Hw0). }
  split; cbn [dq workers started].
  - intros k p' Hk. destruct (Hsub _ _ Hk) as [Hk' Hi]. rewrite Eh. unfold job_ok, runs. cbn [dq workers]. rewrite El.
    destruct (decide (k = i)) as [->|Hne].
    + assert (p' = p) as -> by congruence. rewrite lookup_insert_eq. exists j'. split; [done|].
      rewrite R'. destruct Hdl as [->|[? ?]]; [by specialize (Hi eq_refl)|].
      split_and!; [done|congruence|by right].
    + rewrite lookup_insert_ne by (intros Ep; by eapply Hp). destruct (di_jobs _ _ H _ _ Hk') as (j0 & E0 & Hj0).
      exists j0. split; [done|]. unfold job_ok, runs in Hj0. destruct (running j0); [|exact Hj0].
      destruct Hj0 as (t0 & (w & Hw0 & Hwi0 & Hwp) & Hc). exists t0. split; [|done]. exists w.
      split; [|done]. rewrite lookup_delete_ne; [done|]. intros <-. rewrite Hw in Hw0. simplify_eq.
  - intros k k' p' Hk Hk'. by apply (di_inj _ _ H k k' p'); apply Hsub.
  - intros t0 w Hw0. apply lookup_delete_Some in Hw0 as [Hne Hw0].
    destruct (di_worker _ _ H _ _ Hw0) as (J0 & S0 & j0 & K0 & R0 & C0 & O0).
    pose proof (Hwi _ _ Hw0 Hne) as Hi. split.
    { cbn [dq]. rewrite Ej. destruct dl; [by rewrite lookup_delete_ne|done]. }
    split; [done|]. exists j0. cbn [dq]. rewrite Eh, El, lookup_insert_ne by (intros Ep; by eapply Hp).
    split_and!; try done. unfold obsolete, ctx_done in *. cbn [dq]. by rewrite Ec.
  - rewrite map_size_delete_Some by eauto. pose proof (di_active _ _ H).
    assert (size (workers s) <> 0%nat) by (intros Hz; apply map_size_empty_inv in Hz; by rewrite Hz in Hw). lia.
  - pose proof (di_limit _ _ H). lia.
Qed.

Lemma work_end_ok now s t w err :
  dinv s -> workers s !! t = Some w ->
  exists q, work_end now (w_id w) (w_job w) (w_gen w) err (dq s) = Some q /\
    dinv (DState q (delete t (workers s)) (cancelled s) (started s)).
Proof.
  intros H Hw. destruct (di_worker _ _ H _ _ Hw) as (_ & _ & j & K & _ & C & _).
  unfold work_end. rewrite K, C. eexists. split; [done|].
  cbn [retired generation failures due collectionID live set_job add_active].
  pose proof (fun j' dl => ended_inv s t w j j' dl H Hw K) as Hend.
  destruct (retired j || negb (bool_decide (w_id w ∈ live (dq s))) || ctx_done _) eqn:Eb.
  { apply (Hend (Job (generation j) (due j) (failures j) false (retired j) None (collectionID j)) true); auto. }
  bools.
  assert (forall j1 j2, set_job (w_job w) j1 (add_active (-1) (set_job (w_job w) j2 (dq s)))
                        = add_active (-1) (set_job (w_job w) j1 (dq s))) as Hcol.
  { intros. unfold set_job, add_active. cbn. by rewrite insert_insert_eq. }
  destruct (negb (generation j =? w_gen w)).
  { change (Queue _ _ _ _ _ _) with (add_active (-1) (set_job (w_job w) (Job (generation j) (due j) (failures j) false (retired j) None (collectionID j)) (dq s))).
    rewrite Hcol. by apply (Hend (Job (generation j) now (failures j) false (retired j) None (collectionID j)) false); auto. }
  destruct err as [e|]; [destruct (is_stale e)|].
  - apply (Hend (Job (generation j) (due j) (failures j) false (retired j) None (collectionID j)) true); auto.
  - change (Queue _ _ _ _ _ _) with (add_active (-1) (set_job (w_job w) (Job (generation j) (due j) (failures j) false (retired j) None (collectionID j)) (dq s))).
    rewrite Hcol. by apply (Hend (Job (generation j) (TimeAdd now (deploy_backoff (failures j + 1))) (failures j + 1) false (retired j) None (collectionID j)) false); auto.
  - apply (Hend (Job (generation j) (due j) (failures j) false (retired j) None (collectionID j)) true); auto.
Qed.

(** Changing the phase of a worker. *)
Lemma dinv_phase s t w ph :
  dinv s -> workers s !! t = Some w ->
  dinv (set_worker t (Some (Worker (w_id w) (w_job w) (w_gen w) ph)) s).
Proof.
  intros H Hw. unfold set_worker. change (partial_alter _ t (workers s)) with (<[t := Worker (w_id w) (w_job w) (w_gen w) ph]> (workers s)).
  split; cbn; try apply H.
  - intros i p Hi. destruct (di_jobs _ _ H _ _ Hi) as (j & Ej & Hj). exists j. split; [done|].
    unfold job_ok, runs in *. cbn. destruct (running j); [|done]. destruct Hj as (t0 & (w0 & Hw0 & ? & ?) & ?).
    exists t0. split; [|done]. destruct (decide (t = t0)) as [<-|Hne].
    + simplify_eq. eexists. rewrite lookup_insert_eq. done.
    + exists w0. by rewrite lookup_insert_ne.
  - intros t0 w0 Hw0. apply lookup_insert_Some in Hw0 as [[<- <-]|[_ Hw0]].
    + exact (di_worker _ _ H _ _ Hw).
    + exact (di_worker _ _ H _ _ Hw0).
  - rewrite map_size_insert_Some by eauto. apply H.
Qed.

Lemma dinv_step s s' : dinv s -> dstep s s' -> dinv s'.
Proof.
  intros H Hs. destruct Hs as [s Hc|s current ids q c E|s current now id gen label q c E|s current now order Hc Hp
    |s t w err Hw _|s t w err o os Hw _|s t w err os Hw _ _|s t w err now q Hw _ E|s Hc].
  - split; try apply H. intros t w Hw. destruct (di_worker _ _ H _ _ Hw) as (J & S & j & K & R & C & O).
    split; [done|]. split; [done|]. exists j. split_and!; try done. unfold obsolete, ctx_done in *. cbn in *. by rewrite Hc in O.
  - by eapply queue_sync_inv.
  - by eapply request_inv.
  - apply pass_inv; [done| |].
    + rewrite Hp. apply NoDup_fst_map_to_list.
    + intros i p Hi. rewrite Hp in Hi. by apply elem_of_map_to_list.
  - by apply dinv_phase.
  - by apply dinv_phase.
  - by apply dinv_phase.
  - destruct (work_end_ok now s t w err H Hw) as (q' & E' & Hq). rewrite E in E'. by injection E' as <-.
  - split; try apply H. intros t w Hw. destruct (di_worker _ _ H _ _ Hw) as (J & S & j & K & R & C & O).
    split; [done|]. split; [done|]. exists j. split_and!; done.
Qed.

Lemma dinv_initial : dinv dinitial.
Proof. split; cbn; done. Qed.

Lemma dinv_reachable s : dreachable s -> dinv s.
Proof.
  intros Hr. assert (forall a b, rtc dstep a b -> dinv a -> dinv b) as H by (induction 1; eauto using dinv_step).
  eapply H; [exact Hr|apply dinv_initial].
Qed.

(** *** What a pass does *)

(** The wait of an idle job is accounted for: every slot is taken, or [run] sleeps no
    longer than the wait. *)
Definition attended (current : Z -> Z -> bool) (now : time) (s : dstate) (delay : duration) (i : Z) : Prop :=
  forall p j, jobs (dq s) !! i = Some p -> heap (dq s) !! p = Some j -> running j = false ->
  current i (generation j) = true /\
  (active (dq s) = agentDeploymentConcurrency \/ 0 < TimeSub (due j) now /\ delay <= TimeSub (due j) now).

Definition justified (current : Z -> Z -> bool) (now : time) (s : dstate) (w : worker) : Prop :=
  w_id w ∈ live (dq s) /\ current (w_id w) (w_gen w) = true /\
  exists j, jobs (dq s) !! w_id w = Some (w_job w) /\ heap (dq s) !! w_job w = Some j /\
    generation j = w_gen w /\ retired j = false /\ TimeSub (due j) now <= 0.

Record pass_ok (current : Z -> Z -> bool) (now : time) (s : dstate) (d : duration) (ids : list Z)
    (s' : dstate) (d' : duration) : Prop := {
  pa_live : live (dq s') = live (dq s);
  pa_active : active (dq s) <= active (dq s');
  pa_delay : d' <= d /\ (0 < d -> 0 < d');
  pa_new t w : workers s' !! t = Some w -> workers s !! t = Some w \/ w_id w ∈ ids /\ justified current now s w;
  pa_visited i : i ∈ ids -> attended current now s' d' i;
  pa_jobs i : (~ i ∈ ids) -> jobs (dq s') !! i = jobs (dq s) !! i;
  pa_heap i p : (~ i ∈ ids) -> jobs (dq s) !! i = Some p -> heap (dq s') !! p = heap (dq s) !! p }.

Lemma visit_ok current now s d i p s' d' :
  dinv s -> jobs (dq s) !! i = Some p -> visit_one current now (s, d) (i, p) = (s', d') ->
  pass_ok current now s d [i] s' d'.
Proof.
  intros H Hi E. unfold visit_one, visit in E. cbn [fst snd] in E.
  destruct (di_jobs _ _ H _ _ Hi) as (j & Ej & Hj). rewrite Ej in E.
  destruct (running j || retired j) eqn:Er.
  { injection E as <- <-. split; cbn; auto; try lia; try done.
    intros k ->%list_elem_of_singleton p' j' Hp' Hj' Hr. cbn in *. simplify_eq. unfold job_ok in Hj. rewrite Hr in *.
    destruct Hj as (_ & Ht & _). by rewrite Ht in Er. }
  bools. unfold job_ok in Hj. rewrite H0 in Hj. destruct Hj as (_ & _ & [[]|Hlive]).
  destruct (current i (generation j)) eqn:Ecur; cbn [negb] in E.
  - destruct (agentDeploymentConcurrency <=? active (dq s)) eqn:El.
    { injection E as <- <-. split; cbn; auto; try lia; try done. bools. pose proof (di_limit _ _ H).
      intros k ->%list_elem_of_singleton p' j' Hp' Hj' Hr. cbn in *. simplify_eq. split; [done|]. left. lia. }
    destruct (0 <? TimeSub (due j) now) eqn:Ew.
    { injection E as <- <-. bools. split; cbn; auto; try lia; try done.
      intros k ->%list_elem_of_singleton p' j' Hp' Hj' Hr. cbn in *. simplify_eq. split; [done|]. right. lia. }
    injection E as <- <-. bools. split; cbn; auto; try lia; try done.
    + intros t w Hw. apply lookup_insert_Some in Hw as [[_ <-]|[_ Hw]]; [|by left]. right. split; [left|]. split; [done|]. split; [done|].
      exists j. done.
    + intros k ->%list_elem_of_singleton p' j' Hp' Hj' Hr. cbn in *. assert (p' = p) as -> by congruence.
      rewrite lookup_insert_eq in Hj'. by simplify_eq.
    + intros k p' Hk Hp'. rewrite lookup_insert_ne; [done|]. intros <-. apply Hk. apply list_elem_of_singleton. by apply (di_inj _ _ H k i p).
  - injection E as <- <-. split; cbn; auto; try lia; try done.
    + intros k ->%list_elem_of_singleton p' j' Hp'. cbn in Hp'. by rewrite lookup_delete_eq in Hp'.
    + intros k Hk. rewrite lookup_delete_ne; [done|]. intros <-. apply Hk. left.
Qed.

Lemma attended_later current now s1 d1 s' d' ids i :
  pass_ok current now s1 d1 ids s' d' -> dinv s' -> (~ i ∈ ids) ->
  attended current now s1 d1 i -> attended current now s' d' i.
Proof.
  intros B H Hi Ha p j Hp Hj Hr. rewrite (pa_jobs _ _ _ _ _ _ _ B _ Hi) in Hp.
  rewrite (pa_heap _ _ _ _ _ _ _ B _ _ Hi Hp) in Hj. destruct (Ha _ _ Hp Hj Hr) as [Hc Hw]. split; [done|].
  pose proof (di_limit _ _ H). pose proof (pa_active _ _ _ _ _ _ _ B). pose proof (pa_delay _ _ _ _ _ _ _ B). lia.
Qed.

Lemma pass_trans current now s d i ids s1 d1 s' d' :
  (~ i ∈ ids) -> dinv s' -> pass_ok current now s d [i] s1 d1 -> pass_ok current now s1 d1 ids s' d' ->
  pass_ok current now s d (i :: ids) s' d'.
Proof.
  intros Hi H A B.
  assert (forall k, (~ k ∈ i :: ids) -> (~ k ∈ [i]) /\ (~ k ∈ ids)) as Hn by set_solver.
  split.
  - rewrite (pa_live _ _ _ _ _ _ _ B). apply A.
  - pose proof (pa_active _ _ _ _ _ _ _ A). pose proof (pa_active _ _ _ _ _ _ _ B). lia.
  - pose proof (pa_delay _ _ _ _ _ _ _ A) as [? ?]. pose proof (pa_delay _ _ _ _ _ _ _ B) as [? ?]. split; [lia|auto].
  - intros t w Hw. destruct (pa_new _ _ _ _ _ _ _ B t w Hw) as [Hw1|(Hk & Hl & Hc & j & Hj & Hp & Hrest)].
    + destruct (pa_new _ _ _ _ _ _ _ A t w Hw1) as [?|[? ?]]; [by left|right; split; [set_solver|done]].
    + right. split; [by right|]. rewrite (pa_live _ _ _ _ _ _ _ A) in Hl. split; [done|]. split; [done|]. exists j.
      assert (~ w_id w ∈ [i]) as Hni by (intros E%list_elem_of_singleton; by rewrite E in Hk).
      rewrite (pa_jobs _ _ _ _ _ _ _ A _ Hni) in Hj. by rewrite (pa_heap _ _ _ _ _ _ _ A _ _ Hni Hj) in Hp.
  - intros k [->|Hk]%elem_of_cons; [|by apply (pa_visited _ _ _ _ _ _ _ B)].
    eapply attended_later; [exact B|done|done|]. apply (pa_visited _ _ _ _ _ _ _ A). left.
  - intros k [? ?]%Hn. rewrite (pa_jobs _ _ _ _ _ _ _ B) by done. by apply (pa_jobs _ _ _ _ _ _ _ A).
  - intros k p [Hk1 Hk2]%Hn Hj. rewrite (pa_heap _ _ _ _ _ _ _ B k) by (rewrite ?(pa_jobs _ _ _ _ _ _ _ A); done).
    by apply (pa_heap _ _ _ _ _ _ _ A k).
Qed.

Lemma pass_result current now order : forall s d,
  dinv s -> NoDup order.*1 -> (forall i p, (i, p) ∈ order -> jobs (dq s) !! i = Some p) ->
  pass_ok current now s d order.*1 (foldl (visit_one current now) (s, d) order).1
    (foldl (visit_one current now) (s, d) order).2.
Proof.
  induction order as [|[i p] l IH]; intros s d H Hnd Hl.
  { split; cbn; auto; try lia. intros i Hi. by apply elem_of_nil in Hi. }
  pose proof (pass_inv current now _ s d H Hnd Hl) as Hend. cbn [foldl fmap list_fmap fst] in *.
  apply NoDup_cons in Hnd as [Hi Hnd].
  destruct (visit_one current now (s, d) (i, p)) as [s1 d1] eqn:E1.
  assert (jobs (dq s) !! i = Some p) as Hp by (apply Hl; left).
  pose proof (visit_ok current now s d i p s1 d1 H Hp E1) as A.
  destruct (visit_inv current now s d (i, p) s1 d1 H Hp E1) as [H1 H2].
  eapply pass_trans; [exact Hi|exact Hend|exact A|]. apply IH; [done|done|].
  intros k p' Hk. cbn in H2. rewrite H2; [apply Hl; by right|].
  intros ->. apply Hi. apply list_elem_of_fmap. by exists (i, p').
Qed.

(** ** The properties *)

(** In every interleaving of the queue's sections, synchronisations of the node list,
    requests, workers, invalidations and shutdown, the goroutines deploying agents are
    exactly as many as [active] says and at most four, and no two belong to one node.
    Each runs the job its node has, and unless the node is still wanted, under the
    generation the worker was started with, its context has been cancelled.  When it
    ends, its [cancel] function is never nil. *)
Theorem deployments_bounded s :
  dreachable s ->
  active (dq s) = Z.of_nat (size (workers s)) /\ active (dq s) <= 4 /\
  (forall t1 t2 w1 w2, workers s !! t1 = Some w1 -> workers s !! t2 = Some w2 -> w_id w1 = w_id w2 -> t1 = t2) /\
  (forall t w, workers s !! t = Some w ->
     exists j, jobs (dq s) !! w_id w = Some (w_job w) /\ heap (dq s) !! w_job w = Some j /\ running j = true /\
       (t ∈ cancelled s \/
        (retired j = false /\ generation j = w_gen w /\ w_id w ∈ live (dq s) /\ ctx_done (dq s) = false))) /\
  (forall t w now err, workers s !! t = Some w ->
     is_Some (work_end now (w_id w) (w_job w) (w_gen w) err (dq s))).
Proof.
  intros H%dinv_reachable. split_and!.
  - apply H.
  - apply (di_limit _ _ H).
  - intros t1 t2 w1 w2. by apply (worker_unique _ s t1 t2 w1 w2 H).
  - intros t w Hw. destruct (di_worker _ _ H _ _ Hw) as (J & S & j & K & R & C & O). exists j.
    split_and!; try done. destruct (decide (t ∈ cancelled s)) as [|Hn]; [by left|right].
    unfold obsolete in O. destruct (retired j), (ctx_done (dq s)); try (exfalso; apply Hn, O; by auto).
    destruct (decide (generation j = w_gen w)); [|exfalso; apply Hn, O; by auto].
    destruct (decide (w_id w ∈ live (dq s))); [done|exfalso; apply Hn, O; by auto].
  - intros t w now err Hw. destruct (work_end_ok now s t w err H Hw) as (q & -> & _). by eexists.
Qed.

(** One admission pass of [run], over the jobs in any order.  Every deployment it
    starts is of a node on the list, at the generation the pool still has, whose job is
    due and was not retired.  Every idle job that remains is of a current generation, and
    either all four slots are taken or [run] sleeps no longer than the job has to wait; it
    sleeps at least a nanosecond and at most a minute, so it neither spins nor forgets a
    job. *)
Theorem deployment_pass current now order s :
  dreachable s -> order ≡ₚ map_to_list (jobs (dq s)) ->
  let '(s', delay) := pass current now order s in
  0 < delay <= Minute /\
  (forall t w, workers s' !! t = Some w ->
     workers s !! t = Some w \/
     (w_id w ∈ live (dq s) /\ current (w_id w) (w_gen w) = true /\
      exists j, jobs (dq s) !! w_id w = Some (w_job w) /\ heap (dq s) !! w_job w = Some j /\
        generation j = w_gen w /\ retired j = false /\ TimeSub (due j) now <= 0)) /\
  (forall i p j, jobs (dq s) !! i = Some p -> jobs (dq s') !! i = Some p -> heap (dq s') !! p = Some j ->
     running j = false ->
     current i (generation j) = true /\
     (active (dq s') = 4 \/ 0 < TimeSub (due j) now /\ delay <= TimeSub (due j) now)).
Proof.
  intros H%dinv_reachable Hp. unfold pass.
  assert (NoDup order.*1) as Hnd by (rewrite Hp; apply NoDup_fst_map_to_list).
  assert (forall i p, (i, p) ∈ order <-> jobs (dq s) !! i = Some p) as Hin.
  { intros i p. rewrite Hp. apply elem_of_map_to_list. }
  pose proof (pass_result current now order s Minute H Hnd (fun i p => proj1 (Hin i p))) as B.
  destruct (foldl _ _ _) as [s' delay]. cbn [fst snd] in B. split_and!.
  - pose proof (pa_delay _ _ _ _ _ _ _ B) as [_ Hd]. apply Hd. done.
  - apply (pa_delay _ _ _ _ _ _ _ B).
  - intros t w Hw. destruct (pa_new _ _ _ _ _ _ _ B t w Hw) as [|[_ ?]]; auto.
  - intros i p j Hi Hi' Hj Hr. refine (pa_visited _ _ _ _ _ _ _ B i _ p j Hi' Hj Hr).
    apply list_elem_of_fmap. exists (i, p). by rewrite Hin.
Qed.

Lemma deploy_backoff_range failures :
  1 <= failures ->
  deploy_backoff failures = Z.min (deploy_retry * 2 ^ Z.min (failures - 1) 6) (5 * Minute) /\
  deploy_retry <= deploy_backoff failures <= 5 * Minute.
Proof.
  intros Hf. assert (exists k, Z.min (failures - 1) 6 = k /\ k ∈ [0; 1; 2; 3; 4; 5; 6]) as (k & E & Hk).
  { eexists. split; [done|]. rewrite !elem_of_cons. lia. }
  unfold deploy_backoff. rewrite E. clear E.
  repeat (apply elem_of_cons in Hk as [->|Hk]; [by vm_compute|]). by apply elem_of_nil in Hk.
Qed.

(** What the end of a deployment does with its job, by the error it returned.  A
    failure is retried after 5 s doubled per failure, up to 5 min, and nothing in that
    computation overflows; success, a stale generation found anywhere inside the error,
    a retired job, a node off the list or the end of the process forget the job; a job
    whose generation was replaced meanwhile is due at once, with its failures untouched. *)
Theorem deployment_error now s t w err q j :
  dreachable s -> workers s !! t = Some w -> heap (dq s) !! w_job w = Some j -> 0 <= failures j ->
  work_end now (w_id w) (w_job w) (w_gen w) err (dq s) = Some q ->
  active q = active (dq s) - 1 /\
  (if retired j || negb (bool_decide (w_id w ∈ live (dq s))) || ctx_done (dq s) then jobs q !! w_id w = None
   else if negb (generation j =? w_gen w) then
     jobs q !! w_id w = Some (w_job w) /\
     heap q !! w_job w = Some (Job (generation j) now (failures j) false false None (collectionID j))
   else match err with
        | None => jobs q !! w_id w = None
        | Some e =>
            if is_stale e then jobs q !! w_id w = None
            else
              let wait := Z.min (5 * Second * 2 ^ Z.min (failures j) 6) (5 * Minute) in
              5 * Second <= wait <= 5 * Minute /\ jobs q !! w_id w = Some (w_job w) /\
              heap q !! w_job w =
                Some (Job (generation j) (now + wait) (failures j + 1) false false None (collectionID j))
        end).
Proof.
  intros H%dinv_reachable Hw K Hf. destruct (di_worker _ _ H _ _ Hw) as (J & _ & j' & K' & _ & C & _).
  rewrite K in K'. injection K' as <-. unfold work_end. rewrite K, C. intros E. injection E as <-.
  destruct (deploy_backoff_range (failures j + 1) ltac:(lia)) as [Eb Hb]. rewrite Eb in Hb.
  replace (failures j + 1 - 1) with (failures j) in * by lia. change deploy_retry with (5 * Second) in *.
  change (ctx_done (add_active _ _)) with (ctx_done (dq s)).
  cbn [retired generation failures due collectionID live set_job add_active].
  destruct (retired j || _ || _) eqn:Ed; [split; [cbn; lia|apply lookup_delete_eq]|]. bools.
  destruct (generation j =? w_gen w); cbn [negb].
  - destruct err as [e|]; [destruct (is_stale e)|]; (split; [cbn; lia|]); try apply lookup_delete_eq.
    cbn zeta. split; [exact Hb|]. split; [done|]. cbn. rewrite lookup_insert_eq. rewrite Eb. by rewrite H0.
  - split; [cbn; lia|]. split; [done|]. cbn. rewrite lookup_insert_eq. by rewrite H0.
Qed.

(** ** Witnesses

    The queue is started, node 1 is on the list, and its deployment at generation 7 has
    been requested ([demo_requested]) and admitted ([demo_admitted]). *)
Definition demo_pool (id gen : Z) : bool := (id =? 1) && (gen =? 7).
Definition demo_synced : dstate :=
  let q := sync demo_pool [1] (start newAgentDeploymentQueue) ∅ in DState q.1 ∅ q.2 ∅.
Definition demo_requested : dstate :=
  let q := request demo_pool 100 1 7 ["collection-9"%string] (dq demo_synced) ∅ in DState q.1 ∅ q.2 ∅.
Definition demo_order : list (Z * nat) := [(1, 0%nat)].
Definition demo_admitted : dstate := (pass demo_pool 200 demo_order demo_requested).1.
Definition demo_worker : worker := Worker 1 0 7 Executing.

Lemma demo_requested_reachable : dreachable demo_requested.
Proof.
  apply (rtc_l _ _ (DState (start newAgentDeploymentQueue) ∅ ∅ ∅)); [by apply (DStart dinitial)|].
  apply (rtc_l _ _ demo_synced).
  { exact (DSync (DState (start newAgentDeploymentQueue) ∅ ∅ ∅) demo_pool [1] _ _ (surjective_pairing _)). }
  apply rtc_once. exact (DRequest demo_synced demo_pool 100 1 7 ["collection-9"%string] _ _ (surjective_pairing _)).
Qed.

Lemma demo_admitted_reachable : dreachable demo_admitted.
Proof.
  eapply rtc_r; [apply demo_requested_reachable|]. apply DPass; [done|by vm_compute].
Qed.

Lemma deployments_bounded_witness :
  dreachable demo_admitted /\ workers demo_admitted !! 0%nat = Some demo_worker /\
  active (dq demo_admitted) = Z.of_nat (size (workers demo_admitted)).
Proof.
  split; [apply demo_admitted_reachable|]. split; [by vm_compute|].
  apply (deployments_bounded demo_admitted demo_admitted_reachable).
Defined.

Lemma deployment_pass_witness :
  let '(s', delay) := pass demo_pool 200 demo_order demo_requested in
  size (workers s') = 1%nat /\ 0 < delay <= Minute.
Proof.
  pose proof (deployment_pass demo_pool 200 demo_order demo_requested demo_requested_reachable
                ltac:(by vm_compute)) as H.
  assert (size (workers (pass demo_pool 200 demo_order demo_requested).1) = 1%nat) as Hs by (by vm_compute).
  destruct (pass _ _ _ _) as [s' delay]. split; [exact Hs|apply H].
Defined.

Lemma deployment_error_witness :
  exists q j, work_end 300 1 0 7 (Some (Join [Leaf false; Wrap (Pending 3)])) (dq demo_admitted) = Some q /\
    heap q !! 0%nat = Some j /\ due j = 300 + 5 * Second /\ failures j = 1.
Proof.
  destruct (work_end 300 1 0 7 (Some (Join [Leaf false; Wrap (Pending 3)])) (dq demo_admitted)) as [q|] eqn:E;
    [|by vm_compute in E].
  pose proof (deployment_error 300 demo_admitted 0 demo_worker (Some (Join [Leaf false; Wrap (Pending 3)])) q
    (Job 7 100 0 true false (Some 0%nat) "collection-9") demo_admitted_reachable ltac:(by vm_compute)
    ltac:(by vm_compute) ltac:(done) E) as [_ H].
  change (_ || _) with false in H.
  exists q. eexists. split; [done|]. split; [apply (proj2 (proj2 H))|]. by vm_compute.
Defined.
