(* ===== verification/InstallJobs.v ===== *)
(** * Installations of the resident agent and the removal fence

    [service/resident_scheduler.go], the reconciliation and the fence of
    [service/resident_deploy.go], and [Delete] of [service/server.go].  Installers of the
    resident agent run in goroutines, at most one per node; deleting a server has to stop
    and join the installer of its node, keep new ones out while it uninstalls the agent,
    and keep out those a reconciliation decided on before the deletion.  The functions
    below are the sections the code runs under [installJobsMu]; [istep] interleaves them
    with the installers, the slots they wait for, changes of settings and of the node
    list, deletions and the shutdown.  A goroutine's [done] channel and context are named
    by the goroutine, a fence's channel by the deletion that made it. *)

From S2P Require Import Prelude.

Definition residentMaxInstallJobs : Z := 16.
Definition residentTransferRetryDelay : duration := 30 * Second.
Definition residentBusyShortRetries : Z := 5.
Definition stage_capacity : Z := 4.

Record residentJob := ResidentJob { job_op : nat; job_hash : string }.
Record residentRetry := ResidentRetry { rkey : string; failures : Z; busy : Z; due : time }.
Definition no_retry : residentRetry := ResidentRetry "" 0 0 zero_time.

(** What [run] returned, seen through [errors.Is]. *)
Inductive install_result := Installed | InstallFailed (canceled progress pull_busy : bool).

(** Where an installer stands: waiting for a transfer slot, holding one, waiting for an
    activation slot, holding one, or about to execute its final section. *)
Inductive istage := Queued | Transferring | AwaitActivation | Activating | Returned (err : install_result).
Record installer := Installer { in_node : Z; in_epoch : Z; in_key : string; in_retry : residentRetry; in_stage : istage }.
Definition in_transfer (w : installer) : bool := match in_stage w with Transferring => true | _ => false end.
Definition in_activation (w : installer) : bool := match in_stage w with Activating => true | _ => false end.

(** A deletion ([ServerService.Delete] with its [residentRemoval]). *)
Inductive rphase :=
| RTrying
| RWaiting (other : nat)
| RRefused
| RFenced (job : option nat)
| RJoining (job : nat)
| RPrepared (ok : bool)
| RCommitted (ok : bool)
| RUninstalling
| RClosed.
Record removal := Removal { r_id : Z; r_phase : rphase }.

(** [bumps] counts the increments of [installEpoch], which wraps. *)
Record istate := IState {
  installJobs : gmap Z residentJob;
  installRetries : gmap Z residentRetry;
  removing : gmap Z nat;
  installEpoch : Z;
  bumps : Z;
  transferSlots : Z;
  activationSlots : Z;
  iwake : bool;
  installers : gmap nat installer;
  issued : gset nat;
  icancelled : gset nat;
  removals : gmap nat removal }.

Definition with_jobs (m : gmap Z residentJob) (s : istate) : istate :=
  IState m (installRetries s) (removing s) (installEpoch s) (bumps s) (transferSlots s) (activationSlots s)
    (iwake s) (installers s) (issued s) (icancelled s) (removals s).
Definition with_retries (m : gmap Z residentRetry) (s : istate) : istate :=
  IState (installJobs s) m (removing s) (installEpoch s) (bumps s) (transferSlots s) (activationSlots s)
    (iwake s) (installers s) (issued s) (icancelled s) (removals s).
Definition with_removing (m : gmap Z nat) (s : istate) : istate :=
  IState (installJobs s) (installRetries s) m (installEpoch s) (bumps s) (transferSlots s) (activationSlots s)
    (iwake s) (installers s) (issued s) (icancelled s) (removals s).
(** [m.installEpoch++] on a [uint64]. *)
Definition bump (s : istate) : istate :=
  IState (installJobs s) (installRetries s) (removing s) (wrapu64 (installEpoch s + 1)) (bumps s + 1)
    (transferSlots s) (activationSlots s) (iwake s) (installers s) (issued s) (icancelled s) (removals s).
Definition take_slots (transfer activation : Z) (s : istate) : istate :=
  IState (installJobs s) (installRetries s) (removing s) (installEpoch s) (bumps s) (transferSlots s + transfer)
    (activationSlots s + activation) (iwake s) (installers s) (issued s) (icancelled s) (removals s).
Definition NotifyTopologyChange (s : istate) : istate :=
  IState (installJobs s) (installRetries s) (removing s) (installEpoch s) (bumps s) (transferSlots s)
    (activationSlots s) true (installers s) (issued s) (icancelled s) (removals s).
Definition with_installer (t : nat) (o : option installer) (s : istate) : istate :=
  IState (installJobs s) (installRetries s) (removing s) (installEpoch s) (bumps s) (transferSlots s)
    (activationSlots s) (iwake s) (partial_alter (fun _ => o) t (installers s)) ({[t]} ∪ issued s) (icancelled s)
    (removals s).
Definition cancel_ops (ts : gset nat) (s : istate) : istate :=
  IState (installJobs s) (installRetries s) (removing s) (installEpoch s) (bumps s) (transferSlots s)
    (activationSlots s) (iwake s) (installers s) (issued s) (ts ∪ icancelled s) (removals s).
Definition with_removal (r : nat) (v : removal) (s : istate) : istate :=
  IState (installJobs s) (installRetries s) (removing s) (installEpoch s) (bumps s) (transferSlots s)
    (activationSlots s) (iwake s) (installers s) (issued s) (icancelled s) (<[r := v]> (removals s)).

(** ** Admission of an installer *)

Definition retry_of (s : istate) (id : Z) : residentRetry := default no_retry (installRetries s !! id).

(** The two tests of [scheduleInstall]: the fence, and the retry policy. *)
Definition install_fenced (ctx_done : bool) (id epoch : Z) (s : istate) : bool :=
  bool_decide (is_Some (installJobs s !! id)) || bool_decide (is_Some (removing s !! id)) ||
  negb (epoch =? installEpoch s) || (residentMaxInstallJobs <=? Z.of_nat (size (installJobs s))) || ctx_done.
Definition install_early (now : time) (id : Z) (lastAttempt : option time) (key : string) (s : istate) : bool :=
  let retry := retry_of s id in
  if bool_decide (rkey retry = key) then Before now (due retry)
  else bool_decide (rkey retry = ""%string) &&
       match lastAttempt with Some last => TimeSub now last <? Minute | None => false end.

Definition scheduleInstall (ctx_done : bool) (now : time) (id : Z) (hash : string) (lastAttempt : option time)
    (epoch : Z) (key : string) (s : istate) : istate * bool :=
  if install_fenced ctx_done id epoch s then (s, false)
  else if install_early now id lastAttempt key s then (s, false)
  else
    let t := fresh (issued s) in
    (with_installer t (Some (Installer id epoch key (retry_of s id) Queued))
       (with_jobs (<[id := ResidentJob t hash]> (installJobs s)) s), true).

(** [residentRetryDelay], with the random number it draws from [0, n). *)
Definition residentRetryDelay (rand : Z -> Z) (failures : Z) : duration :=
  let base := Z.min (wrap64 (Minute * wrap64 (Z.shiftl 1 (Z.min (Z.max (failures - 1) 0) 4)))) (10 * Minute) in
  base + rand (base / 2 + 1).

(** The retry an installer that failed leaves. *)
Definition next_retry (rand : Z -> Z) (now : time) (key : string) (retry : residentRetry) (progress pull_busy : bool) :
    residentRetry :=
  let retry := if bool_decide (rkey retry = key) then retry else ResidentRetry key 0 0 zero_time in
  let '(failures', busy', delay) :=
    if progress then (failures retry, 0, residentTransferRetryDelay)
    else if pull_busy then
      let b := busy retry + 1 in
      (failures retry, b,
       if residentBusyShortRetries <? b then residentRetryDelay rand (b - residentBusyShortRetries)
       else residentTransferRetryDelay)
    else let f := failures retry + 1 in (f, 0, residentRetryDelay rand f) in
  ResidentRetry (rkey retry) failures' busy' (TimeAdd now delay).

(** The final section of an installer. *)
Definition install_end (rand : Z -> Z) (now : time) (t : nat) (w : installer) (err : install_result) (s : istate) :
    istate :=
  let id := in_node w in
  let forget := with_retries (delete id (installRetries s)) s in
  let s :=
    match err with
    | Installed => forget
    | InstallFailed canceled progress pull_busy =>
        if canceled || negb (in_epoch w =? installEpoch s) || bool_decide (is_Some (removing s !! id)) then forget
        else with_retries (<[id := next_retry rand now (in_key w) (in_retry w) progress pull_busy]> (installRetries s)) s
    end in
  NotifyTopologyChange (with_installer t None (with_jobs (delete id (installJobs s)) s)).

(** ** Stages *)

Definition at_stage (t : nat) (w : installer) (st : istage) (s : istate) : istate :=
  with_installer t (Some (Installer (in_node w) (in_epoch w) (in_key w) (in_retry w) st)) s.

(** [beginInstall] once the transfer slot is free. *)
Definition beginInstall (t : nat) (w : installer) (s : istate) : istate :=
  at_stage t w Transferring (take_slots 1 0 s).
(** [beginActivation]: the transfer slot is returned, then the activation slot taken. *)
Definition beginActivation (t : nat) (w : installer) (s : istate) : istate :=
  at_stage t w AwaitActivation (take_slots (if in_transfer w then -1 else 0) 0 s).
Definition activate (t : nat) (w : installer) (s : istate) : istate :=
  at_stage t w Activating (take_slots 0 1 s).
(** [finish], after the installer's lease has been released and joined. *)
Definition finish (t : nat) (w : installer) (err : install_result) (s : istate) : istate :=
  at_stage t w (Returned err)
    (take_slots (if in_transfer w then -1 else 0) (if in_activation w then -1 else 0) s).

(** ** Cancellation *)

(** The operations of the jobs that pass a test. *)
Definition job_ops (test : Z -> residentJob -> bool) (s : istate) : gset nat :=
  list_to_set (job_op <$> (filter (fun ij => test ij.1 ij.2 = true) (map_to_list (installJobs s))).*2).

(** The settings changed: a new epoch, and every job is cancelled. *)
Definition settings_changed (s : istate) : istate := cancel_ops (job_ops (fun _ _ => true) (bump s)) (bump s).
(** The node's credential changed. *)
Definition credential_changed (id : Z) (hash : string) (s : istate) : istate :=
  match installJobs s !! id with
  | Some j => if bool_decide (job_hash j = hash) then s else cancel_ops {[job_op j]} s
  | None => s
  end.
(** Nodes that are gone: their jobs are cancelled and their retries forgotten. *)
Definition nodes_gone (live : gset Z) (s : istate) : istate :=
  with_retries (filter (fun ir => ir.1 ∈ live) (installRetries s))
    (cancel_ops (job_ops (fun i _ => negb (bool_decide (i ∈ live))) s) s).
Definition shutdown (s : istate) : istate := cancel_ops (issued s) s.

(** ** The fence *)

Definition installAllowed (id epoch : Z) (s : istate) : bool :=
  negb (bool_decide (is_Some (removing s !! id))) && (installEpoch s =? epoch).

(** One iteration of [fenceRemoval]. *)
Definition fenceRemoval (ctx_done : bool) (r : nat) (id : Z) (s : istate) : istate :=
  match removing s !! id with
  | Some other => with_removal r (Removal id (RWaiting other)) s
  | None =>
      if ctx_done then with_removal r (Removal id RRefused) s
      else with_removal r (Removal id (RFenced (job_op <$> installJobs s !! id)))
             (bump (with_removing (<[id := r]> (removing s)) s))
  end.

(** [job.cancel()], and the wait for [job.done]. *)
Definition fence_cancel (r : nat) (id : Z) (job : option nat) (s : istate) : istate :=
  match job with
  | Some t => with_removal r (Removal id (RJoining t)) (cancel_ops {[t]} s)
  | None => s
  end.

(** [Close] of the removal. *)
Definition removal_close (r : nat) (id : Z) (s : istate) : istate :=
  with_removal r (Removal id RClosed)
    (NotifyTopologyChange (bump (with_removing (delete id (removing s)) s))).

(** [Delete] when the fence could not be acquired, by what [FindByID] answers. *)
Inductive found := Found | NotFound | FindError.
Inductive delete_answer := DeleteOk | DeleteConflict | DeleteError.
Definition delete_refused (f : found) : delete_answer :=
  match f with NotFound => DeleteOk | FindError => DeleteError | Found => DeleteConflict end.

(** ** All goroutines together *)

(** The goroutine [t] is at stage [st]; the deletion [r] is in phase [ph]. *)
Definition stage_at (s : istate) (t : nat) (w : installer) (st : istage) : Prop :=
  installers s !! t = Some w /\ in_stage w = st.
Definition phase_at (s : istate) (r : nat) (id : Z) (ph : rphase) : Prop := removals s !! r = Some (Removal id ph).

Inductive istep : istate -> istate -> Prop :=
| ISchedule s ctx_done now id hash lastAttempt epoch key :
    istep s (scheduleInstall ctx_done now id hash lastAttempt epoch key s).1
| IBegin s t w : stage_at s t w Queued -> transferSlots s < stage_capacity -> istep s (beginInstall t w s)
| IToActivation s t w : stage_at s t w Transferring -> istep s (beginActivation t w s)
| IActivate s t w :
    stage_at s t w AwaitActivation -> activationSlots s < stage_capacity -> istep s (activate t w s)
| IFinish s t w err :
    installers s !! t = Some w -> (forall e, in_stage w <> Returned e) ->
    (in_stage w = Queued -> t ∈ icancelled s) -> istep s (finish t w err s)
| IEnd s rand now t w err : stage_at s t w (Returned err) -> istep s (install_end rand now t w err s)
| ISettings s : istep s (settings_changed s)
| ICredential s id hash : istep s (credential_changed id hash s)
| INodes s live : istep s (nodes_gone live s)
| IShutdown s : istep s (shutdown s)
| RBegin s r id : removals s !! r = None -> istep s (with_removal r (Removal id RTrying) s)
| RTry s r id ctx_done : phase_at s r id RTrying -> istep s (fenceRemoval ctx_done r id s)
| RWake s r id other v :
    phase_at s r id (RWaiting other) -> removals s !! other = Some v -> r_phase v = RClosed ->
    istep s (with_removal r (Removal id RTrying) s)
| RWaitRefused s r id other : phase_at s r id (RWaiting other) -> istep s (with_removal r (Removal id RRefused) s)
| RCancel s r id t : phase_at s r id (RFenced (Some t)) -> istep s (fence_cancel r id (Some t) s)
| RIdle s r id ok : phase_at s r id (RFenced None) -> istep s (with_removal r (Removal id (RPrepared ok)) s)
| RJoined s r id t ok :
    phase_at s r id (RJoining t) -> installers s !! t = None -> istep s (with_removal r (Removal id (RPrepared ok)) s)
| RGiveUp s r id t : phase_at s r id (RJoining t) -> istep s (with_removal r (Removal id (RPrepared false)) s)
| RCommit s r id ok : phase_at s r id (RPrepared ok) -> istep s (with_removal r (Removal id (RCommitted ok)) s)
| RUninstall s r id : phase_at s r id (RCommitted true) -> istep s (with_removal r (Removal id RUninstalling) s)
| RReject s r id ok : phase_at s r id (RPrepared ok) -> istep s (removal_close r id s)
| RSkip s r id ok : phase_at s r id (RCommitted ok) -> istep s (removal_close r id s)
| RDone s r id : phase_at s r id RUninstalling -> istep s (removal_close r id s).

Definition iinitial : istate := IState ∅ ∅ ∅ 0 0 0 0 false ∅ ∅ ∅ ∅.
Definition ireachable : istate -> Prop := rtc istep iinitial.

(** ** The invariant *)

(** The phases between acquiring the fence and releasing it. *)
Definition owns (ph : rphase) : bool :=
  match ph with RFenced _ | RJoining _ | RPrepared _ | RCommitted _ | RUninstalling => true | _ => false end.
(** The fence has joined the installer: the agent is the deletion's alone. *)
Definition joined (ph : rphase) : bool :=
  match ph with RPrepared true | RCommitted true | RUninstalling => true | _ => false end.
(** Which operation may still be installing on the node. *)
Definition admits (ph : rphase) (t : nat) : Prop :=
  match ph with
  | RFenced job => job = Some t
  | RJoining t' => t = t'
  | _ => joined ph = false
  end.

Record jobs_inv (s : istate) : Prop := {
  ji_job i j : installJobs s !! i = Some j -> exists w, installers s !! job_op j = Some w /\ in_node w = i;
  ji_inst t w : installers s !! t = Some w ->
    t ∈ issued s /\ exists j, installJobs s !! in_node w = Some j /\ job_op j = t;
  ji_size : Z.of_nat (size (installJobs s)) <= residentMaxInstallJobs;
  ji_transfer : transferSlots s = count_map in_transfer (installers s);
  ji_activation : activationSlots s = count_map in_activation (installers s);
  ji_capacity : transferSlots s <= stage_capacity /\ activationSlots s <= stage_capacity }.

Record fence_inv (s : istate) : Prop := {
  fi_own r id ph : phase_at s r id ph -> owns ph = true -> removing s !! id = Some r;
  fi_fence id r : removing s !! id = Some r -> exists ph, phase_at s r id ph /\ owns ph = true;
  fi_epoch : installEpoch s = wrapu64 (bumps s) }.

Record join_inv (s : istate) : Prop := {
  oi_join r id ph t w : phase_at s r id ph -> installers s !! t = Some w -> in_node w = id ->
    admits ph t \/ owns ph = false;
  oi_told r id t : phase_at s r id (RJoining t) -> t ∈ icancelled s }.

(** *** Jobs and slots *)

Lemma jobs_inv_stage s t w st da dt :
  jobs_inv s -> installers s !! t = Some w ->
  dt = (if in_transfer (Installer (in_node w) (in_epoch w) (in_key w) (in_retry w) st) then 1 else 0)
       - (if in_transfer w then 1 else 0) ->
  da = (if in_activation (Installer (in_node w) (in_epoch w) (in_key w) (in_retry w) st) then 1 else 0)
       - (if in_activation w then 1 else 0) ->
  transferSlots s + dt <= stage_capacity -> activationSlots s + da <= stage_capacity ->
  jobs_inv (at_stage t w st (take_slots dt da s)).
Proof.
  intros H Hw Edt Eda Hdt Hda. unfold at_stage, with_installer, take_slots. cbn.
  set (w' := Installer _ _ _ _ st) in *. split; cbn.
  - intros i j Hj. destruct (ji_job _ H i j Hj) as (w0 & Hw0 & Hi).
    destruct (decide (job_op j = t)) as [E|E].
    + exists w'. rewrite E in *. split; [by rewrite lookup_partial_alter_eq|]. assert (w0 = w) by congruence. by subst.
    + exists w0. by rewrite lookup_partial_alter_ne.
  - intros t0 w0 Hw0. destruct (decide (t = t0)) as [<-|E].
    + rewrite lookup_partial_alter_eq in Hw0. simplify_eq/=. split; [set_solver|]. by apply (ji_inst _ H).
    + rewrite lookup_partial_alter_ne in Hw0 by done. destruct (ji_inst _ H _ _ Hw0). split; [set_solver|done].
  - apply H.
  - rewrite (count_map_set _ _ t (Some w')), Hw. cbn [weight]. rewrite (ji_transfer _ H). lia.
  - rewrite (count_map_set _ _ t (Some w')), Hw. cbn [weight]. rewrite (ji_activation _ H). lia.
  - done.
Qed.

Lemma jobs_inv_schedule s id epoch key retry hash :
  jobs_inv s -> installJobs s !! id = None -> Z.of_nat (size (installJobs s)) < residentMaxInstallJobs ->
  let t := fresh (issued s) in
  jobs_inv (with_installer t (Some (Installer id epoch key retry Queued))
              (with_jobs (<[id := ResidentJob t hash]> (installJobs s)) s)).
Proof.
  intros H Hid Hlt t. assert (t ∉ issued s) as Hf by apply is_fresh.
  assert (installers s !! t = None) as Ht.
  { destruct (installers s !! t) eqn:E; [|done]. by destruct (ji_inst _ H _ _ E). }
  unfold with_installer, with_jobs. split; cbn.
  - intros i j Hj. apply lookup_insert_Some in Hj as [[<- <-]|[Hne Hj]].
    + cbn. eexists. split; [by rewrite lookup_partial_alter_eq|done].
    + destruct (ji_job _ H i j Hj) as (w & Hw & Hi). exists w. split; [|done].
      rewrite lookup_partial_alter_ne; [done|]. intros E. rewrite E in Ht. congruence.
  - intros t0 w Hw. destruct (decide (t = t0)) as [<-|E].
    + rewrite lookup_partial_alter_eq in Hw. simplify_eq/=. split; [set_solver|]. cbn.
      eexists. split; [apply lookup_insert_eq|done].
    + rewrite lookup_partial_alter_ne in Hw by done. destruct (ji_inst _ H _ _ Hw) as [? (j & Hj & Hop)].
      split; [set_solver|]. exists j. split; [|done]. rewrite lookup_insert_ne; [done|]. intros Ei. rewrite Ei in Hid. congruence.
  - rewrite map_size_insert_None by done. lia.
  - rewrite (count_map_set _ _ t (Some _)), Ht. cbn [weight]. rewrite (ji_transfer _ H). cbn. lia.
  - rewrite (count_map_set _ _ t (Some _)), Ht. cbn [weight]. rewrite (ji_activation _ H). cbn. lia.
  - apply H.
Qed.

Lemma jobs_inv_end s t w :
  jobs_inv s -> installers s !! t = Some w -> in_transfer w = false -> in_activation w = false ->
  jobs_inv (with_installer t None (with_jobs (delete (in_node w) (installJobs s)) s)).
Proof.
  intros H Hw Et Ea. destruct (ji_inst _ H _ _ Hw) as [Hi (j0 & Hj0 & Hop0)].
  unfold with_installer, with_jobs. split; cbn.
  - intros i j [Hne Hj]%lookup_delete_Some. destruct (ji_job _ H i j Hj) as (w0 & Hw0 & Hi0). exists w0.
    split; [|done]. rewrite lookup_partial_alter_ne; [done|]. intros E. apply Hne. rewrite <- E, Hw in Hw0. congruence.
  - intros t0 w0 Hw0. destruct (decide (t = t0)) as [<-|E].
    { by rewrite lookup_partial_alter_eq in Hw0. }
    rewrite lookup_partial_alter_ne in Hw0 by done. destruct (ji_inst _ H _ _ Hw0) as [? (j & Hj & Hop)].
    split; [set_solver|]. exists j. split; [|done]. rewrite lookup_delete_ne; [done|]. intros Ei. rewrite Ei in Hj0. congruence.
  - rewrite map_size_delete_Some by eauto. pose proof (ji_size _ H). lia.
  - rewrite (count_map_set _ _ t None), Hw. cbn [weight]. rewrite (ji_transfer _ H), Et. lia.
  - rewrite (count_map_set _ _ t None), Hw. cbn [weight]. rewrite (ji_activation _ H), Ea. lia.
  - apply H.
Qed.

(** The slots a change of stage takes or returns. *)
Ltac slot_counts E :=
  try done; cbn; unfold in_transfer, in_activation, stage_capacity in *; rewrite ?E in *; lia.

Lemma jobs_inv_step s s' : jobs_inv s -> istep s s' -> jobs_inv s'.
Proof.
  intros H Hs. pose proof (ji_capacity _ H) as Hcap. unfold stage_capacity in *.
  destruct Hs as [s cd now id hash la ep key|s t w [Hw E]|s t w [Hw E]|s t w [Hw E]|s t w err Hw Hns _
    |s rand now t w err [Hw E]|s|s id hash| | | | | | | | | | | | | | |]; try (split; apply H).
  - unfold scheduleInstall. splits; try done; cbn [fst]. unfold install_fenced in *. bools.
    apply jobs_inv_schedule; [done| |lia]. by apply eq_None_not_Some.
  - apply jobs_inv_stage; slot_counts E.
  - apply jobs_inv_stage; slot_counts E.
  - apply jobs_inv_stage; slot_counts E.
  - apply jobs_inv_stage; destruct (in_stage w) eqn:E; slot_counts E.
  - unfold install_end.
    assert (in_transfer w = false /\ in_activation w = false) as [? ?] by (unfold in_transfer, in_activation; by rewrite E).
    pose proof (jobs_inv_end s t w H Hw) as He.
    destruct err; [|destruct (_ || _)]; split; by apply He.
  - unfold credential_changed. splits; split; apply H.
  - unfold fenceRemoval. splits; split; apply H.
Qed.

(** *** The fence *)

Lemma phase_with s r v r' id ph :
  phase_at (with_removal r v s) r' id ph <-> (r' = r /\ v = Removal id ph) \/ (r' <> r /\ phase_at s r' id ph).
Proof.
  unfold phase_at, with_removal. cbn. rewrite lookup_insert_Some. naive_solver.
Qed.

Lemma fence_inv_phase s r id ph ph' :
  fence_inv s -> phase_at s r id ph -> owns ph' = owns ph -> fence_inv (with_removal r (Removal id ph') s).
Proof.
  intros H Hp Ho. split; [| |apply H].
  - intros r' id' ph0 [[-> E]|[_ Hp']]%phase_with Ho'; [|by apply (fi_own _ H r' id' ph0)].
    injection E as <- <-. rewrite Ho in Ho'. by apply (fi_own _ H r id ph).
  - intros i r' Hr. destruct (fi_fence _ H i r' Hr) as (ph0 & Hp0 & Ho0).
    destruct (decide (r' = r)) as [->|Hne].
    + unfold phase_at in Hp, Hp0. rewrite Hp in Hp0. injection Hp0 as <- <-.
      exists ph'. split; [apply phase_with; by left|by rewrite Ho].
    + exists ph0. split; [apply phase_with; by right|done].
Qed.

Lemma fence_inv_begin s r id :
  fence_inv s -> removals s !! r = None -> fence_inv (with_removal r (Removal id RTrying) s).
Proof.
  intros H Hn. split; [| |apply H].
  - intros r' id' ph0 [[-> E]|[_ Hp']]%phase_with Ho'; [by simplify_eq|by apply (fi_own _ H r' id' ph0)].
  - intros i r' Hr. destruct (fi_fence _ H i r' Hr) as (ph0 & Hp0 & Ho0). exists ph0. split; [|done].
    apply phase_with. right. split; [|done]. intros ->. unfold phase_at in Hp0. congruence.
Qed.

Lemma fence_inv_frame s s' :
  removing s' = removing s -> removals s' = removals s -> installEpoch s' = wrapu64 (bumps s') ->
  fence_inv s -> fence_inv s'.
Proof.
  intros Er Ev Ee H. split; [| |done]; unfold phase_at; rewrite Er, Ev; [apply (fi_own _ H)|apply (fi_fence _ H)].
Qed.

Lemma bump_epoch s : installEpoch s = wrapu64 (bumps s) -> installEpoch (bump s) = wrapu64 (bumps (bump s)).
Proof. intros E. cbn. rewrite E. unfold wrapu64. by rewrite Zplus_mod_idemp_l. Qed.

Lemma fence_inv_acquire s r id job :
  fence_inv s -> phase_at s r id RTrying -> removing s !! id = None ->
  fence_inv (with_removal r (Removal id (RFenced job)) (bump (with_removing (<[id := r]> (removing s)) s))).
Proof.
  intros H Hp Hn. split; [| |by apply bump_epoch, (fi_epoch _ H)].
  - intros r' id' ph0 [[-> E]|[Hne Hp']]%phase_with Ho'; cbn.
    + injection E as <- <-. apply lookup_insert_eq.
    + pose proof (fi_own _ H r' id' ph0 Hp' Ho') as Hr. rewrite lookup_insert_ne; [done|]. intros <-. congruence.
  - intros i r' Hr. cbn in Hr. apply lookup_insert_Some in Hr as [[<- <-]|[Hne Hr]].
    + eexists. split; [apply phase_with; by left|done].
    + destruct (fi_fence _ H i r' Hr) as (ph0 & Hp0 & Ho0). exists ph0. split; [|done].
      apply phase_with. right. split; [|done]. intros ->. unfold phase_at in Hp, Hp0. rewrite Hp in Hp0. by simplify_eq.
Qed.

Lemma fence_inv_close s r id ph :
  fence_inv s -> phase_at s r id ph -> owns ph = true -> fence_inv (removal_close r id s).
Proof.
  intros H Hp Ho. pose proof (fi_own _ H r id ph Hp Ho) as Hr. unfold removal_close.
  split; [| |by apply bump_epoch, (fi_epoch _ H)].
  - intros r' id' ph0 [[-> E]|[Hne Hp']]%phase_with Ho'; [by simplify_eq|]. cbn.
    pose proof (fi_own _ H r' id' ph0 Hp' Ho') as Hr'. rewrite lookup_delete_ne; [done|]. intros <-. congruence.
  - intros i r' Hr'. cbn in Hr'. apply lookup_delete_Some in Hr' as [Hne Hr'].
    destruct (fi_fence _ H i r' Hr') as (ph0 & Hp0 & Ho0). exists ph0. split; [|done].
    apply phase_with. right. split; [|done]. intros ->. unfold phase_at in Hp, Hp0. rewrite Hp in Hp0. by simplify_eq.
Qed.

Lemma fence_inv_step s s' : fence_inv s -> istep s s' -> fence_inv s'.
Proof.
  intros H Hs. pose proof (fi_epoch _ H) as He.
  destruct Hs; try (by (eapply fence_inv_frame; [..|exact H])); try (by eapply fence_inv_phase);
    try (by eapply fence_inv_close).
  - unfold scheduleInstall. splits; try done. by apply (fence_inv_frame s).
  - unfold install_end. destruct err; [|destruct (_ || _)]; by apply (fence_inv_frame s).
  - apply (fence_inv_frame s); try done. by apply bump_epoch.
  - unfold credential_changed. splits; try done. by apply (fence_inv_frame s).
  - by apply fence_inv_begin.
  - unfold fenceRemoval. destruct (removing s !! id) eqn:E; [by eapply fence_inv_phase|].
    destruct ctx_done; [by eapply fence_inv_phase|by apply fence_inv_acquire].
  - unfold fence_cancel. eapply (fence_inv_phase (cancel_ops {[t]} s)); [by apply (fence_inv_frame s)|done|done].
Qed.

(** *** The join *)

(** Every installer of [s'] was one of [s], on the same node. *)
Definition fewer (s s' : istate) : Prop :=
  forall t w', installers s' !! t = Some w' -> exists w, installers s !! t = Some w /\ in_node w = in_node w'.

Lemma join_inv_fewer s s' :
  removals s' = removals s -> icancelled s ⊆ icancelled s' -> fewer s s' -> join_inv s -> join_inv s'.
Proof.
  intros Er Ec Hf H. split; unfold phase_at; rewrite Er.
  - intros r id ph t w Hp Hw Hn. destruct (Hf t w Hw) as (w0 & Hw0 & En).
    apply (oi_join _ H r id ph t w0 Hp Hw0). congruence.
  - intros r id t Hp. apply Ec. by apply (oi_told _ H r id).
Qed.

Lemma fewer_refl s s' : installers s' = installers s -> fewer s s'.
Proof. intros E t w Hw. rewrite E in Hw. eauto. Qed.

Lemma fewer_stage s t w st : installers s !! t = Some w -> fewer s (at_stage t w st s).
Proof.
  intros Hw t0 w0 Hw0. cbn in Hw0. destruct (decide (t = t0)) as [<-|E].
  - rewrite lookup_partial_alter_eq in Hw0. simplify_eq/=. by exists w.
  - rewrite lookup_partial_alter_ne in Hw0 by done. eauto.
Qed.

Lemma fewer_end s t : fewer s (with_installer t None s).
Proof.
  intros t0 w0 Hw0. cbn in Hw0. destruct (decide (t = t0)) as [<-|E].
  - by rewrite lookup_partial_alter_eq in Hw0.
  - rewrite lookup_partial_alter_ne in Hw0 by done. eauto.
Qed.

Lemma join_inv_frame s s' :
  removals s' = removals s -> icancelled s ⊆ icancelled s' -> installers s' = installers s -> join_inv s -> join_inv s'.
Proof. intros Er Ec Ei. by apply join_inv_fewer; [..|apply fewer_refl]. Qed.

(** A deletion moves on: nothing it excluded may come back. *)
Lemma join_inv_phase s r id ph' :
  join_inv s ->
  (owns ph' = true -> forall t w, installers s !! t = Some w -> in_node w = id -> admits ph' t) ->
  (forall t, ph' = RJoining t -> t ∈ icancelled s) ->
  join_inv (with_removal r (Removal id ph') s).
Proof.
  intros H Ha Ht. split.
  - intros r' id' ph0 t w [[-> E]|[_ Hp]]%phase_with Hw Hn.
    + injection E as <- <-. destruct (owns ph') eqn:Eo; [left|by right]. by eapply Ha.
    + exact (oi_join _ H r' id' ph0 t w Hp Hw Hn).
  - intros r' id' t [[-> E]|[_ Hp]]%phase_with; [injection E as <- E; by apply Ht|by apply (oi_told _ H r' id')].
Qed.

Lemma admits_later s r id ph t w :
  join_inv s -> phase_at s r id ph -> owns ph = true -> installers s !! t = Some w -> in_node w = id -> admits ph t.
Proof. intros H Hp Ho Hw Hn. destruct (oi_join _ H r id ph t w Hp Hw Hn) as [|Hf]; [done|congruence]. Qed.

Lemma join_inv_schedule s id epoch key retry hash :
  join_inv s -> fence_inv s -> removing s !! id = None ->
  let t := fresh (issued s) in
  join_inv (with_installer t (Some (Installer id epoch key retry Queued))
              (with_jobs (<[id := ResidentJob t hash]> (installJobs s)) s)).
Proof.
  intros H F Hn t. split; [|apply (oi_told _ H)].
  intros r id' ph t0 w Hp Hw Hi. cbn in Hw. destruct (decide (t = t0)) as [<-|E].
  - rewrite lookup_partial_alter_eq in Hw. simplify_eq/=. right. destruct (owns ph) eqn:Eo; [|done].
    by rewrite (fi_own _ F r _ ph Hp Eo) in Hn.
  - rewrite lookup_partial_alter_ne in Hw by done. exact (oi_join _ H r id' ph t0 w Hp Hw Hi).
Qed.

Lemma join_inv_fence s r id cd :
  join_inv s -> jobs_inv s -> phase_at s r id RTrying -> join_inv (fenceRemoval cd r id s).
Proof.
  intros H J Hp. unfold fenceRemoval. destruct (removing s !! id); [|destruct cd]; apply join_inv_phase; try done.
  - by apply (join_inv_frame s).
  - intros _ t w Hw Hn. cbn in *. destruct (ji_inst _ J t w Hw) as [_ (j & Hj & Hop)].
    rewrite Hn in Hj. rewrite Hj. cbn. by rewrite Hop.
Qed.

Lemma join_inv_step s s' : join_inv s -> jobs_inv s -> fence_inv s -> istep s s' -> join_inv s'.
Proof.
  intros H J F Hs.
  destruct Hs as [s cd now id hash la ep key|s t w [Hw E] _|s t w [Hw E]|s t w [Hw E] _|s t w err Hw Hns _
    |s rand now t w err [Hw E]|s|s id hash|s live|s|s r id Hr|s r id cd Hp|s r id o v Hp _ _|s r id o Hp
    |s r id t Hp|s r id ok Hp|s r id t ok Hp Hd|s r id t Hp|s r id ok Hp|s r id Hp|s r id ok Hp|s r id ok Hp|s r id Hp].
  - unfold scheduleInstall. splits; try done. unfold install_fenced in *. bools.
    apply join_inv_schedule; [done|done|]. by apply eq_None_not_Some.
  - apply (join_inv_fewer s); try done. by apply (fewer_stage (take_slots _ _ s) t w).
  - apply (join_inv_fewer s); try done. by apply (fewer_stage (take_slots _ _ s) t w).
  - apply (join_inv_fewer s); try done. by apply (fewer_stage (take_slots _ _ s) t w).
  - apply (join_inv_fewer s); try done. by apply (fewer_stage (take_slots _ _ s) t w).
  - apply (join_inv_fewer s); [| | |done]; unfold install_end;
      destruct err; [|destruct (_ || _)| |destruct (_ || _)| |destruct (_ || _)]; try done; exact (fewer_end s t).
  - apply (join_inv_frame s); try done; set_solver.
  - unfold credential_changed. splits; try done. apply (join_inv_frame s); try done; set_solver.
  - apply (join_inv_frame s); try done; set_solver.
  - apply (join_inv_frame s); try done; set_solver.
  - by apply join_inv_phase.
  - by apply join_inv_fence.
  - by apply join_inv_phase.
  - by apply join_inv_phase.
  - apply join_inv_phase.
    + apply (join_inv_frame s); try done; set_solver.
    + intros _ t0 w Hw Hn. by pose proof (admits_later s r id _ t0 w H Hp eq_refl Hw Hn) as [= ->].
    + intros t0 [= <-]. cbn. set_solver.
  - apply join_inv_phase; [done| |done]. intros _ t w Hw Hn.
    by pose proof (admits_later s r id _ t w H Hp eq_refl Hw Hn).
  - apply join_inv_phase; [done| |done]. intros _ t0 w Hw Hn.
    pose proof (admits_later s r id _ t0 w H Hp eq_refl Hw Hn) as E. cbn in E. congruence.
  - by apply join_inv_phase.
  - apply join_inv_phase; [done| |done]. intros _ t w Hw Hn. exact (admits_later s r id _ t w H Hp eq_refl Hw Hn).
  - apply join_inv_phase; [done| |done]. intros _ t w Hw Hn. exact (admits_later s r id _ t w H Hp eq_refl Hw Hn).
  - apply join_inv_phase; try done. by apply (join_inv_frame s).
  - apply join_inv_phase; try done. by apply (join_inv_frame s).
  - apply join_inv_phase; try done. by apply (join_inv_frame s).
Qed.

Lemma iinv_reachable s : ireachable s -> jobs_inv s /\ fence_inv s /\ join_inv s.
Proof.
  intros Hr. assert (jobs_inv iinitial /\ fence_inv iinitial /\ join_inv iinitial) as H0.
  { split_and!; (split; cbn; unfold phase_at; cbn; try done; intros *; rewrite ?lookup_empty; try done). }
  revert H0. unfold ireachable in Hr. induction Hr as [s|s1 s2 s3 Hs _ IH]; [done|].
  intros (J & F & O). apply IH. split_and!; [by eapply jobs_inv_step|by eapply fence_inv_step|by eapply join_inv_step].
Qed.

(** *** Epochs *)

(** How far a deletion has come with its fence: not acquired, held, released. *)
Definition rank_of (ph : rphase) : Z := match ph with RClosed => 2 | _ => if owns ph then 1 else 0 end.
Definition rank (s : istate) (r : nat) : Z :=
  match removals s !! r with Some v => rank_of (r_phase v) | None => 0 end.

Lemma rank_with s r v r' :
  rank (with_removal r v s) r' = if decide (r' = r) then rank_of (r_phase v) else rank s r'.
Proof.
  unfold rank, with_removal. cbn. destruct (decide (r' = r)) as [->|E].
  - by rewrite lookup_insert_eq.
  - by rewrite lookup_insert_ne.
Qed.

Lemma rank_at s r id ph : phase_at s r id ph -> rank s r = rank_of ph.
Proof. unfold rank, phase_at. by intros ->. Qed.

(** Acquiring and releasing a fence each start a new epoch. *)
Lemma rank_step s s' r : istep s s' -> rank s r <= rank s' r /\ rank s' r - rank s r <= bumps s' - bumps s.
Proof.
  assert (forall s1 r0 id ph ph', phase_at s1 r0 id ph -> rank_of ph' = rank_of ph ->
    rank s1 r <= rank (with_removal r0 (Removal id ph') s1) r /\
    rank (with_removal r0 (Removal id ph') s1) r - rank s1 r <= bumps s1 - bumps s1) as Hph.
  { intros s1 r0 id ph ph' Hp E. rewrite rank_with. destruct (decide _) as [->|]; [|lia].
    rewrite (rank_at _ _ _ _ Hp). cbn. lia. }
  assert (forall s1 r0 id ph ph', phase_at s1 r0 id ph -> rank_of ph <= rank_of ph' <= rank_of ph + 1 ->
    rank s1 r <= rank (with_removal r0 (Removal id ph') s1) r /\
    rank (with_removal r0 (Removal id ph') s1) r - rank s1 r <= bumps s1 + 1 - bumps s1) as Hup.
  { intros s1 r0 id ph ph' Hp E. rewrite rank_with. destruct (decide _) as [->|]; [|lia].
    rewrite (rank_at _ _ _ _ Hp). cbn [r_phase]. lia. }
  intros Hs. destruct Hs; try (by eapply (Hph s)); try (by eapply (Hup s));
    try (unfold rank; cbn; lia); try (by eapply (Hph s)).
  - unfold scheduleInstall. destruct (install_fenced ctx_done id epoch s), (install_early now id lastAttempt key s); unfold rank; cbn; lia.
  - unfold install_end. destruct err; [|destruct (_ || _)]; unfold rank; cbn; lia.
  - unfold credential_changed. destruct (installJobs s !! id); [destruct (bool_decide _)|]; unfold rank; cbn; lia.
  - rewrite rank_with. destruct (decide _) as [->|]; [|cbn; lia]. unfold rank. rewrite H. cbn. lia.
  - unfold fenceRemoval. destruct (removing s !! id); [by eapply (Hph s)|].
    destruct ctx_done; [by eapply (Hph s)|]. by refine (Hup s r0 id RTrying (RFenced _) H _).
Qed.

Lemma rank_steps s s' r :
  rtc istep s s' -> rank s r <= rank s' r /\ rank s' r - rank s r <= bumps s' - bumps s.
Proof.
  induction 1 as [|s1 s2 s3 Hs _ IH]; [lia|]. pose proof (rank_step s1 s2 r Hs). lia.
Qed.

(** *** Goroutines *)

Lemma installer_unique s t1 t2 w1 w2 :
  jobs_inv s -> installers s !! t1 = Some w1 -> installers s !! t2 = Some w2 -> in_node w1 = in_node w2 -> t1 = t2.
Proof.
  intros J H1 H2 E. destruct (ji_inst _ J _ _ H1) as [_ (j1 & J1 & O1)]. destruct (ji_inst _ J _ _ H2) as [_ (j2 & J2 & O2)].
  rewrite E in J1. congruence.
Qed.

Lemma installers_at_most s : jobs_inv s -> Z.of_nat (size (installers s)) <= Z.of_nat (size (installJobs s)).
Proof.
  intros J. pose (l := (in_node ∘ snd) <$> map_to_list (installers s)).
  assert (NoDup l) as Hnd.
  { apply NoDup_fmap_2_strong; [|apply NoDup_map_to_list].
    intros [t1 w1] [t2 w2] H1%elem_of_map_to_list H2%elem_of_map_to_list E.
    pose proof (installer_unique s t1 t2 w1 w2 J H1 H2 E). subst. congruence. }
  assert (length l = size (installers s)) as <- by (unfold l; rewrite length_fmap; apply length_map_to_list).
  rewrite <- (size_dom (installJobs s)), <- (size_list_to_set (C:=gset Z) l) by done.
  apply inj_le, subseteq_size. intros i Hi. apply elem_of_list_to_set, list_elem_of_fmap in Hi as ([t w] & -> & Hw).
  apply elem_of_map_to_list in Hw. destruct (ji_inst _ J _ _ Hw) as [_ (j & Hj & _)]. by apply elem_of_dom_2 in Hj.
Qed.

(** *** Retries *)

Lemma residentRetryDelay_range rand k :
  (forall n, 0 < n -> 0 <= rand n < n) -> 1 <= k ->
  let base := Z.min (Minute * 2 ^ Z.min (k - 1) 4) (10 * Minute) in
  Minute <= base /\ base <= residentRetryDelay rand k <= base + base / 2.
Proof.
  intros Hr Hk. assert (exists e, Z.min (k - 1) 4 = e /\ e ∈ [0; 1; 2; 3; 4]) as (e & E & He).
  { eexists. split; [done|]. rewrite !elem_of_cons. lia. }
  cbn zeta. unfold residentRetryDelay. replace (Z.max (k - 1) 0) with (k - 1) by lia. rewrite E. clear E.
  enough (forall b, Minute <= b -> Minute <= b /\ b <= b + rand (b / 2 + 1) <= b + b / 2) as Hb.
  { repeat (apply elem_of_cons in He as [->|He]; [by apply Hb|]). by apply elem_of_nil in He. }
  intros b Hb. unfold Minute, Second in *. pose proof (Z.div_pos b 2). specialize (Hr (b / 2 + 1)). lia.
Qed.

Definition retry_shape (now : time) (progress pull_busy : bool) (retry : residentRetry) (k : Z) : Prop :=
  (if progress then due retry = now + 30 * Second /\ busy retry = 0
   else if pull_busy then 1 <= busy retry /\
     (if busy retry <=? 5 then due retry = now + 30 * Second else k = busy retry - 5)
   else 1 <= failures retry /\ busy retry = 0 /\ k = failures retry) /\
  (due retry = now + 30 * Second \/
   let base := Z.min (Minute * 2 ^ Z.min (k - 1) 4) (10 * Minute) in
   Minute <= base /\ now + base <= due retry <= now + base + base / 2).

Lemma next_retry_shape rand now key retry progress pull_busy :
  (forall n, 0 < n -> 0 <= rand n < n) -> 0 <= failures retry -> 0 <= busy retry ->
  rkey (next_retry rand now key retry progress pull_busy) = key /\
  exists k, retry_shape now progress pull_busy (next_retry rand now key retry progress pull_busy) k.
Proof.
  intros Hr Hf Hb. unfold next_retry.
  set (retry0 := if bool_decide _ then _ else _).
  assert (rkey retry0 = key /\ 0 <= failures retry0 /\ 0 <= busy retry0) as (Ek & Hf0 & Hb0).
  { unfold retry0. destruct (bool_decide _) eqn:E; bools; done. }
  clearbody retry0. unfold retry_shape, TimeAdd. destruct progress; [|destruct pull_busy].
  - cbn. split; [done|]. exists 0. auto.
  - cbn. split; [done|]. exists (busy retry0 + 1 - 5). unfold residentBusyShortRetries.
    destruct (5 <? busy retry0 + 1) eqn:E; bools.
    + rewrite (proj2 (Z.leb_gt _ _)) by lia. split; [lia|]. right.
      pose proof (residentRetryDelay_range rand (busy retry0 + 1 - 5) Hr ltac:(lia)) as H. cbn zeta in *. lia.
    + rewrite (proj2 (Z.leb_le _ _)) by lia. split; [|by left]. split; [lia|done].
  - cbn. split; [done|]. exists (failures retry0 + 1). split; [lia|]. right.
    pose proof (residentRetryDelay_range rand (failures retry0 + 1) Hr ltac:(lia)) as H. cbn zeta in *. lia.
Qed.

(** ** The properties *)

(** C17: In every interleaving, from the moment a deletion has joined the installer of its
    node without an error until it releases the fence (while the server's row is deleted and
    the agent is uninstalled), no installer works on that node, every attempt to schedule
    one is refused whatever snapshot it comes from, and no other deletion of the node is
    past the fence.  While it still waits, the one installer that may run is the one it
    waits for, whose context is already cancelled. *)
Theorem removal_exclusive s r id ph :
  ireachable s -> phase_at s r id ph -> owns ph = true ->
  (forall r' ph', phase_at s r' id ph' -> owns ph' = true -> r' = r) /\
  (forall cd now hash last epoch key, scheduleInstall cd now id hash last epoch key s = (s, false)) /\
  (joined ph = true -> installJobs s !! id = None /\ forall t w, installers s !! t = Some w -> in_node w <> id) /\
  (forall t0 t w, ph = RJoining t0 -> installers s !! t = Some w -> in_node w = id -> t = t0 /\ t ∈ icancelled s).
Proof.
  intros (J & F & O)%iinv_reachable Hp Ho. pose proof (fi_own _ F r id ph Hp Ho) as Hr. split_and!.
  - intros r' ph' Hp' Ho'. pose proof (fi_own _ F r' id ph' Hp' Ho'). congruence.
  - intros. unfold scheduleInstall, install_fenced. rewrite Hr. cbn. by rewrite orb_true_r.
  - intros Hj. assert (forall t w, installers s !! t = Some w -> in_node w <> id) as Hn.
    { intros t w Hw En. pose proof (admits_later s r id ph t w O Hp Ho Hw En). by destruct ph as [| | | | |[]|[]| |]. }
    split; [|done]. destruct (installJobs s !! id) eqn:E; [|done]. exfalso.
    destruct (ji_job _ J _ _ E) as (w & Hw & Hi). by eapply Hn.
  - intros t0 t w -> Hw Hn. pose proof (admits_later s r id _ t w O Hp Ho Hw Hn) as E. cbn in E.
    split; [done|]. rewrite E. by apply (oi_told _ O r id).
Qed.

(** An installation decided on a snapshot taken before a deletion acquired or released
    its fence is never admitted afterwards, on any node: the epoch the reconciliation read
    has passed.  (The epoch is a [uint64]; the statement needs fewer than 2^64 changes in
    between.) *)
Theorem stale_snapshot_refused s s' r id' :
  ireachable s -> rtc istep s s' -> rank s r < rank s' r -> bumps s' - bumps s < 2 ^ 64 ->
  installAllowed id' (installEpoch s) s' = false /\
  forall cd now hash last key, scheduleInstall cd now id' hash last (installEpoch s) key s' = (s', false).
Proof.
  intros Hs Hss Hr Hb. destruct (rank_steps s s' r Hss) as [_ Hd].
  assert (ireachable s') as Hs' by (unfold ireachable in *; by etrans).
  assert ((installEpoch s' =? installEpoch s) = false) as E.
  { apply Z.eqb_neq. destruct (iinv_reachable s Hs) as (_ & F & _). destruct (iinv_reachable s' Hs') as (_ & F' & _).
    rewrite (fi_epoch _ F), (fi_epoch _ F'). unfold wrapu64, uint64_mod. intros Em.
    assert ((bumps s' - bumps s) mod 2 ^ 64 = 0) as Hz by (rewrite Zminus_mod, Em, Z.sub_diag; done).
    rewrite Z.mod_small in Hz by lia. lia. }
  unfold installAllowed, scheduleInstall, install_fenced. rewrite (Z.eqb_sym (installEpoch s)), E.
  split; [by rewrite andb_false_r|]. intros. cbn [negb]. by rewrite !orb_true_r.
Qed.

(** At most 16 installers exist, one per node, each the owner of its node's job; the
    transfer and activation slots taken are exactly those the installers in these stages
    hold, and never more than four of each. *)
Theorem installers_bounded s :
  ireachable s ->
  Z.of_nat (size (installers s)) <= 16 /\
  (forall t1 t2 w1 w2, installers s !! t1 = Some w1 -> installers s !! t2 = Some w2 -> in_node w1 = in_node w2 -> t1 = t2) /\
  (forall i, is_Some (installJobs s !! i) <-> exists t w, installers s !! t = Some w /\ in_node w = i) /\
  transferSlots s = count_map in_transfer (installers s) /\ transferSlots s <= 4 /\
  activationSlots s = count_map in_activation (installers s) /\ activationSlots s <= 4.
Proof.
  intros (J & _ & _)%iinv_reachable. destruct (ji_capacity _ J). split_and!; try done; try apply J.
  - pose proof (installers_at_most s J). pose proof (ji_size _ J). unfold residentMaxInstallJobs in *. lia.
  - intros t1 t2 w1 w2. by apply installer_unique.
  - intros i. split.
    + intros [j Hj]. destruct (ji_job _ J _ _ Hj) as (w & Hw & Hi). eauto.
    + intros (t & w & Hw & <-). destruct (ji_inst _ J _ _ Hw) as [_ (j & Hj & _)]. eauto.
Qed.

(** What a failed installation leaves.  If it was cancelled, its epoch has passed or
    its node is being removed, nothing; otherwise a retry under its key that keeps the node
    out until it is due: after 30 s when the transfer made progress or in the first five
    refusals for lack of capacity in a row, else after a delay that doubles from 1 to 10
    minutes with the number of failures and has at most half of it added at random. *)
Theorem install_failure rand now t w canceled progress pull_busy s :
  (forall n, 0 < n -> 0 <= rand n < n) -> 0 <= failures (in_retry w) -> 0 <= busy (in_retry w) ->
  let s' := install_end rand now t w (InstallFailed canceled progress pull_busy) s in
  let id := in_node w in
  if canceled || negb (in_epoch w =? installEpoch s) || bool_decide (is_Some (removing s !! id))
  then installRetries s' !! id = None
  else exists retry k, installRetries s' !! id = Some retry /\ rkey retry = in_key w /\
    (if progress then due retry = now + 30 * Second /\ busy retry = 0
     else if pull_busy then 1 <= busy retry /\
       (if busy retry <=? 5 then due retry = now + 30 * Second else k = busy retry - 5)
     else 1 <= failures retry /\ busy retry = 0 /\ k = failures retry) /\
    (due retry = now + 30 * Second \/
     let base := Z.min (Minute * 2 ^ Z.min (k - 1) 4) (10 * Minute) in
     Minute <= base /\ now + base <= due retry <= now + base + base / 2) /\
    (forall cd at_ hash last epoch, at_ < due retry ->
       scheduleInstall cd at_ id hash last epoch (in_key w) s' = (s', false)).
Proof.
  intros Hr Hf Hb. cbn zeta. unfold install_end.
  destruct (canceled || _ || _); [apply lookup_delete_eq|].
  destruct (next_retry_shape rand now (in_key w) (in_retry w) progress pull_busy Hr Hf Hb) as [Ek (k & Hk)].
  set (retry := next_retry rand now (in_key w) (in_retry w) progress pull_busy) in *.
  set (s' := NotifyTopologyChange _).
  assert (installRetries s' !! in_node w = Some retry) as El by apply lookup_insert_eq.
  exists retry, k. split; [done|]. split; [done|]. split; [apply Hk|]. split; [apply Hk|].
  intros cd at_ hash last epoch Hat. unfold scheduleInstall. destruct (install_fenced _ _ _ _); [done|].
  unfold install_early, retry_of. rewrite El. cbn [default]. rewrite bool_decide_eq_true_2 by done.
  change (id retry) with retry. by rewrite (proj2 (Before_spec _ _) Hat).
Qed.

(** ** Witnesses

    An installer of node 7 is scheduled ([demo_scheduled]) and transfers; a deletion of
    that node acquires the fence ([demo_fenced]), cancels and joins it, commits and
    uninstalls ([demo_uninstalling]). *)
Definition demo_installer (st : istage) : installer := Installer 7 0 "v1" no_retry st.
Definition demo_scheduled : istate := (scheduleInstall false 100 7 "hash" None 0 "v1" iinitial).1.
Definition demo_transferring : istate := beginInstall 0 (demo_installer Queued) demo_scheduled.
Definition demo_deleting : istate := with_removal 0 (Removal 7 RTrying) demo_transferring.
Definition demo_fenced : istate := fenceRemoval false 0 7 demo_deleting.
Definition demo_told : istate := fence_cancel 0 7 (Some 0%nat) demo_fenced.
Definition demo_failed : install_result := InstallFailed true false false.
Definition demo_returned : istate := finish 0 (demo_installer Transferring) demo_failed demo_told.
Definition demo_ended : istate := install_end (fun _ => 0) 200 0 (demo_installer (Returned demo_failed)) demo_failed demo_returned.
Definition demo_uninstalling : istate :=
  with_removal 0 (Removal 7 RUninstalling) (with_removal 0 (Removal 7 (RCommitted true))
    (with_removal 0 (Removal 7 (RPrepared true)) demo_ended)).

Lemma demo_path : ireachable demo_transferring /\ rtc istep demo_transferring demo_told /\ rtc istep demo_told demo_uninstalling.
Proof.
  split_and!.
  - eapply rtc_l; [exact (ISchedule iinitial false 100 7 "hash" None 0 "v1")|]. apply rtc_once, IBegin; [by split|done].
  - eapply rtc_l; [exact (RBegin demo_transferring 0 7 eq_refl)|].
    eapply rtc_l; [exact (RTry demo_deleting 0 7 false eq_refl)|]. apply rtc_once, RCancel. reflexivity.
  - eapply rtc_l; [apply (IFinish demo_told 0 (demo_installer Transferring) demo_failed); by vm_compute|].
    eapply rtc_l; [apply (IEnd _ (fun _ => 0) 200 0 (demo_installer (Returned demo_failed)) demo_failed); by vm_compute|].
    eapply rtc_l; [apply (RJoined _ 0 7 0 true); by vm_compute|].
    eapply rtc_l; [apply (RCommit _ 0 7 true); by vm_compute|]. apply rtc_once, RUninstall. by vm_compute.
Qed.

Lemma demo_uninstalling_reachable : ireachable demo_uninstalling.
Proof. destruct demo_path as (H1 & H2 & H3). unfold ireachable in *. by etrans; [|etrans]. Qed.

Lemma removal_exclusive_witness :
  ireachable demo_uninstalling /\ installJobs demo_uninstalling !! 7 = None /\
  forall cd now hash last epoch key,
    scheduleInstall cd now 7 hash last epoch key demo_uninstalling = (demo_uninstalling, false).
Proof.
  split; [apply demo_uninstalling_reachable|].
  destruct (removal_exclusive demo_uninstalling 0 7 RUninstalling demo_uninstalling_reachable eq_refl eq_refl)
    as (_ & Hs & Hj & _). split; [by apply Hj|exact Hs].
Defined.

Lemma stale_snapshot_refused_witness :
  installAllowed 9 (installEpoch demo_transferring) demo_uninstalling = false /\
  installAllowed 9 1 demo_uninstalling = true.
Proof.
  split; [|by vm_compute]. destruct demo_path as (H1 & H2 & H3).
  apply (stale_snapshot_refused demo_transferring demo_uninstalling 0 9 H1); [by etrans|by vm_compute|by vm_compute].
Defined.

Lemma installers_bounded_witness :
  ireachable demo_transferring /\ size (installers demo_transferring) = 1%nat /\
  transferSlots demo_transferring = count_map in_transfer (installers demo_transferring).
Proof.
  destruct demo_path as (H1 & _). split; [exact H1|]. split; [by vm_compute|]. by apply (installers_bounded _ H1).
Defined.

Lemma install_failure_witness :
  let s' := install_end (fun n => n - 1) 500 0 (demo_installer (Returned demo_failed))
              (InstallFailed false false false) demo_transferring in
  exists retry, installRetries s' !! 7 = Some retry /\ failures retry = 1 /\ rkey retry = "v1"%string /\
    due retry = 500 + Minute + 30 * Second.
Proof.
  pose proof (install_failure (fun n => n - 1) 500 0 (demo_installer (Returned demo_failed)) false false false
                demo_transferring ltac:(intros; lia) ltac:(done) ltac:(done)) as H.
  change (false || _ || _) with false in H. destruct H as (retry & k & Hl & Hk & _).
  exists retry. split; [exact Hl|]. vm_compute in Hl. injection Hl as <-. by vm_compute.
Defined.
