(* ===== verification/ApiKeys.v ===== *)
(** * API keys: policies, rotation and validation

    [service/apikey.go], [service/apikey_permissions.go], [service/apikey_rotation.go] and
    the transactions of [repository/apikey*.go].  A key's policy (its scopes and servers)
    and its secret carry one revision, which is to keys what the password version is to
    users: mutations run under a gate, requests are admitted under the same gate, and the
    terminals opened with a key are revoked by the mutation.  The table of keys is a value
    of [keydata], which implements [Revocation.UserDB]: the lemmas about the gate, the
    registry and the database proved there serve here as well. *)

From S2P Require Import Prelude Registry Gate Revocation Scope.

(** ** The table *)

Record APIKey := MkKey {
  ID : Z;
  UserID : Z;
  OwnerBindingVersion : Z;
  Name : string;
  KeyHash : string;
  KeyPrefix : string;
  EncryptedRawKey : string;
  Salt : string;
  CryptoVersion : Z;
  Scopes : list string;
  ServerIDs : list Z;
  PermissionsRevision : Z;
  PermissionsUpdatedAt : option time }.

(** The audit event a mutation stores in its transaction. *)
Record AuditEvent := MkEvent { ae_action : string; ae_key : Z; ae_before : Z; ae_after : Z }.

(** A transaction's effect on a row: its after-image ([None]: deleted) and event. *)
Record change := Change { after : option APIKey; event : option AuditEvent }.

(** [undecided] holds the transactions whose COMMIT was sent and is not decided; such a
    row is locked.  [v_key] is the local variable ([key] of [Validate], [updated] of
    [UpdatePermissions]) that the closures of the callers assign. *)
Record keydata := KeyData {
  rows : gmap Z APIKey;
  undecided : gmap Z change;
  next_id : Z;
  audits : list AuditEvent;
  v_key : option APIKey }.

(** [PermissionsRevision] of the repository answers 0 for an absent row. *)
Definition revision_of (o : option APIKey) : Z := match o with Some k => PermissionsRevision k | None => 0 end.
Definition read_revision (d : keydata) (id : Z) : Z := revision_of (rows d !! id).
Definition locked_revision (d : keydata) (id : Z) : option Z :=
  match undecided d !! id with Some _ => None | None => Some (read_revision d id) end.

#[export] Instance keys_db : UserDB keydata.
Proof.
  refine {| committed d id := Some (read_revision d id);
            unresolved d id := bool_decide (is_Some (undecided d !! id));
            password_hash d id := KeyHash <$> rows d !! id;
            TokenVersion d id := Some (read_revision d id);
            LockedTokenVersion d id := locked_revision d id |}.
  - done.
  - intros d id v. unfold locked_revision. destruct (undecided d !! id) eqn:E; [done|]. intros [= <-].
    split; [|done]. by apply bool_decide_eq_false_2; intros [? ?].
Defined.

Definition with_v_key (k : option APIKey) (d : keydata) : keydata :=
  KeyData (rows d) (undecided d) (next_id d) (audits d) k.
Definition set_row (id : Z) (c : change) (d : keydata) : keydata :=
  KeyData (partial_alter (fun _ => after c) id (rows d)) (delete id (undecided d)) (next_id d)
    (audits d ++ option_list (event c)) (v_key d).
Definition leave_undecided (id : Z) (c : change) (d : keydata) : keydata :=
  KeyData (rows d) (<[id := c]> (undecided d)) (next_id d) (audits d) (v_key d).
Definition discard (id : Z) (d : keydata) : keydata :=
  KeyData (rows d) (delete id (undecided d)) (next_id d) (audits d) (v_key d).

(** ** Transactions *)

Inductive key_err := KNotFound | KDriver | ErrAuditStorage | ErrAPIKeyCommitUnknown | KApp (status : Z) (reason : string) (servers : list Z).
Definition kapp (status : Z) (reason : string) : key_err := KApp status reason [].
Definition is_unknown {A} (r : result key_err A) : bool := match r with Err ErrAPIKeyCommitUnknown => true | _ => false end.

(** What the environment decides: which statements fail, the answer to COMMIT, and what
    became of a commit whose answer was lost. *)
Inductive fate := Applied | Discarded | Undecided.
Record key_tx := KeyTx { kt_begin : bool; kt_lock : bool; kt_update : bool; kt_audit : bool;
                         kt_commit : option commit_err; kt_fate : fate }.

Definition commit_key (tx : key_tx) (id : Z) (c : change) (d : keydata) : keydata * option key_err :=
  match kt_commit tx with
  | None => (set_row id c d, None)
  | Some e =>
      if commitDefinitelyRolledBack e then (d, Some KDriver)
      else (match kt_fate tx with
            | Applied => set_row id c d
            | Discarded => d
            | Undecided => leave_undecided id c d
            end, Some ErrAPIKeyCommitUnknown)
  end.

(** [SELECT ... FOR UPDATE]: a row another transaction has not decided cannot be locked. *)
Definition lock_row (tx : key_tx) (id : Z) (d : keydata) : result key_err APIKey :=
  if kt_begin tx || kt_lock tx then Err KDriver
  else match undecided d !! id, rows d !! id with
       | Some _, _ => Err KDriver
       | None, None => Err KNotFound
       | None, Some k => Ok k
       end.

(** The repository's [UpdatePermissions]: [change] answers the new policy and the audit
    event, or no event when nothing changes. *)
Definition repo_UpdatePermissions (tx : key_tx) (now : time) (id : Z)
    (change_fn : APIKey -> result key_err (option (list string * list Z * AuditEvent))) (d : keydata) :
    keydata * result key_err (APIKey * bool) :=
  match lock_row tx id d with
  | Err e => (d, Err e)
  | Ok key =>
      match change_fn key with
      | Err e => (d, Err e)
      | Ok None => (d, Ok (key, false))
      | Ok (Some (scopes, ids, ev)) =>
          let key := MkKey (ID key) (UserID key) (OwnerBindingVersion key) (Name key) (KeyHash key) (KeyPrefix key)
                       (EncryptedRawKey key) (Salt key) (CryptoVersion key) scopes ids
                       (wrap64 (PermissionsRevision key + 1)) (Some now) in
          if kt_update tx then (d, Err KDriver)
          else if kt_audit tx then (d, Err ErrAuditStorage)
          else match commit_key tx id (Change (Some key) (Some ev)) d with
               | (d, None) => (d, Ok (key, true))
               | (d, Some e) => (d, Err e)
               end
      end
  end.

(** The material of a new secret ([generateKey]). *)
Record material := Material { m_hash : string; m_prefix : string; m_encrypted : string; m_salt : string; m_version : Z }.

Definition repo_Rotate (tx : key_tx) (id : Z) (m : material) (audit : APIKey -> result key_err AuditEvent) (d : keydata) :
    keydata * result key_err APIKey :=
  match lock_row tx id d with
  | Err e => (d, Err e)
  | Ok key =>
      match audit key with
      | Err e => (d, Err e)
      | Ok ev =>
          let key := MkKey (ID key) (UserID key) (OwnerBindingVersion key) (Name key) (m_hash m) (m_prefix m)
                       (m_encrypted m) (m_salt m) (m_version m) (Scopes key) (ServerIDs key)
                       (wrap64 (PermissionsRevision key + 1)) (PermissionsUpdatedAt key) in
          if kt_update tx then (d, Err KDriver)
          else if kt_audit tx then (d, Err ErrAuditStorage)
          else match commit_key tx id (Change (Some key) (Some ev)) d with
               | (d, None) => (d, Ok key)
               | (d, Some e) => (d, Err e)
               end
      end
  end.

(** [Delete]: deleting an absent row is no error, an undecided one cannot be touched. *)
Definition repo_Delete (tx : key_tx) (id : Z) (d : keydata) : keydata * option key_err :=
  if kt_begin tx || kt_update tx || bool_decide (is_Some (undecided d !! id)) then (d, Some KDriver)
  else match rows d !! id with
       | Some _ => commit_key tx id (Change None None) d
       | None => (d, (commit_key tx id (Change None None) d).2)
       end.

(** [INSERT] of a new row: the sequence never repeats an identifier, the revision starts
    at 1. *)
Definition repo_Create (fails : bool) (k : APIKey) (d : keydata) : keydata * result key_err APIKey :=
  if fails then (d, Err KDriver)
  else
    let k := MkKey (next_id d) (UserID k) 1 (Name k) (KeyHash k) (KeyPrefix k) (EncryptedRawKey k) (Salt k)
               (CryptoVersion k) (Scopes k) (ServerIDs k) 1 (PermissionsUpdatedAt k) in
    (KeyData (<[next_id d := k]> (rows d)) (undecided d) (next_id d + 1) (audits d) (v_key d), Ok k).

(** [BindUnownedToDefaultAdmin]: the legacy owner of a batch of rows is assigned in place,
    skipping locked ones. *)
Definition bind_owner (admin : Z) (k : APIKey) : APIKey :=
  MkKey (ID k) admin 1 (Name k) (KeyHash k) (KeyPrefix k) (EncryptedRawKey k) (Salt k) (CryptoVersion k) (Scopes k)
    (ServerIDs k) (PermissionsRevision k) (PermissionsUpdatedAt k).
Definition bindable (k : APIKey) : bool := (OwnerBindingVersion k =? 0) && (UserID k =? 0).
Definition bind_row (admin : Z) (locked : gmap Z change) (id : Z) (m : gmap Z APIKey) : gmap Z APIKey :=
  match m !! id, locked !! id with
  | Some k, None => if bindable k then <[id := bind_owner admin k]> m else m
  | _, _ => m
  end.
Definition BindUnownedToDefaultAdmin (admin : Z) (ids : list Z) (d : keydata) : keydata :=
  KeyData (foldr (bind_row admin (undecided d)) (rows d) ids) (undecided d) (next_id d) (audits d) (v_key d).

(** ** Policies *)

Definition requireAPIKeyAdmin (authType role : string) (user : option Z) : bool :=
  bool_decide (authType = "jwt")%string && bool_decide (role = "admin")%string &&
  match user with Some u => negb (u =? 0) | None => false end.

Section permission_sets.
Context {T : Type} `{EqDecision T}.
(** [samePermissionSet], [uniquePermissions]: the maps are lists of what was seen. *)
Definition samePermissionSet (a b : list T) : bool :=
  forallb (fun v => bool_decide (v ∈ a)) b &&
  bool_decide (length (remove_dups a) = length (remove_dups b)).
Definition uniquePermissions (values : list T) : list T :=
  rev (foldl (fun out v => if bool_decide (v ∈ out) then out else v :: out) [] values).
End permission_sets.

Section permission_set_lemmas.
Context {T : Type} `{EqDecision T}.

Lemma samePermissionSet_spec (a b : list T) : samePermissionSet a b = true <-> forall x, x ∈ a <-> x ∈ b.
Proof.
  unfold samePermissionSet. rewrite andb_true_iff, forallb_forall, bool_decide_eq_true. split.
  - intros [Hsub Hlen] x. assert (forall y, y ∈ b -> y ∈ a) as Hba.
    { intros y Hy. apply list_elem_of_In, Hsub, bool_decide_eq_true in Hy. done. }
    split; [|apply Hba]. intros Hx.
    assert (remove_dups b ≡ₚ remove_dups a) as Hp.
    { apply submseteq_length_Permutation; [|lia]. apply NoDup_submseteq; [apply NoDup_remove_dups|].
      intros y Hy. apply elem_of_remove_dups, Hba, elem_of_remove_dups. done. }
    apply elem_of_remove_dups. rewrite Hp. by apply elem_of_remove_dups.
  - intros H. split.
    + intros x Hx. apply bool_decide_eq_true. apply H, list_elem_of_In, Hx.
    + apply Permutation_length. apply NoDup_Permutation; [apply NoDup_remove_dups..|].
      intros x. by rewrite !elem_of_remove_dups.
Qed.

Lemma uniquePermissions_spec (l : list T) : NoDup (uniquePermissions l) /\ forall x, x ∈ uniquePermissions l <-> x ∈ l.
Proof.
  unfold uniquePermissions.
  assert (forall l out : list T, NoDup out ->
    let r := foldl (fun out v => if bool_decide (v ∈ out) then out else v :: out) out l in
    NoDup r /\ forall x, x ∈ r <-> x ∈ out \/ x ∈ l) as H.
  { clear l. induction l as [|v l IH]; intros out Hout; cbn [foldl]; [set_solver|].
    destruct (bool_decide (v ∈ out)) eqn:E; bools.
    - destruct (IH out Hout) as [? Hx]. split; [done|]. set_solver.
    - destruct (IH (v :: out)) as [? Hx]; [by constructor|]. split; [done|]. set_solver. }
  destruct (H l [] (NoDup_nil_2)) as [Hn Hx]. split.
  - by apply NoDup_ListNoDup, List.NoDup_rev, NoDup_ListNoDup.
  - intros x. rewrite list_elem_of_In, <- in_rev, <- list_elem_of_In, Hx. set_solver.
Qed.
End permission_set_lemmas.

Definition string_before (a b : string) : Prop := String.leb a b = true.
#[export] Instance string_before_dec a b : Decision (string_before a b) := decide (String.leb a b = true).
Definition sort_strings : list string -> list string := merge_sort string_before.
Definition sort_ids : list Z -> list Z := merge_sort Z.le.

Lemma sort_strings_elem l x : x ∈ sort_strings (uniquePermissions l) <-> x ∈ l.
Proof. unfold sort_strings. rewrite merge_sort_Permutation. apply uniquePermissions_spec. Qed.
Lemma sort_ids_elem l x : x ∈ sort_ids (uniquePermissions l) <-> x ∈ l.
Proof. unfold sort_ids. rewrite merge_sort_Permutation. apply uniquePermissions_spec. Qed.

Record UpdateInput := MkInput { ExpectedRevision : Z; in_scopes : option (list string); in_servers : option (list Z) }.

Section service.
(** The length of the audit details' JSON, by the two policies. *)
Context (details_length : list string -> list Z -> list string -> list Z -> Z).

Definition ids_valid (ids : list Z) : bool := forallb (fun v => negb ((v =? 0) || (int64_max <? v))) ids.

(** The identifiers an error names: those the database did not find. *)
Definition missing_servers (existing ids : list Z) : list Z := filter (fun v => v ∉ existing) ids.

(** The servers of the input, sorted; [find] is [FindExistingIDs]. *)
Definition resolve_servers (find : list Z -> option (list Z)) (old : list Z) (input : list Z) :
    result key_err (list Z) :=
  let ids := sort_ids (uniquePermissions input) in
  if negb (ids_valid ids) then Err (kapp 400 "invalid_server_id")
  else
    let added := filter (fun v => v ∉ old) ids in
    match added with
    | [] => Ok ids
    | _ => match find added with
           | None => Err KDriver
           | Some existing =>
               if bool_decide (length existing = length added) then Ok ids
               else Err (KApp 400 "servers_not_found" (missing_servers existing added))
           end
    end.

(** The closure [UpdatePermissions] gives to the repository. *)
Definition permissions_change (find : list Z -> option (list Z)) (input : UpdateInput) (key : APIKey) :
    result key_err (option (list string * list Z * AuditEvent)) :=
  if negb (PermissionsRevision key =? ExpectedRevision input) then Err (kapp 409 "api_key_revision_conflict")
  else if PermissionsRevision key =? int64_max then Err (kapp 409 "api_key_revision_conflict")
  else
    let scopes := match in_scopes input with Some l => sort_strings (uniquePermissions l) | None => Scopes key end in
    match (match in_servers input with
           | Some l => resolve_servers find (ServerIDs key) l
           | None => Ok (ServerIDs key) end) with
    | Err e => Err e
    | Ok ids =>
        if samePermissionSet (Scopes key) scopes && samePermissionSet (ServerIDs key) ids then Ok None
        else if 256 * 1024 <? details_length (Scopes key) (ServerIDs key) scopes ids then Err (kapp 400 "invalid_request")
        else Ok (Some (scopes, ids, MkEvent "api_key.permissions.update" (ID key) (PermissionsRevision key)
                                      (wrap64 (PermissionsRevision key + 1))))
    end.

(** ** The service *)

Abbreviation kworld := (world keydata).
Abbreviation kgate := (Gate kworld).

(** [NewAPIKeyService]. *)
Definition permissionsGate : kgate := New (Some user_version) [Some user_locked_version].

(** Revocation of the key's terminals, by the closure's assignment to [revoked]. *)
Definition mark_terminals (id : Z) (started : time) (revoke : bool) (d : keydata) (w : kworld) : kworld :=
  if revoke then let '(r, ids, _) := MarkRevoked id started (reg w) in mkWorld d r ids (v_reg w)
  else mkWorld d (reg w) (v_revoked w) (v_reg w).

Definition err_of {A} (r : result key_err A) : option key_err := match r with Ok _ => None | Err e => Some e end.

(** The callbacks given to the gate: the transaction, the revocation of the terminals,
    and whether the outcome is uncertain. *)
Definition permissions_callback (find : list Z -> option (list Z)) (tx : key_tx) (now started : time) (id : Z)
    (input : UpdateInput) (_ : Z) (w : kworld) : kworld * bool * option key_err :=
  let '(d, r) := repo_UpdatePermissions tx now id (permissions_change find input) (db w) in
  let changed := match r with Ok (_, c) => c | Err _ => false end in
  let updated := match r with Ok (k, _) => Some k | Err _ => None end in
  (mark_terminals id started (changed || is_unknown r) (with_v_key updated d) w, is_unknown r, err_of r).

Definition rotate_audit (expected : Z) (key : APIKey) : result key_err AuditEvent :=
  if negb (PermissionsRevision key =? expected) || (PermissionsRevision key =? int64_max)
  then Err (kapp 409 "api_key_revision_conflict")
  else Ok (MkEvent "api_key.rotate" (ID key) expected (wrap64 (expected + 1))).

Definition rotate_callback (tx : key_tx) (started : time) (id expected : Z) (m : material) (_ : Z) (w : kworld) :
    kworld * bool * option key_err :=
  let '(d, r) := repo_Rotate tx id m (rotate_audit expected) (db w) in
  let updated := match r with Ok k => Some k | Err _ => None end in
  (mark_terminals id started (is_ok r || is_unknown r) (with_v_key updated d) w, is_unknown r, err_of r).

Definition delete_callback (tx : key_tx) (started : time) (id : Z) (_ : Z) (w : kworld) :
    kworld * bool * option key_err :=
  let '(d, e) := repo_Delete tx id (db w) in
  let unknown := match e with Some ErrAPIKeyCommitUnknown => true | _ => false end in
  (mark_terminals id started (bool_decide (e = None) || unknown) d w, unknown, e).

(** [apiKeyPolicyError]: the answer to the client. *)
Inductive app_err := AppError (status : Z) (reason : string) (servers : list Z).
Definition app (status : Z) (reason : string) : app_err := AppError status reason [].
Definition apiKeyPolicyError (e : gate_err key_err) : app_err :=
  match e with
  | FnErr KNotFound => app 404 "api_key_not_found"
  | FnErr (KApp status reason servers) => AppError status reason servers
  | _ => app 503 "unavailable"
  end.

(** [finishPermissionChange]: the recovery of an uncertain commit runs in a goroutine of
    its own ([K_recover]). *)
Definition finishPermissionChange (aenv : Z -> settle_env) (w : kworld) : kworld :=
  match v_revoked w with
  | [] => w
  | ids => let '(r, _, _) := Await aenv ids (reg w) in mkWorld (db w) r (v_revoked w) (v_reg w)
  end.

Definition apiKeyMutationBudget : duration := 10 * Second.

(** A mutation under the gate, with the local variables cleared first. *)
Definition mutate (env : call_env) (expired : bool) (id : Z) (aenv : Z -> settle_env)
    (fn : Z -> kworld -> kworld * bool * option key_err) (g : kgate) (w : kworld) :
    kgate * kworld * option (gate_err key_err) :=
  let w := mkWorld (with_v_key None (db w)) (reg w) [] (v_reg w) in
  let '(g, w, err) := UpdateWithBudget env id apiKeyMutationBudget (if expired then Some KDriver else None) fn g w in
  (g, finishPermissionChange aenv w, err).

Definition forbidden : app_err := app 403 "forbidden".

Definition UpdatePermissions (admin : bool) (env : call_env) (expired : bool) (tx : key_tx) (now started : time)
    (aenv : Z -> settle_env) (find : list Z -> option (list Z)) (id : Z) (input : UpdateInput) (g : kgate)
    (w : kworld) : kgate * kworld * result app_err (option APIKey) :=
  if negb admin then (g, w, Err forbidden)
  else if (ExpectedRevision input <=? 0) || (bool_decide (in_scopes input = None) && bool_decide (in_servers input = None))
  then (g, w, Err (app 400 "invalid_request"))
  else
    match in_scopes input with
    | Some [] => (g, w, Err (app 400 "scopes_required"))
    | scopes =>
        if negb (bool_decide (ValidateScopes (default [] scopes) = [])) then (g, w, Err (app 400 "invalid_scopes"))
        else
          let '(g, w, err) := mutate env expired id aenv (permissions_callback find tx now started id input) g w in
          (g, w, match err with None => Ok (v_key (db w)) | Some e => Err (apiKeyPolicyError e) end)
    end.

Definition Rotate (admin : bool) (env : call_env) (expired : bool) (tx : key_tx) (started : time)
    (aenv : Z -> settle_env) (m : material) (id expected : Z) (g : kgate) (w : kworld) :
    kgate * kworld * result app_err (option APIKey) :=
  if negb admin then (g, w, Err forbidden)
  else if expected <=? 0 then (g, w, Err (app 400 "invalid_request"))
  else
    let '(g, w, err) := mutate env expired id aenv (rotate_callback tx started id expected m) g w in
    (g, w, match err with None => Ok (v_key (db w)) | Some e => Err (apiKeyPolicyError e) end).

Definition Delete (admin : bool) (env : call_env) (expired : bool) (tx : key_tx) (started : time)
    (aenv : Z -> settle_env) (id : Z) (g : kgate) (w : kworld) : kgate * kworld * option app_err :=
  if negb admin then (g, w, Some forbidden)
  else
    let '(g, w, err) := mutate env expired id aenv (delete_callback tx started id) g w in
    (g, w, apiKeyPolicyError <$> err).

(** [resolveScopes]. *)
Definition AllScopeGatedScopes : list string :=
  ["servers:read"; "servers:exec"; "servers:terminal"; "metrics:read"; "credentials:read"; "services:read"].
Definition resolveScopes (scopes : option (list string)) : result app_err (list string) :=
  match scopes with
  | None => Ok AllScopeGatedScopes
  | Some [] => Err (app 400 "scopes_required")
  | Some l => Ok l
  end.

(** The servers a new key names; a list with a repeated identifier is longer than what
    the query finds. *)
Definition check_servers (servers : list Z -> option (list Z)) (serverIDs : list Z) : option app_err :=
  match serverIDs with
  | [] => None
  | _ => match servers serverIDs with
         | None => Some (app 500 "internal")
         | Some existing =>
             if bool_decide (length existing = length serverIDs) then None
             else Some (AppError 400 "servers_not_found" (missing_servers existing serverIDs))
         end
  end.

(** [Create]; [servers] answers [FindByIDs]: the identifiers of the rows found. *)
Definition Create (admin : bool) (user : Z) (servers : list Z -> option (list Z)) (fails : bool) (now : time)
    (m : material) (name : string) (scopes : option (list string)) (serverIDs : list Z) (g : kgate) (w : kworld) :
    kgate * kworld * result app_err APIKey :=
  if negb admin then (g, w, Err forbidden)
  else
    match resolveScopes scopes with
    | Err e => (g, w, Err e)
    | Ok resolved =>
        if negb (bool_decide (ValidateScopes resolved = [])) then (g, w, Err (app 400 "invalid_scopes"))
        else
          match check_servers servers serverIDs with
          | Some e => (g, w, Err e)
          | None =>
              let k := MkKey 0 user 1 name (m_hash m) (m_prefix m) (m_encrypted m) (m_salt m) (m_version m) resolved
                         serverIDs 1 (Some now) in
              match repo_Create fails k (db w) with
              | (d, Ok k) => (g, mkWorld d (reg w) (v_revoked w) (v_reg w), Ok k)
              | (_, Err _) => (g, w, Err (app 500 "internal"))
              end
          end
    end.

(** ** Validation *)

(** [FindByHash] and [FindByID]: the query may fail. *)
Definition FindByHash (hash : string) (d : keydata) : option APIKey :=
  head (filter (fun k => KeyHash k = hash) (map_to_list (rows d)).*2).
Definition FindByID (fails : bool) (id : Z) (d : keydata) : result key_err APIKey :=
  if fails then Err KDriver else match rows d !! id with Some k => Ok k | None => Err KNotFound end.

Inductive validate_err := InvalidKey | KeyUnavailable.

(** The callback of [Validate], with the local variable [key]. *)
Definition validate_callback (fails : bool) (hash : string) (revision : Z) (w : kworld) : kworld * option key_err :=
  match v_key (db w) with
  | None => (w, Some KNotFound)
  | Some key =>
      if revision =? 0 then (w, Some KNotFound)
      else
        match (if revision =? PermissionsRevision key then Ok key else FindByID fails (ID key) (db w)) with
        | Err e => (w, Some e)
        | Ok key =>
            let w := mkWorld (with_v_key (Some key) (db w)) (reg w) (v_revoked w) (v_reg w) in
            (w, if bool_decide (KeyHash key = hash) then None else Some KNotFound)
        end
  end.

(** The admission, after [FindByHash] found [key], possibly much earlier. *)
Definition Validate (env : call_env) (fails : bool) (hash : string) (key : APIKey) (g : kgate) (w : kworld) :
    kgate * kworld * result validate_err APIKey :=
  let w := mkWorld (with_v_key (Some key) (db w)) (reg w) (v_revoked w) (v_reg w) in
  let '(g, w, err) := Gate.Admit env (ID key) (validate_callback fails hash) g w in
  (g, w, match err, v_key (db w) with
         | None, Some key => Ok key
         | None, None => Err KeyUnavailable
         | Some (FnErr KNotFound), _ => Err InvalidKey
         | Some _, _ => Err KeyUnavailable
         end).

(** ** The running Hub *)

Inductive key_step : kgate * kworld -> kgate * kworld -> Prop :=
| K_update admin env expired tx now started aenv find id input g w g' w' res :
    UpdatePermissions admin env expired tx now started aenv find id input g w = (g', w', res) ->
    key_step (g, w) (g', w')
| K_rotate admin env expired tx started aenv m id expected g w g' w' res :
    Rotate admin env expired tx started aenv m id expected g w = (g', w', res) -> key_step (g, w) (g', w')
| K_delete admin env expired tx started aenv id g w g' w' res :
    Delete admin env expired tx started aenv id g w = (g', w', res) -> key_step (g, w) (g', w')
| K_create admin user servers fails now m name scopes serverIDs g w g' w' res :
    Create admin user servers fails now m name scopes serverIDs g w = (g', w', res) -> key_step (g, w) (g', w')
| K_validate env fails hash key g w g' w' res :
    Validate env fails hash key g w = (g', w', res) -> key_step (g, w) (g', w')
| K_owner admin ids g w :
    key_step (g, w) (g, mkWorld (BindUnownedToDefaultAdmin admin ids (db w)) (reg w) (v_revoked w) (v_reg w))
| K_register env id revision g w g' w' res :
    0 < revision -> next (reg w) + 1 < uint64_mod ->
    terminal_register env id revision g w = (g', w', res) -> key_step (g, w) (g', w')
| K_ready env s g w g' w' res :
    terminal_ready env (Registry.UserID s) s g w = (g', w', res) -> key_step (g, w) (g', w')
| K_input env s g w g' w' res :
    terminal_input env (Registry.UserID s) s g w = (g', w', res) -> key_step (g, w) (g', w')
| K_recover env id g w g' w' res : Gate.Recover env id g w = (g', w', res) -> key_step (g, w) (g', w')
| K_registry o g w :
    not_admission o = true -> key_step (g, w) (g, mkWorld (db w) (exec o (reg w)) (v_revoked w) (v_reg w))
| K_decide id c applied g w :
    undecided (db w) !! id = Some c ->
    key_step (g, w) (g, mkWorld (if applied : bool then set_row id c (db w) else discard id (db w))
                          (reg w) (v_revoked w) (v_reg w)).

(** Start-up on a table: every row under its identifier, with a positive revision and an
    identifier the sequence has passed; nothing undecided. *)
Definition key_initial (d : keydata) : kgate * kworld := (permissionsGate, mkWorld d NewRegistry [] None).
Definition table_ok (d : keydata) : Prop :=
  (forall id k, rows d !! id = Some k -> ID k = id /\ 0 < PermissionsRevision k <= int64_max /\ id < next_id d) /\
  (forall id c, undecided d !! id = Some c ->
     exists k, rows d !! id = Some k /\
     match after c with
     | None => True
     | Some k' => ID k' = id /\ PermissionsRevision k' = PermissionsRevision k + 1 /\ PermissionsRevision k' <= int64_max
     end).
Definition key_reachable (c : kgate * kworld) : Prop :=
  exists d, table_ok d /\ undecided d = ∅ /\ rtc key_step (key_initial d) c.

(** ** The table only moves forward *)

(** Equal but for the owner, which a legacy assignment may fill in. *)
Definition same_policy (k k' : APIKey) : Prop := bind_owner 0 k = bind_owner 0 k'.

Definition newer (d d' : keydata) : Prop :=
  next_id d <= next_id d' /\
  forall id k', rows d' !! id = Some k' ->
    (exists k, rows d !! id = Some k /\ (PermissionsRevision k < PermissionsRevision k' \/ same_policy k k')) \/
    next_id d <= id.

Lemma same_policy_revision k k' : same_policy k k' -> PermissionsRevision k = PermissionsRevision k'.
Proof. unfold same_policy. by intros [=]. Qed.

#[export] Instance newer_preorder : PreOrder newer.
Proof.
  split.
  - intros d. split; [lia|]. intros id k' H. left. exists k'. split; [done|]. by right.
  - intros d1 d2 d3 [N1 H1] [N2 H2]. split; [lia|]. intros id k3 H3.
    destruct (H2 id k3 H3) as [(k2 & E2 & C2)|]; [|right; lia].
    destruct (H1 id k2 E2) as [(k1 & E1 & C1)|]; [left|by right]. exists k1. split; [done|].
    destruct C1 as [C1|C1], C2 as [C2|C2];
      try (apply same_policy_revision in C1 as ?); try (apply same_policy_revision in C2 as ?); try (left; lia).
    right. unfold same_policy in *. congruence.
Qed.

(** Equal but for the callers' variable. *)
Definition same_table (d d' : keydata) : Prop :=
  rows d' = rows d /\ undecided d' = undecided d /\ next_id d' = next_id d /\ audits d' = audits d.

Lemma same_table_ok d d' : same_table d d' -> table_ok d -> table_ok d'.
Proof. unfold same_table, table_ok. intros (-> & -> & -> & _). done. Qed.
Lemma same_table_newer d d' : same_table d d' -> newer d d'.
Proof.
  intros (E1 & _ & E3 & _). split; [lia|]. intros id k' H. left. exists k'. rewrite <- E1. split; [done|]. by right.
Qed.

(** A change that a transaction may make to the row [id]. *)
Definition change_ok (id : Z) (c : change) (d : keydata) : Prop :=
  exists k, rows d !! id = Some k /\
  match after c with
  | None => True
  | Some k' => ID k' = id /\ PermissionsRevision k' = PermissionsRevision k + 1 /\ PermissionsRevision k' <= int64_max
  end.

Lemma set_row_ok id c d : table_ok d -> change_ok id c d -> table_ok (set_row id c d) /\ newer d (set_row id c d).
Proof.
  intros [T1 T2] (k & Hk & Hc). destruct (T1 id k Hk) as (Eid & Hr & Hn). split; [split|split].
  - intros i k' Hk'. cbn in Hk'. destruct (decide (id = i)) as [<-|Hne].
    + rewrite lookup_partial_alter_eq in Hk'. rewrite Hk' in Hc. cbn. split; [apply Hc|]. split; [lia|done].
    + rewrite lookup_partial_alter_ne in Hk' by done. by apply T1.
  - intros i c' Hc'. cbn in Hc'. apply lookup_delete_Some in Hc' as [Hne Hc']. cbn. destruct (T2 i c' Hc') as (k' & Hk' & Hrest).
    exists k'. rewrite lookup_partial_alter_ne by done. done.
  - cbn. lia.
  - intros i k' Hk'. cbn in Hk'. left. destruct (decide (id = i)) as [<-|Hne].
    + rewrite lookup_partial_alter_eq in Hk'. rewrite Hk' in Hc. exists k. split; [done|]. left. lia.
    + rewrite lookup_partial_alter_ne in Hk' by done. exists k'. split; [done|]. by right.
Qed.

Lemma leave_undecided_ok id c d :
  table_ok d -> change_ok id c d -> table_ok (leave_undecided id c d) /\ newer d (leave_undecided id c d).
Proof.
  intros [T1 T2] Hc. split; [split; [done|]|by split; [cbn; lia|intros i k' H; left; exists k'; split; [done|by right]]].
  intros i c' Hc'; cbn in Hc'; apply lookup_insert_Some in Hc' as [[<- <-]|[Hne Hc']]; [exact Hc|by apply T2].
Qed.

(** What a commit may leave behind. *)
Definition committed_as (id : Z) (c : change) (d d' : keydata) : Prop :=
  d' = d \/ d' = set_row id c d \/ d' = leave_undecided id c d.

Lemma commit_key_cases tx id c d d' e :
  commit_key tx id c d = (d', e) ->
  (e = None /\ d' = set_row id c d) \/ (e = Some KDriver /\ d' = d) \/
  (e = Some ErrAPIKeyCommitUnknown /\ committed_as id c d d').
Proof.
  unfold commit_key, committed_as. destruct (kt_commit tx) as [e0|]; [|intros; simplify_eq; auto].
  destruct (commitDefinitelyRolledBack e0); [intros; simplify_eq; auto|].
  destruct (kt_fate tx); intros; simplify_eq; auto 8.
Qed.

Lemma committed_as_ok id c d d' :
  committed_as id c d d' -> table_ok d -> change_ok id c d -> table_ok d' /\ newer d d'.
Proof.
  intros [->|[->| ->]] T C; [split; [done|reflexivity]|by apply set_row_ok|by apply leave_undecided_ok].
Qed.

Lemma committed_as_v_key id c d d' :
  committed_as id c (with_v_key None d) d' -> committed_as id c d (with_v_key (v_key d) d').
Proof. destruct d. intros [->|[->| ->]]; [left|right; left|right; right]; done. Qed.

(** Other rows are not touched. *)
Definition others (id : Z) (d d' : keydata) : Prop :=
  forall i, i <> id -> rows d' !! i = rows d !! i /\ undecided d' !! i = undecided d !! i.
Lemma set_row_others id c d : others id d (set_row id c d).
Proof. intros i Hne. cbn. by rewrite lookup_partial_alter_ne, lookup_delete_ne. Qed.
Lemma committed_as_others id c d d' : committed_as id c d d' -> others id d d'.
Proof.
  intros [->|[->| ->]]; [done|apply set_row_others|]. intros i Hne. cbn. by rewrite lookup_insert_ne.
Qed.

(** ** What the mutations do *)

Definition tx_outcome (id : Z) (d d' : keydata) (revoke unknown : bool) : Prop :=
  d' = d \/ (exists c, change_ok id c d /\ revoke = true /\
              (d' = set_row id c d \/ (unknown = true /\ committed_as id c d d'))).

Lemma tx_outcome_table id d d' revoke unknown :
  tx_outcome id d d' revoke unknown -> table_ok d -> table_ok d' /\ newer d d' /\ others id d d'.
Proof.
  intros [->|(c & C & _ & H)] T; [split; [done|split; [reflexivity|done]]|].
  assert (committed_as id c d d') as Hc by (destruct H as [->|[_ ?]]; [right; by left|done]).
  destruct (committed_as_ok id c d d' Hc T C). split_and!; try done. by eapply committed_as_others.
Qed.

Lemma tx_outcome_settled id d d' revoke :
  tx_outcome id d d' revoke false -> undecided d !! id = None -> undecided d' !! id = None.
Proof. intros [->|(c & _ & _ & [->|[? _]])] Hu; [done| |done]. cbn. apply lookup_delete_eq. Qed.

Lemma lock_row_ok tx id d k : lock_row tx id d = Ok k -> rows d !! id = Some k /\ undecided d !! id = None.
Proof.
  unfold lock_row. destruct (_ || _); [done|]. destruct (undecided d !! id), (rows d !! id); intros; by simplify_eq.
Qed.

Lemma wrap64_succ r : 0 < r <= int64_max -> r <> int64_max -> wrap64 (r + 1) = r + 1.
Proof. intros H Hn. apply wrap64_id. unfold in_int64, int64_min, int64_max in *. lia. Qed.

(** The closure of [UpdatePermissions] accepts a key only at the expected revision. *)
Lemma permissions_change_ok find input k o :
  permissions_change find input k = Ok o ->
  PermissionsRevision k = ExpectedRevision input /\ PermissionsRevision k <> int64_max /\
  exists scopes ids,
    scopes = match in_scopes input with Some l => sort_strings (uniquePermissions l) | None => Scopes k end /\
    match in_servers input with
    | Some l => resolve_servers find (ServerIDs k) l = Ok ids | None => ids = ServerIDs k end /\
    match o with
    | None => samePermissionSet (Scopes k) scopes = true /\ samePermissionSet (ServerIDs k) ids = true
    | Some (scopes', ids', ev) =>
        scopes' = scopes /\ ids' = ids /\
        samePermissionSet (Scopes k) scopes && samePermissionSet (ServerIDs k) ids = false /\
        ev = MkEvent "api_key.permissions.update" (ID k) (PermissionsRevision k) (wrap64 (PermissionsRevision k + 1))
    end.
Proof.
  unfold permissions_change. intros H.
  destruct (PermissionsRevision k =? ExpectedRevision input) eqn:E1; [|done].
  destruct (PermissionsRevision k =? int64_max) eqn:E2; [done|]. cbn [negb] in H. bools. split; [done|]. split; [done|].
  set (scopes := match in_scopes input with Some _ => _ | None => _ end) in *.
  destruct (match in_servers input with Some l => resolve_servers find (ServerIDs k) l | None => Ok (ServerIDs k) end)
    as [ids|] eqn:E3; [|done].
  exists scopes, ids. split; [done|].
  split; [destruct (in_servers input); [done|by simplify_eq]|].
  destruct (samePermissionSet (Scopes k) scopes && _) eqn:E4; [simplify_eq; by bools|].
  destruct (_ <? _); [done|]. injection H as <-. done.
Qed.

(** The row [UpdatePermissions] writes. *)
Definition updated_key (k : APIKey) (scopes : list string) (ids : list Z) (now : time) : APIKey :=
  MkKey (ID k) (UserID k) (OwnerBindingVersion k) (Name k) (KeyHash k) (KeyPrefix k) (EncryptedRawKey k) (Salt k)
    (CryptoVersion k) scopes ids (wrap64 (PermissionsRevision k + 1)) (Some now).

Lemma repo_UpdatePermissions_cases tx now id find input d d' r :
  table_ok d -> repo_UpdatePermissions tx now id (permissions_change find input) d = (d', r) ->
  match r with
  | Ok (k', changed) => exists k o, rows d !! id = Some k /\ undecided d !! id = None /\
      permissions_change find input k = Ok o /\
      match o with
      | None => changed = false /\ k' = k /\ d' = d
      | Some (scopes, ids, ev) =>
          changed = true /\ k' = updated_key k scopes ids now /\ d' = set_row id (Change (Some k') (Some ev)) d
      end
  | Err ErrAPIKeyCommitUnknown => exists c, change_ok id c d /\ committed_as id c d d'
  | Err _ => d' = d
  end.
Proof.
  intros [T _] H. unfold repo_UpdatePermissions in H.
  destruct (lock_row tx id d) as [k|e] eqn:El.
  2:{ simplify_eq. unfold lock_row in El. destruct (_ || _); [by simplify_eq|].
      destruct (undecided d' !! id), (rows d' !! id); by simplify_eq. }
  apply lock_row_ok in El as [Hk Hu]. destruct (permissions_change find input k) as [o|e] eqn:Ep.
  2:{ simplify_eq. unfold permissions_change, resolve_servers in Ep.
      repeat (case_match; simplify_eq/=; try done). }
  destruct o as [[[scopes ids] ev]|]; [|simplify_eq; exists k, None; done].
  destruct (kt_update tx); [by simplify_eq|]. destruct (kt_audit tx); [by simplify_eq|].
  change (MkKey _ _ _ _ _ _ _ _ _ _ _ _ _) with (updated_key k scopes ids now) in H.
  destruct (commit_key tx id _ d) as [d1 e1] eqn:Ec. apply commit_key_cases in Ec.
  apply permissions_change_ok in Ep as Hp. destruct Hp as (_ & Hmax & _). destruct (T id k Hk) as (Eid & Hr & _).
  destruct Ec as [(-> & ->)|[(-> & ->)|(-> & Hc)]]; simplify_eq; [|done|].
  - exists k, (Some (scopes, ids, ev)). done.
  - eexists. split; [|exact Hc]. exists k. split; [done|]. cbn. rewrite wrap64_succ by done. split; [done|].
    unfold int64_max in *. lia.
Qed.

Definition rotated_key (k : APIKey) (m : material) : APIKey :=
  MkKey (ID k) (UserID k) (OwnerBindingVersion k) (Name k) (m_hash m) (m_prefix m) (m_encrypted m) (m_salt m)
    (m_version m) (Scopes k) (ServerIDs k) (wrap64 (PermissionsRevision k + 1)) (PermissionsUpdatedAt k).

Lemma repo_Rotate_cases tx id m expected d d' r :
  table_ok d -> repo_Rotate tx id m (rotate_audit expected) d = (d', r) ->
  match r with
  | Ok k' => exists k ev, rows d !! id = Some k /\ PermissionsRevision k = expected /\ k' = rotated_key k m /\
      PermissionsRevision k' = expected + 1 /\
      change_ok id (Change (Some k') (Some ev)) d /\ d' = set_row id (Change (Some k') (Some ev)) d
  | Err ErrAPIKeyCommitUnknown => exists c, change_ok id c d /\ committed_as id c d d'
  | Err _ => d' = d
  end.
Proof.
  intros [T _] H. unfold repo_Rotate in H. destruct (lock_row tx id d) as [k|e] eqn:El.
  2:{ simplify_eq. unfold lock_row in El. destruct (_ || _); [by simplify_eq|].
      destruct (undecided d' !! id), (rows d' !! id); by simplify_eq. }
  apply lock_row_ok in El as [Hk Hu]. unfold rotate_audit in H.
  destruct (PermissionsRevision k =? expected) eqn:E1; cbn [negb orb] in H; [|by simplify_eq].
  destruct (PermissionsRevision k =? int64_max) eqn:E2; [by simplify_eq|]. bools.
  destruct (kt_update tx); [by simplify_eq|]. destruct (kt_audit tx); [by simplify_eq|].
  change (MkKey _ _ _ _ _ _ _ _ _ _ _ _ _) with (rotated_key k m) in H.
  destruct (T id k Hk) as (Eid & Hr & _).
  assert (forall ev, change_ok id (Change (Some (rotated_key k m)) ev) d) as Hok.
  { intros ev. exists k. split; [done|]. cbn. rewrite wrap64_succ by done. split; [done|]. unfold int64_max in *. lia. }
  destruct (commit_key tx id _ d) as [d1 e1] eqn:Ec. apply commit_key_cases in Ec.
  destruct Ec as [(-> & ->)|[(-> & ->)|(-> & Hc)]]; simplify_eq; [|done|].
  - eexists k, _. split_and!; try done. cbn. by apply wrap64_succ.
  - eexists. split; [apply Hok|exact Hc].
Qed.

Lemma repo_Delete_outcome tx id d d' e :
  repo_Delete tx id d = (d', e) -> undecided d !! id = None ->
  tx_outcome id d d' (bool_decide (e = None) || match e with Some ErrAPIKeyCommitUnknown => true | _ => false end)
    (match e with Some ErrAPIKeyCommitUnknown => true | _ => false end).
Proof.
  unfold repo_Delete. intros H Hu. destruct (_ || _); [simplify_eq; by left|].
  destruct (rows d !! id) as [k|] eqn:Hk; [|simplify_eq; by left].
  apply commit_key_cases in H. destruct H as [(-> & ->)|[(-> & ->)|(-> & Hc)]]; [right|by left|right];
    (exists (Change None None); split; [by exists k|]; split; [done|auto]).
Qed.

(** *** The callbacks under the gate *)

Definition callback_ok (id : Z) (fn : Z -> kworld -> kworld * bool * option key_err) : Prop :=
  forall v w w' unc e, fn v w = (w', unc, e) -> undecided (db w) !! id = None -> table_ok (db w) ->
    exists d1 revoke started, tx_outcome id (db w) d1 revoke unc /\ same_table d1 (db w') /\
      reg w' = (if revoke : bool then (MarkRevoked id started (reg w)).1.1 else reg w).

Lemma mark_terminals_spec id started revoke d w :
  db (mark_terminals id started revoke d w) = d /\
  reg (mark_terminals id started revoke d w) = (if revoke then (MarkRevoked id started (reg w)).1.1 else reg w).
Proof. unfold mark_terminals. destruct revoke; [|done]. by destruct (MarkRevoked id started (reg w)) as [[? ?] ?]. Qed.

Lemma with_v_key_same k d : same_table d (with_v_key k d).
Proof. done. Qed.

Lemma permissions_callback_ok find tx now started id input :
  callback_ok id (permissions_callback find tx now started id input).
Proof.
  intros v w w' unc e H Hu T. unfold permissions_callback in H.
  destruct (repo_UpdatePermissions _ _ _ _ _) as [d r] eqn:Er.
  apply repo_UpdatePermissions_cases in Er as Hc; [|done]. injection H as <- <- <-.
  match goal with |- context [mark_terminals _ _ ?b _ _] => set (revoke := b) end.
  eexists d, revoke, started. destruct (mark_terminals_spec id started revoke (with_v_key (match r with
    | Ok (k, _) => Some k | Err _ => None end) d) w) as [-> ->].
  split; [|split; [apply with_v_key_same|done]]. unfold revoke.
  destruct r as [[k' changed]|e].
  - destruct Hc as (k & o & Hk & _ & Hp & Ho). destruct o as [[[scopes ids] ev]|].
    + destruct Ho as (-> & -> & ->). right. eexists. split; [|split; [done|by left]].
      exists k. split; [done|]. cbn. apply permissions_change_ok in Hp as (_ & Hmax & _).
      destruct T as [T _]. destruct (T id k Hk) as (? & Hr & _). rewrite wrap64_succ by done. split; [done|].
      unfold int64_max in *. lia.
    + destruct Ho as (_ & _ & ->). by left.
  - destruct e; try (by left). destruct Hc as (c & C & Hc). right. exists c. split; [done|]. split; [done|]. by right.
Qed.

Lemma rotate_callback_ok tx started id expected m : callback_ok id (rotate_callback tx started id expected m).
Proof.
  intros v w w' unc e H Hu T. unfold rotate_callback in H.
  destruct (repo_Rotate _ _ _ _ _) as [d r] eqn:Er.
  apply repo_Rotate_cases in Er as Hc; [|done]. injection H as <- <- <-.
  match goal with |- context [mark_terminals _ _ ?b _ _] => set (revoke := b) end.
  eexists d, revoke, started. destruct (mark_terminals_spec id started revoke (with_v_key (match r with
    | Ok k => Some k | Err _ => None end) d) w) as [-> ->].
  split; [|split; [apply with_v_key_same|done]]. unfold revoke. destruct r as [k'|e].
  - destruct Hc as (k & ev & _ & _ & _ & _ & C & ->). right. eexists. split; [exact C|]. split; [done|by left].
  - destruct e; try (by left). destruct Hc as (c & C & Hc). right. exists c. split; [done|]. split; [done|]. by right.
Qed.

Lemma delete_callback_ok tx started id : callback_ok id (delete_callback tx started id).
Proof.
  intros v w w' unc e H Hu T. unfold delete_callback in H.
  destruct (repo_Delete tx id (db w)) as [d e0] eqn:Er. apply repo_Delete_outcome in Er as Ho; [|done].
  injection H as <- <- <-. eexists d, _, started.
  match goal with |- context [mark_terminals _ _ ?b ?d ?w] => destruct (mark_terminals_spec id started b d w) as [-> ->] end.
  split; [exact Ho|done].
Qed.

Lemma callback_ok_budget id fn (expired : bool) :
  callback_ok id fn ->
  callback_ok id (fun v w => match (if expired then Some KDriver else None) with Some e => (w, false, Some e) | None => fn v w end).
Proof.
  intros H. destruct expired; [|exact H]. intros v w w' unc e [= <- <- <-] Hu T.
  exists (db w), false, 0. split; [by left|done].
Qed.

(** ** The invariant *)

Record kinv (c : kgate * kworld) : Prop := {
  ki_sys : sys_inv c;
  ki_table : table_ok (db c.2);
  ki_positive : forall id s, usable (reg c.2) id s -> 0 < Version s }.

Lemma unresolved_spec d id : unresolved d id = bool_decide (is_Some (undecided d !! id)).
Proof. done. Qed.
Lemma unresolved_none d id : unresolved d id = false <-> undecided d !! id = None.
Proof. rewrite unresolved_spec, bool_decide_eq_false. split; [by intros H%eq_None_not_Some|by intros -> [? ?]]. Qed.
Lemma committed_revision d id : committed d id = Some (read_revision d id).
Proof. done. Qed.

(** A gated mutation: the invariant is kept and the table moves forward. *)
Lemma kinv_update env id fn g w g' w' err :
  kinv (g, w) -> callback_ok id fn -> Update env id fn g w = (g', w', err) ->
  kinv (g', w') /\ newer (db w) (db w').
Proof.
  intros [I T P] Hfn H.
  pose proof (Update_spec user_version user_locked_version env id fn g w (si_wired _ I) (si_free _ I id)) as S.
  rewrite H in S. destruct S as (F & [(-> & Hu & _)|(v & unc & e & Hr & Hf & _ & Hu)]).
  { split; [|reflexivity]. split; [|done|done]. cbn. eapply (inv_frame id); eauto; [rewrite Hu; apply (si_settled _ I)|apply (si_wf _ I)|].
    intros i s Hs. by apply (si_current _ I) in Hs. }
  destruct (read_current _ _ _ _ I Hr) as [Hc%unresolved_none _].
  destruct (Hfn v w w' unc e Hf Hc T) as (d1 & revoke & started & Ho & Hsame & Hreg). cbn in T.
  destruct (tx_outcome_table _ _ _ _ _ Ho T) as (T1 & N1 & O1).
  assert (others id (db w) (db w')) as O.
  { intros i Hi. destruct Hsame as (-> & -> & _). by apply O1. }
  assert (forall i s, usable (reg w') i s ->
    usable (reg w) i s /\ (revoke = true -> Registry.UserID s <> id)) as Hus.
  { intros i s Hs. rewrite Hreg in Hs. destruct revoke; [|done]. by apply usable_revoked in Hs as [? ?]. }
  split; [|etrans; [exact N1|by apply same_table_newer]]. split; cbn.
  - eapply (inv_frame id); eauto.
    + intros i Hi. rewrite !unresolved_spec. by destruct (O i Hi) as [_ ->].
    + rewrite Hu. destruct unc; [done|]. intros _. apply unresolved_none. destruct Hsame as (_ & -> & _).
      by eapply tx_outcome_settled.
    + rewrite Hreg. destruct revoke; [|apply (si_wf _ I)]. eapply wf_quiet; [apply (si_wf _ I)|apply quiet_revoke].
    + intros i s [Hs Hne]%Hus. destruct (si_current _ I _ _ Hs) as [K1 K2]. unfold is_current.
      destruct (decide (Registry.UserID s = id)) as [E|E].
      * destruct Ho as [->|(c & _ & -> & _)]; [|by destruct Hne]. destruct Hsame as (E1 & E2 & _).
        cbn in *. unfold read_revision in *. by rewrite E1, E2.
      * destruct (O _ E) as [E1 E2]. cbn in *. unfold read_revision in *. by rewrite E1, E2.
  - by apply (same_table_ok d1).
  - intros i s [Hs _]%Hus. by apply (P i s).
Qed.

(** Steps that leave the table alone and change the registry quietly. *)
Lemma kinv_quiet c g' w' :
  kinv c -> sys_inv (g', w') -> same_table (db c.2) (db w') -> quiet (reg c.2) (reg w') -> kinv (g', w').
Proof.
  intros [I T P] I' Hs Q. split; [done|by eapply same_table_ok|]. cbn. intros i s Hu.
  destruct (usable_quiet _ _ _ _ Q Hu) as (s0 & H0 & _ & E). rewrite E. by apply (P i s0).
Qed.

Lemma sys_inv_v_key k g w rv : sys_inv (g, w) -> sys_inv (g, mkWorld (with_v_key k (db w)) (reg w) rv (v_reg w)).
Proof. intros []. by split. Qed.

Lemma kinv_v_key k g w rv : kinv (g, w) -> kinv (g, mkWorld (with_v_key k (db w)) (reg w) rv (v_reg w)).
Proof. intros H. apply (kinv_quiet (g, w)); [done|apply sys_inv_v_key, H|done|reflexivity]. Qed.

Lemma finish_spec aenv w :
  db (finishPermissionChange aenv w) = db w /\
  exists o, is_register o = false /\ reg (finishPermissionChange aenv w) = exec o (reg w).
Proof.
  unfold finishPermissionChange. destruct (v_revoked w) as [|i ids].
  - split; [done|]. exists (OpAwait aenv []). done.
  - destruct (Await aenv (i :: ids) (reg w)) as [[r x] xs] eqn:Ea. split; [done|].
    exists (OpAwait aenv (i :: ids)). split; [done|]. cbn [exec]. by rewrite Ea.
Qed.

Lemma kinv_mutate env expired id aenv fn g w g' w' err :
  kinv (g, w) -> callback_ok id fn -> mutate env expired id aenv fn g w = (g', w', err) ->
  kinv (g', w') /\ newer (db w) (db w').
Proof.
  intros K Hfn H. unfold mutate, UpdateWithBudget in H. change (apiKeyMutationBudget <=? 0) with false in H. cbn [negb] in H.
  destruct (Update _ _ _ _ _) as [[g1 w1] e1] eqn:Eu. simplify_eq.
  destruct (kinv_update _ _ _ _ _ _ _ _ (kinv_v_key None g w [] K) (callback_ok_budget id fn expired Hfn) Eu) as [K1 N1].
  destruct (finish_spec aenv w1) as (Ed & o & Ho & Er). rewrite Ed. split; [|exact N1].
  apply (kinv_quiet (g', w1)); [done| |by rewrite Ed|].
  - pose proof (inv_registry o g' w1 Ho (ki_sys _ K1)) as I. destruct I as [I1 I2 I3 I4 I5].
    split; cbn in *; rewrite ?Ed, ?Er; done.
  - cbn. rewrite Er. by apply exec_quiet.
Qed.

(** A gated call whose callback leaves the table alone. *)
Lemma kinv_admit {E} env u (fn : Z -> kworld -> kworld * option E) g w g' w' err :
  (forall v w, same_table (db w) (db (fn v w).1) /\ quiet (reg w) (reg (fn v w).1)) ->
  kinv (g, w) -> Gate.Admit env u fn g w = (g', w', err) -> kinv (g', w') /\ same_table (db w) (db w').
Proof.
  intros Hfn [I T P] H.
  pose proof (Admit_spec user_version user_locked_version env u fn g w (si_wired _ I) (si_free _ I u)) as S.
  rewrite H in S. destruct S as (F & [(-> & Hu & _)|(v & e & Hr & Hf & _ & Hu)]).
  { split; [|done]. split; [|done|done]. cbn. eapply (inv_frame u); eauto; [rewrite Hu; apply (si_settled _ I)|apply (si_wf _ I)|].
    intros i s Hs. by apply (si_current _ I) in Hs. }
  destruct (Hfn v w) as [Hs Q]. rewrite Hf in Hs, Q. cbn in Hs, Q. split; [|done].
  pose proof (read_current _ _ _ _ I Hr) as [Hc _].
  apply (kinv_quiet (g, w)); [done| |done|done].
  destruct Hs as (E1 & E2 & E3 & _). assert (forall i, unresolved (db w') i = unresolved (db w) i) as Hun.
  { intros i. rewrite !unresolved_spec. by rewrite E2. }
  eapply (inv_frame u); eauto.
  - eapply wf_quiet; [apply (si_wf _ I)|done].
  - intros i s Hus. destruct (usable_quiet _ _ _ _ Q Hus) as (s0 & U0 & -> & ->).
    destruct (si_current _ I _ _ U0) as [K1 K2]. split; [exact (eq_trans (Hun _) K1)|].
    cbn in *. unfold read_revision in *. by rewrite E1.
Qed.

Lemma validate_callback_same fails hash v w :
  same_table (db w) (db (validate_callback fails hash v w).1) /\ quiet (reg w) (reg (validate_callback fails hash v w).1).
Proof.
  unfold validate_callback. destruct (v_key (db w)) as [key|]; [|split; [done|reflexivity]].
  destruct (v =? 0); [split; [done|reflexivity]|].
  destruct (if v =? _ then _ else _); (split; [done|reflexivity]).
Qed.

Lemma kinv_validate env fails hash key g w g' w' res :
  kinv (g, w) -> Validate env fails hash key g w = (g', w', res) -> kinv (g', w') /\ same_table (db w) (db w').
Proof.
  intros K H. unfold Validate in H. destruct (Gate.Admit _ _ _ _ _) as [[g1 w1] e] eqn:Ea. simplify_eq.
  destruct (kinv_admit _ _ _ _ _ _ _ _ (validate_callback_same fails hash) (kinv_v_key (Some key) g w (v_revoked w) K) Ea).
  done.
Qed.

Lemma kinv_register env id v g w g' w' res :
  0 < v -> next (reg w) + 1 < uint64_mod -> kinv (g, w) ->
  terminal_register env id v g w = (g', w', res) -> kinv (g', w') /\ db w' = db w.
Proof.
  intros Hv Hb [I T P] H. pose proof (inv_register _ _ _ _ _ _ _ _ Hb I H) as I'.
  assert (db w' = db w /\ forall i s, usable (reg w') i s -> usable (reg w) i s \/ Version s = v) as [Ed Hus].
  { unfold terminal_register in H.
    match type of H with Gate.Admit _ _ ?f _ _ = _ =>
      pose proof (Admit_spec user_version user_locked_version env id f g w (si_wired _ I) (si_free _ I id)) as S end.
    rewrite H in S. destruct S as (_ & [(-> & _)|(v' & e & _ & Hf & _)]); [split; [done|by left]|].
    destruct (v =? v') eqn:Ev; cbn [negb] in Hf; [|simplify_eq; split; [done|by left]]. bools. subst v'.
    destruct (Register id v true true (reg w)) as [r s0] eqn:Er. simplify_eq. split; [done|].
    intros i s (Hh & Hl & Hst). assert (r = (Register id v true true (reg w)).1) as -> by by rewrite Er.
    cbn in Hh, Hl. rewrite lookup_insert in Hh. case_decide; simplify_eq/=; [by right|]. left. split; [done|].
    split; [set_solver|done]. }
  split; [|done]. split; [done|cbn; by rewrite Ed|]. cbn. intros i s [Hu| ->]%Hus; [by apply (P i s)|done].
Qed.

Lemma create_ok fails k d d' k' :
  table_ok d -> repo_Create fails k d = (d', Ok k') ->
  table_ok d' /\ newer d d' /\ undecided d' = undecided d /\ rows d !! next_id d = None /\
  (forall i, i <> next_id d -> rows d' !! i = rows d !! i) /\ next_id d' = next_id d + 1.
Proof.
  intros [T1 T2] H. unfold repo_Create in H. destruct fails; [done|]. injection H as <- <-.
  assert (rows d !! next_id d = None) as Hf.
  { destruct (rows d !! next_id d) eqn:E; [|done]. destruct (T1 _ _ E) as (_ & _ & ?). lia. }
  split_and!; try done; cbn.
  - split; cbn.
    + intros i k0 [[<- <-]|[Hne Hk]]%lookup_insert_Some; cbn; [unfold int64_max; lia|].
      destruct (T1 i k0 Hk) as (? & ? & ?). split_and!; try done; lia.
    + intros i c Hc. destruct (T2 i c Hc) as (k0 & Hk & Hrest). exists k0. rewrite lookup_insert_ne; [done|].
      intros <-. congruence.
  - split; cbn; [lia|]. intros i k0 [[<- <-]|[Hne Hk]]%lookup_insert_Some; [right; lia|left].
    exists k0. split; [done|by right].
  - intros i Hi. by rewrite lookup_insert_ne.
Qed.

Lemma bind_rows_spec admin locked ids m i :
  match m !! i with
  | None => foldr (bind_row admin locked) m ids !! i = None
  | Some k => exists k', foldr (bind_row admin locked) m ids !! i = Some k' /\ same_policy k k' /\ ID k' = ID k
  end.
Proof.
  induction ids as [|j ids IH]; cbn [foldr]; [destruct (m !! i) as [k|]; [by exists k|done]|].
  set (m' := foldr _ m ids) in *. clearbody m'. unfold bind_row.
  destruct (m' !! j) as [kj|] eqn:Ej; [|done]. destruct (locked !! j); [done|]. destruct (bindable kj); [|done].
  destruct (decide (j = i)) as [->|Hne]; [|destruct (m !! i); by rewrite lookup_insert_ne].
  rewrite lookup_insert_eq. destruct (m !! i) as [k|]; [|congruence].
  destruct IH as (k' & Hk' & Hs & Hid). rewrite Ej in Hk'. injection Hk' as ->. eexists. split; [done|]. split; [|done].
  unfold same_policy in *. rewrite Hs. done.
Qed.

(** A step outside the gate that changes the table only: what the sessions rely on must
    stay. *)
Lemma kinv_table g w d' :
  kinv (g, w) -> table_ok d' ->
  (forall i, undecided (db w) !! i = None -> undecided d' !! i = None) ->
  (forall i, undecided (db w) !! i = None -> 0 < read_revision (db w) i -> read_revision d' i = read_revision (db w) i) ->
  kinv (g, mkWorld d' (reg w) (v_revoked w) (v_reg w)).
Proof.
  intros [I T P] T' Hu Hr. destruct I as [I1 I2 I3 I4 I5]. split; [split; cbn in *; try done|done|done].
  - intros u E. apply unresolved_none, Hu, unresolved_none, (I4 u E).
  - intros i s Hs. destruct (I5 i s Hs) as [K1 K2]. injection K2 as K2. apply unresolved_none in K1.
    split; [by apply unresolved_none, Hu|]. f_equal. rewrite Hr; [done|done|]. rewrite K2. by apply (P i s).
Qed.

Lemma kinv_create g w k d' k' fails :
  kinv (g, w) -> repo_Create fails k (db w) = (d', Ok k') ->
  kinv (g, mkWorld d' (reg w) (v_revoked w) (v_reg w)) /\ newer (db w) d'.
Proof.
  intros K H. destruct (create_ok _ _ _ _ _ (ki_table _ K) H) as (T' & N & Eu & Hf & Ho & _). split; [|done].
  apply kinv_table; [done|done|by rewrite Eu|]. intros i _ Hpos. unfold read_revision in *. rewrite Ho; [done|].
  intros ->. cbn in Hf, Hpos. by rewrite Hf in Hpos.
Qed.

Lemma kinv_owner g w admin ids :
  kinv (g, w) ->
  kinv (g, mkWorld (BindUnownedToDefaultAdmin admin ids (db w)) (reg w) (v_revoked w) (v_reg w)) /\
  newer (db w) (BindUnownedToDefaultAdmin admin ids (db w)).
Proof.
  intros K. destruct (ki_table _ K) as [T1 T2]. cbn in T1, T2.
  pose proof (bind_rows_spec admin (undecided (db w)) ids (rows (db w))) as Hb.
  assert (forall i k', rows (BindUnownedToDefaultAdmin admin ids (db w)) !! i = Some k' ->
    exists k, rows (db w) !! i = Some k /\ same_policy k k' /\ ID k' = ID k) as Hrow.
  { intros i k' Hk'. cbn in Hk'. specialize (Hb i). destruct (rows (db w) !! i) as [k|]; [|congruence].
    exists k. destruct Hb as (k2 & E2 & ?). split; [done|]. congruence. }
  split; [apply kinv_table; [done|split|done|]|split; [cbn; lia|]].
  - intros i k' Hk'. destruct (Hrow i k' Hk') as (k & Hk & Hs & Hid). destruct (T1 i k Hk) as (? & ? & ?).
    rewrite Hid, <- (same_policy_revision k k' Hs). done.
  - intros i c Hc. destruct (T2 i c Hc) as (k & Hk & Hrest). specialize (Hb i). rewrite Hk in Hb.
    destruct Hb as (k' & Hk' & Hs & Hid). exists k'. split; [done|]. destruct (after c); [|done].
    by rewrite <- (same_policy_revision k k' Hs).
  - intros i _ _. unfold read_revision. specialize (Hb i). destruct (rows (db w) !! i) as [k|].
    + destruct Hb as (k' & Hk' & Hs & _). cbn. rewrite Hk'. cbn. by rewrite (same_policy_revision k k' Hs).
    + cbn. by rewrite Hb.
  - intros i k' Hk'. left. destruct (Hrow i k' Hk') as (k & Hk & Hs & _). exists k. split; [done|by right].
Qed.

Lemma kinv_decide g w id c (applied : bool) :
  kinv (g, w) -> undecided (db w) !! id = Some c ->
  kinv (g, mkWorld (if applied then set_row id c (db w) else discard id (db w)) (reg w) (v_revoked w) (v_reg w)) /\
  newer (db w) (if applied then set_row id c (db w) else discard id (db w)).
Proof.
  intros K Hc. pose proof (ki_table _ K) as T. cbn in T. assert (change_ok id c (db w)) as Hok by by apply T.
  destruct (set_row_ok id c _ T Hok) as [T' N'].
  assert (forall i, undecided (db w) !! i = None -> i <> id) as Hne by (intros i Hi ->; congruence).
  destruct applied; (split; [apply kinv_table; [done| | |]|]); try done.
  - intros i Hi. cbn. by rewrite lookup_delete_ne by (intros ->; by eapply Hne).
  - intros i Hi _. unfold read_revision. cbn. by rewrite lookup_partial_alter_ne by (intros ->; by eapply Hne).
  - destruct T as [T1 T2]. split; [done|]. intros i c' Hc'. cbn in Hc'. apply lookup_delete_Some in Hc' as [_ Hc']. by apply T2.
  - intros i Hi. cbn. by rewrite lookup_delete_ne by (intros ->; by eapply Hne).
  - split; [cbn; lia|]. intros i k' Hk'. left. exists k'. split; [done|by right].
Qed.

Lemma kinv_step c c' : kinv c -> key_step c c' -> kinv c' /\ newer (db c.2) (db c'.2).
Proof.
  intros K Hs. destruct Hs as [admin env expired tx now started aenv find id input g w g' w' res H
    |admin env expired tx started aenv m id expected g w g' w' res H|admin env expired tx started aenv id g w g' w' res H
    |admin user servers fails now m name scopes serverIDs g w g' w' res H|env fails hash key g w g' w' res H|admin ids g w
    |env id revision g w g' w' res Hv Hb H|env s g w g' w' res H|env s g w g' w' res H|env id g w g' w' res H|o g w Ho
    |id c applied g w Hc]; cbn.
  - unfold UpdatePermissions in H. repeat (case_match; try by (simplify_eq; split; [done|reflexivity]));
      simplify_eq; eapply kinv_mutate; eauto using permissions_callback_ok.
  - unfold Rotate in H. repeat (case_match; try by (simplify_eq; split; [done|reflexivity]));
      simplify_eq; eapply kinv_mutate; eauto using rotate_callback_ok.
  - unfold Delete in H. repeat (case_match; try by (simplify_eq; split; [done|reflexivity]));
      simplify_eq; eapply kinv_mutate; eauto using delete_callback_ok.
  - unfold Create in H. repeat (case_match; try by (simplify_eq; split; [done|reflexivity])); simplify_eq.
    cbn. by eapply kinv_create.
  - destruct (kinv_validate _ _ _ _ _ _ _ _ _ K H). split; [done|by apply same_table_newer].
  - by apply kinv_owner.
  - destruct (kinv_register _ _ _ _ _ _ _ _ Hv Hb K H) as [? ->]. split; [done|reflexivity].
  - eapply kinv_admit in H as [? ?]; [split; [done|by apply same_table_newer]| |done].
    intros v w0. destruct (negb _); [split; [done|reflexivity]|].
    pose proof (quiet_admit (Registry.ID s) (reg w0)). by destruct (Registry.Admit _ _).
  - eapply kinv_admit in H as [? ?]; [split; [done|by apply same_table_newer]| |done].
    intros v w0. destruct (_ || _); split; done || reflexivity.
  - eapply kinv_admit in H as [? ?]; [split; [done|by apply same_table_newer]| |done].
    intros v w0. split; [done|reflexivity].
  - split; [|reflexivity]. assert (is_register o = false) as Ho' by by destruct o.
    apply (kinv_quiet (g, w)); [done|by apply inv_registry; [|apply (ki_sys _ K)]|done|by apply exec_quiet].
  - by apply kinv_decide.
Qed.

Lemma kinv_steps c c' : kinv c -> rtc key_step c c' -> kinv c' /\ newer (db c.2) (db c'.2).
Proof.
  intros K H. induction H as [c|c1 c2 c3 Hs _ IH]; [split; [done|reflexivity]|].
  destruct (kinv_step _ _ K Hs) as [K2 N]. destruct (IH K2) as [K3 N3]. split; [done|by etrans].
Qed.

Lemma kinv_reachable c : key_reachable c -> kinv c.
Proof.
  intros (d & T & Hu & H). refine (proj1 (kinv_steps _ _ _ H)). split; [|done|].
  - split; cbn; try done.
    intros id s (_ & Hl & _). cbn in Hl. set_solver.
  - intros id s (_ & Hl & _). cbn in Hl. set_solver.
Qed.

(** What a gated mutation ran, when it ran. *)
Lemma mutate_cases env expired id aenv fn g w g' w' err :
  kinv (g, w) -> mutate env expired id aenv fn g w = (g', w', err) ->
  let w0 := mkWorld (with_v_key None (db w)) (reg w) [] (v_reg w) in
  (exists e, err = Some e /\ apiKeyPolicyError e = app 503 "unavailable" /\ same_table (db w) (db w')) \/
  (exists v w1 unc e, undecided (db w) !! id = None /\ fn v w0 = (w1, unc, e) /\ err = FnErr <$> e /\
     db w' = db w1 /\ quiet (reg w1) (reg w')).
Proof.
  intros K H. unfold mutate, UpdateWithBudget in H. change (apiKeyMutationBudget <=? 0) with false in H.
  destruct (Update _ _ _ _ _) as [[g1 w1] e1] eqn:Eu. simplify_eq. cbn zeta.
  destruct (finish_spec aenv w1) as (Ed & o & Ho & Er).
  assert (quiet (reg w1) (reg (finishPermissionChange aenv w1))) as Q by (rewrite Er; by apply exec_quiet).
  pose proof (kinv_v_key None g w [] K) as [I _ _].
  match type of Eu with Update _ _ ?f _ ?w0 = _ =>
    pose proof (Update_spec user_version user_locked_version env id f g w0 (si_wired _ I) (si_free _ I id)) as S end.
  rewrite Eu in S. destruct S as (_ & [(-> & _ & He)|(v & unc & e & Hr & Hf & -> & _)]).
  { left. rewrite Ed. destruct He as [->|[x ->]]; eexists; split; [done|done|done|done]. }
  destruct expired; [injection Hf as <- <- <-; left; rewrite Ed; by eexists|].
  right. exists v, w1, unc, e. apply (read_current _ _ _ _ I) in Hr as [Hc _]. apply unresolved_none in Hc. done.
Qed.

Lemma not_found_answer e : apiKeyPolicyError e = app 503 "unavailable" \/ exists x, e = FnErr x.
Proof. destruct e; eauto. Qed.

(** ** The properties *)

(** C15: A request is admitted with an API key only if, at that moment, the key's row is
    committed, no transaction on it is undecided, its hash is the hash of the presented
    secret, and the scopes, servers and revision given to the request are the committed
    ones; even when the row was looked up by hash arbitrarily earlier and policies changed,
    secrets were rotated, keys deleted and owners assigned in between. *)
Theorem validate_current c0 g w hash key env fails g' w' key' :
  key_reachable c0 -> FindByHash hash (db c0.2) = Some key -> rtc key_step c0 (g, w) ->
  Validate env fails hash key g w = (g', w', Ok key') ->
  undecided (db w) !! ID key = None /\
  exists k, rows (db w) !! ID key = Some k /\ KeyHash k = hash /\ Scopes key' = Scopes k /\
    ServerIDs key' = ServerIDs k /\ PermissionsRevision key' = PermissionsRevision k /\ ID key' = ID key.
Proof.
  intros R0 Hfind R H. apply kinv_reachable in R0 as K0. destruct (kinv_steps _ _ K0 R) as [K [_ N]].
  assert (rows (db c0.2) !! ID key = Some key /\ KeyHash key = hash) as [Hk0 _].
  { unfold FindByHash in Hfind. apply head_Some_elem_of, list_elem_of_filter in Hfind as [Hh Hin].
    apply list_elem_of_fmap in Hin as ([i k] & -> & Hin). apply elem_of_map_to_list in Hin.
    destruct (ki_table _ K0) as [T _]. destruct (T _ _ Hin) as (<- & _). done. }
  unfold Validate in H. pose proof (kinv_v_key (Some key) g w (v_revoked w) K) as [I T _].
  match type of H with context [Gate.Admit _ _ ?f _ ?w0] =>
    pose proof (Admit_spec user_version user_locked_version env (ID key) f g w0 (si_wired _ I) (si_free _ I _)) as S end.
  destruct (Gate.Admit _ _ _ _ _) as [[g1 w1] e]. destruct S as (_ & [(_ & _ & [->|[x ->]])|(v & e1 & Hr & Hf & -> & _)]).
  { simplify_eq. }
  { simplify_eq. }
  apply (read_current _ _ _ _ I) in Hr as [Hu Hc]. apply unresolved_none in Hu. cbn in Hu. split; [done|].
  injection Hc as Hc. unfold read_revision in Hc. cbn in Hc.
  unfold validate_callback in Hf. cbn [v_key db with_v_key] in Hf. destruct (v =? 0) eqn:Ev0; [simplify_eq|]. bools.
  destruct (rows (db w) !! ID key) as [k|] eqn:Hk; [|done]. cbn in Hc. exists k. split; [done|].
  destruct (v =? PermissionsRevision key) eqn:Ev; bools.
  - simplify_eq/=. destruct (bool_decide (KeyHash key = hash)) eqn:Eh; simplify_eq/=. bools.
    destruct (N _ _ Hk) as [(k1 & Hk1 & Hp)|Hle].
    + rewrite Hk0 in Hk1. injection Hk1 as <-. destruct Hp as [Hp|Hp]; [lia|]. unfold same_policy, bind_owner in Hp.
      injection Hp as ? ? ? ? ? ? ? ? ? ? ?. split_and!; congruence.
    + destruct (ki_table _ K0) as [T0 _]. destruct (T0 _ _ Hk0) as (_ & _ & ?). lia.
  - cbn [FindByID] in Hf. unfold FindByID in Hf. cbn [rows db with_v_key] in Hf. destruct fails; [simplify_eq/=|].
    rewrite Hk in Hf. simplify_eq/=. destruct (bool_decide (KeyHash k = hash)) eqn:Eh; simplify_eq/=. bools.
    destruct (ki_table _ K) as [T0 _]. destruct (T0 _ _ Hk) as (? & _). done.
Qed.

(** C16: A terminal opened with an API key accepts input only while the key's committed
    revision is the one the terminal was opened under and no transaction on the key is
    undecided: a policy change, a rotation or a deletion ends it. *)
Theorem key_terminal_current c g w env s g' w' :
  key_reachable c -> c = (g, w) ->
  terminal_input env (Registry.UserID s) s g w = (g', w', None) ->
  undecided (db w') !! Registry.UserID s = None /\ read_revision (db w') (Registry.UserID s) = Version s.
Proof.
  intros R -> H. apply kinv_reachable in R as [I _ _]. unfold terminal_input in H.
  match type of H with Gate.Admit _ ?u ?f _ _ = _ =>
    pose proof (Admit_spec user_version user_locked_version env u f g w (si_wired _ I) (si_free _ I u)) as S end.
  rewrite H in S. destruct S as (_ & [(_ & _ & [|[]])|(v & e & Hr & Hf & He & _)]); [done..|].
  destruct (read_current _ _ _ _ I Hr) as [K1%unresolved_none K2]. injection K2 as K2.
  destruct (_ || _) eqn:E; simplify_eq/=. bools. split; [done|congruence].
Qed.

(** What a successful [UpdatePermissions] means, from the world it started in to the one
    it ended in. *)
Definition permissions_updated (started : time) (id : Z) (input : UpdateInput) (w w' : kworld) (o : option APIKey) : Prop :=
  exists k k', o = Some k' /\ rows (db w) !! id = Some k /\ rows (db w') !! id = Some k' /\
      PermissionsRevision k = ExpectedRevision input /\ ID k' = id /\ KeyHash k' = KeyHash k /\ Name k' = Name k /\
      (forall s, s ∈ Scopes k' <-> s ∈ default (Scopes k) (in_scopes input)) /\
      (forall i, i ∈ ServerIDs k' <-> i ∈ default (ServerIDs k) (in_servers input)) /\
      (if samePermissionSet (Scopes k) (default (Scopes k) (in_scopes input)) &&
          samePermissionSet (ServerIDs k) (default (ServerIDs k) (in_servers input))
       then k' = k /\ same_table (db w) (db w') /\ quiet (reg w) (reg w')
       else PermissionsRevision k' = PermissionsRevision k + 1 /\
         (exists ev, audits (db w') = audits (db w) ++ [ev] /\ ae_key ev = id /\ ae_before ev = PermissionsRevision k /\
            ae_after ev = PermissionsRevision k') /\
         quiet (MarkRevoked id started (reg w)).1.1 (reg w')).

Lemma permissions_callback_success find tx now started id input v w w' unc :
  table_ok (db w) -> permissions_callback find tx now started id input v w = (w', unc, None) ->
  permissions_updated started id input w w' (v_key (db w')).
Proof.
  intros T H. unfold permissions_callback in H.
  destruct (repo_UpdatePermissions _ _ _ _ _) as [d r] eqn:Er.
  apply repo_UpdatePermissions_cases in Er as Hc; [|done]. destruct r as [[k' changed]|e]; [|simplify_eq].
  destruct Hc as (k & o & Hk & _ & Hp & Ho). apply permissions_change_ok in Hp as (Erev & Hmax & scopes & ids & Es & Ei & Hp).
  destruct T as [T _]. destruct (T id k Hk) as (Eid & Hr & _).
  assert (forall s, s ∈ scopes <-> s ∈ default (Scopes k) (in_scopes input)) as Hs.
  { intros s. rewrite Es. destruct (in_scopes input); cbn; [apply sort_strings_elem|done]. }
  assert (forall i, i ∈ ids <-> i ∈ default (ServerIDs k) (in_servers input)) as Hi.
  { intros i. destruct (in_servers input) as [l|]; cbn; [|by rewrite Ei].
    unfold resolve_servers in Ei. repeat (case_match; simplify_eq/=; try done); apply sort_ids_elem. }
  assert (samePermissionSet (Scopes k) (default (Scopes k) (in_scopes input)) = samePermissionSet (Scopes k) scopes /\
          samePermissionSet (ServerIDs k) (default (ServerIDs k) (in_servers input)) = samePermissionSet (ServerIDs k) ids)
    as [Q1 Q2] by (split; apply eq_true_iff_eq; rewrite !samePermissionSet_spec; setoid_rewrite Hs || setoid_rewrite Hi; done).
  unfold permissions_updated. exists k, k'. rewrite Q1, Q2. injection H as <- <-.
  match goal with |- context [mark_terminals _ _ ?b ?d ?w] => destruct (mark_terminals_spec id started b d w) as [-> ->] end.
  cbn [v_key db with_v_key rows audits]. split; [done|]. split; [done|].
  destruct o as [[[scopes' ids'] ev]|].
  - destruct Hp as (-> & -> & -> & ->), Ho as (-> & -> & ->). cbn.
    rewrite lookup_partial_alter_eq, wrap64_succ by done. split_and!; try done. by eexists.
  - destruct Hp as [P1 P2], Ho as (-> & -> & ->). rewrite P1, P2. cbn.
    rewrite samePermissionSet_spec in P1. rewrite samePermissionSet_spec in P2. split_and!; try done.
    + intros s. by rewrite <- Hs.
    + intros i. by rewrite <- Hi.
Qed.

Lemma permissions_callback_failure find tx now started id input v w w' unc e :
  table_ok (db w) -> permissions_callback find tx now started id input v w = (w', unc, Some e) ->
  same_table (db w) (db w') \/
  (e = ErrAPIKeyCommitUnknown /\ exists d c, committed_as id c (db w) d /\ change_ok id c (db w) /\ same_table d (db w')).
Proof.
  intros T H. unfold permissions_callback in H.
  destruct (repo_UpdatePermissions _ _ _ _ _) as [d r] eqn:Er.
  apply repo_UpdatePermissions_cases in Er as Hc; [|done]. destruct r as [?|e0]; [simplify_eq|].
  injection H as <- <- <-.
  match goal with |- context [mark_terminals _ _ ?b ?d ?w] => destruct (mark_terminals_spec id started b d w) as [-> _] end.
  destruct e0; try (subst d; by left). right. split; [done|]. destruct Hc as (c & C & Hc). by exists d, c.
Qed.

(** [UpdatePermissions] either refuses and leaves every policy, secret and audit event
    as it was (or, when the COMMIT was lost, answers 503 with the change applied, discarded
    or undecided), or returns the row as committed: it was at the expected revision,
    identity and secret are untouched, the scopes and servers are as sets the requested ones
    where requested and the old ones elsewhere; and when they differ, the revision is the
    next one, one audit event is stored with it and the key's terminals are revoked, while
    an equal policy changes nothing. *)
Theorem update_permissions_result admin env expired tx now started aenv find id input g w g' w' res :
  key_reachable (g, w) ->
  UpdatePermissions admin env expired tx now started aenv find id input g w = (g', w', res) ->
  match res with
  | Err e => same_table (db w) (db w') \/
      (e = app 503 "unavailable" /\ exists d c, committed_as id c (db w) d /\ change_ok id c (db w) /\ same_table d (db w'))
  | Ok o => permissions_updated started id input w w' o
  end.
Proof.
  intros R H. apply kinv_reachable in R as K. pose proof (ki_table _ K) as T. cbn in T. unfold UpdatePermissions in H.
  destruct (negb admin); [simplify_eq; by left|]. destruct (_ || _); [simplify_eq; by left|].
  assert ((exists e, (g', w', res) = (g, w, Err e)) \/ exists err,
    mutate env expired id aenv (permissions_callback find tx now started id input) g w = (g', w', err) /\
    res = match err with None => Ok (v_key (db w')) | Some e => Err (apiKeyPolicyError e) end) as Hm.
  { destruct (mutate _ _ _ _ _ _ _) as [[g1 w1] err]. repeat (case_match; simplify_eq/=); eauto. }
  clear H. destruct Hm as [[e ?]|(err & Em & ->)]; [simplify_eq; by left|].
  apply mutate_cases in Em as [(e & -> & -> & Hs)|(v & w1 & unc & e & Hu & Hf & -> & Ed & Q)]; [by left| |done].
  destruct e as [e|]; cbn [fmap option_fmap option_map].
  - apply permissions_callback_failure in Hf as [Hs|(-> & d & c & Hd)]; [| |done]; rewrite Ed; [by left|].
    right. split; [done|]. exists (with_v_key (v_key (db w)) d), c. split; [|apply Hd].
    apply committed_as_v_key, Hd.
  - apply permissions_callback_success in Hf as (k & k' & Hv & Hk & Hk' & Er & Ei & Eh & En & Hss & His & Hc); [|done].
    unfold permissions_updated. rewrite !Ed. exists k, k'. split_and!; try done.
    destruct (_ && _); [destruct Hc as (-> & Hs & Q'); split_and!; [done|done|by etrans]|].
    destruct Hc as (Hr & Ha & Q'). split_and!; [done|done|by etrans].
Qed.

(** A successful mutation found the row at the revision it expected. *)
Lemma update_expected admin env expired tx now started aenv find id input g w g' w' o :
  kinv (g, w) -> UpdatePermissions admin env expired tx now started aenv find id input g w = (g', w', Ok o) ->
  exists k, rows (db w) !! id = Some k /\ PermissionsRevision k = ExpectedRevision input.
Proof.
  intros K H. unfold UpdatePermissions in H. destruct (negb admin); [done|]. destruct (_ || _); [done|].
  assert (exists err, mutate env expired id aenv (permissions_callback find tx now started id input) g w = (g', w', err) /\ err = None)
    as (err & Em & ->).
  { destruct (mutate _ _ _ _ _ _ _) as [[g1 w1] err]. repeat (case_match; simplify_eq/=); eauto. }
  apply mutate_cases in Em as [(e & [=] & _)|(v & w1 & unc & [e|] & Hu & Hf & [=] & Ed & Q)]; [|done].
  apply permissions_callback_success in Hf as (k & k' & _ & Hk & _ & Er & _); [|apply (ki_table _ K)]. by exists k.
Qed.

Lemma rotate_expected admin env expired tx started aenv m id expected g w g' w' o :
  kinv (g, w) -> Rotate admin env expired tx started aenv m id expected g w = (g', w', Ok o) ->
  exists k, rows (db w) !! id = Some k /\ PermissionsRevision k = expected.
Proof.
  intros K H. unfold Rotate in H. destruct (negb admin); [done|]. destruct (expected <=? 0); [done|].
  destruct (mutate _ _ _ _ _ _ _) as [[g1 w1] err] eqn:Em. destruct err; [done|].
  apply mutate_cases in Em as [(e & [=] & _)|(v & w2 & unc & [e|] & Hu & Hf & [=] & Ed & Q)]; [|done].
  unfold rotate_callback in Hf. destruct (repo_Rotate _ _ _ _ _) as [d r] eqn:Er. injection Hf as _ _ He.
  apply repo_Rotate_cases in Er; [|apply (ki_table _ K)]. destruct r as [k'|]; [|done].
  destruct Er as (k & _ & Hk & Erev & _). by exists k.
Qed.

(** Two changes of one key never both succeed on the same expected revision: once
    [UpdatePermissions] has changed the policy of a key, no later update or rotation that
    expects the revision it replaced succeeds, whatever happened in between. *)
Theorem revision_conflict admin env expired tx now started aenv find id input g w g1 w1 k1 g2 w2 :
  key_reachable (g, w) ->
  UpdatePermissions admin env expired tx now started aenv find id input g w = (g1, w1, Ok (Some k1)) ->
  PermissionsRevision k1 = ExpectedRevision input + 1 -> rtc key_step (g1, w1) (g2, w2) ->
  (forall admin' env' expired' tx' now' started' aenv' find' input' g3 w3 o,
     ExpectedRevision input' = ExpectedRevision input ->
     UpdatePermissions admin' env' expired' tx' now' started' aenv' find' id input' g2 w2 <> (g3, w3, Ok o)) /\
  (forall admin' env' expired' tx' started' aenv' m g3 w3 o,
     Rotate admin' env' expired' tx' started' aenv' m id (ExpectedRevision input) g2 w2 <> (g3, w3, Ok o)).
Proof.
  intros R H Hk1 R2. apply kinv_reachable in R as K.
  assert (key_step (g, w) (g1, w1)) as Hs by by eapply K_update.
  destruct (kinv_step _ _ K Hs) as [K1 _]. destruct (kinv_steps _ _ K1 R2) as [K2 [_ N]].
  assert (rows (db w1) !! id = Some k1) as Hrow.
  { assert (exists e, mutate env expired id aenv (permissions_callback find tx now started id input) g w = (g1, w1, e) /\
      e = None /\ v_key (db w1) = Some k1) as (err & Em & -> & Hv).
    { unfold UpdatePermissions in H. destruct (negb admin); [done|]. destruct (_ || _); [done|].
      destruct (mutate _ _ _ _ _ _ _) as [[g9 w9] err]. repeat (case_match; simplify_eq/=); eauto. }
    apply mutate_cases in Em as [(e & [=] & _)|(v & w9 & unc & [e|] & Hu & Hf & [=] & Ed & Q)]; [|done].
    apply permissions_callback_success in Hf as (k & k' & Hv' & _ & Hk' & _); [|apply (ki_table _ K)].
    rewrite Ed in *. congruence. }
  assert (forall k, rows (db w2) !! id = Some k -> PermissionsRevision k <> ExpectedRevision input) as Hno.
  { intros k Hk E. destruct (N id k Hk) as [(k' & Hk' & Hp)|Hle]; cbn in *.
    - rewrite Hrow in Hk'. injection Hk' as <-. destruct Hp as [|Hp%same_policy_revision]; lia.
    - destruct (ki_table _ K1) as [T _]. destruct (T _ _ Hrow) as (_ & _ & ?). cbn in *. lia. }
  split; intros.
  - intros Hu. destruct (update_expected _ _ _ _ _ _ _ _ _ _ _ _ _ _ _ K2 Hu) as (k & Hk & E). apply (Hno k Hk). congruence.
  - intros Hu. destruct (rotate_expected _ _ _ _ _ _ _ _ _ _ _ _ _ _ K2 Hu) as (k & Hk & E). by apply (Hno k Hk).
Qed.
End service.

(** ** Witnesses

    A table with key 5 at revision 1; its policy is narrowed. *)
Definition demo_length (_ : list string) (_ : list Z) (_ : list string) (_ : list Z) : Z := 100.
Definition demo_key : APIKey := MkKey 5 1 1 "ci" "hash-a" "aaaa" "enc" "salt" 1 ["servers:read"; "servers:exec"] [] 1 None.
Definition demo_table : keydata := KeyData {[5 := demo_key]} ∅ 6 [] None.
Definition demo_env : call_env := mkCall None None None.
Definition demo_key_tx : key_tx := KeyTx false false false false None Applied.
Definition demo_settle (_ : Z) : settle_env := mkEnv None 0 false false.
Definition demo_start := key_initial demo_table.
Definition demo_input : UpdateInput := MkInput 1 (Some ["servers:read"; "servers:read"]) (Some [3]).
Definition demo_servers (ids : list Z) : option (list Z) := Some ids.
Definition demo_update := UpdatePermissions demo_length true demo_env false demo_key_tx 100 100 demo_settle demo_servers 5 demo_input
  demo_start.1 demo_start.2.
Definition demo_key2 : APIKey := MkKey 5 1 1 "ci" "hash-a" "aaaa" "enc" "salt" 1 ["servers:read"] [3] 2 (Some 100).

Lemma demo_start_reachable : key_reachable demo_length (demo_start.1, demo_start.2).
Proof.
  exists demo_table. split; [split|split; [done|apply rtc_refl]].
  - intros id k. cbn. intros [<- <-]%lookup_singleton_Some. by vm_compute.
  - intros id c. cbn. by rewrite lookup_empty.
Qed.

Lemma update_permissions_result_witness :
  demo_update.2 = Ok (Some demo_key2) /\ permissions_updated 100 5 demo_input demo_start.2 demo_update.1.2 (Some demo_key2).
Proof.
  split; [by vm_compute|].
  apply (update_permissions_result demo_length true demo_env false demo_key_tx 100 100 demo_settle demo_servers 5 demo_input
           demo_start.1 demo_start.2 demo_update.1.1 demo_update.1.2 (Ok (Some demo_key2)) demo_start_reachable).
  by vm_compute.
Defined.

Lemma revision_conflict_witness :
  demo_update.2 = Ok (Some demo_key2) /\
  UpdatePermissions demo_length true demo_env false demo_key_tx 200 200 demo_settle demo_servers 5 demo_input
    demo_update.1.1 demo_update.1.2 <> (demo_update.1.1, demo_update.1.2, Ok (Some demo_key2)).
Proof.
  assert (demo_update.2 = Ok (Some demo_key2)) as E by (by vm_compute). split; [exact E|].
  apply (proj1 (revision_conflict demo_length true demo_env false demo_key_tx 100 100 demo_settle demo_servers 5 demo_input
           demo_start.1 demo_start.2 demo_update.1.1 demo_update.1.2 demo_key2 demo_update.1.1 demo_update.1.2
           demo_start_reachable ltac:(by vm_compute) eq_refl (rtc_refl _ _))). reflexivity.
Defined.

(** Key 5 is looked up before its policy changes and admitted afterwards. *)
Definition demo_validate := Validate demo_env false "hash-a" demo_key demo_update.1.1 demo_update.1.2.

Lemma validate_current_witness :
  demo_validate.2 = Ok demo_key2 /\ undecided (db demo_update.1.2) !! 5 = None.
Proof.
  split; [by vm_compute|].
  apply (validate_current demo_length demo_start demo_update.1.1 demo_update.1.2 "hash-a" demo_key demo_env false
           demo_validate.1.1 demo_validate.1.2 demo_key2).
  - apply demo_start_reachable.
  - by vm_compute.
  - apply rtc_once. eapply (K_update demo_length true demo_env false demo_key_tx 100 100 demo_settle demo_servers 5 demo_input).
    by vm_compute.
  - by vm_compute.
Defined.

(** A terminal opened with key 5 accepts a keystroke. *)
Definition demo_term := terminal_register demo_env 5 1 demo_start.1 demo_start.2.
Definition demo_term_session : Session := mkSession 1 5 1 true true false false StatePreparing 0 0.
Definition demo_ready := terminal_ready demo_env 5 demo_term_session demo_term.1.1 demo_term.1.2.

Lemma key_terminal_current_witness :
  (terminal_input demo_env 5 (set_state StateReady demo_term_session) demo_ready.1.1 demo_ready.1.2).2 = None /\
  read_revision demo_table 5 = 1.
Proof.
  split; [by vm_compute|].
  apply (key_terminal_current demo_length (demo_ready.1.1, demo_ready.1.2) demo_ready.1.1 demo_ready.1.2 demo_env
           (set_state StateReady demo_term_session) demo_ready.1.1 demo_ready.1.2); [|done|by vm_compute].
  destruct demo_start_reachable as (d & T & U & R). exists d. split; [done|]. split; [done|].
  eapply rtc_r; [eapply rtc_r; [exact R|]|].
  - by apply (K_register demo_length demo_env 5 1 demo_start.1 demo_start.2 demo_term.1.1 demo_term.1.2 None); vm_compute.
  - apply (K_ready demo_length demo_env demo_term_session demo_term.1.1 demo_term.1.2 demo_ready.1.1 demo_ready.1.2 None).
    by vm_compute.
Defined.

(** What a repeated identifier does to [Create]: the key is refused for missing servers,
    and none is named. *)
Example create_repeated_server :
  check_servers (fun ids => Some (remove_dups ids)) [3; 3] = Some (AppError 400 "servers_not_found" []).
Proof. reflexivity. Qed.
