(* ===== verification/MetricBudget.v ===== *)
(** * The budget of a metrics query

    [repository/metric_budget.go]: which granularity a query gets, when it is refused, and
    the size of its answer.  The two ways of reading the samples are arguments here
    ([MetricRollup] has them); [raw_query] and [rollup_query] answer the points with a test
    telling which of them hold an observation. *)

From S2P Require Import Prelude Float64.

Definition MaxQueryBuckets : Z := 600.
Definition MaxRawSamples : Z := 12000.
Definition MaxQueryRange : duration := 30 * 24 * Hour.
Definition rawProbeLimit : Z := MaxRawSamples + 1.

(** [intervalSeconds] and the list of legal granularities. *)
Definition MetricIntervals : list string := ["1m"; "5m"; "15m"; "1h"; "6h"].
Definition intervalSeconds (interval : string) : option Z :=
  if bool_decide (interval = "1m"%string) then Some 60
  else if bool_decide (interval = "5m"%string) then Some 300
  else if bool_decide (interval = "15m"%string) then Some 900
  else if bool_decide (interval = "1h"%string) then Some 3600
  else if bool_decide (interval = "6h"%string) then Some 21600 else None.
Definition IsMetricInterval (value : string) : bool := bool_decide (is_Some (intervalSeconds value)).

(** Seconds of the zero time before 1970; [Unix] and [UnixNano] of a time. *)
Definition unix_epoch : Z := 62135596800.
Definition UnixNano (t : time) : Z := wrap64 (t - unix_epoch * Second).
Definition Unix (t : time) : Z := (t - unix_epoch * Second) / Second.
Definition of_unix (s : Z) : time := (s + unix_epoch) * Second.

(** [bucketCount]; the division of Go truncates. *)
Definition bucketCount (from to : time) (interval : string) : Z :=
  let seconds := default 0 (intervalSeconds interval) in
  if (seconds <=? 0) || negb (After to from) then 0
  else
    let size := seconds * Second in
    let first := Z.quot (UnixNano from) size in
    let last := Z.quot (wrap64 (UnixNano to - 1)) size in
    if last <? first then 0 else last - first + 1.

(** [recommendedInterval]: the first granularity of the list that fits. *)
Definition recommendedInterval (from to : time) : option string :=
  find (fun interval => bucketCount from to interval <=? MaxQueryBuckets) MetricIntervals.

Definition defaultIntervalFor (from to : time) : string :=
  let span := TimeSub to from in
  if span <=? Hour then "1m"
  else if span <=? 6 * Hour then "5m"
  else if span <=? 24 * Hour then "15m"
  else "1h".

(** ** The query *)

Record QueryRequest := MkRequest { From : time; To : time; Requested : string; AllowCoarsen : bool; Stat : string }.

Inductive budget_reason := ReasonBucketBudget | ReasonRollupNotReady | ReasonQueryTimeout.
Inductive query_err :=
| InvalidStat | EmptyRange | RangeTooLong | InvalidInterval
| QueryBudgetError (reason : budget_reason) (recommended : option string) (samples : Z)
| QueryFailed.

(** [Coverage] is a quotient of counts. *)
Record QueryResult (P : Type) := MkResult {
  RequestedInterval : string; ActualInterval : string; CoarsenReason : string; ResultStat : string;
  Coverage : spec_float; Source : string; Downsampled : bool; Points : list P }.
Arguments MkResult {P}.
Arguments RequestedInterval {P}.
Arguments ActualInterval {P}.
Arguments CoarsenReason {P}.
Arguments ResultStat {P}.
Arguments Coverage {P}.
Arguments Source {P}.
Arguments Downsampled {P}.
Arguments Points {P}.

Section query.
Context {P : Type} (bucketHasObservation : P -> bool).
(** The probe, the raw read at a granularity, and the rollup with raw edges. *)
Context (probeRawSamples : time -> time -> result query_err (Z * bool)).
Context (raw_query : time -> time -> string -> result query_err (list P)).
Context (rollup_query : time -> time -> result query_err (list P * bool)).

Definition summarize (points : list P) (from to : time) (interval : string) : spec_float :=
  match points with
  | [] => f64 0
  | _ =>
      let buckets := bucketCount from to interval in
      if buckets <=? 0 then f64 0 else f64_div (f64 (count_if bucketHasObservation points)) (f64 buckets)
  end.

(** The granularity before the samples are counted: the requested or default one, or a
    recommended one with the reason to coarsen. *)
Definition bucket_plan (req : QueryRequest) (auto : bool) : result query_err (string * string) :=
  let interval := if auto then defaultIntervalFor (From req) (To req) else Requested req in
  if bucketCount (From req) (To req) interval <=? MaxQueryBuckets then Ok (interval, ""%string)
  else
    match recommendedInterval (From req) (To req) with
    | None => Err (QueryBudgetError ReasonBucketBudget None (bucketCount (From req) (To req) interval))
    | Some recommended =>
        if negb auto && negb (AllowCoarsen req) then Err (QueryBudgetError ReasonBucketBudget (Some recommended) 0)
        else Ok (recommended, if auto then ""%string else "bucket_budget"%string)
    end.

Definition QueryWithBudget (req : QueryRequest) : result query_err (QueryResult P) :=
  let stat := if bool_decide (Stat req = ""%string) then "avg"%string else Stat req in
  if negb (bool_decide (stat = "avg"%string)) && negb (bool_decide (stat = "peak"%string)) then Err InvalidStat
  else if negb (After (To req) (From req)) then Err EmptyRange
  else if MaxQueryRange <? TimeSub (To req) (From req) then Err RangeTooLong
  else
    let auto := bool_decide (Requested req = ""%string) || bool_decide (Requested req = "auto"%string) in
    if negb auto && negb (IsMetricInterval (Requested req)) then Err InvalidInterval
    else
      let requested := if auto then "auto"%string else Requested req in
      match bucket_plan req auto with
      | Err e => Err e
      | Ok (interval, reason) =>
          match probeRawSamples (From req) (To req) with
          | Err e => Err e
          | Ok (samples, false) =>
              match raw_query (From req) (To req) interval with
              | Err e => Err e
              | Ok points =>
                  Ok (MkResult requested interval reason stat (summarize points (From req) (To req) interval) "raw"
                        (negb (bool_decide (interval = requested)) && negb (bool_decide (requested = "auto"%string))) points)
              end
          | Ok (samples, true) =>
              if negb (bool_decide (interval = "6h"%string)) && negb auto && negb (AllowCoarsen req)
              then Err (QueryBudgetError ReasonBucketBudget (Some "6h"%string) samples)
              else
                let reason := if negb (bool_decide (interval = "6h"%string)) && negb auto then "raw_budget"%string else reason in
                match rollup_query (From req) (To req) with
                | Err e => Err e
                | Ok (points, usedRollup) =>
                    Ok (MkResult requested "6h" reason stat (summarize points (From req) (To req) "6h")
                          (if usedRollup then "rollup" else "raw")%string true points)
                end
          end
      end.
End query.

(** ** Lemmas *)

Lemma intervalSeconds_cases i s : intervalSeconds i = Some s ->
  (i, s) ∈ [("1m", 60); ("5m", 300); ("15m", 900); ("1h", 3600); ("6h", 21600)]%string.
Proof. unfold intervalSeconds. intros H. repeat case_bool_decide; simplify_eq; set_solver. Qed.

(** The years in which the nanoseconds since 1970 fit an [int64] and are not negative. *)
Definition in_epoch (t : time) : Prop := unix_epoch * Second <= t <= unix_epoch * Second + int64_max.

Lemma UnixNano_in t : in_epoch t -> UnixNano t = t - unix_epoch * Second.
Proof. intros H. unfold UnixNano. apply wrap64_id. unfold in_epoch, in_int64, int64_min, int64_max in *. lia. Qed.

Lemma bucketCount_eq from to interval s :
  in_epoch from -> in_epoch to -> from < to -> intervalSeconds interval = Some s ->
  0 < s * Second /\
  bucketCount from to interval =
    (to - 1 - unix_epoch * Second) / (s * Second) - (from - unix_epoch * Second) / (s * Second) + 1.
Proof.
  intros Hf Ht Hlt Hs. apply intervalSeconds_cases in Hs as Hc.
  assert (0 < s) as Hpos by (repeat (apply elem_of_cons in Hc as [Hc|Hc]; [by injection Hc as _ ->|]); by apply elem_of_nil in Hc).
  unfold Second in *. split; [lia|]. unfold bucketCount. rewrite Hs. change (default 0 (Some s)) with s.
  rewrite (proj2 (Z.leb_gt s 0)), (proj2 (After_spec to from)) by done. cbn [negb orb].
  rewrite !UnixNano_in by done. unfold in_epoch, int64_max in *.
  rewrite wrap64_id by (unfold in_int64, int64_min, int64_max, Second in *; lia). unfold Second in *.
  rewrite !Z.quot_div_nonneg by lia.
  rewrite (proj2 (Z.ltb_ge _ _)); [f_equal; f_equal; f_equal; lia|].
  apply Z.div_le_mono; lia.
Qed.

(** Buckets are numbered from 1970; bucket [k] of a size meets the window. *)
Definition meets (from to : time) (size k : Z) : Prop :=
  unix_epoch * Second + k * size < to /\ from < unix_epoch * Second + (k + 1) * size.

Lemma meets_iff from to size k :
  0 < size ->
  meets from to size k <-> (from - unix_epoch * Second) / size <= k <= (to - 1 - unix_epoch * Second) / size.
Proof.
  intros Hs. unfold meets. set (e := unix_epoch * Second). clearbody e. split.
  - intros [H1 H2]. split; [apply Z.lt_succ_r, Z.div_lt_upper_bound; nia|apply Z.div_le_lower_bound; nia].
  - intros [H1 H2]. pose proof (Z.mul_div_le (to - 1 - e) size Hs).
    pose proof (Z.mul_succ_div_gt (from - e) size Hs). nia.
Qed.

Lemma recommended_month from to :
  in_epoch from -> in_epoch to -> from < to -> to - from <= MaxQueryRange ->
  exists i, recommendedInterval from to = Some i /\ bucketCount from to i <= MaxQueryBuckets /\ is_Some (intervalSeconds i).
Proof.
  intros Hf Ht Hlt Hr. destruct (recommendedInterval from to) as [i|] eqn:E.
  - exists i. apply find_some in E as [Hin Hb]. bools. split_and!; [done|done|].
    apply list_elem_of_In in Hin. unfold MetricIntervals in Hin.
    repeat (apply elem_of_cons in Hin as [->|Hin]; [by eexists|]). by apply elem_of_nil in Hin.
  - exfalso. eapply find_none in E; [|do 4 right; left; reflexivity]. bools.
    destruct (bucketCount_eq from to "6h" 21600 Hf Ht Hlt eq_refl) as [_ Hb]. rewrite Hb in E.
    unfold MaxQueryRange, MaxQueryBuckets, Hour, Minute, Second in *.
    assert ((to - 1 - unix_epoch * 1000000000) / (21600 * 1000000000) <=
            (from - unix_epoch * 1000000000 + 120 * (21600 * 1000000000)) / (21600 * 1000000000)) as Hd
      by (apply Z.div_le_mono; lia).
    rewrite Z.div_add in Hd by lia. lia.
Qed.

Lemma six_hours_fit from to :
  in_epoch from -> in_epoch to -> from < to -> to - from <= MaxQueryRange -> bucketCount from to "6h" <= 121.
Proof.
  intros Hf Ht Hlt Hr. destruct (bucketCount_eq from to "6h" 21600 Hf Ht Hlt eq_refl) as [_ ->].
  unfold MaxQueryRange, Hour, Minute, Second in *.
  assert ((to - 1 - unix_epoch * 1000000000) / (21600 * 1000000000) <=
          (from - unix_epoch * 1000000000 + 120 * (21600 * 1000000000)) / (21600 * 1000000000)) as Hd
    by (apply Z.div_le_mono; lia).
  rewrite Z.div_add in Hd by lia. lia.
Qed.

Lemma TimeSub_range a b : b < a -> TimeSub a b <= MaxQueryRange -> a - b <= MaxQueryRange.
Proof. unfold TimeSub, MaxQueryRange, Hour, Minute, Second, int64_max, int64_min. lia. Qed.

(** What the plan of a query may choose. *)
Lemma bucket_plan_ok req auto interval reason :
  in_epoch (From req) -> in_epoch (To req) -> From req < To req -> To req - From req <= MaxQueryRange ->
  (auto = false -> is_Some (intervalSeconds (Requested req))) ->
  bucket_plan req auto = Ok (interval, reason) ->
  bucketCount (From req) (To req) interval <= MaxQueryBuckets /\ is_Some (intervalSeconds interval) /\
  (auto = false -> interval = Requested req /\ reason = ""%string \/ AllowCoarsen req = true /\ reason = "bucket_budget"%string) /\
  (auto = true -> reason = ""%string).
Proof.
  intros Hf Ht Hlt Hr Hleg H. unfold bucket_plan in H.
  destruct (bucketCount _ _ _ <=? _) eqn:E; bools.
  - injection H as <- <-. split; [done|]. split; [|split; [by intros ->; left|done]]. destruct auto; [|by apply Hleg].
    unfold defaultIntervalFor. repeat case_match; by eexists.
  - destruct (recommended_month _ _ Hf Ht Hlt Hr) as (i & Ei & Hb & Hi). rewrite Ei in H.
    destruct (negb auto && _) eqn:Ea; [done|]. injection H as <- <-. split_and!; try done.
    + intros ->. right. cbn in Ea. apply negb_false_iff in Ea. done.
    + by intros ->.
Qed.

Section budget_theorems.
Context {P : Type} (obs : P -> bool).
Context (probe : time -> time -> result query_err (Z * bool)) (raw_query : time -> time -> string -> result query_err (list P))
  (rollup_query : time -> time -> result query_err (list P * bool)).

(** A query that is answered has a legal granularity with at most 600 buckets over its
    window, whatever the granularity asked for; an explicit granularity is kept unless the
    caller allowed coarsening, and then the reason is given; an automatic query is never
    refused for its size, and a refusal for size always recommends a granularity that fits.
    (Windows are in the years a Unix time in nanoseconds covers after 1970.) *)
Theorem query_within_budget req :
  in_epoch (From req) -> in_epoch (To req) ->
  (forall a b e, probe a b = Err e -> forall r n, e <> QueryBudgetError ReasonBucketBudget r n) ->
  (forall a b i e, raw_query a b i = Err e -> forall r n, e <> QueryBudgetError ReasonBucketBudget r n) ->
  (forall a b e, rollup_query a b = Err e -> forall r n, e <> QueryBudgetError ReasonBucketBudget r n) ->
  let auto := bool_decide (Requested req = ""%string) || bool_decide (Requested req = "auto"%string) in
  match QueryWithBudget obs probe raw_query rollup_query req with
  | Ok r =>
      bucketCount (From req) (To req) (ActualInterval r) <= 600 /\ is_Some (intervalSeconds (ActualInterval r)) /\
      (auto = false -> ActualInterval r = Requested req \/ AllowCoarsen req = true /\ CoarsenReason r <> ""%string) /\
      (exists n over, probe (From req) (To req) = Ok (n, over) /\ (over = true -> ActualInterval r = "6h"%string))
  | Err (QueryBudgetError ReasonBucketBudget rec n) =>
      auto = false /\ AllowCoarsen req = false /\
      exists i, rec = Some i /\ is_Some (intervalSeconds i) /\ bucketCount (From req) (To req) i <= 600
  | Err _ => True
  end.
Proof.
  intros Hf Ht Hp Hraw Hroll auto. unfold QueryWithBudget. fold auto.
  set (stat := if bool_decide (Stat req = ""%string) then _ else _).
  destruct (negb _ && negb _); [done|]. destruct (After (To req) (From req)) eqn:Ea; cbn [negb]; [|done].
  destruct (MaxQueryRange <? _) eqn:Er; [done|]. bools.
  apply TimeSub_range in Er; [|done].
  destruct (negb auto && negb (IsMetricInterval (Requested req))) eqn:El; [done|].
  assert (auto = false -> is_Some (intervalSeconds (Requested req))) as Hleg.
  { intros ->. cbn in El. unfold IsMetricInterval in El. by bools. }
  assert (bucketCount (From req) (To req) "6h" <= 600) as H6 by (pose proof (six_hours_fit _ _ Hf Ht Ea Er); lia).
  destruct (bucket_plan req auto) as [[interval reason]|e] eqn:Eb.
  - destruct (bucket_plan_ok req auto interval reason Hf Ht Ea Er Hleg Eb) as (B1 & B2 & B3 & B4).
    destruct (probe (From req) (To req)) as [[n over]|e] eqn:Epr.
    2:{ specialize (Hp _ _ _ Epr). destruct e as [| | | |[]|]; try done. by destruct (Hp recommended samples). }
    destruct over.
    + destruct (negb (bool_decide (interval = "6h"%string)) && negb auto && negb (AllowCoarsen req)) eqn:Ec.
      { bools. split_and!; [done..|]. exists "6h"%string. done. }
      destruct (rollup_query _ _) as [[points used]|e] eqn:Eroll.
      2:{ specialize (Hroll _ _ _ Eroll). destruct e as [| | | |[]|]; try done. by destruct (Hroll recommended samples). }
      cbn. split_and!; [done|done| |by eexists _, _]. intros ->. cbn [negb]. rewrite andb_true_r in *.
      destruct (bool_decide (interval = "6h"%string)) eqn:E6; bools; cbn [negb andb] in *.
      * destruct (B3 eq_refl) as [[-> ->]|[? ->]]; [by left|by right].
      * right. split; [|done]. destruct Ec as [?|Ec%negb_false_iff]; done.
    + destruct (raw_query _ _ _) as [points|e] eqn:Eraw.
      2:{ specialize (Hraw _ _ _ _ Eraw). destruct e as [| | | |[]|]; try done. by destruct (Hraw recommended samples). }
      cbn. split_and!; [done|done| |by eexists _, _]. intros Hau. destruct (B3 Hau) as [[-> ->]|[? ->]]; [by left|by right].
  - unfold bucket_plan in Eb. destruct (_ <=? _); [done|].
    destruct (recommended_month _ _ Hf Ht Ea Er) as (i & Ei & Hb & Hi). rewrite Ei in Eb.
    destruct (negb auto && negb (AllowCoarsen req)) eqn:Ec; [|done]. injection Eb as <-. bools.
    split_and!; [done..|]. by exists i.
Qed.
End budget_theorems.

(** [bucketCount] is the number of aligned buckets that meet the window, partial ones at
    its ends included. *)
Theorem bucketCount_exact from to interval s :
  in_epoch from -> in_epoch to -> from < to -> intervalSeconds interval = Some s ->
  exists l, NoDup l /\ (forall k, k ∈ l <-> meets from to (s * Second) k) /\ Z.of_nat (length l) = bucketCount from to interval.
Proof.
  intros Hf Ht Hlt Hs. destruct (bucketCount_eq from to interval s Hf Ht Hlt Hs) as [Hpos ->].
  set (a := (from - _) / _). set (b := (to - 1 - _) / _). exists (seqZ a (b - a + 1)).
  assert (a <= b) by (apply Z.div_le_mono; lia).
  split; [apply NoDup_seqZ|]. split; [|rewrite length_seqZ; lia].
  intros k. rewrite elem_of_seqZ, meets_iff by done. fold a b. lia.
Qed.

(** ** Witnesses: a window of half a second more than ten hours, as in the tests. *)
Definition demo_from : time := of_unix 1750000000 + 500 * Millisecond.
Definition demo_request : QueryRequest := MkRequest demo_from (demo_from + 10 * Hour) "1m" true "".

Lemma demo_in_epoch d : 0 <= d <= 400 * 24 * Hour -> in_epoch (demo_from + d).
Proof. unfold in_epoch, demo_from, of_unix, unix_epoch, int64_max, Millisecond, Hour, Minute, Second. lia. Qed.

Lemma bucketCount_exact_witness :
  bucketCount demo_from (demo_from + 10 * Hour) "1m" = 601 /\
  exists l : list Z, NoDup l /\ Z.of_nat (length l) = 601.
Proof.
  split; [by vm_compute|].
  destruct (bucketCount_exact demo_from (demo_from + 10 * Hour) "1m" 60) as (l & Hn & _ & Hl).
  - rewrite <- (Z.add_0_r demo_from). apply demo_in_epoch. done.
  - apply demo_in_epoch. done.
  - done.
  - reflexivity.
  - exists l. split; [exact Hn|]. rewrite Hl. by vm_compute.
Defined.

Lemma query_within_budget_witness :
  match QueryWithBudget (fun _ : Z => true) (fun _ _ => Ok (600, false)) (fun _ _ _ => Ok [1; 2]) (fun _ _ => Ok ([], true))
          demo_request with
  | Ok r => ActualInterval r = "5m"%string /\ CoarsenReason r = "bucket_budget"%string /\
            bucketCount (From demo_request) (To demo_request) (ActualInterval r) <= 600
  | Err _ => False
  end.
Proof.
  pose proof (query_within_budget (fun _ : Z => true) (fun _ _ => Ok (600, false)) (fun _ _ _ => Ok [1; 2]) (fun _ _ => Ok ([], true))
    demo_request) as H.
  destruct (QueryWithBudget _ _ _ _ _) as [r|e] eqn:E; [|by vm_compute in E].
  split; [vm_compute in E; by injection E as <-|]. split; [vm_compute in E; by injection E as <-|].
  by apply H.
Defined.

(** The granularity recommended is the finest that fits, not the coarsest. *)
Example recommends_finest :
  recommendedInterval demo_from (demo_from + 10 * Hour) = Some "5m"%string /\
  bucketCount demo_from (demo_from + 10 * Hour) "6h" <= MaxQueryBuckets.
Proof. by vm_compute. Qed.
