(* ===== verification/MetricRollup.v ===== *)
(** * Metric samples, the six-hour rollup and retention

    [repository/metric_delta.go], [metric_rollup.go] and [metric_budget_query.go]: how
    samples are grouped into buckets and their counters into rates, how closed buckets are
    materialized and the checkpoint advances, how a long query is stitched from the rollup
    and from raw samples, and what retention deletes.  A statistic of a bucket is a function
    of the samples aggregated in it, so a point and a row of the rollup table are modelled
    by these samples; the arithmetic of the averages is PostgreSQL's. *)

From S2P Require Import Prelude MetricBudget.

(** ** Samples and the tables *)

(** A row of [metrics]: the four counters, [None] where NULL. *)
Record sample := MkSample { s_server : Z; s_time : time; s_boot : string; s_counters : list (option Z) }.
#[export] Instance sample_eq_dec : EqDecision sample.
Proof. solve_decision. Defined.

(** [metrics], [metrics_rollup_6h] by server and bucket, [metrics_rollup_checkpoints]. *)
Record mdb := MkDb { raw : list sample; rollup : gmap (Z * Z) (list sample); checkpoints : gmap Z time }.

Definition DefaultDeltaGapThreshold : duration := 3 * Minute.
Definition RollupBucket : duration := 6 * Hour.
Definition MetricsRetention : duration := 35 * 24 * Hour.
Definition RollupRefreshWindow : duration := 48 * Hour.
Definition RollupBackfillWindow : duration := 35 * 24 * Hour.
Definition DeltaGapForInterval (interval : duration) : duration :=
  if interval <=? 0 then DefaultDeltaGapThreshold else wrap64 (3 * interval).

(** [BucketStart]; the remainder of Go takes the sign of the dividend. *)
Definition BucketStart (t : time) : time :=
  let seconds := Unix t in of_unix (seconds - Z.rem seconds (RollupBucket / Second)).

(** The bucket of a sample in SQL: [floor] of the epoch. *)
Definition bucket_of (size : duration) (t : time) : time :=
  unix_epoch * Second + (t - unix_epoch * Second) / size * size.

Definition in_span (from to : time) (t : time) : bool := (from <=? t) && (t <? to).
Definition of_server (srv : Z) (s : sample) : bool := s_server s =? srv.

(** ** Adjacent samples: [deltaSamplesCTE] *)

Definition not_later (a b : sample) : Prop := s_time a <= s_time b.
#[export] Instance not_later_dec a b : Decision (not_later a b) := decide (s_time a <= s_time b).
Definition sort_by_time : list sample -> list sample := merge_sort not_later.

(** [bounded]: the rows of the scan, after at most one predecessor. *)
Definition predecessor (srv : Z) (from : time) (l : list sample) : list sample :=
  option_list (last (sort_by_time (filter (fun s => of_server srv s && (s_time s <? from) = true) l))).
Definition scanned (srv : Z) (from to : time) (l : list sample) : list sample :=
  sort_by_time (filter (fun s => of_server srv s && in_span from to (s_time s) = true) l).
Definition bounded (srv : Z) (from to : time) (l : list sample) : list sample :=
  predecessor srv from l ++ scanned srv from to l.

(** [lag]: every row with the row before it. *)
Definition pairs_of (l : list sample) : list (sample * sample) := zip l (tail l).

(** The rate of one counter over a pair, as increment and duration; [None] is NULL. *)
Definition pair_rate (gap : duration) (p : sample * sample) (c : nat) : option (Z * duration) :=
  let '(prev, cur) := p in
  match mjoin (s_counters prev !! c), mjoin (s_counters cur !! c) with
  | Some a, Some b =>
      let d := s_time cur - s_time prev in
      if negb (bool_decide (s_boot cur = s_boot prev)) || (b <? a) || (d <=? 0) || (gap <? d) then None
      else Some (b - a, d)
  | _, _ => None
  end.

(** The part of a pair's interval in a bucket and in the window. *)
Definition pair_weight (size : duration) (wfrom wto : time) (bucket prev cur : time) : duration :=
  Z.max 0 (Z.min cur (Z.min (bucket + size) wto) - Z.max prev (Z.max bucket wfrom)).

(** [pair_buckets]: the grid of the window, its end's bucket included. *)
Definition pair_buckets (size : duration) (wfrom wto : time) : list time :=
  (fun k => unix_epoch * Second + k * size) <$>
    seqZ ((wfrom - unix_epoch * Second) / size)
         ((wto - unix_epoch * Second) / size - (wfrom - unix_epoch * Second) / size + 1).

(** The buckets a valid pair contributes to. *)
Definition rate_buckets (gap size : duration) (wfrom wto : time) (p : sample * sample) : list time :=
  if existsb (fun c => bool_decide (is_Some (pair_rate gap p c))) (seq 0 4)
  then filter (fun b => 0 < pair_weight size wfrom wto b (s_time p.1) (s_time p.2)) (pair_buckets size wfrom wto)
  else [].

(** ** Points *)

Record point := MkPoint { p_time : time; p_samples : list sample }.
Definition sampled_at (p : point) : option time :=
  match p_samples p with [] => None | s :: l => Some (foldr (fun s t => Z.max (s_time s) t) (s_time s) l) end.

(** [queryRawBuckets]: one point per bucket with a sample or a rate, in order. *)
Definition raw_bucket_keys (gap size : duration) (srv : Z) (from to : time) (l : list sample) : list time :=
  merge_sort Z.le (remove_dups
    (((fun s => bucket_of size (s_time s)) <$> scanned srv from to l) ++
     (pairs_of (bounded srv from to l) ≫= rate_buckets gap size from to))).
Definition queryRawBuckets (gap size : duration) (srv : Z) (from to : time) (l : list sample) : list point :=
  (fun b => MkPoint b (filter (fun s => bucket_of size (s_time s) = b) (scanned srv from to l)))
    <$> raw_bucket_keys gap size srv from to l.

(** [probeRawSamples]: the planned input and whether it exceeds the budget. *)
Definition planned_samples (srv : Z) (from to : time) (l : list sample) : Z :=
  Z.min rawProbeLimit (Z.of_nat (length (scanned srv from to l))) +
  (if bool_decide (predecessor srv from l = []) then 0 else 1).

(** ** The stitched query *)

(** The cursors of the loops over buckets. *)
Fixpoint cursors (fuel : nat) (cursor to : time) : list time :=
  match fuel with
  | O => []
  | S fuel => if Before cursor to then cursor :: cursors fuel (cursor + RollupBucket) to else []
  end.
Definition bucket_fuel (from to : time) : nat := Z.to_nat ((to - from) / RollupBucket + 1).
Definition bucket_cursors (from to : time) : list time := cursors (bucket_fuel from to) from to.

Definition confirmedBuckets (srv : Z) (from to : time) (d : mdb) : list time :=
  match checkpoints d !! srv with
  | None => []
  | Some checkpoint =>
      if IsZero checkpoint then []
      else filter (fun c => After (c + RollupBucket) checkpoint = false) (bucket_cursors (BucketStart from) to)
  end.

(** One iteration of the loop that assigns the window's buckets to a source; the spans are
    kept last first. *)
Definition assign_bucket (served : time -> bool) (from to closed : time) (st : list time * list (time * time)) (cursor : time) :
    list time * list (time * time) :=
  let '(rollups, spans) := st in
  let bucketEnd := cursor + RollupBucket in
  if negb (Before cursor from) && negb (After bucketEnd to) && negb (After bucketEnd closed) && served cursor
  then (cursor :: rollups, spans)
  else
    let clippedFrom := if Before cursor from then from else cursor in
    let clippedTo := if After bucketEnd to then to else bucketEnd in
    if negb (Before clippedFrom clippedTo) then (rollups, spans)
    else match spans with
         | (f, t) :: rest => if t =? clippedFrom then (rollups, (f, clippedTo) :: rest)
                             else (rollups, (clippedFrom, clippedTo) :: spans)
         | [] => (rollups, [(clippedFrom, clippedTo)])
         end.

Definition query_plan (srv : Z) (from to now : time) (d : mdb) : list time * list (time * time) :=
  let confirmed := confirmedBuckets srv (BucketStart from) to d in
  let served c := bool_decide (c ∈ confirmed) && bool_decide (is_Some (rollup d !! (srv, c))) in
  let '(rollups, spans) :=
    foldl (assign_bucket served from to (BucketStart now)) ([], []) (bucket_cursors (BucketStart from) to) in
  (rev rollups, rev spans).

(** [sortPoints]: insertion sort; [insert_point] is the inner loop, over the points before
    the new one, last first. *)
Fixpoint insert_point (p : point) (before : list point) : list point :=
  match before with
  | [] => [p]
  | q :: rest => if Before (p_time p) (p_time q) then q :: insert_point p rest else p :: before
  end.
Definition sortPoints (l : list point) : list point := rev (foldl (fun before p => insert_point p before) [] l).

(** The reads of the raw spans, within the budget of the whole plan. *)
Fixpoint read_spans (gap : duration) (srv : Z) (l : list sample) (spans : list (time * time)) (totalRaw : Z) :
    result query_err (list point) :=
  match spans with
  | [] => Ok []
  | (f, t) :: rest =>
      let planned := planned_samples srv f t l in
      let totalRaw := totalRaw + planned in
      if (MaxRawSamples <? planned) || (MaxRawSamples <? totalRaw)
      then Err (QueryBudgetError ReasonRollupNotReady None totalRaw)
      else
        try more := read_spans gap srv l rest totalRaw in
        Ok (queryRawBuckets gap RollupBucket srv f t l ++ more)
  end.

(** The rows of the rollup table the plan uses, in order. *)
Definition rollup_points (srv : Z) (d : mdb) (rollups : list time) : list point :=
  omap (fun c => MkPoint c <$> rollup d !! (srv, c)) rollups.

(** [queryRollupWithEdges], when no statement fails. *)
Definition queryRollupWithEdges (gap : duration) (srv : Z) (from to now : time) (d : mdb) :
    result query_err (list point * bool) :=
  let '(rollups, spans) := query_plan srv from to now d in
  let points := rollup_points srv d rollups in
  try edges := read_spans gap srv (raw d) spans 0 in
  Ok (sortPoints (points ++ edges), negb (bool_decide (points = []))).

(** ** The refresh *)

(** [materializeBuckets]: every bucket of the range is written, except that an empty scan
    never overwrites a row with samples. *)
Definition bucket_content (gap : duration) (srv : Z) (from to bucket : time) (l : list sample) : list sample :=
  filter (fun s => bucket_of RollupBucket (s_time s) = bucket) (bounded srv (from - gap) to l).
Definition write_bucket (gap : duration) (srv : Z) (from to : time) (l : list sample) (m : gmap (Z * Z) (list sample))
    (bucket : time) : gmap (Z * Z) (list sample) :=
  let content := bucket_content gap srv from to bucket l in
  match m !! (srv, bucket), content with
  | Some (_ :: _), [] => m
  | _, _ => <[(srv, bucket) := content]> m
  end.
Definition materializeBuckets (gap : duration) (srv : Z) (from to : time) (d : mdb) : mdb :=
  MkDb (raw d) (foldl (write_bucket gap srv from to (raw d)) (rollup d) (bucket_cursors from to)) (checkpoints d).

Definition rollupStart (srv : Z) (now : time) (window : duration) (d : mdb) : time :=
  let retentionFloor := BucketStart (TimeAdd now (- MetricsRetention)) in
  let start := BucketStart (TimeAdd now (- window)) in
  let start := if Before start retentionFloor then retentionFloor else start in
  match checkpoints d !! srv with
  | Some checkpoint =>
      if IsZero checkpoint then start
      else
        let resumed := BucketStart checkpoint in
        if Before resumed start then (if Before resumed retentionFloor then retentionFloor else resumed) else start
  | None => start
  end.

(** [serversNeedingRollup]. *)
Definition serversNeedingRollup (since closed : time) (d : mdb) : list Z :=
  merge_sort Z.le (remove_dups
    ((s_server <$> filter (fun s => since <= s_time s) (raw d)) ++
     (filter (fun ic => ic.2 < closed) (map_to_list (checkpoints d))).*1 ++
     (s_server <$> filter (fun s => checkpoints d !! s_server s = None /\ closed - RollupBackfillWindow <= s_time s) (raw d)))).

(** One server's transaction. *)
Definition refresh_server (gap : duration) (now : time) (window : duration) (srv : Z) (d : mdb) : mdb :=
  let closed := BucketStart now in
  let from := rollupStart srv now window d in
  if negb (Before from closed) then d
  else
    let d := materializeBuckets gap srv from closed d in
    MkDb (raw d) (rollup d) (<[srv := closed]> (checkpoints d)).

(** The cycle: [fails] is the first server whose transaction fails, which ends it. *)
Fixpoint refresh_loop (gap : duration) (now : time) (window : duration) (fails : Z -> bool) (servers : list Z) (d : mdb) :
    mdb * bool :=
  match servers with
  | [] => (d, true)
  | srv :: rest =>
      if fails srv then (d, false) else refresh_loop gap now window fails rest (refresh_server gap now window srv d)
  end.
Definition refresh_window (window : duration) : duration :=
  if (window <=? 0) || (RollupBackfillWindow <? window) then RollupRefreshWindow else window.
Definition RefreshRollups (gap : duration) (now : time) (window : duration) (fails : Z -> bool) (d : mdb) : mdb * bool :=
  let window := refresh_window window in
  let closed := BucketStart now in
  if IsZero closed then (d, true)
  else refresh_loop gap now window fails (serversNeedingRollup (TimeAdd closed (- window)) closed d) d.

(** ** Retention *)

Record PrunePlan := MkPlan { Cutoff : time; RawRows : Z; RollupRows : Z; Pending : list Z }.

Definition unaggregated (cutoff : time) (d : mdb) (s : sample) : bool :=
  (s_time s <? cutoff) && match checkpoints d !! s_server s with None => true | Some c => c <=? s_time s end.

Definition PlanPrune (now : time) (retention : duration) (d : mdb) : PrunePlan :=
  let retention := if retention <=? 0 then MetricsRetention else retention in
  let cutoff := TimeAdd now (- retention) in
  MkPlan cutoff (count_if (fun s => s_time s <? cutoff) (raw d))
    (Z.of_nat (length (filter (fun kv => kv.1.2 < cutoff) (map_to_list (rollup d)))))
    (remove_dups (s_server <$> filter (fun s => unaggregated cutoff d s = true) (raw d))).

(** [dropPrunableChunks]: TimescaleDB's chunks below the cutoff, in order. *)
Definition chunk_held (pending : list Z) (l : list sample) (chunk : time * time) : bool :=
  existsb (fun s => in_span chunk.1 chunk.2 (s_time s) && bool_decide (s_server s ∈ pending)) l.
Fixpoint droppable (pending : list Z) (l : list sample) (chunks : list (time * time)) : list (time * time) :=
  match chunks with
  | [] => []
  | c :: rest => if chunk_held pending l c then [] else c :: droppable pending l rest
  end.
(** [drop_chunks] removes every chunk that ends by the boundary, with all its rows. *)
Definition drop_chunks (chunks : list (time * time)) (boundary : time) (l : list sample) : list sample :=
  filter (fun s => existsb (fun c => in_span c.1 c.2 (s_time s) && (c.2 <=? boundary)) chunks = false) l.

Definition PruneMetrics (chunks : list (time * time)) (plan : PrunePlan) (d : mdb) : mdb :=
  let listed := filter (fun c => c.2 <= Cutoff plan) chunks in
  let l := match last (droppable (Pending plan) (raw d) listed) with
           | None => raw d
           | Some c => drop_chunks chunks c.2 (raw d)
           end in
  MkDb (filter (fun s => Cutoff plan <= s_time s \/ s_server s ∈ Pending plan) l)
    (filter (fun kv => Cutoff plan <= kv.1.2 \/ kv.1.1 ∈ Pending plan) (rollup d)) (checkpoints d).

(** [retentionDecision], and the retention job. *)
Inductive retentionDecisionKind := retentionDisabled | retentionDryRunOnly | retentionApply.
Definition retentionDecision (enabled dryRun : bool) : retentionDecisionKind :=
  if negb enabled then retentionDisabled else if dryRun then retentionDryRunOnly else retentionApply.
Definition Prune (chunks : list (time * time)) (enabled dryRun : bool) (now : time) (d : mdb) : mdb :=
  match retentionDecision enabled dryRun with
  | retentionApply => PruneMetrics chunks (PlanPrune now MetricsRetention d) d
  | _ => d
  end.

(** ** Lemmas *)

(** Splitting a list by keys that each element matches once. *)
Section split_by_keys.
Context {A K : Type} (f : K -> A -> bool).

Lemma split_cons keys x l :
  concat ((fun k => filter (fun y => f k y = true) (x :: l)) <$> keys)
  ≡ₚ replicate (Z.to_nat (count_if (fun k => f k x) keys)) x ++ concat ((fun k => filter (fun y => f k y = true) l) <$> keys).
Proof.
  induction keys as [|k keys IH]; [done|]. cbn [fmap list_fmap concat]. rewrite IH, count_if_cons, filter_cons.
  pose proof (count_if_nonneg (fun k => f k x) keys). case_decide as E.
  - rewrite E. rewrite Z2Nat.inj_add by lia. change (Z.to_nat 1) with 1%nat. cbn [replicate Nat.add app].
    apply Permutation_skip. rewrite !app_assoc. apply Permutation_app_tail, Permutation_app_comm.
  - destruct (f k x); [done|]. rewrite Z.add_0_l, !app_assoc. apply Permutation_app_tail, Permutation_app_comm.
Qed.

Lemma split_perm (p : A -> bool) keys l :
  (forall x, x ∈ l -> count_if (fun k => f k x) keys = if p x then 1 else 0) ->
  concat ((fun k => filter (fun x => f k x = true) l) <$> keys) ≡ₚ filter (fun x => p x = true) l.
Proof.
  induction l as [|x l IH]; intros H.
  - replace (concat _) with (@nil A); [done|]. clear H. induction keys as [|k keys IHk]; [done|exact IHk].
  - rewrite split_cons, IH by (intros y Hy; apply H; by right). rewrite H by left. rewrite filter_cons.
    destruct (p x); case_decide; done.
Qed.
End split_by_keys.

Lemma count_if_eq_NoDup {K} `{EqDecision K} (k0 : K) keys :
  NoDup keys -> count_if (fun k => bool_decide (k0 = k)) keys = if bool_decide (k0 ∈ keys) then 1 else 0.
Proof.
  induction 1 as [|k keys Hk _ IH]; [done|]. rewrite count_if_cons, IH.
  destruct (decide (k0 = k)) as [->|Hne].
  - rewrite bool_decide_eq_true_2, (bool_decide_eq_false_2 _ Hk), bool_decide_eq_true_2 by (done || left). done.
  - rewrite (bool_decide_eq_false_2 _ Hne).
    assert (bool_decide (k0 ∈ k :: keys) = bool_decide (k0 ∈ keys)) as -> by (apply bool_decide_ext; set_solver). done.
Qed.

(** *** The grid *)

Lemma bucket_of_bounds size t : 0 < size -> bucket_of size t <= t < bucket_of size t + size.
Proof.
  intros Hs. unfold bucket_of. set (e := unix_epoch * Second). clearbody e.
  pose proof (Z.mul_div_le (t - e) size Hs). pose proof (Z.mul_succ_div_gt (t - e) size Hs). nia.
Qed.

(** Times on the grid of six-hour buckets. *)
Definition aligned (t : time) : Prop := exists k, t = unix_epoch * Second + k * RollupBucket.

Lemma bucket_of_aligned t : aligned (bucket_of RollupBucket t).
Proof. unfold aligned, bucket_of. eauto. Qed.

Lemma aligned_add t : aligned t -> aligned (t + RollupBucket).
Proof. intros [k ->]. exists (k + 1). lia. Qed.

Lemma aligned_lt a b : aligned a -> aligned b -> a < b -> a + RollupBucket <= b.
Proof. unfold RollupBucket, Hour, Minute, Second. intros [k ->] [m ->] H. unfold RollupBucket, Hour, Minute, Second in *. lia. Qed.

Lemma bucket_of_unique c t :
  aligned c -> bucket_of RollupBucket t = c <-> in_span c (c + RollupBucket) t = true.
Proof.
  intros Hc. pose proof (bucket_of_bounds RollupBucket t eq_refl) as Hb. pose proof (bucket_of_aligned t) as Ha.
  unfold in_span. rewrite andb_true_iff, Z.leb_le, Z.ltb_lt. split; [intros <-; lia|]. intros [H1 H2].
  destruct (Z.lt_trichotomy (bucket_of RollupBucket t) c) as [Hl|[?|Hl]]; [|done|].
  - pose proof (aligned_lt _ _ Ha Hc Hl). lia.
  - pose proof (aligned_lt _ _ Hc Ha Hl). lia.
Qed.

Lemma BucketStart_eq t : unix_epoch * Second <= t -> BucketStart t = bucket_of RollupBucket t.
Proof.
  intros Ht. unfold BucketStart, bucket_of, of_unix, Unix. change (RollupBucket / Second) with 21600.
  set (e := unix_epoch * Second) in *. set (u := (t - e) / Second).
  assert (0 <= u) as Hu by (apply Z.div_pos; unfold Second; lia).
  rewrite Z.rem_mod_nonneg by lia.
  assert ((t - e) / RollupBucket = u / 21600) as ->.
  { unfold u. rewrite Z.div_div by (unfold Second; lia). done. }
  pose proof (Z.div_mod u 21600 ltac:(lia)). unfold RollupBucket, Hour, Minute, e, Second. nia.
Qed.

Lemma BucketStart_aligned t : aligned (BucketStart t).
Proof.
  unfold BucketStart, of_unix. exists (Z.quot (Unix t) 21600). change (RollupBucket / Second) with 21600.
  pose proof (Z.quot_rem' (Unix t) 21600). unfold RollupBucket, Hour, Minute, Second. lia.
Qed.

Lemma cursors_spec fuel c to b :
  (Z.of_nat fuel * RollupBucket >= to - c) ->
  b ∈ cursors fuel c to <-> exists i, 0 <= i /\ b = c + i * RollupBucket /\ b < to.
Proof.
  assert (0 < RollupBucket) as HB by done. revert c. induction fuel as [|fuel IH]; intros c Hf; cbn [cursors].
  - split; [intros H; by apply elem_of_nil in H|]. intros (i & Hi & -> & Hlt). nia.
  - destruct (Before c to) eqn:E; bools.
    + rewrite elem_of_cons, IH by lia. split.
      * intros [->|(i & Hi & -> & Hlt)]; [exists 0; lia|exists (i + 1); lia].
      * intros (i & Hi & -> & Hlt). destruct (decide (i = 0)) as [->|Hi0]; [left; lia|right]. exists (i - 1). lia.
    + split; [intros H; by apply elem_of_nil in H|]. intros (i & Hi & -> & Hlt). nia.
Qed.

Lemma bucket_fuel_enough from to : Z.of_nat (bucket_fuel from to) * RollupBucket >= to - from.
Proof.
  assert (0 < RollupBucket) as HB by done. unfold bucket_fuel.
  pose proof (Z.mul_succ_div_gt (to - from) RollupBucket HB).
  unfold RollupBucket, Hour, Minute, Second in *. lia.
Qed.

Lemma bucket_cursors_spec from to b :
  b ∈ bucket_cursors from to <-> exists i, 0 <= i /\ b = from + i * RollupBucket /\ b < to.
Proof. apply cursors_spec, bucket_fuel_enough. Qed.

(** *** The sources of a window *)

Definition cover (rollups : list time) (spans : list (time * time)) (t : time) : Z :=
  count_if (fun c => in_span c (c + RollupBucket) t) rollups + count_if (fun ft => in_span ft.1 ft.2 t) spans.

Record plan_inv (served : time -> bool) (from to closed upto : time) (st : list time * list (time * time)) : Prop := {
  pi_cover t : cover st.1 st.2 t = if in_span from (Z.min upto to) t then 1 else 0;
  pi_spans ft : ft ∈ st.2 -> ft.1 < ft.2;
  pi_rollups c : c ∈ st.1 -> served c = true /\ from <= c /\ c + RollupBucket <= to /\ c + RollupBucket <= closed }.

Lemma in_span_spec f t x : in_span f t x = true <-> f <= x < t.
Proof. unfold in_span. rewrite andb_true_iff, Z.leb_le, Z.ltb_lt. done. Qed.

Lemma in_span_if f t x : (if in_span f t x then 1 else 0) = if decide (f <= x < t) then 1 else 0.
Proof.
  case_decide as H; [by rewrite (proj2 (in_span_spec f t x) H)|].
  destruct (in_span f t x) eqn:E; [|done]. by apply in_span_spec in E.
Qed.

Lemma assign_bucket_inv served from to closed c st :
  from < to -> c < to -> from < c + RollupBucket ->
  plan_inv served from to closed c st -> plan_inv served from to closed (c + RollupBucket) (assign_bucket served from to closed st c).
Proof.
  intros Hft Hc Hfc [H1 H2 H3]. destruct st as [rollups spans]. cbn [fst snd] in *. unfold assign_bucket.
  assert (0 < RollupBucket) as HB by done. unfold cover in *. cbn [fst snd] in *.
  destruct (negb (Before c from) && _ && _ && _) eqn:E.
  - bools. split; cbn [fst snd]; [|done|].
    + intros t. specialize (H1 t). unfold cover in *. rewrite count_if_cons. rewrite !in_span_if in *.
      repeat case_decide; lia.
    + intros c' [->|Hc']%elem_of_cons; [done|by apply H3].
  - clear E. set (cf := if Before c from then from else c). set (ct := if After (c + RollupBucket) to then to else c + RollupBucket).
    assert (cf = Z.max c from) as Ecf by (unfold cf; destruct (Before c from) eqn:E; bools; lia).
    assert (ct = Z.min (c + RollupBucket) to) as Ect by (unfold ct; destruct (After (c + RollupBucket) to) eqn:E; bools; lia).
    clearbody cf ct. rewrite (proj2 (Before_spec cf ct)) by lia. cbn [negb].
    assert (plan_inv served from to closed (c + RollupBucket) (rollups, (cf, ct) :: spans)) as Hnew.
    { split; cbn [fst snd]; [|intros ft [->|Hft']%elem_of_cons; [cbn; lia|by apply H2]|done].
      intros t. specialize (H1 t). unfold cover in *. rewrite count_if_cons. cbn [fst snd]. rewrite !in_span_if in *.
      repeat case_decide; lia. }
    destruct spans as [|[f t0] rest]; [exact Hnew|]. destruct (t0 =? cf) eqn:Et; [|exact Hnew]. bools. subst t0.
    assert (f < cf) as Hf by (apply (H2 (f, cf)); left).
    split; cbn [fst snd]; [|intros ft [->|Hft']%elem_of_cons; [cbn; lia|apply H2; by right]|done].
    intros t. pose proof (pi_cover _ _ _ _ _ _ Hnew t) as Hn. cbn [fst snd] in Hn. unfold cover in *.
    rewrite !count_if_cons in *. cbn [fst snd] in *. rewrite !in_span_if in *. repeat case_decide; lia.
Qed.

Lemma plan_inv_loop served from to closed fuel : forall c st,
  from < to -> from < c + RollupBucket -> Z.of_nat fuel * RollupBucket >= to - c ->
  plan_inv served from to closed c st ->
  exists c', to <= c' /\ plan_inv served from to closed c' (foldl (assign_bucket served from to closed) st (cursors fuel c to)).
Proof.
  assert (0 < RollupBucket) as HB by done. induction fuel as [|fuel IH]; intros c st Hft Hfc Hf H; cbn [cursors].
  - exists c. split; [lia|done].
  - destruct (Before c to) eqn:E; bools; [|by exists c].
    cbn [foldl]. apply IH; [done|lia|lia|by apply assign_bucket_inv].
Qed.

Lemma count_if_rev {A} (f : A -> bool) l : count_if f (rev l) = count_if f l.
Proof. apply count_if_perm. symmetry. apply Permutation_rev. Qed.

(** What the plan of a query guarantees. *)
Lemma query_plan_spec srv from to now d rollups spans :
  unix_epoch * Second <= from -> from < to -> query_plan srv from to now d = (rollups, spans) ->
  (forall t, cover rollups spans t = if in_span from to t then 1 else 0) /\
  (forall ft, ft ∈ spans -> ft.1 < ft.2) /\
  (forall c, c ∈ rollups -> aligned c /\ is_Some (rollup d !! (srv, c)) /\ c ∈ confirmedBuckets srv (BucketStart from) to d /\
     from <= c /\ c + RollupBucket <= to /\ c + RollupBucket <= BucketStart now).
Proof.
  intros He Hft H. unfold query_plan in H.
  set (served := fun c => _) in H.
  pose proof (bucket_of_bounds RollupBucket from eq_refl) as Hb. rewrite <- BucketStart_eq in Hb by done.
  destruct (plan_inv_loop served from to (BucketStart now) (bucket_fuel (BucketStart from) to) (BucketStart from) ([], []))
    as (c' & Hc' & [H1 H2 H3]); [done|lia|apply bucket_fuel_enough| |].
  { split; cbn; try done; [|intros ft Hn; by apply elem_of_nil in Hn|intros c Hn; by apply elem_of_nil in Hn].
    intros t. change (cover [] [] t) with 0. rewrite in_span_if. case_decide; lia. }
  unfold bucket_cursors in H. destruct (foldl _ _ _) as [rs ss] eqn:Ef. injection H as <- <-. cbn [fst snd] in *.
  split; [|split].
  - intros t. unfold cover in *. rewrite !count_if_rev, H1. by replace (Z.min c' to) with to by lia.
  - intros ft Hin. apply H2. apply list_elem_of_In, in_rev, list_elem_of_In. done.
  - intros c Hin. apply list_elem_of_In, in_rev, list_elem_of_In in Hin. destruct (H3 c Hin) as (Hs & ? & ? & ?).
    unfold served in Hs. apply andb_true_iff in Hs as [Hcf%bool_decide_eq_true Hrow%bool_decide_eq_true]. split; [|done].
    assert (c ∈ bucket_cursors (BucketStart (BucketStart from)) to) as Hcur.
    { unfold confirmedBuckets in Hcf. destruct (checkpoints d !! srv) as [cp|]; [|by apply elem_of_nil in Hcf].
      destruct (IsZero cp); [by apply elem_of_nil in Hcf|]. by apply list_elem_of_filter in Hcf as [_ ?]. }
    apply bucket_cursors_spec in Hcur as (i & _ & -> & _).
    destruct (BucketStart_aligned (BucketStart from)) as [k ->]. exists (k + i). lia.
Qed.

(** *** The order of the points *)

Lemma insert_point_perm p l : insert_point p l ≡ₚ p :: l.
Proof.
  induction l as [|q l IH]; cbn; [done|]. destruct (Before _ _); [|done]. rewrite IH. apply Permutation_swap.
Qed.

Definition time_desc (a b : point) : Prop := p_time b <= p_time a.
Lemma insert_point_sorted p l : StronglySorted time_desc l -> StronglySorted time_desc (insert_point p l).
Proof.
  induction 1 as [|q l Hl IH Hq]; cbn; [repeat constructor|]. destruct (Before (p_time p) (p_time q)) eqn:E; bools.
  - constructor; [done|]. rewrite insert_point_perm. constructor; [unfold time_desc; lia|done].
  - constructor; [by constructor|]. constructor; [done|]. eapply Forall_impl; [exact Hq|]. unfold time_desc. intros; lia.
Qed.

Lemma sortPoints_spec l :
  sortPoints l ≡ₚ l /\ StronglySorted (fun a b => p_time a <= p_time b) (sortPoints l).
Proof.
  unfold sortPoints.
  assert (forall acc, StronglySorted time_desc acc ->
    foldl (fun before p => insert_point p before) acc l ≡ₚ acc ++ l /\
    StronglySorted time_desc (foldl (fun before p => insert_point p before) acc l)) as H.
  { induction l as [|p l IH]; intros acc Ha; cbn; [by rewrite app_nil_r|].
    destruct (IH (insert_point p acc) (insert_point_sorted p acc Ha)) as [Hp Hs]. split; [|done].
    rewrite Hp, insert_point_perm. cbn. by rewrite Permutation_middle. }
  destruct (H [] ltac:(constructor)) as [Hp Hs]. split; [by rewrite <- Permutation_rev|].
  clear -Hs. induction Hs as [|p m Hm IH Hp]; cbn; [constructor|].
  apply StronglySorted_app. split_and!; [|done|repeat constructor].
  intros x1 x2 H1 ->%list_elem_of_singleton. rewrite Forall_forall in Hp.
  apply Hp. apply list_elem_of_In, in_rev, list_elem_of_In. done.
Qed.

(** *** The samples of an answer *)

Definition samples_in (srv : Z) (from to : time) (l : list sample) : list sample :=
  filter (fun s => of_server srv s && in_span from to (s_time s) = true) l.

Lemma scanned_perm srv from to l : scanned srv from to l ≡ₚ samples_in srv from to l.
Proof. apply merge_sort_Permutation. Qed.

Lemma raw_buckets_content gap size srv from to l :
  concat (p_samples <$> queryRawBuckets gap size srv from to l) ≡ₚ samples_in srv from to l.
Proof.
  unfold queryRawBuckets. rewrite <- list_fmap_compose. set (keys := raw_bucket_keys _ _ _ _ _ _).
  rewrite <- scanned_perm. set (sc := scanned srv from to l).
  transitivity (concat ((fun b => filter (fun s => bool_decide (bucket_of size (s_time s) = b) = true) sc) <$> keys)).
  { match goal with |- ?a ≡ₚ ?b => enough (a = b) as -> by done end. f_equal. apply list_fmap_ext. intros i b _. cbn. apply list_filter_iff.
    intros s. by rewrite bool_decide_eq_true. }
  rewrite (split_perm _ (fun _ => true)).
  - clear. induction sc as [|s sc IH]; [done|]. rewrite filter_cons, decide_True by done. by rewrite IH.
  - intros s Hs. rewrite (count_if_eq_NoDup (bucket_of size (s_time s)) keys).
    + rewrite bool_decide_eq_true_2; [done|]. unfold keys, raw_bucket_keys. rewrite merge_sort_Permutation.
      apply elem_of_remove_dups, elem_of_app. left. apply list_elem_of_fmap. eauto.
    + unfold keys, raw_bucket_keys. rewrite merge_sort_Permutation. apply NoDup_remove_dups.
Qed.

Lemma read_spans_ok gap srv l spans : forall total edges,
  read_spans gap srv l spans total = Ok edges ->
  concat (p_samples <$> edges) ≡ₚ concat ((fun ft => samples_in srv ft.1 ft.2 l) <$> spans) /\
  (spans <> [] -> total + foldr (fun ft n => planned_samples srv ft.1 ft.2 l + n) 0 spans <= MaxRawSamples).
Proof.
  induction spans as [|[f t] rest IH]; intros total edges H; cbn [read_spans] in H; [by injection H as <-|].
  destruct (_ || _) eqn:E; [done|]. destruct (read_spans _ _ _ rest _) as [more|] eqn:Er; [|done]. injection H as <-.
  destruct (IH _ _ Er) as [Hp Hb]. bools. split.
  - rewrite fmap_app, concat_app, raw_buckets_content. cbn [fmap list_fmap concat fst snd]. by rewrite Hp.
  - intros _. cbn [foldr fst snd]. destruct rest as [|r rest]; [cbn; lia|]. specialize (Hb ltac:(done)). lia.
Qed.

(** A row of the rollup table holds the samples of its bucket. *)
Definition fresh_row (srv : Z) (c : time) (d : mdb) : Prop :=
  forall row, rollup d !! (srv, c) = Some row -> row ≡ₚ samples_in srv c (c + RollupBucket) (raw d).
(** A row that has not yet the samples of [late], accepted since it was written, and still
    those of [gone], deleted since. *)
Definition row_differs (srv : Z) (c : time) (late gone : list sample) (d : mdb) : Prop :=
  forall row, rollup d !! (srv, c) = Some row ->
    row ++ samples_in srv c (c + RollupBucket) late ≡ₚ samples_in srv c (c + RollupBucket) (raw d) ++ samples_in srv c (c + RollupBucket) gone.
(** The samples of the rows used, those of [l] in their buckets, and those outside. *)
Definition used_rows (srv : Z) (d : mdb) (rollups : list time) : list sample :=
  concat ((fun c => default [] (rollup d !! (srv, c))) <$> rollups).
Definition in_buckets (srv : Z) (rollups : list time) (l : list sample) : list sample :=
  concat ((fun c => samples_in srv c (c + RollupBucket) l) <$> rollups).
Definition outside (rollups : list time) (l : list sample) : list sample :=
  filter (fun s => forallb (fun c => negb (in_span c (c + RollupBucket) (s_time s))) rollups = true) l.

Lemma rollup_points_content srv d rollups :
  (forall c, c ∈ rollups -> is_Some (rollup d !! (srv, c))) ->
  concat (p_samples <$> rollup_points srv d rollups) = used_rows srv d rollups.
Proof.
  unfold used_rows, rollup_points. induction rollups as [|c rollups IH]; intros H; [done|]. cbn [omap list_omap fmap list_fmap concat].
  destruct (H c ltac:(left)) as [row Hrow]. rewrite Hrow. cbn. f_equal. apply IH. intros c' Hc'. apply H. by right.
Qed.

Lemma in_buckets_nil srv rollups : in_buckets srv rollups [] = [].
Proof. unfold in_buckets. by induction rollups. Qed.

Lemma used_rows_differ srv d rollups late gone :
  (forall c, c ∈ rollups -> is_Some (rollup d !! (srv, c)) /\ row_differs srv c late gone d) ->
  used_rows srv d rollups ++ in_buckets srv rollups late ≡ₚ in_buckets srv rollups (raw d) ++ in_buckets srv rollups gone.
Proof.
  unfold used_rows, in_buckets. induction rollups as [|c rollups IH]; intros H; [done|]. cbn [fmap list_fmap concat].
  destruct (H c ltac:(left)) as [[row Hrow] Hd]. specialize (Hd row Hrow). rewrite Hrow. cbn [default].
  specialize (IH (fun c' Hc' => H c' (list_elem_of_further _ _ _ Hc'))).
  rewrite <- !app_assoc, (app_assoc (concat _) (samples_in srv c _ late)), (Permutation_app_comm (concat _) (samples_in srv c _ late)).
  rewrite <- app_assoc, app_assoc, Hd, IH. rewrite <- !app_assoc. apply Permutation_app_head. rewrite !app_assoc. apply Permutation_app_tail, Permutation_app_comm.
Qed.

(** The intervals of a plan split the samples of its window. *)
Lemma plan_splits srv from to l rollups spans :
  (forall t, cover rollups spans t = if in_span from to t then 1 else 0) ->
  in_buckets srv rollups l ++ concat ((fun ft => samples_in srv ft.1 ft.2 l) <$> spans) ≡ₚ samples_in srv from to l.
Proof.
  unfold in_buckets. intros H. pose (keys := ((fun c => (c, c + RollupBucket)) <$> rollups) ++ spans).
  assert (concat ((fun c => samples_in srv c (c + RollupBucket) l) <$> rollups) ++
          concat ((fun ft => samples_in srv ft.1 ft.2 l) <$> spans) =
          concat ((fun ft => samples_in srv ft.1 ft.2 l) <$> keys)) as ->.
  { unfold keys. rewrite fmap_app, concat_app, <- list_fmap_compose. done. }
  unfold samples_in.
  apply (split_perm (fun ft s => of_server srv s && in_span ft.1 ft.2 (s_time s)) (fun s => of_server srv s && in_span from to (s_time s))).
  intros s _. destruct (of_server srv s); cbn [andb].
  - rewrite <- H. unfold cover, keys. rewrite count_if_app. f_equal.
    clear. induction rollups as [|c rs IH]; [done|]. cbn [fmap list_fmap]. rewrite !count_if_cons, IH. done.
  - clear. induction keys as [|k ks IH]; [done|]. rewrite count_if_cons, IH. done.
Qed.

(** Its raw spans hold the samples outside the buckets it takes from the rollup. *)
Lemma plan_outside srv from to l rollups spans :
  (forall t, cover rollups spans t = if in_span from to t then 1 else 0) ->
  concat ((fun ft => samples_in srv ft.1 ft.2 l) <$> spans) ≡ₚ outside rollups (samples_in srv from to l).
Proof.
  intros H. unfold outside, samples_in at 2. rewrite list_filter_filter.
  transitivity (filter (fun s => (of_server srv s && in_span from to (s_time s)) &&
      forallb (fun c => negb (in_span c (c + RollupBucket) (s_time s))) rollups = true) l).
  - apply (split_perm (fun ft s => of_server srv s && in_span ft.1 ft.2 (s_time s))). intros s _.
    destruct (of_server srv s); cbn [andb]; [|clear; induction spans as [|k ks IH]; [done|]; by rewrite count_if_cons, IH].
    specialize (H (s_time s)). unfold cover in H. set (n := count_if _ spans) in *. assert (0 <= n) by apply count_if_nonneg.
    assert (forallb (fun c => negb (in_span c (c + RollupBucket) (s_time s))) rollups =
            (count_if (fun c => in_span c (c + RollupBucket) (s_time s)) rollups =? 0)) as ->.
    { clear. induction rollups as [|c rs IH]; [done|]. cbn [forallb]. rewrite count_if_cons, IH.
      pose proof (count_if_nonneg (fun c => in_span c (c + RollupBucket) (s_time s)) rs). destruct (in_span c _ _); cbn [negb andb]; lia. }
    pose proof (count_if_nonneg (fun c => in_span c (c + RollupBucket) (s_time s)) rollups).
    destruct (in_span from to (s_time s)), (Z.eqb_spec (count_if (fun c => in_span c (c + RollupBucket) (s_time s)) rollups) 0); cbn [andb]; lia.
  - match goal with |- ?a ≡ₚ ?b => enough (a = b) as -> by done end. apply list_filter_iff. intros s. rewrite andb_true_iff. tauto.
Qed.

(** ** The properties *)

(** C18: What an answer stitched from the rollup and from raw samples aggregates.
    Its points are in order; together they hold, each once, the samples of the rollup rows
    the plan uses and the raw samples of the window outside the buckets of these rows -- so
    no sample is taken from both sources or from neither.  Against the window's raw samples
    the answer can only miss the samples accepted into a used bucket since its row was
    written ([late], until a refresh writes the row again) and only have more by those
    deleted since ([gone]); when the rows hold the samples of their buckets, as a refresh
    leaves them, every sample of the window is aggregated in exactly one point and no other.
    A row is used only for a whole bucket of the window that is closed and confirmed by the
    checkpoint; and the raw input of the plan as a whole is at most 12000 samples. *)
Theorem stitched_query gap srv from to now d points used :
  unix_epoch * Second <= from -> from < to ->
  queryRollupWithEdges gap srv from to now d = Ok (points, used) ->
  let '(rollups, spans) := query_plan srv from to now d in
  StronglySorted (fun a b => p_time a <= p_time b) points /\
  concat (p_samples <$> points) ≡ₚ used_rows srv d rollups ++ outside rollups (samples_in srv from to (raw d)) /\
  (forall late gone, (forall c, c ∈ rollups -> row_differs srv c late gone d) ->
     concat (p_samples <$> points) ++ in_buckets srv rollups late ≡ₚ samples_in srv from to (raw d) ++ in_buckets srv rollups gone) /\
  ((forall c, c ∈ rollups -> fresh_row srv c d) -> concat (p_samples <$> points) ≡ₚ samples_in srv from to (raw d)) /\
  (forall c, c ∈ rollups -> from <= c /\ c + RollupBucket <= to /\ c + RollupBucket <= BucketStart now /\
     exists checkpoint, checkpoints d !! srv = Some checkpoint /\ c + RollupBucket <= checkpoint) /\
  foldr (fun ft n => planned_samples srv ft.1 ft.2 (raw d) + n) 0 spans <= MaxRawSamples.
Proof.
  intros He Hft H. unfold queryRollupWithEdges in H. destruct (query_plan srv from to now d) as [rollups spans] eqn:Ep.
  destruct (query_plan_spec srv from to now d rollups spans He Hft Ep) as (Hc & Hs & Hr).
  destruct (read_spans _ _ _ _ _) as [edges|] eqn:Er; [|done]. injection H as <- <-.
  destruct (read_spans_ok _ _ _ _ _ _ Er) as [Hp Hb]. destruct (sortPoints_spec (rollup_points srv d rollups ++ edges)) as [S1 S2].
  assert (concat (p_samples <$> sortPoints (rollup_points srv d rollups ++ edges)) ≡ₚ
          used_rows srv d rollups ++ concat ((fun ft => samples_in srv ft.1 ft.2 (raw d)) <$> spans)) as Hall.
  { rewrite S1, fmap_app, concat_app, Hp, rollup_points_content; [done|]. intros c Hin. by apply Hr. }
  assert (forall late gone, (forall c, c ∈ rollups -> row_differs srv c late gone d) ->
     concat (p_samples <$> sortPoints (rollup_points srv d rollups ++ edges)) ++ in_buckets srv rollups late ≡ₚ
     samples_in srv from to (raw d) ++ in_buckets srv rollups gone) as Hdiff.
  { intros late gone Hd. rewrite Hall, <- (plan_splits srv from to (raw d) rollups spans Hc), <- !app_assoc.
    rewrite (Permutation_app_comm (concat _) (in_buckets srv rollups late)), (Permutation_app_comm (concat _) (in_buckets srv rollups gone)), !app_assoc.
    apply Permutation_app_tail, used_rows_differ. intros c Hin. split; [by apply Hr|by apply Hd]. }
  split_and!; [exact S2| |exact Hdiff| | |].
  - by rewrite Hall, plan_outside.
  - intros Hfresh. specialize (Hdiff [] []). rewrite !in_buckets_nil, !app_nil_r in Hdiff. apply Hdiff.
    intros c Hin row Hrow. rewrite !app_nil_r. by apply Hfresh.
  - intros c Hin. destruct (Hr c Hin) as (_ & _ & Hcf & ? & ? & ?). split_and!; try done.
    unfold confirmedBuckets in Hcf. destruct (checkpoints d !! srv) as [cp|]; [|by apply elem_of_nil in Hcf].
    destruct (IsZero cp); [by apply elem_of_nil in Hcf|]. apply list_elem_of_filter in Hcf as [Ha _].
    apply After_false in Ha. by exists cp.
  - destruct spans as [|ft rest]; [done|]. by apply Hb.
Qed.

(** *** The refresh *)

(** What a refresh owes a closed bucket: the row holds the bucket's samples, or the bucket
    has none left and the row keeps what it had. *)
Definition row_done (srv : Z) (c : time) (d d' : mdb) : Prop :=
  exists row, rollup d' !! (srv, c) = Some row /\
    (row ≡ₚ samples_in srv c (c + RollupBucket) (raw d) \/
     samples_in srv c (c + RollupBucket) (raw d) = [] /\ rollup d !! (srv, c) = Some row).

Lemma bucket_content_perm gap srv from to c l :
  0 <= gap -> aligned c -> from <= c -> c + RollupBucket <= to ->
  bucket_content gap srv from to c l ≡ₚ samples_in srv c (c + RollupBucket) l.
Proof.
  intros Hg Ha Hf Ht. unfold bucket_content, bounded.
  assert (forall s, s ∈ predecessor srv (from - gap) l -> s_time s < from - gap) as Hpred.
  { intros s Hs. unfold predecessor in Hs. destruct (last _) as [x|] eqn:E; cbn in Hs; [|by apply elem_of_nil in Hs].
    apply list_elem_of_singleton in Hs as ->. apply last_Some_elem_of in E. unfold sort_by_time in E.
    rewrite merge_sort_Permutation in E. apply list_elem_of_filter in E as [E _]. by bools. }
  rewrite filter_app. replace (filter _ (predecessor srv (from - gap) l)) with (@nil sample).
  - cbn [app]. rewrite scanned_perm. unfold samples_in. rewrite list_filter_filter.
    match goal with |- ?a ≡ₚ ?b => enough (a = b) as -> by done end.
    apply list_filter_iff. intros s. rewrite (bucket_of_unique c (s_time s) Ha).
    rewrite !andb_true_iff, !in_span_spec. split; [tauto|]. intros [? ?]. split_and!; try done; lia.
  - symmetry. induction (predecessor srv (from - gap) l) as [|s p IH]; [done|].
    rewrite filter_cons, decide_False, IH; [done|intros s' Hs'; apply Hpred; by right|].
    rewrite (bucket_of_unique c (s_time s) Ha), in_span_spec. specialize (Hpred s ltac:(left)). lia.
Qed.

Lemma write_buckets_spec gap srv from to l cs : forall m,
  NoDup cs -> let m' := foldl (write_bucket gap srv from to l) m cs in
  (forall c, c ∈ cs -> exists row, m' !! (srv, c) = Some row /\
     (row = bucket_content gap srv from to c l \/ bucket_content gap srv from to c l = [] /\ m !! (srv, c) = Some row)) /\
  (forall k, (forall c, c ∈ cs -> k <> (srv, c)) -> m' !! k = m !! k).
Proof.
  induction cs as [|c cs IH]; intros m Hnd; cbn [foldl].
  { split; [intros c Hc; by apply elem_of_nil in Hc|done]. }
  apply NoDup_cons in Hnd as [Hc Hnd]. destruct (IH (write_bucket gap srv from to l m c) Hnd) as [H1 H2].
  assert (forall k, k <> (srv, c) -> write_bucket gap srv from to l m c !! k = m !! k) as Hother.
  { intros k Hk. unfold write_bucket. destruct (m !! (srv, c)) as [[]|], (bucket_content _ _ _ _ _ _); try done;
      by rewrite lookup_insert_ne. }
  split.
  - intros c' [->|Hc']%elem_of_cons.
    + rewrite H2 by (intros c0 Hc0 [= ->]; done). unfold write_bucket.
      destruct (m !! (srv, c)) as [[|s row]|] eqn:Em; [|destruct (bucket_content _ _ _ _ _ _) eqn:Eb|].
      * rewrite lookup_insert_eq. eauto.
      * exists (s :: row). auto.
      * rewrite lookup_insert_eq. eauto.
      * rewrite lookup_insert_eq. eauto.
    + destruct (H1 c' Hc') as (row & Hrow & [?|[? Hm]]); exists row; [auto|].
      rewrite Hother in Hm by (intros [= ->]; done). auto.
  - intros k Hk. rewrite H2 by (intros c0 Hc0; apply Hk; by right). apply Hother, Hk. left.
Qed.

Lemma cursors_NoDup fuel : forall c to, NoDup (cursors fuel c to) /\ forall b, b ∈ cursors fuel c to -> c <= b.
Proof.
  assert (0 < RollupBucket) as HB by done. induction fuel as [|fuel IH]; intros c to; cbn [cursors].
  { split; [constructor|intros b Hb; by apply elem_of_nil in Hb]. }
  destruct (Before c to); [|split; [constructor|intros b Hb; by apply elem_of_nil in Hb]].
  destruct (IH (c + RollupBucket) to) as [H1 H2]. split.
  - constructor; [intros Hc; specialize (H2 _ Hc); lia|done].
  - intros b [->|Hb]%elem_of_cons; [lia|]. specialize (H2 _ Hb). lia.
Qed.

Lemma rollupStart_aligned srv now window d : aligned (rollupStart srv now window d).
Proof. unfold rollupStart. repeat case_match; apply BucketStart_aligned. Qed.

Definition untouched (srv : Z) (d d' : mdb) : Prop :=
  checkpoints d' !! srv = checkpoints d !! srv /\ forall c, rollup d' !! (srv, c) = rollup d !! (srv, c).
Definition refreshed (now : time) (window : duration) (srv : Z) (d d' : mdb) : Prop :=
  checkpoints d' !! srv = Some (BucketStart now) /\
  forall c, aligned c -> rollupStart srv now window d <= c < BucketStart now -> row_done srv c d d'.

Lemma refresh_server_spec gap now window srv d :
  0 <= gap -> let d' := refresh_server gap now window srv d in
  raw d' = raw d /\ (forall srv', srv' <> srv -> untouched srv' d d') /\
  (if Before (rollupStart srv now window d) (BucketStart now) then refreshed now window srv d d' else d' = d).
Proof.
  intros Hg. cbn zeta. unfold refresh_server. set (from := rollupStart srv now window d). set (closed := BucketStart now).
  destruct (Before from closed) eqn:E; cbn [negb]; [|done]. bools.
  assert (NoDup (bucket_cursors from closed)) as Hnd by apply cursors_NoDup.
  destruct (write_buckets_spec gap srv from closed (raw d) _ (rollup d) Hnd) as [H1 H2].
  split; [done|]. split.
  - intros srv' Hne. split; cbn; [by rewrite lookup_insert_ne|]. intros c. apply H2. intros c' _ [= ? ?]. done.
  - split; cbn; [apply lookup_insert_eq|]. intros c Hc [Hlo Hhi].
    assert (aligned from) as Hfa by apply rollupStart_aligned. assert (aligned closed) as Hca by apply BucketStart_aligned.
    assert (c ∈ bucket_cursors from closed) as Hin.
    { apply bucket_cursors_spec. destruct Hfa as [i Hi], Hc as [j Hj]. exists (j - i).
      assert (0 < RollupBucket) by done. split; [nia|]. split; [rewrite Hi, Hj; ring|done]. }
    destruct (H1 c Hin) as (row & Hrow & Hcase). exists row. split; [done|].
    assert (c + RollupBucket <= closed) as Hend by (by apply aligned_lt).
    pose proof (bucket_content_perm gap srv from closed c (raw d) Hg Hc Hlo Hend) as Hp.
    destruct Hcase as [->|[Hnil Hm]]; [by left|right]. rewrite Hnil in Hp. by apply Permutation_nil in Hp.
Qed.

Lemma untouched_trans srv d1 d2 d3 : untouched srv d1 d2 -> untouched srv d2 d3 -> untouched srv d1 d3.
Proof. intros [A1 A2] [B1 B2]. split; [congruence|]. intros c. by rewrite B2. Qed.

Lemma untouched_start srv now window d d' : untouched srv d d' -> rollupStart srv now window d' = rollupStart srv now window d.
Proof. intros [E _]. unfold rollupStart. by rewrite E. Qed.

Lemma refreshed_before now window srv d1 d2 d3 :
  raw d2 = raw d1 -> untouched srv d1 d2 -> refreshed now window srv d2 d3 -> refreshed now window srv d1 d3.
Proof.
  intros Er U [H1 H2]. split; [done|]. intros c Hc Hr. rewrite <- (untouched_start srv now window _ _ U) in Hr.
  destruct (H2 c Hc Hr) as (row & Hrow & Hcase). exists row. split; [done|]. rewrite Er in Hcase.
  destruct U as [_ U]. by rewrite U in Hcase.
Qed.

Lemma refreshed_after now window srv d1 d2 d3 :
  refreshed now window srv d1 d2 -> untouched srv d2 d3 -> refreshed now window srv d1 d3.
Proof.
  intros [H1 H2] [U1 U2]. split; [congruence|]. intros c Hc Hr. destruct (H2 c Hc Hr) as (row & Hrow & Hcase).
  exists row. rewrite U2. done.
Qed.

Lemma refresh_loop_spec gap now window fails servers : forall d d' ok,
  0 <= gap -> NoDup servers -> refresh_loop gap now window fails servers d = (d', ok) ->
  raw d' = raw d /\ (forall srv, srv ∉ servers -> untouched srv d d') /\
  (forall srv, untouched srv d d' \/ refreshed now window srv d d') /\
  (ok = true -> forall srv, srv ∈ servers -> rollupStart srv now window d < BucketStart now -> refreshed now window srv d d').
Proof.
  induction servers as [|srv rest IH]; intros d d' ok Hg Hnd H; cbn [refresh_loop] in H.
  { injection H as <- <-. split_and!; try done; [by left|]. intros _ srv Hs. by apply elem_of_nil in Hs. }
  destruct (fails srv); [injection H as <- <-; split_and!; try done; by left|].
  apply NoDup_cons in Hnd as [Hsrv Hnd].
  destruct (refresh_server_spec gap now window srv d Hg) as (R1 & R2 & R3). set (d1 := refresh_server _ _ _ _ _) in *. clearbody d1.
  destruct (IH d1 d' ok Hg Hnd H) as (L1 & L2 & L3 & L4). split; [congruence|].
  assert (forall s, s <> srv -> untouched s d d1) as Hu by done.
  assert (untouched srv d1 d') as Hrest by (by apply L2).
  split_and!.
  - intros s Hs. eapply untouched_trans; [apply Hu; set_solver|apply L2; set_solver].
  - intros s. destruct (decide (s = srv)) as [->|Hne].
    + destruct (Before _ _); [right; by eapply refreshed_after|]. subst d1. by left.
    + destruct (L3 s) as [?|?]; [left; eapply untouched_trans; [by apply Hu|done]|right; eapply refreshed_before; [done|by apply Hu|done]].
  - intros -> s [->|Hs]%elem_of_cons Hlt.
    + rewrite (proj2 (Before_spec _ _) Hlt) in R3. by eapply refreshed_after.
    + assert (s <> srv) by (by intros ->). eapply refreshed_before; [done|by apply Hu|]. apply L4; [done|done|].
      by rewrite (untouched_start s now window d d1) by (by apply Hu).
Qed.

(** A refresh never advances the checkpoint of a server past work it has not done: in
    the database it leaves, whether it completed or failed at some server, each server is
    exactly as before, or its checkpoint is the end of the last closed bucket and every
    bucket from its starting point to there holds the samples the raw table has for it (or
    keeps its row when the raw table has none).  A cycle that completes has done so for
    every server it selected. *)
Theorem refresh_sound gap now window fails d d' ok :
  0 <= gap -> RefreshRollups gap now window fails d = (d', ok) ->
  raw d' = raw d /\
  (forall srv, untouched srv d d' \/ refreshed now (refresh_window window) srv d d') /\
  (ok = true -> BucketStart now <> 0 ->
   forall srv, srv ∈ serversNeedingRollup (BucketStart now - refresh_window window) (BucketStart now) d ->
     rollupStart srv now (refresh_window window) d < BucketStart now -> refreshed now (refresh_window window) srv d d').
Proof.
  intros Hg H. unfold RefreshRollups in H. destruct (IsZero (BucketStart now)) eqn:Ez; bools.
  { injection H as <- <-. split_and!; [done|by left|done]. }
  assert (NoDup (serversNeedingRollup (BucketStart now - refresh_window window) (BucketStart now) d)) as Hnd.
  { unfold serversNeedingRollup. rewrite merge_sort_Permutation. apply NoDup_remove_dups. }
  destruct (refresh_loop_spec _ _ _ _ _ _ _ _ Hg Hnd H) as (H1 & _ & H3 & H4). split_and!; [done|done|]. intros -> _. by apply H4.
Qed.

(** *** Retention *)

Lemma droppable_spec pending l chunks c :
  c ∈ droppable pending l chunks -> c ∈ chunks /\ chunk_held pending l c = false.
Proof.
  induction chunks as [|c0 rest IH]; cbn [droppable]; intros H; [by apply elem_of_nil in H|].
  destruct (chunk_held pending l c0) eqn:E; [by apply elem_of_nil in H|].
  apply elem_of_cons in H as [->|H]; [split; [left|done]|]. destruct (IH H). split; [by right|done].
Qed.

Lemma droppable_prefix pending l chunks : exists rest, chunks = droppable pending l chunks ++ rest.
Proof.
  induction chunks as [|c0 rest [r Hr]]; cbn [droppable]; [by exists []|].
  destruct (chunk_held pending l c0); [by exists (c0 :: rest)|]. exists r. cbn. by rewrite <- Hr.
Qed.

(** TimescaleDB lists the chunks of a table by range, and their ranges do not overlap. *)
Definition chunks_ordered (chunks : list (time * time)) : Prop :=
  StronglySorted (fun a b => a.2 <= b.1) chunks /\ forall c, c ∈ chunks -> c.1 < c.2.

(** A chunk that ends by the end of the last droppable one is droppable. *)
Lemma dropped_not_held pending l chunks cutoff last_c c :
  chunks_ordered chunks -> last (droppable pending l (filter (fun c => c.2 <= cutoff) chunks)) = Some last_c ->
  c ∈ chunks -> c.2 <= last_c.2 -> chunk_held pending l c = false /\ c.2 <= cutoff.
Proof.
  intros [Hs Hne] Hl Hc Hle. set (listed := filter _ chunks) in *.
  assert (last_c ∈ droppable pending l listed) as Hlast by (by apply last_Some_elem_of).
  destruct (droppable_spec _ _ _ _ Hlast) as [Hlin _].
  assert (last_c.2 <= cutoff) as Hcut by (by apply list_elem_of_filter in Hlin as [? _]).
  assert (c ∈ listed) as Hcl by (apply list_elem_of_filter; split; [lia|done]).
  split; [|lia]. destruct (droppable_prefix pending l listed) as [rest Hrest].
  assert (StronglySorted (fun a b => a.2 <= b.1) listed) as Hsl by (eapply StronglySorted_sublist; [apply sublist_filter|done]).
  rewrite Hrest in Hcl. apply elem_of_app in Hcl as [Hcl|Hcl]; [by destruct (droppable_spec _ _ _ _ Hcl)|].
  exfalso. rewrite Hrest in Hsl. apply StronglySorted_app in Hsl as (Hx & _ & _).
  pose proof (Hx last_c c Hlast Hcl) as Hord. cbn in Hord. specialize (Hne c Hc). lia.
Qed.

Lemma chunk_held_false pending l c s :
  chunk_held pending l c = false -> s ∈ l -> in_span c.1 c.2 (s_time s) = true -> s_server s ∉ pending.
Proof.
  intros H Hs Hin Hp. assert (chunk_held pending l c = true) as E; [|congruence].
  unfold chunk_held. apply existsb_exists. exists s. split; [by apply list_elem_of_In|]. rewrite Hin. by apply bool_decide_eq_true_2.
Qed.

(** Dropping whole chunks removes nothing that the row deletes would keep. *)
Lemma drop_chunks_kept chunks plan l0 last_c s :
  chunks_ordered chunks ->
  last (droppable (Pending plan) l0 (filter (fun c => c.2 <= Cutoff plan) chunks)) = Some last_c ->
  s ∈ l0 -> Cutoff plan <= s_time s \/ s_server s ∈ Pending plan ->
  existsb (fun c => in_span c.1 c.2 (s_time s) && (c.2 <=? last_c.2)) chunks = false.
Proof.
  intros Ho Hl Hs Hkeep. apply not_true_iff_false. intros Hx.
  apply existsb_exists in Hx as (c & Hc%list_elem_of_In & Hc2). apply andb_true_iff in Hc2 as [Hin Hle%Z.leb_le].
  destruct (dropped_not_held _ _ _ _ _ _ Ho Hl Hc Hle) as [Hheld Hcut].
  pose proof (chunk_held_false _ _ _ _ Hheld Hs Hin). apply in_span_spec in Hin. destruct Hkeep; [lia|done].
Qed.

Lemma filter_filter_absorb {A} (P Q : A -> Prop) `{forall x, Decision (P x), forall x, Decision (Q x)} (l : list A) :
  (forall x, x ∈ l -> P x -> Q x) -> filter P (filter Q l) = filter P l.
Proof.
  induction l as [|x l IH]; intros H'; [done|]. rewrite (filter_cons Q), (filter_cons P).
  assert (filter P (filter Q l) = filter P l) as E by (apply IH; intros y Hy; apply H'; by right).
  destruct (decide (Q x)) as [HQ|HQ]; [rewrite filter_cons|]; destruct (decide (P x)) as [HP|HP]; rewrite ?E; try done.
  destruct HQ. apply H'; [left|done].
Qed.

Lemma PruneMetrics_raw chunks plan d :
  chunks_ordered chunks ->
  raw (PruneMetrics chunks plan d) = filter (fun s => Cutoff plan <= s_time s \/ s_server s ∈ Pending plan) (raw d).
Proof.
  intros Ho. unfold PruneMetrics. cbn [raw]. destruct (last _) as [c|] eqn:El; [|done].
  apply filter_filter_absorb. intros s Hs Hk. by eapply drop_chunks_kept.
Qed.

Lemma Pending_spec now retention d srv :
  srv ∈ Pending (PlanPrune now retention d) <->
  exists s, s ∈ raw d /\ s_server s = srv /\ unaggregated (Cutoff (PlanPrune now retention d)) d s = true.
Proof.
  unfold PlanPrune. cbn [Pending Cutoff]. rewrite elem_of_remove_dups, list_elem_of_fmap. split.
  - intros (s & -> & [? ?]%list_elem_of_filter). by exists s.
  - intros (s & ? & <- & ?). exists s. by rewrite list_elem_of_filter.
Qed.

(** C19: Retention deletes only what has been aggregated.  Only an enabled job that is not
    a dry run changes anything.  Dropping whole chunks first removes no sample the row
    deletes would keep: the samples left are exactly those not older than the cutoff and
    those of the servers with a sample below the cutoff that their checkpoint does not
    cover; so every sample removed is older than the cutoff and older than its server's
    checkpoint, rows of the rollup are removed only below the cutoff and not for these
    servers, and checkpoints stay. *)
Theorem prune_safe chunks enabled dryRun now d :
  chunks_ordered chunks ->
  let d' := Prune chunks enabled dryRun now d in
  let cutoff := now - MetricsRetention in
  checkpoints d' = checkpoints d /\
  (retentionDecision enabled dryRun <> retentionApply -> d' = d) /\
  (retentionDecision enabled dryRun = retentionApply ->
   let held srv := exists s, s ∈ raw d /\ s_server s = srv /\ unaggregated cutoff d s = true in
   (forall s, s ∈ raw d' <-> s ∈ raw d /\ (cutoff <= s_time s \/ held (s_server s))) /\
   (forall s, s ∈ raw d -> s ∉ raw d' ->
      s_time s < cutoff /\ exists c, checkpoints d !! s_server s = Some c /\ s_time s < c) /\
   (forall srv c, rollup d' !! (srv, c) <> rollup d !! (srv, c) -> c < cutoff /\ ~ held srv)).
Proof.
  intros Ho. cbn zeta. set (cutoff := now - MetricsRetention). unfold Prune.
  destruct (retentionDecision enabled dryRun) eqn:E; try (split_and!; done).
  split; [done|]. split; [done|]. intros _. set (plan := PlanPrune now MetricsRetention d).
  assert (Cutoff plan = cutoff) as Ec by done.
  assert (forall srv, srv ∈ Pending plan <-> exists s, s ∈ raw d /\ s_server s = srv /\ unaggregated cutoff d s = true) as Hp
    by (intros srv; apply (Pending_spec now MetricsRetention d srv)).
  assert (forall s, s ∈ raw (PruneMetrics chunks plan d) <-> s ∈ raw d /\ (cutoff <= s_time s \/ s_server s ∈ Pending plan)) as Hraw.
  { intros s. rewrite PruneMetrics_raw, list_elem_of_filter, Ec by done. tauto. }
  split_and!.
  - intros s. by rewrite Hraw, Hp.
  - intros s Hs Hn. rewrite Hraw in Hn. assert (s_time s < cutoff) as Hlt by (apply Z.nle_gt; tauto). split; [done|].
    assert (unaggregated cutoff d s <> true) as Hu by (intros Hu; apply Hn; split; [done|]; right; apply Hp; eauto).
    unfold unaggregated in Hu. rewrite (proj2 (Z.ltb_lt _ _) Hlt) in Hu. cbn in Hu.
    destruct (checkpoints d !! s_server s) as [c|]; [|done]. exists c. split; [done|]. destruct (c <=? s_time s) eqn:El; [done|]. by apply Z.leb_gt in El.
  - intros srv c Hne. rewrite <- Hp. cbn [PruneMetrics rollup] in Hne.
    destruct (decide (cutoff <= c \/ srv ∈ Pending plan)) as [Hk|Hk]; [|split; [lia|tauto]].
    destruct Hne. destruct (rollup d !! (srv, c)) as [row|] eqn:Er.
    + by apply map_lookup_filter_Some.
    + apply map_lookup_filter_None. by left.
Qed.

(** *** The weights of a pair *)

Lemma pair_weight_split size wfrom wto prev cur : forall n b,
  0 < size -> wfrom <= wto ->
  foldr (fun c w => pair_weight size wfrom wto c prev cur + w) 0 ((fun k => b + Z.of_nat k * size) <$> seq 0 n) =
  Z.max 0 (Z.min cur (Z.min (b + Z.of_nat n * size) wto) - Z.max prev (Z.max b wfrom)).
Proof.
  intros n b Hs Hw. revert b. induction n as [|n IH]; intros b; [cbn; lia|].
  cbn [seq fmap list_fmap foldr]. rewrite <- fmap_S_seq, <- list_fmap_compose.
  assert (((fun k : nat => b + Z.of_nat k * size) ∘ S) <$> seq 0 n = (fun k => (b + size) + Z.of_nat k * size) <$> seq 0 n) as ->.
  { apply list_fmap_ext. intros i k _. cbn. lia. }
  rewrite IH. unfold pair_weight.
  replace (b + Z.of_nat 0 * size) with b by lia. replace (b + Z.of_nat (S n) * size) with (b + size + Z.of_nat n * size) by lia.
  assert (0 <= Z.of_nat n * size) by nia. set (e := Z.of_nat n * size) in *. clearbody e. lia.
Qed.

(** The time a pair of samples contributes to the buckets of a window is exactly the
    time its interval spends in the window: nothing outside the window counts, a
    boundary-crossing interval is split between its buckets, and no part of it is lost or
    counted twice. *)
Theorem pair_weights_exact size wfrom wto prev cur :
  0 < size -> wfrom <= wto ->
  foldr (fun b w => pair_weight size wfrom wto b prev cur + w) 0 (pair_buckets size wfrom wto) =
  Z.max 0 (Z.min cur wto - Z.max prev wfrom).
Proof.
  intros Hs Hw. unfold pair_buckets. set (e := unix_epoch * Second).
  set (lo := (wfrom - e) / size). set (hi := (wto - e) / size).
  assert (lo <= hi) as Hlh by (apply Z.div_le_mono; lia). unfold seqZ. rewrite <- list_fmap_compose.
  set (n := Z.to_nat (hi - lo + 1)).
  assert (((fun k => e + k * size) ∘ (fun i => Z.of_nat i + lo)) <$> seq 0 n = (fun k => (e + lo * size) + Z.of_nat k * size) <$> seq 0 n) as ->.
  { apply list_fmap_ext. intros i k _. cbn. lia. }
  rewrite pair_weight_split by done. replace (Z.of_nat n) with (hi - lo + 1) by lia.
  pose proof (Z.mul_div_le (wfrom - e) size Hs). pose proof (Z.mul_succ_div_gt (wto - e) size Hs).
  fold lo in H. fold hi in H0. assert (lo * size = size * lo) by ring.
  assert (e + lo * size + (hi - lo + 1) * size = e + size * Z.succ hi) by (rewrite <- Z.add_1_r; ring). lia.
Qed.

(** ** Witnesses *)

Definition demo_hour (h : Z) : time := unix_epoch * Second + h * Hour.
Definition demo_at (srv h : Z) : sample := MkSample srv (demo_hour h) "b" [Some h; Some h; Some h; Some h].
(** Server 1 has samples in three buckets, and a checkpoint after the first two. *)
Definition demo_metrics : mdb :=
  MkDb [demo_at 1 1; demo_at 1 7; demo_at 1 13; demo_at 2 1]
    (list_to_map [((1, demo_hour 0), [demo_at 1 1]); ((1, demo_hour 6), [demo_at 1 7])])
    {[ 1 := demo_hour 12 ]}.

Lemma pair_weights_exact_witness :
  foldr (fun b w => pair_weight RollupBucket (demo_hour 1) (demo_hour 14) b (demo_hour 5) (demo_hour 20) + w) 0
    (pair_buckets RollupBucket (demo_hour 1) (demo_hour 14)) = 9 * Hour.
Proof. rewrite (pair_weights_exact RollupBucket (demo_hour 1) (demo_hour 14) (demo_hour 5) (demo_hour 20)); [reflexivity|reflexivity|by vm_compute]. Defined.

Definition demo_stitched : result query_err (list point * bool) :=
  queryRollupWithEdges DefaultDeltaGapThreshold 1 (demo_hour 0) (demo_hour 14) (demo_hour 40) demo_metrics.

Definition demo_points : list point := match demo_stitched with Ok (ps, _) => ps | Err _ => [] end.

Lemma demo_fresh c : c ∈ [demo_hour 0; demo_hour 6] -> fresh_row 1 c demo_metrics.
Proof.
  intros [->|[->|H]%elem_of_cons]%elem_of_cons; [| |by apply elem_of_nil in H]; intros row [= <-]; vm_compute; done.
Qed.

(** The first two buckets come from the rollup, the rest of the window from raw samples. *)
Lemma stitched_query_witness :
  demo_stitched = Ok (demo_points, true) /\ map p_time demo_points = [demo_hour 0; demo_hour 6; demo_hour 12] /\
  concat (p_samples <$> demo_points) ≡ₚ samples_in 1 (demo_hour 0) (demo_hour 14) (raw demo_metrics).
Proof.
  assert (demo_stitched = Ok (demo_points, true)) as E by (vm_compute; reflexivity). split; [exact E|].
  split; [vm_compute; reflexivity|].
  pose proof (stitched_query DefaultDeltaGapThreshold 1 (demo_hour 0) (demo_hour 14) (demo_hour 40) demo_metrics
    demo_points true ltac:(by vm_compute) eq_refl E) as H.
  assert (query_plan 1 (demo_hour 0) (demo_hour 14) (demo_hour 40) demo_metrics =
    ([demo_hour 0; demo_hour 6], [(demo_hour 12, demo_hour 14)])) as Ep by (vm_compute; reflexivity).
  rewrite Ep in H. destruct H as (_ & _ & _ & H & _). apply H. exact demo_fresh.
Defined.

(** A sample accepted late into a bucket the rollup serves is missing until the next cycle. *)
Example demo_late :
  let d := MkDb (demo_at 1 2 :: raw demo_metrics) (rollup demo_metrics) (checkpoints demo_metrics) in
  let ask d := match queryRollupWithEdges DefaultDeltaGapThreshold 1 (demo_hour 0) (demo_hour 14) (demo_hour 40) d with
               | Ok (points, _) => concat (p_samples <$> points)
               | Err _ => []
               end in
  ask d = [demo_at 1 1; demo_at 1 7; demo_at 1 13] /\
  ask (RefreshRollups DefaultDeltaGapThreshold (demo_hour 40) RollupRefreshWindow (fun _ => false) d).1 =
    [demo_at 1 1; demo_at 1 2; demo_at 1 7; demo_at 1 13].
Proof. vm_compute. split; reflexivity. Qed.

(** A cycle whose transaction for server 2 fails still leaves server 1 refreshed. *)
Definition demo_refreshed : mdb * bool :=
  RefreshRollups DefaultDeltaGapThreshold (demo_hour 40) RollupRefreshWindow (fun _ => false) demo_metrics.
Lemma refresh_sound_witness :
  demo_refreshed.2 = true /\ refreshed (demo_hour 40) RollupRefreshWindow 2 demo_metrics demo_refreshed.1 /\
  checkpoints demo_refreshed.1 !! 2 = Some (demo_hour 36).
Proof.
  assert (demo_refreshed = (demo_refreshed.1, demo_refreshed.2)) as E by apply surjective_pairing.
  destruct (refresh_sound DefaultDeltaGapThreshold (demo_hour 40) RollupRefreshWindow (fun _ => false) demo_metrics
    demo_refreshed.1 demo_refreshed.2 ltac:(by vm_compute) E) as (_ & _ & H).
  split; [vm_compute; reflexivity|]. split; [|vm_compute; reflexivity]. apply H; [vm_compute; reflexivity|by vm_compute| |by vm_compute].
  apply (bool_decide_eq_true_1 (2 ∈ _)). vm_compute. reflexivity.
Defined.

(** A month later server 1 is aggregated through its checkpoint and server 2 is not. *)
Definition demo_chunks : list (time * time) := [(demo_hour 0, demo_hour 24); (demo_hour 24, demo_hour 48)].
Definition demo_pruned : mdb :=
  Prune demo_chunks true false (demo_hour 12 + MetricsRetention) demo_metrics.

Lemma prune_safe_witness :
  chunks_ordered demo_chunks /\ (~ demo_at 1 1 ∈ raw demo_pruned) /\
  s_time (demo_at 1 1) < demo_hour 12 /\ demo_at 2 1 ∈ raw demo_pruned.
Proof.
  assert (chunks_ordered demo_chunks) as Ho.
  { split; [repeat constructor; by vm_compute|].
    intros c [->|[->|H]%elem_of_cons]%elem_of_cons; [by vm_compute|by vm_compute|by apply elem_of_nil in H]. }
  assert (demo_at 1 1 ∉ raw demo_pruned) as Hn by (apply (bool_decide_eq_false_1 (_ ∈ _)); vm_compute; reflexivity).
  destruct (prune_safe demo_chunks true false (demo_hour 12 + MetricsRetention) demo_metrics Ho) as (_ & _ & H).
  destruct (H eq_refl) as (H1 & H2 & _). split_and!; [exact Ho|exact Hn| |].
  - destruct (H2 (demo_at 1 1)) as [Hlt _]; [left|exact Hn|]. revert Hlt. by vm_compute.
  - apply H1. split; [do 3 right; left|]. right. exists (demo_at 2 1).
    split; [do 3 right; left|]. split; [reflexivity|vm_compute; reflexivity].
Defined.

(** *** A backlog that no later cycle aggregates

    A server without a checkpoint whose only sample is ten days old (the startup cycle, the
    only one with the long window, failed): the hourly cycle selects it, starts two days
    back, and confirms everything before; the sample is never in the rollup, and a month
    later retention deletes it. *)
Definition backlog : mdb := MkDb [demo_at 3 1] ∅ ∅.
Definition backlog_failed : mdb * bool :=
  RefreshRollups DefaultDeltaGapThreshold (demo_hour 241) RollupBackfillWindow (fun _ => true) backlog.
Definition backlog_refreshed : mdb * bool :=
  RefreshRollups DefaultDeltaGapThreshold (demo_hour 242) RollupRefreshWindow (fun _ => false) backlog_failed.1.
Definition backlog_pruned : mdb := Prune [] true false (demo_hour 12 + MetricsRetention) backlog_refreshed.1.

Example backlog_never_aggregated :
  backlog_failed = (backlog, false) /\ backlog_refreshed.2 = true /\
  checkpoints backlog_refreshed.1 !! 3 = Some (demo_hour 240) /\
  rollup backlog_refreshed.1 !! (3, demo_hour 0) = None /\ raw backlog_refreshed.1 = [demo_at 3 1] /\
  raw backlog_pruned = [].
Proof. vm_compute. split_and!; reflexivity. Qed.
