(* ===== verification/NetIP.v ===== *)
(** * Addresses of package [net]

    [net.ParseIP], [IP.To4] and [IP.String], as [normalizeProxyHost] of
    [service/server_connection.go] and the SOCKS5 client of [pkg/sshpool/route.go] use them.
    An address is its eight 16-bit groups; an IPv4 address is mapped as [::ffff:a.b.c.d]. *)

From S2P Require Import Prelude GoStrings.

(** Lexing: a digit of base 16, and the longest run of digits. *)
Definition hex_value (c : ascii) : option Z :=
  let n := Z.of_nat (nat_of_ascii c) in
  if (48 <=? n) && (n <=? 57) then Some (n - 48)
  else if (97 <=? n) && (n <=? 102) then Some (n - 87)
  else if (65 <=? n) && (n <=? 70) then Some (n - 55)
  else None.
Definition dec_value (c : ascii) : option Z :=
  let n := Z.of_nat (nat_of_ascii c) in if (48 <=? n) && (n <=? 57) then Some (n - 48) else None.

(** A decimal octet: not empty, at most 255, without a leading zero. *)
Fixpoint octet_digits (s : string) (acc : Z) : option Z :=
  match s with
  | EmptyString => Some acc
  | String c s => match dec_value c with
                  | Some d => if 255 <? acc * 10 + d then None else octet_digits s (acc * 10 + d)
                  | None => None
                  end
  end.
Definition parse_octet (s : string) : option Z :=
  match s with
  | EmptyString => None
  | String "0" (String _ _) => None
  | _ => octet_digits s 0
  end.
(** [parseIPv4Fields]. *)
Definition parse_ipv4 (s : string) : option (list Z) :=
  match parse_octet <$> split_on "." s with
  | [Some a; Some b; Some c; Some d] => Some [a; b; c; d]
  | _ => None
  end.

(** A run of at most four hexadecimal digits and the rest; [None] when there are more. *)
Fixpoint hex_run (s : string) (digits : nat) (acc : Z) : option (nat * Z * string) :=
  match s with
  | EmptyString => Some (digits, acc, s)
  | String c rest =>
      match hex_value c with
      | Some d => if (3 <? Z.of_nat digits) then None else hex_run rest (S digits) (acc * 16 + d)
      | None => Some (digits, acc, s)
      end
  end.

(** The loop of [parseIPv6]: the groups so far (last first) and where the ellipsis was. *)
Fixpoint ipv6_loop (fuel : nat) (s : string) (groups : list Z) (ellipsis : option nat) : option (list Z * option nat) :=
  match fuel with
  | O => None
  | S fuel =>
      if (8 <=? List.length groups)%nat then (if String.eqb s "" then Some (groups, ellipsis) else None)
      else
        match hex_run s 0 0 with
        | None => None
        | Some (O, _, _) => None
        | Some (_, _, String "." _) =>
            if bool_decide (ellipsis = None) && negb (List.length groups =? 6)%nat || (6 <? List.length groups)%nat then None
            else match parse_ipv4 s with
                 | Some [a; b; c; d] => Some (c * 256 + d :: a * 256 + b :: groups, ellipsis)
                 | _ => None
                 end
        | Some (_, acc, rest) =>
            let groups := acc :: groups in
            match rest with
            | EmptyString => Some (groups, ellipsis)
            | String ":" EmptyString => None
            | String ":" (String ":" rest) =>
                match ellipsis with
                | Some _ => None
                | None => if String.eqb rest "" then Some (groups, Some (List.length groups))
                          else ipv6_loop fuel rest groups (Some (List.length groups))
                end
            | String ":" rest => ipv6_loop fuel rest groups ellipsis
            | _ => None
            end
        end
  end.
Definition expand (groups : list Z) (ellipsis : option nat) : option (list Z) :=
  match ellipsis with
  | None => if (List.length groups =? 8)%nat then Some groups else None
  | Some i => if (List.length groups <? 8)%nat
              then Some (take i groups ++ replicate (8 - List.length groups) 0 ++ drop i groups) else None
  end.
(** The rest after a leading ellipsis. *)
Definition after_ellipsis (s : string) : option string :=
  match s with
  | String a (String b rest) => if bool_decide (a = ":"%char) && bool_decide (b = ":"%char) then Some rest else None
  | _ => None
  end.
Definition parse_ipv6 (s : string) : option (list Z) :=
  if contains_byte "%" s then None
  else
    match after_ellipsis s with
    | Some rest =>
        if String.eqb rest "" then Some (replicate 8 0)
        else '(groups, e) ← ipv6_loop 9 rest [] (Some O); expand (rev groups) e
    | None => '(groups, e) ← ipv6_loop 9 s [] None; expand (rev groups) e
    end.

(** [netip.ParseAddr] decides by the first of ['.'], [':'] and ['%']. *)
Fixpoint first_mark (s : string) : option ascii :=
  match s with
  | EmptyString => None
  | String c s => if bool_decide (c ∈ ["."; ":"; "%"]%char) then Some c else first_mark s
  end.
Definition mapped_ipv4 (l : list Z) : option (list Z) :=
  match l with [a; b; c; d] => Some [0; 0; 0; 0; 0; 65535; a * 256 + b; c * 256 + d] | _ => None end.
Definition ParseIP (s : string) : option (list Z) :=
  match first_mark s with
  | None => None
  | Some c =>
      if bool_decide (c = "."%char) then parse_ipv4 s ≫= mapped_ipv4
      else if bool_decide (c = ":"%char) then parse_ipv6 s
      else None
  end.

(** [To4], and the bytes of the 16-byte form. *)
Definition To4 (ip : list Z) : option (list Z) :=
  match ip with
  | [0; 0; 0; 0; 0; 65535; hi; lo] => Some [hi / 256; hi mod 256; lo / 256; lo mod 256]
  | _ => None
  end.
Definition To16 (ip : list Z) : list Z := ip ≫= fun g => [g / 256; g mod 256].

(** ** Rendering *)

Definition hex_char (d : Z) : ascii := ascii_of_nat (Z.to_nat (if d <? 10 then 48 + d else 87 + d)).
(** Without leading zeros, but at least one digit. *)
Fixpoint strip_zeros (l : list Z) : list Z :=
  match l with 0 :: l' => match l' with [] => l | _ => strip_zeros l' end | _ => l end.
Definition hex_string (g : Z) : string :=
  string_of_list_ascii (hex_char <$> strip_zeros [g / 4096; g / 256 mod 16; g / 16 mod 16; g mod 16]).

(** The longest run of at least two zero groups, the first of equals. *)
Definition zeros_from (ip : list Z) (i : nat) : nat :=
  let fix run (l : list Z) : nat := match l with 0 :: l => S (run l) | _ => O end in run (drop i ip).
Definition zero_run (ip : list Z) : option (nat * nat) :=
  foldl (fun best i => let l := zeros_from ip i in
           if (2 <=? l)%nat && match best with Some (_, n) => (n <? l)%nat | None => true end then Some (i, l) else best)
    None (seq 0 8).
Definition ip_string (ip : list Z) : string :=
  match To4 ip with
  | Some l => join "." (FormatUint <$> l)
  | None =>
      match zero_run ip with
      | None => join ":" (hex_string <$> ip)
      | Some (i, n) => join ":" (hex_string <$> take i ip) +:+ "::" +:+ join ":" (hex_string <$> drop (i + n) ip)
      end
  end.

Example ip_canonical :
  (fun s => ip_string <$> ParseIP s) <$>
    ["192.168.0.1"; "192.168.00.1"; "256.1.1.1"; "1.2.3"; "::1"; "::"; "2001:DB8:0:0:1:0:0:1"; "::ffff:10.0.0.7"; "1::2::3";
     "fe80::1%eth0"; "12345::1"; "1:2:3:4:5:6:7:8:9"; "1:2:3:4:5:6:1.2.3.4"; "0:0:0:1::"; "example.com"; "1:2:3:4:5:6:7::"]
  = [Some "192.168.0.1"; None; None; None; Some "::1"; Some "::"; Some "2001:db8::1:0:0:1"; Some "10.0.0.7"; None;
     None; None; None; Some "1:2:3:4:5:6:102:304"; Some "0:0:0:1::"; None; Some "1:2:3:4:5:6:7:0"].
Proof. vm_compute. reflexivity. Qed.
