(* ===== verification/Servers.v ===== *)
(** * Servers, SSH routes and host keys in the database

    [service/server_connection.go], [repository/server_connection.go],
    [repository/ssh_route.go] and the writes of [service/credential.go]: servers, the one
    jump host or proxy each may be reached through, the host key pinned for each and the
    key seen last.  A transaction first locks the rows of its servers, then reads, then
    writes and commits; other transactions run in between, on other servers.  [sstep]
    interleaves these three steps of any number of transactions, so the theorems rest on
    the locks the code takes and not on the transactions being atomic. *)

From S2P Require Import Prelude GoStrings NetIP.

(** ** Rows *)

Record SSHCredential := MkCred {
  cr_id : Z; cr_version : Z; AuthType : string; Username : string; cr_password : option string;
  cr_key : option string; cr_salt : string; UpdatedAt : time; cr_deleted : bool }.

Record Server := MkServer {
  ID : Z; Name : string; Host : string; Port : Z; Description : option string; Notes : option string;
  CredentialID : option Z; ConnectionRevision : Z; HostKey : option string; HostKeySeen : option string;
  HostKeyMismatchAt : option time; DeletedAt : bool }.

Definition ConnectionDirect : string := "direct".
Definition ConnectionSSHJump : string := "ssh_jump".
Definition ConnectionSOCKS5 : string := "socks5".
Definition SOCKSAuthNone : string := "none".
Definition SOCKSAuthPassword : string := "username_password".

(** An absent row means direct. *)
Record Config := MkConfig {
  c_version : Z; c_server : Z; Mode : string; JumpServerID : option Z; SocksHost : string; SocksPort : Z;
  SocksAuthType : string; SocksUsername : string; c_password : option string; c_salt : option string }.

#[export] Instance cred_eq_dec : EqDecision SSHCredential.
Proof. solve_decision. Defined.
#[export] Instance server_eq_dec : EqDecision Server.
Proof. solve_decision. Defined.
#[export] Instance config_eq_dec : EqDecision Config.
Proof. solve_decision. Defined.

(** The [CHECK] constraint of the table of configurations. *)
Definition config_check (c : Config) : bool :=
  (bool_decide (Mode c = ConnectionSSHJump) && bool_decide (is_Some (JumpServerID c)) && bool_decide (SocksHost c = "") &&
   (SocksPort c =? 0) && bool_decide (SocksAuthType c = "") && bool_decide (SocksUsername c = "") &&
   bool_decide (c_password c = None) && bool_decide (c_salt c = None)) ||
  (bool_decide (Mode c = ConnectionSOCKS5) && bool_decide (JumpServerID c = None) && negb (bool_decide (SocksHost c = "")) &&
   (1 <=? SocksPort c) && (SocksPort c <=? 65535) &&
   ((bool_decide (SocksAuthType c = SOCKSAuthNone) && bool_decide (SocksUsername c = "") &&
     bool_decide (c_password c = None) && bool_decide (c_salt c = None)) ||
    (bool_decide (SocksAuthType c = SOCKSAuthPassword) && negb (bool_decide (SocksUsername c = "")) &&
     bool_decide (is_Some (c_password c)) && bool_decide (is_Some (c_salt c))))).

(** Soft-deleted servers keep their row; [next_server] is the sequence. *)
Record serverdb := MkDb {
  servers : gmap Z Server; configs : gmap Z Config; creds : gmap Z SSHCredential; next_server : Z }.

Definition put_server (s : Server) (d : serverdb) : serverdb :=
  MkDb (<[ID s := s]> (servers d)) (configs d) (creds d) (next_server d).
Definition put_configs (m : gmap Z Config) (d : serverdb) : serverdb := MkDb (servers d) m (creds d) (next_server d).

Definition live_server (d : serverdb) (id : Z) : option Server :=
  match servers d !! id with Some s => if DeletedAt s then None else Some s | None => None end.
Definition live (d : serverdb) (id : Z) : Prop := is_Some (live_server d id).
#[export] Instance live_dec d id : Decision (live d id).
Proof. unfold live. apply _. Defined.

(** [FindByID], with the credential it preloads. *)
Record loaded := Loaded { l_server : Server; l_cred : option SSHCredential }.
#[export] Instance loaded_eq_dec : EqDecision loaded.
Proof. solve_decision. Defined.
Definition Preload (d : serverdb) (s : Server) : option SSHCredential :=
  c ← CredentialID s ≫= fun id => creds d !! id; if cr_deleted c then None else Some c.
Definition FindByID (d : serverdb) (id : Z) : option loaded := (fun s => Loaded s (Preload d s)) <$> live_server d id.
Definition FindConnectionConfig (d : serverdb) (id : Z) : option Config := configs d !! id.

(** [FindJumpDependentIDs]: the live targets reached through [id], in order. *)
Definition FindJumpDependentIDs (d : serverdb) (id : Z) : list Z :=
  merge_sort Z.le (filter (fun k => live d k)
    (filter (fun kc => JumpServerID kc.2 = Some id) (map_to_list (configs d))).*1).

(** ** Input of the service *)

Record OptionalSecret := Secret { os_set : bool; os_value : option string }.
(** [in_fields] holds the keys of the JSON object, none for internal callers. *)
Record ConnectionInput := Input {
  in_mode : string; in_jump : option Z; in_host : string; in_port : Z; in_auth : string; in_user : string;
  in_password : OptionalSecret; in_fields : list string }.
Record ConnectionMutation := Mutation { m_set : bool; m_config : option ConnectionInput; ExpectedRevision : option Z }.

Inductive srv_err := AppErr (status : Z) (reason : string) | DbErr.
Definition NotFound : srv_err := AppErr 404 "not_found".
Definition invalidConnection : srv_err := AppErr 400 "invalid_connection_config".
Definition connectionForbidden : srv_err := AppErr 403 "forbidden".
Definition connectionConflict : srv_err := AppErr 409 "connection_config_changed".
Definition connectionInUse : srv_err := AppErr 409 "connection_in_use".
Definition hostKeyChanged : srv_err := AppErr 409 "host_key_changed".

Definition IsConnectionAdmin (authType role : string) (user : option Z) : bool :=
  bool_decide (authType = "jwt") && bool_decide (role = "admin") && match user with Some u => negb (u =? 0) | None => false end.

(** *** [normalizeProxyHost] *)

(** [strings.Trim(host, "[]")]. *)
Definition bracket (c : ascii) : bool := bool_decide (c ∈ ["["; "]"]%char).
Fixpoint trim_left_if (p : ascii -> bool) (l : list ascii) : list ascii :=
  match l with c :: l' => if p c then trim_left_if p l' else l | [] => [] end.
Definition trim_brackets (s : string) : string :=
  string_of_list_ascii (reverse (trim_left_if bracket (reverse (trim_left_if bracket (list_ascii_of_string s))))).

Definition contains_any (cs : list ascii) (s : string) : bool := existsb (fun c => contains_byte c s) cs.

(** [strings.ToLower], exact on the runes whose lower case is ASCII: [A] to [Z], the Kelvin
    sign and the dotted capital I; other runes are outside ASCII before and after. *)
Definition lower_byte (c : ascii) : ascii :=
  let n := nat_of_ascii c in if (65 <=? n)%nat && (n <=? 90)%nat then ascii_of_nat (n + 32) else c.
Fixpoint to_lower (l : list ascii) : list ascii :=
  match l with
  | [] => []
  | a :: l1 =>
      match l1 with
      | b :: l2 =>
          if bool_decide ([a; b] = [byte 196; byte 176]) then "i"%char :: to_lower l2
          else match l2 with
               | c :: l3 => if bool_decide ([a; b; c] = [byte 226; byte 132; byte 170]) then "k"%char :: to_lower l3
                            else lower_byte a :: to_lower l1
               | [] => lower_byte a :: to_lower l1
               end
      | [] => [lower_byte a]
      end
  end.
Definition ToLower (s : string) : string := string_of_list_ascii (to_lower (list_ascii_of_string s)).
Fixpoint trim_suffix_dot (s : string) : string :=
  match s with
  | String "." EmptyString => ""
  | String c s => String c (trim_suffix_dot s)
  | EmptyString => ""
  end.

Definition host_char (c : ascii) : bool :=
  let n := nat_of_ascii c in
  (97 <=? n)%nat && (n <=? 122)%nat || (48 <=? n)%nat && (n <=? 57)%nat || (n =? 45)%nat || (n =? 95)%nat.
Definition valid_label (label : string) : bool :=
  (1 <=? len label) && (len label <=? 63) &&
  negb (bool_decide (head (list_ascii_of_string label) = Some "-"%char)) &&
  negb (bool_decide (last (list_ascii_of_string label) = Some "-"%char)) && all_bytes host_char label.

Definition normalizeProxyHost (host : string) : option string :=
  let host := TrimSpace host in
  if bool_decide (host = "") || (256 <? len host) ||
     contains_any [" "; "/"; "@"; "?"; "#"; "\"; byte 9; byte 13; byte 10]%char host then None
  else
    match ParseIP (trim_brackets host) with
    | Some ip => Some (ip_string ip)
    | None =>
        if contains_any [":"; "["; "]"]%char host then None
        else
          let host := ToLower (trim_suffix_dot host) in
          if bool_decide (host = "") then None
          else if forallb valid_label (split_on "." host) then Some host else None
    end.

Example normalized_hosts :
  normalizeProxyHost <$> [" Proxy.Example.COM. "; "[2001:DB8::1]"; "10.0.0.1"; "a_b-c"; "-a"; "a..b"; "host:1080"; "."; "u@h"; "K"]
  = [Some "proxy.example.com"; Some "2001:db8::1"; Some "10.0.0.1"; Some "a_b-c"; None; None; None; None; None; Some "k"].
Proof. vm_compute. reflexivity. Qed.

(** *** [validate] and [buildConnectionConfig] *)

Definition password_ok (p : OptionalSecret) : bool :=
  negb (os_set p) || match os_value p with Some v => (1 <=? len v) && (len v <=? 255) | None => false end.

Definition validate (o : option ConnectionInput) : result srv_err unit :=
  match o with
  | None => Ok tt
  | Some i =>
      let direct := bool_decide (in_mode i = ConnectionDirect) in
      let jump := bool_decide (in_mode i = ConnectionSSHJump) in
      let socks := bool_decide (in_mode i = ConnectionSOCKS5) in
      let mode_ok :=
        direct ||
        (jump && match in_jump i with Some j => negb (j =? 0) | None => false end) ||
        (socks && bool_decide (is_Some (normalizeProxyHost (in_host i))) && (1 <=? in_port i) && (in_port i <=? 65535) &&
         ((bool_decide (in_auth i = SOCKSAuthNone) && bool_decide (in_user i = "") && bool_decide (os_value (in_password i) = None)) ||
          (bool_decide (in_auth i = SOCKSAuthPassword) && (1 <=? len (in_user i)) && (len (in_user i) <=? 255) && password_ok (in_password i)))) in
      let allowed := "mode" :: (if jump then ["jump_server_id"] else []) ++
                     (if socks then ["host"; "port"; "auth_type"; "username"; "password"] else []) in
      if negb mode_ok then Err invalidConnection
      else if existsb (fun f => negb (bool_decide (f ∈ allowed))) (in_fields i) then Err invalidConnection
      else if negb jump && bool_decide (is_Some (in_jump i)) then Err invalidConnection
      else if negb socks && (negb (bool_decide (in_host i = "")) || negb (in_port i =? 0) || negb (bool_decide (in_auth i = "")) ||
                             negb (bool_decide (in_user i = "")) || os_set (in_password i)) then Err invalidConnection
      else Ok tt
  end.

Definition VersionLegacy : Z := 1.
Definition VersionCurrent : Z := 2.

(** [enc] is the salt and the ciphertext of the new password, [None] when the encryption
    is unavailable or fails. *)
Definition buildConnectionConfig (enc : option (string * string)) (serverID : Z) (o : option ConnectionInput) (old : option Config) :
    result srv_err (option Config) :=
  try _ := validate o in
  match o with
  | None => Ok None
  | Some i =>
      if bool_decide (in_mode i = ConnectionDirect) then Ok None
      else if bool_decide (in_mode i = ConnectionSSHJump)
      then Ok (Some (MkConfig VersionLegacy serverID (in_mode i) (in_jump i) "" 0 "" "" None None))
      else
        let host := default "" (normalizeProxyHost (in_host i)) in
        let config v password salt := MkConfig v serverID (in_mode i) (in_jump i) host (in_port i) (in_auth i) (in_user i) password salt in
        if bool_decide (in_auth i = SOCKSAuthNone) then Ok (Some (config VersionLegacy None None))
        else if negb (os_set (in_password i)) then
          match old with
          | Some old =>
              if bool_decide (Mode old = ConnectionSOCKS5) && bool_decide (SocksHost old = host) && (SocksPort old =? in_port i) &&
                 bool_decide (SocksAuthType old = in_auth i) && bool_decide (SocksUsername old = in_user i) &&
                 bool_decide (is_Some (c_password old))
              then Ok (Some (config (c_version old) (c_password old) (c_salt old)))
              else Err invalidConnection
          | None => Err invalidConnection
          end
        else match enc with
             | Some (salt, encrypted) => Ok (Some (config VersionCurrent (Some encrypted) (Some salt)))
             | None => Err DbErr
             end
  end.

(** *** [validateJump] *)

Definition usable_credential (c : SSHCredential) : bool :=
  bool_decide (AuthType c = "password") && bool_decide (is_Some (cr_password c)) ||
  bool_decide (AuthType c = "private_key") && bool_decide (is_Some (cr_key c)).
Definition validateJump (d : serverdb) (serverID : Z) (o : option Config) : result srv_err unit :=
  match o with
  | None => Ok tt
  | Some c =>
      if negb (bool_decide (Mode c = ConnectionSSHJump)) then Ok tt
      else
        match JumpServerID c with
        | None => Err invalidConnection
        | Some j =>
            if j =? serverID then Err invalidConnection
            else
              match FindByID d j with
              | None => Err invalidConnection
              | Some jump =>
                  match CredentialID (l_server jump), l_cred jump with
                  | Some _, Some cred =>
                      if bool_decide (Username cred = "") || negb (usable_credential cred) then Err invalidConnection
                      else match FindConnectionConfig d (ID (l_server jump)) with
                           | Some _ => Err invalidConnection
                           | None => Ok tt
                           end
                  | _, _ => Err invalidConnection
                  end
              end
        end
  end.

Definition configMode (o : option Config) : string := match o with Some c => Mode c | None => ConnectionDirect end.
(** The columns [equalConnection] compares; an absent salt equals an empty one. *)
Definition config_view (c : Config) :=
  (c_version c, Mode c, JumpServerID c, SocksHost c, SocksPort c, SocksAuthType c, SocksUsername c, default "" (c_salt c), c_password c).
Definition equalConnection (l r : option Config) : bool := bool_decide (config_view <$> l = config_view <$> r).

(** ** Routes *)

Record SSHRouteSnapshot := Snapshot { Target : loaded; sn_config : option Config; Jump : option loaded }.
#[export] Instance snapshot_eq_dec : EqDecision SSHRouteSnapshot.
Proof. solve_decision. Defined.

Inductive route_err := RouteNotFound | ErrSSHJumpUnavailable | ErrSSHJumpProxied.
Definition readSSHRouteSnapshot (d : serverdb) (id : Z) : result route_err SSHRouteSnapshot :=
  match FindByID d id with
  | None => Err RouteNotFound
  | Some target =>
      let config := FindConnectionConfig d id in
      match (c ← config; if bool_decide (Mode c = ConnectionSSHJump) then JumpServerID c else None) with
      | None => Ok (Snapshot target config None)
      | Some j =>
          match FindByID d j with
          | None => Err ErrSSHJumpUnavailable
          | Some jump =>
              match FindConnectionConfig d (ID (l_server jump)) with
              | Some upstream => if bool_decide (Mode upstream = ConnectionDirect) then Ok (Snapshot target config (Some jump))
                                 else Err ErrSSHJumpProxied
              | None => Ok (Snapshot target config (Some jump))
              end
          end
      end
  end.

(** What [sameSSHServer] and [sameSSHConfig] compare. *)
Definition cred_view (c : SSHCredential) :=
  (cr_id c, cr_deleted c, UpdatedAt c, AuthType c, Username c, cr_password c, cr_key c, cr_salt c, cr_version c).
Definition server_view (l : loaded) :=
  let s := l_server l in
  (ID s, DeletedAt s, Host s, Port s, ConnectionRevision s, CredentialID s, HostKey s, HostKeySeen s, HostKeyMismatchAt s,
   cred_view <$> l_cred l).
Definition route_config_view (c : Config) := (c_server c, config_view c).
Definition sameSSHRouteSnapshot (l r : SSHRouteSnapshot) : bool :=
  bool_decide (server_view (Target l) = server_view (Target r)) &&
  bool_decide (server_view <$> Jump l = server_view <$> Jump r) &&
  bool_decide (route_config_view <$> sn_config l = route_config_view <$> sn_config r).

(** [CommitSSHHostKey]: the conditional [UPDATE] and what it sets. *)
Inductive key_kind := Pin | Mismatch | Clear.
Definition no_key (o : option string) : bool := match o with None => true | Some k => String.eqb k "" end.
Definition key_row_matches (expected s : Server) : bool :=
  negb (DeletedAt s) && bool_decide (Host s = Host expected) && (Port s =? Port expected) &&
  (ConnectionRevision s =? ConnectionRevision expected) &&
  (if no_key (HostKey expected) then no_key (HostKey s) else bool_decide (HostKey s = HostKey expected)) &&
  bool_decide (HostKeySeen s = HostKeySeen expected) && bool_decide (HostKeyMismatchAt s = HostKeyMismatchAt expected).
Definition with_keys (key seen : option string) (at_ : option time) (s : Server) : Server :=
  MkServer (ID s) (Name s) (Host s) (Port s) (Description s) (Notes s) (CredentialID s) (ConnectionRevision s + 1)
    key seen at_ (DeletedAt s).
Definition CommitSSHHostKey (now : time) (expected : Server) (seen : string) (kind : key_kind) (d : serverdb) : serverdb * bool :=
  if String.eqb seen "" then (d, false)
  else
    let set :=
      match kind with
      | Pin => if no_key (HostKey expected) then Some (with_keys (Some seen) None None) else None
      | Mismatch => Some (fun s => with_keys (HostKey s) (Some seen) (Some now) s)
      | Clear => if bool_decide (HostKey expected = Some seen) then Some (fun s => with_keys (HostKey s) None None s) else None
      end in
    match set, servers d !! ID expected with
    | Some f, Some s => if key_row_matches expected s then (put_server (f s) d, true) else (d, false)
    | _, _ => (d, false)
    end.

(** ** Transactions *)

(** A request that passed the checks before its transaction. *)
Inductive request :=
| RCreate (srv : Server) (config : option Config)
| RUpdate (admin : bool) (id : Z) (input : Server) (clearCredential : bool) (mutation : ConnectionMutation) (enc : option (string * string))
| RDelete (id : Z)
| RTrust (id : Z) (fingerprint : string) (revision : option Z)
| RHostKey (expected : SSHRouteSnapshot) (resource : Server) (seen : string) (kind : key_kind).

Section requests.
Context (Fingerprint : string -> string).

(** The calls of the services, up to the transaction. *)
Definition createServer (admin : bool) (srv : Server) (m : ConnectionMutation) (enc : option (string * string)) : result srv_err request :=
  if bool_decide (Name srv = "") || bool_decide (Host srv = "") then Err (AppErr 400 "invalid_request")
  else
    let port := if Port srv <=? 0 then 22 else Port srv in
    if 65535 <? port then Err invalidConnection
    else if m_set m && negb admin then Err connectionForbidden
    else
      let srv := MkServer 0 (Name srv) (Host srv) port (Description srv) (Notes srv) (CredentialID srv) 1 None None None false in
      if m_set m then try config := buildConnectionConfig enc 0 (m_config m) None in Ok (RCreate srv config)
      else Ok (RCreate srv None).

Definition updateServer (admin : bool) (id : Z) (input : Server) (clear : bool) (m : ConnectionMutation) (enc : option (string * string)) :
    result srv_err request :=
  if m_set m then
    if negb admin then Err connectionForbidden
    else if bool_decide (ExpectedRevision m = None) then Err invalidConnection
    else try _ := validate (m_config m) in Ok (RUpdate admin id input clear m enc)
  else Ok (RUpdate admin id input clear m enc).

Definition deleteServer (id : Z) : result srv_err request := Ok (RDelete id).

Definition trustHostKey (admin : bool) (id : Z) (fingerprint : string) (revision : option Z) : result srv_err request :=
  if negb admin then Err connectionForbidden else Ok (RTrust id fingerprint revision).

(** [CommitSSHRouteHostKey], to its transaction; [None]: nothing to do. *)
Definition CommitSSHRouteHostKey (expected : SSHRouteSnapshot) (resourceID : Z) (seen : string) (kind : key_kind) : option request :=
  let target := l_server (Target expected) in
  let resource := match Jump expected with
                  | Some j => if resourceID =? ID (l_server j) then l_server j else target
                  | None => target
                  end in
  if ID resource =? resourceID then Some (RHostKey expected resource seen kind) else None.

(** The rows [LockConnectionServers] locks, those that exist. *)
Definition lock_ids (r : request) : list Z :=
  match r with
  | RCreate _ config => option_list (config ≫= JumpServerID)
  | RUpdate _ id _ _ m _ => id :: (if m_set m then option_list (m_config m ≫= in_jump) else [])
  | RDelete id => [id]
  | RTrust id _ _ => [id]
  | RHostKey e _ _ _ => ID (l_server (Target e)) :: option_list ((fun j => ID (l_server j)) <$> Jump e)
  end.

(** [resolveCredentialBinding]. *)
Definition resolveCredentialBinding (current input : option Z) (clear : bool) : option Z :=
  if clear then None else match input with Some c => Some c | None => current end.

Inductive write :=
| WInsert (srv : Server) (config : option Config)
| WFields (srv : Server)
| WConfig (c : Config)
| WNoConfig (id : Z)
| WDelete (id : Z)
| WHostKey (expected : Server) (seen : string) (kind : key_kind).

Definition endpoint_changed (input existing : Server) : bool :=
  (negb (bool_decide (Host input = "")) && negb (bool_decide (Host input = Host existing))) ||
  ((0 <? Port input) && negb (Port input =? Port existing)).

(** The row an update writes. *)
Definition updated_row (input existing : Server) (credential : option Z) (endpointChanged changed : bool) : Server :=
  MkServer (ID existing)
    (if bool_decide (Name input = "") then Name existing else Name input)
    (if bool_decide (Host input = "") then Host existing else Host input)
    (if 0 <? Port input then Port input else Port existing)
    (match Description input with Some t => Some t | None => Description existing end)
    (match Notes input with Some t => Some t | None => Notes existing end)
    credential
    (if changed then ConnectionRevision existing + 1 else ConnectionRevision existing)
    (if endpointChanged then None else HostKey existing)
    (if endpointChanged then None else HostKeySeen existing)
    (if endpointChanged then None else HostKeyMismatchAt existing)
    (DeletedAt existing).

Definition check_update (admin : bool) (id : Z) (input : Server) (clear : bool) (m : ConnectionMutation) (enc : option (string * string))
    (d : serverdb) : result srv_err (list write) :=
  match FindByID d id with
  | None => Err NotFound
  | Some l =>
      let existing := l_server l in
      if m_set m && negb (bool_decide (ExpectedRevision m = Some (ConnectionRevision existing))) then Err connectionConflict
      else
        let oldConfig := FindConnectionConfig d id in
        let dependents := FindJumpDependentIDs d id in
        let credential := resolveCredentialBinding (CredentialID existing) (CredentialID input) clear in
        let endpointChanged := endpoint_changed input existing in
        let credentialChanged := negb (bool_decide (CredentialID existing = credential)) in
        if (endpointChanged || credentialChanged) && (bool_decide (is_Some oldConfig) || negb (bool_decide (dependents = []))) && negb admin
        then Err connectionForbidden
        else
          try newConfig :=
            (if m_set m then
               try c := buildConnectionConfig enc id (m_config m) oldConfig in
               if bool_decide (is_Some c) && negb (bool_decide (dependents = [])) then Err connectionInUse
               else try _ := validateJump d id c in Ok c
             else Ok oldConfig) in
          let changed := endpointChanged || credentialChanged || negb (equalConnection oldConfig newConfig) in
          let row := updated_row input existing credential endpointChanged changed in
          if 65535 <? Port row then Err invalidConnection
          else Ok (WFields row :: (if m_set m then [match newConfig with Some c => WConfig c | None => WNoConfig id end] else []))
  end.

(** The reads and decisions of a transaction, its rows being locked. *)
Definition check (r : request) (d : serverdb) : result srv_err (list write) :=
  match r with
  | RCreate srv config => try _ := validateJump d 0 config in Ok [WInsert srv config]
  | RUpdate admin id input clear m enc => check_update admin id input clear m enc d
  | RDelete id =>
      if bool_decide (FindJumpDependentIDs d id = []) then Ok [WNoConfig id; WDelete id] else Err connectionInUse
  | RTrust id fingerprint revision =>
      match FindByID d id with
      | None => Err NotFound
      | Some l =>
          let s := l_server l in
          match HostKeySeen s, HostKeyMismatchAt s with
          | Some seen, Some _ =>
              if bool_decide (fingerprint = "") || negb (bool_decide (fingerprint = Fingerprint seen)) then Err hostKeyChanged
              else if match revision with Some v => negb (v =? ConnectionRevision s) | None => false end then Err hostKeyChanged
              else Ok [WFields (with_keys (Some seen) None None s)]
          | _, _ => Err (AppErr 409 "no_host_key_mismatch")
          end
      end
  | RHostKey expected resource seen kind =>
      match readSSHRouteSnapshot d (ID (l_server (Target expected))) with
      | Err _ => Ok []
      | Ok current => if sameSSHRouteSnapshot expected current then Ok [WHostKey resource seen kind] else Ok []
      end
  end.

(** The writes; the table's constraint refuses a malformed configuration. *)
Definition apply_write (now : time) (w : write) (d : serverdb) : serverdb :=
  match w with
  | WInsert srv config =>
      let n := next_server d in
      let s := MkServer n (Name srv) (Host srv) (Port srv) (Description srv) (Notes srv) (CredentialID srv)
                 (ConnectionRevision srv) (HostKey srv) (HostKeySeen srv) (HostKeyMismatchAt srv) false in
      let d := MkDb (<[n := s]> (servers d)) (configs d) (creds d) (n + 1) in
      match config with
      | Some c => put_configs (<[n := MkConfig (c_version c) n (Mode c) (JumpServerID c) (SocksHost c) (SocksPort c)
                                        (SocksAuthType c) (SocksUsername c) (c_password c) (c_salt c)]> (configs d)) d
      | None => d
      end
  | WFields srv => match live_server d (ID srv) with Some _ => put_server srv d | None => d end
  | WConfig c => put_configs (<[c_server c := c]> (configs d)) d
  | WNoConfig id => put_configs (delete id (configs d)) d
  | WDelete id =>
      match live_server d id with
      | Some s => put_server (MkServer (ID s) (Name s) (Host s) (Port s) (Description s) (Notes s) (CredentialID s)
                                (ConnectionRevision s) (HostKey s) (HostKeySeen s) (HostKeyMismatchAt s) true) d
      | None => d
      end
  | WHostKey expected seen kind => (CommitSSHHostKey now expected seen kind d).1
  end.
Definition apply_writes (now : time) (ws : list write) (d : serverdb) : serverdb := foldl (fun d w => apply_write now w d) d ws.

(** [DeleteAndUnbind] of a credential: one statement on the servers, one on the row. *)
Definition unbind (id : Z) (s : Server) : Server :=
  if negb (DeletedAt s) && bool_decide (CredentialID s = Some id)
  then MkServer (ID s) (Name s) (Host s) (Port s) (Description s) (Notes s) None (ConnectionRevision s + 1)
         (HostKey s) (HostKeySeen s) (HostKeyMismatchAt s) false
  else s.
Definition DeleteAndUnbind (id : Z) (d : serverdb) : serverdb :=
  MkDb (unbind id <$> servers d) (configs d)
    (alter (fun c => MkCred (cr_id c) (cr_version c) (AuthType c) (Username c) (cr_password c) (cr_key c) (cr_salt c)
                       (UpdatedAt c) true) id (creds d)) (next_server d).
Definition save_credential (c : SSHCredential) (d : serverdb) : serverdb :=
  MkDb (servers d) (configs d) (<[cr_id c := c]> (creds d)) (next_server d).

(** ** All transactions together *)

(** A transaction holds its locks from the beginning; [Checked] keeps the database its
    reads saw, which decides what it writes. *)
Inductive tphase := Locked | Checked (seen : serverdb).
Record txn := Txn { t_req : request; t_locks : list Z; t_phase : tphase }.
Record sstate := SState { db : serverdb; txs : gmap nat txn }.

(** The credentials a transaction on a host key has share-locked. *)
Definition shared_creds (t : txn) : list Z :=
  match t_req t, t_phase t with
  | RHostKey _ _ _ _, Checked d => omap (fun i => s ← servers d !! i; CredentialID s) (t_locks t)
  | _, _ => []
  end.
Definition row_free (s : sstate) (i : Z) : Prop := forall t x, txs s !! t = Some x -> (~ i ∈ t_locks x).
Definition cred_free (s : sstate) (c : Z) : Prop := forall t x, txs s !! t = Some x -> (~ c ∈ shared_creds x).
Definition locked_now (d : serverdb) (r : request) : list Z := filter (fun i => live d i) (lock_ids r).

(** Requests reach the database through the services; handshakes report mismatches and
    clear warnings, none pins a key. *)
Inductive submitted : request -> Prop :=
| S_create admin srv m enc r : createServer admin srv m enc = Ok r -> submitted r
| S_update admin id input clear m enc r : updateServer admin id input clear m enc = Ok r -> submitted r
| S_delete id r : deleteServer id = Ok r -> submitted r
| S_trust admin id fp rev r : trustHostKey admin id fp rev = Ok r -> submitted r
| S_key expected resource seen kind r :
    kind <> Pin -> CommitSSHRouteHostKey expected resource seen kind = Some r -> submitted r.

(** [known] is what is assumed of the identifiers a request names when it begins. *)
Inductive sstep (known : serverdb -> request -> Prop) : sstate -> sstate -> Prop :=
| T_begin s t r :
    txs s !! t = None -> submitted r -> known (db s) r -> (forall i, i ∈ locked_now (db s) r -> row_free s i) ->
    sstep known s (SState (db s) (<[t := Txn r (locked_now (db s) r) Locked]> (txs s)))
| T_check s t r locks :
    txs s !! t = Some (Txn r locks Locked) ->
    sstep known s (SState (db s) (<[t := Txn r locks (Checked (db s))]> (txs s)))
| T_commit s t r locks seen ws now :
    txs s !! t = Some (Txn r locks (Checked seen)) -> check r seen = Ok ws ->
    sstep known s (SState (apply_writes now ws (db s)) (delete t (txs s)))
| T_abort s t x :
    txs s !! t = Some x -> sstep known s (SState (db s) (delete t (txs s)))
| T_credential s c :
    cred_free s (cr_id c) -> sstep known s (SState (save_credential c (db s)) (txs s))
| T_unbind s id :
    cred_free s id ->
    (forall i srv, servers (db s) !! i = Some srv -> unbind id srv <> srv -> row_free s i) ->
    sstep known s (SState (DeleteAndUnbind id (db s)) (txs s)).

(** Requests that name servers that exist or have existed. *)
Definition names_known (d : serverdb) (r : request) : Prop := forall i, i ∈ lock_ids r -> i < next_server d.

(** ** The invariant *)

(** At most one jump: whatever a server is reached through is reached directly. *)
Definition flat (d : serverdb) : Prop :=
  forall i c j, configs d !! i = Some c -> JumpServerID c = Some j -> j <> i /\ live d j /\ configs d !! j = None.

Record db_ok (d : serverdb) : Prop := {
  ok_id i s : servers d !! i = Some s -> ID s = i /\ i < next_server d;
  ok_config i c : configs d !! i = Some c -> c_server c = i /\ live d i /\ config_check c = true;
  ok_flat : flat d }.

(** What the rows under the locks still have in common with what was read. *)
Record agrees (locks : list Z) (seen d : serverdb) : Prop := {
  ag_server i : i ∈ locks -> servers d !! i = servers seen !! i;
  ag_config i : i ∈ locks -> configs d !! i = configs seen !! i;
  ag_deps i k c : i ∈ locks -> configs d !! k = Some c -> JumpServerID c = Some i ->
    live seen k /\ exists c0, configs seen !! k = Some c0 /\ JumpServerID c0 = Some i;
  ag_next : next_server seen <= next_server d }.

Record txn_ok (d : serverdb) (x : txn) : Prop := {
  tx_submitted : submitted (t_req x);
  tx_locked i : i ∈ t_locks x -> i ∈ lock_ids (t_req x) /\ live d i;
  tx_others i : i ∈ lock_ids (t_req x) -> (~ i ∈ t_locks x) -> ~ live d i /\ i < next_server d;
  tx_seen seen : t_phase x = Checked seen ->
    db_ok seen /\ agrees (t_locks x) seen d /\ (forall i, i ∈ lock_ids (t_req x) -> live seen i -> i ∈ t_locks x);
  tx_creds seen c : t_phase x = Checked seen -> c ∈ shared_creds x -> creds d !! c = creds seen !! c }.

Record sinv (s : sstate) : Prop := {
  si_db : db_ok (db s);
  si_tx t x : txs s !! t = Some x -> txn_ok (db s) x;
  si_disjoint t t' x x' i : txs s !! t = Some x -> txs s !! t' = Some x' -> t <> t' -> i ∈ t_locks x -> (~ i ∈ t_locks x') }.

(** ** What a commit does *)

Inductive effect := ENone | EEdit (s' : Server) (change : option (option Config)) | EDelete (s : Server)
                  | EInsert (srv : Server) (config : option Config).

Definition apply_effect (e : effect) (d : serverdb) : serverdb :=
  match e with
  | ENone => d
  | EEdit s' None => put_server s' d
  | EEdit s' (Some (Some c)) => put_configs (<[ID s' := c]> (configs d)) (put_server s' d)
  | EEdit s' (Some None) => put_configs (delete (ID s') (configs d)) (put_server s' d)
  | EDelete s => put_server s (put_configs (delete (ID s) (configs d)) d)
  | EInsert srv config =>
      MkDb (<[next_server d := srv]> (servers d))
        (match config with Some c => <[next_server d := c]> (configs d) | None => configs d end) (creds d) (next_server d + 1)
  end.

Definition fits_config (locks : list Z) (d : serverdb) (id : Z) (c : Config) : Prop :=
  c_server c = id /\ config_check c = true /\
  (forall j, JumpServerID c = Some j -> j ∈ locks /\ j <> id /\ live d j /\ configs d !! j = None).
Definition no_dependents (d : serverdb) (id : Z) : Prop := forall k c, configs d !! k = Some c -> JumpServerID c <> Some id.

Definition effect_ok (locks : list Z) (d : serverdb) (e : effect) : Prop :=
  match e with
  | ENone => True
  | EEdit s' change =>
      ID s' ∈ locks /\ live d (ID s') /\ DeletedAt s' = false /\
      match change with Some (Some c) => fits_config locks d (ID s') c /\ no_dependents d (ID s') | _ => True end
  | EDelete s => ID s ∈ locks /\ live d (ID s) /\ DeletedAt s = true /\ no_dependents d (ID s)
  | EInsert srv config =>
      ID srv = next_server d /\ DeletedAt srv = false /\
      match config with Some c => fits_config locks d (next_server d) c | None => True end
  end.

Lemma live_server_Some d id s : live_server d id = Some s <-> servers d !! id = Some s /\ DeletedAt s = false.
Proof.
  unfold live_server. destruct (servers d !! id) as [s0|]; [|by split; [|intros [? _]]].
  destruct (DeletedAt s0) eqn:E; split; try done; [intros [[= ->] ?]; congruence|by intros [= <-]|by intros [[= ->] _]].
Qed.

Lemma live_row d id : live d id <-> exists s, servers d !! id = Some s /\ DeletedAt s = false.
Proof. unfold live, is_Some. setoid_rewrite live_server_Some. done. Qed.

Lemma live_same d d' id : servers d' !! id = servers d !! id -> live d' id <-> live d id.
Proof. intros E. rewrite !live_row, E. done. Qed.

Lemma live_next d id : db_ok d -> live d id -> id < next_server d.
Proof. intros H (s & Hs & _)%live_row. by apply (ok_id d H) in Hs as [_ ?]. Qed.

(** What an effect touches. *)
Record footprint (locks : list Z) (d d' : serverdb) : Prop := {
  fp_server i : (~ i ∈ locks) -> i <> next_server d -> servers d' !! i = servers d !! i;
  fp_config i : (~ i ∈ locks) -> i <> next_server d -> configs d' !! i = configs d !! i;
  fp_jump k c i : configs d' !! k = Some c -> JumpServerID c = Some i -> configs d !! k = Some c \/ i ∈ locks;
  fp_creds : creds d' = creds d;
  fp_next : next_server d <= next_server d' }.

Lemma effect_footprint locks d e : effect_ok locks d e -> footprint locks d (apply_effect e d).
Proof.
  destruct e as [|s' [[c|]|]|s|srv [c|]]; cbn; intros H.
  - split; auto; lia.
  - destruct H as (Hl & _ & _ & (_ & _ & Hj) & _). split; cbn; try done.
    + intros i Hi _. apply lookup_insert_ne. congruence.
    + intros i Hi _. apply lookup_insert_ne. congruence.
    + intros k c0 i [[<- <-]|[? ?]]%lookup_insert_Some E; [right; by apply Hj in E as [? _]|by left].
  - destruct H as (Hl & _). split; cbn; try done.
    + intros i Hi _. apply lookup_insert_ne. congruence.
    + intros i Hi _. apply lookup_delete_ne. congruence.
    + intros k c0 i [_ ?]%lookup_delete_Some _. by left.
  - destruct H as (Hl & _). split; cbn; try done; [|auto].
    intros i Hi _. apply lookup_insert_ne. congruence.
  - destruct H as (Hl & _). split; cbn; try done.
    + intros i Hi _. apply lookup_insert_ne. congruence.
    + intros i Hi _. apply lookup_delete_ne. congruence.
    + intros k c0 i [_ ?]%lookup_delete_Some _. by left.
  - destruct H as (_ & _ & (_ & _ & Hj)). split; cbn; try done; try lia.
    + intros i _ Hi. by apply lookup_insert_ne.
    + intros i _ Hi. by apply lookup_insert_ne.
    + intros k c0 i [[<- <-]|[? ?]]%lookup_insert_Some E; [right; by apply Hj in E as [? _]|by left].
  - split; cbn; try done; try lia; [|auto]. intros i _ Hi. by apply lookup_insert_ne.
Qed.

Lemma db_ok_put s' d : db_ok d -> live d (ID s') -> DeletedAt s' = false -> db_ok (put_server s' d).
Proof.
  intros [H1 H2 H3] Hl Hd.
  assert (forall i, live d i -> live (put_server s' d) i) as Hlive.
  { intros i (s & Hs & Hsd)%live_row. apply live_row. cbn. destruct (decide (ID s' = i)) as [<-|Hne].
    - exists s'. by rewrite lookup_insert_eq.
    - exists s. by rewrite lookup_insert_ne. }
  split; unfold flat; cbn.
  - intros i s [[<- <-]|[Hne Hs]]%lookup_insert_Some; [|by apply H1]. split; [done|].
    apply live_row in Hl as (s0 & Hs0 & _). by apply H1 in Hs0 as [_ ?].
  - intros i c Hc. destruct (H2 i c Hc) as (? & ? & ?). split_and!; [done|by apply Hlive|done].
  - intros i c j Hc Hj. destruct (H3 i c j Hc Hj) as (? & ? & ?). split_and!; [done|by apply Hlive|done].
Qed.

Lemma effect_db_ok locks d e : db_ok d -> effect_ok locks d e -> db_ok (apply_effect e d).
Proof.
  intros H He. destruct e as [|s' [[c|]|]|s|srv [c|]]; cbn in *.
  - done.
  - destruct He as (_ & Hl & Hd & (Hs & Hck & Hj) & Hdep). destruct (db_ok_put s' d H Hl Hd) as [H1 H2 H3].
    split; unfold flat; cbn; [exact H1| |].
    + intros i c0 [[<- <-]|[? Hc]]%lookup_insert_Some; [|by apply H2]. split_and!; [done| |done].
      apply live_row. exists s'. cbn. by rewrite lookup_insert_eq.
    + intros i c0 j [[<- <-]|[Hne Hc]]%lookup_insert_Some E; cbn.
      * destruct (Hj j E) as (_ & ? & Hlj & ?). split_and!; [done| |by rewrite lookup_insert_ne].
        apply live_row in Hlj as (sj & ? & ?). apply live_row. exists sj. cbn. by rewrite lookup_insert_ne.
      * destruct (H3 i c0 j Hc E) as (? & ? & ?). split_and!; [done|done|].
        rewrite lookup_insert_ne; [done|]. intros <-. by apply (Hdep i c0 Hc).
  - destruct He as (_ & Hl & Hd & _). destruct (db_ok_put s' d H Hl Hd) as [H1 H2 H3].
    split; unfold flat; cbn; [exact H1| |].
    + intros i c [_ Hc]%lookup_delete_Some. by apply H2.
    + intros i c j [_ Hc]%lookup_delete_Some E. destruct (H3 i c j Hc E) as (? & ? & Hn). split_and!; [done|done|].
      cbn in *. destruct (decide (ID s' = j)) as [<-|]; [by rewrite lookup_delete_eq|by rewrite lookup_delete_ne].
  - destruct He as (_ & Hl & Hd & _). by apply db_ok_put.
  - destruct He as (_ & Hl & Hd & Hdep). destruct H as [H1 H2 H3].
    assert (forall i, i <> ID s -> live d i -> live (apply_effect (EDelete s) d) i) as Hlive.
    { intros i Hne (s0 & ? & ?)%live_row. apply live_row. exists s0. cbn. by rewrite lookup_insert_ne. }
    split; unfold flat; cbn.
    + intros i s0 [[<- <-]|[Hne Hs]]%lookup_insert_Some; [|by apply H1]. split; [done|].
      apply live_row in Hl as (s1 & Hs1 & _). by apply H1 in Hs1 as [_ ?].
    + intros i c [Hne Hc]%lookup_delete_Some. destruct (H2 i c Hc) as (? & ? & ?). split_and!; [done|by apply Hlive|done].
    + intros i c j [Hne Hc]%lookup_delete_Some E. destruct (H3 i c j Hc E) as (? & ? & ?).
      assert (j <> ID s) by (intros ->; by apply (Hdep i c Hc)).
      split_and!; [done|by apply Hlive|cbn; by rewrite lookup_delete_ne].
  - destruct He as (Hid & Hd & (Hs & Hck & Hj)). pose proof (fun i => live_next d i H) as Hn. destruct H as [H1 H2 H3].
    assert (forall i, live d i -> live (apply_effect (EInsert srv (Some c)) d) i) as Hlive.
    { intros i Hl. pose proof (Hn i Hl). apply live_row in Hl as (s0 & ? & ?). apply live_row. exists s0. cbn.
      rewrite lookup_insert_ne by lia. done. }
    split; unfold flat; cbn.
    + intros i s [[<- <-]|[Hne Hs0]]%lookup_insert_Some; [lia|]. destruct (H1 i s Hs0). lia.
    + intros i c0 [[<- <-]|[Hne Hc]]%lookup_insert_Some.
      * split_and!; [done| |done]. apply live_row. exists srv. cbn. by rewrite lookup_insert_eq.
      * destruct (H2 i c0 Hc) as (? & ? & ?). split_and!; [done|by apply Hlive|done].
    + intros i c0 j [[<- <-]|[Hne Hc]]%lookup_insert_Some E; cbn.
      * destruct (Hj j E) as (_ & ? & Hl & ?). split_and!; [done|by apply Hlive|]. rewrite lookup_insert_ne by done. done.
      * destruct (H3 i c0 j Hc E) as (? & Hl & ?). pose proof (Hn j Hl). split_and!; [done|by apply Hlive|].
        rewrite lookup_insert_ne by lia. done.
  - destruct He as (Hid & Hd & _). pose proof (fun i => live_next d i H) as Hn. destruct H as [H1 H2 H3].
    assert (forall i, live d i -> live (apply_effect (EInsert srv None) d) i) as Hlive.
    { intros i Hl. pose proof (Hn i Hl). apply live_row in Hl as (s0 & ? & ?). apply live_row. exists s0. cbn.
      rewrite lookup_insert_ne by lia. done. }
    split; unfold flat; cbn.
    + intros i s [[<- <-]|[Hne Hs0]]%lookup_insert_Some; [lia|]. destruct (H1 i s Hs0). lia.
    + intros i c Hc. destruct (H2 i c Hc) as (? & ? & ?). split_and!; [done|by apply Hlive|done].
    + intros i c j Hc E. destruct (H3 i c j Hc E) as (? & ? & ?). split_and!; [done|by apply Hlive|done].
Qed.

(** ** Configurations *)

Lemma join_nonempty sep x l : x <> "" -> join sep (x :: l) <> "".
Proof. intros Hx. destruct l; cbn; [done|]. destruct x; done. Qed.

Lemma FormatUint_nonempty n : FormatUint n <> "".
Proof.
  intros E. pose proof (ParseFormat (Z.max 0 n) ltac:(lia)) as H.
  assert (FormatUint (Z.max 0 n) = FormatUint n) as Hn by (unfold FormatUint; f_equal; lia). rewrite Hn, E in H. done.
Qed.

Lemma hex_string_nonempty g : hex_string g <> "".
Proof.
  assert (forall l x, strip_zeros (x :: l) <> []) as Hf.
  { induction l as [|y l IH]; intros x; [by destruct x|]. destruct x; try done. exact (IH y). }
  unfold hex_string. intros E. apply (Hf [g / 256 mod 16; g / 16 mod 16; g mod 16] (g / 4096)).
  destruct (strip_zeros _); [done|discriminate E].
Qed.

Lemma ParseIP_nonempty s ip : ParseIP s = Some ip -> ip <> [].
Proof.
  assert (forall groups e ip, expand groups e = Some ip -> ip <> []) as He.
  { intros groups [i|] ip0; cbn; case_match eqn:E; try done; intros [= <-].
    - apply Nat.leb_le in E. destruct (8 - List.length groups)%nat eqn:E8; [lia|]. by destruct (take i groups).
    - apply Nat.eqb_eq in E. by destruct groups. }
  assert (forall o, ('(groups, e) ← o; expand (rev groups) e) = Some ip -> ip <> []) as Ho.
  { intros [[groups e]|] H; [by eapply He|done]. }
  unfold ParseIP, parse_ipv6. destruct (first_mark s) as [c|]; [|done]. case_bool_decide.
  - destruct (parse_ipv4 s) as [l|]; [|done]. destruct l as [|? [|? [|? [|? []]]]]; cbn; try done. by intros [= <-].
  - case_bool_decide; [|done]. destruct (contains_byte _ _); [done|].
    destruct (after_ellipsis s) as [rest|]; [|apply Ho]. destruct (String.eqb rest ""); [by intros [= <-]|apply Ho].
Qed.

Lemma ip_string_nonempty ip : ip <> [] -> ip_string ip <> "".
Proof.
  intros Hip. unfold ip_string. destruct (To4 ip) as [l|] eqn:E4.
  - assert (exists a l', l = a :: l') as (a & l' & ->).
    { unfold To4 in E4. repeat case_match; simplify_eq; eauto. }
    cbn [fmap list_fmap]. apply join_nonempty, FormatUint_nonempty.
  - destruct (zero_run ip) as [[i n]|].
    + destruct (join ":" (hex_string <$> take i ip)); done.
    + destruct ip as [|g ip]; [done|]. apply join_nonempty, hex_string_nonempty.
Qed.

Lemma normalizeProxyHost_nonempty h host : normalizeProxyHost h = Some host -> host <> "".
Proof.
  unfold normalizeProxyHost. intros H. repeat case_match; simplify_eq; bools; try done.
  by eapply ip_string_nonempty, ParseIP_nonempty.
Qed.

(** What [validate] lets through. *)
Inductive valid_input (i : ConnectionInput) : Prop :=
| V_direct : in_mode i = ConnectionDirect -> in_jump i = None -> valid_input i
| V_jump j : in_mode i = ConnectionSSHJump -> in_jump i = Some j -> valid_input i
| V_socks host : in_mode i = ConnectionSOCKS5 -> in_jump i = None -> normalizeProxyHost (in_host i) = Some host ->
    1 <= in_port i <= 65535 ->
    (in_auth i = SOCKSAuthNone /\ in_user i = "" \/
     in_auth i = SOCKSAuthPassword /\ in_user i <> "" /\ (os_set (in_password i) = true -> is_Some (os_value (in_password i)))) ->
    valid_input i.

Lemma validate_spec i : validate (Some i) = Ok tt -> valid_input i.
Proof.
  unfold validate. intros H.
  destruct (negb _) eqn:E1 in H; [done|]. destruct (existsb _ _) in H; [done|].
  destruct (negb _ && _) eqn:E2 in H; [done|]. clear H. apply negb_false_iff in E1.
  apply orb_true_iff in E1 as [E1|E1]; [apply orb_true_iff in E1 as [E1|E1]|].
  - apply bool_decide_eq_true in E1. rewrite E1 in E2. cbn in E2. apply V_direct; [done|].
    by destruct (in_jump i).
  - apply andb_true_iff in E1 as [E1%bool_decide_eq_true Ej]. destruct (in_jump i) as [j|] eqn:E; [|done]. by eapply V_jump.
  - bools. destruct (normalizeProxyHost (in_host i)) as [host|] eqn:Eh; [|by apply is_Some_None in H3].
    apply (V_socks i host); try done.
    + rewrite H in E2. by destruct E2 as [E2|E2]; [|destruct (in_jump i)].
    + destruct H0 as [H0|H0]; bools; [by left|right]. split_and!; [done| |].
      * intros E. match goal with H : 1 <= len (in_user i) |- _ => rewrite E in H; unfold len in H; cbn in H; lia end.
      * intros Hs. unfold password_ok in *. rewrite Hs in *. cbn in *. destruct (os_value (in_password i)); done.
Qed.

Lemma socks_check v id host port auth user password salt :
  host <> "" -> 1 <= port <= 65535 ->
  (auth = SOCKSAuthNone /\ user = "" /\ password = None /\ salt = None) \/
  (auth = SOCKSAuthPassword /\ user <> "" /\ is_Some password /\ is_Some salt) ->
  config_check (MkConfig v id ConnectionSOCKS5 None host port auth user password salt) = true.
Proof.
  intros H1 H2 H3. unfold config_check. cbn [Mode JumpServerID SocksHost SocksPort SocksAuthType SocksUsername c_password c_salt].
  rewrite !orb_true_iff, !andb_true_iff, !orb_true_iff, !andb_true_iff, !negb_true_iff, !bool_decide_eq_true, !bool_decide_eq_false, !Z.leb_le.
  right. split_and!; try done; try lia. destruct H3; [left|right]; tauto.
Qed.

(** A configuration that was built satisfies the table's constraint and has the jump
    server of the input. *)
Lemma build_ok enc id o old c :
  buildConnectionConfig enc id o old = Ok (Some c) -> (forall c0, old = Some c0 -> config_check c0 = true) ->
  c_server c = id /\ config_check c = true /\ JumpServerID c = o ≫= in_jump.
Proof.
  intros H Hold. unfold buildConnectionConfig in H. destruct o as [i|]; [|by destruct (validate None)].
  destruct (validate (Some i)) as [[]|] eqn:Ev; [|done]. cbn [mbind option_bind].
  destruct (validate_spec i Ev) as [Em Ej|j Em Ej|host Em Ej Eh Ep Ea]; rewrite Em in H; cbn in H; [done| |].
  - injection H as <-. rewrite Ej. done.
  - change (bool_decide (ConnectionSOCKS5 = ConnectionDirect)) with false in H.
    change (bool_decide (ConnectionSOCKS5 = ConnectionSSHJump)) with false in H. cbv iota in H.
    rewrite Eh in H. cbn [default] in H. unfold Datatypes.id in H. pose proof (normalizeProxyHost_nonempty _ _ Eh) as Hne.
    destruct Ea as [[Ha Hu]|(Ha & Hu & Hp)]; rewrite Ha in H.
    + change (bool_decide (SOCKSAuthNone = SOCKSAuthNone)) with true in H. injection H as <-. rewrite Ej. split_and!; [done| |done]. apply socks_check; [done|done|by left].
    + change (bool_decide (SOCKSAuthPassword = SOCKSAuthNone)) with false in H. destruct (os_set (in_password i)); cbn [negb] in H.
      * destruct enc as [[salt encrypted]|]; [|done]. injection H as <-. rewrite Ej. split_and!; [done| |done]. apply socks_check; [done|done|by right].
      * destruct old as [c0|]; [|done]. destruct (_ && _) eqn:E in H; [|done]. injection H as <-. rewrite Ej. split_and!; [done| |done].
        apply socks_check; [done|done|right]. specialize (Hold c0 eq_refl). bools. split_and!; try done.
        unfold config_check in Hold. rewrite !orb_true_iff, !andb_true_iff, !orb_true_iff, !andb_true_iff, !bool_decide_eq_true in Hold.
        destruct Hold as [Hold|(_ & [Hold|Hold])]; [|destruct Hold as [[[Hn _] _] _]|apply Hold].
        -- destruct Hold as [[[[[[[Hm _] _] _] _] _] _] _]. rewrite Hm in H. discriminate H.
        -- rewrite Hn in H2. discriminate H2.
Qed.

Lemma config_check_jump c j : config_check c = true -> JumpServerID c = Some j -> Mode c = ConnectionSSHJump.
Proof.
  unfold config_check. intros H Hj. apply orb_true_iff in H as [H|H]; bools; [done|congruence].
Qed.

(** ** What a transaction decided on *)

Lemma FindByID_spec d id l : FindByID d id = Some l -> servers d !! id = Some (l_server l) /\ DeletedAt (l_server l) = false.
Proof. unfold FindByID. intros (s & Hs & ->)%fmap_Some. by apply live_server_Some. Qed.

Lemma FindByID_live d id l : FindByID d id = Some l -> live d id.
Proof. intros H%FindByID_spec. apply live_row. eauto. Qed.

Lemma dependents_nil d id k c :
  FindJumpDependentIDs d id = [] -> live d k -> configs d !! k = Some c -> JumpServerID c = Some id -> False.
Proof.
  intros H Hl Hc Hj. assert (k ∈ FindJumpDependentIDs d id) as Hk; [|rewrite H in Hk; by apply elem_of_nil in Hk].
  unfold FindJumpDependentIDs. rewrite merge_sort_Permutation. apply list_elem_of_filter. split; [done|].
  apply list_elem_of_fmap. exists (k, c). split; [done|]. apply list_elem_of_filter. split; [done|]. by apply elem_of_map_to_list.
Qed.

Lemma validateJump_ok d id c j :
  db_ok d -> validateJump d id (Some c) = Ok tt -> config_check c = true -> JumpServerID c = Some j ->
  j <> id /\ live d j /\ configs d !! j = None.
Proof.
  intros Hd H Hc Hj. unfold validateJump in H. rewrite (config_check_jump c j Hc Hj), Hj in H. cbn in H.
  destruct (j =? id) eqn:E; [done|]. bools. destruct (FindByID d j) as [l|] eqn:El; [|done].
  destruct (CredentialID (l_server l)), (l_cred l) as [cred|]; try done. destruct (_ || _); [done|].
  destruct (FindByID_spec _ _ _ El) as [Hrow _]. destruct (ok_id d Hd _ _ Hrow) as [Eid _]. rewrite Eid in H.
  unfold FindConnectionConfig in H. destruct (configs d !! j); [done|]. split_and!; [done|by eapply FindByID_live|done].
Qed.

(** The call behind a request. *)
Ltac call_of H Hc :=
  let E := fresh "E" in
  inversion H as [? ? ? ? ? Hc E|? ? ? ? ? ? ? Hc E|? ? Hc E|? ? ? ? ? Hc E|? ? ? ? ? ? Hc E]; subst;
  try (unfold createServer, updateServer, deleteServer, trustHostKey, CommitSSHRouteHostKey in Hc; repeat case_match; discriminate Hc).

Lemma submitted_create srv config :
  submitted (RCreate srv config) -> DeletedAt srv = false /\ forall c, config = Some c -> config_check c = true.
Proof.
  intros H. call_of H Hc. unfold createServer in Hc.
  destruct (_ || _); [done|]. destruct (65535 <? _); [done|]. destruct (_ && _); [done|]. destruct (m_set _).
  - destruct (buildConnectionConfig _ _ _ _) as [o|] eqn:E; [|done]. injection Hc as <- <-. split; [done|].
    intros c ->. by apply build_ok in E as (_ & ? & _).
  - injection Hc as <- <-. done.
Qed.

Lemma submitted_key expected resource seen kind :
  submitted (RHostKey expected resource seen kind) ->
  ID resource ∈ lock_ids (RHostKey expected resource seen kind) /\
  (resource = l_server (Target expected) \/ exists j, Jump expected = Some j /\ resource = l_server j).
Proof.
  intros H. call_of H Hc. unfold CommitSSHRouteHostKey in Hc. destruct (ID _ =? _) eqn:E; [|done]. simplify_eq. bools.
  cbn. destruct (Jump expected) as [j|]; cbn; [|split; [left|by left]].
  destruct (_ =? _); (split; [|by eauto]); [right; left|left].
Qed.

Section commit.
Context (locks : list Z) (seen d : serverdb).
Context (Hseen : db_ok seen) (Hd : db_ok d) (Hag : agrees locks seen d).

Lemma live_agree i : i ∈ locks -> live d i <-> live seen i.
Proof. intros Hi. apply live_same. by apply (ag_server _ _ _ Hag). Qed.

Lemma no_dependents_agree id : id ∈ locks -> FindJumpDependentIDs seen id = [] -> no_dependents d id.
Proof.
  intros Hi Hf k c Hc Hj. destruct (ag_deps _ _ _ Hag id k c Hi Hc Hj) as (Hl & c0 & Hc0 & Hj0). by eapply dependents_nil.
Qed.

Lemma fits_agree id sid c :
  (forall j, JumpServerID c = Some j -> live seen j -> j ∈ locks) -> c_server c = id -> config_check c = true ->
  validateJump seen sid (Some c) = Ok tt -> (forall j, live d j -> j <> sid -> j <> id) -> fits_config locks d id c.
Proof.
  intros Hl Hs Hc Hv Hne. split; [done|]. split; [done|]. intros j Hj.
  destruct (validateJump_ok _ _ _ _ Hseen Hv Hc Hj) as (H1 & H2 & H3). specialize (Hl j Hj H2).
  assert (live d j) by (by apply live_agree). split_and!; [done|by apply Hne|done|]. by rewrite (ag_config _ _ _ Hag).
Qed.

Lemma fields_effect now s s' :
  servers seen !! ID s = Some s -> DeletedAt s = false -> ID s ∈ locks -> ID s' = ID s -> DeletedAt s' = false ->
  apply_write now (WFields s') d = put_server s' d /\ ID s' ∈ locks /\ live d (ID s').
Proof.
  intros Hs Hdel Hl E Hd'. assert (live d (ID s')) as Hlive.
  { rewrite E. apply live_agree; [done|]. apply live_row. eauto. }
  split_and!; [|by rewrite E|done]. cbn. destruct Hlive as [x Hx]. by rewrite Hx.
Qed.
End commit.

Lemma updated_row_id input existing credential e c : ID (updated_row input existing credential e c) = ID existing.
Proof. done. Qed.

Lemma commit_effect_update now admin id input clear m enc locks seen d ws :
  let r := RUpdate admin id input clear m enc in
  check r seen = Ok ws -> db_ok seen -> agrees locks seen d -> (forall i, i ∈ lock_ids r -> live seen i -> i ∈ locks) ->
  exists e, effect_ok locks d e /\ apply_writes now ws d = apply_effect e d.
Proof.
  intros r Hck Hseen Hag Hlk. subst r. cbn [check] in Hck.
  unfold check_update in Hck. destruct (FindByID seen id) as [l|] eqn:El; [|done].
  destruct (FindByID_spec _ _ _ El) as [Hrow Hdel]. destruct (ok_id seen Hseen _ _ Hrow) as [Eid _].
  assert (id ∈ locks) as Hid by (apply Hlk; [left|by eapply FindByID_live]).
  destruct (m_set m && _); [done|]. destruct (_ && negb admin); [done|].
  set (existing := l_server l) in *. rewrite <- Eid in Hrow, Hid.
  match type of Hck with (match ?x with Ok _ => _ | Err _ => _ end) = _ => destruct x as [newConfig|] eqn:En; [|done] end.
  set (row := updated_row _ _ _ _ _) in Hck. destruct (65535 <? Port row); [done|]. injection Hck as <-.
  destruct (fields_effect locks seen d Hag now existing row Hrow Hdel Hid eq_refl Hdel) as (Ea & Hl & Hlive).
  unfold apply_writes. cbn [foldl]. rewrite Ea. destruct (m_set m) eqn:Em; cbn [foldl].
  + destruct (buildConnectionConfig enc id (m_config m) _) as [o|] eqn:Eb; [|done].
    destruct (_ && _) eqn:Edep in En; [done|]. destruct (validateJump seen id o) as [[]|] eqn:Ev; [|done]. injection En as <-.
    destruct o as [c|].
    * exists (EEdit row (Some (Some c))).
      destruct (build_ok enc id (m_config m) _ c Eb) as (Hs & Hc & Hj).
      { intros c0 Hc0. by destruct (ok_config seen Hseen id c0 Hc0) as (_ & _ & ?). }
      cbn. rewrite Hs. change (ID row) with (ID existing) in *. rewrite Eid in *. split; [|done]. split_and!; try done.
      -- apply (fits_agree locks seen d Hseen Hag id id c); try done.
         intros j Hjc Hlj. apply Hlk; [|done]. cbn. rewrite Em, <- Hj, Hjc. right; left.
      -- apply (no_dependents_agree locks seen d Hag id Hid).
         apply andb_false_iff in Edep as [Edep|Edep]; bools; [by destruct Edep; eauto|done].
    * exists (EEdit row (Some None)). cbn. change (ID row) with (ID existing) in *. rewrite Eid in *. done.
  + exists (EEdit row None). cbn. done.
Qed.

(** A commit has one of these effects, and it fits the database it meets. *)
Lemma commit_effect now r locks seen d ws :
  submitted r -> check r seen = Ok ws -> db_ok seen -> db_ok d -> agrees locks seen d ->
  (forall i, i ∈ lock_ids r -> live seen i -> i ∈ locks) -> (forall i, i ∈ lock_ids r -> live d i -> i ∈ locks) ->
  exists e, effect_ok locks d e /\ apply_writes now ws d = apply_effect e d.
Proof.
  intros Hsub Hck Hseen Hd Hag Hlk Hld. destruct r as [srv config|admin id input clear m enc|id|id fp rev|expected resource key kind]; cbn [check] in Hck.
  - destruct (validateJump seen 0 config) as [[]|] eqn:Ev; [|done]. injection Hck as <-.
    exists (EInsert (MkServer (next_server d) (Name srv) (Host srv) (Port srv) (Description srv) (Notes srv) (CredentialID srv)
              (ConnectionRevision srv) (HostKey srv) (HostKeySeen srv) (HostKeyMismatchAt srv) false)
            ((fun c => MkConfig (c_version c) (next_server d) (Mode c) (JumpServerID c) (SocksHost c) (SocksPort c)
                         (SocksAuthType c) (SocksUsername c) (c_password c) (c_salt c)) <$> config)).
    destruct config as [c|]; cbn; [|done]. split; [|done]. split; [done|]. split; [done|].
    pose proof (proj2 (submitted_create _ _ Hsub) c eq_refl) as Hc. split; [done|]. split; [exact Hc|]. intros j Hj. cbn in Hj.
    destruct (validateJump_ok _ _ _ _ Hseen Ev Hc Hj) as (H1 & H2 & H3).
    assert (j ∈ locks) as Hl by (apply Hlk; [cbn; rewrite Hj; left|done]).
    assert (live d j) as Hlj by (by apply (live_agree _ _ _ Hag)). pose proof (live_next d j Hd Hlj).
    split_and!; [done|lia|done|]. by rewrite (ag_config _ _ _ Hag).
  - by eapply commit_effect_update.
  - destruct (bool_decide _) eqn:E; [|done]. bools. injection Hck as <-.
    unfold apply_writes. cbn [foldl apply_write]. change (live_server (put_configs _ d) id) with (live_server d id).
    destruct (live_server d id) as [s|] eqn:Es.
    + assert (live d id) as Hl by (by exists s). assert (id ∈ locks) as Hid by (apply Hld; [left|done]).
      apply live_server_Some in Es as [Hrow Hdel]. destruct (ok_id d Hd _ _ Hrow) as [Eid _].
      exists (EDelete (MkServer (ID s) (Name s) (Host s) (Port s) (Description s) (Notes s) (CredentialID s)
                        (ConnectionRevision s) (HostKey s) (HostKeySeen s) (HostKeyMismatchAt s) true)).
      cbn. rewrite Eid. split; [|done]. split_and!; try done. by apply (no_dependents_agree locks seen d Hag).
    + exists ENone. split; [done|]. cbn. unfold put_configs. rewrite delete_id; [by destruct d|].
      destruct (configs d !! id) as [c|] eqn:Ec; [|done]. destruct (ok_config d Hd id c Ec) as (_ & [? ?] & _). congruence.
  - destruct (FindByID seen id) as [l|] eqn:El; [|done].
    destruct (FindByID_spec _ _ _ El) as [Hrow Hdel]. destruct (ok_id seen Hseen _ _ Hrow) as [Eid _].
    assert (id ∈ locks) as Hid by (apply Hlk; [left|by eapply FindByID_live]).
    destruct (HostKeySeen _) as [key|]; [|done]. destruct (HostKeyMismatchAt _); [|done].
    destruct (_ || _); [done|]. destruct (match rev with Some _ => _ | None => _ end); [done|]. injection Hck as <-.
    rewrite <- Eid in Hrow, Hid.
    destruct (fields_effect locks seen d Hag now (l_server l) (with_keys (Some key) None None (l_server l)) Hrow Hdel Hid eq_refl Hdel)
      as (Ea & Hl & Hlive).
    exists (EEdit (with_keys (Some key) None None (l_server l)) None). split; [by split_and!|]. exact Ea.
  - destruct (readSSHRouteSnapshot _ _) as [current|]; [|injection Hck as <-; by exists ENone].
    destruct (sameSSHRouteSnapshot _ _); [|injection Hck as <-; by exists ENone]. injection Hck as <-.
    unfold apply_writes. cbn [foldl apply_write]. unfold CommitSSHHostKey.
    destruct (String.eqb key ""); [by exists ENone|].
    remember (match kind with Pin => _ | Mismatch => _ | Clear => _ end) as update eqn:Ef.
    destruct update as [f|]; [|by exists ENone].
    destruct (servers d !! ID resource) as [s|] eqn:Es; [|by exists ENone].
    destruct (key_row_matches resource s) eqn:Em; [|by exists ENone]. cbn [fst].
    destruct (ok_id d Hd _ _ Es) as [Eid _].
    assert (DeletedAt s = false) as Hdel by (unfold key_row_matches in Em; by bools).
    assert (live d (ID resource)) as Hl by (apply live_row; eauto).
    assert (ID (f s) = ID s /\ DeletedAt (f s) = false) as [Ei Ed] by (destruct kind; repeat case_match; simplify_eq; done).
    exists (EEdit (f s) None). split; [|done]. cbn. rewrite Ei, Eid. split_and!; try done.
    apply Hld; [|done]. by apply (submitted_key expected resource key kind).
Qed.

(** ** Preservation *)

Lemma agrees_refl locks d : db_ok d -> agrees locks d d.
Proof.
  intros H. split; try done. intros i k c _ Hc Hj. destruct (ok_config d H k c Hc) as (_ & ? & _). eauto.
Qed.

(** A change whose locks are disjoint from a transaction's does not disturb it. *)
Lemma txn_ok_footprint locks d d' x :
  db_ok d -> footprint locks d d' -> (forall i, i ∈ locks -> live d i) -> (forall i, i ∈ t_locks x -> (~ i ∈ locks)) ->
  txn_ok d x -> txn_ok d' x.
Proof.
  intros Hd F Hlive Hdis [H1 H2 H3 H4 H5].
  assert (forall i, i ∈ t_locks x -> servers d' !! i = servers d !! i /\ configs d' !! i = configs d !! i) as Hsame.
  { intros i Hi. pose proof (live_next d i Hd (proj2 (H2 i Hi))).
    split; [apply (fp_server _ _ _ F)|apply (fp_config _ _ _ F)]; try (by apply Hdis); lia. }
  split; [done| | | |intros seen c Hs Hc; rewrite (fp_creds _ _ _ F); by apply H5].
  - intros i Hi. destruct (H2 i Hi) as [? Hl]. split; [done|]. by apply (live_same d d' i (proj1 (Hsame i Hi))).
  - intros i Hi Hn. destruct (H3 i Hi Hn) as [Hl Hlt]. pose proof (fp_next _ _ _ F).
    split; [|lia]. rewrite (live_same d d'); [done|]. apply (fp_server _ _ _ F); [|lia]. intros Hlk. by apply Hl, Hlive.
  - intros seen Hs. destruct (H4 seen Hs) as (Hok & [A1 A2 A3 A4] & Hlk). split; [done|]. split; [|done]. split.
    + intros i Hi. rewrite (proj1 (Hsame i Hi)). by apply A1.
    + intros i Hi. rewrite (proj2 (Hsame i Hi)). by apply A2.
    + intros i k c Hi Hc Hj. destruct (fp_jump _ _ _ F k c i Hc Hj) as [Hc0|Hlki]; [by eapply A3|]. exfalso. by apply (Hdis i Hi).
    + pose proof (fp_next _ _ _ F). lia.
Qed.

Lemma unbind_same id s : ID (unbind id s) = ID s /\ DeletedAt (unbind id s) = DeletedAt s.
Proof. unfold unbind. destruct (_ && _) eqn:E; [|done]. bools. done. Qed.

Lemma unbind_live id d i : live (DeleteAndUnbind id d) i <-> live d i.
Proof.
  rewrite !live_row. cbn. rewrite lookup_fmap. split.
  - intros (s & (s0 & Hs0 & ->)%fmap_Some & Hd). exists s0. split; [done|]. by rewrite <- (proj2 (unbind_same id s0)).
  - intros (s & Hs & Hd). exists (unbind id s). rewrite Hs. split; [done|]. by rewrite (proj2 (unbind_same id s)).
Qed.

Lemma unbind_db_ok id d : db_ok d -> db_ok (DeleteAndUnbind id d).
Proof.
  intros [H1 H2 H3]. split; unfold flat; cbn.
  - intros i s. rewrite lookup_fmap. intros (s0 & Hs0 & ->)%fmap_Some. rewrite (proj1 (unbind_same id s0)). by apply H1.
  - intros i c Hc. destruct (H2 i c Hc) as (? & ? & ?). split_and!; [done|by apply unbind_live|done].
  - intros i c j Hc Hj. destruct (H3 i c j Hc Hj) as (? & ? & ?). split_and!; [done|by apply unbind_live|done].
Qed.

Lemma sinv_drop s t d' :
  sinv s -> db_ok d' -> (forall t' x, t' <> t -> txs s !! t' = Some x -> txn_ok d' x) -> sinv (SState d' (delete t (txs s))).
Proof.
  intros H Hd Hx. split; cbn; [done| |].
  - intros t' x [Hne Ht]%lookup_delete_Some. by eapply Hx.
  - intros t1 t2 x1 x2 i [_ H1]%lookup_delete_Some [_ H2]%lookup_delete_Some Hne. by eapply (si_disjoint s H).
Qed.

Lemma sstep_inv s s' : sstep names_known s s' -> sinv s -> sinv s'.
Proof.
  intros St H. destruct St as [s t r Hfree Hsub Hknown Hrows|s t r locks Ht|s t r locks seen ws now Ht Hck|s t x Ht|s c Hc|s id Hc Hrows].
  - split; cbn; [by apply H| |].
    + intros t' x [[<- <-]|[_ Hx]]%lookup_insert_Some; [|by apply (si_tx s H t')].
      split; cbn; try done.
      * intros i [Hl Hi]%list_elem_of_filter. done.
      * intros i Hi Hn. split; [|by apply Hknown]. intros Hl. apply Hn. by apply list_elem_of_filter.
    + intros t1 t2 x1 x2 i [[<- <-]|[_ H1]]%lookup_insert_Some [[<- <-]|[_ H2]]%lookup_insert_Some Hne Hi; cbn in *; try done.
      * by apply (Hrows i Hi t2 x2).
      * intros Hi2. by apply (Hrows i Hi2 t1 x1).
      * by apply (si_disjoint s H t1 t2 x1 x2 i).
  - destruct (si_tx s H t _ Ht) as [H1 H2 H3 H4 _]. cbn in *. split; cbn; [by apply H| |].
    + intros t' x [[<- <-]|[_ Hx]]%lookup_insert_Some; [|by apply (si_tx s H t')].
      split; cbn; try done; [|by intros seen c [= <-] _]. intros seen [= <-]. split_and!; [by apply H|by apply agrees_refl, H|].
      intros i Hi Hl. destruct (decide (i ∈ locks)) as [|Hn]; [done|]. by destruct (H3 i Hi Hn).
    + intros t1 t2 x1 x2 i [[<- <-]|[_ H5]]%lookup_insert_Some [[<- <-]|[_ H6]]%lookup_insert_Some Hne Hi; cbn in *; try done.
      * by apply (si_disjoint s H t t2 _ x2 i Ht H6 Hne).
      * by apply (si_disjoint s H t1 t x1 _ i H5 Ht Hne).
      * by apply (si_disjoint s H t1 t2 x1 x2 i).
  - destruct (si_tx s H t _ Ht) as [H1 H2 H3 H4 _]. cbn in *. destruct (H4 seen eq_refl) as (Hseen & Hag & Hlk).
    assert (forall i, i ∈ lock_ids r -> live (db s) i -> i ∈ locks) as Hld.
    { intros i Hi Hl. destruct (decide (i ∈ locks)) as [|Hn]; [done|]. by destruct (H3 i Hi Hn). }
    destruct (commit_effect now r locks seen (db s) ws H1 Hck Hseen (si_db s H) Hag Hlk Hld) as (e & He & ->).
    apply sinv_drop; [done|by eapply effect_db_ok, He; apply H|].
    intros t' x Hne Hx. eapply txn_ok_footprint; [by apply H|by apply effect_footprint| | |by apply (si_tx s H t')].
    + intros i Hi. by apply H2.
    + intros i Hi. by apply (si_disjoint s H t' t x _ i Hx Ht Hne).
  - apply sinv_drop; [done|by apply H|]. intros t' x' _ Hx. by apply (si_tx s H t').
  - destruct H as [[D1 D2 D3] H2 H3]. split; cbn; [by split| |done].
    intros t x Hx. destruct (H2 t x Hx) as [T1 T2 T3 T4 T5]. split; try done.
    + intros seen Hs. destruct (T4 seen Hs) as (? & [A1 A2 A3 A4] & ?). split_and!; try done.
    + intros seen k Hs Hk. cbn. rewrite lookup_insert_ne; [by apply T5|]. intros <-. by apply (Hc t x Hx).
  - split; cbn; [apply unbind_db_ok, H| |by apply H].
    intros t x Hx. destruct (si_tx s H t x Hx) as [T1 T2 T3 T4 T5]. split; try done.
    + intros i Hi. rewrite unbind_live. by apply T2.
    + intros i Hi Hn. rewrite unbind_live. by apply T3.
    + intros seen Hs. destruct (T4 seen Hs) as (? & [A1 A2 A3 A4] & ?). split_and!; try done. split; try done.
      intros i Hi. cbn. rewrite lookup_fmap, <- A1 by done. destruct (servers (db s) !! i) as [srv|] eqn:E; [|done]. cbn. f_equal.
      destruct (decide (unbind id srv = srv)) as [|Hne]; [done|]. by destruct (Hrows i srv E Hne t x Hx).
    + intros seen k Hs Hk. cbn. rewrite lookup_alter_ne; [by apply T5|]. intros <-. by apply (Hc t x Hx).
Qed.

Lemma sinv_steps s s' : rtc (sstep names_known) s s' -> sinv s -> sinv s'.
Proof. induction 1; [done|]. intros H'. by eapply IHrtc, sstep_inv. Qed.

Lemma sinv_initial d : db_ok d -> sinv (SState d ∅).
Proof.
  intros Hd. split; cbn; [done|intros t x Hx; by rewrite lookup_empty in Hx|intros t t' x x' i Hx; by rewrite lookup_empty in Hx].
Qed.

Lemma sinv_reachable d s : db_ok d -> rtc (sstep names_known) (SState d ∅) s -> sinv s.
Proof. intros Hd Hr. eapply sinv_steps; [done|by apply sinv_initial]. Qed.

(** The rows of a transaction that is about to commit are those it read. *)
Lemma commit_view s t r locks seen i :
  sinv s -> txs s !! t = Some (Txn r locks (Checked seen)) -> i ∈ lock_ids r -> live seen i \/ live (db s) i ->
  servers (db s) !! i = servers seen !! i /\ configs (db s) !! i = configs seen !! i /\ live (db s) i.
Proof.
  intros H Ht Hi Hl. destruct (si_tx s H t _ Ht) as [H1 H2 H3 H4 _]. cbn in *. destruct (H4 seen eq_refl) as (Hseen & Hag & Hlk).
  assert (i ∈ locks) as Hil.
  { destruct Hl as [Hl|Hl]; [by apply Hlk|]. destruct (decide (i ∈ locks)) as [|Hn]; [done|]. by destruct (H3 i Hi Hn). }
  split_and!; [by apply (ag_server _ _ _ Hag)|by apply (ag_config _ _ _ Hag)|by apply H2].
Qed.

(** ** The properties *)

(** C20: Routes never chain.  Whatever transactions on servers, routes, credentials and host
    keys run interleaved, a committed route through a jump host goes through another, live
    server that is itself reached directly, every route satisfies the table's constraint
    and belongs to a live server; so no commit is refused by the constraint and no cycle
    of jumps exists.  (Requests name only servers that existed when they began.) *)
Theorem jump_routes_flat d s :
  db_ok d -> rtc (sstep names_known) (SState d ∅) s ->
  (forall i c, configs (db s) !! i = Some c -> c_server c = i /\ live (db s) i /\ config_check c = true) /\
  (forall i c j, configs (db s) !! i = Some c -> JumpServerID c = Some j ->
     j <> i /\ live (db s) j /\ configs (db s) !! j = None) /\
  (forall t r locks seen ws now c, txs s !! t = Some (Txn r locks (Checked seen)) -> check r seen = Ok ws ->
     c ∈ map_to_list (configs (apply_writes now ws (db s))) -> config_check c.2 = true).
Proof.
  intros Hd Hr. pose proof (sinv_reachable d s Hd Hr) as H. destruct (si_db s H) as [H1 H2 H3].
  split_and!; [exact H2|exact H3|].
  intros t r locks seen ws now [i c] Ht Hck Hc%elem_of_map_to_list.
  pose proof (sstep_inv _ _ (T_commit names_known s t r locks seen ws now Ht Hck) H) as H'.
  destruct (ok_config _ (si_db _ H') i c Hc) as (_ & _ & ?). done.
Qed.

(** What the commit of a host-key result does. *)
Definition key_result (now : time) (seen : string) (kind : key_kind) (s s' : Server) : Prop :=
  match kind with
  | Pin => no_key (HostKey s) = true /\ s' = with_keys (Some seen) None None s
  | Mismatch => s' = with_keys (HostKey s) (Some seen) (Some now) s
  | Clear => HostKey s = Some seen /\ s' = with_keys (HostKey s) None None s
  end.

(** What a commit does to an existing row [a] of server [i], its route going from [c] to [c']. *)
Inductive row_change (now : time) (i : Z) (a b : Server) (c c' : option Config) : request -> Prop :=
| RC_update admin input clear m enc :
    let credential := resolveCredentialBinding (CredentialID a) (CredentialID input) clear in
    (m_set m = true -> ExpectedRevision m = Some (ConnectionRevision a)) ->
    (m_set m = false -> c' = c) ->
    b = updated_row input a credential (endpoint_changed input a)
          (endpoint_changed input a || negb (bool_decide (CredentialID a = credential)) || negb (equalConnection c c')) ->
    row_change now i a b c c' (RUpdate admin i input clear m enc)
| RC_delete : DeletedAt b = true -> HostKey b = HostKey a -> row_change now i a b c c' (RDelete i)
| RC_trust fingerprint revision key at_ :
    HostKeySeen a = Some key -> HostKeyMismatchAt a = Some at_ -> fingerprint <> "" -> fingerprint = Fingerprint key ->
    (forall v, revision = Some v -> v = ConnectionRevision a) -> c' = c -> b = with_keys (Some key) None None a ->
    row_change now i a b c c' (RTrust i fingerprint revision)
| RC_key expected resource seen kind :
    ID resource = i -> key_row_matches resource a = true -> key_result now seen kind a b -> c' = c -> seen <> "" ->
    row_change now i a b c c' (RHostKey expected resource seen kind).

Lemma key_commit now expected seen kind d d' :
  CommitSSHHostKey now expected seen kind d = (d', true) ->
  exists a b, servers d !! ID expected = Some a /\ key_row_matches expected a = true /\ key_result now seen kind a b /\
    seen <> "" /\ ID b = ID a /\ d' = put_server b d.
Proof.
  unfold CommitSSHHostKey. destruct (String.eqb seen "") eqn:Es; [done|]. apply String.eqb_neq in Es.
  destruct (servers d !! ID expected) as [a|]; [|by destruct kind; repeat case_match].
  assert (forall b, key_row_matches expected a = true -> key_result now seen kind a b -> ID b = ID a ->
    exists a0 b, Some a = Some a0 /\ key_row_matches expected a0 = true /\ key_result now seen kind a0 b /\
      seen <> "" /\ ID b = ID a0 /\ put_server b d = put_server b d) as Hb by (intros b ? ? ?; by exists a, b).
  destruct kind; cbn.
  - destruct (no_key (HostKey expected)) eqn:Ek; [|done]. destruct (key_row_matches expected a) eqn:Em; [|done].
    intros [= <-]. exists a, (with_keys (Some seen) None None a). split_and!; try done.
    unfold key_row_matches in Em. rewrite Ek in Em. by bools.
  - destruct (key_row_matches expected a) eqn:Em; [|done]. intros [= <-].
    exists a, (with_keys (HostKey a) (Some seen) (Some now) a). done.
  - case_bool_decide as Ek; [|done]. destruct (key_row_matches expected a) eqn:Em; [|done]. intros [= <-].
    exists a, (with_keys (HostKey a) None None a). split_and!; try done.
    unfold key_row_matches in Em. rewrite Ek in Em. cbn in Em. apply String.eqb_neq in Es. rewrite Es in Em. bools. congruence.
Qed.

Lemma key_commit_false now expected seen kind d d' : CommitSSHHostKey now expected seen kind d = (d', false) -> d' = d.
Proof. unfold CommitSSHHostKey. intros H. repeat case_match; by simplify_eq. Qed.

Lemma lookup_put s d i : servers (put_server s d) !! i = if decide (ID s = i) then Some s else servers d !! i.
Proof. cbn. case_decide as E; [by rewrite E, lookup_insert_eq|by rewrite lookup_insert_ne]. Qed.

Lemma commit_row_update s t admin id input clear m enc locks seen ws now i a b :
  let r := RUpdate admin id input clear m enc in
  sinv s -> txs s !! t = Some (Txn r locks (Checked seen)) -> check r seen = Ok ws ->
  let d' := apply_writes now ws (db s) in
  servers (db s) !! i = Some a -> servers d' !! i = Some b ->
  b = a /\ configs d' !! i = configs (db s) !! i \/ row_change now i a b (configs (db s) !! i) (configs d' !! i) r.
Proof.
  intros r H Ht Hck d' Ha Hb. subst r d'. pose proof (ok_id _ (si_db s H)) as Hid. cbn [check] in Hck.
  pose proof (commit_view s t (RUpdate admin id input clear m enc) locks seen) as Hview.
  unfold check_update in Hck. destruct (FindByID seen id) as [l|] eqn:El; [|done].
  destruct (FindByID_spec _ _ _ El) as [Hrow Hdel].
  destruct (Hview id H Ht ltac:(left) (or_introl (FindByID_live _ _ _ El))) as (Es & Ec & [s0 Hlive]). rewrite Hrow in Es.
  destruct (Hid id _ Es) as [Eid _]. unfold FindConnectionConfig in Hck. rewrite <- Ec in Hck.
  set (existing := l_server l) in *.
  destruct (m_set m && _) eqn:Erev in Hck; [done|]. destruct (_ && negb admin); [done|].
  match type of Hck with (match ?x with Ok _ => _ | Err _ => _ end) = _ => destruct x as [new|] eqn:En; [|done] end.
  set (row := updated_row _ _ _ _ _) in Hck. destruct (65535 <? Port row); [done|]. injection Hck as <-.
  unfold apply_writes in Hb |- *. cbn [foldl] in Hb |- *.
  assert (apply_write now (WFields row) (db s) = put_server row (db s)) as Ew.
  { cbn [apply_write]. change (ID row) with (ID existing). by rewrite Eid, Hlive. }
  rewrite Ew in Hb |- *. cbn in Eid. change (ID existing) with (ID row) in Eid.
  assert (forall x, foldl (fun d w => apply_write now w d) x
            (if m_set m then [match new with Some c => WConfig c | None => WNoConfig id end] else []) =
          if m_set m then put_configs (match new with Some c => <[c_server c := c]> (configs x) | None => delete id (configs x) end) x
          else x) as Ef by (intros x; destruct (m_set m), new; done).
  rewrite Ef in Hb |- *.
  assert (servers (put_server row (db s)) !! i = Some b) as Hb' by (by destruct (m_set m)).
  assert (forall c, new = Some c -> m_set m = true -> c_server c = id) as Hc.
  { intros c -> Em. rewrite Em in En. destruct (buildConnectionConfig _ _ _ _) as [o|] eqn:Eb; [|done].
    destruct (_ && _) in En; [done|]. destruct (validateJump seen id o) as [[]|]; [|done]. injection En as ->.
    apply build_ok in Eb as [? _]; [done|]. intros c0 Hc0. by destruct (ok_config _ (si_db s H) id c0 Hc0) as (_ & _ & ?). }
  rewrite lookup_put, Eid in Hb'. case_decide as E.
  + subst i. rewrite Ha in Es. injection Es as ->. injection Hb' as <-. right.
    assert (configs (if m_set m then put_configs (match new with Some c => <[c_server c := c]> (configs (put_server row (db s)))
              | None => delete id (configs (put_server row (db s))) end) (put_server row (db s)) else put_server row (db s)) !! id = new) as ->.
    { destruct (m_set m); cbn; [|by injection En as <-]. destruct new as [c|]; [|apply lookup_delete_eq].
      rewrite (Hc c) by done. apply lookup_insert_eq. }
    apply RC_update; [|intros Em; rewrite Em in En; by injection En|done].
    intros Em. rewrite Em in Erev. cbn in Erev. by bools.
  + left. rewrite Ha in Hb'. injection Hb' as ->. split; [done|]. destruct (m_set m); [|done]. cbn.
    destruct new as [c|]; [rewrite (Hc c) by done; by rewrite lookup_insert_ne|by rewrite lookup_delete_ne].
Qed.

(** Every commit changes an existing row in one of these ways, or leaves it and its route. *)
Lemma commit_row s t r locks seen ws now i a b :
  sinv s -> txs s !! t = Some (Txn r locks (Checked seen)) -> check r seen = Ok ws ->
  let d' := apply_writes now ws (db s) in
  servers (db s) !! i = Some a -> servers d' !! i = Some b ->
  b = a /\ configs d' !! i = configs (db s) !! i \/ row_change now i a b (configs (db s) !! i) (configs d' !! i) r.
Proof.
  intros H Ht Hck d' Ha Hb. subst d'. pose proof (ok_id _ (si_db s H)) as Hid. destruct (Hid i a Ha) as [_ Hlt].
  pose proof (commit_view s t r locks seen) as Hview.
  destruct r as [srv config|admin id input clear m enc|id|id fp rev|expected resource key kind]; cbn [check] in Hck.
  - left. destruct (validateJump _ _ _); [|done]. injection Hck as <-. unfold apply_writes in *. cbn in *.
    assert (next_server (db s) <> i) by lia.
    destruct config as [c|]; cbn in *; rewrite lookup_insert_ne in Hb by done; rewrite Ha in Hb; injection Hb as ->; [|done].
    by rewrite lookup_insert_ne.
  - by apply (commit_row_update s t admin id input clear m enc locks seen ws now i a b).
  - destruct (bool_decide _); [|done]. injection Hck as <-. unfold apply_writes in *. cbn [foldl apply_write] in *.
    change (live_server (put_configs _ (db s)) id) with (live_server (db s) id) in *.
    destruct (live_server (db s) id) as [x|] eqn:Ex.
    + apply live_server_Some in Ex as [Ex _]. destruct (Hid id x Ex) as [Eid _].
      rewrite lookup_put in Hb. cbn [ID servers put_configs] in Hb. rewrite Eid in Hb. cbn. case_decide as E.
      * rewrite <- E in *. rewrite Ha in Ex. injection Ex as <-. injection Hb as <-. right. by apply RC_delete.
      * rewrite Ha in Hb. injection Hb as ->. left. by rewrite lookup_delete_ne.
    + cbn in *. rewrite Ha in Hb. injection Hb as ->. left. split; [done|].
      destruct (decide (id = i)) as [E|]; [|by rewrite lookup_delete_ne]. rewrite E in *. rewrite lookup_delete_eq.
      destruct (configs (db s) !! i) as [c|] eqn:Ec; [|done].
      destruct (ok_config _ (si_db s H) i c Ec) as (_ & [? ?] & _). congruence.
  - destruct (FindByID seen id) as [l|] eqn:El; [|done]. destruct (FindByID_spec _ _ _ El) as [Hrow Hdel].
    destruct (Hview id H Ht ltac:(left) (or_introl (FindByID_live _ _ _ El))) as (Es & Ec & [s0 Hlive]). rewrite Hrow in Es.
    destruct (Hid id _ Es) as [Eid _].
    destruct (HostKeySeen (l_server l)) as [key|] eqn:Ek; [|done]. destruct (HostKeyMismatchAt (l_server l)) as [at_|] eqn:Ea; [|done].
    destruct (_ || _) eqn:Ef in Hck; [done|]. destruct (match rev with Some _ => _ | None => _ end) eqn:Er; [done|]. injection Hck as <-.
    unfold apply_writes in *. cbn [foldl apply_write] in *. cbn [ID with_keys] in *. rewrite Eid, Hlive in *.
    rewrite lookup_put in Hb. cbn [ID with_keys] in Hb. rewrite Eid in Hb. case_decide as E.
    + rewrite <- E in *. rewrite Ha in Es. injection Es as ->. injection Hb as <-. right. bools.
      apply (RC_trust _ _ _ _ _ _ _ _ key at_); try done. intros v ->. cbn in Er. by bools.
    + left. rewrite Ha in Hb. by injection Hb as ->.
  - destruct (readSSHRouteSnapshot _ _) as [current|]; [|injection Hck as <-; left; unfold apply_writes in Hb; cbn in Hb; split; [congruence|done]].
    destruct (sameSSHRouteSnapshot _ _); [|injection Hck as <-; left; unfold apply_writes in Hb; cbn in Hb; split; [congruence|done]].
    injection Hck as <-. unfold apply_writes in *. cbn [foldl apply_write] in *.
    destruct (CommitSSHHostKey now resource key kind (db s)) as [d' []] eqn:E; cbn [fst] in *.
    + apply key_commit in E as (a0 & b0 & Ha0 & Hm & Hk & Hne & Hi & ->). destruct (Hid _ _ Ha0) as [Eid _].
      rewrite lookup_put in Hb. case_decide as E.
      * rewrite Hi, Eid in E. rewrite E, Ha in Ha0. injection Ha0 as <-. injection Hb as <-. right. by eapply RC_key.
      * left. rewrite Ha in Hb. by injection Hb as ->.
    + apply key_commit_false in E as ->. left. split; [congruence|done].
Qed.

(** A step leaves a row and its route alone, commits a transaction on it or unbinds it from a
    credential; rows never vanish. *)
Lemma step_row s s' i a :
  sstep names_known s s' -> sinv s -> servers (db s) !! i = Some a ->
  exists b, servers (db s') !! i = Some b /\
    (b = a /\ configs (db s') !! i = configs (db s) !! i \/
     (exists id, b = unbind id a /\ configs (db s') !! i = configs (db s) !! i) \/
     exists t r locks seen now, txs s !! t = Some (Txn r locks (Checked seen)) /\ submitted r /\
       row_change now i a b (configs (db s) !! i) (configs (db s') !! i) r).
Proof.
  intros St H Ha. destruct St as [s t r Hfree Hsub Hknown Hrows|s t r locks Ht|s t r locks seen ws now Ht Hck|s t x Ht|s c Hc|s id Hc Hrows];
    try (exists a; split; [done|by left]).
  - assert (exists b, servers (apply_writes now ws (db s)) !! i = Some b) as [b Hb].
    { destruct (si_tx s H t _ Ht) as [H1 H2 H3 H4 _]. cbn in *. destruct (H4 seen eq_refl) as (Hseen & Hag & Hlk).
      destruct (commit_effect now r locks seen (db s) ws H1 Hck Hseen (si_db s H) Hag Hlk) as (e & He & ->).
      { intros k Hk Hl. destruct (decide (k ∈ locks)) as [|Hn]; [done|]. by destruct (H3 k Hk Hn). }
      assert (forall (m : gmap Z Server) k (x : Server), m !! i = Some a -> exists b, <[k := x]> m !! i = Some b) as Hin.
      { intros m k x Hm. destruct (decide (k = i)) as [->|]; [rewrite lookup_insert_eq|rewrite lookup_insert_ne by done]; eauto. }
      destruct e as [|s' [[c|]|]|s'|srv config]; cbn; eauto. }
    exists b. split; [done|].
    destruct (commit_row s t r locks seen ws now i a b H Ht Hck Ha Hb) as [?|?]; [by left|right; right].
    exists t, r, locks, seen, now. split; [done|]. split; [|done]. apply (tx_submitted _ _ (si_tx s H t _ Ht)).
  - exists (unbind id a). cbn. rewrite lookup_fmap, Ha. split; [done|]. right. left. by exists id.
Qed.

(** C21: Only an administrator changes the key a server is trusted by.  If the pinned key of a
    server changes in any step, either the step commits a [TrustHostKey] whose fingerprint
    is that of the mismatching key on record and makes that very key the pinned one, or it
    commits an update that moves the server to another host or port and leaves no key.  No
    result of a handshake ever pins a key. *)
Theorem host_key_only_trusted d s s' i a b :
  db_ok d -> rtc (sstep names_known) (SState d ∅) s -> sstep names_known s s' ->
  servers (db s) !! i = Some a -> servers (db s') !! i = Some b -> HostKey b <> HostKey a ->
  (exists t fingerprint revision locks seen key,
     txs s !! t = Some (Txn (RTrust i fingerprint revision) locks (Checked seen)) /\
     trustHostKey true i fingerprint revision = Ok (RTrust i fingerprint revision) /\
     fingerprint <> "" /\ fingerprint = Fingerprint key /\ (forall v, revision = Some v -> v = ConnectionRevision a) /\
     HostKeySeen a = Some key /\ HostKeyMismatchAt a <> None /\ HostKey b = Some key /\ HostKeySeen b = None /\ HostKeyMismatchAt b = None) \/
  (exists t admin input clear m enc locks seen,
     txs s !! t = Some (Txn (RUpdate admin i input clear m enc) locks (Checked seen)) /\
     (Host b, Port b) <> (Host a, Port a) /\ HostKey b = None /\ HostKeySeen b = None /\ HostKeyMismatchAt b = None).
Proof.
  intros Hd Hr St Ha Hb Hne. pose proof (sinv_reachable d s Hd Hr) as H.
  destruct (step_row s s' i a St H Ha) as (b' & Hb' & C). rewrite Hb in Hb'. injection Hb' as <-.
  destruct C as [[-> _]|[(id & -> & _)|(t & r & locks & seen & now & Ht & Hsub & C)]]; [done| |].
  - unfold unbind in Hne. by destruct (_ && _).
  - destruct C as [admin input clear m enc credential _ _ Eb|_ E|fp rev key at_ Hk Ha' Hfp Ef Hrev _ Eb|expected resource key kind _ _ Hk _ _]; [|done| |].
    + right. exists t, admin, input, clear, m, enc, locks, seen. split; [done|].
      destruct (endpoint_changed input a) eqn:E; [|by rewrite Eb in Hne]. rewrite Eb. cbn. split_and!; try done.
      intros [= Eh Ep]. unfold endpoint_changed in E. apply orb_true_iff in E as [E|E]; bools.
      * case_bool_decide; congruence.
      * destruct (0 <? Port input) eqn:E0; [congruence|lia].
    + left. exists t, fp, rev, locks, seen, key. rewrite Eb. cbn. split_and!; try done. congruence.
    + destruct kind; cbn in Hk; [|by rewrite Hk in Hne|by destruct Hk as [_ ->]].
      call_of Hsub Hc. unfold CommitSSHRouteHostKey in Hc. destruct (ID _ =? _) in Hc; congruence.
Qed.

(** The locked rows load as they did when the transaction read them, credentials included. *)
Lemma commit_load s t expected resource key kind locks seen i l :
  sinv s -> txs s !! t = Some (Txn (RHostKey expected resource key kind) locks (Checked seen)) ->
  i ∈ lock_ids (RHostKey expected resource key kind) -> FindByID seen i = Some l ->
  FindByID (db s) i = Some l /\ FindConnectionConfig (db s) i = FindConnectionConfig seen i /\ ID (l_server l) = i.
Proof.
  intros H Ht Hi Hl. destruct (si_tx s H t _ Ht) as [H1 H2 H3 H4 H5]. cbn in *. destruct (H4 seen eq_refl) as (Hseen & Hag & Hlk).
  pose proof (Hlk i Hi (FindByID_live _ _ _ Hl)) as Hil.
  pose proof (ag_server _ _ _ Hag i Hil) as Es. pose proof (ag_config _ _ _ Hag i Hil) as Ec.
  destruct (FindByID_spec _ _ _ Hl) as [Hrow _]. destruct (ok_id seen Hseen _ _ Hrow) as [Eid _]. split_and!; [|done|done].
  unfold FindByID, live_server in *. rewrite Es. destruct (servers seen !! i) as [x|] eqn:Ex; [|done].
  destruct (DeletedAt x); [done|]. cbn in *. rewrite <- Hl. do 2 f_equal. unfold Preload.
  destruct (CredentialID x) as [c|] eqn:Ecr; [|done]. cbn. rewrite (H5 seen c eq_refl); [done|].
  unfold shared_creds. cbn. apply list_elem_of_omap. exists i. split; [done|]. by rewrite Ex.
Qed.

(** A host-key result never reaches a route it was not obtained on.  When the commit of
    a result (mismatch seen, warning cleared) changes anything, the route committed at that
    moment -- target, jump host, configuration, both credentials, keys and revisions -- is
    the snapshot the handshake authenticated with, however many edits ran between the
    transaction's reads and its write. *)
Theorem key_commit_on_same_route d s t expected resource key kind locks seen ws now :
  db_ok d -> rtc (sstep names_known) (SState d ∅) s ->
  txs s !! t = Some (Txn (RHostKey expected resource key kind) locks (Checked seen)) ->
  check (RHostKey expected resource key kind) seen = Ok ws -> apply_writes now ws (db s) <> db s ->
  exists current, readSSHRouteSnapshot (db s) (ID (l_server (Target expected))) = Ok current /\
    sameSSHRouteSnapshot expected current = true /\
    (resource = l_server (Target expected) \/ exists j, Jump expected = Some j /\ resource = l_server j).
Proof.
  intros Hd Hr Ht Hck Hne. pose proof (sinv_reachable d s Hd Hr) as H.
  pose proof (commit_load s t expected resource key kind locks seen) as Hload.
  destruct (submitted_key _ _ _ _ (tx_submitted _ _ (si_tx s H t _ Ht))) as [_ Hres]. cbn [check] in Hck.
  set (T := ID (l_server (Target expected))) in *.
  destruct (readSSHRouteSnapshot seen T) as [current|] eqn:Er; [|injection Hck as <-; done].
  destruct (sameSSHRouteSnapshot expected current) eqn:Esame; [|injection Hck as <-; done].
  exists current. split_and!; [|done|done]. clear Hck Hne. unfold readSSHRouteSnapshot in *.
  destruct (FindByID seen T) as [target|] eqn:El; [|done].
  destruct (Hload T target H Ht ltac:(left) El) as (-> & -> & _).
  destruct (_ ≫= _) as [j|]; [|done]. destruct (FindByID seen j) as [jump|] eqn:Ej; [|done].
  assert (Jump current = Some jump) as Hj by (repeat case_match; by simplify_eq).
  assert (ID (l_server jump) = j) as Eid.
  { destruct (si_tx s H t _ Ht) as [_ _ _ H4 _]. destruct (H4 seen eq_refl) as (Hseen & _).
    apply (ok_id seen Hseen). by apply FindByID_spec. }
  unfold sameSSHRouteSnapshot in Esame. rewrite Hj in Esame. bools.
  destruct (Jump expected) as [ej|] eqn:Eej; [|done].
  assert (ID (l_server ej) = j) as Eej' by (unfold server_view in *; simplify_eq/=; congruence).
  destruct (Hload j jump H Ht) as (-> & Ec & _); [cbn; rewrite Eej; cbn; rewrite Eej'; right; left|done|].
  by rewrite Eid, Ec, <- Eid.
Qed.

(** What a client that dials a server depends on. *)
Definition connection_view (s : Server) (c : option Config) :=
  (Host s, Port s, CredentialID s, HostKey s, HostKeySeen s, HostKeyMismatchAt s, config_view <$> c).

Lemma endpoint_unchanged input a : endpoint_changed input a = false ->
  (if bool_decide (Host input = "") then Host a else Host input) = Host a /\ (if 0 <? Port input then Port input else Port a) = Port a.
Proof.
  unfold endpoint_changed. rewrite orb_false_iff, !andb_false_iff, !negb_false_iff, Z.eqb_eq. intros [E1 E2]. split.
  - destruct (bool_decide (Host input = "")); [done|]. destruct E1 as [?|?%bool_decide_eq_true]; done.
  - destruct (0 <? Port input); [|done]. by destruct E2.
Qed.

Lemma change_view now i a b c c' r :
  row_change now i a b c c' r -> DeletedAt b = false ->
  DeletedAt a = false /\
  (connection_view b c' = connection_view a c /\ ConnectionRevision b = ConnectionRevision a \/ ConnectionRevision a < ConnectionRevision b).
Proof.
  intros C Hb. destruct C as [admin input clear m enc credential _ _ Eb|E _|fp rev key at_ _ _ _ _ _ _ Eb|expected resource key kind _ _ Hk _ _].
  - rewrite Eb in *. cbn in *. split; [done|]. destruct (endpoint_changed input a) eqn:Ee; cbn; [right; lia|].
    case_bool_decide as Ecr; cbn; [|right; lia]. unfold equalConnection. case_bool_decide as Ec; cbn; [|right; lia].
    left. split; [|done]. unfold connection_view. cbn. destruct (endpoint_unchanged input a Ee) as [-> ->]. by rewrite <- Ecr, Ec.
  - congruence.
  - rewrite Eb in *. cbn in *. split; [done|right; lia].
  - assert (exists k1 k2 k3, b = with_keys k1 k2 k3 a) as (k1 & k2 & k3 & ->).
    { destruct kind; cbn in Hk; [destruct Hk as [_ ->]|rewrite Hk|destruct Hk as [_ ->]]; by eauto. }
    cbn in *. split; [done|right; lia].
Qed.

Lemma unbind_view id a :
  unbind id a = a \/ ConnectionRevision a < ConnectionRevision (unbind id a).
Proof. unfold unbind. destruct (_ && _); [right; cbn; lia|by left]. Qed.

Lemma step_view s s' i a b :
  sstep names_known s s' -> sinv s -> servers (db s) !! i = Some a -> servers (db s') !! i = Some b -> DeletedAt b = false ->
  DeletedAt a = false /\
  (connection_view b (configs (db s') !! i) = connection_view a (configs (db s) !! i) /\ ConnectionRevision b = ConnectionRevision a \/
   ConnectionRevision a < ConnectionRevision b).
Proof.
  intros St H Ha Hb Hd. destruct (step_row s s' i a St H Ha) as (b' & Hb' & C). rewrite Hb in Hb'. injection Hb' as <-.
  destruct C as [[-> ->]|[(id & -> & ->)|(t & r & locks & seen & now & _ & _ & C)]].
  - split; [done|by left].
  - rewrite (proj2 (unbind_same id a)) in Hd. split; [done|]. destruct (unbind_view id a) as [->|?]; [by left|by right].
  - by eapply change_view.
Qed.

(** The connection revision of a server identifies its connection.  Between any two
    moments of any history of interleaved transactions the revision of a server that still
    exists never goes down, and when it is the same, so are host, port, credential binding,
    pinned key, key seen, mismatch time and route: a stale revision is always detected. *)
Theorem connection_revision_tracks d s s' i a b :
  db_ok d -> rtc (sstep names_known) (SState d ∅) s -> rtc (sstep names_known) s s' ->
  servers (db s) !! i = Some a -> live_server (db s') i = Some b ->
  ConnectionRevision a <= ConnectionRevision b /\
  (ConnectionRevision a = ConnectionRevision b ->
   connection_view a (configs (db s) !! i) = connection_view b (configs (db s') !! i)).
Proof.
  intros Hd Hr Hr'. pose proof (sinv_reachable d s Hd Hr) as H. clear Hr. intros Ha [Hb Hdel]%live_server_Some.
  revert a Ha H. cut (forall a, servers (db s) !! i = Some a -> sinv s -> DeletedAt a = false /\
    (connection_view b (configs (db s') !! i) = connection_view a (configs (db s) !! i) /\ ConnectionRevision b = ConnectionRevision a \/
     ConnectionRevision a < ConnectionRevision b)).
  { intros Hc a Ha H. destruct (Hc a Ha H) as [_ [[E1 E2]|?]]; [split; [lia|by intros _]|split; lia]. }
  induction Hr' as [s|s s1 s' St _ IH]; intros a Ha H.
  - rewrite Ha in Hb. injection Hb as ->. split; [done|by left].
  - destruct (step_row s s1 i a St H Ha) as (a1 & Ha1 & _). destruct (IH Hb a1 Ha1 (sstep_inv _ _ St H)) as [Hd1 C1].
    destruct (step_view s s1 i a a1 St H Ha Ha1 Hd1) as [? C]. split; [done|].
    destruct C as [[E1 E2]|?], C1 as [[E3 E4]|?]; [left; split; congruence|right; lia..].
Qed.
End requests.

(** ** A history *)

Section demo.

Definition demo_cred : SSHCredential := MkCred 7 2 "password" "root" (Some "cipher") None "salt" 1 false.
Definition demo_gateway : Server := MkServer 1 "gateway" "gw.example" 22 None None (Some 7) 3 (Some "k1") None None false.
Definition demo_target : Server := MkServer 2 "db" "10.0.0.2" 22 None None (Some 7) 4 (Some "old") (Some "new") (Some 5) false.
Definition demo_route (id : Z) : Config := MkConfig 1 id ConnectionSSHJump (Some 1) "" 0 "" "" None None.
Definition demo_db : serverdb :=
  MkDb (<[1 := demo_gateway]> {[2 := demo_target]}) {[2 := demo_route 2]} {[7 := demo_cred]} 3.

Definition demo_fingerprint (key : string) : string := "SHA256:" ++ key.
Definition demo_input : ConnectionInput := Input ConnectionSSHJump (Some 1) "" 0 "" "" (Secret false None) ["mode"; "jump_server_id"].
Definition demo_new : Server := MkServer 0 "app" "10.0.0.3" 22 None None (Some 7) 1 None None None false.
Definition demo_create : request := RCreate demo_new (Some (demo_route 0)).
Definition demo_trust : request := RTrust 2 (demo_fingerprint "new") (Some 4).
Definition demo_snapshot : SSHRouteSnapshot :=
  Snapshot (Loaded demo_target (Some demo_cred)) (Some (demo_route 2)) (Some (Loaded demo_gateway (Some demo_cred))).
Definition demo_clear : request := RHostKey demo_snapshot demo_target "old" Clear.

Definition demo_open (p q : tphase) : gmap nat txn := <[1%nat := Txn demo_trust [2] q]> {[0%nat := Txn demo_create [1] p]}.
Definition demo_created : serverdb :=
  MkDb (<[3 := MkServer 3 "app" "10.0.0.3" 22 None None (Some 7) 1 None None None false]> (servers demo_db))
    (<[3 := demo_route 3]> (configs demo_db)) (creds demo_db) 4.
Definition demo_s4 : sstate := SState demo_db (demo_open (Checked demo_db) (Checked demo_db)).
Definition demo_s5 : sstate := SState demo_created {[1%nat := Txn demo_trust [2] (Checked demo_db)]}.
Definition demo_trusted : Server := with_keys (Some "new") None None demo_target.
Definition demo_s6 : sstate := SState (put_server demo_trusted demo_created) ∅.

Lemma demo_ok : db_ok demo_db.
Proof.
  split; unfold flat; cbn.
  - intros i s [[<- <-]|[_ [<- <-]%lookup_singleton_Some]]%lookup_insert_Some; cbn; lia.
  - intros i c [<- <-]%lookup_singleton_Some. split_and!; [done|by apply (bool_decide_unpack _); vm_compute|done].
  - intros i c j [<- <-]%lookup_singleton_Some [= <-]. split_and!; [done|by apply (bool_decide_unpack _); vm_compute|done].
Qed.

Lemma demo_locks : locked_now demo_db demo_create = [1] /\ locked_now demo_db demo_trust = [2].
Proof. split; vm_compute; reflexivity. Qed.

Lemma demo_free_row s i : map_Forall (fun _ x => Is_true (bool_decide (~ i ∈ t_locks x))) (txs s) -> row_free s i.
Proof. intros H t x Hx. specialize (H t x Hx). by apply bool_decide_unpack in H. Qed.

Lemma demo_run4 : rtc (sstep demo_fingerprint names_known) (SState demo_db ∅) demo_s4.
Proof.
  destruct demo_locks as [El0 El1].
  eapply rtc_l; [apply (T_begin _ _ _ 0%nat demo_create); [done| | |]|].
  - by apply (S_create true demo_new (Mutation true (Some demo_input) None) None).
  - intros i Hi. cbn in Hi. apply list_elem_of_singleton in Hi as ->. done.
  - intros i _ t x Hx. cbn in Hx. by rewrite lookup_empty in Hx.
  - eapply rtc_l; [apply (T_begin _ _ _ 1%nat demo_trust); [done| | |]|].
    + by apply (S_trust true 2 (demo_fingerprint "new") (Some 4)).
    + intros i Hi. cbn in Hi. apply list_elem_of_singleton in Hi as ->. done.
    + cbn [db]. rewrite El1. intros i ->%list_elem_of_singleton. apply demo_free_row. cbn [txs db].
      rewrite El0. apply map_Forall_insert_2; [done|]. apply map_Forall_empty.
    + cbn [txs db]. rewrite El0, El1. change (rtc (sstep demo_fingerprint names_known) (SState demo_db (demo_open Locked Locked)) demo_s4).
      eapply rtc_l; [by apply (T_check _ _ _ 0%nat demo_create [1])|].
      change (rtc (sstep demo_fingerprint names_known) (SState demo_db (demo_open (Checked demo_db) Locked)) demo_s4).
      eapply rtc_l; [by apply (T_check _ _ _ 1%nat demo_trust [2])|].
      change (rtc (sstep demo_fingerprint names_known) demo_s4 demo_s4). apply rtc_refl.
Qed.

Lemma demo_step5 : sstep demo_fingerprint names_known demo_s4 demo_s5.
Proof.
  change demo_s5 with (SState (apply_writes 9 [WInsert demo_new (Some (demo_route 0))] demo_db) (delete 0%nat (txs demo_s4))).
  by apply (T_commit _ _ demo_s4 0%nat demo_create [1] demo_db _ 9).
Qed.

Lemma demo_step6 : sstep demo_fingerprint names_known demo_s5 demo_s6.
Proof.
  change demo_s6 with (SState (apply_writes 9 [WFields demo_trusted] demo_created) (delete 1%nat (txs demo_s5))).
  by apply (T_commit _ _ demo_s5 1%nat demo_trust [2] demo_db _ 9).
Qed.

Lemma demo_run5 : rtc (sstep demo_fingerprint names_known) (SState demo_db ∅) demo_s5.
Proof. eapply rtc_r; [apply demo_run4|apply demo_step5]. Qed.

Lemma jump_routes_flat_witness :
  rtc (sstep demo_fingerprint names_known) (SState demo_db ∅) demo_s5 /\ 1 <> 3 /\ live demo_created 1 /\ configs demo_created !! 1 = None.
Proof.
  split; [apply demo_run5|].
  destruct (jump_routes_flat demo_fingerprint demo_db demo_s5 demo_ok demo_run5) as (_ & H & _).
  by apply (H 3 (demo_route 3) 1).
Defined.

Lemma host_key_only_trusted_witness :
  HostKey demo_trusted <> HostKey demo_target /\
  ((exists t fingerprint revision locks seen key,
     txs demo_s5 !! t = Some (Txn (RTrust 2 fingerprint revision) locks (Checked seen)) /\
     trustHostKey true 2 fingerprint revision = Ok (RTrust 2 fingerprint revision) /\
     fingerprint <> "" /\ fingerprint = demo_fingerprint key /\ (forall v, revision = Some v -> v = ConnectionRevision demo_target) /\
     HostKeySeen demo_target = Some key /\ HostKeyMismatchAt demo_target <> None /\ HostKey demo_trusted = Some key /\
     HostKeySeen demo_trusted = None /\ HostKeyMismatchAt demo_trusted = None) \/
   (exists t admin input clear m enc locks seen,
     txs demo_s5 !! t = Some (Txn (RUpdate admin 2 input clear m enc) locks (Checked seen)) /\
     (Host demo_trusted, Port demo_trusted) <> (Host demo_target, Port demo_target) /\
     HostKey demo_trusted = None /\ HostKeySeen demo_trusted = None /\ HostKeyMismatchAt demo_trusted = None)).
Proof.
  split; [done|].
  exact (host_key_only_trusted demo_fingerprint demo_db demo_s5 demo_s6 2 demo_target demo_trusted demo_ok demo_run5 demo_step6 eq_refl eq_refl
           ltac:(done)).
Defined.

Definition demo_key_locked : sstate := SState demo_db {[0%nat := Txn demo_clear [2; 1] Locked]}.
Definition demo_key_open : sstate := SState demo_db {[0%nat := Txn demo_clear [2; 1] (Checked demo_db)]}.

Lemma demo_key_run : rtc (sstep demo_fingerprint names_known) (SState demo_db ∅) demo_key_open.
Proof.
  assert (locked_now demo_db demo_clear = [2; 1]) as El by (vm_compute; reflexivity).
  eapply rtc_l; [apply (T_begin _ _ _ 0%nat demo_clear); [done| | |]|].
  - by apply (S_key demo_snapshot 2 "old" Clear).
  - intros i Hi. apply elem_of_cons in Hi as [->|Hi%list_elem_of_singleton]; [done|]. by subst i.
  - intros i _ t x Hx. cbn in Hx. by rewrite lookup_empty in Hx.
  - cbn [db]. rewrite El. eapply rtc_l; [by apply (T_check _ _ demo_key_locked 0%nat demo_clear [2; 1])|]. apply rtc_refl.
Qed.

Lemma key_commit_on_same_route_witness :
  check demo_fingerprint demo_clear demo_db = Ok [WHostKey demo_target "old" Clear] /\
  exists current, readSSHRouteSnapshot demo_db 2 = Ok current /\ sameSSHRouteSnapshot demo_snapshot current = true /\
    (demo_target = l_server (Target demo_snapshot) \/ exists j, Jump demo_snapshot = Some j /\ demo_target = l_server j).
Proof.
  split; [vm_compute; reflexivity|].
  apply (key_commit_on_same_route demo_fingerprint demo_db demo_key_open 0%nat demo_snapshot demo_target "old" Clear [2; 1] demo_db
           [WHostKey demo_target "old" Clear] 9 demo_ok demo_key_run); [done|vm_compute; reflexivity|].
  intros E. apply (f_equal (fun d => ConnectionRevision <$> servers d !! 2)) in E. vm_compute in E. discriminate E.
Defined.

Lemma connection_revision_tracks_witness :
  ConnectionRevision demo_target <= ConnectionRevision demo_trusted /\
  (ConnectionRevision demo_target = ConnectionRevision demo_trusted ->
   connection_view demo_target (configs demo_db !! 2) = connection_view demo_trusted (configs demo_created !! 2)).
Proof.
  exact (connection_revision_tracks demo_fingerprint demo_db (SState demo_db ∅) demo_s6 2 demo_target demo_trusted demo_ok
           (rtc_refl _ _) (rtc_r _ _ _ demo_run5 demo_step6) eq_refl eq_refl).
Defined.
End demo.
