(* ===== verification/Base64.v ===== *)
(** * encoding/base64

    [base64.StdEncoding] of the Go standard library, which ciphertexts are stored in:
    padded, line breaks skipped by the decoder, unused bits of the last group ignored; and
    [base64.RawURLEncoding], without padding and with [-] and [_], of upload tickets. *)

From S2P Require Import Prelude GoStrings.

Definition alphabet : list ascii :=
  list_ascii_of_string "ABCDEFGHIJKLMNOPQRSTUVWXYZabcdefghijklmnopqrstuvwxyz0123456789+/".
Definition pad : ascii := "="%char.

Definition digit (n : nat) : ascii := default pad (alphabet !! n).
Fixpoint index_of (c : ascii) (l : list ascii) (n : nat) : option nat :=
  match l with x :: l => if bool_decide (x = c) then Some n else index_of c l (S n) | [] => None end.
Definition value (c : ascii) : option nat := index_of c alphabet 0.

Fixpoint encode (l : list ascii) : list ascii :=
  match l with
  | [] => []
  | a :: l =>
      let a := nat_of_ascii a in
      match l with
      | [] => [digit (a / 4); digit (a mod 4 * 16); pad; pad]
      | b :: l =>
          let b := nat_of_ascii b in
          match l with
          | [] => [digit (a / 4); digit (a mod 4 * 16 + b / 16); digit (b mod 16 * 4); pad]
          | c :: l =>
              let c := nat_of_ascii c in
              digit (a / 4) :: digit (a mod 4 * 16 + b / 16) :: digit (b mod 16 * 4 + c / 64) :: digit (c mod 64) :: encode l
          end
      end
  end.
Definition EncodeToString (s : string) : string := string_of_list_ascii (encode (list_ascii_of_string s)).

Fixpoint decode (l : list ascii) : option (list ascii) :=
  match l with
  | [] => Some []
  | p :: q :: r :: s :: l =>
      v1 ← value p; v2 ← value q;
      let b1 := ascii_of_nat (v1 * 4 + v2 / 16) in
      if bool_decide (r = pad) then if bool_decide (s = pad) && bool_decide (l = []) then Some [b1] else None
      else
        v3 ← value r;
        let b2 := ascii_of_nat (v2 mod 16 * 16 + v3 / 4) in
        if bool_decide (s = pad) then if bool_decide (l = []) then Some [b1; b2] else None
        else v4 ← value s; rest ← decode l; Some (b1 :: b2 :: ascii_of_nat (v3 mod 4 * 64 + v4) :: rest)
  | _ => None
  end.
Definition line_break (c : ascii) : bool := bool_decide (c ∈ [byte 10; byte 13]).
Definition DecodeString (s : string) : option string :=
  string_of_list_ascii <$> decode (filter (fun c => negb (line_break c)) (list_ascii_of_string s)).

Example base64_vectors :
  EncodeToString <$> [""; "f"; "fo"; "foo"; "foob"; "fooba"; "foobar"] = [""; "Zg=="; "Zm8="; "Zm9v"; "Zm9vYg=="; "Zm9vYmE="; "Zm9vYmFy"] /\
  DecodeString <$> ["Zm9vYmE="; "Zm9vYh=="; "Zm9v="; "Zm 9"; "Zg==Zg=="; "Z"] = [Some "fooba"; Some "foob"; None; None; None; None].
Proof. split; vm_compute; reflexivity. Qed.

Lemma value_digit n : (n < 64)%nat -> value (digit n) = Some n /\ digit n <> pad /\ line_break (digit n) = false.
Proof.
  intros H. assert (forallb (fun n => bool_decide (value (digit n) = Some n /\ digit n <> pad /\ line_break (digit n) = false)) (seq 0 64) = true)
    as Hall by (vm_compute; reflexivity).
  rewrite forallb_forall in Hall. specialize (Hall n ltac:(apply in_seq; lia)). by apply bool_decide_eq_true in Hall.
Qed.

Lemma ascii_bound (a : ascii) : (nat_of_ascii a < 256)%nat.
Proof. apply nat_ascii_bounded. Qed.

(** The groups of an encoding. *)
Lemma group_bounds (a b c : nat) :
  (a < 256)%nat -> (b < 256)%nat -> (c < 256)%nat ->
  (a / 4 < 64)%nat /\ (a mod 4 * 16 < 64)%nat /\ (a mod 4 * 16 + b / 16 < 64)%nat /\ (b mod 16 * 4 < 64)%nat /\
  (b mod 16 * 4 + c / 64 < 64)%nat /\ (c mod 64 < 64)%nat.
Proof.
  intros Ha Hb Hc. pose proof (Nat.mod_upper_bound a 4 ltac:(lia)). pose proof (Nat.mod_upper_bound b 16 ltac:(lia)).
  pose proof (Nat.mod_upper_bound c 64 ltac:(lia)).
  pose proof (Nat.Div0.div_lt_upper_bound a 4 64 ltac:(lia)). pose proof (Nat.Div0.div_lt_upper_bound b 16 16 ltac:(lia)).
  pose proof (Nat.Div0.div_lt_upper_bound c 64 4 ltac:(lia)). lia.
Qed.

Lemma group_bytes (a b c : nat) :
  (a < 256)%nat -> (b < 256)%nat -> (c < 256)%nat ->
  (a / 4 * 4 + (a mod 4 * 16) / 16 = a)%nat /\ (a / 4 * 4 + (a mod 4 * 16 + b / 16) / 16 = a)%nat /\
  ((a mod 4 * 16 + b / 16) mod 16 * 16 + (b mod 16 * 4) / 4 = b)%nat /\
  ((a mod 4 * 16 + b / 16) mod 16 * 16 + (b mod 16 * 4 + c / 64) / 4 = b)%nat /\
  ((b mod 16 * 4 + c / 64) mod 4 * 64 + c mod 64 = c)%nat.
Proof.
  intros Ha Hb Hc.
  pose proof (Nat.div_mod_eq a 4). pose proof (Nat.div_mod_eq b 16). pose proof (Nat.div_mod_eq c 64).
  pose proof (Nat.Div0.div_lt_upper_bound b 16 16 ltac:(lia)). pose proof (Nat.Div0.div_lt_upper_bound c 64 4 ltac:(lia)).
  rewrite !Nat.div_add_l, !Nat.div_mul by lia. rewrite !(Nat.add_comm (_ * _) (_ / _)), !Nat.Div0.mod_add.
  rewrite !(Nat.div_small (_ / _)) by lia. rewrite !(Nat.mod_small (_ / _)) by lia. lia.
Qed.

Lemma list_ind3 {A} (P : list A -> Prop) :
  P [] -> (forall a, P [a]) -> (forall a b, P [a; b]) -> (forall a b c l, P l -> P (a :: b :: c :: l)) -> forall l, P l.
Proof.
  intros H0 H1 H2 H3 l. enough (P l /\ (forall a, P (a :: l)) /\ (forall a b, P (a :: b :: l))) as [? _] by done.
  induction l as [|x l (I0 & I1 & I2)]; split_and!; auto.
Qed.

Lemma decode_encode l : decode (encode l) = Some l /\ filter (fun c => negb (line_break c)) (encode l) = encode l.
Proof.
  assert (forall x l, line_break x = false -> filter (fun c => negb (line_break c)) (x :: l) = x :: filter (fun c => negb (line_break c)) l) as Hf.
  { intros x l' E. cbn [filter list_filter]. rewrite decide_True; [done|]. by rewrite E. }
  assert (line_break pad = false) as Hpad by done.
  induction l as [|a|a b|a b c l [IH1 IH2]] using list_ind3; [done| | |]; cbn [encode];
    [pose proof (group_bounds _ 0 0 (ascii_bound a) ltac:(lia) ltac:(lia)) as B; pose proof (group_bytes _ 0 0 (ascii_bound a) ltac:(lia) ltac:(lia)) as V
    |pose proof (group_bounds _ _ 0 (ascii_bound a) (ascii_bound b) ltac:(lia)) as B; pose proof (group_bytes _ _ 0 (ascii_bound a) (ascii_bound b) ltac:(lia)) as V
    |pose proof (group_bounds _ _ _ (ascii_bound a) (ascii_bound b) (ascii_bound c)) as B;
     pose proof (group_bytes _ _ _ (ascii_bound a) (ascii_bound b) (ascii_bound c)) as V];
    destruct B as (B1 & B2 & B3 & B4 & B5 & B6); destruct V as (V1 & V2 & V3 & V4 & V5);
    apply value_digit in B1 as (E1 & N1 & L1), B2 as (E2 & N2 & L2), B3 as (E3 & N3 & L3), B4 as (E4 & N4 & L4),
      B5 as (E5 & N5 & L5), B6 as (E6 & N6 & L6); rewrite !Hf, ?IH2 by done; (split; [|done]); cbn [decode];
    rewrite ?E1, ?E2, ?E3; cbn [mbind option_bind];
    rewrite ?(bool_decide_eq_true_2 (pad = pad)), ?(bool_decide_eq_true_2 ([] = [])) by done; cbn [andb];
    rewrite ?(bool_decide_eq_false_2 (digit _ = pad)) by done; rewrite ?E4, ?E5, ?E6, ?IH1; cbn [mbind option_bind];
    rewrite ?(bool_decide_eq_true_2 ([] = [])) by done; rewrite ?V1, ?V2, ?V3, ?V4, ?V5, ?ascii_nat_embedding; done.
Qed.

Lemma DecodeEncode s : DecodeString (EncodeToString s) = Some s.
Proof.
  unfold DecodeString, EncodeToString. rewrite list_ascii_of_string_of_list_ascii.
  destruct (decode_encode (list_ascii_of_string s)) as [E F]. rewrite F, E. cbn. by rewrite string_of_list_ascii_of_string.
Qed.

Lemma EncodeToString_inj a b : EncodeToString a = EncodeToString b -> a = b.
Proof. intros E. apply (f_equal DecodeString) in E. rewrite !DecodeEncode in E. congruence. Qed.

(** ** [base64.RawURLEncoding] *)

Definition to_url (c : ascii) : ascii := if bool_decide (c = "+"%char) then "-" else if bool_decide (c = "/"%char) then "_" else c.
Definition of_url (c : ascii) : option ascii :=
  if bool_decide (c = "-"%char) then Some "+"%char
  else if bool_decide (c = "_"%char) then Some "/"%char
  else if bool_decide (c ∈ ["+"%char; "/"%char; pad]) then None else Some c.
Definition RawURLEncode (s : string) : string :=
  string_of_list_ascii (map to_url (filter (fun c => c <> pad) (encode (list_ascii_of_string s)))).
Definition RawURLDecode (s : string) : option string :=
  l ← mapM of_url (filter (fun c => negb (line_break c)) (list_ascii_of_string s));
  string_of_list_ascii <$>
    match (Datatypes.length l mod 4)%nat with
    | 0%nat => decode l
    | 2%nat => decode (l ++ [pad; pad])
    | 3%nat => decode (l ++ [pad])
    | _ => None
    end.

Example raw_vectors :
  RawURLEncode <$> ["f"; "fo"; "foo"; String (byte 251) (String (byte 255) "")] = ["Zg"; "Zm8"; "Zm9v"; "-_8"] /\
  RawURLDecode <$> ["Zg"; "Zg=="; "-_8"; "+/8"; "Z"] = [Some "f"; None; Some (String (byte 251) (String (byte 255) "")); None; None].
Proof. split; vm_compute; reflexivity. Qed.

(** An encoding is digits and then the padding its length asks for. *)
Definition is_digit (c : ascii) : Prop := exists n, (n < 64)%nat /\ c = digit n.
Lemma encode_shape l : exists body k, encode l = body ++ repeat pad k /\ Forall is_digit body /\
  ((Datatypes.length body mod 4)%nat, k) ∈ [(0, 0); (2, 2); (3, 1)]%nat.
Proof.
  assert (forall n, (n < 64)%nat -> is_digit (digit n)) as D by (intros n ?; by exists n).
  induction l as [|a|a b|a b c l (body & k & E & Hb & Hk)] using list_ind3; cbn [encode].
  - exists [], 0%nat. split_and!; [done|done|by left].
  - pose proof (group_bounds _ 0 0 (ascii_bound a) ltac:(lia) ltac:(lia)) as (B1 & B2 & _).
    exists [digit (nat_of_ascii a / 4); digit (nat_of_ascii a mod 4 * 16)], 2%nat. split_and!; [done|by repeat constructor; apply D|by right; left].
  - pose proof (group_bounds _ _ 0 (ascii_bound a) (ascii_bound b) ltac:(lia)) as (B1 & _ & B3 & B4 & _).
    eexists [_; _; _], 1%nat. split_and!; [reflexivity|by repeat constructor; apply D|by right; right; left].
  - pose proof (group_bounds _ _ _ (ascii_bound a) (ascii_bound b) (ascii_bound c)) as (B1 & _ & B3 & _ & B5 & B6).
    eexists (_ :: _ :: _ :: _ :: body), k. split_and!; [rewrite E; reflexivity|repeat constructor; try done; by apply D|].
    cbn [Datatypes.length]. by replace (S (S (S (S (Datatypes.length body)))) mod 4)%nat with (Datatypes.length body mod 4)%nat
      by (rewrite <- (Nat.Div0.mod_add (Datatypes.length body) 1 4); f_equal; lia).
Qed.

Lemma url_digit c : is_digit c -> of_url (to_url c) = Some c /\ c <> pad /\ line_break (to_url c) = false /\ to_url c <> "."%char.
Proof.
  intros (n & Hn & ->).
  assert (forallb (fun n => bool_decide (of_url (to_url (digit n)) = Some (digit n) /\ digit n <> pad /\ line_break (to_url (digit n)) = false /\
    to_url (digit n) <> "."%char)) (seq 0 64) = true) as Hall by (vm_compute; reflexivity).
  rewrite forallb_forall in Hall. specialize (Hall n ltac:(apply in_seq; lia)). by apply bool_decide_eq_true in Hall.
Qed.

Lemma filter_pad body k : Forall is_digit body -> filter (fun c => c <> pad) (body ++ repeat pad k) = body.
Proof.
  intros H. rewrite filter_app. assert (filter (fun c => c <> pad) (repeat pad k) = []) as ->.
  { induction k as [|k IH]; [done|]. cbn [repeat]. rewrite filter_cons_False; [done|]. by intros []. }
  rewrite app_nil_r. induction H as [|c l Hc _ IH]; [done|]. apply url_digit in Hc as (_ & Hp & _). by rewrite filter_cons_True, IH.
Qed.

Lemma RawDecodeEncode s : RawURLDecode (RawURLEncode s) = Some s.
Proof.
  unfold RawURLDecode, RawURLEncode. rewrite list_ascii_of_string_of_list_ascii.
  pose proof (decode_encode (list_ascii_of_string s)) as [E _]. destruct (encode_shape (list_ascii_of_string s)) as (body & k & Es & Hb & Hk).
  rewrite Es in E |- *. rewrite filter_pad by done.
  assert (filter (fun c => negb (line_break c)) (map to_url body) = map to_url body) as ->.
  { clear -Hb. induction Hb as [|c l Hc _ IH]; [done|]. apply url_digit in Hc as (_ & _ & Hl & _). cbn [map].
    rewrite filter_cons_True; [by rewrite IH|]. by rewrite Hl. }
  assert (mapM of_url (map to_url body) = Some body) as ->.
  { apply mapM_Some. clear -Hb. induction Hb as [|c l Hc _ IH]; cbn [map]; constructor; [by apply url_digit in Hc as [? _]|done]. }
  cbn [mbind option_bind].
  apply elem_of_cons in Hk as [[Hm ->]%pair_equal_spec|Hk];
    [|apply elem_of_cons in Hk as [[Hm ->]%pair_equal_spec|[Hm ->]%list_elem_of_singleton%pair_equal_spec]];
    cbn [repeat] in E; rewrite ?app_nil_r in E; rewrite Hm, E; cbn; by rewrite string_of_list_ascii_of_string.
Qed.

Lemma RawURL_dotless s : contains_byte "." (RawURLEncode s) = false.
Proof.
  unfold RawURLEncode. destruct (encode_shape (list_ascii_of_string s)) as (body & k & -> & Hb & _). rewrite filter_pad by done.
  induction Hb as [|c l Hc _ IH]; [done|]. cbn [map string_of_list_ascii contains_byte]. apply url_digit in Hc as (_ & _ & _ & Hd).
  rewrite IH, orb_false_r. by apply Ascii.eqb_neq.
Qed.
