(* ===== verification/Secrets.v ===== *)
(** * Encryption of stored secrets

    [pkg/crypto] (master key, one key per record, AES-GCM in base64) and the credentials of
    [service/credential.go].  Argon2id, HKDF and AES-GCM are the parameters [Primitives]:
    what the code relies on is [PrimitivesOk], that a sealed text opens to itself and only
    under the key and the associated data it was sealed with, and that keys are 32 bytes. *)

From S2P Require Import Prelude GoStrings Text Base64 NetIP Servers.

(** ** Associated data *)

Definition quote : ascii := byte 34.
Definition hex_digits : list ascii := list_ascii_of_string "0123456789abcdef".
Definition hex_of (n : nat) : ascii := default "0"%char (hex_digits !! n).

(** What [encoding/json] writes for one decoded rune of a string. *)
Definition escape_byte (n : nat) : option string :=
  if bool_decide (n ∈ [34; 92]%nat) then Some (String "\" (String (byte n) ""))
  else match n with
       | 8%nat => Some "\b" | 12%nat => Some "\f" | 10%nat => Some "\n" | 13%nat => Some "\r" | 9%nat => Some "\t"
       | _ => if (n <? 32)%nat || bool_decide (n ∈ [38; 60; 62]%nat)
              then Some ("\u00" +:+ String (hex_of (n / 16)) (String (hex_of (n mod 16)) "")) else None
       end.
Definition line_separator (last : nat) : string := String (byte 226) (String (byte 128) (String (byte last) "")).
Definition escape (s : string) : option string :=
  match s with
  | String a "" => escape_byte (nat_of_ascii a)
  | _ => if bool_decide (s = line_separator 168) then Some "\u2028"
         else if bool_decide (s = line_separator 169) then Some "\u2029" else None
  end.
Definition json_item (i : item) : string :=
  match i with Good s => default s (escape s) | Invalid _ => "\ufffd" end.
Definition json_string (s : string) : string :=
  String quote (goods (map json_item (items s)) +:+ String quote "").

Definition aad_of (purpose field : string) : string :=
  "[" +:+ json_string "talus/secret/v2" +:+ "," +:+ json_string purpose +:+ "," +:+ json_string field +:+ "]".

(** ** Keys and ciphers *)

Class Primitives := {
  argon2 : string -> string -> string;
  hkdf : string -> string -> string -> string;
  seal : string -> string -> string -> string -> string;
  gcm_open : string -> string -> string -> string -> option string }.

Class PrimitivesOk (P : Primitives) := {
  argon2_len raw salt : len (argon2 raw salt) = 32;
  hkdf_len raw salt info : len (hkdf raw salt info) = 32;
  open_seal k n a p : gcm_open k n a (seal k n a p) = Some p;
  open_only k n a p k' a' p' : gcm_open k' n a' (seal k n a p) = Some p' -> k' = k /\ a' = a }.

Inductive secret_err :=
| BadMasterKey | BadPurpose | BadSaltLength | BadVersion | BadBase64 | BadKeySize | TooShort | NotAuthentic | NoRandomness.

Definition PurposeSSH : string := "ssh".
Definition PurposeService : string := "service".
Definition PurposeSOCKS5 : string := "socks5".
Definition PurposeAPIKey : string := "api-key".
Definition PurposeAgent : string := "agent".
Definition purposes : list string := [PurposeSSH; PurposeService; PurposeSOCKS5; PurposeAPIKey; PurposeAgent].
Definition SaltSize : Z := 16.
Definition NonceSize : Z := 12.
Definition legacySalt : string := "efda83ecbe626ad00c2e".

(** [NewMasterKey]: the bytes of the hexadecimal key. *)
Definition hex_value (c : ascii) : nat :=
  let n := nat_of_ascii c in
  (if n <? 58 then n - 48 else if n <? 71 then n - 55 else n - 87)%nat.
Fixpoint hex_bytes (s : string) : string :=
  match s with
  | String a (String b s) => String (ascii_of_nat (16 * hex_value a + hex_value b)) (hex_bytes s)
  | _ => ""
  end.
Definition NewMasterKey (hexKey : string) : result secret_err string :=
  if negb (hex_ok hexKey) then Err BadMasterKey
  else if len (hex_bytes hexKey) <? 32 then Err BadMasterKey else Ok (hex_bytes hexKey).

Record RecordCipher := MkCipher { rc_key : string; rc_version : Z; rc_purpose : string }.

Section crypto.
Context `{P : Primitives}.

Definition DeriveKey (raw salt : string) : string := argon2 raw salt.
Definition LegacyDeriveKey (raw : string) : string := argon2 raw legacySalt.

Definition ForRecord (raw : string) (version : Z) (salt purpose : string) : result secret_err RecordCipher :=
  if negb (bool_decide (purpose ∈ purposes)) then Err BadPurpose
  else if version =? VersionLegacy then
    Ok (MkCipher (if bool_decide (purpose = PurposeSSH) && bool_decide (salt = "") then LegacyDeriveKey raw else DeriveKey raw salt)
          version purpose)
  else if version =? VersionCurrent then
    if negb (len salt =? SaltSize) then Err BadSaltLength
    else Ok (MkCipher (hkdf raw salt ("talus/secret/v2/" +:+ purpose)) version purpose)
  else Err BadVersion.

Definition aad (c : RecordCipher) (field : string) : string :=
  if rc_version c =? VersionLegacy then "" else aad_of (rc_purpose c) field.

Definition aes_key_size (key : string) : bool := bool_decide (len key ∈ [16; 24; 32]).

(** [nonce]: what the random source gives, [None] when it fails. *)
Definition encryptAAD (nonce : option string) (plaintext key ad : string) : result secret_err string :=
  if negb (aes_key_size key) then Err BadKeySize
  else match nonce with
       | None => Err NoRandomness
       | Some nonce => Ok (EncodeToString (nonce +:+ seal key nonce ad plaintext))
       end.
Fixpoint str_drop (n : nat) (s : string) : string :=
  match n, s with S n, String _ s => str_drop n s | _, _ => s end.
Definition decryptAAD (encoded key ad : string) : result secret_err string :=
  match DecodeString encoded with
  | None => Err BadBase64
  | Some data =>
      if negb (aes_key_size key) then Err BadKeySize
      else if len data <? NonceSize then Err TooShort
      else match gcm_open key (str_take 12 data) ad (str_drop 12 data) with
           | Some plaintext => Ok plaintext
           | None => Err NotAuthentic
           end
  end.

Definition Encrypt (c : RecordCipher) (nonce : option string) (field plaintext : string) : result secret_err string :=
  encryptAAD nonce plaintext (rc_key c) (aad c field).
Definition Decrypt (c : RecordCipher) (field encoded : string) : result secret_err string :=
  decryptAAD encoded (rc_key c) (aad c field).

(** ** Credentials *)

Inductive cred_err := Invalid_input | Crypto (e : secret_err).
Definition lift {A} (r : result secret_err A) : result cred_err A :=
  match r with Ok x => Ok x | Err e => Err (Crypto e) end.

Record CreateCredentialInput := CreateInput { ci_auth : string; ci_user : string; ci_password : string; ci_key : string }.

(** The row is stored under [id] at [now]; [salt] and [nonce] are the random bytes. *)
Definition Create (raw : string) (i : CreateCredentialInput) (salt nonce : option string) (id : Z) (now : time) :
    result cred_err SSHCredential :=
  if negb (bool_decide (ci_auth i = "password")) && negb (bool_decide (ci_auth i = "private_key")) then Err Invalid_input
  else if bool_decide (ci_user i = "") then Err Invalid_input
  else match salt with
       | None => Err (Crypto NoRandomness)
       | Some salt =>
           try cipher := lift (ForRecord raw VersionCurrent salt PurposeSSH) in
           if bool_decide (ci_auth i = "password") then
             if bool_decide (ci_password i = "") then Err Invalid_input
             else try encrypted := lift (Encrypt cipher nonce "password" (ci_password i)) in
                  Ok (MkCred id VersionCurrent (ci_auth i) (ci_user i) (Some encrypted) None salt now false)
           else
             if bool_decide (ci_key i = "") then Err Invalid_input
             else try encrypted := lift (Encrypt cipher nonce "private_key" (ci_key i)) in
                  Ok (MkCred id VersionCurrent (ci_auth i) (ci_user i) None (Some encrypted) salt now false)
       end.

Definition given (o : option string) : option string :=
  match o with Some v => if bool_decide (v = "") then None else Some v | None => None end.

Definition with_password (encrypted : string) (c : SSHCredential) : SSHCredential :=
  MkCred (cr_id c) (cr_version c) "password" (Username c) (Some encrypted) None (cr_salt c) (UpdatedAt c) (cr_deleted c).
Definition with_key (encrypted : string) (c : SSHCredential) : SSHCredential :=
  MkCred (cr_id c) (cr_version c) "private_key" (Username c) None (Some encrypted) (cr_salt c) (UpdatedAt c) (cr_deleted c).

Definition Update (raw : string) (c : SSHCredential) (username password key : option string)
    (salt nonce1 nonce2 : option string) (now : time) : result cred_err SSHCredential :=
  let user := default (Username c) username in
  match given password, given key with
  | None, None =>
      Ok (MkCred (cr_id c) (cr_version c) (AuthType c) user (cr_password c) (cr_key c) (cr_salt c) now (cr_deleted c))
  | password, key =>
      match salt with
      | None => Err (Crypto NoRandomness)
      | Some salt =>
          let c := MkCred (cr_id c) VersionCurrent (AuthType c) user (cr_password c) (cr_key c) salt now (cr_deleted c) in
          try cipher := lift (ForRecord raw VersionCurrent salt PurposeSSH) in
          try c := match password with
                   | Some p => try e := lift (Encrypt cipher nonce1 "password" p) in Ok (with_password e c)
                   | None => Ok c
                   end in
          match key with
          | Some k => try e := lift (Encrypt cipher nonce2 "private_key" k) in Ok (with_key e c)
          | None => Ok c
          end
      end
  end.

Record secret_view := Revealed { rv_user : string; rv_password : string; rv_key : string }.

Definition decryptCredential (raw : string) (c : SSHCredential) : result cred_err secret_view :=
  try cipher := lift (ForRecord raw (cr_version c) (cr_salt c) PurposeSSH) in
  match bool_decide (AuthType c = "password"), cr_password c, bool_decide (AuthType c = "private_key"), cr_key c with
  | true, Some encoded, _, _ =>
      try plaintext := lift (Decrypt cipher "password" encoded) in Ok (Revealed (Username c) plaintext "")
  | _, _, true, Some encoded =>
      try plaintext := lift (Decrypt cipher "private_key" encoded) in Ok (Revealed (Username c) "" plaintext)
  | _, _, _, _ => Err Invalid_input
  end.

(** [Reveal] of a stored credential: whatever ciphertexts it has. *)
Definition Reveal (raw : string) (c : SSHCredential) : result cred_err secret_view :=
  try cipher := lift (ForRecord raw (cr_version c) (cr_salt c) PurposeSSH) in
  try password := match given (cr_password c) with
                  | Some encoded => lift (Decrypt cipher "password" encoded) | None => Ok "" end in
  try key := match given (cr_key c) with
             | Some encoded => lift (Decrypt cipher "private_key" encoded) | None => Ok "" end in
  Ok (Revealed (Username c) password key).
End crypto.

(** ** Associated data is unambiguous *)

Lemma str_app_assoc (a b c : string) : (a +:+ b) +:+ c = a +:+ (b +:+ c).
Proof. by rewrite String_app_assoc. Qed.

(** The runes that are escaped, with their escapes; no escape is a prefix of another. *)
Definition escape_table : list (string * string) :=
  omap (fun x => (fun e => (x, e)) <$> escape x)
    (map (fun n => String (byte n) "") (seq 0 256) ++ [line_separator 168; line_separator 169]).

Lemma escape_in_table x e : escape x = Some e -> (x, e) ∈ escape_table.
Proof.
  intros H. apply list_elem_of_omap. exists x. rewrite H. split; [|done]. apply elem_of_app.
  destruct x as [|a [|b x]]; [done| |].
  - left. apply list_elem_of_fmap. exists (nat_of_ascii a). unfold byte. rewrite ascii_nat_embedding. split; [done|].
    pose proof (nat_ascii_bounded a). apply list_elem_of_In, in_seq. lia.
  - right. cbn [escape] in H. case_bool_decide as E1; [rewrite E1; left|]. case_bool_decide as E2; [rewrite E2; right; left|done].
Qed.

Lemma table_unique : Forall (fun p => Forall (fun q => String.prefix p.2 q.2 = true -> p = q) escape_table) escape_table.
Proof.
  assert (forallb (fun p => forallb (fun q => negb (String.prefix p.2 q.2) || bool_decide (p = q)) escape_table) escape_table = true) as H
    by (vm_compute; reflexivity).
  apply Forall_forall. intros p Hp. apply Forall_forall. intros q Hq Hpre.
  rewrite forallb_forall in H. apply list_elem_of_In in Hp, Hq. specialize (H p Hp). rewrite forallb_forall in H. specialize (H q Hq).
  rewrite Hpre in H. cbn in H. by apply bool_decide_eq_true in H.
Qed.

Lemma table_backslash : Forall (fun p => exists r, p.2 = String "\" r) escape_table.
Proof.
  assert (forallb (fun p => match p.2 with String "\" _ => true | _ => false end) escape_table = true) as H by (vm_compute; reflexivity).
  apply Forall_forall. intros p Hp. rewrite forallb_forall in H. apply list_elem_of_In in Hp. specialize (H p Hp).
  destruct p.2 as [|c r]; [done|]. exists r. f_equal. destruct (ascii_dec c "\"); [done|]. by destruct c as [[] [] [] [] [] [] [] []].
Qed.

Lemma prefix_app (a b c d : string) : a +:+ b = c +:+ d -> String.prefix a c = true \/ String.prefix c a = true.
Proof.
  revert c. induction a as [|x a IH]; intros [|y c] E; try (by left); try (by right). cbn in E. injection E as -> E. cbn.
  destruct (ascii_dec y y) as [_|]; [|done]. by apply IH.
Qed.

Lemma app_inj_r (a b c : string) : a +:+ b = a +:+ c -> b = c.
Proof. induction a as [|x a IH]; [done|]. cbn. intros [= E]. by apply IH. Qed.

Lemma chunk_head x : chunk x -> escape x = None -> exists a r, x = String a r /\ a <> "\"%char /\ a <> quote.
Proof.
  intros Hc He. destruct x as [|a r]; [by inversion Hc|]. exists a, r. split; [done|].
  assert (forall c, a = c -> lead_of c = Lead1 -> r = "") as Hone by (intros c -> Hl; inversion Hc; congruence).
  split; intros E; rewrite (Hone _ E eq_refl), E in He; vm_compute in He; discriminate He.
Qed.

Lemma item_unique x y r s :
  chunk x -> chunk y -> json_item (Good x) +:+ r = json_item (Good y) +:+ s -> x = y /\ r = s.
Proof.
  intros Hx Hy E. cbn [json_item] in E.
  pose proof table_unique as Ht. rewrite Forall_forall in Ht. pose proof table_backslash as Hb. rewrite Forall_forall in Hb.
  destruct (escape x) as [ex|] eqn:Ex, (escape y) as [ey|] eqn:Ey; cbn [default] in E; unfold Datatypes.id in E.
  - apply escape_in_table in Ex, Ey. pose proof (Ht _ Ex) as H1. pose proof (Ht _ Ey) as H2. rewrite Forall_forall in H1, H2.
    destruct (prefix_app _ _ _ _ E) as [H|H]; [specialize (H1 _ Ey H)|specialize (H2 _ Ex H)]; simplify_eq; done.
  - apply escape_in_table in Ex. destruct (Hb _ Ex) as [t Et]. cbn in Et. destruct (chunk_head y Hy Ey) as (a & u & -> & Ha & _).
    rewrite Et in E. cbn in E. congruence.
  - apply escape_in_table in Ey. destruct (Hb _ Ey) as [t Et]. cbn in Et. destruct (chunk_head x Hx Ex) as (a & u & -> & Ha & _).
    rewrite Et in E. cbn in E. congruence.
  - apply (f_equal items) in E as Ei. rewrite !chunk_items in Ei by done. injection Ei as -> _. by apply app_inj_r in E.
Qed.

Lemma item_not_quote x r s : chunk x -> json_item (Good x) +:+ r <> String quote s.
Proof.
  intros Hx. cbn [json_item]. destruct (escape x) as [e|] eqn:Ex; cbn [default]; unfold Datatypes.id.
  - apply escape_in_table in Ex. pose proof table_backslash as Hb. rewrite Forall_forall in Hb. destruct (Hb _ Ex) as [t Et].
    cbn in Et. rewrite Et. done.
  - destruct (chunk_head x Hx Ex) as (a & u & -> & _ & Ha). cbn. congruence.
Qed.

Lemma json_body_unique l k r s :
  Forall chunk l -> Forall chunk k ->
  goods (map json_item (map Good l)) +:+ String quote r = goods (map json_item (map Good k)) +:+ String quote s ->
  l = k /\ r = s.
Proof.
  intros Hl. revert k. induction Hl as [|x l Hx _ IH]; intros k [|y k' Hy Hk] E; cbn [map goods] in E.
  - cbn in E. by injection E.
  - rewrite <- String_app_assoc in E. by apply eq_sym, item_not_quote in E.
  - rewrite <- String_app_assoc in E. by apply item_not_quote in E.
  - rewrite <- !String_app_assoc in E. apply item_unique in E as [-> E]; [|done..]. destruct (IH k' Hk E) as [-> ?]. done.
Qed.

Lemma json_string_unique a b r s :
  ValidString a = true -> ValidString b = true -> json_string a +:+ r = json_string b +:+ s -> a = b /\ r = s.
Proof.
  intros (l & Hl & -> & Il)%valid_chunks (k & Hk & -> & Ik)%valid_chunks. unfold json_string. rewrite Il, Ik. cbn [String.append].
  rewrite !str_app_assoc. cbn [String.append]. intros [= E]. by apply json_body_unique in E as [-> ?].
Qed.

Lemma purposes_valid : Forall (fun p => ValidString p = true) purposes.
Proof. repeat constructor. Qed.

(** The associated data determines purpose and field, whatever valid UTF-8 the field is. *)
Lemma aad_of_inj p f p' f' :
  p ∈ purposes -> p' ∈ purposes -> ValidString f = true -> ValidString f' = true -> aad_of p f = aad_of p' f' -> p = p' /\ f = f'.
Proof.
  intros Hp Hp' Hf Hf' E. pose proof purposes_valid as Hv. rewrite Forall_forall in Hv. unfold aad_of in E.
  apply app_inj_r in E. rewrite !String_app_assoc in E. rewrite !str_app_assoc in E.
  apply json_string_unique in E as [_ E]; [|done..]. apply app_inj_r in E.
  apply json_string_unique in E as [-> E]; [|by apply Hv..]. apply app_inj_r in E.
  by apply json_string_unique in E as [-> _].
Qed.

Lemma aad_of_nonempty p f : aad_of p f <> "".
Proof. done. Qed.

(** ** Records *)

Section laws.
Context `{POk : PrimitivesOk}.

Lemma ForRecord_spec raw v salt purpose c :
  ForRecord raw v salt purpose = Ok c ->
  purpose ∈ purposes /\ rc_version c = v /\ rc_purpose c = purpose /\ len (rc_key c) = 32 /\
  (v = VersionLegacy \/ v = VersionCurrent /\ len salt = SaltSize).
Proof.
  unfold ForRecord. case_bool_decide as Hp; [|done]. cbn [negb]. destruct (v =? VersionLegacy) eqn:E1.
  - intros [= <-]. bools. split_and!; try done; [|by left]. destruct (_ && _); apply argon2_len.
  - destruct (v =? VersionCurrent) eqn:E2; [|done]. destruct (len salt =? SaltSize) eqn:E3; [|done]. intros [= <-]. bools.
    split_and!; try done; [apply hkdf_len|by right].
Qed.

Lemma ForRecord_current raw salt purpose :
  purpose ∈ purposes -> len salt = SaltSize -> exists c, ForRecord raw VersionCurrent salt purpose = Ok c.
Proof. intros Hp Hs. unfold ForRecord. rewrite bool_decide_eq_true_2, Hs by done. cbn. eauto. Qed.

Lemma str_take_drop n a b : String.length a = n -> str_take n (a +:+ b) = a /\ str_drop n (a +:+ b) = b.
Proof.
  intros <-. induction a as [|x a [IH1 IH2]]; cbn; [by destruct b|]. by rewrite IH1, IH2.
Qed.

Lemma encrypt_ok c nonce field p :
  len (rc_key c) = 32 -> Encrypt c (Some nonce) field p = Ok (EncodeToString (nonce +:+ seal (rc_key c) nonce (aad c field) p)).
Proof. intros Hk. unfold Encrypt, encryptAAD, aes_key_size. by rewrite Hk. Qed.

Lemma decrypt_sealed c field nonce k a p :
  len (rc_key c) = 32 -> len nonce = NonceSize ->
  Decrypt c field (EncodeToString (nonce +:+ seal k nonce a p)) =
    match gcm_open (rc_key c) nonce (aad c field) (seal k nonce a p) with Some p' => Ok p' | None => Err NotAuthentic end.
Proof.
  intros Hk Hn. unfold Decrypt, decryptAAD, aes_key_size. rewrite DecodeEncode, Hk. cbn [negb bool_decide].
  rewrite bool_decide_eq_true_2 by (right; right; left). cbn [negb]. rewrite len_app, Hn.
  assert ((NonceSize + len (seal k nonce a p) <? NonceSize) = false) as -> by (apply Z.ltb_ge; unfold len; lia).
  destruct (str_take_drop 12 nonce (seal k nonce a p)) as [-> ->]; [unfold len, NonceSize in Hn; lia|done].
Qed.

Lemma encrypt_decrypt c nonce field p e :
  len (rc_key c) = 32 -> len nonce = NonceSize -> Encrypt c (Some nonce) field p = Ok e -> Decrypt c field e = Ok p.
Proof. intros Hk Hn. rewrite encrypt_ok by done. intros [= <-]. by rewrite decrypt_sealed, open_seal. Qed.

(** C24: A secret is readable exactly as the field it was written as.  What [Encrypt] stores
    for a field of a record decrypts under that record's cipher to the same text, and no
    cipher -- of whatever master key, version, salt or purpose -- decrypts it as anything
    unless it is a current cipher with the same key and purpose and the field is the same.
    Fields are UTF-8 (of others the JSON would keep only a replacement), and that a sealed
    text opens under no other key or associated data is the cipher's law.  The associated data is the
    JSON of purpose and field, so it is the escaping of that text that is shown injective. *)
Theorem secret_bound_to_field raw salt purpose c nonce field p :
  ForRecord raw VersionCurrent salt purpose = Ok c -> len nonce = NonceSize -> ValidString field = true ->
  exists e, Encrypt c (Some nonce) field p = Ok e /\ Decrypt c field e = Ok p /\
    forall raw' version salt' purpose' c' field' p', ForRecord raw' version salt' purpose' = Ok c' -> ValidString field' = true ->
      Decrypt c' field' e = Ok p' ->
      version = VersionCurrent /\ purpose' = purpose /\ field' = field /\ rc_key c' = rc_key c /\ p' = p.
Proof.
  intros Hc Hn Hf. destruct (ForRecord_spec _ _ _ _ _ Hc) as (Hp & Ev & Ep & Hk & _).
  exists (EncodeToString (nonce +:+ seal (rc_key c) nonce (aad c field) p)). split; [by apply encrypt_ok|].
  split; [by rewrite decrypt_sealed, open_seal|].
  intros raw' v salt' purpose' c' field' p' Hc' Hf' Hd. destruct (ForRecord_spec _ _ _ _ _ Hc') as (Hp' & Ev' & Ep' & Hk' & Hv).
  rewrite decrypt_sealed in Hd by done.
  destruct (gcm_open _ _ _ _) as [p''|] eqn:Eo; [|done]. injection Hd as ->.
  destruct (open_only _ _ _ _ _ _ _ Eo) as [Ek Ea]. unfold aad in Ea. rewrite Ev, Ev', Ep, Ep' in Ea.
  change (VersionCurrent =? VersionLegacy) with false in Ea. cbv iota in Ea.
  destruct Hv as [->|[-> _]]; [by apply eq_sym, aad_of_nonempty in Ea|].
  change (VersionCurrent =? VersionLegacy) with false in Ea. cbv iota in Ea. apply aad_of_inj in Ea as [-> ->]; [|done..].
  split_and!; try done. assert (aad c' field = aad c field) as Ea' by (unfold aad; by rewrite Ev, Ev', Ep, Ep').
  rewrite Ek, Ea', open_seal in Eo. congruence.
Qed.

(** ** Credentials *)

Lemma given_Some o v : given o = Some v <-> o = Some v /\ v <> "".
Proof.
  unfold given. destruct o as [w|]; [|by split; [|intros [? _]]]. case_bool_decide as E; split; try done;
    [intros [[= ->] ?]; done|by intros [= ->]|by intros [[= ->] _]].
Qed.

(** Editing a credential keeps exactly one secret readable: the new one.  A created
    credential decrypts to the user and the password or key it was created with; after an
    edit it decrypts to the new key if one was given, else to the new password, else (an
    edit of the user name alone, or empty secrets) to what it decrypted to before, under
    the new user name.  Only the randomness can make such an edit fail. *)
Theorem credential_roundtrip raw i salt nonce id now c :
  len salt = SaltSize -> len nonce = NonceSize -> Create raw i (Some salt) (Some nonce) id now = Ok c ->
  decryptCredential raw c =
    Ok (if bool_decide (ci_auth i = "password") then Revealed (ci_user i) (ci_password i) ""
        else Revealed (ci_user i) "" (ci_key i)) /\
  forall c0 view username password key salt' nonce1 nonce2 now',
    decryptCredential raw c0 = Ok view -> len salt' = SaltSize -> len nonce1 = NonceSize -> len nonce2 = NonceSize ->
    exists c1, Update raw c0 username password key (Some salt') (Some nonce1) (Some nonce2) now' = Ok c1 /\
      decryptCredential raw c1 =
        Ok (let user := default (Username c0) username in
            match given key, given password with
            | Some k, _ => Revealed user "" k
            | None, Some p => Revealed user p ""
            | None, None => Revealed user (rv_password view) (rv_key view)
            end).
Proof.
  intros Hs Hn Hc. destruct (ForRecord_current raw salt PurposeSSH ltac:(left) Hs) as [cipher Hcipher].
  destruct (ForRecord_spec _ _ _ _ _ Hcipher) as (_ & _ & _ & Hk & _). split.
  - unfold Create in Hc. destruct (_ && _) eqn:Ea in Hc; [done|]. destruct (bool_decide (ci_user i = "")); [done|]. rewrite Hcipher in Hc. cbn [lift] in Hc.
    destruct (bool_decide (ci_auth i = "password")) eqn:Ep; cbn in Ea.
    + destruct (bool_decide (ci_password i = "")); [done|]. rewrite encrypt_ok in Hc by done. injection Hc as <-.
      unfold decryptCredential. cbn. rewrite Hcipher. cbn [lift]. rewrite Ep.
      by rewrite (encrypt_decrypt cipher nonce _ (ci_password i) _ Hk Hn (encrypt_ok _ _ _ _ Hk)).
    + destruct (bool_decide (ci_key i = "")); [done|]. rewrite encrypt_ok in Hc by done. injection Hc as <-.
      apply negb_false_iff in Ea. unfold decryptCredential. cbn. rewrite Hcipher. cbn [lift]. rewrite Ep, Ea.
      by rewrite (encrypt_decrypt cipher nonce _ (ci_key i) _ Hk Hn (encrypt_ok _ _ _ _ Hk)).
  - intros c0 view username password key salt' n1 n2 now' H0 Hs' H1 H2. clear Hcipher Hk cipher.
    destruct (ForRecord_current raw salt' PurposeSSH ltac:(left) Hs') as [cipher Hcipher].
    destruct (ForRecord_spec _ _ _ _ _ Hcipher) as (_ & _ & _ & Hk & _). unfold Update.
    destruct (given password) as [p|], (given key) as [k|]; rewrite ?Hcipher; cbn [lift];
      rewrite ?encrypt_ok by done; cbn [lift]; (eexists; split; [reflexivity|]); unfold decryptCredential; cbn;
      rewrite ?Hcipher; cbn [lift].
    + by rewrite (encrypt_decrypt cipher n2 _ k _ Hk H2 (encrypt_ok _ _ _ _ Hk)).
    + by rewrite (encrypt_decrypt cipher n1 _ p _ Hk H1 (encrypt_ok _ _ _ _ Hk)).
    + by rewrite (encrypt_decrypt cipher n2 _ k _ Hk H2 (encrypt_ok _ _ _ _ Hk)).
    + unfold decryptCredential in H0. destruct (ForRecord raw (cr_version c0) _ _) as [c'|]; [|done]. cbn [lift] in *.
      destruct (bool_decide (AuthType c0 = "password")), (cr_password c0) as [x|], (bool_decide (AuthType c0 = "private_key")), (cr_key c0) as [y|];
        try done; (destruct (Decrypt c' _ _) as [t|]; [|done]); cbn in *; injection H0 as <-; done.
Qed.
End laws.

(** ** An instance of the primitives

    Not a cipher: it shows that the laws can hold. *)

Fixpoint frame (s : string) : string :=
  match s with String c s => String "1" (String c (frame s)) | "" => "0" end.
Fixpoint strip (p s : string) : option string :=
  match p, s with
  | "", _ => Some s
  | String a p, String b s => if ascii_dec a b then strip p s else None
  | _, "" => None
  end.
Definition box (k n a : string) : string := frame k +:+ (frame n +:+ frame a).
Definition pad32 (s : string) : string := str_take 32 (s +:+ "................................").

Lemma frame_inj a b r s : frame a +:+ r = frame b +:+ s -> a = b /\ r = s.
Proof.
  revert b. induction a as [|x a IH]; intros [|y b]; cbn; intros [=]; [done|]. subst. edestruct IH as [-> ?]; eauto.
Qed.

Lemma strip_Some p s r : strip p s = Some r <-> s = p +:+ r.
Proof.
  revert s. induction p as [|a p IH]; intros s; cbn; [split; congruence|]. destruct s as [|b s]; [done|].
  destruct (ascii_dec a b) as [->|]; [rewrite IH; split; congruence|split; [done|congruence]].
Qed.

Lemma pad32_len s : len (pad32 s) = 32.
Proof. unfold pad32, len. rewrite str_take_length, String_app_length, Nat.min_l; [done|]. cbn [String.length]. lia. Qed.

#[local] Instance toy : Primitives := {
  argon2 raw salt := pad32 (salt +:+ raw);
  hkdf raw salt info := pad32 (salt +:+ info +:+ raw);
  seal k n a p := box k n a +:+ p;
  gcm_open k n a c := strip (box k n a) c }.

#[local] Instance toy_ok : PrimitivesOk toy.
Proof.
  split; intros; cbn.
  - apply pad32_len.
  - apply pad32_len.
  - by apply strip_Some.
  - apply strip_Some in H. change (seal k n a p) with (box k n a +:+ p) in H. unfold box in H. rewrite !str_app_assoc in H.
    apply frame_inj in H as [-> H]. apply app_inj_r in H. apply frame_inj in H as [-> _]. done.
Qed.

Definition toy_key : string := "0123456789abcdef0123456789abcdef".
Definition toy_salt : string := "saltsaltsaltsalt".
Definition toy_nonce : string := "noncenonce12".

Lemma secret_bound_to_field_witness :
  exists c, ForRecord toy_key VersionCurrent toy_salt PurposeService = Ok c /\
    exists e, Encrypt c (Some toy_nonce) "api_key" "s3cret" = Ok e /\ Decrypt c "api_key" e = Ok "s3cret" /\
      forall raw' version salt' purpose' c' field' p', ForRecord raw' version salt' purpose' = Ok c' -> ValidString field' = true ->
        Decrypt c' field' e = Ok p' ->
        version = VersionCurrent /\ purpose' = PurposeService /\ field' = "api_key" /\ rc_key c' = rc_key c /\ p' = "s3cret".
Proof.
  eexists. split; [reflexivity|].
  apply (secret_bound_to_field toy_key toy_salt PurposeService _ toy_nonce "api_key" "s3cret"); reflexivity.
Defined.

Definition toy_input : CreateCredentialInput := CreateInput "password" "root" "pw" "".

Lemma credential_roundtrip_witness :
  exists c, Create toy_key toy_input (Some toy_salt) (Some toy_nonce) 7 1 = Ok c /\
    decryptCredential toy_key c = Ok (Revealed "root" "pw" "") /\
    exists c1, Update toy_key c None None (Some "key") (Some toy_salt) (Some toy_nonce) (Some toy_nonce) 2 = Ok c1 /\
      decryptCredential toy_key c1 = Ok (Revealed "root" "" "key").
Proof.
  eexists. split; [reflexivity|].
  edestruct (credential_roundtrip toy_key toy_input toy_salt toy_nonce 7 1) as [Hd Hu]; [reflexivity..|].
  split; [exact Hd|].
  exact (Hu _ _ None None (Some "key") toy_salt toy_nonce toy_nonce 2 Hd eq_refl eq_refl eq_refl).
Defined.
