(* ===== verification/Json.v ===== *)
(** * Reading what encoding/json writes

    Strings and integers as [encoding/json] decodes them from documents it encoded:
    [unquote] reads a string literal and [read_int] an integer in front of the rest of a
    document.  A string that is no UTF-8 is written, and so read back, with U+FFFD for each
    invalid byte ([to_utf8]).  The components take the decoder as a parameter with this
    behaviour as its law; this one shows that the law can hold. *)

From S2P Require Import Prelude GoStrings Text Base64 NetIP Servers Secrets.
From stdpp Require Import pretty.

(** ** UTF-8 *)

Lemma all_bytes_app p s t : all_bytes p (s +:+ t) = all_bytes p s && all_bytes p t.
Proof. induction s as [|a s IH]; [done|]. cbn. by rewrite IH, andb_assoc. Qed.

Lemma all_bytes_mono (p q : ascii -> bool) s : (forall a, p a = true -> q a = true) -> all_bytes p s = true -> all_bytes q s = true.
Proof. intros Hpq. induction s as [|a s IH]; [done|]. cbn. rewrite !andb_true_iff. intros [? ?]. auto. Qed.

Definition utf8_item (i : item) : string := match i with Good s => s | Invalid _ => replacement end.
Definition to_utf8 (s : string) : string := goods (map utf8_item (items s)).

Lemma to_utf8_valid s : ValidString s = true -> to_utf8 s = s.
Proof.
  intros (l & _ & -> & Hi)%valid_chunks. unfold to_utf8. rewrite Hi. clear Hi.
  induction l as [|x l IH]; [done|]. cbn. by rewrite IH.
Qed.

Definition seven_bit (a : ascii) : bool := (N_of_ascii a <=? 127)%N.

Lemma ascii_valid s : all_bytes seven_bit s = true -> ValidString s = true.
Proof.
  unfold ValidString. induction s as [|a s IH]; [done|]. cbn [all_bytes]. intros [Ha Hs]%andb_true_iff.
  assert (lead_of a = Lead1) as Hl.
  { unfold lead_of. assert (in_range 0 127 a = true) as ->; [|done]. unfold in_range. unfold seven_bit in Ha. by rewrite Ha, andb_true_r; apply N.leb_le; lia. }
  cbn [items]. rewrite Hl. cbn [forallb is_good]. auto.
Qed.

(** ** String literals *)

Definition hex_digit (a : ascii) : option N :=
  let n := N_of_ascii a in
  if ((48 <=? n) && (n <=? 57))%N then Some (n - 48)%N
  else if ((97 <=? n) && (n <=? 102))%N then Some (n - 87)%N
  else if ((65 <=? n) && (n <=? 70))%N then Some (n - 55)%N else None.
Definition hex4 (a b c d : ascii) : option N :=
  a ← hex_digit a; b ← hex_digit b; c ← hex_digit c; d ← hex_digit d; Some (((a * 16 + b) * 16 + c) * 16 + d)%N.

Definition bytes_of_N (l : list N) : string := string_of_list_ascii (ascii_of_N <$> l).
(** The encoding of a rune below U+10000; a surrogate is replaced. *)
Definition encode_rune (n : N) : string :=
  if (n <? 128)%N then bytes_of_N [n]
  else if (n <? 2048)%N then bytes_of_N [192 + n / 64; 128 + n mod 64]%N
  else if ((55296 <=? n) && (n <? 57344))%N then replacement
  else bytes_of_N [224 + n / 4096; 128 + n / 64 mod 64; 128 + n mod 64]%N.

Definition simple_escape (a : ascii) : option string :=
  match a with
  | "b" => Some (bytes_of_N [8%N]) | "f" => Some (bytes_of_N [12%N]) | "n" => Some (bytes_of_N [10%N])
  | "r" => Some (bytes_of_N [13%N]) | "t" => Some (bytes_of_N [9%N])
  | _ => if bool_decide (a ∈ [quote; "\"; "/"])%char then Some (String a "") else None
  end%char.

(** The literal after its opening quote: the string, and what follows the closing quote. *)
Fixpoint read_literal (s : string) : option (string * string) :=
  match s with
  | "" => None
  | String a r =>
      if bool_decide (a = quote) then Some ("", r)
      else if bool_decide (a = "\"%char) then
        match r with
        | String "u" (String w (String x (String y (String z r)))) =>
            n ← hex4 w x y z; p ← read_literal r; Some (encode_rune n +:+ p.1, p.2)
        | String e r => c ← simple_escape e; p ← read_literal r; Some (c +:+ p.1, p.2)
        | "" => None
        end
      else p ← read_literal r; Some (String a p.1, p.2)
  end.

Definition read_string (s : string) : option (string * string) :=
  match s with String a r => if bool_decide (a = quote) then read_literal r else None | "" => None end.
Definition unquote (raw : string) : option string :=
  match read_string raw with Some (s, "") => Some s | _ => None end.

Definition read_as (x : string) (o : option (string * string)) : option (string * string) := (fun p => (x +:+ p.1, p.2)) <$> o.

Lemma read_escaped x e r : (x, e) ∈ escape_table -> read_literal (e +:+ r) = read_as x (read_literal r).
Proof.
  assert (Forall (fun p => forall r, read_literal (p.2 +:+ r) = read_as p.1 (read_literal r)) escape_table) as H.
  { let t := eval vm_compute in escape_table in change escape_table with t.
    repeat constructor; intros s; cbn; by destruct (read_literal s). }
  rewrite Forall_forall in H. intros Hin. by apply (H (x, e)).
Qed.

Definition unescaped (a : ascii) : Prop := a <> quote /\ a <> "\"%char.
Lemma read_plain x r : Forall unescaped (list_ascii_of_string x) -> read_literal (x +:+ r) = read_as x (read_literal r).
Proof.
  induction x as [|a x IH]; cbn; intros H; [by destruct (read_literal r) as [[]|]|]. inversion H as [|? ? [H1 H2] H3]; subst.
  rewrite !bool_decide_eq_false_2 by done. rewrite IH by done. by destruct (read_literal r).
Qed.

Lemma high_plain a : (128 <= N_of_ascii a)%N -> unescaped a.
Proof. intros H. split; intros ->; vm_compute in H; by apply H. Qed.

Lemma in_range_spec lo hi c : in_range lo hi c = true <-> (lo <= N_of_ascii c <= hi)%N.
Proof. unfold in_range. rewrite andb_true_iff, !N.leb_le. done. Qed.

Lemma chunk_plain x : chunk x -> escape x = None -> Forall unescaped (list_ascii_of_string x).
Proof.
  intros Hc He. destruct (chunk_head x Hc He) as (a & r & -> & H1 & H2).
  assert (forall lo hi b, (128 <= lo)%N -> in_range lo hi b = true -> unescaped b) as Hr
    by (intros lo hi b Hlo [? ?]%in_range_spec; apply high_plain; lia).
  assert (forall c, continuation c = true -> unescaped c) as Hk by (intros c Hcc; by eapply Hr; [|exact Hcc]).
  assert (forall c lo hi, lead_of c = Lead3 lo hi \/ lead_of c = Lead4 lo hi -> (128 <= lo)%N) as Hl.
  { intros c lo hi [H|H]; unfold lead_of in H; repeat case_match; simplify_eq; lia. }
  constructor; [done|]. inversion Hc; subst; cbn; repeat (apply Forall_cons; split); try apply Forall_nil; eauto.
Qed.

Lemma read_item i r : well i -> read_literal (json_item i +:+ r) = read_as (utf8_item i) (read_literal r).
Proof.
  destruct i as [x|b]; cbn [well json_item utf8_item]; intros Hw.
  - destruct (escape x) as [e|] eqn:He; cbn [default]; unfold Datatypes.id; [by apply read_escaped, escape_in_table|].
    by apply read_plain, chunk_plain.
  - cbn. by destruct (read_literal r).
Qed.

Lemma items_well s : Forall well (items s).
Proof. apply (items_ind (fun _ its => Forall well its)); [constructor|intros; by constructor..]. Qed.

Lemma read_items l r : Forall well l -> read_literal (goods (map json_item l) +:+ String quote r) = Some (goods (map utf8_item l), r).
Proof.
  induction 1 as [|i l Hi _ IH]; [cbn; done|]. cbn [map goods]. rewrite <- String_app_assoc, read_item, IH by done. done.
Qed.

(** A string literal is read back, whatever follows it. *)
Lemma read_json_string s r : read_string (json_string s +:+ r) = Some (to_utf8 s, r).
Proof.
  unfold json_string, read_string. cbn [String.append]. rewrite bool_decide_eq_true_2 by done.
  rewrite <- String_app_assoc. cbn [String.append]. apply read_items, items_well.
Qed.

Lemma unquote_json_string s : unquote (json_string s) = Some (to_utf8 s).
Proof. unfold unquote. rewrite <- (app_nil_r_str (json_string s)), read_json_string. done. Qed.

(** ** Integers *)

Definition decimal (a : ascii) : bool := ((48 <=? N_of_ascii a) && (N_of_ascii a <=? 57))%N.
Fixpoint digit_span (s : string) : string * string :=
  match s with
  | String a r => if decimal a then let '(d, t) := digit_span r in (String a d, t) else ("", s)
  | "" => ("", "")
  end.
Definition read_int (s : string) : option (Z * string) :=
  match s with
  | String "-" r => let '(d, t) := digit_span r in (fun z => ((- z)%Z, t)) <$> ParseUint d
  | _ => let '(d, t) := digit_span s in (fun z => (z, t)) <$> ParseUint d
  end.

Definition ends_number (s : string) : bool := match s with String a _ => negb (decimal a) | "" => true end.

Lemma decimal_seven_bit a : decimal a = true -> seven_bit a = true.
Proof. unfold decimal, seven_bit. rewrite andb_true_iff, !N.leb_le. lia. Qed.

Lemma digit_span_app d t : all_bytes decimal d = true -> ends_number t = true -> digit_span (d +:+ t) = (d, t).
Proof.
  intros Hd Ht. induction d as [|a d IH]; cbn in *.
  - destruct t as [|b t]; [done|]. cbn in *. apply negb_true_iff in Ht. by rewrite Ht.
  - apply andb_true_iff in Hd as [-> Hd]. by rewrite IH.
Qed.

Lemma FormatUint_digits n : all_bytes decimal (FormatUint n) = true.
Proof.
  unfold FormatUint, pretty, pretty_N. case_decide; [done|]. assert (all_bytes decimal "" = true) as He by done. revert He. generalize "".
  generalize (Z.to_N n). intros x. induction (N.lt_wf_0 x) as [x _ IH]. intros s Hs.
  destruct (decide (0 < x)%N) as [Hx|Hx]; [|assert (x = 0)%N as -> by lia; by rewrite pretty_N_go_0].
  rewrite pretty_N_go_step by done. apply IH; [apply N.div_lt; lia|]. cbn [all_bytes]. rewrite Hs, andb_true_r.
  assert (x mod 10 < 10)%N as Hm by (by apply N.mod_lt). pose proof (pretty_N_char_digit _ Hm) as E.
  unfold decimal. rewrite E. revert Hm. generalize (x mod 10)%N. intros y Hy. apply andb_true_iff. rewrite !N.leb_le. lia.
Qed.

Lemma read_FormatInt z t : ends_number t = true -> read_int (FormatInt z +:+ t) = Some (z, t).
Proof.
  intros Ht. unfold FormatInt. destruct (z <? 0)%Z eqn:E; bools.
  - cbn. rewrite digit_span_app by (apply FormatUint_digits || done). rewrite ParseFormat by lia. cbn. by rewrite Z.opp_involutive.
  - pose proof (FormatUint_digits z) as Hd. pose proof (ParseFormat z E) as Hp.
    destruct (FormatUint z) as [|a d] eqn:Ez; [done|]. unfold read_int. cbn [String.append].
    assert (forall A (x y : A), (match a with "-"%char => x | _ => y end) = y) as Hm.
    { intros A x y. destruct (ascii_dec a "-"); [by subst|]. by destruct a as [[] [] [] [] [] [] [] []]. }
    rewrite Hm. change (String a (d +:+ t)) with (String a d +:+ t). rewrite digit_span_app by done. by rewrite Hp.
Qed.
