(* ===== verification/SecretMigration.v ===== *)
(** * Migration of stored secrets

    [repository/secret_migration.go]: at start every record with secrets is read with the
    key it was written with, and one still in the old format is rewritten under a key of
    its own.  Rows are read in pages of a hundred by increasing identifier and committed
    one by one; a row is written only if its secrets are still the ones that were read.
    The iteration over the fields of a record, which Go leaves in any order, is a map. *)

From S2P Require Import Prelude GoStrings Text Base64 Servers Secrets.

(** ** Tables *)

(** [COther]: a JSON value that is not an object of strings. *)
Inductive jsonb := CNull | CObject (m : gmap string string) | COther.
#[export] Instance jsonb_eq_dec : EqDecision jsonb.
Proof. solve_decision. Defined.

(** A row of any of the four tables; [others] are the columns the migration never names. *)
Record secretRow := MkSecretRow {
  CryptoVersion : Z; Salt : option string;
  EncryptedPassword : option string; EncryptedPrivateKey : option string;
  EncryptedCredentials : jsonb; EncryptedRawKey : option string; others : string }.
#[export] Instance secretRow_eq_dec : EqDecision secretRow.
Proof. solve_decision. Defined.

Inductive secretTable := SSHCredentials | Services | ServerConnectionConfigs | APIKeys.
#[export] Instance secretTable_eq_dec : EqDecision secretTable.
Proof. solve_decision. Defined.
#[export] Instance secretTable_countable : Countable secretTable.
Proof.
  refine (inj_countable (fun t => match t with SSHCredentials => 0 | Services => 1 | ServerConnectionConfigs => 2 | APIKeys => 3 end)
            (fun n => match n with 0 => Some SSHCredentials | 1 => Some Services | 2 => Some ServerConnectionConfigs | _ => Some APIKeys end) _).
  by intros [].
Defined.
Definition secretTables : list secretTable := [SSHCredentials; Services; ServerConnectionConfigs; APIKeys].
Definition purpose (t : secretTable) : string :=
  match t with
  | SSHCredentials => PurposeSSH | Services => PurposeService | ServerConnectionConfigs => PurposeSOCKS5 | APIKeys => PurposeAPIKey
  end.

Definition optional (k : string) (v : option string) : gmap string string :=
  match v with Some v => {[k := v]} | None => ∅ end.

(** The JSON the query builds of a row, decoded; [None]: not a map of strings. *)
Definition expression (t : secretTable) (r : secretRow) : option (gmap string string) :=
  match t with
  | SSHCredentials => Some (optional "password" (EncryptedPassword r) ∪ optional "private_key" (EncryptedPrivateKey r))
  | Services => match EncryptedCredentials r with CNull => Some ∅ | CObject m => Some m | COther => None end
  | ServerConnectionConfigs => Some (optional "password" (EncryptedPassword r))
  | APIKeys => Some (optional "raw_key" (given (EncryptedRawKey r)))
  end.

(** The columns the update sets. *)
Definition updates (t : secretTable) (salt : string) (fields : gmap string string) (r : secretRow) : secretRow :=
  let keep field old := match fields !! field with Some e => Some e | None => old end in
  match t with
  | SSHCredentials =>
      MkSecretRow VersionCurrent (Some salt) (keep "password" (EncryptedPassword r)) (keep "private_key" (EncryptedPrivateKey r))
        (EncryptedCredentials r) (EncryptedRawKey r) (others r)
  | Services =>
      MkSecretRow VersionCurrent (Some salt) (EncryptedPassword r) (EncryptedPrivateKey r) (CObject fields) (EncryptedRawKey r) (others r)
  | ServerConnectionConfigs =>
      MkSecretRow VersionCurrent (Some salt) (Some (default "" (fields !! "password"))) (EncryptedPrivateKey r)
        (EncryptedCredentials r) (EncryptedRawKey r) (others r)
  | APIKeys =>
      MkSecretRow VersionCurrent (Some salt) (EncryptedPassword r) (EncryptedPrivateKey r) (EncryptedCredentials r)
        (Some (default "" (fields !! "raw_key"))) (others r)
  end.

(** The identifiers of a table in order, and the page after one. *)
Definition table_ids (d : gmap (secretTable * Z) secretRow) (t : secretTable) : list Z :=
  merge_sort Z.le (omap (fun k : secretTable * Z => if decide (k.1 = t) then Some k.2 else None) (map_to_list d).*1).
Definition secretMigrationBatchSize : nat := 100.
Definition page (d : gmap (secretTable * Z) secretRow) (t : secretTable) (after : Z) : list (Z * secretRow) :=
  take secretMigrationBatchSize
    (omap (fun id => pair id <$> d !! (t, id)) (filter (fun id => after < id) (table_ids d t))).

(** ** One row *)

Inductive mig_err := SecretMigrationError (t : secretTable) (id : Z) (stage : string) | Cancelled | LockFailed | UnlockFailed.

(** All the results of a map, if none failed. *)
Definition oks {A} (m : gmap string (result secret_err A)) : option (gmap string A) :=
  if bool_decide (map_Forall (fun _ r => is_ok r = true) m)
  then Some (omap (fun r => match r with Ok x => Some x | Err _ => None end) m) else None.

(** The outside of a run: cancellation, failures of reads and writes, randomness. *)
Record world := World {
  cancelled_page : secretTable -> Z -> bool; cancelled_row : secretTable -> Z -> bool;
  read_fails : secretTable -> Z -> bool; write_fails : secretTable -> Z -> bool;
  rand_salt : secretTable -> Z -> option string; rand_nonce : secretTable -> Z -> string -> option string;
  locked : bool; unlocked : bool }.

Section migration.
Context `{P : Primitives} (master : string).

Definition decrypt_all (c : RecordCipher) (fields : gmap string string) : option (gmap string string) :=
  oks (map_imap (fun k e => Some (Decrypt c k e)) fields).

(** [Encrypt] of every field, each read back before it is used. *)
Definition encrypt_all (c : RecordCipher) (nonce : string -> option string) (plain : gmap string string) :
    result string (gmap string string) :=
  match oks (map_imap (fun k p => Some (Encrypt c (nonce k) k p)) plain) with
  | None => Err "encrypt"
  | Some fields =>
      if bool_decide (decrypt_all c fields = Some plain) then Ok fields else Err "verify"
  end.

(** The row [r] was read; [d] is the database when it is written. *)
Definition migrateSecretRow (w : world) (d : gmap (secretTable * Z) secretRow) (t : secretTable) (id : Z) (r : secretRow) : 
    result mig_err (gmap (secretTable * Z) secretRow * bool) :=
  let fail stage := Err (SecretMigrationError t id stage) in
  if negb (CryptoVersion r =? VersionLegacy) && negb (CryptoVersion r =? VersionCurrent) then fail "unsupported_version"
  else match expression t r with
  | None => fail "decode"
  | Some fields =>
      if bool_decide (fields = ∅) then Ok (d, false)
      else match ForRecord master (CryptoVersion r) (default "" (Salt r)) (purpose t) with
      | Err _ => fail "derive"
      | Ok old =>
          match decrypt_all old fields with
          | None => fail "decrypt"
          | Some plain =>
              if CryptoVersion r =? VersionCurrent then Ok (d, false)
              else match rand_salt w t id with
              | None => fail "random"
              | Some salt =>
                  match ForRecord master VersionCurrent salt (purpose t) with
                  | Err _ => fail "derive"
                  | Ok current =>
                      match encrypt_all current (rand_nonce w t id) plain with
                      | Err stage => fail stage
                      | Ok fields' =>
                          if write_fails w t id then fail "write"
                          else match d !! (t, id) with
                               | Some now =>
                                   if (CryptoVersion now =? CryptoVersion r) && bool_decide (Salt now = Salt r) &&
                                      bool_decide (expression t now = expression t r)
                                   then Ok (<[(t, id) := updates t salt fields' now]> d, true)
                                   else fail "concurrent_change"
                               | None => fail "concurrent_change"
                               end
                      end
                  end
              end
          end
      end
  end.

(** ** The run *)

Record SecretMigrationReport := Report { Checked : Z; Migrated : Z }.

(** What a part of the run leaves: the database, the report and the error. *)
Definition outcome : Type := gmap (secretTable * Z) secretRow * SecretMigrationReport * option mig_err.

Fixpoint migrate_rows (w : world) (t : secretTable) (rows : list (Z * secretRow)) (d : gmap (secretTable * Z) secretRow) (rep : SecretMigrationReport) : outcome :=
  match rows with
  | [] => (d, rep, None)
  | (id, r) :: rows =>
      if cancelled_row w t id then (d, rep, Some Cancelled)
      else match migrateSecretRow w d t id r with
           | Err e => (d, rep, Some e)
           | Ok (d, changed) =>
               migrate_rows w t rows d (Report (Checked rep + 1) (if changed then Migrated rep + 1 else Migrated rep))
           end
  end.

(** The paging loop; [None]: out of fuel. *)
Fixpoint migrate_table (fuel : nat) (w : world) (t : secretTable) (after : Z) (d : gmap (secretTable * Z) secretRow) (rep : SecretMigrationReport) : option outcome :=
  match fuel with
  | O => None
  | S fuel =>
      if cancelled_page w t after then Some (d, rep, Some Cancelled)
      else if read_fails w t after then Some (d, rep, Some (SecretMigrationError t after "read"))
      else match page d t after with
           | [] => Some (d, rep, None)
           | rows =>
               match migrate_rows w t rows d rep with
               | (d, rep, Some e) => Some (d, rep, Some e)
               | (d, rep, None) => migrate_table fuel w t (default after (last rows.*1)) d rep
               end
           end
  end.

Fixpoint migrate_tables (fuel : nat) (w : world) (ts : list secretTable) (d : gmap (secretTable * Z) secretRow) (rep : SecretMigrationReport) : option outcome :=
  match ts with
  | [] => Some (d, rep, None)
  | t :: ts =>
      match migrate_table fuel w t 0 d rep with
      | Some (d, rep, None) => migrate_tables fuel w ts d rep
      | o => o
      end
  end.

Definition MigrateSecrets (fuel : nat) (w : world) (d : gmap (secretTable * Z) secretRow) : option outcome :=
  if negb (locked w) then Some (d, Report 0 0, Some LockFailed)
  else '(d, rep, e) ← migrate_tables fuel w secretTables d (Report 0 0);
       Some (d, rep, match e with Some e => Some e | None => if unlocked w then None else Some UnlockFailed end).

(** One page per row and one more to see the end are enough. *)
Definition migration_fuel (d : gmap (secretTable * Z) secretRow) : nat := S (size d).

(** ** Reading *)

(** The secrets of a row in clear, read as the migration reads them. *)
Definition reveal (t : secretTable) (r : secretRow) : option (gmap string string) :=
  if negb (CryptoVersion r =? VersionLegacy) && negb (CryptoVersion r =? VersionCurrent) then None
  else
    fields ← expression t r;
    if bool_decide (fields = ∅) then Some ∅
    else match ForRecord master (CryptoVersion r) (default "" (Salt r)) (purpose t) with
         | Ok c => decrypt_all c fields
         | Err _ => None
         end.
Definition outdated (t : secretTable) (r : secretRow) : bool :=
  (CryptoVersion r =? VersionLegacy) && negb (bool_decide (expression t r = Some ∅)).

(** ** Results of maps *)

Lemma oks_Some {A} (m : gmap string (result secret_err A)) p : oks m = Some p <-> m = Ok <$> p.
Proof.
  unfold oks. split.
  - case_bool_decide as H; [|done]. intros [= <-]. apply map_eq. intros k. rewrite lookup_fmap, lookup_omap.
    destruct (m !! k) as [[x|e]|] eqn:E; [done| |done]. by apply H in E.
  - intros ->. rewrite bool_decide_eq_true_2.
    + f_equal. apply map_eq. intros k. rewrite lookup_omap, lookup_fmap. by destruct (p !! k).
    + intros k r. rewrite lookup_fmap. intros (x & _ & ->)%fmap_Some. done.
Qed.

Lemma decrypt_all_Some c fields plain :
  decrypt_all c fields = Some plain <-> forall k, Decrypt c k <$> fields !! k = Ok <$> plain !! k.
Proof.
  unfold decrypt_all. rewrite oks_Some. split.
  - intros E k. apply (f_equal (fun m => m !! k)) in E. rewrite map_lookup_imap, lookup_fmap in E. by destruct (fields !! k).
  - intros E. apply map_eq. intros k. rewrite map_lookup_imap, lookup_fmap, <- E. by destruct (fields !! k).
Qed.

Lemma decrypt_all_dom c fields plain : decrypt_all c fields = Some plain -> dom plain = dom fields.
Proof.
  rewrite decrypt_all_Some. intros E. apply set_eq. intros k. specialize (E k). rewrite !elem_of_dom.
  destruct (fields !! k), (plain !! k); try done; split; intros [? ?]; eauto; done.
Qed.

Lemma decrypt_nonempty c k p : Decrypt c k "" <> Ok p.
Proof. unfold Decrypt, decryptAAD. cbn. destruct (aes_key_size _); done. Qed.

Lemma encrypt_all_Ok c nonce plain fields :
  encrypt_all c nonce plain = Ok fields -> decrypt_all c fields = Some plain /\ forall k e, fields !! k = Some e -> e <> "".
Proof.
  unfold encrypt_all. destruct (oks _) as [f|]; [|done]. case_bool_decide as H; [|done]. intros [= <-]. split; [done|].
  intros k e He ->. rewrite decrypt_all_Some in H. specialize (H k). rewrite He in H. cbn in H.
  destruct (plain !! k) as [p|]; [|done]. cbn in H. injection H as H. by apply decrypt_nonempty in H.
Qed.

(** ** Columns *)

Lemma lookup_optional k v k' : optional k v !! k' = if decide (k = k') then v else None.
Proof.
  unfold optional. destruct v as [v|]; [|by rewrite lookup_empty; case_decide].
  case_decide as E; [by rewrite E, lookup_singleton_eq|by rewrite lookup_singleton_ne].
Qed.

(** The update makes the row's secrets the given ones. *)
Lemma expression_updates t salt fields fields' r :
  expression t r = Some fields -> fields <> ∅ -> dom fields' = dom fields -> (forall k e, fields' !! k = Some e -> e <> "") ->
  expression t (updates t salt fields' r) = Some fields'.
Proof.
  intros He Hne Hdom Hnz.
  assert (forall k, is_Some (fields' !! k) <-> is_Some (fields !! k)) as Hk by (intros k; by rewrite <- !elem_of_dom, Hdom).
  assert (forall k x, fields' !! k = None -> fields !! k = Some x -> False) as Hn.
  { intros k x E1 E2. destruct (proj2 (Hk k) ltac:(eauto)) as [? ?]. congruence. }
  assert (forall k v, fields = optional k v -> v <> None /\ exists e, fields' = {[k := e]} /\ e <> "") as Hone.
  { intros k v E. destruct v as [v|]; [|done]. split; [done|].
    destruct (proj2 (Hk k)) as [e Ee]; [rewrite E, lookup_optional, decide_True; eauto|]. exists e. split; [|by eapply Hnz].
    apply map_eq. intros k'. destruct (decide (k = k')) as [<-|Hkk]; [by rewrite lookup_singleton_eq|].
    rewrite lookup_singleton_ne by done. destruct (fields' !! k') as [x|] eqn:Ex; [|done].
    destruct (proj1 (Hk k') ltac:(eauto)) as [y Ey]. rewrite E, lookup_optional, decide_False in Ey; done. }
  destruct t; cbn in He |- *.
  - injection He as He. f_equal. apply map_eq. intros k. specialize (Hk k). rewrite <- He in Hk. pose proof (Hn k) as Hnk. rewrite <- He in Hnk.
    rewrite lookup_union, !lookup_optional in *.
    destruct (decide ("password" = k)) as [<-|]; [rewrite decide_False in * by done|destruct (decide ("private_key" = k)) as [<-|]].
    + destruct (fields' !! "password") as [e|]; [done|]. destruct (EncryptedPassword r) as [x|]; [by destruct (Hnk x)|done].
    + destruct (fields' !! "private_key") as [e|]; [done|]. destruct (EncryptedPrivateKey r) as [x|]; [by destruct (Hnk x)|done].
    + destruct (fields' !! k) as [e|]; [|done]. destruct Hk as [[? ?] _]; [eauto|done].
  - done.
  - injection He as He. destruct (Hone _ _ (eq_sym He)) as (_ & e & -> & _). by rewrite lookup_singleton_eq.
  - injection He as He. destruct (Hone _ _ (eq_sym He)) as (_ & e & -> & Hz). rewrite lookup_singleton_eq. cbn.
    by rewrite bool_decide_eq_false_2.
Qed.

Lemma updates_other t salt fields r :
  CryptoVersion (updates t salt fields r) = VersionCurrent /\ others (updates t salt fields r) = others r.
Proof. by destruct t. Qed.

(** ** One row *)

(** Everything a row is read by. *)
Definition secrets_of (t : secretTable) (r : secretRow) := (CryptoVersion r, Salt r, expression t r).

Lemma reveal_secrets t r s : secrets_of t r = secrets_of t s -> reveal t r = reveal t s /\ outdated t r = outdated t s.
Proof. unfold secrets_of, reveal, outdated. intros [= -> -> ->]. done. Qed.

(** What a successful call does: nothing to a row that is up to date and readable; else
    the stored row has the secrets that were read, and gets new ones with the same text. *)
Lemma migrate_row_ok w d t id r d' changed :
  migrateSecretRow w d t id r = Ok (d', changed) ->
  is_Some (reveal t r) /\ outdated t r = changed /\
  if changed then
    exists now now', d !! (t, id) = Some now /\ secrets_of t now = secrets_of t r /\ d' = <[(t, id) := now']> d /\
      CryptoVersion now' = VersionCurrent /\ reveal t now' = reveal t now /\ others now' = others now
  else d' = d.
Proof.
  unfold migrateSecretRow. intros H. destruct (_ && _) eqn:Ev in H; [done|].
  unfold reveal at 1, outdated. rewrite Ev. destruct (expression t r) as [fields|] eqn:Ee; [|done]. cbn [mbind option_bind].
  case_bool_decide as Ef; [injection H as <- <-; rewrite Ef, andb_false_r; done|].
  rewrite (bool_decide_eq_false_2 (Some fields = Some ∅)) by congruence. cbn [negb]. rewrite andb_true_r.
  destruct (ForRecord master (CryptoVersion r) _ _) as [old|] eqn:Eo; [|done]. destruct (decrypt_all old fields) as [plain|] eqn:Ed; [|done].
  destruct (CryptoVersion r =? VersionCurrent) eqn:Ec.
  { injection H as <- <-. split; [done|]. split; [|done]. apply Z.eqb_eq in Ec. by rewrite Ec. }
  destruct (rand_salt w t id) as [salt|]; [|done]. destruct (ForRecord master VersionCurrent salt (purpose t)) as [current|] eqn:Ecur; [|done].
  destruct (encrypt_all current _ plain) as [fields'|] eqn:Een; [|done]. destruct (write_fails w t id); [done|].
  destruct (d !! (t, id)) as [now|] eqn:En; [|done]. destruct (_ && _) eqn:Esame in H; [|done]. injection H as <- <-.
  apply andb_true_iff in Esame as [[Evn%Z.eqb_eq Esn%bool_decide_eq_true]%andb_true_iff Hexp%bool_decide_eq_true].
  rewrite andb_true_r in Ev. apply negb_false_iff in Ev as Eleg.
  split; [eauto|]. split; [done|]. apply encrypt_all_Ok in Een as [Hdec Hnz].
  assert (dom fields' = dom fields) as Hdom by (by rewrite <- (decrypt_all_dom _ _ _ Ed), <- (decrypt_all_dom _ _ _ Hdec)).
  exists now, (updates t salt fields' now).
  assert (expression t (updates t salt fields' now) = Some fields') as Hup by (by eapply expression_updates).
  destruct (updates_other t salt fields' now) as [Hver Hoth]. split; [done|]. split; [unfold secrets_of; congruence|].
  split_and!; try done. unfold reveal. rewrite Hver, Hup, Hexp.
  assert (Salt (updates t salt fields' now) = Some salt) as -> by (by destruct t).
  rewrite Evn, Esn, Eleg.
  assert (fields' <> ∅) as Hne' by (intros ->; apply Ef; apply dom_empty_inv_L; by rewrite <- Hdom, dom_empty_L).
  cbn. rewrite !bool_decide_eq_false_2 by done. by rewrite Eo, Ecur, Hdec, Ed.
Qed.

(** A concurrent edit is never overwritten.  Whatever happened to the database since a
    row was read, migrating the row either changes nothing but that row -- which then still
    had the version, the salt and every ciphertext that were read -- keeping its secrets in
    clear, its unrelated columns and leaving it in the current format, or writes nothing. *)
Theorem migration_spares_edits w d t id r :
  match migrateSecretRow w d t id r with
  | Ok (d', true) =>
      exists now now', d !! (t, id) = Some now /\ secrets_of t now = secrets_of t r /\ d' = <[(t, id) := now']> d /\
        reveal t now' = reveal t now /\ is_Some (reveal t now) /\ CryptoVersion now' = VersionCurrent /\ others now' = others now
  | Ok (d', false) => d' = d /\ is_Some (reveal t r) /\ outdated t r = false
  | Err e => exists stage, e = SecretMigrationError t id stage
  end.
Proof.
  destruct (migrateSecretRow w d t id r) as [[d' []]|e] eqn:H.
  - apply migrate_row_ok in H as (Hr & _ & now & now' & H1 & H2 & H3 & H4 & H5 & H6).
    exists now, now'. split_and!; try done. by rewrite (proj1 (reveal_secrets _ _ _ H2)).
  - apply migrate_row_ok in H as (Hr & Ho & Hd). done.
  - unfold migrateSecretRow in H. repeat (case_match; simplify_eq; eauto).
Qed.

(** ** Pages *)

Definition row_of (d : gmap (secretTable * Z) secretRow) (t : secretTable) (id : Z) : option (Z * secretRow) := pair id <$> d !! (t, id).
Definition rows_after (d : gmap (secretTable * Z) secretRow) (t : secretTable) (after : Z) : list (Z * secretRow) :=
  omap (row_of d t) (filter (fun id => after < id) (table_ids d t)).

Lemma elem_of_table_ids d t id : id ∈ table_ids d t <-> is_Some (d !! (t, id)).
Proof.
  unfold table_ids. rewrite merge_sort_Permutation, list_elem_of_omap. split.
  - intros ([t' i] & Hk & E). cbn in E. case_decide; simplify_eq/=. apply list_elem_of_fmap in Hk as ([k r] & -> & Hk).
    apply elem_of_map_to_list in Hk. eauto.
  - intros [r Hr]. exists (t, id). cbn. rewrite decide_True by done. split; [|done].
    apply list_elem_of_fmap. exists ((t, id), r). split; [done|]. by apply elem_of_map_to_list.
Qed.

Lemma NoDup_omap_inj {A B} (f : A -> option B) l :
  (forall x y z, f x = Some z -> f y = Some z -> x = y) -> NoDup l -> NoDup (omap f l).
Proof.
  intros Hf. induction 1 as [|x l Hx _ IH]; [constructor|]. cbn. destruct (f x) as [z|] eqn:E; [|done].
  constructor; [|done]. intros (y & Hy & Ey)%list_elem_of_omap. by rewrite (Hf x y z E Ey) in Hx.
Qed.

Lemma sorted_strict (l : list Z) : StronglySorted Z.le l -> NoDup l -> StronglySorted Z.lt l.
Proof.
  induction 1 as [|x l _ IH Hx]; [constructor|]. intros [Hn Hnd]%NoDup_cons. constructor; [by apply IH|].
  rewrite Forall_forall in *. intros y Hy. specialize (Hx y Hy). assert (x <> y) by (by intros ->). lia.
Qed.

Lemma strict_sorted (l : list Z) : StronglySorted Z.lt l -> StronglySorted Z.le l /\ NoDup l.
Proof.
  induction 1 as [|x l _ [IH1 IH2] Hx]; [split; constructor|]. rewrite Forall_forall in Hx.
  split; constructor; try done; [apply Forall_forall; intros y Hy; specialize (Hx y Hy); lia|].
  intros Hin. specialize (Hx x Hin). lia.
Qed.

Lemma table_ids_sorted d t : StronglySorted Z.lt (table_ids d t).
Proof.
  unfold table_ids. apply sorted_strict; [by apply (StronglySorted_merge_sort Z.le)|].
  rewrite merge_sort_Permutation. apply NoDup_omap_inj; [|apply NoDup_fst_map_to_list].
  intros [t1 i1] [t2 i2] z E1 E2. cbn in *. repeat case_decide; simplify_eq. done.
Qed.

Lemma table_ids_dom d d' t : dom d' = dom d -> table_ids d' t = table_ids d t.
Proof.
  intros E. destruct (strict_sorted _ (table_ids_sorted d t)), (strict_sorted _ (table_ids_sorted d' t)).
  apply (StronglySorted_unique Z.le); [done..|]. apply NoDup_Permutation; [done..|].
  intros id. by rewrite !elem_of_table_ids, <- !elem_of_dom, E.
Qed.

Lemma filter_all (Q : Z -> Prop) `{!forall x, Decision (Q x)} l : Forall Q l -> filter Q l = l.
Proof. induction 1 as [|x l Hx _ IH]; [done|]. rewrite filter_cons_True by done. by rewrite IH. Qed.
Lemma filter_none (Q : Z -> Prop) `{!forall x, Decision (Q x)} l : Forall (fun x => ~ Q x) l -> filter Q l = [].
Proof. induction 1 as [|x l Hx _ IH]; [done|]. rewrite filter_cons_False by done. by rewrite IH. Qed.

(** The page after the last identifier of a page starts where that page ends. *)
Lemma filter_last (l : list Z) a n x :
  StronglySorted Z.lt l -> last (take n (filter (fun i => a < i) l)) = Some x ->
  filter (fun i => x < i) l = drop n (filter (fun i => a < i) l).
Proof.
  intros Hs Hx. set (f := filter (fun i => a < i) l) in *.
  assert (StronglySorted Z.lt f) as Hf by (eapply StronglySorted_sublist; [apply sublist_filter|done]).
  assert (filter (fun i => x < i) l = filter (fun i => x < i) f) as ->.
  { unfold f. rewrite list_filter_filter. apply list_filter_iff. intros i. split; [|by intros [? _]]. intros Hi. split; [done|].
    apply last_Some in Hx as [k Hk]. assert (x ∈ f) as Hxf by (rewrite <- (take_drop n f), Hk; set_solver).
    apply list_elem_of_filter in Hxf as [? _]. lia. }
  rewrite <- (take_drop n f) at 1. rewrite filter_app. rewrite <- (take_drop n f) in Hf.
  apply last_Some in Hx as [k Hk]. rewrite Hk in *.
  rewrite filter_none, filter_all; [done| |]; apply Forall_forall; intros y Hy.
  - apply (StronglySorted_app_1_elem_of _ _ _ x y Hf); set_solver.
  - apply elem_of_app in Hy as [Hy|Hy%list_elem_of_singleton]; [|lia]. rewrite <- app_assoc in Hf.
    pose proof (StronglySorted_app_1_elem_of _ _ _ y x Hf Hy ltac:(left)). lia.
Qed.

(** ** What a run preserves *)

Record preserved (d d' : gmap (secretTable * Z) secretRow) : Prop := {
  pr_dom : dom d' = dom d;
  pr_row t id r' : d' !! (t, id) = Some r' -> exists r, d !! (t, id) = Some r /\ reveal t r' = reveal t r /\ others r' = others r /\
    (r' = r \/ outdated t r = true /\ outdated t r' = false) }.

#[export] Instance preserved_preorder : PreOrder preserved.
Proof.
  split.
  - intros d. split; [done|]. intros t id r Hr. exists r. split_and!; try done. by left.
  - intros d1 d2 d3 [D1 R1] [D2 R2]. split; [congruence|]. intros t id r3 H3.
    destruct (R2 t id r3 H3) as (r2 & H2 & E2 & O2 & C2). destruct (R1 t id r2 H2) as (r1 & H1 & E1 & O1 & C1).
    exists r1. split_and!; [done|congruence..|]. destruct C1 as [->|[? ?]], C2 as [->|[? ?]]; auto; right; split; congruence.
Qed.

Lemma migrate_row_preserved w d t id r d' changed :
  migrateSecretRow w d t id r = Ok (d', changed) ->
  preserved d d' /\ forall k, k <> (t, id) -> d' !! k = d !! k.
Proof.
  intros H. apply migrate_row_ok in H as (_ & Ho & H). destruct changed; [|by subst d'].
  destruct H as (now & now' & Hn & Hs & -> & Hv & Hr & Hot). split; [split|].
  - rewrite dom_insert_lookup_L; eauto.
  - intros t' id' r' [[[= <- <-] <-]|[Hne Hl]]%lookup_insert_Some.
    + exists now. split_and!; try done. right. rewrite (proj2 (reveal_secrets _ _ _ Hs)), Ho. split; [done|].
      unfold outdated. by rewrite Hv.
    + exists r'. split_and!; try done. by left.
  - intros k Hk. by rewrite lookup_insert_ne.
Qed.

Lemma migrate_rows_preserved w t rows d rep d' rep' e :
  migrate_rows w t rows d rep = (d', rep', e) ->
  preserved d d' /\ forall k, (k.1 = t -> (~ k.2 ∈ rows.*1)) -> d' !! k = d !! k.
Proof.
  revert d rep. induction rows as [|[id r] rows IH]; intros d rep; cbn; [by intros [= <- _ _]|].
  destruct (cancelled_row w t id); [by intros [= <- _ _]|].
  destruct (migrateSecretRow w d t id r) as [[d1 changed]|] eqn:E; [|by intros [= <- _ _]]. intros H.
  destruct (migrate_row_preserved _ _ _ _ _ _ _ E) as [P1 F1]. destruct (IH _ _ H) as [P2 F2]. split; [by etrans|].
  intros k Hk. rewrite F2; [apply F1|]; [intros ->; apply Hk; [done|left]|intros E'; specialize (Hk E'); set_solver].
Qed.

Lemma migrate_table_preserved fuel w t after d rep d' rep' e :
  migrate_table fuel w t after d rep = Some (d', rep', e) -> preserved d d'.
Proof.
  revert after d rep. induction fuel as [|fuel IH]; intros after d rep; cbn [migrate_table]; [done|].
  destruct (cancelled_page w t after); [by intros [= <- _ _]|]. destruct (read_fails w t after); [by intros [= <- _ _]|].
  destruct (page d t after) as [|x rows]; [by intros [= <- _ _]|].
  destruct (migrate_rows w t (x :: rows) d rep) as [[d1 rep1] [e1|]] eqn:E; apply migrate_rows_preserved in E as [P1 _].
  - by intros [= <- _ _].
  - intros H. etrans; [done|by eapply IH].
Qed.

(** C22: A run never loses a secret.  Whatever fails, is cancelled or runs out of anything,
    every row of every table is still there with the same secrets in clear -- the same
    fields with the same texts, or still unreadable -- and the same unrelated columns;
    a row that changed at all was outdated and no longer is. *)
Theorem migration_preserves fuel w d d' rep e :
  MigrateSecrets fuel w d = Some (d', rep, e) ->
  dom d' = dom d /\
  forall t id r', d' !! (t, id) = Some r' -> exists r, d !! (t, id) = Some r /\ reveal t r' = reveal t r /\ others r' = others r /\
    (r' = r \/ outdated t r = true /\ outdated t r' = false).
Proof.
  intros H. cut (preserved d d'); [by intros []|]. unfold MigrateSecrets in H.
  destruct (locked w); cbn [negb] in H; [|by injection H as <- _ _].
  assert (forall ts d rep d' rep' e, migrate_tables fuel w ts d rep = Some (d', rep', e) -> preserved d d') as Hts.
  { clear. induction ts as [|t ts IH]; intros d rep d' rep' e; cbn; [by intros [= <- _ _]|].
    destruct (migrate_table fuel w t 0 d rep) as [[[d1 rep1] [e1|]]|] eqn:E; [| |done]; apply migrate_table_preserved in E.
    - by intros [= <- _ _].
    - intros H. etrans; [done|by eapply IH]. }
  destruct (migrate_tables fuel w secretTables d (Report 0 0)) as [[[d1 rep1] e1]|] eqn:E; [|done].
  cbn in H. injection H as <- _ _. by eapply Hts.
Qed.

(** ** Pages and one pass *)

Lemma migrate_rows_app w t l1 l2 d rep :
  migrate_rows w t (l1 ++ l2) d rep =
  match migrate_rows w t l1 d rep with (d, rep, None) => migrate_rows w t l2 d rep | o => o end.
Proof.
  revert d rep. induction l1 as [|[id r] l1 IH]; intros d rep; [done|]. cbn.
  destruct (cancelled_row w t id); [done|]. by destruct (migrateSecretRow w d t id r) as [[d1 ch]|].
Qed.

Lemma omap_total {A B} (f : A -> option B) n l :
  Forall (fun x => is_Some (f x)) l -> take n (omap f l) = omap f (take n l) /\ drop n (omap f l) = omap f (drop n l).
Proof.
  intros H. revert n. induction H as [|x l [y Hy] _ IH]; intros [|n]; try done. cbn. rewrite Hy. cbn.
  destruct (IH n) as [-> ->]. done.
Qed.

Lemma omap_ids d t (l : list Z) : Forall (fun id => is_Some (d !! (t, id))) l -> (omap (row_of d t) l).*1 = l.
Proof. induction 1 as [|id l [r Hr] _ IH]; [done|]. cbn. unfold row_of at 1. rewrite Hr. cbn. by rewrite IH. Qed.

Lemma omap_rows_ext d d' t (l : list Z) : (forall id, id ∈ l -> d' !! (t, id) = d !! (t, id)) -> omap (row_of d' t) l = omap (row_of d t) l.
Proof.
  induction l as [|id l IH]; intros H; [done|]. cbn.
  assert (row_of d' t id = row_of d t id) as -> by (unfold row_of; by rewrite (H id) by left).
  rewrite IH; [done|]. intros i Hi. apply H. by right.
Qed.

Lemma after_present d t after : Forall (fun id => is_Some (d !! (t, id))) (filter (fun id => after < id) (table_ids d t)).
Proof. apply Forall_forall. intros id [_ Hi]%list_elem_of_filter. by apply elem_of_table_ids. Qed.

Lemma page_spec d t after :
  page d t after = omap (row_of d t) (take secretMigrationBatchSize (filter (fun id => after < id) (table_ids d t))).
Proof.
  unfold page. apply (omap_total (row_of d t)). eapply Forall_impl; [apply after_present|]. intros id [r Hr]. unfold row_of. rewrite Hr. eauto.
Qed.

(** The paging loop ends, and without interruptions between pages it does what one pass
    over all the rows does. *)
Lemma migrate_table_pages fuel w t after d rep :
  (List.length (rows_after d t after) < fuel)%nat ->
  exists o, migrate_table fuel w t after d rep = Some o /\
    ((forall a, cancelled_page w t a = false /\ read_fails w t a = false) -> o = migrate_rows w t (rows_after d t after) d rep).
Proof.
  revert after d rep. induction fuel as [|fuel IH]; intros after d rep Hfuel; [lia|]. cbn [migrate_table].
  destruct (cancelled_page w t after) eqn:Ec; [eexists; split; [done|]; intros H; destruct (H after); congruence|].
  destruct (read_fails w t after) eqn:Er; [eexists; split; [done|]; intros H; destruct (H after); congruence|].
  rewrite page_spec. set (ids := filter (fun id => after < id) (table_ids d t)) in *.
  pose proof (after_present d t after) as Hall. fold ids in Hall.
  assert (rows_after d t after = omap (row_of d t) (take secretMigrationBatchSize ids) ++ omap (row_of d t) (drop secretMigrationBatchSize ids)) as Hrows.
  { rewrite <- omap_app, take_drop. done. }
  rewrite Hrows. set (rows := omap (row_of d t) (take secretMigrationBatchSize ids)) in *.
  assert (rows.*1 = take secretMigrationBatchSize ids) as Hids by (by apply omap_ids, Forall_take).
  destruct rows as [|x rows'] eqn:Erows.
  { exists (d, rep, None). split; [done|]. intros _. destruct ids as [|i ids']; [done|]. by cbn in Hids. }
  rewrite <- Erows in *. assert (rows <> []) as Hrne by (by rewrite Erows). clear Erows.
  assert (exists id, last rows.*1 = Some id) as [id Hlast].
  { destruct (last rows.*1) eqn:E; [eauto|]. by apply last_None, fmap_nil_inv in E. }
  rewrite migrate_rows_app. destruct (migrate_rows w t rows d rep) as [[d1 rep1] [e|]] eqn:E; [eauto|].
  rewrite Hlast. cbn [default]. unfold Datatypes.id. destruct (migrate_rows_preserved _ _ _ _ _ _ _ _ E) as [[Hdom _] Hframe].
  assert (rows_after d1 t id = omap (row_of d t) (drop secretMigrationBatchSize ids)) as Hrest.
  { unfold rows_after. rewrite (table_ids_dom _ _ _ Hdom). rewrite Hids in Hlast.
    rewrite (filter_last _ _ _ _ (table_ids_sorted d t) Hlast). apply omap_rows_ext. intros i Hi. apply Hframe. intros _ Hin. change ((t, i).2) with i in Hin.
    rewrite Hids in Hin. assert (StronglySorted Z.lt ids) as Hs by (eapply StronglySorted_sublist; [apply sublist_filter|apply table_ids_sorted]).
    rewrite <- (take_drop secretMigrationBatchSize ids) in Hs. pose proof (StronglySorted_app_1_elem_of _ _ _ _ _ Hs Hin Hi). lia. }
  destruct (IH id d1 rep1) as (o & Ho & Hq).
  - rewrite Hrest. rewrite Hrows, length_app in Hfuel. assert (List.length rows <> 0)%nat; [|lia].
    intros Hz%nil_length_inv. by rewrite Hz in Hlast.
  - exists o. split; [done|]. intros H. by rewrite Hq, Hrest.
Qed.
End migration.

(** ** Complete runs *)

(** Nothing goes wrong outside, and the random source works. *)
Record quiet (w : world) : Prop := {
  q_page t a : cancelled_page w t a = false; q_row t a : cancelled_row w t a = false;
  q_read t a : read_fails w t a = false; q_write t a : write_fails w t a = false;
  q_salt t a : exists salt, rand_salt w t a = Some salt /\ len salt = SaltSize;
  q_nonce t a k : exists nonce, rand_nonce w t a k = Some nonce /\ len nonce = NonceSize;
  q_locked : locked w = true; q_unlocked : unlocked w = true }.

Section complete.
Context `{POk : PrimitivesOk} (master : string) (w : world) (Hw : quiet w).

Lemma encrypt_all_complete c t id plain :
  len (rc_key c) = 32 -> exists fields, encrypt_all c (rand_nonce w t id) plain = Ok fields.
Proof.
  intros Hk. unfold encrypt_all.
  assert (forall k p, exists nonce e, rand_nonce w t id k = Some nonce /\ len nonce = NonceSize /\ Encrypt c (Some nonce) k p = Ok e) as Hone.
  { intros k p. destruct (q_nonce w Hw t id k) as (nonce & En & Hl). exists nonce. eexists. split_and!; [done..|by apply encrypt_ok]. }
  set (fields := map_imap (fun k p => match Encrypt c (rand_nonce w t id k) k p with Ok e => Some e | Err _ => None end) plain).
  assert (oks (map_imap (fun k p => Some (Encrypt c (rand_nonce w t id k) k p)) plain) = Some fields) as ->.
  { apply oks_Some. apply map_eq. intros k. rewrite lookup_fmap. unfold fields. rewrite !map_lookup_imap.
    destruct (plain !! k) as [p|]; [|done]. cbn. destruct (Hone k p) as (nonce & e & En & _ & Ee). rewrite En, Ee. done. }
  rewrite bool_decide_eq_true_2; [eauto|]. apply decrypt_all_Some. intros k. unfold fields. rewrite map_lookup_imap.
  destruct (plain !! k) as [p|]; [|done]. cbn. destruct (Hone k p) as (nonce & e & En & Hn & Ee). rewrite En, Ee. cbn.
  by rewrite (encrypt_decrypt c nonce k p e).
Qed.

Lemma purpose_known t : purpose t ∈ purposes.
Proof. destruct t; set_solver. Qed.

Lemma migrate_row_complete d t id r :
  d !! (t, id) = Some r -> is_Some (reveal master t r) -> exists d', migrateSecretRow master w d t id r = Ok (d', outdated t r).
Proof.
  intros Hr [x Hx]. unfold reveal in Hx. unfold migrateSecretRow, outdated. destruct (_ && _) eqn:Ev in Hx; [done|]. rewrite Ev.
  destruct (expression t r) as [fields|] eqn:Ee; [|done]. cbn [mbind option_bind] in Hx. case_bool_decide as Ef.
  { exists d. rewrite Ef. by rewrite bool_decide_eq_true_2, andb_false_r. }
  rewrite (bool_decide_eq_false_2 (Some fields = _)) by congruence. cbn [negb]. rewrite andb_true_r.
  destruct (ForRecord master (CryptoVersion r) _ _) as [old|] eqn:Eo; [|done]. destruct (decrypt_all old fields) as [plain|]; [|done].
  destruct (CryptoVersion r =? VersionCurrent) eqn:Ec.
  { exists d. apply Z.eqb_eq in Ec. by rewrite Ec. }
  rewrite andb_true_r in Ev. apply negb_false_iff in Ev. rewrite Ev.
  destruct (q_salt w Hw t id) as (salt & -> & Hs). destruct (ForRecord_current master salt (purpose t) (purpose_known t) Hs) as [c Hc].
  rewrite Hc. destruct (ForRecord_spec _ _ _ _ _ Hc) as (_ & _ & _ & Hk & _).
  destruct (encrypt_all_complete c t id plain Hk) as [fields' ->]. rewrite (q_write w Hw), Hr, Z.eqb_refl, Ee, !bool_decide_eq_true_2 by done.
  by eexists.
Qed.

Lemma migrate_rows_complete t rows d rep :
  NoDup rows.*1 -> Forall (fun ir => d !! (t, ir.1) = Some ir.2) rows ->
  exists d' rep' e, migrate_rows master w t rows d rep = (d', rep', e) /\
    (Forall (fun ir => is_Some (reveal master t ir.2)) rows ->
     e = None /\ rep' = Report (Checked rep + Z.of_nat (List.length rows)) (Migrated rep + count_if (fun ir => outdated t ir.2) rows) /\
     forall id r, id ∈ rows.*1 -> d' !! (t, id) = Some r -> outdated t r = false) /\
    (e = None -> Forall (fun ir => is_Some (reveal master t ir.2)) rows).
Proof.
  revert d rep. induction rows as [|[id r] rows IH]; intros d rep Hnd Hall.
  { exists d, rep, None. split; [done|]. split; [|done]. intros _. split_and!; [done| |intros id r H; by apply elem_of_nil in H].
    destruct rep. cbn. rewrite count_if_nil. f_equal; lia. }
  apply NoDup_cons in Hnd as [Hn Hnd]. apply Forall_cons in Hall as [Hr Hall]. cbn [fst snd] in Hr, Hn. cbn [migrate_rows]. rewrite (q_row w Hw).
  destruct (migrateSecretRow master w d t id r) as [[d1 changed]|e] eqn:E.
  - destruct (migrate_row_preserved _ _ _ _ _ _ _ _ E) as [_ Hframe]. pose proof (migrate_row_ok _ _ _ _ _ _ _ _ E) as (Hread & Ho & Hd1).
    edestruct (IH d1 (Report (Checked rep + 1) (if changed then Migrated rep + 1 else Migrated rep)) Hnd) as (d' & rep' & e & E2 & H1 & H2).
    { rewrite Forall_forall in *. intros [i x] Hi. rewrite Hframe; [by apply Hall|]. intros [= ->]. apply Hn.
      apply list_elem_of_fmap. by exists (id, x). }
    exists d', rep', e. split; [done|]. split; [|intros He; constructor; [done|by apply H2]].
    intros [_ Hreads]%Forall_cons. destruct (H1 Hreads) as (-> & -> & Hout). split; [done|]. split.
    + rewrite count_if_cons. cbn [Checked Migrated List.length snd]. rewrite Ho. f_equal; destruct changed; lia.
    + intros i x Hi Hx. destruct (decide (i = id)) as [->|Hne].
      * destruct (migrate_rows_preserved _ _ _ _ _ _ _ _ _ E2) as [_ Hframe2]. rewrite Hframe2 in Hx by done.
        destruct changed; [|subst d1; congruence]. destruct Hd1 as (now & now' & _ & _ & -> & Hv & _). rewrite lookup_insert_eq in Hx.
        injection Hx as <-. unfold outdated. by rewrite Hv.
      * apply (Hout i x); [|done]. by apply elem_of_cons in Hi as [?|?].
  - exists d, rep, (Some e). split; [done|]. split; [|done]. intros [Hread _]%Forall_cons.
    destruct (migrate_row_complete d t id r Hr Hread) as [d' Hd']. congruence.
Qed.

Lemma rows_after_perm d t :
  (forall i, is_Some (d !! (t, i)) -> 0 < i) ->
  rows_after d t 0 ≡ₚ omap (fun kr : secretTable * Z * secretRow => if decide (kr.1.1 = t) then Some (kr.1.2, kr.2) else None) (map_to_list d).
Proof.
  intros Hpos. apply NoDup_Permutation.
  - apply (NoDup_fmap_1 fst). unfold rows_after. rewrite omap_ids by apply after_present.
    apply NoDup_filter, strict_sorted, table_ids_sorted.
  - apply NoDup_omap_inj; [|apply NoDup_map_to_list]. intros [[t1 i1] r1] [[t2 i2] r2] z E1 E2. cbn in *. repeat case_decide; simplify_eq. done.
  - intros [id r]. unfold rows_after. rewrite !list_elem_of_omap. split.
    + intros (i & [Hi _]%list_elem_of_filter & E). unfold row_of in E. destruct (d !! (t, i)) as [x|] eqn:Ex; [|done]. cbn in E. injection E as -> ->.
      exists ((t, id), r). cbn. rewrite decide_True by done. by rewrite elem_of_map_to_list.
    + intros ([[t' i] x] & Hx%elem_of_map_to_list & E). cbn in E. case_decide as Et; [|done]. injection E as -> ->. cbn in Hx, Et. subst t'.
      exists id. unfold row_of. rewrite Hx. split; [|done]. apply list_elem_of_filter. split; [apply Hpos; eauto|apply elem_of_table_ids; eauto].
Qed.

(** The tables together hold every row once. *)
Lemma count_tables (f : secretTable -> secretRow -> bool) (l : list (secretTable * Z * secretRow)) :
  foldr (fun t n => count_if (fun ir : Z * secretRow => f t ir.2)
           (omap (fun kr : secretTable * Z * secretRow => if decide (kr.1.1 = t) then Some (kr.1.2, kr.2) else None) l) + n) 0 secretTables =
  count_if (fun kr => f kr.1.1 kr.2) l.
Proof.
  induction l as [|[[t i] r] l IH]; [done|]. rewrite count_if_cons, <- IH. cbn [foldr secretTables omap list_omap fst snd].
  destruct t; repeat (first [rewrite decide_True by done|rewrite decide_False by done]); rewrite ?count_if_cons; cbn [snd]; lia.
Qed.

Definition part (f : secretTable -> secretRow -> bool) (d : gmap (secretTable * Z) secretRow) (ts : list secretTable) : Z :=
  foldr (fun t n => count_if (fun ir : Z * secretRow => f t ir.2) (rows_after d t 0) + n) 0 ts.

Lemma part_all f d :
  (forall t i, is_Some (d !! (t, i)) -> 0 < i) -> part f d secretTables = count_if (fun kr => f kr.1.1 kr.2) (map_to_list d).
Proof.
  intros Hpos. rewrite <- count_tables. unfold part. cbn [foldr secretTables].
  rewrite !(count_if_perm _ _ _ (rows_after_perm d _ (Hpos _))). done.
Qed.

Lemma rows_after_frame d d' t :
  dom d' = dom d -> (forall i, d' !! (t, i) = d !! (t, i)) -> rows_after d' t 0 = rows_after d t 0.
Proof. intros E H. unfold rows_after. rewrite (table_ids_dom _ _ _ E). by apply omap_rows_ext. Qed.

Lemma rows_after_length d t : (List.length (rows_after d t 0) <= size d)%nat.
Proof.
  rewrite <- (length_fmap fst). unfold rows_after. rewrite omap_ids by apply after_present.
  etrans; [apply length_filter|]. unfold table_ids. rewrite merge_sort_Permutation.
  etrans; [|by rewrite <- length_map_to_list, <- (length_fmap fst)].
  induction ((map_to_list d).*1) as [|k l IH]; [done|]. cbn. case_decide; cbn; lia.
Qed.

Lemma elem_rows_after d t id r : (forall i, is_Some (d !! (t, i)) -> 0 < i) -> (id, r) ∈ rows_after d t 0 <-> d !! (t, id) = Some r.
Proof.
  intros Hpos. rewrite rows_after_perm by done. rewrite list_elem_of_omap. split.
  - intros ([[t' i] x] & Hx%elem_of_map_to_list & E). cbn in *. case_decide; simplify_eq. done.
  - intros Hr. exists ((t, id), r). cbn. by rewrite decide_True, elem_of_map_to_list.
Qed.

Definition readable (t : secretTable) (d : gmap (secretTable * Z) secretRow) : Prop :=
  forall id r, d !! (t, id) = Some r -> is_Some (reveal master t r).
Definition current (t : secretTable) (d : gmap (secretTable * Z) secretRow) : Prop :=
  forall id r, d !! (t, id) = Some r -> outdated t r = false.

Lemma migrate_table_complete fuel t d rep :
  (size d < fuel)%nat -> (forall i, is_Some (d !! (t, i)) -> 0 < i) ->
  exists d' rep' e, migrate_table master fuel w t 0 d rep = Some (d', rep', e) /\
    preserved master d d' /\ (forall k, k.1 <> t -> d' !! k = d !! k) /\
    (readable t d -> e = None /\ Checked rep' = Checked rep + part (fun _ _ => true) d [t] /\
       Migrated rep' = Migrated rep + part outdated d [t] /\ current t d') /\
    (e = None -> readable t d).
Proof.
  intros Hfuel Hpos. pose proof (rows_after_length d t).
  destruct (migrate_table_pages master fuel w t 0 d rep) as (o & Ho & Hq); [lia|].
  specialize (Hq (fun a => conj (q_page w Hw t a) (q_read w Hw t a))). subst o.
  destruct (migrate_rows_complete t (rows_after d t 0) d rep) as (d' & rep' & e & E & H1 & H2).
  - unfold rows_after. rewrite omap_ids by apply after_present. apply NoDup_filter, strict_sorted, table_ids_sorted.
  - apply Forall_forall. intros [id r] Hr. by apply elem_rows_after.
  - rewrite E in Ho. destruct (migrate_rows_preserved _ _ _ _ _ _ _ _ _ E) as [Hp Hf].
    exists d', rep', e. split; [done|]. split; [done|]. split; [intros k Hk; apply Hf; by intros|]. split.
    + intros Hr. destruct H1 as (-> & -> & Hout). { apply Forall_forall. intros [id r] Hi. apply elem_rows_after in Hi; [|done]. by eapply Hr. }
      unfold part. cbn [foldr Checked Migrated]. split_and!; [done| |lia|].
      * rewrite count_if_true. lia.
      * intros id r Hi. apply (Hout id r); [|done]. apply list_elem_of_fmap.
        assert (is_Some (d !! (t, id))) as [x Hx] by (apply elem_of_dom; rewrite <- (pr_dom _ _ _ Hp); apply elem_of_dom; eauto).
        exists (id, x). split; [done|]. by apply elem_rows_after.
    + intros He id r Hr. specialize (H2 He). rewrite Forall_forall in H2. apply (H2 (id, r)). by apply elem_rows_after.
Qed.

Lemma migrate_tables_complete fuel ts d rep :
  NoDup ts -> (size d < fuel)%nat -> (forall t i, is_Some (d !! (t, i)) -> 0 < i) ->
  exists d' rep' e, migrate_tables master fuel w ts d rep = Some (d', rep', e) /\
    preserved master d d' /\ (forall k, (~ k.1 ∈ ts) -> d' !! k = d !! k) /\
    ((forall t, t ∈ ts -> readable t d) -> e = None /\ Checked rep' = Checked rep + part (fun _ _ => true) d ts /\
       Migrated rep' = Migrated rep + part outdated d ts /\ forall t, t ∈ ts -> current t d') /\
    (e = None -> forall t, t ∈ ts -> readable t d).
Proof.
  intros Hnd. revert d rep. induction Hnd as [|t ts Hn _ IH]; intros d rep Hfuel Hpos; cbn [migrate_tables].
  { exists d, rep, None. split; [done|]. split; [done|]. split; [done|]. split; [|intros _ t Ht; by apply elem_of_nil in Ht].
    intros _. unfold part. cbn. split_and!; [done|lia|lia|]. intros t Ht. by apply elem_of_nil in Ht. }
  destruct (migrate_table_complete fuel t d rep Hfuel (Hpos t)) as (d1 & rep1 & e1 & -> & P1 & F1 & C1 & R1).
  destruct e1 as [e1|].
  { exists d1, rep1, (Some e1). split; [done|]. split; [done|]. split; [intros k Hk; apply F1; set_solver|]. split; [|done].
    intros Hr. by destruct (C1 (Hr t ltac:(left))) as [? _]. }
  pose proof (pr_dom _ _ _ P1) as Hdom.
  assert (size d1 = size d) as Hsize by (by rewrite <- !size_dom, Hdom).
  destruct (IH d1 rep1) as (d2 & rep2 & e2 & -> & P2 & F2 & C2 & R2); [lia|intros t' i; rewrite <- elem_of_dom, Hdom, elem_of_dom; apply Hpos|].
  assert (forall t', t' ∈ ts -> forall i, d1 !! (t', i) = d !! (t', i)) as Hsame.
  { intros t' Ht' i. apply F1. cbn. by intros ->. }
  assert (forall f, part f d1 ts = part f d ts) as Hpart.
  { intros f. unfold part. clear -Hsame Hdom. induction ts as [|t' ts IH]; [done|]. cbn. f_equal; [|apply IH; intros; apply Hsame; by right].
    rewrite (rows_after_frame d d1 t'); [done..|]. apply Hsame. left. }
  assert (forall t', t' ∈ ts -> readable t' d1 <-> readable t' d) as Hread.
  { intros t' Ht'. unfold readable. split; intros H id r Hr; apply (H id r); [by rewrite Hsame|by rewrite <- Hsame]. }
  exists d2, rep2, e2. split; [done|]. split; [by etrans|]. split; [intros k Hk; rewrite F2 by set_solver; apply F1; set_solver|]. split.
  - intros Hr. destruct (C1 (Hr t ltac:(left))) as (_ & Hc1 & Hm1 & Hout1).
    destruct C2 as (-> & Hc2 & Hm2 & Hout2); [intros t' Ht'; apply Hread; [done|]; apply Hr; by right|]. rewrite Hpart in Hc2, Hm2.
    unfold part in *. cbn [foldr] in *. split_and!; [done|lia|lia|].
    intros t' [->|Ht']%elem_of_cons; [|by apply Hout2]. intros id r Hi. destruct (pr_row _ _ _ P2 t id r Hi) as (r1 & Hr1 & _ & _ & [->|[Ho _]]).
    + by eapply Hout1.
    + by rewrite (Hout1 id r1 Hr1) in Ho.
  - intros He t' [->|Ht']%elem_of_cons; [by apply R1|]. apply Hread; [done|]. by apply R2.
Qed.

(** C23: The migration ends, and succeeds exactly when every secret is readable.  When nothing
    fails outside, the pages are exhausted within the fuel; the run returns no error if
    and only if every row of every table can be read with the master key (so a wrong key
    is refused even after a completed migration); then every row was checked once, the
    outdated ones and only they were rewritten, and a second run changes nothing. *)
Theorem migration_completes d :
  (forall t i, is_Some (d !! (t, i)) -> 0 < i) ->
  exists d' rep e, MigrateSecrets master (migration_fuel d) w d = Some (d', rep, e) /\
    (e = None <-> forall t id r, d !! (t, id) = Some r -> is_Some (reveal master t r)) /\
    (e = None ->
      Checked rep = Z.of_nat (size d) /\ Migrated rep = count_if (fun kr => outdated kr.1.1 kr.2) (map_to_list d) /\
      (forall t id r, d' !! (t, id) = Some r -> outdated t r = false) /\
      MigrateSecrets master (migration_fuel d') w d' = Some (d', Report (Z.of_nat (size d)) 0, None)).
Proof.
  intros Hpos.
  assert (forall t, t ∈ secretTables) as Hin by (intros []; set_solver).
  assert (forall d, (forall t i, is_Some (d !! (t, i)) -> 0 < i) ->
    exists d' rep e, MigrateSecrets master (migration_fuel d) w d = Some (d', rep, e) /\ preserved master d d' /\
      ((forall t, readable t d) -> e = None /\ Checked rep = Z.of_nat (size d) /\
         Migrated rep = count_if (fun kr => outdated kr.1.1 kr.2) (map_to_list d) /\ forall t, current t d') /\
      (e = None -> forall t, readable t d)) as Hrun.
  { clear d Hpos. intros d Hpos. unfold MigrateSecrets. rewrite (q_locked w Hw), (q_unlocked w Hw). cbn [negb].
    assert (NoDup secretTables) as Hnd by (apply (bool_decide_unpack _); vm_compute; done).
    destruct (migrate_tables_complete (migration_fuel d) secretTables d (Report 0 0) Hnd) as (d' & rep & e & -> & P1 & _ & C1 & R1);
      [unfold migration_fuel; lia|done|].
    exists d', rep, e. cbn. split; [by destruct e|]. split; [done|]. split.
    - intros Hr. destruct C1 as (-> & Hc & Hm & Hcur); [by intros|]. rewrite !part_all in * by done. cbn in *.
      rewrite count_if_true, length_map_to_list in Hc. split_and!; [done|lia|lia|]. by intros t; apply Hcur.
    - intros He t. by apply R1. }
  destruct (Hrun d Hpos) as (d' & rep & e & E & [Hdom Hrow] & C1 & R1). exists d', rep, e. split; [done|].
  assert (e = None <-> forall t id r, d !! (t, id) = Some r -> is_Some (reveal master t r)) as Hiff.
  { split; [intros He t; by apply R1|]. intros H. apply C1. intros t. exact (H t). }
  split; [done|]. intros He. destruct C1 as (_ & Hc & Hm & Hcur); [intros t; exact (proj1 Hiff He t)|]. split_and!; [done..|].
  destruct (Hrun d') as (d2 & rep2 & e2 & E2 & P2 & C2 & _); [intros t i; rewrite <- elem_of_dom, Hdom, elem_of_dom; apply Hpos|].
  destruct C2 as (-> & Hc2 & Hm2 & _).
  { intros t id r Hr. destruct (Hrow t id r Hr) as (r0 & Hr0 & -> & _). by eapply Hiff. }
  assert (d2 = d') as ->.
  { apply map_eq. intros [t id]. destruct (d2 !! (t, id)) as [r2|] eqn:E2'.
    - destruct (pr_row _ _ _ P2 t id r2 E2') as (r1 & Hr1 & _ & _ & [->|[Ho _]]); [done|]. by rewrite (Hcur t id r1 Hr1) in Ho.
    - symmetry. apply not_elem_of_dom. rewrite <- (pr_dom _ _ _ P2). by apply not_elem_of_dom. }
  rewrite E2. destruct rep2 as [c m]. cbn in Hc2, Hm2. subst c m. rewrite <- (size_dom d'), Hdom, size_dom. do 3 f_equal. f_equal.
  apply count_if_none. intros [[t id] r] Hr%elem_of_map_to_list. by apply (Hcur t id r).
Qed.
End complete.

(** ** A run *)

#[local] Existing Instance toy.
#[local] Existing Instance toy_ok.

Definition written_by (c : RecordCipher) (field plaintext : string) : option string :=
  match Encrypt c (Some toy_nonce) field plaintext with Ok e => Some e | Err _ => None end.

(** A password under the old fixed-salt key, a proxy password in the current format. *)
Definition demo_secrets : gmap (secretTable * Z) secretRow :=
  <[(SSHCredentials, 4) := MkSecretRow VersionLegacy None
      (written_by (MkCipher (LegacyDeriveKey toy_key) VersionLegacy PurposeSSH) "password" "pw") None CNull None "root"]>
  {[(ServerConnectionConfigs, 2) := MkSecretRow VersionCurrent (Some toy_salt)
      (written_by (MkCipher (hkdf toy_key toy_salt ("talus/secret/v2/" +:+ PurposeSOCKS5)) VersionCurrent PurposeSOCKS5) "password" "socks")
      None CNull None "proxy"]}.
Definition demo_world : world :=
  World (fun _ _ => false) (fun _ _ => false) (fun _ _ => false) (fun _ _ => false)
    (fun _ _ => Some toy_salt) (fun _ _ _ => Some toy_nonce) true true.

Lemma demo_quiet : quiet demo_world.
Proof. split; try done; intros; eexists; done. Qed.

Lemma demo_ids t i : is_Some (demo_secrets !! (t, i)) -> 0 < i.
Proof. unfold demo_secrets. intros [r [[[= <- <-] _]|[_ [[= <- <-] _]%lookup_singleton_Some]]%lookup_insert_Some]; lia. Qed.

Definition demo_result : option outcome := MigrateSecrets toy_key (migration_fuel demo_secrets) demo_world demo_secrets.

Example demo_migrates :
  (fun o : outcome => (o.1.2, o.2, (fun r => (CryptoVersion r, others r, reveal toy_key SSHCredentials r)) <$> o.1.1 !! (SSHCredentials, 4))) <$> demo_result
  = Some (Report 2 1, None, Some (VersionCurrent, "root", Some {["password" := "pw"]})).
Proof. vm_compute. reflexivity. Qed.

Lemma migration_completes_witness :
  exists d' rep, demo_result = Some (d', rep, None) /\ Checked rep = 2 /\ Migrated rep = 1 /\
    MigrateSecrets toy_key (migration_fuel d') demo_world d' = Some (d', Report 2 0, None).
Proof.
  destruct (migration_completes toy_key demo_world demo_quiet demo_secrets demo_ids) as (d' & rep & e & E & _ & H).
  assert (e = None) as -> by (pose proof demo_migrates as D; unfold demo_result in D; rewrite E in D; by injection D).
  destruct (H eq_refl) as (Hc & Hm & _ & Hagain). exists d', rep. split; [exact E|]. split; [exact Hc|]. split; [exact Hm|exact Hagain].
Defined.

Lemma migration_preserves_witness :
  exists d' rep, MigrateSecrets toy_key 7 demo_world demo_secrets = Some (d', rep, None) /\ dom d' = dom demo_secrets.
Proof.
  assert (is_Some (MigrateSecrets toy_key 7 demo_world demo_secrets) /\
          (fun o : outcome => o.2) <$> MigrateSecrets toy_key 7 demo_world demo_secrets = Some None) as [[[[d' rep] e] E] He]
    by (split; [vm_compute; eauto|vm_compute; reflexivity]).
  rewrite E in He. injection He as ->. exists d', rep. split; [exact E|].
  exact (proj1 (migration_preserves toy_key 7 demo_world demo_secrets d' rep None E)).
Defined.
