(* ===== verification/Socks5.v ===== *)
(** * The SOCKS5 client of [pkg/sshpool/route.go]

    [socksConnect] as a dialogue with the proxy: what is written, how many bytes are read
    before the next decision, and what is returned when either fails.  [run] plays it
    against any bytes a proxy may send.  [parse_request] reads a request the way a proxy
    following RFC 1928 does. *)

From S2P Require Import Prelude GoStrings NetIP Servers.

Record RouteError := MkRouteError { Reason : string; Stage : string; Role : string }.
#[export] Instance RouteError_eq_dec : EqDecision RouteError.
Proof. solve_decision. Defined.

Record SOCKSConfig := MkSOCKS { s_host : string; s_port : Z; s_auth : string; s_user : string; s_password : string }.

(** ** Dialogues *)

Inductive dialogue (A : Type) :=
| Done (a : A)
| Send (data : list Z) (failed : A) (k : dialogue A)
| Recv (n : nat) (failed : A) (k : list Z -> dialogue A).
Arguments Done {A} a.
Arguments Send {A} data failed k.
Arguments Recv {A} n failed k.

Inductive event := Sent (data : list Z) | Got (data : list Z).

(** [inbox]: everything the proxy sends before it closes; [writes]: how many writes succeed. *)
Fixpoint run {A} (p : dialogue A) (writes : nat) (inbox : list Z) : list event * A * list Z :=
  match p with
  | Done a => ([], a, inbox)
  | Send data failed k =>
      match writes with
      | O => ([], failed, inbox)
      | S writes => let '(tr, a, rest) := run k writes inbox in (Sent data :: tr, a, rest)
      end
  | Recv n failed k =>
      if (List.length inbox <? n)%nat then ([], failed, [])
      else let '(tr, a, rest) := run (k (take n inbox)) writes (drop n inbox) in (Got (take n inbox) :: tr, a, rest)
  end.

(** ** [socksConnect] *)

Definition bytes_of (s : string) : list Z := (fun c => Z.of_nat (nat_of_ascii c)) <$> list_ascii_of_string s.

Definition proxy_failure (stage reason : string) : result RouteError unit := Err (MkRouteError reason stage "proxy").
Definition auth_failed := proxy_failure "proxy_auth" "proxy_auth_failed".
Definition auth_broken := proxy_failure "proxy_auth" "proxy_connection_failed".
Definition connect_rejected := proxy_failure "proxy_connect_request" "proxy_connect_rejected".
Definition connect_broken := proxy_failure "proxy_connect_request" "proxy_connection_failed".

(** The method offered; [None]: the configuration is refused. *)
Definition socks_method (cfg : SOCKSConfig) : option Z :=
  let auth := if bool_decide (s_auth cfg = "") then "none" else s_auth cfg in
  if bool_decide (auth = "none") then Some 0
  else if bool_decide (auth = "username_password") then
    if (len (s_user cfg) <? 1) || (255 <? len (s_user cfg)) || (len (s_password cfg) <? 1) || (255 <? len (s_password cfg)) then None
    else Some 2
  else None.

Definition auth_request (cfg : SOCKSConfig) : list Z :=
  [1; len (s_user cfg)] ++ bytes_of (s_user cfg) ++ [len (s_password cfg)] ++ bytes_of (s_password cfg).

Definition request_address (host : string) : option (list Z) :=
  match ParseIP host with
  | Some ip => match To4 ip with Some ip4 => Some (1 :: ip4) | None => Some (4 :: To16 ip) end
  | None => if (len host <? 1) || (255 <? len host) then None else Some (3 :: len host :: bytes_of host)
  end.
Definition port_bytes (port : Z) : list Z := [port / 256 mod 256; port mod 256].
Definition connect_request (host : string) (port : Z) : option (list Z) :=
  (fun a => [5; 1; 0] ++ a ++ port_bytes port) <$> request_address host.

(** The bound address is read and dropped. *)
Definition skip_address (n : Z) : dialogue (result RouteError unit) := Recv (Z.to_nat (n + 2)) connect_broken (fun _ => Done (Ok tt)).
Definition read_reply : dialogue (result RouteError unit) :=
  Recv 4 connect_broken (fun header =>
    match header with
    | [version; code; reserved; atyp] =>
        if negb (version =? 5) || negb (reserved =? 0) then Done connect_rejected
        else if negb (code =? 0) then Done connect_rejected
        else if atyp =? 1 then skip_address 4
        else if atyp =? 4 then skip_address 16
        else if atyp =? 3 then Recv 1 connect_broken (fun size => skip_address (default 0 (head size)))
        else Done connect_rejected
    | _ => Done connect_rejected
    end).
Definition send_request (host : string) (port : Z) : dialogue (result RouteError unit) :=
  match connect_request host port with
  | None => Done connect_rejected
  | Some request => Send request connect_broken read_reply
  end.

Definition socksConnect (cfg : SOCKSConfig) (host : string) (port : Z) : dialogue (result RouteError unit) :=
  match socks_method cfg with
  | None => Done auth_failed
  | Some method =>
      Send [5; 1; method] auth_broken
        (Recv 2 auth_broken (fun reply =>
          if negb (bool_decide (reply = [5; method])) then Done auth_failed
          else if method =? 2 then
            Send (auth_request cfg) auth_broken
              (Recv 2 auth_broken (fun reply =>
                if negb (bool_decide (reply = [1; 0])) then Done auth_failed else send_request host port))
          else send_request host port))
  end.

(** ** A proxy *)

Inductive destination := IPv4 (a : list Z) | IPv6 (a : list Z) | Domain (name : list Z).

Definition parse_address (l : list Z) : option (destination * list Z) :=
  match l with
  | 1 :: l => if (List.length l <? 4)%nat then None else Some (IPv4 (take 4 l), drop 4 l)
  | 4 :: l => if (List.length l <? 16)%nat then None else Some (IPv6 (take 16 l), drop 16 l)
  | 3 :: n :: l => if (List.length l <? Z.to_nat n)%nat then None else Some (Domain (take (Z.to_nat n) l), drop (Z.to_nat n) l)
  | _ => None
  end.
Definition parse_request (l : list Z) : option (destination * Z) :=
  match l with
  | 5 :: 1 :: 0 :: l => '(d, l) ← parse_address l; match l with [hi; lo] => Some (d, 256 * hi + lo) | _ => None end
  | _ => None
  end.
Definition destination_of (host : string) : destination :=
  match ParseIP host with
  | Some ip => match To4 ip with Some a => IPv4 a | None => IPv6 (To16 ip) end
  | None => Domain (bytes_of host)
  end.

(** What a proxy that lets the client through sends: the method, the approval of the
    credentials if they were asked for, the success of the request with an address. *)
Definition approval (method : Z) : list Z := if method =? 2 then [1; 0] else [].
Definition bound_address (b : list Z) : Prop := exists d port, parse_address b = Some (d, port) /\ List.length port = 2%nat.
Definition proxy_session (method : Z) (b : list Z) : list Z := [5; method] ++ approval method ++ [5; 0; 0] ++ b.
Definition session_writes (method : Z) : nat := if method =? 2 then 3 else 2.

Example socks_session :
  run (socksConnect (MkSOCKS "proxy" 1080 "username_password" "u" "pw") "10.0.0.2" 22) 3 ([5; 2] ++ [1; 0] ++ [5; 0; 0; 3; 1; 97; 0; 80] ++ [83; 83; 72])
  = ([Sent [5; 1; 2]; Got [5; 2]; Sent [1; 1; 117; 2; 112; 119]; Got [1; 0]; Sent [5; 1; 0; 1; 10; 0; 0; 2; 0; 22];
      Got [5; 0; 0; 3]; Got [1]; Got [97; 0; 80]], Ok tt, [83; 83; 72]).
Proof. vm_compute. reflexivity. Qed.

(** ** Requests *)

Lemma ParseIP_length s ip : ParseIP s = Some ip -> List.length ip = 8%nat.
Proof.
  assert (forall groups e ip, expand groups e = Some ip -> List.length ip = 8%nat) as He.
  { intros groups [i|] ip0; cbn; case_match eqn:E; try done; intros [= <-]; [|by apply Nat.eqb_eq in E].
    apply Nat.leb_le in E. rewrite !length_app, length_replicate, length_take, length_drop. lia. }
  assert (forall o, ('(groups, e) ← o; expand (rev groups) e) = Some ip -> List.length ip = 8%nat) as Ho.
  { intros [[groups e]|] H; [by eapply He|done]. }
  unfold ParseIP, parse_ipv6. destruct (first_mark s) as [c|]; [|done]. case_bool_decide.
  - destruct (parse_ipv4 s) as [l|]; [|done]. destruct l as [|? [|? [|? [|? []]]]]; cbn; try done. by intros [= <-].
  - case_bool_decide; [|done]. destruct (contains_byte _ _); [done|].
    destruct (after_ellipsis s) as [rest|]; [|apply Ho]. destruct (String.eqb rest ""); [by intros [= <-]|apply Ho].
Qed.

Lemma To16_length ip : List.length (To16 ip) = (2 * List.length ip)%nat.
Proof. unfold To16. induction ip as [|g ip IH]; [done|]. cbn in *. rewrite IH. lia. Qed.

Lemma To4_length ip a : To4 ip = Some a -> List.length a = 4%nat.
Proof. unfold To4. intros H. repeat case_match; simplify_eq; done. Qed.

Lemma bytes_of_length s : List.length (bytes_of s) = String.length s.
Proof. unfold bytes_of. rewrite length_fmap. induction s as [|c s IH]; [done|]. cbn. by rewrite IH. Qed.

Lemma parse_request_address host a rest :
  request_address host = Some a -> parse_address (a ++ rest) = Some (destination_of host, rest).
Proof.
  unfold request_address, destination_of. destruct (ParseIP host) as [ip|] eqn:E.
  - destruct (To4 ip) as [ip4|] eqn:E4; intros [= <-]; cbn [app parse_address].
    + apply To4_length in E4. destruct (_ <? 4)%nat eqn:El; [apply Nat.ltb_lt in El; rewrite length_app in El; lia|].
      by rewrite take_app_length', drop_app_length'.
    + apply ParseIP_length in E. pose proof (To16_length ip). destruct (_ <? 16)%nat eqn:El; [apply Nat.ltb_lt in El; rewrite length_app in El; lia|].
      rewrite take_app_length', drop_app_length'; [done|lia..].
  - destruct (_ || _); [done|]. intros [= <-]. cbn [app parse_address]. pose proof (bytes_of_length host) as Hb. unfold len. rewrite Nat2Z.id.
    destruct (_ <? _)%nat eqn:El; [apply Nat.ltb_lt in El; rewrite length_app in El; lia|].
    by rewrite take_app_length', drop_app_length'.
Qed.

(** A proxy that follows RFC 1928 reads from the request exactly the destination: an
    IPv4 or IPv6 literal as its bytes, anything else as the name itself -- never resolved
    locally -- and the port. *)
Theorem connect_request_roundtrip host port request :
  0 <= port <= 65535 -> connect_request host port = Some request ->
  parse_request request = Some (destination_of host, port).
Proof.
  intros Hp. unfold connect_request. destruct (request_address host) as [a|] eqn:E; [|done]. cbn [fmap option_fmap option_map].
  intros [= <-]. cbn [app parse_request]. rewrite (parse_request_address host a (port_bytes port) E). cbn. do 2 f_equal.
  rewrite (Z.mod_small (port / 256)) by (split; [apply Z.div_pos; lia|apply Z.div_lt_upper_bound; lia]).
  pose proof (Z.div_mod port 256). lia.
Qed.

(** ** Sessions *)

Lemma run_recv {A} n (failed : A) k writes data inbox :
  List.length data = n ->
  run (Recv n failed k) writes (data ++ inbox) = (let '(tr, a, rest) := run (k data) writes inbox in (Got data :: tr, a, rest)).
Proof.
  intros <-. cbn [run]. destruct (_ <? _)%nat eqn:E; [apply Nat.ltb_lt in E; rewrite length_app in E; lia|].
  by rewrite take_app_length, drop_app_length.
Qed.

(** A read either fails or splits the input. *)
Lemma run_recv_inv {A} n (failed : A) k writes inbox tr a rest :
  run (Recv n failed k) writes inbox = (tr, a, rest) ->
  (tr = [] /\ a = failed /\ rest = []) \/
  exists data inbox' tr', inbox = data ++ inbox' /\ List.length data = n /\ tr = Got data :: tr' /\ run (k data) writes inbox' = (tr', a, rest).
Proof.
  cbn [run]. destruct (_ <? _)%nat eqn:E; [intros [= <- <- <-]; by left|]. apply Nat.ltb_ge in E.
  destruct (run (k (take n inbox)) writes (drop n inbox)) as [[tr' a'] rest'] eqn:Er. intros [= <- <- <-]. right.
  exists (take n inbox), (drop n inbox), tr'. rewrite take_drop, length_take. split_and!; try done. lia.
Qed.

Lemma run_send_inv {A} data (failed : A) k writes inbox tr a rest :
  run (Send data failed k) writes inbox = (tr, a, rest) ->
  (tr = [] /\ a = failed /\ rest = inbox) \/
  exists writes' tr', writes = S writes' /\ tr = Sent data :: tr' /\ run k writes' inbox = (tr', a, rest).
Proof.
  cbn [run]. destruct writes as [|writes]; [intros [= <- <- <-]; by left|].
  destruct (run k writes inbox) as [[tr' a'] rest'] eqn:Er. intros [= <- <- <-]. right. by exists writes, tr'.
Qed.

Lemma skip_address_ok n writes inbox tr rest :
  0 <= n -> run (skip_address n) writes inbox = (tr, Ok tt, rest) ->
  exists data, inbox = data ++ rest /\ List.length data = Z.to_nat (n + 2) /\ tr = [Got data].
Proof.
  intros Hn H. apply run_recv_inv in H as [(_ & ? & _)|(data & inbox' & tr' & -> & Hl & -> & H)]; [done|].
  cbn in H. injection H as <- <-. eauto.
Qed.

Lemma length_4 {A} (l : list A) : List.length l = 4%nat -> exists a b c d, l = [a; b; c; d].
Proof. destruct l as [|a [|b [|c [|d []]]]]; try done. intros _. by exists a, b, c, d. Qed.

Lemma split_bound (data : list Z) n : List.length data = (n + 2)%nat ->
  (List.length data <? n)%nat = false /\ List.length (drop n data) = 2%nat.
Proof. intros Hl. split; [apply Nat.ltb_ge; lia|]. rewrite length_drop. lia. Qed.

(** The reply accepted is a success with one address; what follows it is not read. *)
Lemma read_reply_ok writes inbox tr rest :
  Forall (fun b => 0 <= b < 256) inbox -> run read_reply writes inbox = (tr, Ok tt, rest) ->
  exists b, inbox = [5; 0; 0] ++ b ++ rest /\ bound_address b.
Proof.
  intros Hb H. apply run_recv_inv in H as [(_ & ? & _)|(header & inbox' & tr' & -> & Hl & -> & H)]; [done|].
  apply length_4 in Hl as (v & c & r & t & ->). cbn [read_reply] in H.
  destruct (v =? 5) eqn:E1; [|done]. destruct (r =? 0) eqn:E2; [|done]. cbn [negb orb] in H. destruct (c =? 0) eqn:E3; [|done]. cbn [negb] in H.
  apply Z.eqb_eq in E1 as ->, E2 as ->, E3 as ->. apply Forall_app in Hb as [_ Hb].
  assert (forall n k inbox d tr', 0 <= n -> run (skip_address n) writes inbox = (tr', Ok tt, rest) ->
    (forall data, List.length data = Z.to_nat (n + 2) -> parse_address (k ++ data) = Some (d data, drop (Z.to_nat n) data)) ->
    exists b, [5; 0; 0] ++ k ++ inbox = [5; 0; 0] ++ b ++ rest /\ bound_address b) as Hskip.
  { clear. intros n k inbox d tr' Hn H Hk. apply skip_address_ok in H as (data & -> & Hl & _); [|done].
    exists (k ++ data). rewrite <- app_assoc. split; [done|]. exists (d data), (drop (Z.to_nat n) data). split; [by apply Hk|].
    rewrite length_drop. lia. }
  destruct (t =? 1) eqn:T1; [|destruct (t =? 4) eqn:T4; [|destruct (t =? 3) eqn:T3; [|done]]].
  - apply Z.eqb_eq in T1 as ->. apply (Hskip 4 [1] inbox' (fun l => IPv4 (take 4 l)) tr'); [lia|done|].
    intros data Hl. cbn [app parse_address]. by destruct (split_bound data 4 ltac:(lia)) as [-> _].
  - apply Z.eqb_eq in T4 as ->. apply (Hskip 16 [4] inbox' (fun l => IPv6 (take 16 l)) tr'); [lia|done|].
    intros data Hl. cbn [app parse_address]. by destruct (split_bound data 16 ltac:(lia)) as [-> _].
  - apply Z.eqb_eq in T3 as ->. apply run_recv_inv in H as [(_ & ? & _)|(size & inbox2 & tr2 & -> & Hl & -> & H)]; [done|].
    destruct size as [|n [|]]; try done. apply Forall_app in Hb as [[Hn _]%Forall_cons _]. cbn [head default] in H. unfold Datatypes.id in H.
    apply (Hskip n [3; n] inbox2 (fun l => Domain (take (Z.to_nat n) l)) tr2); [lia|done|].
    intros data Hl2. cbn [app parse_address]. destruct (split_bound data (Z.to_nat n)) as [-> _]; [lia|done].
Qed.

Definition sent (tr : list event) : list (list Z) := omap (fun e => match e with Sent d => Some d | Got _ => None end) tr.
Definition session_sent (cfg : SOCKSConfig) (method : Z) (request : list Z) : list (list Z) :=
  [[5; 1; method]] ++ (if method =? 2 then [auth_request cfg] else []) ++ [request].

(** What may be written in a run, and after which bytes of the proxy. *)
Definition write_allowed (cfg : SOCKSConfig) (host : string) (port method : Z) (inbox data : list Z) : Prop :=
  data = [5; 1; method] \/
  (method = 2 /\ data = auth_request cfg /\ [5; 2] `prefix_of` inbox) \/
  (connect_request host port = Some data /\ ([5; method] ++ approval method) `prefix_of` inbox).

Lemma read_reply_sends_nothing writes inbox : sent (run read_reply writes inbox).1.1 = [].
Proof.
  destruct (run read_reply writes inbox) as [[tr r] rest] eqn:H. cbn [fst].
  assert (forall n writes inbox tr r rest, run (skip_address n) writes inbox = (tr, r, rest) -> sent tr = []) as Hskip.
  { clear. intros n writes inbox tr r rest H. apply run_recv_inv in H as [(-> & _)|(d & i & tr' & _ & _ & -> & H)]; [done|].
    cbn in H. by injection H as <- _ _. }
  apply run_recv_inv in H as [(-> & _)|(header & inbox' & tr' & -> & Hl & -> & H)]; [done|]. cbn [sent omap list_omap].
  apply length_4 in Hl as (v & c & x & t & ->). cbn [read_reply] in H.
  destruct (_ || _) in H; [cbn in H; by injection H as <- _ _|]. destruct (negb _) in H; [cbn in H; by injection H as <- _ _|].
  destruct (t =? 1); [by eapply Hskip|]. destruct (t =? 4); [by eapply Hskip|].
  destruct (t =? 3); [|cbn in H; by injection H as <- _ _].
  apply run_recv_inv in H as [(-> & _)|(size & i2 & tr2 & _ & _ & -> & H)]; [done|]. cbn [omap list_omap]. by eapply Hskip.
Qed.

Lemma send_request_run cfg host port method writes inbox tr r rest pre :
  run (send_request host port) writes inbox = (tr, r, rest) ->
  Forall (write_allowed cfg host port method (([5; method] ++ approval method) ++ pre)) (sent tr) /\
  (r = Ok tt -> exists request writes' tr', connect_request host port = Some request /\ writes = S writes' /\ tr = Sent request :: tr' /\
     run read_reply writes' inbox = (tr', Ok tt, rest) /\ sent tr = [request]).
Proof.
  unfold send_request. destruct (connect_request host port) as [request|] eqn:E; [|intros [= <- <- <-]; by split; [constructor|]].
  intros H. apply run_send_inv in H as [(-> & -> & _)|(w & tr' & -> & -> & H)]; [by split; [constructor|]|].
  pose proof (read_reply_sends_nothing w inbox) as Hs. rewrite H in Hs. cbn [fst] in Hs. cbn [sent omap list_omap]. fold (sent tr').
  rewrite Hs. split.
  - constructor; [|constructor]. right. right. split; [done|]. by apply prefix_app_r.
  - intros ->. exists request, w, tr'. done.
Qed.

(** Credentials go only to a proxy that asked for them, and a proxy cannot talk the
    client out of them.  Whatever the proxy sends, the only things written are the method
    the configuration demands -- with a password, that one alone --, the credentials after
    the proxy selected it, and the request after it selected the method and, with a
    password, approved the credentials; so a connection that is reported was authenticated
    as configured, and the request was sent once. *)
Theorem socks_no_downgrade cfg host port writes inbox tr r rest :
  run (socksConnect cfg host port) writes inbox = (tr, r, rest) ->
  (s_auth cfg = "username_password" -> socks_method cfg = Some 2 \/ tr = []) /\
  (forall data, data ∈ sent tr -> exists method, socks_method cfg = Some method /\ write_allowed cfg host port method inbox data) /\
  (r = Ok tt -> exists method request, socks_method cfg = Some method /\ connect_request host port = Some request /\
     ([5; method] ++ approval method) `prefix_of` inbox /\ sent tr = session_sent cfg method request).
Proof.
  intros H. split.
  { intros Ha. unfold socksConnect in H. destruct (socks_method cfg) as [m|] eqn:E; [|right; by injection H as <- _ _]. left.
    unfold socks_method in E. rewrite Ha in E.
    change (bool_decide ("username_password" = "")) with false in E. cbv iota zeta in E.
    change (bool_decide ("username_password" = "none")) with false in E. change (bool_decide ("username_password" = "username_password")) with true in E.
    cbv iota in E. match type of E with (if ?x then _ else _) = _ => destruct x end; [done|exact (eq_sym E)]. }
  cut (Forall (fun data => exists method, socks_method cfg = Some method /\ write_allowed cfg host port method inbox data) (sent tr) /\
       (r = Ok tt -> exists method request, socks_method cfg = Some method /\ connect_request host port = Some request /\
          ([5; method] ++ approval method) `prefix_of` inbox /\ sent tr = session_sent cfg method request)).
  { rewrite Forall_forall. done. }
  unfold socksConnect in H. destruct (socks_method cfg) as [m|] eqn:Em; [|injection H as <- <- _; by split; [constructor|]].
  apply run_send_inv in H as [(-> & -> & _)|(w1 & tr1 & -> & -> & H)]; [by split; [constructor|]|]. cbn [sent omap list_omap]. fold (sent tr1).
  assert (forall l, Forall (write_allowed cfg host port m inbox) l ->
    Forall (fun data => exists method, Some m = Some method /\ write_allowed cfg host port method inbox data) l) as Hall.
  { intros l Hl. eapply Forall_impl; [done|]. intros d Hd. by exists m. }
  assert (write_allowed cfg host port m inbox [5; 1; m]) as Hgreet by (by left).
  apply run_recv_inv in H as [(-> & -> & _)|(reply & i1 & tr2 & -> & _ & -> & H)]; [by split; [apply Hall; cbn; by rewrite ?Forall_cons, ?Forall_nil|]|].
  cbn [sent omap list_omap]. fold (sent tr2).
  case_bool_decide as Er; cbn [negb] in H; [|cbn in H; injection H as <- <- _; by split; [apply Hall; cbn; by rewrite ?Forall_cons, ?Forall_nil|]]. subst reply.
  destruct (m =? 2) eqn:E2.
  - apply Z.eqb_eq in E2 as ->.
    apply run_send_inv in H as [(-> & -> & _)|(w2 & tr3 & -> & -> & H)]; [by split; [apply Hall; cbn; by rewrite ?Forall_cons, ?Forall_nil|]|].
    cbn [sent omap list_omap]. fold (sent tr3).
    assert (write_allowed cfg host port 2 ([5; 2] ++ i1) (auth_request cfg)) as Hauth.
    { right. left. split_and!; [done..|]. by apply prefix_app_r. }
    apply run_recv_inv in H as [(-> & -> & _)|(reply & i2 & tr4 & -> & _ & -> & H)]; [by split; [apply Hall; cbn; by rewrite ?Forall_cons, ?Forall_nil|]|].
    cbn [sent omap list_omap]. fold (sent tr4).
    case_bool_decide as Er; cbn [negb] in H; [|cbn in H; injection H as <- <- _; by split; [apply Hall; cbn; by rewrite ?Forall_cons, ?Forall_nil|]]. subst reply.
    destruct (send_request_run cfg host port 2 _ _ _ _ _ i2 H) as [Hw Hok]. split.
    + apply Hall. constructor; [done|]. constructor; [done|]. exact Hw.
    + intros E. destruct (Hok E) as (request & w' & tr' & Hreq & _ & _ & _ & Hs). exists 2, request.
      split_and!; [done..|by exists i2|]. unfold session_sent. cbn. by rewrite Hs.
  - destruct (send_request_run cfg host port m _ _ _ _ _ i1 H) as [Hw Hok].
    assert (approval m = []) as Ha by (unfold approval; by rewrite E2). rewrite Ha in *. split.
    + apply Hall. constructor; [done|]. exact Hw.
    + intros E. destruct (Hok E) as (request & w' & tr' & Hreq & _ & _ & _ & Hs). exists m, request.
      split_and!; [done..|by rewrite Ha; exists i1|]. unfold session_sent. rewrite E2. cbn. by rewrite Hs.
Qed.

Lemma run_send {A} data (failed : A) k writes inbox tr a rest :
  run k writes inbox = (tr, a, rest) -> run (Send data failed k) (S writes) inbox = (Sent data :: tr, a, rest).
Proof. intros H. cbn [run]. by rewrite H. Qed.

Lemma run_recv_eq {A} n (failed : A) k writes data inbox tr a rest :
  List.length data = n -> run (k data) writes inbox = (tr, a, rest) ->
  run (Recv n failed k) writes (data ++ inbox) = (Got data :: tr, a, rest).
Proof. intros Hl H. rewrite run_recv by done. by rewrite H. Qed.

Lemma skip_address_run n writes data rest :
  List.length data = Z.to_nat (n + 2) -> run (skip_address n) writes (data ++ rest) = ([Got data], Ok tt, rest).
Proof. intros Hl. unfold skip_address. by apply run_recv_eq. Qed.

Lemma read_reply_accepts writes b rest :
  Forall (fun x => 0 <= x < 256) b -> bound_address b -> exists tr, run read_reply writes ([5; 0; 0] ++ b ++ rest) = (tr, Ok tt, rest).
Proof.
  intros Hb (d & port & Hp & Hl).
  assert (forall n t (k : list Z -> dialogue (result RouteError unit)) data, k [5; 0; 0; t] = skip_address n -> List.length data = Z.to_nat (n + 2) ->
    exists tr, run (Recv 4 connect_broken k) writes ([5; 0; 0] ++ (t :: data) ++ rest) = (tr, Ok tt, rest)) as Hfix.
  { intros n t k data Hk Hd. exists [Got [5; 0; 0; t]; Got data]. change ([5; 0; 0] ++ (t :: data) ++ rest) with ([5; 0; 0; t] ++ data ++ rest).
    apply run_recv_eq; [done|]. rewrite Hk. by apply skip_address_run. }
  destruct b as [|t b]; [done|]. unfold parse_address in Hp.
  destruct (decide (t = 1)) as [->|H1]; [|destruct (decide (t = 4)) as [->|H4]; [|destruct (decide (t = 3)) as [->|H3]]].
  - destruct (_ <? _)%nat eqn:E in Hp; [done|]. injection Hp as _ <-. apply Nat.ltb_ge in E. rewrite length_drop in Hl.
    apply (Hfix 4); [done|lia].
  - destruct (_ <? _)%nat eqn:E in Hp; [done|]. injection Hp as _ <-. apply Nat.ltb_ge in E. rewrite length_drop in Hl.
    apply (Hfix 16); [done|lia].
  - destruct b as [|n b]; [done|]. destruct (_ <? _)%nat eqn:E in Hp; [done|]. injection Hp as _ <-. apply Nat.ltb_ge in E. rewrite length_drop in Hl.
    apply Forall_cons in Hb as [_ [Hn _]%Forall_cons].
    exists [Got [5; 0; 0; 3]; Got [n]; Got b]. change ([5; 0; 0] ++ (3 :: n :: b) ++ rest) with ([5; 0; 0; 3] ++ [n] ++ b ++ rest).
    unfold read_reply. apply run_recv_eq; [done|].
    change (run (Recv 1 connect_broken (fun size => skip_address (default 0 (head size)))) writes ([n] ++ b ++ rest) = ([Got [n]; Got b], Ok tt, rest)).
    apply run_recv_eq; [done|]. apply (skip_address_run n). lia.
  - exfalso. destruct t as [|[[[t|t|]|[t|t|]|]|[[t|t|]|[t|t|]|]|]|t]; done.
Qed.

(** A connection through the proxy is established exactly when the proxy lets it through.
    The client succeeds if and only if the configuration and the destination can be sent
    and the bytes of the proxy are: the configured method, the approval of the credentials
    when they were asked for, and a success with one bound address of any of the three
    kinds; every byte after that is left unread for the SSH handshake. *)
Theorem socks_connects_exactly cfg host port writes inbox rest :
  Forall (fun x => 0 <= x < 256) inbox ->
  (exists tr, run (socksConnect cfg host port) writes inbox = (tr, Ok tt, rest)) <->
  exists method request b, socks_method cfg = Some method /\ connect_request host port = Some request /\
    (session_writes method <= writes)%nat /\ bound_address b /\ inbox = proxy_session method b ++ rest.
Proof.
  intros Hb. split.
  - intros [tr H]. unfold socksConnect in H. destruct (socks_method cfg) as [m|] eqn:Em; [|done].
    apply run_send_inv in H as [(_ & ? & _)|(w1 & tr1 & -> & _ & H)]; [done|].
    apply run_recv_inv in H as [(_ & ? & _)|(reply & i1 & tr2 & -> & _ & _ & H)]; [done|].
    case_bool_decide as Er; cbn [negb] in H; [subst reply|done]. apply Forall_app in Hb as [_ Hb].
    unfold session_writes, proxy_session, approval. exists m. destruct (m =? 2).
    + apply run_send_inv in H as [(_ & ? & _)|(w2 & tr3 & -> & _ & H)]; [done|].
      apply run_recv_inv in H as [(_ & ? & _)|(reply & i2 & tr4 & -> & _ & _ & H)]; [done|].
      case_bool_decide as Er; cbn [negb] in H; [subst reply|done]. apply Forall_app in Hb as [_ Hb].
      destruct (send_request_run cfg host port m _ _ _ _ _ [] H) as [_ Hok].
      destruct (Hok eq_refl) as (request & w' & tr' & Hreq & -> & _ & Hr & _). apply read_reply_ok in Hr as (b & -> & Hbound); [|done].
      exists request, b. split_and!; try done. lia.
    + destruct (send_request_run cfg host port m _ _ _ _ _ [] H) as [_ Hok].
      destruct (Hok eq_refl) as (request & w' & tr' & Hreq & -> & _ & Hr & _). apply read_reply_ok in Hr as (b & -> & Hbound); [|done].
      exists request, b. split_and!; try done. lia.
  - intros (m & request & b & Em & Hreq & Hw & Hbound & ->). unfold socksConnect. rewrite Em. unfold proxy_session in *.
    rewrite <- !app_assoc in *. apply Forall_app in Hb as [_ Hb]. apply Forall_app in Hb as [_ Hb]. apply Forall_app in Hb as [_ Hb].
    apply Forall_app in Hb as [Hb _].
    assert (forall w, exists tr, run (send_request host port) (S w) ([5; 0; 0] ++ b ++ rest) = (tr, Ok tt, rest)) as Hsend.
    { intros w. destruct (read_reply_accepts w b rest Hb Hbound) as [tr Htr]. exists (Sent request :: tr).
      unfold send_request. rewrite Hreq. by apply run_send. }
    unfold session_writes, approval in *. destruct writes as [|w]; [destruct (m =? 2); lia|].
    destruct (m =? 2) eqn:E2.
    + destruct w as [|[|w]]; [lia..|]. destruct (Hsend w) as [tr Htr]. eexists. apply run_send. apply run_recv_eq; [done|].
      rewrite bool_decide_eq_true_2 by done. cbn [negb]. apply run_send. apply run_recv_eq; [done|].
      rewrite bool_decide_eq_true_2 by done. exact Htr.
    + destruct w as [|w]; [lia|]. destruct (Hsend w) as [tr Htr]. eexists. apply run_send. apply run_recv_eq; [done|].
      rewrite bool_decide_eq_true_2 by done. cbn [negb app]. exact Htr.
Qed.

Definition demo_socks : SOCKSConfig := MkSOCKS "proxy" 1080 "username_password" "u" "pw".

Lemma connect_request_roundtrip_witness :
  connect_request "db.internal" 22 = Some ([5; 1; 0; 3; 11] ++ bytes_of "db.internal" ++ [0; 22]) /\
  parse_request ([5; 1; 0; 3; 11] ++ bytes_of "db.internal" ++ [0; 22]) = Some (destination_of "db.internal", 22).
Proof. split; [reflexivity|]. apply (connect_request_roundtrip "db.internal" 22); [lia|reflexivity]. Defined.

Lemma socks_no_downgrade_witness :
  run (socksConnect demo_socks "10.0.0.2" 22) 3 [5; 0] = ([Sent [5; 1; 2]; Got [5; 0]], auth_failed, []) /\
  (socks_method demo_socks = Some 2 \/ [Sent [5; 1; 2]; Got [5; 0]] = []).
Proof.
  split; [reflexivity|].
  destruct (socks_no_downgrade demo_socks "10.0.0.2" 22 3 [5; 0] [Sent [5; 1; 2]; Got [5; 0]] auth_failed [] eq_refl) as [H _].
  exact (H eq_refl).
Defined.

Lemma socks_connects_exactly_witness :
  exists tr, run (socksConnect demo_socks "10.0.0.2" 22) 3 (proxy_session 2 [1; 10; 0; 0; 9; 0; 80] ++ [83]) = (tr, Ok tt, [83]).
Proof.
  apply (socks_connects_exactly demo_socks "10.0.0.2" 22 3).
  - apply (bool_decide_unpack _). vm_compute. exact I.
  - exists 2, [5; 1; 0; 1; 10; 0; 0; 2; 0; 22], [1; 10; 0; 0; 9; 0; 80].
    split; [reflexivity|]. split; [reflexivity|]. split; [cbn; lia|]. split; [|reflexivity].
    exists (IPv4 [10; 0; 0; 9]), [0; 80]. split; reflexivity.
Defined.
