(* ===== verification/SSHRoute.v ===== *)
(** * Dialling a server

    [pkg/sshpool/dial.go] and [route.go]: one SSH handshake checked against the pinned key,
    and the chain of a direct, jumped or proxied route; [service/ssh_route.go]: the route
    read from the database, its fingerprint, and the loop that hands out a connection.
    The network, the SSH library and the random timing of other transactions are data of a
    run ([network], [attempt]); what the SSH library promises is [library_ok]. *)

From stdpp Require Import pretty countable.
From S2P Require Import Prelude GoStrings NetIP Servers Secrets Socks5.

Inductive auth_method := PasswordAuth (password : string) | KeyAuth (key : string).
(** [KnownHostKey]: empty when no key is pinned. *)
Record Endpoint := MkEndpoint { ep_host : string; ep_port : Z; ep_user : string; AuthMethod : option auth_method; KnownHostKey : string }.
Record Route := MkRoute { rt_target : Endpoint; rt_mode : string; rt_jump : option Endpoint; rt_socks : option SOCKSConfig }.

Inductive ctx_err := Canceled | DeadlineExceeded.

(** What an error wraps. *)
Inductive cause :=
| NetworkError | InvalidEndpoint | ContextError (e : ctx_err)
| HostKeyUnverifiedError (presented : string) | HostKeyMismatchError (presented : string) | SSHError (message : string).
Inductive dial_err := RouteFailed (e : RouteError) (c : cause) | PlainError (c : cause).

Inductive role := JumpRole | TargetRole.
Definition role_name (r : role) : string := match r with JumpRole => "jump" | TargetRole => "target" end.

(** ** One handshake *)

(** What [ssh.NewClientConn] did: the key it passed to the callback, whether it sent the
    credentials, whether the connection was established. *)
Record client_conn := ClientConn { presented : option string; offered : bool; established : bool; ssh_message : string }.

Record network := Network {
  ctx_start : option ctx_err; tcp_dial : string * Z -> option cause;
  NewClientConn : role -> string -> option auth_method -> (string -> bool) -> client_conn;
  ctx_handshake : role -> option ctx_err;
  forward_ok : bool; ctx_forward : option ctx_err; proxy_writes : nat; proxy_bytes : list Z;
  ctx_end : option ctx_err }.

(** The contract of the library: credentials are sent, and connections established, only
    after the callback accepted the key the peer proved. *)
Definition library_ok (net : network) : Prop :=
  forall r user auth callback, let c := NewClientConn net r user auth callback in
    offered c = true \/ established c = true -> exists key, presented c = Some key /\ callback key = true.

(** What left the machine. *)
Inductive sight := Connected (host : string) (port : Z) | Proxied (dialogue : list event) | Offered (r : role) (e : Endpoint) (key : string)
                 | Forwarded (host : string) (port : Z).

(** The host-key callback. *)
Definition accepts (known key : string) : bool := negb (String.eqb known "") && String.eqb known key.

(** [HandshakeContext]: established, the captured key, the error, what was sent. *)
Definition HandshakeContext (net : network) (r : role) (e : Endpoint) : bool * option string * option cause * list sight :=
  let c := NewClientConn net r (ep_user e) (AuthMethod e) (accepts (KnownHostKey e)) in
  let log := if offered c then [Offered r e (default "" (presented c))] else [] in
  match ctx_handshake net r with
  | Some err => (false, None, Some (ContextError err), log)
  | None =>
      if established c then (true, presented c, None, log)
      else match presented c with
           | Some key =>
               if String.eqb (KnownHostKey e) "" then (false, Some key, Some (HostKeyUnverifiedError key), log)
               else if negb (String.eqb (KnownHostKey e) key) then (false, Some key, Some (HostKeyMismatchError key), log)
               else (false, None, Some (SSHError (ssh_message c)), log)
           | None => (false, None, Some (SSHError (ssh_message c)), log)
           end
  end.

(** [strings.Contains]. *)
Definition contains (s sub : string) : bool := match String.index 0 sub s with Some _ => true | None => false end.

Definition handshakeFailure (r : role) (c : cause) : dial_err :=
  let failure stage reason := RouteFailed (MkRouteError reason (role_name r +:+ stage) (role_name r)) c in
  match c with
  | HostKeyUnverifiedError _ => failure "_host_key" "ssh_host_key_unverified"
  | HostKeyMismatchError _ => failure "_host_key" "ssh_host_key_mismatch"
  | SSHError m => failure "_auth" (if contains m "unable to authenticate" || contains m "no supported methods remain"
                                   then "ssh_authentication_failed" else "ssh_connection_failed")
  | _ => failure "_auth" "ssh_connection_failed"
  end.

(** ** The chain *)

Record dialled := Dialled { d_client : bool; d_target_key : option string; d_jump_key : option string; d_err : option dial_err; d_log : list sight }.

Definition valid_endpoint (host : string) (port : Z) : bool := negb (bool_decide (host = "")) && (1 <=? port) && (port <=? 65535).
Definition refuse (role stage reason : string) (c : cause) : dialled :=
  Dialled false None None (Some (RouteFailed (MkRouteError reason stage role) c)) [].

(** What is dialled first and as whom; an error when the route is malformed. *)
Definition first_hop (route : Route) : dialled + (string * Z * string) :=
  if negb (valid_endpoint (ep_host (rt_target route)) (ep_port (rt_target route)))
  then inl (refuse "target" "target_connect" "ssh_connection_failed" InvalidEndpoint)
  else if bool_decide (rt_mode route = "") || bool_decide (rt_mode route = ConnectionDirect)
  then inr (ep_host (rt_target route), ep_port (rt_target route), "target")
  else if bool_decide (rt_mode route = ConnectionSSHJump) then
    match rt_jump route with
    | Some j => if valid_endpoint (ep_host j) (ep_port j) then inr (ep_host j, ep_port j, "jump")
                else inl (refuse "jump" "jump_connect" "ssh_connection_failed" InvalidEndpoint)
    | None => inl (refuse "jump" "jump_connect" "ssh_connection_failed" InvalidEndpoint)
    end
  else if bool_decide (rt_mode route = ConnectionSOCKS5) then
    match rt_socks route with
    | Some s => if valid_endpoint (s_host s) (s_port s) then inr (s_host s, s_port s, "proxy")
                else inl (refuse "proxy" "proxy_connect" "proxy_connection_failed" InvalidEndpoint)
    | None => inl (refuse "proxy" "proxy_connect" "proxy_connection_failed" InvalidEndpoint)
    end
  else inl (refuse "target" "target_connect" "ssh_connection_failed" InvalidEndpoint).

Definition target_handshake (net : network) (route : Route) (jumpKey : option string) (log : list sight) : dialled :=
  match HandshakeContext net TargetRole (rt_target route) with
  | (ok, key, Some c, sent) => Dialled false key jumpKey (Some (handshakeFailure TargetRole c)) (log ++ sent)
  | (ok, key, None, sent) => Dialled true key jumpKey None (log ++ sent)
  end.

(** The body, once the first TCP connection stands. *)
Definition dial_chain (net : network) (route : Route) (hop : string) (log : list sight) : dialled :=
  if bool_decide (hop = "jump") then
    match rt_jump route with
    | None => Dialled false None None None log
    | Some j =>
        match HandshakeContext net JumpRole j with
        | (_, key, Some c, sent) => Dialled false None key (Some (handshakeFailure JumpRole c)) (log ++ sent)
        | (_, key, None, sent) =>
            let log := log ++ sent ++ [Forwarded (ep_host (rt_target route)) (ep_port (rt_target route))] in
            let failed c := Dialled false None key (Some (RouteFailed (MkRouteError "jump_forward_failed" "jump_forward" "jump") c)) log in
            match ctx_forward net with
            | Some e => failed (ContextError e)
            | None => if forward_ok net then target_handshake net route key log else failed NetworkError
            end
        end
    end
  else if bool_decide (hop = "proxy") then
    match rt_socks route with
    | None => Dialled false None None None log
    | Some s =>
        match run (socksConnect s (ep_host (rt_target route)) (ep_port (rt_target route))) (proxy_writes net) (proxy_bytes net) with
        | (tr, Err e, _) => Dialled false None None (Some (RouteFailed e NetworkError)) (log ++ [Proxied tr])
        | (tr, Ok _, _) => target_handshake net route None (log ++ [Proxied tr])
        end
    end
  else target_handshake net route None log.

(** The deferred check of the context: it takes the place of any other error. *)
Definition dial_end (net : network) (d : dialled) : dialled :=
  match ctx_end net with
  | None => d
  | Some e =>
      let error := match d_err d with
                   | Some (RouteFailed re _) => RouteFailed re (ContextError e)
                   | _ => RouteFailed (MkRouteError "ssh_connection_failed" "target_auth" "target") (ContextError e)
                   end in
      Dialled false (d_target_key d) (d_jump_key d) (Some error) (d_log d)
  end.

Definition DialRouteContext (net : network) (route : Route) : dialled :=
  match ctx_start net with
  | Some e => Dialled false None None (Some (PlainError (ContextError e))) []
  | None =>
      match first_hop route with
      | inl d => d
      | inr (host, port, hop) =>
          let log := [Connected host port] in
          match tcp_dial net (host, port) with
          | None => dial_end net (dial_chain net route hop log)
          | Some c =>
              let reason := if bool_decide (hop = "proxy") then "proxy_connection_failed" else "ssh_connection_failed" in
              Dialled false None None (Some (RouteFailed (MkRouteError reason (hop +:+ "_connect") hop) c)) log
          end
      end
  end.

(** ** Routes of the service *)

(** An [AppError] by its status, reason, stage and role; other errors by what they are. *)
Inductive route_error :=
| RouteApp (code : Z) (reason stage role : string) | ConnectionConflict | CredentialDecrypt | ServerNotFound
| ContextEnded (e : ctx_err) | PoolClosed | HostKeyUnverified | InternalError | AcquireFailed | CommitFailed.

(** [routeFailure] of the service. *)
Definition routeFailure (reason stage role : string) : route_error :=
  RouteApp (if bool_decide (reason = "ssh_timeout") then 504 else if bool_decide (reason = "ssh_host_key_unverified") then 409 else 502)
    reason stage role.

Definition validSSHCredential (l : loaded) : bool :=
  match CredentialID (l_server l), l_cred l with
  | Some id, Some c =>
      (cr_id c =? id) && negb (cr_deleted c) && negb (bool_decide (Username c = "")) &&
      (bool_decide (AuthType c = "password") && bool_decide (is_Some (cr_password c)) ||
       bool_decide (AuthType c = "private_key") && bool_decide (is_Some (cr_key c)))
  | _, _ => false
  end.

Definition mode (snap : SSHRouteSnapshot) : string := configMode (sn_config snap).

Definition readRoute (d : serverdb) (id : Z) (ctx : option ctx_err) : result route_error SSHRouteSnapshot :=
  match readSSHRouteSnapshot d id with
  | Err ErrSSHJumpUnavailable => Err (routeFailure "ssh_connection_failed" "jump_connect" "jump")
  | Err ErrSSHJumpProxied => Err ConnectionConflict
  | Err RouteNotFound => Err ServerNotFound
  | Ok snap =>
      try _ :=
        match sn_config snap with
        | None => Ok tt
        | Some c =>
            if bool_decide (Mode c = ConnectionDirect) then Ok tt
            else if bool_decide (Mode c = ConnectionSSHJump) then
              match JumpServerID c with
              | None => Err ConnectionConflict
              | Some j =>
                  if j =? id then Err ConnectionConflict
                  else match Jump snap with
                       | None => Err (routeFailure "ssh_connection_failed" "jump_connect" "jump")
                       | Some jump => if validSSHCredential jump then Ok tt
                                      else Err (routeFailure "ssh_authentication_failed" "jump_auth" "jump")
                       end
              end
            else if bool_decide (Mode c = ConnectionSOCKS5) then
              if bool_decide (SocksHost c = "") || (SocksPort c <? 1) || (65535 <? SocksPort c) then Err ConnectionConflict
              else if negb (bool_decide (SocksAuthType c = SOCKSAuthNone)) && negb (bool_decide (SocksAuthType c = SOCKSAuthPassword))
              then Err ConnectionConflict
              else if bool_decide (SocksAuthType c = SOCKSAuthPassword) &&
                      (bool_decide (SocksUsername c = "") || bool_decide (c_password c = None) || bool_decide (default "" (c_salt c) = ""))
              then Err ConnectionConflict else Ok tt
            else Err ConnectionConflict
        end in
      if negb (validSSHCredential (Target snap)) then Err (routeFailure "ssh_authentication_failed" "target_auth" "target")
      else match ctx with Some e => Err (ContextEnded e) | None => Ok snap end
  end.

(** *** Fingerprints *)

(** The values that are hashed: a server, and a route that is not direct. *)
Definition cred_fields (c : SSHCredential) :=
  (cr_id c, UpdatedAt c, AuthType c, Username c, cr_password c, cr_key c, cr_version c, cr_salt c, cr_deleted c).
Definition server_fields (l : loaded) :=
  let s := l_server l in
  (Host s, Port s, ConnectionRevision s, CredentialID s, cred_fields <$> l_cred l, HostKey s, HostKeySeen s, HostKeyMismatchAt s).
Definition fp_server : Type :=
  string * Z * Z * option Z * option (Z * time * string * string * option string * option string * Z * string * bool) *
  option string * option string * option time.
Definition fp_route : Type :=
  string * string * string * option Z * string * Z * string * string * option string * Z * option string.

Section service.
Context `{P : Primitives} (master : string).
(** [fingerprintValue]: SHA-256 of the JSON of the value. *)
Context (fingerprintValue : fp_server + fp_route -> string).
(** [ssh.ParsePrivateKey] accepts the text. *)
Context (parses : string -> bool).

Definition serverFingerprint (l : loaded) : string := fingerprintValue (inl (server_fields l)).
Definition fingerprint (snap : SSHRouteSnapshot) : string :=
  if bool_decide (mode snap = ConnectionDirect) then serverFingerprint (Target snap)
  else match sn_config snap with
       | None => serverFingerprint (Target snap)
       | Some c =>
           fingerprintValue (inr (serverFingerprint (Target snap), mode snap,
             match Jump snap with Some j => serverFingerprint j | None => "" end, JumpServerID c, SocksHost c, SocksPort c,
             SocksAuthType c, SocksUsername c, c_password c, c_version c, c_salt c))
       end.

(** *** Dialling a route *)

Definition buildAuthMethod (password key : string) : option auth_method :=
  if negb (String.eqb password "") then Some (PasswordAuth password)
  else if negb (String.eqb key "") then (if parses key then Some (KeyAuth key) else None) else None.

Definition endpoint (l : loaded) : result route_error Endpoint :=
  match l_cred l with
  | None => Err CredentialDecrypt
  | Some c =>
      match decryptCredential master c with
      | Err _ => Err CredentialDecrypt
      | Ok v =>
          match buildAuthMethod (rv_password v) (rv_key v) with
          | None => Err CredentialDecrypt
          | Some auth => Ok (MkEndpoint (Host (l_server l)) (Port (l_server l)) (rv_user v) (Some auth) (default "" (HostKey (l_server l))))
          end
      end
  end.

Definition socks_of (c : Config) : result route_error SOCKSConfig :=
  let socks := MkSOCKS (SocksHost c) (SocksPort c) (SocksAuthType c) (SocksUsername c) in
  if bool_decide (SocksAuthType c = SOCKSAuthPassword) then
    match ForRecord master (c_version c) (default "" (c_salt c)) PurposeSOCKS5, c_password c with
    | Ok cipher, Some encrypted =>
        match Decrypt cipher "password" encrypted with Ok p => Ok (socks p) | Err _ => Err CredentialDecrypt end
    | _, _ => Err CredentialDecrypt
    end
  else Ok (socks "").

Definition route_of (snap : SSHRouteSnapshot) : result route_error Route :=
  try target := endpoint (Target snap) in
  try jump := match Jump snap with Some j => (try e := endpoint j in Ok (Some e)) | None => Ok None end in
  try socks := match sn_config snap with
               | Some c => if bool_decide (Mode c = ConnectionSOCKS5) then (try s := socks_of c in Ok (Some s)) else Ok None
               | None => Ok None
               end in
  Ok (MkRoute target (mode snap) jump socks).

(** [dialRoute]: an error of its own, or what the dial did. *)
Definition dialRoute (net : network) (snap : SSHRouteSnapshot) : result route_error dialled :=
  try route := route_of snap in Ok (DialRouteContext net route).

(** *** Errors *)

Definition cause_of (e : dial_err) : cause := match e with RouteFailed _ c => c | PlainError c => c end.
Definition safeRouteError (e : dial_err) : route_error :=
  let re := match e with
            | RouteFailed re _ => MkRouteError (if bool_decide (Reason re = "ssh_auth_failed") then "ssh_authentication_failed" else Reason re) (Stage re) (Role re)
            | PlainError _ => MkRouteError "ssh_connection_failed" "target_connect" "target"
            end in
  let reason := match cause_of e with
                | HostKeyMismatchError _ => "ssh_host_key_mismatch"
                | HostKeyUnverifiedError _ => "ssh_host_key_unverified"
                | ContextError DeadlineExceeded => "ssh_timeout"
                | _ => Reason re
                end in
  routeFailure reason (Stage re) (Role re).

(** [recordMismatch]: the server whose key has to be recorded and the key. *)
Definition mismatch_to_record (snap : SSHRouteSnapshot) (e : dial_err) : result route_error (option (loaded * string)) :=
  match cause_of e with
  | HostKeyMismatchError key | HostKeyUnverifiedError key =>
      let srv := match e with
                 | RouteFailed re _ => if bool_decide (Role re = "jump") then Jump snap else Some (Target snap)
                 | PlainError _ => Some (Target snap)
                 end in
      match srv with
      | None => Err InternalError
      | Some l =>
          if bool_decide (HostKeySeen (l_server l) = Some key) && bool_decide (is_Some (HostKeyMismatchAt (l_server l)))
          then Ok None else Ok (Some (l, key))
      end
  | _ => Ok None
  end.

(** ** Handing out a connection *)

(** The pool's answer to [AcquireContext]; [AcquireFreshContext] never has a cached client. *)
Inductive acquired := CachedClient | EmptySlot | StaleLease | AcquireError.
(** A commit of a host key: updated, not updated (with the database read next), failed. *)
Inductive committed := Updated | NotUpdated (latest : serverdb) | CommitError.

(** What happens around one attempt: the databases its reads meet, the pool's answers, the
    network of its dial and the ends of its contexts. *)
Record attempt := Attempt {
  a_ctx : nat -> option ctx_err; a_first : serverdb; a_acquired : acquired; a_net : network; a_dial_ctx : option ctx_err;
  a_record : committed; a_second : serverdb; a_valid_second : bool; a_commit_jump : committed; a_commit_target : committed;
  a_third : serverdb; a_valid_third : bool; a_rebound : bool }.

Definition hasTrustedHostKey (l : loaded) : bool := negb (no_key (HostKey (l_server l))).
Definition confirmed (l : loaded) : loaded :=
  Loaded (with_keys (HostKey (l_server l)) None None (l_server l)) (l_cred l).

Inductive confirm_err := RouteChanged | ConfirmFailed (e : route_error).
(** One pass of [confirmHostKeys]: for the jump host, then for the target. *)
Definition confirm_one (id : Z) (commit : committed) (key : option string) (l : loaded) (set : loaded -> SSHRouteSnapshot) :
    result confirm_err (option SSHRouteSnapshot) :=
  match key with
  | None => Ok None
  | Some key =>
      if String.eqb key "" then Ok None
      else if negb (hasTrustedHostKey l) then Err (ConfirmFailed HostKeyUnverified)
      else match HostKeyMismatchAt (l_server l) with
           | None => Ok None
           | Some _ =>
               match commit with
               | CommitError => Err (ConfirmFailed CommitFailed)
               | Updated => Ok (Some (set (confirmed l)))
               | NotUpdated latest =>
                   match readRoute latest id None with
                   | Ok latest => if String.eqb (fingerprint latest) (fingerprint (set (confirmed l)))
                                  then Ok (Some (set (confirmed l))) else Err RouteChanged
                   | Err _ => Err RouteChanged
                   end
               end
           end
  end.
Definition confirmHostKeys (id : Z) (a : attempt) (snap : SSHRouteSnapshot) (targetKey jumpKey : option string) :
    result confirm_err (SSHRouteSnapshot * bool) :=
  try after_jump :=
    match Jump snap with
    | None => Ok (snap, false)
    | Some j =>
        try o := confirm_one id (a_commit_jump a) jumpKey j (fun j => Snapshot (Target snap) (sn_config snap) (Some j)) in
        Ok (match o with Some snap => (snap, true) | None => (snap, false) end)
    end in
  let '(snap, changed) := after_jump in
  try o := confirm_one id (a_commit_target a) targetKey (Target snap) (fun t => Snapshot t (sn_config snap) (Jump snap)) in
  Ok (match o with Some snap => (snap, true) | None => (snap, changed) end).

(** How an attempt ends: with a lease, an error, or another try. *)
Inductive attempt_end := Leased (snap : SSHRouteSnapshot) | Failed (e : route_error) | Again.

Definition recheck (id : Z) (a : attempt) (n : nat) (d : serverdb) (valid : bool) (snap : SSHRouteSnapshot) (report : bool) (k : attempt_end) : attempt_end :=
  match readRoute d id (a_ctx a n) with
  | Ok current =>
      if String.eqb (fingerprint current) (fingerprint snap) && valid then k
      else match a_ctx a (S n) with Some e => Failed (ContextEnded e) | None => Again end
  | Err e =>
      match a_ctx a (S n) with
      | Some e => Failed (ContextEnded e)
      | None => if report then match e with ServerNotFound => Again | _ => Failed e end else Again
      end
  end.

(** What follows a client, cached or new: the second read, the host keys, the third read. *)
Definition after_dial (id : Z) (a : attempt) (snap : SSHRouteSnapshot) (targetKey jumpKey : option string) : attempt_end :=
  match a_ctx a 2 with
  | Some e => Failed (ContextEnded e)
  | None =>
      recheck id a 3 (a_second a) (a_valid_second a) snap true
        (match confirmHostKeys id a snap targetKey jumpKey with
         | Err RouteChanged => Again
         | Err (ConfirmFailed e) => Failed e
         | Ok (snap, changed) =>
             recheck id a 5 (a_third a) (a_valid_third a) snap false
               (if changed && negb (a_rebound a) then Again else Leased snap)
         end)
  end.

(** What follows a dial that failed. *)
Definition failed_dial (a : attempt) (snap : SSHRouteSnapshot) (e : dial_err) : attempt_end :=
  match a_ctx a 2 with
  | Some e => Failed (ContextEnded e)
  | None =>
      match cause_of e with
      | ContextError Canceled => Failed PoolClosed
      | _ =>
          match mismatch_to_record snap e with
          | Err e => Failed e
          | Ok None => Failed (safeRouteError e)
          | Ok (Some _) =>
              match a_record a with
              | Updated => Failed (safeRouteError e)
              | NotUpdated _ => Failed ConnectionConflict
              | CommitError => Failed InternalError
              end
          end
      end
  end.

(** With what left the machine, however the attempt ends. *)
Definition dial_and_go (id : Z) (a : attempt) (snap : SSHRouteSnapshot) : list sight * attempt_end :=
  match dialRoute (a_net a) snap with
  | Err e => ([], match a_ctx a 2 with Some c => Failed (ContextEnded c) | None => Failed e end)
  | Ok d =>
      (d_log d, match d_err d, a_dial_ctx a with
                | Some e, _ => failed_dial a snap e
                | None, Some e => failed_dial a snap (PlainError (ContextError e))
                | None, None => after_dial id a snap (d_target_key d) (d_jump_key d)
                end)
  end.

Definition try_lease (id : Z) (fresh : bool) (a : attempt) : list sight * attempt_end :=
  match a_ctx a 0 with
  | Some e => ([], Failed (ContextEnded e))
  | None =>
      match readRoute (a_first a) id (a_ctx a 1) with
      | Err e => ([], Failed e)
      | Ok snap =>
          let new := fresh || negb (hasTrustedHostKey (Target snap)) || match Jump snap with Some j => negb (hasTrustedHostKey j) | None => false end in
          match a_acquired a, new with
          | StaleLease, _ => ([], Again)
          | AcquireError, _ => ([], Failed AcquireFailed)
          | CachedClient, false => ([], after_dial id a snap None None)
          | _, _ => dial_and_go id a snap
          end
      end
  end.

(** [getLeaseWithSnapshot]: two attempts, with what each of them sent. *)
Definition getLeaseWithSnapshot (id : Z) (fresh : bool) (first second : attempt) : list sight * list sight * attempt_end :=
  match try_lease id fresh first with
  | (log1, Again) =>
      match try_lease id fresh second with
      | (log2, Again) => (log1, log2, Failed ConnectionConflict)
      | (log2, o) => (log1, log2, o)
      end
  | (log1, o) => (log1, [], o)
  end.
End service.

(** ** What a dial sends *)

(** Everything in a log is allowed by the route: its own first hop, credentials only to the
    pinned key of the endpoint they belong to. *)
Definition sight_ok (route : Route) (x : sight) : Prop :=
  match x with
  | Offered r e key =>
      key = KnownHostKey e /\ key <> "" /\ (r = TargetRole /\ e = rt_target route \/ r = JumpRole /\ rt_jump route = Some e)
  | Connected host port =>
      (rt_mode route = "" \/ rt_mode route = ConnectionDirect) /\ host = ep_host (rt_target route) /\ port = ep_port (rt_target route) \/
      rt_mode route = ConnectionSSHJump /\ (exists j, rt_jump route = Some j /\ host = ep_host j /\ port = ep_port j) \/
      rt_mode route = ConnectionSOCKS5 /\ (exists s, rt_socks route = Some s /\ host = s_host s /\ port = s_port s)
  | Proxied _ => rt_mode route = ConnectionSOCKS5
  | Forwarded host port => rt_mode route = ConnectionSSHJump /\ host = ep_host (rt_target route) /\ port = ep_port (rt_target route)
  end.

Lemma accepts_spec known key : accepts known key = true <-> known <> "" /\ key = known.
Proof.
  unfold accepts. rewrite andb_true_iff, negb_true_iff, String.eqb_neq, String.eqb_eq. split; intros [? ?]; auto.
Qed.

Lemma handshake_ok net r e :
  library_ok net ->
  match HandshakeContext net r e with
  | (ok, key, c, log) =>
      Forall (fun x => x = Offered r e (KnownHostKey e) /\ KnownHostKey e <> "") log /\
      match c with
      | None => ok = true /\ key = Some (KnownHostKey e) /\ KnownHostKey e <> ""
      | Some (HostKeyUnverifiedError k) => ok = false /\ KnownHostKey e = "" /\ key = Some k /\ log = []
      | Some (HostKeyMismatchError k) => ok = false /\ KnownHostKey e <> "" /\ KnownHostKey e <> k /\ key = Some k /\ log = []
      | Some _ => ok = false /\ key = None
      end
  end.
Proof.
  intros Hlib. unfold HandshakeContext. specialize (Hlib r (ep_user e) (AuthMethod e) (accepts (KnownHostKey e))). cbv zeta in Hlib.
  set (c := NewClientConn net r (ep_user e) (AuthMethod e) (accepts (KnownHostKey e))) in *.
  assert (forall key, presented c = Some key -> accepts (KnownHostKey e) key = false -> offered c = false /\ established c = false) as Hno.
  { intros key Hp Ha. destruct (offered c) eqn:Eo, (established c) eqn:Ee; try done;
      destruct Hlib as (k & Hk & Hak); auto; congruence. }
  assert (Forall (fun x => x = Offered r e (KnownHostKey e) /\ KnownHostKey e <> "")
            (if offered c then [Offered r e (default "" (presented c))] else [])) as Hlog.
  { destruct (offered c); [|constructor]. destruct Hlib as (k & Hk & Ha); [by left|]. rewrite Hk. apply accepts_spec in Ha as [? ->].
    constructor; [done|constructor]. }
  destruct (ctx_handshake net r); [done|]. destruct (established c) eqn:Ee.
  - destruct Hlib as (k & Hk & Ha); [by right|]. apply accepts_spec in Ha as [? ->]. rewrite Hk in *. done.
  - destruct (presented c) as [k|] eqn:Ek; [|done].
    destruct (String.eqb (KnownHostKey e) "") eqn:E1; [apply String.eqb_eq in E1|apply String.eqb_neq in E1; destruct (String.eqb (KnownHostKey e) k) eqn:E2];
      cbn [negb]; [| |apply String.eqb_neq in E2].
    + destruct (Hno k eq_refl) as [Hof _]; [unfold accepts; by rewrite E1|]. rewrite Hof in *. done.
    + done.
    + destruct (Hno k eq_refl) as [Hof _]; [unfold accepts; apply String.eqb_neq in E2; by rewrite E2, andb_false_r|]. rewrite Hof in *. done.
Qed.

Lemma first_hop_spec route :
  match first_hop route with
  | inl d => d_client d = false /\ d_err d <> None /\ d_log d = []
  | inr (host, port, hop) =>
      sight_ok route (Connected host port) /\
      (hop = "target" /\ rt_mode route <> ConnectionSSHJump /\ rt_mode route <> ConnectionSOCKS5 \/
       hop = "jump" /\ rt_mode route = ConnectionSSHJump /\ is_Some (rt_jump route) \/
       hop = "proxy" /\ rt_mode route = ConnectionSOCKS5 /\ is_Some (rt_socks route))
  end.
Proof.
  unfold first_hop. destruct (valid_endpoint (ep_host (rt_target route)) _); [|done].
  destruct (decide (rt_mode route = "" \/ rt_mode route = ConnectionDirect)) as [Hd|Hd].
  - assert (bool_decide (rt_mode route = "") || bool_decide (rt_mode route = ConnectionDirect) = true) as -> by (rewrite orb_true_iff, !bool_decide_eq_true; tauto).
    cbn. split; [by left|]. left. split_and!; [done|..]; destruct Hd as [->| ->]; done.
  - assert (bool_decide (rt_mode route = "") || bool_decide (rt_mode route = ConnectionDirect) = false) as -> by (rewrite orb_false_iff, !bool_decide_eq_false; tauto).
    cbn [negb]. cbv iota. destruct (decide (rt_mode route = ConnectionSSHJump)) as [Hj|Hj].
    + rewrite (bool_decide_eq_true_2 _ Hj). destruct (rt_jump route) as [j|] eqn:Ej; [|done]. destruct (valid_endpoint _ _); [|done].
      split; [|by right; left; eauto]. right. left. split; [done|]. exists j. done.
    + rewrite (bool_decide_eq_false_2 _ Hj). destruct (decide (rt_mode route = ConnectionSOCKS5)) as [Hs|Hs]; [|by rewrite (bool_decide_eq_false_2 _ Hs)].
      rewrite (bool_decide_eq_true_2 _ Hs). destruct (rt_socks route) as [s|] eqn:Es; [|done]. destruct (valid_endpoint _ _); [|done].
      split; [|by right; right; eauto]. right. right. split; [done|]. exists s. done.
Qed.

(** What a dial may have done: only things the route allows; a client only if every peer on
    the way proved its pinned key and the proxy connected; credentials for the target only
    behind a proven jump host; and an error whenever there is no client. *)
Record dial_ok (net : network) (route : Route) (d : dialled) : Prop := {
  do_log : Forall (sight_ok route) (d_log d);
  do_client : d_client d = true -> d_err d = None /\ d_target_key d = Some (KnownHostKey (rt_target route)) /\ KnownHostKey (rt_target route) <> "" /\
    (rt_mode route = ConnectionSSHJump -> exists j, rt_jump route = Some j /\ d_jump_key d = Some (KnownHostKey j) /\ KnownHostKey j <> "") /\
    (rt_mode route = ConnectionSOCKS5 -> exists s tr rest, rt_socks route = Some s /\
       run (socksConnect s (ep_host (rt_target route)) (ep_port (rt_target route))) (proxy_writes net) (proxy_bytes net) = (tr, Ok tt, rest));
  do_jump e key : rt_mode route = ConnectionSSHJump -> Offered TargetRole e key ∈ d_log d ->
    exists j, rt_jump route = Some j /\ d_jump_key d = Some (KnownHostKey j) /\ KnownHostKey j <> "";
  do_error : d_client d = false -> d_err d <> None }.

Lemma handshake_sights net r e route log ok key c :
  library_ok net -> HandshakeContext net r e = (ok, key, c, log) ->
  (r = TargetRole /\ e = rt_target route \/ r = JumpRole /\ rt_jump route = Some e) ->
  Forall (sight_ok route) log /\ forall e' k, Offered TargetRole e' k ∈ log -> r = TargetRole.
Proof.
  intros Hlib E Hr. pose proof (handshake_ok net r e Hlib) as H. rewrite E in H. destruct H as [H _]. split.
  - eapply Forall_impl; [done|]. intros x [-> Hne]. cbn. done.
  - intros e' k Hin. rewrite Forall_forall in H. destruct (H _ Hin) as [Heq _]. congruence.
Qed.

Lemma target_handshake_ok net route jumpKey log :
  library_ok net -> Forall (sight_ok route) log ->
  (rt_mode route = ConnectionSSHJump -> exists j, rt_jump route = Some j /\ jumpKey = Some (KnownHostKey j) /\ KnownHostKey j <> "") ->
  (rt_mode route = ConnectionSOCKS5 -> exists s tr rest, rt_socks route = Some s /\
     run (socksConnect s (ep_host (rt_target route)) (ep_port (rt_target route))) (proxy_writes net) (proxy_bytes net) = (tr, Ok tt, rest)) ->
  dial_ok net route (target_handshake net route jumpKey log).
Proof.
  intros Hlib Hlog Hj Hs. unfold target_handshake. pose proof (handshake_ok net TargetRole (rt_target route) Hlib) as H.
  destruct (HandshakeContext net TargetRole (rt_target route)) as [[[ok key] c] sent] eqn:E.
  destruct (handshake_sights net TargetRole _ route _ _ _ _ Hlib E ltac:(by left)) as [Hsent _].
  assert (Forall (sight_ok route) (log ++ sent)) as Happ by (by apply Forall_app).
  destruct c as [c|]; split; cbn [d_log d_client d_err d_target_key d_jump_key]; try done; try (intros; by apply Hj).
  intros _. destruct H as (_ & -> & -> & Hne). split_and!; done.
Qed.

Lemma dial_chain_ok net route host port hop :
  library_ok net -> first_hop route = inr (host, port, hop) -> dial_ok net route (dial_chain net route hop [Connected host port]).
Proof.
  intros Hlib Hf. pose proof (first_hop_spec route) as H. rewrite Hf in H. destruct H as [Hc H].
  assert (Forall (sight_ok route) [Connected host port]) as Hlog by (by constructor).
  unfold dial_chain. destruct H as [(-> & Hj & Hs)|[(-> & Hm & [j Ej])|(-> & Hm & [s Es])]].
  - change (bool_decide ("target" = "jump")) with false. change (bool_decide ("target" = "proxy")) with false. cbv iota.
    by apply target_handshake_ok.
  - change (bool_decide ("jump" = "jump")) with true. cbv iota. rewrite Ej.
    pose proof (handshake_ok net JumpRole j Hlib) as Hh. destruct (HandshakeContext net JumpRole j) as [[[ok key] c] sent] eqn:E.
    destruct (handshake_sights net JumpRole j route _ _ _ _ Hlib E ltac:(by right)) as [Hsent Hnt].
    assert (forall l, Forall (sight_ok route) l -> Forall (sight_ok route) ([Connected host port] ++ sent ++ l)) as Happ.
    { intros l Hl. rewrite !Forall_app. done. }
    assert (forall l e' k, Offered TargetRole e' k ∈ [Connected host port] ++ sent ++ l -> Offered TargetRole e' k ∈ l) as Hin.
    { intros l e' k [Hi|[Hi|Hi]%elem_of_app]%elem_of_app; [set_solver| |done]. by apply Hnt in Hi. }
    destruct c as [c|].
    { split; cbn [d_log d_client d_err]; try done; [specialize (Happ []); rewrite app_nil_r in Happ; by apply Happ|].
      intros e' k _ Hi. specialize (Hin [] e' k). rewrite app_nil_r in Hin. by apply Hin, elem_of_nil in Hi. }
    destruct Hh as (_ & _ & -> & Hne).
    assert (sight_ok route (Forwarded (ep_host (rt_target route)) (ep_port (rt_target route)))) as Hfwd by done.
    assert (forall c, dial_ok net route (Dialled false None (Some (KnownHostKey j))
              (Some (RouteFailed (MkRouteError "jump_forward_failed" "jump_forward" "jump") c))
              ([Connected host port] ++ sent ++ [Forwarded (ep_host (rt_target route)) (ep_port (rt_target route))]))) as Hfail.
    { intros c. split; cbn [d_log d_client d_err]; try done; [apply Happ; by constructor|].
      intros e' k _ Hi. apply Hin in Hi. apply list_elem_of_singleton in Hi. done. }
    destruct (ctx_forward net) as [e|]; [apply Hfail|]. destruct (forward_ok net); [|apply Hfail].
    apply target_handshake_ok; try done; [apply Happ; by constructor|intros _; by exists j|rewrite Hm; done].
  - change (bool_decide ("proxy" = "jump")) with false. change (bool_decide ("proxy" = "proxy")) with true. cbv iota. rewrite Es.
    destruct (run _ _ _) as [[tr [[]|e]] rest] eqn:Er.
    + apply target_handshake_ok; try done; [by apply Forall_app; split; [|constructor]|rewrite Hm; done|]. intros _. by exists s, tr, rest.
    + split; cbn [d_log d_client d_err]; try done; [by apply Forall_app; split; [|constructor]|rewrite Hm; done].
Qed.

Lemma dial_route_ok net route : library_ok net -> dial_ok net route (DialRouteContext net route).
Proof.
  intros Hlib. unfold DialRouteContext. destruct (ctx_start net).
  { split; cbn [d_log d_client d_err]; [by apply Forall_nil|done|by intros e k _ Hi%elem_of_nil|done]. }
  destruct (first_hop route) as [d|[[host port] hop]] eqn:Ef.
  - pose proof (first_hop_spec route) as H. rewrite Ef in H. destruct H as (H1 & H2 & H3).
    split; [rewrite H3; constructor|congruence| |done]. intros e k _ Hi. rewrite H3 in Hi. by apply elem_of_nil in Hi.
  - destruct (tcp_dial net (host, port)).
    + pose proof (first_hop_spec route) as H. rewrite Ef in H. destruct H as [H _]. split; cbn [d_log d_client d_err]; try done; [by constructor|].
      intros e k _ Hi. apply list_elem_of_singleton in Hi. done.
    + pose proof (dial_chain_ok net route host port hop Hlib Ef) as [H1 H2 H3 H4]. unfold dial_end. destruct (ctx_end net); [|done].
      split; cbn [d_log d_client d_err d_jump_key]; try done.
Qed.

(** C26: A dial contacts only what the route names, and shows credentials only to proven peers.
    Whatever the network and the peers do, the only TCP connection is to the target, the
    jump host or the proxy the mode demands -- never to another as a fallback --; the
    credentials of an endpoint leave only after its peer proved the pinned key, which is
    not empty, and those of a target behind a jump host only after the jump host proved
    its own; a client comes back only when all of this succeeded and the proxy connected,
    and otherwise an error does. *)
Theorem dial_sends_only_to_proven_peers net route :
  library_ok net -> dial_ok net route (DialRouteContext net route).
Proof. apply dial_route_ok. Qed.

(** ** What a lease is for *)

(** A jump host is there exactly in the mode that needs one. *)
Definition well_shaped (snap : SSHRouteSnapshot) : Prop := is_Some (Jump snap) <-> mode snap = ConnectionSSHJump.

Lemma readRoute_shape d id ctx snap : readRoute d id ctx = Ok snap -> well_shaped snap.
Proof.
  unfold readRoute. destruct (readSSHRouteSnapshot d id) as [s|[]] eqn:E; [|done..]. intros H.
  assert (s = snap) as ->.
  { destruct (match sn_config s with Some _ => _ | None => _ end) in H; [|done]. destruct (negb _) in H; [done|].
    destruct ctx; [done|]. by injection H. }
  unfold well_shaped, mode, configMode. unfold readSSHRouteSnapshot in E. destruct (FindByID d id) as [t|]; [|done].
  destruct (FindConnectionConfig d id) as [c|] eqn:Ec; cbn [mbind option_bind] in E; [|injection E as <-; cbn; by split; [intros [? ?]|]].
  destruct (decide (Mode c = ConnectionSSHJump)) as [Hm|Hm].
  - rewrite (bool_decide_eq_true_2 _ Hm) in E. destruct (JumpServerID c) as [j|] eqn:Ej.
    + destruct (FindByID d j) as [jump|]; [|done]. assert (sn_config snap = Some c /\ Jump snap = Some jump) as [-> ->]; [|split; eauto].
      destruct (FindConnectionConfig d (ID (l_server jump))) as [u|]; [destruct (bool_decide (Mode u = ConnectionDirect)) in E; [|done]|]; by injection E as <-.
    + injection E as <-. cbn in H |- *. rewrite (bool_decide_eq_true_2 _ Hm) in H.
      rewrite (bool_decide_eq_false_2 (Mode c = ConnectionDirect)) in H by (by rewrite Hm). by rewrite Ej in H.
  - rewrite (bool_decide_eq_false_2 _ Hm) in E. injection E as <-. cbn. by split; [intros [? ?]|].
Qed.

Section leases.
Context `{P : Primitives} (master : string) (fingerprintValue : fp_server + fp_route -> string) (parses : string -> bool).
(** Different values have different fingerprints. *)
Context (fp_inj : Inj (=) (=) fingerprintValue).

(** What two routes with one fingerprint have in common. *)
Record same_route (s s' : SSHRouteSnapshot) : Prop := {
  sr_target : server_fields (Target s) = server_fields (Target s');
  sr_mode : mode s = mode s';
  sr_jump : server_fields <$> Jump s = server_fields <$> Jump s';
  sr_config : mode s <> ConnectionDirect -> config_view <$> sn_config s = config_view <$> sn_config s' }.

Lemma fingerprint_same s s' : well_shaped s -> well_shaped s' -> fingerprint fingerprintValue s = fingerprint fingerprintValue s' -> same_route s s'.
Proof.
  intros Hs Hs' E. unfold well_shaped in *. unfold fingerprint, serverFingerprint in E.
  assert (forall x, mode x = ConnectionDirect -> ~ mode x = ConnectionSSHJump) as Hdj by (intros x ->; done).
  assert (forall x, sn_config x = None -> mode x = ConnectionDirect) as Hnd by (intros x Hx; unfold mode; by rewrite Hx).
  assert (forall x, well_shaped x -> mode x <> ConnectionSSHJump -> Jump x = None) as Hnj.
  { intros x Hx Hm. destruct (Jump x) eqn:Ej; [|done]. destruct Hm. apply Hx. eauto. }
  destruct (decide (mode s = ConnectionDirect)) as [Ed|Ed], (decide (mode s' = ConnectionDirect)) as [Ed'|Ed'];
    rewrite ?(bool_decide_eq_true_2 _ Ed), ?(bool_decide_eq_true_2 _ Ed'), ?(bool_decide_eq_false_2 _ Ed), ?(bool_decide_eq_false_2 _ Ed') in E.
  - apply fp_inj, (inj inl) in E. split; [done|congruence| |done]. rewrite (Hnj s), (Hnj s'); auto.
  - destruct (sn_config s') as [c'|] eqn:Ec'; [|by apply Hnd in Ec']. by apply fp_inj in E.
  - destruct (sn_config s) as [c|] eqn:Ec; [|by apply Hnd in Ec]. by apply fp_inj in E.
  - destruct (sn_config s) as [c|] eqn:Ec; [|by apply Hnd in Ec]. destruct (sn_config s') as [c'|] eqn:Ec'; [|by apply Hnd in Ec'].
    apply fp_inj in E. injection E as Et Em Ej Ejid Eh Ep Ea Eu Epw Ev Esalt. apply fp_inj, (inj inl) in Et.
    split; [done|done| |].
    + destruct (Jump s) as [j|] eqn:Js, (Jump s') as [j'|] eqn:Js'; [|exfalso..|done].
      * apply fp_inj, (inj inl) in Ej. cbn. by f_equal.
      * destruct Hs' as [_ Hs']. rewrite <- Em in Hs'. destruct Hs'; [apply Hs; eauto|done].
      * destruct Hs as [_ Hs]. rewrite Em in Hs. destruct Hs; [apply Hs'; eauto|done].
    + intros _. rewrite Ec, Ec'. cbn. unfold config_view. unfold mode in Em. rewrite Ec, Ec' in Em. cbn in Em. congruence.
Qed.

Lemma recheck_leased id a n d valid snap report k s :
  recheck fingerprintValue id a n d valid snap report k = Leased s ->
  k = Leased s /\ valid = true /\ exists current, readRoute d id (a_ctx a n) = Ok current /\ fingerprint fingerprintValue current = fingerprint fingerprintValue snap.
Proof.
  unfold recheck. destruct (readRoute d id (a_ctx a n)) as [current|e].
  - destruct (String.eqb_spec (fingerprint fingerprintValue current) (fingerprint fingerprintValue snap)) as [E|E]; cbn [andb].
    + destruct valid; [by eauto|]. destruct (a_ctx a (S n)); discriminate.
    + destruct (a_ctx a (S n)); discriminate.
  - destruct (a_ctx a (S n)); [discriminate|]. destruct report, e; discriminate.
Qed.

(** A commit of host keys leaves the identities and the configuration alone. *)
Definition endpoint_identity (l : loaded) := (Host (l_server l), Port (l_server l), HostKey (l_server l)).
Definition same_peers (s s' : SSHRouteSnapshot) : Prop :=
  endpoint_identity (Target s) = endpoint_identity (Target s') /\ endpoint_identity <$> Jump s = endpoint_identity <$> Jump s'.

Lemma confirm_one_ok id commit key l set o :
  confirm_one fingerprintValue id commit key l set = Ok o -> o = None \/ o = Some (set (confirmed l)).
Proof.
  unfold confirm_one. destruct key as [k|]; [|intros [= <-]; by left].
  destruct (String.eqb k ""); [intros [= <-]; by left|]. destruct (hasTrustedHostKey l); cbn [negb]; [|done]. intros H.
  destruct (HostKeyMismatchAt (l_server l)); [|injection H as <-; by left]. destruct commit as [|latest|]; [injection H as <-; by right| |done].
  destruct (readRoute latest id None); [|done]. destruct (String.eqb _ _); [injection H as <-; by right|done].
Qed.

Lemma confirmHostKeys_ok id a snap tk jk snap' changed :
  confirmHostKeys fingerprintValue id a snap tk jk = Ok (snap', changed) ->
  same_peers snap snap' /\ sn_config snap = sn_config snap'.
Proof.
  unfold confirmHostKeys, same_peers. intros H. destruct (Jump snap) as [j|] eqn:Ej; cbn in H.
  - destruct (confirm_one fingerprintValue id (a_commit_jump a) jk j _) as [o|] eqn:E1; cbn in H; [|done].
    apply confirm_one_ok in E1 as Ho.
    assert (exists s c, (match o with Some s => (s, true) | None => (snap, false) end) = (s, c) /\
              same_peers snap s /\ sn_config snap = sn_config s) as (s & c & Eo & (H1 & H2) & H3).
    { destruct Ho as [-> | ->]; cbn; eexists _, _; (split; [done|]); unfold same_peers; cbn; rewrite ?Ej; done. }
    rewrite Eo in H. destruct (confirm_one fingerprintValue id (a_commit_target a) tk (Target s) _) as [o'|] eqn:E2; cbn in H; [|done].
    rewrite <- Ej. apply confirm_one_ok in E2 as [-> | ->]; injection H as <- <-; [done|]. unfold endpoint_identity in *. cbn. by rewrite H1, H2.
  - destruct (confirm_one fingerprintValue id (a_commit_target a) tk (Target snap) _) as [o'|] eqn:E2; cbn in H; [|done].
    apply confirm_one_ok in E2 as [-> | ->]; injection H as <- <-; cbn; rewrite ?Ej; done.
Qed.

Lemma same_peers_shape s s' : same_peers s s' -> sn_config s = sn_config s' -> well_shaped s -> well_shaped s'.
Proof.
  intros (_ & Hj) Hc. unfold well_shaped, mode. rewrite Hc. intros [H1 H2].
  destruct (Jump s), (Jump s'); try done; split; intros H; eauto; try (by apply H1); by apply H2 in H as [? ?].
Qed.

(** The credentials in a log went to servers of the route, at their address, for their key. *)
Definition offered_within (snap : SSHRouteSnapshot) (log : list sight) : Prop :=
  Forall (fun x => match x with
                   | Offered r e key =>
                       exists l, (r = TargetRole /\ l = Target snap \/ r = JumpRole /\ Jump snap = Some l) /\
                         ep_host e = Host (l_server l) /\ ep_port e = Port (l_server l) /\ HostKey (l_server l) = Some key /\ key <> ""
                   | _ => True
                   end) log.
Definition all_trusted (snap : SSHRouteSnapshot) : Prop :=
  hasTrustedHostKey (Target snap) = true /\ forall j, Jump snap = Some j -> hasTrustedHostKey j = true.

Lemma same_peers_trust s s' : same_peers s s' -> all_trusted s -> all_trusted s'.
Proof.
  intros (Ht & Hj) [H1 H2]. unfold endpoint_identity in *. injection Ht as _ _ Ht. split.
  - unfold hasTrustedHostKey in *. by rewrite <- Ht.
  - intros j' Ej'. rewrite Ej' in Hj. destruct (Jump s) as [j|]; [|done]. cbn in Hj. injection Hj as _ _ Hk.
    specialize (H2 j eq_refl). unfold hasTrustedHostKey in *. by rewrite <- Hk.
Qed.

Lemma same_peers_offered s s' log : same_peers s s' -> offered_within s log -> offered_within s' log.
Proof.
  intros (Ht & Hj) Hf. eapply Forall_impl; [exact Hf|]. intros [| |r e key|]; try done. intros (l & [[-> ->]|[-> El]] & Hh & Hp & Hk & Hne).
  - exists (Target s'). unfold endpoint_identity in Ht. injection Ht as <- <- <-. split_and!; try done. by left.
  - rewrite El in Hj. destruct (Jump s') as [j'|] eqn:Ej'; [|done]. cbn in Hj. unfold endpoint_identity in Hj. injection Hj as Hj1 Hj2 Hj3.
    exists j'. rewrite <- Hj1, <- Hj2, <- Hj3. split_and!; try done. by right.
Qed.

Lemma same_route_peers s s' : same_route s s' -> same_peers s s'.
Proof.
  assert (forall l l', server_fields l = server_fields l' -> endpoint_identity l = endpoint_identity l') as Hf.
  { unfold server_fields, endpoint_identity. intros l l'. cbv zeta. congruence. }
  intros [H1 _ H3 _]. split; [by apply Hf|]. destruct (Jump s), (Jump s'); cbn in *; try done. f_equal. apply Hf. congruence.
Qed.

Lemma endpoint_ok l e : endpoint master parses l = Ok e ->
  ep_host e = Host (l_server l) /\ ep_port e = Port (l_server l) /\ KnownHostKey e = default "" (HostKey (l_server l)).
Proof.
  unfold endpoint. destruct (l_cred l); [|done]. destruct (decryptCredential master _) as [v|]; [|done].
  destruct (buildAuthMethod parses _ _); [|done]. intros [= <-]. done.
Qed.

Lemma route_of_ok snap route : route_of master parses snap = Ok route ->
  rt_mode route = mode snap /\ endpoint master parses (Target snap) = Ok (rt_target route) /\
  match Jump snap, rt_jump route with
  | Some j, Some e => endpoint master parses j = Ok e
  | None, None => True
  | _, _ => False
  end.
Proof.
  unfold route_of. destruct (endpoint master parses (Target snap)) as [t|]; cbn; [|done]. destruct (Jump snap) as [j|]; cbn.
  - destruct (endpoint master parses j) as [e|]; cbn; [|done].
    destruct (match sn_config snap with Some _ => _ | None => _ end); cbn; [|done]. intros [= <-]. done.
  - destruct (match sn_config snap with Some _ => _ | None => _ end); cbn; [|done]. intros [= <-]. done.
Qed.

Lemma pinned_key l k : default "" (HostKey (l_server l)) = k -> k <> "" -> HostKey (l_server l) = Some k /\ hasTrustedHostKey l = true.
Proof.
  intros Hk Hne. unfold hasTrustedHostKey, no_key. destruct (HostKey (l_server l)) as [h|]; cbn in Hk; [|congruence].
  subst h. split; [done|]. by rewrite (proj2 (String.eqb_neq k "") Hne).
Qed.

(** A dial offers credentials to the servers of its route only; one that brought a client
    back trusted every peer. *)
Lemma dialled_peers net snap d : well_shaped snap -> library_ok net -> dialRoute master parses net snap = Ok d ->
  offered_within snap (d_log d) /\ (d_err d = None -> all_trusted snap).
Proof.
  intros Hs Hlib. unfold dialRoute. destruct (route_of master parses snap) as [route|] eqn:Er; cbn; [|done]. intros [= <-].
  apply route_of_ok in Er as (Hm & (Hh & Hp & Hk)%endpoint_ok & Hj).
  destruct (dial_route_ok net route Hlib) as [Hlog Hc _ Herr]. split.
  - eapply Forall_impl; [exact Hlog|]. intros [| |r e key|]; try done. cbn. intros (-> & Hnk & [[-> ->]|[-> Ee]]).
    + exists (Target snap). split_and!; [by left|done..| |done]. by apply pinned_key.
    + rewrite Ee in Hj. destruct (Jump snap) as [j|]; [|done]. apply endpoint_ok in Hj as (Hh' & Hp' & Hk').
      exists j. split_and!; [by right|done..| |done]. by apply pinned_key.
  - intros He. destruct (d_client (DialRouteContext net route)); [|by destruct (Herr eq_refl)].
    destruct (Hc eq_refl) as (_ & _ & Hne & Hjump & _). split; [eapply pinned_key; [symmetry; exact Hk|done]|].
    intros j Ej. destruct Hjump as (e & Ee & _ & Hke); [rewrite Hm; apply Hs; eauto|]. rewrite Ej, Ee in Hj.
    apply endpoint_ok in Hj as (_ & _ & Hkj). eapply pinned_key; [symmetry; exact Hkj|done].
Qed.

(** What a lease must come from. *)
Definition lease_ok (id : Z) (a : attempt) (snap : SSHRouteSnapshot) (log : list sight) : Prop :=
  exists current, readRoute (a_third a) id (a_ctx a 5) = Ok current /\ a_valid_third a = true /\
    same_route current snap /\ all_trusted current /\ offered_within current log.
(** What an attempt sent: nothing, or credentials for the route it read first. *)
Definition sent_ok (id : Z) (a : attempt) (log : list sight) : Prop :=
  log = [] \/ exists snap, readRoute (a_first a) id (a_ctx a 1) = Ok snap /\ offered_within snap log.

Lemma after_dial_ok id a snap0 tk jk log snap : well_shaped snap0 -> all_trusted snap0 -> offered_within snap0 log ->
  after_dial fingerprintValue id a snap0 tk jk = Leased snap -> lease_ok id a snap log.
Proof.
  intros Hs0 Ht Ho. unfold after_dial. destruct (a_ctx a 2); [done|].
  intros (H & _ & _)%recheck_leased. destruct (confirmHostKeys fingerprintValue id a snap0 tk jk) as [[s c]|[]] eqn:Ec; [|done..].
  apply recheck_leased in H as (H & Hv & current & Hr & Hf). destruct (_ && _); [done|]. injection H as ->.
  apply confirmHostKeys_ok in Ec as [Hp Hc]. exists current.
  assert (same_route current snap) as Hsame by (apply fingerprint_same; [by eapply readRoute_shape|by eapply same_peers_shape|done]).
  assert (same_peers snap current) as Hcur by (destruct (same_route_peers _ _ Hsame) as [E1 E2]; by split).
  split_and!; [done..| |]; [eapply same_peers_trust|eapply same_peers_offered]; try exact Hcur;
    [by eapply same_peers_trust|by eapply same_peers_offered].
Qed.

Lemma failed_dial_fails a snap0 e snap : failed_dial a snap0 e <> Leased snap.
Proof.
  unfold failed_dial. destruct (a_ctx a 2); [done|]. destruct (cause_of e) as [| |[]| | |]; try done;
    (destruct (mismatch_to_record snap0 e) as [[]|]; [destruct (a_record a)| |]; done).
Qed.

Lemma dial_and_go_ok id a snap0 log o : library_ok (a_net a) -> well_shaped snap0 ->
  dial_and_go master fingerprintValue parses id a snap0 = (log, o) ->
  offered_within snap0 log /\ forall snap, o = Leased snap -> lease_ok id a snap log.
Proof.
  intros Hlib Hs0. unfold dial_and_go. destruct (dialRoute master parses (a_net a) snap0) as [d|e] eqn:Ed; intros [= <- <-].
  - destruct (dialled_peers (a_net a) snap0 d Hs0 Hlib Ed) as [Ho Ht]. split; [done|]. intros snap.
    destruct (d_err d) eqn:Ee; [by intros ?%failed_dial_fails|]. destruct (a_dial_ctx a); [by intros ?%failed_dial_fails|].
    apply after_dial_ok; [done|by apply Ht|done].
  - split; [constructor|]. by destruct (a_ctx a 2).
Qed.

Lemma try_lease_ok id fresh a log o : library_ok (a_net a) -> try_lease master fingerprintValue parses id fresh a = (log, o) ->
  sent_ok id a log /\ forall snap, o = Leased snap -> lease_ok id a snap log.
Proof.
  intros Hlib. unfold try_lease, sent_ok. destruct (a_ctx a 0); [intros [= <- <-]; by split; [left|]|].
  destruct (readRoute (a_first a) id (a_ctx a 1)) as [snap0|] eqn:E0; [|intros [= <- <-]; by split; [left|]].
  apply readRoute_shape in E0 as Hs0. cbv zeta. set (new := _ || _ || _).
  destruct (a_acquired a), new eqn:En; try (intros [= <- <-]; split; [by left|]; try done);
    try (intros [Ho Hl]%dial_and_go_ok; [by split; [right; eauto|]|done..]).
  intros snap. apply after_dial_ok; [done| |constructor]. subst new. apply orb_false_iff in En as [[_ Ht%negb_false_iff]%orb_false_iff Hj].
  split; [done|]. intros j Ej. rewrite Ej in Hj. by apply negb_false_iff in Hj.
Qed.

(** C25: A lease is only ever for the route the database still holds.
    Through up to two attempts, any other transactions, any pool and any network, a lease
    comes out only if the last read of its attempt found the route with the very servers,
    addresses, credentials, identities and settings of the snapshot returned, and the slot
    still valid; the host keys of the target and of the jump host are all pinned.  However
    each attempt ends -- with the lease, an error, or a retry -- the credentials it sent
    went to servers of the route it had read when it began, at their address there, after
    they proved the key pinned there; those of the attempt that gave the lease, to servers
    of the route as its last read found it. *)
Theorem lease_on_committed_route id fresh first second log1 log2 o :
  library_ok (a_net first) -> library_ok (a_net second) ->
  getLeaseWithSnapshot master fingerprintValue parses id fresh first second = (log1, log2, o) ->
  sent_ok id first log1 /\ sent_ok id second log2 /\
  forall snap, o = Leased snap -> exists a log current, (a = first /\ log = log1 /\ log2 = [] \/ a = second /\ log = log2) /\
    readRoute (a_third a) id (a_ctx a 5) = Ok current /\ a_valid_third a = true /\
    same_route current snap /\ all_trusted current /\ offered_within current log.
Proof.
  intros H1 H2. unfold getLeaseWithSnapshot.
  destruct (try_lease master fingerprintValue parses id fresh first) as [l1 o1] eqn:E1. apply try_lease_ok in E1 as [Hs1 Hl1]; [|done].
  assert ((l1, [], o1) = (log1, log2, o) -> sent_ok id first log1 /\ sent_ok id second log2 /\
    forall snap, o = Leased snap -> exists a log current, (a = first /\ log = log1 /\ log2 = [] \/ a = second /\ log = log2) /\
    readRoute (a_third a) id (a_ctx a 5) = Ok current /\ a_valid_third a = true /\
    same_route current snap /\ all_trusted current /\ offered_within current log) as Hfirst.
  { intros [= <- <- <-]. split; [done|]. split; [by left|]. intros snap (current & ?)%Hl1. exists first, l1, current. auto. }
  destruct (try_lease master fingerprintValue parses id fresh second) as [l2 o2] eqn:E2. apply try_lease_ok in E2 as [Hs2 Hl2]; [|done].
  destruct o1; [exact Hfirst..|].
  assert (match o2 with Again => (l1, l2, Failed ConnectionConflict) | o => (l1, l2, o) end =
          (l1, l2, match o2 with Again => Failed ConnectionConflict | o => o end)) as -> by (by destruct o2).
  intros [= <- <- <-]. split; [done|]. split; [done|]. intros snap Ho. destruct (Hl2 snap) as (current & ?); [by destruct o2|].
  exists second, l2, current. auto.
Qed.
End leases.

(** ** A dial on a concrete network *)

Section demo.
Existing Instance toy.

(** Peers that prove the keys given and take any password. *)
Definition demo_client (key : role -> string) (r : role) (_ : string) (_ : option auth_method) (callback : string -> bool) : client_conn :=
  let ok := callback (key r) in ClientConn (Some (key r)) ok ok "".
Definition demo_net (key : role -> string) : network :=
  Network None (fun _ => None) (demo_client key) (fun _ => None) true None 3 [] None.
Lemma demo_net_ok key : library_ok (demo_net key).
Proof. intros r user auth callback. cbn. intros [H|H]; eauto. Qed.

Definition demo_keys (r : role) : string := match r with JumpRole => "kj" | TargetRole => "kt" end.
Definition demo_jump_endpoint : Endpoint := MkEndpoint "gw" 22 "root" (Some (PasswordAuth "pw")) "kj".
Definition demo_endpoint (known : string) : Endpoint := MkEndpoint "db" 22 "root" (Some (PasswordAuth "pw")) known.
Definition demo_jumped (known : string) : Route := MkRoute (demo_endpoint known) ConnectionSSHJump (Some demo_jump_endpoint) None.

Lemma dial_sends_only_to_proven_peers_witness :
  d_log (DialRouteContext (demo_net demo_keys) (demo_jumped "old")) =
    [Connected "gw" 22; Offered JumpRole demo_jump_endpoint "kj"; Forwarded "db" 22] /\
  d_err (DialRouteContext (demo_net demo_keys) (demo_jumped "old")) =
    Some (RouteFailed (MkRouteError "ssh_host_key_mismatch" "target_host_key" "target") (HostKeyMismatchError "kt")) /\
  dial_ok (demo_net demo_keys) (demo_jumped "kt") (DialRouteContext (demo_net demo_keys) (demo_jumped "kt")).
Proof. split; [reflexivity|]. split; [reflexivity|]. apply dial_sends_only_to_proven_peers, demo_net_ok. Defined.

(** A target behind a jump host, both with pinned keys, read three times alike. *)
Definition demo_cred : SSHCredential :=
  match Create toy_key toy_input (Some toy_salt) (Some toy_nonce) 7 1 with Ok c => c | Err _ => MkCred 7 1 "" "" None None "" 1 false end.
Definition demo_gateway : Server := MkServer 1 "gateway" "gw" 22 None None (Some 7) 3 (Some "kj") None None false.
Definition demo_target : Server := MkServer 2 "db" "db" 22 None None (Some 7) 4 (Some "kt") None None false.
Definition demo_config : Config := MkConfig 1 2 ConnectionSSHJump (Some 1) "" 0 "" "" None None.
Definition demo_db : serverdb := MkDb (<[1 := demo_gateway]> {[2 := demo_target]}) {[2 := demo_config]} {[7 := demo_cred]} 3.
Definition demo_snapshot : SSHRouteSnapshot :=
  Snapshot (Loaded demo_target (Some demo_cred)) (Some demo_config) (Some (Loaded demo_gateway (Some demo_cred))).
Definition demo_attempt (acquired : acquired) : attempt :=
  Attempt (fun _ => None) demo_db acquired (demo_net demo_keys) None Updated demo_db true Updated Updated demo_db true true.
Definition demo_log : list sight :=
  [Connected "gw" 22; Offered JumpRole demo_jump_endpoint "kj"; Forwarded "db" 22; Offered TargetRole (demo_endpoint "kt") "kt"].

Lemma demo_recheck fp n valid report k :
  recheck fp 2 (demo_attempt EmptySlot) n demo_db valid demo_snapshot report k = if valid then k else Again.
Proof.
  unfold recheck. assert (readRoute demo_db 2 (a_ctx (demo_attempt EmptySlot) n) = Ok demo_snapshot) as -> by (vm_compute; reflexivity).
  rewrite String.eqb_refl. by destruct valid.
Qed.

Lemma demo_lease_out fp parses :
  getLeaseWithSnapshot toy_key fp parses 2 false (demo_attempt StaleLease) (demo_attempt EmptySlot) = ([], demo_log, Leased demo_snapshot).
Proof.
  unfold getLeaseWithSnapshot.
  assert (try_lease toy_key fp parses 2 false (demo_attempt StaleLease) = ([], Again)) as -> by (vm_compute; reflexivity).
  assert (try_lease toy_key fp parses 2 false (demo_attempt EmptySlot) =
          (demo_log, recheck fp 2 (demo_attempt EmptySlot) 3 demo_db true demo_snapshot true
            (recheck fp 2 (demo_attempt EmptySlot) 5 demo_db true demo_snapshot false (Leased demo_snapshot)))) as ->;
    [vm_compute; reflexivity|]. by rewrite !demo_recheck.
Qed.

Definition demo_fingerprint (x : fp_server + fp_route) : string := pretty (Npos (encode x)).
#[local] Instance demo_fingerprint_inj : Inj (=) (=) demo_fingerprint.
Proof. intros x y H. unfold demo_fingerprint in H. apply (inj pretty) in H. injection H as H. by apply (inj encode) in H. Qed.

Lemma lease_on_committed_route_witness :
  sent_ok 2 (demo_attempt StaleLease) [] /\ sent_ok 2 (demo_attempt EmptySlot) demo_log /\
  forall snap, Leased demo_snapshot = Leased snap ->
    exists a log current, (a = demo_attempt StaleLease /\ log = [] /\ demo_log = [] \/ a = demo_attempt EmptySlot /\ log = demo_log) /\
    readRoute (a_third a) 2 (a_ctx a 5) = Ok current /\ a_valid_third a = true /\
    same_route current snap /\ all_trusted current /\ offered_within current log.
Proof.
  apply (lease_on_committed_route toy_key demo_fingerprint (fun _ => true) demo_fingerprint_inj 2 false
           (demo_attempt StaleLease) (demo_attempt EmptySlot) [] demo_log (Leased demo_snapshot)); [apply demo_net_ok..|]. apply demo_lease_out.
Defined.
End demo.
