(* ===== verification/RelayText.v ===== *)
(** * The texts of a relayed request

    [service/service_relay.go]: the placeholders of a request ([substitute]), the target URL
    ([buildTargetURL], [cleanRelayPath]) with the parts of net/url and path it uses, and the
    headers of the answer ([copyHeaders]). *)

From S2P Require Import Prelude GoStrings.

(** ** Placeholders *)

Definition text := list ascii.

(** [strings.ReplaceAll] for an [old] that is not empty: at each position the text is tried
    before one byte is passed; [skip] bytes of a replaced text remain to be passed. *)
Fixpoint replace (old new : text) (skip : nat) (s : text) : text :=
  match s with
  | [] => []
  | c :: s' =>
      match skip with
      | S k => replace old new k s'
      | O => match strip_prefix old s with
             | Some _ => new ++ replace old new (pred (Datatypes.length old)) s'
             | None => c :: replace old new O s'
             end
      end
  end.
Definition ReplaceAll (s old new : string) : string :=
  string_of_list_ascii (replace (list_ascii_of_string old) (list_ascii_of_string new) O (list_ascii_of_string s)).

(** [substitute]: the loop over the credentials, in the order the iteration takes. *)
Definition substitute (input : string) (credentials : list (string * string)) : string :=
  foldl (fun input '(k, v) => ReplaceAll input ("{{" +:+ k +:+ "}}") v) input credentials.

(** The reference: one pass that fills every placeholder with its credential. *)
Definition brace (c : ascii) : bool := Ascii.eqb c "{" || Ascii.eqb c "}".
Fixpoint upto_brace (s : text) : text :=
  match s with c :: s' => if brace c then [] else c :: upto_brace s' | [] => [] end.
Definition opening : text := ["{"; "{"]%char.
Definition closing : text := ["}"; "}"]%char.
Definition mark (name : text) : text := opening ++ name ++ closing.
(** The name of the placeholder a text begins with. *)
Definition hole (s : text) : option text :=
  r ← strip_prefix opening s; (fun _ => upto_brace r) <$> strip_prefix closing (drop (Datatypes.length (upto_brace r)) r).
Fixpoint fill (creds : text -> option text) (skip : nat) (s : text) : text :=
  match s with
  | [] => []
  | c :: s' =>
      match skip with
      | S k => fill creds k s'
      | O => match name ← hole s; v ← creds name; Some (name, v) with
             | Some (name, v) => v ++ fill creds (pred (Datatypes.length (mark name))) s'
             | None => c :: fill creds O s'
             end
      end
  end.
Definition expand (credentials : gmap string string) (input : string) : string :=
  string_of_list_ascii (fill (fun name => list_ascii_of_string <$> credentials !! string_of_list_ascii name) O (list_ascii_of_string input)).

Example substituted :
  substitute "Bearer {{token}} {{{id}}} {{x}} {{token" [("id", "7"); ("token", "s3cret")] = "Bearer s3cret {7} {{x}} {{token" /\
  expand {["id" := "7"; "token" := "s3cret"]} "Bearer {{token}} {{{id}}} {{x}} {{token" = "Bearer s3cret {7} {{x}} {{token".
Proof. split; vm_compute; reflexivity. Qed.

(** A credential whose value holds a placeholder, or a placeholder inside another, makes the
    result depend on the order of the iteration. *)
Example substitution_order_matters :
  substitute "{{a}}" [("a", "{{b}}"); ("b", "x")] = "x" /\ substitute "{{a}}" [("b", "x"); ("a", "{{b}}")] = "{{b}}".
Proof. split; vm_compute; reflexivity. Qed.

(** *** Scanning *)

Lemma strip_prefix_Some p l r : strip_prefix p l = Some r <-> l = p ++ r.
Proof.
  revert l. induction p as [|a p IH]; intros l; cbn; [split; congruence|]. destruct l as [|b l]; [done|].
  destruct (Ascii.eqb_spec a b) as [->|]; [rewrite IH; split; congruence|split; [done|congruence]].
Qed.
Lemma strip_prefix_None p l : strip_prefix p l = None <-> forall r, l <> p ++ r.
Proof.
  destruct (strip_prefix p l) as [r|] eqn:E.
  - apply strip_prefix_Some in E. split; [done|]. intros H. by destruct (H r).
  - split; [|done]. intros _ r Hr. apply strip_prefix_Some in Hr. congruence.
Qed.

Definition plain (s : text) : Prop := Forall (fun c => brace c = false) s.

Lemma replace_skip old new w t : replace old new (Datatypes.length w) (w ++ t) = replace old new O t.
Proof. induction w as [|c w IH]; [done|exact IH]. Qed.
Lemma replace_hit old new t : old <> [] -> replace old new O (old ++ t) = new ++ replace old new O t.
Proof.
  intros Hne. destruct old as [|c old']; [done|]. change ((c :: old') ++ t) with (c :: (old' ++ t)). cbn [replace].
  rewrite (proj2 (strip_prefix_Some (c :: old') (c :: old' ++ t) t)) by done. cbn [Datatypes.length pred]. by rewrite replace_skip.
Qed.
Lemma replace_miss old new c s : (forall r, c :: s <> old ++ r) -> replace old new O (c :: s) = c :: replace old new O s.
Proof. intros H. cbn [replace]. by rewrite (proj2 (strip_prefix_None old (c :: s)) H). Qed.

Lemma fill_skip creds w t : fill creds (Datatypes.length w) (w ++ t) = fill creds O t.
Proof. induction w as [|c w IH]; [done|exact IH]. Qed.

Lemma upto_brace_spec name t : plain name -> (match t with c :: _ => brace c = true | [] => True end) -> upto_brace (name ++ t) = name.
Proof.
  intros Hp Ht. induction Hp as [|c name Hc _ IH]; [destruct t as [|c t]; cbn; [done|by rewrite Ht]|]. cbn. rewrite Hc. by rewrite IH.
Qed.
Lemma upto_brace_plain s : plain (upto_brace s).
Proof. induction s as [|c s IH]; cbn; [constructor|]. destruct (brace c) eqn:E; constructor; done. Qed.
Lemma upto_brace_prefix s : exists t, s = upto_brace s ++ t.
Proof. induction s as [|c s [t IH]]; cbn; [by exists []|]. destruct (brace c); [by eexists|]. exists t. cbn. by rewrite <- IH. Qed.

Lemma hole_Some s name : hole s = Some name <-> plain name /\ exists t, s = mark name ++ t.
Proof.
  unfold hole. split.
  - destruct (strip_prefix opening s) as [r|] eqn:E1; [|done]. apply strip_prefix_Some in E1 as ->. cbn [mbind option_bind].
    destruct (strip_prefix closing _) as [t|] eqn:E2; [|done]. apply strip_prefix_Some in E2. cbn. intros [= <-].
    split; [apply upto_brace_plain|]. exists t. unfold mark. destruct (upto_brace_prefix r) as [t' Hr].
    assert (drop (Datatypes.length (upto_brace r)) r = t') as Ht by (rewrite Hr at 2; by rewrite drop_app_length).
    rewrite Ht in E2. subst t'. rewrite Hr at 1. by rewrite <- !app_assoc.
  - intros (Hp & t & ->). unfold mark. rewrite <- !app_assoc.
    rewrite (proj2 (strip_prefix_Some opening (opening ++ name ++ closing ++ t) (name ++ closing ++ t)) eq_refl). cbn [mbind option_bind].
    rewrite upto_brace_spec by done. rewrite drop_app_length.
    by rewrite (proj2 (strip_prefix_Some closing (closing ++ t) t) eq_refl).
Qed.

Lemma mark_nonempty name : mark name <> [].
Proof. done. Qed.
Lemma fill_hit creds name v t : plain name -> creds name = Some v -> fill creds O (mark name ++ t) = v ++ fill creds O t.
Proof.
  intros Hp Hv. pose proof (proj2 (hole_Some (mark name ++ t) name) (conj Hp (ex_intro _ t eq_refl))) as Hh.
  pose proof (fill_skip creds (tail (mark name)) t) as Hs. change (mark name ++ t) with ("{"%char :: tail (mark name) ++ t) in *.
  cbn [fill]. rewrite Hh. cbn [mbind option_bind]. rewrite Hv. f_equal. exact Hs.
Qed.
Lemma fill_miss creds c s : (forall name, hole (c :: s) = Some name -> creds name = None) -> fill creds O (c :: s) = c :: fill creds O s.
Proof.
  intros H. cbn [fill]. destruct (hole (c :: s)) as [name|]; [|done]. cbn [mbind option_bind]. by rewrite (H name eq_refl).
Qed.
Lemma hole_opens c s name : hole (c :: s) = Some name -> c = "{"%char.
Proof. intros (_ & t & H)%hole_Some. by injection H. Qed.
Lemma fill_plain creds w s : plain w -> fill creds O (w ++ s) = w ++ fill creds O s.
Proof.
  intros Hw. induction Hw as [|c w Hc _ IH]; [done|]. cbn [app]. rewrite fill_miss; [by rewrite IH|].
  intros name ->%hole_opens. done.
Qed.

(** *** One pass instead of many *)

(** A text in front of a replaced one was there before, or overlaps the first replacement. *)
Lemma replace_front old new p u s : old <> [] -> replace old new O s = p ++ u ->
  (exists t, s = p ++ t) \/
  (exists p1 p2 t, p = p1 ++ p2 /\ p2 <> [] /\ s = p1 ++ old ++ t /\ p2 ++ u = new ++ replace old new O t).
Proof.
  intros Hne. revert s. induction p as [|a p IH]; intros s H; [by left; exists s|].
  destruct s as [|c s]; [done|]. destruct (strip_prefix old (c :: s)) as [t|] eqn:E.
  - apply strip_prefix_Some in E. right. exists [], (a :: p), t. split_and!; [done|done|done|]. rewrite <- H, E. by rewrite replace_hit.
  - rewrite replace_miss in H by (by apply strip_prefix_None). injection H as -> H.
    destruct (IH s H) as [[t ->]|(p1 & p2 & t & -> & Hp2 & -> & Hu)]; [by left; exists t|].
    right. exists (a :: p1), p2, t. done.
Qed.

(** The placeholder of one name does not begin inside that of another. *)
Lemma mark_other name k t u : plain name -> plain k -> name <> k -> mark name ++ t <> mark k ++ u.
Proof.
  intros Hn Hk Hne H. pose proof (proj2 (hole_Some (mark name ++ t) name) (conj Hn (ex_intro _ t eq_refl))) as H1.
  rewrite H in H1. rewrite (proj2 (hole_Some (mark k ++ u) k) (conj Hk (ex_intro _ u eq_refl))) in H1. congruence.
Qed.

Lemma replace_plain k v w s : plain w -> replace (mark k) v O (w ++ s) = w ++ replace (mark k) v O s.
Proof.
  intros Hw. induction Hw as [|c w Hc _ IH]; [done|]. cbn [app]. rewrite replace_miss; [by rewrite IH|].
  intros r [= -> _]. done.
Qed.

Lemma mark_app name t : mark name ++ t = "{"%char :: "{"%char :: name ++ "}"%char :: "}"%char :: t.
Proof. unfold mark. by rewrite <- !app_assoc. Qed.

Lemma replace_other k v name t : plain k -> plain name -> name <> k ->
  replace (mark k) v O (mark name ++ t) = mark name ++ replace (mark k) v O t.
Proof.
  intros Hk Hn Hne. pose proof (mark_other name k t) as H0. rewrite !mark_app in *.
  rewrite replace_miss; [|intros r; by apply H0]. f_equal.
  rewrite replace_miss.
  - f_equal. by rewrite replace_plain by done.
  - intros r. rewrite mark_app. intros [= Hr]. destruct name as [|c name]; cbn in Hr; injection Hr as Hr _; [done|]. subst c.
    inversion Hn. done.
Qed.

(** No value is part of a name. *)
Definition inside (v name : text) : Prop := exists a b, name = a ++ v ++ b.

Lemma plain_front v rest name : plain v -> v ++ rest = name ++ closing -> exists b, name = v ++ b.
Proof.
  intros Hv. revert name. induction Hv as [|c v Hc _ IH]; intros name H; [by exists name|].
  destruct name as [|n name]; injection H as -> H; [done|]. destruct (IH name H) as [b ->]. by exists b.
Qed.
Lemma plain_inside v a rest name : plain v -> v <> [] -> a ++ v ++ rest = name ++ closing -> inside v name.
Proof.
  intros Hv Hne. revert a. induction name as [|n name IH]; intros a H.
  - destruct v as [|c v]; [done|]. inversion Hv as [|? ? Hc _]; subst.
    unfold closing in H. destruct a as [|x [|y [|z a]]]; cbn in H; simplify_eq; discriminate Hc.
  - destruct a as [|x a].
    + destruct (plain_front v rest (n :: name) Hv H) as [b ->]. by exists [], b.
    + injection H as _ H. destruct (IH a H) as (a' & b & ->). by exists (n :: a'), b.
Qed.

Lemma inserted_hole k v c s name : plain v -> v <> [] -> ~ inside v name ->
  hole (c :: replace (mark k) v O s) = Some name -> hole (c :: s) = Some name.
Proof.
  intros Hv Hne Hin (Hn & u & H)%hole_Some. rewrite mark_app in H. injection H as -> H. apply hole_Some. split; [done|].
  change ("{"%char :: name ++ "}"%char :: "}"%char :: u) with ("{"%char :: name ++ closing ++ u) in H.
  rewrite (app_assoc name closing u), app_comm_cons in H.
  apply replace_front in H as [[t ->]|(p1 & p2 & t & Hp & Hp2 & -> & Hu)]; [|exfalso|done].
  { exists t. rewrite mark_app. cbn. by rewrite <- app_assoc. }
  apply Hin. apply app_eq_app in Hu as [l [(Hl & _)|(Hl & _)]].
  - destruct p1 as [|x p1]; cbn in Hp; [|injection Hp as _ Hp; by apply (plain_inside v p1 l name); [..|by rewrite Hp, Hl]].
    rewrite Hl in Hp. destruct v as [|y v]; [done|]. injection Hp as <- _. by inversion Hv.
  - exfalso. rewrite Hl in Hv. apply Forall_app in Hv as [Hv _]. assert (last p2 = Some "}"%char) as Hlast.
    { assert (last ("{"%char :: name ++ closing) = Some "}"%char) as E by (change (last (("{"%char :: name) ++ ["}"] ++ ["}"])%char = Some "}"%char); by rewrite app_assoc, last_snoc).
      rewrite Hp, last_app in E. destruct (last p2) eqn:E2; [done|]. by apply last_None in E2. }
    apply last_Some in Hlast as [q ->]. apply Forall_app in Hv as [_ Hv]. by inversion Hv.
Qed.

Lemma fill_replace creds k v s : plain k -> plain v -> v <> [] -> creds k = None -> (forall name, is_Some (creds name) -> ~ inside v name) ->
  fill creds O (replace (mark k) v O s) = fill (fun name => if decide (name = k) then Some v else creds name) O s.
Proof.
  intros Hk Hv Hne Hnew Hin. induction (Nat.lt_wf_0_projected (fun s : text => Datatypes.length s) s) as [s _ IH].
  destruct s as [|c s]; [done|]. destruct (hole (c :: s)) as [name|] eqn:Eh.
  - pose proof Eh as (Hn & t & Hs)%hole_Some. assert (Datatypes.length t < Datatypes.length (c :: s))%nat as Hlt.
    { rewrite Hs, length_app. unfold mark. rewrite !length_app. cbn. lia. }
    destruct (decide (name = k)) as [->|Hnk].
    + rewrite Hs, replace_hit, fill_plain, (IH t Hlt) by done. symmetry. apply fill_hit; [done|by rewrite decide_True].
    + destruct (creds name) as [w|] eqn:Ew.
      * rewrite Hs, replace_other, (fill_hit creds name w), (IH t Hlt) by done. symmetry. apply fill_hit; [done|by rewrite decide_False].
      * rewrite replace_miss, !fill_miss, (IH s); [done|cbn; lia| | |].
        -- intros n Hn'. rewrite Hn' in Eh. injection Eh as ->. by rewrite decide_False.
        -- intros n Hn'. destruct (creds n) as [w|] eqn:E; [|done]. apply inserted_hole in Hn'; [congruence|done..|]. apply Hin. by rewrite E.
        -- intros r. rewrite Hs. by apply mark_other.
  - rewrite replace_miss, !fill_miss, (IH s); [done|cbn; lia| | |].
    + intros n Hn'. congruence.
    + intros n Hn'. destruct (creds n) as [w|] eqn:E; [|done]. apply inserted_hole in Hn'; [congruence|done..|]. apply Hin. by rewrite E.
    + intros r Hr. rewrite Hr in Eh. by rewrite (proj2 (hole_Some (mark k ++ r) k) (conj Hk (ex_intro _ r eq_refl))) in Eh.
Qed.

(** What makes one pass enough: names and values without braces, no value empty or part of
    a name -- the names are not secret and the values are. *)
Definition fillable (credentials : list (string * string)) : Prop :=
  NoDup credentials.*1 /\
  Forall (fun kv => plain (list_ascii_of_string kv.1) /\ plain (list_ascii_of_string kv.2) /\ kv.2 <> "") credentials /\
  forall k v name, (k, v) ∈ credentials -> name ∈ credentials.*1 -> ~ inside (list_ascii_of_string v) (list_ascii_of_string name).

Definition creds_fun (credentials : gmap string string) (name : text) : option text :=
  list_ascii_of_string <$> credentials !! string_of_list_ascii name.

Lemma fill_ext c1 c2 s : (forall name, c1 name = c2 name) -> fill c1 O s = fill c2 O s.
Proof.
  intros H. generalize O as n. induction s as [|c s IH]; intros n; [done|]. cbn [fill]. destruct n; [|apply IH].
  destruct (hole (c :: s)) as [name|]; cbn [mbind option_bind]; [|by rewrite IH]. rewrite H. destruct (c2 name); cbn; by rewrite IH.
Qed.

Lemma list_of_nonempty v : v <> "" -> list_ascii_of_string v <> [].
Proof. destruct v; done. Qed.

Lemma ReplaceAll_list s k v :
  list_ascii_of_string (ReplaceAll s ("{{" +:+ k +:+ "}}") v) =
  replace (mark (list_ascii_of_string k)) (list_ascii_of_string v) O (list_ascii_of_string s).
Proof. unfold ReplaceAll. by rewrite list_ascii_of_string_of_list_ascii, !list_ascii_app. Qed.

(** Filling the placeholders credential by credential, in any order the iteration over the
    map takes, is filling all of them in one pass -- when names and values have no braces
    and no value is empty or part of a name. *)
Theorem substitute_one_pass order input :
  fillable order -> substitute input order = expand (list_to_map order) input.
Proof.
  intros (Hnd & Hall & Hin). unfold expand. rewrite <- (string_of_list_ascii_of_string (substitute input order)). f_equal. fold (creds_fun (list_to_map order)).
  revert input. induction order as [|[k v] order IH]; intros input.
  - cbn. generalize (list_ascii_of_string input). intros s. induction s as [|c s IH]; [done|]. rewrite fill_miss; [by rewrite <- IH|].
    intros name _. unfold creds_fun. by rewrite lookup_empty.
  - cbn [substitute foldl]. fold (substitute (ReplaceAll input ("{{" +:+ k +:+ "}}") v) order).
    inversion Hnd as [|? ? Hk Hnd']; subst. inversion Hall as [|? ? (Hpk & Hpv & Hne) Hall']; subst. cbn in Hk, Hpk, Hpv, Hne.
    rewrite IH; [|done|done|intros k' v' name H1 H2; apply (Hin k' v'); by right]. rewrite ReplaceAll_list.
    rewrite fill_replace; [|done|done|by apply list_of_nonempty| |].
    + apply fill_ext. intros name. unfold creds_fun. cbn [list_to_map foldr uncurry]. destruct (decide (name = list_ascii_of_string k)) as [->|Hnk].
      * rewrite string_of_list_ascii_of_string. cbn. by rewrite lookup_insert_eq.
      * cbn. rewrite lookup_insert_ne; [done|]. intros ->. apply Hnk. by rewrite list_ascii_of_string_of_list_ascii.
    + unfold creds_fun. rewrite string_of_list_ascii_of_string. by rewrite not_elem_of_list_to_map_1.
    + intros name [w Hw]. unfold creds_fun in Hw. apply fmap_Some in Hw as (w' & Hw & _).
      apply elem_of_list_to_map_2 in Hw. rewrite <- (list_ascii_of_string_of_list_ascii name).
      apply (Hin k v); [by left|]. right. apply list_elem_of_fmap. by exists (string_of_list_ascii name, w').
Qed.

(** ** Target URLs *)

(** *** Escaping of net/url *)

Definition code (c : ascii) : nat := nat_of_ascii c.
Definition between (a b : nat) (c : ascii) : bool := (a <=? code c)%nat && (code c <=? b)%nat.
Definition one_of (s : string) (c : ascii) : bool := existsb (Ascii.eqb c) (list_ascii_of_string s).
Definition unreserved (c : ascii) : bool := between 97 122 c || between 65 90 c || between 48 57 c || one_of "-_.~" c.
(** [shouldEscape] of a path and of a fragment. *)
Definition escape_path (c : ascii) : bool := negb (unreserved c || one_of "$&+,/:;=@" c).
Definition escape_fragment (c : ascii) : bool := negb (unreserved c || one_of "$&+,/:;=?@" c || one_of "!()*" c).

Definition upper_hex (n : nat) : ascii := ascii_of_nat (if (n <? 10)%nat then 48 + n else 55 + n).
Definition unhex (c : ascii) : option nat :=
  if between 48 57 c then Some (code c - 48)%nat
  else if between 97 102 c then Some (code c - 87)%nat else if between 65 70 c then Some (code c - 55)%nat else None.
Definition escape (should : ascii -> bool) (l : text) : text :=
  flat_map (fun c => if should c then ["%"%char; upper_hex (code c / 16); upper_hex (code c mod 16)] else [c]) l.
Fixpoint unescape (l : text) : option text :=
  match l with
  | [] => Some []
  | c :: l' =>
      if Ascii.eqb c "%" then
        match l' with
        | a :: b :: r => x ← unhex a; y ← unhex b; cons (ascii_of_nat (16 * x + y)) <$> unescape r
        | _ => None
        end
      else cons c <$> unescape l'
  end.
(** [validEncoded]. *)
Definition valid_encoded (should : ascii -> bool) (l : text) : bool := forallb (fun c => one_of "!$&'()*+,;=:@[]%" c || negb (should c)) l.

(** *** [url.URL] of an http URL *)

(** [u_authority]: what [String] prints of the user and the host. *)
Record URL := MkURL { u_scheme : string; u_authority : string; Path : text; RawPath : text; ForceQuery : bool; RawQuery : text;
                      Fragment : text; RawFragment : text }.

(** [setPath], [setFragment]: the decoded form and the original where it is not the default. *)
Definition set_encoded (should : ascii -> bool) (raw : text) : option (text * text) :=
  (fun decoded => (decoded, if bool_decide (escape should decoded = raw) then [] else raw)) <$> unescape raw.
Definition encoded (should : ascii -> bool) (decoded raw : text) : text :=
  if negb (bool_decide (raw = [])) && valid_encoded should raw && bool_decide (unescape raw = Some decoded) then raw else escape should decoded.
Definition EscapedPath (u : URL) : text :=
  if negb (bool_decide (RawPath u = [])) && valid_encoded escape_path (RawPath u) && bool_decide (unescape (RawPath u) = Some (Path u)) then RawPath u
  else if bool_decide (Path u = ["*"%char]) then ["*"%char] else escape escape_path (Path u).
Definition EscapedFragment (u : URL) : text := encoded escape_fragment (Fragment u) (RawFragment u).

Fixpoint cut (c : ascii) (l : text) : text * option text :=
  match l with
  | [] => ([], None)
  | x :: l' => if Ascii.eqb x c then ([], Some l') else let '(a, b) := cut c l' in (x :: a, b)
  end.
Definition has_ctl (l : text) : bool := existsb (fun c => (code c <? 32)%nat || (code c =? 127)%nat) l.

Section urls.
(** [parseAuthority] of net/url followed by the printing of what it read. *)
Context (parseAuthority : string -> option string).

(** [url.Parse] of what follows the scheme and "://" of an http or https URL. *)
Definition parse_rest (scheme : string) (rest : text) : option URL :=
  if has_ctl rest then None
  else
    let '(rest, fragment) := cut "#" rest in
    let '(rest, force, query) :=
      match cut "?" rest with
      | (rest, Some []) => (rest, true, [])
      | (rest, Some query) => (rest, false, query)
      | (rest, None) => (rest, false, [])
      end in
    let '(authority, path) := match cut "/" rest with (a, Some p) => (a, "/"%char :: p) | (a, None) => (a, []) end in
    authority ← parseAuthority (string_of_list_ascii authority);
    '(decoded, raw) ← set_encoded escape_path path;
    '(fdecoded, fraw) ← set_encoded escape_fragment (default [] fragment);
    Some (MkURL scheme authority decoded raw force query fdecoded fraw).
(** The schemes a stored base URL can have. *)
Definition Parse (base : string) : option URL :=
  match strip_prefix (list_ascii_of_string "http://") (list_ascii_of_string base) with
  | Some rest => parse_rest "http" rest
  | None => match strip_prefix (list_ascii_of_string "https://") (list_ascii_of_string base) with
            | Some rest => parse_rest "https" rest
            | None => None
            end
  end.

Definition url_tail (u : URL) : text :=
  (if ForceQuery u || negb (bool_decide (RawQuery u = [])) then "?"%char :: RawQuery u else []) ++
  (if bool_decide (Fragment u = []) then [] else "#"%char :: EscapedFragment u).
(** [URL.String], for a path that is not empty. *)
Definition url_string (u : URL) : text :=
  list_ascii_of_string (u_scheme u +:+ "://" +:+ u_authority u) ++
  (if bool_decide (head (EscapedPath u) = Some "/"%char) || bool_decide (u_authority u = "") then [] else ["/"%char]) ++
  EscapedPath u ++ url_tail u.

(** *** [path.Clean] and [cleanRelayPath] *)

Fixpoint segments (l : text) : list text :=
  match l with
  | [] => [[]]
  | c :: l' => if Ascii.eqb c "/" then [] :: segments l'
               else match segments l' with s :: r => (c :: s) :: r | [] => [[c]] end
  end.
Fixpoint joined (l : list text) : text := match l with [] => [] | [s] => s | s :: r => s ++ "/"%char :: joined r end.
Definition dot : text := ["."%char].
Definition dotdot : text := ["."; "."]%char.
Definition clean_step (rooted : bool) (out : list text) (s : text) : list text :=
  if bool_decide (s = []) || bool_decide (s = dot) then out
  else if bool_decide (s = dotdot) then
    match out with
    | top :: out' => if bool_decide (top = dotdot) then s :: out else out'
    | [] => if rooted then [] else [s]
    end
  else s :: out.
Definition Clean (p : text) : text :=
  let rooted := bool_decide (head p = Some "/"%char) in
  let cleaned := (if rooted then ["/"%char] else []) ++ joined (reverse (foldl (clean_step rooted) [] (segments p))) in
  if bool_decide (cleaned = []) then dot else cleaned.

Definition ends_slash (p : text) : bool := bool_decide (last p = Some "/"%char).
Definition cleanRelayPath (p : text) : text :=
  if bool_decide (p = []) || bool_decide (p = ["/"%char]) then p
  else let cleaned := Clean p in if ends_slash p && negb (ends_slash cleaned) then cleaned ++ ["/"%char] else cleaned.

(** *** [buildTargetURL] *)

Definition trim_suffix_slash (p : text) : text := if ends_slash p then removelast p else p.
Definition trim_prefix_slash (p : text) : text := match p with c :: p' => if Ascii.eqb c "/" then p' else p | [] => [] end.
(** The path before it is cleaned. *)
Definition joined_path (base rel : text) : text :=
  let basePath := trim_suffix_slash base in
  let rel := trim_prefix_slash rel in
  if bool_decide (basePath = []) && bool_decide (rel = []) then ["/"%char]
  else if bool_decide (rel = []) then basePath ++ ["/"%char] else basePath ++ "/"%char :: rel.
Definition target_url (base : URL) (path : text) : URL :=
  let '(rel, query) := cut "?" path in
  let query := default [] query in
  MkURL (u_scheme base) (u_authority base) (cleanRelayPath (joined_path (Path base) rel)) (RawPath base) (ForceQuery base)
    (if bool_decide (query = []) then RawQuery base else query) (Fragment base) (RawFragment base).
Definition buildTargetURL (baseURL path : string) : option string :=
  (fun base => string_of_list_ascii (url_string (target_url base (list_ascii_of_string path)))) <$> Parse baseURL.
End urls.

Example target_urls :
  (fun '(b, p) => buildTargetURL Some b p) <$>
    [("https://svc.example.com", "/api/users"); ("https://svc.example.com/", ""); ("https://svc.example.com/v1/", "api/../x/./y/");
     ("https://svc.example.com/", "/api/compose.one?input=%7B%22json%22"); ("https://svc.example.com", "/api/%2E%2E/admin");
     ("http://h:1/a%2Fb?x=1", ""); ("http://h/a", "../../{{key}}?t={{key}}"); ("http://h?", "x"); ("ftp://h", "x"); ("http://h/%zz", "x")]
  = [Some "https://svc.example.com/api/users"; Some "https://svc.example.com/"; Some "https://svc.example.com/v1/x/y/";
     Some "https://svc.example.com/api/compose.one?input=%7B%22json%22"; Some "https://svc.example.com/api/%252E%252E/admin";
     Some "http://h:1/a/b/?x=1"; Some "http://h/%7B%7Bkey%7D%7D?t={{key}}"; Some "http://h/x?"; None; None].
Proof. vm_compute. reflexivity. Qed.

(** *** Escaping and cleaning *)

Lemma between_spec a b c : between a b c = true <-> (a <= code c <= b)%nat.
Proof. unfold between. rewrite andb_true_iff, !Nat.leb_le. done. Qed.

Lemma unhex_upper n : (n < 16)%nat -> unhex (upper_hex n) = Some n.
Proof. intros H. do 16 (destruct n as [|n]; [reflexivity|]). lia. Qed.

Lemma unescape_escape should l : should "%"%char = true -> unescape (escape should l) = Some l.
Proof.
  intros Hp. induction l as [|c l IH]; [done|]. unfold escape. cbn [flat_map]. fold (escape should l). destruct (should c) eqn:Ec.
  - cbn [app unescape]. change (Ascii.eqb "%" "%") with true. cbv iota.
    assert (code c < 256)%nat as Hc by apply nat_ascii_bounded.
    rewrite !unhex_upper by (first [apply Nat.mod_upper_bound; lia|apply Nat.Div0.div_lt_upper_bound; lia]). cbn [mbind option_bind].
    rewrite IH. cbn [fmap option_fmap option_map]. rewrite <- (Nat.div_mod_eq (code c) 16). unfold code. by rewrite ascii_nat_embedding.
  - cbn [app unescape]. destruct (Ascii.eqb_spec c "%") as [->|_]; [congruence|]. by rewrite IH.
Qed.

(** The bytes of an escaped path. *)
Definition path_byte (c : ascii) : bool := negb (one_of "{}?#" c).
Lemma path_byte_upper n : (n < 16)%nat -> path_byte (upper_hex n) = true.
Proof. intros H. do 16 (destruct n as [|n]; [reflexivity|]). lia. Qed.
Lemma path_byte_kept c : one_of "!$&'()*+,;=:@[]%" c || negb (escape_path c) = true -> path_byte c = true.
Proof. destruct c as [[] [] [] [] [] [] [] []]; vm_compute; done. Qed.

Lemma escape_path_bytes l : Forall (fun c => path_byte c = true) (escape escape_path l).
Proof.
  induction l as [|c l IH]; [constructor|]. unfold escape. cbn [flat_map]. apply Forall_app. split; [|exact IH].
  destruct (escape_path c) eqn:E.
  - assert (code c < 256)%nat as Hc by apply nat_ascii_bounded.
    repeat constructor; apply path_byte_upper; [apply Nat.Div0.div_lt_upper_bound; lia|apply Nat.mod_upper_bound; lia].
  - repeat constructor. apply path_byte_kept. by rewrite E, orb_true_r.
Qed.

Lemma escaped_path_spec u : unescape (EscapedPath u) = Some (Path u) /\ Forall (fun c => path_byte c = true) (EscapedPath u).
Proof.
  unfold EscapedPath. match goal with |- context [if ?b then _ else _] => destruct b eqn:E end.
  - apply andb_true_iff in E as [[_ Hv]%andb_true_iff Hu%bool_decide_eq_true]. split; [done|].
    apply Forall_forall. intros c Hc. unfold valid_encoded in Hv. rewrite forallb_forall in Hv. apply path_byte_kept, Hv. by apply list_elem_of_In.
  - clear E. case_bool_decide as Ep; [rewrite Ep; by repeat constructor|]. split; [by apply unescape_escape|apply escape_path_bytes].
Qed.

Definition normal (s : text) : Prop := s <> [] /\ s <> dot /\ s <> dotdot /\ ~ ("/"%char ∈ s).

Lemma segments_free l : Forall (fun s => ~ ("/"%char ∈ s)) (segments l).
Proof.
  induction l as [|c l IH]; cbn; [repeat constructor; set_solver|]. destruct (Ascii.eqb_spec c "/") as [->|Hc]; [constructor; [set_solver|done]|].
  destruct (segments l) as [|s r]; inversion IH; subst; repeat constructor; set_solver.
Qed.

Lemma clean_normal l out : Forall normal out -> Forall (fun s => ~ ("/"%char ∈ s)) l -> Forall normal (foldl (clean_step true) out l).
Proof.
  intros Ho Hl. revert out Ho. induction Hl as [|s l Hs _ IH]; intros out Ho; [done|]. cbn. apply IH. unfold clean_step.
  case_bool_decide as E1; [done|]. case_bool_decide as E2; [done|]. cbn [orb]. case_bool_decide as E3.
  - destruct out as [|top out]; [constructor|]. inversion Ho as [|? ? (? & ? & Hd & ?) Ho']; subst. by rewrite bool_decide_eq_false_2.
  - by constructor.
Qed.

Lemma cleaned_path p : head p = Some "/"%char ->
  exists segs (slash : bool), Forall normal segs /\ cleanRelayPath p = "/"%char :: joined segs ++ (if slash then ["/"%char] else []).
Proof.
  intros Hp. unfold cleanRelayPath. destruct (_ || _) eqn:E.
  - exists [], false. split; [constructor|]. apply orb_true_iff in E as [E|E]; apply bool_decide_eq_true in E; by subst.
  - unfold Clean. rewrite Hp. rewrite (bool_decide_eq_true_2 (Some "/"%char = Some "/"%char)) by done. rewrite bool_decide_eq_false_2 by done.
    set (out := foldl (clean_step true) [] (segments p)).
    assert (Forall normal (reverse out)) as Hn by (apply Forall_reverse, clean_normal; [constructor|apply segments_free]).
    destruct (ends_slash p && _); [exists (reverse out), true|exists (reverse out), false]; cbn; by rewrite ?app_nil_r.
Qed.

Lemma joined_path_rooted base rel : base = [] \/ head base = Some "/"%char -> head (joined_path base rel) = Some "/"%char.
Proof.
  intros Hb. unfold joined_path, trim_suffix_slash. destruct Hb as [->|Hb]; [cbn; by destruct (bool_decide (trim_prefix_slash rel = []))|].
  destruct base as [|c [|c' base]]; [done| |].
  - injection Hb as ->. change (ends_slash ["/"%char]) with true. cbn. by destruct (bool_decide (trim_prefix_slash rel = [])).
  - injection Hb as ->. destruct (ends_slash _); cbn [removelast]; rewrite bool_decide_eq_false_2 by done; cbn [andb];
      by destruct (bool_decide (trim_prefix_slash rel = [])).
Qed.

Lemma cut_spec c l a b : cut c l = (a, b) -> l = a ++ match b with Some r => c :: r | None => [] end.
Proof.
  revert a b. induction l as [|x l IH]; intros a b; cbn; [by intros [= <- <-]|].
  destruct (Ascii.eqb_spec x c) as [->|]; [by intros [= <- <-]|]. destruct (cut c l) as [a' b'] eqn:E. intros [= <- <-]. cbn. f_equal. by apply IH.
Qed.

Definition rooted (p : text) : Prop := p = [] \/ head p = Some "/"%char.
Lemma set_encoded_rooted raw decoded kept : set_encoded escape_path raw = Some (decoded, kept) -> rooted raw -> rooted decoded /\ rooted kept.
Proof.
  unfold set_encoded. intros H Hr. destruct (unescape raw) as [d|] eqn:E; [|done]. injection H as <- <-. split.
  - destruct Hr as [->|Hr]; [injection E as <-; by left|]. destruct raw as [|c raw]; [done|]. injection Hr as ->. cbn [unescape] in E.
    change (Ascii.eqb "/" "%") with false in E. cbv iota in E. destruct (unescape raw); [|done]. injection E as <-. by right.
  - case_bool_decide; [by left|done].
Qed.

Lemma substitute_front creds w s : plain (list_ascii_of_string w) -> substitute (w +:+ s) creds = w +:+ substitute s creds.
Proof.
  intros Hw. revert s. induction creds as [|[k v] creds IH]; intros s; [done|]. cbn [substitute foldl].
  fold (substitute (ReplaceAll (w +:+ s) ("{{" +:+ k +:+ "}}") v) creds) (substitute (ReplaceAll s ("{{" +:+ k +:+ "}}") v) creds).
  rewrite <- IH. f_equal. rewrite <- (string_of_list_ascii_of_string (ReplaceAll _ _ _)), ReplaceAll_list, list_ascii_app, replace_plain by done.
  rewrite <- ReplaceAll_list, <- list_ascii_app. by rewrite string_of_list_ascii_of_string.
Qed.

Lemma string_app a b : string_of_list_ascii (a ++ b) = string_of_list_ascii a +:+ string_of_list_ascii b.
Proof. induction a as [|c a IH]; [done|]. cbn. by rewrite IH. Qed.

Lemma path_bytes_plain l : Forall (fun c => path_byte c = true) l -> plain l.
Proof.
  intros H. eapply Forall_impl; [exact H|]. intros c. destruct c as [[] [] [] [] [] [] [] []]; vm_compute; done.
Qed.

Section target.
Context (parseAuthority : string -> option string).
(** An authority is printed without braces, question marks and number signs: they are not
    legal in a host or in the user part, and escaped in a password. *)
Context (authority_bytes : forall a out, parseAuthority a = Some out -> Forall (fun c => path_byte c = true) (list_ascii_of_string out)).

Lemma parse_rest_ok scheme rest u : parse_rest parseAuthority scheme rest = Some u ->
  u_scheme u = scheme /\ Forall (fun c => path_byte c = true) (list_ascii_of_string (u_authority u)) /\ rooted (Path u) /\ rooted (RawPath u).
Proof.
  unfold parse_rest. destruct (has_ctl rest); [done|]. destruct (cut "#" rest) as [rest1 fragment].
  destruct (match cut "?" rest1 with (_, _) => _ end) as [[rest2 force] query].
  destruct (cut "/" rest2) as [a p]. set (path := match p with Some p => "/"%char :: p | None => [] end).
  assert (rooted path) as Hr by (subst path; destruct p; [by right|by left]).
  assert (match p with Some p0 => (a, "/"%char :: p0) | None => (a, []) end = (a, path)) as -> by (subst path; by destruct p).
  destruct (parseAuthority (string_of_list_ascii a)) as [out|] eqn:Ea; [|done]. cbn [mbind option_bind].
  destruct (set_encoded escape_path path) as [[d r]|] eqn:Es; [|done]. cbn [mbind option_bind].
  destruct (set_encoded escape_fragment (default [] fragment)) as [[fd fr]|]; [|done]. intros [= <-]. cbn.
  destruct (set_encoded_rooted _ _ _ Es Hr) as [Hd Hk]. split_and!; [done|by eapply authority_bytes|done|done].
Qed.

Lemma Parse_ok base u : Parse parseAuthority base = Some u ->
  (u_scheme u = "http" \/ u_scheme u = "https") /\ Forall (fun c => path_byte c = true) (list_ascii_of_string (u_authority u)) /\
  rooted (Path u) /\ rooted (RawPath u).
Proof.
  unfold Parse. destruct (strip_prefix (list_ascii_of_string "http://") _) as [rest|].
  - intros (-> & H)%parse_rest_ok. auto.
  - destruct (strip_prefix _ _) as [rest|]; [|done]. intros (-> & H)%parse_rest_ok. auto.
Qed.

Lemma escaped_rooted u : rooted (RawPath u) -> head (Path u) = Some "/"%char -> head (EscapedPath u) = Some "/"%char.
Proof.
  intros Hr Hp. unfold EscapedPath. match goal with |- context [if ?b then _ else _] => destruct b eqn:E end.
  - apply andb_true_iff in E as [[E _]%andb_true_iff _]. destruct Hr as [Hr|Hr]; [by rewrite Hr in E|done].
  - clear E. destruct (Path u) as [|c p]; [done|]. injection Hp as ->. by rewrite bool_decide_eq_false_2.
Qed.

(** A relayed request stays on the service it was given.
    Whatever path the caller sends, the target is the scheme and the authority of the base
    URL, a path that decodes to the joined path without empty, "." and ".." segments, and
    then the caller's query, byte for byte, or else the one of the base URL.  Filling the
    placeholders changes nothing before that query. *)
Theorem target_stays_on_service baseURL path target :
  buildTargetURL parseAuthority baseURL path = Some target ->
  exists base p segs (slash : bool) tail, Parse parseAuthority baseURL = Some base /\
    target = (u_scheme base +:+ "://" +:+ u_authority base) +:+ string_of_list_ascii p +:+ string_of_list_ascii tail /\
    head p = Some "/"%char /\ Forall (fun c => path_byte c = true) p /\ Forall normal segs /\
    unescape p = Some ("/"%char :: joined segs ++ (if slash then ["/"%char] else [])) /\
    tail = url_tail (target_url base (list_ascii_of_string path)) /\
    (forall query, (cut "?" (list_ascii_of_string path)).2 = Some query -> query <> [] -> exists fragment, tail = "?"%char :: query ++ fragment) /\
    forall creds, substitute target creds =
      (u_scheme base +:+ "://" +:+ u_authority base) +:+ string_of_list_ascii p +:+ substitute (string_of_list_ascii tail) creds.
Proof.
  unfold buildTargetURL. destruct (Parse parseAuthority baseURL) as [base|] eqn:Eb; [|done]. intros [= <-].
  apply Parse_ok in Eb as (Hs & Ha & Hp & Hr). set (u := target_url base (list_ascii_of_string path)).
  assert (exists rel, Path u = cleanRelayPath (joined_path (Path base) rel) /\ RawPath u = RawPath base /\ u_scheme u = u_scheme base /\ u_authority u = u_authority base)
    as (rel & Ep & Er & Es & Eu) by (unfold u, target_url; destruct (cut _ _) as [rel q]; by exists rel).
  destruct (cleaned_path _ (joined_path_rooted (Path base) rel Hp)) as (segs & slash & Hn & Hc).
  destruct (escaped_path_spec u) as [Hun Hb]. rewrite Ep, Hc in Hun.
  assert (head (EscapedPath u) = Some "/"%char) as Hh by (apply escaped_rooted; [by rewrite Er|by rewrite Ep, Hc]).
  assert (string_of_list_ascii (url_string u) =
    (u_scheme base +:+ "://" +:+ u_authority base) +:+ string_of_list_ascii (EscapedPath u) +:+ string_of_list_ascii (url_tail u)) as Hurl.
  { unfold url_string. rewrite Hh, Es, Eu. rewrite (bool_decide_eq_true_2 (Some "/"%char = Some "/"%char)) by done. cbn [orb app].
    by rewrite !string_app, string_of_list_ascii_of_string. }
  exists base, (EscapedPath u), segs, slash, (url_tail u). split_and!; try done.
  - intros query Hq Hne. unfold u, url_tail, target_url. destruct (cut "?" (list_ascii_of_string path)) as [r q]. cbn in Hq. subst q.
    cbn [default RawQuery ForceQuery]. rewrite (bool_decide_eq_false_2 (query = [])) by done. rewrite (bool_decide_eq_false_2 (query = [])) by done.
    rewrite orb_true_r. by eexists.
  - intros creds. rewrite Hurl. rewrite substitute_front; [f_equal; apply substitute_front|].
    + rewrite list_ascii_of_string_of_list_ascii. by apply path_bytes_plain.
    + rewrite !list_ascii_app. apply Forall_app. split; [by destruct Hs as [->| ->]; repeat constructor|].
      apply Forall_app. split; [by repeat constructor|by apply path_bytes_plain].
Qed.
End target.

(** ** Headers of the answer *)

(** [textproto.CanonicalMIMEHeaderKey]. *)
Definition token_byte (c : ascii) : bool := between 97 122 c || between 65 90 c || between 48 57 c || one_of "!#$%&'*+-.^_`|~" c.
Fixpoint canonical_from (upper : bool) (l : text) : text :=
  match l with
  | [] => []
  | c :: l' =>
      (if upper && between 97 122 c then ascii_of_nat (code c - 32)
       else if negb upper && between 65 90 c then ascii_of_nat (code c + 32) else c) :: canonical_from (Ascii.eqb c "-") l'
  end.
Definition CanonicalHeaderKey (k : string) : string :=
  if forallb token_byte (list_ascii_of_string k) then string_of_list_ascii (canonical_from true (list_ascii_of_string k)) else k.

Definition values (h : gmap string (list string)) (k : string) : list string := default [] (h !! k).
(** [Header.Add] and [Header.Set]. *)
Definition Add (h : gmap string (list string)) (k v : string)  : gmap string (list string) := let k := CanonicalHeaderKey k in <[k := values h k ++ [v]]> h.
Definition SetHeader (h : gmap string (list string)) (k v : string)  : gmap string (list string) := <[CanonicalHeaderKey k := [v]]> h.

Definition hopByHopHeaders : list string :=
  ["Connection"; "Keep-Alive"; "Proxy-Authenticate"; "Proxy-Authorization"; "TE"; "Trailer"; "Transfer-Encoding"; "Upgrade"].
(** [copyHeaders], in the order the iteration over [src] takes. *)
Definition copyHeaders (dst : gmap string (list string)) (src : list (string * list string))  : gmap string (list string) :=
  foldl (fun dst '(k, vv) => if bool_decide (k ∈ hopByHopHeaders) then dst else foldl (fun dst v => Add dst k v) dst vv) dst src.

Example canonical_keys :
  CanonicalHeaderKey <$> ["content-type"; "TE"; "x-REQUEST-id"; "a b"; "Etag"] = ["Content-Type"; "Te"; "X-Request-Id"; "a b"; "Etag"].
Proof. reflexivity. Qed.

(** The key of the table for TE is not in the form received headers have. *)
Example te_is_forwarded :
  values (copyHeaders ∅ [("Connection", ["Te"]); (CanonicalHeaderKey "TE", ["trailers"]); ("Upgrade", ["h2c"])]) "Te" = ["trailers"].
Proof. reflexivity. Qed.

Lemma values_Add h k v k' : CanonicalHeaderKey k = k -> values (Add h k v) k' = values h k' ++ (if bool_decide (k' = k) then [v] else []).
Proof.
  intros Hk. unfold Add, values. rewrite Hk. case_bool_decide as E.
  - rewrite E. by rewrite lookup_insert_eq.
  - rewrite lookup_insert_ne by done. by rewrite app_nil_r.
Qed.
Lemma values_Add_all h k vv k' : CanonicalHeaderKey k = k ->
  values (foldl (fun dst v => Add dst k v) h vv) k' = values h k' ++ (if bool_decide (k' = k) then vv else []).
Proof.
  intros Hk. revert h. induction vv as [|v vv IH]; intros h; cbn; [by destruct (bool_decide _); rewrite app_nil_r|].
  rewrite IH, values_Add by done. rewrite <- app_assoc. by destruct (bool_decide (k' = k)).
Qed.

(** The headers of the answer are those of the upstream, value for value, without the
    hop-by-hop ones, behind the ones already there. *)
Theorem copied_headers dst src k :
  Forall (fun kv => CanonicalHeaderKey kv.1 = kv.1) src -> NoDup src.*1 ->
  values (copyHeaders dst src) k = values dst k ++ (if bool_decide (k ∈ hopByHopHeaders) then [] else default [] (list_to_map (M := gmap string (list string)) src !! k)).
Proof.
  intros Hc Hn. revert dst. induction src as [|[k0 vv] src IH]; intros dst.
  - cbn. by destruct (bool_decide _); rewrite app_nil_r.
  - inversion Hc as [|? ? Hk0 Hc']; subst. inversion Hn as [|? ? Hnew Hn']; subst. cbn in Hk0, Hnew. cbn [copyHeaders foldl].
    match goal with |- values (foldl ?f ?d src) k = _ => change (foldl f d src) with (copyHeaders d src) end.
    rewrite IH by done. rewrite list_to_map_cons. destruct (decide (k = k0)) as [->|Hk].
    + rewrite lookup_insert_eq. rewrite (not_elem_of_list_to_map_1 src k0) by done.
      destruct (bool_decide (k0 ∈ hopByHopHeaders)); [done|]. cbn. rewrite values_Add_all by done. by rewrite bool_decide_eq_true_2, app_nil_r by done.
    + rewrite lookup_insert_ne by done. f_equal. destruct (bool_decide (k0 ∈ hopByHopHeaders)); [done|].
      rewrite values_Add_all by done. rewrite bool_decide_eq_false_2 by done. by rewrite app_nil_r.
Qed.

(** ** Concrete texts *)

Lemma not_inside c v name : c ∈ v -> ~ (c ∈ name) -> ~ inside v name.
Proof. intros Hc Hn (a & b & ->). apply Hn, elem_of_app. right. apply elem_of_app. by left. Qed.

Definition demo_order : list (string * string) := [("id", "7"); ("token", "s3cret")].
Lemma demo_fillable : fillable demo_order.
Proof.
  split_and!; [by apply (bool_decide_unpack _); vm_compute|repeat constructor; done|].
  intros k v name Hk Hname. assert (list_ascii_of_string name ∈ (list_ascii_of_string <$> ["id"; "token"])) as Hn by (by apply list_elem_of_fmap_2).
  assert ((k, v) = ("id", "7") \/ (k, v) = ("token", "s3cret")) as [[= -> ->]|[= -> ->]] by set_solver.
  - apply (not_inside "7"%char); [by left|]. intros H. apply list_elem_of_fmap in Hn as (n & Hn & Hin). rewrite Hn in H.
    assert (n = "id" \/ n = "token") as [-> | ->] by set_solver; revert H; by apply (bool_decide_unpack _); vm_compute.
  - apply (not_inside "3"%char); [by right; left|]. intros H. apply list_elem_of_fmap in Hn as (n & Hn & Hin). rewrite Hn in H.
    assert (n = "id" \/ n = "token") as [-> | ->] by set_solver; revert H; by apply (bool_decide_unpack _); vm_compute.
Qed.

Lemma substitute_one_pass_witness :
  substitute "Bearer {{token}} {{{id}}} {{x}}" demo_order = expand (list_to_map demo_order) "Bearer {{token}} {{{id}}} {{x}}" /\
  substitute "Bearer {{token}} {{{id}}} {{x}}" demo_order = "Bearer s3cret {7} {{x}}".
Proof. split; [apply (substitute_one_pass demo_order), demo_fillable|vm_compute; reflexivity]. Defined.
