(* ===== verification/ServiceRelay.v ===== *)
(** * Relayed services

    [service/service_relay.go], [repository/service.go] and [handler/service.go]: the rows of
    external services with their encrypted credentials, and the relaying of one request: the
    frozen budget, the check of the caller against the snapshot used, the request that is
    built, the copying of the answer and its classification.

    The network, the clock and the client's connection are data of a run ([exchange]); the
    order of every iteration over a Go map is one ([iterate]). *)

From S2P Require Import Prelude GoStrings Scope Text Servers Secrets RelayText.

(** ** Rows *)

Record Service := MkService {
  sv_id : Z; sv_version : Z; ServerID : option Z; sv_name : string; DisplayName : string; BaseURL : string;
  EncryptedCredentials : gmap string string; CredentialHints : gmap string string; Description : option string;
  UsageGuide : option string; sv_salt : string; sv_deleted : bool }.
(** Deleted rows keep their row and their name; [next_service] is the sequence. *)
Record svcdb := MkSvcDb { services : gmap Z Service; next_service : Z }.

Inductive input_err := NameRequired | BaseURLRequired | BaseURLScheme | CredentialRequired | HintUnmatched | ValueRequired.
Inductive ended := Expired | Cancelled.
#[export] Instance ended_eq_dec : EqDecision ended.
Proof. solve_decision. Defined.
(** Errors of the connections: whether they are timeouts. *)
Inductive conn_err := ConnErr (timeout : bool).
Inductive svc_err :=
| SvcApp (status : Z) (reason : string) | SvcInput (e : input_err) | SvcCrypto (e : secret_err) | SvcDb | SvcContext (e : ended) | SvcConn (e : conn_err).
Definition service_not_found : svc_err := SvcApp 404 "service_not_found".
Definition credential_decrypt : svc_err := SvcApp 500 "credential_decrypt_failed".

(** [FindByID]; [fails]: a database error. *)
Definition FindService (fails : bool) (id : Z) (d : svcdb) : result svc_err (option Service) :=
  if fails then Err SvcDb else Ok (s ← services d !! id; if sv_deleted s then None else Some s).
Definition found (fails : bool) (id : Z) (d : svcdb) : result svc_err Service :=
  try o := FindService fails id d in match o with Some s => Ok s | None => Err service_not_found end.

Definition put_service (s : Service) (d : svcdb) : svcdb := MkSvcDb (<[sv_id s := s]> (services d)) (next_service d).
(** The unique index over the names covers deleted rows. *)
Definition name_taken (name : string) (id : Z) (d : svcdb) : bool :=
  bool_decide (map_Exists (fun i s => i <> id /\ sv_name s = name) (services d)).

Section crypto.
Context `{P : Primitives} (master : string).

(** ** Input *)

(** [Credentials] in the order the loop over the map takes. *)
Record CreateServiceInput := MkServiceInput {
  si_name : string; si_display : string; si_base : string; Credentials : list (string * string); si_hints : option (gmap string string);
  si_description : option string; si_guide : option string; si_server : option Z }.

(** [nonce k]: the random bytes for the encryption of [k], [None] when the source fails. *)
Fixpoint encrypt_credentials (c : RecordCipher) (nonce : string -> option string) (l : list (string * string)) : result svc_err (list (string * string)) :=
  match l with
  | [] => Ok []
  | (k, v) :: l =>
      if bool_decide (v = "") then Err (SvcInput ValueRequired)
      else match Encrypt c (nonce k) k v with
           | Err e => Err (SvcCrypto e)
           | Ok e => try r := encrypt_credentials c nonce l in Ok ((k, e) :: r)
           end
  end.

(** [validateAndEncryptCredentials]: the ciphertexts, the hints and the salt. *)
Definition validateAndEncryptCredentials (salt : option string) (nonce : string -> option string) (i : CreateServiceInput) :
    result svc_err (gmap string string * gmap string string * string) :=
  if bool_decide (si_name i = "") then Err (SvcInput NameRequired)
  else if bool_decide (si_base i = "") then Err (SvcInput BaseURLRequired)
  else if negb (HasPrefix "http://" (si_base i)) && negb (HasPrefix "https://" (si_base i)) then Err (SvcInput BaseURLScheme)
  else if bool_decide (Credentials i = []) then Err (SvcInput CredentialRequired)
  else
    let hints := default ∅ (si_hints i) in
    if existsb (fun kv => negb (bool_decide (kv.1 ∈ (Credentials i).*1))) (map_to_list hints) then Err (SvcInput HintUnmatched)
    else match salt with
         | None => Err (SvcCrypto NoRandomness)
         | Some salt =>
             match ForRecord master VersionCurrent salt PurposeService with
             | Err e => Err (SvcCrypto e)
             | Ok c => try l := encrypt_credentials c nonce (Credentials i) in Ok (list_to_map l, hints, salt)
             end
         end.

(** ** Operations on the rows; [fails] says whether the write fails. *)

Definition CreateService (fails : bool) (salt : option string) (nonce : string -> option string) (i : CreateServiceInput) (d : svcdb) :
    svcdb * result svc_err Service :=
  match validateAndEncryptCredentials salt nonce i with
  | Err e => (d, Err e)
  | Ok (encrypted, hints, salt) =>
      let s := MkService (next_service d) VersionCurrent (si_server i) (si_name i) (si_display i) (si_base i) encrypted hints
                 (si_description i) (si_guide i) salt false in
      if fails || name_taken (si_name i) (next_service d) d then (d, Err SvcDb)
      else (MkSvcDb (<[next_service d := s]> (services d)) (next_service d + 1), Ok s)
  end.

(** The read and the write are two transactions: [d] is what is read, [now] what is written.
    The write saves the whole row. *)
Definition UpdateService (read_fails fails : bool) (id : Z) (salt : option string) (nonce : string -> option string) (i : CreateServiceInput)
    (d now : svcdb) : svcdb * result svc_err Service :=
  match found read_fails id d with
  | Err e => (now, Err e)
  | Ok existing =>
      match validateAndEncryptCredentials salt nonce i with
      | Err e => (now, Err e)
      | Ok (encrypted, hints, salt) =>
          let s := MkService (sv_id existing) VersionCurrent (si_server i) (si_name i) (si_display i) (si_base i) encrypted hints
                     (si_description i) (match si_guide i with Some g => Some g | None => UsageGuide existing end) salt (sv_deleted existing) in
          if fails || name_taken (si_name i) id now then (now, Err SvcDb) else (put_service s now, Ok s)
      end
  end.

Definition DeleteService (read_fails fails : bool) (id : Z) (d : svcdb) : svcdb * result svc_err unit :=
  match found read_fails id d with
  | Err e => (d, Err e)
  | Ok s =>
      if fails then (d, Err SvcDb)
      else (put_service (MkService (sv_id s) (sv_version s) (ServerID s) (sv_name s) (DisplayName s) (BaseURL s) (EncryptedCredentials s)
                           (CredentialHints s) (Description s) (UsageGuide s) (sv_salt s) true) d, Ok tt)
  end.

Fixpoint decrypt_credentials (c : RecordCipher) (l : list (string * string)) : option (list (string * string)) :=
  match l with
  | [] => Some []
  | (k, e) :: l => match Decrypt c k e with Ok v => cons (k, v) <$> decrypt_credentials c l | Err _ => None end
  end.
Definition GetCredentials (fails : bool) (id : Z) (d : svcdb) : result svc_err (gmap string string) :=
  try s := found fails id d in
  match ForRecord master (sv_version s) (sv_salt s) PurposeService with
  | Err e => Err (SvcCrypto e)
  | Ok c => match decrypt_credentials c (map_to_list (EncryptedCredentials s)) with
            | Some l => Ok (list_to_map l)
            | None => Err credential_decrypt
            end
  end.

(** *** Lists *)

Definition defaultExcerptRunes : nat := 200.
Definition ellipsis : string := string_of_list_ascii [byte 226; byte 128; byte 166].
Definition rune_text (i : item) : string := match i with Good s => s | Invalid _ => replacement end.
Definition excerpt (s : option string) (max : nat) : string :=
  match s with
  | None => ""
  | Some s =>
      let runes := rune_text <$> items s in
      if (Datatypes.length runes <=? max)%nat then String.concat "" runes else String.concat "" (take max runes) +:+ ellipsis
  end.
(** [List] without its order by name: the rows, their guides replaced by excerpts. *)
Definition ListServices (server : option Z) (d : svcdb) : gmap Z (Service * string) :=
  (fun s => (MkService (sv_id s) (sv_version s) (ServerID s) (sv_name s) (DisplayName s) (BaseURL s) (EncryptedCredentials s)
               (CredentialHints s) (Description s) None (sv_salt s) (sv_deleted s), excerpt (UsageGuide s) defaultExcerptRunes)) <$>
  filter (fun kv => Is_true (negb (sv_deleted kv.2) && match server with Some id => bool_decide (ServerID kv.2 = Some id) | None => true end)) (services d).

(** ** Budgets *)

Definition RelayModes : list string := [""; "standard"; "bounded_stream"].
Definition relayStandardBudget : duration := 30 * Second.
Definition relayBoundedStreamBudget : duration := 300 * Second.
(** The context: the mode its budget was frozen for, and its deadline. *)
Record rctx := MkRctx { budget_mode : option string; ctx_deadline : option time }.
Definition capped (configured most : duration) : duration := if (configured <=? 0) || (most <? configured) then most else configured.
Definition earliest (o : option time) (t : time) : time := match o with Some t' => Z.min t' t | None => t end.
(** [RelayContext]; [standard] and [bounded] are the fields of the service. *)
Definition RelayContext (standard bounded : duration) (ctx : rctx) (now : time) (mode : string) : option rctx :=
  if negb (bool_decide (mode ∈ RelayModes)) then None
  else
    let mode := if bool_decide (mode = "") then "standard" else mode in
    if bool_decide (budget_mode ctx = Some mode) then Some ctx
    else
      let budget := if bool_decide (mode = "bounded_stream") then capped bounded relayBoundedStreamBudget else capped standard relayStandardBudget in
      Some (MkRctx (Some mode) (Some (earliest (ctx_deadline ctx) (now + budget)))).

(** ** One request *)

Record RelayInput := MkRelay { Method : string; in_path : string; in_relay_mode : string; Headers : list (string * string); Body : option string }.
Record request := MkRequest { rq_method : string; rq_url : string; rq_headers : gmap string (list string); rq_body : option string }.

Context (parseAuthority : string -> option string).
(** The order the [n]-th iteration over a map takes. *)
Context (iterate : nat -> list (string * string) -> list (string * string)).

Fixpoint set_headers (creds : list (string * string)) (n : nat) (headers : list (string * string)) (h : gmap string (list string)) : gmap string (list string) :=
  match headers with
  | [] => h
  | (k, v) :: headers =>
      set_headers creds (S (S n)) headers (SetHeader h (substitute k (iterate n creds)) (substitute v (iterate (S n) creds)))
  end.

(** [http.NewRequestWithContext] accepts the method and the URL. *)
Definition request_valid (method url : string) : bool :=
  negb (bool_decide (method = "")) && forallb token_byte (list_ascii_of_string method) && bool_decide (is_Some (Parse parseAuthority url)).

(** From the snapshot to the request, or the reason of the failure. *)
Definition relay_credentials (svc : Service) : option (list (string * string)) :=
  if bool_decide (EncryptedCredentials svc = ∅) then Some []
  else match ForRecord master (sv_version svc) (sv_salt svc) PurposeService with
       | Ok c => decrypt_credentials c (iterate 0 (map_to_list (EncryptedCredentials svc)))
       | Err _ => None
       end.
Definition build_request (svc : Service) (i : RelayInput) : result (string * svc_err) request :=
  match relay_credentials svc with
  | None => Err ("credential_decrypt_failed", credential_decrypt)
  | Some creds =>
      match buildTargetURL parseAuthority (BaseURL svc) (in_path i) with
      | None => Err ("invalid_relay_path", SvcApp 400 "invalid_relay_path")
      | Some url =>
          let url := substitute url (iterate 1 creds) in
          let body := match Body i with
                      | Some b => if bool_decide (b = "null") then None else Some (substitute b (iterate 2 creds))
                      | None => None
                      end in
          if request_valid (Method i) url then Ok (MkRequest (Method i) url (set_headers creds 3 (Headers i) ∅) body)
          else Err ("invalid_relay_request", SvcApp 400 "invalid_relay_request")
      end
  end.

(** *** The answer *)

(** One write to the client: the error of its deadline, how much is taken, the errors of
    the write and of the flush. *)
Record write := MkWrite { w_deadline : option conn_err; w_taken : nat; w_error : option conn_err; w_flush : option conn_err }.
(** The body of the answer as it is read: pieces, the last with the error that ends it. *)
Inductive body := Last (piece : text) (w : write) (e : option conn_err) | More (piece : text) (w : write) (rest : body).
Fixpoint whole (b : body) : text := match b with Last p _ _ => p | More p _ b => p ++ whole b end.

Definition send (piece : text) (w : write) : text * option conn_err :=
  if bool_decide (piece = []) then ([], None)
  else match w_deadline w with
       | Some e => ([], Some e)
       | None =>
           let written := take (w_taken w) piece in
           (written, match w_error w with
                     | Some e => Some e
                     | None => if (Datatypes.length written =? Datatypes.length piece)%nat then w_flush w else Some (ConnErr false)
                     end)
       end.
Fixpoint copy_body (b : body) : text * option conn_err :=
  match b with
  | Last p w e => match send p w with (out, Some e) => (out, Some e) | (out, None) => (out, e) end
  | More p w b => match send p w with
                  | (out, Some e) => (out, Some e)
                  | (out, None) => let '(out', e) := copy_body b in (out ++ out', e)
                  end
  end.

Inductive upstream :=
| Unreachable (timeout : bool)
| Answered (status : Z) (headers : list (string * list string)) (deadline first_flush : option conn_err) (b : body).
(** What happens around a relay: the contexts at its points, the upstream, the end. *)
Record exchange := MkExchange {
  x_before : option ended; x_upstream : upstream; x_failed : option ended; x_request_done : bool;
  x_end_request : option conn_err; x_end_late : bool; x_end : option ended; x_late : bool; x_idle : bool; x_stalled : bool }.

Record RelayResult := MkResult {
  UpstreamStatus : Z; BytesCopied : Z; HeadersWritten : bool; CopyError : option conn_err; Outcome : string; Reason : string }.
Definition no_answer (outcome reason : string) : RelayResult := MkResult 0 0 false None outcome reason.

Definition relayContextError (e : ended) : RelayResult * svc_err :=
  match e with
  | Expired => (no_answer "timeout" "relay_budget_exceeded", SvcApp 504 "relay_timeout")
  | Cancelled => (no_answer "cancelled" "client_cancelled", SvcContext Cancelled)
  end.

(** What the client is sent: the status with its headers, and the bytes of the body. *)
Record reply := MkReply { rp_status : Z; rp_headers : gmap string (list string); rp_body : text }.
Record relayed := MkRelayed { r_request : option request; r_reply : option reply; r_result : RelayResult; r_error : option svc_err }.

(** How an interrupted copy is classified. *)
Definition interrupted (x : exchange) (e : conn_err) : string * string :=
  let timeout := match e with ConnErr t => t end in
  if bool_decide (x_end x = Some Expired) || x_late x then ("timeout", "relay_budget_exceeded")
  else if x_idle x || (timeout && x_stalled x) then ("timeout", "relay_idle_timeout")
  else if bool_decide (is_Some (x_end x)) then ("cancelled", "client_cancelled")
  else if timeout then ("timeout", "relay_idle_timeout")
  else ("failed", "relay_copy_failed").

(** The copy ends with an error when a read or a write failed, the request's context ended,
    or its deadline passed. *)
Definition copy_error (x : exchange) (e : option conn_err) : option conn_err :=
  match e with
  | Some e => Some e
  | None => match x_end_request x with Some e => Some e | None => if x_end_late x then Some (ConnErr true) else None end
  end.

Definition answer (x : exchange) (dst : gmap string (list string)) (rq : request) (status : Z) (headers : list (string * list string))
    (deadline first_flush : option conn_err) (b : body) : relayed :=
  let started sent copied e outcome reason := MkRelayed (Some rq) sent (MkResult status copied (bool_decide (is_Some sent)) e outcome reason) in
  if status =? 101 then started None 0 None "failed" "relay_unreachable" (Some (SvcApp 502 "relay_unreachable"))
  else match deadline with
       | Some e => started None 0 None "failed" "" (Some (SvcConn e))
       | None =>
           let '(out, e) := match first_flush with Some e => ([], Some e) | None => copy_body b end in
           let sent := Some (MkReply status (copyHeaders dst headers) out) in
           let copied := Z.of_nat (Datatypes.length out) in
           match copy_error x e with
           | Some e => let '(outcome, reason) := interrupted x e in started sent copied (Some e) outcome reason (Some (SvcConn e))
           | None => if 400 <=? status then started sent copied None "failed" "relay_upstream_failed" None
                     else started sent copied None "succeeded" "" None
           end
       end.

Definition relayFromService (x : exchange) (dst : gmap string (list string)) (svc : Service) (i : RelayInput) : relayed :=
  match x_before x with
  | Some e => let '(r, e) := relayContextError e in MkRelayed None None r (Some e)
  | None =>
      match build_request svc i with
      | Err (reason, e) =>
          MkRelayed None None (no_answer (if bool_decide (reason = "credential_decrypt_failed") then "failed" else "rejected") reason) (Some e)
      | Ok rq =>
          match x_upstream x with
          | Unreachable timeout =>
              match x_failed x with
              | Some e => let '(r, e) := relayContextError e in MkRelayed (Some rq) None r (Some e)
              | None => if timeout || x_request_done x
                        then MkRelayed (Some rq) None (no_answer "failed" "relay_timeout") (Some (SvcApp 504 "relay_timeout"))
                        else MkRelayed (Some rq) None (no_answer "failed" "relay_unreachable") (Some (SvcApp 502 "relay_unreachable"))
              end
          | Answered status headers deadline first_flush b => answer x dst rq status headers deadline first_flush b
          end
      end
  end.

(** [RelaySnapshotWithResult]: [claims] is [None] when there are none, else the servers the
    caller is limited to. *)
Definition RelaySnapshotWithResult (x : exchange) (dst : gmap string (list string)) (claims : option (list Z)) (svc : option Service) (i : RelayInput) : relayed :=
  let rejected reason e := MkRelayed None None (no_answer "rejected" reason) (Some e) in
  match claims with
  | None => rejected "unauthorized" (SvcApp 401 "unauthorized")
  | Some ids =>
      if negb (bool_decide (in_relay_mode i ∈ RelayModes)) then rejected "invalid_request" (SvcApp 400 "invalid_request")
      else if bool_decide (Method i = "") then rejected "method_required" (SvcApp 400 "method_required")
      else match svc with
           | None => rejected "service_not_found" service_not_found
           | Some svc =>
               if match ServerID svc with Some s => negb (CheckServerAccess (Some ids) s) | None => false end
               then rejected "api_key_service_denied" (SvcApp 403 "api_key_service_denied")
               else relayFromService x dst svc i
           end
  end.

(** [RelayWithResult], for callers that have only the identifier. *)
Definition RelayWithResult (fails : bool) (get_ended : option ended) (x : exchange) (dst : gmap string (list string)) (d : svcdb)
    (claims : option (list Z)) (id : Z) (i : RelayInput) : relayed :=
  let rejected reason e := MkRelayed None None (no_answer "rejected" reason) (Some e) in
  match claims with
  | None => rejected "unauthorized" (SvcApp 401 "unauthorized")
  | Some _ =>
      if negb (bool_decide (in_relay_mode i ∈ RelayModes)) then rejected "invalid_request" (SvcApp 400 "invalid_request")
      else if bool_decide (Method i = "") then rejected "method_required" (SvcApp 400 "method_required")
      else match found fails id d with
           | Err e => match get_ended with
                      | Some e => let '(r, e) := relayContextError e in MkRelayed None None r (Some e)
                      | None => rejected "service_not_found" e
                      end
           | Ok svc => RelaySnapshotWithResult x dst claims (Some svc) i
           end
  end.

(** ** Handlers *)

(** [Aborted]: the connection is broken off, the client knows the answer is incomplete. *)
Inductive response := Complete (r : reply) | Aborted (r : reply) | ErrorReply (e : svc_err).
Definition denied (claims : option (list Z)) (svc : Service) : bool :=
  match ServerID svc with Some s => negb (CheckServerAccess claims s) | None => false end.

(** [Relay]: the response, the request sent upstream, and the outcome recorded for the
    operation.  [get_ended]: the context after a failed lookup. *)
Definition Relay (fails : bool) (get_ended : option ended) (x : exchange) (dst : gmap string (list string)) (d : svcdb)
    (claims : option (list Z)) (id : option Z) (i : RelayInput) : response * option request * option (string * string) :=
  match id with
  | None => (ErrorReply (SvcApp 400 "invalid_service_id"), None, None)
  | Some id =>
      if negb (bool_decide (in_relay_mode i ∈ RelayModes)) then (ErrorReply (SvcApp 400 "invalid_request"), None, None)
      else match found fails id d with
           | Err e =>
               match get_ended with
               | Some Expired => (ErrorReply (SvcApp 504 "relay_timeout"), None, Some ("failed", "relay_budget_exceeded"))
               | Some Cancelled => (ErrorReply (SvcContext Cancelled), None, Some ("cancelled", "client_cancelled"))
               | None => (ErrorReply e, None, None)
               end
           | Ok svc =>
               if denied claims svc then (ErrorReply (SvcApp 403 "api_key_service_denied"), None, None)
               else
                 let r := RelaySnapshotWithResult x dst claims (Some svc) i in
                 let outcome := if bool_decide (Outcome (r_result r) = "timeout") then "failed" else Outcome (r_result r) in
                 let response :=
                   match r_error r, r_reply r with
                   | Some _, Some reply => Aborted reply
                   | Some e, None => ErrorReply e
                   | None, Some reply => Complete reply
                   | None, None => ErrorReply SvcDb
                   end in
                 (response, r_request r, Some (outcome, Reason (r_result r)))
           end
  end.

Definition GetHandler (fails : bool) (d : svcdb) (claims : option (list Z)) (id : Z) : result svc_err Service :=
  try svc := found fails id d in if denied claims svc then Err (SvcApp 403 "api_key_service_denied") else Ok svc.

(** The two reads of [GetCredentials]: the check uses the first, the answer the second. *)
Definition GetCredentialsHandler (fails fails' : bool) (d d' : svcdb) (claims : option (list Z)) (id : Z) : result svc_err (gmap string string) :=
  try svc := found fails id d in
  if denied claims svc then Err (SvcApp 403 "api_key_service_denied") else GetCredentials fails' id d'.

Definition ListHandler (d : svcdb) (claims : option (list Z)) (server : option Z) : gmap Z (Service * string) :=
  filter (fun kv => Is_true (negb (denied claims kv.2.1))) (ListServices server d).

Definition maxUsageGuideRunes : Z := 20000.
(** [validateServiceRequest]: the fields refused. *)
Definition validateServiceRequest (i : CreateServiceInput) : list (string * string) :=
  (if bool_decide (si_name i = "") then [("name", "required")] else []) ++
  (if bool_decide (si_base i = "") then [("base_url", "required")] else []) ++
  (if bool_decide (Credentials i = []) then [("credentials", "at_least_one_required")] else []) ++
  match si_guide i with
  | Some g => if maxUsageGuideRunes <? Z.of_nat (Datatypes.length (items g)) then [("usage_guide", "max_length")] else []
  | None => []
  end.
End crypto.

(** ** Budgets *)

Lemma capped_range configured most : 0 < most -> 0 < capped configured most <= most.
Proof. unfold capped. intros H. destruct (_ || _) eqn:E; [lia|]. apply orb_false_iff in E as [?%Z.leb_gt ?%Z.ltb_ge]. lia. Qed.

(** The budget of a relay is frozen once: asking again, at any later time, changes nothing,
    and the deadline is within 30 or 300 seconds of the start and never later than the one
    the caller had. *)
Lemma budget_frozen standard bounded ctx now mode ctx1 :
  RelayContext standard bounded ctx now mode = Some ctx1 ->
  (forall later, RelayContext standard bounded ctx1 later mode = Some ctx1) /\
  (budget_mode ctx = None ->
   exists t, ctx_deadline ctx1 = Some t /\ (forall t0, ctx_deadline ctx = Some t0 -> t <= t0) /\
     t <= now + (if bool_decide (mode = "bounded_stream") then relayBoundedStreamBudget else relayStandardBudget)).
Proof.
  unfold RelayContext. destruct (bool_decide (mode ∈ RelayModes)) eqn:Em; cbn [negb]; [|done].
  set (m := if bool_decide (mode = "") then "standard" else mode). destruct (bool_decide (budget_mode ctx = Some m)) eqn:Eb.
  - intros [= <-]. split; [by rewrite Eb|]. intros Hn. apply bool_decide_eq_true in Eb. congruence.
  - intros [= <-]. cbn [budget_mode ctx_deadline]. rewrite bool_decide_eq_true_2 by done. split; [done|]. intros _. eexists. split; [done|].
    assert (bool_decide (m = "bounded_stream") = bool_decide (mode = "bounded_stream")) as ->.
    { subst m. destruct (bool_decide (mode = "")) eqn:E0; [|done]. apply bool_decide_eq_true in E0 as ->. done. }
    pose proof (capped_range standard relayStandardBudget eq_refl). pose proof (capped_range bounded relayBoundedStreamBudget eq_refl).
    unfold earliest. split; [intros t0 ->; lia|]. destruct (ctx_deadline ctx), (bool_decide (mode = "bounded_stream")); lia.
Qed.

(** ** Answers *)

(** A piece the client's connection took to its last byte and that was flushed. *)
Definition taken_whole (piece : text) (w : write) : Prop :=
  piece = [] \/ (w_deadline w = None /\ (Datatypes.length piece <= w_taken w)%nat /\ w_error w = None /\ w_flush w = None).
(** A body that was read to its regular end ([io.EOF]) and taken piece by piece. *)
Inductive delivered : body -> Prop :=
| delivered_end piece w : taken_whole piece w -> delivered (Last piece w None)
| delivered_more piece w b : taken_whole piece w -> delivered b -> delivered (More piece w b).
(** An answer nothing interrupted: every deadline could be set, the first flush and the body
    passed, and after them the request's context was alive and its deadline ahead. *)
Definition uninterrupted (x : exchange) : Prop :=
  match x_upstream x with
  | Answered _ _ deadline first_flush b =>
      deadline = None /\ first_flush = None /\ delivered b /\ x_end_request x = None /\ x_end_late x = false
  | Unreachable _ => False
  end.

Lemma send_spec p w out e : send p w = (out, e) -> out `prefix_of` p /\ (e = None -> out = p) /\ (e = None <-> taken_whole p w).
Proof.
  unfold send, taken_whole. case_bool_decide as Hp; [intros [= <- <-]; subst; split_and!; [done..|by split; [left|]]|].
  destruct (w_deadline w); [intros [= <- <-]; split_and!; [apply prefix_nil|done|split; [done|intros [?|(? & _)]; done]]|].
  intros [= <- <-]. split; [apply prefix_take|]. destruct (w_error w); [split; [done|split; [done|by intros [?|(_ & _ & ? & _)]]]|].
  rewrite length_take. destruct (_ =? _)%nat eqn:E; [apply Nat.eqb_eq in E|apply Nat.eqb_neq in E].
  - split; [intros _; apply take_ge; lia|]. split; [intros ->; right; split_and!; [done|lia|done..]|intros [?|(_ & _ & _ & ?)]; done].
  - split; [done|]. split; [done|]. intros [?|(_ & ? & _)]; [done|lia].
Qed.

Lemma copy_body_spec b out e : copy_body b = (out, e) -> out `prefix_of` whole b /\ (e = None -> out = whole b) /\ (e = None <-> delivered b).
Proof.
  revert out e. induction b as [p w e0|p w b IH]; intros out e; cbn;
    destruct (send p w) as [o [e'|]] eqn:E; apply send_spec in E as (Hp & Hn & Ht).
  - intros [= <- <-]. split_and!; [done..|]. split; [done|]. intros Hd. inversion Hd; subst. by apply Ht.
  - intros [= <- <-]. rewrite (Hn eq_refl). split_and!; [done..|]. split; [intros ->; constructor; by apply Ht|by inversion 1].
  - intros [= <- <-]. split; [by apply prefix_app_r|]. split; [done|]. split; [done|]. intros Hd. inversion Hd; subst. by apply Ht.
  - rewrite (Hn eq_refl). destruct (copy_body b) as [o' e'] eqn:Eb. destruct (IH o' e' eq_refl) as (Hp' & Hn' & Hd'). intros [= <- <-].
    split; [destruct Hp' as [k ->]; exists k; by rewrite <- app_assoc|]. split; [intros He; by rewrite (Hn' He)|].
    rewrite Hd'. split; [constructor; [by apply Ht|done]|by inversion 1].
Qed.

Lemma interrupted_outcome x e : (interrupted x e).1 <> "succeeded".
Proof. unfold interrupted. repeat case_match; done. Qed.

(** What a client holds of an answer: the upstream's status and headers, and the part of the
    body it was sent. *)
Definition answer_of (x : exchange) (dst : gmap string (list string)) (r : reply) (b : body) : Prop :=
  exists headers deadline flush, x_upstream x = Answered (rp_status r) headers deadline flush b /\ rp_status r <> 101 /\
    rp_headers r = copyHeaders dst headers /\ rp_body r `prefix_of` whole b.

(** The recorded reason of a copy the total budget ended. *)
Definition budget_ended (x : exchange) : Prop := x_end x = Some Expired \/ x_late x = true.

Definition relayed_ok (x : exchange) (dst : gmap string (list string)) (r : relayed) : Prop :=
  let res := r_result r in
  match r_reply r with
  | None => r_error r <> None /\ Outcome res <> "succeeded" /\ BytesCopied res = 0 /\ HeadersWritten res = false
  | Some reply =>
      HeadersWritten res = true /\ UpstreamStatus res = rp_status reply /\ BytesCopied res = Z.of_nat (Datatypes.length (rp_body reply)) /\
      is_Some (r_request r) /\
      exists b, answer_of x dst reply b /\
        match r_error r with
        | Some _ => ~ uninterrupted x /\ Outcome res <> "succeeded" /\
                    (budget_ended x -> (Outcome res, Reason res) = ("timeout", "relay_budget_exceeded"))
        | None => uninterrupted x /\ rp_body reply = whole b /\
                  (Outcome res, Reason res) = (if 400 <=? rp_status reply then ("failed", "relay_upstream_failed") else ("succeeded", ""))
        end
  end.

Lemma interrupted_budget x e : budget_ended x -> interrupted x e = ("timeout", "relay_budget_exceeded").
Proof. unfold interrupted. intros [->| ->]; [by rewrite bool_decide_eq_true_2|by rewrite orb_true_r]. Qed.

Lemma copy_error_none x e : copy_error x e = None <-> e = None /\ x_end_request x = None /\ x_end_late x = false.
Proof. unfold copy_error. destruct e, (x_end_request x), (x_end_late x); naive_solver. Qed.

Lemma answer_ok x dst rq status headers deadline flush b :
  x_upstream x = Answered status headers deadline flush b -> relayed_ok x dst (answer x dst rq status headers deadline flush b).
Proof.
  intros Hx. unfold answer. destruct (status =? 101) eqn:E1; [done|]. apply Z.eqb_neq in E1. destruct deadline as [e|]; [done|].
  destruct (match flush with Some e => ([], Some e) | None => copy_body b end) as [out e] eqn:Ec.
  assert (out `prefix_of` whole b /\ (e = None -> out = whole b) /\ (e = None <-> flush = None /\ delivered b)) as (Hp & Hn & Hd).
  { destruct flush; [injection Ec as <- <-; split_and!; [apply prefix_nil|done|naive_solver]|].
    apply copy_body_spec in Ec as (? & ? & Hd). split_and!; [done..|]. rewrite Hd. naive_solver. }
  assert (answer_of x dst (MkReply status (copyHeaders dst headers) out) b) as Ha by (by exists headers, None, flush).
  assert (copy_error x e = None <-> uninterrupted x) as Hc.
  { rewrite copy_error_none, Hd. unfold uninterrupted. rewrite Hx. naive_solver. }
  destruct (copy_error x e) as [e1|] eqn:Ee.
  - pose proof (interrupted_outcome x e1) as Hi. pose proof (interrupted_budget x e1) as Hb. destruct (interrupted x e1) as [outcome reason].
    unfold relayed_ok. cbn. split_and!; [done..|eauto|]. exists b. split_and!; [done|by rewrite <- Hc|done|done].
  - pose proof (proj1 Hc eq_refl). apply copy_error_none in Ee as [-> _].
    destruct (400 <=? status) eqn:E4; unfold relayed_ok; cbn; rewrite E4; split_and!; eauto; exists b; auto.
Qed.

Section relay.
Context `{P : Primitives} (master : string) (parseAuthority : string -> option string) (iterate : nat -> list (string * string) -> list (string * string)).

Lemma relay_from_ok x dst svc i : relayed_ok x dst (relayFromService master parseAuthority iterate x dst svc i).
Proof.
  unfold relayFromService. destruct (x_before x) as [[]|]; [done..|]. destruct (build_request master parseAuthority iterate svc i) as [rq|[reason e]].
  - destruct (x_upstream x) as [timeout|status headers deadline flush b] eqn:Ex; [|by apply answer_ok].
    destruct (x_failed x) as [[]|]; [done..|]. by destruct (timeout || x_request_done x).
  - unfold relayed_ok. cbn. by destruct (bool_decide (reason = "credential_decrypt_failed")).
Qed.

Lemma relay_snapshot_ok x dst claims svc i : relayed_ok x dst (RelaySnapshotWithResult master parseAuthority iterate x dst claims svc i).
Proof.
  unfold RelaySnapshotWithResult. destruct claims as [ids|]; [|done]. destruct (negb _); [done|]. destruct (bool_decide (Method i = "")); [done|].
  destruct svc as [svc|]; [|done]. destruct (match ServerID svc with Some _ => _ | None => _ end); [done|]. apply relay_from_ok.
Qed.

Lemma relay_with_result_ok fails get_ended x dst d claims id i :
  relayed_ok x dst (RelayWithResult master parseAuthority iterate fails get_ended x dst d claims id i).
Proof.
  unfold RelayWithResult. destruct claims as [ids|]; [|done]. destruct (negb _); [done|]. destruct (bool_decide (Method i = "")); [done|].
  destruct (found fails id d) as [svc|e]; [apply relay_snapshot_ok|]. by destruct get_ended as [[]|].
Qed.

(** C28: A client takes an answer for complete only when it is.
    Whatever the upstream, the network, the clock and the client's connection do, a response
    ends normally only when nothing interrupted it -- the upstream's body was read to its
    regular end, every piece of it was taken and flushed, and the request's context and
    deadline outlived it -- and then has the upstream's status and headers and its whole
    body; one that was cut anywhere -- a failed read or write, a short write, an expired
    budget or idle limit -- is broken off with a prefix of the body, even when the cut body
    looked finished.  The operation is recorded as succeeded only for a complete response
    below 400, as failed for a complete one above, with the budget as its reason when the
    total budget ended it, and never as succeeded otherwise. *)
Theorem relay_answer_faithful fails get_ended x dst d claims id i :
  let '(response, rq, recorded) := Relay master parseAuthority iterate fails get_ended x dst d claims id i in
  match response with
  | Complete r => is_Some rq /\ uninterrupted x /\ (exists b, answer_of x dst r b /\ rp_body r = whole b) /\
                  recorded = Some (if 400 <=? rp_status r then ("failed", "relay_upstream_failed") else ("succeeded", ""))
  | Aborted r => is_Some rq /\ ~ uninterrupted x /\ (exists b, answer_of x dst r b) /\ (fst <$> recorded) <> Some "succeeded" /\
                 (budget_ended x -> recorded = Some ("failed", "relay_budget_exceeded"))
  | ErrorReply _ => (fst <$> recorded) <> Some "succeeded"
  end.
Proof.
  unfold Relay. destruct id as [id|]; [|done]. destruct (negb _); [done|].
  destruct (found fails id d) as [svc|e]; [|by destruct get_ended as [[]|]]. destruct (denied claims svc); [done|].
  pose proof (relay_snapshot_ok x dst claims (Some svc) i) as Hr.
  destruct (RelaySnapshotWithResult master parseAuthority iterate x dst claims (Some svc) i) as [rq reply res err].
  unfold relayed_ok in Hr. cbn in Hr |- *.
  assert (forall o : string, o <> "succeeded" -> (if bool_decide (o = "timeout") then "failed" else o) <> "succeeded") as Hout by (intros o Ho; by case_bool_decide).
  destruct reply as [reply|].
  - destruct Hr as (_ & _ & _ & Hq & b & Hb & Hr). destruct err as [e|].
    + destruct Hr as (Hu & Ho & Hbud). split_and!; [done|done|by exists b| |].
      * intros [= H]. by apply (Hout (Outcome res)).
      * intros Hx. apply Hbud in Hx. by injection Hx as -> ->.
    + destruct Hr as (Hu & Hw & Ho). split_and!; [done|done|by exists b|]. destruct (400 <=? rp_status reply); injection Ho as -> ->; done.
  - destruct Hr as (He & Ho & _). destruct err as [e|]; [|done]. intros [= H]. by apply (Hout (Outcome res)).
Qed.
End relay.

(** ** Requests *)

Lemma fillable_perm l l' : l ≡ₚ l' -> fillable l -> fillable l'.
Proof.
  intros Hp (Hn & Hf & Hi). split_and!.
  - by rewrite <- Hp.
  - by rewrite <- Hp.
  - intros k v name H1 H2. apply (Hi k v); [by rewrite Hp|by rewrite Hp].
Qed.

(** The credentials of a row in clear. *)
Definition reads_as `{P : Primitives} (master : string) (svc : Service) (creds : gmap string string) : Prop :=
  dom creds = dom (EncryptedCredentials svc) /\
  forall k e, EncryptedCredentials svc !! k = Some e -> exists c v, ForRecord master (sv_version svc) (sv_salt svc) PurposeService = Ok c /\
    Decrypt c k e = Ok v /\ creds !! k = Some v.

Lemma decrypt_credentials_spec `{P : Primitives} c l r : decrypt_credentials c l = Some r ->
  r.*1 = l.*1 /\ forall k e, (k, e) ∈ l -> exists v, Decrypt c k e = Ok v /\ (k, v) ∈ r.
Proof.
  revert r. induction l as [|[k e] l IH]; intros r; cbn; [intros [= <-]; split; [done|by intros k e ?%elem_of_nil]|].
  destruct (Decrypt c k e) as [v|] eqn:Ev; [|done]. destruct (decrypt_credentials c l) as [r'|]; [|done]. intros [= <-].
  destruct (IH r' eq_refl) as [Hk Hd]. split; [by cbn; rewrite Hk|]. intros k' e' [[= -> ->]|Hin]%elem_of_cons; [exists v; split; [done|by left]|].
  destruct (Hd k' e' Hin) as (v' & ? & ?). exists v'. split; [done|by right].
Qed.

Lemma NoDup_map_keys {A} (m : gmap string A) l : l ≡ₚ map_to_list m -> NoDup l.*1.
Proof. intros ->. apply NoDup_fst_map_to_list. Qed.

Lemma decrypted_reads_as `{P : Primitives} master svc c l r :
  ForRecord master (sv_version svc) (sv_salt svc) PurposeService = Ok c -> l ≡ₚ map_to_list (EncryptedCredentials svc) ->
  decrypt_credentials c l = Some r -> NoDup r.*1 /\ reads_as master svc (list_to_map r).
Proof.
  intros Hc Hp (Hk & Hd)%decrypt_credentials_spec. assert (NoDup r.*1) as Hn by (rewrite Hk; by eapply NoDup_map_keys).
  split; [done|]. split.
  - rewrite dom_list_to_map_L, Hk. apply set_eq. intros k. rewrite elem_of_list_to_set, list_elem_of_fmap, elem_of_dom. split.
    + intros ([k' e] & -> & Hin). rewrite Hp in Hin. apply elem_of_map_to_list in Hin. cbn. eauto.
    + intros [e He]. exists (k, e). split; [done|]. rewrite Hp. by apply elem_of_map_to_list.
  - intros k e He. destruct (Hd k e) as (v & Hv & Hin); [rewrite Hp; by apply elem_of_map_to_list|].
    exists c, v. split_and!; [done|done|]. by apply elem_of_list_to_map_1.
Qed.

Section requests.
Context `{P : Primitives} (master : string) (parseAuthority : string -> option string) (iterate : nat -> list (string * string) -> list (string * string)).
Context (authority_bytes : forall a out, parseAuthority a = Some out -> Forall (fun c => path_byte c = true) (list_ascii_of_string out)).
(** An iteration over a map visits every entry once. *)
Context (iterate_perm : forall n l, iterate n l ≡ₚ l).

Lemma substitute_iterate n creds s : NoDup creds.*1 -> fillable creds -> substitute s (iterate n creds) = expand (list_to_map creds) s.
Proof.
  intros Hn Hf. rewrite substitute_one_pass by (eapply fillable_perm; [symmetry; apply iterate_perm|done]). f_equal.
  apply list_to_map_proper; [rewrite iterate_perm; done|apply iterate_perm].
Qed.

(** The headers of the reference. *)
Definition expanded_headers (creds : gmap string string) (headers : list (string * string)) (h : gmap string (list string)) : gmap string (list string) :=
  foldl (fun h '(k, v) => SetHeader h (expand creds k) (expand creds v)) h headers.
Lemma set_headers_expanded creds n headers h : NoDup creds.*1 -> fillable creds ->
  set_headers iterate creds n headers h = expanded_headers (list_to_map creds) headers h.
Proof.
  intros Hn Hf. revert n h. induction headers as [|[k v] headers IH]; intros n h; [done|]. cbn [set_headers]. by rewrite IH, !substitute_iterate.
Qed.

Definition expanded_body (creds : gmap string string) (o : option string) : option string :=
  match o with Some b => if bool_decide (b = "null") then None else Some (expand creds b) | None => None end.

(** What a request sent for a snapshot is: the caller's method, the path escaped, and behind
    it the query with the row's credentials in [order]; when one pass over them is enough,
    the query, the headers and the body have every placeholder filled.  The path itself has
    none: [path_byte] is no brace, so a placeholder in it went escaped. *)
Definition request_for (svc : Service) (i : RelayInput) (rq : request) : Prop :=
  exists creds order base p segs (slash : bool) tail, reads_as master svc creds /\ order ≡ₚ map_to_list creds /\
    Parse parseAuthority (BaseURL svc) = Some base /\ rq_method rq = Method i /\
    let service := u_scheme base +:+ "://" +:+ u_authority base in
    buildTargetURL parseAuthority (BaseURL svc) (in_path i) = Some (service +:+ string_of_list_ascii p +:+ tail) /\
    rq_url rq = service +:+ string_of_list_ascii p +:+ substitute tail order /\
    head p = Some "/"%char /\ Forall (fun c => path_byte c = true) p /\ Forall normal segs /\
    unescape p = Some ("/"%char :: joined segs ++ (if slash then ["/"%char] else [])) /\
    (forall query, (cut "?" (list_ascii_of_string (in_path i))).2 = Some query -> query <> [] ->
       exists fragment, tail = String "?" (string_of_list_ascii (query ++ fragment))) /\
    (fillable (map_to_list creds) ->
       substitute tail order = expand creds tail /\ rq_headers rq = expanded_headers creds (Headers i) ∅ /\ rq_body rq = expanded_body creds (Body i)).

Lemma relay_credentials_ok svc creds : relay_credentials master iterate svc = Some creds -> NoDup creds.*1 /\ reads_as master svc (list_to_map creds).
Proof.
  unfold relay_credentials. case_bool_decide as He.
  - intros [= <-]. split; [constructor|]. split; [by rewrite He, dom_empty_L|]. intros k e Hk. by rewrite He, lookup_empty in Hk.
  - destruct (ForRecord _ _ _ _) as [c|] eqn:Ec; [|done]. intros Hd. eapply decrypted_reads_as; [exact Ec|apply iterate_perm|exact Hd].
Qed.

Lemma build_request_ok svc i rq : build_request master parseAuthority iterate svc i = Ok rq -> request_for svc i rq /\ Method i <> "".
Proof.
  unfold build_request. destruct (relay_credentials master iterate svc) as [creds|] eqn:Ec; [|done].
  destruct (relay_credentials_ok svc creds Ec) as [Hn Hr].
  destruct (buildTargetURL parseAuthority (BaseURL svc) (in_path i)) as [target|] eqn:Et; [|done].
  destruct (request_valid _ _ _) eqn:Ev; [|done]. intros [= <-]. split.
  - destruct (target_stays_on_service parseAuthority authority_bytes _ _ _ Et)
      as (base & p & segs & slash & tail & Hb & Htar & Hh & Hbytes & Hsegs & Hun & _ & Hq & Hsub).
    assert (iterate 1 creds ≡ₚ map_to_list (list_to_map creds : gmap string string)) as Hperm by (by rewrite iterate_perm, map_to_list_to_map).
    exists (list_to_map creds), (iterate 1 creds), base, p, segs, slash, (string_of_list_ascii tail). cbv zeta. split_and!; try done.
    + by rewrite Et, Htar.
    + apply Hsub.
    + intros query Hc Hne. destruct (Hq query Hc Hne) as [fragment ->]. by exists fragment.
    + intros Hf. assert (fillable creds) as Hfc by exact (fillable_perm _ _ (map_to_list_to_map creds Hn) Hf).
      split_and!; [by apply substitute_iterate|by apply set_headers_expanded|].
      unfold expanded_body. cbn [rq_body]. destruct (Body i) as [b|]; [|done]. case_bool_decide; [done|]. by rewrite substitute_iterate.
  - unfold request_valid in Ev. apply andb_true_iff in Ev as [[Ev _]%andb_true_iff _]. by apply negb_true_iff, bool_decide_eq_false in Ev.
Qed.

Lemma answer_request x dst rq status headers deadline flush b : r_request (answer x dst rq status headers deadline flush b) = Some rq.
Proof.
  unfold answer. destruct (status =? 101); [done|]. destruct deadline; [done|]. destruct (match flush with Some _ => _ | None => _ end) as [out e].
  destruct (copy_error x e); [by destruct (interrupted x _)|by destruct (400 <=? status)].
Qed.

End requests.

(** ** Credentials *)

Section credentials.
Context `{P : Primitives} `{PO : !PrimitivesOk P} (master : string).

Lemma encrypt_credentials_spec c nonce l r : len (rc_key c) = 32 -> (forall k n, nonce k = Some n -> len n = NonceSize) ->
  encrypt_credentials c nonce l = Ok r -> r.*1 = l.*1 /\ forall k e, (k, e) ∈ r -> exists v, (k, v) ∈ l /\ Decrypt c k e = Ok v.
Proof.
  intros Hk Hn. revert r. induction l as [|[k v] l IH]; intros r; cbn; [intros [= <-]; split; [done|by intros k e ?%elem_of_nil]|].
  destruct (bool_decide (v = "")); [done|]. destruct (Encrypt c (nonce k) k v) as [e|] eqn:Ee; [|done].
  destruct (encrypt_credentials c nonce l) as [r'|]; cbn; [|done]. intros [= <-]. destruct (IH r' eq_refl) as [Hf Hd].
  split; [by cbn; rewrite Hf|]. intros k' e' [[= -> ->]|Hin]%elem_of_cons.
  - exists v. split; [by left|]. destruct (nonce k) as [n|] eqn:En; [|unfold Encrypt, encryptAAD in Ee; by destruct (negb _)].
    eapply encrypt_decrypt; [done|by apply (Hn k)|done].
  - destruct (Hd k' e' Hin) as (v' & ? & ?). exists v'. split; [by right|done].
Qed.

Lemma decrypt_credentials_total c l : (forall k e, (k, e) ∈ l -> is_ok (Decrypt c k e) = true) -> is_Some (decrypt_credentials c l).
Proof.
  induction l as [|[k e] l IH]; intros H; cbn; [eauto|]. pose proof (H k e ltac:(by left)) as Hk. destruct (Decrypt c k e); [|done].
  destruct IH as [r ->]; [intros k' e' Hin; apply H; by right|]. eauto.
Qed.

Lemma sealed_credentials salt nonce i encrypted hints salt' :
  (forall k n, nonce k = Some n -> len n = NonceSize) -> NoDup (Credentials i).*1 ->
  validateAndEncryptCredentials master salt nonce i = Ok (encrypted, hints, salt') ->
  exists c l, ForRecord master VersionCurrent salt' PurposeService = Ok c /\ decrypt_credentials c (map_to_list encrypted) = Some l /\
    list_to_map l = (list_to_map (Credentials i) : gmap string string).
Proof.
  intros Hn Hd. unfold validateAndEncryptCredentials. repeat (match goal with |- (if ?b then _ else _) = _ -> _ => destruct b; [done|] end).
  destruct salt as [salt|]; [|done]. destruct (ForRecord master VersionCurrent salt PurposeService) as [c|] eqn:Ec; [|done].
  destruct (encrypt_credentials c nonce (Credentials i)) as [r|] eqn:Er; cbn; [|done]. intros [= <- _ <-]. exists c.
  destruct (ForRecord_spec _ _ _ _ _ Ec) as (_ & _ & _ & Hk & _).
  destruct (encrypt_credentials_spec c nonce _ r Hk Hn Er) as [Hf He]. assert (NoDup r.*1) as Hr by (by rewrite Hf).
  assert (forall k e, (k, e) ∈ map_to_list (list_to_map r : gmap string string) -> exists v, (k, v) ∈ Credentials i /\ Decrypt c k e = Ok v) as Hin.
  { intros k e Hin%elem_of_map_to_list. apply elem_of_list_to_map_2 in Hin. by apply He. }
  destruct (decrypt_credentials_total c (map_to_list (list_to_map r : gmap string string))) as [l Hl].
  { intros k e (v & _ & ->)%Hin. done. }
  exists l. split_and!; [done|done|]. apply decrypt_credentials_spec in Hl as [Hlk Hld].
  assert (NoDup l.*1) as Hln by (rewrite Hlk; apply NoDup_fst_map_to_list).
  apply map_eq. intros k. destruct ((list_to_map (Credentials i) : gmap string string) !! k) as [v|] eqn:Ev.
  - apply elem_of_list_to_map_2 in Ev. assert (k ∈ r.*1) as ([k0 e] & Hk0 & Hke)%list_elem_of_fmap by (rewrite Hf; apply list_elem_of_fmap; by exists (k, v)).
    cbn in Hk0. subst k0. destruct (Hld k e) as (v' & Hv' & Hl'); [apply elem_of_map_to_list; by apply elem_of_list_to_map_1|].
    destruct (He k e Hke) as (v2 & Hv2 & Hd2). assert (v' = v) as ->.
    { assert (v2 = v); [|congruence]. apply (elem_of_list_to_map_1 (M := gmap string) _ _ _ Hd) in Hv2, Ev. congruence. }
    by apply elem_of_list_to_map_1.
  - apply not_elem_of_list_to_map_2 in Ev. apply not_elem_of_list_to_map_1. rewrite Hlk. intros ([k0 e] & Hk0 & Hke)%list_elem_of_fmap.
    cbn in Hk0. subst k0. destruct (Hin k e Hke) as (v & Hv & _). apply Ev, list_elem_of_fmap. by exists (k, v).
Qed.

(** What is revealed of a service is what its last writer gave: after a creation or an
    update, with any salt and nonces of the right size, [GetCredentials] returns exactly the
    credentials of the input; an update without a usage guide keeps the old one. *)
Theorem service_credentials_roundtrip salt nonce i d :
  (forall k n, nonce k = Some n -> len n = NonceSize) -> NoDup (Credentials i).*1 ->
  (forall d' s, CreateService master false salt nonce i d = (d', Ok s) -> GetCredentials master false (sv_id s) d' = Ok (list_to_map (Credentials i))) /\
  (forall now d' s id, (forall k s0, services d !! k = Some s0 -> sv_id s0 = k) ->
     UpdateService master false false id salt nonce i d now = (d', Ok s) ->
     GetCredentials master false id d' = Ok (list_to_map (Credentials i)) /\
     (si_guide i = None -> exists s0, services d !! id = Some s0 /\ UsageGuide s = UsageGuide s0)).
Proof.
  intros Hn Hd. split.
  - intros d' s. unfold CreateService. destruct (validateAndEncryptCredentials master salt nonce i) as [[[encrypted hints] salt']|] eqn:Ev; [|done].
    destruct (sealed_credentials _ _ _ _ _ _ Hn Hd Ev) as (c & l & Hc & Hl & Hm). destruct (false || _); [done|]. intros [= <- <-].
    unfold GetCredentials, found, FindService. cbn [services sv_id]. rewrite lookup_insert_eq. cbn. by rewrite Hc, Hl, Hm.
  - intros now d' s id Hids. unfold UpdateService, found, FindService. destruct (services d !! id) as [s0|] eqn:Es; [|done]. cbn.
    destruct (sv_deleted s0) eqn:Edel; [done|]. cbn.
    destruct (validateAndEncryptCredentials master salt nonce i) as [[[encrypted hints] salt']|] eqn:Ev; [|done].
    destruct (sealed_credentials _ _ _ _ _ _ Hn Hd Ev) as (c & l & Hc & Hl & Hm). destruct (name_taken _ _ _); [done|]. intros [= <- <-]. split.
    + unfold GetCredentials, found, FindService, put_service. cbn [services sv_id]. rewrite (Hids id s0 Es), lookup_insert_eq. cbn. rewrite Edel. cbn.
      by rewrite Hc, Hl, Hm.
    + intros ->. exists s0. done.
Qed.
End credentials.

(** ** A concrete relay *)

Section demo.
Existing Instance toy.

Definition demo_service_input (server : Z) (base token : string) : CreateServiceInput :=
  MkServiceInput "svc" "Service" base [("token", token)] None None (Some "guide") (Some server).
Definition demo_nonce (_ : string) : option string := Some toy_nonce.
Definition demo_created : svcdb * result svc_err Service :=
  CreateService toy_key false (Some toy_salt) demo_nonce (demo_service_input 1 "https://h/api" "s3cret") (MkSvcDb ∅ 5).
(** An administrator moves the service to another server, upstream and token. *)
Definition demo_moved : svcdb * result svc_err Service :=
  UpdateService toy_key false false 5 (Some toy_salt) demo_nonce (demo_service_input 2 "https://other/" "0ther") demo_created.1 demo_created.1.

Definition demo_authority (a : string) : option string := if forallb path_byte (list_ascii_of_string a) then Some a else None.
Definition demo_body : body := More (list_ascii_of_string "he") (MkWrite None 2 None None) (Last (list_ascii_of_string "llo") (MkWrite None 3 None None) None).
Definition demo_exchange (b : body) : exchange :=
  MkExchange None (Answered 200 [("Content-Type", ["text/plain"]); ("Connection", ["close"])] None None b) None false None false None false false false.
Definition demo_input : RelayInput := MkRelay "GET" "users?t={{token}}" "" [("authorization", "Bearer {{token}}")] None.
Definition demo_relay (b : body) (claims : list Z) := Relay toy_key demo_authority (fun _ l => reverse l) false None (demo_exchange b) ∅ demo_created.1 (Some claims) (Some 5) demo_input.

Definition demo_request : request :=
  MkRequest "GET" "https://h/api/users?t=s3cret" {["Authorization" := ["Bearer s3cret"]]} None.

(** A key limited to server 1 may use the service; a client whose connection takes one byte
    of the second piece is cut off; a key limited to another server sends nothing. *)
Example demo_relayed :
  demo_relay demo_body [1] =
    (Complete (MkReply 200 {["Content-Type" := ["text/plain"]]} (list_ascii_of_string "hello")), Some demo_request, Some ("succeeded", "")) /\
  demo_relay (More (list_ascii_of_string "he") (MkWrite None 2 None None) (Last (list_ascii_of_string "llo") (MkWrite None 1 None None) None)) [1] =
    (Aborted (MkReply 200 {["Content-Type" := ["text/plain"]]} (list_ascii_of_string "hel")), Some demo_request, Some ("failed", "relay_copy_failed")) /\
  demo_relay demo_body [3] = (ErrorReply (SvcApp 403 "api_key_service_denied"), None, None).
Proof. split_and!; vm_compute; reflexivity. Qed.

(** The reveal checks the row of its first read and answers with the one of its second: a
    key limited to server 1 gets the new token of a service moved to server 2 in between. *)
Example revealed_after_move :
  GetCredentialsHandler toy_key false false demo_created.1 demo_moved.1 (Some [1]) 5 = Ok {["token" := "0ther"]} /\
  GetCredentialsHandler toy_key false false demo_moved.1 demo_moved.1 (Some [1]) 5 = Err (SvcApp 403 "api_key_service_denied").
Proof. split; vm_compute; reflexivity. Qed.

(** The placeholders of a path are escaped before they are looked for. *)
Example path_placeholder_not_filled :
  (fun '(_, rq, _) => rq_url <$> rq) (Relay toy_key demo_authority (fun _ l => l) false None (demo_exchange demo_body) ∅ demo_created.1 (Some [1]) (Some 5)
     (MkRelay "GET" "users/{{token}}" "" [] None)) = Some "https://h/api/users/%7B%7Btoken%7D%7D".
Proof. vm_compute. reflexivity. Qed.

Lemma demo_authority_bytes a out : demo_authority a = Some out -> Forall (fun c => path_byte c = true) (list_ascii_of_string out).
Proof.
  unfold demo_authority. destruct (forallb _ _) eqn:E; [|done]. intros [= <-]. apply Forall_forall. intros c Hc.
  rewrite forallb_forall in E. apply E. by apply list_elem_of_In.
Qed.
Lemma demo_iterate (n : nat) (l : list (string * string)) : reverse l ≡ₚ l.
Proof. apply reverse_Permutation. Qed.

End demo.
