(* ===== verification/Sftp.v ===== *)
(** * Files of a server over SFTP

    [service/sftp.go], [sftp_text.go]: the operations on remote files as dialogues with the
    server ([prog]): which call is made, and what follows each answer.  The server and
    everybody else who writes there are arbitrary: [play] runs a dialogue against any answers,
    and [wp] states what every call must satisfy given the answers so far.  Resumable
    uploads are in the file SftpUpload, ranges and archives in SftpDownload. *)

From S2P Require Import Prelude GoStrings Text RelayText.

(** ** The protocol *)

(** What the code asks of an [fs.FileInfo]; times are the seconds of the protocol. *)
Record file_info := MkInfo { i_size : Z; i_mode : Z; i_mtime : Z }.
(** [fs.FileMode]: the type is in the upper bits. *)
Definition ModeDir : Z := Z.shiftl 1 31.
Definition ModeSymlink : Z := Z.shiftl 1 27.
Definition ModeType : Z :=
  fold_right Z.lor 0 [ModeDir; ModeSymlink; Z.shiftl 1 25; Z.shiftl 1 24; Z.shiftl 1 26; Z.shiftl 1 21; Z.shiftl 1 19].
Definition i_dir (i : file_info) : bool := negb (Z.land (i_mode i) ModeDir =? 0).
Definition i_symlink (i : file_info) : bool := negb (Z.land (i_mode i) ModeSymlink =? 0).
Definition i_regular (i : file_info) : bool := Z.land (i_mode i) ModeType =? 0.
#[export] Instance file_info_eq_dec : EqDecision file_info.
Proof. solve_decision. Defined.

(** The errors of a call, as the code tells them apart. *)
Inductive remote_err := NotExist | Permission | AlreadyExists | ContextDone (expired : bool) | RemoteFailure.
Inductive call :=
| Lstat (p : string) | OpenStat (p : string)            (* of the path; of the file once open *)
| RealPath (p : string) | HasExtension (name : string) | ReadDir (p : string)
| ReadAll (p : string) (limit : Z)                     (* open and read at most [limit] bytes *)
| ReadFrom (p : string) (offset limit : Z)             (* read at most [limit] bytes of the open file *)
| OpenRead (p : string) | OpenNew (p : string) | OpenWrite (p : string)   (* O_RDONLY; O_CREATE|O_EXCL|O_WRONLY; O_WRONLY *)
| Write (p : string) (offset : Z) (data : string) | Close (p : string) | Chmod (p : string) (mode : Z)
| Link (a b : string) | Rename (a b : string) | PosixRename (a b : string) | Remove (p : string) | RemoveDirectory (p : string)
| Mkdir (p : string) | MkdirAll (p : string)
| ContextErr.                                          (* not a call: the check of the context *)
Inductive reply := Refused (e : remote_err) | Done | Info (i : file_info) | Resolved (p : string) | Bytes (data : string) (more : bool)
                 | Names (l : list (string * file_info)).

Inductive prog (A : Type) := Ret (a : A) | Call (c : call) (k : reply -> prog A).
Arguments Ret {A} a.
Arguments Call {A} c k.
Fixpoint bind {A B} (p : prog A) (f : A -> prog B) : prog B :=
  match p with Ret a => f a | Call c k => Call c (fun r => bind (k r) f) end.

Inductive sftp_err := SftpError (reason : string) | SftpForbidden | Remote (e : remote_err).
Definition op (A : Type) : Type := prog (result sftp_err A).
Definition ok {A} (a : A) : op A := Ret (Ok a).
Definition fail {A} (reason : string) : op A := Ret (Err (SftpError reason)).
Definition remote {A} (e : remote_err) : op A := Ret (Err (Remote e)).
Definition andThen {A B} (p : op A) (f : A -> op B) : op B := bind p (fun r => match r with Ok a => f a | Err e => Ret (Err e) end).

(** Answers of the wrong shape are failures. *)
Definition info_call {A} (c : call) (k : result remote_err file_info -> op A) : op A :=
  Call c (fun r => match r with Info i => k (Ok i) | Refused e => k (Err e) | _ => k (Err RemoteFailure) end).
Definition lstat {A} (p : string) (k : result remote_err file_info -> op A) : op A := info_call (Lstat p) k.
Definition unit_call {A} (c : call) (k : op A) : op A :=
  Call c (fun r => match r with Refused e => remote e | _ => k end).
(** A call whose error is dropped. *)
Definition ignore {A} (c : call) (k : prog A) : prog A := Call c (fun _ => k).
Definition extension {A} (name : string) (k : bool -> op A) : op A :=
  Call (HasExtension name) (fun r => match r with Done => k true | _ => k false end).
Definition read_all {A} (p : string) (limit : Z) (k : string -> bool -> op A) : op A :=
  Call (ReadAll p limit) (fun r => match r with Bytes data more => k data more | Refused e => remote e | _ => remote RemoteFailure end).

(** ** Runs *)

(** The dialogue against the answers [answers n], [answers (n + 1)], ... *)
Fixpoint play {A} (p : prog A) (answers : nat -> reply) (n : nat) : list (call * reply) * A :=
  match p with
  | Ret a => ([], a)
  | Call c k => let '(tr, a) := play (k (answers n)) answers (S n) in ((c, answers n) :: tr, a)
  end.
(** Every call a dialogue makes satisfies [allowed], given the calls and answers before it,
    and the result satisfies [post], whatever the answers. *)
Fixpoint wp {A} (allowed : list (call * reply) -> call -> Prop) (past : list (call * reply)) (p : prog A)
    (post : list (call * reply) -> A -> Prop) : Prop :=
  match p with
  | Ret a => post past a
  | Call c k => allowed past c /\ forall r, wp allowed (past ++ [(c, r)]) (k r) post
  end.

Lemma wp_play {A} allowed (p : prog A) post answers past n tr a : wp allowed past p post -> play p answers n = (tr, a) ->
  post (past ++ tr) a /\ forall before c r after, tr = before ++ (c, r) :: after -> allowed (past ++ before) c.
Proof.
  revert past n tr. induction p as [a0|c0 k IH]; intros past n tr Hs; cbn.
  - intros [= <- <-]. rewrite app_nil_r. split; [done|]. intros before c r after H. by destruct before.
  - destruct Hs as [Hc Hs]. destruct (play (k (answers n)) answers (S n)) as [tr' a'] eqn:E. intros [= <- ->].
    destruct (IH (answers n) (past ++ [(c0, answers n)]) (S n) tr' (Hs _) E) as [Hp Ha]. rewrite <- app_assoc in Hp. split; [done|].
    intros before c r after H. destruct before as [|x before]; [injection H as <- _ _; by rewrite app_nil_r|]. injection H as <- Ht.
    specialize (Ha before c r after Ht). rewrite <- app_assoc in Ha. exact Ha.
Qed.

Lemma wp_mono {A} allowed past (p : prog A) post post' : wp allowed past p post -> (forall past' a, post past' a -> post' past' a) -> wp allowed past p post'.
Proof. intros H Hm. revert past H. induction p as [a|c k IH]; intros past; cbn; [apply Hm|]. intros [Hc H]. split; [done|]. intros r. by apply IH. Qed.

Lemma wp_bind {A B} allowed past (p : prog A) (f : A -> prog B) post :
  wp allowed past p (fun past' a => wp allowed past' (f a) post) -> wp allowed past (bind p f) post.
Proof. revert past. induction p as [a|c k IH]; intros past; cbn; [done|]. intros [Hc H]. split; [done|]. intros r. by apply IH. Qed.

Lemma wp_andThen {A B} allowed past (p : op A) (f : A -> op B) post :
  wp allowed past p (fun past' r => match r with Ok a => wp allowed past' (f a) post | Err e => post past' (Err e) end) ->
  wp allowed past (andThen p f) post.
Proof. intros H. apply wp_bind. eapply wp_mono; [exact H|]. by intros past' [a|e]. Qed.

(** What was seen stays seen. *)
Lemma wp_keep {A} allowed past (p : prog A) post :
  wp allowed past p post -> wp allowed past p (fun past' a => past `prefix_of` past' /\ post past' a).
Proof.
  assert (forall past0, past0 `prefix_of` past -> wp allowed past p post -> wp allowed past p (fun past' a => past0 `prefix_of` past' /\ post past' a)) as H;
    [|by apply H].
  revert past. induction p as [a|c k IH]; intros past past0 Hp; cbn; [done|]. intros [Hc H]. split; [done|]. intros r. apply IH; [by apply prefix_app_r|done].
Qed.

Definition refused (r : reply) : Prop := exists e, r = Refused e.

Lemma wp_info {A} allowed past c (k : result remote_err file_info -> op A) post :
  allowed past c -> (forall i, wp allowed (past ++ [(c, Info i)]) (k (Ok i)) post) ->
  (forall e r, (e = NotExist -> r = Refused NotExist) -> wp allowed (past ++ [(c, r)]) (k (Err e)) post) -> wp allowed past (info_call c k) post.
Proof.
  intros Hc Hi He. split; [done|]. intros [e|  |i|p|d m|l]; [by apply He; intros ->|by apply He|apply Hi|by apply He..].
Qed.
Lemma wp_unit {A} allowed past c (k : op A) post :
  allowed past c -> (forall r, ~ refused r -> wp allowed (past ++ [(c, r)]) k post) ->
  (forall e, post (past ++ [(c, Refused e)]) (Err (Remote e))) -> wp allowed past (unit_call c k) post.
Proof. intros Hc Hk He. split; [done|]. intros [e| |i|p|d m|l]; [apply He|apply Hk; by intros [? ?]..]. Qed.
Lemma wp_ext {A} allowed past name (k : bool -> op A) post :
  allowed past (HasExtension name) -> (forall b r, wp allowed (past ++ [(HasExtension name, r)]) (k b) post) -> wp allowed past (extension name k) post.
Proof. intros Hc Hk. split; [done|]. intros []; apply Hk. Qed.
Lemma wp_read {A} allowed past p limit (k : string -> bool -> op A) post :
  allowed past (ReadAll p limit) -> (forall d m, wp allowed (past ++ [(ReadAll p limit, Bytes d m)]) (k d m) post) ->
  (forall r e, post (past ++ [(ReadAll p limit, r)]) (Err (Remote e))) -> wp allowed past (read_all p limit k) post.
Proof. intros Hc Hk He. split; [done|]. intros [e| |i|q|d m|l]; try apply He. apply Hk. Qed.

(** ** Paths *)

Definition clean_path (p : string) : string := string_of_list_ascii (Clean (list_ascii_of_string p)).
Definition SFTPError {A} (reason : string) : result sftp_err A := Err (SftpError reason).
Definition remotePath (p : string) : result sftp_err string :=
  let p := if bool_decide (p = "") then "." else p in
  if negb (ValidString p) || (4096 <? len p) || contains_byte (byte 0) p then SFTPError "sftp_invalid_path" else Ok (clean_path p).
Definition mutablePath (p : string) : result sftp_err string :=
  if bool_decide (p = "") then SFTPError "sftp_invalid_path"
  else try p := remotePath p in
       if bool_decide (p = ".") || bool_decide (p = "/") || bool_decide (p = "..") then SFTPError "sftp_invalid_path" else Ok p.

(** [path.Dir], [path.Base] and [path.Join] of two elements. *)
Definition path_dir (p : string) : string :=
  clean_path (match before_last "/" p with Some d => d +:+ "/" | None => "" end).
Definition path_base (p : string) : string :=
  if bool_decide (p = "") then "."
  else let p := trim_right "/" p in
       let b := default p (after_last "/" p) in if bool_decide (b = "") then "/" else b.
Definition path_join (a b : string) : string :=
  if bool_decide (a = "") then (if bool_decide (b = "") then "" else clean_path b)
  else clean_path (a +:+ "/" +:+ b).
Definition temporary (dir suffix : string) : string := path_join dir (".talus-upload-" +:+ suffix).

Example paths :
  (path_dir "/a/b", path_dir "b", path_dir "/b", path_base "/a/b", path_join "/a" "b", path_join "." "b", mutablePath "a/../b/", mutablePath "/..") =
  ("/a", ".", "/", "b", "/a/b", "b", Ok "b", SFTPError "sftp_invalid_path").
Proof. vm_compute. reflexivity. Qed.

(** [SFTPError] and [safeSFTPError]: the status and the reason of an answer. *)
Definition sftp_status (reason : string) : Z :=
  if bool_decide (reason = "sftp_invalid_range") then 416
  else if bool_decide (reason = "sftp_not_found") then 404
  else if bool_decide (reason = "sftp_permission_denied") then 403
  else if bool_decide (reason = "sftp_upload_expired") then 410
  else if bool_decide (reason ∈ ["sftp_exists"; "sftp_conflict"; "sftp_not_empty"]) then 409
  else if bool_decide (reason = "sftp_busy") then 429
  else if bool_decide (reason ∈ ["sftp_too_large"; "sftp_directory_too_large"; "sftp_text_too_large"]) then 413
  else if bool_decide (reason ∈ ["sftp_unavailable"; "sftp_failed"]) then 502 else 400.
(** [None]: the error of the context is passed on. *)
Definition safeSFTPError (e : sftp_err) : option (Z * string) :=
  let app reason := Some (sftp_status reason, reason) in
  match e with
  | SftpError reason => app reason
  | SftpForbidden => Some (403, "forbidden")
  | Remote (ContextDone _) => None
  | Remote NotExist => app "sftp_not_found"
  | Remote Permission => app "sftp_permission_denied"
  | Remote AlreadyExists => app "sftp_exists"
  | Remote RemoteFailure => app "sftp_failed"
  end.

(** ** Operations *)

Definition MaxSFTPFileBytes : Z := Z.shiftl 64 20.
Definition perm (mode : Z) : Z := Z.land mode 511.
Definition sameRemoteFile (a b : file_info) : bool := (i_size a =? i_size b) && (i_mode a =? i_mode b) && (i_mtime a =? i_mtime b).

(** [pendingDestination]: what is there already, if it may be replaced. *)
Definition pendingDestination (p : string) (overwrite : bool) : op (option file_info) :=
  lstat p (fun r =>
    match r with
    | Err NotExist => ok None
    | Err e => remote e
    | Ok i =>
        if negb overwrite then fail "sftp_exists"
        else if negb (i_regular i) then fail "sftp_not_regular"
        else extension "posix-rename@openssh.com" (fun has => if has then ok (Some i) else fail "sftp_atomic_unsupported")
    end).

(** The publication of a file that must not be there yet. *)
Definition publish_new (tmp p : string) : op unit :=
  extension "hardlink@openssh.com" (fun has =>
    if has then unit_call (Link tmp p) (ignore (Remove tmp) (ok tt)) else unit_call (Rename tmp p) (ok tt)).
Definition commitRemoteFile (tmp p : string) (previous : option file_info) : op unit :=
  lstat p (fun current =>
    match previous with
    | None => match current with
              | Ok _ => fail "sftp_exists"
              | Err NotExist => publish_new tmp p
              | Err e => remote e
              end
    | Some before =>
        match current with
        | Ok now => if sameRemoteFile before now then unit_call (Chmod tmp (perm (i_mode before))) (unit_call (PosixRename tmp p) (ok tt))
                    else fail "sftp_conflict"
        | Err _ => fail "sftp_conflict"
        end
    end).

(** A body as it is read: its bytes and whether reading ends with an error. *)
Record input := MkInput { in_data : string; in_broken : bool }.
(** [io.CopyBuffer] of at most [limit] bytes to [p], its writes taken as one; the number of
    bytes. *)
Definition copy_in {A} (p : string) (offset limit : Z) (body : input) (k : Z -> op A) : op A :=
  let data := str_take (Z.to_nat limit) (in_data body) in
  unit_call (Write p offset data) (if in_broken body && (len (in_data body) <? limit) then remote RemoteFailure else k (len data)).

(** The deferred clean-up around the body of an upload. *)
Definition cleaned {A} (tmp : string) (body : op A) : op A :=
  bind body (fun r => ignore (Close tmp) (match r with Ok _ => Ret r | Err _ => ignore (Remove tmp) (Ret r) end)).

Definition upload_body (p tmp : string) (body : input) (size : Z) (previous : option file_info) : op unit :=
  unit_call (Chmod tmp 384)
    (copy_in tmp 0 (size + 1) body (fun n =>
       if negb (n =? size) then fail "sftp_size_mismatch"
       else unit_call (Close tmp) (unit_call ContextErr (commitRemoteFile tmp p previous)))).
Definition Upload (suffix p : string) (body : input) (size : Z) (overwrite : bool) : result sftp_err (op unit) :=
  try p := mutablePath p in
  if (size <? 0) || (MaxSFTPFileBytes <? size) then SFTPError "sftp_too_large"
  else Ok (andThen (pendingDestination p overwrite) (fun previous =>
             let tmp := temporary (path_dir p) suffix in
             unit_call (OpenNew tmp) (cleaned tmp (upload_body p tmp body size previous)))).

Definition MakeDir (p : string) (parents : bool) : result sftp_err (op unit) :=
  try p := mutablePath p in Ok (unit_call (if parents then MkdirAll p else Mkdir p) (ok tt)).
Definition RenameFile (from to : string) : result sftp_err (op unit) :=
  try from := mutablePath from in
  try to := mutablePath to in
  Ok (lstat to (fun r => match r with
                         | Ok _ => fail "sftp_exists"
                         | Err NotExist => unit_call (Rename from to) (ok tt)
                         | Err e => remote e
                         end)).
Definition RemoveFile (p : string) : result sftp_err (op unit) :=
  try p := mutablePath p in
  Ok (lstat p (fun r => match r with
                        | Ok i => unit_call (if i_dir i then RemoveDirectory p else Remove p) (ok tt)
                        | Err e => remote e
                        end)).

(** *** Downloads *)

(** [begin] answers whether the client takes the file; the bytes sent are the result.
    [opened]: what the open file says of itself. *)
Definition Download (p : string) (begin : bool) : result sftp_err (op string) :=
  try p := remotePath p in
  Ok (lstat p (fun r =>
        match r with
        | Err e => remote e
        | Ok i =>
            if negb (i_regular i) then fail "sftp_not_regular"
            else if MaxSFTPFileBytes <? i_size i then fail "sftp_too_large"
            else info_call (OpenStat p) (fun opened =>
                   match opened with
                   | Err e => remote e
                   | Ok o =>
                       if negb (i_regular o) || negb (i_size o =? i_size i) || negb (i_mtime o =? i_mtime i) then fail "sftp_conflict"
                       else if negb begin then remote RemoteFailure
                       else read_all p (i_size o) (fun data _ =>
                              if negb (len data =? i_size o) then fail "sftp_conflict" else unit_call ContextErr (ok data))
                   end)
        end)).

(** *** Directories *)

Definition sftpEntryLimit : Z := 2000.
Definition response_limit : Z := Z.shiftl 2 20.
Record SFTPEntry := MkEntry { e_name : string; e_path : string; e_kind : string; e_size : Z; e_mode : Z; e_modified : Z }.
Definition sftpEntry (name p : string) (i : file_info) : SFTPEntry :=
  MkEntry name p (if i_symlink i then "symlink" else if i_dir i then "directory" else if i_regular i then "file" else "other")
    (i_size i) (i_mode i) (i_mtime i).
(** Directories first, then by name, byte by byte. *)
Definition str_lt (a b : string) : bool := match String.compare a b with Lt => true | _ => false end.
Definition entry_le (a b : string * file_info) : Prop :=
  Is_true (if Bool.eqb (i_dir a.2) (i_dir b.2) then negb (str_lt b.1 a.1) else i_dir a.2).
#[export] Instance entry_le_dec a b : Decision (entry_le a b).
Proof. unfold entry_le. apply _. Defined.
(** The loop over the sorted entries: those kept, newest first, and whether some were left out. *)
Fixpoint take_entries (resolved : string) (l : list (string * file_info)) (kept : list SFTPEntry) (bytes : Z) : result sftp_err (list SFTPEntry * bool) :=
  match l with
  | [] => Ok (kept, false)
  | (name, i) :: l =>
      if bool_decide (name = ".") || bool_decide (name = "..") then take_entries resolved l kept bytes
      else if negb (ValidString name) || contains_byte "/" name || contains_byte (byte 0) name then SFTPError "sftp_invalid_path"
      else
        let bytes := bytes + len name + len resolved + 256 in
        if (sftpEntryLimit <=? Z.of_nat (Datatypes.length kept)) || (response_limit <? bytes) then Ok (kept, true)
        else take_entries resolved l (sftpEntry name (path_join resolved name) i :: kept) bytes
  end.
Record SFTPDirectory := MkDirectory { d_path : string; d_parent : string; d_entries : list SFTPEntry; d_truncated : bool }.
Definition ListDir (p : string) : result sftp_err (op SFTPDirectory) :=
  try p := remotePath p in
  Ok (Call (RealPath p) (fun r =>
        match r with
        | Resolved resolved =>
            Call (ReadDir resolved) (fun r =>
              match r with
              | Names l => Ret (try kept := take_entries resolved (merge_sort entry_le l) [] 0 in
                                Ok (MkDirectory resolved (path_dir resolved) (rev kept.1) kept.2))
              | Refused e => remote e
              | _ => remote RemoteFailure
              end)
        | Refused e => remote e
        | _ => remote RemoteFailure
        end)).
Definition Stat (p : string) : result sftp_err (op SFTPEntry) :=
  try p := remotePath p in
  Ok (lstat p (fun r => match r with Ok i => ok (sftpEntry (path_base p) p i) | Err e => remote e end)).

(** *** Texts *)

Section texts.
(** The hexadecimal SHA-256 of the bytes. *)
Context (sha256 : string -> string).

Definition MaxSFTPTextBytes : Z := Z.shiftl 1 20.
Record SFTPText := MkText { t_path : string; t_content : string; t_version : string }.
Definition textVersion (data : string) : string := "sha256:" +:+ sha256 data.
Definition is_text (data : string) : bool := ValidString data && negb (contains_byte (byte 0) data).
Definition remoteText (p : string) : op SFTPText :=
  lstat p (fun r =>
    match r with
    | Err e => remote e
    | Ok i =>
        if negb (i_regular i) then fail "sftp_not_regular"
        else if MaxSFTPTextBytes <? i_size i then fail "sftp_text_too_large"
        else read_all p (MaxSFTPTextBytes + 1) (fun data _ =>
               if MaxSFTPTextBytes <? len data then fail "sftp_text_too_large"
               else if negb (is_text data) then fail "sftp_not_text" else ok (MkText p data (textVersion data)))
    end).
Definition ReadText (p : string) : result sftp_err (op SFTPText) := try p := remotePath p in Ok (remoteText p).

Definition save_body (p tmp content version : string) (previous : file_info) : op SFTPText :=
  unit_call (Chmod tmp 384)
    (unit_call (Write tmp 0 content) (unit_call (Close tmp) (unit_call ContextErr
       (andThen (remoteText p) (fun current =>
          if negb (bool_decide (t_version current = version)) then fail "sftp_conflict"
          else andThen (commitRemoteFile tmp p (Some previous)) (fun _ => ok (MkText p content (textVersion content)))))))).
Definition SaveText (suffix p content version : string) : result sftp_err (op SFTPText) :=
  try p := mutablePath p in
  if MaxSFTPTextBytes <? len content then SFTPError "sftp_text_too_large"
  else if negb (is_text content) then SFTPError "sftp_not_text"
  else if negb (len version =? 71) || negb (HasPrefix "sha256:" version) then SFTPError "sftp_conflict"
  else Ok (andThen (pendingDestination p true) (fun previous =>
             match previous with
             | None => fail "sftp_conflict"
             | Some before =>
                 andThen (remoteText p) (fun current =>
                   if negb (bool_decide (t_version current = version)) then fail "sftp_conflict"
                   else let tmp := temporary (path_dir p) suffix in unit_call (OpenNew tmp) (cleaned tmp (save_body p tmp content version before)))
             end)).
End texts.

(** ** One transfer at a time *)

(** [withClient]: a server that is busy is refused; the reservation is kept until the lease
    has settled, at the latest when [releaseReservation] is called. *)
Definition withClient (busy : gset Z) (id : Z) : result sftp_err (gset Z) :=
  if bool_decide (id ∈ busy) then SFTPError "sftp_busy" else Ok ({[id]} ∪ busy).
Definition releaseReservation (busy : gset Z) (id : Z) : gset Z := busy ∖ {[id]}.

(** [sftpBoundedReader]: [remaining] is negative without a limit; one read of at most [want]
    bytes of which [got] arrive. *)
Definition bounded_read (remaining want got : Z) : Z * Z :=
  if remaining =? 0 then (0, 0)
  else let want := if (0 <? remaining) && (remaining <? want) then remaining else want in
       let n := Z.min want got in (n, if 0 <? remaining then remaining - n else remaining).
Fixpoint bounded_reads (remaining : Z) (l : list (Z * Z)) : Z :=
  match l with
  | [] => 0
  | (want, got) :: l => let '(n, remaining) := bounded_read remaining want got in n + bounded_reads remaining l
  end.

(** ** What uploads may do *)

(** The policy of an upload to [p] through the file [tmp]: nothing but [tmp] is written,
    changed or removed; [p] is published from [tmp] when it is [ready], under a new name if
    [p] was seen missing and over an old file if [replaceable]. *)
Definition file_policy (tmp p : string) (ready replaceable : list (call * reply) -> Prop) (writes : Z -> string -> Prop)
    (past : list (call * reply)) (c : call) : Prop :=
  match c with
  | Lstat _ | OpenStat _ | OpenRead _ | RealPath _ | HasExtension _ | ReadDir _ | ReadAll _ _ | ReadFrom _ _ _ | ContextErr => True
  | OpenNew q | OpenWrite q | Chmod q _ | Close q | Remove q => q = tmp
  | Write q offset data => q = tmp /\ writes offset data
  | Link a b | Rename a b => a = tmp /\ b = p /\ ready past /\ (Lstat p, Refused NotExist) ∈ past
  | PosixRename a b => a = tmp /\ b = p /\ ready past /\ replaceable past
  | RemoveDirectory _ | Mkdir _ | MkdirAll _ => False
  end.
Definition publication (tmp p : string) (c : call) : Prop := c = Link tmp p \/ c = Rename tmp p \/ c = PosixRename tmp p.
Definition published (tmp p : string) (past : list (call * reply)) : Prop := exists c r, publication tmp p c /\ (c, r) ∈ past /\ ~ refused r.
(** If the temporary file was made, it was also asked to be removed. *)
Definition removed (tmp : string) (past : list (call * reply)) : Prop :=
  forall r, (OpenNew tmp, r) ∈ past -> ~ refused r -> exists r', (Remove tmp, r') ∈ past.

Definition lasting (P : list (call * reply) -> Prop) : Prop := forall past l, P past -> P (past ++ l).

Ltac in_past := repeat first [apply elem_of_app; right; by left | by apply list_elem_of_singleton | apply elem_of_app; left]; try done.

Section policy.
Context (tmp p : string) (ready replaceable : list (call * reply) -> Prop) (writes : Z -> string -> Prop).
Context (ready_lasts : lasting ready) (replaceable_lasts : lasting replaceable).

Lemma wp_publish_new past : ready past -> (Lstat p, Refused NotExist) ∈ past ->
  wp (file_policy tmp p ready replaceable writes) past (publish_new tmp p) (fun past' r => r = Ok tt -> published tmp p past').
Proof.
  intros Hr Hn. unfold publish_new. apply wp_ext; [done|]. intros b r0.
  assert (ready (past ++ [(HasExtension "hardlink@openssh.com", r0)])) as Hr' by by apply ready_lasts.
  destruct b; apply wp_unit; try done; try (cbn; split_and!; [done..|apply elem_of_app; by left]).
  - intros r Hok. split; [done|]. intros r1 _. exists (Link tmp p), r. split; [by left|]. split; [in_past|done].
  - intros r Hok _. exists (Rename tmp p), r. split; [by right; left|]. split; [in_past|done].
Qed.

Lemma wp_commit past previous : ready past ->
  (forall before now, previous = Some before -> sameRemoteFile before now = true -> replaceable (past ++ [(Lstat p, Info now)])) ->
  wp (file_policy tmp p ready replaceable writes) past (commitRemoteFile tmp p previous) (fun past' r => r = Ok tt -> published tmp p past').
Proof.
  intros Hr Hrep. unfold commitRemoteFile. apply wp_info; [done| |].
  - intros now. destruct previous as [before|]; [|done]. destruct (sameRemoteFile before now) eqn:Es; [|done].
    specialize (Hrep before now eq_refl Es). apply wp_unit; [done| |done]. intros r1 _. apply wp_unit; [|intros r Hok _|done].
    + cbn. split_and!; [done|done|rewrite <- app_assoc; by apply ready_lasts|by apply replaceable_lasts].
    + exists (PosixRename tmp p), r. split; [by right; right|]. split; [in_past|done].
  - intros e r He. destruct previous; [done|]. destruct e; try done. apply wp_publish_new; [by apply ready_lasts|]. rewrite (He eq_refl). in_past.
Qed.

Lemma wp_cleaned {A} past (body : op A) post :
  wp (file_policy tmp p ready replaceable writes) past body (fun past' r => match r with Ok a => forall l, post (past' ++ l) (Ok a) | Err e => True end) ->
  (forall past' e, (exists r, (Remove tmp, r) ∈ past') -> post past' (Err e)) ->
  wp (file_policy tmp p ready replaceable writes) past (cleaned tmp body) post.
Proof.
  intros H He. apply wp_bind. eapply wp_mono; [exact H|]. intros past' [a|e] Hp; (split; [done|]); intros r; [apply Hp|].
  split; [done|]. intros r'. apply He. exists r'. in_past.
Qed.
End policy.

(** The calls of [pendingDestination]. *)
Definition looked (p : string) (past past' : list (call * reply)) : Prop :=
  forall x, x ∈ past' -> x ∈ past \/ x.1 = Lstat p \/ x.1 = HasExtension "posix-rename@openssh.com".
Lemma wp_pending allowed past p overwrite post :
  (forall q, allowed q (Lstat p) /\ allowed q (HasExtension "posix-rename@openssh.com")) ->
  (forall past' r, looked p past past' ->
     (forall i, r = Ok (Some i) -> overwrite = true /\ i_regular i = true /\ (Lstat p, Info i) ∈ past') -> post past' r) ->
  wp allowed past (pendingDestination p overwrite) post.
Proof.
  intros Ha Hpost. unfold pendingDestination, lstat.
  assert (forall r, looked p past (past ++ [(Lstat p, r)])) as H1.
  { intros r x [Hx|Hx]%elem_of_app; [by left|]. apply list_elem_of_singleton in Hx as ->. by right; left. }
  apply wp_info; [apply Ha| |].
  - intros i. destruct overwrite; cbn [negb]; [|apply Hpost; [apply H1|done]]. destruct (i_regular i) eqn:Er; cbn [negb]; [|apply Hpost; [apply H1|done]].
    apply wp_ext; [apply Ha|]. intros b r.
    assert (looked p past ((past ++ [(Lstat p, Info i)]) ++ [(HasExtension "posix-rename@openssh.com", r)])) as H2.
    { intros x [Hx|Hx]%elem_of_app; [by eapply H1|]. apply list_elem_of_singleton in Hx as ->. by right; right. }
    destruct b; apply Hpost; try done. intros i' [= <-]. split_and!; [done|done|in_past].
  - intros e r _. destruct e; apply Hpost; try apply H1; done.
Qed.

(** *** [Upload] *)

Lemma str_take_short n s : (String.length (str_take n s) < n)%nat -> str_take n s = s.
Proof. rewrite str_take_length. intros H. apply str_take_all. lia. Qed.

(** The temporary file holds the whole body, which has the announced size. *)
Definition uploaded (tmp : string) (body : input) (size : Z) (past : list (call * reply)) : Prop :=
  len (in_data body) = size /\ exists r, (Write tmp 0 (in_data body), r) ∈ past /\ ~ refused r.
(** The old file was seen twice, alike, and may be replaced. *)
Definition seen_twice (p : string) (overwrite : bool) (past : list (call * reply)) : Prop :=
  overwrite = true /\ exists before now, i_regular before = true /\ (Lstat p, Info before) ∈ past /\ (Lstat p, Info now) ∈ past /\
    sameRemoteFile before now = true.
Definition upload_policy (tmp p : string) (body : input) (size : Z) (overwrite : bool) : list (call * reply) -> call -> Prop :=
  file_policy tmp p (uploaded tmp body size) (seen_twice p overwrite)
    (fun offset data => offset = 0 /\ data = str_take (Z.to_nat (size + 1)) (in_data body)).

Lemma uploaded_lasts tmp body size : lasting (uploaded tmp body size).
Proof. intros past l (H & r & Hr & Hn). split; [done|]. exists r. split; [apply elem_of_app; by left|done]. Qed.
Lemma seen_twice_lasts p overwrite : lasting (seen_twice p overwrite).
Proof. intros past l (H & b & n & Hb & H1 & H2 & Hs). split; [done|]. exists b, n. split_and!; try done; apply elem_of_app; by left. Qed.

Lemma wp_upload_body tmp p body size overwrite previous past : 0 <= size ->
  (match previous with
   | Some before => overwrite = true /\ i_regular before = true /\ (Lstat p, Info before) ∈ past
   | None => True
   end) ->
  wp (upload_policy tmp p body size overwrite) past (upload_body p tmp body size previous) (fun past' r => r = Ok tt -> published tmp p past').
Proof.
  intros Hsize Hprev. unfold upload_body. apply wp_unit; [done| |done]. intros r1 _. unfold copy_in. apply wp_unit; [done| |done]. intros r2 Hok.
  destruct (in_broken body && _); [done|]. destruct (len _ =? size) eqn:En; cbn [negb]; [|done]. apply Z.eqb_eq in En.
  assert (str_take (Z.to_nat (size + 1)) (in_data body) = in_data body) as Et by (apply str_take_short; unfold len in En; lia).
  rewrite Et in *. apply wp_unit; [done| |done]. intros r3 _. apply wp_unit; [done| |done]. intros r4 _.
  apply wp_commit; [apply uploaded_lasts|apply seen_twice_lasts| |].
  - split; [done|]. exists r2. split; [in_past|done].
  - intros before now -> Hs. destruct Hprev as (Ho & Hreg & Hseen). split; [done|]. exists before, now. split_and!; [done| |in_past|done].
    repeat (apply elem_of_app; left). exact Hseen.
Qed.

(** C29: An upload publishes the whole file or nothing.
    Whatever the server answers and whoever else writes there, an upload writes, changes and
    removes nothing but its own new temporary file; it publishes that file under the name
    asked for only when all announced bytes were written to it -- as a new name only after
    the name was seen free, over an old file only when overwriting was asked for and the
    file was seen twice with the same size, mode and time; it succeeds only if a publication
    did, and a failed upload that made its temporary file has asked for its removal. *)
Theorem upload_whole_or_nothing suffix path body size overwrite prog :
  Upload suffix path body size overwrite = Ok prog ->
  exists p tmp, mutablePath path = Ok p /\ tmp = temporary (path_dir p) suffix /\ 0 <= size <= MaxSFTPFileBytes /\
    forall answers tr r, play prog answers 0 = (tr, r) ->
      (forall before c reply after, tr = before ++ (c, reply) :: after -> upload_policy tmp p body size overwrite before c) /\
      (r = Ok tt -> published tmp p tr) /\ (r <> Ok tt -> removed tmp tr).
Proof.
  unfold Upload. destruct (mutablePath path) as [p|] eqn:Ep; cbn; [|done]. destruct (_ || _) eqn:Es; [done|]. intros [= <-].
  apply orb_false_iff in Es as [?%Z.ltb_ge ?%Z.ltb_ge]. set (tmp := temporary (path_dir p) suffix). exists p, tmp. split_and!; [done..|].
  intros answers tr r Hplay.
  assert (wp (upload_policy tmp p body size overwrite) []
    (andThen (pendingDestination p overwrite) (fun previous => unit_call (OpenNew tmp) (cleaned tmp (upload_body p tmp body size previous))))
    (fun past r => (r = Ok tt -> published tmp p past) /\ (r <> Ok tt -> removed tmp past))) as Hwp.
  { apply wp_andThen. assert (forall previous past, 
      (match previous with Some before => overwrite = true /\ i_regular before = true /\ (Lstat p, Info before) ∈ past | None => True end) ->
      (forall r, (OpenNew tmp, r) ∉ past) ->
      wp (upload_policy tmp p body size overwrite) past (unit_call (OpenNew tmp) (cleaned tmp (upload_body p tmp body size previous)))
        (fun past r => (r = Ok tt -> published tmp p past) /\ (r <> Ok tt -> removed tmp past))) as Hrest.
    { intros previous past Hprev Hnew. apply wp_unit; [done| |].
      - intros r0 _. apply wp_cleaned.
        + eapply wp_mono; [apply wp_upload_body; [done|]|].
          * destruct previous; [|done]. destruct Hprev as (? & ? & ?). split_and!; [done|done|]. apply elem_of_app. by left.
          * intros past' [[]|e] Hpub; [|done]. intros l. split; [|done]. intros _. destruct (Hpub eq_refl) as (c & rr & Hc & Hin & Hr).
            exists c, rr. split_and!; [done|apply elem_of_app; by left|done].
        + intros past' e (r' & Hr'). split; [done|]. intros _ r1 _ _. by exists r'.
      - intros e. split; [done|]. intros _ r1 [Hin|Hin]%elem_of_app Hok; [by apply Hnew in Hin|]. apply list_elem_of_singleton in Hin as [= ->].
        destruct Hok. by exists e. }
    apply wp_pending; [done|]. intros past' [previous|e] Hx Hi.
    - apply Hrest; [destruct previous; [by apply Hi|done]|]. intros r0 Hin. destruct (Hx _ Hin) as [Hn|[[=]|[=]]]. by apply elem_of_nil in Hn.
    - split; [done|]. intros _ r1 Hin _. destruct (Hx _ Hin) as [Hn|[[=]|[=]]]. by apply elem_of_nil in Hn. }
  destruct (wp_play _ _ _ answers [] 0 tr r Hwp Hplay) as [Hpost Hall]. cbn in Hpost. split; [exact Hall|exact Hpost].
Qed.

(** *** [SaveText] *)

Section saving.
Context (sha256 : string -> string).

(** The new content is in the temporary file, and the old one was read again after that, in
    the version the editor started from. *)
Definition saved (tmp content : string) (past : list (call * reply)) : Prop :=
  exists r, (Write tmp 0 content, r) ∈ past /\ ~ refused r.
Definition still_version (tmp p content version : string) (past : list (call * reply)) : Prop :=
  exists before r after data more, past = before ++ (Write tmp 0 content, r) :: after /\
    (ReadAll p (MaxSFTPTextBytes + 1), Bytes data more) ∈ after /\ textVersion sha256 data = version.
Definition save_policy (tmp p content version : string) : list (call * reply) -> call -> Prop :=
  file_policy tmp p (saved tmp content) (fun past => seen_twice p true past /\ still_version tmp p content version past)
    (fun offset data => offset = 0 /\ data = content).

Lemma wp_remoteText allowed past p (post : list (call * reply) -> result sftp_err SFTPText -> Prop) :
  (forall q, allowed q (Lstat p) /\ allowed q (ReadAll p (MaxSFTPTextBytes + 1))) ->
  (forall past' e, past `prefix_of` past' -> (forall x, x ∈ past' -> x ∈ past \/ x.1 = Lstat p \/ x.1 = ReadAll p (MaxSFTPTextBytes + 1)) -> post past' (Err e)) ->
  (forall l data more, (ReadAll p (MaxSFTPTextBytes + 1), Bytes data more) ∈ l ->
     (forall x, x ∈ l -> x.1 = Lstat p \/ x.1 = ReadAll p (MaxSFTPTextBytes + 1)) ->
     post (past ++ l) (Ok (MkText p data (textVersion sha256 data)))) ->
  wp allowed past (remoteText sha256 p) post.
Proof.
  intros Ha He Ho. unfold remoteText, lstat.
  assert (forall l, (forall x, x ∈ l -> x.1 = Lstat p \/ x.1 = ReadAll p (MaxSFTPTextBytes + 1)) -> forall e, post (past ++ l) (Err e)) as He'.
  { intros l Hl e. apply He; [by eexists|]. intros x [Hx|Hx]%elem_of_app; [by left|right; by apply Hl]. }
  assert (forall r1 r2 (x : call * reply), x ∈ [(Lstat p, r1); (ReadAll p (MaxSFTPTextBytes + 1), r2)] -> x.1 = Lstat p \/ x.1 = ReadAll p (MaxSFTPTextBytes + 1)) as H2.
  { intros r1 r2 x [->|[->|Hx]%elem_of_cons]%elem_of_cons; [by left|by right|by apply elem_of_nil in Hx]. }
  assert (forall r1 (x : call * reply), x ∈ [(Lstat p, r1)] -> x.1 = Lstat p \/ x.1 = ReadAll p (MaxSFTPTextBytes + 1)) as H1.
  { intros r1 x Hx. apply list_elem_of_singleton in Hx as ->. by left. }
  apply wp_info; [apply Ha| |intros e r _; by apply He', H1].
  intros i. destruct (i_regular i); cbn [negb]; [|by apply He', (H1 (Info i))]. destruct (MaxSFTPTextBytes <? i_size i); [by apply He', (H1 (Info i))|].
  apply wp_read; [apply Ha| |].
  - intros d m. rewrite <- app_assoc. cbn [app]. destruct (MaxSFTPTextBytes <? len d); [by apply He', H2|]. destruct (is_text d); cbn [negb]; [|by apply He', H2].
    apply (Ho _ d m); [by right; left|apply H2].
  - intros r e. rewrite <- app_assoc. by apply He', H2.
Qed.

Lemma saved_lasts tmp content : lasting (saved tmp content).
Proof. intros past l (r & Hr & Hn). exists r. split; [apply elem_of_app; by left|done]. Qed.
Lemma still_version_lasts tmp p content version : lasting (still_version tmp p content version).
Proof.
  intros past l (b & r & a & d & m & -> & Hr & Hv). exists b, r, (a ++ l), d, m. rewrite <- app_assoc. split_and!; [done|apply elem_of_app; by left|done].
Qed.

Lemma wp_save_body tmp p content version before past :
  i_regular before = true -> (Lstat p, Info before) ∈ past ->
  wp (save_policy tmp p content version) past (save_body sha256 p tmp content version before) (fun past' r => is_ok r = true -> published tmp p past').
Proof.
  intros Hreg Hseen. unfold save_body. apply wp_unit; [done| |done]. intros r1 _. apply wp_unit; [done| |done]. intros r2 Hok.
  apply wp_unit; [done| |done]. intros r3 _. apply wp_unit; [done| |done]. intros r4 _. apply wp_andThen.
  apply wp_remoteText; [done|done|]. intros l data more Hin _. case_bool_decide as Ev; cbn [negb]; [|done]. cbn [t_version] in Ev.
  apply wp_andThen. eapply wp_mono.
  - apply wp_commit; [apply saved_lasts| | |].
    + intros past' l' [H1 H2]. split; [by apply seen_twice_lasts|by apply still_version_lasts].
    + apply saved_lasts. exists r2. split; [in_past|done].
    + intros b now [= <-] Hs. split.
      * split; [done|]. exists before, now. split_and!; [done| |in_past|done]. repeat (apply elem_of_app; left). exact Hseen.
      * apply still_version_lasts. exists (past ++ [(Chmod tmp 384, r1)]), r2, ([(Close tmp, r3)] ++ [(ContextErr, r4)] ++ l), data, more.
        split_and!; [by rewrite <- !app_assoc|apply elem_of_app; right; apply elem_of_app; by right|done].
  - intros past' [[]|e] Hp; [intros _; by apply Hp|done].
Qed.

(** Saving a text replaces exactly the version the editor started from: the file is published
    only over a file that was read again, in the version given, after the new content was
    completely written next to it; the same file is never written in place, and a failed
    save that made its temporary file has asked for its removal. *)
Theorem save_replaces_version suffix path content version prog :
  SaveText sha256 suffix path content version = Ok prog ->
  exists p tmp, mutablePath path = Ok p /\ tmp = temporary (path_dir p) suffix /\ len content <= MaxSFTPTextBytes /\
    forall answers tr r, play prog answers 0 = (tr, r) ->
      (forall before c reply after, tr = before ++ (c, reply) :: after -> save_policy tmp p content version before c) /\
      (is_ok r = true -> published tmp p tr) /\ (is_ok r = false -> removed tmp tr).
Proof.
  unfold SaveText. destruct (mutablePath path) as [p|] eqn:Ep; [|done]. cbv beta iota. destruct (_ <? _) eqn:Es; [done|]. apply Z.ltb_ge in Es.
  destruct (is_text content); cbn [negb]; [|done]. destruct (_ || _); [done|]. intros [= <-].
  set (tmp := temporary (path_dir p) suffix). exists p, tmp. split_and!; [done..|]. intros answers tr r Hplay.
  change (temporary (path_dir p) suffix) with tmp in Hplay.
  set (post := fun past (r : result sftp_err SFTPText) => (is_ok r = true -> published tmp p past) /\ (is_ok r = false -> removed tmp past)).
  assert (forall past e, (forall r, (OpenNew tmp, r) ∉ past) -> post past (Err e)) as Hfail.
  { intros past e Hn. split; [done|]. intros _ r0 Hin. by apply Hn in Hin. }
  match type of Hplay with play ?pr _ _ = _ => assert (wp (save_policy tmp p content version) [] pr post) as Hwp end.
  { apply wp_andThen. apply wp_pending; [done|]. intros past [[before|]|e] Hx Hi.
    2,3: apply Hfail; intros r0 Hin; destruct (Hx _ Hin) as [Hn|[[=]|[=]]]; by apply elem_of_nil in Hn.
    destruct (Hi before eq_refl) as (_ & Hreg & Hseen).
    assert (forall r, (OpenNew tmp, r) ∉ past) as Hnew by (intros r0 Hin; destruct (Hx _ Hin) as [Hn|[[=]|[=]]]; by apply elem_of_nil in Hn).
    apply wp_andThen. apply wp_remoteText; [done| |].
    - intros past' e _ Hy. apply Hfail. intros r0 Hin. destruct (Hy _ Hin) as [Hn|[[=]|[=]]]. by apply Hnew in Hn.
    - intros l data more _ Hl.
      assert (forall r, (OpenNew tmp, r) ∉ past ++ l) as Hnew' by (intros r0 [Hin|Hin]%elem_of_app; [by apply Hnew in Hin|by destruct (Hl _ Hin)]).
      case_bool_decide; cbn [negb]; [|by apply Hfail]. apply wp_unit; [done| |].
      + intros r0 _. apply wp_cleaned.
        * eapply wp_mono; [apply wp_save_body; [done|apply elem_of_app; left; apply elem_of_app; by left]|].
          intros past' [a|e] Hpub; [|done]. intros l'. split; [|done]. intros _. destruct (Hpub eq_refl) as (c & rr & Hc & Hin & Hr).
          exists c, rr. split_and!; [done|apply elem_of_app; by left|done].
        * intros past' e (r' & Hr'). split; [done|]. intros _ r1 _ _. by exists r'.
      + intros e. split; [done|]. intros _ r1 [Hin|Hin]%elem_of_app Hok; [by apply Hnew' in Hin|]. apply list_elem_of_singleton in Hin as [= ->].
        destruct Hok. by exists e. }
  destruct (wp_play _ _ _ answers [] 0 tr r Hwp Hplay) as [Hpost Hall]. split; [exact Hall|exact Hpost].
Qed.
End saving.

(** ** Bounds *)

(** A metadata operation reads no more than its limit from the server. *)
Lemma bounded_reads_limit remaining l : 0 <= remaining -> Forall (fun wg => 0 <= wg.1 /\ 0 <= wg.2) l -> 0 <= bounded_reads remaining l <= remaining.
Proof.
  intros Hr Hl. revert remaining Hr. induction Hl as [|[want got] l [Hw Hg] _ IH]; intros remaining Hr; cbn [bounded_reads]; [lia|]. cbn in Hw, Hg.
  unfold bounded_read. destruct (remaining =? 0) eqn:E0.
  - apply Z.eqb_eq in E0 as ->. specialize (IH 0 ltac:(lia)). lia.
  - apply Z.eqb_neq in E0. assert ((0 <? remaining) = true) as E1 by (apply Z.ltb_lt; lia). rewrite E1. cbn [andb].
    destruct (remaining <? want) eqn:E2; [apply Z.ltb_lt in E2|apply Z.ltb_ge in E2]; cbv zeta.
    + specialize (IH (remaining - Z.min remaining got) ltac:(lia)). lia.
    + specialize (IH (remaining - Z.min want got) ltac:(lia)). lia.
Qed.

Lemma take_entries_bound resolved l kept bytes r : (Datatypes.length kept <= 2000)%nat -> take_entries resolved l kept bytes = Ok r ->
  (Datatypes.length r.1 <= 2000)%nat.
Proof.
  revert kept bytes. induction l as [|[name i] l IH]; intros kept bytes Hk; cbn [take_entries]; [by intros [= <-]|].
  destruct (_ || _); [by apply IH|]. destruct (_ || _); [done|]. destruct (_ || _) eqn:E; [by intros [= <-]|].
  apply orb_false_iff in E as [E%Z.leb_gt _]. apply IH. cbn. unfold sftpEntryLimit in E. lia.
Qed.

(** A listing has at most two thousand entries, whatever the server sends. *)
Lemma listing_bounded path prog answers tr d : ListDir path = Ok prog -> play prog answers 0 = (tr, Ok d) ->
  (Datatypes.length (d_entries d) <= 2000)%nat.
Proof.
  unfold ListDir. destruct (remotePath path) as [p|]; [|done]. intros [= <-]. cbn [play].
  destruct (answers 0%nat) as [e| |i|q|data m|l]; try done. cbn [play]. destruct (answers 1%nat) as [e| |i|q'|data m|l]; try done.
  destruct (take_entries q (merge_sort entry_le l) [] 0) as [r|e] eqn:E; [|done]. cbn. intros [= _ <-]. cbn. rewrite length_rev.
  eapply take_entries_bound; [|exact E]. cbn. lia.
Qed.

(** One transfer at a time per server. *)
Lemma one_transfer busy id busy' : withClient busy id = Ok busy' -> ~ (id ∈ busy) /\ (forall b, withClient busy' id <> Ok b) /\
  (forall id', id' <> id -> (id' ∈ busy' <-> id' ∈ busy)) /\ releaseReservation busy' id = busy.
Proof.
  unfold withClient, releaseReservation. case_bool_decide as Hin; [done|]. intros [= <-]. split_and!; [done| |set_solver|set_solver].
  intros b. by rewrite bool_decide_eq_true_2 by set_solver.
Qed.

(** ** A concrete upload *)

(** The answers of a server that has no such file and accepts everything. *)
Definition demo_answers (n : nat) : reply := match n with 0%nat | 6%nat => Refused NotExist | _ => Done end.
Definition demo_tmp : string := "/srv/.talus-upload-0a".
Definition demo_upload : result sftp_err (op unit) := Upload "0a" "/srv//f.txt" (MkInput "hello" false) 5 false.
Definition demo_prog : op unit := match demo_upload with Ok p => p | Err _ => ok tt end.
Lemma demo_upload_ok : demo_upload = Ok demo_prog.
Proof. unfold demo_prog. assert (is_ok demo_upload = true) as H by (vm_compute; reflexivity). by destruct demo_upload. Qed.

Lemma upload_whole_or_nothing_witness :
  play demo_prog demo_answers 0 =
    ([(Lstat "/srv/f.txt", Refused NotExist); (OpenNew demo_tmp, Done); (Chmod demo_tmp 384, Done); (Write demo_tmp 0 "hello", Done);
      (Close demo_tmp, Done); (ContextErr, Done); (Lstat "/srv/f.txt", Refused NotExist); (HasExtension "hardlink@openssh.com", Done);
      (Link demo_tmp "/srv/f.txt", Done); (Remove demo_tmp, Done); (Close demo_tmp, Done)], Ok tt) /\
  exists p tmp, mutablePath "/srv//f.txt" = Ok p /\ tmp = temporary (path_dir p) "0a" /\ 0 <= 5 <= MaxSFTPFileBytes /\
    forall answers tr r, play demo_prog answers 0 = (tr, r) ->
      (forall before c reply after, tr = before ++ (c, reply) :: after -> upload_policy tmp p (MkInput "hello" false) 5 false before c) /\
      (r = Ok tt -> published tmp p tr) /\ (r <> Ok tt -> removed tmp tr).
Proof.
  split; [vm_compute; reflexivity|]. apply (upload_whole_or_nothing "0a" "/srv//f.txt" (MkInput "hello" false) 5 false). apply demo_upload_ok.
Defined.
