(* ===== verification/SftpUpload.v ===== *)
(** * Resumable uploads

    [service/sftp_resume.go]: an upload in several requests, which leaves nothing in the Hub:
    all that is known of it is in the sealed ticket the client keeps.  [sealUpload] and
    [readUpload] are the ticket, the rest are dialogues with the server ([Sftp.prog]).  The
    cipher and HKDF are those of Secrets; SHA-256, HMAC and the JSON decoder are parameters,
    the last with the law [TicketJSON]. *)

From S2P Require Import Prelude GoStrings Text Base64 RelayText Servers Secrets Json RateLimit Sftp.

(** ** Tickets *)

Definition MaxSFTPChunkBytes : Z := Z.shiftl 1 20.
Definition sftpUploadLifetime : Z := 24 * 3600.                 (* seconds *)
Definition sftpUploadTicketVersion : Z := 2.
Definition sftpUploadTicketPurpose : string := "talus/sftp/upload-ticket/v2".
Definition maxTicket : Z := 16384.

Record sftpFileVersion := MkVersion { v_size : Z; v_mode : Z; v_modified : Z; v_sha256 : string }.
Record sftpUploadTicket := MkTicket {
  k_version : Z; k_owner : string; k_server : Z; k_route : string; k_destination : string; k_temporary : string;
  k_size : Z; k_sha256 : string; k_expires : Z; k_previous : option sftpFileVersion }.
Record SFTPUpload := MkUpload {
  u_token : string; u_path : string; u_size : Z; u_offset : Z; u_sha256 : string; u_expires : Z; u_completed : bool }.

(** [json.Marshal] of a ticket. *)
Definition json_object (l : list (string * string)) : string :=
  "{" +:+ join "," (map (fun kv => json_string kv.1 +:+ ":" +:+ kv.2) l) +:+ "}".
Definition json_version (v : sftpFileVersion) : string :=
  json_object [("size", FormatInt (v_size v)); ("mode", FormatInt (v_mode v)); ("modified", FormatInt (v_modified v)); ("sha256", json_string (v_sha256 v))].
Definition marshal (t : sftpUploadTicket) : string :=
  json_object ([("v", FormatInt (k_version t)); ("owner", json_string (k_owner t)); ("server_id", FormatInt (k_server t));
    ("route", json_string (k_route t)); ("destination", json_string (k_destination t)); ("temporary", json_string (k_temporary t));
    ("size", FormatInt (k_size t)); ("sha256", json_string (k_sha256 t)); ("expires_at", FormatInt (k_expires t))] ++
    match k_previous t with Some v => [("previous", json_version v)] | None => [] end).

(** SHA-256 in hexadecimal, HMAC-SHA-256, and [json.Unmarshal] into a ticket. *)
Class FilePrimitives := { sha256 : string -> string; hmac : string -> string -> string; unmarshal : string -> option sftpUploadTicket }.

(** A ticket whose integers are of their Go types, and what JSON keeps of its strings. *)
Definition unsigned (w z : Z) : Prop := 0 <= z < 2 ^ w.
Definition sized_version (v : sftpFileVersion) : Prop := in_int64 (v_size v) /\ unsigned 32 (v_mode v) /\ in_int64 (v_modified v).
Definition sized (t : sftpUploadTicket) : Prop :=
  in_int64 (k_version t) /\ unsigned 64 (k_server t) /\ in_int64 (k_size t) /\ in_int64 (k_expires t) /\
  forall v, k_previous t = Some v -> sized_version v.
Definition utf8_version (v : sftpFileVersion) : sftpFileVersion := MkVersion (v_size v) (v_mode v) (v_modified v) (to_utf8 (v_sha256 v)).
Definition utf8_ticket (t : sftpUploadTicket) : sftpUploadTicket :=
  MkTicket (k_version t) (to_utf8 (k_owner t)) (k_server t) (to_utf8 (k_route t)) (to_utf8 (k_destination t)) (to_utf8 (k_temporary t))
    (k_size t) (to_utf8 (k_sha256 t)) (k_expires t) (utf8_version <$> k_previous t).
(** The strings of a ticket. *)
Definition strings (t : sftpUploadTicket) : list string :=
  [k_owner t; k_route t; k_destination t; k_temporary t; k_sha256 t] ++ match k_previous t with Some v => [v_sha256 v] | None => [] end.

(** [json.Unmarshal] reads what [json.Marshal] wrote, each invalid byte of a string as U+FFFD. *)
Class TicketJSON (F : FilePrimitives) := { unmarshal_marshal t : sized t -> unmarshal (marshal t) = Some (utf8_ticket t) }.
(** GCM appends its tag. *)
Class GcmTag (P : Primitives) := { tag_len k n a p : len k = 32 -> 16 <= len (seal k n a p) }.

Definition sftpOwner (p : Principal) : result sftp_err string :=
  match (if bool_decide (AuthType p = "api_key") then APIKeyID p else None) with
  | Some k => Ok ("key:" +:+ FormatUint k)
  | None =>
      match (if bool_decide (AuthType p = "jwt") then UserID p else None) with
      | Some u => if negb (u =? 0) then Ok ("user:" +:+ FormatUint u) else Err SftpForbidden
      | None => Err SftpForbidden
      end
  end.

Section tickets.
Context `{P : Primitives} `{F : FilePrimitives}.

Definition uploadKey (secret : string) : string := hkdf secret "" sftpUploadTicketPurpose.
(** [nonce]: what the random source gives, [None] when it fails. *)
Definition sealUpload (secret : string) (nonce : option string) (t : sftpUploadTicket) : result sftp_err string :=
  match nonce with
  | None => Err (Remote RemoteFailure)
  | Some n => Ok ("v2." +:+ RawURLEncode (n +:+ seal (uploadKey secret) n sftpUploadTicketPurpose (marshal t)))
  end.

Definition open_v2 (secret part : string) : option string :=
  encrypted ← RawURLDecode part;
  if len encrypted <? 12 + 16 then None
  else gcm_open (uploadKey secret) (str_take 12 encrypted) sftpUploadTicketPurpose (str_drop 12 encrypted).
Definition open_v1 (secret part signature : string) : option string :=
  data ← RawURLDecode part; sig ← RawURLDecode signature;
  if bool_decide (sig = hmac secret ("talus-sftp-upload-v1" +:+ String (byte 0) data)) then Some data else None.
Definition open_token (secret token : string) : option (string * Z) :=
  if maxTicket <? len token then None
  else match split_on "." token with
       | [a; b] =>
           if bool_decide (a = "v2") then (fun data => (data, sftpUploadTicketVersion)) <$> open_v2 secret b
           else (fun data => (data, 1)) <$> open_v1 secret a b
       | _ => None
       end.
Definition readUpload (secret : string) (p : Principal) (now id : Z) (token : string) (allowExpired : bool) : result sftp_err sftpUploadTicket :=
  match (open_token secret token) with
  | None => SFTPError "sftp_invalid_upload"
  | Some (data, version) =>
      match unmarshal data with
      | None => SFTPError "sftp_invalid_upload"
      | Some t =>
          if negb (k_version t =? version) || negb (k_server t =? id) || (k_size t <? 0) || (MaxSFTPFileBytes <? k_size t)
          then SFTPError "sftp_invalid_upload"
          else try owner := sftpOwner p in
               if negb (bool_decide (owner = k_owner t)) then Err SftpForbidden
               else if (k_expires t <? now) && negb allowExpired then SFTPError "sftp_upload_expired"
               else Ok t
      end
  end.

Definition uploadStatus (t : sftpUploadTicket) (offset : Z) : SFTPUpload :=
  MkUpload "" (k_destination t) (k_size t) offset (k_sha256 t) (k_expires t) false.
Definition with_token (token : string) (u : SFTPUpload) : SFTPUpload :=
  MkUpload token (u_path u) (u_size u) (u_offset u) (u_sha256 u) (u_expires u) (u_completed u).
Definition completed (u : SFTPUpload) : SFTPUpload :=
  MkUpload (u_token u) (u_path u) (u_size u) (u_offset u) (u_sha256 u) (u_expires u) true.

(** [validateUploadRoute], before any call: [route] is that of the lease. *)
Definition validateUploadRoute {A} (route : string) (t : sftpUploadTicket) (k : op A) : op A :=
  if negb (bool_decide (route = k_route t)) then fail "sftp_conflict" else k.

(** ** Operations *)

Definition hashRemoteFile (p : string) (limit : Z) : op string :=
  lstat p (fun r =>
    match r with
    | Err e => remote e
    | Ok i =>
        if negb (i_regular i) then fail "sftp_not_regular"
        else if limit <? i_size i then fail "sftp_too_large"
        else read_all p (limit + 1) (fun data _ => if negb (len data =? i_size i) then fail "sftp_conflict" else ok (sha256 data))
    end).

(** The new temporary file: made, made private and closed, or removed again. *)
Definition make_temporary {A} (tmp : string) (k : op A) : op A :=
  unit_call (OpenNew tmp)
    (Call (Chmod tmp 384) (fun r =>
       match r with
       | Refused e => ignore (Close tmp) (ignore (Remove tmp) (remote e))
       | _ => Call (Close tmp) (fun r => match r with Refused e => ignore (Remove tmp) (remote e) | _ => k end)
       end)).
Definition start_ticket (owner : string) (id : Z) (route destination tmp : string) (size : Z) (digest : string) (now : Z)
    (previous : option file_info) (hash : string) : sftpUploadTicket :=
  MkTicket sftpUploadTicketVersion owner id route destination tmp size (ToLower digest) (now + sftpUploadLifetime)
    ((fun i => MkVersion (i_size i) (i_mode i) (i_mtime i) hash) <$> previous).
Definition start_body (secret : string) (nonce : option string) (t : sftpUploadTicket) : op SFTPUpload :=
  match sealUpload secret nonce t with
  | Err e => Ret (Err e)
  | Ok token =>
      if maxTicket <? len token then fail "sftp_invalid_path"
      else make_temporary (k_temporary t) (ok (with_token token (uploadStatus t 0)))
  end.
Definition StartUpload (secret : string) (p : Principal) (now id : Z) (route suffix : string) (nonce : option string)
    (destination : string) (size : Z) (digest : string) (overwrite : bool) : result sftp_err (op SFTPUpload) :=
  try destination := mutablePath destination in
  if negb (hex_ok digest) || negb (len digest =? 64) then SFTPError "sftp_invalid_upload"
  else if (size <? 0) || (MaxSFTPFileBytes <? size) then SFTPError "sftp_too_large"
  else try owner := sftpOwner p in
  Ok (Call (RealPath (path_dir destination)) (fun r =>
        match r with
        | Resolved parent =>
            let destination := path_join parent (path_base destination) in
            let ticket := start_ticket owner id route destination (temporary parent suffix) size digest now in
            andThen (pendingDestination destination overwrite) (fun previous =>
              match previous with
              | None => start_body secret nonce (ticket None "")
              | Some i => andThen (hashRemoteFile destination MaxSFTPFileBytes) (fun hash => start_body secret nonce (ticket (Some i) hash))
              end)
        | Refused e => remote e
        | _ => remote RemoteFailure
        end)).

Definition completedUploadMatches (t : sftpUploadTicket) : op bool :=
  lstat (k_destination t) (fun r =>
    match r with
    | Err e => remote e
    | Ok i =>
        if negb (i_regular i) || negb (i_size i =? k_size t) then ok false
        else andThen (hashRemoteFile (k_destination t) MaxSFTPFileBytes) (fun digest => ok (bool_decide (digest = k_sha256 t)))
    end).
(** The temporary file, or the answer for an upload that is complete already. *)
Definition pending_upload {A} (t : sftpUploadTicket) (done : A) (k : file_info -> op A) : op A :=
  lstat (k_temporary t) (fun r =>
    match r with
    | Ok i => k i
    | Err NotExist => bind (completedUploadMatches t) (fun r => match r with Ok true => ok done | _ => remote NotExist end)
    | Err e => remote e
    end).

Definition status_body (route : string) (t : sftpUploadTicket) : op SFTPUpload :=
  validateUploadRoute route t (pending_upload t (completed (uploadStatus t (k_size t))) (fun i =>
    if negb (i_regular i) || (k_size t <? i_size i) then fail "sftp_conflict" else ok (uploadStatus t (i_size i)))).
Definition UploadStatus (secret : string) (p : Principal) (now id : Z) (route token : string) : result sftp_err (op SFTPUpload) :=
  try t := readUpload secret p now id token false in Ok (status_body route t).

(** A file that is closed whatever happens. *)
Definition closing {A} (tmp : string) (body : op A) : op A := bind body (fun r => ignore (Close tmp) (Ret r)).
Definition chunk_body (route : string) (t : sftpUploadTicket) (offset size : Z) (body : input) : op SFTPUpload :=
  let tmp := k_temporary t in
  validateUploadRoute route t (lstat tmp (fun r =>
    match r with
    | Err e => remote e
    | Ok i =>
        if negb (i_regular i) || negb (i_size i =? offset) then fail "sftp_conflict"
        else unit_call (OpenWrite tmp) (closing tmp (copy_in tmp offset (size + 1) body (fun n =>
               if negb (n =? size) then fail "sftp_size_mismatch"
               else unit_call (Close tmp) (unit_call ContextErr (ok (uploadStatus t (offset + n)))))))
    end)).
Definition UploadChunk (secret : string) (p : Principal) (now id : Z) (route token : string) (offset size : Z) (body : input) :
    result sftp_err (op SFTPUpload) :=
  try t := readUpload secret p now id token false in
  if (offset <? 0) || (size <=? 0) || (MaxSFTPChunkBytes <? size) || (k_size t <? offset) || (k_size t - offset <? size)
  then SFTPError "sftp_invalid_upload" else Ok (chunk_body route t offset size body).

(** The destination is still the file the upload started from. *)
Definition same_version (i : file_info) (v : sftpFileVersion) : bool :=
  i_regular i && (i_size i =? v_size v) && (i_mode i =? v_mode v) && (i_mtime i =? v_modified v).
Definition publish_old (t : sftpUploadTicket) (v : sftpFileVersion) : op unit :=
  lstat (k_destination t) (fun r =>
    match r with
    | Err _ => fail "sftp_conflict"
    | Ok i =>
        if negb (same_version i v) then fail "sftp_conflict"
        else andThen (hashRemoteFile (k_destination t) MaxSFTPFileBytes) (fun digest =>
               if negb (bool_decide (digest = v_sha256 v)) then fail "sftp_conflict"
               else unit_call (Chmod (k_temporary t) (perm (i_mode i))) (unit_call (PosixRename (k_temporary t) (k_destination t)) (ok tt)))
    end).
Definition publish_ticket (t : sftpUploadTicket) : op unit :=
  match k_previous t with
  | None => lstat (k_destination t) (fun r =>
              match r with
              | Ok _ => fail "sftp_exists"
              | Err NotExist => publish_new (k_temporary t) (k_destination t)
              | Err e => remote e
              end)
  | Some v => publish_old t v
  end.
Definition complete_body (route : string) (t : sftpUploadTicket) : op unit :=
  validateUploadRoute route t (pending_upload t tt (fun i =>
    if negb (i_regular i) || negb (i_size i =? k_size t) then fail "sftp_size_mismatch"
    else andThen (hashRemoteFile (k_temporary t) MaxSFTPFileBytes) (fun digest =>
           if negb (bool_decide (digest = k_sha256 t)) then fail "sftp_checksum_mismatch" else publish_ticket t))).
Definition CompleteUpload (secret : string) (p : Principal) (now id : Z) (route token : string) : result sftp_err (op unit) :=
  try t := readUpload secret p now id token false in Ok (complete_body route t).

Definition cancel_body (route : string) (t : sftpUploadTicket) : op unit :=
  validateUploadRoute route t (Call (Remove (k_temporary t)) (fun r =>
    match r with Refused NotExist => ok tt | Refused e => remote e | _ => ok tt end)).
Definition CancelUpload (secret : string) (p : Principal) (now id : Z) (route token : string) : result sftp_err (op unit) :=
  try t := readUpload secret p now id token true in Ok (cancel_body route t).
End tickets.

(** ** The ticket *)

(** The same API key, or the same user. *)
Definition same_caller (p p' : Principal) : Prop :=
  (exists k, AuthType p = "api_key" /\ AuthType p' = "api_key" /\ APIKeyID p = Some k /\ APIKeyID p' = Some k) \/
  (exists u, AuthType p = "jwt" /\ AuthType p' = "jwt" /\ UserID p = Some u /\ UserID p' = Some u /\ u <> 0).
(** Identifiers are unsigned. *)
Definition unsigned_ids (p : Principal) : Prop :=
  (forall k, APIKeyID p = Some k -> 0 <= k) /\ (forall u, UserID p = Some u -> 0 <= u).

Lemma sftpOwner_cases p o : sftpOwner p = Ok o ->
  (exists k, AuthType p = "api_key" /\ APIKeyID p = Some k /\ o = "key:" +:+ FormatUint k) \/
  (exists u, AuthType p = "jwt" /\ UserID p = Some u /\ u <> 0 /\ o = "user:" +:+ FormatUint u).
Proof.
  unfold sftpOwner. case_bool_decide as Ea.
  - destruct (APIKeyID p) as [k|] eqn:Ek; [intros [= <-]; left; by exists k|]. rewrite bool_decide_eq_false_2 by congruence. done.
  - case_bool_decide as Ej; [|done]. destruct (UserID p) as [u|]; [|done]. destruct (u =? 0) eqn:E0; [done|]. intros [= <-]. right. exists u.
    by apply Z.eqb_neq in E0.
Qed.

Lemma sftpOwner_inj p p' o : unsigned_ids p -> unsigned_ids p' -> sftpOwner p = Ok o -> sftpOwner p' = Ok o -> same_caller p p'.
Proof.
  intros [Hk Hu] [Hk' Hu'] H H'.
  destruct (sftpOwner_cases p o H) as [(k & Ea & Ek & ->)|(u & Ea & Eu & H0 & ->)],
    (sftpOwner_cases p' _ H') as [(k' & Ea' & Ek' & E)|(u' & Ea' & Eu' & H0' & E)]; try done.
  - left. exists k. injection E as E. apply FormatUint_inj in E as ->; [done|by eapply Hk|by eapply Hk'].
  - right. exists u. injection E as E. apply FormatUint_inj in E as ->; [done|by eapply Hu|by eapply Hu'].
Qed.

Lemma owner_utf8 p o : sftpOwner p = Ok o -> to_utf8 o = o.
Proof.
  intros H. apply to_utf8_valid, ascii_valid.
  assert (forall n, all_bytes seven_bit (FormatUint n) = true) as Hn
    by (intros n; apply (all_bytes_mono decimal); [apply decimal_seven_bit|apply FormatUint_digits]).
  destruct (sftpOwner_cases p o H) as [(k & _ & _ & ->)|(u & _ & _ & _ & ->)]; by rewrite all_bytes_app, Hn.
Qed.

Lemma utf8_ticket_same t : Forall (fun s => ValidString s = true) (strings t) -> utf8_ticket t = t.
Proof.
  destruct t as [ver o id r d tmp sz sha ex pr]. unfold strings, utf8_ticket.
  cbn [k_version k_owner k_server k_route k_destination k_temporary k_size k_sha256 k_expires k_previous app].
  rewrite !Forall_cons. intros (? & ? & ? & ? & ? & Hp). rewrite !to_utf8_valid by done.
  destruct pr as [[sz' mo ti sha']|]; [|done]. apply Forall_cons in Hp as [Hv _]. cbn [v_sha256] in Hv.
  change (utf8_version <$> Some ?v) with (Some (utf8_version v)). unfold utf8_version. cbn [v_size v_mode v_modified v_sha256].
  by rewrite (to_utf8_valid _ Hv).
Qed.

Section ticket_laws.
Context `{POk : PrimitivesOk} `{Tag : !GcmTag P} `{F : FilePrimitives} `{J : !TicketJSON F}.

Definition sealed_bytes (secret nonce : string) (t : sftpUploadTicket) : string :=
  nonce +:+ seal (uploadKey secret) nonce sftpUploadTicketPurpose (marshal t).
Lemma open_token_sealed secret secret' nonce t token : len token <= maxTicket -> sealUpload secret (Some nonce) t = Ok token ->
  open_token secret' token = (fun data => (data, sftpUploadTicketVersion)) <$> open_v2 secret' (RawURLEncode (sealed_bytes secret nonce t)).
Proof.
  intros Hl Hs. assert (token = "v2" +:+ String "." (RawURLEncode (sealed_bytes secret nonce t))) as -> by (by injection Hs).
  unfold open_token. apply Z.ltb_ge in Hl. rewrite Hl. rewrite split_on_app, split_on_none by (done || apply RawURL_dotless).
  by rewrite bool_decide_eq_true_2 by done.
Qed.

Lemma open_sealed secret secret' nonce t token : len nonce = 12 -> len token <= maxTicket ->
  sealUpload secret (Some nonce) t = Ok token ->
  (forall data version, open_token secret' token = Some (data, version) -> uploadKey secret' = uploadKey secret) /\
  open_token secret token = Some (marshal t, sftpUploadTicketVersion).
Proof.
  intros Hn Hl Hs. rewrite (open_token_sealed secret secret nonce t token Hl Hs). rewrite (open_token_sealed secret secret' nonce t token Hl Hs).
  set (c := sealed_bytes secret nonce t).
  unfold open_v2. rewrite RawDecodeEncode. cbn [mbind option_bind].
  assert ((len c <? 12 + 16) = false) as ->.
  { apply Z.ltb_ge. unfold c, sealed_bytes. rewrite len_app, Hn. pose proof (tag_len (uploadKey secret) nonce sftpUploadTicketPurpose (marshal t)) as Ht.
    unfold uploadKey in *. rewrite hkdf_len in Ht. specialize (Ht eq_refl). lia. }
  destruct (str_take_drop 12 nonce (seal (uploadKey secret) nonce sftpUploadTicketPurpose (marshal t))) as [E1 E2]; [unfold len in Hn; lia|].
  unfold c, sealed_bytes. rewrite E1, E2. split.
  - intros data version H. destruct (gcm_open _ _ _ _) as [d|] eqn:E; [|done]. by apply open_only in E as [-> _].
  - by rewrite open_seal.
Qed.

(** C30: A ticket opens only for the caller, server and time it was made for.
    A sealed upload ticket is read back, by the Hub that sealed it, for the server and the
    caller it names, until it expires (and afterwards only to cancel); with another signing
    key, for another server, another API key or user, or too late, it is refused.  What is
    read back is the ticket as it was sealed when its strings are UTF-8; in general each
    invalid byte of its strings (those of a directory the server named) has become U+FFFD,
    and the integers and the owner, which decide, are the same. *)
Theorem ticket_bound secret nonce t token caller : len nonce = 12 -> len token <= maxTicket ->
  sealUpload secret (Some nonce) t = Ok token -> sized t -> k_version t = sftpUploadTicketVersion ->
  0 <= k_size t <= MaxSFTPFileBytes -> sftpOwner caller = Ok (k_owner t) -> unsigned_ids caller ->
  (forall secret' p now id expired t', unsigned_ids p -> readUpload secret' p now id token expired = Ok t' ->
     uploadKey secret' = uploadKey secret /\ same_caller caller p /\ id = k_server t /\ (expired = false -> now <= k_expires t) /\
     t' = utf8_ticket t) /\
  (forall now expired, (expired = false -> now <= k_expires t) ->
     readUpload secret caller now (k_server t) token expired = Ok (utf8_ticket t)) /\
  k_owner (utf8_ticket t) = k_owner t /\
  (Forall (fun s => ValidString s = true) (strings t) -> utf8_ticket t = t).
Proof.
  intros Hn Hl Hs Hint Hver Hsize Hown Hids. assert (k_owner (utf8_ticket t) = k_owner t) as Howner by by eapply owner_utf8.
  assert (forall now id p expired, readUpload secret p now id token expired =
    if negb (k_server t =? id) then SFTPError "sftp_invalid_upload"
    else try owner := sftpOwner p in
         if negb (bool_decide (owner = k_owner t)) then Err SftpForbidden
         else if (k_expires t <? now) && negb expired then SFTPError "sftp_upload_expired" else Ok (utf8_ticket t)) as Hread.
  { intros now id p expired. unfold readUpload. destruct (open_sealed secret secret nonce t token Hn Hl Hs) as [_ ->].
    rewrite (unmarshal_marshal t Hint), Howner.
    cbn [utf8_ticket k_version k_server k_size k_expires]. rewrite Hver, Z.eqb_refl. cbn [negb orb].
    assert ((k_size t <? 0) = false) as -> by (apply Z.ltb_ge; lia). assert ((MaxSFTPFileBytes <? k_size t) = false) as -> by (apply Z.ltb_ge; lia).
    by rewrite !orb_false_r. }
  split_and!; [| |done|apply utf8_ticket_same].
  - intros secret' p now id expired t' Hp H.
    assert (uploadKey secret' = uploadKey secret) as Hkey.
    { destruct (open_sealed secret secret' nonce t token Hn Hl Hs) as [Hk _]. unfold readUpload in H.
      destruct (open_token secret' token) as [[data version]|]; [by eapply Hk|done]. }
    assert (readUpload secret' p now id token expired = readUpload secret p now id token expired) as Heq.
    { unfold readUpload. rewrite (open_token_sealed secret secret nonce t token Hl Hs), (open_token_sealed secret secret' nonce t token Hl Hs).
      unfold open_v2. by rewrite Hkey. }
    rewrite Heq, Hread in H. destruct (k_server t =? id) eqn:Ei; cbn [negb] in H; [|done]. apply Z.eqb_eq in Ei as <-.
    destruct (sftpOwner p) as [o|] eqn:Eo; [|done]. case_bool_decide as Ee; cbn [negb] in H; [|done]. subst o.
    destruct ((k_expires t <? now) && negb expired) eqn:Ex; [done|]. injection H as <-. split_and!; try done.
    + by eapply sftpOwner_inj.
    + intros ->. rewrite andb_true_r in Ex. by apply Z.ltb_ge in Ex.
  - intros now expired Hx. rewrite Hread, Z.eqb_refl, Hown. cbn [negb]. rewrite bool_decide_eq_true_2 by done. cbn [negb].
    destruct expired; [by rewrite andb_false_r|]. assert ((k_expires t <? now) = false) as -> by (apply Z.ltb_ge; auto). done.
Qed.
End ticket_laws.

(** ** What the requests do *)

Section dialogues.
Context `{P : Primitives} `{F : FilePrimitives}.

Lemma readUpload_ok secret p now id token t : readUpload secret p now id token false = Ok t ->
  now <= k_expires t /\ k_server t = id /\ sftpOwner p = Ok (k_owner t) /\ 0 <= k_size t <= MaxSFTPFileBytes.
Proof.
  unfold readUpload. destruct (open_token secret token) as [[data version]|]; [|done]. destruct (unmarshal data) as [t'|]; [|done].
  destruct (_ || _) eqn:E; [done|]. bools. destruct (sftpOwner p) as [o|] eqn:Eo; [|done]. case_bool_decide as Ed; [|done]. cbn [negb]. rewrite andb_true_r.
  destruct (k_expires t' <? now) eqn:Ex; [done|]. intros [= <-]. split_and!; try lia. by rewrite Ed.
Qed.

Lemma wp_hash allowed past p limit (post : list (call * reply) -> result sftp_err string -> Prop) :
  (forall q, allowed q (Lstat p) /\ allowed q (ReadAll p (limit + 1))) ->
  (forall l e, post (past ++ l) (Err e)) ->
  (forall l data more, (ReadAll p (limit + 1), Bytes data more) ∈ l -> post (past ++ l) (Ok (sha256 data))) ->
  wp allowed past (hashRemoteFile p limit) post.
Proof.
  intros Ha He Ho. unfold hashRemoteFile, lstat. apply wp_info; [apply Ha| |intros; apply He].
  intros i. destruct (i_regular i); [|apply He]. cbn [negb]. destruct (limit <? i_size i); [apply He|].
  apply wp_read; [apply Ha| |intros r e; rewrite <- app_assoc; apply He].
  intros data m. rewrite <- app_assoc. destruct (len data =? i_size i); [|apply He]. apply (Ho _ data m). by right; left.
Qed.

(** The temporary file was seen with the size of the ticket, and then read with its digest. *)
Definition verified (t : sftpUploadTicket) (past : list (call * reply)) : Prop :=
  exists i data more, (Lstat (k_temporary t), Info i) ∈ past /\ i_regular i = true /\ i_size i = k_size t /\
    (ReadAll (k_temporary t) (MaxSFTPFileBytes + 1), Bytes data more) ∈ past /\ sha256 data = k_sha256 t.
(** The destination was seen and read as the ticket has its old version. *)
Definition replaceable (t : sftpUploadTicket) (past : list (call * reply)) : Prop :=
  exists v i data more, k_previous t = Some v /\ (Lstat (k_destination t), Info i) ∈ past /\ same_version i v = true /\
    (ReadAll (k_destination t) (MaxSFTPFileBytes + 1), Bytes data more) ∈ past /\ sha256 data = v_sha256 v.
Definition complete_policy (t : sftpUploadTicket) : list (call * reply) -> call -> Prop :=
  file_policy (k_temporary t) (k_destination t) (verified t) (replaceable t) (fun _ _ => False).
(** An earlier request published the file. *)
Definition already (t : sftpUploadTicket) (past : list (call * reply)) : Prop :=
  (Lstat (k_temporary t), Refused NotExist) ∈ past /\
  exists data more, (ReadAll (k_destination t) (MaxSFTPFileBytes + 1), Bytes data more) ∈ past /\ sha256 data = k_sha256 t.

Lemma verified_lasts t : lasting (verified t).
Proof. intros past l (i & d & m & H1 & ? & ? & H2 & ?). exists i, d, m. split_and!; try done; apply elem_of_app; by left. Qed.
Lemma replaceable_lasts t : lasting (replaceable t).
Proof. intros past l (v & i & d & m & ? & H1 & ? & H2 & ?). exists v, i, d, m. split_and!; try done; apply elem_of_app; by left. Qed.

Lemma wp_publish_old t v past : k_previous t = Some v -> verified t past ->
  wp (complete_policy t) past (publish_old t v) (fun past' r => r = Ok tt -> published (k_temporary t) (k_destination t) past').
Proof.
  intros Hv Hr. unfold publish_old, lstat. apply wp_info; [done| |done]. intros i. destruct (same_version i v) eqn:Es; cbn [negb]; [|done].
  apply wp_andThen. apply wp_hash; [done|done|]. intros l data more Hin. case_bool_decide as Ed; cbn [negb]; [|done].
  apply wp_unit; [done| |done]. intros r1 _. apply wp_unit; [|intros r Hok _|done].
  - cbn. split_and!; [done|done| |].
    + rewrite <- !app_assoc. by apply verified_lasts.
    + apply replaceable_lasts. exists v, i, data, more. split_and!; [done|apply elem_of_app; left; in_past|done|apply elem_of_app; by right|done].
  - exists (PosixRename (k_temporary t) (k_destination t)), r. split; [by right; right|]. split; [in_past|done].
Qed.

Lemma wp_publish_ticket t past : verified t past ->
  wp (complete_policy t) past (publish_ticket t) (fun past' r => r = Ok tt -> published (k_temporary t) (k_destination t) past').
Proof.
  intros Hr. unfold publish_ticket. destruct (k_previous t) as [v|] eqn:Ev; [by apply wp_publish_old|].
  apply wp_info; [done|done|]. intros e r He. destruct e; try done. rewrite (He eq_refl).
  apply wp_publish_new; [apply verified_lasts|by apply verified_lasts|in_past].
Qed.

Lemma wp_matches t past (post : list (call * reply) -> result sftp_err bool -> Prop) allowed :
  (forall q, allowed q (Lstat (k_destination t)) /\ allowed q (ReadAll (k_destination t) (MaxSFTPFileBytes + 1))) ->
  (forall l r, (r = Ok true -> exists data more, (ReadAll (k_destination t) (MaxSFTPFileBytes + 1), Bytes data more) ∈ past ++ l /\ sha256 data = k_sha256 t) ->
     post (past ++ l) r) ->
  wp allowed past (completedUploadMatches t) post.
Proof.
  intros Ha Hp. unfold completedUploadMatches, lstat. apply wp_info; [apply Ha| |intros; by apply Hp].
  intros i. destruct (_ || _); [by apply Hp|]. apply wp_andThen. apply wp_hash; [apply Ha|intros l e; rewrite <- app_assoc; by apply Hp|].
  intros l data more Hin. cbn. rewrite <- app_assoc. apply Hp. intros [= Hd]. apply bool_decide_eq_true in Hd. exists data, more. split; [|done].
  rewrite app_assoc. apply elem_of_app. by right.
Qed.

Lemma wp_complete route t : wp (complete_policy t) [] (complete_body route t)
  (fun past r => (past <> [] -> route = k_route t) /\ (r = Ok tt -> published (k_temporary t) (k_destination t) past \/ already t past)).
Proof.
  unfold complete_body, validateUploadRoute. case_bool_decide as Er; cbn [negb]; [|done]. unfold pending_upload, lstat.
  apply wp_info; [done| |].
  - intros i. destruct (_ || _) eqn:E; [done|]. apply orb_false_iff in E as [E1%negb_false_iff E2%negb_false_iff%Z.eqb_eq].
    apply wp_andThen. apply wp_hash; [done|done|]. intros l data more Hin. case_bool_decide as Ed; cbn [negb]; [|done].
    eapply wp_mono; [apply wp_publish_ticket|].
    + exists i, data, more. split_and!; [apply elem_of_app; left; by left|done|done|apply elem_of_app; by right|done].
    + intros past' r Hp. split; [done|]. intros Hr. left. by apply Hp.
  - intros e r He. destruct e; try done. rewrite (He eq_refl). apply wp_bind. apply wp_matches; [done|].
    intros l [[]|e'] Hm; try done. split; [done|]. intros _. right. split; [by left|by apply Hm].
Qed.

(** C31: Completing an upload publishes exactly the bytes that were announced when it began.
    A request to complete is refused unless its ticket is for this caller and server and has
    not expired; nothing is sent on another route than the upload began on.  Whatever the
    server answers, the temporary file is published only after it was read with the size and
    the digest of the ticket, as a new name only if that was seen free, over an old file only
    if that was read with the size, mode, time and digest it had when the upload began; no
    byte is written.  Success means that it was published, now or by an earlier request. *)
Theorem complete_publishes_verified secret p now id route token prog :
  CompleteUpload secret p now id route token = Ok prog ->
  exists t, readUpload secret p now id token false = Ok t /\ now <= k_expires t /\ k_server t = id /\ sftpOwner p = Ok (k_owner t) /\
    forall answers tr r, play prog answers 0 = (tr, r) ->
      (tr <> [] -> route = k_route t) /\
      (forall before c reply after, tr = before ++ (c, reply) :: after -> complete_policy t before c) /\
      (r = Ok tt -> published (k_temporary t) (k_destination t) tr \/ already t tr).
Proof.
  unfold CompleteUpload. destruct (readUpload secret p now id token false) as [t|] eqn:Et; [|done]. intros [= <-]. exists t. split; [done|].
  apply readUpload_ok in Et as (? & ? & ? & _). split_and!; try done. intros answers tr r Hplay.
  destruct (wp_play _ _ _ answers [] 0 tr r (wp_complete route t) Hplay) as [[Hroute Hpost] Hall]. split; [exact Hroute|]. split; [exact Hall|exact Hpost].
Qed.
(** *** Chunks *)

Definition chunk_policy (t : sftpUploadTicket) (offset size : Z) (body : input) (past : list (call * reply)) (c : call) : Prop :=
  match c with
  | Lstat q | OpenWrite q | Close q => q = k_temporary t
  | ContextErr => True
  | Write q o d => q = k_temporary t /\ o = offset /\ d = str_take (Z.to_nat (size + 1)) (in_data body) /\
      exists i, (Lstat q, Info i) ∈ past /\ i_regular i = true /\ i_size i = offset
  | _ => False
  end.

Lemma wp_closing {A} allowed tmp past (body : op A) (post : list (call * reply) -> result sftp_err A -> Prop) :
  (forall past', allowed past' (Close tmp)) ->
  wp allowed past body (fun past' r => forall l, post (past' ++ l) r) -> wp allowed past (closing tmp body) post.
Proof. intros Ha H. apply wp_bind. eapply wp_mono; [exact H|]. intros past' r Hp. split; [apply Ha|]. intros r'. apply Hp. Qed.

Lemma wp_chunk route t offset size body : 0 < size ->
  wp (chunk_policy t offset size body) [] (chunk_body route t offset size body)
    (fun past r => (past <> [] -> route = k_route t) /\
       forall u, r = Ok u -> u_offset u = offset + size /\ len (in_data body) = size /\
         exists r', (Write (k_temporary t) offset (in_data body), r') ∈ past /\ ~ refused r').
Proof.
  intros Hsize. unfold chunk_body, validateUploadRoute. case_bool_decide as Er; cbn [negb]; [|by split]. apply wp_info; [done| |by split].
  intros i. destruct (_ || _) eqn:E; [by split|]. apply orb_false_iff in E as [E1%negb_false_iff E2%negb_false_iff%Z.eqb_eq].
  apply wp_unit; [done| |by split]. intros r1 _. apply wp_closing; [done|]. unfold copy_in.
  apply wp_unit; [|intros r2 Hok|by split].
  { cbn. split_and!; [done..|]. exists i. split; [by left|done]. }
  destruct (in_broken body && _); [by split|]. destruct (len _ =? size) eqn:En; cbn [negb]; [|by split]. apply Z.eqb_eq in En.
  assert (str_take (Z.to_nat (size + 1)) (in_data body) = in_data body) as Et by (apply str_take_short; unfold len in En; lia).
  rewrite Et in En |- *. apply wp_unit; [done| |by split]. intros r3 _. apply wp_unit; [done| |by split]. intros r4 _ l. split; [done|]. intros u [= <-].
  cbn [u_offset uploadStatus]. split_and!; [lia|done|]. exists r2. split; [apply elem_of_app; left; in_past|done].
Qed.

(** A chunk is written only where the temporary file ends, only on the route of the ticket,
    and nothing else is touched; the new offset is reported only when the whole chunk, of the
    announced size, was written, and it never passes the size of the upload. *)
Theorem chunk_appends secret p now id route token offset size body prog :
  UploadChunk secret p now id route token offset size body = Ok prog ->
  exists t, readUpload secret p now id token false = Ok t /\ 0 < size <= MaxSFTPChunkBytes /\ 0 <= offset /\ offset + size <= k_size t /\
    forall answers tr r, play prog answers 0 = (tr, r) ->
      (tr <> [] -> route = k_route t) /\
      (forall before c reply after, tr = before ++ (c, reply) :: after -> chunk_policy t offset size body before c) /\
      forall u, r = Ok u -> u_offset u = offset + size /\ len (in_data body) = size /\
        exists r', (Write (k_temporary t) offset (in_data body), r') ∈ tr /\ ~ refused r'.
Proof.
  unfold UploadChunk. destruct (readUpload secret p now id token false) as [t|] eqn:Et; [|done]. destruct (_ || _) eqn:E; [done|]. intros [= <-].
  bools. exists t. split; [done|]. split_and!; try lia. intros answers tr r Hplay.
  destruct (wp_play _ _ _ answers [] 0 tr r (wp_chunk route t offset size body ltac:(lia)) Hplay) as [[Hroute Hpost] Hall].
  split; [exact Hroute|]. split; [exact Hall|exact Hpost].
Qed.

(** *** The beginning *)

(** Beginning an upload changes nothing but its own new temporary file. *)
Definition start_policy (tmp : string) (past : list (call * reply)) (c : call) : Prop :=
  match c with
  | Lstat _ | RealPath _ | HasExtension _ | ReadAll _ _ => True
  | OpenNew q | Chmod q _ | Close q | Remove q => q = tmp
  | _ => False
  end.
(** The ticket of a beginning: its own temporary file was made, next to the destination. *)
Definition started (secret nonce owner : string) (id : Z) (route : string) (size : Z) (digest : string) (now : Z)
    (overwrite : bool) (tmp : string) (past : list (call * reply)) (u : SFTPUpload) : Prop :=
  exists t, sealUpload secret (Some nonce) t = Ok (u_token u) /\ len (u_token u) <= maxTicket /\ k_version t = sftpUploadTicketVersion /\
    k_owner t = owner /\ k_server t = id /\ k_route t = route /\ k_temporary t = tmp /\ k_destination t = u_path u /\
    k_size t = size /\ k_sha256 t = ToLower digest /\ k_expires t = now + sftpUploadLifetime /\
    (exists r, (OpenNew tmp, r) ∈ past /\ ~ refused r) /\
    (k_previous t <> None -> overwrite = true /\ replaceable t past).

Lemma wp_make_temporary {A} tmp past (k : op A) (post : list (call * reply) -> result sftp_err A -> Prop) :
  (forall past' r, (OpenNew tmp, r) ∈ past' -> ~ refused r -> past `prefix_of` past' -> wp (start_policy tmp) past' k post) ->
  (forall past' e, post past' (Err e)) -> wp (start_policy tmp) past (make_temporary tmp k) post.
Proof.
  intros Hk He. unfold make_temporary. apply wp_unit; [done| |intros; apply He]. intros r1 H1.
  assert (forall l, wp (start_policy tmp) (((past ++ [(OpenNew tmp, r1)]) ++ l)) k post) as Hk'.
  { intros l. apply (Hk _ r1); [apply elem_of_app; left; in_past|done|]. rewrite <- app_assoc. by eexists. }
  split; [done|]. intros r2.
  assert (wp (start_policy tmp) ((past ++ [(OpenNew tmp, r1)]) ++ [(Chmod tmp 384, r2)])
    (Call (Close tmp) (fun r => match r with Refused e => ignore (Remove tmp) (remote e) | _ => k end)) post) as Hok.
  { split; [done|]. intros r3.
    assert (wp (start_policy tmp) (((past ++ [(OpenNew tmp, r1)]) ++ [(Chmod tmp 384, r2)]) ++ [(Close tmp, r3)]) k post) as Hk3 by (rewrite <- app_assoc; apply Hk').
    destruct r3; try exact Hk3. split; [done|]. intros; apply He. }
  destruct r2; try exact Hok. split; [done|]. intros; split; [done|]. intros; apply He.
Qed.

Lemma wp_start_body secret nonce owner id route size digest now overwrite destination tmp previous hash past :
  (forall i, previous = Some i -> overwrite = true /\
     replaceable (start_ticket owner id route destination tmp size digest now previous hash) past) ->
  wp (start_policy tmp) past (start_body secret (Some nonce) (start_ticket owner id route destination tmp size digest now previous hash))
    (fun past' r => forall u, r = Ok u -> started secret nonce owner id route size digest now overwrite tmp past' u /\ u_path u = destination).
Proof.
  intros Hprev. unfold start_body. cbn [sealUpload]. destruct (maxTicket <? _) eqn:El; [done|]. apply Z.ltb_ge in El.
  apply wp_make_temporary; [|done]. intros past' r Hin Hr [l ->]. cbn [wp ok]. intros u [= <-]. split; [|done].
  exists (start_ticket owner id route destination tmp size digest now previous hash). split; [done|]. split; [exact El|].
  split_and!; try done; [by exists r|]. destruct previous as [i|]; [|done]. intros _. destruct (Hprev i eq_refl) as [-> Hrep].
  split; [done|]. by apply replaceable_lasts.
Qed.

(** Beginning an upload changes nothing but its own new temporary file, next to the
    destination; the ticket it gives out names that file, which the server has made, and the
    version of the destination that may be replaced, as it was seen and read. *)
Theorem start_makes_ticket secret p now id route suffix nonce path size digest overwrite prog :
  StartUpload secret p now id route suffix (Some nonce) path size digest overwrite = Ok prog ->
  exists destination owner, mutablePath path = Ok destination /\ sftpOwner p = Ok owner /\ 0 <= size <= MaxSFTPFileBytes /\
    forall answers parent tr r, answers 0%nat = Resolved parent -> play prog answers 0 = (tr, r) ->
      (forall before c reply after, tr = before ++ (c, reply) :: after -> before <> [] -> start_policy (temporary parent suffix) before c) /\
      forall u, r = Ok u -> u_path u = path_join parent (path_base destination) /\
        started secret nonce owner id route size digest now overwrite (temporary parent suffix) tr u.
Proof.
  unfold StartUpload. destruct (mutablePath path) as [dest|]; [|done]. destruct (_ || _); [done|]. destruct (_ || _) eqn:Es; [done|].
  apply orb_false_iff in Es as [?%Z.ltb_ge ?%Z.ltb_ge]. destruct (sftpOwner p) as [owner|]; [|done]. intros [= <-].
  exists dest, owner. split_and!; [done..|]. intros answers parent tr r Hp. cbn [play]. rewrite Hp. destruct (play _ answers 1) as [tr' r'] eqn:Hplay.
  intros [= <- <-]. set (d := path_join parent (path_base dest)) in *. set (tmp := temporary parent suffix) in *.
  match type of Hplay with play ?pr _ _ = _ => assert (wp (start_policy tmp) [(RealPath (path_dir dest), Resolved parent)] pr
    (fun past' r => forall u, r = Ok u -> started secret nonce owner id route size digest now overwrite tmp past' u /\ u_path u = d)) as Hwp end.
  { apply wp_andThen, wp_pending; [done|]. intros past' [[i|]|e] _ Hi; [| |done].
    - destruct (Hi i eq_refl) as (Ho & Hreg & Hseen). apply wp_andThen. apply wp_hash; [done|done|]. intros l data more Hin.
      apply wp_start_body. intros i' _. split; [done|]. eexists _, i, data, more. split; [reflexivity|]. cbn.
      split_and!; [apply elem_of_app; by left| |apply elem_of_app; by right|done]. unfold same_version. cbn. by rewrite Hreg, !Z.eqb_refl.
    - by apply wp_start_body. }
  destruct (wp_play _ _ _ answers _ 1 tr' r' Hwp Hplay) as [Hpost Hall]. split.
  - intros [|x before] c reply after E Hne; [done|]. injection E as <- E. by apply (Hall before c reply after).
  - intros u Hu. destruct (Hpost u Hu) as [Hs Hd]. by split.
Qed.
End dialogues.

(** ** A decoder of tickets

    It reads the documents [marshal] writes, so [TicketJSON] can hold. *)

Definition read_field {A} (rd : string -> option (A * string)) (lead name : string) (s : string) : option (A * string) :=
  strip (lead +:+ json_string name +:+ ":") s ≫= rd.
Definition read_version (s : string) : option (sftpFileVersion * string) :=
  size ← read_field read_int "{" "size" s; mode ← read_field read_int "," "mode" size.2;
  modified ← read_field read_int "," "modified" mode.2; sha ← read_field read_string "," "sha256" modified.2;
  rest ← strip "}" sha.2; Some (MkVersion size.1 mode.1 modified.1 sha.1, rest).
Definition read_previous (s : string) : option (option sftpFileVersion * string) :=
  match strip "}" s with
  | Some rest => Some (None, rest)
  | None => v ← read_field read_version "," "previous" s; rest ← strip "}" v.2; Some (Some v.1, rest)
  end.
Definition read_ticket (s : string) : option sftpUploadTicket :=
  v ← read_field read_int "{" "v" s; owner ← read_field read_string "," "owner" v.2;
  server ← read_field read_int "," "server_id" owner.2; route ← read_field read_string "," "route" server.2;
  destination ← read_field read_string "," "destination" route.2; temporary ← read_field read_string "," "temporary" destination.2;
  size ← read_field read_int "," "size" temporary.2; sha ← read_field read_string "," "sha256" size.2;
  expires ← read_field read_int "," "expires_at" sha.2; previous ← read_previous expires.2;
  match previous.2 with
  | "" => Some (MkTicket v.1 owner.1 server.1 route.1 destination.1 temporary.1 size.1 sha.1 expires.1 previous.1)
  | _ => None
  end.

(** The text of an object in front of [r], field by field. *)
Fixpoint fields (lead : string) (l : list (string * string)) (r : string) : string :=
  match l with [] => "}" +:+ r | (k, v) :: l => (lead +:+ json_string k +:+ ":") +:+ v +:+ fields "," l r end.

Lemma fields_object k v l r : json_object ((k, v) :: l) +:+ r = fields "{" ((k, v) :: l) r.
Proof.
  unfold json_object. generalize "{" as lead. revert k v. induction l as [|[k' v'] l IH]; intros k v lead.
  - cbn [map join fields]. by rewrite <- !String_app_assoc.
  - cbn [fields]. specialize (IH k' v' ","). cbn [fields] in IH. rewrite <- IH. cbn [map join]. by rewrite <- !String_app_assoc.
Qed.

Lemma read_field_at {A} (rd : string -> option (A * string)) lead name r :
  read_field rd lead name ((lead +:+ json_string name +:+ ":") +:+ r) = rd r.
Proof. unfold read_field. by rewrite (proj2 (strip_Some _ _ r) eq_refl). Qed.

Lemma read_json_version v r : read_version (json_version v +:+ r) = Some (utf8_version v, r).
Proof.
  unfold read_version, json_version. rewrite fields_object. cbn [fields].
  repeat (rewrite read_field_at; ((rewrite read_FormatInt by done) || rewrite read_json_string); cbn [mbind option_bind fst snd]).
  by rewrite (proj2 (strip_Some "}" _ r) eq_refl).
Qed.

Lemma read_marshal t : read_ticket (marshal t) = Some (utf8_ticket t).
Proof.
  rewrite <- (app_nil_r_str (marshal t)). unfold read_ticket, marshal, utf8_ticket. cbn [app]. rewrite fields_object.
  destruct (k_previous t) as [v|]; cbn [fields];
    repeat (rewrite read_field_at; ((rewrite read_FormatInt by done) || rewrite read_json_string); cbn [mbind option_bind fst snd]).
  - unfold read_previous. assert (forall x y, strip "}" (("," +:+ x) +:+ y) = None) as -> by done.
    rewrite read_field_at, read_json_version. cbn [mbind option_bind fst snd]. by rewrite (proj2 (strip_Some "}" _ "") eq_refl).
  - done.
Qed.

(** ** A concrete upload *)

#[local] Existing Instance toy.
#[local] Existing Instance toy_ok.
#[local] Instance toy_tag : GcmTag toy.
Proof.
  split. intros k n a p Hk. cbn [seal toy]. unfold box. rewrite !len_app.
  assert (forall s, len (frame s) = 2 * len s + 1) as Hf by (induction s as [|c s IH]; [done|]; unfold len in *; cbn [frame String.length]; lia).
  rewrite !Hf, Hk. unfold len. lia.
Qed.

Definition demo_caller : Principal := mkPrincipal "api_key" None (Some 3).
Definition demo_tmp : string := "/srv/.talus-upload-0a".
Definition demo_ticket : sftpUploadTicket := MkTicket 2 "key:3" 7 "route" "/srv/f.txt" demo_tmp 5 "sum:hello" 86400 None.
#[local] Instance demo_files : FilePrimitives :=
  {| sha256 data := "sum:" +:+ data; hmac k d := k +:+ d;
     unmarshal := read_ticket |}.
#[local] Instance demo_json : TicketJSON demo_files.
Proof. split. intros t _. apply read_marshal. Qed.
Definition demo_token : string := match sealUpload "hub" (Some toy_nonce) demo_ticket with Ok token => token | Err _ => "" end.

Example ticket_json : marshal (MkTicket 2 "user:1" 7 "r" "/f" "/t" 5 "ab" 60 (Some (MkVersion 1 420 9 "cd"))) =
  let q := String quote "" in let kv k v := q +:+ k +:+ q +:+ ":" +:+ v in let str s := q +:+ s +:+ q in
  "{" +:+ kv "v" "2" +:+ "," +:+ kv "owner" (str "user:1") +:+ "," +:+ kv "server_id" "7" +:+ "," +:+ kv "route" (str "r") +:+ "," +:+
  kv "destination" (str "/f") +:+ "," +:+ kv "temporary" (str "/t") +:+ "," +:+ kv "size" "5" +:+ "," +:+ kv "sha256" (str "ab") +:+ "," +:+
  kv "expires_at" "60" +:+ "," +:+ kv "previous" ("{" +:+ kv "size" "1" +:+ "," +:+ kv "mode" "420" +:+ "," +:+ kv "modified" "9" +:+ "," +:+
  kv "sha256" (str "cd") +:+ "}") +:+ "}".
Proof. vm_compute. reflexivity. Qed.

(** The directory the server answers is not checked to be UTF-8: two directories give one
    ticket, which names neither. *)
Example ticket_loses_directory :
  let t n := start_ticket "key:3" 7 "r" (path_join (String (byte n) "") "f") (temporary (String (byte n) "") "0a") 5 "ab" 0 None "" in
  k_temporary (t 254%nat) <> k_temporary (t 255%nat) /\ marshal (t 254%nat) = marshal (t 255%nat).
Proof. split; vm_compute; [done|reflexivity]. Qed.

Lemma ticket_bound_witness :
  unmarshal (marshal demo_ticket) = Some demo_ticket /\
  readUpload "hub" demo_caller 86401 7 demo_token false = SFTPError "sftp_upload_expired" /\
  (forall secret' p now id expired t', unsigned_ids p -> readUpload secret' p now id demo_token expired = Ok t' ->
     uploadKey secret' = uploadKey "hub" /\ same_caller demo_caller p /\ id = 7 /\ (expired = false -> now <= 86400) /\
     t' = utf8_ticket demo_ticket) /\
  (forall now expired, (expired = false -> now <= 86400) -> readUpload "hub" demo_caller now 7 demo_token expired = Ok (utf8_ticket demo_ticket)) /\
  k_owner (utf8_ticket demo_ticket) = "key:3" /\
  (Forall (fun s => ValidString s = true) (strings demo_ticket) -> utf8_ticket demo_ticket = demo_ticket).
Proof.
  split; [vm_compute; reflexivity|]. split; [vm_compute; reflexivity|].
  apply (ticket_bound "hub" toy_nonce demo_ticket demo_token demo_caller).
  1-3, 5-7: vm_compute; done.
  - split_and!; done.
  - split; [by intros k [= <-]|done].
Defined.

(** The answers of a server that has the file under its temporary name, links it and removes
    the other name. *)
Definition demo_info : file_info := MkInfo 5 384 9.
Definition demo_answers (n : nat) : reply :=
  match n with
  | 0%nat | 1%nat => Info demo_info
  | 2%nat => Bytes "hello" false
  | 3%nat => Refused NotExist
  | _ => Done
  end.
Definition demo_complete : op unit := complete_body "route" demo_ticket.
Lemma demo_complete_ok : CompleteUpload "hub" demo_caller 60 7 "route" demo_token = Ok demo_complete.
Proof.
  unfold CompleteUpload. assert (readUpload "hub" demo_caller 60 7 demo_token false = Ok demo_ticket) as -> by (vm_compute; reflexivity). done.
Qed.

Lemma complete_publishes_verified_witness :
  play demo_complete demo_answers 0 =
    ([(Lstat demo_tmp, Info demo_info); (Lstat demo_tmp, Info demo_info); (ReadAll demo_tmp 67108865, Bytes "hello" false);
      (Lstat "/srv/f.txt", Refused NotExist); (HasExtension "hardlink@openssh.com", Done); (Link demo_tmp "/srv/f.txt", Done); (Remove demo_tmp, Done)], Ok tt) /\
  exists t, readUpload "hub" demo_caller 60 7 demo_token false = Ok t /\ 60 <= k_expires t /\ k_server t = 7 /\ sftpOwner demo_caller = Ok (k_owner t) /\
    forall answers tr r, play demo_complete answers 0 = (tr, r) ->
      (tr <> [] -> "route" = k_route t) /\
      (forall before c reply after, tr = before ++ (c, reply) :: after -> complete_policy t before c) /\
      (r = Ok tt -> published (k_temporary t) (k_destination t) tr \/ already t tr).
Proof.
  split; [vm_compute; reflexivity|]. apply (complete_publishes_verified "hub" demo_caller 60 7 "route" demo_token demo_complete). apply demo_complete_ok.
Defined.
