(* ===== verification/SftpDownload.v ===== *)
(** * Ranges and archives

    [service/sftp_download.go]: a part of a file, pinned to the digest of the whole.
    [service/sftp_archive.go]: a directory as a ZIP file, scanned completely before the first
    byte is sent.  Dialogues with the server as in Sftp; writes to the client are not calls,
    their failure is that of the read they belong to. *)

From S2P Require Import Prelude GoStrings Text Base64 RelayText Servers Secrets RateLimit Sftp SftpUpload.

(** ** [sftpByteRange] *)

Definition range_err {A} : result sftp_err A := SFTPError "sftp_invalid_range".
Definition sftpByteRange (value : string) (size : Z) : result sftp_err (Z * Z) :=
  if negb (HasPrefix "bytes=" value) || contains_byte "," value then range_err
  else match split_on "-" (str_drop 6 value) with
       | [first; last] =>
           if size <=? 0 then range_err
           else if bool_decide (first = "")
           then match ParseInt 64 last with
                | Some suffix => if suffix <=? 0 then range_err else let suffix := Z.min suffix size in Ok (size - suffix, suffix)
                | None => range_err
                end
           else match ParseInt 64 first with
                | None => range_err
                | Some start =>
                    if (start <? 0) || (size <=? start) then range_err
                    else if bool_decide (last = "") then Ok (start, size - 1 - start + 1)
                    else match ParseInt 64 last with
                         | Some e => if e <? start then range_err else let e := Z.min e (size - 1) in Ok (start, e - start + 1)
                         | None => range_err
                         end
                end
       | _ => range_err
       end.

Example ranges :
  (fun v => sftpByteRange v 10) <$> ["bytes=0-3"; "bytes=4-"; "bytes=-3"; "bytes=-30"; "bytes=8-99"; "bytes=10-"; "bytes=-0"; "bytes=3-2"; "bytes=0-1,3-4"; "b=0-1"; "bytes=--1"] =
  [Ok (0, 4); Ok (4, 6); Ok (7, 3); Ok (0, 10); Ok (8, 2)] ++ repeat range_err 6.
Proof. vm_compute. reflexivity. Qed.

Section downloads.
Context `{P : Primitives} `{F : FilePrimitives}.

Record SFTPDownload := MkDownload { dl_entry : SFTPEntry; dl_start : Z; dl_length : Z; dl_total : Z; dl_etag : string; dl_partial : bool }.
Definition etag (digest : string) : string := String quote ("sha256:" +:+ digest +:+ String quote "").
(** The part that is asked for, of a file with this entity tag. *)
Definition requested (range ifrange tag : string) (size : Z) : result sftp_err (Z * Z * bool) :=
  if negb (bool_decide (range = "")) && (bool_decide (ifrange = "") || bool_decide (ifrange = tag))
  then try r := sftpByteRange range size in Ok (r.1, r.2, true) else Ok (0, size, false).
(** [begin]: whether the client takes it. *)
Definition DownloadRange (p range ifrange : string) (begin : bool) : result sftp_err (op (SFTPDownload * string)) :=
  try p := remotePath p in
  Ok (lstat p (fun r =>
        match r with
        | Err e => remote e
        | Ok i =>
            if negb (i_regular i) then fail "sftp_not_regular"
            else if MaxSFTPFileBytes <? i_size i then fail "sftp_too_large"
            else andThen (hashRemoteFile p MaxSFTPFileBytes) (fun digest =>
                   match requested range ifrange (etag digest) (i_size i) with
                   | Err e => Ret (Err e)
                   | Ok (start, length, partial) =>
                       unit_call (OpenRead p) (info_call (OpenStat p) (fun opened =>
                         match opened with
                         | Err _ => fail "sftp_conflict"
                         | Ok o =>
                             if negb (sameRemoteFile i o) then fail "sftp_conflict"
                             else if negb begin then remote RemoteFailure
                             else Call (ReadFrom p start length) (fun r =>
                                    match r with
                                    | Bytes data _ =>
                                        if negb (len data =? length) then fail "sftp_conflict"
                                        else unit_call ContextErr
                                               (ok (MkDownload (sftpEntry (path_base p) p i) start length (i_size i) (etag digest) partial, data))
                                    | Refused e => remote e
                                    | _ => remote RemoteFailure
                                    end)
                         end))
                   end)
        end)).
End downloads.

(** ** [Archive] *)

Record sftpArchiveEntry := MkArchived { a_path : string; a_name : string; a_info : file_info }.
(** The loop's state: the entries, newest first, the bytes of the files, and the length of
    the directory of the ZIP file. *)
Record manifest := MkManifest { m_entries : list sftpArchiveEntry; m_total : Z; m_metadata : Z }.
Definition metadata_limit : Z := Z.shiftl 2 20.
Definition max_depth : nat := 32.

(** One entry of a directory: left out, or added. *)
Inductive scan_result := Skip | Added (next archivePath : string) (m : manifest).
Definition scan_entry (remote relative name : string) (i : file_info) (m : manifest) : result sftp_err scan_result :=
  if bool_decide (name = ".") || bool_decide (name = "..") then Ok Skip
  else if negb (ValidString name) || contains_byte "/" name || contains_byte "\" name || contains_byte (byte 0) name then SFTPError "sftp_invalid_path"
  else if i_symlink i || negb (i_dir i) && negb (i_regular i) then Ok Skip
  else if sftpEntryLimit <=? Z.of_nat (Datatypes.length (m_entries m)) then SFTPError "sftp_directory_too_large"
  else if i_size i <? 0 then SFTPError "sftp_failed"
  else
    let next := path_join remote name in
    if 4096 <? len next then SFTPError "sftp_invalid_path"
    else
      let archivePath := path_join relative name +:+ (if i_dir i then "/" else "") in
      if negb (i_dir i) && (MaxSFTPFileBytes - m_total m <? i_size i) then SFTPError "sftp_too_large"
      else
        let total := if i_dir i then m_total m else m_total m + i_size i in
        let metadata := m_metadata m + (2 * len archivePath + 256) in
        if metadata_limit <? metadata then SFTPError "sftp_directory_too_large"
        else Ok (Added next archivePath (MkManifest (MkArchived next archivePath i :: m_entries m) total metadata)).

(** The recursive [scan]; [levels] is 33 less the depth. *)
Section entries.
Context (descend : string -> string -> manifest -> op manifest) (remote relative : string).
Fixpoint scan_entries (l : list (string * file_info)) (m : manifest) : op manifest :=
  match l with
  | [] => ok m
  | (name, i) :: l =>
      match scan_entry remote relative name i m with
      | Err e => Ret (Err e)
      | Ok Skip => scan_entries l m
      | Ok (Added next archivePath m) => if i_dir i then andThen (descend next archivePath m) (scan_entries l) else scan_entries l m
      end
  end.
End entries.
Fixpoint scan (levels : nat) (dir relative : string) (m : manifest) : op manifest :=
  unit_call ContextErr
    match levels with
    | 0%nat => fail "sftp_directory_too_large"
    | S levels => Call (ReadDir dir) (fun r =>
        match r with
        | Names l => scan_entries (scan levels) dir relative l m
        | Refused e => remote e
        | _ => remote RemoteFailure
        end)
    end.

(** The entries in the order they were found: checked again and copied, each file's name with
    its bytes, directories with none. *)
Fixpoint archive_entries (l : list sftpArchiveEntry) (sent : list (string * string)) : op (list (string * string)) :=
  match l with
  | [] => ok (rev sent)
  | e :: l =>
      unit_call ContextErr (lstat (a_path e) (fun r =>
        match r with
        | Err err => remote err
        | Ok current =>
            if negb (sameRemoteFile (a_info e) current) then fail "sftp_conflict"
            else if i_dir current then archive_entries l ((a_name e, "") :: sent)
            else unit_call (OpenRead (a_path e)) (info_call (OpenStat (a_path e)) (fun opened =>
                   if negb (match opened with Ok o => sameRemoteFile current o | Err _ => false end) then ignore (Close (a_path e)) (fail "sftp_conflict")
                   else Call (ReadFrom (a_path e) 0 (i_size current)) (fun copied =>
                        Call (OpenStat (a_path e)) (fun after => Call (Close (a_path e)) (fun closed =>
                          match copied, after, closed with
                          | Refused err, _, _ | _, Refused err, _ | _, _, Refused err => remote err
                          | Bytes data _, Info a, _ =>
                              if negb (len data =? i_size current) || negb (sameRemoteFile current a) then fail "sftp_conflict"
                              else archive_entries l ((a_name e, data) :: sent)
                          | _, _, _ => remote RemoteFailure
                          end)))))
        end))
  end.

Definition archive_root (root : string) : string :=
  let name := path_base root in if bool_decide (name = "/") || bool_decide (name = ".") then "files" else name.
(** The result: the name of the file and its entries. *)
Definition archive_body (p : string) (begin : bool) : op (string * list (string * string)) :=
  lstat p (fun r =>
    match r with
    | Err e => remote e
    | Ok i =>
        if negb (i_dir i) then fail "sftp_not_directory"
        else Call (RealPath p) (fun r =>
               match r with
               | Resolved root =>
                   let name := archive_root root in
                   andThen (scan (S max_depth) root name (MkManifest [MkArchived root (name +:+ "/") i] 0 0)) (fun m =>
                     if negb begin then remote RemoteFailure
                     else andThen (archive_entries (rev (m_entries m)) []) (fun sent => ok (name +:+ ".zip", sent)))
               | Refused e => remote e
               | _ => remote RemoteFailure
               end)
    end).
Definition Archive (p : string) (begin : bool) : result sftp_err (op (string * list (string * string))) :=
  try p := remotePath p in Ok (archive_body p begin).

(** ** What is sent *)

(** A range is inside the file and not empty. *)
Lemma range_within value size start length : sftpByteRange value size = Ok (start, length) ->
  0 <= start /\ 1 <= length /\ start + length <= size.
Proof.
  unfold sftpByteRange, range_err, SFTPError. destruct (_ || _); [done|].
  destruct (split_on "-" _) as [|first [|last [|? ?]]]; try done. destruct (size <=? 0) eqn:E0; [done|]. apply Z.leb_gt in E0. case_bool_decide.
  - destruct (ParseInt 64 last) as [n|]; [|done]. destruct (n <=? 0) eqn:E; [done|]. apply Z.leb_gt in E. intros [= <- <-]. lia.
  - destruct (ParseInt 64 first) as [n|]; [|done]. destruct (_ || _) eqn:E; [done|]. bools. case_bool_decide; [intros [= <- <-]; lia|].
    destruct (ParseInt 64 last) as [e|]; [|done]. destruct (e <? n) eqn:E1; [done|]. apply Z.ltb_ge in E1. intros [= <- <-]. lia.
Qed.

(** Calls that change nothing. *)
Definition reading (c : call) : Prop :=
  match c with
  | Lstat _ | OpenStat _ | OpenRead _ | RealPath _ | ReadDir _ | ReadAll _ _ | ReadFrom _ _ _ | Close _ | ContextErr => True
  | _ => False
  end.

Section sent.
Context `{P : Primitives} `{F : FilePrimitives}.

(** A download changes nothing on the server; what is sent is what was read from the start of
    the range to its end, inside the file; its entity tag is the digest of a whole reading of
    the file, and a part is sent only if the client has no older copy. *)
Theorem download_exact path range ifrange begin prog : DownloadRange path range ifrange begin = Ok prog ->
  exists p, remotePath path = Ok p /\ forall answers tr r, play prog answers 0 = (tr, r) ->
    (forall c reply, (c, reply) ∈ tr -> reading c) /\
    forall d data, r = Ok (d, data) ->
      len data = dl_length d /\ 0 <= dl_start d /\ dl_start d + dl_length d <= dl_total d <= MaxSFTPFileBytes /\
      (exists more, (ReadFrom p (dl_start d) (dl_length d), Bytes data more) ∈ tr) /\
      (exists whole more, (ReadAll p (MaxSFTPFileBytes + 1), Bytes whole more) ∈ tr /\ dl_etag d = etag (sha256 whole)) /\
      (if dl_partial d then range <> "" /\ (ifrange = "" \/ ifrange = dl_etag d) /\ sftpByteRange range (dl_total d) = Ok (dl_start d, dl_length d)
       else dl_start d = 0 /\ dl_length d = dl_total d).
Proof.
  unfold DownloadRange. destruct (remotePath path) as [p|]; [|done]. intros [= <-]. exists p. split; [done|]. intros answers tr r Hplay.
  set (post := fun (past : list (call * reply)) (r : result sftp_err (SFTPDownload * string)) => forall d data, r = Ok (d, data) ->
      len data = dl_length d /\ 0 <= dl_start d /\ dl_start d + dl_length d <= dl_total d <= MaxSFTPFileBytes /\
      (exists more, (ReadFrom p (dl_start d) (dl_length d), Bytes data more) ∈ past) /\
      (exists whole more, (ReadAll p (MaxSFTPFileBytes + 1), Bytes whole more) ∈ past /\ dl_etag d = etag (sha256 whole)) /\
      (if dl_partial d then range <> "" /\ (ifrange = "" \/ ifrange = dl_etag d) /\ sftpByteRange range (dl_total d) = Ok (dl_start d, dl_length d)
       else dl_start d = 0 /\ dl_length d = dl_total d)).
  match type of Hplay with play ?pr _ _ = _ => assert (wp (fun _ => reading) [] pr post) as Hwp end.
  { apply wp_info; [done| |done]. intros i. destruct (i_regular i); cbn [negb]; [|done]. destruct (MaxSFTPFileBytes <? i_size i) eqn:Em; [done|].
    apply Z.ltb_ge in Em. apply wp_andThen, wp_hash; [done|done|]. intros l whole more Hin.
    destruct (requested range ifrange (etag (sha256 whole)) (i_size i)) as [[[start length] partial]|] eqn:Er; [|done].
    apply wp_unit; [done| |done]. intros r1 _. apply wp_info; [done| |done]. intros o. destruct (sameRemoteFile i o); cbn [negb]; [|done].
    destruct begin; cbn [negb]; [|done]. split; [done|]. intros [e| |?|?|data m|?]; try done.
    destruct (len data =? length) eqn:El; cbn [negb]; [|done]. apply Z.eqb_eq in El. apply wp_unit; [done| |done]. intros r2 _ d data' [= <- <-]. cbn [dl_start dl_length dl_total dl_etag dl_partial].
    assert (0 <= start /\ start + length <= i_size i /\ (if partial then range <> "" /\ (ifrange = "" \/ ifrange = etag (sha256 whole)) /\
      sftpByteRange range (i_size i) = Ok (start, length) else start = 0 /\ length = i_size i)) as (H1 & H2 & H3).
    { unfold requested in Er. destruct (_ && _) eqn:Eb.
      - destruct (sftpByteRange range (i_size i)) as [[s n]|] eqn:Es; [|done]. injection Er as <- <- <-. cbn.
        destruct (range_within _ _ _ _ Es) as (? & ? & ?). apply andb_true_iff in Eb as [Eb1 Eb2]. apply negb_true_iff, bool_decide_eq_false in Eb1. split_and!; try done.
        apply orb_true_iff in Eb2 as [Eb2|Eb2]; apply bool_decide_eq_true in Eb2; [by left|by right].
      - injection Er as <- <- <-. cbn. unfold len in El. lia. }
    split_and!; try done.
    - exists m. in_past.
    - exists whole, more. split; [|done]. do 4 (apply elem_of_app; left). apply elem_of_app. by right. }
  destruct (wp_play _ _ _ answers [] 0 tr r Hwp Hplay) as [Hpost Hall]. split; [|exact Hpost].
  intros c reply (before & after & E)%list_elem_of_split. by apply (Hall before c reply after).
Qed.
End sent.

(** *** Archives *)

Fixpoint files_size (l : list sftpArchiveEntry) : Z :=
  match l with [] => 0 | e :: l => (if i_dir (a_info e) then 0 else i_size (a_info e)) + files_size l end.
Fixpoint data_size (l : list (string * string)) : Z := match l with [] => 0 | x :: l => len x.2 + data_size l end.
Lemma data_size_app a b : data_size (a ++ b) = data_size a + data_size b.
Proof. induction a as [|x a IH]; cbn [app data_size]; lia. Qed.
Lemma files_size_app a b : files_size (a ++ b) = files_size a + files_size b.
Proof. induction a as [|x a IH]; cbn [app files_size]; lia. Qed.
Lemma files_size_rev l : files_size (rev l) = files_size l.
Proof. induction l as [|x l IH]; cbn [rev files_size]; [done|]. rewrite files_size_app, IH. cbn [files_size]. lia. Qed.

(** Within the limits. *)
Definition manifest_ok (m : manifest) : Prop :=
  Z.of_nat (Datatypes.length (m_entries m)) <= sftpEntryLimit /\ m_total m = files_size (m_entries m) /\ m_total m <= MaxSFTPFileBytes.

Lemma scan_entry_ok remote relative name i m next path m' : manifest_ok m -> scan_entry remote relative name i m = Ok (Added next path m') -> manifest_ok m'.
Proof.
  intros (H1 & H2 & H3). unfold scan_entry, SFTPError. destruct (bool_decide _ || _); [done|]. destruct (_ || _); [done|].
  destruct (i_symlink i || _); [done|].
  destruct (sftpEntryLimit <=? _) eqn:E1; [done|]. apply Z.leb_gt in E1. destruct (i_size i <? 0); [done|]. destruct (4096 <? _); [done|].
  destruct (negb (i_dir i) && (_ <? _)) eqn:E2; [done|]. destruct (metadata_limit <? _); [done|]. intros [= <- <- <-].
  unfold manifest_ok. cbn [m_entries m_total Datatypes.length files_size a_info]. split_and!.
  - lia.
  - destruct (i_dir i); lia.
  - destruct (i_dir i); cbn in E2; [done|]. apply Z.ltb_ge in E2. lia.
Qed.

Definition keeps_ok : list (call * reply) -> result sftp_err manifest -> Prop := fun _ r => forall m, r = Ok m -> manifest_ok m.
Lemma wp_scan_entries descend remote relative l m past : manifest_ok m ->
  (forall next path m past, manifest_ok m -> wp (fun _ => reading) past (descend next path m) keeps_ok) ->
  wp (fun _ => reading) past (scan_entries descend remote relative l m) keeps_ok.
Proof.
  intros Hm Hd. revert m past Hm. induction l as [|[name i] l IH]; intros m past Hm; cbn [scan_entries]; [by intros m' [= <-]|].
  destruct (scan_entry remote relative name i m) as [[|next path m']|e] eqn:E; [by apply IH| |done].
  assert (manifest_ok m') as Hm' by by eapply scan_entry_ok. destruct (i_dir i); [|by apply IH].
  apply wp_andThen. eapply wp_mono; [by apply Hd|]. intros past' [m''|e] Hk; [|done]. apply IH. by apply Hk.
Qed.
Lemma wp_scan levels dir relative m past : manifest_ok m -> wp (fun _ => reading) past (scan levels dir relative m) keeps_ok.
Proof.
  revert dir relative m past. induction levels as [|levels IH]; intros dir relative m past Hm; cbn [scan]; (apply wp_unit; [done| |done]); intros r _; [done|].
  split; [done|]. intros [e| |?|?|? ?|l]; try done. by apply wp_scan_entries.
Qed.

Lemma same_dir a b : sameRemoteFile a b = true -> i_dir a = i_dir b /\ i_size a = i_size b.
Proof. unfold sameRemoteFile, i_dir. intros H. bools. split; [f_equal; congruence|lia]. Qed.

(** Every file that is sent was read in one piece, between two looks at it that agree. *)
Definition copied (past : list (call * reply)) (x : string * string) : Prop :=
  x.2 = "" \/ exists p before after more, (Lstat p, Info before) ∈ past /\ (ReadFrom p 0 (i_size before), Bytes x.2 more) ∈ past /\
    (OpenStat p, Info after) ∈ past /\ sameRemoteFile before after = true /\ len x.2 = i_size before.
Lemma copied_mono past l x : copied past x -> copied (past ++ l) x.
Proof.
  intros [H|(p & b & a & m & H1 & H2 & H3 & H)]; [by left|right]. exists p, b, a, m. split_and!; try (apply elem_of_app; by left); apply H.
Qed.

Lemma wp_archive_entries l sent past : Forall (copied past) sent ->
  wp (fun _ => reading) past (archive_entries l sent) (fun past' r => forall out, r = Ok out ->
    Datatypes.length out = (Datatypes.length sent + Datatypes.length l)%nat /\ data_size out = data_size sent + files_size l /\ Forall (copied past') out).
Proof.
  revert sent past. induction l as [|e l IH]; intros sent past Hs; cbn [archive_entries].
  - intros out [= <-]. rewrite length_rev. split_and!; [cbn; lia| |by apply Forall_rev].
    cbn. clear. induction sent as [|x sent IH]; cbn [rev data_size]; [done|]. rewrite data_size_app. cbn [data_size]. lia.
  - apply wp_unit; [done| |done]. intros r0 _. apply wp_info; [done| |done]. intros current.
    destruct (sameRemoteFile (a_info e) current) eqn:Esame; cbn [negb]; [|done]. apply same_dir in Esame as [Ed Ez].
    assert (forall data past', Forall (copied past') sent -> copied past' (a_name e, data) -> len data = (if i_dir (a_info e) then 0 else i_size (a_info e)) ->
      wp (fun _ => reading) past' (archive_entries l ((a_name e, data) :: sent)) (fun past' r => forall out, r = Ok out ->
        Datatypes.length out = (Datatypes.length sent + Datatypes.length (e :: l))%nat /\ data_size out = data_size sent + files_size (e :: l) /\
        Forall (copied past') out)) as Hnext.
    { intros data past' Hs' Hc Hlen. eapply wp_mono; [apply IH; by constructor|]. intros past'' r Hr out Hout. destruct (Hr out Hout) as (H1 & H2 & H3).
      cbn [data_size files_size Datatypes.length snd] in *. split_and!; [lia|lia|done]. }
    rewrite <- Ed. destruct (i_dir (a_info e)) eqn:Edir.
    + apply Hnext; [|by left|done]. eapply Forall_impl; [exact Hs|]. intros x Hx. rewrite <- app_assoc. by apply copied_mono.
    + apply wp_unit; [done| |done]. intros r1 _. apply wp_info; [done| |].
      2: { intros e' r' _. cbn [negb]. split; [done|]. done. }
      intros o. destruct (sameRemoteFile current o); cbn [negb]; [|done]. split; [done|]. intros rd. split; [done|]. intros after. split; [done|]. intros closed.
      destruct rd as [e0| |?|?|data m|?]; [done|by destruct after; try done; destruct closed..| |by destruct after; try done; destruct closed].
      destruct after as [e0| |a|?|? ?|?]; try (done || by destruct closed). destruct closed; try done;
        (destruct (negb (len data =? i_size current) || _) eqn:E; [done|]; bools; apply Hnext;
         [eapply Forall_impl; [exact Hs|]; intros x Hx; rewrite <- !app_assoc; by apply copied_mono
         |right; exists (a_path e), current, a, m; cbn [snd]; split_and!; [in_past|in_past|in_past|done|lia]
         |cbn; lia]).
Qed.

(** An archive is bounded and reads only.
    Whatever the server answers, making an archive changes nothing there; one that is complete
    has at most two thousand entries and 64 MiB of files, and each file in it was read in one
    piece, of the size it was seen with before and after. *)
Theorem archive_bounded path begin prog : Archive path begin = Ok prog ->
  forall answers tr r, play prog answers 0 = (tr, r) ->
    (forall c reply, (c, reply) ∈ tr -> reading c) /\
    forall name sent, r = Ok (name, sent) ->
      Z.of_nat (Datatypes.length sent) <= sftpEntryLimit /\ data_size sent <= MaxSFTPFileBytes /\ Forall (copied tr) sent.
Proof.
  unfold Archive. destruct (remotePath path) as [p|]; [|done]. intros [= <-] answers tr r Hplay.
  set (post := fun past (r : result sftp_err (string * list (string * string))) => forall name sent, r = Ok (name, sent) ->
      Z.of_nat (Datatypes.length sent) <= sftpEntryLimit /\ data_size sent <= MaxSFTPFileBytes /\ Forall (copied past) sent).
  assert (wp (fun _ => reading) [] (archive_body p begin) post) as Hwp.
  { unfold archive_body. apply wp_info; [done| |done]. intros i. destruct (i_dir i) eqn:Ed; cbn [negb]; [|done]. split; [done|]. intros [e| |?|root|? ?|?]; try done.
    apply wp_andThen. eapply wp_mono; [apply wp_scan|].
    - unfold manifest_ok. cbn [m_entries m_total Datatypes.length files_size a_info]. rewrite Ed. split_and!; [vm_compute; done|done|vm_compute; done].
    - intros past' [m|e] Hk; [|done]. destruct begin; cbn [negb]; [|done]. destruct (Hk m eq_refl) as (H1 & H2 & H3).
      apply wp_andThen. eapply wp_mono; [by apply (wp_archive_entries _ [])|]. intros past'' [out|e] Hr; [|done]. intros name sent [= _ <-].
      destruct (Hr out eq_refl) as (Hl & Hd & Hc). rewrite length_rev in Hl. rewrite files_size_rev in Hd. cbn in Hl, Hd.
      split_and!; [lia|lia|]. eapply Forall_impl; [exact Hc|]. done. }
  destruct (wp_play _ _ _ answers [] 0 tr r Hwp Hplay) as [Hpost Hall]. split; [|exact Hpost].
  intros c reply (before & after & E)%list_elem_of_split. by apply (Hall before c reply after).
Qed.

(** ** A concrete archive *)

Definition demo_dir : file_info := MkInfo 4096 (ModeDir + 493) 7.
Definition demo_file : file_info := MkInfo 2 420 8.
Definition demo_link : file_info := MkInfo 9 (ModeSymlink + 511) 8.
Definition demo_answers (n : nat) : reply :=
  match n with
  | 0%nat | 5%nat => Info demo_dir
  | 1%nat => Resolved "/srv/d"
  | 3%nat => Names [("a.txt", demo_file); ("link", demo_link)]
  | 7%nat | 9%nat | 11%nat => Info demo_file
  | 10%nat => Bytes "hi" false
  | _ => Done
  end.
Definition demo_archive : op (string * list (string * string)) := archive_body "/srv/d" true.

Lemma demo_archive_ok : Archive "/srv//d/" true = Ok demo_archive.
Proof. unfold Archive. assert (remotePath "/srv//d/" = Ok "/srv/d") as -> by (vm_compute; reflexivity). done. Qed.

Lemma archive_bounded_witness :
  (play demo_archive demo_answers 0).2 = Ok ("d.zip", [("d/", ""); ("d/a.txt", "hi")]) /\
  forall answers tr r, play demo_archive answers 0 = (tr, r) ->
    (forall c reply, (c, reply) ∈ tr -> reading c) /\
    forall name sent, r = Ok (name, sent) ->
      Z.of_nat (Datatypes.length sent) <= sftpEntryLimit /\ data_size sent <= MaxSFTPFileBytes /\ Forall (copied tr) sent.
Proof. split; [vm_compute; reflexivity|]. apply (archive_bounded "/srv//d/" true demo_archive), demo_archive_ok. Defined.

(** The names of the entries are checked, the name of the root, which the server chooses, is
    not: a server that answers [..] gives an archive of files outside the directory it is
    unpacked in. *)
Example archive_escapes :
  let answers n := match n with 1%nat => Resolved "/.." | _ => demo_answers n end in
  (play demo_archive answers 0).2 = Ok ("...zip", [("../", ""); ("../a.txt", "hi")]).
Proof. vm_compute. reflexivity. Qed.
