(* ===== verification/UpdateCheck.v ===== *)
(** * Checks for a new release

    [update/checker.go]: the pattern of release tags, the comparison of versions, the status
    kept of the last answer of GitHub, and when to ask again.  The JSON decoder, the parser of
    HTTP dates and the answers are arbitrary. *)

From S2P Require Import Prelude GoStrings.

(** ** Tags *)

Definition is_dec (a : ascii) : bool := (48 <=? nat_of_ascii a)%nat && (nat_of_ascii a <=? 57)%nat.
(** [0|[1-9][0-9]*] *)
Definition is_number (s : string) : bool :=
  match s with
  | "" => false
  | String a r => all_bytes is_dec s && (negb (Ascii.eqb a "0") || bool_decide (r = ""))
  end.
Record tag := MkTag { t_major : string; t_minor : string; t_patch : string; t_kind : string }.
(** [tagPattern.FindStringSubmatch]: the groups 1 to 4. *)
Definition tag_core (core kind : string) : option tag :=
  match split_on "." core with
  | [a; b; c] => if is_number a && is_number b && is_number c then Some (MkTag a b c kind) else None
  | _ => None
  end.
Definition FindStringSubmatch (s : string) : option tag :=
  match s with
  | String "v" rest =>
      match split_on "-" rest with
      | [core] => tag_core core ""
      | [core; suffix] =>
          match split_on "." suffix with
          | [kind; n] => if bool_decide (kind ∈ ["rc"; "test"]) && is_number n && negb (bool_decide (n = "0")) then tag_core core kind else None
          | _ => None
          end
      | _ => None
      end
  | _ => None
  end.

(** The parts of two versions in turn; [supersedes]: the answer when all are the same. *)
Fixpoint compare_parts (supersedes : bool) (l : list (string * string)) : bool :=
  match l with
  | [] => supersedes
  | (x, y) :: l =>
      if negb (len x =? len y) then len y <? len x
      else match String.compare x y with Eq => compare_parts supersedes l | Gt => true | Lt => false end
  end.
Definition newerStable (latest current : string) : bool :=
  match FindStringSubmatch latest, FindStringSubmatch current with
  | Some a, Some b =>
      if negb (bool_decide (t_kind a = "")) then false
      else compare_parts (negb (bool_decide (t_kind b = ""))) [(t_major a, t_major b); (t_minor a, t_minor b); (t_patch a, t_patch b)]
  | _, _ => false
  end.

Example newer :
  (newerStable "v1.10.0" "v1.9.9", newerStable "v1.0.0" "v1.0.0-rc.2", newerStable "v1.0.0" "v1.0.0", newerStable "v1.0.1-rc.1" "v1.0.0",
   newerStable "v1.0.0" "1234abc", newerStable "v01.0.0" "v0.9.0", newerStable "v99999999999999999999999.0.0" "v10.0.0", newerStable "v1.0.0" "v2.0.0-test.1") =
  (true, true, false, false, false, false, true, false).
Proof. vm_compute. reflexivity. Qed.

(** ** The status *)

Definition Interval : duration := 6 * Hour.
Definition releasePage : string := "https://github.com/molicherry/Talus/releases/tag/".
Record Release := MkRelease { r_version : string; r_published : time; r_notes : string; r_url : string }.
Record Status := MkStatus { s_current : string; s_latest : option Release; s_available : bool; s_checked : option time }.
Record Checker := MkChecker { c_status : Status; c_etag : string }.
Definition NewChecker (version : string) : Checker := MkChecker (MkStatus version None false None) "".

Definition Snapshot (c : Checker) : Status :=
  let s := c_status c in
  MkStatus (s_current s)
    ((fun r => if s_available s then r else MkRelease (r_version r) (r_published r) "" (r_url r)) <$> s_latest s)
    (s_available s) (s_checked s).

(** The fields of GitHub's answer. *)
Record feed := MkFeed { f_tag : string; f_draft : bool; f_prerelease : bool; f_published : time; f_body : string }.
(** An answer: its status, its headers by name, and its body, with whether reading ends with an error. *)
Record response := MkResponse { p_status : Z; p_header : string -> string; p_body : string; p_broken : bool }.
Inductive check_err := RequestFailed | NotCached | BadStatus (status : Z) | RateLimited (status : Z) (retryAfter : duration)
                     | BodyFailed | BodyTooLarge | NotJSON | InvalidRelease.

Section checking.
Context (parse_http_time : string -> option time) (unmarshal : string -> option feed).

(** [time.Unix]: the seconds since year 1 are an [int64]. *)
Definition unixToInternal : Z := 62135596800.
Definition time_unix (seconds : Z) : time := wrap64 (seconds + unixToInternal) * Second.
Definition rateLimitDelay (header : string -> string) (now : time) : duration :=
  let by_date := match parse_http_time (header "Retry-After") with
                 | Some date => if After date now then TimeSub date now else 0
                 | None => 0
                 end in
  let delay := match ParseInt 32 (header "Retry-After") with
               | Some seconds => if 0 <? seconds then seconds * Second else by_date
               | None => by_date
               end in
  if bool_decide (header "X-RateLimit-Remaining" = "0")
  then match ParseInt 64 (header "X-RateLimit-Reset") with
       | Some reset => let until := TimeSub (time_unix reset) now in if delay <? until then until else delay
       | None => delay
       end
  else delay.

Definition maxBody : Z := Z.shiftl 1 20.
Definition read_body (r : response) : result check_err string :=
  if p_broken r && (len (p_body r) <=? maxBody) then Err BodyFailed
  else if maxBody <? len (p_body r) then Err BodyTooLarge else Ok (p_body r).
(** [check]; [answer] is [None] when the request fails. *)
Definition check (c : Checker) (answer : option response) (checked : time) : Checker * option check_err :=
  match answer with
  | None => (c, Some RequestFailed)
  | Some r =>
      let s := c_status c in
      if p_status r =? 304
      then if bool_decide (c_etag c = "") then (c, Some NotCached)
           else (MkChecker (MkStatus (s_current s) (s_latest s) (s_available s) (Some checked)) (c_etag c), None)
      else if p_status r =? 404 then (MkChecker (MkStatus (s_current s) None false (Some checked)) "", None)
      else if p_status r =? 200
      then match read_body r with
           | Err e => (c, Some e)
           | Ok body =>
               match unmarshal body with
               | None => (c, Some NotJSON)
               | Some f =>
                   match FindStringSubmatch (f_tag f) with
                   | Some t =>
                       if negb (bool_decide (t_kind t = "")) || f_draft f || f_prerelease f || IsZero (f_published f) then (c, Some InvalidRelease)
                       else (MkChecker (MkStatus (s_current s)
                                          (Some (MkRelease (f_tag f) (f_published f) (f_body f) (releasePage +:+ f_tag f)))
                                          (newerStable (f_tag f) (s_current s)) (Some checked)) (p_header r "ETag"), None)
                   | None => (c, Some InvalidRelease)
                   end
               end
           end
      else if (p_status r =? 429) || (p_status r =? 403)
      then (c, Some (RateLimited (p_status r) (rateLimitDelay (p_header r) checked)))
      else (c, Some (BadStatus (p_status r)))
  end.

(** ** The loop *)

Definition retryDelay (failures : Z) : duration :=
  if failures =? 1 then 5 * Minute else if failures =? 2 then 15 * Minute else if failures =? 3 then 30 * Minute else Hour.
(** One turn of [Run]: the failures in a row, and the pause. *)
Definition turn (c : Checker) (failures : Z) (answer : option response) (now : time) : Checker * Z * duration :=
  match check c answer now with
  | (c, None) => (c, 0, Interval)
  | (c, Some e) =>
      let failures := failures + 1 in
      let delay := retryDelay failures in
      (c, failures, match e with RateLimited _ after => if delay <? after then after else delay | _ => delay end)
  end.
Fixpoint turns (c : Checker) (failures : Z) (l : list (option response * time)) : Checker * list duration :=
  match l with
  | [] => (c, [])
  | (answer, now) :: l =>
      let '(c, failures, delay) := turn c failures answer now in
      let '(c, delays) := turns c failures l in (c, delay :: delays)
  end.
(** [Run] against the answers: nothing is asked without a comparable version. *)
Definition Run (c : Checker) (l : list (option response * time)) : Checker * list duration :=
  match FindStringSubmatch (s_current (c_status c)) with None => (c, []) | Some _ => turns c 0 l end.
End checking.

(** [handler/update.go]: [None] is the answer 304, otherwise the status is sent with the tag.
    [body]: the JSON of the status, [sha256]: the hexadecimal digest. *)
Definition trim_weak (s : string) : string := match s with String "W" (String "/" r) => r | _ => s end.
Definition not_modified (etag ifNoneMatch : string) : bool :=
  existsb (fun c => let c := TrimSpace c in bool_decide (c = "*") || bool_decide (trim_weak c = etag)) (split_on "," ifNoneMatch).
Definition UpdateHandler (sha256 : string -> string) (body : Status -> string) (c : Checker) (ifNoneMatch : string) : option (string * Status) :=
  let status := Snapshot c in
  let etag := String (byte 34) (sha256 (body status) +:+ String (byte 34) "") in
  if not_modified etag ifNoneMatch then None else Some (etag, status).

(** ** Versions are compared as numbers *)

Definition digit_value (a : ascii) : Z := Z.of_nat (nat_of_ascii a) - 48.
Fixpoint number (s : string) : Z :=
  match s with "" => 0 | String a r => digit_value a * 10 ^ len r + number r end.

Lemma len_cons a r : len (String a r) = len r + 1.
Proof. unfold len. cbn [String.length]. lia. Qed.
Lemma len_nonneg s : 0 <= len s.
Proof. unfold len. lia. Qed.
Lemma digit_value_bound a : is_dec a = true -> 0 <= digit_value a <= 9.
Proof. unfold is_dec, digit_value. intros H. apply andb_true_iff in H as [?%Nat.leb_le ?%Nat.leb_le]. lia. Qed.
Lemma number_bound s : all_bytes is_dec s = true -> 0 <= number s < 10 ^ len s.
Proof.
  induction s as [|a r IH]; cbn [all_bytes number]; intros H; [done|]. bools. specialize (IH ltac:(done)).
  pose proof (digit_value_bound a ltac:(done)). rewrite len_cons, Z.pow_add_r by (pose proof (len_nonneg r); lia). nia.
Qed.
(** A number of more digits is greater. *)
Lemma number_lead s : is_number s = true -> s <> "0" -> 10 ^ (len s - 1) <= number s.
Proof.
  destruct s as [|a r]; [done|]. cbn [is_number all_bytes]. intros H H0. bools. pose proof (number_bound r ltac:(done)).
  pose proof (digit_value_bound a ltac:(done)). cbn [number]. rewrite len_cons. replace (len r + 1 - 1) with (len r) by lia.
  assert (digit_value a <> 0) as Ha.
  { intros Hz. assert (a = "0"%char) as ->.
    { rewrite <- (ascii_nat_embedding a). replace (nat_of_ascii a) with 48%nat by (unfold digit_value in Hz; lia). done. }
    match goal with E : _ \/ _ |- _ => destruct E as [E|E]; [done|] end. bools. by subst r. }
  pose proof (Z.pow_nonneg 10 (len r)). nia.
Qed.
Lemma is_number_digits s : is_number s = true -> all_bytes is_dec s = true /\ 1 <= len s.
Proof. destruct s as [|a r]; [done|]. cbn [is_number]. intros H. bools. split; [done|]. rewrite len_cons. pose proof (len_nonneg r). lia. Qed.
Lemma longer_is_greater x y : is_number x = true -> is_number y = true -> len x < len y -> number x < number y.
Proof.
  intros Hx Hy Hl. destruct (is_number_digits x Hx) as [Dx ?], (is_number_digits y Hy) as [Dy ?]. pose proof (number_bound x Dx).
  assert (y <> "0") as Hz0 by (intros ->; unfold len in Hl; cbn in Hl; unfold len in *; lia).
  pose proof (number_lead y Hy Hz0). assert (10 ^ len x <= 10 ^ (len y - 1)) by (apply Z.pow_le_mono_r; lia). lia.
Qed.

Lemma ascii_compare_digits a b : Ascii.compare a b = Z.compare (digit_value a) (digit_value b).
Proof.
  unfold Ascii.compare, digit_value, nat_of_ascii. rewrite <- N2Z.inj_compare. rewrite !N_nat_Z.
  destruct (Z.compare_spec (Z.of_N (N_of_ascii a)) (Z.of_N (N_of_ascii b))); symmetry; [apply Z.compare_eq_iff|apply Z.compare_lt_iff|apply Z.compare_gt_iff]; lia.
Qed.
Lemma compare_same_length x y : all_bytes is_dec x = true -> all_bytes is_dec y = true -> len x = len y ->
  String.compare x y = Z.compare (number x) (number y).
Proof.
  revert y. induction x as [|a r IH]; intros [|b q] Hx Hy Hl; [done|by unfold len in Hl; cbn in Hl|by unfold len in Hl; cbn in Hl|].
  rewrite !len_cons in Hl.
  cbn [all_bytes] in Hx, Hy. bools. assert (len r = len q) as El by lia. cbn [String.compare number].
  rewrite (IH q) by done. rewrite ascii_compare_digits. pose proof (number_bound r ltac:(done)). pose proof (number_bound q ltac:(done)). rewrite El in *.
  destruct (Z.compare_spec (digit_value a) (digit_value b)) as [E|E|E].
  - rewrite E. symmetry. destruct (Z.compare_spec (number r) (number q)); [apply Z.compare_eq_iff|apply Z.compare_lt_iff|apply Z.compare_gt_iff]; lia.
  - symmetry. apply Z.compare_lt_iff. nia.
  - symmetry. apply Z.compare_gt_iff. nia.
Qed.

(** The lexicographic order of pairs of numbers. *)
Fixpoint greater (supersedes : Prop) (l : list (Z * Z)) : Prop :=
  match l with [] => supersedes | (x, y) :: l => y < x \/ x = y /\ greater supersedes l end.
Lemma compare_parts_spec supersedes l : Forall (fun xy => is_number xy.1 = true /\ is_number xy.2 = true) l ->
  compare_parts supersedes l = true <-> greater (supersedes = true) (map (fun xy => (number xy.1, number xy.2)) l).
Proof.
  induction 1 as [|[x y] l [Hx Hy] _ IH]; cbn [compare_parts map greater]; [done|]. cbn [fst snd] in *.
  destruct (is_number_digits x Hx) as [Dx _], (is_number_digits y Hy) as [Dy _]. destruct (len x =? len y) eqn:El; cbn [negb].
  - apply Z.eqb_eq in El. rewrite (compare_same_length x y Dx Dy El).
    destruct (Z.compare_spec (number x) (number y)) as [E|E|E]; rewrite ?IH; split; intros Hc; try done; try lia; try tauto.
    all: try (destruct Hc as [Hc|[Hc ?]]; [lia|done || lia]). all: by left.
  - apply Z.eqb_neq in El. destruct (Z.ltb_spec (len y) (len x)).
    + pose proof (longer_is_greater y x Hy Hx ltac:(done)). split; [by left|done].
    + pose proof (longer_is_greater x y Hx Hy ltac:(lia)). split; [done|]. intros [?|[? _]]; lia.
Qed.

Lemma tag_core_numbers core kind t : tag_core core kind = Some t ->
  is_number (t_major t) = true /\ is_number (t_minor t) = true /\ is_number (t_patch t) = true /\ t_kind t = kind.
Proof. unfold tag_core. repeat case_match; try done. intros [= <-]. bools. done. Qed.
Lemma tag_numbers s t : FindStringSubmatch s = Some t -> is_number (t_major t) = true /\ is_number (t_minor t) = true /\ is_number (t_patch t) = true.
Proof. unfold FindStringSubmatch. repeat case_match; try done; intros H'; apply tag_core_numbers in H' as (? & ? & ? & _); done. Qed.

(** The comparison of the code -- lengths, then bytes -- is the numeric order of versions of
    any size, in which a stable release comes after the pre-releases of its version; nothing
    is newer when one of the texts is no tag or the latest is a pre-release. *)
Theorem newerStable_spec latest current :
  newerStable latest current = true <->
  exists a b, FindStringSubmatch latest = Some a /\ FindStringSubmatch current = Some b /\ t_kind a = "" /\
    greater (t_kind b <> "") [(number (t_major a), number (t_major b)); (number (t_minor a), number (t_minor b)); (number (t_patch a), number (t_patch b))].
Proof.
  unfold newerStable. destruct (FindStringSubmatch latest) as [a|] eqn:Ea; [|split; [done|by intros (? & ? & ? & _)]].
  destruct (FindStringSubmatch current) as [b|] eqn:Eb; [|split; [done|by intros (? & ? & ? & ? & _)]].
  destruct (tag_numbers _ _ Ea) as (? & ? & ?), (tag_numbers _ _ Eb) as (? & ? & ?).
  case_bool_decide as Ek; cbn [negb].
  2: { split; [done|]. intros (? & ? & [= <-] & _ & ? & _). done. }
  rewrite compare_parts_spec by (repeat constructor; done). cbn [map fst snd greater].
  assert (negb (bool_decide (t_kind b = "")) = true <-> t_kind b <> "") as Hk by (rewrite negb_true_iff; apply bool_decide_eq_false).
  rewrite Hk. split; [intros H'; by exists a, b|]. by intros (? & ? & [= <-] & [= <-] & _ & H').
Qed.

(** ** The status is that of the last good answer *)

(** An update is announced exactly for a stable release newer than the running version; an
    entity tag is kept only with a release. *)
Definition status_ok (version : string) (c : Checker) : Prop :=
  let s := c_status c in
  s_current s = version /\
  match s_latest s with
  | Some r => s_available s = newerStable (r_version r) version /\ r_url r = releasePage +:+ r_version r /\
      (exists t, FindStringSubmatch (r_version r) = Some t /\ t_kind t = "") /\ r_published r <> 0
  | None => s_available s = false /\ c_etag c = ""
  end.

Section answers.
Context (parse_http_time : string -> option time) (unmarshal : string -> option feed).
Abbreviation check := (check parse_http_time unmarshal).
Abbreviation turn := (turn parse_http_time unmarshal).
Abbreviation turns := (turns parse_http_time unmarshal).

Lemma check_sound version c answer now c' e : status_ok version c -> check c answer now = (c', e) ->
  status_ok version c' /\ (e <> None -> c' = c) /\ (e = None -> s_checked (c_status c') = Some now).
Proof.
  intros Hok. unfold check. destruct answer as [r|]; [|by intros [= <- <-]].
  destruct (p_status r =? 304).
  { case_bool_decide; intros [= <- <-]; [done|]. split_and!; [|done|done]. unfold status_ok in *. cbn. done. }
  destruct (p_status r =? 404).
  { intros [= <- <-]. split_and!; [|done|done]. destruct Hok as [Hv _]. by split. }
  destruct (p_status r =? 200); [|by destruct (_ || _); intros [= <- <-]].
  destruct (read_body r) as [body|]; [|by intros [= <- <-]]. destruct (unmarshal body) as [f|]; [|by intros [= <- <-]].
  destruct (FindStringSubmatch (f_tag f)) as [t|] eqn:Et; [|by intros [= <- <-]]. destruct (_ || _) eqn:E; [by intros [= <- <-]|].
  intros [= <- <-]. split_and!; [|done|done]. destruct Hok as [Hv _]. unfold status_ok. cbn. rewrite Hv. bools. split_and!; try done. by exists t.
Qed.

Lemma retryDelay_bound n : 5 * Minute <= retryDelay n <= Hour.
Proof. unfold retryDelay. repeat case_match; vm_compute; split; done. Qed.

Lemma turn_pause c failures answer now c' n delay : turn c failures answer now = (c', n, delay) ->
  5 * Minute <= delay /\ (forall st after, (check c answer now).2 = Some (RateLimited st after) -> after <= delay) /\
  ((check c answer now).2 = None -> delay = Interval).
Proof.
  unfold turn. destruct (check c answer now) as [c1 [e|]]; cbn; intros [= <- <- <-].
  - pose proof (retryDelay_bound (failures + 1)). split_and!; [|intros st after [= ->]|done].
    + destruct e; try lia. destruct (_ <? _) eqn:E; [apply Z.ltb_lt in E|]; lia.
    + destruct (_ <? _) eqn:E; [lia|apply Z.ltb_ge in E; lia].
  - split_and!; [vm_compute; done|done|done].
Qed.

(** Whatever GitHub answers, the status always describes the last good answer, the next
    question is never asked within five minutes, and a version without a tag asks none. *)
Theorem checker_sound version l c delays : Run parse_http_time unmarshal (NewChecker version) l = (c, delays) ->
  status_ok version c /\ Forall (fun d => 5 * Minute <= d) delays /\ (FindStringSubmatch version = None -> delays = [] /\ c = NewChecker version).
Proof.
  assert (forall l c failures c' delays, status_ok version c -> turns c failures l = (c', delays) ->
    status_ok version c' /\ Forall (fun d => 5 * Minute <= d) delays) as Hturns.
  { clear. intros l. induction l as [|[answer now] l IH]; intros c failures c' delays Hok; cbn [UpdateCheck.turns]; [by intros [= <- <-]|].
    destruct (turn c failures answer now) as [[c1 n] delay] eqn:Et. destruct (turns c1 n l) as [c2 ds] eqn:Es. intros [= <- <-].
    assert (status_ok version c1) as Hok1.
    { unfold turn in Et. destruct (check c answer now) as [c0 e] eqn:Ec. destruct (check_sound _ _ _ _ _ _ Hok Ec) as [H _].
      destruct e; by injection Et as <- <- <-. }
    destruct (IH _ _ _ _ Hok1 Es) as [H1 H2]. split; [done|]. constructor; [|done]. by apply turn_pause in Et as [? _]. }
  unfold Run. cbn [c_status NewChecker s_current].
  assert (status_ok version (NewChecker version)) as Hnew by done.
  destruct (FindStringSubmatch version); intros H.
  - destruct (Hturns _ _ _ _ _ Hnew H). done.
  - injection H as <- <-. done.
Qed.
End answers.

(** The notes of a release are shown only with an update; nothing else is changed. *)
Lemma snapshot_hides_notes c r : s_latest (Snapshot c) = Some r ->
  exists r', s_latest (c_status c) = Some r' /\ r_version r = r_version r' /\ r_notes r = (if s_available (c_status c) then r_notes r' else "").
Proof.
  unfold Snapshot. cbn. destruct (s_latest (c_status c)) as [r'|]; [|done]. cbn. intros [= <-]. exists r'. by destruct (s_available (c_status c)).
Qed.

(** A limit that ends at second 4000 of the epoch, asked at second 40. *)
Example limited :
  let header name := if bool_decide (name = "X-RateLimit-Remaining") then "0" else if bool_decide (name = "X-RateLimit-Reset") then "4000" else "" in
  (turn (fun _ => None) (fun _ => None) (NewChecker "v1.0.0") 0 (Some (MkResponse 429 header "" false)) ((unixToInternal + 40) * Second)).2 = 3960 * Second /\
  (turn (fun _ => None) (fun _ => None) (NewChecker "v1.0.0") 2 None 0).2 = 30 * Minute.
Proof. split; vm_compute; reflexivity. Qed.
