(* ===== verification/Settings.v ===== *)
(** * Configuration

    [config/config.go] and [config/settings.go]: the configuration read from the environment,
    its validation, the settings an administrator may override, and the merge of overrides
    into a deployment's configuration.  The decoder of JSON strings and [url.Parse] are
    parameters. *)

From S2P Require Import Prelude GoStrings Wire.

(** ** The configuration *)

(** The fields that a setting can change, ... *)
Record Values := MkValues {
  AgentHubURL : string; MonitorInterval : Z; AgentAllowHTTP : bool; SSHTimeout : Z; SSHMaxIdle : Z; ExecTimeout : Z; ExecTimeoutMax : Z;
  ExecOutputLimit : Z; ExecOutputStreamLimit : Z; UsageRetentionDays : Z; UsageSensitiveRetentionDays : Z;
  MetricsRetentionEnabled : bool; MetricsRetentionDryRun : bool; LoginRateLimit : Z; LogLevel : string; LogFormat : string;
  DBMaxOpenConnections : Z; UsageWriteConcurrency : Z; UsageActiveLimit : Z }.
(** ... those of the deployment alone, ... *)
Record Deployment := MkDeployment {
  DatabaseURL : string; MasterKey : string; JWTSecret : string; BootstrapToken : string; Port : string; AgentArtifactsDir : string;
  MonitorToleratedRounds : Z; MonitorAllowedLatency : Z; TrustProxy : bool; UsageLegacyWritersDrained : bool;
  SettingsIgnoreInvalidOverrides : bool; settingsRecoveryParseError : bool }.
(** ... and the variables that were set, the switches that could not be parsed, and those
    whose error still counts. *)
Record Config := MkConfig {
  values : Values; deployment : Deployment; Environment : gset string;
  metricsRetentionParseErrors : gset string; MetricsRetentionParseError : gset string }.

Inductive settings_err := Invalid (key : string) | ParseErrors (keys : gset string).

(** ** Settings *)

Inductive kind := KString | KBool | KInt.
Inductive apply := Live | Restart.                      (* "restart", or one of the others *)
Record Setting := MkSetting { s_key : string; s_field : string; s_kind : kind; s_apply : apply; s_min : Z; s_max : Z; s_choices : list string }.
Definition Settings : list Setting := [
  MkSetting "AGENT_HUB_URL" "AgentHubURL" KString Live 0 0 [];
  MkSetting "MONITOR_INTERVAL" "MonitorInterval" KInt Live 1 60 [];
  MkSetting "AGENT_ALLOW_HTTP" "AgentAllowHTTP" KBool Live 0 0 [];
  MkSetting "SSH_TIMEOUT" "SSHTimeout" KInt Live 1 300 [];
  MkSetting "SSH_MAX_IDLE" "SSHMaxIdle" KInt Live 1 86400 [];
  MkSetting "EXEC_TIMEOUT" "ExecTimeout" KInt Live 1 300 [];
  MkSetting "EXEC_TIMEOUT_MAX" "ExecTimeoutMax" KInt Live 1 300 [];
  MkSetting "EXEC_OUTPUT_LIMIT" "ExecOutputLimit" KInt Live 1 8388608 [];
  MkSetting "EXEC_OUTPUT_STREAM_LIMIT" "ExecOutputStreamLimit" KInt Live 1 4194304 [];
  MkSetting "USAGE_LOG_RETENTION_DAYS" "UsageRetentionDays" KInt Live 1 36500 [];
  MkSetting "USAGE_LOG_SENSITIVE_RETENTION_DAYS" "UsageSensitiveRetentionDays" KInt Live 1 36500 [];
  MkSetting "METRICS_RETENTION_ENABLED" "MetricsRetentionEnabled" KBool Live 0 0 [];
  MkSetting "METRICS_RETENTION_DRY_RUN" "MetricsRetentionDryRun" KBool Live 0 0 [];
  MkSetting "LOGIN_RATE_LIMIT" "LoginRateLimit" KInt Live 1 10000 [];
  MkSetting "LOG_LEVEL" "LogLevel" KString Live 0 0 ["debug"; "info"; "warn"; "error"];
  MkSetting "LOG_FORMAT" "LogFormat" KString Live 0 0 ["json"; "text"];
  MkSetting "DB_MAX_OPEN_CONNECTIONS" "DBMaxOpenConnections" KInt Restart 12 10000 [];
  MkSetting "USAGE_LOG_WRITE_CONCURRENCY" "UsageWriteConcurrency" KInt Restart 1 10000 [];
  MkSetting "USAGE_LOG_ACTIVE_LIMIT" "UsageActiveLimit" KInt Restart 1 1000000 []].
Definition find_setting (key : string) : option Setting := List.find (fun d => bool_decide (s_key d = key)) Settings.

(** [reflect.Value]: the fields by their names. *)
Inductive value := VString (s : string) | VBool (b : bool) | VInt (z : Z).
#[export] Instance value_eq_dec : EqDecision value.
Proof. solve_decision. Defined.
Section reflection.
Context (field : string) (v : value).
Definition put_string (name old : string) : string := if bool_decide (field = name) then match v with VString s => s | _ => old end else old.
Definition put_bool (name : string) (old : bool) : bool := if bool_decide (field = name) then match v with VBool b => b | _ => old end else old.
Definition put_int (name : string) (old : Z) : Z := if bool_decide (field = name) then match v with VInt z => z | _ => old end else old.
Definition set_field (c : Values) : Values := MkValues
  (put_string "AgentHubURL" (AgentHubURL c)) (put_int "MonitorInterval" (MonitorInterval c)) (put_bool "AgentAllowHTTP" (AgentAllowHTTP c))
  (put_int "SSHTimeout" (SSHTimeout c)) (put_int "SSHMaxIdle" (SSHMaxIdle c)) (put_int "ExecTimeout" (ExecTimeout c))
  (put_int "ExecTimeoutMax" (ExecTimeoutMax c)) (put_int "ExecOutputLimit" (ExecOutputLimit c)) (put_int "ExecOutputStreamLimit" (ExecOutputStreamLimit c))
  (put_int "UsageRetentionDays" (UsageRetentionDays c)) (put_int "UsageSensitiveRetentionDays" (UsageSensitiveRetentionDays c))
  (put_bool "MetricsRetentionEnabled" (MetricsRetentionEnabled c)) (put_bool "MetricsRetentionDryRun" (MetricsRetentionDryRun c))
  (put_int "LoginRateLimit" (LoginRateLimit c)) (put_string "LogLevel" (LogLevel c)) (put_string "LogFormat" (LogFormat c))
  (put_int "DBMaxOpenConnections" (DBMaxOpenConnections c)) (put_int "UsageWriteConcurrency" (UsageWriteConcurrency c))
  (put_int "UsageActiveLimit" (UsageActiveLimit c)).
End reflection.
Definition fields (c : Values) : list (string * value) := [
  ("AgentHubURL", VString (AgentHubURL c)); ("MonitorInterval", VInt (MonitorInterval c)); ("AgentAllowHTTP", VBool (AgentAllowHTTP c));
  ("SSHTimeout", VInt (SSHTimeout c)); ("SSHMaxIdle", VInt (SSHMaxIdle c)); ("ExecTimeout", VInt (ExecTimeout c));
  ("ExecTimeoutMax", VInt (ExecTimeoutMax c)); ("ExecOutputLimit", VInt (ExecOutputLimit c)); ("ExecOutputStreamLimit", VInt (ExecOutputStreamLimit c));
  ("UsageRetentionDays", VInt (UsageRetentionDays c)); ("UsageSensitiveRetentionDays", VInt (UsageSensitiveRetentionDays c));
  ("MetricsRetentionEnabled", VBool (MetricsRetentionEnabled c)); ("MetricsRetentionDryRun", VBool (MetricsRetentionDryRun c));
  ("LoginRateLimit", VInt (LoginRateLimit c)); ("LogLevel", VString (LogLevel c)); ("LogFormat", VString (LogFormat c));
  ("DBMaxOpenConnections", VInt (DBMaxOpenConnections c)); ("UsageWriteConcurrency", VInt (UsageWriteConcurrency c));
  ("UsageActiveLimit", VInt (UsageActiveLimit c))].
Definition get_field (field : string) (c : Values) : value :=
  match List.find (fun kv => bool_decide (kv.1 = field)) (fields c) with Some kv => kv.2 | None => VString "" end.
Definition SettingValue (c : Config) (d : Setting) : value := get_field (s_field d) (values c).

(** ** Validation *)

Definition ValidateDeployment (c : Config) : option settings_err :=
  let d := deployment c in
  if negb (bool_decide (BootstrapToken d = "")) && ((len (BootstrapToken d) <? 32) || (256 <? len (BootstrapToken d))) then Some (Invalid "BOOTSTRAP_TOKEN")
  else if negb (bool_decide (BootstrapToken d = "")) && (bool_decide (BootstrapToken d = JWTSecret d) || bool_decide (BootstrapToken d = MasterKey d))
  then Some (Invalid "BOOTSTRAP_TOKEN")
  else if settingsRecoveryParseError d then Some (Invalid "SYSTEM_SETTINGS_IGNORE_INVALID_OVERRIDES")
  else if MonitorToleratedRounds d <? 0 then Some (Invalid "MONITOR_TOLERATED_ROUNDS")
  else if MonitorAllowedLatency d <? 0 then Some (Invalid "MONITOR_ALLOWED_LATENCY_SECONDS")
  else None.

Fixpoint repeat_string (n : nat) (s : string) : string := match n with 0%nat => "" | S n => s +:+ repeat_string n s end.

Section config.
(** [url.Parse], and the decoder of a JSON string. *)
Context (Parse : string -> option URL) (unquote : string -> option string).

Definition ValidateValues (v : Values) (errors : gset string) : option settings_err :=
  let wire := mkConfig (AgentHubURL v) (repeat_string 64 "0") "/configured-at-install" (MonitorInterval v) (AgentAllowHTTP v) in
  if MonitorInterval v <=? 0 then Some (Invalid "MONITOR_INTERVAL")
  else if negb (bool_decide (AgentHubURL v = "")) && negb (is_ok (Config_Validate Parse wire)) then Some (Invalid "AGENT_HUB_URL")
  else if negb (bool_decide (errors = ∅)) then Some (ParseErrors errors)
  else if ExecTimeout v <=? 0 then Some (Invalid "EXEC_TIMEOUT")
  else if (ExecTimeoutMax v <=? 0) || (ExecTimeoutMax v <? ExecTimeout v) || (300 <? ExecTimeoutMax v) then Some (Invalid "EXEC_TIMEOUT_MAX")
  else if (ExecOutputLimit v <=? 0) || (Z.shiftl 8 20 <? ExecOutputLimit v) then Some (Invalid "EXEC_OUTPUT_LIMIT")
  else if (ExecOutputStreamLimit v <=? 0) || (ExecOutputLimit v <? ExecOutputStreamLimit v) || (Z.shiftl 4 20 <? ExecOutputStreamLimit v)
  then Some (Invalid "EXEC_OUTPUT_STREAM_LIMIT")
  else if SSHTimeout v <=? 0 then Some (Invalid "SSH_TIMEOUT")
  else if LoginRateLimit v <? 0 then Some (Invalid "LOGIN_RATE_LIMIT")
  else None.
Definition Validate (c : Config) : option settings_err :=
  match ValidateDeployment c with Some e => Some e | None => ValidateValues (values c) (MetricsRetentionParseError c) end.

(** ** Overrides *)

(** [json.Unmarshal] of a document into a [bool] and an [int64]; the white space of JSON. *)
Definition json_space (a : ascii) : bool := bool_decide (nat_of_ascii a ∈ [9; 10; 13; 32]%nat).
Fixpoint drop_space (l : list ascii) : list ascii := match l with a :: r => if json_space a then drop_space r else l | [] => [] end.
Definition json_trim (s : string) : string :=
  string_of_list_ascii (rev (drop_space (rev (drop_space (list_ascii_of_string s))))).
Definition json_bool (raw : string) : option bool :=
  let s := json_trim raw in if bool_decide (s = "true") then Some true else if bool_decide (s = "false") then Some false else None.
(** A number of JSON has no plus sign and no leading zero. *)
Definition json_digits (s : string) : bool := match s with String "0" r => bool_decide (r = "") | String "+" _ | String "-" _ => false | _ => true end.
Definition json_int (raw : string) : option Z :=
  let s := json_trim raw in
  if json_digits (match s with String "-" r => r | _ => s end) then ParseInt 64 s else None.

(** One override: the value it gives to the field. *)
Definition override (d : Setting) (raw : string) : result settings_err value :=
  if bool_decide (TrimSpace raw = "null") then Err (Invalid (s_key d))
  else match s_kind d with
       | KString => match unquote raw with
                    | None => Err (Invalid (s_key d))
                    | Some v =>
                        if 2048 <? len v then Err (Invalid (s_key d))
                        else let v := if bool_decide (s_key d = "AGENT_HUB_URL") then trim_right "/" (TrimSpace v) else v in
                             if negb (bool_decide (s_choices d = [])) && negb (bool_decide (v ∈ s_choices d)) then Err (Invalid (s_key d)) else Ok (VString v)
                    end
       | KBool => match json_bool raw with Some b => Ok (VBool b) | None => Err (Invalid (s_key d)) end
       | KInt => match json_int raw with
                 | Some z => if (z <? s_min d) || (s_max d <? z) then Err (Invalid (s_key d)) else Ok (VInt z)
                 | None => Err (Invalid (s_key d))
                 end
       end.
Definition merge_one (c : Values) (kv : string * string) : result settings_err Values :=
  match find_setting kv.1 with
  | None => Err (Invalid kv.1)
  | Some d => try v := override d kv.2 in Ok (set_field (s_field d) v c)
  end.
(** The loop over the map, in the order it is iterated. *)
Fixpoint merge_all (c : Values) (l : list (string * string)) : result settings_err Values :=
  match l with [] => Ok c | kv :: l => try c := merge_one c kv in merge_all c l end.
(** The errors of switches that are not overridden still count. *)
Definition remaining_errors (base : Config) (overrides : gmap string string) : gset string := metricsRetentionParseErrors base ∖ dom overrides.
Definition MergeSettings (base : Config) (overrides : gmap string string) : result settings_err Config :=
  try v := merge_all (values base) (map_to_list overrides) in
  let result := MkConfig v (deployment base) (Environment base) (metricsRetentionParseErrors base) (remaining_errors base overrides) in
  match Validate result with Some e => Err e | None => Ok result end.
End config.

(** [ApplyLive]: the sizes of the boot are kept until a restart. *)
Definition restore_field (boot : Values) (c : Values) (d : Setting) : Values :=
  match s_apply d with Restart => set_field (s_field d) (get_field (s_field d) boot) c | Live => c end.
Definition ApplyLive (desired boot : Config) : Config :=
  MkConfig (fold_left (restore_field (values boot)) Settings (values desired)) (deployment desired) (Environment desired)
    (metricsRetentionParseErrors desired) (MetricsRetentionParseError desired).

(** Metrics are deleted. *)
Definition deletes (v : Values) : bool := MetricsRetentionEnabled v && negb (MetricsRetentionDryRun v).
Definition RetentionConfirmationRequired (before after : Config) : bool :=
  let b := values before in let a := values after in
  (UsageRetentionDays a <? UsageRetentionDays b) || (UsageSensitiveRetentionDays a <? UsageSensitiveRetentionDays b) ||
  (MetricsRetentionEnabled a && negb (MetricsRetentionDryRun a) && (negb (MetricsRetentionEnabled b) || MetricsRetentionDryRun b)).

(** ** The environment *)

Section environment.
(** [os.Getenv]: the empty string when a variable is not set. *)
Context (Getenv : string -> string).

Definition ParseBool (s : string) : option bool :=
  if bool_decide (s ∈ ["1"; "t"; "T"; "true"; "TRUE"; "True"]) then Some true
  else if bool_decide (s ∈ ["0"; "f"; "F"; "false"; "FALSE"; "False"]) then Some false else None.
(** [None]: the process exits. *)
Definition requireEnv (key : string) : option string := if bool_decide (Getenv key = "") then None else Some (Getenv key).
Definition getEnvOrDefault (key default : string) : string := if bool_decide (Getenv key = "") then default else Getenv key.
Definition getEnvIntOrDefault (key : string) (def : Z) : Z :=
  if bool_decide (Getenv key = "") then def else default def (ParseInt 64 (Getenv key)).
Definition getEnvBool (key : string) : bool := if bool_decide (Getenv key = "") then false else default false (ParseBool (Getenv key)).
(** [getEnvBoolStrict]: unset, a value, or an error. *)
Inductive strict := Unset | Given (b : bool) | Malformed.
Definition getEnvBoolStrict (key : string) : strict :=
  if bool_decide (Getenv key = "") then Unset else match ParseBool (Getenv key) with Some b => Given b | None => Malformed end.
Definition strict_or (safe : bool) (s : strict) : bool := match s with Given b => b | _ => safe end.
Definition malformed (key : string) : gset string := match getEnvBoolStrict key with Malformed => {[key]} | _ => ∅ end.
Definition default_if_not_positive (def z : Z) : Z := if z <=? 0 then def else z.
Definition env_switches : list string := ["METRICS_RETENTION_ENABLED"; "METRICS_RETENTION_DRY_RUN"].

Definition load_values : Values :=
  let format := getEnvOrDefault "LOG_FORMAT" "json" in
  let level := getEnvOrDefault "LOG_LEVEL" "info" in
  MkValues (Getenv "AGENT_HUB_URL") (getEnvIntOrDefault "MONITOR_INTERVAL" 5) (getEnvBool "AGENT_ALLOW_HTTP")
    (getEnvIntOrDefault "SSH_TIMEOUT" 10) (getEnvIntOrDefault "SSH_MAX_IDLE" 300) (getEnvIntOrDefault "EXEC_TIMEOUT" 30)
    (getEnvIntOrDefault "EXEC_TIMEOUT_MAX" 300) (getEnvIntOrDefault "EXEC_OUTPUT_LIMIT" (Z.shiftl 8 20))
    (getEnvIntOrDefault "EXEC_OUTPUT_STREAM_LIMIT" (Z.shiftl 4 20))
    (default_if_not_positive 30 (getEnvIntOrDefault "USAGE_LOG_RETENTION_DAYS" 30)) (default_if_not_positive 90 (getEnvIntOrDefault "USAGE_LOG_SENSITIVE_RETENTION_DAYS" 90))
    (strict_or false (getEnvBoolStrict "METRICS_RETENTION_ENABLED")) (strict_or true (getEnvBoolStrict "METRICS_RETENTION_DRY_RUN"))
    (getEnvIntOrDefault "LOGIN_RATE_LIMIT" 10) (if bool_decide (level ∈ ["debug"; "warn"; "error"]) then level else "info")
    (if bool_decide (format = "json") then "json" else "text")
    (let n := getEnvIntOrDefault "DB_MAX_OPEN_CONNECTIONS" 32 in if n <? 12 then 12 else n)
    (default_if_not_positive 4 (getEnvIntOrDefault "USAGE_LOG_WRITE_CONCURRENCY" 4)) (default_if_not_positive 4096 (getEnvIntOrDefault "USAGE_LOG_ACTIVE_LIMIT" 4096)).
Definition Load : option Config :=
  database ← requireEnv "DATABASE_URL"; master ← requireEnv "VPSMANAGER_MASTER_KEY"; jwt ← requireEnv "JWT_SECRET";
  let recovery := getEnvBoolStrict "SYSTEM_SETTINGS_IGNORE_INVALID_OVERRIDES" in
  let errors := malformed "METRICS_RETENTION_ENABLED" ∪ malformed "METRICS_RETENTION_DRY_RUN" in
  Some (MkConfig load_values
    (MkDeployment database master jwt (Getenv "BOOTSTRAP_TOKEN") (getEnvOrDefault "PORT" "8080") (getEnvOrDefault "AGENT_ARTIFACTS_DIR" "/usr/local/bin")
       (getEnvIntOrDefault "MONITOR_TOLERATED_ROUNDS" 1) (getEnvIntOrDefault "MONITOR_ALLOWED_LATENCY_SECONDS" 0) (getEnvBool "TRUST_PROXY")
       (getEnvBool "USAGE_LOG_LEGACY_WRITERS_DRAINED") (strict_or false recovery) (match recovery with Malformed => true | _ => false end))
    (list_to_set (filter (fun key => Getenv key <> "") (map s_key Settings))) errors errors).
End environment.

(** [MonitorFreshnessThreshold]. *)
Definition MonitorFreshnessThreshold (c : Config) : duration :=
  let rounds := Z.max 1 (wrap64 (MonitorToleratedRounds (deployment c) + 1)) in
  wrap64 (wrap64 (wrap64 (MonitorInterval (values c) * rounds) * Second) + wrap64 (MonitorAllowedLatency (deployment c) * Second)).

(** ** The merge does not depend on the order of the map *)

Lemma set_field_comm f g v w c : f <> g -> set_field f v (set_field g w c) = set_field g w (set_field f v c).
Proof. intros H. unfold set_field. cbn [AgentHubURL MonitorInterval AgentAllowHTTP SSHTimeout SSHMaxIdle ExecTimeout ExecTimeoutMax ExecOutputLimit
  ExecOutputStreamLimit UsageRetentionDays UsageSensitiveRetentionDays MetricsRetentionEnabled MetricsRetentionDryRun LoginRateLimit LogLevel LogFormat
  DBMaxOpenConnections UsageWriteConcurrency UsageActiveLimit].
  f_equal; unfold put_string, put_bool, put_int; repeat case_bool_decide; congruence.
Qed.

Lemma fields_distinct : NoDup (map s_key Settings) /\ NoDup (map s_field Settings).
Proof. split; apply (bool_decide_eq_true_1 _); vm_compute; reflexivity. Qed.
Lemma find_setting_key key d : find_setting key = Some d -> s_key d = key /\ d ∈ Settings.
Proof.
  unfold find_setting. intros H. apply List.find_some in H as [Hin Hk]. apply bool_decide_eq_true in Hk. split; [done|]. by apply list_elem_of_In.
Qed.
Lemma same_field d d' : d ∈ Settings -> d' ∈ Settings -> s_field d = s_field d' -> s_key d = s_key d'.
Proof.
  intros H H' E. assert (forallb (fun d => forallb (fun d' => bool_decide (s_field d = s_field d' -> s_key d = s_key d')) Settings) Settings = true) as Hall
    by (vm_compute; reflexivity).
  rewrite forallb_forall in Hall. specialize (Hall d ltac:(by apply list_elem_of_In)). rewrite forallb_forall in Hall.
  specialize (Hall d' ltac:(by apply list_elem_of_In)). apply bool_decide_eq_true in Hall. auto.
Qed.

Lemma setting_unique d d' : d ∈ Settings -> d' ∈ Settings -> s_key d' = s_key d -> d = d'.
Proof.
  intros H H' E. apply list_elem_of_lookup in H as [i Hi], H' as [j Hj].
  assert (i = j) as ->; [|congruence]. eapply (NoDup_lookup (map s_key Settings) i j (s_key d)); [apply fields_distinct| |].
  - by rewrite list_lookup_fmap, Hi.
  - by rewrite list_lookup_fmap, Hj, <- E.
Qed.

Section merging.
Context (Parse : string -> option URL) (unquote : string -> option string).
Abbreviation merge_one := (merge_one unquote).
Abbreviation merge_all := (merge_all unquote).

Lemma merge_swap c a b : a.1 <> b.1 ->
  is_ok (try c := merge_one c a in merge_one c b) = is_ok (try c := merge_one c b in merge_one c a) /\
  forall r, (try c := merge_one c a in merge_one c b) = Ok r -> (try c := merge_one c b in merge_one c a) = Ok r.
Proof.
  intros Hab. unfold Settings.merge_one. destruct (find_setting a.1) as [da|] eqn:Ea, (find_setting b.1) as [db|] eqn:Eb; try done.
  - destruct (override unquote da a.2) as [va|], (override unquote db b.2) as [vb|]; try done. split; [done|]. intros r [= <-]. f_equal. apply set_field_comm.
    intros E. apply find_setting_key in Ea as [Ka Ia], Eb as [Kb Ib]. apply same_field in E; congruence.
  - by destruct (override unquote da a.2).
  - by destruct (override unquote db b.2).
Qed.
Lemma merge_perm l l' : l ≡ₚ l' -> NoDup l.*1 -> forall c,
  is_ok (merge_all c l) = is_ok (merge_all c l') /\ forall r, merge_all c l = Ok r -> merge_all c l' = Ok r.
Proof.
  induction 1 as [|kv l l' Hp IH|a b l|l1 l2 l3 Hp1 IH1 Hp2 IH2]; intros Hnd c; cbn [Settings.merge_all].
  - done.
  - inversion_clear Hnd. destruct (merge_one c kv); [by apply IH|done].
  - inversion Hnd as [|? ? Hn _]; subst. destruct (merge_swap c b a) as [Hok Hr].
    { intros E. apply Hn. rewrite E. by left. }
    destruct (merge_one c b) as [cb|]; destruct (merge_one c a) as [ca|]; cbn in *.
    + destruct (merge_one cb a) as [r|]; [by rewrite (Hr r eq_refl)|]. by destruct (merge_one ca b).
    + by destruct (merge_one cb a).
    + by destruct (merge_one ca b).
    + done.
  - assert (NoDup l2.*1) as Hnd2 by by rewrite <- Hp1. destruct (IH1 Hnd c) as [E1 F1], (IH2 Hnd2 c) as [E2 F2]. split; [congruence|auto].
Qed.
End merging.

(** ** What a merge gives *)

(** Values of the type of their setting. *)
Definition fits (k : kind) (v : value) : Prop := match k, v with KString, VString _ | KBool, VBool _ | KInt, VInt _ => True | _, _ => False end.
Lemma put_int_other f v name old : f <> name -> put_int f v name old = old.
Proof. intros H. unfold put_int. by rewrite bool_decide_eq_false_2. Qed.
Lemma put_bool_other f v name old : f <> name -> put_bool f v name old = old.
Proof. intros H. unfold put_bool. by rewrite bool_decide_eq_false_2. Qed.
Lemma put_string_other f v name old : f <> name -> put_string f v name old = old.
Proof. intros H. unfold put_string. by rewrite bool_decide_eq_false_2. Qed.
Lemma get_set_same d v c : d ∈ Settings -> fits (s_kind d) v -> get_field (s_field d) (set_field (s_field d) v c) = v.
Proof.
  intros Hd Hv. repeat (apply elem_of_cons in Hd as [->|Hd]; [destruct v; try done; vm_compute; reflexivity|]). by apply elem_of_nil in Hd.
Qed.
Lemma get_set_field f d v c : d ∈ Settings -> f <> s_field d -> get_field (s_field d) (set_field f v c) = get_field (s_field d) c.
Proof.
  intros Hd Hf. unfold get_field, fields. destruct c. unfold set_field.
  cbn [AgentHubURL MonitorInterval AgentAllowHTTP SSHTimeout SSHMaxIdle ExecTimeout ExecTimeoutMax ExecOutputLimit
    ExecOutputStreamLimit UsageRetentionDays UsageSensitiveRetentionDays MetricsRetentionEnabled MetricsRetentionDryRun LoginRateLimit LogLevel LogFormat
    DBMaxOpenConnections UsageWriteConcurrency UsageActiveLimit].
  repeat (apply elem_of_cons in Hd as [->|Hd]; [cbn [s_field] in *; cbv - [put_int put_bool put_string];
    f_equal; (apply put_int_other || apply put_bool_other || apply put_string_other); exact Hf|]).
  by apply elem_of_nil in Hd.
Qed.
Lemma get_set_other d d' v c : d ∈ Settings -> d' ∈ Settings -> s_key d <> s_key d' ->
  get_field (s_field d') (set_field (s_field d) v c) = get_field (s_field d') c.
Proof. intros Hd Hd' Hne. apply get_set_field; [done|]. intros E. by apply Hne, same_field. Qed.

Section merged.
Context (Parse : string -> option URL) (unquote : string -> option string).
Abbreviation override := (override unquote).
Abbreviation merge_all := (merge_all unquote).
Abbreviation MergeSettings := (MergeSettings Parse unquote).

Lemma override_fits d raw v : override d raw = Ok v -> fits (s_kind d) v.
Proof. unfold Settings.override. repeat case_match; try done; by intros [= <-]. Qed.

Lemma merge_field d l c r : d ∈ Settings -> NoDup l.*1 -> merge_all c l = Ok r ->
  (forall raw, (s_key d, raw) ∈ l -> override d raw = Ok (get_field (s_field d) r)) /\
  (s_key d ∉ l.*1 -> get_field (s_field d) r = get_field (s_field d) c).
Proof.
  intros Hd. revert c. induction l as [|[key raw] l IH]; intros c Hnd; cbn [Settings.merge_all].
  - intros [= <-]. split; [|done]. intros raw Hin. by apply elem_of_nil in Hin.
  - inversion Hnd as [|? ? Hn Hnd']; subst. cbn [fst] in Hn. unfold merge_one. cbn [fst snd].
    destruct (find_setting key) as [d'|] eqn:Ef; [|done]. destruct (override d' raw) as [v|] eqn:Eo; [|done].
    intros Hr. apply find_setting_key in Ef as [<- Hd']. destruct (IH _ Hnd' Hr) as [H1 H2]. split.
    + intros raw' [[= Ek ->]|Hin]%elem_of_cons; [|by apply H1]. assert (d' = d) as -> by (by apply (setting_unique d' d)).
      rewrite (H2 Hn), get_set_same by (done || by eapply override_fits). done.
    + cbn [fmap list_fmap fst]. intros Hk. apply not_elem_of_cons in Hk as [Hk Hk']. rewrite (H2 Hk'). apply get_set_other; [done|done|congruence].
Qed.

Lemma MergeSettings_ok base ov c : MergeSettings base ov = Ok c ->
  merge_all (Settings.values base) (map_to_list ov) = Ok (Settings.values c) /\ deployment c = deployment base /\ Environment c = Environment base /\
  metricsRetentionParseErrors c = metricsRetentionParseErrors base /\ MetricsRetentionParseError c = remaining_errors base ov /\ Validate Parse c = None.
Proof.
  unfold Settings.MergeSettings. destruct (merge_all _ _) as [v|]; [|done]. destruct (Validate Parse _) eqn:E; [done|]. by intros [= <-].
Qed.

(** The map may be iterated in any order. *)
Lemma merge_any_order base ov c l : l ≡ₚ map_to_list ov -> MergeSettings base ov = Ok c -> merge_all (Settings.values base) l = Ok (Settings.values c).
Proof.
  intros Hl H. apply MergeSettings_ok in H as [H _]. destruct (merge_perm unquote (map_to_list ov) l (symmetry Hl) (NoDup_fst_map_to_list ov) (Settings.values base)) as [_ Hr].
  by apply Hr.
Qed.

(** The value in effect: that of the override, or that of the deployment. *)
Lemma merged_value base ov c d : d ∈ Settings -> MergeSettings base ov = Ok c ->
  match ov !! s_key d with Some raw => override d raw = Ok (SettingValue c d) | None => SettingValue c d = SettingValue base d end.
Proof.
  intros Hd H. apply MergeSettings_ok in H as [H _]. destruct (merge_field d _ _ _ Hd (NoDup_fst_map_to_list ov) H) as [H1 H2].
  unfold SettingValue. destruct (ov !! s_key d) as [raw|] eqn:E.
  - apply H1. by apply elem_of_map_to_list.
  - apply H2. intros Hin. apply list_elem_of_fmap in Hin as ([k raw] & Hk & Hin). cbn in Hk. subst k. apply elem_of_map_to_list in Hin. congruence.
Qed.
Lemma merged_known base ov c key : MergeSettings base ov = Ok c -> is_Some (ov !! key) -> exists d, find_setting key = Some d.
Proof.
  intros H [raw Hk]. apply MergeSettings_ok in H as [H _]. apply elem_of_map_to_list in Hk. revert H Hk. generalize (map_to_list ov) (Settings.values base).
  intros l. induction l as [|[k r] l IH]; intros v H Hk; [by apply elem_of_nil in Hk|]. cbn [Settings.merge_all] in H. unfold merge_one in H. cbn [fst snd] in H.
  destruct (find_setting k) as [d|] eqn:Ef; [|done]. destruct (override d r); [|done].
  apply elem_of_cons in Hk as [[= -> ->]|Hk]; [by exists d|]. by eapply IH.
Qed.

(** What the cross-field checks of a valid configuration promise. *)
Lemma validated v errors : ValidateValues Parse v errors = None ->
  errors = ∅ /\ 0 < MonitorInterval v /\ 0 < ExecTimeout v <= ExecTimeoutMax v /\ ExecTimeoutMax v <= 300 /\
  0 < ExecOutputStreamLimit v <= ExecOutputLimit v /\ ExecOutputLimit v <= 8388608 /\ ExecOutputStreamLimit v <= 4194304 /\ 0 < SSHTimeout v /\ 0 <= LoginRateLimit v.
Proof.
  unfold ValidateValues. intros H. destruct (MonitorInterval v <=? 0) eqn:E1; [done|]. destruct (_ && _) eqn:E2; [done|].
  case_bool_decide; cbn [negb] in H; [|done]. destruct (ExecTimeout v <=? 0) eqn:E3; [done|].
  destruct (_ || _) eqn:E4 in H; [done|]. destruct (_ || _) eqn:E5 in H; [done|]. destruct (_ || _) eqn:E6 in H; [done|].
  destruct (SSHTimeout v <=? 0) eqn:E7; [done|]. destruct (LoginRateLimit v <? 0) eqn:E8; [done|]. bools.
  change (Z.shiftl 8 20) with 8388608 in *. change (Z.shiftl 4 20) with 4194304 in *. split_and!; try done; lia.
Qed.

(** Metrics are deleted only when both switches say so in so many words.
    Whatever the environment and the saved overrides are, a configuration that can take effect
    deletes metrics only if retention was enabled explicitly and the dry run was switched off
    explicitly, each by an override or, without one, by a well-formed variable; a malformed
    switch that is not overridden keeps the configuration from taking effect at all. *)
Theorem deletion_is_explicit Getenv base ov c : Load Getenv = Some base -> MergeSettings base ov = Ok c ->
  let explicit key b := match ov !! key with Some raw => json_bool raw = Some b | None => getEnvBoolStrict Getenv key = Given b end in
  (deletes (Settings.values c) = true -> explicit "METRICS_RETENTION_ENABLED" true /\ explicit "METRICS_RETENTION_DRY_RUN" false) /\
  (forall key, key ∈ env_switches -> getEnvBoolStrict Getenv key = Malformed -> is_Some (ov !! key)).
Proof.
  intros Hload Hm explicit. unfold Load, requireEnv in Hload. 
  destruct (bool_decide (Getenv "DATABASE_URL" = "")); [done|]. destruct (bool_decide (Getenv "VPSMANAGER_MASTER_KEY" = "")); [done|].
  destruct (bool_decide (Getenv "JWT_SECRET" = "")); [done|]. injection Hload as <-.
  set (base := MkConfig _ _ _ _ _) in Hm. split.
  - assert (forall key field safe b, find_setting key = Some (MkSetting key field KBool Live 0 0 []) ->
      SettingValue base (MkSetting key field KBool Live 0 0 []) = VBool (strict_or safe (getEnvBoolStrict Getenv key)) ->
      SettingValue c (MkSetting key field KBool Live 0 0 []) = VBool b -> b <> safe -> explicit key b) as Hone.
    { intros key field safe b Hf Hbase Hc Hne. unfold explicit. set (d := MkSetting key field KBool Live 0 0 []) in *. apply find_setting_key in Hf as [_ Hd].
      pose proof (merged_value base ov c d Hd Hm) as Hv. cbn [s_key d] in Hv. destruct (ov !! key) as [raw|].
      - unfold Settings.override in Hv. cbn [s_kind d] in Hv. rewrite Hc in Hv. case_bool_decide; [done|]. destruct (json_bool raw); [|done]. by injection Hv as ->.
      - rewrite Hc, Hbase in Hv. injection Hv as Hb. destruct (getEnvBoolStrict Getenv key) as [|b'|]; cbn in Hb; congruence. }
    unfold deletes. intros H. apply andb_true_iff in H as [H1 H2]. apply negb_true_iff in H2. split.
    + apply (Hone _ "MetricsRetentionEnabled" false); [done|done| |done]. change (VBool (MetricsRetentionEnabled (Settings.values c)) = VBool true). by rewrite H1.
    + apply (Hone _ "MetricsRetentionDryRun" true); [done|done| |done]. change (VBool (MetricsRetentionDryRun (Settings.values c)) = VBool false). by rewrite H2.
  - intros key Hkey Hbad. apply MergeSettings_ok in Hm as (_ & _ & _ & _ & He & Hval). unfold Validate in Hval. destruct (ValidateDeployment c); [done|].
    apply validated in Hval as [Hval _]. rewrite He in Hval. destruct (ov !! key) eqn:E; [done|]. exfalso.
    assert (key ∈ remaining_errors base ov) as Hin; [|rewrite Hval in Hin; set_solver].
    unfold remaining_errors, base. cbn [metricsRetentionParseErrors]. apply elem_of_difference. split; [|by apply not_elem_of_dom].
    assert (key ∈ malformed Getenv key) as Hmal by (unfold malformed; rewrite Hbad; set_solver).
    apply elem_of_cons in Hkey as [->|Hkey]; [set_solver|]. apply list_elem_of_singleton in Hkey as ->. set_solver.
Qed.
End merged.

(** ** [ApplyLive] *)

Lemma get_field_fits d c : d ∈ Settings -> fits (s_kind d) (get_field (s_field d) c).
Proof. intros Hd. destruct c. repeat (apply elem_of_cons in Hd as [->|Hd]; [vm_compute; done|]). by apply elem_of_nil in Hd. Qed.

(** Settings that need a restart keep the value of the boot, all others are as desired. *)
Lemma ApplyLive_value desired boot d : d ∈ Settings ->
  SettingValue (ApplyLive desired boot) d = SettingValue (match s_apply d with Restart => boot | Live => desired end) d.
Proof.
  intros Hd. unfold SettingValue, ApplyLive. cbn [Settings.values].
  assert (forall l c, NoDup (map s_field l) -> (forall x, x ∈ l -> x ∈ Settings) ->
    get_field (s_field d) (fold_left (restore_field (Settings.values boot)) l c) =
    get_field (s_field d) (if decide (s_field d ∈ map s_field l) then match s_apply d with Restart => Settings.values boot | Live => c end else c)) as Hfold.
  { induction l as [|x l IH]; intros c Hnd Hl; cbn [fold_left map]; [done|]. inversion Hnd as [|? ? Hn Hnd']; subst.
    assert (x ∈ Settings) as Hx by (apply Hl; by left). rewrite IH by (done || intros y Hy; apply Hl; by right).
    destruct (decide (s_field x = s_field d)) as [E|E].
    - assert (x = d) as -> by (by apply setting_unique; [..|apply same_field]). rewrite decide_False by done. rewrite decide_True by by left.
      unfold restore_field. destruct (s_apply d); [done|]. apply get_set_same; [done|by apply get_field_fits].
    - assert (get_field (s_field d) (restore_field (Settings.values boot) c x) = get_field (s_field d) c) as Hc.
      { unfold restore_field. destruct (s_apply x); [done|]. by apply get_set_field. }
      destruct (decide (s_field d ∈ map s_field l)) as [Hin|Hin].
      + rewrite decide_True by by right. by destruct (s_apply d).
      + rewrite decide_False; [done|]. intros [?|?]%elem_of_cons; [by apply E|done]. }
  rewrite Hfold by (done || apply fields_distinct). rewrite decide_True; [by destruct (s_apply d)|]. apply list_elem_of_fmap. by exists d.
Qed.

(** Without a confirmation, nothing is kept for less time and no deletion begins. *)
Lemma confirmed_or_kept before after : RetentionConfirmationRequired before after = false ->
  UsageRetentionDays (values before) <= UsageRetentionDays (values after) /\
  UsageSensitiveRetentionDays (values before) <= UsageSensitiveRetentionDays (values after) /\
  (deletes (values after) = true -> deletes (values before) = true).
Proof.
  unfold RetentionConfirmationRequired, deletes. intros H. apply orb_false_iff in H as [H H3]. apply orb_false_iff in H as [H1 H2].
  split_and!; [lia|lia|]. destruct (MetricsRetentionEnabled (values after)), (MetricsRetentionDryRun (values after)),
    (MetricsRetentionEnabled (values before)), (MetricsRetentionDryRun (values before)); try done.
Qed.

(** ** Concrete configurations *)

Definition demo_env (vars : list (string * string)) (key : string) : string :=
  match List.find (fun kv => bool_decide (kv.1 = key)) vars with Some kv => kv.2 | None => "" end.
Definition demo_vars : list (string * string) :=
  [("DATABASE_URL", "db"); ("VPSMANAGER_MASTER_KEY", "master"); ("JWT_SECRET", "jwt"); ("METRICS_RETENTION_ENABLED", "1"); ("METRICS_RETENTION_DRY_RUN", "maybe")].
Definition no_url (s : string) : option URL := None.
(** The decoder of strings without escapes. *)
Definition plain_unquote (raw : string) : option string :=
  match raw with String a r => match rev (list_ascii_of_string r) with b :: l => Some (string_of_list_ascii (rev l)) | [] => None end | _ => None end.
Definition demo_base : Config := match Load (demo_env demo_vars) with
  | Some c => c
  | None => MkConfig (load_values (demo_env [])) (MkDeployment "" "" "" "" "" "" 0 0 false false false false) ∅ ∅ ∅
  end.
Definition demo_overrides : gmap string string := {["METRICS_RETENTION_DRY_RUN" := "false"]}.
Definition demo_config : Config := match MergeSettings no_url plain_unquote demo_base demo_overrides with Ok c => c | Err _ => demo_base end.

Example malformed_switch_refused :
  is_ok (MergeSettings no_url plain_unquote demo_base ∅) = false /\ deletes (values demo_base) = false /\
  is_ok (MergeSettings no_url plain_unquote demo_base {["METRICS_RETENTION_DRY_RUN" := "true"]}) = true /\
  is_ok (MergeSettings no_url plain_unquote demo_base {["METRICS_RETENTION_DRY_RUN" := "false"; "EXEC_TIMEOUT" := "301"]}) = false.
Proof. vm_compute. done. Qed.

Lemma deletion_is_explicit_witness :
  deletes (values demo_config) = true /\
  (deletes (values demo_config) = true ->
    match demo_overrides !! "METRICS_RETENTION_ENABLED" with Some raw => json_bool raw = Some true | None => getEnvBoolStrict (demo_env demo_vars) "METRICS_RETENTION_ENABLED" = Given true end /\
    match demo_overrides !! "METRICS_RETENTION_DRY_RUN" with Some raw => json_bool raw = Some false | None => getEnvBoolStrict (demo_env demo_vars) "METRICS_RETENTION_DRY_RUN" = Given false end) /\
  (forall key, key ∈ env_switches -> getEnvBoolStrict (demo_env demo_vars) key = Malformed -> is_Some (demo_overrides !! key)).
Proof.
  split; [vm_compute; reflexivity|].
  apply (deletion_is_explicit no_url plain_unquote (demo_env demo_vars) demo_base demo_overrides demo_config); vm_compute; reflexivity.
Defined.
