(* ===== verification/SettingsService.v ===== *)
(** * System settings

    [service/system_settings.go] and [repository/system_settings.go]: the overrides of the
    configuration in the database, with a revision, saved and polled by any number of Hubs.
    The JSON document of a row is the map the decoder gives, [None] when it is no object; the
    details of an audit row are a record.  Revisions are unbounded. *)

From stdpp Require Import pretty.
From S2P Require Import Prelude GoStrings Text Wire Secrets Json Settings.

(** ** The database *)

Definition document : Type := gmap string string.
Record row := MkRow { revision : Z; overrides : option document }.
(** Of a change: the values before and after, and whether there was and is an override. *)
Record change := MkChange { ch_key : string; ch_before : value; ch_after : value; ch_was : bool; ch_is : bool }.
Record audit := MkAudit { au_revision : Z; au_changes : list change; au_recovery : option (Z * string) }.
Record db := MkDB { stored : option row; audits : list audit }.
Definition first_row : row := MkRow 1 (Some ∅).

(** [Load]: the row, made when there is none. *)
Definition LoadRow (d : db) : db * row :=
  match stored d with Some r => (d, r) | None => (MkDB (Some first_row) (audits d), first_row) end.

(** What becomes of a transaction: it commits, it fails, or it commits and the answer is lost. *)
Inductive fate := Commits | Fails | AnswerLost.
#[export] Instance fate_eq_dec : EqDecision fate.
Proof. solve_decision. Defined.
Inductive save_err := Conflict | InvalidSettings (key : option string) | NotConfirmed | StoreFailed.
(** [Save]. *)
Definition SaveRow (d : db) (expected : Z) (r : row) (a : audit) (f : fate) : db * option save_err :=
  match f with
  | Fails => (d, Some StoreFailed)
  | _ =>
      if match stored d with Some r => revision r =? expected | None => false end
      then (MkDB (Some r) (a :: audits d), match f with AnswerLost => Some StoreFailed | _ => None end)
      else (d, Some Conflict)
  end.

(** ** The service *)

Record Service := MkService {
  base : Config; boot : Config; runtime : Config; sv_revision : Z; sv_overrides : document; recovery : option (Z * string) }.
Record SettingsUpdate := MkUpdate { up_revision : Z; up_values : document; up_confirm : bool }.

Definition encode_value (v : value) : string :=
  match v with VString s => json_string s | VBool b => if b then "true" else "false" | VInt z => FormatInt z end.
Definition is_null (raw : string) : bool := bool_decide (TrimSpace raw = "null").
(** The overrides with those of a request set, or removed. *)
Definition patch (current request : document) : document := filter (fun kv => is_null kv.2 = false) request ∪ (current ∖ request).
(** The values as they are in effect. *)
Definition canonical (desired : Config) (values : document) : document :=
  map_imap (fun key raw => Some (match find_setting key with Some d => encode_value (SettingValue desired d) | None => raw end)) values.
Definition error_key (e : settings_err) : string :=
  match e with Invalid key => key | ParseErrors keys => default "overrides" (head (elements keys)) end.

Section service.
Context (Parse : string -> option URL) (unquote : string -> option string).
Abbreviation MergeSettings := (MergeSettings Parse unquote).

(** [mergeStoredSettings]; the error is the key. *)
Definition mergeStoredSettings (base : Config) (r : row) : result string (Config * document) :=
  match overrides r with
  | None => Err "overrides"
  | Some values => match MergeSettings base values with Ok desired => Ok (desired, values) | Err e => Err (error_key e) end
  end.
Definition NewSystemSettingsService (base : Config) (r : row) : result string Service :=
  match mergeStoredSettings base r with
  | Ok (boot, values) => Ok (MkService base boot boot (revision r) values None)
  | Err key =>
      if negb (SettingsIgnoreInvalidOverrides (deployment base)) then Err key
      else match MergeSettings base ∅ with
           | Ok boot => Ok (MkService base boot boot (revision r) ∅ (Some (revision r, key)))
           | Err e => Err (error_key e)
           end
  end.
(** [Refresh] with the row it read, and whether [onChange] is called. *)
Definition Refresh (s : Service) (r : row) : result string (Service * bool) :=
  if revision r =? sv_revision s then Ok (s, false)
  else try dv := mergeStoredSettings (base s) r in
       Ok (MkService (base s) (boot s) (ApplyLive dv.1 (boot s)) (revision r) dv.2 None, true).

Definition change_of (s : Service) (before desired : Config) (request values : document) (d : Setting) : option change :=
  match request !! s_key d with
  | None => None
  | Some _ => Some (MkChange (s_key d) (SettingValue before d) (SettingValue desired d)
                      (bool_decide (is_Some (sv_overrides s !! s_key d))) (bool_decide (is_Some (values !! s_key d))))
  end.
(** [MergeSettings] with the error dropped gives the base. *)
Definition merged_or_base (base : Config) (values : document) : Config := match MergeSettings base values with Ok c => c | Err _ => base end.
Definition unknown_key (request : document) : option string :=
  head (filter (fun key => find_setting key = None) (map fst (map_to_list request))).
(** The checks of [Update], before the transaction: the new configuration and its overrides. *)
Definition prepare (s : Service) (req : SettingsUpdate) : result save_err (Config * document) :=
  if negb (up_revision req =? sv_revision s) then Err Conflict
  else if (Z.of_nat (size (up_values req)) =? 0) || (Z.of_nat (Datatypes.length Settings) <? Z.of_nat (size (up_values req))) then Err (InvalidSettings None)
  else match unknown_key (up_values req) with
       | Some key => Err (InvalidSettings (Some key))
       | None =>
           let values := patch (sv_overrides s) (up_values req) in
           match MergeSettings (base s) values with
           | Err e => Err (InvalidSettings (Some (error_key e)))
           | Ok desired =>
               if RetentionConfirmationRequired (merged_or_base (base s) (sv_overrides s)) desired && negb (up_confirm req) then Err NotConfirmed
               else Ok (desired, values)
           end
       end.
Definition Update (s : Service) (d : db) (req : SettingsUpdate) (f : fate) : Service * db * option save_err :=
  match prepare s req with
  | Err e => (s, d, Some e)
  | Ok (desired, values) =>
      let before := merged_or_base (base s) (sv_overrides s) in
      let saved := canonical desired values in
      let next := MkRow (sv_revision s + 1) (Some saved) in
      let a := MkAudit (revision next) (omap (change_of s before desired (up_values req) values) Settings) (recovery s) in
      match SaveRow d (sv_revision s) next a f with
      | (d, Some e) => (s, d, Some e)
      | (d, None) => (MkService (base s) (boot s) (ApplyLive desired (boot s)) (revision next) saved None, d, None)
      end
  end.

(** ** The view *)

Record SettingView := MkView { vw_setting : Setting; vw_value : value; vw_effective : value; vw_fallback : value; vw_source : string; vw_fallback_source : string;
  vw_restart : bool }.
Definition view_one (s : Service) (d : Setting) : SettingView :=
  let source := if bool_decide (s_key d ∈ Environment (base s)) then "environment" else "default" in
  let v := SettingValue (merged_or_base (base s) (sv_overrides s)) d in
  let e := SettingValue (runtime s) d in
  MkView d v e (SettingValue (base s) d) (if bool_decide (is_Some (sv_overrides s !! s_key d)) then "database" else source) source
    (match s_apply d with Restart => negb (bool_decide (v = e)) | Live => false end).
Definition viewLocked (s : Service) : list SettingView := map (view_one s) Settings.

(** ** Several Hubs *)

Record world := MkWorld { hubs : gmap nat Service; shared : db }.
Inductive event :=
| EBoot (i : nat) (base : Config)                       (* a Hub starts, or restarts *)
| ERefresh (i : nat)                                    (* it reads the row *)
| EUpdate (i : nat) (req : SettingsUpdate) (f : fate).
Definition step (w : world) (ev : event) : world :=
  match ev with
  | EBoot i base =>
      let '(d, r) := LoadRow (shared w) in
      MkWorld (match NewSystemSettingsService base r with Ok s => <[i := s]> (hubs w) | Err _ => delete i (hubs w) end) d
  | ERefresh i =>
      match hubs w !! i with
      | Some s => let '(d, r) := LoadRow (shared w) in
                  MkWorld (match Refresh s r with Ok (s, _) => <[i := s]> (hubs w) | Err _ => hubs w end) d
      | None => w
      end
  | EUpdate i req f =>
      match hubs w !! i with
      | Some s => let '(s, d, _) := Update s (shared w) req f in MkWorld (<[i := s]> (hubs w)) d
      | None => w
      end
  end.
Definition steps (w : world) (l : list event) : world := fold_left step l w.
End service.

(** ** The text of a value is read back *)

Lemma strip_one_none a l spaces : Forall (fun p => exists b p', p = b :: p' /\ b <> a) spaces -> strip_one spaces (a :: l) = None.
Proof.
  unfold strip_one. induction 1 as [|p spaces (b & p' & -> & Hb) _ IH]; [done|]. cbn. by rewrite (proj2 (Ascii.eqb_neq b a) Hb).
Qed.
Lemma trim_left_none fuel spaces l : strip_one spaces l = None -> trim_left_fuel fuel spaces l = l.
Proof. intros H. destruct fuel; cbn; [done|]. by rewrite H. Qed.

(** Bytes that begin and end no white space. *)
Definition no_space (a : ascii) : bool :=
  forallb (fun p => match p with b :: _ => negb (Ascii.eqb b a) | [] => false end) (white_space ++ (reverse <$> white_space)).
Lemma no_space_strip a l spaces : no_space a = true -> (forall p, p ∈ spaces -> p ∈ white_space ++ (reverse <$> white_space)) ->
  strip_one spaces (a :: l) = None.
Proof.
  unfold no_space. rewrite forallb_forall. intros H Hin. apply strip_one_none, Forall_forall. intros p Hp.
  specialize (H p). rewrite <- list_elem_of_In in H. specialize (H (Hin p Hp)). destruct p as [|b p']; [done|]. exists b, p'.
  split; [done|]. by apply negb_true_iff, Ascii.eqb_neq in H.
Qed.
Lemma TrimSpace_same s : Forall (fun a => no_space a = true) (option_list (head (list_ascii_of_string s)) ++ option_list (last (list_ascii_of_string s))) ->
  TrimSpace s = s.
Proof.
  unfold TrimSpace. set (l := list_ascii_of_string s). intros H.
  assert (trim_left_fuel (Datatypes.length l) white_space l = l) as ->.
  { apply trim_left_none. destruct l as [|a r]; [done|]. apply no_space_strip; [by inversion H|]. intros p Hp. apply elem_of_app. by left. }
  rewrite trim_left_none; [rewrite reverse_involutive; apply string_of_list_ascii_of_string|].
  destruct (reverse l) as [|a r] eqn:E; [done|]. apply no_space_strip; [|intros p Hp; apply elem_of_app; by right].
  apply (f_equal reverse) in E. rewrite reverse_involutive, reverse_cons in E. rewrite E, last_snoc in H.
  apply Forall_app in H as [_ H]. by inversion H.
Qed.

Lemma decimal_no_space a : decimal a = true -> no_space a = true.
Proof.
  intros Hd. assert (forallb (fun n => implb (decimal (ascii_of_nat n)) (no_space (ascii_of_nat n))) (seq 0 256) = true) as H by (vm_compute; reflexivity).
  rewrite forallb_forall in H. specialize (H (nat_of_ascii a)). rewrite ascii_nat_embedding, Hd in H. apply H. apply in_seq.
  pose proof (nat_ascii_bounded a). lia.
Qed.
Lemma all_bytes_Forall p s : all_bytes p s = true -> Forall (fun a => p a = true) (list_ascii_of_string s).
Proof. induction s as [|a s IH]; cbn; intros H; [constructor|]. apply andb_true_iff in H as [? ?]. constructor; auto. Qed.

Lemma TrimSpace_digits s : all_bytes decimal s = true -> TrimSpace s = s.
Proof.
  intros H%all_bytes_Forall. apply TrimSpace_same. rewrite Forall_forall in H. apply Forall_forall. intros a Ha. apply decimal_no_space, H.
  apply elem_of_app in Ha as [Ha|Ha].
  - destruct (list_ascii_of_string s); cbn in Ha; [by apply elem_of_nil in Ha|]. apply list_elem_of_singleton in Ha as ->. by left.
  - destruct (last _) as [b|] eqn:E; cbn in Ha; [|by apply elem_of_nil in Ha]. apply list_elem_of_singleton in Ha as ->. by apply last_Some_elem_of in E.
Qed.
Lemma TrimSpace_json_string s : TrimSpace (json_string s) = json_string s.
Proof.
  apply TrimSpace_same. unfold json_string. cbn [list_ascii_of_string head option_list app].
  rewrite list_ascii_app. change (list_ascii_of_string (String quote "")) with [quote].
  rewrite app_comm_cons, last_snoc. cbn. repeat constructor; vm_compute; reflexivity.
Qed.

(** *** Integers *)

Lemma decimal_json_space a : decimal a = true -> json_space a = false.
Proof.
  intros Hd. assert (forallb (fun n => implb (decimal (ascii_of_nat n)) (negb (json_space (ascii_of_nat n)))) (seq 0 256) = true) as H by (vm_compute; reflexivity).
  rewrite forallb_forall in H. specialize (H (nat_of_ascii a)). rewrite ascii_nat_embedding, Hd in H. apply negb_true_iff, H, in_seq.
  pose proof (nat_ascii_bounded a). lia.
Qed.
Lemma drop_space_digits l : Forall (fun a => decimal a = true) l -> drop_space l = l.
Proof. destruct 1 as [|a l Ha]; [done|]. cbn. by rewrite decimal_json_space. Qed.
Lemma json_trim_digits s : all_bytes decimal s = true -> json_trim s = s.
Proof.
  intros H%all_bytes_Forall. unfold json_trim. rewrite (drop_space_digits (list_ascii_of_string s)) by done.
  rewrite drop_space_digits by (by apply List.Forall_rev).
  by rewrite rev_involutive, string_of_list_ascii_of_string.
Qed.
Lemma FormatUint_leading n : 0 < n -> exists a r, FormatUint n = String a r /\ decimal a = true /\ a <> "0"%char.
Proof.
  intros Hn. unfold FormatUint, pretty, pretty_N. rewrite decide_False by lia. generalize "". assert (0 < Z.to_N n)%N as Hx by lia. revert Hx.
  generalize (Z.to_N n). intros x. induction (N.lt_wf_0 x) as [x _ IH]. intros Hx s. rewrite pretty_N_go_step by done.
  destruct (decide (0 < x / 10)%N) as [Hq|Hq]; [apply IH; [apply N.div_lt; lia|done]|].
  assert (x / 10 = 0)%N as E0 by (revert Hq; generalize (x / 10)%N; intros; lia). rewrite E0, pretty_N_go_0. apply N.div_small_iff in E0 as Hlt; [|done].
  rewrite N.mod_small by done. eexists _, _. split; [done|]. pose proof (pretty_N_char_digit x Hlt) as E. split.
  - unfold decimal. rewrite E. apply andb_true_iff. rewrite !N.leb_le. lia.
  - intros Ea. rewrite Ea in E. change (N_of_ascii "0") with 48%N in E. lia.
Qed.
Lemma digit_head a : decimal a = true -> a <> "-"%char /\ a <> "+"%char.
Proof. intros H. split; intros ->; by vm_compute in H. Qed.
Lemma json_int_FormatInt z : 0 < z < 2 ^ 63 -> json_int (FormatInt z) = Some z.
Proof.
  intros Hz. unfold FormatInt. assert ((z <? 0)%Z = false) as -> by (apply Z.ltb_ge; lia).
  unfold json_int. rewrite json_trim_digits by apply FormatUint_digits. pose proof (ParseFormat z ltac:(lia)) as Hp.
  destruct (FormatUint_leading z) as (a & r & E & Hd & H0); [lia|]. rewrite E in *. destruct (digit_head a Hd) as [Hm Hpl].
  assert (json_digits (match String a r with String "-" r => r | _ => String a r end) = true) as ->.
  { clear -Hd H0 Hm Hpl. destruct a as [[] [] [] [] [] [] [] []]; first [reflexivity | exfalso; vm_compute in Hd; discriminate Hd | exfalso; by apply H0]. }
  assert (ParseInt 64 (String a r) = (z ← ParseUint (String a r); if (- 2 ^ 63 <=? z) && (z <? 2 ^ 63) then Some z else None)) as ->.
  { unfold ParseInt. destruct a as [[] [] [] [] [] [] [] []]; try done; by vm_compute in Hd. }
  rewrite Hp. cbn [mbind option_bind]. assert ((- 2 ^ 63 <=? z) && (z <? 2 ^ 63) = true) as -> by (apply andb_true_iff; rewrite Z.leb_le, Z.ltb_lt; lia).
  done.
Qed.

(** ** What is stored is read back *)

#[export] Instance kind_eq_dec : EqDecision kind.
Proof. solve_decision. Defined.
#[export] Instance apply_eq_dec : EqDecision apply.
Proof. solve_decision. Defined.
#[export] Instance Setting_eq_dec : EqDecision Setting.
Proof. solve_decision. Defined.
Definition address : Setting := MkSetting "AGENT_HUB_URL" "AgentHubURL" KString Live 0 0 [].

Section reading.
Context (Parse : string -> option URL) (unquote : string -> option string).
Abbreviation MergeSettings := (MergeSettings Parse unquote).
Abbreviation override := (override unquote).
(** [json.Unmarshal] reads back a string that [json.Marshal] wrote. *)
Context (unquote_written : forall s, ValidString s = true -> unquote (json_string s) = Some s).

(** The value a document gives a setting: that of its override or, without one, the base's. *)
Definition gives (base : Config) (doc : gmap string string) (d : Setting) (v : value) : Prop :=
  match doc !! s_key d with Some raw => override d raw = Ok v | None => SettingValue base d = v end.
(** The configuration a document stands for in a deployment: its merge -- but for an
    AGENT_HUB_URL whose stored text is not read as itself. *)
Definition stands_for (base : Config) (doc : gmap string string) (desired : Config) : Prop :=
  MergeSettings base doc = Ok desired \/
  exists url, doc !! "AGENT_HUB_URL" = Some (json_string url) /\ SettingValue desired address = VString url /\
    override address (json_string url) <> Ok (VString url) /\ Validate Parse desired = None /\
    forall d, d ∈ Settings -> d <> address -> gives base doc d (SettingValue desired d).

(** What [json.Marshal] and the table of settings make of each kind. *)
Definition well_kept (d : Setting) : bool :=
  match s_kind d with
  | KInt => (0 <? s_min d) && (s_max d <? 2 ^ 63)
  | KBool => true
  | KString => bool_decide (d = address) ||
      negb (bool_decide (s_choices d = [])) && negb (bool_decide (s_key d = "AGENT_HUB_URL")) &&
      forallb (fun c => ValidString c && (len c <=? 2048)) (s_choices d)
  end.
Lemma settings_well_kept d : d ∈ Settings -> well_kept d = true.
Proof.
  assert (forallb well_kept Settings = true) as H by (vm_compute; reflexivity). rewrite forallb_forall in H.
  intros Hd%list_elem_of_In. by apply H.
Qed.
Lemma address_setting d : d ∈ Settings -> s_key d = "AGENT_HUB_URL" -> d = address.
Proof. intros Hd Hk. apply (setting_unique d address); [done|by left|done]. Qed.

Lemma override_written d raw v : d ∈ Settings -> d <> address -> override d raw = Ok v -> override d (encode_value v) = Ok v.
Proof.
  intros Hd Hne H. pose proof (settings_well_kept d Hd) as Hk. unfold well_kept in Hk. unfold Settings.override in *.
  destruct (bool_decide (TrimSpace raw = "null")); [done|]. destruct (s_kind d).
  - rewrite (bool_decide_eq_false_2 (d = address)) in Hk by done. cbn [orb] in Hk. bools.
    destruct (unquote raw) as [s|]; [|done]. destruct (2048 <? len s); [done|].
    match goal with Hx : s_key d <> _ |- _ => rewrite (bool_decide_eq_false_2 _ Hx) in * end.
    match goal with Hx : s_choices d <> _ |- _ => rewrite (bool_decide_eq_false_2 _ Hx) in * end. cbn [negb andb] in *.
    case_bool_decide as Hin; [|done]. cbn [negb] in *. injection H as <-. cbn [encode_value].
    match goal with Hx : forallb _ _ = true |- _ => rewrite forallb_forall in Hx; specialize (Hx s (proj1 (list_elem_of_In _ _) Hin)) end. bools.
    rewrite TrimSpace_json_string, bool_decide_eq_false_2, unquote_written by done.
    assert ((2048 <? len s) = false) as -> by (apply Z.ltb_ge; lia). by rewrite bool_decide_eq_true_2.
  - destruct (json_bool raw) as [[]|]; simplify_eq; vm_compute; reflexivity.
  - destruct (json_int raw) as [z|]; [|done]. destruct (_ || _) eqn:E; [done|]. injection H as <-. bools. cbn [encode_value].
    rewrite TrimSpace_digits, json_int_FormatInt by
      (lia || (unfold FormatInt; assert ((z <? 0)%Z = false) as -> by (apply Z.ltb_ge; lia); apply FormatUint_digits)).
    rewrite bool_decide_eq_false_2.
    + assert ((z <? s_min d) || (s_max d <? z) = false) as -> by (apply orb_false_iff; rewrite !Z.ltb_ge; lia). done.
    + unfold FormatInt. assert ((z <? 0)%Z = false) as -> by (apply Z.ltb_ge; lia).
      destruct (FormatUint_leading z) as (a & r & -> & Ha & _); [lia|]. intros [= -> _]. by vm_compute in Ha.
Qed.

Lemma merge_all_total c l : (forall key raw, (key, raw) ∈ l -> exists d v, find_setting key = Some d /\ override d raw = Ok v) ->
  exists r, merge_all unquote c l = Ok r.
Proof.
  revert c. induction l as [|[key raw] l IH]; intros c H; cbn [merge_all]; [by exists c|].
  destruct (H key raw) as (d & v & Hd & Hv); [by left|]. unfold merge_one. cbn [fst snd]. rewrite Hd, Hv.
  apply IH. intros k r Hin. apply H. by right.
Qed.

Lemma values_ext a b : (forall d, d ∈ Settings -> get_field (s_field d) a = get_field (s_field d) b) -> a = b.
Proof.
  intros H. assert (map (fun d => get_field (s_field d) a) Settings = map (fun d => get_field (s_field d) b) Settings) as E
    by (apply List.map_ext_in; intros d Hd; apply H; by apply list_elem_of_In).
  destruct a, b. vm_compute in E. injection E; intros; subst; reflexivity.
Qed.

Lemma find_known d : d ∈ Settings -> find_setting (s_key d) = Some d.
Proof.
  assert (forallb (fun d => bool_decide (find_setting (s_key d) = Some d)) Settings = true) as H by (vm_compute; reflexivity).
  rewrite forallb_forall in H. intros Hd%list_elem_of_In. specialize (H d Hd). by apply bool_decide_eq_true in H.
Qed.

(** A document with the same keys that gives the same values has the same merge. *)
Lemma merges_to base (values doc : gmap string string) desired : MergeSettings base values = Ok desired -> dom doc = dom values ->
  (forall d, d ∈ Settings -> gives base doc d (SettingValue desired d)) -> MergeSettings base doc = Ok desired.
Proof.
  intros Hm Hdom Hg. pose proof (MergeSettings_ok Parse unquote _ _ _ Hm) as (_ & M1 & M2 & M3 & M4 & M5).
  assert (forall key, is_Some (doc !! key) -> exists d, find_setting key = Some d) as Hknown.
  { intros key [raw Hk]. apply (merged_known Parse unquote base values desired key Hm). apply elem_of_dom. rewrite <- Hdom. by eapply elem_of_dom_2. }
  destruct (merge_all_total (Settings.values base) (map_to_list doc)) as [r Hr].
  { intros key raw Hin%elem_of_map_to_list. destruct (Hknown key) as [d Hd]; [by eexists|].
    apply find_setting_key in Hd as Hd'. destruct Hd' as [<- Hd']. exists d, (SettingValue desired d). split; [done|].
    specialize (Hg d Hd'). unfold gives in Hg. by rewrite Hin in Hg. }
  assert (r = Settings.values desired) as ->.
  { apply values_ext. intros d Hd. destruct (merge_field unquote d _ _ _ Hd (NoDup_fst_map_to_list doc) Hr) as [F1 F2].
    specialize (Hg d Hd). unfold gives, SettingValue in Hg. destruct (doc !! s_key d) as [raw|] eqn:E.
    - apply elem_of_map_to_list, F1 in E. congruence.
    - rewrite F2; [done|]. intros ([k raw] & Hk & Hin)%list_elem_of_fmap. cbn in Hk. subst k. apply elem_of_map_to_list in Hin. congruence. }
  unfold Settings.MergeSettings. rewrite Hr. assert (remaining_errors base doc = remaining_errors base values) as Er by (unfold remaining_errors; by rewrite Hdom).
  rewrite Er. assert (MkConfig (Settings.values desired) (deployment base) (Environment base) (metricsRetentionParseErrors base) (remaining_errors base values) = desired) as ->
    by (rewrite <- M1, <- M2, <- M3, <- M4; by destruct desired).
  by rewrite M5.
Qed.

(** A saved document stands for the configuration it was made from. *)
Lemma saved_stands_for base (values doc : gmap string string) desired : MergeSettings base values = Ok desired ->
  (forall d, d ∈ Settings -> doc !! s_key d = (fun _ => encode_value (SettingValue desired d)) <$> values !! s_key d) ->
  dom doc = dom values -> stands_for base doc desired.
Proof.
  intros Hm Hdoc Hdom.
  assert (forall d, d ∈ Settings -> d <> address -> gives base doc d (SettingValue desired d)) as Hg.
  { intros d Hd Hne. pose proof (merged_value Parse unquote base values desired d Hd Hm) as Hv. unfold gives. rewrite Hdoc by done.
    destruct (values !! s_key d) as [raw|]; cbn; [by eapply override_written|done]. }
  assert (address ∈ Settings) as Ha by by left.
  pose proof (merged_value Parse unquote base values desired address Ha Hm) as Hv. specialize (Hdoc address Ha).
  destruct (values !! s_key address) as [raw|] eqn:Er; cbn in Hdoc.
  - pose proof (override_fits _ _ _ _ Hv) as Hf. destruct (SettingValue desired address) as [url| |] eqn:Ev; [|done..].
    assert (override address (json_string url) = Ok (VString url) \/ override address (json_string url) <> Ok (VString url)) as [E|E].
    { destruct (override address (json_string url)) as [v|]; [|by right]. destruct (decide (v = VString url)) as [->|]; [by left|right; congruence]. }
    + left. eapply merges_to; [exact Hm|done|]. intros d Hd. destruct (decide (d = address)) as [->|Hne]; [|by apply Hg].
      unfold gives. change (s_key address) with "AGENT_HUB_URL". by rewrite Hdoc, Ev.
    + right. exists url. split_and!; [done|done|done|by apply (MergeSettings_ok Parse unquote _ _ _ Hm)|done].
  - left. eapply merges_to; [exact Hm|done|]. intros d Hd. destruct (decide (d = address)) as [->|Hne]; [|by apply Hg].
    unfold gives. change (s_key address) with "AGENT_HUB_URL". by rewrite Hdoc.
Qed.
End reading.

(** ** One line of revisions *)

(** A committed change: who merged it into what, and what it made. *)
Record entry := MkEntry { e_base : Config; e_before : document; e_request : SettingsUpdate; e_desired : Config }.

Section line.
Context (Parse : string -> option URL) (unquote : string -> option string).
Context (unquote_written : forall s, ValidString s = true -> unquote (json_string s) = Some s).
Abbreviation MergeSettings := (MergeSettings Parse unquote).
Abbreviation merged_or_base := (merged_or_base Parse unquote).
Abbreviation stands_for := (stands_for Parse unquote).
Abbreviation gives := (gives unquote).
Abbreviation step := (step Parse unquote).
Abbreviation steps := (steps Parse unquote).

(** The overrides a request asks for: its own values, without those it removes with a null,
    and every other one as it was before. *)
Definition asked (before request values : gmap string string) : Prop :=
  forall key, values !! key = match request !! key with
                              | Some raw => if bool_decide (TrimSpace raw = "null") then None else Some raw
                              | None => before !! key
                              end.
(** An entry follows a row: it was computed from all of its overrides, or, if its Hub could not
    use them, from none.  What is stored are the overrides asked for, each by the value it has
    in the valid configuration they give, which is the one the document stands for; what was
    not asked to change has the value it had; and it was confirmed if it had to be. *)
Definition follows (r : row) (e : entry) (r' : row) : Prop :=
  revision r' = revision r + 1 /\ up_revision (e_request e) = revision r /\
  (overrides r = Some (e_before e) \/ e_before e = ∅ /\ is_ok (mergeStoredSettings Parse unquote (e_base e) r) = false) /\
  (exists values doc : gmap string string, overrides r' = Some doc /\ asked (e_before e) (up_values (e_request e)) values /\
     MergeSettings (e_base e) values = Ok (e_desired e) /\ dom doc = dom values /\
     (forall d, d ∈ Settings -> doc !! s_key d = (fun _ => encode_value (SettingValue (e_desired e) d)) <$> values !! s_key d) /\
     stands_for (e_base e) doc (e_desired e)) /\
  (forall d, d ∈ Settings -> up_values (e_request e) !! s_key d = None -> gives (e_base e) (e_before e) d (SettingValue (e_desired e) d)) /\
  (RetentionConfirmationRequired (merged_or_base (e_base e) (e_before e)) (e_desired e) = true -> up_confirm (e_request e) = true).
(** The rows from the first to the last, newest first. *)
Inductive line (first : row) : list (entry * row) -> row -> Prop :=
| line_start : line first [] first
| line_next l r e r' : line first l r -> follows r e r' -> line first ((e, r') :: l) r'.

(** A Hub runs a valid merge of some committed row into its deployment, but for what needs a restart. *)
Definition hub_ok (first : row) (l : list (entry * row)) (s : Service) : Prop :=
  exists newer older r desired, l = newer ++ older /\ line first older r /\ sv_revision s = revision r /\
    runtime s = ApplyLive desired (boot s) /\
    (match recovery s with
     | None => overrides r = Some (sv_overrides s) /\ stands_for (base s) (sv_overrides s) desired
     | Some _ => sv_overrides s = ∅ /\ MergeSettings (base s) ∅ = Ok desired /\ is_ok (mergeStoredSettings Parse unquote (base s) r) = false
     end).
Definition row_of (d : db) : row := default first_row (stored d).
(** The state: all revisions in one line, an audit row for each, and the Hubs. *)
Definition lined (first : row) (past : list Z) (w : world) : Prop :=
  exists l, line first l (row_of (shared w)) /\
    map au_revision (audits (shared w)) = map (fun er => revision er.2) l ++ past /\
    forall i s, hubs w !! i = Some s -> is_Some (stored (shared w)) /\ hub_ok first l s.

Lemma patch_asked before request : asked before request (patch before request).
Proof.
  intros key. unfold patch, document in *. rewrite lookup_union, map_lookup_filter, lookup_difference.
  destruct (request !! key) as [raw|]; cbn [mbind option_bind].
  - unfold is_null. cbn [snd]. destruct (bool_decide (TrimSpace raw = "null")); case_guard; done.
  - by destruct (before !! key).
Qed.
Lemma canonical_dom desired (values : gmap string string) : dom (canonical desired values) = dom values.
Proof.
  apply set_eq. intros key. unfold canonical, document in *. rewrite !elem_of_dom, map_lookup_imap.
  destruct (values !! key); cbn; split; by intros [? ?].
Qed.
Lemma canonical_value desired (values : gmap string string) d : d ∈ Settings ->
  canonical desired values !! s_key d = (fun _ => encode_value (SettingValue desired d)) <$> values !! s_key d.
Proof. intros Hd. unfold canonical, document in *. rewrite map_lookup_imap. destruct (values !! s_key d); [|done]. cbn [mbind option_bind fmap option_fmap option_map]. by rewrite (find_known d Hd). Qed.

(** What is not asked to change keeps the value the overrides before gave it. *)
Lemma unasked_kept base0 (before request values : gmap string string) desired d : asked before request values -> MergeSettings base0 values = Ok desired ->
  d ∈ Settings -> request !! s_key d = None -> gives base0 before d (SettingValue desired d).
Proof.
  intros Ha Hm Hd Hr. pose proof (merged_value Parse unquote base0 values desired d Hd Hm) as Hv.
  rewrite Ha, Hr in Hv. unfold SettingsService.gives. by destruct (before !! s_key d).
Qed.

Lemma ApplyLive_boot c : ApplyLive c c = c.
Proof.
  destruct c as [v d e p m]. unfold ApplyLive. cbn [Settings.values deployment Environment Settings.metricsRetentionParseErrors Settings.MetricsRetentionParseError].
  f_equal. destruct v. vm_compute. reflexivity.
Qed.

Lemma hub_ok_extend first l e s : hub_ok first l s -> hub_ok first (e :: l) s.
Proof. intros (n & o & r & d & -> & H). exists (e :: n), o, r, d. by split. Qed.

Lemma line_revision first l r : line first l r -> revision r = revision first + Z.of_nat (Datatypes.length l).
Proof. induction 1 as [|l r e r' _ IH (H & _)]; cbn [Datatypes.length]; lia. Qed.
(** In one line, a revision is the number of a row. *)
Lemma line_suffix first newer older r r' : line first (newer ++ older) r -> line first older r' -> revision r' = revision r -> newer = [].
Proof. intros H1 H2 E. apply line_revision in H1, H2. rewrite length_app in H1. destruct newer; [done|]. cbn [Datatypes.length] in H1. lia. Qed.
Lemma line_unique first l r r' : line first l r -> line first l r' -> r = r'.
Proof. intros H1 H2. inversion H1; inversion H2; congruence. Qed.

Lemma NewSystemSettingsService_ok first l r base s : line first l r -> NewSystemSettingsService Parse unquote base r = Ok s -> hub_ok first l s.
Proof.
  intros Hl. unfold NewSystemSettingsService. destruct (mergeStoredSettings Parse unquote base r) as [[boot values]|key] eqn:E.
  - unfold mergeStoredSettings in E. destruct (overrides r) as [v|] eqn:Eo; [|done]. destruct (MergeSettings base v) as [d|] eqn:Em; [|done]. injection E as <- <-.
    intros [= <-]. exists [], l, r, d. split_and!; [done|done|done|by rewrite ApplyLive_boot|]. cbn. split; [done|by left].
  - destruct (negb _); [done|]. destruct (MergeSettings base ∅) as [d|] eqn:Em; [|done]. intros [= <-].
    exists [], l, r, d. split_and!; [done|done|done|by rewrite ApplyLive_boot|]. cbn. by rewrite E.
Qed.
Lemma Refresh_ok first l r s s' b : line first l r -> hub_ok first l s -> Refresh Parse unquote s r = Ok (s', b) -> hub_ok first l s'.
Proof.
  intros Hl Hs. unfold Refresh. destruct (_ =? _); [by intros [= <- <-]|]. unfold mergeStoredSettings. destruct (overrides r) as [v|] eqn:Eo; [|done].
  destruct (MergeSettings (base s) v) as [d|] eqn:Em; [|done]. intros [= <- <-]. exists [], l, r, d. split_and!; try done. cbn. split; [done|by left].
Qed.

Lemma LoadRow_row d : row_of (LoadRow d).1 = row_of d /\ (LoadRow d).2 = row_of d /\ audits (LoadRow d).1 = audits d /\ is_Some (stored (LoadRow d).1).
Proof. unfold LoadRow, row_of. destruct (stored d) as [r|] eqn:E; cbn; [rewrite E|]; by split_and!. Qed.

Lemma prepare_ok s req desired values : prepare Parse unquote s req = Ok (desired, values) ->
  up_revision req = sv_revision s /\ values = patch (sv_overrides s) (up_values req) /\ MergeSettings (base s) values = Ok desired /\
  (RetentionConfirmationRequired (merged_or_base (base s) (sv_overrides s)) desired = true -> up_confirm req = true).
Proof.
  unfold prepare. destruct (up_revision req =? sv_revision s) eqn:Er; cbn [negb]; [|done]. apply Z.eqb_eq in Er. destruct (_ || _); [done|].
  destruct (unknown_key _); [done|]. destruct (MergeSettings (base s) _) as [d|] eqn:Em; [|done]. destruct (_ && _) eqn:Ec; [done|].
  intros [= <- <-]. split_and!; try done. intros Hr. rewrite Hr in Ec. cbn in Ec. by apply negb_false_iff in Ec.
Qed.

(** What [Update] does: nothing, or one more revision, audited, which the Hub applies if it
    learns of it. *)
Lemma Update_cases first l s d req f s' d' e : line first l (row_of d) -> hub_ok first l s -> is_Some (stored d) ->
  Update Parse unquote s d req f = (s', d', e) ->
  (d' = d /\ s' = s /\ e <> None) \/
  exists entry r', line first ((entry, r') :: l) r' /\ stored d' = Some r' /\ map au_revision (audits d') = revision r' :: map au_revision (audits d) /\
    (s' = s \/ hub_ok first ((entry, r') :: l) s').
Proof.
  intros Hl Hs [r Hst] Hu. unfold row_of in Hl. rewrite Hst in Hl. cbn in Hl. unfold Update in Hu.
  destruct (prepare Parse unquote s req) as [[desired values]|err] eqn:Ep; [|injection Hu as <- <- <-; by left].
  apply prepare_ok in Ep as (Hrev & -> & Hm & Hc). unfold SaveRow in Hu. rewrite Hst in Hu.
  set (values := patch (sv_overrides s) (up_values req)) in *.
  set (next := MkRow (sv_revision s + 1) (Some (canonical desired values))) in *.
  assert (stands_for (base s) (canonical desired values) desired) as Hstands
    by (eapply saved_stands_for; [done|exact Hm|by apply canonical_value|apply canonical_dom]).
  destruct (decide (f = Fails)) as [->|Hf]; [injection Hu as <- <- <-; by left|].
  destruct (revision r =? sv_revision s) eqn:Er; [|left; destruct f; by injection Hu as <- <- <-]. apply Z.eqb_eq in Er. right.
  destruct Hs as (newer & older & ro & ds & El & Hlo & Hro & Hrun & Hrec).
  assert (newer = []) as -> by (eapply line_suffix; [by rewrite <- El|done|congruence]). cbn in El. subst older.
  assert (ro = r) as -> by by eapply line_unique.
  exists (MkEntry (base s) (sv_overrides s) req desired), next.
  assert (line first ((MkEntry (base s) (sv_overrides s) req desired, next) :: l) next) as Hline.
  { econstructor; [exact Hl|]. unfold follows. cbn. split_and!; [lia|congruence| | | |done].
    - destruct (recovery s) as [k|]; [destruct Hrec as (-> & _ & Hbad); by right|left; by apply Hrec].
    - exists values, (canonical desired values). split_and!; [done|apply patch_asked|done|apply canonical_dom|by apply canonical_value|done].
    - intros d0 Hd0 Hr0. eapply unasked_kept; [apply patch_asked|exact Hm|done|done]. }
  split; [exact Hline|].
  destruct f; [|done|]; apply pair_equal_spec in Hu as [[<- <-]%pair_equal_spec _]; (split; [done|]; split; [done|]); [right|by left].
  exists [], ((MkEntry (base s) (sv_overrides s) req desired, next) :: l), next, desired. split; [reflexivity|]. split; [exact Hline|].
  split; [reflexivity|]. split; [reflexivity|]. cbn [recovery sv_overrides base]. split; [reflexivity|exact Hstands].
Qed.

Lemma step_lined first past w ev : lined first past w -> lined first past (step w ev).
Proof.
  intros (l & Hl & Ha & Hh). destruct ev as [i b|i|i req f]; cbn [SettingsService.step].
  - destruct (LoadRow_row (shared w)) as (E1 & E2 & E3 & E4). destruct (LoadRow (shared w)) as [d r]. cbn in *. subst r.
    exists l. cbn. rewrite E1, E3. split_and!; [done|done|]. intros j s. destruct (NewSystemSettingsService Parse unquote b _) as [s0|] eqn:En.
    + intros [[<- <-]|[_ Hj]]%lookup_insert_Some; [split; [done|by eapply NewSystemSettingsService_ok]|split; [done|by apply (Hh j)]].
    + intros [_ Hj]%lookup_delete_Some. split; [done|by apply (Hh j)].
  - destruct (hubs w !! i) as [s|] eqn:Ei; [|by exists l]. destruct (Hh i s Ei) as [Hst Hs].
    destruct (LoadRow_row (shared w)) as (E1 & E2 & E3 & E4). destruct (LoadRow (shared w)) as [d r]. cbn in *. subst r.
    exists l. cbn. rewrite E1, E3. split_and!; [done|done|]. destruct (Refresh Parse unquote s _) as [[s0 b]|] eqn:Er.
    + intros j s' [[<- <-]|[_ Hj]]%lookup_insert_Some; [split; [done|by eapply Refresh_ok]|split; [done|by apply (Hh j)]].
    + intros j s' Hj. split; [done|by apply (Hh j)].
  - destruct (hubs w !! i) as [s|] eqn:Ei; [|by exists l]. destruct (Hh i s Ei) as [Hst Hs].
    destruct (Update Parse unquote s (shared w) req f) as [[s' d'] e] eqn:Eu.
    destruct (Update_cases first l s (shared w) req f s' d' e Hl Hs Hst Eu) as [(-> & -> & _)|(en & r' & Hl' & Hst' & Ha' & Hs')].
    + exists l. cbn. split_and!; [done|done|]. intros j s' [[<- <-]|[_ Hj]]%lookup_insert_Some; [by apply (Hh i)|by apply (Hh j)].
    + exists ((en, r') :: l). cbn. unfold row_of. rewrite Hst', Ha', Ha. cbn. split_and!; [done|done|]. intros j s''.
      intros [[<- <-]|[_ Hj]]%lookup_insert_Some; (split; [done|]); [destruct Hs' as [->|?]; [by apply hub_ok_extend|done]|apply hub_ok_extend; by apply (Hh j)].
Qed.

End line.

(** ** Concrete changes *)

Definition any_url (s : string) : option URL := Some (mkURL "https" "h" false "" "").
Definition demo_vars : list (string * string) := [("DATABASE_URL", "db"); ("VPSMANAGER_MASTER_KEY", "master"); ("JWT_SECRET", "jwt")].
Definition demo_hub : Config := match Load (demo_env demo_vars) with Some c => c | None => demo_base end.
Definition run_demo (l : list event) : world := steps any_url plain_unquote (MkWorld ∅ (MkDB None [])) l.
Definition hub_sees (i : nat) (w : world) : option (Z * Z * Z) :=
  (fun s => (sv_revision s, ExecTimeout (values (runtime s)), DBMaxOpenConnections (values (runtime s)))) <$> hubs w !! i.
Definition change_timeout (revision : Z) (seconds : string) : SettingsUpdate := MkUpdate revision {["EXEC_TIMEOUT" := seconds]} false.

(** Two Hubs save from the same revision: the second is refused, reads, and sees the first;
    an answer that is lost is found at the next reading; a size waits for a restart. *)
Example two_hubs :
  let start := [EBoot 1 demo_hub; EBoot 2 demo_hub] in
  let race := start ++ [EUpdate 1 (change_timeout 1 "40") Commits; EUpdate 2 (change_timeout 1 "50") Commits] in
  let lost := start ++ [EUpdate 1 (change_timeout 1 "40") AnswerLost] in
  let sized := start ++ [EUpdate 1 (MkUpdate 1 {["DB_MAX_OPEN_CONNECTIONS" := "64"]} false) Commits] in
  (hub_sees 1 (run_demo race), hub_sees 2 (run_demo race), hub_sees 2 (run_demo (race ++ [ERefresh 2]))) = (Some (2, 40, 32), Some (1, 30, 32), Some (2, 40, 32)) /\
  (hub_sees 1 (run_demo lost), hub_sees 1 (run_demo (lost ++ [ERefresh 1]))) = (Some (1, 30, 32), Some (2, 40, 32)) /\
  (hub_sees 1 (run_demo sized), hub_sees 1 (run_demo (sized ++ [EBoot 1 demo_hub]))) = (Some (2, 30, 32), Some (2, 30, 64)).
Proof. vm_compute. done. Qed.

(** A shorter retention needs the confirmation. *)
Example confirmation :
  let w := run_demo [EBoot 1 demo_hub] in
  let req confirm := MkUpdate 1 {["USAGE_LOG_RETENTION_DAYS" := "7"]} confirm in
  (fun s => (Update any_url plain_unquote s (shared w) (req false) Commits).2) <$> hubs w !! 1%nat = Some (Some NotConfirmed) /\
  (fun s => (Update any_url plain_unquote s (shared w) (req true) Commits).2) <$> hubs w !! 1%nat = Some None.
Proof. vm_compute. done. Qed.

(** The address is saved with spaces that its next reading drops: the Hub that saved it and
    the one that reads it do not run the same address. *)
Example address_not_canonical :
  let q s := String quote (s +:+ String quote "") in
  let w := run_demo [EBoot 1 demo_hub; EBoot 2 demo_hub; EUpdate 1 (MkUpdate 1 {["AGENT_HUB_URL" := q "https://h/a /"]} false) Commits; ERefresh 2] in
  ((fun s => (sv_revision s, AgentHubURL (values (runtime s)))) <$> hubs w !! 1%nat, (fun s => (sv_revision s, AgentHubURL (values (runtime s)))) <$> hubs w !! 2%nat) =
  (Some (2, "https://h/a "), Some (2, "https://h/a")).
Proof. vm_compute. done. Qed.

(** Two Hubs change different settings in turn: both overrides are kept. *)
Definition demo_changes : list event :=
  [EBoot 1 demo_hub; EBoot 2 demo_hub; EUpdate 1 (change_timeout 1 "40") Commits; ERefresh 2;
   EUpdate 2 (MkUpdate 2 {["SSH_TIMEOUT" := " 20"]} false) AnswerLost].
Definition demo_world : world := steps any_url unquote (MkWorld ∅ (MkDB None [])) demo_changes.

