(* ===== verification/Auth.v ===== *)
(** * Authentication of requests

    [pkg/token/jwt.go], the middleware of [server/middleware/auth.go] and the key lookup
    wired to it in [cmd/server/main.go].  A request is admitted by an API key whose scopes
    allow the endpoint, by being the handshake of a terminal (which authenticates in its
    first message), or by an unexpired token of the user's current session version.

    The JWT library is an interface: class [JWTLib] states what its parser checks and that
    it accepts what its signer produced.  The gate and the user table are those of
    [Revocation]; the reads of the version happen inside [Revocation.token_admission]. *)

From S2P Require Import Prelude GoStrings Scope Registry Gate Revocation ApiKeys Servers Text UsageLog.

(** ** Tokens *)

Inductive signing_method := HS256 | HS384 | HS512 | NotHMAC (alg : string).

(** [token.Claims]. *)
Record Claims := mkClaims {
  ExpiresAt : option time; IssuedAt : option time; Issuer : string;
  c_UserID : Z; c_Username : string; c_Role : string; c_ServerIDs : list Z; c_TokenVersion : option Z }.
#[export] Instance claims_eq_dec : EqDecision Claims.
Proof. solve_decision. Defined.

(** Claims that JSON carries unchanged: dates on whole seconds, text in UTF-8. *)
Definition whole_second (t : option time) : Prop :=
  match t with None => True | Some t => t mod Second = 0 /\ 0 <= t <= int64_max end.
Definition portable (c : Claims) : Prop :=
  whole_second (ExpiresAt c) /\ whole_second (IssuedAt c) /\ ValidString (c_Username c) = true /\
  ValidString (c_Role c) = true.

(** The JWT library: dates are cut to whole seconds, [ParseWithClaims] verifies the
    signature with the key the callback gives for the token's method (the callback may
    refuse the method) and refuses expired tokens.  [signed m k c s] says that the
    signature of the text [s] with claims [c] is the one of method [m] under key [k]. *)
Class JWTLib := {
  NewNumericDate : time -> time;
  SignedString : signing_method -> string -> Claims -> option string;
  ParseWithClaims : (signing_method -> option string) -> time -> string -> option (Claims * bool);
  signed : signing_method -> string -> Claims -> string -> Prop;
  numeric_date t : NewNumericDate t mod Second = 0 /\ NewNumericDate t <= t < NewNumericDate t + Second;
  parse_verifies kf now s c :
    ParseWithClaims kf now s = Some (c, true) ->
    exists m k, kf m = Some k /\ signed m k c s /\ (forall e, ExpiresAt c = Some e -> now < e);
  parse_signed kf now s c m k :
    SignedString m k c = Some s -> portable c -> kf m = Some k ->
    (forall e, ExpiresAt c = Some e -> now < e) -> ParseWithClaims kf now s = Some (c, true)
}.

Section auth.
Context `{JWTLib} {D : Type} `{!UserDB D}.

(** [JWTService]. *)
Record JWTService := mkJWT { secret : string; expiryTime : duration }.

Definition GenerateToken (s : JWTService) (now : time) (userID : Z) (username role : string) (tokenVersion : Z)
  : option string :=
  SignedString HS256 (secret s)
    (mkClaims (Some (NewNumericDate (TimeAdd now (expiryTime s)))) (Some (NewNumericDate now)) "vpsmanager"
       userID username role [] (Some tokenVersion)).

(** The callback of [ValidateToken]: any HMAC method, under the service's secret. *)
Definition keyfunc (s : JWTService) (m : signing_method) : option string :=
  match m with NotHMAC _ => None | _ => Some (secret s) end.

Definition ValidateToken (s : JWTService) (now : time) (tokenString : string) : option Claims :=
  match ParseWithClaims (keyfunc s) now tokenString with
  | Some (c, true) => Some c
  | _ => None
  end.

(** ** The request and its context *)

(** [Get] is [r.Header.Get]: the first value of a header, or the empty string. *)
Record HTTPRequest := mkHTTPRequest { r_Method : string; URLPath : string; Get : string -> string }.

(** What the middleware stores in the request's context; the operation of the usage
    capture is shared with the outer middleware. *)
Record Context := mkContext {
  userKey : option Claims; principalKey : option Principal; capture : option Operation }.

Definition PrincipalFromClaims (claims : option Claims) : Principal :=
  match claims with
  | None => no_principal
  | Some c => MkPrincipal "jwt" (Some (c_UserID c)) (c_Username c) None "" "" (c_Role c) (c_ServerIDs c) [] 0
  end.

Definition WithPrincipal (p : Principal) (ctx : Context) : Context :=
  mkContext (userKey ctx) (Some p) ((fun op => (SetPrincipal p op).2) <$> capture ctx).

Definition WithUserClaims (c : Claims) (ctx : Context) : Context :=
  WithPrincipal (PrincipalFromClaims (Some c)) (mkContext (Some c) (principalKey ctx) (capture ctx)).

Definition GetPrincipal (ctx : Context) : Principal := default no_principal (principalKey ctx).
Definition GetUserClaims (ctx : Context) : option Claims := userKey ctx.

(** [terminalPathPattern]: [^/api/v1/servers/\d+/terminal/?$]. *)
Definition terminalPathPattern (path : string) : bool :=
  match strip_prefix (list_ascii_of_string "/api/v1/servers/") (list_ascii_of_string path) with
  | None => false
  | Some rest =>
      match cut_first "/" (string_of_list_ascii rest) with
      | Some (id, tail) => isNumeric id && (bool_decide (tail = "terminal") || bool_decide (tail = "terminal/"))
      | None => false
      end
  end.

Definition isTerminalWebSocketHandshake (r : HTTPRequest) : bool :=
  bool_decide (r_Method r = "GET") && bool_decide (Get r "Upgrade" = "websocket") && terminalPathPattern (URLPath r).

(** [extractBearerToken]; [strings.SplitN(header, " ", 2)] is [cut_first]. *)
Definition extractBearerToken (r : HTTPRequest) : option string :=
  let header := Get r "Authorization" in
  if bool_decide (header = "") then None
  else match cut_first " " header with
  | None => None
  | Some (scheme, rest) =>
      if negb (bool_decide (ToLower scheme = "bearer")) then None
      else let token := TrimSpace rest in if bool_decide (token = "") then None else Some token
  end.

(** ** The middleware *)

(** How a request leaves a middleware: with an error response, or to the next handler. *)
Inductive outcome := Refused (code : Z) (reason message : string) (ctx : Context) | Served (ctx : Context).

Definition reason_of (statusCode : Z) : string :=
  if statusCode =? 403 then "forbidden" else if statusCode =? 503 then "unavailable" else "unauthorized".

Definition writeAuthError (statusCode : Z) (message : string) (ctx : Context) : outcome :=
  let reason := reason_of statusCode in
  Refused statusCode reason message
    (mkContext (userKey ctx) (principalKey ctx) (SetResult "rejected" reason <$> capture ctx)).

(** The key validators the middleware accepts: [S] is the state they act on. *)
Inductive key_validator (S : Type) :=
| APIKeyIdentityValidator (ValidateIdentity : string -> S -> S * result validate_err Principal)
| APIKeyValidator (Validate : string -> S -> S * result validate_err (Z * string * string * list string * list Z))
| OtherValidator.
Arguments APIKeyIdentityValidator {S}.
Arguments APIKeyValidator {S}.
Arguments OtherValidator {S}.

Definition validateAPIKeyIdentity {S} (v : key_validator S) (raw : string) (s : S) : S * result validate_err Principal :=
  match v with
  | APIKeyIdentityValidator f => f raw s
  | APIKeyValidator f =>
      match f raw s with
      | (s, Ok (id, name, role, scopes, serverIDs)) =>
          (s, Ok (MkPrincipal "api_key" None "" (Some id) name "" role serverIDs scopes 0))
      | (s, Err e) => (s, Err e)
      end
  | OtherValidator => (s, Err InvalidKey)
  end.

Definition as_api_key (p : Principal) : Principal :=
  MkPrincipal "api_key" (P_UserID p) (Username p) (P_APIKeyID p) (APIKeyName p) (APIKeyPrefix p) (Role p)
    (UsageLog.ServerIDs p) (UsageLog.Scopes p) (UsageLog.PermissionsRevision p).

(** The claims stored for an API key. *)
Definition key_claims (p : Principal) : Claims :=
  mkClaims None None "" (default 0 (P_UserID p)) (Username p) (Role p) (UsageLog.ServerIDs p) None.

(** The gate may be absent: then every valid token is admitted. *)
Definition hub : Type := option (Gate (world D) * world D).

Definition admit_token (env : call_env) (c : Claims) (h : hub) : hub * auth_outcome :=
  match h with
  | None => (None, Admitted200)
  | Some (g, w) =>
      let '(g, w, out) := token_admission env (c_UserID c) (c_TokenVersion c) g w in (Some (g, w), out)
  end.

Definition Auth {S} (jwtSvc : JWTService) (keyValidator : key_validator S) (now : time) (env : call_env)
  (r : HTTPRequest) (ctx : Context) (s : S) (h : hub) : S * hub * outcome :=
  let apiKey := Get r "X-API-Key" in
  if negb (bool_decide (apiKey = "")) then
    match validateAPIKeyIdentity keyValidator apiKey s with
    | (s, Err KeyUnavailable) => (s, h, writeAuthError 503 "api key permissions unavailable" ctx)
    | (s, Err InvalidKey) => (s, h, writeAuthError 401 "invalid api key" ctx)
    | (s, Ok principal) =>
        let principal := as_api_key principal in
        let ctx := WithPrincipal principal (mkContext (Some (key_claims principal)) (principalKey ctx) (capture ctx)) in
        let '(allowed, required) := hasScope (r_Method r) (URLPath r) (UsageLog.Scopes principal) in
        if negb allowed then
          (s, h, writeAuthError 403 (if bool_decide (required = "") then "api key not permitted on this endpoint"
                                     else "insufficient scope: requires " +:+ required) ctx)
        else (s, h, Served ctx)
    end
  else if isTerminalWebSocketHandshake r then (s, h, Served ctx)
  else match extractBearerToken r with
  | None => (s, h, writeAuthError 401 "missing or invalid authorization header" ctx)
  | Some tokenStr =>
      match ValidateToken jwtSvc now tokenStr with
      | None => (s, h, writeAuthError 401 "invalid or expired token" ctx)
      | Some claims =>
          match admit_token env claims h with
          | (h, Admitted200) => (s, h, Served (WithUserClaims claims ctx))
          | (h, Unauthorized401) => (s, h, writeAuthError 401 "session revoked" ctx)
          | (h, ServiceUnavailable503) => (s, h, writeAuthError 503 "session version unavailable" ctx)
          end
      end
  end.

Definition RequireAdminJWT (ctx : Context) : outcome :=
  let p := GetPrincipal ctx in
  if negb (bool_decide (P_AuthType p = "jwt")) || negb (bool_decide (Role p = "admin")) ||
     match P_UserID p with None => true | Some u => u =? 0 end
  then writeAuthError 403 "administrator login required" ctx else Served ctx.

(** A route group guarded by both, as the API key routes are. *)
Definition then_require_admin {S} (o : S * hub * outcome) : S * hub * outcome :=
  match o with (s, h, Served ctx) => (s, h, RequireAdminJWT ctx) | _ => o end.

(** [apiKeyAuth] of [main]: the lookup by hash answered [found], perhaps much earlier; the
    admission is [ApiKeys.Validate]. *)
Definition key_principal (k : APIKey) : Principal :=
  MkPrincipal "api_key" (if ApiKeys.UserID k =? 0 then None else Some (ApiKeys.UserID k)) "" (Some (ApiKeys.ID k))
    (ApiKeys.Name k) (ApiKeys.KeyPrefix k) "admin" (ApiKeys.ServerIDs k) (ApiKeys.Scopes k)
    (ApiKeys.PermissionsRevision k).
Definition apiKeyAuth (sha256_hex : string -> string) (env : call_env) (fails : bool) (found : result key_err APIKey)
  : key_validator (Gate (world keydata) * world keydata) :=
  APIKeyIdentityValidator (fun raw '(g, w) =>
    match found with
    | Err KNotFound => (g, w, Err InvalidKey)
    | Err _ => (g, w, Err KeyUnavailable)
    | Ok k =>
        let '(g, w, res) := Validate env fails (sha256_hex raw) k g w in
        (g, w, match res with Ok k => Ok (key_principal k) | Err e => Err e end)
    end).
(** ** Lemmas *)

Lemma keyfunc_secret jwtSvc m k : keyfunc jwtSvc m = Some k -> k = secret jwtSvc /\ forall alg, m <> NotHMAC alg.
Proof. destruct m; cbn; intros; by simplify_eq. Qed.

Lemma validate_signed jwtSvc now tok c :
  ValidateToken jwtSvc now tok = Some c ->
  exists m, (forall alg, m <> NotHMAC alg) /\ signed m (secret jwtSvc) c tok /\
    (forall e, ExpiresAt c = Some e -> now < e).
Proof.
  unfold ValidateToken. destruct (ParseWithClaims _ _ _) as [[c0 []]|] eqn:Hp; intros; simplify_eq.
  apply parse_verifies in Hp as (m & k & Hk & Hs & He). apply keyfunc_secret in Hk as [-> Hm]. eauto.
Qed.

(** A token is accepted by its own service until the second its expiry falls in. *)
Lemma generate_validate jwtSvc issued now u name role tv tok :
  GenerateToken jwtSvc issued u name role tv = Some tok ->
  0 <= issued -> 0 <= expiryTime jwtSvc -> issued + expiryTime jwtSvc <= int64_max ->
  ValidString name = true -> ValidString role = true ->
  now < NewNumericDate (issued + expiryTime jwtSvc) ->
  ValidateToken jwtSvc now tok =
    Some (mkClaims (Some (NewNumericDate (issued + expiryTime jwtSvc))) (Some (NewNumericDate issued)) "vpsmanager"
            u name role [] (Some tv)).
Proof.
  intros Hg H1 H2 H3 Hn Hr Hnow. unfold ValidateToken. unfold GenerateToken, TimeAdd in Hg.
  erewrite parse_signed; [done|done| |done|].
  - pose proof (numeric_date (issued + expiryTime jwtSvc)) as [Q1 Q2]. pose proof (numeric_date issued) as [Q3 Q4].
    unfold portable, whole_second; cbn [ExpiresAt IssuedAt c_Username c_Role].
    assert (forall t, 0 <= t -> NewNumericDate t mod Second = 0 -> t < NewNumericDate t + Second -> 0 <= NewNumericDate t) as Hpos.
    { intros t Ht Hm Hl. apply Z.mod_divide in Hm as [q Hq]; [|done]. unfold Second in *. lia. }
    split_and!; try done; try lia; apply Hpos; lia.
  - by intros e [= <-].
Qed.

Lemma principal_with_claims c ctx : GetPrincipal (WithUserClaims c ctx) = PrincipalFromClaims (Some c).
Proof. done. Qed.

(** ** What admission means *)

(** A token of the current session of its user. *)
Definition current_token (jwtSvc : JWTService) (now : time) (d : D) (r : HTTPRequest) (c : Claims) : Prop :=
  exists tok m, extractBearerToken r = Some tok /\ (forall alg, m <> NotHMAC alg) /\
    signed m (secret jwtSvc) c tok /\ (forall e, ExpiresAt c = Some e -> now < e) /\
    unresolved d (c_UserID c) = false /\ is_Some (c_TokenVersion c) /\ committed d (c_UserID c) = c_TokenVersion c.

Section claims.
Context (compare : string -> string -> bool).
Abbreviation hub_reachable d h := (rtc (sys_step compare) (sys_initial d) h).

Lemma admit_token_current d g w env c h' out :
  hub_reachable d (g, w) -> admit_token env c (Some (g, w)) = (h', out) ->
  exists g' w', h' = Some (g', w') /\
  match out with
  | Admitted200 => unresolved (Revocation.db w) (c_UserID c) = false /\ is_Some (c_TokenVersion c) /\
                   committed (Revocation.db w) (c_UserID c) = c_TokenVersion c
  | Unauthorized401 => c_TokenVersion c <> committed (Revocation.db w) (c_UserID c)
  | ServiceUnavailable503 => w' = w
  end.
Proof.
  intros R Ha. unfold admit_token in Ha. destruct (token_admission _ _ _ _ _) as [[g1 w1] o] eqn:E. simplify_eq.
  pose proof (token_admission_current compare d g w env _ _ g1 w1 out R E) as T.
  exists g1, w1. split; [done|]. destruct out; [|tauto..].
  destruct T as (v & -> & T1 & T2). by rewrite T1, T2.
Qed.

Lemma auth_by_key {S} jwtSvc (kv : key_validator S) now env r ctx s h s' h' ctx' :
  Get r "X-API-Key" <> "" -> Auth jwtSvc kv now env r ctx s h = (s', h', Served ctx') ->
  exists p, validateAPIKeyIdentity kv (Get r "X-API-Key") s = (s', Ok p) /\
    GetPrincipal ctx' = as_api_key p /\ (hasScope (r_Method r) (URLPath r) (UsageLog.Scopes p)).1 = true.
Proof.
  intros Hk Ha. unfold Auth in Ha. rewrite bool_decide_false in Ha by done. cbn [negb] in Ha.
  destruct (validateAPIKeyIdentity kv (Get r "X-API-Key") s) as [s1 [p|[]]]; [|done..].
  change (UsageLog.Scopes (as_api_key p)) with (UsageLog.Scopes p) in Ha.
  destruct (hasScope _ _ _) as [[] rq] eqn:Eh; cbn [negb] in Ha; [|done]. simplify_eq.
  exists p. by rewrite Eh.
Qed.

Lemma auth_without_key {S} d g w jwtSvc (kv : key_validator S) now env r ctx s s' h' ctx' :
  hub_reachable d (g, w) -> Get r "X-API-Key" = "" ->
  Auth jwtSvc kv now env r ctx s (Some (g, w)) = (s', h', Served ctx') ->
  (isTerminalWebSocketHandshake r = true /\ ctx' = ctx) \/
  (exists c, current_token jwtSvc now (Revocation.db w) r c /\
     GetUserClaims ctx' = Some c /\ GetPrincipal ctx' = PrincipalFromClaims (Some c)).
Proof.
  intros R Hk Ha. unfold Auth in Ha. rewrite bool_decide_true in Ha by done. cbn [negb] in Ha.
  destruct (isTerminalWebSocketHandshake r) eqn:Ht; [left; by simplify_eq|right].
  destruct (extractBearerToken r) as [tok|] eqn:Et; [|done].
  destruct (ValidateToken jwtSvc now tok) as [c|] eqn:Ev; [|done].
  destruct (admit_token env c _) as [h1 out] eqn:Ea.
  destruct (admit_token_current _ _ _ _ _ _ _ R Ea) as (g1 & w1 & -> & T).
  destruct out; simplify_eq. exists c. split_and!; [|done..].
  apply validate_signed in Ev as (m & Hm & Hs & He). exists tok, m. tauto.
Qed.

(** C33: a request passes the middleware in one of three ways only: with an API key that the
    validator accepted and whose scopes allow the endpoint (the key's identity is then in
    the context, marked as a key); as the WebSocket handshake of a terminal, with an
    unchanged context that names nobody; or with a bearer token signed under the service's
    secret with an HMAC method, unexpired, of its user's committed session version while
    no password change is undecided. *)
Theorem auth_sound {S} d g w jwtSvc (kv : key_validator S) now env r ctx s s' h' ctx' :
  hub_reachable d (g, w) ->
  Auth jwtSvc kv now env r ctx s (Some (g, w)) = (s', h', Served ctx') ->
  (exists p, Get r "X-API-Key" <> "" /\ validateAPIKeyIdentity kv (Get r "X-API-Key") s = (s', Ok p) /\
     GetPrincipal ctx' = as_api_key p /\ (hasScope (r_Method r) (URLPath r) (UsageLog.Scopes p)).1 = true) \/
  (Get r "X-API-Key" = "" /\ isTerminalWebSocketHandshake r = true /\ ctx' = ctx) \/
  (Get r "X-API-Key" = "" /\ exists c, current_token jwtSvc now (Revocation.db w) r c /\
     GetUserClaims ctx' = Some c /\ GetPrincipal ctx' = PrincipalFromClaims (Some c)).
Proof.
  intros R Ha. destruct (decide (Get r "X-API-Key" = "")) as [Hk|Hk].
  - right. destruct (auth_without_key _ _ _ _ _ _ _ _ _ _ _ _ _ R Hk Ha) as [?|?]; [left|right]; tauto.
  - left. destruct (auth_by_key _ _ _ _ _ _ _ _ _ _ _ Hk Ha) as (p & ?). eauto.
Qed.

(** Behind [RequireAdminJWT] only a logged-in administrator is served: no API key,
    whatever role its identity carries, and no terminal handshake. *)
Theorem admin_only {S} d g w jwtSvc (kv : key_validator S) now env r ctx s s' h' ctx' :
  hub_reachable d (g, w) -> principalKey ctx = None ->
  then_require_admin (Auth jwtSvc kv now env r ctx s (Some (g, w))) = (s', h', Served ctx') ->
  Get r "X-API-Key" = "" /\
  exists c, current_token jwtSvc now (Revocation.db w) r c /\ c_Role c = "admin" /\ c_UserID c <> 0 /\
    GetPrincipal ctx' = PrincipalFromClaims (Some c).
Proof.
  intros R Hctx Ha. destruct (Auth _ _ _ _ _ _ _ _) as [[s1 h1] [|ctx1]] eqn:E; [done|]. cbn in Ha.
  unfold RequireAdminJWT in Ha.
  assert (ctx1 = ctx' /\ P_AuthType (GetPrincipal ctx') = "jwt" /\ Role (GetPrincipal ctx') = "admin" /\
    exists u, P_UserID (GetPrincipal ctx') = Some u /\ u <> 0) as (-> & Ht & Hr & u & Hu & Hnz).
  { repeat case_bool_decide; cbn in Ha; [|done..]. destruct (P_UserID (GetPrincipal ctx1)) as [u|] eqn:Eu; [|done].
    destruct (u =? 0) eqn:Ez; [done|]. simplify_eq. split_and!; try done. exists u. split; [done|]. lia. }
  destruct (decide (Get r "X-API-Key" = "")) as [Hk|Hk].
  - split; [done|].
    destruct (auth_without_key _ _ _ _ _ _ _ _ _ _ _ _ _ R Hk E) as [[_ ->]|(c & Hc & _ & Hp)].
    + unfold GetPrincipal in Ht. by rewrite Hctx in Ht.
    + exists c. rewrite Hp in Hr, Hu. cbn in Hr, Hu. by simplify_eq.
  - destruct (auth_by_key _ _ _ _ _ _ _ _ _ _ _ Hk E) as (p & _ & Hp & _). by rewrite Hp in Ht.
Qed.

(** C34: a token the service issued for the user's committed session version opens
    requests until the second of its expiry: sent as a bearer token, with both version
    reads answering, the request is served as that user. *)
Theorem session_admitted {S} d g w jwtSvc (kv : key_validator S) issued now env r ctx s u name role v tok :
  hub_reachable d (g, w) ->
  GenerateToken jwtSvc issued u name role v = Some tok ->
  0 <= issued -> 0 <= expiryTime jwtSvc -> issued + expiryTime jwtSvc <= int64_max ->
  ValidString name = true -> ValidString role = true ->
  now < NewNumericDate (issued + expiryTime jwtSvc) ->
  Get r "X-API-Key" = "" -> isTerminalWebSocketHandshake r = false -> extractBearerToken r = Some tok ->
  lock_err env = None -> locked_err env = None -> read_err env = None ->
  TokenVersion (Revocation.db w) u = Some v -> LockedTokenVersion (Revocation.db w) u = Some v ->
  exists h' c, Auth jwtSvc kv now env r ctx s (Some (g, w)) = (s, h', Served (WithUserClaims c ctx)) /\
    c_UserID c = u /\ c_Username c = name /\ c_Role c = role.
Proof.
  intros R Hg Hi He Hmax Hn Hr Hnow Hk Ht Htok L1 L2 L3 T1 T2.
  eapply generate_validate in Hg; [|done..]. set (c := mkClaims _ _ _ _ _ _ _ _) in Hg.
  unfold Auth. rewrite (bool_decide_true _ Hk), Ht, Htok, Hg. cbn [negb].
  pose proof (token_admission_answers compare d g w env u (Some v) v R L1 L2 L3 T1 T2) as Ta.
  rewrite bool_decide_true in Ta by done.
  unfold admit_token. change (c_UserID c) with u. change (c_TokenVersion c) with (Some v).
  destruct (token_admission env u (Some v) g w) as [[g1 w1] out]. cbn in Ta. subst out.
  by exists (Some (g1, w1)), c.
Qed.
End claims.
End auth.

(** ** A library that issues a single token *)
Section one_token.
Context (c0 : Claims).

Definition one_parse (kf : signing_method -> option string) (now : time) (s : string) : option (Claims * bool) :=
  if bool_decide (s = "token") && bool_decide (kf HS256 = Some "key") &&
     match ExpiresAt c0 with Some e => now <? e | None => true end
  then Some (c0, true) else None.

Definition one_token : JWTLib.
Proof.
  refine {| NewNumericDate t := t - t mod Second;
            SignedString m k c := match m with HS256 => if bool_decide (k = "key" /\ c = c0) then Some "token" else None
                                  | _ => None end;
            ParseWithClaims := one_parse;
            signed m k c s := m = HS256 /\ k = "key" /\ c = c0 /\ s = "token" |}.
  - intros t. pose proof (Z.mod_pos_bound t Second eq_refl).
    split; [|lia]. rewrite Zminus_mod_idemp_r. by rewrite Z.sub_diag.
  - intros kf now s c Hp. unfold one_parse in Hp. repeat case_bool_decide; try done. cbn in Hp.
    exists HS256, "key". destruct (ExpiresAt c0) as [e|] eqn:He; [destruct (now <? e) eqn:Hl; [|done]|]; simplify_eq.
    + split_and!; try done. intros e'. rewrite He. intros [= <-]. lia.
    + split_and!; try done. by rewrite He.
  - intros kf now s c m k Hs _ Hk He. destruct m; [|done..]. case_bool_decide as Hc; [|done]. destruct Hc as [-> ->].
    simplify_eq. unfold one_parse. rewrite !bool_decide_true by done. cbn.
    destruct (ExpiresAt c0) as [e|]; [|done]. by replace (now <? e) with true by (specialize (He e eq_refl); lia).
Defined.
End one_token.

(** ** Witnesses *)
Section witnesses.
Definition demo_claims : Claims :=
  mkClaims (Some (100 * Second)) (Some (10 * Second)) "vpsmanager" 7 "owner" "admin" [] (Some 0).
#[local] Instance demo_jwt_lib : JWTLib := one_token demo_claims.
Definition demo_jwt : JWTService := mkJWT "key" (90 * Second).
Definition demo_get (h : string) : string := if bool_decide (h = "Authorization") then "Bearer token" else "".
Definition demo_http : HTTPRequest := mkHTTPRequest "GET" "/api/v1/api-keys" demo_get.
Definition demo_ctx : Context := mkContext None None None.
Definition demo_hub : Gate (world (gmap Z Revocation.row)) * world (gmap Z Revocation.row) := (Revocation.demo2.1, Revocation.demo2.2).
Definition demo_served := Auth demo_jwt (@OtherValidator unit) (20 * Second) Revocation.calm demo_http demo_ctx tt (Some demo_hub).

Lemma auth_sound_witness :
  demo_served.2 = Served (WithUserClaims demo_claims demo_ctx) /\
  (GetPrincipal (WithUserClaims demo_claims demo_ctx) = PrincipalFromClaims (Some demo_claims)).
Proof.
  split; [vm_compute; reflexivity|].
  destruct (auth_sound Revocation.demo_compare (Revocation.demo_db 0) demo_hub.1 demo_hub.2 demo_jwt (@OtherValidator unit)
    (20 * Second) Revocation.calm demo_http demo_ctx tt tt demo_served.1.2 (WithUserClaims demo_claims demo_ctx)
    Revocation.demo_reachable) as [(p & Hk & _)|[(_ & Ht & _)|(_ & c & _ & Hc & Hp)]].
  - vm_compute; reflexivity.
  - by destruct Hk.
  - discriminate Ht.
  - injection Hc as <-. exact Hp.
Defined.

Lemma admin_only_witness :
  (then_require_admin demo_served).2 = Served (WithUserClaims demo_claims demo_ctx) /\ Get demo_http "X-API-Key" = "".
Proof.
  split; [vm_compute; reflexivity|].
  apply (admin_only Revocation.demo_compare (Revocation.demo_db 0) demo_hub.1 demo_hub.2 demo_jwt (@OtherValidator unit)
    (20 * Second) Revocation.calm demo_http demo_ctx tt tt demo_served.1.2 (WithUserClaims demo_claims demo_ctx)
    Revocation.demo_reachable).
  - reflexivity.
  - vm_compute; reflexivity.
Defined.

Lemma session_admitted_witness :
  GenerateToken demo_jwt (10 * Second) 7 "owner" "admin" 0 = Some "token" /\
  exists h' c, demo_served = (tt, h', Served (WithUserClaims c demo_ctx)) /\ c_UserID c = 7.
Proof.
  split; [vm_compute; reflexivity|].
  destruct (session_admitted Revocation.demo_compare (Revocation.demo_db 0) demo_hub.1 demo_hub.2 demo_jwt
    (@OtherValidator unit) (10 * Second) (20 * Second) Revocation.calm demo_http demo_ctx tt 7 "owner" "admin" 0 "token"
    Revocation.demo_reachable) as (h' & c & Ha & Hc & _); try (vm_compute; reflexivity); try (vm_compute; discriminate).
  exists h', c. split; [exact Ha|exact Hc].
Defined.
End witnesses.
