(* ===== verification/Setup.v ===== *)
(** * Login and the creation of the first administrator

    [service/auth.go] without the password change (which is in [Revocation]), the queries
    of [repository/user.go] it uses, and the handlers [handler/auth.go],
    [handler/bootstrap.go] and [handler/auth_json.go].

    Initial setup may be raced by requests on several Hubs that share one database, so
    [Bootstrap] is a small-step machine: each request advances by [advance], one database
    statement at a time, and the advisory lock of the setup transaction is part of the
    shared state.  [happens] is what the database or bcrypt answers at one step.

    SHA-256, bcrypt and the JWT library are parameters. *)

From S2P Require Import Prelude GoStrings Scope Registry Gate Revocation ApiKeys Servers Text UsageLog Auth.

(** ** Users *)

Record User := mkUserRow { u_ID : Z; u_Username : string; PasswordHash : string; u_Role : string; u_TokenVersion : Z }.

(** What a user is; a password change keeps it. *)
Definition identity (u : User) : Z * string * string := (u_ID u, u_Username u, u_Role u).

(** The table in the order of its primary key, as [First] and [Count] see it. *)
Abbreviation table := (list User) (only parsing).
Definition FindByUsername (username : string) (us : table) : option User :=
  head (filter (fun u => u_Username u = username) us).
Definition Count (us : table) : Z := Z.of_nat (Datatypes.length us).

(** The errors a client sees: the [AppError] sentinels, and driver errors (status 500). *)
Inductive auth_err :=
| ErrForbidden | ErrConflict | ErrInternal | ErrInvalidCredentials | ErrDatabase | ErrSigning
| ErrValidation (details : list (string * Z * Z)) (* field, min, max *)
| ErrInvalidRequest (status : Z).

Definition StatusCode (e : auth_err) : Z :=
  match e with
  | ErrForbidden => 403 | ErrConflict => 409 | ErrInternal | ErrDatabase | ErrSigning => 500
  | ErrInvalidCredentials => 401 | ErrValidation _ => 422 | ErrInvalidRequest status => status
  end.

Section setup.
Context `{JWTLib}.
(** [sha256.Sum256]; bcrypt with its random salt: generation fails on a long password. *)
Context (sha256 : string -> string).
Context (generate : string -> string -> option string).

(** ** [AuthService] *)
Record AuthService := mkAuth { jwtSvc : JWTService; bootstrapTokenHash : option string; ownerBackfillTrigger : bool }.

Definition SetBootstrapToken (value : string) (s : AuthService) : AuthService :=
  mkAuth (jwtSvc s) (if (32 <=? len value) && (len value <=? 256) then Some (sha256 value) else None)
    (ownerBackfillTrigger s).

Definition BootstrapEnabled (s : AuthService) : bool := bool_decide (is_Some (bootstrapTokenHash s)).

Definition VerifyBootstrapProof (s : AuthService) (proof : string) : option auth_err :=
  match bootstrapTokenHash s with
  | None => Some ErrForbidden
  | Some h =>
      if (len proof <? 32) || (256 <? len proof) then Some ErrForbidden
      else if negb (bool_decide (sha256 proof = h)) then Some ErrForbidden else None
  end.

(** [NeedsSetup]; [None] is a failed query. *)
Definition NeedsSetup (count : option Z) : result auth_err bool :=
  match count with None => Err ErrDatabase | Some n => Ok (n =? 0) end.

Definition issue (s : AuthService) (now : time) (u : User) : result auth_err string :=
  match GenerateToken (jwtSvc s) now (u_ID u) (u_Username u) (u_Role u) (u_TokenVersion u) with
  | Some tok => Ok tok
  | None => Err ErrSigning
  end.

(** ** [Bootstrap], one statement at a time *)

Record setup_request := mkSetup { q_svc : AuthService; q_proof : string; q_username : string; q_password : string }.

(** Where a request is: [PUnknown] has answered an error because the acknowledgement of
    its COMMIT was lost, and the database has yet to decide. *)
Inductive pc :=
| PStart | PCount | PHash | PBegin (user : User) | PLocked (user : User) | PChecked (user : User)
| PInserted (user : User) | PUnknown (user : User) | PCommitted (user : User)
| PDone (answer : result auth_err string).

(** What the environment decides for one step. *)
Inductive happens :=
| Fails                       (* the statement, or the Hub's connection, fails *)
| Works (salt : string) (now : time)
| AckLost                     (* of a COMMIT *)
| Decided (applied : bool).   (* a COMMIT whose acknowledgement was lost *)

(** The database the Hubs share: committed users, the next identifier of the sequence,
    the holder of the advisory lock.  [triggered] counts calls of the backfill trigger. *)
Record shared := mkShared { users : table; next_user : Z; setup_lock : option nat; triggered : nat }.

Definition unlock (sh : shared) : shared := mkShared (users sh) (next_user sh) None (triggered sh).
Definition apply_insert (user : User) (sh : shared) : shared :=
  mkShared (users sh ++ [user]) (next_user sh) None (triggered sh).

(** The first statement of [Bootstrap]'s transaction to fail rolls it back, which
    releases the transaction's lock. *)
Definition advance (ev : happens) (t : nat) (q : setup_request) (p : pc) (sh : shared) : option (shared * pc) :=
  match p, ev with
  | PStart, Works _ _ =>
      match VerifyBootstrapProof (q_svc q) (q_proof q) with
      | Some e => Some (sh, PDone (Err e))
      | None => Some (sh, PCount)
      end
  | PCount, Fails => Some (sh, PDone (Err ErrDatabase))
  | PCount, Works _ _ =>
      if negb (Count (users sh) =? 0) then Some (sh, PDone (Err ErrConflict)) else Some (sh, PHash)
  | PHash, Works salt _ =>
      match generate salt (q_password q) with
      | None => Some (sh, PDone (Err ErrInternal))
      | Some hash => Some (sh, PBegin (mkUserRow 0 (q_username q) hash "admin" 0))
      end
  | PBegin _, Fails => Some (sh, PDone (Err ErrDatabase))
  | PBegin user, Works _ _ =>
      (* pg_advisory_xact_lock blocks while another transaction holds it *)
      match setup_lock sh with
      | Some _ => None
      | None => Some (mkShared (users sh) (next_user sh) (Some t) (triggered sh), PLocked user)
      end
  | PLocked _, Fails => Some (unlock sh, PDone (Err ErrDatabase))
  | PLocked user, Works _ _ =>
      if 0 <? Count (users sh) then Some (unlock sh, PDone (Err ErrConflict)) else Some (sh, PChecked user)
  | PChecked _, Fails => Some (unlock sh, PDone (Err ErrDatabase))
  | PChecked user, Works _ _ =>
      Some (mkShared (users sh) (next_user sh + 1) (setup_lock sh) (triggered sh),
            PInserted (mkUserRow (next_user sh) (u_Username user) (PasswordHash user) (u_Role user) (u_TokenVersion user)))
  | PInserted _, Fails => Some (unlock sh, PDone (Err ErrDatabase))
  | PInserted user, Works _ _ => Some (apply_insert user sh, PCommitted user)
  | PInserted user, AckLost => Some (sh, PUnknown user)
  | PUnknown user, Decided applied =>
      Some (if applied then apply_insert user sh else unlock sh, PDone (Err ErrDatabase))
  | PCommitted user, Works _ now =>
      Some (mkShared (users sh) (next_user sh) (setup_lock sh)
              (if ownerBackfillTrigger (q_svc q) then S (triggered sh) else triggered sh),
            PDone (issue (q_svc q) now user))
  | _, _ => None
  end.

(** ** Requests racing on several Hubs *)

Record config := mkConfig { sh : shared; requests : gmap nat (setup_request * pc) }.

Inductive setup_step : config -> config -> Prop :=
| Z_arrive t q c :
    requests c !! t = None -> setup_step c (mkConfig (sh c) (<[t := (q, PStart)]> (requests c)))
| Z_advance t q p ev c sh' p' :
    requests c !! t = Some (q, p) -> advance ev t q p (sh c) = Some (sh', p') ->
    setup_step c (mkConfig sh' (<[t := (q, p')]> (requests c)))
| Z_password us c : (* password changes keep the users *)
    identity <$> us = identity <$> users (sh c) ->
    setup_step c (mkConfig (mkShared us (next_user (sh c)) (setup_lock (sh c)) (triggered (sh c))) (requests c)).

Definition started (us : table) (next : Z) : config := mkConfig (mkShared us next None 0) ∅.

(** ** The invariant of setup *)

(** The requests between the advisory lock and the end of their transaction. *)
Definition holds (p : pc) : bool :=
  match p with PLocked _ | PChecked _ | PInserted _ | PUnknown _ => true | _ => false end.
Definition checked (p : pc) : bool := match p with PChecked _ | PInserted _ | PUnknown _ => true | _ => false end.
Definition proved (p : pc) : bool := match p with PStart | PDone _ => false | _ => true end.
Definition won (p : pc) : bool := match p with PCommitted _ | PDone (Ok _) => true | _ => false end.
Definition pc_user (p : pc) : option User :=
  match p with
  | PBegin u | PLocked u | PChecked u | PInserted u | PUnknown u | PCommitted u => Some u
  | _ => None
  end.

(** What holds of request [t] against the shared state. *)
Record local (sh : shared) (t : nat) (q : setup_request) (p : pc) : Prop := {
  l_lock : holds p = true <-> setup_lock sh = Some t;
  l_proof : proved p = true -> VerifyBootstrapProof (q_svc q) (q_proof q) = None;
  l_empty : checked p = true -> users sh = [];
  l_user : forall u, pc_user p = Some u -> u_Username u = q_username q /\ u_Role u = "admin";
  l_conflict : p = PDone (Err ErrConflict) -> users sh <> [] }.

Lemma verify_forbidden s proof e : VerifyBootstrapProof s proof = Some e -> e <> ErrConflict.
Proof. unfold VerifyBootstrapProof. intros Hv ->. by repeat case_match. Qed.

Lemma issue_not_conflict s now u : issue s now u <> Err ErrConflict.
Proof. unfold issue. by destruct (GenerateToken _ _ _ _ _ _). Qed.

Lemma Count_nonempty us : Count us <> 0 -> us <> [].
Proof. by intros H' ->. Qed.
Lemma Count_empty us : ~ 0 < Count us -> us = [].
Proof. unfold Count. destruct us; [done|]. cbn. lia. Qed.

Ltac advance_cases :=
  unfold advance, unlock, apply_insert in *;
  repeat match goal with
  | Ha : context [match ?x with _ => _ end] |- _ => destruct x eqn:?; simplify_eq/=
  end.

Lemma advance_local ev t q p sh sh' p' :
  advance ev t q p sh = Some (sh', p') -> local sh t q p -> local sh' t q p'.
Proof.
  intros Ha [L1 L2 L3 L4 L5].
  advance_cases; try match goal with b : bool |- _ => destruct b end;
    split; cbn in *; intros; simplify_eq/=; try done; try tauto; eauto;
    try (apply Count_nonempty; lia); try (apply Count_empty; lia);
    exfalso;
    first [by eapply verify_forbidden | by eapply issue_not_conflict].
Qed.

Lemma advance_users ev t q p sh sh' p' :
  advance ev t q p sh = Some (sh', p') -> local sh t q p ->
  (users sh' = users sh /\ (won p' = true -> won p = true)) \/
  (exists u, pc_user p = Some u /\ checked p = true /\ users sh' = users sh ++ [u]).
Proof.
  intros Ha _. advance_cases; try match goal with b : bool |- _ => destruct b end; cbn; eauto 8.
Qed.

Lemma advance_lock ev t q p sh sh' p' t' :
  advance ev t q p sh = Some (sh', p') -> local sh t q p -> t' <> t ->
  (setup_lock sh' = Some t' <-> setup_lock sh = Some t').
Proof.
  intros Ha [L1 _ _ _ _] Hne. advance_cases; try match goal with b : bool |- _ => destruct b end;
    cbn in *; intuition congruence.
Qed.

Lemma advance_other ev t q p sh sh' p' t' q1 p1 :
  advance ev t q p sh = Some (sh', p') -> local sh t q p -> t' <> t -> local sh t' q1 p1 -> local sh' t' q1 p1.
Proof.
  intros Ha L Hne [M1 M2 M3 M4 M5]. pose proof (advance_lock _ _ _ _ _ _ _ t' Ha L Hne) as Hl.
  assert (checked p1 = true -> setup_lock sh = Some t') as Hc by (intros; apply M1; by destruct p1).
  destruct (advance_users _ _ _ _ _ _ _ Ha L) as [[Hu _]|(u & _ & Hp & Hu)].
  - split; rewrite ?Hl, ?Hu; done.
  - assert (setup_lock sh = Some t) as Ht by (apply L; by destruct p).
    split; rewrite ?Hl, ?Hu; try done; [|by destruct (users sh)].
    intros Hp1. apply Hc in Hp1. congruence.
Qed.

(** Nobody has become administrator by setup, or exactly one request has. *)
Definition outcome_of_setup (us0 : table) (c : config) : Prop :=
  (identity <$> users (sh c) = identity <$> us0 /\
   forall t q p, requests c !! t = Some (q, p) -> won p = false) \/
  (us0 = [] /\ exists t q p id, requests c !! t = Some (q, p) /\
     VerifyBootstrapProof (q_svc q) (q_proof q) = None /\
     identity <$> users (sh c) = [(id, q_username q, "admin")] /\
     forall t' q' p', requests c !! t' = Some (q', p') -> won p' = true -> t' = t).

Record setup_inv (us0 : table) (c : config) : Prop := {
  s_local : forall t q p, requests c !! t = Some (q, p) -> local (sh c) t q p;
  s_lock : forall t, setup_lock (sh c) = Some t -> is_Some (requests c !! t);
  s_outcome : outcome_of_setup us0 c }.

Lemma identity_nil us us0 : identity <$> us = identity <$> us0 -> us = [] <-> us0 = [].
Proof. by destruct us, us0. Qed.

Ltac requests_cases Hr :=
  cbn [requests] in Hr; apply lookup_insert_Some in Hr as [[<- [= <- <-]]|[? Hr]].

Lemma setup_inv_arrive us0 t q c :
  setup_inv us0 c -> requests c !! t = None -> setup_inv us0 (mkConfig (sh c) (<[t := (q, PStart)]> (requests c))).
Proof.
  intros [L K O] Hn. split; cbn [sh requests].
  - intros t' q' p' H'; requests_cases H'; [|by apply L].
    split; try done. split; [done|]. intros [x Hx]%K. congruence.
  - intros t' [x Hx]%K. destruct (decide (t = t')) as [->|]; [by rewrite lookup_insert_eq|].
    rewrite lookup_insert_ne by done. eauto.
  - destruct O as [[O1 O2]|(-> & w & q0 & p0 & id & O1 & O2 & O3 & O4)].
    + left. split; [done|]. intros t' q' p' H'; requests_cases H'; [done|eauto].
    + right. split; [done|]. exists w, q0, p0, id. cbn [sh requests].
      rewrite lookup_insert_ne by congruence. split_and!; try done.
      intros t' q' p' H'; requests_cases H'; [done|eauto].
Qed.

Lemma setup_inv_password us0 us c :
  setup_inv us0 c -> identity <$> us = identity <$> users (sh c) ->
  setup_inv us0 (mkConfig (mkShared us (next_user (sh c)) (setup_lock (sh c)) (triggered (sh c))) (requests c)).
Proof.
  intros [L K O] Hid. pose proof (identity_nil _ _ Hid) as Hnil. split; cbn [sh requests].
  - intros t q p Hr. destruct (L _ _ _ Hr) as [L1 L2 L3 L4 L5]. split; cbn; try done; rewrite Hnil; done.
  - done.
  - unfold outcome_of_setup in *; cbn [sh requests users]. by rewrite Hid.
Qed.

Lemma setup_inv_advance us0 t q p ev c sh' p' :
  setup_inv us0 c -> requests c !! t = Some (q, p) -> advance ev t q p (sh c) = Some (sh', p') ->
  setup_inv us0 (mkConfig sh' (<[t := (q, p')]> (requests c))).
Proof.
  intros [L K O] Hr Ha. pose proof (L _ _ _ Hr) as Lt. split; cbn [sh requests].
  - intros t' q1 p1 H'; requests_cases H'; [by eapply advance_local|].
    eapply advance_other; eauto.
  - intros t' Hl. destruct (decide (t = t')) as [->|Hne]; [by rewrite lookup_insert_eq|].
    rewrite lookup_insert_ne by done. apply K. by rewrite <- (advance_lock _ _ _ _ _ _ _ t' Ha Lt).
  - destruct (advance_users _ _ _ _ _ _ _ Ha Lt) as [[Hu Hw]|(u & Hpu & Hc & Hu)].
    + destruct O as [[O1 O2]|(-> & w & q0 & p0 & id & O1 & O2 & O3 & O4)].
      * left. cbn [sh requests]. rewrite Hu. split; [done|].
        intros t' q1 p1 H'; requests_cases H'; [|eauto].
        specialize (O2 _ _ _ Hr). destruct (won p'); [|done]. by rewrite Hw in O2.
      * right. split; [done|]. cbn [sh requests]. rewrite Hu.
        destruct (decide (t = w)) as [->|Hne].
        -- exists w, q0, p', id. rewrite Hr in O1. simplify_eq. rewrite lookup_insert_eq. split_and!; try done.
           intros t' q1 p1 H'; requests_cases H'; eauto.
        -- exists w, q0, p0, id. rewrite lookup_insert_ne by done. split_and!; try done.
           intros t' q1 p1 H'; requests_cases H'; eauto.
    + pose proof (l_empty _ _ _ _ Lt Hc) as He. rewrite He in Hu.
      destruct (l_user _ _ _ _ Lt u Hpu) as [Hn Hro].
      destruct O as [[O1 O2]|(-> & w & q0 & p0 & id & O1 & O2 & O3 & O4)]; [|by rewrite He in O3].
      right. rewrite He in O1. split; [by destruct us0|].
      exists t, q, p', (u_ID u). cbn [sh requests]. rewrite lookup_insert_eq, Hu. split_and!; try done.
      * apply Lt. by destruct p.
      * cbn. unfold identity. by rewrite Hn, Hro.
      * intros t' q1 p1 H'; requests_cases H'; [done|].
        intros Hw. by rewrite (O2 _ _ _ H') in Hw.
Qed.

Lemma setup_inv_reachable us0 next c : rtc setup_step (started us0 next) c -> setup_inv us0 c.
Proof.
  intros R. remember (started us0 next) as c0 eqn:Hc0.
  assert (setup_inv us0 c0) as I.
  { subst. split; [done|done|]. left. split; [done|]. intros t q p Hl. cbn in Hl. by rewrite lookup_empty in Hl. }
  clear Hc0. induction R as [|c1 c2 c3 Hs _ IH]; [done|]. apply IH.
  destruct Hs; eauto using setup_inv_arrive, setup_inv_advance, setup_inv_password.
Qed.

(** C35: however setup requests race on the Hubs that share a database, whichever statements
    fail and even when acknowledgements of commits are lost: on a table that had users
    none is ever added and no setup request is answered a token; an empty table gets at
    most one user, an administrator with the name of a request that presented the proof
    of ownership, and only that request can be answered a token.  A request is answered
    "conflict" only when an administrator exists. *)
Theorem setup_only_once us0 next c :
  rtc setup_step (started us0 next) c ->
  outcome_of_setup us0 c /\
  (forall t q tok, requests c !! t = Some (q, PDone (Ok tok)) -> us0 = [] /\
     VerifyBootstrapProof (q_svc q) (q_proof q) = None) /\
  (forall t q, requests c !! t = Some (q, PDone (Err ErrConflict)) -> users (sh c) <> []).
Proof.
  intros [L K O]%setup_inv_reachable. split_and!; [done| |intros t q Hr; by apply (L _ _ _ Hr)].
  intros t q tok Hr. destruct O as [[_ O]|(-> & w & q0 & p0 & id & O1 & O2 & O3 & O4)].
  - by specialize (O _ _ _ Hr).
  - assert (t = w) as -> by eauto. rewrite Hr in O1. by simplify_eq.
Qed.

(** ** Login *)

(** [bcrypt.CompareHashAndPassword]. *)
Context (compare : string -> string -> bool).

(** [Login] is [authenticateExisting]; [found] is the answer of the query. *)
Definition authenticateExisting (s : AuthService) (now : time) (found : option (option User)) (password : string)
  : result auth_err string :=
  match found with
  | None => Err ErrDatabase
  | Some None => Err ErrInvalidCredentials
  | Some (Some user) =>
      if negb (compare (PasswordHash user) password) then Err ErrInvalidCredentials else issue s now user
  end.
Definition Login (s : AuthService) (now : time) (fails : bool) (us : table) (username password : string)
  : result auth_err string :=
  authenticateExisting s now (if fails then None else Some (FindByUsername username us)) password.

(** ** The handlers *)

(** The outcome of decoding one JSON value from the limited body. *)
Inductive decoded := Decoded | EndOfBody | TooLarge | Malformed.

Definition authJSONMaxBytes : Z := 8192.

Definition authJSONError (d : decoded) : auth_err :=
  match d with TooLarge => ErrInvalidRequest 413 | _ => ErrInvalidRequest 400 end.

Definition decodeAuthJSON (value extra : decoded) : option auth_err :=
  match value with
  | Decoded => match extra with EndOfBody => None | d => Some (authJSONError d) end
  | d => Some (authJSONError d)
  end.

Definition length_details (username password : string) : list (string * Z * Z) :=
  (if (len username <? 3) || (64 <? len username) then [("username", 3, 64)] else []) ++
  (if (len password <? 8) || (64 <? len password) then [("password", 8, 64)] else []).

Definition LoginHandler (value extra : decoded) (s : AuthService) (now : time) (fails : bool) (us : table)
  (username password : string) : result auth_err string :=
  match decodeAuthJSON value extra with
  | Some e => Err e
  | None =>
      match length_details username password with
      | [] => Login s now fails us username password
      | details => Err (ErrValidation details)
      end
  end.

(** [AuthHandler.Bootstrap] up to the service call: [None] goes on to [Bootstrap]. *)
Definition BootstrapHandler (value extra : decoded) (q : setup_request) : option auth_err :=
  match decodeAuthJSON value extra with
  | Some e => Some e
  | None =>
      match VerifyBootstrapProof (q_svc q) (q_proof q) with
      | Some e => Some e
      | None =>
          match length_details (q_username q) (q_password q) with
          | [] => None
          | details => Some (ErrValidation details)
          end
      end
  end.
(** ** Theorems on single requests *)

(** The proof must be the configured token, up to a collision of the hash. *)
Lemma proof_is_token s value proof :
  VerifyBootstrapProof (SetBootstrapToken value s) proof = None ->
  sha256 proof = sha256 value /\ 32 <= len proof <= 256 /\ 32 <= len value <= 256.
Proof.
  unfold VerifyBootstrapProof, SetBootstrapToken; cbn.
  destruct (_ && _) eqn:Ev; [|done]. destruct (_ || _) eqn:Ep; [done|]. case_bool_decide as Hh; [|done].
  intros _. split_and!; try done; lia.
Qed.

Lemma token_proves s value :
  32 <= len value <= 256 -> VerifyBootstrapProof (SetBootstrapToken value s) value = None.
Proof.
  intros Hl. unfold VerifyBootstrapProof, SetBootstrapToken; cbn.
  replace ((32 <=? len value) && (len value <=? 256)) with true by lia.
  replace ((len value <? 32) || (256 <? len value)) with false by lia. by rewrite bool_decide_true.
Qed.

(** A token is issued only for a stored user whose hash matches the password. *)
Theorem login_sound s now fails us username password tok :
  Login s now fails us username password = Ok tok ->
  exists u, u ∈ us /\ u_Username u = username /\ compare (PasswordHash u) password = true /\
    GenerateToken (jwtSvc s) now (u_ID u) username (u_Role u) (u_TokenVersion u) = Some tok.
Proof.
  unfold Login, authenticateExisting, FindByUsername. destruct fails; [done|].
  destruct (filter _ us) as [|u rest] eqn:Ef; cbn; [done|].
  assert (u ∈ filter (fun u => u_Username u = username) us) as [Hn Hin]%list_elem_of_filter by (rewrite Ef; left).
  destruct (compare _ _) eqn:Ec; [|done]. unfold issue. rewrite Hn.
  destruct (GenerateToken _ _ _ _ _ _) eqn:Eg; [|done]. intros [= <-]. by exists u.
Qed.

(** An unknown name and a wrong password are answered alike. *)
Theorem login_uniform s now us username password :
  (forall u, u ∈ us -> u_Username u = username -> compare (PasswordHash u) password = false) ->
  Login s now false us username password = Err ErrInvalidCredentials.
Proof.
  intros Hc. unfold Login, authenticateExisting, FindByUsername.
  destruct (filter _ us) as [|u rest] eqn:Ef; cbn; [done|].
  assert (u ∈ filter (fun u => u_Username u = username) us) as [Hn Hin]%list_elem_of_filter by (rewrite Ef; left).
  by rewrite (Hc u).
Qed.

(** Field feedback on the credentials of a setup request needs the proof. *)
Theorem proof_before_feedback value extra q details :
  BootstrapHandler value extra q = Some (ErrValidation details) ->
  VerifyBootstrapProof (q_svc q) (q_proof q) = None /\ details = length_details (q_username q) (q_password q).
Proof.
  unfold BootstrapHandler, decodeAuthJSON, authJSONError. intros Hb.
  assert (forall e, VerifyBootstrapProof (q_svc q) (q_proof q) = Some e -> e = ErrForbidden) as Hf.
  { intros e. unfold VerifyBootstrapProof. repeat case_match; by intros; simplify_eq. }
  destruct (VerifyBootstrapProof _ _) as [e|]; [specialize (Hf e eq_refl) as ->|]; repeat case_match; by simplify_eq.
Qed.

(** *** A setup that nothing disturbs *)
Fixpoint run_request (evs : list happens) (t : nat) (q : setup_request) (p : pc) (s : shared) : option (shared * pc) :=
  match evs with
  | [] => Some (s, p)
  | ev :: evs => match advance ev t q p s with Some (s, p) => run_request evs t q p s | None => None end
  end.

(** an owner who presents the proof to an empty Hub becomes its administrator in eight
    undisturbed steps, and can then log in with the name and password chosen: setup and
    login agree on the row, whatever salt was drawn. *)
Theorem setup_then_login t q next n salt now hash tok later tok' :
  (forall salt pw h, generate salt pw = Some h -> compare h pw = true) ->
  VerifyBootstrapProof (q_svc q) (q_proof q) = None ->
  generate salt (q_password q) = Some hash ->
  GenerateToken (jwtSvc (q_svc q)) now next (q_username q) "admin" 0 = Some tok ->
  GenerateToken (jwtSvc (q_svc q)) later next (q_username q) "admin" 0 = Some tok' ->
  exists s, run_request (repeat (Works salt now) 8) t q PStart (mkShared [] next None n) = Some (s, PDone (Ok tok)) /\
    users s = [mkUserRow next (q_username q) hash "admin" 0] /\ setup_lock s = None /\ next_user s = next + 1 /\
    Login (q_svc q) later false (users s) (q_username q) (q_password q) = Ok tok'.
Proof.
  intros Hb Hv Hg Ht Ht'. eexists. split; [|split_and!].
  - cbn. rewrite Hv. cbn. change (Count []) with 0. cbn. rewrite Hg. cbn. change (Count []) with 0. cbn.
    unfold issue; cbn. by rewrite Ht.
  - done.
  - done.
  - done.
  - cbn. unfold Login, authenticateExisting, FindByUsername; cbn.
    rewrite decide_True by done. cbn. rewrite (Hb _ _ _ Hg). unfold issue; cbn. by rewrite Ht'.
Qed.
End setup.

(** ** Witnesses *)

Section witnesses.
Definition demo_sha (s : string) : string := s.
Definition demo_generate (salt pw : string) : option string := Some pw.
Definition demo_equal (h pw : string) : bool := bool_decide (h = pw).
Definition demo_token : string := "0123456789abcdef0123456789abcdef".
Definition demo_admin (u : Z) : Claims :=
  mkClaims (Some (100 * Second)) (Some (10 * Second)) "vpsmanager" u "owner" "admin" [] (Some 0).
#[local] Instance demo_lib : JWTLib := one_token (demo_admin 1).
Definition demo_svc : AuthService :=
  SetBootstrapToken demo_sha demo_token (mkAuth (mkJWT "key" (90 * Second)) None false).
Definition demo_setup : setup_request := mkSetup demo_svc demo_token "owner" "password1".

(** Runs of requests that nothing disturbs. *)
Definition arrive (t : nat) (c : config) : config :=
  match requests c !! t with
  | None => mkConfig (sh c) (<[t := (demo_setup, PStart)]> (requests c))
  | Some _ => c
  end.
Definition play (t n : nat) (c : config) : config :=
  match requests c !! t with
  | Some (q, p) =>
      match run_request demo_sha demo_generate (repeat (Works "s" (10 * Second)) n) t q p (sh c) with
      | Some (s', p') => mkConfig s' (<[t := (q, p')]> (requests c))
      | None => c
      end
  | None => c
  end.

Abbreviation demo_steps := (rtc (setup_step demo_sha demo_generate)).

Lemma setup_arrive_steps t c : demo_steps c (arrive t c).
Proof. unfold arrive. destruct (requests c !! t) eqn:E; [done|]. eapply rtc_once. by apply Z_arrive. Qed.

Lemma run_request_steps evs t q p c s' p' :
  requests c !! t = Some (q, p) -> run_request demo_sha demo_generate evs t q p (sh c) = Some (s', p') ->
  demo_steps c (mkConfig s' (<[t := (q, p')]> (requests c))).
Proof.
  revert p c. induction evs as [|ev evs IH]; intros p c Hr He; cbn in He.
  - simplify_eq. rewrite insert_id by done. by destruct c.
  - destruct (advance _ _ ev t q p (sh c)) as [[s1 p1]|] eqn:Ea; [|done].
    eapply rtc_l; [by eapply Z_advance|].
    specialize (IH p1 (mkConfig s1 (<[t := (q, p1)]> (requests c)))). cbn in IH.
    rewrite insert_insert_eq in IH. apply IH; [by rewrite lookup_insert_eq|done].
Qed.

Lemma setup_play_steps t n c : demo_steps c (play t n c).
Proof.
  unfold play. destruct (requests c !! t) as [[q p]|] eqn:E; [|done].
  destruct (run_request _ _ _ _ _ _ _) as [[s' p']|] eqn:R; [|done]. by eapply run_request_steps.
Qed.

(** Two requests with the proof pass the early count of an empty Hub; the first one creates
    the administrator, the second one finds it under the lock. *)
Definition demo_racing : config := play 2 2 (play 1 5 (play 2 3 (arrive 2 (play 1 3 (arrive 1 (started [] 1)))))).

Lemma demo_racing_reachable : demo_steps (started [] 1) demo_racing.
Proof.
  unfold demo_racing. repeat first [etrans; [|apply setup_play_steps] | etrans; [|apply setup_arrive_steps]]. apply rtc_refl.
Qed.

Lemma setup_only_once_witness :
  outcome_of_setup demo_sha [] demo_racing /\
  requests demo_racing !! 2%nat = Some (demo_setup, PDone (Err ErrConflict)) /\ users (sh demo_racing) <> [].
Proof.
  destruct (setup_only_once demo_sha demo_generate [] 1 demo_racing demo_racing_reachable) as (H1 & _ & H3).
  split; [exact H1|]. split; [vm_compute; reflexivity|]. apply (H3 2%nat demo_setup). vm_compute; reflexivity.
Defined.

Lemma setup_then_login_witness :
  exists s, run_request demo_sha demo_generate (repeat (Works "s" (10 * Second)) 8) 1 demo_setup PStart
              (mkShared [] 1 None 0) = Some (s, PDone (Ok "token")) /\
    Login demo_equal demo_svc (10 * Second) false (users s) "owner" "password1" = Ok "token".
Proof.
  destruct (setup_then_login demo_sha demo_generate demo_equal 1 demo_setup 1 0 "s" (10 * Second) "password1"
    "token" (10 * Second) "token") as (s & H1 & _ & _ & _ & H2).
  - intros salt pw h Hg. unfold demo_generate in Hg. injection Hg as <-. by apply bool_decide_eq_true.
  - vm_compute; reflexivity.
  - reflexivity.
  - vm_compute; reflexivity.
  - vm_compute; reflexivity.
  - exists s. split; [exact H1|exact H2].
Defined.
End witnesses.
