(* ===== verification/Terminal.v ===== *)
(** * Terminals: frames, the handshake and the admission of a session

    [service/terminal_transport.go] (the output frames and the keepalive settings),
    [handler/terminal.go] (the authentication of the WebSocket), and of
    [service/terminal.go] the choice of the admission gate, the refusal of a session, the
    treatment of one client message and the notice that ends a socket.  The life of a
    session, with its goroutines, is in [TerminalSession].

    [Text.items] is Go's decoding of UTF-8; a JSON frame's text reaches the client as the
    runes it decodes to. *)

From S2P Require Import Prelude GoStrings Scope Registry Gate Revocation ApiKeys Text UsageLog Auth.

(** ** Output frames *)

Definition TerminalBinaryProtocol : string := "talus.terminal.v2".
Definition TerminalMessageMaxBytes : Z := 65536.
Definition terminalKeepaliveInterval : duration := 25 * Second.
Definition terminalKeepaliveTimeout : duration := 10 * Second.

Definition keepaliveSettings (interval timeout : duration) : duration * duration :=
  (if interval <=? 0 then terminalKeepaliveInterval else interval,
   if timeout <=? 0 then terminalKeepaliveTimeout else timeout).

(** [utf8.FullRune]: the bytes begin with a complete encoding, or with an invalid one. *)
Definition FullRune (s : string) : bool :=
  match s with
  | EmptyString => false
  | String a r =>
      match lead_of a, r with
      | (Lead1 | NoLead), _ => true
      | Lead2, String _ _ => true
      | Lead3 lo hi, String b r => negb (in_range lo hi b) || match r with String _ _ => true | _ => false end
      | Lead4 lo hi, String b r =>
          negb (in_range lo hi b) ||
          match r with
          | String c (String _ _) => true
          | String c EmptyString => negb (continuation c)
          | EmptyString => false
          end
      | _, EmptyString => false
      end
  end.

(** The size [utf8.DecodeRune] answers. *)
Definition item_size (i : item) : nat := match i with Good s => String.length s | Invalid _ => 1 end.
Definition rune_size (s : string) : nat := match items s with i :: _ => item_size i | [] => 0 end.

Fixpoint str_drop (n : nat) (s : string) : string :=
  match n, s with S n, String _ s => str_drop n s | _, _ => s end.

(** The loop of [write]: the complete runes, or everything at the end, and the rest.  The
    fuel is the number of bytes, each turn takes at least one. *)
Fixpoint complete_runes (fuel : nat) (final : bool) (s : string) : string * string :=
  match fuel with
  | O => ("", s)
  | S fuel =>
      if negb (bool_decide (s = "")) && (final || FullRune s) then
        let n := rune_size s in
        let '(taken, rest) := complete_runes fuel final (str_drop n s) in (str_take n s +:+ taken, rest)
      else ("", s)
  end.

Inductive frame := BinaryFrame (data : string) | OutputFrame (data : string).

(** [terminalOutputWriter.write]: the pending bytes, and the frame written, if any. *)
Definition output_write (binary : bool) (pending data : string) (final : bool) : string * option frame :=
  if binary then (pending, if bool_decide (data = "") then None else Some (BinaryFrame data))
  else
    let data := pending +:+ data in
    let '(taken, rest) := complete_runes (String.length data) final data in
    (rest, if bool_decide (taken = "") then None else Some (OutputFrame taken)).

(** The output pump over what the reads of the shell returned, the last one at its end. *)
Fixpoint output_pump (binary : bool) (pending : string) (reads : list string) : list frame :=
  match reads with
  | [] => []
  | [last] => option_list (output_write binary pending last true).2
  | data :: reads =>
      let '(pending, f) := output_write binary pending data false in
      option_list f ++ output_pump binary pending reads
  end.

Definition frame_bytes (f : frame) : string := match f with BinaryFrame d | OutputFrame d => d end.
Definition bytes_of (fs : list frame) : string := foldr (fun f acc => frame_bytes f +:+ acc) "" fs.

(** ** The end of a socket *)

Record wsMessage := mkMessage { m_Type : string; m_Data : string; m_Reason : string; Cols : Z; Rows : Z }.
Definition message (ty reason data : string) : wsMessage := mkMessage ty data reason 0 0.

Definition terminalRevokedCloseCode : Z := 4001.
Definition CloseNormalClosure : Z := 1000.
Definition CloseInternalServerErr : Z := 1011.
Definition ClosePolicyViolation : Z := 1008.

(** [TerminalResult], the event part: outcome, reason and close reason. *)
Record session_end := mkEnd { Outcome : string; Reason : string; CloseReason : string }.

(** The notice the teardown sends: the frame, the close code and text, and whether a failure
    to send it forces the socket. *)
Definition end_notice (e : session_end) : wsMessage * Z * string * bool :=
  if bool_decide (Reason e = "session_revoked") || bool_decide (Reason e = "api_key_permissions_changed") then
    (message "error" (CloseReason e) "session revoked", terminalRevokedCloseCode, CloseReason e, true)
  else if bool_decide (Reason e = "client_cancelled") then
    (message "disconnected" "" "", CloseNormalClosure, "", true)
  else if bool_decide (Outcome e = "succeeded") || bool_decide (CloseReason e = "remote_closed") then
    (message "disconnected" "" "", CloseNormalClosure, "", true)
  else (message "error" "failed" (Reason e), CloseInternalServerErr, "failed", false).

(** ** Admission of a session *)

(** Who the session belongs to: the gate and registry of keys or of users, the subject, the
    version the request was authenticated at, and the two texts of a revocation. *)
Record subject := mkSubject {
  by_key : bool; subjectID : Z; expectedVersion : Z; revokedReason : string; revokedCloseReason : string }.

Definition session_subject (principal : Principal) (claims : option Claims) : option subject :=
  if bool_decide (P_AuthType principal = "api_key") then
    Some (mkSubject true (default 0 (P_APIKeyID principal)) (UsageLog.PermissionsRevision principal)
            "api_key_permissions_changed" "api_key_permissions_changed")
  else match claims with
  | Some c =>
      match c_TokenVersion c with
      | Some v => Some (mkSubject false (c_UserID c) v "session_revoked" "revoked")
      | None => None
      end
  | None => None
  end.

(** Whether a managed session may ask the gate at all; [wired]: its gate and registry exist. *)
Definition admissible (wired : bool) (s : subject) : bool :=
  wired && negb (subjectID s =? 0) && negb (by_key s && (expectedVersion s <=? 0)).

Definition refused_end (s : subject) : session_end := mkEnd "rejected" "terminal_auth_failed" (revokedCloseReason s).

(** [refuseTerminal]. *)
Definition refuse_notice (s : subject) : wsMessage * Z * string :=
  (message "error" (revokedCloseReason s) "session revoked", terminalRevokedCloseCode, revokedCloseReason s).

(** ** One client message *)

Inductive input_action := Ignored | WriteStdin (data : string) | WindowChange (rows cols : Z) | Revoked.

(** The body of the input pump after [ReadJSON], up to the call it makes; [permit] asks the
    gate, for a managed session. *)
Definition input_message {S} (permit : S -> S * bool) (managed : bool) (msg : wsMessage) (s : S) : S * input_action :=
  if negb (bool_decide (m_Type msg = "input")) && negb (bool_decide (m_Type msg = "resize")) then (s, Ignored)
  else
    let '(s, allowed) := if managed then permit s else (s, true) in
    (s, if negb allowed then Revoked
        else if bool_decide (m_Type msg = "input") then WriteStdin (m_Data msg)
        else WindowChange (Rows msg) (Cols msg)).

(** ** The handler *)

Definition authTimeout : duration := 10 * Second.
Definition terminalAuthMaxBytes : Z := 8192.

(** What the first read of the socket gives: a message, a timeout or another failure. *)
Inductive first_read := FirstMessage (msg : wsMessage) | ReadTimeout | ReadFailed.

Inductive handshake :=
| BadServerID
| UpgradeFailed
| ReadRejected (reason : string)               (* the socket is closed without a frame *)
| Rejected (reason close message : string)     (* announced with [ClosePolicyViolation] *)
| Authenticated (c : Claims) (ctx : Context).  (* [StartSessionWithResult] runs *)

(** [TerminalHandler.Handle] up to the session. *)
Definition TerminalHandler `{JWTLib} (jwtSvc : JWTService) (now : time) (id : option Z) (upgraded : bool)
  (first : first_read) (ctx : Context) : handshake :=
  match id with
  | None => BadServerID
  | Some id =>
      if negb upgraded then UpgradeFailed
      else
        let authenticated (c : Claims) (ctx : Context) :=
          if CheckServerAccess (Some (c_ServerIDs c)) id then Authenticated c ctx
          else Rejected "terminal_permission_denied" "denied" "access denied: no access to this server" in
        match GetUserClaims ctx with
        | Some c => authenticated c ctx
        | None =>
            match first with
            | ReadTimeout => ReadRejected "terminal_auth_timeout"
            | ReadFailed => ReadRejected "terminal_auth_failed"
            | FirstMessage msg =>
                if negb (bool_decide (m_Type msg = "auth")) || bool_decide (m_Data msg = "") then
                  Rejected "terminal_auth_failed" "auth" "authentication required"
                else match ValidateToken jwtSvc now (m_Data msg) with
                | None => Rejected "terminal_auth_failed" "auth" "invalid or expired token"
                | Some c =>
                    match c_TokenVersion c with
                    | None => Rejected "terminal_auth_failed" "auth" "invalid or expired token"
                    | Some _ => authenticated c (WithUserClaims c ctx)
                    end
                end
            end
        end
  end.

(** ** Frames carry whole runes *)

Definition item_text (i : item) : string := match i with Good s => s | Invalid b => String b "" end.

Lemma item_size_text i : item_size i = String.length (item_text i).
Proof. by destruct i. Qed.

Lemma take_drop_app a t : str_take (String.length a) (a +:+ t) = a /\ str_drop (String.length a) (a +:+ t) = t.
Proof. induction a as [|c a [IH1 IH2]]; [by destruct t|]. cbn. by rewrite IH1, IH2. Qed.

Lemma first_item s :
  s <> "" -> exists i t, s = item_text i +:+ t /\ items s = i :: items t /\ well i /\ (1 <= item_size i)%nat.
Proof.
  apply (items_ind (fun s its => s <> "" ->
    exists i t, s = item_text i +:+ t /\ its = i :: items t /\ well i /\ (1 <= item_size i)%nat)).
  - done.
  - intros c t Hc _ _. exists (Good c), t. pose proof (chunk_length c Hc). cbn. split_and!; [done..|lia].
  - intros b t _ _ _. exists (Invalid b), t. by split_and!.
Qed.

Lemma items_invalid b t :
  items (String b t) = Invalid b :: items t <->
  match lead_of b, t with
  | Lead1, _ => False
  | Lead2, String c _ => continuation c = false
  | Lead3 lo hi, String c (String d _) => in_range lo hi c && continuation d = false
  | Lead4 lo hi, String c (String d (String e _)) => in_range lo hi c && continuation d && continuation e = false
  | _, _ => True
  end.
Proof.
  cbn [items]. destruct (lead_of b) as [| |lo hi|lo hi|].
  - split; [done|done].
  - destruct t as [|c t]; [done|]. by destruct (continuation c).
  - destruct t as [|c [|d t]]; [done..|]. by destruct (in_range lo hi c && continuation d).
  - destruct t as [|c [|d [|e t]]]; [done..|]. by destruct (in_range lo hi c && continuation d && continuation e).
  - done.
Qed.

(** An invalid byte stays invalid when what follows it is cut. *)
Lemma invalid_cut b a r :
  items (String b (a +:+ r)) = Invalid b :: items (a +:+ r) -> items (String b a) = Invalid b :: items a.
Proof.
  rewrite !items_invalid. destruct (lead_of b); try done.
  - by destruct a.
  - by destruct a as [|? [|? ?]].
  - by destruct a as [|? [|? [|? ?]]].
Qed.

(** A complete invalid beginning stays invalid when more bytes arrive. *)
Lemma invalid_extend b t d :
  FullRune (String b t) = true -> items (String b t) = Invalid b :: items t ->
  items (String b (t +:+ d)) = Invalid b :: items (t +:+ d).
Proof.
  rewrite !items_invalid. unfold FullRune. destruct (lead_of b) as [| |lo hi|lo hi|]; try done.
  - by destruct t.
  - destruct t as [|c [|e t]]; [done| |done]. cbn. destruct (in_range lo hi c) eqn:Ec; [done|].
    intros _ _. destruct d as [|e d]; [done|]. cbn. by rewrite ?Ec.
  - destruct t as [|c [|e [|f t]]]; [done| | |done]; cbn.
    + destruct (in_range lo hi c) eqn:Ec; [done|]. intros _ _. destruct d as [|e [|f d]]; [done..|]. cbn. by rewrite ?Ec.
    + destruct (in_range lo hi c) eqn:Ec; cbn.
      * destruct (continuation e) eqn:Ee; [done|]. intros _ _. destruct d as [|f d]; [done|]. cbn. by rewrite ?Ec, ?Ee.
      * intros _ _. destruct d as [|f d]; [done|]. cbn. by rewrite ?Ec.
Qed.

Lemma items_cut i a r :
  well i -> items (item_text i +:+ (a +:+ r)) = i :: items (a +:+ r) -> items (item_text i +:+ a) = i :: items a.
Proof.
  destruct i as [s|b]; cbn [item_text]; intros Hw Hi; [by apply chunk_items|].
  change (items (String b a) = Invalid b :: items a). by apply (invalid_cut b a r).
Qed.

Lemma items_extend i t d :
  well i -> FullRune (item_text i +:+ t) = true -> items (item_text i +:+ t) = i :: items t ->
  items (item_text i +:+ t +:+ d) = i :: items (t +:+ d).
Proof.
  destruct i as [s|b]; cbn [item_text]; intros Hw Hf Hi; [by apply chunk_items|].
  change (items (String b (t +:+ d)) = Invalid b :: items (t +:+ d)). by apply invalid_extend.
Qed.

(** The loop splits the bytes between two runes, also of the text that follows. *)
Lemma complete_runes_spec fuel final s d :
  (String.length s <= fuel)%nat -> final = false \/ d = "" ->
  exists a r, complete_runes fuel final s = (a, r) /\ s = a +:+ r /\ (final = true -> r = "") /\
    items (s +:+ d) = items a ++ items (r +:+ d).
Proof.
  revert s. induction fuel as [|fuel IH]; intros s Hl Hd.
  - exists "", s. destruct s; [done|cbn in Hl; lia].
  - cbn [complete_runes]. case_bool_decide as Hs; cbn [negb andb].
    { subst. by exists "", "". }
    destruct (final || FullRune s) eqn:Hf; [|exists "", s; by destruct final].
    destruct (first_item s Hs) as (i & t & -> & Hi & Hw & H1). rewrite item_size_text in H1.
    unfold rune_size. rewrite Hi, item_size_text. destruct (take_drop_app (item_text i) t) as [-> ->].
    rewrite String_app_length in Hl.
    destruct (IH t ltac:(lia) Hd) as (a & r & -> & -> & Hr & Hit).
    exists (item_text i +:+ a), r. split; [done|]. split; [by rewrite String_app_assoc|]. split; [done|].
    rewrite (items_cut i a r) by done. rewrite <- app_comm_cons, <- Hit, <- String_app_assoc.
    destruct Hd as [-> | ->]; [by apply items_extend|]. by rewrite !app_nil_r_str.
Qed.

Lemma bytes_of_app f fs : bytes_of (option_list f ++ fs) = default "" (frame_bytes <$> f) +:+ bytes_of fs.
Proof. by destruct f. Qed.

(** The runes a client reads from frames it decodes one by one. *)
Definition runes_of (fs : list frame) : list item := flat_map (fun f => items (frame_bytes f)) fs.

Lemma runes_of_app fs gs : runes_of (fs ++ gs) = runes_of fs ++ runes_of gs.
Proof. apply flat_map_app. Qed.

Lemma output_write_spec pending data final d :
  final = false \/ d = "" ->
  exists p f, output_write false pending data final = (p, f) /\
    pending +:+ data = bytes_of (option_list f) +:+ p /\ (final = true -> p = "") /\
    Forall (fun f => frame_bytes f <> "") (option_list f) /\
    items ((pending +:+ data) +:+ d) = runes_of (option_list f) ++ items (p +:+ d).
Proof.
  intros Hd. destruct (complete_runes_spec _ final (pending +:+ data) d (le_n _) Hd) as (a & r & E & E1 & Hr & Hi).
  unfold output_write. rewrite E. exists r, (if bool_decide (a = "") then None else Some (OutputFrame a)).
  split; [done|]. rewrite Hi, E1. case_bool_decide as Ha; cbn.
  - subst a. by split_and!.
  - rewrite !app_nil_r_str, app_nil_r. split_and!; [done|done| |done]. by repeat constructor.
Qed.

Lemma output_pump_cons binary p d d' ds :
  output_pump binary p (d :: d' :: ds) =
    let '(p', f) := output_write binary p d false in option_list f ++ output_pump binary p' (d' :: ds).
Proof. done. Qed.

(** C36: the frames of the output pump are the shell's output, byte for byte and in order,
    however the reads cut it; and a client that decodes each JSON frame by itself sees the
    runes of the whole output: no character is ever split between two frames, and bytes
    that are no UTF-8 turn into the same replacements. *)
Theorem output_frames_faithful binary reads :
  let fs := output_pump binary "" reads in
  bytes_of fs = foldr String.append "" reads /\ Forall (fun f => frame_bytes f <> "") fs /\
  (binary = false -> items (foldr String.append "" reads) = runes_of fs).
Proof.
  cbn zeta. destruct (decide (reads = [])) as [->|Hne]; [by destruct binary|]. destruct binary.
  - split_and!; [| |done].
    + induction reads as [|d [|d' ds] IH]; [done| |].
      * cbn. by case_bool_decide; subst; cbn; rewrite ?app_nil_r_str.
      * rewrite output_pump_cons. cbn [output_write]. rewrite bytes_of_app, IH by done.
        case_bool_decide; by subst.
    + induction reads as [|d [|d' ds] IH]; [done| |].
      * cbn. case_bool_decide; by repeat constructor.
      * rewrite output_pump_cons. cbn [output_write]. apply Forall_app. split; [|by apply IH].
        case_bool_decide; by repeat constructor.
  - enough (forall p, bytes_of (output_pump false p reads) = p +:+ foldr String.append "" reads /\
      Forall (fun f => frame_bytes f <> "") (output_pump false p reads) /\
      items (p +:+ foldr String.append "" reads) = runes_of (output_pump false p reads)) as Hall
      by (destruct (Hall "") as (H1 & H2 & H3); by split_and!).
    induction reads as [|d [|d' ds] IH]; intros p; [done| |].
    + destruct (output_write_spec p d true "") as (p' & f & Ew & E & Hp & Hf & Hi); [by right|].
      cbn [output_pump foldr]. rewrite Ew. cbn [snd]. rewrite Hp, !app_nil_r_str in * by done.
      rewrite Hi, E. split_and!; [done|done|]. by rewrite app_nil_r.
    + set (rest := foldr String.append "" (d' :: ds)) in *.
      destruct (output_write_spec p d false rest) as (p' & f & Ew & E & _ & Hf & Hi); [by left|].
      change (foldr String.append "" (d :: d' :: ds)) with (d +:+ rest).
      rewrite output_pump_cons, Ew. destruct (IH ltac:(done) p') as (I1 & I2 & I3).
      rewrite bytes_of_app, runes_of_app, I1, <- I3, <- Hi, !String_app_assoc. split_and!.
      * rewrite E. f_equal. f_equal. by destruct f; cbn; rewrite ?app_nil_r_str.
      * by apply Forall_app.
      * done.
Qed.

(** ** Who may open a session *)

Section admission.
Context `{JWTLib} {D : Type} `{!UserDB D} (compare : string -> string -> bool).
Abbreviation hub_reachable d h := (rtc (sys_step compare) (sys_initial d) h).

(** A token that the service signed, unexpired when it was validated. *)
Definition valid_token (jwtSvc : JWTService) (at_ : time) (tok : string) (c : Claims) : Prop :=
  exists m, (forall alg, m <> NotHMAC alg) /\ signed m (secret jwtSvc) c tok /\
    (forall e, ExpiresAt c = Some e -> at_ < e).

Lemma handler_with_claims jwtSvc later id up first ctx c0 c ctx' :
  GetUserClaims ctx = Some c0 -> TerminalHandler jwtSvc later (Some id) up first ctx = Authenticated c ctx' ->
  c = c0 /\ ctx' = ctx /\ CheckServerAccess (Some (c_ServerIDs c)) id = true.
Proof. unfold TerminalHandler. intros ->. destruct up, (CheckServerAccess _ _) eqn:E; try done. by intros [= <- <-]. Qed.

Lemma handler_first_message jwtSvc later id up first ctx c ctx' :
  GetUserClaims ctx = None -> TerminalHandler jwtSvc later (Some id) up first ctx = Authenticated c ctx' ->
  ctx' = WithUserClaims c ctx /\ CheckServerAccess (Some (c_ServerIDs c)) id = true /\ is_Some (c_TokenVersion c) /\
  exists msg, first = FirstMessage msg /\ m_Type msg = "auth" /\ valid_token jwtSvc later (m_Data msg) c.
Proof.
  unfold TerminalHandler. intros ->. destruct up, first as [msg| |]; try done. cbn -[CheckServerAccess].
  case_bool_decide as Ht; [|done]. case_bool_decide; [done|]. cbn -[CheckServerAccess].
  destruct (ValidateToken _ _ _) as [c1|] eqn:Ev; [|done]. destruct (c_TokenVersion c1) as [v|] eqn:Etv; [|done].
  destruct (CheckServerAccess (Some (c_ServerIDs c1)) id) eqn:Ea; [|done]. intros [= <- <-]. rewrite Etv. split_and!; eauto.
  exists msg. split_and!; [done..|]. by apply validate_signed in Ev.
Qed.

(** C37: the terminal endpoint starts a session only for a request that authenticated, by an
    API key whose scopes allow the endpoint or by a token signed under the service's secret
    (in the first message of the socket, or as a bearer token), and whose allow-list has the
    server; and every such session is managed: it belongs to the key at the revision, or to
    the user at the session version, that the request presented, so that the gate decides its
    registration and every input. *)
Theorem terminal_opens_authenticated {S} d g w jwtSvc (kv : key_validator S) now later env r cap s s' h' ctx id up first c ctx' :
  hub_reachable d (g, w) ->
  Auth jwtSvc kv now env r (mkContext None None cap) s (Some (g, w)) = (s', h', Served ctx) ->
  TerminalHandler jwtSvc later (Some id) up first ctx = Authenticated c ctx' ->
  CheckServerAccess (Some (c_ServerIDs c)) id = true /\ GetUserClaims ctx' = Some c /\
  exists subj, session_subject (GetPrincipal ctx') (Some c) = Some subj /\
  if by_key subj then
    exists p, Get r "X-API-Key" <> "" /\ validateAPIKeyIdentity kv (Get r "X-API-Key") s = (s', Ok p) /\
      (hasScope (r_Method r) (URLPath r) (UsageLog.Scopes p)).1 = true /\
      subjectID subj = default 0 (P_APIKeyID p) /\ expectedVersion subj = UsageLog.PermissionsRevision p
  else
    Get r "X-API-Key" = "" /\ subjectID subj = c_UserID c /\ c_TokenVersion c = Some (expectedVersion subj) /\
    ((exists msg, first = FirstMessage msg /\ valid_token jwtSvc later (m_Data msg) c) \/
     (exists tok, extractBearerToken r = Some tok /\ valid_token jwtSvc now tok c)).
Proof.
  intros R Ha Hh. destruct (decide (Get r "X-API-Key" = "")) as [Hk|Hk].
  - destruct (auth_without_key compare _ _ _ _ _ _ _ _ _ _ _ _ _ R Hk Ha) as [[_ ->]|(c1 & Hc & Hu & Hp)].
    + destruct (handler_first_message _ _ _ _ _ (mkContext None None cap) _ _ eq_refl Hh) as (-> & Hs & [v Hv] & msg & -> & _ & Hm).
      split_and!; [done|done|]. exists (mkSubject false (c_UserID c) v "session_revoked" "revoked").
      unfold session_subject. cbn. rewrite Hv. split_and!; [done..|]. left. by exists msg.
    + destruct (handler_with_claims _ _ _ _ _ _ _ _ _ Hu Hh) as (-> & -> & Hs).
      destruct Hc as (tok & m & Ht & Hm & Hsig & He & _ & [v Hv] & _).
      split_and!; [done|done|]. exists (mkSubject false (c_UserID c1) v "session_revoked" "revoked").
      unfold session_subject. rewrite Hp; cbn. rewrite Hv. split_and!; [done..|]. right. exists tok. split; [done|]. by exists m.
  - destruct (auth_by_key _ _ _ _ _ _ _ _ _ _ _ Hk Ha) as (p & Hv & Hp & Hs).
    assert (GetUserClaims ctx = Some (key_claims (as_api_key p))) as Hu.
    { unfold Auth in Ha. rewrite bool_decide_false, Hv in Ha by done. cbn [negb] in Ha.
      destruct (hasScope _ _ _) as [[] rq]; cbn [negb] in Ha; by simplify_eq. }
    destruct (handler_with_claims _ _ _ _ _ _ _ _ _ Hu Hh) as (-> & -> & Hc).
    split_and!; [done|done|]. unfold session_subject. rewrite Hp. cbn. eexists. split; [done|]. cbn. by exists p.
Qed.

(** A user's session enters the registry only at the committed session version. *)
Theorem terminal_registers_current d g w env subj g' w' :
  hub_reachable d (g, w) ->
  terminal_register env (subjectID subj) (expectedVersion subj) g w = (g', w', None) ->
  unresolved (Revocation.db w) (subjectID subj) = false /\
  committed (Revocation.db w) (subjectID subj) = Some (expectedVersion subj).
Proof.
  intros R Hr. apply inv_reachable in R as I. unfold terminal_register in Hr.
  match type of Hr with context [Gate.Admit _ ?u ?f _ _] =>
    pose proof (Admit_spec user_version user_locked_version env u f g w (si_wired _ I) (si_free _ I u)) as S end.
  destruct (Gate.Admit _ _ _ _ _) as [[g1 w1] e]. simplify_eq.
  destruct S as (_ & [(_ & _ & [|[]])|(v & e1 & Hv & Hf & He & _)]); [done..|].
  destruct (read_current _ _ _ _ I Hv) as [K1 K2]. split; [done|].
  destruct (expectedVersion subj =? v) eqn:E; cbn in Hf; [|by simplify_eq]. rewrite K2. f_equal. lia.
Qed.

(** What the shell receives: only data that the gate permitted at the session's version. *)
Theorem input_needs_permission (g : Gate (world D)) (w : world D) env subject s msg g' w' act :
  input_message (fun '(g, w) => let '(g, w, e) := terminal_input env subject s g w in (g, w, bool_decide (e = None)))
    true msg (g, w) = (g', w', act) ->
  (exists data, act = WriteStdin data) \/ (exists rows cols, act = WindowChange rows cols) ->
  (terminal_input env subject s g w).2 = None /\ act = (if bool_decide (m_Type msg = "input") then WriteStdin (m_Data msg)
                                                       else WindowChange (Rows msg) (Cols msg)).
Proof.
  intros Hi Ha. unfold input_message in Hi.
  destruct (negb _ && negb _) eqn:Et; [simplify_eq; destruct Ha as [[? [=]]|(? & ? & [=])]|].
  destruct (terminal_input env subject s g w) as [[g1 w1] e]. cbn. destruct e as [e|].
  - rewrite bool_decide_false in Hi by done. cbn in Hi. simplify_eq. destruct Ha as [[? [=]]|(? & ? & [=])].
  - rewrite bool_decide_true in Hi by done. cbn in Hi. by simplify_eq.
Qed.

End admission.

(** ** Witnesses *)

Section witnesses.
#[local] Instance demo_terminal_lib : JWTLib := one_token demo_claims.
Definition demo_upgrade : HTTPRequest :=
  mkHTTPRequest "GET" "/api/v1/servers/4/terminal" (fun h => if bool_decide (h = "Upgrade") then "websocket" else "").
Definition demo_first : first_read := FirstMessage (message "auth" "" "token").

Lemma terminal_opens_authenticated_witness :
  TerminalHandler demo_jwt (20 * Second) (Some 4) true demo_first demo_ctx
    = Authenticated demo_claims (WithUserClaims demo_claims demo_ctx) /\
  CheckServerAccess (Some (c_ServerIDs demo_claims)) 4 = true.
Proof.
  split; [vm_compute; reflexivity|].
  apply (terminal_opens_authenticated Revocation.demo_compare (Revocation.demo_db 0) demo_hub.1 demo_hub.2 demo_jwt
    (@OtherValidator unit) (10 * Second) (20 * Second) Revocation.calm demo_upgrade None tt tt (Some demo_hub) demo_ctx 4
    true demo_first demo_claims (WithUserClaims demo_claims demo_ctx) Revocation.demo_reachable).
  - vm_compute; reflexivity.
  - vm_compute; reflexivity.
Defined.

(** A three-byte character cut by the reads, then a stray byte. *)
Example demo_output :
  let euro := String (byte 226) (String (byte 130) "") in
  let rest := String (byte 172) "b" in
  output_pump false "" ["a" +:+ euro; rest; euro]
  = [OutputFrame "a"; OutputFrame (euro +:+ rest); OutputFrame euro].
Proof. reflexivity. Qed.
End witnesses.
