(* ===== verification/TerminalSession.v ===== *)
(** * The life of a terminal session

    [TerminalService.runSession], [StartSessionWithResult] and [keepTerminalAlive]
    ([service/terminal.go], [service/terminal_transport.go]) after the session was
    registered ([Terminal] and [Revocation] have what comes before).

    One session is a handful of goroutines over shared variables: the workflow that acquires
    the lease and opens the shell, three pumps, the teardown with the goroutine that closes
    the socket and the channel and the one that joins everybody, the close of a forced
    transport, and the HTTP request that waits for the result.  [step] performs one event of
    one of them; the calls into SSH, the socket, the pool and the gate answer as the event
    says, so every interleaving and every failure is covered.  That a session also ends, in
    fair runs, is in [TerminalTeardown].

    [subj] is who the session belongs to, [None] for an unmanaged one. *)

From S2P Require Import Prelude GoStrings Scope Registry Gate Revocation ApiKeys Text UsageLog Auth Terminal.
From coqutil Require Import Datatypes.RecordSetters.
Import TriangleBracketNotations.

(** ** The goroutines *)

(** The workflow, by the call it is about to make; [WReturn] is the deferred function, which
    closes [workflowDone], [WJoin] its wait for the teardown, [WLease] the wait for the lease. *)
Inductive workflow :=
| WAcquire | WClient | WNewSession | WCheckSetup | WPty | WStdin | WStdout | WShell | WAdmit | WCheck
| WReadDeadline | WConnected | WPumps | WReturn | WJoin | WLease | WUnregister | WDone.

#[export] Instance workflow_eq_dec : EqDecision workflow.
Proof. solve_decision. Defined.

Inductive teardown := TWait | TGrace | TForced | TDone.
#[export] Instance teardown_eq_dec : EqDecision teardown.
Proof. solve_decision. Defined.
(** The goroutine that ends the socket: the notice, the socket, the SSH channel. *)
Inductive closer := CNotStarted | CNotice | CSocket | CChannel | CDone.
Inductive joiner := JWait | JTransport | JDone.
(** A forced close of the SSH transport runs in a goroutine of its own. *)
Inductive closing := Untouched | Closing | Closed.
(** The keepalive; [stop] is [stopAfterJoin] of the request in flight. *)
Inductive keepalive := KStopped | KIdle | KRequest (stop : bool).
Inductive lease_state := LNone | LHeld | LDiscarded | LReleased.

(** What the HTTP request is answered: the event, whether forced, whether cleanup is pending. *)
Record owner_answer := mkAnswer { a_event : option session_end; a_Forced : bool; a_CleanupPending : bool }.

Record sess := mkSess {
  parent_done : bool; ctx_done : bool;     (* the request's context and the session's *)
  revoked : bool;                          (* the registry's state *)
  event : option session_end;              (* set once, by [end] *)
  forced : bool; sealed : bool; client : bool; session : bool; transport : closing; (* under [resourceMu] *)
  wf : workflow; td : teardown; cl : closer; jn : joiner;
  keep : keepalive; out_run : bool; in_run : bool; (* the pumps *)
  lease : lease_state; unregistered : bool; ready : bool;
  socket_open : bool; notice : option (wsMessage * Z * string);
  typed : list string;                     (* what was written to the shell *)
  result : option (session_end * bool); answer : option owner_answer }.

Definition registered_session : sess :=
  mkSess false false false None false false false false Untouched WAcquire TWait CNotStarted JWait
    KStopped false false LNone false false true None [] None None.

Section session.
Context (subj : option subject).

(** ** Closures of [runSession] *)

(** [end]: the first event wins and cancels the session's context. *)
Definition end_session (outcome reason closeReason : string) (s : sess) : sess :=
  match event s with
  | Some _ => s
  | None => s <| event := Some (mkEnd outcome reason closeReason) |> <| ctx_done := true |>
  end.

Definition end_revoked (s : sess) : sess :=
  match subj with
  | Some j => end_session "cancelled" (revokedReason j) (revokedCloseReason j) s
  | None => s
  end.

(** The cancellation of the context as an end; [revoked] implies a managed session. *)
Definition end_cancelled (s : sess) : sess :=
  if revoked s then end_revoked s else end_session "cancelled" "client_cancelled" "client_cancelled" s.

Definition startFailed (reason : string) (s : sess) : sess :=
  if revoked s then end_revoked s
  else if parent_done s then end_session "cancelled" "client_cancelled" "client_cancelled" s
  else end_session "failed" reason "ssh_error" s.

Definition closeTransport (s : sess) : sess :=
  if client s then match transport s with Untouched => s <| transport := Closing |> | _ => s end else s.

Definition force (s : sess) : sess :=
  if sealed s then s else closeTransport (s <| forced := true |>).

(** ** The steps *)

Definition return_after (f : sess -> sess) (s : sess) : sess := (f s) <| wf := WReturn |>.

Definition pumps_joined (k : keepalive) (out inp : bool) : bool :=
  match k with KStopped => negb out && negb inp | _ => false end.

(** The end of the wait for the teardown, the lease given back or not. *)
Definition settle_session (e : session_end) (s : sess) : sess :=
  let s := s <| result := Some (e, forced s) |> in
  match lease s with
  | LHeld =>
      let discard := forced s || bool_decide (Outcome e = "failed") || bool_decide (Outcome e = "cancelled") in
      s <| lease := if discard then LDiscarded else LReleased |> <| wf := WLease |>
  | _ => s <| wf := WUnregister |>
  end.

(** The workflow; [ok] is the answer of the call. *)
Definition work (ok : bool) (s : sess) : option sess :=
  match wf s with
  | WAcquire =>
      Some (if ok then s <| lease := LHeld |> <| wf := WClient |> else return_after (startFailed "terminal_ssh_failed") s)
  | WClient =>
      let s := s <| client := true |> in
      Some ((if forced s then closeTransport s else s) <| wf := WNewSession |>)
  | WNewSession =>
      Some (if ok then s <| session := true |> <| wf := WCheckSetup |> else return_after (startFailed "terminal_ssh_failed") s)
  | WCheckSetup =>
      Some (if ctx_done s then return_after (fun s => startFailed "terminal_ssh_failed" (force s)) s else s <| wf := WPty |>)
  | WPty => Some (if ok then s <| wf := WStdin |> else return_after (startFailed "terminal_ssh_failed") s)
  | WStdin => Some (if ok then s <| wf := WStdout |> else return_after (startFailed "terminal_ssh_failed") s)
  | WStdout => Some (if ok then s <| wf := WShell |> else return_after (startFailed "terminal_ssh_failed") s)
  | WShell => Some (if ok then s <| wf := WAdmit |> else return_after (startFailed "terminal_ssh_failed") s)
  | WAdmit =>
      match subj with
      | None => Some (s <| wf := WCheck |>)
      | Some _ =>
          (* the registry does not admit a revoked session *)
          Some (if ok && negb (revoked s) then s <| wf := WCheck |> else return_after end_revoked s)
      end
  | WCheck => Some (if ctx_done s then return_after (startFailed "terminal_ssh_failed") s else s <| wf := WReadDeadline |>)
  | WReadDeadline =>
      Some (if ok then s <| wf := WConnected |>
            else return_after (end_session "failed" "terminal_transport_failed" "transport_error") s)
  | WConnected =>
      Some (if ok then s <| ready := true |> <| keep := KIdle |> <| out_run := true |> <| in_run := true |> <| wf := WPumps |>
            else return_after (startFailed "terminal_output_failed") s)
  | WPumps => if pumps_joined (keep s) (out_run s) (in_run s) then Some (s <| wf := WReturn |>) else None
  | WReturn => Some (s <| wf := WJoin |>)
  | WJoin =>
      match td s, event s with
      | TDone, Some e => Some (settle_session e s)
      | _, _ => None
      end
  | WLease => Some (s <| wf := WUnregister |>)
  | WUnregister => Some ((match subj with Some _ => s <| unregistered := true |> | None => s end) <| wf := WDone |>)
  | WDone => None
  end.

(** [workflowDone] is closed. *)
Definition workflow_done (w : workflow) : bool :=
  match w with WJoin | WLease | WUnregister | WDone => true | _ => false end.

(** The teardown proceeds: it starts on an event or on the cancelled context, and ends when
    everybody has joined. *)
Definition tear (s : sess) : option sess :=
  match td s with
  | TWait =>
      if bool_decide (is_Some (event s)) || ctx_done s then
        Some ((end_cancelled s) <| td := TGrace |> <| cl := CNotice |>)
      else None
  | TGrace | TForced => match jn s with JDone => Some (s <| td := TDone |>) | _ => None end
  | TDone => None
  end.

(** The grace expires. *)
Definition grace_expired (s : sess) : option sess :=
  match td s with TGrace => Some ((force s) <| td := TForced |>) | _ => None end.

(** [notified]: the notice was written in time; otherwise the socket may be forced. *)
Definition close_step (notified : bool) (s : sess) : option sess :=
  match cl s, event s with
  | CNotice, Some e =>
      let '(msg, code, text, must) := end_notice e in
      Some (s <| notice := Some (msg, code, text) |>
              <| socket_open := if negb notified && must then false else socket_open s |> <| cl := CSocket |>)
  | CSocket, _ => Some (s <| socket_open := false |> <| cl := CChannel |>)
  | CChannel, _ => Some (s <| cl := CDone |>)
  | _, _ => None
  end.

Definition join_step (s : sess) : option sess :=
  match jn s with
  | JWait =>
      match cl s with
      | CDone =>
          if workflow_done (wf s)
          then Some (s <| sealed := true |> <| jn := match transport s with Untouched => JDone | _ => JTransport end |>)
          else None
      | _ => None
      end
  | JTransport => match transport s with Closed => Some (s <| jn := JDone |>) | _ => None end
  | JDone => None
  end.

(** [keepTerminalAlive]. *)
Inductive keep_event := KPing (ok : bool) | KReply (ok : bool) | KTimeout | KCancelled.

Definition keep_step (e : keep_event) (s : sess) : option sess :=
  match keep s, e with
  | KIdle, KPing ok =>
      if negb ok then
        Some ((if ctx_done s then s else end_session "failed" "terminal_transport_timeout" "transport_error" s) <| keep := KStopped |>)
      else Some (s <| keep := if ctx_done s then KStopped else KRequest false |>)
  | KIdle, KCancelled => if ctx_done s then Some (s <| keep := KStopped |>) else None
  | KRequest stop, KReply ok =>
      if stop || ctx_done s then Some (s <| keep := KStopped |>)
      else if ok then Some (s <| keep := KIdle |>)
      else Some ((end_session "failed" "terminal_keepalive_failed" "ssh_error" s) <| keep := KStopped |>)
  | KRequest false, KTimeout =>
      Some ((if ctx_done s then s else force (end_session "failed" "terminal_keepalive_timeout" "ssh_error" s)) <| keep := KRequest true |>)
  | KRequest false, KCancelled => if ctx_done s then Some (s <| keep := KRequest true |>) else None
  | _, _ => None
  end.

(** The output pump: a chunk was written, the write failed, the shell ended or failed. *)
Inductive out_event := OChunk | OWriteFailed | OEnd | OReadFailed.

Definition out_step (e : out_event) (s : sess) : option sess :=
  if out_run s then
    Some match e with
    | OChunk => s
    | OWriteFailed => (end_session "failed" "terminal_output_failed" "transport_error" s) <| out_run := false |>
    | OEnd => (end_session "succeeded" "" "remote_closed" s) <| out_run := false |>
    | OReadFailed => (end_session "failed" "terminal_ssh_failed" "ssh_error" s) <| out_run := false |>
    end
  else None.

(** The input pump: the peer closed, the read timed out or failed, or a message arrived;
    [permitted] is the gate's answer, [ok] the answer of the shell. *)
Inductive in_event := IClosed | ITimeout | IFailed | IMessage (msg : wsMessage) (permitted ok : bool).

Definition in_step (e : in_event) (s : sess) : option sess :=
  if in_run s then
    match e with
    | IClosed => Some ((end_session "succeeded" "" "normal_close" s) <| in_run := false |>)
    | ITimeout => Some ((end_session "failed" "terminal_transport_timeout" "transport_error" s) <| in_run := false |>)
    | IFailed => Some ((end_session "failed" "terminal_transport_failed" "transport_error" s) <| in_run := false |>)
    | IMessage msg permitted ok =>
        let managed := bool_decide (is_Some subj) in
        (* the registry permits no input of a revoked session *)
        match (input_message (fun s => (s, permitted && negb (revoked s))) managed msg s).2 with
        | Ignored => Some s
        | Revoked => Some ((end_revoked s) <| in_run := false |>)
        | WriteStdin data =>
            let s := s <| typed := typed s ++ [data] |> in
            Some (if ok then s else (end_session "failed" "terminal_input_failed" "ssh_error" s) <| in_run := false |>)
        | WindowChange _ _ =>
            Some (if ok then s else (end_session "failed" "terminal_resize_failed" "ssh_error" s) <| in_run := false |>)
        end
    end
  else None.

(** ** Events *)
Inductive happening :=
| EParent                 (* the request's context is cancelled *)
| ERevoked                (* the registry marks the session *)
| ECancel | EForce        (* its callbacks, called by the registry on a revoked session *)
| EWork (ok : bool) | ETear | EGrace | EClose (notified : bool) | EJoin | ETransportClosed
| EKeep (e : keep_event) | EOut (e : out_event) | EIn (e : in_event)
| EDeadline               (* the absolute deadline: the request is answered "pending" *)
| EOwner.                 (* the request receives the result *)

Definition step (ev : happening) (s : sess) : option sess :=
  match ev with
  | EParent => Some (s <| parent_done := true |> <| ctx_done := true |>)
  | ERevoked =>
      if bool_decide (is_Some subj) && negb (unregistered s) then Some (s <| revoked := true |>) else None
  | ECancel => if revoked s then Some (s <| ctx_done := true |>) else None
  | EForce => if revoked s then Some (force s) else None
  | EWork ok => work ok s
  | ETear => tear s
  | EGrace => grace_expired s
  | EClose notified => close_step notified s
  | EJoin => join_step s
  | ETransportClosed => match transport s with Closing => Some (s <| transport := Closed |>) | _ => None end
  | EKeep e => keep_step e s
  | EOut e => out_step e s
  | EIn e => in_step e s
  | EDeadline =>
      match td s, wf s, answer s with
      | TWait, _, _ | _, WDone, _ | _, _, Some _ => None
      | _, _, None => Some (s <| answer := Some (mkAnswer (event s) (forced s) true) |>)
      end
  | EOwner =>
      match wf s, answer s, result s with
      | WDone, None, Some (e, f) => Some (s <| answer := Some (mkAnswer (Some e) f false) |>)
      | _, _, _ => None
      end
  end.

Definition sstep (s s' : sess) : Prop := exists ev, step ev s = Some s'.
Definition session_reachable (s : sess) : Prop := rtc sstep registered_session s.
(** ** The invariant *)

Definition returned (w : workflow) : bool :=
  match w with WReturn | WJoin | WLease | WUnregister | WDone => true | _ => false end.
Definition past_join (w : workflow) : bool := match w with WLease | WUnregister | WDone => true | _ => false end.
Definition lease_returned (l : lease_state) : bool := match l with LDiscarded | LReleased => true | _ => false end.

Record session_inv (s : sess) : Prop := {
  v_event : td s <> TWait -> is_Some (event s);
  v_cancelled : is_Some (event s) -> ctx_done s = true;
  v_returned : returned (wf s) = true -> is_Some (event s);
  v_revoked : revoked s = true -> is_Some subj;
  v_pumps : pumps_joined (keep s) (out_run s) (in_run s) = false -> wf s = WPumps;
  v_input : wf s = WPumps -> in_run s = false -> is_Some (event s);
  v_closer : cl s = CNotStarted <-> td s = TWait;
  v_sealed : sealed s = true <-> jn s <> JWait;
  v_join : sealed s = true -> cl s = CDone /\ workflow_done (wf s) = true;
  v_joining : jn s = JTransport -> transport s <> Untouched;
  v_transport : jn s = JDone -> transport s <> Closing;
  v_torn : td s = TDone -> jn s = JDone;
  v_past : past_join (wf s) = true -> td s = TDone;
  v_lease : lease_returned (lease s) = true -> past_join (wf s) = true;
  v_kept : lease s = LReleased -> forced s = false /\ (Outcome <$> event s <> Some "failed") /\ (Outcome <$> event s <> Some "cancelled");
  v_forced : transport s <> Untouched -> forced s = true;
  v_client : client s = true -> lease s <> LNone;
  v_acquired : wf s = WClient -> lease s <> LNone;
  v_held : past_join (wf s) = true -> lease s <> LHeld;
  v_result : forall e f, result s = Some (e, f) -> event s = Some e /\ forced s = f /\ past_join (wf s) = true;
  v_done : past_join (wf s) = true -> is_Some (result s);
  v_unregistered : unregistered s = true -> wf s = WDone;
  v_left : wf s = WDone -> is_Some subj -> unregistered s = true;
  v_answer : forall a, answer s = Some a ->
    is_Some (event s) /\ a_event a = event s /\ (a_CleanupPending a = false -> wf s = WDone) }.

Lemma session_inv_initial : session_inv registered_session.
Proof. split; cbn; try done; try (by intros [? [=]]); try (by intros [=]). Qed.

(** *** The closures *)

Lemma end_cases o r c s :
  (is_Some (event s) /\ end_session o r c s = s) \/
  (event s = None /\ end_session o r c s = s <| event := Some (mkEnd o r c) |> <| ctx_done := true |>).
Proof. unfold end_session. destruct (event s); eauto. Qed.

Lemma sealed_of_returned s : session_inv s -> past_join (wf s) = true -> sealed s = true /\ is_Some (event s).
Proof.
  intros I Hp. pose proof (v_past _ I Hp) as Ht. split.
  - apply (v_sealed _ I). by rewrite (v_torn _ I Ht).
  - apply (v_event _ I). by rewrite Ht.
Qed.

Lemma lease_kept s : session_inv s -> sealed s = false ->
  lease_returned (lease s) = false /\ past_join (wf s) = false /\ result s = None.
Proof.
  intros I Hs. destruct (past_join (wf s)) eqn:Hp; [apply sealed_of_returned in Hp as [Hp _]; [congruence|done]|].
  split_and!; [|done|].
  - destruct (lease_returned (lease s)) eqn:Hl; [|done]. apply (v_lease _ I) in Hl. congruence.
  - destruct (result s) as [[e f]|] eqn:Hr; [|done]. destruct (v_result _ I e f Hr) as (_ & _ & Hx). congruence.
Qed.

Lemma event_needed s : session_inv s -> event s = None ->
  td s = TWait /\ returned (wf s) = false /\ past_join (wf s) = false /\ lease s <> LReleased /\ answer s = None /\
  result s = None.
Proof.
  intros I He.
  assert (past_join (wf s) = false) as Hp.
  { destruct (past_join (wf s)) eqn:Hp; [|done]. apply sealed_of_returned in Hp as [_ Hp]; [|done]. rewrite He in Hp. by destruct Hp. }
  split_and!.
  - destruct (td s) eqn:Ht; [done|..]; destruct (v_event _ I) as [e Hx]; congruence.
  - destruct (returned (wf s)) eqn:Hr; [|done]. apply (v_returned _ I) in Hr. rewrite He in Hr. by destruct Hr.
  - done.
  - intros Hl. pose proof (v_lease _ I) as Hx. rewrite Hl in Hx. specialize (Hx eq_refl). congruence.
  - destruct (answer s) as [a|] eqn:Ha; [|done]. destruct (v_answer _ I a Ha) as [[e Hx] _]. congruence.
  - destruct (result s) as [[e f]|] eqn:Hr; [|done]. destruct (v_result _ I e f Hr) as [Hx _]. congruence.
Qed.

(** Changing one field keeps what does not mention it. *)
Ltac absurd_place :=
  exfalso;
  match goal with
  | Hx : ?P -> _ = _, Hy : ?P |- _ => discriminate (Hx Hy)
  | Hx : true = true -> _ = _ |- _ => discriminate (Hx eq_refl)
  | Hx : true = true -> ?a = ?b, Hy : ?a <> ?b |- _ => exact (Hy (Hx eq_refl))
  end.
Ltac same_answer :=
  match goal with
  | Hx : forall a, Some _ = Some a -> _ |- is_Some _ /\ _ =>
      let Ha := fresh in destruct (Hx _ eq_refl) as (? & ? & Ha); split_and!; [done..|];
      intros Hb; first [done | by apply Ha in Hb | by auto]
  end.
Ltac keep s I :=
  destruct I; destruct s; unfold apply_update, constant in *; cbn in *; subst;
  split; cbn in *; try assumption; intros; simplify_eq; try done; auto; try congruence;
  try absurd_place; try same_answer.

Lemma session_inv_end o r c s : session_inv s -> session_inv (end_session o r c s).
Proof.
  intros I. destruct (end_cases o r c s) as [[_ ->]|[He ->]]; [done|].
  destruct (event_needed s I He) as (H1 & H2 & H3 & H4 & H5 & H6). keep s I.
Qed.

Lemma session_inv_end_revoked s : session_inv s -> session_inv (end_revoked s).
Proof. unfold end_revoked. destruct subj; auto using session_inv_end. Qed.

Lemma session_inv_force s : session_inv s -> session_inv (force s).
Proof.
  intros I. unfold force. destruct (sealed s) eqn:Hs; [done|].
  destruct (lease_kept s I Hs) as (Hl & Hp & Hr).
  assert (jn s = JWait) as Hj.
  { destruct (jn s) eqn:Hj; [done|..]; assert (sealed s = true) by (apply (v_sealed _ I); by rewrite Hj); congruence. }
  unfold closeTransport. cbn. destruct (client s) eqn:Hc; [destruct (transport s) eqn:Ht|]; keep s I.
Qed.
(** A workflow that has not returned moves on, or returns when there is an event. *)
Lemma session_inv_move w s :
  session_inv s -> returned (wf s) = false -> pumps_joined (keep s) (out_run s) (in_run s) = true ->
  w = WReturn /\ is_Some (event s) \/ returned w = false -> (w = WClient -> lease s <> LNone) -> w <> WPumps ->
  session_inv (s <| wf := w |>).
Proof.
  intros I Hr Hp Hw Hcl Hnp. assert (past_join w = false /\ w <> WDone) as [Hpw Hwd] by (by destruct w, Hw as [[? ?]|?]).
  assert (past_join (wf s) = false /\ wf s <> WDone /\ workflow_done (wf s) = false) as (Hps & Hws & Hwf) by (by destruct (wf s)).
  assert (sealed s = false) as Hs.
  { destruct (sealed s) eqn:Hs; [|done]. apply (v_join _ I) in Hs as [_ Hs]. congruence. }
  destruct (lease_kept s I Hs) as (Hl & _ & Hres).
  keep s I; try (destruct Hw as [[-> ?]|?]; congruence).
Qed.

Lemma startFailed_event reason s : session_inv s -> session_inv (startFailed reason s) /\ is_Some (event (startFailed reason s)).
Proof.
  intros I. unfold startFailed, end_revoked. assert (revoked s = true -> is_Some subj) as Hr by apply I.
  destruct (revoked s); [destruct subj; [|by destruct Hr]|destruct (parent_done s)]; split; auto using session_inv_end;
    match goal with |- is_Some (event (end_session ?o ?r ?c _)) => destruct (end_cases o r c s) as [[? ->]|[_ ->]]; done end.
Qed.

(** The closures leave the goroutines where they are. *)
Definition same_place (s s' : sess) : Prop :=
  wf s' = wf s /\ keep s' = keep s /\ out_run s' = out_run s /\ in_run s' = in_run s /\ td s' = td s /\
  cl s' = cl s /\ jn s' = jn s /\ lease s' = lease s /\ typed s' = typed s /\ sealed s' = sealed s.

Lemma same_place_trans s1 s2 s3 : same_place s1 s2 -> same_place s2 s3 -> same_place s1 s3.
Proof. unfold same_place. intuition congruence. Qed.
Lemma end_event o r c s : is_Some (event (end_session o r c s)).
Proof. destruct (end_cases o r c s) as [[? ->]|[_ ->]]; done. Qed.
Lemma same_end o r c s : same_place s (end_session o r c s).
Proof. unfold end_session. by destruct (event s), s. Qed.
Lemma same_end_revoked s : same_place s (end_revoked s).
Proof. unfold end_revoked. destruct subj; [apply same_end|by destruct s]. Qed.
Lemma same_startFailed reason s : same_place s (startFailed reason s).
Proof.
  unfold startFailed. destruct (revoked s); [apply same_end_revoked|]. destruct (parent_done s); apply same_end.
Qed.
Lemma same_force s : same_place s (force s).
Proof.
  unfold force, closeTransport. destruct (sealed s) eqn:E; [by destruct s|]. destruct s; cbn in *.
  by destruct client0, transport0.
Qed.

(** A setup call that fails, or the last pump, ends the workflow. *)
Definition early (s : sess) : Prop := returned (wf s) = false /\ pumps_joined (keep s) (out_run s) (in_run s) = true.

Lemma session_inv_return f s :
  session_inv (f s) -> early s -> same_place s (f s) -> is_Some (event (f s)) -> session_inv (return_after f s).
Proof.
  intros I [Hr Hp] (P1 & P2 & P3 & P4 & _) He. unfold return_after.
  apply session_inv_move; rewrite ?P1, ?P2, ?P3, ?P4; auto.
Qed.

Lemma session_inv_return_failed reason s : session_inv s -> early s -> session_inv (return_after (startFailed reason) s).
Proof.
  intros I E. destruct (startFailed_event reason s I). by apply session_inv_return; [..|apply same_startFailed|].
Qed.

Lemma early_setup s : session_inv s -> returned (wf s) = false -> wf s <> WPumps -> early s.
Proof.
  intros I Hr Hn. split; [done|]. destruct (pumps_joined _ _ _) eqn:Hp; [done|]. by apply (v_pumps _ I) in Hp.
Qed.

Lemma session_inv_lease s : session_inv s -> early s -> session_inv (s <| lease := LHeld |>).
Proof.
  intros I [Hr _]. assert (past_join (wf s) = false) as Hp by (by destruct (wf s)). keep s I.
Qed.

Lemma session_inv_client s : session_inv s -> lease s <> LNone -> session_inv (s <| client := true |>).
Proof. intros I Hl. keep s I. Qed.

Lemma force_client s :
  sealed s = false -> forced s = true -> closeTransport (s <| client := true |>) = force (s <| client := true |>).
Proof. intros. destruct s; cbn in *; by subst. Qed.

Lemma unsealed s : session_inv s -> returned (wf s) = false -> sealed s = false.
Proof.
  intros I Hr. destruct (sealed s) eqn:Hs; [|done]. apply (v_join _ I) in Hs as [_ Hs]. by destruct (wf s).
Qed.

Lemma session_inv_settle e s s' :
  session_inv s -> wf s = WJoin -> td s = TDone -> event s = Some e -> Some (settle_session e s) = Some s' -> session_inv s'.
Proof.
  intros I Hw Ht He [= <-]. unfold settle_session. destruct I, s; unfold apply_update, constant in *; cbn in *; subst.
  destruct lease0; cbn; [| |by specialize (v_lease0 eq_refl)..];
    [|destruct (forced0 || bool_decide (Outcome e = "failed") || bool_decide (Outcome e = "cancelled")) eqn:Ed];
    split; cbn; try assumption; intros; simplify_eq; try done; auto; try congruence; try absurd_place; try same_answer.
  bools. split_and!; [done|intros [=]; congruence..].
Qed.

Lemma session_inv_work ok s s' : session_inv s -> work ok s = Some s' -> session_inv s'.
Proof.
  intros I H. unfold work in H.
  assert (forall w, wf s = w -> returned w = false -> w <> WPumps -> early s) as He
    by (intros w <-; by apply early_setup).
  assert (forall w, early s -> returned w = false -> w <> WClient -> w <> WPumps -> session_inv (s <| wf := w |>)) as Hm
    by (intros w [? ?] ? ? ?; apply session_inv_move; auto).
  destruct (wf s) eqn:Hw; try (pose proof (He _ eq_refl eq_refl ltac:(done)) as E); clear He.
  - (* WAcquire *) destruct ok; simplify_eq; [|by apply session_inv_return_failed].
    apply session_inv_move; [by apply session_inv_lease|by destruct E..|by right|done|done].
  - (* WClient *)
    pose proof (session_inv_client s I (v_acquired _ I Hw)) as I1.
    assert (sealed s = false) as Hs by (apply unsealed; [done|by rewrite Hw]).
    assert (forced (s <| client := true |>) = forced s) as Ef by (by destruct s).
    cbn zeta in H. rewrite Ef in H. destruct (forced s) eqn:Hf; simplify_eq.
    + rewrite force_client by done. destruct (same_force (s <| client := true |>)) as (P1 & P2 & P3 & P4 & _).
      apply session_inv_move; [by apply session_inv_force|rewrite ?P1, ?P2, ?P3, ?P4; by destruct E..|by right|done|done].
    + apply session_inv_move; [done|by destruct E..|by right|done|done].
  - (* WNewSession *) destruct ok; simplify_eq; [|by apply session_inv_return_failed].
    apply session_inv_move; [keep s I|by destruct E..|by right|done|done].
  - (* WCheckSetup *) destruct (ctx_done s); simplify_eq; [|by apply Hm].
    pose proof (session_inv_force s I) as If. destruct (startFailed_event "terminal_ssh_failed" (force s) If) as [I1 Hev].
    apply (session_inv_return (fun s => startFailed "terminal_ssh_failed" (force s))); [done|done| |done].
    eapply same_place_trans; [apply same_force|apply same_startFailed].
  - destruct ok; simplify_eq; [by apply Hm|by apply session_inv_return_failed].
  - destruct ok; simplify_eq; [by apply Hm|by apply session_inv_return_failed].
  - destruct ok; simplify_eq; [by apply Hm|by apply session_inv_return_failed].
  - destruct ok; simplify_eq; [by apply Hm|by apply session_inv_return_failed].
  - (* WAdmit *) destruct subj as [j|] eqn:Hj; simplify_eq; [|by apply Hm].
    destruct (ok && negb (revoked s)); simplify_eq; [by apply Hm|].
    apply session_inv_return; [by apply session_inv_end_revoked|done|apply same_end_revoked|].
    unfold end_revoked. rewrite Hj. apply end_event.
  - (* WCheck *) destruct (ctx_done s); simplify_eq; [by apply session_inv_return_failed|by apply Hm].
  - (* WReadDeadline *) destruct ok; simplify_eq; [by apply Hm|].
    apply session_inv_return; [by apply session_inv_end|done|apply same_end|apply end_event].
  - (* WConnected *) destruct ok; simplify_eq; [|by apply session_inv_return_failed].
    assert (past_join (wf s) = false /\ wf s <> WDone) as [? ?] by (by rewrite Hw).
    pose proof (unsealed s I) as Hs. rewrite Hw in Hs. specialize (Hs eq_refl).
    destruct (lease_kept s I Hs) as (? & ? & ?). keep s I.
  - (* WPumps *) destruct (pumps_joined _ _ _) eqn:Hp; simplify_eq.
    apply session_inv_move; [done|by rewrite Hw|done| |done|done]. left. split; [done|].
    apply (v_input _ I Hw). unfold pumps_joined in Hp. by destruct (keep s), (in_run s), (out_run s).
  - (* WReturn *) simplify_eq. clear Hm. keep s I. split; [by apply v_join0|done].
  - (* WJoin *) clear Hm. destruct (td s) eqn:Ht, (event s) as [e|] eqn:Hev; try done.
    by eapply (session_inv_settle e s).
  - (* WLease *) simplify_eq. clear Hm. keep s I.
  - (* WUnregister *) clear Hm. destruct subj as [j|] eqn:Hj; simplify_eq; keep s I.
  - done.
Qed.
Lemma session_inv_stop_in s : session_inv s -> is_Some (event s) -> session_inv (s <| in_run := false |>).
Proof.
  intros I He. keep s I. apply v_pumps0. unfold pumps_joined in *. by destruct keep0, out_run0, in_run0.
Qed.

Lemma session_inv_stop_out s : session_inv s -> session_inv (s <| out_run := false |>).
Proof. intros I. keep s I. apply v_pumps0. unfold pumps_joined in *. by destruct keep0, out_run0, in_run0. Qed.

Lemma session_inv_keep k s : session_inv s -> keep s <> KStopped -> session_inv (s <| keep := k |>).
Proof. intros I Hk. keep s I; apply v_pumps0; unfold pumps_joined in *; by destruct keep0, k. Qed.

Lemma session_inv_out e s s' : session_inv s -> out_step e s = Some s' -> session_inv s'.
Proof.
  intros I H. unfold out_step in H. destruct (out_run s); [|done].
  destruct e; simplify_eq; auto using session_inv_stop_out, session_inv_end.
Qed.

Lemma session_inv_in e s s' : session_inv s -> in_step e s = Some s' -> session_inv s'.
Proof.
  intros I H. unfold in_step in H. destruct (in_run s); [|done].
  assert (forall o r c, session_inv ((end_session o r c s) <| in_run := false |>)) as Hend
    by (intros; apply session_inv_stop_in; [by apply session_inv_end|apply end_event]).
  destruct e; simplify_eq; auto.
  destruct (input_message _ _ _ _) as [s1 act] eqn:Ei. cbn [snd] in H. destruct act; simplify_eq; auto.
  - assert (session_inv (s <| typed := typed s ++ [data] |>)) as It by keep s I.
    destruct ok; simplify_eq; [done|]. apply session_inv_stop_in; [by apply session_inv_end|apply end_event].
  - destruct ok; simplify_eq; auto.
  - apply session_inv_stop_in; [by apply session_inv_end_revoked|]. unfold end_revoked. destruct subj as [j|] eqn:Hj; [apply end_event|].
    exfalso. unfold input_message in Ei. destruct (_ && _); [done|]. cbn in Ei. by destruct (bool_decide _).
Qed.

Lemma session_inv_keepalive e s s' : session_inv s -> keep_step e s = Some s' -> session_inv s'.
Proof.
  intros I H. unfold keep_step in H.
  assert (forall o r c, keep (end_session o r c s) = keep s) as Hk by (intros; apply same_end).
  destruct (keep s) as [| |stop] eqn:Hs; [done|..].
  - destruct e as [ok| | |]; [|done..|].
    + destruct ok; cbn [negb] in H; simplify_eq; [by apply session_inv_keep; [|rewrite Hs]|].
      destruct (ctx_done s); [by apply session_inv_keep; [|rewrite Hs]|].
      apply session_inv_keep; [by apply session_inv_end|by rewrite Hk].
    + destruct (ctx_done s); simplify_eq. by apply session_inv_keep; [|rewrite Hs].
  - destruct e as [|ok| |], stop; cbn [orb] in H; try done.
    + simplify_eq. by apply session_inv_keep; [|rewrite Hs].
    + destruct (ctx_done s); simplify_eq; [by apply session_inv_keep; [|rewrite Hs]|].
      destruct ok; simplify_eq; [by apply session_inv_keep; [|rewrite Hs]|]. apply session_inv_keep; [by apply session_inv_end|by rewrite Hk].
    + simplify_eq. destruct (ctx_done s); [by apply session_inv_keep; [|rewrite Hs]|].
      apply session_inv_keep; [by apply session_inv_force, session_inv_end|].
      destruct (same_force (end_session "failed" "terminal_keepalive_timeout" "ssh_error" s)) as (_ & -> & _). by rewrite Hk.
    + destruct (ctx_done s); simplify_eq. by apply session_inv_keep; [|rewrite Hs].
Qed.

Lemma end_cancelled_event s : session_inv s -> session_inv (end_cancelled s) /\ is_Some (event (end_cancelled s)) /\ same_place s (end_cancelled s).
Proof.
  intros I. unfold end_cancelled, end_revoked. assert (revoked s = true -> is_Some subj) as Hr by apply I.
  destruct (revoked s); [destruct subj; [|by destruct Hr]|]; split_and!; auto using session_inv_end, end_event, same_end.
Qed.

Lemma session_inv_tear s s' : session_inv s -> tear s = Some s' -> session_inv s'.
Proof.
  intros I H. unfold tear in H. destruct (td s) eqn:Ht.
  - destruct (_ || _); simplify_eq. destruct (end_cancelled_event s I) as (I1 & He & (P1 & P2 & P3 & P4 & P5 & P6 & P7 & _)).
    revert I1 He P1 P5 P6 P7. generalize (end_cancelled s). intros s1 I1 He P1 P5 P6 P7. rewrite Ht in P5.
    assert (past_join (wf s1) = false) as Hp.
    { destruct (past_join (wf s1)) eqn:Hp; [|done]. apply (v_past _ I1) in Hp. congruence. }
    assert (jn s1 = JWait) as Hj.
    { assert (cl s1 = CNotStarted) as Hc by (by apply (v_closer _ I1)). destruct (jn s1) eqn:Hj; [done|..];
        destruct (v_join _ I1) as [Hd _]; try (apply (v_sealed _ I1); by rewrite Hj); congruence. }
    assert (sealed s1 = false) as Hs.
    { destruct (sealed s1) eqn:Hs; [|done]. by apply (v_sealed _ I1) in Hs. }
    clear P1 P6 P7. keep s1 I1.
  - destruct (jn s) eqn:Hj; simplify_eq. keep s I. by split; [intros ?%v_closer0|].
  - destruct (jn s) eqn:Hj; simplify_eq. keep s I. by split; [intros ?%v_closer0|].
  - done.
Qed.

Lemma session_inv_grace s s' : session_inv s -> grace_expired s = Some s' -> session_inv s'.
Proof.
  intros I H. unfold grace_expired in H. destruct (td s) eqn:Ht; simplify_eq.
  destruct (same_force s) as (P1 & P2 & P3 & P4 & P5 & P6 & P7 & _). pose proof (session_inv_force s I) as If.
  rewrite Ht in P5. revert If P5. generalize (force s). clear. intros s If P5.
  assert (past_join (wf s) = false) as Hp.
  { destruct (past_join (wf s)) eqn:Hp; [|done]. apply (v_past _ If) in Hp. congruence. }
  keep s If. by split; [intros ?%v_closer0|].
Qed.

Lemma session_inv_close notified s s' : session_inv s -> close_step notified s = Some s' -> session_inv s'.
Proof.
  intros I H. unfold close_step in H.
  assert (cl s <> CDone -> cl s <> CNotStarted -> td s <> TWait /\ sealed s = false) as Hc.
  { intros H1 H2. split; [by rewrite <- (v_closer _ I)|]. destruct (sealed s) eqn:Hs; [|done].
    by destruct (v_join _ I Hs). }
  destruct (cl s) eqn:Hcl; [done|..]; [|destruct (Hc ltac:(done) ltac:(done)) as [Ht Hs]..|done].
  - destruct (Hc ltac:(done) ltac:(done)) as [Ht Hs].
    destruct (event s) as [e|]; [|done]. destruct (end_notice e) as [[[msg code] text] must]. simplify_eq.
    keep s I.
  - simplify_eq. keep s I.
  - simplify_eq. keep s I.
Qed.

Lemma session_inv_joiner s s' : session_inv s -> join_step s = Some s' -> session_inv s'.
Proof.
  intros I H. unfold join_step in H. destruct (jn s) eqn:Hj; [| |done].
  - destruct (cl s) eqn:Hcl; try done. destruct (workflow_done (wf s)) eqn:Hw; simplify_eq.
    assert (td s <> TDone) as Ht by (intros Ht%(v_torn _ I); congruence).
    keep s I; destruct transport0; try done.
  - destruct (transport s) eqn:Htr; simplify_eq. keep s I. split; [done|intros _; by apply v_sealed0].
Qed.

Lemma session_inv_step ev s s' : session_inv s -> step ev s = Some s' -> session_inv s'.
Proof.
  intros I H. destruct ev; cbn [step] in H;
    [| | | |by eapply session_inv_work|by eapply session_inv_tear|by eapply session_inv_grace|by eapply session_inv_close|by eapply session_inv_joiner| 
     |by eapply session_inv_keepalive|by eapply session_inv_out|by eapply session_inv_in| |].
  - simplify_eq. keep s I.
  - destruct (bool_decide _ && _) eqn:E; simplify_eq. bools. keep s I.
  - destruct (revoked s); simplify_eq. keep s I.
  - destruct (revoked s); simplify_eq. by apply session_inv_force.
  - destruct (transport s) eqn:Ht; simplify_eq. keep s I.
  - assert (td s <> TWait -> is_Some (event s)) as He by apply I.
    destruct (td s) eqn:Ht, (wf s) eqn:Hw, (answer s) eqn:Ha; simplify_eq; specialize (He ltac:(done)); keep s I.
  - destruct (wf s) eqn:Hw; try done. destruct (answer s) eqn:Ha; [done|].
    destruct (result s) as [[e f]|] eqn:Hr; simplify_eq. destruct (v_result _ I e f Hr) as (He & _). keep s I.
Qed.

Lemma session_inv_reachable s : session_reachable s -> session_inv s.
Proof.
  intros R. assert (session_inv registered_session) as I by apply session_inv_initial. revert I.
  induction R as [|s1 s2 s3 [ev Hs] _ IH]; [done|]. intros I. apply IH. by eapply session_inv_step.
Qed.
(** ** What one step may change *)

(** The event is set once, and a revoked session types nothing more. *)
Record later (s s' : sess) : Prop := {
  g_event : is_Some (event s) -> event s' = event s;
  g_revoked : revoked s = true -> revoked s' = true /\ typed s' = typed s;
  g_quiet : lease_returned (lease s) = true ->
    transport s' = transport s /\ lease s' = lease s /\ forced s' = forced s /\ typed s' = typed s }.

#[export] Instance later_preorder : PreOrder later.
Proof.
  split.
  - intros s. by split.
  - intros s1 s2 s3 [E1 R1 Q1] [E2 R2 Q2]. split.
    + intros H. rewrite E2; [by apply E1|by rewrite E1].
    + intros H. destruct (R1 H) as [Hr Ht]. destruct (R2 Hr) as [Hr' Ht']. split; congruence.
    + intros H. destruct (Q1 H) as (T1 & T2 & T3 & T4). rewrite <- T2 in H.
      destruct (Q2 H) as (U1 & U2 & U3 & U4). split_and!; congruence.
Qed.
Lemma later_end o r c s : later s (end_session o r c s).
Proof.
  destruct (end_cases o r c s) as [[_ ->]|[He ->]]; [done|]. destruct s; cbn in *; subst.
  by split; [intros [? ?]|..].
Qed.

Lemma later_end_revoked s : later s (end_revoked s).
Proof. unfold end_revoked. destruct subj; [apply later_end|done]. Qed.

Lemma later_force s : session_inv s -> later s (force s).
Proof.
  intros I. assert (lease_returned (lease s) = true -> sealed s = true) as Hs
    by (intros Hl%(v_lease _ I); by apply sealed_of_returned).
  unfold force, closeTransport. destruct s; cbn in *. destruct sealed0; [done|].
  split; [by destruct client0, transport0..|]. intros Hl. by apply Hs in Hl.
Qed.

(** A change of the other fields. *)
Lemma later_same s s' :
  event s' = event s -> revoked s' = revoked s -> typed s' = typed s -> transport s' = transport s ->
  lease s' = lease s -> forced s' = forced s -> later s s'.
Proof. intros E R T Tr L F. split; [done| |done]. by rewrite R, T. Qed.

(** Before the lease is given back only the first two matter. *)
Lemma later_unreturned s s' :
  session_inv s -> past_join (wf s) = false -> (is_Some (event s) -> event s' = event s) -> revoked s' = revoked s ->
  typed s' = typed s -> later s s'.
Proof.
  intros I Hp He Hr Ht. split; [done|by rewrite Hr, Ht|]. intros Hl%(v_lease _ I). congruence.
Qed.

Lemma later_startFailed reason s : later s (startFailed reason s).
Proof.
  unfold startFailed. destruct (revoked s); [apply later_end_revoked|]. destruct (parent_done s); apply later_end.
Qed.

Lemma later_work ok s s' : session_inv s -> work ok s = Some s' -> later s s'.
Proof.
  intros I H. unfold work in H.
  assert (forall w s1, later s s1 -> later s (s1 <| wf := w |>)) as Hm
    by (intros w s1 L; etrans; [exact L|]; apply later_same; by destruct s1).
  assert (forall f, later s (f s) -> later s (return_after f s)) as Hr by (intros f L; by apply Hm).
  pose proof (fun r => Hr _ (later_startFailed r s)) as Hfail.
  assert (past_join (wf s) = false -> lease_returned (lease s) = false) as Hl.
  { intros Hp. destruct (lease_returned (lease s)) eqn:Hl; [|done]. apply (v_lease _ I) in Hl. congruence. }
  destruct (wf s) eqn:Hw.
  - destruct ok; simplify_eq; [|apply Hfail]. apply Hm.
    apply later_unreturned; [done|by rewrite Hw|by destruct s..].
  - simplify_eq. apply Hm. assert (later s (s <| client := true |>)) as Lc by (apply later_same; by destruct s).
    assert (forced (s <| client := true |>) = forced s) as Ef by (by destruct s). cbn zeta. rewrite Ef.
    destruct (forced s) eqn:Hf; [|done]. rewrite force_client; [|apply unsealed; [done|by rewrite Hw]|done].
    etrans; [exact Lc|]. apply later_force, session_inv_client; [done|]. by apply (v_acquired _ I).
  - destruct ok; simplify_eq; [|apply Hfail]. apply Hm. apply later_same; by destruct s.
  - destruct (ctx_done s); simplify_eq; [|by apply Hm].
    apply (Hr (fun s => startFailed _ (force s))). etrans; [by apply later_force|apply later_startFailed].
  - destruct ok; simplify_eq; [by apply Hm|apply Hfail].
  - destruct ok; simplify_eq; [by apply Hm|apply Hfail].
  - destruct ok; simplify_eq; [by apply Hm|apply Hfail].
  - destruct ok; simplify_eq; [by apply Hm|apply Hfail].
  - destruct subj; simplify_eq; [|by apply Hm]. destruct (_ && _); simplify_eq; [by apply Hm|].
    apply Hr, later_end_revoked.
  - destruct (ctx_done s); simplify_eq; [apply Hfail|by apply Hm].
  - destruct ok; simplify_eq; [by apply Hm|]. apply Hr, later_end.
  - destruct ok; simplify_eq; [|apply Hfail]. apply later_same; by destruct s.
  - destruct (pumps_joined _ _ _); simplify_eq. by apply Hm.
  - simplify_eq. by apply Hm.
  - destruct (td s), (event s) as [e|]; simplify_eq. specialize (Hl eq_refl).
    apply later_unreturned; [done|by rewrite Hw|..]; unfold settle_session; by destruct s as [????????????????[]].
  - simplify_eq. by apply Hm.
  - destruct subj; simplify_eq; apply later_same; by destruct s.
  - done.
Qed.

Lemma later_in e s s' : session_inv s -> in_step e s = Some s' -> later s s'.
Proof.
  intros I H. unfold in_step in H. destruct (in_run s) eqn:Hin; [|done].
  assert (past_join (wf s) = false) as Hp.
  { rewrite (v_pumps _ I); [done|]. unfold pumps_joined. rewrite Hin. by destruct (keep s), (out_run s). }
  assert (forall s1, later s s1 -> later s (s1 <| in_run := false |>)) as Hstop
    by (intros s1 L; etrans; [exact L|]; apply later_same; by destruct s1).
  destruct e; simplify_eq; auto using later_end.
  destruct (input_message _ _ _ _) as [s1 act] eqn:Ei. cbn [snd] in H.
  destruct act; simplify_eq; [done| | |by apply Hstop, later_end_revoked].
  - (* only what the registry permits is typed *)
    assert (revoked s = false) as Hr.
    { destruct (revoked s) eqn:Hr; [|done]. unfold input_message in Ei.
      rewrite (bool_decide_true (is_Some subj)) in Ei by (by apply (v_revoked _ I)). cbn in Ei. rewrite Hr, andb_false_r in Ei.
      by destruct (_ && _). }
    assert (later s (s <| typed := typed s ++ [data] |>)) as Lt.
    { split; [by destruct s|by rewrite Hr|]. intros Hl%(v_lease _ I). congruence. }
    destruct ok; simplify_eq; [done|]. etrans; [exact Lt|].
    etrans; [apply (later_end "failed" "terminal_input_failed" "ssh_error")|].
    generalize (end_session "failed" "terminal_input_failed" "ssh_error" (s <| typed := typed s ++ [data] |>)).
    intros s2. apply later_same; by destruct s2.
  - destruct ok; simplify_eq; [done|]. auto using later_end.
Qed.

Lemma later_step ev s s' : session_inv s -> step ev s = Some s' -> later s s'.
Proof.
  intros I H. destruct ev; cbn [step] in H.
  - simplify_eq. apply later_same; by destruct s.
  - destruct (_ && _); simplify_eq. split; [by destruct s|by destruct s|by destruct s].
  - destruct (revoked s); simplify_eq. apply later_same; by destruct s.
  - destruct (revoked s); simplify_eq. by apply later_force.
  - by eapply later_work.
  - unfold tear in H. destruct (td s); [|destruct (jn s); simplify_eq; apply later_same; by destruct s..|done].
    assert (forall s1, later s s1 -> later s (s1 <| td := TGrace |> <| cl := CNotice |>)) as Hk
      by (intros s1 L; etrans; [exact L|]; apply later_same; by destruct s1).
    destruct (_ || _); simplify_eq. apply Hk.
    unfold end_cancelled. destruct (revoked s); [apply later_end_revoked|apply later_end].
  - unfold grace_expired in H. destruct (td s); simplify_eq.
    etrans; [by apply later_force|]. generalize (force s). intros s1. apply later_same; by destruct s1.
  - unfold close_step in H. destruct (cl s); try done; simplify_eq; try (apply later_same; by destruct s).
    destruct (event s) as [e|]; [|done]. destruct (end_notice e) as [[[? ?] ?] ?]. simplify_eq. apply later_same; by destruct s.
  - unfold join_step in H. destruct (jn s); [| |done].
    + destruct (cl s); try done. destruct (workflow_done _); simplify_eq. apply later_same; by destruct s.
    + destruct (transport s); simplify_eq. apply later_same; by destruct s.
  - destruct (transport s) eqn:Ht; simplify_eq.
    destruct (lease_returned (lease s)) eqn:Hl.
    + exfalso. apply (v_lease _ I), (v_past _ I), (v_torn _ I) in Hl. by apply (v_transport _ I) in Hl.
    + split; [by destruct s|by destruct s|by rewrite Hl].
  - unfold keep_step in H.
    assert (forall k s1, later s s1 -> later s (s1 <| keep := k |>)) as Hk
      by (intros k s1 L; etrans; [exact L|]; apply later_same; by destruct s1).
    assert (later s (force (end_session "failed" "terminal_keepalive_timeout" "ssh_error" s))) as Hf
      by (etrans; [apply later_end|]; by apply later_force, session_inv_end).
    destruct (keep s) as [| |[]], e as [ok|ok| |]; try done; try destruct ok; cbn [negb orb] in H;
      repeat match type of H with context [ctx_done s] => destruct (ctx_done s) end; simplify_eq;
      apply Hk; first [exact Hf | apply later_end | done].
  - unfold out_step in H. destruct (out_run s); [|done].
    assert (forall s1, later s s1 -> later s (s1 <| out_run := false |>)) as Hk
      by (intros s1 L; etrans; [exact L|]; apply later_same; by destruct s1).
    destruct e; simplify_eq; [done|apply Hk, later_end..].
  - by eapply later_in.
  - destruct (td s), (wf s), (answer s); simplify_eq; apply later_same; by destruct s.
  - destruct (wf s), (answer s), (result s) as [[? ?]|]; simplify_eq; apply later_same; by destruct s.
Qed.

Lemma later_reachable s s' : session_inv s -> rtc sstep s s' -> later s s' /\ session_inv s'.
Proof.
  intros I R. induction R as [|s1 s2 s3 [ev Hs] _ IH]; [done|].
  destruct IH as [L I3]; [by eapply session_inv_step|]. split; [|done]. etrans; [by eapply later_step|done].
Qed.
Lemma joined_of_past s :
  session_inv s -> past_join (wf s) = true ->
  td s = TDone /\ cl s = CDone /\ keep s = KStopped /\ out_run s = false /\ in_run s = false /\ jn s = JDone /\
  transport s <> Closing.
Proof.
  intros I Hp. pose proof (v_past _ I Hp) as Ht. pose proof (v_torn _ I Ht) as Hj.
  destruct (sealed_of_returned s I Hp) as [Hs _]. destruct (v_join _ I Hs) as [Hc _].
  assert (pumps_joined (keep s) (out_run s) (in_run s) = true) as Hpp.
  { destruct (pumps_joined _ _ _) eqn:Hpp; [done|]. apply (v_pumps _ I) in Hpp. by rewrite Hpp in Hp. }
  unfold pumps_joined in Hpp. destruct (keep s), (out_run s), (in_run s); try done.
  split_and!; try done. by apply (v_transport _ I).
Qed.

(** ** Theorems *)

(** C38: a session gives its lease back only when nothing of it can touch the SSH transport
    any more: the pumps, the notice and the channel's close have finished, a forced close of
    the transport has returned, and whatever happens later (late cancellations and forced
    closes by the registry included) the transport, the lease and the shell's input stay as
    they are.  A lease returned for reuse, not discarded, is one whose transport was never
    closed and whose session neither failed nor was cancelled. *)
Theorem lease_returned_quiet s :
  session_reachable s -> lease_returned (lease s) = true ->
  pumps_joined (keep s) (out_run s) (in_run s) = true /\ cl s = CDone /\ transport s <> Closing /\
  (lease s = LReleased -> transport s = Untouched /\ Outcome <$> event s <> Some "failed" /\
                         Outcome <$> event s <> Some "cancelled") /\
  forall s', rtc sstep s s' -> transport s' = transport s /\ lease s' = lease s /\ typed s' = typed s.
Proof.
  intros R Hl. pose proof (session_inv_reachable s R) as I. pose proof (v_lease _ I Hl) as Hp.
  destruct (joined_of_past s I Hp) as (H1 & H2 & H3 & H4 & H5 & H6 & H7).
  split_and!; [by rewrite H3, H4, H5|done|done| |].
  - intros Hr. destruct (v_kept _ I Hr) as (Hf & ? & ?). split_and!; [|done..].
    destruct (transport s) eqn:Ht; [done|..]; assert (forced s = true) by (apply (v_forced _ I); congruence); congruence.
  - intros s' R'. destruct (later_reachable s s' I R') as [L _]. by destruct (g_quiet _ _ L Hl) as (? & ? & _ & ?).
Qed.

(** C39: the first event that ends a session is the one its owner is told, whatever errors the
    teardown provokes afterwards; and an answer that does not say "cleanup pending" means that
    every goroutine has joined, the lease is no longer held and the registry has let go of the
    session. *)
Theorem first_event_reported s s' e :
  session_reachable s -> event s = Some e -> rtc sstep s s' ->
  event s' = Some e /\
  forall a, answer s' = Some a ->
    a_event a = Some e /\
    (a_CleanupPending a = false ->
       lease s' <> LHeld /\ pumps_joined (keep s') (out_run s') (in_run s') = true /\ transport s' <> Closing /\
       (is_Some subj -> unregistered s' = true)).
Proof.
  intros R He R'. pose proof (session_inv_reachable s R) as I. destruct (later_reachable s s' I R') as [L I'].
  assert (event s' = Some e) as He' by (rewrite (g_event _ _ L); [done|by exists e]).
  split; [done|]. intros a Ha. destruct (v_answer _ I' a Ha) as (_ & Hae & Hd). split; [congruence|].
  intros Hc. specialize (Hd Hc). assert (past_join (wf s') = true) as Hp by (by rewrite Hd).
  destruct (joined_of_past s' I' Hp) as (H1 & H2 & H3 & H4 & H5 & H6 & H7).
  split_and!; [by apply (v_held _ I')|by rewrite H3, H4, H5|done|by apply (v_left _ I')].
Qed.

(** Once the registry has revoked a session, nothing more is typed into its shell. *)
Theorem revoked_session_silent s s' :
  session_reachable s -> revoked s = true -> rtc sstep s s' -> typed s' = typed s.
Proof.
  intros R Hr R'. destruct (later_reachable s s' (session_inv_reachable s R) R') as [L _].
  by destruct (g_revoked _ _ L Hr).
Qed.

End session.

(** ** Witnesses *)

Section witnesses.
Definition demo_subject : option subject := Some (mkSubject false 7 0 "session_revoked" "revoked").

Fixpoint play (evs : list happening) (s : sess) : sess :=
  match evs with
  | [] => s
  | ev :: evs => match step demo_subject ev s with Some s' => play evs s' | None => s end
  end.

Lemma session_play_steps evs s : rtc (sstep demo_subject) s (play evs s).
Proof.
  revert s. induction evs as [|ev evs IH]; intros s; [apply rtc_refl|]. cbn.
  destruct (step demo_subject ev s) eqn:E; [|apply rtc_refl]. eapply rtc_l; [by exists ev|apply IH].
Qed.

(** A session runs a command; the shell exits. *)
Definition demo_running : sess := play (replicate 12 (EWork true)) registered_session.
Definition demo_exit : sess :=
  play [EIn (IMessage (message "input" "" "exit") true true); EOut OEnd] demo_running.
Definition demo_over : sess :=
  play [ETear; EClose true; EClose true; EClose true; EKeep KCancelled; EIn IFailed; EWork true; EWork true; EJoin; ETear;
        EWork true; EWork true; EWork true] demo_exit.
(** Another one is revoked in the middle. *)
Definition demo_revoked : sess := play [ERevoked; ECancel] demo_running.

Lemma demo_exit_reachable : session_reachable demo_subject demo_exit.
Proof. unfold session_reachable, demo_exit, demo_running. etrans; apply session_play_steps. Qed.
Lemma demo_over_reachable : session_reachable demo_subject demo_over.
Proof. unfold session_reachable, demo_over. etrans; [apply demo_exit_reachable|apply session_play_steps]. Qed.
Lemma demo_revoked_reachable : session_reachable demo_subject demo_revoked.
Proof. unfold session_reachable, demo_revoked, demo_running. etrans; apply session_play_steps. Qed.

Lemma lease_returned_quiet_witness : lease demo_over = LReleased /\ transport demo_over = Untouched.
Proof.
  split; [vm_compute; reflexivity|].
  destruct (lease_returned_quiet demo_subject demo_over demo_over_reachable) as (_ & _ & _ & H & _).
  - vm_compute; reflexivity.
  - apply H. vm_compute; reflexivity.
Defined.

Lemma first_event_reported_witness :
  event demo_exit = Some (mkEnd "succeeded" "" "remote_closed") /\
  event demo_over = Some (mkEnd "succeeded" "" "remote_closed").
Proof.
  split; [vm_compute; reflexivity|].
  apply (first_event_reported demo_subject demo_exit demo_over (mkEnd "succeeded" "" "remote_closed") demo_exit_reachable).
  - vm_compute; reflexivity.
  - apply session_play_steps.
Defined.

Lemma revoked_session_silent_witness :
  typed (play [EIn (IMessage (message "input" "" "rm") true true)] demo_revoked) = typed demo_revoked.
Proof.
  apply (revoked_session_silent demo_subject demo_revoked _ demo_revoked_reachable).
  - vm_compute; reflexivity.
  - apply session_play_steps.
Defined.
End witnesses.
