(* ===== verification/TerminalTeardown.v ===== *)
(** * The end of a terminal session is reached

    Liveness of [TerminalSession]: once a session has ended or was cancelled, every fair
    run of its goroutines brings it to the end of its workflow and the request to its
    answer.  [duty] names the goroutines' obligations, [due] says when one of them has
    nothing left to wait for: a local computation or a bounded call always, a timer once
    it is set, a call that blocks on the SSH transport only once the transport is closed,
    one that blocks on the socket only once the socket is closed, one that blocks on the
    session's context only once it is cancelled.  So the theorem rests on what the teardown
    closes, and not on a peer that answers.

    [todo] is a measure that no step of an ended session raises and every duty lowers. *)

From S2P Require Import Prelude GoStrings Scope Registry Gate Revocation ApiKeys Text UsageLog Auth Terminal TerminalSession.
From coqutil Require Import Datatypes.RecordSetters.
Import TriangleBracketNotations.

(** ** Duties *)

Inductive duty := DTear | DGrace | DClose | DJoin | DTransport | DWork | DKeep | DOut | DIn | DOwner.

(** The duty an event performs.  A chunk of output or a message of the client is none: a
    pump performs its duty by returning. *)
Definition performs (ev : happening) : option duty :=
  match ev with
  | ETear => Some DTear
  | EGrace => Some DGrace
  | EClose _ => Some DClose
  | EJoin => Some DJoin
  | ETransportClosed => Some DTransport
  | EWork _ => Some DWork
  | EKeep _ => Some DKeep
  | EOut OChunk | EIn (IMessage _ _ _) => None
  | EOut _ => Some DOut
  | EIn _ => Some DIn
  | EOwner => Some DOwner
  | EParent | ERevoked | ECancel | EForce | EDeadline => None
  end.

Definition transport_down (s : sess) : bool := match transport s with Closed => true | _ => false end.

(** When the call of the workflow must return: the lease and the gate wait for the context,
    requests on the SSH connection for its transport, the "connected" frame for the socket. *)
Definition work_due (s : sess) : bool :=
  match wf s with
  | WClient | WCheckSetup | WStdin | WStdout | WCheck | WReadDeadline | WReturn | WLease | WUnregister => true
  | WAcquire | WAdmit => ctx_done s
  | WNewSession | WPty | WShell => transport_down s
  | WConnected => negb (socket_open s)
  | WPumps => pumps_joined (keep s) (out_run s) (in_run s)
  | WJoin => match td s with TDone => true | _ => false end
  | WDone => false
  end.

Definition due (d : duty) (s : sess) : bool :=
  match d with
  | DTear =>
      match td s with
      | TWait => bool_decide (is_Some (event s)) || ctx_done s
      | TGrace | TForced => match jn s with JDone => true | _ => false end
      | TDone => false
      end
  | DGrace => match td s with TGrace => true | _ => false end
  | DClose => (* closing a channel is a write that may block on the transport *)
      match cl s with
      | CNotice | CSocket => true
      | CChannel => negb (session s) || transport_down s
      | _ => false
      end
  | DJoin =>
      match jn s with
      | JWait => match cl s with CDone => workflow_done (wf s) | _ => false end
      | JTransport => transport_down s
      | JDone => false
      end
  | DTransport => match transport s with Closing => true | _ => false end
  | DWork => work_due s
  | DKeep =>
      match keep s with
      | KStopped => false
      | KIdle | KRequest false => ctx_done s
      | KRequest true => transport_down s
      end
  | DOut => out_run s && transport_down s && negb (socket_open s)
  | DIn => in_run s && transport_down s && negb (socket_open s)
  | DOwner => match wf s, answer s with WDone, None => true | _, _ => false end
  end.

(** The session is over and its request is answered. *)
Definition over (s : sess) : bool := match wf s, answer s with WDone, Some _ => true | _, _ => false end.
Definition ended (s : sess) : Prop := is_Some (event s) \/ ctx_done s = true.

(** ** The measure *)

Definition workflow_rank (w : workflow) : nat :=
  match w with
  | WAcquire => 21 | WClient => 20 | WNewSession => 19 | WCheckSetup => 18 | WPty => 17 | WStdin => 16 | WStdout => 15
  | WShell => 14 | WAdmit => 13 | WCheck => 12 | WReadDeadline => 11 | WConnected => 10 | WPumps => 5 | WReturn => 4
  | WJoin => 3 | WLease => 2 | WUnregister => 1 | WDone => 0
  end.
Definition teardown_rank (t : teardown) : nat := match t with TWait => 3 | TGrace => 2 | TForced => 1 | TDone => 0 end.
Definition closer_rank (c : closer) : nat :=
  match c with CNotStarted => 4 | CNotice => 3 | CSocket => 2 | CChannel => 1 | CDone => 0 end.
Definition joiner_rank (j : joiner) : nat := match j with JWait => 2 | JTransport => 1 | JDone => 0 end.
Definition transport_rank (c : closing) : nat := match c with Untouched => 2 | Closing => 1 | Closed => 0 end.
Definition keep_rank (k : keepalive) : nat := match k with KStopped => 0 | KRequest true => 1 | _ => 2 end.

Definition todo (s : sess) : nat :=
  workflow_rank (wf s) + teardown_rank (td s) + closer_rank (cl s) + joiner_rank (jn s) + transport_rank (transport s) +
  keep_rank (keep s) + Nat.b2n (out_run s) + Nat.b2n (in_run s) + match answer s with None => 1 | Some _ => 0 end.

#[export] Instance out_event_eq_dec : EqDecision out_event.
Proof. solve_decision. Defined.

Section teardown.
Context (subj : option subject).
Abbreviation step := (step subj).
Abbreviation session_inv := (session_inv subj).

(** ** What the closures keep *)

Record calm (s s' : sess) : Prop := {
  c_place : same_place s s';
  c_session : session s' = session s;
  c_client : client s' = client s;
  c_socket : socket_open s' = socket_open s;
  c_answer : answer s' = answer s;
  c_forced : forced s = true -> forced s' = true;
  c_transport : transport s' = transport s \/ transport s = Untouched /\ transport s' = Closing;
  c_closing : forced s' = true -> forced s = true \/ client s = false \/ transport s' <> Untouched;
  c_ctx : ctx_done s = true -> ctx_done s' = true;
  c_event : is_Some (event s) -> is_Some (event s') }.

#[export] Instance calm_preorder : PreOrder calm.
Proof.
  split.
  - intros s. split; auto. by destruct s.
  - intros s1 s2 s3 [P1 A1 B1 C1 D1 E1 F1 G1 H1 I1] [P2 A2 B2 C2 D2 E2 F2 G2 H2 I2]. split; try congruence; auto.
    + by eapply same_place_trans.
    + destruct F1 as [F1|[F1 F1']], F2 as [F2|[F2 F2']]; rewrite ?F2, ?F1 in *; auto; congruence.
    + intros H. destruct (G2 H) as [Hf|[Hc|Ht]]; [|right; left; congruence|by right; right].
      destruct (G1 Hf) as [?|[?|Ht]]; [by left|by right; left|]. right. right.
      destruct F2 as [->|[_ ->]]; done.
Qed.

Lemma calm_end o r c s : calm s (end_session o r c s).
Proof. split; try apply same_end; unfold end_session; destruct (event s) eqn:E; destruct s; cbn in *; auto; by rewrite E. Qed.
Lemma calm_end_revoked s : calm s (end_revoked subj s).
Proof. unfold end_revoked. destruct subj; [apply calm_end|done]. Qed.
Lemma calm_startFailed reason s : calm s (startFailed subj reason s).
Proof. unfold startFailed. destruct (revoked s); [apply calm_end_revoked|]. destruct (parent_done s); apply calm_end. Qed.
Lemma calm_end_cancelled s : calm s (end_cancelled subj s).
Proof. unfold end_cancelled. destruct (revoked s); [apply calm_end_revoked|apply calm_end]. Qed.
Lemma calm_force s : calm s (force s).
Proof.
  split; try apply same_force; unfold force, closeTransport;
    destruct s as [? ? ? ? ? [] [] ? []]; cbn; auto; intros; right; right; done.
Qed.

Lemma todo_calm s s' : calm s s' -> (todo s' <= todo s)%nat.
Proof.
  intros [(P1 & P2 & P3 & P4 & P5 & P6 & P7 & _) _ _ _ E _ T _ _ _]. unfold todo.
  rewrite P1, P2, P3, P4, P5, P6, P7, E. destruct T as [->|[-> ->]]; cbn; lia.
Qed.

(** ** What a teardown relies on *)

Definition placed (w : workflow) : bool :=
  match w with
  | WNewSession | WCheckSetup | WPty | WStdin | WStdout | WShell | WAdmit | WCheck | WReadDeadline | WConnected | WPumps => true
  | _ => false
  end.

Record teardown_inv (s : sess) : Prop := {
  i_session : session s = true -> client s = true;
  i_place : placed (wf s) = true -> client s = true;
  i_socket : cl s = CChannel \/ cl s = CDone -> socket_open s = false;
  i_forced : forced s = true -> client s = true -> transport s <> Untouched;
  i_grace : td s = TForced -> sealed s = true \/ forced s = true }.

Lemma teardown_initial : teardown_inv registered_session.
Proof. split; cbn; try done. by intros [|]. Qed.

Lemma teardown_calm s s' : teardown_inv s -> calm s s' -> teardown_inv s'.
Proof.
  intros [I1 I2 I3 I4 I5] [(P1 & P2 & P3 & P4 & P5 & P6 & P7 & P8 & P9 & P10) A B C D E F G _ _].
  split; rewrite ?A, ?B, ?C, ?P1, ?P5, ?P6, ?P10; auto.
  - intros Hf Hc. destruct (G Hf) as [Hf'|[?|?]]; [|congruence|done]. specialize (I4 Hf' Hc).
    destruct F as [->|[_ ->]]; done.
  - intros Ht. destruct (I5 Ht); auto.
Qed.

(** Setting the fields of one goroutine after a closure. *)
Ltac set_fields I :=
  match type of I with teardown_inv ?s =>
    destruct I, s; unfold apply_update, constant in *; cbn in *; subst;
    split; cbn in *; auto; intros; try done; try congruence; try (by destruct_or?)
  end.

(** ** One step

    [lowers s s']: the step keeps the invariant and brings the end nearer. *)
Definition lowers (s s' : sess) : Prop := teardown_inv s' /\ (todo s' < todo s)%nat.

Lemma lowers_calm s s1 s' : calm s s1 -> (teardown_inv s1 -> lowers s1 s') -> teardown_inv s -> lowers s s'.
Proof.
  intros C H I. destruct H as [I' H]; [by eapply teardown_calm|]. split; [done|]. pose proof (todo_calm _ _ C). lia.
Qed.

(** The workflow moves on after a closure. *)
Lemma lowers_move w s s1 :
  teardown_inv s -> calm s s1 -> (placed w = true -> client s = true) ->
  (workflow_rank w < workflow_rank (wf s))%nat -> lowers s (s1 <| wf := w |>).
Proof.
  intros I C Hp Hw. assert (wf s1 = wf s) as Ew by apply C. assert (client s1 = client s) as Ec by apply C.
  eapply lowers_calm; [exact C| |exact I]. intros I1. rewrite <- Ew in Hw. rewrite <- Ec in Hp. clear I C Ew Ec. split.
  - set_fields I1.
  - destruct s1; unfold todo, constant in *; cbn in *. lia.
Qed.

Lemma lowers_return f s :
  teardown_inv s -> calm s (f s) -> (4 < workflow_rank (wf s))%nat -> lowers s (return_after f s).
Proof. intros I C Hw. apply lowers_move; done. Qed.

Lemma lowers_work ok s s' : session_inv s -> teardown_inv s -> work subj ok s = Some s' -> lowers s s'.
Proof.
  intros Is I H. unfold work in H.
  assert (forall r, (4 < workflow_rank (wf s))%nat -> lowers s (return_after (startFailed subj r) s)) as Hf
    by (intros r Hw; apply lowers_return; [done|apply calm_startFailed|done]).
  assert (forall w, (placed w = true -> placed (wf s) = true) -> (workflow_rank w < workflow_rank (wf s))%nat -> lowers s (s <| wf := w |>)) as Hm
    by (intros w Hp Hw; apply lowers_move; [done|done|intros Hq; by apply (i_place _ I), Hp|done]).
  destruct (wf s) eqn:Hw; cbn [workflow_rank placed] in Hf, Hm.
  - destruct ok; simplify_eq; [|apply Hf; lia]. split; [set_fields I|destruct s; unfold todo, constant; cbn in *; subst; cbn; lia].
  - simplify_eq. cbn zeta. assert (forced (s <| client := true |>) = forced s) as -> by (by destruct s).
    destruct I, s as [? ? ? ? fo ? ? ? tr]; unfold closeTransport, apply_update, constant in *; cbn in *; subst.
    destruct fo; cbn; [destruct tr; cbn|]; (split; [split; cbn in *; auto; intros; try done; try (by destruct_or?)|unfold todo; cbn; lia]).
  - destruct ok; simplify_eq; [|apply Hf; lia]. assert (client s = true) as Hc by (apply (i_place _ I); by rewrite Hw).
    split; [set_fields I|destruct s; unfold todo, constant; cbn in *; subst; cbn; lia].
  - destruct (ctx_done s); simplify_eq; [|apply Hm; [done|cbn; lia]].
    apply (lowers_return (fun s => startFailed subj _ (force s))); [done| |rewrite Hw; cbn; lia].
    etrans; [apply calm_force|apply calm_startFailed].
  - destruct ok; simplify_eq; [apply Hm; [done|cbn; lia]|apply Hf; lia].
  - destruct ok; simplify_eq; [apply Hm; [done|cbn; lia]|apply Hf; lia].
  - destruct ok; simplify_eq; [apply Hm; [done|cbn; lia]|apply Hf; lia].
  - destruct ok; simplify_eq; [apply Hm; [done|cbn; lia]|apply Hf; lia].
  - pose proof (calm_end_revoked s) as Cr. destruct subj as [j|]; simplify_eq; [|apply Hm; [done|cbn; lia]].
    destruct (_ && _); simplify_eq; [apply Hm; [done|cbn; lia]|]. apply lowers_return; [done|exact Cr|rewrite Hw; cbn; lia].
  - destruct (ctx_done s); simplify_eq; [apply Hf; lia|apply Hm; [done|cbn; lia]].
  - destruct ok; simplify_eq; [apply Hm; [done|cbn; lia]|]. apply lowers_return; [done|apply calm_end|rewrite Hw; cbn; lia].
  - destruct ok; simplify_eq; [|apply Hf; lia]. assert (client s = true) as Hc by (apply (i_place _ I); by rewrite Hw).
    split; [set_fields I|]. destruct s as [? ? ? ? ? ? ? ? ? ? ? ? ? [| |[]] [] []]; unfold todo, constant; cbn in *; subst; cbn; lia.
  - destruct (pumps_joined _ _ _); simplify_eq. apply Hm; [done|cbn; lia].
  - simplify_eq. apply Hm; [done|cbn; lia].
  - destruct (td s) eqn:Ht, (event s) as [e|]; simplify_eq. unfold settle_session. cbn zeta.
    destruct I, s as [? ? ? ? ? ? ? ? ? ? ? ? ? ? ? ? []]; unfold apply_update, constant in *; cbn in *; subst; cbn;
      (split; [split; cbn in *; auto; intros; done|unfold todo; cbn; lia]).
  - simplify_eq. apply Hm; [done|cbn; lia].
  - destruct subj; simplify_eq; (split; [set_fields I|destruct s; unfold todo, constant; cbn in *; subst; cbn; lia]).
  - done.
Qed.

(** The other goroutines; the context of an ended session is cancelled. *)
Lemma lowers_keep e s s' : teardown_inv s -> ctx_done s = true -> keep_step e s = Some s' -> lowers s s'.
Proof.
  intros I Hc H. unfold keep_step in H. rewrite Hc, ?orb_true_r in H.
  destruct (keep s) as [| |[]] eqn:Hk, e as [ok|ok| |]; cbn [orb] in H; try done; try destruct ok; cbn [negb] in H; simplify_eq;
    (split; [set_fields I|destruct s; unfold todo, constant; cbn in *; subst; cbn; lia]).
Qed.

(** A pump that stops after a closure. *)
Lemma lowers_stop_out s s1 : teardown_inv s -> calm s s1 -> out_run s = true -> lowers s (s1 <| out_run := false |>).
Proof.
  intros I C Ho. assert (out_run s1 = true) as Ho1 by (rewrite <- Ho; apply C). clear Ho.
  eapply lowers_calm; [exact C| |exact I]. intros I1. clear I C.
  split; [set_fields I1|destruct s1; unfold todo, constant; cbn in *; subst; cbn; lia].
Qed.
Lemma lowers_stop_in s s1 : teardown_inv s -> calm s s1 -> in_run s = true -> lowers s (s1 <| in_run := false |>).
Proof.
  intros I C Ho. assert (in_run s1 = true) as Ho1 by (rewrite <- Ho; apply C). clear Ho.
  eapply lowers_calm; [exact C| |exact I]. intros I1. clear I C.
  split; [set_fields I1|destruct s1; unfold todo, constant; cbn in *; subst; cbn; lia].
Qed.

Lemma lowers_tear s s' : session_inv s -> teardown_inv s -> tear subj s = Some s' -> lowers s s'.
Proof.
  intros Is I H. unfold tear in H. destruct (td s) eqn:Ht.
  - destruct (_ || _); simplify_eq. pose proof (calm_end_cancelled s) as C.
    assert (cl s = CNotStarted) as Hc by (by apply (v_closer _ _ Is)).
    assert (td (end_cancelled subj s) = TWait) as Ht1 by (rewrite <- Ht; apply C).
    assert (cl (end_cancelled subj s) = CNotStarted) as Hc1 by (rewrite <- Hc; apply C).
    eapply lowers_calm; [exact C| |exact I]. revert Ht1 Hc1. generalize (end_cancelled subj s). intros s1 Ht1 Hc1 I1.
    split; [set_fields I1|destruct s1; unfold todo, constant; cbn in *; subst; cbn; lia].
  - destruct (jn s) eqn:Hj; simplify_eq. split; [set_fields I|destruct s; unfold todo, constant; cbn in *; subst; cbn; lia].
  - destruct (jn s) eqn:Hj; simplify_eq. split; [set_fields I|destruct s; unfold todo, constant; cbn in *; subst; cbn; lia].
  - done.
Qed.

Lemma lowers_grace s s' : teardown_inv s -> grace_expired s = Some s' -> lowers s s'.
Proof.
  intros I H. unfold grace_expired in H. destruct (td s) eqn:Ht; simplify_eq. pose proof (calm_force s) as C.
  assert (td (force s) = TGrace) as Ht1 by (rewrite <- Ht; apply C).
  assert (sealed (force s) = true \/ forced (force s) = true) as Hf.
  { unfold force, closeTransport. destruct s as [? ? ? ? ? [] [] ? []]; cbn; auto. }
  eapply lowers_calm; [exact C| |exact I]. revert Ht1 Hf. generalize (force s). intros s1 Ht1 Hf I1.
  split; [set_fields I1|destruct s1; unfold todo, constant; cbn in *; subst; cbn; lia].
Qed.

Lemma lowers_close notified s s' : teardown_inv s -> close_step notified s = Some s' -> lowers s s'.
Proof.
  intros I H. unfold close_step in H. destruct (cl s) eqn:Hc; try done; simplify_eq;
    [destruct (event s) as [e|]; [|done]; destruct (end_notice e) as [[[? ?] ?] ?]; simplify_eq|..];
    (split; [set_fields I|destruct s; unfold todo, constant; cbn in *; subst; cbn; lia]).
Qed.

Lemma lowers_join s s' : teardown_inv s -> join_step s = Some s' -> lowers s s'.
Proof.
  intros I H. unfold join_step in H. destruct (jn s) eqn:Hj; [| |done].
  - destruct (cl s) eqn:Hc; try done. destruct (workflow_done _); simplify_eq.
    split; [set_fields I|]. destruct s as [? ? ? ? ? ? ? ? []]; unfold todo, constant; cbn in *; subst; cbn; lia.
  - destruct (transport s) eqn:Ht; simplify_eq. split; [set_fields I|destruct s; unfold todo, constant; cbn in *; subst; cbn; lia].
Qed.

Lemma lowers_out e s s' : teardown_inv s -> out_step e s = Some s' -> e <> OChunk -> lowers s s'.
Proof.
  intros I H He. unfold out_step in H. destruct (out_run s) eqn:Ho; [|done].
  destruct e; simplify_eq; (apply lowers_stop_out; [done|apply calm_end|done]).
Qed.

(** What the duties look at stays: nothing that is due ceases to be. *)
Record still (s s' : sess) : Prop := {
  q_place : wf s' = wf s /\ td s' = td s /\ cl s' = cl s /\ jn s' = jn s /\ keep s' = keep s /\ out_run s' = out_run s /\
    in_run s' = in_run s /\ session s' = session s /\ socket_open s' = socket_open s /\ transport s' = transport s /\
    answer s' = answer s;
  q_ctx : ctx_done s = true -> ctx_done s' = true;
  q_event : is_Some (event s) -> is_Some (event s');
  q_inv : teardown_inv s -> teardown_inv s' }.

Lemma still_refl s : still s s.
Proof. split; [by split_and!|done..]. Qed.

Lemma still_todo s s' : still s s' -> todo s' = todo s.
Proof. intros [(E1 & E2 & E3 & E4 & E5 & E6 & E7 & _ & _ & E8 & E9) _ _]. unfold todo. by rewrite E1, E2, E3, E4, E5, E6, E7, E8, E9. Qed.

Lemma still_due d s s' : still s s' -> ctx_done s = true -> due d s = true -> due d s' = true.
Proof.
  intros [(E1 & E2 & E3 & E4 & E5 & E6 & E7 & E8 & E9 & E10 & E11) Hc He _] Hctx.
  specialize (Hc Hctx). unfold due, work_due, transport_down.
  rewrite E1, E2, E3, E4, E5, E6, E7, E8, E9, E10, E11, Hc, Hctx. destruct d; try done. by rewrite !orb_true_r.
Qed.

Lemma lowers_in e s s' : teardown_inv s -> in_step subj e s = Some s' ->
  lowers s s' \/ performs (EIn e) = None /\ still s s'.
Proof.
  intros I H. unfold in_step in H. destruct (in_run s) eqn:Hin; [|done].
  destruct e; simplify_eq; try (left; apply lowers_stop_in; [done|apply calm_end|done]).
  destruct (input_message _ _ _ _) as [s1 act]. cbn [snd] in H. destruct act; simplify_eq.
  - right. split; [done|apply still_refl].
  - assert (still s (s <| typed := typed s ++ [data] |>)) as S by (split; [by destruct s..|]; intros I1; set_fields I1).
    destruct ok; simplify_eq; [by right|left]. pose proof (still_todo _ _ S) as E.
    assert (teardown_inv (s <| typed := typed s ++ [data] |>)) as I1 by (by apply S).
    assert (in_run (s <| typed := typed s ++ [data] |>) = true) as Hin1 by (by destruct s).
    destruct (lowers_stop_in _ _ I1 (calm_end "failed" "terminal_input_failed" "ssh_error" _) Hin1) as [I2 Hlt].
    split; [exact I2|]. by rewrite <- E.
  - destruct ok; simplify_eq; [by right|left]. apply lowers_stop_in; [done|apply calm_end|done].
  - left. apply lowers_stop_in; [done|apply calm_end_revoked|done].
Qed.

(** A step of an ended session brings the end nearer, or performs no duty and delays none. *)
Lemma step_nearer ev s s' :
  session_inv s -> teardown_inv s -> ctx_done s = true -> step ev s = Some s' ->
  lowers s s' \/ performs ev = None /\ still s s'.
Proof.
  intros Is I Hc H. destruct ev as [| | | |ok| | |notified| | |e|e|e| |]; cbn [TerminalSession.step] in H.
  - simplify_eq. right. split; [done|]. split; [by destruct s..|]. intros I1. set_fields I1.
  - destruct (_ && _); simplify_eq. right. split; [done|]. split; [by destruct s..|]. intros I1. set_fields I1.
  - destruct (revoked s); simplify_eq. right. split; [done|]. split; [by destruct s..|]. intros I1. set_fields I1.
  - destruct (revoked s); simplify_eq. pose proof (calm_force s) as C. pose proof (teardown_calm _ _ I C) as I1.
    destruct C as [(P1 & P2 & P3 & P4 & P5 & P6 & P7 & _) A _ B D _ T _ Hx He]. destruct T as [T|[T T']].
    + right. split; [done|]. split; [by split_and!|done..].
    + left. split; [done|]. unfold todo. rewrite P1, P2, P3, P4, P5, P6, P7, D, T, T'. cbn. lia.
  - left. by eapply lowers_work.
  - left. by apply lowers_tear.
  - left. by apply lowers_grace.
  - left. by eapply lowers_close.
  - left. by apply lowers_join.
  - destruct (transport s) eqn:Ht; simplify_eq. left.
    split; [set_fields I|destruct s; unfold todo, constant; cbn in *; subst; cbn; lia].
  - left. by eapply lowers_keep.
  - destruct (decide (e = OChunk)) as [->|He]; [|left; by eapply lowers_out].
    right. split; [done|]. unfold out_step in H. destruct (out_run s); simplify_eq. apply still_refl.
  - by apply lowers_in.
  - left. destruct (td s) eqn:Ht, (wf s) eqn:Hw, (answer s) eqn:Ha; simplify_eq;
      (split; [set_fields I|destruct s; unfold todo, constant; cbn in *; subst; cbn; lia]).
  - left. destruct (wf s) eqn:Hw; try done. destruct (answer s) eqn:Ha; [done|]. destruct (result s) as [[? ?]|]; simplify_eq.
    split; [set_fields I|destruct s; unfold todo, constant; cbn in *; subst; cbn; lia].
Qed.

(** ** Some duty is always due *)

Lemma teardown_step ev s s' : session_inv s -> teardown_inv s -> step ev s = Some s' -> teardown_inv s'.
Proof.
  (* the part of [step_nearer] that needs no ended session *)
  intros Is I H. destruct (decide (ctx_done s = true)) as [Hc|Hc].
  { destruct (step_nearer ev s s' Is I Hc H) as [[I' _]|[_ [_ _ _ Hq]]]; [done|by apply Hq]. }
  apply not_true_is_false in Hc.
  destruct ev as [| | | |ok| | |notified| | |e|e|e| |]; cbn [TerminalSession.step] in H.
  - simplify_eq. set_fields I.
  - destruct (_ && _); simplify_eq. set_fields I.
  - destruct (revoked s); simplify_eq. set_fields I.
  - destruct (revoked s); simplify_eq. eapply teardown_calm; [exact I|apply calm_force].
  - by eapply lowers_work.
  - by eapply lowers_tear.
  - by eapply lowers_grace.
  - by eapply lowers_close.
  - by eapply lowers_join.
  - destruct (transport s) eqn:Ht; simplify_eq. set_fields I.
  - assert (forall k s1, calm s s1 -> teardown_inv (s1 <| keep := k |>)) as Hk
      by (intros k s1 C; pose proof (teardown_calm _ _ I C) as I1; clear -I1; set_fields I1).
    unfold keep_step in H. rewrite Hc, ?orb_false_r in H.
    destruct (keep s) as [| |[]], e as [ok|ok| |]; cbn [orb] in H; try done; try destruct ok; cbn [negb] in H; simplify_eq;
      apply Hk; first [done | apply calm_end | etrans; [apply calm_end|apply calm_force]].
  - unfold out_step in H. destruct (out_run s) eqn:Ho; [|done]. destruct e; simplify_eq; [done|..];
      (apply (lowers_stop_out s); [done|apply calm_end|done]).
  - destruct (lowers_in e s s' I H) as [[I' _]|[_ [_ _ _ Hq]]]; [done|by apply Hq].
  - destruct (td s) eqn:Ht, (wf s) eqn:Hw, (answer s) eqn:Ha; simplify_eq; set_fields I.
  - destruct (wf s) eqn:Hw; try done. destruct (answer s) eqn:Ha; [done|]. destruct (result s) as [[? ?]|]; simplify_eq. set_fields I.
Qed.

Lemma teardown_reachable s : session_reachable subj s -> teardown_inv s.
Proof.
  intros R. assert (session_inv registered_session) as Is by apply session_inv_initial.
  pose proof teardown_initial as I. revert Is I.
  induction R as [|s1 s2 s3 [ev Hs] _ IH]; [done|]. intros Is I.
  apply IH; [by eapply session_inv_step|by eapply teardown_step].
Qed.

(** What is left while the workflow runs, once the socket and the transport are closed. *)
Lemma workflow_due s :
  ctx_done s = true -> transport s = Closed -> socket_open s = false -> workflow_done (wf s) = false ->
  exists d, due d s = true.
Proof.
  intros Hc Ht Ho Hw. assert (transport_down s = true) as Hd by (unfold transport_down; by rewrite Ht).
  destruct (decide (wf s = WPumps)) as [Hp|Hp].
  2:{ exists DWork. cbn. unfold work_due. rewrite Hc, Hd, Ho. by destruct (wf s). }
  destruct (keep s) as [| |[]] eqn:Hk.
  - destruct (out_run s) eqn:Hout; [exists DOut; cbn; by rewrite Hout, Hd, Ho|].
    destruct (in_run s) eqn:Hin; [exists DIn; cbn; by rewrite Hin, Hd, Ho|].
    exists DWork. cbn. unfold work_due. by rewrite Hp, Hk, Hout, Hin.
  - exists DKeep. cbn. by rewrite Hk.
  - exists DKeep. cbn. by rewrite Hk.
  - exists DKeep. cbn. by rewrite Hk.
Qed.

Lemma forced_due s :
  session_inv s -> teardown_inv s -> ctx_done s = true -> td s = TForced -> exists d, due d s = true.
Proof.
  intros Is I Hc Ht. destruct (transport s) eqn:Htr; [|by exists DTransport; cbn; rewrite Htr|].
  all: destruct (jn s) eqn:Hj; [|..|exists DTear; cbn; by rewrite Ht, Hj].
  2:{ by apply (v_joining _ _ Is) in Hj. }
  3:{ exists DJoin. cbn. unfold transport_down. by rewrite Hj, Htr. }
  all: assert (sealed s = false) as Hs by (destruct (sealed s) eqn:Hs; [by apply (v_sealed _ _ Is) in Hs|done]).
  all: assert (forced s = true) as Hf by (destruct (i_grace _ I Ht); congruence).
  all: assert (client s = true -> transport s = Closed) as Hcl by (intros Hcl; pose proof (i_forced _ I Hf Hcl); congruence).
  all: destruct (cl s) eqn:Hcs; [by apply (v_closer _ _ Is) in Hcs; congruence|exists DClose; cbn; by rewrite Hcs..| |].
  all: try (exists DClose; cbn; rewrite Hcs; destruct (session s) eqn:Hse; [|done]; apply (i_session _ I) in Hse; unfold transport_down; by rewrite Hcl).
  all: destruct (workflow_done (wf s)) eqn:Hw; [exists DJoin; cbn; by rewrite Hj, Hcs|].
  all: assert (socket_open s = false) as Ho by (apply (i_socket _ I); by right).
  2:{ by apply workflow_due. }
  destruct (placed (wf s)) eqn:Hp; [apply (i_place _ I) in Hp; specialize (Hcl Hp); congruence|].
  exists DWork. cbn. unfold work_due. rewrite Hc. by destruct (wf s).
Qed.

Lemma some_due s :
  session_inv s -> teardown_inv s -> ctx_done s = true -> over s = false -> exists d, due d s = true.
Proof.
  intros Is I Hc Ho. destruct (td s) eqn:Ht.
  - exists DTear. cbn. by rewrite Ht, Hc, orb_true_r.
  - exists DGrace. cbn. by rewrite Ht.
  - by apply forced_due.
  - pose proof (v_torn _ _ Is Ht) as Hj. assert (sealed s = true) as Hs by (apply (v_sealed _ _ Is); by rewrite Hj).
    destruct (v_join _ _ Is Hs) as [_ Hw]. destruct (decide (wf s = WDone)) as [Hd|Hd].
    + exists DOwner. cbn. unfold over in Ho. rewrite Hd in *. by destruct (answer s).
    + exists DWork. cbn. unfold work_due. rewrite Ht. by destruct (wf s).
Qed.

(** The context stays cancelled. *)
Lemma work_cancelled ok s s' : work subj ok s = Some s' -> ctx_done s = true -> ctx_done s' = true.
Proof.
  intros H Hc. unfold work in H.
  assert (forall w s1, calm s s1 -> ctx_done (s1 <| wf := w |>) = true) as Hm
    by (intros w s1 C; apply (c_ctx _ _ C) in Hc; by destruct s1).
  assert (forall f, calm s (f s) -> ctx_done (return_after f s) = true) as Hr by (intros f C; by apply Hm).
  pose proof (fun r => Hr _ (calm_startFailed r s)) as Hf. pose proof (calm_end_revoked s) as Cr.
  destruct (wf s); try (destruct ok); simplify_eq; try apply Hf; try (by apply Hm); try (by destruct s).
  all: try (destruct (ctx_done s); simplify_eq; first [apply Hf | apply Hm; done |
    apply (Hr (fun s => startFailed subj _ (force s))); etrans; [apply calm_force|apply calm_startFailed]]).
  all: try (destruct subj; [destruct (_ && _)|]; simplify_eq; first [by apply Hm | by apply Hr]).
  all: try (apply Hr, calm_end).
  all: try (destruct (pumps_joined _ _ _); simplify_eq; by apply Hm).
  all: try (destruct (td s), (event s); simplify_eq; unfold settle_session; by destruct s as [? ? ? ? ? ? ? ? ? ? ? ? ? ? ? ? []]).
  all: try (destruct subj; simplify_eq; by destruct s).
  all: destruct s as [? ? ? ? [] ? ? ? []]; exact Hc.
Qed.

Lemma step_cancelled ev s s' : step ev s = Some s' -> ctx_done s = true -> ctx_done s' = true.
Proof.
  intros H Hc. assert (forall s1, calm s s1 -> ctx_done s1 = true) as C by (intros s1 C; by apply (c_ctx _ _ C)).
  pose proof (C _ (calm_force s)) as Cf. pose proof (C _ (calm_end_cancelled s)) as Ce. pose proof (C _ (calm_end_revoked s)) as Cr.
  assert (forall o r c, ctx_done (end_session o r c s) = true) as Cend by (intros; apply C, calm_end).
  assert (forall o r c, ctx_done (force (end_session o r c s)) = true) as Cfe
    by (intros; apply C; etrans; [apply calm_end|apply calm_force]).
  destruct ev as [| | | |ok| | |notified| | |e|e|e| |]; cbn [TerminalSession.step] in H.
  - simplify_eq. by destruct s.
  - destruct (_ && _); simplify_eq. by destruct s.
  - destruct (revoked s); simplify_eq. by destruct s.
  - destruct (revoked s); simplify_eq. done.
  - by eapply work_cancelled.
  - unfold tear in H. destruct (td s); [destruct (_ || _)|destruct (jn s)..|]; simplify_eq; [|by destruct s..].
    by destruct (end_cancelled subj s).
  - unfold grace_expired in H. destruct (td s); simplify_eq. by destruct (force s).
  - unfold close_step in H. destruct (cl s); try done; simplify_eq;
      [destruct (event s) as [e|]; [|done]; destruct (end_notice e) as [[[? ?] ?] ?]; simplify_eq|..]; by destruct s.
  - unfold join_step in H. destruct (jn s); [destruct (cl s); try done; destruct (workflow_done _)|destruct (transport s)|]; simplify_eq; by destruct s.
  - destruct (transport s); simplify_eq. by destruct s.
  - assert (forall k s1, ctx_done s1 = true -> ctx_done (s1 <| keep := k |>) = true) as Hk by (intros k []; done).
    unfold keep_step in H. rewrite Hc, ?orb_true_r in H.
    destruct (keep s) as [| |[]], e as [[]|[]| |]; cbn [negb orb] in H; simplify_eq; by apply Hk.
  - assert (forall s1, ctx_done s1 = true -> ctx_done (s1 <| out_run := false |>) = true) as Hk by (intros []; done).
    unfold out_step in H. destruct (out_run s); [|done]. destruct e; simplify_eq; auto.
  - assert (forall s1, ctx_done s1 = true -> ctx_done (s1 <| in_run := false |>) = true) as Hk by (intros []; done).
    unfold in_step in H. destruct (in_run s); [|done]. destruct e; simplify_eq; auto.
    destruct (input_message _ _ _ _) as [s1 act]. cbn [snd] in H. destruct act; simplify_eq; auto; destruct ok; simplify_eq; auto.
    all: try (apply Hk, (c_ctx _ _ (calm_end _ _ _ _))); by destruct s.
  - destruct (td s), (wf s), (answer s); simplify_eq; by destruct s.
  - destruct (wf s), (answer s), (result s) as [[? ?]|]; simplify_eq; by destruct s.
Qed.

(** ** Fair runs *)

(** A run, with the event of each step; [None] is a step in which nothing happens here. *)
Record fair_run (run : nat -> sess) (evs : nat -> option happening) : Prop := {
  fr_step n : match evs n with Some ev => step ev (run n) = Some (run (S n)) | None => run (S n) = run n end;
  (* no duty is due for ever without being performed *)
  fr_fair d n : exists m, (n <= m)%nat /\ (due d (run m) = false \/ (evs m ≫= performs) = Some d) }.

Section run.
Context (run : nat -> sess) (evs : nat -> option happening) (Hrun : fair_run run evs).

Lemma run_reachable n m : (n <= m)%nat -> rtc (sstep subj) (run n) (run m).
Proof.
  induction 1 as [|m _ IH]; [done|]. etrans; [exact IH|]. pose proof (fr_step _ _ Hrun m) as Hs.
  destruct (evs m) as [ev|]; [|by rewrite Hs]. apply rtc_once. by exists ev.
Qed.

(** Until the measure falls, a due duty stays due; so it falls. *)
Lemma measure_falls d k :
  (forall n, (k <= n)%nat -> session_inv (run n) /\ teardown_inv (run n) /\ ctx_done (run n) = true) ->
  due d (run k) = true -> exists n, (k <= n)%nat /\ (todo (run n) < todo (run k))%nat.
Proof.
  intros Hinv Hd. destruct (fr_fair _ _ Hrun d k) as (m & Hkm & Hm).
  assert (forall n, (k <= n)%nat -> (n <= m)%nat ->
    (exists j, (k <= j)%nat /\ (todo (run j) < todo (run k))%nat) \/ todo (run n) = todo (run k) /\ due d (run n) = true) as Hstay.
  { intros n. induction n as [|n IH]; intros H1 H2.
    { right. assert (k = 0%nat) as <- by lia. done. }
    destruct (decide (k = S n)) as [->|Hne]; [by right|]. destruct IH as [IH|[Ht Hdn]]; [lia..|by left|].
    destruct (Hinv n) as (Is & I & Hc); [lia|]. pose proof (fr_step _ _ Hrun n) as Hs. destruct (evs n) as [ev|].
    - destruct (step_nearer ev _ _ Is I Hc Hs) as [[_ Hlt]|[_ S]]; [left; exists (Datatypes.S n); split; lia|].
      right. split; [by rewrite (still_todo _ _ S)|by eapply still_due].
    - right. by rewrite Hs. }
  destruct (Hstay m Hkm (le_n m)) as [?|[Ht Hdm]]; [done|]. destruct Hm as [Hm|Hm]; [congruence|].
  destruct (Hinv m Hkm) as (Is & I & Hc). pose proof (fr_step _ _ Hrun m) as Hs. destruct (evs m) as [ev|]; [|done].
  destruct (step_nearer ev _ _ Is I Hc Hs) as [[_ Hlt]|[Hp _]]; [exists (S m); split; lia|]. cbn in Hm. congruence.
Qed.

Lemma run_over b k :
  (forall n, (k <= n)%nat -> session_inv (run n) /\ teardown_inv (run n) /\ ctx_done (run n) = true) ->
  (todo (run k) <= b)%nat -> exists n, (k <= n)%nat /\ over (run n) = true.
Proof.
  revert k. induction b as [b IH] using lt_wf_ind. intros k Hinv Hb.
  destruct (over (run k)) eqn:Ho; [by exists k|]. destruct (Hinv k (le_n k)) as (Is & I & Hc).
  destruct (some_due _ Is I Hc Ho) as [d Hd]. destruct (measure_falls d k Hinv Hd) as (j & Hj & Hlt).
  destruct (IH (todo (run j)) ltac:(lia) j) as (n & Hn & Hov); [intros n Hn; apply Hinv; lia|done|].
  exists n. split; [lia|done].
Qed.
End run.

(** C40: From any event or cancellation on, every fair run of the session's goroutines reaches
    the end of its workflow with its request answered: everybody has joined, the socket is
    closed, no close of the transport is running, the lease is given back and the session
    unregistered.  Fair means that no goroutine stands for ever before a step it need not
    wait for: calls on the socket must return only once the socket is closed, calls on the
    SSH connection only once its transport is closed, waits on the context only once it is
    cancelled; so it is the teardown, with its forced close after the grace, that
    unblocks them. *)
Theorem teardown_completes run evs k :
  session_reachable subj (run 0%nat) -> fair_run run evs -> ended (run k) ->
  exists n, (k <= n)%nat /\ over (run n) = true /\
    pumps_joined (keep (run n)) (out_run (run n)) (in_run (run n)) = true /\ socket_open (run n) = false /\
    transport (run n) <> Closing /\ lease (run n) <> LHeld /\ is_Some (result (run n)) /\
    (is_Some subj -> unregistered (run n) = true).
Proof.
  intros R Hrun He.
  assert (forall n, session_reachable subj (run n)) as Rn.
  { intros n. unfold session_reachable. etrans; [exact R|]. eapply run_reachable; [exact Hrun|lia]. }
  assert (forall n, session_inv (run n)) as Is by (intros n; by apply session_inv_reachable).
  assert (forall n, (k <= n)%nat -> session_inv (run n) /\ teardown_inv (run n) /\ ctx_done (run n) = true) as Hinv.
  { intros n Hn. split_and!; [done|by apply teardown_reachable|].
    induction Hn as [|n Hn IH]; [destruct He as [He|]; [by apply (v_cancelled _ _ (Is k))|done]|].
    pose proof (fr_step _ _ Hrun n) as Hs. destruct (evs n) as [ev|]; [|by rewrite Hs].
    by apply (step_cancelled ev (run n)). }
  destruct (run_over run evs Hrun _ k Hinv (le_n _)) as (n & Hn & Ho). exists n. split; [done|]. split; [done|].
  assert (wf (run n) = WDone) as Hw by (unfold over in Ho; by destruct (wf (run n))).
  assert (past_join (wf (run n)) = true) as Hp by (by rewrite Hw).
  destruct (joined_of_past subj (run n) (Is n) Hp) as (_ & H2 & H3 & H4 & H5 & _ & H7).
  split_and!; [by rewrite H3, H4, H5|apply (i_socket _ (teardown_reachable _ (Rn n))); by right|done|
    by apply (v_held _ _ (Is n))|by apply (v_done _ _ (Is n))|by apply (v_left _ _ (Is n))].
Qed.
End teardown.

(** ** A concrete run

    A session is revoked while its shell runs; the peer answers nothing, so the close of
    the channel hangs until the grace has forced the transport. *)
Definition demo_script : list happening :=
  replicate 12 (EWork true) ++
  [ERevoked; ECancel; ETear; EClose true; EClose true; EGrace; ETransportClosed; EClose true; EKeep KCancelled; EOut OReadFailed;
   EIn IFailed; EWork true; EWork true; EJoin; EJoin; ETear; EWork true; EWork true; EWork true; EOwner].
Definition demo_run (n : nat) : sess := play (take n demo_script) registered_session.
Definition demo_evs (n : nat) : option happening := demo_script !! n.

Lemma demo_run_end n : (Datatypes.length demo_script <= n)%nat -> demo_run n = demo_run (Datatypes.length demo_script) /\ demo_evs n = None.
Proof.
  intros Hn. split; [|by apply lookup_ge_None_2]. unfold demo_run. by rewrite !take_ge by (done || lia).
Qed.

Lemma demo_run_fair : fair_run demo_subject demo_run demo_evs.
Proof.
  split.
  - intros n. destruct (decide (Datatypes.length demo_script <= n)%nat) as [Hn|Hn].
    + destruct (demo_run_end n Hn) as [-> ->]. by destruct (demo_run_end (S n)) as [-> _]; [lia|].
    + cbn in Hn. do 32 (destruct n as [|n]; [vm_compute; reflexivity|]). lia.
  - intros d n. exists (n + Datatypes.length demo_script)%nat. split; [lia|]. left.
    destruct (demo_run_end (n + Datatypes.length demo_script)) as [-> _]; [lia|]. destruct d; vm_compute; reflexivity.
Qed.

Lemma teardown_completes_witness :
  lease (demo_run 17) = LHeld /\
  exists n, (14 <= n)%nat /\ over (demo_run n) = true /\ lease (demo_run n) <> LHeld /\ unregistered (demo_run n) = true.
Proof.
  split; [vm_compute; reflexivity|].
  destruct (teardown_completes demo_subject demo_run demo_evs 14) as (n & Hn & Ho & _ & _ & _ & Hl & _ & Hu).
  - apply rtc_refl.
  - apply demo_run_fair.
  - right. vm_compute. reflexivity.
  - exists n. split; [exact Hn|]. split; [exact Ho|]. split; [exact Hl|]. apply Hu. by eexists.
Defined.

Example demo_run_forced : transport (demo_run 32) = Closed /\ lease (demo_run 32) = LDiscarded.
Proof. vm_compute. done. Qed.
